(* ===== verification/_CoqProject ===== *)
-Q . S2P
Prelude.v
Sums.v
Runs.v
SlotEpoch.v
ProtoArrayDefs.v
ProtoArrayWf.v
ProtoArrayWalk.v
ProtoArrayPrune.v
ProtoArrayExec.v
ProtoArrayScore.v
ProtoArrayGhost.v
ForkChoiceDefs.v
ForkChoiceOps.v
ComputeDeltas.v
VoteHistory.v
LmdGhost.v
ForkChoiceMaintenance.v
GloasDefs.v
GloasTree.v
GloasHead.v
GloasCorrect.v
ForkSchedule.v
ForkScheduleCorrect.v
ShuffleDefs.v
ShuffleCorrect.v
MerkleDefs.v
MerkleCorrect.v
DepositTree.v
SlashingDefs.v
DoppelgangerDefs.v
ValidatorStoreDefs.v
SlashingCorrect.v
SlashingSafety.v
SlashingComplete.v
SlashingImport.v
DoppelgangerCorrect.v
BeaconStateDefs.v
ValidatorDefs.v
CommitteeDefs.v
CommitteeCorrect.v
StateDefs.v
RegistryDefs.v
BlockDefs.v
EpbsDefs.v
JustificationDefs.v
EpochCacheDefs.v
OperationsDefs.v
RequestDefs.v
BlockProcessingDefs.v
EpochGloasDefs.v
EpochPassDefs.v
EpochBaseDefs.v
UpgradeDefs.v
SlotDefs.v
StateExample.v
SinglePass.v
ExitQueue.v
Selection.v
SlasherDefs.v
SlasherRecords.v
SlasherArrays.v
SlasherSurrounds.v
SlasherProcess.v
SlasherRuns.v
Ledger.v
LedgerSteps.v
LedgerOps.v
LedgerWithdrawals.v
LedgerEpoch.v
BuilderSolvency.v
ChainSafety.v
JustificationCorrect.v
FcStoreDefs.v
ForkChoiceRules.v
FcStoreCorrect.v
StoreSteps.v
VoteQueue.v
ForkChoiceRulesCorrect.v
BlockRules.v
StoreRules.v
