(* ===== verification/Prelude.v ===== *)
(** * Verification of the vibehouse consensus client

    vibehouse is a client of the Ethereum proof-of-stake chain, written in Rust.
    A beacon node follows the chain: it applies blocks to a beacon state, keeps
    the tree of blocks it knows, and chooses the head of the chain from the votes
    of the validators.  A validator client holds the keys of validators and signs
    their messages, and must never sign two messages for which a validator is
    slashed.  This library models the algorithms of both as functions and proves
    what makes them correct.

    ** How code is modelled

    A Rust function that returns a [Result] is a function to [outcome E A], with
    [Panic] for an aborted evaluation and [Diverge] for a loop whose fuel ran
    out.  A method on [&mut self] is a function of type [M S E A], which returns
    the changed state also when it fails, because Rust keeps the mutations made
    before an early return.  Integers are [Z], with the range checks and
    wrap-around of the source written out ([safe_add], [u64_saturating_sub], ...).
    Hash maps are [gmap], vectors are lists.  Names are the source's; a struct
    [Foo] is the record [Foo.t].  Every file that defines code says in its
    opening comment which files of [src/] it follows and which conventions it
    adds.

    ** The parts and their files

    - This file: outcomes, the state monad and its combinators ([for_each],
      [zoom], [keeps], [answers], [raises]), machine integers, and lemmas on lists
      that several parts share.  [Sums]: sums over lists.
    - Slots and epochs ([consensus/types/src/slot_epoch.rs]): [SlotEpoch].
    - The block tree ([consensus/proto_array/src/proto_array.rs]):
      [ProtoArrayDefs] has the data and operations; [ProtoArrayWf] the structural
      invariant; [ProtoArrayWalk] the walks to the root and concrete trees;
      [ProtoArrayScore] and [ProtoArrayGhost] the two passes over weights and best links;
      [ProtoArrayExec] the execution verdicts; [ProtoArrayPrune] pruning.
    - Votes and the head ([proto_array_fork_choice.rs], [justified_balances.rs],
      [ssz_container.rs]): [ForkChoiceDefs], [ForkChoiceOps] and, from the Gloas
      fork on, [GloasDefs] have the operations; [ComputeDeltas], [VoteHistory],
      [LmdGhost], [ForkChoiceMaintenance], [GloasTree], [GloasHead] and
      [GloasCorrect] the theorems.
    - The handlers of fork choice ([consensus/fork_choice/src/fork_choice.rs]) on
      top of the block tree and of a store.  [FcStoreDefs] has the interface of
      the store as a class with its laws, and its implementation
      ([beacon_chain/src/beacon_fork_choice_store.rs]) as an instance.
      [ForkChoiceRules] has the handlers, against the interface.  [StoreSteps]
      has a concrete client, the events of a client and the abstract steps of its
      store, [VoteQueue] the invariants of tree, votes and queue over events, and
      [ForkChoiceRulesCorrect], [BlockRules] and [StoreRules] the theorems.
    - The beacon state ([consensus/types/src/beacon_state.rs] and its caches):
      [BeaconStateDefs].
    - Finality ([state_processing/src/per_epoch_processing]):
      [JustificationDefs], with its refinement of Casper FFG in
      [JustificationCorrect].
    - The fork schedule ([fork_name.rs], [chain_spec.rs], [fork.rs]):
      [ForkSchedule], [ForkScheduleCorrect].
    - Committee shuffling ([consensus/swap_or_not_shuffle]): [ShuffleDefs],
      [ShuffleCorrect].
    - Merkle trees and deposits ([consensus/merkle_proof], [deposit_data_tree.rs]):
      [MerkleDefs], [MerkleCorrect], [DepositTree].
    - The validator client.  [SlashingDefs] is the slashing-protection database
      as SQLite tables, with a failure possible at every statement;
      [DoppelgangerDefs] the doppelganger service; [ValidatorStoreDefs] the store
      that consults both before it signs.  Their theorems are in
      [SlashingCorrect], [SlashingSafety], [SlashingComplete], [SlashingImport]
      and [DoppelgangerCorrect].
    - The slasher ([slasher/src]), which looks for votes and proposals of others
      that are slashable.  [SlasherDefs] has its configuration, its tables in the
      key-value store as finite maps, with a failure possible at every call, the
      queues, the min-max arrays and their chunks, and the processing of a batch.
      [SlasherRecords] has triples for code that may fail, and the records of
      votes; [SlasherArrays] the two walks over an array; [SlasherSurrounds] the
      class [TargetArray] of what an array promises, proved of the least and of
      the greatest targets, and the update of a chunk of validators against it;
      [SlasherProcess] a batch; [SlasherRuns] the calls of a slasher as a step
      relation, a run, and the theorems.
    - The state transition ([consensus/state_processing/src]).  [ValidatorDefs]
      has the validator record and the presets, [CommitteeDefs] the committee
      cache, [StateDefs] the fields of the state and its caches, [RegistryDefs]
      the accessors, balances, exits and churn.  Blocks: [BlockDefs] has the
      containers, the errors and the proposer, [OperationsDefs] attestations and
      slashings, [RequestDefs] exits, deposits and requests, [EpbsDefs] the bids,
      withdrawals and payload attestations of Gloas, [BlockProcessingDefs] the
      whole block and the payload envelope.  Epochs: [EpochCacheDefs],
      [EpochPassDefs] (the single pass of Altair and later), [EpochGloasDefs]
      (payments and the committee window of Gloas) and [EpochBaseDefs] (the base
      fork).  [UpgradeDefs] has the upgrade at each fork and [SlotDefs] the slot.
      [CommitteeCorrect], [Selection], [SinglePass] (on [Runs], which has the
      loops that commute), [ExitQueue] and, on the balances of builders, [Ledger],
      [LedgerSteps], [LedgerOps], [LedgerWithdrawals], [LedgerEpoch],
      [BuilderSolvency] and [ChainSafety] have the theorems; [StateExample] is a
      chain that goes from Fulu to Gloas and pays a builder.

    ** What the theorems show

    - The head.  Before Gloas, [find_head] gives each block the balance of the
      votes in its subtree and returns the block where the LMD-GHOST rule ends;
      from Gloas on it returns the node where the rule on virtual
      (block, payload status) nodes ends.  Deltas, latest messages, supporting
      votes and the proposer boost are the ones of their specifications, and an
      equivocating validator counts for nothing.
    - The tree.  Each operation keeps the structural invariant and the
      consistency of execution verdicts; invalidation and validation change
      exactly the blocks they must; pruning keeps the head and ancestry.
    - The handlers.  Over any sequence of events the store never goes back, the
      boost belongs to a timely block of the current slot, the client stays
      well formed, an accepted vote counts once its slot has passed, and
      [on_block] answers each case as stated.  A client that is stored and
      loaded is the same client.
    - Finality.  Epoch by epoch the code justifies and finalizes what Casper FFG
      does on the history of target votes.
    - Builders.  From the upgrade to Gloas on, over any sequence of slots, blocks
      and envelopes, the balance of a builder covers everything pending for it, and
      what a block withdraws from a builder is exactly what was owed.
    - Committees.  The committees of an epoch partition the active validators
      evenly, and the duty of a validator is its place in them.  The proposer, the
      sync committee and the payload timeliness committee are the candidates of the
      first attempts whose balance outweighs the random value.
    - Epochs.  The single pass over the validators is the passes of the
      specification, one after another, and no more balance leaves by an epoch than
      the churn limit admits.
    - The validator client.  Over any history of the store, with any failures of
      SQLite, no two messages released for a protected key are slashable together,
      also when a key moves to another client; the database answers each request
      as stated; a new key waits for a whole epoch without activity.
    - The slasher.  Over any sequence of calls, with failures of the database
      anywhere, each slashing found is of two accepted messages that conflict, and
      of two processed votes that conflict the validator is accused; processing
      never panics, always returns, and fails only with the database; pruning
      deletes what is older than the history and nothing else.  Assumed are roots
      that do not collide, a cache that returns what was put into it, any order of
      a hash set, a clock that does not go back and fewer than 2^48 attestations.
    - Shuffling, Merkle trees.  The whole-list shuffle agrees with the index-wise
      one; generated proofs verify, and a proof binds its leaf; the sparse tree
      refines a list of leaves and snapshots restore it.
    - Runs that go wrong are theorems too: balances that swap make weights drift,
      invalidation leaves a stale link, a slashing makes the balance cache inexact.

    ** Fuel

    Loops that follow parent links take the length of the array as fuel, which
    suffices because a parent has a smaller index (proved in [ProtoArrayWalk]).
    The Gloas walk takes the number of virtual nodes; [find_head_gloas] is proved
    never to run out.  The loop of [update_time] takes the distance of the clock
    to the slot it is given; [tick_loop_run] shows that it reaches it.  The loops
    that draw proposers and committees by weight have no bound in the source: they
    end when the hash accepts a candidate.  Their fuel is an argument, the
    theorems hold for any, and [Selection] shows that they answer once enough
    attempts are accepted.  The walks of the slasher over an array take the length
    of the history and two more, its catching up with the clock the epochs passed;
    [SlasherRuns] shows that none runs out.  All other loops are structural.

    ** Not modelled

    Hash functions and BLS signatures are parameters, because their code is
    outside the sources.  SSZ, tree hashing and serde are generated by macros
    outside the sources.  Networking, HTTP, the execution layer's client,
    databases, key stores and command lines are input and output.  Metrics and
    logs are left out of the functions that have them.  Of the state transition,
    the batches of signatures, the replay of blocks from the database, the
    construction of a genesis state and the queries on epoch summaries are not
    translated; the list of components in the manifest says of each remaining part
    why it is not. *)
From stdpp Require Export base list gmap fin_maps option.
From Stdlib Require Export ZArith Lia Bool.
Open Scope Z_scope.

(** ** Outcomes of Rust code

    [Ok] and [Err] are the constructors of [Result]; [Panic] is an aborted
    evaluation (an out-of-range index, an [expect] on [None]); [Diverge] marks
    a loop model whose fuel ran out, which stands for a loop that has not
    returned after that many iterations. *)
Inductive outcome (E A : Type) : Type :=
  | Ok (a : A)
  | Err (e : E)
  | Panic
  | Diverge.
Arguments Ok {E A} a.
Arguments Err {E A} e.
Arguments Panic {E A}.
Arguments Diverge {E A}.

Definition ok_or {E A : Type} (o : option A) (e : E) : outcome E A :=
  match o with Some a => Ok a | None => Err e end.

Definition expect {E A : Type} (o : option A) : outcome E A :=
  match o with Some a => Ok a | None => Panic end.

Definition map_err {E E' A : Type} (f : E → E') (o : outcome E A) : outcome E' A :=
  match o with Ok a => Ok a | Err e => Err (f e) | Panic => Panic | Diverge => Diverge end.

#[export] Instance outcome_ret E : MRet (outcome E) := fun _ a => Ok a.
#[export] Instance outcome_bind E : MBind (outcome E) := fun A B k m =>
  match m with Ok a => k a | Err e => Err e | Panic => Panic | Diverge => Diverge end.

(** ** Stateful fallible code

    A method on [&mut self] that returns a [Result].  The state survives an
    error: Rust keeps every mutation made before the early return. *)
Definition M (S E A : Type) : Type := S → outcome E A * S.

Section monad.
Context {S E : Type}.
#[export] Instance M_ret : MRet (M S E) := fun _ a s => (Ok a, s).
#[export] Instance M_bind : MBind (M S E) := fun A B k m s =>
  match m s with
  | (Ok a, s') => k a s'
  | (Err e, s') => (Err e, s')
  | (Panic, s') => (Panic, s')
  | (Diverge, s') => (Diverge, s')
  end.

Definition get : M S E S := fun s => (Ok s, s).
Definition gets {A} (f : S → A) : M S E A := fun s => (Ok (f s), s).
Definition modify (f : S → S) : M S E unit := fun s => (Ok tt, f s).
Definition throw {A} (e : E) : M S E A := fun s => (Err e, s).
Definition lift {A} (o : outcome E A) : M S E A := fun s => (o, s).
Definition when (b : bool) (m : M S E unit) : M S E unit :=
  if b then m else mret tt.

(** Run [m] on a view of the state: [into] builds the view's state from the
    caller's (local variables of a method beside [self]) and [back] writes
    the view back, also when [m] returns early. *)
Definition zoom {S' A} (into : S → S') (back : S' → S → S) (m : S' → outcome E A * S')
    : M S E A :=
  fun s => let '(r, s') := m (into s) in (r, back s' s).

(** A [for] loop whose body may return early with [?]. *)
Fixpoint for_each {A} (l : list A) (f : A → M S E unit) : M S E unit :=
  match l with
  | [] => mret tt
  | x :: l' => f x ;; for_each l' f
  end.

Lemma bind_ok {A B} (m : M S E A) (k : A → M S E B) s b s' :
  (m ≫= k) s = (Ok b, s') ↔ ∃ a s1, m s = (Ok a, s1) ∧ k a s1 = (Ok b, s').
Proof.
  unfold mbind, M_bind. split.
  - destruct (m s) as [[a|e| |] s1]; intros H; try discriminate. eauto.
  - intros (a & s1 & -> & Hk). done.
Qed.

Lemma bind_ok_eq {A B} (m : M S E A) (k : A → M S E B) s a s1 :
  m s = (Ok a, s1) → (m ≫= k) s = k a s1.
Proof. unfold mbind, M_bind. by intros ->. Qed.

Lemma bind_err_eq {A B} (m : M S E A) (k : A → M S E B) s e s1 :
  m s = (Err e, s1) → (m ≫= k) s = (Err e, s1).
Proof. unfold mbind, M_bind. by intros ->. Qed.

(** [m] returns, with a value or an error: it neither panics nor diverges. *)
Definition returns {A} (o : outcome E A) : Prop :=
  match o with Ok _ | Err _ => True | _ => False end.
Definition answers {A} (m : M S E A) : Prop := ∀ s, returns (m s).1.

Lemma answers_bind {A B} (m : M S E A) (k : A → M S E B) :
  answers m → (∀ a, answers (k a)) → answers (m ≫= k).
Proof.
  intros Hm Hk s. specialize (Hm s). unfold mbind, M_bind.
  destruct (m s) as [[a|e| |] s1]; [apply Hk|done..].
Qed.
Lemma answers_ret {A} (a : A) : answers (mret a).
Proof. done. Qed.
Lemma answers_throw {A} (e : E) : answers (A:=A) (throw e).
Proof. done. Qed.
Lemma answers_get : answers get.
Proof. done. Qed.
Lemma answers_modify f : answers (modify f).
Proof. done. Qed.
Lemma answers_lift {A} (o : outcome E A) : returns o → answers (lift o).
Proof. by intros H s. Qed.
Lemma answers_ok_or {A} (o : option A) (e : E) : answers (lift (ok_or o e)).
Proof. intros s. by destruct o. Qed.
Lemma answers_when b (m : M S E unit) : answers m → answers (when b m).
Proof. destruct b; [done|]. intros _. apply answers_ret. Qed.
Lemma answers_for_each {A} (l : list A) (f : A → M S E unit) :
  (∀ x, answers (f x)) → answers (for_each l f).
Proof.
  intros Hf. induction l as [|x l IH]; [apply answers_ret|]. simpl. apply answers_bind; [apply Hf|]. by intros [].
Qed.
Lemma answers_zoom {S' A} into back (m : S' → outcome E A * S') :
  (∀ s', returns (m s').1) → answers (zoom into back m).
Proof. intros Hm s. unfold zoom. specialize (Hm (into s)). by destruct (m (into s)). Qed.

Lemma bind_run {A B} (m : M S E A) (k : A → M S E B) s r s' :
  (m ≫= k) s = (r, s') →
  (∃ a s1, m s = (Ok a, s1) ∧ k a s1 = (r, s')) ∨
  (∃ e, m s = (Err e, s') ∧ r = Err e) ∨
  ((m s).2 = s' ∧ ¬ returns (m s).1 ∧ ¬ returns r).
Proof.
  unfold mbind, M_bind. destruct (m s) as [[a|e| |] s1]; [by eauto 6| |..]; intros [= <- <-];
    [right; left; by eauto|right; right; simpl; tauto..].
Qed.

(** [m] keeps [P], whatever its outcome. *)
Definition keeps {A} (P : S → Prop) (m : M S E A) : Prop :=
  ∀ s, P s → P (m s).2.

Lemma keeps_bind {A B} P (m : M S E A) (k : A → M S E B) :
  keeps P m → (∀ a, keeps P (k a)) → keeps P (m ≫= k).
Proof.
  unfold keeps, mbind, M_bind. intros Hm Hk s Hs. specialize (Hm s Hs).
  destruct (m s) as [[a|e| |] s1]; simpl in *; auto.
Qed.

Lemma keeps_ret {A} P (a : A) : keeps P (mret a).
Proof. by intros s Hs. Qed.
Lemma keeps_lift {A} P (o : outcome E A) : keeps P (lift o).
Proof. by intros s Hs. Qed.
Lemma keeps_throw {A} P (e : E) : keeps P (throw (A:=A) e).
Proof. by intros s Hs. Qed.
Lemma keeps_get P : keeps P get.
Proof. by intros s Hs. Qed.
Lemma keeps_gets {A} P (f : S → A) : keeps P (gets f).
Proof. by intros s Hs. Qed.
Lemma keeps_modify P (f : S → S) : (∀ s, P s → P (f s)) → keeps P (modify f).
Proof. intros Hf s Hs. by apply Hf. Qed.
(** The code that follows a read runs in the state it read. *)
Lemma keeps_get_bind {A} P (k : S → M S E A) :
  (∀ s, P s → P (k s s).2) → keeps P (get ≫= k).
Proof. intros Hk s Hs. by apply Hk. Qed.
Lemma keeps_get_known {A} P (k : S → M S E A) :
  (∀ s, P s → keeps P (k s)) → keeps P (get ≫= k).
Proof. intros Hk s Hs. by apply Hk. Qed.
Lemma keeps_from {A B} P (m : M S E A) (k : A → M S E B) s :
  P (m s).2 → (∀ a, keeps P (k a)) → P ((m ≫= k) s).2.
Proof. unfold mbind, M_bind. intros Hm Hk. destruct (m s) as [[a|e| |] s1]; simpl in *; by try apply Hk. Qed.
Lemma keeps_when P b (m : M S E unit) : keeps P m → keeps P (when b m).
Proof. destruct b; [done|]. intros _. apply keeps_ret. Qed.

Lemma keeps_zoom {S' A} P (Q : S' → Prop) into back (m : S' → outcome E A * S') :
  (∀ s, P s → Q (into s)) → (∀ s s', P s → Q s' → P (back s' s)) →
  (∀ s', Q s' → Q (m s').2) → keeps P (zoom into back m).
Proof.
  intros Hi Hb Hm s Hs. unfold zoom. specialize (Hm _ (Hi s Hs)).
  destruct (m (into s)) as [o s']. simpl in *. auto.
Qed.

Lemma keeps_for_each {A} P (l : list A) (f : A → M S E unit) :
  (∀ x, x ∈ l → keeps P (f x)) → keeps P (for_each l f).
Proof.
  induction l as [|x l IH]; intros Hf; [apply keeps_ret|].
  simpl. apply keeps_bind; [apply Hf; left|]. intros _. apply IH.
  intros y Hy. apply Hf. by right.
Qed.

(** [m] fails only with errors in [P]. *)
Definition raises {A} (P : E → Prop) (m : M S E A) : Prop := ∀ s e, (m s).1 = Err e → P e.

Lemma raises_bind {A B} P (m : M S E A) (k : A → M S E B) : raises P m → (∀ a, raises P (k a)) → raises P (m ≫= k).
Proof.
  unfold raises, mbind, M_bind. intros Hm Hk s e. specialize (Hm s). destruct (m s) as [[a|e'| |] s1]; simpl in *;
    [apply Hk|by intros [= <-]; apply Hm|done..].
Qed.
Lemma raises_ret {A} P (a : A) : raises P (mret a).
Proof. by intros s e. Qed.
Lemma raises_get P : raises P get.
Proof. by intros s e. Qed.
Lemma raises_modify P f : raises P (modify f).
Proof. by intros s e. Qed.
Lemma raises_lift {A} (P : E → Prop) (o : outcome E A) : (∀ e, o = Err e → P e) → raises P (lift o).
Proof. intros Ho s e. apply Ho. Qed.
Lemma raises_throw {A} (P : E → Prop) (e : E) : P e → raises P (throw (A:=A) e).
Proof. by intros He s e' [= <-]. Qed.
Lemma raises_when P b (m : M S E unit) : raises P m → raises P (when b m).
Proof. destruct b; [done|]. intros _. apply raises_ret. Qed.
Lemma raises_for_each {A} P (l : list A) (f : A → M S E unit) : (∀ x, raises P (f x)) → raises P (for_each l f).
Proof.
  intros Hf. induction l as [|x l IH]; [apply raises_ret|]. simpl. apply raises_bind; [apply Hf|]. by intros [].
Qed.

Lemma for_each_app {A} (l1 l2 : list A) (f : A → M S E unit) s :
  for_each (l1 ++ l2) f s = (for_each l1 f ;; for_each l2 f) s.
Proof.
  revert s. induction l1 as [|x l1 IH]; intros s; [done|]. simpl.
  unfold mbind, M_bind. destruct (f x s) as [[[]|e| |] s1]; auto.
Qed.

(** Rule for [for k in (0..n).rev()]: [I k] holds when indices [k..n] are done. *)
Lemma for_rev_ok (f : nat → M S E unit) (I : nat → S → Prop) n s s' :
  I n s →
  (∀ k s1 s2, (k < n)%nat → I (Datatypes.S k) s1 → f k s1 = (Ok tt, s2) → I k s2) →
  for_each (rev (seq 0 n)) f s = (Ok tt, s') → I 0%nat s'.
Proof.
  revert s. induction n as [|n IH]; intros s Hn Hstep.
  - simpl. by intros [= <-].
  - rewrite seq_S, rev_app_distr. simpl.
    intros ([] & s1 & H1 & H2)%bind_ok.
    apply (IH s1); [by eapply Hstep; [lia|..]| |done].
    intros k sa sb Hk. apply Hstep. lia.
Qed.

(** Total version: every iteration returns [Ok], so the loop does. *)
Lemma for_rev_total (f : nat → M S E unit) (I : nat → S → Prop) n s :
  I n s →
  (∀ k s1, (k < n)%nat → I (Datatypes.S k) s1 →
     ∃ s2, f k s1 = (Ok tt, s2) ∧ I k s2) →
  ∃ s', for_each (rev (seq 0 n)) f s = (Ok tt, s') ∧ I 0%nat s'.
Proof.
  revert s. induction n as [|n IH]; intros s Hn Hstep; [simpl; by eauto|].
  rewrite seq_S, rev_app_distr. simpl.
  destruct (Hstep n s) as (s1 & H1 & HI1); [lia|done|].
  destruct (IH s1) as (s2 & H2 & HI2); [done| |].
  { intros k sa Hk. apply Hstep. lia. }
  exists s2. split; [|done]. by rewrite (bind_ok_eq _ _ _ _ _ H1).
Qed.

(** Rule for [for k in a..a+n] ascending. *)
Lemma for_seq_ok (f : nat → M S E unit) (I : nat → S → Prop) a n s s' :
  I a s →
  (∀ k s1 s2, (a ≤ k < a + n)%nat → I k s1 → f k s1 = (Ok tt, s2) → I (Datatypes.S k) s2) →
  for_each (seq a n) f s = (Ok tt, s') → I (a + n)%nat s'.
Proof.
  revert a s. induction n as [|n IH]; intros a s Ha Hstep; simpl.
  - rewrite Nat.add_0_r. by intros [= <-].
  - intros ([] & s1 & H1 & H2)%bind_ok.
    rewrite Nat.add_succ_r, <-Nat.add_succ_l. apply (IH (Datatypes.S a) s1); [| |done].
    + by eapply Hstep; [lia|..].
    + intros k sa sb Hk. apply Hstep. lia.
Qed.

Lemma for_seq_total (f : nat → M S E unit) (I : nat → S → Prop) a n s :
  I a s →
  (∀ k s1, (a ≤ k < a + n)%nat → I k s1 → ∃ s2, f k s1 = (Ok tt, s2) ∧ I (Datatypes.S k) s2) →
  ∃ s', for_each (seq a n) f s = (Ok tt, s') ∧ I (a + n)%nat s'.
Proof.
  revert a s. induction n as [|n IH]; intros a s Ha Hstep; simpl.
  - rewrite Nat.add_0_r. eauto.
  - destruct (Hstep a s) as (s1 & H1 & HI1); [lia|done|].
    destruct (IH (Datatypes.S a) s1) as (s2 & H2 & HI2); [done| |].
    { intros k sa Hk. apply Hstep. lia. }
    exists s2. split; [by rewrite (bind_ok_eq _ _ _ _ _ H1)|].
    by rewrite Nat.add_succ_r, <-Nat.add_succ_l.
Qed.

(** Rule for a loop over any list; [I done] holds after the prefix [done]. *)
Lemma for_each_total {A} (f : A → M S E unit) (I : list A → S → Prop) l s :
  I [] s →
  (∀ done x rest s1, l = done ++ x :: rest → I done s1 →
     ∃ s2, f x s1 = (Ok tt, s2) ∧ I (done ++ [x]) s2) →
  ∃ s', for_each l f s = (Ok tt, s') ∧ I l s'.
Proof.
  intros H0 Hstep.
  enough (∀ rest done s1, l = done ++ rest → I done s1 →
    ∃ s', for_each rest f s1 = (Ok tt, s') ∧ I l s') as H by (by eapply (H l [])).
  induction rest as [|x rest IH]; intros pre s1 -> HI.
  - rewrite app_nil_r. simpl. eauto.
  - destruct (Hstep pre x rest s1 eq_refl HI) as (s2 & H2 & HI2).
    destruct (IH (pre ++ [x]) s2) as (s3 & H3 & HI3); [by rewrite <-app_assoc|done|].
    exists s3. split; [|done]. simpl. by rewrite (bind_ok_eq _ _ _ _ _ H2).
Qed.

(** [m] run in [s] returns: [Q] holds of a result and the state reached, [R]
    of an error. *)
Definition ends {A} (m : M S E A) (s : S) (Q : A → S → Prop) (R : E → Prop) : Prop :=
  match m s with
  | (Ok a, s') => Q a s'
  | (Err e, _) => R e
  | (Panic, _) | (Diverge, _) => False
  end.

Lemma ends_bind {A B} (m : M S E A) (k : A → M S E B) s Q R :
  ends m s (fun a s1 => ends (k a) s1 Q R) R → ends (m ≫= k) s Q R.
Proof. unfold ends, mbind, M_bind. by destruct (m s) as [[a|e| |] s1]. Qed.

Lemma ends_get_bind {A} (k : S → M S E A) s Q R :
  ends (k s) s Q R → ends (get ≫= k) s Q R.
Proof. done. Qed.

Lemma ends_lookup_bind {A B} (o : option A) a e (k : A → M S E B) s Q R :
  o = Some a → ends (k a) s Q R → ends (lift (ok_or o e) ≫= k) s Q R.
Proof. by intros ->. Qed.

Lemma ends_mono {A} (m : M S E A) s (Q Q' : A → S → Prop) (R R' : E → Prop) :
  ends m s Q R → (∀ a s', Q a s' → Q' a s') → (∀ e, R e → R' e) → ends m s Q' R'.
Proof. unfold ends. destruct (m s) as [[a|e| |] s1]; auto. Qed.

Lemma ends_for_seq (f : nat → M S E unit) (I : nat → S → Prop) R a n s :
  I a s →
  (∀ k s1, (a ≤ k < a + n)%nat → I k s1 → ends (f k) s1 (fun _ => I (Datatypes.S k)) R) →
  ends (for_each (seq a n) f) s (fun _ => I (a + n)%nat) R.
Proof.
  revert a s. induction n as [|n IH]; intros a s Ha Hstep; simpl.
  - by rewrite Nat.add_0_r.
  - apply ends_bind. eapply ends_mono; [apply Hstep; [lia|done]| |done]. intros [] s1 HI.
    rewrite Nat.add_succ_r, <-Nat.add_succ_l. apply IH; [done|].
    intros k sa Hk. apply Hstep. lia.
Qed.
End monad.

(** ** The [?] operator

    [From E E'] is the trait that converts the error of a call into the error of
    the caller; [try] is [?] on a value, [call] is [?] on a method of the same
    state. *)
Class From (E E' : Type) : Type := from_err : E → E'.
#[export] Instance from_refl E : From E E | 10 := id.

Definition into {E E' A} `{From E E'} (o : outcome E A) : outcome E' A := map_err from_err o.
Definition try {S E E' A} `{From E E'} (o : outcome E A) : M S E' A := lift (into o).
Definition call {S E E' A} `{From E E'} (m : M S E A) : M S E' A :=
  fun s => let '(r, s') := m s in (into r, s').

(** [map_err] on a method. *)
Definition rethrow {S E E' A} (f : E → E') (m : M S E A) : M S E' A :=
  fun s => let '(r, s') := m s in (map_err f r, s').

Lemma into_ok {E E' A} `{From E E'} (o : outcome E A) a : into o = Ok a ↔ o = Ok a.
Proof. destruct o; naive_solver. Qed.
Lemma try_ok {S E E' A} `{From E E'} (o : outcome E A) (s s' : S) a :
  try o s = (Ok a, s') ↔ o = Ok a ∧ s' = s.
Proof. unfold try, lift. destruct o; naive_solver. Qed.
Lemma call_ok {S E E' A} `{From E E'} (m : M S E A) (s s' : S) a :
  call m s = (Ok a, s') ↔ m s = (Ok a, s').
Proof. unfold call. destruct (m s) as [[] ?]; naive_solver. Qed.
Lemma call_state {S E E' A} `{From E E'} (m : M S E A) (s : S) : (call m s).2 = (m s).2.
Proof. unfold call. by destruct (m s). Qed.
Lemma keeps_try {S E E' A} `{From E E'} P (o : outcome E A) : keeps P (try (S:=S) o).
Proof. apply keeps_lift. Qed.
Lemma keeps_call {S E E' A} `{From E E'} P (m : M S E A) : keeps P m → keeps P (call m).
Proof. intros Hm s Hs. rewrite call_state. by apply Hm. Qed.

Lemma rethrow_ok {S E E' A} (f : E → E') (m : M S E A) (s s' : S) a :
  rethrow f m s = (Ok a, s') ↔ m s = (Ok a, s').
Proof. unfold rethrow. destruct (m s) as [[] ?]; naive_solver. Qed.
Lemma rethrow_state {S E E' A} (f : E → E') (m : M S E A) (s : S) : (rethrow f m s).2 = (m s).2.
Proof. unfold rethrow. by destruct (m s). Qed.
Lemma keeps_rethrow {S E E' A} P (f : E → E') (m : M S E A) : keeps P m → keeps P (rethrow f m).
Proof. intros Hm s Hs. rewrite rethrow_state. by apply Hm. Qed.

Create HintDb keeps.
#[export] Hint Resolve keeps_ret keeps_lift keeps_throw keeps_get keeps_gets keeps_try : keeps.

(** Decompose a [keeps] goal along the structure of the code, leaving the
    assignments and the loops. *)
Ltac keeps_steps :=
  repeat match goal with
  | |- keeps _ (mbind _ _) => apply keeps_bind; [|intros ?]
  | |- keeps _ (when _ _) => apply keeps_when
  | |- keeps _ (call _) => apply keeps_call
  | |- keeps _ (rethrow _ _) => apply keeps_rethrow
  | |- keeps _ (if ?b then _ else _) => destruct b
  | |- keeps _ (match ?x with _ => _ end) => destruct x
  | |- keeps _ _ => solve [auto with keeps nocore]
  end.

(** [m] started in [s] keeps [P]: the form of [keeps] that knows the values read
    before. *)
Definition stays {S E A} (P : S → Prop) (m : M S E A) (s : S) : Prop := P (m s).2.

Lemma stays_keeps {S E A} P (m : M S E A) (s : S) : keeps P m → P s → stays P m s.
Proof. intros Hm. apply Hm. Qed.
Lemma keeps_stays {S E A} P (m : M S E A) : (∀ s : S, P s → stays P m s) → keeps P m.
Proof. done. Qed.
Lemma stays_get {S E A} P (k : S → M S E A) s : stays P (k s) s → stays P (get ≫= k) s.
Proof. done. Qed.
Lemma stays_lift {S E A B} P (o : outcome E A) (k : A → M S E B) s :
  P s → (∀ a, o = Ok a → stays P (k a) s) → stays P (lift o ≫= k) s.
Proof. unfold stays, lift, mbind, M_bind. destruct o; naive_solver. Qed.
Lemma stays_try {S E E' A B} `{From E E'} P (o : outcome E A) (k : A → M S E' B) s :
  P s → (∀ a, o = Ok a → stays P (k a) s) → stays P (try o ≫= k) s.
Proof. intros Hs Hk. apply (stays_lift _ (into o)); [done|]. intros a Ha. apply Hk. by apply (into_ok o a). Qed.
Lemma keeps_try_known {S E E' A B} `{From E E'} P (o : outcome E A) (k : A → M S E' B) :
  (∀ a, o = Ok a → keeps P (k a)) → keeps P (try o ≫= k).
Proof. intros Hk. apply keeps_stays. intros s Hs. apply stays_try; [done|]. intros a Ha. by apply Hk. Qed.
Lemma stays_modify {S E} P f s : P (f s) → stays P (modify (S:=S) (E:=E) f) s.
Proof. done. Qed.
Lemma stays_when {S E} P b (m : M S E unit) s : P s → (b = true → stays P m s) → stays P (when b m) s.
Proof. destruct b; [auto|done]. Qed.
(** The first part is known, the rest keeps [P]. *)
Lemma stays_then {S E A B} P (m : M S E A) (k : A → M S E B) s :
  stays P m s → (∀ a, keeps P (k a)) → stays P (m ≫= k) s.
Proof. apply keeps_from. Qed.
Lemma stays_call {S E E' A} `{From E E'} P (m : M S E A) s : stays P m s → stays P (call m) s.
Proof. unfold stays. by rewrite call_state. Qed.

(** Run the reads of a method. *)
Ltac stays_steps :=
  repeat match goal with
  | |- keeps _ (get ≫= _) => apply keeps_stays; intros ? ?
  | |- stays _ (get ≫= _) _ => apply stays_get
  | |- stays _ (lift _ ≫= _) _ => apply stays_lift; [assumption|intros ? ?]
  | |- stays _ (try _ ≫= _) _ => apply stays_try; [assumption|intros ? ?]
  | |- stays _ (when _ _) _ => apply stays_when; [assumption|intros ?]
  | |- stays _ (call _) _ => apply stays_call
  | |- stays _ (if ?b then _ else _) _ => destruct b eqn:?
  | |- stays _ (match ?x with _ => _ end) _ => destruct x eqn:?
  | |- stays _ (mret _) _ => assumption
  | |- stays _ (throw _) _ => assumption
  | |- stays _ (modify _) _ => apply stays_modify
  | |- stays _ _ _ => apply stays_keeps; [solve [auto with keeps nocore]|assumption]
  end.

(** [m] keeps [P] when it succeeds; an error drops the state. *)
Definition maintains {S E A} (P : S → Prop) (m : M S E A) : Prop := ∀ s a s', P s → m s = (Ok a, s') → P s'.
Lemma maintains_keeps {S E A} P (m : M S E A) : keeps P m → maintains P m.
Proof. intros Hm s a s' Hs H. specialize (Hm s Hs). by rewrite H in Hm. Qed.
Lemma maintains_bind {S E A B} P (m : M S E A) (k : A → M S E B) :
  maintains P m → (∀ a, maintains P (k a)) → maintains P (m ≫= k).
Proof. intros Hm Hk s b s' Hs (a & s1 & H1 & H2)%bind_ok. eapply Hk; [|exact H2]. by eapply Hm. Qed.
Lemma maintains_call {S E E' A} `{From E E'} P (m : M S E A) : maintains P m → maintains P (call m).
Proof. intros Hm s a s' Hs H1. eapply Hm; [done|]. by apply (call_ok m) in H1. Qed.
Lemma maintains_when {S E} P b (m : M S E unit) : maintains P m → maintains P (when b m).
Proof. intros Hm. destruct b; [exact Hm|]. intros s a s' Hs [= _ <-]. exact Hs. Qed.
Ltac maintains_steps :=
  repeat first
    [ solve [auto]
    | solve [apply maintains_keeps; keeps_steps]
    | match goal with |- maintains _ (match ?x with pair _ _ => _ end) => destruct x end
    | apply maintains_when | apply maintains_call
    | apply maintains_bind; [|intros ?] ].

Create HintDb raises.
#[export] Hint Resolve raises_ret raises_get raises_modify : raises.

(** The same for [raises]. *)
Ltac raises_steps :=
  repeat match goal with
  | |- raises _ (mbind _ _) => apply raises_bind; [|intros ?]
  | |- raises _ (when _ _) => apply raises_when
  | |- raises _ (if ?b then _ else _) => destruct b
  | |- raises _ (match ?x with _ => _ end) => destruct x
  | |- raises _ _ => solve [auto with raises nocore]
  end.

(** ** Rust machine integers

    A [u64] or [i64] is a [Z]; the operations write out what Rust does at the
    end of the range. *)
Definition u64_max : Z := 2 ^ 64 - 1.
Definition i64_min : Z := - 2 ^ 63.
Definition i64_max : Z := 2 ^ 63 - 1.
Definition is_u64 (z : Z) : Prop := 0 ≤ z ≤ u64_max.
Definition is_i64 (z : Z) : Prop := i64_min ≤ z ≤ i64_max.

(** u64::checked_add and the like: [None] outside the range. *)
Definition checked_u64 (z : Z) : option Z :=
  if (0 <=? z) && (z <=? u64_max) then Some z else None.
Definition u64_checked_add (a b : Z) : option Z := checked_u64 (a + b).
Definition u64_checked_sub (a b : Z) : option Z := checked_u64 (a - b).
Definition u64_checked_mul (a b : Z) : option Z := checked_u64 (a * b).
Definition u64_checked_div (a b : Z) : option Z :=
  if b =? 0 then None else Some (a / b).
Definition u64_checked_rem (a b : Z) : option Z :=
  if b =? 0 then None else Some (a mod b).

Definition u64_saturating_add (a b : Z) : Z := Z.min (a + b) u64_max.
Definition u64_saturating_sub (a b : Z) : Z := Z.max (a - b) 0.
Definition u64_saturating_mul (a b : Z) : Z := Z.min (a * b) u64_max.

Definition checked_i64 (z : Z) : option Z :=
  if (i64_min <=? z) && (z <=? i64_max) then Some z else None.
Definition i64_checked_add (a b : Z) : option Z := checked_i64 (a + b).
Definition i64_checked_sub (a b : Z) : option Z := checked_i64 (a - b).

(** Two's complement: [x as i64], [x as u64] and wrapping [i64] addition. *)
Definition as_i64 (z : Z) : Z := (z + 2 ^ 63) mod 2 ^ 64 - 2 ^ 63.
Definition as_u64 (z : Z) : Z := z mod 2 ^ 64.
Definition i64_wrapping_add (a b : Z) : Z := as_i64 (a + b).

(** [x.to_le_bytes()] and back, for [k] bytes. *)
Fixpoint to_le_bytes (k : nat) (x : Z) : list Z :=
  match k with
  | O => []
  | S k' => x mod 256 :: to_le_bytes k' (x / 256)
  end.
Definition from_le_bytes (l : list Z) : Z := foldr (fun b acc => b + 256 * acc) 0 l.

Lemma as_i64_small z : is_i64 z → as_i64 z = z.
Proof. unfold is_i64, i64_min, i64_max, as_i64. intros. rewrite Z.mod_small; lia. Qed.

Lemma as_u64_small z : is_u64 z → as_u64 z = z.
Proof. unfold is_u64, u64_max, as_u64. intros. apply Z.mod_small; lia. Qed.

Lemma checked_u64_Some z r : checked_u64 z = Some r ↔ r = z ∧ is_u64 z.
Proof.
  unfold checked_u64, is_u64.
  destruct (Z.leb_spec 0 z), (Z.leb_spec z u64_max); simpl; split; intros H1;
    try discriminate; try (injection H1 as <-; lia); destruct H1 as [-> ?]; try lia; done.
Qed.

Lemma checked_i64_Some z r : checked_i64 z = Some r ↔ r = z ∧ is_i64 z.
Proof.
  unfold checked_i64, is_i64.
  destruct (Z.leb_spec i64_min z), (Z.leb_spec z i64_max); simpl; split; intros H1;
    try discriminate; try (injection H1 as <-; lia); destruct H1 as [-> ?]; try lia; done.
Qed.

Lemma checked_u64_in z : is_u64 z → checked_u64 z = Some z.
Proof. intros. by apply checked_u64_Some. Qed.

Lemma checked_i64_in z : is_i64 z → checked_i64 z = Some z.
Proof. intros. by apply checked_i64_Some. Qed.

Lemma u64_saturating_add_eq a b : is_u64 (a + b) → u64_saturating_add a b = a + b.
Proof. unfold is_u64, u64_saturating_add. lia. Qed.
Lemma u64_saturating_sub_eq a b : is_u64 (a - b) → u64_saturating_sub a b = a - b.
Proof. unfold is_u64, u64_saturating_sub. lia. Qed.
Lemma u64_saturating_mul_eq a b : is_u64 (a * b) → u64_saturating_mul a b = a * b.
Proof. unfold is_u64, u64_saturating_mul. lia. Qed.

Lemma checked_u64_None z : checked_u64 z = None ↔ ¬ is_u64 z.
Proof.
  unfold checked_u64, is_u64.
  destruct (Z.leb_spec 0 z), (Z.leb_spec z u64_max); simpl; split; intros H1;
    try discriminate; try lia; done.
Qed.

(** Boolean tests of the code to propositions, then arithmetic. *)
Ltac btoprop :=
  repeat match goal with
  | H : andb _ _ = true |- _ => apply andb_true_iff in H as [? ?]
  | H : orb _ _ = false |- _ => apply orb_false_iff in H as [? ?]
  | H : negb _ = true |- _ => apply negb_true_iff in H
  | H : negb _ = false |- _ => apply negb_false_iff in H
  | H : (_ =? _) = true |- _ => apply Z.eqb_eq in H
  | H : (_ =? _) = false |- _ => apply Z.eqb_neq in H
  | H : (_ <? _) = true |- _ => apply Z.ltb_lt in H
  | H : (_ <? _) = false |- _ => apply Z.ltb_ge in H
  | H : (_ <=? _) = true |- _ => apply Z.leb_le in H
  | H : (_ <=? _) = false |- _ => apply Z.leb_gt in H
  end.

(** Open a successful run of monadic code into its steps. *)
Ltac inv_ok H :=
  repeat match type of H with
  | (mbind _ _) _ = (Ok _, _) =>
      let a := fresh "a" in let s1 := fresh "s" in let H1 := fresh "Hm" in
      apply bind_ok in H as (a & s1 & H1 & H); try inv_ok H1
  | lift (ok_or ?o _) _ = (Ok _, _) =>
      let E := fresh "Ho" in
      unfold lift in H; destruct o eqn:E; simpl in H; [|discriminate];
      injection H as ? ?; subst
  | try _ _ = (Ok _, _) => apply try_ok in H as [H ?]; subst
  | call _ _ = (Ok _, _) => apply call_ok in H
  | rethrow _ _ _ = (Ok _, _) => apply rethrow_ok in H
  | get _ = (Ok _, _) => injection H as ? ?; subst
  | gets _ _ = (Ok _, _) => injection H as ? ?; subst
  | modify _ _ = (Ok _, _) => injection H as ? ?; subst
  | mret _ _ = (Ok _, _) => injection H as ? ?; subst
  | throw _ _ = (Ok _, _) => discriminate H
  end.

(** The same for outcomes without state. *)
Lemma out_bind_ok {E A B} (o : outcome E A) (k : A → outcome E B) b :
  o ≫= k = Ok b → ∃ a, o = Ok a ∧ k a = Ok b.
Proof. destruct o; naive_solver. Qed.
Lemma map_err_ok {E E' A} (f : E → E') (o : outcome E A) a : map_err f o = Ok a → o = Ok a.
Proof. destruct o; naive_solver. Qed.
Lemma ok_or_ok {E A} (o : option A) (e : E) a : ok_or o e = Ok a → o = Some a.
Proof. destruct o; simpl; congruence. Qed.
Lemma into_inv {E E' A} `{From E E'} (o : outcome E A) a : into o = Ok a → o = Ok a.
Proof. apply map_err_ok. Qed.
Ltac inv_out H :=
  repeat match type of H with
  | _ ≫= _ = Ok _ =>
      let a := fresh "a" in let H1 := fresh "Ho" in
      apply out_bind_ok in H as (a & H1 & H); try inv_out H1
  | into _ = Ok _ => apply into_inv in H
  | map_err _ _ = Ok _ => apply map_err_ok in H
  | ok_or _ _ = Ok _ => apply ok_or_ok in H
  | Ok _ = Ok _ => injection H as H; subst
  | Err _ = Ok _ => discriminate H
  | Panic = Ok _ => discriminate H
  | Diverge = Ok _ => discriminate H
  end.
