(* ===== verification/Sums.v ===== *)
(** * Finite sums of integers

    Sums over lists, used to state and prove the weight equations of fork
    choice. *)
From S2P Require Import Prelude.

Definition zsum {A} (f : A → Z) (l : list A) : Z := foldr (fun x acc => f x + acc) 0 l.
Arguments zsum : simpl never.

(** The value [x] where [b] holds, zero elsewhere. *)
Definition gate (b : bool) (x : Z) : Z := if b then x else 0.

Section zsum.
Context {A : Type}.
Implicit Types (f g : A → Z) (l : list A).

Lemma zsum_cons f x l : zsum f (x :: l) = f x + zsum f l.
Proof. done. Qed.

Lemma zsum_app f l1 l2 : zsum f (l1 ++ l2) = zsum f l1 + zsum f l2.
Proof. induction l1 as [|x l1 IH]; simpl; [done|]. rewrite !zsum_cons, IH. lia. Qed.

Lemma zsum_ext f g l : (∀ x, x ∈ l → f x = g x) → zsum f l = zsum g l.
Proof.
  induction l as [|x l IH]; intros H; [done|]. rewrite !zsum_cons, H, IH; [done| |left].
  intros y Hy. apply H. by right.
Qed.

Lemma zsum_add f g l : zsum (fun x => f x + g x) l = zsum f l + zsum g l.
Proof. induction l as [|x l IH]; [done|]. rewrite !zsum_cons, IH. lia. Qed.

Lemma zsum_sub f g l : zsum (fun x => f x - g x) l = zsum f l - zsum g l.
Proof. induction l as [|x l IH]; [done|]. rewrite !zsum_cons, IH. lia. Qed.

Lemma zsum_zero f l : (∀ x, x ∈ l → f x = 0) → zsum f l = 0.
Proof.
  intros H. rewrite (zsum_ext f (fun _ => 0) l H). clear H.
  induction l as [|x l IH]; [done|]. by rewrite zsum_cons, IH.
Qed.

Lemma zsum_nonneg f l : (∀ x, x ∈ l → 0 ≤ f x) → 0 ≤ zsum f l.
Proof.
  induction l as [|x l IH]; intros H; [done|]. rewrite zsum_cons.
  assert (0 ≤ f x) by (apply H; left). assert (0 ≤ zsum f l); [|lia].
  apply IH. intros y Hy. apply H. by right.
Qed.

Lemma zsum_le f g l : (∀ x, x ∈ l → f x ≤ g x) → zsum f l ≤ zsum g l.
Proof.
  induction l as [|x l IH]; intros H; [done|]. rewrite !zsum_cons.
  assert (f x ≤ g x) by (apply H; left). assert (zsum f l ≤ zsum g l); [|lia].
  apply IH. intros y Hy. apply H. by right.
Qed.

(** A summand of a sum of non-negative terms. *)
Lemma zsum_term_le f l x : (∀ y, y ∈ l → 0 ≤ f y) → x ∈ l → f x ≤ zsum f l.
Proof.
  induction l as [|y l IH]; intros H Hx; [by apply elem_of_nil in Hx|]. rewrite zsum_cons.
  assert (∀ z, z ∈ l → 0 ≤ f z) as H' by (intros z Hz; apply H; by right).
  pose proof (zsum_nonneg f l H'). assert (0 ≤ f y) by (apply H; left).
  apply elem_of_cons in Hx as [->|Hx]; [lia|]. specialize (IH H' Hx). lia.
Qed.

(** The sum of a function that is non-zero only at [x]. *)
Lemma zsum_single f l x :
  NoDup l → x ∈ l → (∀ y, y ∈ l → y ≠ x → f y = 0) → zsum f l = f x.
Proof.
  induction l as [|y l IH]; intros Hnd Hx H0; [by apply elem_of_nil in Hx|].
  apply list.NoDup_cons in Hnd as [Hy Hnd]. rewrite zsum_cons.
  apply elem_of_cons in Hx as [->|Hx].
  - rewrite (zsum_zero f l); [lia|]. intros z Hz. apply H0; [by right|]. by intros ->.
  - rewrite (H0 y); [|left|by intros ->]. rewrite IH; [lia|done..|].
    intros z Hz. apply H0. by right.
Qed.

Lemma zsum_filter f (p : A → bool) l : zsum (fun x => gate (p x) (f x)) l = zsum f (List.filter p l).
Proof. induction l as [|x l IH]; [done|]. simpl. rewrite zsum_cons, IH. by destruct (p x). Qed.
End zsum.

Lemma zsum_exchange {A B} (f : A → B → Z) (l : list A) (m : list B) :
  zsum (fun x => zsum (f x) m) l = zsum (fun y => zsum (fun x => f x y) l) m.
Proof.
  induction l as [|x l IH]; simpl.
  - symmetry. apply zsum_zero. done.
  - rewrite zsum_cons, IH, <-zsum_add. done.
Qed.

Lemma zsum_map {A B} (h : A → B) (f : B → Z) (l : list A) : zsum f (map h l) = zsum (fun x => f (h x)) l.
Proof. induction l as [|x l IH]; [done|]. simpl. by rewrite !zsum_cons, IH. Qed.

Lemma zsum_seq_S (f : nat → Z) n : zsum f (seq 0 (S n)) = zsum f (seq 0 n) + f n.
Proof. rewrite seq_S, zsum_app. simpl. unfold zsum at 2. simpl. lia. Qed.

(** Changing one term of a sum over [0..n]. *)
Lemma zsum_seq_update (f g : nat → Z) n p :
  (p < n)%nat → (∀ i, i ≠ p → f i = g i) → zsum f (seq 0 n) = zsum g (seq 0 n) + (f p - g p).
Proof.
  intros Hp Heq.
  enough (zsum (fun i => f i - g i) (seq 0 n) = f p - g p) by (rewrite zsum_sub in *; lia).
  apply (zsum_single (fun i => f i - g i)); [apply NoDup_seq|apply elem_of_seq; lia|].
  intros y _ Hy. rewrite Heq by done. lia.
Qed.
