(* ===== verification/Runs.v ===== *)
(** * Programs with the same successful runs

    Two methods that change the state in the same way whenever they succeed.  The
    relation is an equivalence that sequencing respects, so that loops are
    rewritten with it: the bodies of a loop may be split into several loops when
    what is moved over commutes.  A method may be blind to a part of the state,
    and then commutes with the methods that only write that part. *)
From S2P Require Import Prelude.
From Stdlib Require Import Sorting.Sorted.

Section runs.
Context {S E : Type}.
Implicit Types m : M S E unit.

Definition same_runs m1 m2 : Prop := ∀ s s', m1 s = (Ok tt, s') ↔ m2 s = (Ok tt, s').

#[export] Instance same_runs_equivalence : Equivalence same_runs.
Proof.
  split.
  - by intros m s s'.
  - intros m1 m2 H s s'. by rewrite (H s s').
  - intros m1 m2 m3 H1 H2 s s'. by rewrite (H1 s s').
Qed.

(** Sequencing, as a function of its own so that it can be rewritten under. *)
Definition seq_of m1 m2 : M S E unit := m1;; m2.

Lemma seq_ok m1 m2 s s' : seq_of m1 m2 s = (Ok tt, s') ↔ ∃ s1, m1 s = (Ok tt, s1) ∧ m2 s1 = (Ok tt, s').
Proof.
  unfold seq_of. split.
  - intros ([] & s1 & H1 & H2)%bind_ok. by exists s1.
  - intros (s1 & H1 & H2). by rewrite (bind_ok_eq _ _ _ _ _ H1).
Qed.

#[export] Instance seq_of_proper : Proper (same_runs ==> same_runs ==> same_runs) seq_of.
Proof.
  intros m1 m1' H1 m2 m2' H2 s s'. rewrite !seq_ok.
  split; intros (s1 & Ha%H1 & Hb%H2); by exists s1.
Qed.

Lemma seq_assoc m1 m2 m3 : same_runs (seq_of (seq_of m1 m2) m3) (seq_of m1 (seq_of m2 m3)).
Proof.
  intros s s'. rewrite !seq_ok. split.
  - intros (s2 & (s1 & H1 & H2)%seq_ok & H3). exists s1. split; [done|]. apply seq_ok. by exists s2.
  - intros (s1 & H1 & (s2 & H2 & H3)%seq_ok). exists s2. split; [|done]. apply seq_ok. by exists s1.
Qed.
Lemma seq_ret_l m : same_runs (seq_of (mret tt) m) m.
Proof. done. Qed.
Lemma seq_ret_r m : same_runs (seq_of m (mret tt)) m.
Proof. intros s s'. rewrite seq_ok. split; [by intros (s1 & H & [= ->])|intros H; by exists s']. Qed.

(** ** Loops *)
Fixpoint loop {A} (l : list A) (f : A → M S E unit) : M S E unit :=
  match l with [] => mret tt | x :: l' => seq_of (f x) (loop l' f) end.
Lemma loop_for_each {A} (l : list A) (f : A → M S E unit) s : for_each l f s = loop l f s.
Proof.
  revert s. induction l as [|x l IH]; intros s; [done|]. simpl. unfold seq_of, mbind, M_bind.
  destruct (f x s) as [[[]| | |] s1]; [apply IH|done..].
Qed.
Lemma loop_proper {A} (l : list A) (f g : A → M S E unit) : (∀ x, same_runs (f x) (g x)) → same_runs (loop l f) (loop l g).
Proof. intros H. induction l as [|x l IH]; simpl; [done|]. by rewrite (H x), IH. Qed.

Definition commute m1 m2 : Prop := same_runs (seq_of m1 m2) (seq_of m2 m1).

#[export] Instance commute_symmetric : Symmetric commute.
Proof. intros m1 m2 H. unfold commute in *. by symmetry. Qed.

Lemma commute_seq m m1 m2 : commute m m1 → commute m m2 → commute m (seq_of m1 m2).
Proof.
  unfold commute. intros H1 H2. rewrite <-seq_assoc, H1, seq_assoc, H2. symmetry. apply seq_assoc.
Qed.
Lemma commute_seq_l m m1 m2 : commute m1 m → commute m2 m → commute (seq_of m1 m2) m.
Proof.
  intros H1 H2. symmetry. apply (commute_seq m m1 m2); by symmetry.
Qed.
Lemma commute_ret m : commute m (mret tt).
Proof. unfold commute. by rewrite seq_ret_l, seq_ret_r. Qed.
Lemma commute_loop {A} m (l : list A) f : (∀ x, x ∈ l → commute m (f x)) → commute m (loop l f).
Proof.
  induction l as [|x l IH]; intros H; simpl; [apply commute_ret|].
  apply commute_seq; [apply H; left|apply IH; intros y Hy; apply H; by right].
Qed.

(** A loop is split in two when the second half of a turn commutes with the first
    halves of the later turns. *)
Lemma loop_fission {A} (R : A → A → Prop) (l : list A) (f g : A → M S E unit) :
  StronglySorted R l → (∀ x y, R x y → commute (g x) (f y)) →
  same_runs (loop l (fun x => seq_of (f x) (g x))) (seq_of (loop l f) (loop l g)).
Proof.
  intros Hl HR. induction Hl as [|x l _ IH Hx]; simpl; [done|].
  rewrite IH, (seq_assoc (f x)), (seq_assoc (f x)). f_equiv.
  assert (commute (g x) (loop l f)) as Hc.
  { apply commute_loop. intros y Hy. apply HR. rewrite list.Forall_forall in Hx. by apply Hx. }
  unfold commute in Hc. by rewrite <-(seq_assoc (g x)), Hc, seq_assoc.
Qed.

(** A table of methods, row by row or column by column. *)
Lemma loop_table {A} (R : A → A → Prop) (l : list A) (ms : list (A → M S E unit)) :
  StronglySorted R l →
  (∀ i j f g x y, (i < j)%nat → ms !! i = Some f → ms !! j = Some g → R x y → commute (g x) (f y)) →
  same_runs (loop l (fun x => loop ms (fun p => p x))) (loop ms (fun p => loop l p)).
Proof.
  intros Hl. induction ms as [|f ms IH]; intros Hc; simpl.
  - clear Hl. induction l as [|x l IHl]; simpl; [done|]. by rewrite seq_ret_l.
  - rewrite (loop_fission R l f (fun x => loop ms (fun p => p x)) Hl).
    + f_equiv. apply IH. intros i j f' g x y Hij Hi Hj. apply (Hc (Datatypes.S i) (Datatypes.S j)); [lia|done|done].
    + intros x y Hxy. symmetry. apply commute_loop. intros g (j & Hj)%list_elem_of_lookup. symmetry.
      by apply (Hc 0%nat (Datatypes.S j) f g x y); [lia|..].
Qed.

(** ** Blind methods *)
(** [m] does the same when [f] changes the state, and leaves the change alone. *)
Definition blind {A} (f : S → S) (m : M S E A) : Prop := ∀ s, m (f s) = ((m s).1, f (m s).2).

Lemma blind_ret {A} f (a : A) : blind f (mret a).
Proof. done. Qed.
Lemma blind_lift {A} f (o : outcome E A) : blind f (lift o).
Proof. done. Qed.
Lemma blind_bind {A B} f (m : M S E A) (k : A → M S E B) : blind f m → (∀ a, blind f (k a)) → blind f (m ≫= k).
Proof.
  intros Hm Hk s. unfold mbind, M_bind. rewrite Hm. destruct (m s) as [[a|e| |] s1]; simpl; [apply Hk|done..].
Qed.
Lemma blind_get {A} f (k : S → M S E A) : (∀ s, k (f s) = k s) → (∀ s, blind f (k s)) → blind f (get ≫= k).
Proof. intros H1 H2 s. unfold mbind, M_bind, get. simpl. rewrite H1. apply H2. Qed.
Lemma blind_modify f g : (∀ s, g (f s) = f (g s)) → blind f (modify g).
Proof. intros H s. unfold modify. simpl. by rewrite H. Qed.
Lemma blind_when f b m : blind f m → blind f (when b m).
Proof. destruct b; [done|]. intros _. apply blind_ret. Qed.

(** Two methods that write different parts, each blind to what the other writes,
    commute. *)
Lemma blind_commute (W1 W2 : (S → S) → Prop) m1 m2 :
  (∀ s s', m1 s = (Ok tt, s') → ∃ f, W1 f ∧ s' = f s) → (∀ s s', m2 s = (Ok tt, s') → ∃ f, W2 f ∧ s' = f s) →
  (∀ f, W2 f → blind f m1) → (∀ f, W1 f → blind f m2) →
  (∀ f g s, W1 f → W2 g → f (g s) = g (f s)) →
  commute m1 m2.
Proof.
  assert (∀ (W1 W2 : (S → S) → Prop) m1 m2,
    (∀ s s', m1 s = (Ok tt, s') → ∃ f, W1 f ∧ s' = f s) → (∀ s s', m2 s = (Ok tt, s') → ∃ f, W2 f ∧ s' = f s) →
    (∀ f, W2 f → blind f m1) → (∀ f, W1 f → blind f m2) → (∀ f g s, W1 f → W2 g → f (g s) = g (f s)) →
    ∀ s s', seq_of m1 m2 s = (Ok tt, s') → seq_of m2 m1 s = (Ok tt, s')) as Hhalf.
  { clear. intros W1 W2 m1 m2 H1 H2 B1 B2 HW s s' (s1 & Ha & Hb)%seq_ok. apply seq_ok.
    destruct (H1 _ _ Ha) as (f & Hf & ->). rewrite (B2 f Hf s) in Hb.
    destruct (m2 s) as [r s2] eqn:H2s. simpl in Hb. simplify_eq.
    destruct (H2 _ _ H2s) as (g & Hg & ->). exists (g s). split; [done|]. by rewrite (B1 g Hg s), Ha, HW. }
  intros H1 H2 B1 B2 HW s s'. split; [by eapply Hhalf|].
  eapply (Hhalf W2 W1); [done..|]. intros f g s0 Hf Hg. symmetry. by apply HW.
Qed.
End runs.

#[global] Arguments seq_of : simpl never.

Lemma blind_try {S E E' A} `{From E E'} f (o : outcome E A) : blind f (try (S:=S) o).
Proof. done. Qed.
Lemma blind_call {S E E' A} `{From E E'} f (m : M S E A) : blind f m → blind f (call m).
Proof. intros Hm s. unfold call. rewrite Hm. by destruct (m s). Qed.
Lemma blind_zoom {S S' E A} f (into : S → S') back (m : M S' E A) :
  (∀ s, into (f s) = into s) → (∀ a s, back a (f s) = f (back a s)) → blind f (zoom into back m).
Proof. intros H1 H2 s. unfold zoom. rewrite H1. destruct (m (into s)). simpl. by rewrite H2. Qed.
Lemma blind_zoom_in {S S' E A} f g (into : S → S') back (m : M S' E A) :
  blind g m → (∀ s, into (f s) = g (into s)) → (∀ a s, back (g a) (f s) = f (back a s)) → blind f (zoom into back m).
Proof. intros Hm H1 H2 s. unfold zoom. rewrite H1, Hm. destruct (m (into s)). simpl. by rewrite H2. Qed.

Create HintDb blind.
(** Goes through a method, leaving what it cannot do. *)
Ltac blind_steps :=
  repeat lazymatch goal with
  | |- blind _ (mret _) => apply blind_ret
  | |- blind _ (lift _) => apply blind_lift
  | |- blind _ (try _) => apply blind_try
  | |- blind _ (when _ _) => apply blind_when
  | |- blind _ (modify _) => apply blind_modify; intros ?; reflexivity
  | |- blind _ (call _) => apply blind_call
  | |- blind _ (get ≫= _) => apply blind_get; [intros ?; reflexivity|intros ?]
  | |- blind _ (_ ≫= _) => apply blind_bind; [|intros ?]
  | |- blind _ (match ?x with _ => _ end) => destruct x
  | |- blind _ (if ?x then _ else _) => destruct x
  | |- blind _ (let _ := _ in _) => cbv zeta
  | |- _ => solve [eauto with blind nocore]
  end.
