(* ===== verification/SlotEpoch.v ===== *)
(** * Slots and epochs

    The newtypes of [consensus/types/src/slot_epoch.rs] and the operators their
    macros generate ([slot_epoch_macros.rs]).  A [Slot] or an [Epoch] is a
    [u64]; addition, subtraction and multiplication saturate, the [safe_*]
    operations return an error and the [/] and [%] operators panic on zero. *)
From S2P Require Import Prelude.

Abbreviation Slot := Z (only parsing).
Abbreviation Epoch := Z (only parsing).

Inductive ArithError : Type := Overflow | DivisionByZero.

(** ** The operators generated by [impl_math_between] *)
Definition se_add (a b : Z) : Z := u64_saturating_add a b.
Definition se_sub (a b : Z) : Z := u64_saturating_sub a b.
Definition se_mul (a b : Z) : Z := u64_saturating_mul a b.
Definition se_div {E} (a b : Z) : outcome E Z := expect (u64_checked_div a b).
Definition se_rem {E} (a b : Z) : outcome E Z := expect (u64_checked_rem a b).

(** ** The operations generated by [impl_safe_arith] *)
Definition safe_add (a b : Z) : outcome ArithError Z := ok_or (u64_checked_add a b) Overflow.
Definition safe_sub (a b : Z) : outcome ArithError Z := ok_or (u64_checked_sub a b) Overflow.
Definition safe_mul (a b : Z) : outcome ArithError Z := ok_or (u64_checked_mul a b) Overflow.
Definition safe_div (a b : Z) : outcome ArithError Z := ok_or (u64_checked_div a b) DivisionByZero.
Definition safe_rem (a b : Z) : outcome ArithError Z := ok_or (u64_checked_rem a b) DivisionByZero.

Lemma safe_mul_inv a b r : safe_mul a b = Ok r → r = a * b.
Proof.
  unfold safe_mul, u64_checked_mul. destruct (checked_u64 (a * b)) as [x|] eqn:H; [|done].
  apply checked_u64_Some in H as [-> _]. by injection 1.
Qed.
Lemma safe_add_range a b r : safe_add a b = Ok r → 0 ≤ r ≤ u64_max.
Proof.
  unfold safe_add, u64_checked_add. destruct (checked_u64 (a + b)) as [x|] eqn:H; [|done].
  apply checked_u64_Some in H as [-> Hr]. injection 1 as <-. exact Hr.
Qed.
Lemma safe_add_inv a b r : safe_add a b = Ok r → r = a + b.
Proof.
  unfold safe_add, u64_checked_add. destruct (checked_u64 (a + b)) as [x|] eqn:H; [|done].
  apply checked_u64_Some in H as [-> _]. by injection 1.
Qed.
Lemma safe_mul_ok a b : is_u64 (a * b) → safe_mul a b = Ok (a * b).
Proof. intros H. unfold safe_mul, u64_checked_mul. by rewrite checked_u64_in. Qed.
Lemma safe_add_ok a b : is_u64 (a + b) → safe_add a b = Ok (a + b).
Proof. intros H. unfold safe_add, u64_checked_add. by rewrite checked_u64_in. Qed.
Lemma safe_sub_inv a b r : safe_sub a b = Ok r → r = a - b ∧ is_u64 r.
Proof.
  unfold safe_sub, u64_checked_sub. destruct (checked_u64 (a - b)) as [x|] eqn:H; [|done].
  apply checked_u64_Some in H as [-> ?]. by injection 1 as <-.
Qed.
Lemma safe_div_inv a b r : safe_div a b = Ok r → b ≠ 0 ∧ r = a / b.
Proof. unfold safe_div, u64_checked_div. destruct (Z.eqb_spec b 0); [done|]. by injection 1. Qed.
Lemma safe_rem_inv a b r : safe_rem a b = Ok r → b ≠ 0 ∧ r = a mod b.
Proof. unfold safe_rem, u64_checked_rem. destruct (Z.eqb_spec b 0); [done|]. by injection 1. Qed.
(** The values of the checked operations that succeeded. *)
Ltac safe_inv :=
  repeat match goal with
  | H : safe_add _ _ = Ok _ |- _ => apply safe_add_inv in H
  | H : safe_sub _ _ = Ok _ |- _ => apply safe_sub_inv in H as [? ?]
  | H : safe_mul _ _ = Ok _ |- _ => apply safe_mul_inv in H
  | H : safe_div _ _ = Ok _ |- _ => apply safe_div_inv in H as [? ?]
  | H : safe_rem _ _ = Ok _ |- _ => apply safe_rem_inv in H as [? ?]
  end.

(** ** Conversions between slots and epochs *)

(** [Slot::epoch].  [slots_per_epoch] is a positive constant of the [EthSpec];
    the code panics on zero, where [Z.div] is total. *)
Definition epoch (slot : Slot) (slots_per_epoch : Z) : Epoch := slot / slots_per_epoch.

Definition start_slot (e : Epoch) (slots_per_epoch : Z) : Slot :=
  u64_saturating_mul e slots_per_epoch.

Definition end_slot (e : Epoch) (slots_per_epoch : Z) : Slot :=
  u64_saturating_add (u64_saturating_mul e slots_per_epoch)
    (u64_saturating_sub slots_per_epoch 1).

Definition position (e : Epoch) (slot : Slot) (slots_per_epoch : Z) : option Z :=
  let start := start_slot e slots_per_epoch in
  let end_ := end_slot e slots_per_epoch in
  if (start <=? slot) && (slot <=? end_) then u64_checked_sub slot start else None.

Definition sync_committee_period (e : Epoch) (epochs_per_sync_committee_period : Z)
    : outcome ArithError Z :=
  safe_div e epochs_per_sync_committee_period.

(** [Epoch::range_inclusive_rev(start, end)]: the epochs [end..=start], last first. *)
Definition range_inclusive_rev (start end_ : Epoch) : list Epoch :=
  rev (map (fun i => end_ + Z.of_nat i) (seq 0 (Z.to_nat (start - end_ + 1)))).

(** ** [SlotIter] *)
Module SlotIter.
Record t : Type := mk {
  current_iteration : Z;
  iter_epoch : Epoch;
  slots_per_epoch : Z;
}.

Definition slot_iter (e : Epoch) (spe : Z) : t := mk 0 e spe.

Definition next (it : t) : option Slot * t :=
  if it.(slots_per_epoch) <=? it.(current_iteration) then (None, it)
  else
    let start := start_slot it.(iter_epoch) it.(slots_per_epoch) in
    let previous := it.(current_iteration) in
    match u64_checked_add it.(current_iteration) 1 with
    | None => (None, it)
    | Some c =>
        (match safe_add start previous with Ok s => Some s | _ => None end,
         mk c it.(iter_epoch) it.(slots_per_epoch))
    end.

(** A [for] loop over the iterator: pull until [None]. *)
Fixpoint collect (fuel : nat) (it : t) : list Slot :=
  match fuel with
  | O => []
  | S fuel' =>
      match next it with
      | (None, _) => []
      | (Some s, it') => s :: collect fuel' it'
      end
  end.
End SlotIter.

(** ** Facts about the operators *)
Section facts.
Context (spe : Z) (Hspe : 0 < spe ≤ u64_max).
Implicit Types (e slot : Z).

Lemma se_add_range a b : is_u64 a → is_u64 b → is_u64 (se_add a b).
Proof. unfold se_add, u64_saturating_add, is_u64, u64_max. lia. Qed.

Lemma epoch_range slot : is_u64 slot → is_u64 (epoch slot spe).
Proof using Hspe.
  unfold is_u64, epoch. intros [? ?]. split; [apply Z.div_pos; lia|].
  transitivity slot; [|done]. apply Z.div_le_upper_bound; nia.
Qed.

Lemma start_slot_range e : is_u64 e → is_u64 (start_slot e spe).
Proof using Hspe. unfold start_slot, u64_saturating_mul, is_u64, u64_max in *. nia. Qed.

Lemma start_slot_exact e : e * spe ≤ u64_max → start_slot e spe = e * spe.
Proof. unfold start_slot, u64_saturating_mul. lia. Qed.

Lemma epoch_start_slot e : e * spe ≤ u64_max → epoch (start_slot e spe) spe = e.
Proof using Hspe. intros. rewrite start_slot_exact by done. unfold epoch. apply Z.div_mul. lia. Qed.

Lemma epoch_mono s1 s2 : s1 ≤ s2 → epoch s1 spe ≤ epoch s2 spe.
Proof using Hspe. intros. apply Z.div_le_mono; lia. Qed.

(** A slot lies between the first and the last slot of an epoch exactly when
    it belongs to the epoch. *)
Lemma slot_in_epoch e slot :
  is_u64 slot → 0 ≤ e → e * spe ≤ u64_max →
  start_slot e spe ≤ slot ≤ end_slot e spe ↔ epoch slot spe = e.
Proof using Hspe.
  intros Hs He Hr. unfold start_slot, end_slot, u64_saturating_mul, u64_saturating_add,
    u64_saturating_sub, epoch, is_u64 in *.
  rewrite !Z.min_l by lia. rewrite Z.max_l by lia. split.
  - intros [H1 H2]. symmetry. apply Z.div_unique with (slot - spe * e); nia.
  - intros <-. pose proof (Z.mod_pos_bound slot spe ltac:(lia)).
    pose proof (Z.div_mod slot spe ltac:(lia)). nia.
Qed.

Lemma position_Some e slot p :
  is_u64 slot → 0 ≤ e → e * spe ≤ u64_max →
  position e slot spe = Some p ↔ epoch slot spe = e ∧ p = slot mod spe.
Proof using Hspe.
  intros Hs He Hr. rewrite <-(slot_in_epoch e slot) by done. unfold position.
  pose proof (Z.div_mod slot spe ltac:(lia)) as Hdm.
  destruct (_ && _) eqn:Hb; btoprop.
  - assert (epoch slot spe = e) as Heq by (apply slot_in_epoch; done).
    unfold u64_checked_sub. rewrite checked_u64_Some.
    rewrite start_slot_exact in * by done. unfold epoch, is_u64, u64_max in *. split.
    + intros [-> ?]. split; [lia|nia].
    + intros [? ->]. split; [nia|]. split; nia.
  - apply andb_false_iff in Hb. split; [done|]. intros [[? ?] _].
    destruct Hb as [Hb|Hb]; apply Z.leb_gt in Hb; lia.
Qed.

Lemma collect_from fuel e c :
  0 ≤ c → e * spe + spe - 1 ≤ u64_max → 0 ≤ e → (Z.to_nat (spe - c) ≤ fuel)%nat →
  SlotIter.collect fuel (SlotIter.mk c e spe)
    = map (fun i => e * spe + c + Z.of_nat i) (seq 0 (Z.to_nat (spe - c))).
Proof using Hspe.
  revert c. induction fuel as [|fuel IH]; intros c Hc Hr He Hf.
  - by replace (Z.to_nat (spe - c)) with 0%nat by lia.
  - simpl. unfold SlotIter.next. simpl. destruct (Z.leb_spec spe c) as [Hle|Hlt].
    + by replace (Z.to_nat (spe - c)) with 0%nat by lia.
    + assert (u64_checked_add c 1 = Some (c + 1)) as ->.
      { apply checked_u64_Some. unfold is_u64 in *. lia. }
      rewrite start_slot_exact by nia. unfold safe_add.
      assert (u64_checked_add (e * spe) c = Some (e * spe + c)) as ->.
      { apply checked_u64_Some. unfold is_u64 in *. nia. }
      simpl. rewrite IH by lia.
      replace (Z.to_nat (spe - c)) with (S (Z.to_nat (spe - (c + 1)))) by lia.
      simpl. f_equal; [lia|]. rewrite <-seq_shift, map_map. apply map_ext. lia.
Qed.
End facts.

(** [Epoch::position] agrees with [Slot::epoch]: for every representable
    epoch it returns [Some p] exactly when the slot belongs to the epoch, and
    [p] is the slot's offset in it. *)
Theorem position_correct (spe e slot : Z) :
  0 < spe ≤ u64_max → is_u64 slot → 0 ≤ e → e * spe ≤ u64_max →
  (∀ p, position e slot spe = Some p ↔ epoch slot spe = e ∧ p = slot mod spe)
  ∧ (position e slot spe = None ↔ epoch slot spe ≠ e).
Proof.
  intros Hspe Hs He Hr. pose proof (fun p => position_Some spe Hspe e slot p Hs He Hr) as Hp.
  split; [done|]. split.
  - intros Hn Heq. assert (position e slot spe = Some (slot mod spe)) by (by apply Hp). congruence.
  - intros Hne. destruct (position e slot spe) as [p|] eqn:Hpos; [|done].
    by destruct (proj1 (Hp p) eq_refl).
Qed.


(** [SlotIter] yields every slot of the epoch once, in order, and stops
    after exactly [slots_per_epoch] calls. *)
Theorem slot_iter_enumerates (spe e : Z) (fuel : nat) :
  0 < spe ≤ u64_max → 0 ≤ e → e * spe + spe - 1 ≤ u64_max → (Z.to_nat spe ≤ fuel)%nat →
  SlotIter.collect fuel (SlotIter.slot_iter e spe)
    = map (fun i => start_slot e spe + Z.of_nat i) (seq 0 (Z.to_nat spe))
  ∧ Forall (fun s => epoch s spe = e) (SlotIter.collect fuel (SlotIter.slot_iter e spe)).
Proof.
  intros Hspe He Hr Hf.
  assert (SlotIter.collect fuel (SlotIter.slot_iter e spe)
    = map (fun i => start_slot e spe + Z.of_nat i) (seq 0 (Z.to_nat spe))) as Heq.
  { unfold SlotIter.slot_iter. rewrite collect_from by nia.
    rewrite Z.sub_0_r. apply map_ext. intros i. rewrite start_slot_exact by nia. lia. }
  split; [done|]. rewrite Heq. apply Forall_forall. intros s Hin.
  apply in_map_iff in Hin as (i & <- & Hi). apply in_seq in Hi.
  rewrite start_slot_exact by nia. unfold epoch. symmetry.
  apply Z.div_unique with (Z.of_nat i); nia.
Qed.

