(* ===== verification/ProtoArrayDefs.v ===== *)
(** * The proto-array block tree

    Data and operations of [consensus/proto_array/src/proto_array.rs]: the
    flat array of block nodes, its index by block root, the score update that
    runs on every head computation, block insertion, propagation of execution
    verdicts, pruning and head lookup.

    Correspondence.  [self] is the state of the monad [M ProtoArray.t Error.t];
    a method on [&self] is a function of the array.  A [Vec] is a list and a
    [usize] index into it a [nat]; a [HashMap<Hash256, usize>] is a
    [gmap Z nat].  A [Hash256] is the number its bytes spell in big-endian
    order, so [Z.leb] is the byte-wise order of the code.  [E::slots_per_epoch()]
    is the section variable [slots_per_epoch]. *)
From Stdlib Require Import String.
From S2P Require Import Prelude SlotEpoch.

Abbreviation Hash256 := Z (only parsing).
Abbreviation ExecutionBlockHash := Z (only parsing).
Definition hash_zero : Hash256 := 0.

Module Checkpoint.
Record t : Type := mk { epoch : Epoch; root : Hash256 }.
#[global] Instance eq_dec : EqDecision t.
Proof. solve_decision. Defined.
End Checkpoint.

Module AttestationShufflingId.
Record t : Type := mk { shuffling_epoch : Epoch; shuffling_decision_block : Hash256 }.
#[global] Instance eq_dec : EqDecision t.
Proof. solve_decision. Defined.
End AttestationShufflingId.

(** Fields of [types::ChainSpec] that fork choice reads. *)
Module ChainSpec.
Record t : Type := mk {
  proposer_score_boost : option Z;
  reorg_head_weight_threshold : option Z;
  gloas_fork_epoch : option Epoch;
  ptc_size : Z;
}.
End ChainSpec.

(** ** Execution status of a block *)
Module ExecutionStatus.
Inductive t : Type :=
  | Valid (h : ExecutionBlockHash)
  | Invalid (h : ExecutionBlockHash)
  | Optimistic (h : ExecutionBlockHash)
  | Irrelevant (b : bool).
#[global] Instance eq_dec : EqDecision t.
Proof. solve_decision. Defined.

Definition is_execution_enabled (s : t) : bool :=
  match s with Irrelevant _ => false | _ => true end.
Definition irrelevant : t := Irrelevant false.
Definition block_hash (s : t) : option ExecutionBlockHash :=
  match s with Valid h | Invalid h | Optimistic h => Some h | Irrelevant _ => None end.
Definition is_valid_or_irrelevant (s : t) : bool :=
  match s with Valid _ | Irrelevant _ => true | _ => false end.
Definition is_valid_and_post_bellatrix (s : t) : bool :=
  match s with Valid _ => true | _ => false end.
Definition is_strictly_optimistic (s : t) : bool :=
  match s with Optimistic _ => true | _ => false end.
Definition is_optimistic_or_invalid (s : t) : bool :=
  match s with Optimistic _ | Invalid _ => true | _ => false end.
Definition is_invalid (s : t) : bool :=
  match s with Invalid _ => true | _ => false end.
Definition is_irrelevant (s : t) : bool :=
  match s with Irrelevant _ => true | _ => false end.
End ExecutionStatus.

(** ** Nodes and blocks *)
Module ProtoNode.
Record t : Type := mk {
  slot : Slot;
  state_root : Hash256;
  target_root : Hash256;
  current_epoch_shuffling_id : AttestationShufflingId.t;
  next_epoch_shuffling_id : AttestationShufflingId.t;
  root : Hash256;
  parent : option nat;
  justified_checkpoint : Checkpoint.t;
  finalized_checkpoint : Checkpoint.t;
  weight : Z;
  best_child : option nat;
  best_descendant : option nat;
  execution_status : ExecutionStatus.t;
  unrealized_justified_checkpoint : option Checkpoint.t;
  unrealized_finalized_checkpoint : option Checkpoint.t;
  builder_index : option Z;
  payload_revealed : bool;
  ptc_weight : Z;
  ptc_blob_data_available_weight : Z;
  payload_data_available : bool;
  bid_block_hash : option ExecutionBlockHash;
  bid_parent_block_hash : option ExecutionBlockHash;
  proposer_index : Z;
  ptc_timely : bool;
  envelope_received : bool;
  inclusion_list_satisfied : bool;
}.

(** Assignment to the fields the tree algorithms mutate. *)
Definition update (n : t) (parent' : option nat) (weight' : Z)
    (best_child' best_descendant' : option nat) (status' : ExecutionStatus.t) : t :=
  {| slot := n.(slot); state_root := n.(state_root); target_root := n.(target_root);
     current_epoch_shuffling_id := n.(current_epoch_shuffling_id);
     next_epoch_shuffling_id := n.(next_epoch_shuffling_id);
     root := n.(root); parent := parent';
     justified_checkpoint := n.(justified_checkpoint);
     finalized_checkpoint := n.(finalized_checkpoint);
     weight := weight'; best_child := best_child'; best_descendant := best_descendant';
     execution_status := status';
     unrealized_justified_checkpoint := n.(unrealized_justified_checkpoint);
     unrealized_finalized_checkpoint := n.(unrealized_finalized_checkpoint);
     builder_index := n.(builder_index); payload_revealed := n.(payload_revealed);
     ptc_weight := n.(ptc_weight);
     ptc_blob_data_available_weight := n.(ptc_blob_data_available_weight);
     payload_data_available := n.(payload_data_available);
     bid_block_hash := n.(bid_block_hash);
     bid_parent_block_hash := n.(bid_parent_block_hash);
     proposer_index := n.(proposer_index); ptc_timely := n.(ptc_timely);
     envelope_received := n.(envelope_received);
     inclusion_list_satisfied := n.(inclusion_list_satisfied) |}.

Definition set_weight (w : Z) (n : t) : t :=
  update n n.(parent) w n.(best_child) n.(best_descendant) n.(execution_status).
Definition set_best (bc bd : option nat) (n : t) : t :=
  update n n.(parent) n.(weight) bc bd n.(execution_status).
Definition set_status (s : ExecutionStatus.t) (n : t) : t :=
  update n n.(parent) n.(weight) n.(best_child) n.(best_descendant) s.
Definition set_links (p bc bd : option nat) (n : t) : t :=
  update n p n.(weight) bc bd n.(execution_status).
End ProtoNode.

Module Block.
Record t : Type := mk {
  slot : Slot;
  root : Hash256;
  parent_root : option Hash256;
  state_root : Hash256;
  target_root : Hash256;
  current_epoch_shuffling_id : AttestationShufflingId.t;
  next_epoch_shuffling_id : AttestationShufflingId.t;
  justified_checkpoint : Checkpoint.t;
  finalized_checkpoint : Checkpoint.t;
  execution_status : ExecutionStatus.t;
  unrealized_justified_checkpoint : option Checkpoint.t;
  unrealized_finalized_checkpoint : option Checkpoint.t;
  builder_index : option Z;
  payload_revealed : bool;
  ptc_weight : Z;
  ptc_blob_data_available_weight : Z;
  payload_data_available : bool;
  bid_block_hash : option ExecutionBlockHash;
  bid_parent_block_hash : option ExecutionBlockHash;
  proposer_index : Z;
  ptc_timely : bool;
  envelope_received : bool;
  inclusion_list_satisfied : bool;
}.
End Block.

Module ProposerBoost.
Record t : Type := mk { root : Hash256; score : Z }.
Definition default : t := mk hash_zero 0.
End ProposerBoost.

Module ProtoArray.
Record t : Type := mk {
  prune_threshold : nat;
  justified_checkpoint : Checkpoint.t;
  finalized_checkpoint : Checkpoint.t;
  nodes : list ProtoNode.t;
  indices : gmap Z nat;
  previous_proposer_boost : ProposerBoost.t;
}.
Definition set_nodes (ns : list ProtoNode.t) (pa : t) : t :=
  mk pa.(prune_threshold) pa.(justified_checkpoint) pa.(finalized_checkpoint)
     ns pa.(indices) pa.(previous_proposer_boost).
Definition set_indices (ix : gmap Z nat) (pa : t) : t :=
  mk pa.(prune_threshold) pa.(justified_checkpoint) pa.(finalized_checkpoint)
     pa.(nodes) ix pa.(previous_proposer_boost).
Definition set_checkpoints (j f : Checkpoint.t) (pa : t) : t :=
  mk pa.(prune_threshold) j f pa.(nodes) pa.(indices) pa.(previous_proposer_boost).
Definition set_boost (b : ProposerBoost.t) (pa : t) : t :=
  mk pa.(prune_threshold) pa.(justified_checkpoint) pa.(finalized_checkpoint)
     pa.(nodes) pa.(indices) b.
(** [nodes.get_mut(i)] followed by an assignment through the reference. *)
Definition alter_node (f : ProtoNode.t → ProtoNode.t) (i : nat) (pa : t) : t :=
  set_nodes (alter f i pa.(nodes)) pa.
End ProtoArray.

Module JustifiedBalances.
Record t : Type := mk {
  effective_balances : list Z;
  total_effective_balance : Z;
  num_active_validators : Z;
}.
Definition default : t := mk [] 0 0.
End JustifiedBalances.

Module InvalidBestNodeInfo.
Record t : Type := mk {
  current_slot : Slot;
  start_root : Hash256;
  justified_checkpoint : Checkpoint.t;
  finalized_checkpoint : Checkpoint.t;
  head_root : Hash256;
  head_justified_checkpoint : Checkpoint.t;
  head_finalized_checkpoint : Checkpoint.t;
}.
End InvalidBestNodeInfo.

Module Error.
Inductive t : Type :=
  | FinalizedNodeUnknown (r : Hash256)
  | JustifiedNodeUnknown (r : Hash256)
  | NodeUnknown (r : Hash256)
  | InvalidNodeIndex (i : nat)
  | InvalidParentIndex (i : nat)
  | InvalidBestChildIndex (i : nat)
  | InvalidJustifiedIndex (i : nat)
  | InvalidBestDescendant (i : nat)
  | InvalidParentDelta (i : nat)
  | InvalidNodeDelta (i : nat)
  | DeltaOverflow (i : nat)
  | ProposerBoostOverflow (i : nat)
  | ReOrgThresholdOverflow
  | IndexOverflow (what : string)
  | InvalidExecutionDeltaOverflow (i : nat)
  | InvalidDeltaLen (deltas indices : nat)
  | RevertedFinalizedEpoch (current_finalized_epoch new_finalized_epoch : Epoch)
  | InvalidBestNode (info : InvalidBestNodeInfo.t)
  | InvalidAncestorOfValidPayload
      (ancestor_block_root : Hash256) (ancestor_payload_block_hash : ExecutionBlockHash)
  | ValidExecutionStatusBecameInvalid
      (block_root : Hash256) (payload_block_hash : ExecutionBlockHash)
  | InvalidJustifiedCheckpointExecutionStatus (justified_root : Hash256)
  | IrrelevantDescendant (block_root : Hash256)
  | ParentExecutionStatusIsInvalid (block_root parent_root : Hash256)
  | InvalidEpochOffset (o : Z)
  | Arith (e : ArithError).
End Error.

Module InvalidationOperation.
Inductive t : Type :=
  | InvalidateOne (block_root : Hash256)
  | InvalidateMany (head_block_root : Hash256) (always_invalidate_head : bool)
      (latest_valid_ancestor : ExecutionBlockHash).

Definition block_root (op : t) : Hash256 :=
  match op with InvalidateOne r => r | InvalidateMany r _ _ => r end.
Definition latest_valid_ancestor (op : t) : option ExecutionBlockHash :=
  match op with InvalidateOne _ => None | InvalidateMany _ _ h => Some h end.
Definition invalidate_block_root (op : t) : bool :=
  match op with InvalidateOne _ => true | InvalidateMany _ b _ => b end.
End InvalidationOperation.

(** [types::consts::gloas::BUILDER_INDEX_SELF_BUILD]. *)
Definition BUILDER_INDEX_SELF_BUILD : Z := u64_max.

(** ** Walking towards the root *)

(** [Iterator::next] of [Iter], the cursor being its [next_node_index]. *)
Definition iter_next (pa : ProtoArray.t) (next_node_index : option nat)
    : option (ProtoNode.t * option nat) :=
  i ← next_node_index;
  node ← pa.(ProtoArray.nodes) !! i;
  Some (node, node.(ProtoNode.parent)).

Fixpoint iter_collect (fuel : nat) (pa : ProtoArray.t) (cursor : option nat)
    : list ProtoNode.t :=
  match fuel with
  | O => []
  | S fuel' =>
      match iter_next pa cursor with
      | None => []
      | Some (node, cursor') => node :: iter_collect fuel' pa cursor'
      end
  end.

(** [ProtoArray::iter_nodes], as the list of nodes it yields.  Parents precede
    children in the array, so [nodes.len()] steps exhaust it. *)
Definition iter_nodes (pa : ProtoArray.t) (block_root : Hash256) : list ProtoNode.t :=
  iter_collect (length pa.(ProtoArray.nodes)) pa (pa.(ProtoArray.indices) !! block_root).

Definition iter_block_roots (pa : ProtoArray.t) (block_root : Hash256)
    : list (Hash256 * Slot) :=
  map (fun node => (node.(ProtoNode.root), node.(ProtoNode.slot))) (iter_nodes pa block_root).

Fixpoint take_while {A} (p : A → bool) (l : list A) : list A :=
  match l with
  | [] => []
  | x :: l' => if p x then x :: take_while p l' else []
  end.

Definition is_descendant (pa : ProtoArray.t) (ancestor_root descendant_root : Hash256) : bool :=
  default false
    (ancestor_index ← pa.(ProtoArray.indices) !! ancestor_root;
     ancestor ← pa.(ProtoArray.nodes) !! ancestor_index;
     '(root, _) ← List.find (fun '(_, slot) => slot =? ancestor.(ProtoNode.slot))
       (take_while (fun '(_, slot) => ancestor.(ProtoNode.slot) <=? slot)
          (iter_block_roots pa descendant_root));
     Some (root =? ancestor_root)).

Definition execution_block_hash_to_beacon_block_root (pa : ProtoArray.t)
    (block_hash : ExecutionBlockHash) : option Hash256 :=
  node ← List.find
    (fun node => match ExecutionStatus.block_hash node.(ProtoNode.execution_status) with
                 | Some h => h =? block_hash
                 | None => false
                 end) (rev pa.(ProtoArray.nodes));
  Some node.(ProtoNode.root).

(** [calculate_committee_fraction]. *)
Definition calculate_committee_fraction (slots_per_epoch : Z)
    (justified_balances : JustifiedBalances.t) (proposer_score_boost : Z) : option Z :=
  committee_weight ←
    u64_checked_div justified_balances.(JustifiedBalances.total_effective_balance) slots_per_epoch;
  product ← u64_checked_mul committee_weight proposer_score_boost;
  u64_checked_div product 100.

Section eth_spec.
Context (slots_per_epoch : Z).

(** ** Finality and viability *)

(** The loop at the end of [is_finalized_checkpoint_or_descendant]. *)
Fixpoint finalized_walk (fuel : nat) (pa : ProtoArray.t) (node : ProtoNode.t) : bool :=
  match fuel with
  | O => false
  | S fuel' =>
      let finalized_slot :=
        start_slot pa.(ProtoArray.finalized_checkpoint).(Checkpoint.epoch) slots_per_epoch in
      if node.(ProtoNode.slot) <=? finalized_slot then
        node.(ProtoNode.root) =? pa.(ProtoArray.finalized_checkpoint).(Checkpoint.root)
      else
        match (i ← node.(ProtoNode.parent); pa.(ProtoArray.nodes) !! i) with
        | Some parent => finalized_walk fuel' pa parent
        | None => false
        end
  end.

Definition is_finalized_checkpoint_or_descendant (pa : ProtoArray.t) (root : Hash256) : bool :=
  match (i ← pa.(ProtoArray.indices) !! root; pa.(ProtoArray.nodes) !! i) with
  | None => false
  | Some node =>
      let fc := pa.(ProtoArray.finalized_checkpoint) in
      if existsb (fun cp => bool_decide (cp = fc))
           [node.(ProtoNode.finalized_checkpoint); node.(ProtoNode.justified_checkpoint)]
      then true
      else if existsb (fun cp => bool_decide (cp = Some fc))
           [node.(ProtoNode.unrealized_finalized_checkpoint);
            node.(ProtoNode.unrealized_justified_checkpoint)]
      then true
      else finalized_walk (length pa.(ProtoArray.nodes)) pa node
  end.

Definition node_is_viable_for_head (pa : ProtoArray.t) (node : ProtoNode.t)
    (current_slot : Slot) : bool :=
  if ExecutionStatus.is_invalid node.(ProtoNode.execution_status) then false
  else if match node.(ProtoNode.builder_index) with
          | Some b => negb (b =? BUILDER_INDEX_SELF_BUILD)
                      && negb node.(ProtoNode.payload_revealed)
          | None => false
          end then false
  else
    let current_epoch := epoch current_slot slots_per_epoch in
    let node_epoch := epoch node.(ProtoNode.slot) slots_per_epoch in
    let voting_source :=
      if node_epoch <? current_epoch then
        default node.(ProtoNode.justified_checkpoint)
          node.(ProtoNode.unrealized_justified_checkpoint)
      else node.(ProtoNode.justified_checkpoint) in
    let justified_epoch := pa.(ProtoArray.justified_checkpoint).(Checkpoint.epoch) in
    let correct_justified :=
      (justified_epoch =? 0)
      || (voting_source.(Checkpoint.epoch) =? justified_epoch)
      || (current_epoch <=? se_add voting_source.(Checkpoint.epoch) 2) in
    let correct_finalized :=
      (pa.(ProtoArray.finalized_checkpoint).(Checkpoint.epoch) =? 0)
      || is_finalized_checkpoint_or_descendant pa node.(ProtoNode.root) in
    correct_justified && correct_finalized.

Definition node_leads_to_viable_head (pa : ProtoArray.t) (node : ProtoNode.t)
    (current_slot : Slot) : outcome Error.t bool :=
  best_descendant_is_viable_for_head ←
    match node.(ProtoNode.best_descendant) with
    | Some best_descendant_index =>
        best_descendant ← ok_or (pa.(ProtoArray.nodes) !! best_descendant_index)
          (Error.InvalidBestDescendant best_descendant_index);
        Ok (node_is_viable_for_head pa best_descendant current_slot)
    | None => Ok false
    end;
  Ok (best_descendant_is_viable_for_head || node_is_viable_for_head pa node current_slot).

Definition heads_descended_from_finalization (pa : ProtoArray.t) : list ProtoNode.t :=
  List.filter (fun node =>
    bool_decide (node.(ProtoNode.best_child) = None)
    && is_finalized_checkpoint_or_descendant pa node.(ProtoNode.root)) pa.(ProtoArray.nodes).

(** ** Best-child maintenance *)

(** The values [maybe_update_best_child_and_descendant] computes before it
    borrows the parent mutably. *)
Definition new_best_child_and_descendant (pa : ProtoArray.t)
    (parent_index child_index : nat) (current_slot : Slot)
    : outcome Error.t (option nat * option nat) :=
  child ← ok_or (pa.(ProtoArray.nodes) !! child_index) (Error.InvalidNodeIndex child_index);
  parent ← ok_or (pa.(ProtoArray.nodes) !! parent_index) (Error.InvalidNodeIndex parent_index);
  child_leads_to_viable_head ← node_leads_to_viable_head pa child current_slot;
  let change_to_none := (None, None) in
  let change_to_child :=
    (Some child_index,
     match child.(ProtoNode.best_descendant) with
     | Some d => Some d
     | None => Some child_index
     end) in
  let no_change := (parent.(ProtoNode.best_child), parent.(ProtoNode.best_descendant)) in
  match parent.(ProtoNode.best_child) with
  | Some best_child_index =>
      if (best_child_index =? child_index)%nat && negb child_leads_to_viable_head then
        Ok change_to_none
      else if (best_child_index =? child_index)%nat then Ok change_to_child
      else
        best_child ← ok_or (pa.(ProtoArray.nodes) !! best_child_index)
          (Error.InvalidBestDescendant best_child_index);
        best_child_leads_to_viable_head ← node_leads_to_viable_head pa best_child current_slot;
        if child_leads_to_viable_head && negb best_child_leads_to_viable_head then
          Ok change_to_child
        else if negb child_leads_to_viable_head && best_child_leads_to_viable_head then
          Ok no_change
        else if child.(ProtoNode.weight) =? best_child.(ProtoNode.weight) then
          if best_child.(ProtoNode.root) <=? child.(ProtoNode.root)
          then Ok change_to_child else Ok no_change
        else if best_child.(ProtoNode.weight) <? child.(ProtoNode.weight)
        then Ok change_to_child else Ok no_change
  | None =>
      if child_leads_to_viable_head then Ok change_to_child else Ok no_change
  end.

Definition maybe_update_best_child_and_descendant (parent_index child_index : nat)
    (current_slot : Slot) : M ProtoArray.t Error.t unit :=
  pa ← get;
  '(new_best_child, new_best_descendant) ←
    lift (new_best_child_and_descendant pa parent_index child_index current_slot);
  _ ← lift (ok_or (pa.(ProtoArray.nodes) !! parent_index) (Error.InvalidNodeIndex parent_index));
  modify (ProtoArray.alter_node (ProtoNode.set_best new_best_child new_best_descendant)
            parent_index).

(** ** Score changes *)

(** [self], [deltas] and [proposer_score] in the first loop of
    [apply_score_changes]. *)
Record ScoreLoop : Type := mkScoreLoop {
  sl_array : ProtoArray.t;
  sl_deltas : list Z;
  sl_proposer_score : Z;
}.

Definition sl_set_score (score : Z) (sl : ScoreLoop) : ScoreLoop :=
  mkScoreLoop sl.(sl_array) sl.(sl_deltas) score.

(** Body of the first loop.  [*parent_delta += node_delta] is the unchecked
    addition of the release profile, which wraps. *)
Definition score_step (new_justified_balances : JustifiedBalances.t)
    (proposer_boost_root : Hash256) (spec : ChainSpec.t) (node_index : nat)
    : M ScoreLoop Error.t unit :=
  sl ← get;
  let pa := sl.(sl_array) in
  node ← lift (ok_or (pa.(ProtoArray.nodes) !! node_index) (Error.InvalidNodeIndex node_index));
  if node.(ProtoNode.root) =? hash_zero then mret tt
  else
    let execution_status_is_invalid :=
      ExecutionStatus.is_invalid node.(ProtoNode.execution_status) in
    node_delta ← lift
      (if execution_status_is_invalid
       then ok_or (i64_checked_sub 0 (as_i64 node.(ProtoNode.weight)))
              (Error.InvalidExecutionDeltaOverflow node_index)
       else ok_or (sl.(sl_deltas) !! node_index) (Error.InvalidNodeDelta node_index));
    let previous := pa.(ProtoArray.previous_proposer_boost) in
    node_delta ← lift
      (if negb (previous.(ProposerBoost.root) =? hash_zero)
          && (previous.(ProposerBoost.root) =? node.(ProtoNode.root))
          && negb execution_status_is_invalid
       then ok_or (i64_checked_sub node_delta (as_i64 previous.(ProposerBoost.score)))
              (Error.DeltaOverflow node_index)
       else Ok node_delta);
    node_delta ←
      match spec.(ChainSpec.proposer_score_boost) with
      | Some proposer_score_boost =>
          if negb (proposer_boost_root =? hash_zero)
             && (proposer_boost_root =? node.(ProtoNode.root))
             && negb execution_status_is_invalid
          then
            proposer_score ← lift
              (ok_or (calculate_committee_fraction slots_per_epoch new_justified_balances
                        proposer_score_boost)
                 (Error.ProposerBoostOverflow node_index));
            modify (sl_set_score proposer_score) ;;
            lift (ok_or (i64_checked_add node_delta (as_i64 proposer_score))
                    (Error.DeltaOverflow node_index))
          else mret node_delta
      | None => mret node_delta
      end;
    weight ← lift
      (if execution_status_is_invalid then Ok 0
       else if node_delta <? 0
       then ok_or (u64_checked_sub node.(ProtoNode.weight) (Z.abs node_delta))
              (Error.DeltaOverflow node_index)
       else ok_or (u64_checked_add node.(ProtoNode.weight) node_delta)
              (Error.DeltaOverflow node_index));
    modify (fun sl => mkScoreLoop
      (ProtoArray.alter_node (ProtoNode.set_weight weight) node_index sl.(sl_array))
      sl.(sl_deltas) sl.(sl_proposer_score)) ;;
    match node.(ProtoNode.parent) with
    | Some parent_index =>
        parent_delta ← lift (ok_or (sl.(sl_deltas) !! parent_index)
          (Error.InvalidParentDelta parent_index));
        modify (fun sl => mkScoreLoop sl.(sl_array)
          (<[parent_index := i64_wrapping_add parent_delta node_delta]> sl.(sl_deltas))
          sl.(sl_proposer_score))
    | None => mret tt
    end.

(** Body of the second loop. *)
Definition link_step (current_slot : Slot) (node_index : nat) : M ProtoArray.t Error.t unit :=
  pa ← get;
  node ← lift (ok_or (pa.(ProtoArray.nodes) !! node_index) (Error.InvalidNodeIndex node_index));
  match node.(ProtoNode.parent) with
  | Some parent_index =>
      maybe_update_best_child_and_descendant parent_index node_index current_slot
  | None => mret tt
  end.

Definition apply_score_changes (deltas : list Z)
    (justified_checkpoint finalized_checkpoint : Checkpoint.t)
    (new_justified_balances : JustifiedBalances.t) (proposer_boost_root : Hash256)
    (current_slot : Slot) (spec : ChainSpec.t) : M ProtoArray.t Error.t unit :=
  pa ← get;
  if negb (length deltas =? size pa.(ProtoArray.indices))%nat then
    throw (Error.InvalidDeltaLen (length deltas) (size pa.(ProtoArray.indices)))
  else
    when (bool_decide (justified_checkpoint ≠ pa.(ProtoArray.justified_checkpoint))
          || bool_decide (finalized_checkpoint ≠ pa.(ProtoArray.finalized_checkpoint)))
      (modify (ProtoArray.set_checkpoints justified_checkpoint finalized_checkpoint)) ;;
    proposer_score ← zoom (fun pa => mkScoreLoop pa deltas 0) (fun sl _ => sl.(sl_array))
      (for_each (rev (seq 0 (length pa.(ProtoArray.nodes))))
         (score_step new_justified_balances proposer_boost_root spec) ;;
       gets sl_proposer_score);
    modify (ProtoArray.set_boost (ProposerBoost.mk proposer_boost_root proposer_score)) ;;
    for_each (rev (seq 0 (length pa.(ProtoArray.nodes)))) (link_step current_slot).

(** ** Execution payload verdicts *)

Fixpoint validation_loop (fuel : nat) (index : nat) : M ProtoArray.t Error.t unit :=
  match fuel with
  | O => lift Diverge
  | S fuel' =>
      pa ← get;
      node ← lift (ok_or (pa.(ProtoArray.nodes) !! index) (Error.InvalidNodeIndex index));
      match node.(ProtoNode.execution_status) with
      | ExecutionStatus.Valid _ | ExecutionStatus.Irrelevant _ => mret tt
      | ExecutionStatus.Optimistic payload_block_hash =>
          modify (ProtoArray.alter_node
            (ProtoNode.set_status (ExecutionStatus.Valid payload_block_hash)) index) ;;
          match node.(ProtoNode.parent) with
          | Some parent_index => validation_loop fuel' parent_index
          | None => mret tt
          end
      | ExecutionStatus.Invalid ancestor_payload_block_hash =>
          throw (Error.InvalidAncestorOfValidPayload node.(ProtoNode.root)
                   ancestor_payload_block_hash)
      end
  end.

Definition propagate_execution_payload_validation_by_index (verified_node_index : nat)
    : M ProtoArray.t Error.t unit :=
  pa ← get; validation_loop (S (length pa.(ProtoArray.nodes))) verified_node_index.

Definition propagate_execution_payload_validation (block_root : Hash256)
    : M ProtoArray.t Error.t unit :=
  pa ← get;
  index ← lift (ok_or (pa.(ProtoArray.indices) !! block_root) (Error.NodeUnknown block_root));
  propagate_execution_payload_validation_by_index index.

(** [self] and [invalidated_indices]. *)
Record InvalidationLoop : Type := mkInvalidationLoop {
  il_array : ProtoArray.t;
  il_invalidated : gset nat;
}.
Definition il_alter (f : ProtoNode.t → ProtoNode.t) (i : nat) (il : InvalidationLoop)
    : InvalidationLoop :=
  mkInvalidationLoop (ProtoArray.alter_node f i il.(il_array)) il.(il_invalidated).
Definition il_insert (i : nat) (il : InvalidationLoop) : InvalidationLoop :=
  mkInvalidationLoop il.(il_array) ({[i]} ∪ il.(il_invalidated)).

(** [node.best_child.is_some_and(|i| invalidated_indices.contains(&i))], cleared. *)
Definition clear_if_invalidated (invalidated : gset nat) (o : option nat) : option nat :=
  match o with
  | Some i => if bool_decide (i ∈ invalidated) then None else Some i
  | None => None
  end.

(** Step 1: walk back from the head and invalidate ancestors. *)
Fixpoint invalidate_ancestors (fuel : nat) (op : InvalidationOperation.t)
    (latest_valid_ancestor_is_descendant : bool) (index : nat)
    : M InvalidationLoop Error.t unit :=
  match fuel with
  | O => lift Diverge
  | S fuel' =>
      il ← get;
      node ← lift (ok_or (il.(il_array).(ProtoArray.nodes) !! index)
        (Error.InvalidNodeIndex index));
      let is_head := node.(ProtoNode.root) =? InvalidationOperation.block_root op in
      match ExecutionStatus.block_hash node.(ProtoNode.execution_status) with
      | None => mret tt
      | Some hash =>
          if negb latest_valid_ancestor_is_descendant && negb is_head then mret tt
          else if bool_decide (InvalidationOperation.latest_valid_ancestor op = Some hash) then
            modify (il_alter
              (ProtoNode.set_best
                 (clear_if_invalidated il.(il_invalidated) node.(ProtoNode.best_child))
                 (clear_if_invalidated il.(il_invalidated) node.(ProtoNode.best_descendant)))
              index)
          else
            break_loop ←
              (if negb is_head || InvalidationOperation.invalidate_block_root op
                  || latest_valid_ancestor_is_descendant
               then
                 match node.(ProtoNode.execution_status) with
                 | ExecutionStatus.Valid h =>
                     throw (Error.ValidExecutionStatusBecameInvalid node.(ProtoNode.root) h)
                 | ExecutionStatus.Optimistic h =>
                     modify (il_insert index) ;;
                     modify (il_alter (fun n => ProtoNode.set_best None None
                       (ProtoNode.set_status (ExecutionStatus.Invalid h) n)) index) ;;
                     mret false
                 | ExecutionStatus.Invalid _ => mret false
                 | ExecutionStatus.Irrelevant _ => mret true
                 end
               else mret false);
            match node.(ProtoNode.parent) with
            | Some parent_index =>
                if (break_loop : bool) then mret tt
                else invalidate_ancestors fuel' op latest_valid_ancestor_is_descendant
                       parent_index
            | None => mret tt
            end
      end
  end.

(** Step 2, one iteration of the forward loop. *)
Definition invalidate_descendant (index : nat) : M InvalidationLoop Error.t unit :=
  il ← get;
  node ← lift (ok_or (il.(il_array).(ProtoArray.nodes) !! index)
    (Error.InvalidNodeIndex index));
  match node.(ProtoNode.parent) with
  | Some parent_index =>
      if bool_decide (parent_index ∈ il.(il_invalidated)) then
        match node.(ProtoNode.execution_status) with
        | ExecutionStatus.Valid h =>
            throw (Error.ValidExecutionStatusBecameInvalid node.(ProtoNode.root) h)
        | ExecutionStatus.Optimistic h | ExecutionStatus.Invalid h =>
            modify (il_alter (ProtoNode.set_status (ExecutionStatus.Invalid h)) index) ;;
            modify (il_insert index)
        | ExecutionStatus.Irrelevant _ =>
            throw (Error.IrrelevantDescendant node.(ProtoNode.root))
        end
      else mret tt
  | None => mret tt
  end.

Definition propagate_execution_payload_invalidation (op : InvalidationOperation.t)
    : M ProtoArray.t Error.t unit :=
  let head_block_root := InvalidationOperation.block_root op in
  pa ← get;
  index ← lift (ok_or (pa.(ProtoArray.indices) !! head_block_root)
    (Error.NodeUnknown head_block_root));
  let latest_valid_ancestor_root :=
    hash ← InvalidationOperation.latest_valid_ancestor op;
    execution_block_hash_to_beacon_block_root pa hash in
  let latest_valid_ancestor_is_descendant :=
    match latest_valid_ancestor_root with
    | Some ancestor_root =>
        is_descendant pa ancestor_root head_block_root
        && is_finalized_checkpoint_or_descendant pa ancestor_root
    | None => false
    end in
  let starting_block_root :=
    match latest_valid_ancestor_root with
    | Some r => if latest_valid_ancestor_is_descendant then r else head_block_root
    | None => head_block_root
    end in
  zoom (fun pa => mkInvalidationLoop pa ∅) (fun il _ => il.(il_array))
    (invalidate_ancestors (S (length pa.(ProtoArray.nodes))) op
       latest_valid_ancestor_is_descendant index ;;
     il ← get;
     latest_valid_ancestor_index ← lift
       (ok_or (il.(il_array).(ProtoArray.indices) !! starting_block_root)
          (Error.NodeUnknown starting_block_root));
     let first_potential_descendant := S latest_valid_ancestor_index in
     for_each (seq first_potential_descendant
                 (length il.(il_array).(ProtoArray.nodes) - first_potential_descendant))
       invalidate_descendant).

(** ** Block insertion *)

Definition node_of_block (pa : ProtoArray.t) (block : Block.t) : ProtoNode.t :=
  {| ProtoNode.slot := block.(Block.slot);
     ProtoNode.root := block.(Block.root);
     ProtoNode.target_root := block.(Block.target_root);
     ProtoNode.current_epoch_shuffling_id := block.(Block.current_epoch_shuffling_id);
     ProtoNode.next_epoch_shuffling_id := block.(Block.next_epoch_shuffling_id);
     ProtoNode.state_root := block.(Block.state_root);
     ProtoNode.parent :=
       parent ← block.(Block.parent_root); pa.(ProtoArray.indices) !! parent;
     ProtoNode.justified_checkpoint := block.(Block.justified_checkpoint);
     ProtoNode.finalized_checkpoint := block.(Block.finalized_checkpoint);
     ProtoNode.weight := 0;
     ProtoNode.best_child := None;
     ProtoNode.best_descendant := None;
     ProtoNode.execution_status := block.(Block.execution_status);
     ProtoNode.unrealized_justified_checkpoint := block.(Block.unrealized_justified_checkpoint);
     ProtoNode.unrealized_finalized_checkpoint := block.(Block.unrealized_finalized_checkpoint);
     ProtoNode.builder_index := block.(Block.builder_index);
     ProtoNode.payload_revealed := block.(Block.payload_revealed);
     ProtoNode.ptc_weight := block.(Block.ptc_weight);
     ProtoNode.ptc_blob_data_available_weight := block.(Block.ptc_blob_data_available_weight);
     ProtoNode.payload_data_available := block.(Block.payload_data_available);
     ProtoNode.bid_block_hash := block.(Block.bid_block_hash);
     ProtoNode.bid_parent_block_hash := block.(Block.bid_parent_block_hash);
     ProtoNode.proposer_index := block.(Block.proposer_index);
     ProtoNode.ptc_timely := block.(Block.ptc_timely);
     ProtoNode.envelope_received := block.(Block.envelope_received);
     ProtoNode.inclusion_list_satisfied := block.(Block.inclusion_list_satisfied) |}.

Definition push_node (node : ProtoNode.t) (pa : ProtoArray.t) : ProtoArray.t :=
  ProtoArray.set_nodes (pa.(ProtoArray.nodes) ++ [node])
    (ProtoArray.set_indices
       (<[node.(ProtoNode.root) := length pa.(ProtoArray.nodes)]> pa.(ProtoArray.indices)) pa).

Definition on_block (block : Block.t) (current_slot : Slot) : M ProtoArray.t Error.t unit :=
  pa ← get;
  if bool_decide (is_Some (pa.(ProtoArray.indices) !! block.(Block.root))) then mret tt
  else
    let node_index := length pa.(ProtoArray.nodes) in
    let node := node_of_block pa block in
    match node.(ProtoNode.parent) with
    | Some parent_index =>
        parent ← lift (ok_or (pa.(ProtoArray.nodes) !! parent_index)
          (Error.InvalidNodeIndex parent_index));
        when (ExecutionStatus.is_invalid parent.(ProtoNode.execution_status))
          (throw (Error.ParentExecutionStatusIsInvalid block.(Block.root)
                    parent.(ProtoNode.root)))
    | None => mret tt
    end ;;
    modify (push_node node) ;;
    match node.(ProtoNode.parent) with
    | Some parent_index =>
        maybe_update_best_child_and_descendant parent_index node_index current_slot ;;
        when (ExecutionStatus.is_valid_and_post_bellatrix block.(Block.execution_status))
          (propagate_execution_payload_validation_by_index parent_index)
    | None => mret tt
    end.

(** ** Head lookup *)

Definition find_head (pa : ProtoArray.t) (justified_root : Hash256) (current_slot : Slot)
    : outcome Error.t Hash256 :=
  justified_index ← ok_or (pa.(ProtoArray.indices) !! justified_root)
    (Error.JustifiedNodeUnknown justified_root);
  justified_node ← ok_or (pa.(ProtoArray.nodes) !! justified_index)
    (Error.InvalidJustifiedIndex justified_index);
  if ExecutionStatus.is_invalid justified_node.(ProtoNode.execution_status) then
    Err (Error.InvalidJustifiedCheckpointExecutionStatus justified_root)
  else
    let best_descendant_index :=
      default justified_index justified_node.(ProtoNode.best_descendant) in
    best_node ← ok_or (pa.(ProtoArray.nodes) !! best_descendant_index)
      (Error.InvalidBestDescendant best_descendant_index);
    if negb (node_is_viable_for_head pa best_node current_slot) then
      Err (Error.InvalidBestNode
        {| InvalidBestNodeInfo.current_slot := current_slot;
           InvalidBestNodeInfo.start_root := justified_root;
           InvalidBestNodeInfo.justified_checkpoint := pa.(ProtoArray.justified_checkpoint);
           InvalidBestNodeInfo.finalized_checkpoint := pa.(ProtoArray.finalized_checkpoint);
           InvalidBestNodeInfo.head_root := best_node.(ProtoNode.root);
           InvalidBestNodeInfo.head_justified_checkpoint :=
             best_node.(ProtoNode.justified_checkpoint);
           InvalidBestNodeInfo.head_finalized_checkpoint :=
             best_node.(ProtoNode.finalized_checkpoint) |})
    else Ok best_node.(ProtoNode.root).
End eth_spec.

(** ** Pruning *)

(** [usize::checked_sub]. *)
Definition usize_checked_sub (a b : nat) : option nat :=
  if (b <=? a)%nat then Some (a - b)%nat else None.

(** One iteration of the loop that renumbers a node's links. *)
Definition shift_links (finalized_index index : nat) : M ProtoArray.t Error.t unit :=
  pa ← get;
  node ← lift (ok_or (pa.(ProtoArray.nodes) !! index) (Error.InvalidNodeIndex index));
  let parent' := p ← node.(ProtoNode.parent); usize_checked_sub p finalized_index in
  modify (ProtoArray.alter_node
    (fun n => ProtoNode.set_links parent' n.(ProtoNode.best_child)
                n.(ProtoNode.best_descendant) n) index) ;;
  match node.(ProtoNode.best_child) with
  | Some best_child =>
      c ← lift (ok_or (usize_checked_sub best_child finalized_index)
        (Error.IndexOverflow "best_child"%string));
      modify (ProtoArray.alter_node
        (fun n => ProtoNode.set_best (Some c) n.(ProtoNode.best_descendant) n) index)
  | None => mret tt
  end ;;
  match node.(ProtoNode.best_descendant) with
  | Some best_descendant =>
      d ← lift (ok_or (usize_checked_sub best_descendant finalized_index)
        (Error.IndexOverflow "best_descendant"%string));
      modify (ProtoArray.alter_node
        (fun n => ProtoNode.set_best n.(ProtoNode.best_child) (Some d) n) index)
  | None => mret tt
  end.

Definition maybe_prune (finalized_root : Hash256) : M ProtoArray.t Error.t unit :=
  pa ← get;
  finalized_index ← lift (ok_or (pa.(ProtoArray.indices) !! finalized_root)
    (Error.FinalizedNodeUnknown finalized_root));
  if (finalized_index <? pa.(ProtoArray.prune_threshold))%nat then mret tt
  else
    for_each (seq 0 finalized_index) (fun node_index =>
      node ← lift (ok_or (pa.(ProtoArray.nodes) !! node_index)
        (Error.InvalidNodeIndex node_index));
      modify (fun pa => ProtoArray.set_indices
        (delete node.(ProtoNode.root) pa.(ProtoArray.indices)) pa)) ;;
    (* [split_off] panics past the end of the vector *)
    when (length pa.(ProtoArray.nodes) <? finalized_index)%nat (lift Panic) ;;
    modify (fun pa => ProtoArray.set_nodes (drop finalized_index pa.(ProtoArray.nodes)) pa) ;;
    pa ← get;
    for_each (map_to_list pa.(ProtoArray.indices)) (fun '(root, index) =>
      index' ← lift (ok_or (usize_checked_sub index finalized_index)
        (Error.IndexOverflow "indices"%string));
      modify (fun pa => ProtoArray.set_indices
        (<[root := index']> pa.(ProtoArray.indices)) pa)) ;;
    for_each (seq 0 (length pa.(ProtoArray.nodes))) (shift_links finalized_index).
