(* ===== verification/ProtoArrayWf.v ===== *)
(** * Well-formedness of the proto-array

    The structural invariant of [ProtoArray]: parents precede their children,
    the root index is the inverse of the node array, and best-child and
    best-descendant links point at a child and at a proper descendant.  Every
    operation keeps it, whatever its outcome. *)
From S2P Require Import Prelude SlotEpoch ProtoArrayDefs.

Implicit Types (pa : ProtoArray.t) (ns : list ProtoNode.t) (n : ProtoNode.t).

(** [anc ns a i]: node [a] is node [i] or one of its ancestors. *)
Inductive anc (ns : list ProtoNode.t) (a : nat) : nat → Prop :=
  | anc_refl : (a < length ns)%nat → anc ns a a
  | anc_step i n p :
      ns !! i = Some n → n.(ProtoNode.parent) = Some p → anc ns a p → anc ns a i.

(** What no tree operation changes: everything but the weight, the links and
    the execution status. *)
Definition static (n : ProtoNode.t) : ProtoNode.t :=
  ProtoNode.update n n.(ProtoNode.parent) 0 None None ExecutionStatus.irrelevant.

Definition same_tree (ns ns' : list ProtoNode.t) : Prop := static <$> ns = static <$> ns'.

Definition child_of ns (i c : nat) : Prop :=
  ∃ nc, ns !! c = Some nc ∧ nc.(ProtoNode.parent) = Some i.

Definition proper_desc ns (i d : nat) : Prop := ∃ c, child_of ns i c ∧ anc ns c d.

Record tree_ok (pa : ProtoArray.t) : Prop := {
  parent_lt : ∀ i n p, pa.(ProtoArray.nodes) !! i = Some n →
    n.(ProtoNode.parent) = Some p → (p < i)%nat;
  indices_ok : ∀ r i, pa.(ProtoArray.indices) !! r = Some i ↔
    ∃ n, pa.(ProtoArray.nodes) !! i = Some n ∧ n.(ProtoNode.root) = r;
}.

Definition link_wf ns (i : nat) n : Prop :=
  (∀ c, n.(ProtoNode.best_child) = Some c → child_of ns i c) ∧
  (∀ d, n.(ProtoNode.best_descendant) = Some d → proper_desc ns i d).

Definition links_wf ns : Prop := ∀ i n, ns !! i = Some n → link_wf ns i n.

Record wf (pa : ProtoArray.t) : Prop := {
  wf_tree : tree_ok pa;
  wf_links : links_wf pa.(ProtoArray.nodes);
}.

(** ** Nodes that differ only in mutable fields *)
Section same_tree.
#[global] Instance same_tree_equiv : Equivalence same_tree.
Proof. split; unfold same_tree; [by intros ?|by intros ???|by intros ??? -> ->]. Qed.

Lemma static_parent n n' : static n = static n' → n.(ProtoNode.parent) = n'.(ProtoNode.parent).
Proof. intros H. by apply (f_equal ProtoNode.parent) in H. Qed.
Lemma static_root n n' : static n = static n' → n.(ProtoNode.root) = n'.(ProtoNode.root).
Proof. intros H. by apply (f_equal ProtoNode.root) in H. Qed.
Lemma static_slot n n' : static n = static n' → n.(ProtoNode.slot) = n'.(ProtoNode.slot).
Proof. intros H. by apply (f_equal ProtoNode.slot) in H. Qed.

Lemma static_update n p w bc bd s :
  p = n.(ProtoNode.parent) → static (ProtoNode.update n p w bc bd s) = static n.
Proof. by intros ->. Qed.

Lemma same_tree_lookup ns ns' i n :
  same_tree ns ns' → ns !! i = Some n → ∃ n', ns' !! i = Some n' ∧ static n = static n'.
Proof.
  intros Hs Hi. assert ((static <$> ns') !! i = Some (static n)) as Hi'.
  { rewrite <-Hs, list_lookup_fmap, Hi. done. }
  rewrite list_lookup_fmap in Hi'. destruct (ns' !! i) as [n'|]; [|done].
  apply (inj Some) in Hi'. exists n'. done.
Qed.

Lemma same_tree_length ns ns' : same_tree ns ns' → length ns = length ns'.
Proof. intros H. apply (f_equal length) in H. by rewrite !length_fmap in H. Qed.

Lemma same_tree_alter ns f i :
  (∀ n, static (f n) = static n) → same_tree ns (alter f i ns).
Proof.
  intros Hf. unfold same_tree. apply list_eq. intros j.
  rewrite !list_lookup_fmap. destruct (decide (i = j)) as [->|Hne].
  - rewrite list_lookup_alter_eq. destruct (ns !! j) as [n|]; simpl; [|done]. by rewrite Hf.
  - by rewrite list_lookup_alter_ne.
Qed.

Lemma child_of_same ns ns' i c : same_tree ns ns' → child_of ns i c → child_of ns' i c.
Proof.
  intros Hs (nc & Hc & Hp). destruct (same_tree_lookup _ _ _ _ Hs Hc) as (n' & Hn' & Heq).
  exists n'. split; [done|]. by rewrite <-(static_parent _ _ Heq).
Qed.

Lemma anc_same ns ns' a i : same_tree ns ns' → anc ns a i → anc ns' a i.
Proof.
  intros Hs. induction 1 as [Hlt|i n p Hi Hp _ IH].
  - constructor. by rewrite <-(same_tree_length _ _ Hs).
  - destruct (same_tree_lookup _ _ _ _ Hs Hi) as (n' & Hn' & Heq).
    eapply anc_step; [done| |done]. by rewrite <-(static_parent _ _ Heq).
Qed.

Lemma proper_desc_same ns ns' i d : same_tree ns ns' → proper_desc ns i d → proper_desc ns' i d.
Proof.
  intros Hs (c & Hc & Ha). exists c. eauto using child_of_same, anc_same.
Qed.

Lemma link_wf_same ns ns' i n : same_tree ns ns' → link_wf ns i n → link_wf ns' i n.
Proof. intros Hs [H1 H2]. split; eauto using child_of_same, proper_desc_same. Qed.

Lemma tree_ok_same pa pa' :
  same_tree pa.(ProtoArray.nodes) pa'.(ProtoArray.nodes) →
  pa.(ProtoArray.indices) = pa'.(ProtoArray.indices) → tree_ok pa → tree_ok pa'.
Proof.
  intros Hs Hix [Hp Hi]. symmetry in Hs. split.
  - intros i n p Hn Hpar. destruct (same_tree_lookup _ _ _ _ Hs Hn) as (n' & Hn' & Heq).
    apply (Hp i n' p Hn'). by rewrite <-(static_parent _ _ Heq).
  - intros r i. rewrite <-Hix, Hi. split; intros (n & Hn & Hr).
    + symmetry in Hs. destruct (same_tree_lookup _ _ _ _ Hs Hn) as (n' & Hn' & Heq).
      exists n'. by rewrite <-(static_root _ _ Heq).
    + destruct (same_tree_lookup _ _ _ _ Hs Hn) as (n' & Hn' & Heq).
      exists n'. by rewrite <-(static_root _ _ Heq).
Qed.
End same_tree.

(** ** Ancestry *)
Section anc.
Lemma anc_trans ns a b c : anc ns a b → anc ns b c → anc ns a c.
Proof. intros Hab. induction 1; [done|]. eapply anc_step; eauto. Qed.

Lemma anc_child ns i c d : child_of ns i c → anc ns c d → (i < length ns)%nat → anc ns i d.
Proof.
  intros (nc & Hc & Hp) Hcd Hlt. eapply anc_trans; [|done].
  eapply anc_step; [done..|]. by constructor.
Qed.

Lemma anc_lt_length ns a i : anc ns a i → (i < length ns)%nat.
Proof. destruct 1 as [|i n p Hi]; [done|]. by eapply lookup_lt_Some. Qed.

Lemma anc_app ns ns' a i : anc ns a i → anc (ns ++ ns') a i.
Proof.
  induction 1 as [Hlt|i n p Hi Hp _ IH].
  - constructor. rewrite length_app. lia.
  - eapply anc_step; [|done..]. by apply lookup_app_l_Some.
Qed.

(** Ancestors have smaller indices. *)
Lemma anc_le pa a i : tree_ok pa → anc pa.(ProtoArray.nodes) a i → (a ≤ i)%nat.
Proof.
  intros Hok. induction 1 as [Hlt|i n p Hi Hp _ IH]; [lia|].
  pose proof (parent_lt _ Hok _ _ _ Hi Hp). lia.
Qed.

Lemma anc_lt_length_l pa a i :
  tree_ok pa → anc pa.(ProtoArray.nodes) a i → (a < length pa.(ProtoArray.nodes))%nat.
Proof. intros Hok Ha. pose proof (anc_le _ _ _ Hok Ha). apply anc_lt_length in Ha. lia. Qed.

Lemma child_lt pa i c : tree_ok pa → child_of pa.(ProtoArray.nodes) i c → (i < c)%nat.
Proof. intros Hok (nc & Hc & Hp). by eapply parent_lt. Qed.

Lemma child_lt_length ns i c : child_of ns i c → (c < length ns)%nat.
Proof. intros (nc & Hc & Hp). by eapply lookup_lt_Some. Qed.

Lemma anc_inv_child pa a i :
  tree_ok pa → anc pa.(ProtoArray.nodes) a i → a ≠ i →
  ∃ c, child_of pa.(ProtoArray.nodes) a c ∧ anc pa.(ProtoArray.nodes) c i.
Proof.
  intros Hok. induction 1 as [Hlt|i n p Hi Hp Ha IH]; intros Hne; [done|].
  destruct (decide (a = p)) as [->|Hap].
  - exists i. split; [by exists n|]. constructor. by eapply lookup_lt_Some.
  - destruct (IH Hap) as (c & Hc & Hcp). exists c. split; [done|]. by eapply anc_step.
Qed.

Lemma proper_desc_lt pa i d :
  tree_ok pa → proper_desc pa.(ProtoArray.nodes) i d → (i < d)%nat.
Proof.
  intros Hok (c & Hc & Ha). apply (child_lt _ _ _ Hok) in Hc.
  apply (anc_le _ _ _ Hok) in Ha. lia.
Qed.

(** Two ancestors of one node are comparable. *)
Lemma anc_linear pa a b i :
  tree_ok pa → anc pa.(ProtoArray.nodes) a i → anc pa.(ProtoArray.nodes) b i →
  anc pa.(ProtoArray.nodes) a b ∨ anc pa.(ProtoArray.nodes) b a.
Proof.
  intros Hok Ha. revert b. induction Ha as [Hlt|i n p Hi Hp Ha IH]; intros b Hb; [by right|].
  destruct Hb as [Hlt|i n' p' Hi' Hp' Hb]; [left; by eapply anc_step|].
  apply IH. congruence.
Qed.

(** The root index sends every known root to its own node. *)
Lemma indices_node pa r i n :
  tree_ok pa → pa.(ProtoArray.indices) !! r = Some i →
  pa.(ProtoArray.nodes) !! i = Some n → n.(ProtoNode.root) = r.
Proof. intros Hok Hr Hn. apply (indices_ok _ Hok) in Hr as (n' & Hn' & <-). congruence. Qed.

Lemma node_indices pa i n :
  tree_ok pa → pa.(ProtoArray.nodes) !! i = Some n →
  pa.(ProtoArray.indices) !! n.(ProtoNode.root) = Some i.
Proof. intros Hok Hn. apply (indices_ok _ Hok). eauto. Qed.

Lemma size_indices pa : tree_ok pa → size pa.(ProtoArray.indices) = length pa.(ProtoArray.nodes).
Proof.
  intros Hok. transitivity (length (elements (dom pa.(ProtoArray.indices)))).
  { by rewrite <-size_dom. }
  transitivity (length (ProtoNode.root <$> pa.(ProtoArray.nodes))); [|apply length_fmap].
  apply Permutation_length, NoDup_Permutation; [apply NoDup_elements| |].
  - apply NoDup_alt. intros i j r. rewrite !list_lookup_fmap.
    destruct (_ !! i) as [ni|] eqn:Hi; [|done]. destruct (_ !! j) as [nj|] eqn:Hj; [|done].
    simpl. intros [= <-] [= Heq].
    apply (node_indices _ _ _ Hok) in Hi, Hj. congruence.
  - intros r. rewrite elem_of_elements, elem_of_dom, list_elem_of_fmap. split.
    + intros [i (n & Hn & Hr)%(indices_ok _ Hok)]. exists n. split; [done|].
      by eapply list_elem_of_lookup_2.
    + intros (n & -> & [i Hi]%list_elem_of_lookup). exists i. by apply node_indices.
Qed.
End anc.

(** ** Preservation *)

(** [pa] has the tree of [pa0]: same static node data, same root index. *)
Definition frame (pa0 pa : ProtoArray.t) : Prop :=
  same_tree pa0.(ProtoArray.nodes) pa.(ProtoArray.nodes) ∧
  pa0.(ProtoArray.indices) = pa.(ProtoArray.indices).

(** The invariant of the mutating loops on an array that started as [pa0]. *)
Definition linked (pa0 pa : ProtoArray.t) : Prop :=
  frame pa0 pa ∧ links_wf pa.(ProtoArray.nodes).

Section preservation.
Lemma frame_refl pa : frame pa pa.
Proof. split; reflexivity. Qed.

Lemma wf_linked pa : wf pa → linked pa pa.
Proof. intros [_ Hl]. split; [apply frame_refl|done]. Qed.

Lemma linked_wf pa0 pa : wf pa0 → linked pa0 pa → wf pa.
Proof. intros [Ht _] [[Hs Hi] Hl]. split; [by eapply tree_ok_same|done]. Qed.

Lemma frame_length pa0 pa :
  frame pa0 pa → length pa0.(ProtoArray.nodes) = length pa.(ProtoArray.nodes).
Proof. intros [Hs _]. by apply same_tree_length. Qed.

Lemma frame_alter pa0 pa f i :
  (∀ n, static (f n) = static n) → frame pa0 pa → frame pa0 (ProtoArray.alter_node f i pa).
Proof.
  intros Hf [Hs Hi]. split; [|done]. simpl. etransitivity; [done|]. by apply same_tree_alter.
Qed.

Lemma frame_child_of pa0 pa i c :
  frame pa0 pa → child_of pa0.(ProtoArray.nodes) i c → child_of pa.(ProtoArray.nodes) i c.
Proof. intros [Hs _]. by apply child_of_same. Qed.

Lemma frame_child_of_inv pa0 pa i c :
  frame pa0 pa → child_of pa.(ProtoArray.nodes) i c → child_of pa0.(ProtoArray.nodes) i c.
Proof. intros [Hs _]. apply child_of_same. by symmetry. Qed.

Lemma links_wf_alter ns f i :
  (∀ n, static (f n) = static n) → links_wf ns →
  (∀ n, ns !! i = Some n → link_wf ns i (f n)) → links_wf (alter f i ns).
Proof.
  intros Hf Hl Hi j n Hj. apply (link_wf_same ns); [by apply same_tree_alter|].
  destruct (decide (i = j)) as [<-|Hne].
  - rewrite list_lookup_alter_eq in Hj. destruct (ns !! i) as [n0|] eqn:Hn0; [|done].
    injection Hj as <-. by apply Hi.
  - rewrite list_lookup_alter_ne in Hj by done. by apply Hl.
Qed.

Lemma linked_alter pa0 pa f i :
  (∀ n, static (f n) = static n) → linked pa0 pa →
  (∀ n, pa.(ProtoArray.nodes) !! i = Some n → link_wf pa.(ProtoArray.nodes) i (f n)) →
  linked pa0 (ProtoArray.alter_node f i pa).
Proof.
  intros Hf [Hfr Hl] Hi. split; [by apply frame_alter|]. by apply links_wf_alter.
Qed.

(** Changing neither link keeps the links. *)
Lemma linked_alter_same pa0 pa f i :
  (∀ n, static (f n) = static n) →
  (∀ n, (f n).(ProtoNode.best_child) = n.(ProtoNode.best_child)) →
  (∀ n, (f n).(ProtoNode.best_descendant) = n.(ProtoNode.best_descendant)) →
  linked pa0 pa → linked pa0 (ProtoArray.alter_node f i pa).
Proof.
  intros Hf Hc Hd Hl. apply linked_alter; [done..|]. intros n Hn.
  destruct Hl as [_ Hl]. destruct (Hl i n Hn) as [H1 H2].
  split; [by rewrite Hc|by rewrite Hd].
Qed.

Lemma linked_set_best pa0 pa bc bd i :
  linked pa0 pa →
  (∀ c, bc = Some c → child_of pa.(ProtoArray.nodes) i c) →
  (∀ d, bd = Some d → proper_desc pa.(ProtoArray.nodes) i d) →
  linked pa0 (ProtoArray.alter_node (ProtoNode.set_best bc bd) i pa).
Proof. intros Hl Hc Hd. apply linked_alter; [done..|]. by intros n Hn. Qed.

(** The outcomes of [new_best_child_and_descendant]. *)
Lemma new_best_cases spe pa p c slot bc bd :
  new_best_child_and_descendant spe pa p c slot = Ok (bc, bd) →
  ∃ nc np, pa.(ProtoArray.nodes) !! c = Some nc ∧ pa.(ProtoArray.nodes) !! p = Some np ∧
    ((bc = None ∧ bd = None) ∨
     (bc = Some c ∧ (bd = Some c ∧ nc.(ProtoNode.best_descendant) = None ∨
                     is_Some bd ∧ nc.(ProtoNode.best_descendant) = bd)) ∨
     (bc = np.(ProtoNode.best_child) ∧ bd = np.(ProtoNode.best_descendant))).
Proof.
  unfold new_best_child_and_descendant. unfold mbind, outcome_bind, ok_or.
  destruct (_ !! c) as [nc|] eqn:Hc; [|done]. destruct (_ !! p) as [np|] eqn:Hp; [|done].
  destruct (node_leads_to_viable_head spe pa nc slot) as [v| | |]; try done.
  intros H. exists nc, np. do 2 (split; [done|]). revert H.
  destruct nc.(ProtoNode.best_descendant) as [d|] eqn:Hd;
    destruct np.(ProtoNode.best_child) as [b|] eqn:Hb;
    repeat case_match; intros; simplify_eq; eauto 10.
Qed.

Lemma keeps_maybe_update spe pa0 p c slot :
  child_of pa0.(ProtoArray.nodes) p c →
  keeps (linked pa0) (maybe_update_best_child_and_descendant spe p c slot).
Proof.
  intros Hc pa Hpa. unfold maybe_update_best_child_and_descendant.
  unfold mbind, M_bind, get, lift, modify.
  destruct (new_best_child_and_descendant _ _ _ _ _) as [[bc bd]| | |] eqn:Hn; simpl; try done.
  destruct (ok_or _ _); simpl; try done.
  apply new_best_cases in Hn as (nc & np & Hnc & Hnp & Hcases).
  destruct Hpa as [Hfr Hl]. pose proof (frame_child_of _ _ _ _ Hfr Hc) as Hc'.
  destruct (Hl _ _ Hnc) as [_ Hdc]. destruct (Hl _ _ Hnp) as [Hbp Hdp].
  apply linked_set_best; [done|..].
  - intros c' ->. destruct Hcases as [[? ?]|[[? ?]|[? ?]]]; simplify_eq; eauto.
  - intros d ->. destruct Hcases as [[? ?]|[[-> [[? ?]|[? Hd]]]|[? ?]]]; simplify_eq; eauto.
    + exists c. split; [done|]. constructor. by eapply lookup_lt_Some.
    + exists c. split; [done|]. destruct (Hdc d Hd) as (x & Hx & Ha).
      eapply anc_child; [done..|]. by eapply lookup_lt_Some.
Qed.

Lemma keeps_link_step spe pa0 slot i : keeps (linked pa0) (link_step spe slot i).
Proof.
  intros pa Hpa. unfold link_step. unfold mbind at 1, M_bind at 1, get.
  unfold mbind at 1, M_bind at 1, lift, ok_or.
  destruct (_ !! i) as [n|] eqn:Hn; [|done].
  destruct n.(ProtoNode.parent) as [p|] eqn:Hp; [|done].
  apply keeps_maybe_update; [|done]. destruct Hpa as [Hfr _].
  eapply frame_child_of_inv; [done|]. by exists n.
Qed.

(** ** The operations of [ProtoArray] *)

Lemma keeps_score_step spe pa0 jb r spec i :
  keeps (linked pa0 ∘ sl_array) (score_step spe jb r spec i).
Proof.
  unfold score_step. keeps_steps;
    apply keeps_modify; intros sl Hsl; simpl in *; try done; by apply linked_alter_same.
Qed.

Lemma keeps_apply_score_changes spe pa0 deltas jc fc jb r slot spec :
  keeps (linked pa0) (apply_score_changes spe deltas jc fc jb r slot spec).
Proof.
  unfold apply_score_changes. apply keeps_bind; [apply keeps_get|intros pa1].
  destruct (negb _); [apply keeps_throw|]. keeps_steps.
  - by apply keeps_modify.
  - apply (keeps_zoom _ (linked pa0 ∘ sl_array)); [done..|].
    apply keeps_bind; [|by intros; apply keeps_gets].
    apply keeps_for_each. intros i _. apply keeps_score_step.
  - by apply keeps_modify.
  - apply keeps_for_each. intros i _. apply keeps_link_step.
Qed.

Lemma keeps_validation_loop pa0 fuel i : keeps (linked pa0) (validation_loop fuel i).
Proof.
  revert i. induction fuel as [|fuel IH]; intros i; [apply keeps_lift|]. simpl.
  keeps_steps; auto. apply keeps_modify. intros. by apply linked_alter_same.
Qed.

Lemma keeps_validation_by_index pa0 i :
  keeps (linked pa0) (propagate_execution_payload_validation_by_index i).
Proof. apply keeps_bind; [apply keeps_get|]. intros. apply keeps_validation_loop. Qed.

Lemma keeps_validation pa0 r : keeps (linked pa0) (propagate_execution_payload_validation r).
Proof.
  unfold propagate_execution_payload_validation. keeps_steps. apply keeps_validation_by_index.
Qed.

Lemma clear_if_invalidated_Some s o i : clear_if_invalidated s o = Some i → o = Some i.
Proof. destruct o as [j|]; simpl; [|done]. by case_bool_decide. Qed.

Lemma keeps_invalidate_ancestors pa0 fuel op b i :
  keeps (linked pa0 ∘ il_array) (invalidate_ancestors fuel op b i).
Proof.
  revert i. induction fuel as [|fuel IH]; intros i; [apply keeps_lift|]. simpl.
  apply keeps_get_bind. intros il Hil. unfold mbind at 1, M_bind at 1, lift, ok_or.
  destruct (_ !! i) as [n|] eqn:Hn; [|done].
  destruct (ExecutionStatus.block_hash _); [|done]. case_match; [done|].
  case_bool_decide.
  - unfold modify, il_alter. simpl. apply linked_set_best; [done|..];
      intros ? H'%clear_if_invalidated_Some; destruct Hil as [_ Hl];
      destruct (Hl _ _ Hn); eauto.
  - revert Hil. revert il Hn. intros il Hn Hil.
    match goal with |- (_ ∘ _) (?m il).2 =>
      enough (keeps (linked pa0 ∘ il_array) m) as Hk by (by apply Hk) end.
    keeps_steps; auto; apply keeps_modify; intros il' Hil'; simpl in *; try done.
    apply linked_alter; [done..|]. intros n' _. split; done.
Qed.

Lemma keeps_invalidate_descendant pa0 i :
  keeps (linked pa0 ∘ il_array) (invalidate_descendant i).
Proof.
  unfold invalidate_descendant. keeps_steps; apply keeps_modify; intros il Hil; simpl in *;
    try done; by apply linked_alter_same.
Qed.

Lemma keeps_invalidation spe pa0 op :
  keeps (linked pa0) (propagate_execution_payload_invalidation spe op).
Proof.
  unfold propagate_execution_payload_invalidation.
  apply keeps_bind; [apply keeps_get|intros pa1].
  apply keeps_bind; [apply keeps_lift|intros i].
  apply (keeps_zoom _ (linked pa0 ∘ il_array)); [done..|].
  match goal with |- ∀ s, _ → _ (?m s).2 => change (keeps (linked pa0 ∘ il_array) m) end.
  keeps_steps; [apply keeps_invalidate_ancestors|].
  apply keeps_for_each. intros j _. apply keeps_invalidate_descendant.
Qed.

(** Appending a node whose parent is known and whose root is not. *)
Lemma push_wf pa n :
  wf pa → pa.(ProtoArray.indices) !! n.(ProtoNode.root) = None →
  (∀ p, n.(ProtoNode.parent) = Some p → (p < length pa.(ProtoArray.nodes))%nat) →
  n.(ProtoNode.best_child) = None → n.(ProtoNode.best_descendant) = None →
  wf (push_node n pa).
Proof.
  intros [Ht Hl] Hr Hp Hbc Hbd. split; [split|].
  - intros i n' p Hi Hp'. simpl in Hi. apply lookup_app_Some in Hi as [Hi|[Hlt Hi]].
    + by eapply parent_lt.
    + apply list_lookup_singleton_Some in Hi as [Hi <-]. specialize (Hp _ Hp'). lia.
  - intros r i. simpl. rewrite lookup_insert. case_decide as Hd.
    + subst r. split.
      * intros [= <-]. exists n. split; [|done]. rewrite lookup_app_r by lia.
        by rewrite Nat.sub_diag.
      * intros (n' & [Hi|[Hlt Hi]]%lookup_app_Some & Hroot).
        -- apply (node_indices _ _ _ Ht) in Hi. congruence.
        -- apply list_lookup_singleton_Some in Hi as [Hi <-]. f_equal. lia.
    + rewrite (indices_ok _ Ht). split; intros (n' & Hi & Hroot); exists n'; split; try done.
      * by apply lookup_app_l_Some.
      * apply lookup_app_Some in Hi as [Hi|[Hlt Hi]]; [done|].
        apply list_lookup_singleton_Some in Hi as [_ <-]. congruence.
  - intros i n' Hi. simpl in *. apply lookup_app_Some in Hi as [Hi|[Hlt Hi]].
    + destruct (Hl _ _ Hi) as [H1 H2]. split.
      * intros c Hc. destruct (H1 c Hc) as (nc & Hnc & Hpc). exists nc.
        split; [by apply lookup_app_l_Some|done].
      * intros d Hd. destruct (H2 d Hd) as (c & (nc & Hnc & Hpc) & Ha). exists c. split.
        -- exists nc. split; [by apply lookup_app_l_Some|done].
        -- by apply anc_app.
    + apply list_lookup_singleton_Some in Hi as [_ <-]. split; congruence.
Qed.

Lemma node_of_block_parent_lt pa block p :
  tree_ok pa → (node_of_block pa block).(ProtoNode.parent) = Some p →
  (p < length pa.(ProtoArray.nodes))%nat.
Proof.
  intros Ht Hp. simpl in Hp. destruct block.(Block.parent_root) as [r|]; [|done]. simpl in Hp.
  apply (indices_ok _ Ht) in Hp as (n & Hn & _). by eapply lookup_lt_Some.
Qed.

Lemma keeps_on_block spe block slot : keeps wf (on_block spe block slot).
Proof.
  apply keeps_get_bind. intros pa Hwf. case_bool_decide as Hknown; [done|].
  cbv zeta. set (n := node_of_block pa block).
  match goal with |- wf ((?m ≫= ?k) pa).2 =>
    assert ((m pa).2 = pa) as Hchk; [|unfold mbind at 1, M_bind at 1;
      destruct (m pa) as [[[]| | |] pa1]; simpl in Hchk; subst pa1; try done] end.
  { destruct n.(ProtoNode.parent) as [p|]; [|done]. unfold mbind, M_bind, lift, ok_or.
    destruct (pa.(ProtoArray.nodes) !! p); [|done]. unfold when. by destruct (ExecutionStatus.is_invalid _). }
  unfold mbind at 1, M_bind at 1, modify.
  assert (wf (push_node n pa)) as Hwf1.
  { apply push_wf; try done; [by apply eq_None_not_Some|].
    intros p. apply node_of_block_parent_lt. by apply wf_tree. }
  destruct n.(ProtoNode.parent) as [p|] eqn:Hp; [|done].
  apply (linked_wf (push_node n pa)); [done|].
  match goal with |- linked _ (?m ?s).2 =>
    enough (keeps (linked (push_node n pa)) m) as Hk by (by apply Hk, wf_linked) end.
  apply keeps_bind; [|intros; apply keeps_when, keeps_validation_by_index].
  apply keeps_maybe_update. exists n. split; [|done]. simpl.
  rewrite lookup_app_r by lia. by rewrite Nat.sub_diag.
Qed.
End preservation.
