(* ===== verification/ProtoArrayWalk.v ===== *)
(** * Walks towards the root of the proto-array

    The loops that follow parent links terminate within the array's length on
    a well-formed array, so the fuel of their models never matters; the
    boolean queries built on them ([is_descendant],
    [is_finalized_checkpoint_or_descendant]) decide ancestry. *)
From S2P Require Import Prelude SlotEpoch ProtoArrayDefs ProtoArrayWf.

Implicit Types (pa : ProtoArray.t) (n : ProtoNode.t).

(** Slots strictly increase from parent to child.  The state transition of a
    block, which comes first, demands it. *)
Definition slots_ok pa : Prop := ∀ i n p np,
  pa.(ProtoArray.nodes) !! i = Some n → n.(ProtoNode.parent) = Some p →
  pa.(ProtoArray.nodes) !! p = Some np → np.(ProtoNode.slot) < n.(ProtoNode.slot).

Section walks.
Context (pa : ProtoArray.t) (Hok : tree_ok pa).

Lemma parent_lookup i n p :
  pa.(ProtoArray.nodes) !! i = Some n → n.(ProtoNode.parent) = Some p →
  ∃ np, pa.(ProtoArray.nodes) !! p = Some np.
Proof using Hok.
  intros Hn Hp. apply lookup_lt_is_Some_2. pose proof (parent_lt _ Hok _ _ _ Hn Hp).
  apply lookup_lt_Some in Hn. lia.
Qed.

Lemma iter_collect_fuel f1 f2 i :
  (i < f1)%nat → (i < f2)%nat →
  iter_collect f1 pa (Some i) = iter_collect f2 pa (Some i).
Proof using Hok.
  revert f2 i. induction f1 as [|f1 IH]; intros f2 i H1 H2; [lia|].
  destruct f2 as [|f2]; [lia|]. simpl.
  destruct (pa.(ProtoArray.nodes) !! i) as [n|] eqn:Hn; simpl; [|done]. f_equal.
  destruct n.(ProtoNode.parent) as [p|] eqn:Hp; [|by destruct f1, f2].
  pose proof (parent_lt _ Hok _ _ _ Hn Hp). apply IH; lia.
Qed.

(** [finalized_walk] has reached its answer after [i + 1] iterations. *)
Lemma finalized_walk_fuel spe f1 f2 i n :
  pa.(ProtoArray.nodes) !! i = Some n → (i < f1)%nat → (i < f2)%nat →
  finalized_walk spe f1 pa n = finalized_walk spe f2 pa n.
Proof using Hok.
  revert f2 i n. induction f1 as [|f1 IH]; intros f2 i n Hn H1 H2; [lia|].
  destruct f2 as [|f2]; [lia|]. simpl. case_match; [done|].
  destruct n.(ProtoNode.parent) as [p|] eqn:Hp; [|done]. simpl.
  destruct (pa.(ProtoArray.nodes) !! p) as [np|] eqn:Hnp; [|done].
  pose proof (parent_lt _ Hok _ _ _ Hn Hp). apply (IH _ p); [done|lia..].
Qed.

(** The search of [is_descendant] along the chain that ends at node [b]. *)
Definition slot_search (s : Slot) (fuel : nat) (cursor : option nat) : option (Hash256 * Slot) :=
  List.find (fun '(_, slot) => slot =? s)
    (take_while (fun '(_, slot) => s <=? slot)
       (map (fun node => (node.(ProtoNode.root), node.(ProtoNode.slot)))
          (iter_collect fuel pa cursor))).

Lemma slot_search_unfold s fuel b n :
  pa.(ProtoArray.nodes) !! b = Some n →
  slot_search s (S fuel) (Some b) =
    if n.(ProtoNode.slot) <? s then None
    else if n.(ProtoNode.slot) =? s then Some (n.(ProtoNode.root), n.(ProtoNode.slot))
    else slot_search s fuel n.(ProtoNode.parent).
Proof using.
  intros Hn. unfold slot_search. simpl. rewrite Hn. simpl.
  destruct (Z.leb_spec s n.(ProtoNode.slot)), (Z.ltb_spec n.(ProtoNode.slot) s); try lia; simpl.
  - by destruct (n.(ProtoNode.slot) =? s).
  - done.
Qed.

Context (Hslots : slots_ok pa).

Lemma anc_slot_le a b na nb :
  anc pa.(ProtoArray.nodes) a b → pa.(ProtoArray.nodes) !! a = Some na →
  pa.(ProtoArray.nodes) !! b = Some nb → na.(ProtoNode.slot) ≤ nb.(ProtoNode.slot).
Proof using Hok Hslots.
  intros Ha Hna. revert nb. induction Ha as [Hlt|b n p Hb Hp _ IH]; intros nb Hnb.
  - replace nb with na by congruence. done.
  - replace nb with n by congruence. destruct (parent_lookup _ _ _ Hb Hp) as [np Hnp].
    specialize (IH _ Hnp). pose proof (Hslots _ _ _ _ Hb Hp Hnp). lia.
Qed.

Lemma slot_search_spec s fuel b r :
  (b < fuel)%nat → (b < length pa.(ProtoArray.nodes))%nat →
  slot_search s fuel (Some b) = Some (r, s) ↔
  ∃ a na, anc pa.(ProtoArray.nodes) a b ∧ pa.(ProtoArray.nodes) !! a = Some na ∧
          na.(ProtoNode.root) = r ∧ na.(ProtoNode.slot) = s.
Proof using Hok Hslots.
  revert b. induction fuel as [|fuel IH]; intros b Hf Hb; [lia|].
  destruct (lookup_lt_is_Some_2 _ _ Hb) as [n Hn]. rewrite (slot_search_unfold _ _ _ _ Hn).
  destruct (Z.ltb_spec n.(ProtoNode.slot) s) as [Hlt|Hge].
  { split; [done|]. intros (a & na & Ha & Hna & _ & Hs).
    pose proof (anc_slot_le _ _ _ _ Ha Hna Hn). lia. }
  destruct (Z.eqb_spec n.(ProtoNode.slot) s) as [Heq|Hne].
  { split.
    - intros [= <- _]. exists b, n. split; [by constructor|done].
    - intros (a & na & Ha & Hna & Hr & Hs). destruct Ha as [|b' n' p Hb' Hp Ha].
      + replace n with na by congruence. congruence.
      + replace n' with n in * by congruence.
        destruct (parent_lookup _ _ _ Hb' Hp) as [np Hnp].
        pose proof (Hslots _ _ _ _ Hb' Hp Hnp).
        pose proof (anc_slot_le _ _ _ _ Ha Hna Hnp). lia. }
  destruct n.(ProtoNode.parent) as [p|] eqn:Hp.
  - pose proof (parent_lt _ Hok _ _ _ Hn Hp). rewrite IH by lia. split.
    + intros (a & na & Ha & Hrest). exists a, na. split; [by eapply anc_step|done].
    + intros (a & na & Ha & Hna & Hr & Hs). exists a, na. split; [|done].
      destruct Ha as [|b' n' p' Hb' Hp' Ha].
      * replace na with n in Hs by congruence. lia.
      * by replace p with p' by congruence.
  - split.
    + unfold slot_search. destruct fuel; done.
    + intros (a & na & Ha & Hna & Hr & Hs). destruct Ha as [|b' n' p' Hb' Hp' Ha].
      * replace na with n in Hs by congruence. lia.
      * congruence.
Qed.
End walks.

(** ** What viability depends on *)

(** A node without its weight and links. *)
Definition core (n : ProtoNode.t) : ProtoNode.t :=
  ProtoNode.update n n.(ProtoNode.parent) 0 None None n.(ProtoNode.execution_status).

(** Two arrays that agree on everything but weights and links. *)
Definition same_view (pa pa' : ProtoArray.t) : Prop :=
  core <$> pa.(ProtoArray.nodes) = core <$> pa'.(ProtoArray.nodes) ∧
  pa.(ProtoArray.indices) = pa'.(ProtoArray.indices) ∧
  pa.(ProtoArray.justified_checkpoint) = pa'.(ProtoArray.justified_checkpoint) ∧
  pa.(ProtoArray.finalized_checkpoint) = pa'.(ProtoArray.finalized_checkpoint).

Section view.
#[global] Instance same_view_equiv : Equivalence same_view.
Proof.
  split.
  - by intros pa.
  - intros ?? (?&?&?&?). by repeat split.
  - intros ??? (?&?&?&?) (?&?&?&?). repeat split; by etransitivity.
Qed.

Lemma same_view_lookup pa pa' i n :
  same_view pa pa' → pa.(ProtoArray.nodes) !! i = Some n →
  ∃ n', pa'.(ProtoArray.nodes) !! i = Some n' ∧ core n = core n'.
Proof.
  intros (Hs & _) Hi. assert ((core <$> pa'.(ProtoArray.nodes)) !! i = Some (core n)) as Hi'.
  { rewrite <-Hs, list_lookup_fmap, Hi. done. }
  rewrite list_lookup_fmap in Hi'. destruct (pa'.(ProtoArray.nodes) !! i) as [n'|]; [|done].
  apply (inj Some) in Hi'. exists n'. done.
Qed.

Lemma same_view_lookup_None pa pa' i :
  same_view pa pa' → pa.(ProtoArray.nodes) !! i = None → pa'.(ProtoArray.nodes) !! i = None.
Proof.
  intros Hs Hi. destruct (pa'.(ProtoArray.nodes) !! i) as [n'|] eqn:Hn'; [|done].
  symmetry in Hs. destruct (same_view_lookup _ _ _ _ Hs Hn') as (n & Hn & _). congruence.
Qed.

Lemma finalized_walk_ext spe f pa pa' n n' :
  same_view pa pa' → core n = core n' →
  finalized_walk spe f pa n = finalized_walk spe f pa' n'.
Proof.
  intros Hs. revert n n'. induction f as [|f IH]; intros n n' Hc; [done|]. simpl.
  pose proof Hs as (_ & _ & _ & Hfin). rewrite Hfin.
  pose proof (f_equal ProtoNode.slot Hc) as Hslot. simpl in Hslot.
  pose proof (f_equal ProtoNode.root Hc) as Hroot. simpl in Hroot.
  pose proof (f_equal ProtoNode.parent Hc) as Hpar. simpl in Hpar.
  rewrite Hslot, Hroot, Hpar. case_match; [done|].
  destruct n'.(ProtoNode.parent) as [p|]; [|done]. simpl.
  destruct (pa.(ProtoArray.nodes) !! p) as [np|] eqn:Hp.
  - destruct (same_view_lookup _ _ _ _ Hs Hp) as (np' & -> & Hnp). by apply IH.
  - by rewrite (same_view_lookup_None _ _ _ Hs Hp).
Qed.

Lemma is_finalized_ext spe pa pa' r :
  same_view pa pa' →
  is_finalized_checkpoint_or_descendant spe pa r
  = is_finalized_checkpoint_or_descendant spe pa' r.
Proof.
  intros Hs. unfold is_finalized_checkpoint_or_descendant.
  pose proof Hs as (Hns & Hix & _ & Hfin). rewrite Hix, Hfin.
  destruct (pa'.(ProtoArray.indices) !! r) as [i|]; [|done]. simpl.
  destruct (pa.(ProtoArray.nodes) !! i) as [n|] eqn:Hi.
  - destruct (same_view_lookup _ _ _ _ Hs Hi) as (n' & -> & Hc).
    pose proof (f_equal ProtoNode.finalized_checkpoint Hc) as H1. simpl in H1.
    pose proof (f_equal ProtoNode.justified_checkpoint Hc) as H2. simpl in H2.
    pose proof (f_equal ProtoNode.unrealized_finalized_checkpoint Hc) as H3. simpl in H3.
    pose proof (f_equal ProtoNode.unrealized_justified_checkpoint Hc) as H4. simpl in H4.
    rewrite H1, H2, H3, H4.
    apply (f_equal length) in Hns. rewrite !length_fmap in Hns. rewrite Hns.
    by rewrite (finalized_walk_ext spe _ pa pa' n n').
  - by rewrite (same_view_lookup_None _ _ _ Hs Hi).
Qed.

Lemma viable_ext spe pa pa' n n' slot :
  same_view pa pa' → core n = core n' →
  node_is_viable_for_head spe pa n slot = node_is_viable_for_head spe pa' n' slot.
Proof.
  intros Hs Hc. unfold node_is_viable_for_head.
  pose proof (f_equal ProtoNode.slot Hc) as H1. simpl in H1.
  pose proof (f_equal ProtoNode.root Hc) as H2. simpl in H2.
  pose proof (f_equal ProtoNode.execution_status Hc) as H3. simpl in H3.
  pose proof (f_equal ProtoNode.builder_index Hc) as H4. simpl in H4.
  pose proof (f_equal ProtoNode.payload_revealed Hc) as H5. simpl in H5.
  pose proof (f_equal ProtoNode.justified_checkpoint Hc) as H6. simpl in H6.
  pose proof (f_equal ProtoNode.unrealized_justified_checkpoint Hc) as H7. simpl in H7.
  rewrite H1, H2, H3, H4, H5, H6, H7, (is_finalized_ext spe pa pa' _ Hs).
  pose proof Hs as (_ & _ & Hj & Hf). by rewrite Hj, Hf.
Qed.
End view.

(** [is_descendant] is ancestry of the nodes the roots name. *)
Lemma is_descendant_iff pa ra rb :
  tree_ok pa → slots_ok pa →
  is_descendant pa ra rb = true ↔
  ∃ a b, pa.(ProtoArray.indices) !! ra = Some a ∧ pa.(ProtoArray.indices) !! rb = Some b ∧
         anc pa.(ProtoArray.nodes) a b.
Proof.
  intros Hok Hs. unfold is_descendant. split.
  - destruct (pa.(ProtoArray.indices) !! ra) as [a|] eqn:Ha; simpl; [|done].
    destruct (pa.(ProtoArray.nodes) !! a) as [na|] eqn:Hna; simpl; [|done].
    unfold iter_block_roots, iter_nodes.
    destruct (pa.(ProtoArray.indices) !! rb) as [b|] eqn:Hb;
      [|by destruct (length pa.(ProtoArray.nodes))].
    change (List.find _ _) with (slot_search pa na.(ProtoNode.slot)
      (length pa.(ProtoArray.nodes)) (Some b)).
    destruct (slot_search _ _ _ _) as [[r s]|] eqn:Hf; simpl; [|done]. intros ->%Z.eqb_eq.
    assert (b < length pa.(ProtoArray.nodes))%nat as Hlt.
    { apply (indices_ok _ Hok) in Hb as (nb & Hnb & _). by eapply lookup_lt_Some. }
    assert (s = na.(ProtoNode.slot)) as ->.
    { apply find_some in Hf as [_ Hf]. by apply Z.eqb_eq in Hf. }
    apply slot_search_spec in Hf as (x & nx & Hx & Hnx & Hr & _); [|done..].
    exists a, b. split_and!; [done..|]. apply (node_indices _ _ _ Hok) in Hnx.
    rewrite Hr, Ha in Hnx. by injection Hnx as <-.
  - intros (a & b & Ha & Hb & Hanc). rewrite Ha. simpl.
    pose proof (proj1 (indices_ok _ Hok _ _) Ha) as (na & Hna & Hra). rewrite Hna. simpl.
    unfold iter_block_roots, iter_nodes. rewrite Hb.
    change (List.find _ _) with (slot_search pa na.(ProtoNode.slot)
      (length pa.(ProtoArray.nodes)) (Some b)).
    pose proof (anc_lt_length _ _ _ Hanc) as Hlt.
    rewrite (proj2 (slot_search_spec pa Hok Hs na.(ProtoNode.slot) _ b ra Hlt Hlt)) by (by exists a, na).
    simpl. apply Z.eqb_refl.
Qed.

(** [ProtoArray::is_descendant] decides ancestry: on a well-formed array
    with increasing slots it returns [true] exactly when both roots are known
    and the first is the second or one of its ancestors. *)
Theorem is_descendant_correct pa ra rb :
  tree_ok pa → slots_ok pa →
  is_descendant pa ra rb = true ↔
  ∃ a b, pa.(ProtoArray.indices) !! ra = Some a ∧ pa.(ProtoArray.indices) !! rb = Some b ∧
         anc pa.(ProtoArray.nodes) a b.
Proof. apply is_descendant_iff. Qed.

(** ** A concrete block tree

    Small arrays built by running [on_block], used to instantiate the
    theorems on the proto-array.

    [ex_array] is the tree  10 <- 11 <- 12,  10 <- 13,  12 <- 14  of block
    roots, all at increasing slots, all optimistic except the root. *)
Definition ex_spe : Z := 32.
Definition ex_cp : Checkpoint.t := Checkpoint.mk 0 10.
Definition ex_sid : AttestationShufflingId.t := AttestationShufflingId.mk 0 0.

Definition ex_block (root : Z) (parent : option Z) (slot : Z) (s : ExecutionStatus.t) : Block.t :=
  {| Block.slot := slot; Block.root := root; Block.parent_root := parent;
     Block.state_root := 0; Block.target_root := 10;
     Block.current_epoch_shuffling_id := ex_sid; Block.next_epoch_shuffling_id := ex_sid;
     Block.justified_checkpoint := ex_cp; Block.finalized_checkpoint := ex_cp;
     Block.execution_status := s;
     Block.unrealized_justified_checkpoint := None;
     Block.unrealized_finalized_checkpoint := None;
     Block.builder_index := None; Block.payload_revealed := false; Block.ptc_weight := 0;
     Block.ptc_blob_data_available_weight := 0; Block.payload_data_available := false;
     Block.bid_block_hash := None; Block.bid_parent_block_hash := None;
     Block.proposer_index := 0; Block.ptc_timely := false; Block.envelope_received := false;
     Block.inclusion_list_satisfied := true |}.

Definition ex_empty : ProtoArray.t := ProtoArray.mk 0 ex_cp ex_cp [] ∅ ProposerBoost.default.

Definition ex_insert (b : Block.t) (pa : ProtoArray.t) : ProtoArray.t :=
  (on_block ex_spe b b.(Block.slot) pa).2.

Definition ex_blocks : list Block.t :=
  [ ex_block 10 None 0 (ExecutionStatus.Valid 110);
    ex_block 11 (Some 10) 1 (ExecutionStatus.Optimistic 111);
    ex_block 12 (Some 11) 2 (ExecutionStatus.Optimistic 112);
    ex_block 13 (Some 10) 3 (ExecutionStatus.Optimistic 113);
    ex_block 14 (Some 12) 4 (ExecutionStatus.Optimistic 114) ].

Definition ex_array : ProtoArray.t := foldl (fun pa b => ex_insert b pa) ex_empty ex_blocks.

Lemma ex_empty_wf : wf ex_empty.
Proof. split; [split|]; [done| |done]. intros r i. split; [done|]. by intros (n & Hn & _). Qed.

Lemma ex_insert_wf b pa : wf pa → wf (ex_insert b pa).
Proof. intros Hwf. by apply keeps_on_block. Qed.

Lemma ex_array_wf : wf ex_array.
Proof. unfold ex_array. simpl. do 5 apply ex_insert_wf. apply ex_empty_wf. Qed.

Lemma ex_array_nodes : length ex_array.(ProtoArray.nodes) = 5%nat.
Proof. reflexivity. Qed.

(** Evaluate a property of every edge of a concrete array of five nodes. *)
Ltac ex_edges :=
  intros i n p np Hi Hp Hnp;
  destruct i as [|[|[|[|[|i]]]]]; vm_compute in Hi; try discriminate Hi;
  apply (inj Some) in Hi; subst n; simpl in Hp; try discriminate Hp;
  apply (inj Some) in Hp; subst p; vm_compute in Hnp; apply (inj Some) in Hnp; subst np.

Lemma ex_array_slots : slots_ok ex_array.
Proof. ex_edges; vm_compute; reflexivity. Qed.
