(* ===== verification/ProtoArrayPrune.v ===== *)
(** * Pruning the proto-array

    [ProtoArray::maybe_prune] drops the nodes before the finalized block and
    renumbers the rest.  On a well-formed array it cannot fail past the lookup
    of the finalized root; it keeps the invariant, ancestry, viability and the
    head. *)
From Stdlib Require Import String.
From S2P Require Import Prelude SlotEpoch ProtoArrayDefs ProtoArrayWf ProtoArrayWalk.

(** A surviving node after the nodes before [f] are gone. *)
Definition shift (f : nat) (n : ProtoNode.t) : ProtoNode.t :=
  ProtoNode.set_links (p ← n.(ProtoNode.parent); usize_checked_sub p f)
    ((fun c => c - f)%nat <$> n.(ProtoNode.best_child))
    ((fun d => d - f)%nat <$> n.(ProtoNode.best_descendant)) n.

(** The array after pruning at index [f]. *)
Definition pruned (f : nat) (pa pa' : ProtoArray.t) : Prop :=
  pa'.(ProtoArray.nodes) = shift f <$> drop f pa.(ProtoArray.nodes) ∧
  (∀ r i, pa'.(ProtoArray.indices) !! r = Some i ↔
          pa.(ProtoArray.indices) !! r = Some (f + i)%nat) ∧
  pa'.(ProtoArray.prune_threshold) = pa.(ProtoArray.prune_threshold) ∧
  pa'.(ProtoArray.justified_checkpoint) = pa.(ProtoArray.justified_checkpoint) ∧
  pa'.(ProtoArray.finalized_checkpoint) = pa.(ProtoArray.finalized_checkpoint) ∧
  pa'.(ProtoArray.previous_proposer_boost) = pa.(ProtoArray.previous_proposer_boost).

Section run.
Implicit Types (pa : ProtoArray.t) (n : ProtoNode.t).

Lemma usize_checked_sub_ge a b : (b ≤ a)%nat → usize_checked_sub a b = Some (a - b)%nat.
Proof. intros. unfold usize_checked_sub. by destruct (Nat.leb_spec b a); [|lia]. Qed.

Lemma usize_checked_sub_Some a b c : usize_checked_sub a b = Some c ↔ a = (b + c)%nat.
Proof.
  unfold usize_checked_sub. destruct (Nat.leb_spec b a); split; intros; simplify_eq; try lia.
  f_equal. lia.
Qed.

Lemma alter_node_insert pa f i n :
  pa.(ProtoArray.nodes) !! i = Some n →
  ProtoArray.alter_node f i pa = ProtoArray.set_nodes (<[i := f n]> pa.(ProtoArray.nodes)) pa.
Proof.
  intros Hn. unfold ProtoArray.alter_node. f_equal. apply list_eq. intros j.
  destruct (decide (i = j)) as [<-|Hne].
  - rewrite list_lookup_alter_eq, Hn, list_lookup_insert_eq; [done|].
    by eapply lookup_lt_Some.
  - by rewrite list_lookup_alter_ne, list_lookup_insert_ne.
Qed.

Lemma alter_node_twice pa f g i n :
  pa.(ProtoArray.nodes) !! i = Some n →
  ProtoArray.alter_node g i (ProtoArray.alter_node f i pa) =
  ProtoArray.alter_node (fun n => g (f n)) i pa.
Proof.
  intros Hn. rewrite (alter_node_insert pa f i n Hn).
  rewrite (alter_node_insert _ g i (f n)).
  - simpl. rewrite list_insert_insert_eq.
    by rewrite (alter_node_insert pa (fun n => g (f n)) i n).
  - simpl. rewrite list_lookup_insert_eq; [done|]. by eapply lookup_lt_Some.
Qed.

Lemma alter_node_ext pa f g i n :
  pa.(ProtoArray.nodes) !! i = Some n → f n = g n →
  ProtoArray.alter_node f i pa = ProtoArray.alter_node g i pa.
Proof.
  intros Hn Hfg. by rewrite (alter_node_insert pa f i n), (alter_node_insert pa g i n), Hfg.
Qed.

Lemma shift_links_run f i pa n :
  pa.(ProtoArray.nodes) !! i = Some n →
  (∀ c, n.(ProtoNode.best_child) = Some c → (f ≤ c)%nat) →
  (∀ d, n.(ProtoNode.best_descendant) = Some d → (f ≤ d)%nat) →
  shift_links f i pa = (Ok tt, ProtoArray.alter_node (shift f) i pa).
Proof.
  intros Hn Hc Hd. unfold shift_links, mbind, M_bind, get, lift, modify. rewrite Hn. simpl.
  destruct n.(ProtoNode.best_child) as [c|] eqn:Ec;
    [rewrite usize_checked_sub_ge by auto; simpl|];
    (destruct n.(ProtoNode.best_descendant) as [d|] eqn:Ed;
      [rewrite usize_checked_sub_ge by auto|]); simpl;
    rewrite ?(alter_node_twice _ _ _ _ _ Hn); f_equal;
    apply (alter_node_ext _ _ _ _ n Hn); destruct n; by simplify_eq/=.
Qed.

(** First loop: forget the roots of the nodes before [f]. *)
Lemma forget_roots_run pa f :
  tree_ok pa → (f ≤ length pa.(ProtoArray.nodes))%nat →
  ∃ ix, for_each (seq 0 f) (fun node_index =>
      node ← lift (ok_or (pa.(ProtoArray.nodes) !! node_index)
        (Error.InvalidNodeIndex node_index));
      modify (fun pa => ProtoArray.set_indices
        (delete node.(ProtoNode.root) pa.(ProtoArray.indices)) pa)) pa
    = (Ok tt, ProtoArray.set_indices ix pa) ∧
    (∀ r i, ix !! r = Some i ↔ pa.(ProtoArray.indices) !! r = Some i ∧ (f ≤ i)%nat).
Proof.
  intros Hok Hlen.
  edestruct (for_seq_total (S:=ProtoArray.t) (E:=Error.t))
    with (a := 0%nat) (n := f) (s := pa)
    (I := fun k s => ∃ ix, s = ProtoArray.set_indices ix pa ∧
      ∀ r i, ix !! r = Some i ↔ pa.(ProtoArray.indices) !! r = Some i ∧ (k ≤ i)%nat)
    as (s' & Hrun & ix & -> & Hix); [| |by eauto].
  - exists pa.(ProtoArray.indices). split; [by destruct pa|]. intros r i. split; [|by intros []].
    intros; split; [done|lia].
  - intros k s1 Hk (ix & -> & Hix).
    destruct (lookup_lt_is_Some_2 pa.(ProtoArray.nodes) k) as [n Hn]; [lia|].
    eexists. unfold mbind, M_bind, lift, modify. rewrite Hn. simpl. split; [done|].
    exists (delete n.(ProtoNode.root) ix). split; [done|]. intros r i.
    pose proof (node_indices _ _ _ Hok Hn) as Hroot.
    rewrite lookup_delete. case_decide as Hr; [subst r|].
    + split; [done|]. intros [Hi Hle]. rewrite Hi in Hroot. injection Hroot as ->. lia.
    + rewrite Hix. split; intros [Hi Hle]; (split; [done|]); [|lia].
      assert (i ≠ k); [|lia]. intros ->. apply Hr. by eapply indices_node.
Qed.

(** Second loop: renumber the root index. *)
Lemma renumber_run pa f :
  (∀ r i, pa.(ProtoArray.indices) !! r = Some i → (f ≤ i)%nat) →
  ∃ ix, for_each (map_to_list pa.(ProtoArray.indices)) (fun '(root, index) =>
      index' ← lift (ok_or (usize_checked_sub index f) (Error.IndexOverflow "indices"%string));
      modify (fun pa => ProtoArray.set_indices
        (<[root := index']> pa.(ProtoArray.indices)) pa)) pa
    = (Ok tt, ProtoArray.set_indices ix pa) ∧
    (∀ r i, ix !! r = Some i ↔ pa.(ProtoArray.indices) !! r = Some (f + i)%nat).
Proof.
  intros Hge. set (m := pa.(ProtoArray.indices)) in *.
  edestruct (for_each_total (S:=ProtoArray.t) (E:=Error.t) (A:=(Z * nat)%type))
    with (l := map_to_list m) (s := pa)
    (I := fun (done : list (Z * nat)) s => ∃ ix, s = ProtoArray.set_indices ix pa ∧
      ∀ r, ix !! r = if bool_decide (r ∈ done.*1) then (fun i => i - f)%nat <$> m !! r
                     else m !! r)
    as (s' & Hrun & ix & -> & Hix); cycle 2.
  { exists ix. split; [exact Hrun|]. intros r i. rewrite Hix.
    case_bool_decide as Hin.
    - destruct (m !! r) as [j|] eqn:Hj; simpl; [|by split].
      pose proof (Hge _ _ Hj). split; intros Heq; injection Heq as Heq; f_equal; lia.
    - destruct (m !! r) as [j|] eqn:Hj; [|by split]. exfalso. apply Hin.
      apply list_elem_of_fmap. exists (r, j). split; [done|]. by apply elem_of_map_to_list. }
  - exists m. split; [by destruct pa|]. intros r. case_bool_decide as H; [|done].
    by apply elem_of_nil in H.
  - intros pre [root index] rest s1 Hl (ix & -> & Hix).
    assert (m !! root = Some index) as Hm.
    { apply elem_of_map_to_list. rewrite Hl. set_solver. }
    eexists. unfold mbind, M_bind, lift, modify.
    rewrite usize_checked_sub_ge by eauto. simpl. split; [done|].
    exists (<[root := (index - f)%nat]> ix). split; [done|]. intros r.
    rewrite lookup_insert. rewrite fmap_app. case_decide as Hr; [subst r|].
    + rewrite bool_decide_true by (simpl; set_solver). by rewrite Hm.
    + rewrite Hix.
      destruct (decide (r ∈ pre.*1)).
      * by rewrite !bool_decide_true by set_solver.
      * rewrite !bool_decide_false; [done| |done]. simpl. set_solver.
Qed.

(** Third loop: renumber every node's links. *)
Lemma shift_all_run pa f :
  (∀ i n c, pa.(ProtoArray.nodes) !! i = Some n →
     n.(ProtoNode.best_child) = Some c → (f ≤ c)%nat) →
  (∀ i n d, pa.(ProtoArray.nodes) !! i = Some n →
     n.(ProtoNode.best_descendant) = Some d → (f ≤ d)%nat) →
  for_each (seq 0 (length pa.(ProtoArray.nodes))) (shift_links f) pa
  = (Ok tt, ProtoArray.set_nodes (shift f <$> pa.(ProtoArray.nodes)) pa).
Proof.
  intros Hc Hd. set (ns := pa.(ProtoArray.nodes)) in *.
  edestruct (for_seq_total (S:=ProtoArray.t) (E:=Error.t) (shift_links f))
    with (a := 0%nat) (n := length ns) (s := pa)
    (I := fun k s => s = ProtoArray.set_nodes ((shift f <$> take k ns) ++ drop k ns) pa)
    as (s' & Hrun & ->).
  - rewrite take_0, drop_0. by destruct pa.
  - intros k s1 Hk ->.
    destruct (lookup_lt_is_Some_2 ns k) as [n Hn]; [lia|].
    assert (((shift f <$> take k ns) ++ drop k ns) !! k = Some n) as Hn'.
    { rewrite lookup_app_r; rewrite length_fmap, length_take; [|lia].
      rewrite Nat.min_l by lia. rewrite Nat.sub_diag, lookup_drop, Nat.add_0_r. done. }
    eexists. split; [apply (shift_links_run _ _ _ n); eauto|].
    rewrite (alter_node_insert _ _ _ n) by done. simpl. unfold ProtoArray.set_nodes. simpl.
    f_equal. rewrite (take_S_r _ _ _ Hn), fmap_app, <-app_assoc.
    rewrite (drop_S _ _ _ Hn) at 1. rewrite insert_app_r_alt; rewrite length_fmap, length_take; [|lia].
    rewrite Nat.min_l by lia. by rewrite Nat.sub_diag.
  - rewrite Hrun. rewrite Nat.add_0_l, take_ge, drop_ge, app_nil_r by done. done.
Qed.
End run.

Section pruned.
Context (pa pa' : ProtoArray.t) (f : nat).
Context (Hwf : wf pa) (Hpr : pruned f pa pa').

Lemma pruned_lookup i :
  pa'.(ProtoArray.nodes) !! i = shift f <$> pa.(ProtoArray.nodes) !! (f + i)%nat.
Proof using Hpr. destruct Hpr as [-> _]. by rewrite list_lookup_fmap, lookup_drop. Qed.

Lemma pruned_lookup_Some i n' :
  pa'.(ProtoArray.nodes) !! i = Some n' ↔
  ∃ n, pa.(ProtoArray.nodes) !! (f + i)%nat = Some n ∧ n' = shift f n.
Proof using Hpr.
  rewrite pruned_lookup, fmap_Some. split; intros (n & ? & ?); exists n; split; congruence.
Qed.

Lemma shift_parent n p :
  (shift f n).(ProtoNode.parent) = Some p ↔ n.(ProtoNode.parent) = Some (f + p)%nat.
Proof using.
  simpl. destruct n.(ProtoNode.parent) as [q|]; simpl; [|by split].
  rewrite usize_checked_sub_Some. split; congruence.
Qed.

Lemma pruned_child_of i c :
  child_of pa'.(ProtoArray.nodes) i c ↔ child_of pa.(ProtoArray.nodes) (f + i) (f + c).
Proof using Hpr.
  split.
  - intros (n' & (n & Hn & ->)%pruned_lookup_Some & Hp). exists n. by rewrite shift_parent in Hp.
  - intros (n & Hn & Hp). exists (shift f n). rewrite pruned_lookup_Some, shift_parent. eauto.
Qed.

Lemma pruned_length :
  length pa'.(ProtoArray.nodes) = (length pa.(ProtoArray.nodes) - f)%nat.
Proof using Hpr. destruct Hpr as [-> _]. by rewrite length_fmap, length_drop. Qed.

Lemma pruned_anc_1 a i :
  anc pa'.(ProtoArray.nodes) a i → anc pa.(ProtoArray.nodes) (f + a) (f + i).
Proof using Hpr.
  induction 1 as [Hlt|i n' p Hi Hp _ IH].
  - constructor. rewrite pruned_length in Hlt. lia.
  - apply pruned_lookup_Some in Hi as (n & Hn & ->). apply shift_parent in Hp.
    by eapply anc_step.
Qed.

Lemma pruned_anc_2 a i :
  (f ≤ a)%nat → anc pa.(ProtoArray.nodes) a i →
  anc pa'.(ProtoArray.nodes) (a - f) (i - f).
Proof using Hwf Hpr.
  intros Ha. induction 1 as [Hlt|i n p Hi Hp Hanc IH].
  - constructor. rewrite pruned_length. lia.
  - pose proof (anc_le _ _ _ (wf_tree _ Hwf) Hanc).
    pose proof (parent_lt _ (wf_tree _ Hwf) _ _ _ Hi Hp).
    eapply (anc_step _ _ _ (shift f n)); [| |done].
    + rewrite pruned_lookup_Some. exists n. split; [|done].
      by replace (f + (i - f))%nat with i by lia.
    + apply shift_parent. rewrite Hp. f_equal. lia.
Qed.

Lemma pruned_wf : wf pa'.
Proof using Hwf Hpr.
  destruct Hwf as [Ht Hl]. split; [split|].
  - intros i n' p (n & Hn & ->)%pruned_lookup_Some Hp%shift_parent.
    pose proof (parent_lt _ Ht _ _ _ Hn Hp). lia.
  - intros r i. destruct Hpr as (_ & Hix & _). rewrite Hix, (indices_ok _ Ht). split.
    + intros (n & Hn & Hr). exists (shift f n). rewrite pruned_lookup_Some. eauto.
    + intros (n' & (n & Hn & ->)%pruned_lookup_Some & Hr). eauto.
  - intros i n' (n & Hn & ->)%pruned_lookup_Some. destruct (Hl _ _ Hn) as [Hc Hd]. split.
    + intros c. simpl. intros (c0 & Hbc & ->)%fmap_Some. specialize (Hc _ Hbc).
      pose proof (child_lt _ _ _ Ht Hc). apply pruned_child_of.
      by replace (f + (c0 - f))%nat with c0 by lia.
    + intros d. simpl. intros (d0 & Hbd & ->)%fmap_Some.
      destruct (Hd _ Hbd) as (c & Hc' & Ha). pose proof (child_lt _ _ _ Ht Hc').
      exists (c - f)%nat. split.
      * apply pruned_child_of. by replace (f + (c - f))%nat with c by lia.
      * apply pruned_anc_2; [lia|done].
Qed.
End pruned.

(** [maybe_prune] on a well-formed array whose finalized block is past the
    threshold returns [Ok] with the pruned array. *)
Lemma maybe_prune_run pa root f :
  wf pa → pa.(ProtoArray.indices) !! root = Some f → (pa.(ProtoArray.prune_threshold) ≤ f)%nat →
  ∃ pa', maybe_prune root pa = (Ok tt, pa') ∧ pruned f pa pa'.
Proof.
  intros [Ht Hl] Hroot Hth.
  assert (f < length pa.(ProtoArray.nodes))%nat as Hf.
  { apply (indices_ok _ Ht) in Hroot as (n & Hn & _). by eapply lookup_lt_Some. }
  unfold maybe_prune. rewrite (bind_ok_eq _ _ _ pa pa) by done.
  rewrite (bind_ok_eq _ _ _ f pa) by (by rewrite Hroot).
  destruct (Nat.ltb_spec f pa.(ProtoArray.prune_threshold)) as [?|_]; [lia|].
  destruct (forget_roots_run pa f Ht) as (ix1 & Hrun1 & Hix1); [lia|].
  rewrite (bind_ok_eq _ _ _ _ _ Hrun1).
  destruct (Nat.ltb_spec (length pa.(ProtoArray.nodes)) f) as [?|_]; [lia|].
  set (pa2 := ProtoArray.set_nodes (drop f pa.(ProtoArray.nodes)) (ProtoArray.set_indices ix1 pa)).
  rewrite (bind_ok_eq _ _ _ tt (ProtoArray.set_indices ix1 pa)) by done.
  rewrite (bind_ok_eq _ _ _ tt pa2) by done.
  rewrite (bind_ok_eq _ _ _ pa2 pa2) by done.
  destruct (renumber_run pa2 f) as (ix2 & Hrun2 & Hix2).
  { intros r i. simpl. by intros [_ ?]%Hix1. }
  rewrite (bind_ok_eq _ _ _ _ _ Hrun2).
  assert (∀ i n, drop f pa.(ProtoArray.nodes) !! i = Some n → link_wf pa.(ProtoArray.nodes) (f + i) n)
    as Hlk by (intros i n; rewrite lookup_drop; apply Hl).
  pose proof (shift_all_run (ProtoArray.set_indices ix2 pa2) f) as Hrun3. simpl in Hrun3.
  eexists. split; [apply Hrun3|].
  - intros i n c Hi Hc. destruct (Hlk _ _ Hi) as [H _].
    pose proof (child_lt _ _ _ Ht (H _ Hc)). lia.
  - intros i n d Hi Hd. destruct (Hlk _ _ Hi) as [_ H].
    pose proof (proper_desc_lt _ _ _ Ht (H _ Hd)). lia.
  - split; [done|]. split; [|done]. intros r i. simpl. rewrite Hix2. simpl. rewrite Hix1.
    split; [by intros []|]. intros; split; [done|lia].
Qed.

Lemma keeps_maybe_prune root : keeps wf (maybe_prune root).
Proof.
  intros pa Hwf. destruct (pa.(ProtoArray.indices) !! root) as [f|] eqn:Hr.
  - destruct (decide (f < pa.(ProtoArray.prune_threshold))%nat).
    + unfold maybe_prune. rewrite (bind_ok_eq _ _ _ pa pa) by done.
      rewrite (bind_ok_eq _ _ _ f pa) by (by rewrite Hr).
      by destruct (Nat.ltb_spec f pa.(ProtoArray.prune_threshold)); [|lia].
    + destruct (maybe_prune_run pa root f Hwf Hr) as (pa' & -> & Hpr); [lia|].
      by eapply pruned_wf.
  - unfold maybe_prune. rewrite (bind_ok_eq _ _ _ pa pa) by done.
    unfold mbind, M_bind, lift. by rewrite Hr.
Qed.

(** ** Pruning does not change the head *)
Section head.
Context (spe : Z) (pa pa' : ProtoArray.t) (f : nat).
Context (Hwf : wf pa) (Hpr : pruned f pa pa').
(** The array is pruned at the finalized checkpoint's block. *)
Context (Hfin : pa.(ProtoArray.indices) !!
  pa.(ProtoArray.finalized_checkpoint).(Checkpoint.root) = Some f).

(** A walk that starts before the finalized block never meets it. *)
Lemma walk_below fuel i n :
  (i < f)%nat → pa.(ProtoArray.nodes) !! i = Some n → finalized_walk spe fuel pa n = false.
Proof using Hwf Hpr Hfin.
  revert i n. induction fuel as [|fuel IH]; intros i n Hi Hn; [done|]. simpl. case_match.
  - apply Z.eqb_neq. intros Heq. apply (node_indices _ _ _ (wf_tree _ Hwf)) in Hn.
    rewrite Heq, Hfin in Hn. injection Hn as ->. lia.
  - destruct n.(ProtoNode.parent) as [p|] eqn:Hp; [|done]. simpl.
    pose proof (parent_lt _ (wf_tree _ Hwf) _ _ _ Hn Hp).
    destruct (_ !! p) as [np|] eqn:Hnp; [|done]. apply (IH p); [lia|done].
Qed.

Lemma pruned_walk i : ∀ n fuel fuel',
  pa.(ProtoArray.nodes) !! (f + i)%nat = Some n → (f + i < fuel)%nat → (i < fuel')%nat →
  finalized_walk spe fuel' pa' (shift f n) = finalized_walk spe fuel pa n.
Proof using Hwf Hpr Hfin.
  induction i as [i IH] using lt_wf_ind. intros n fuel fuel' Hn Hf Hf'.
  destruct fuel as [|fuel]; [lia|]. destruct fuel' as [|fuel']; [lia|]. simpl.
  pose proof Hpr as (_ & _ & _ & _ & Hfc & _). rewrite Hfc. case_match; [done|].
  destruct n.(ProtoNode.parent) as [p|] eqn:Hp; [|done]. simpl.
  pose proof (parent_lt _ (wf_tree _ Hwf) _ _ _ Hn Hp).
  destruct (parent_lookup _ (wf_tree _ Hwf) _ _ _ Hn Hp) as [np Hnp]. rewrite Hnp.
  unfold usize_checked_sub. destruct (Nat.leb_spec f p) as [Hle|Hlt]; simpl.
  - rewrite (pruned_lookup _ _ _ Hpr). replace (f + (p - f))%nat with p by lia.
    rewrite Hnp. simpl. apply (IH (p - f)%nat); [lia| |lia..]. by replace (f + (p - f))%nat with p by lia.
  - by rewrite (walk_below _ p).
Qed.

Lemma pruned_viable i n slot :
  pa.(ProtoArray.nodes) !! (f + i)%nat = Some n →
  node_is_viable_for_head spe pa' (shift f n) slot = node_is_viable_for_head spe pa n slot.
Proof using Hwf Hpr Hfin.
  intros Hn. unfold node_is_viable_for_head. simpl.
  pose proof Hpr as (_ & Hix & _ & Hjc & Hfc & _). rewrite Hjc, Hfc.
  enough (is_finalized_checkpoint_or_descendant spe pa' n.(ProtoNode.root)
    = is_finalized_checkpoint_or_descendant spe pa n.(ProtoNode.root)) as -> by done.
  unfold is_finalized_checkpoint_or_descendant.
  pose proof (node_indices _ _ _ (wf_tree _ Hwf) Hn) as Hr. rewrite Hr.
  apply Hix in Hr. rewrite Hr. simpl. rewrite Hn, (pruned_lookup _ _ _ Hpr), Hn. simpl.
  rewrite Hfc. do 2 (case_match; [done|]).
  rewrite (pruned_walk i n (length pa.(ProtoArray.nodes))); [done..| |].
  - by eapply lookup_lt_Some.
  - rewrite (pruned_length _ _ _ Hpr). apply lookup_lt_Some in Hn. lia.
Qed.

Lemma pruned_find_head jroot j slot :
  pa.(ProtoArray.indices) !! jroot = Some j → (f ≤ j)%nat →
  find_head spe pa' jroot slot = find_head spe pa jroot slot.
Proof using Hwf Hpr Hfin.
  intros Hj Hle. pose proof Hpr as (_ & Hix & _ & Hjc & Hfc & _).
  pose proof (wf_tree _ Hwf) as Ht.
  pose proof (proj1 (indices_ok _ Ht _ _) Hj) as (n & Hn & _).
  unfold find_head. rewrite Hj.
  assert (pa'.(ProtoArray.indices) !! jroot = Some (j - f)%nat) as ->.
  { apply Hix. by replace (f + (j - f))%nat with j by lia. }
  unfold mbind, outcome_bind, ok_or.
  rewrite (pruned_lookup _ _ _ Hpr). replace (f + (j - f))%nat with j by lia.
  rewrite Hn. simpl. case_match; [done|].
  assert (∃ d nd, default j n.(ProtoNode.best_descendant) = (f + d)%nat ∧
    default (j - f)%nat ((fun d => d - f)%nat <$> n.(ProtoNode.best_descendant)) = d ∧
    pa.(ProtoArray.nodes) !! (f + d)%nat = Some nd) as (d & nd & -> & -> & Hd).
  { destruct (wf_links _ Hwf _ _ Hn) as [_ Hbd].
    destruct n.(ProtoNode.best_descendant) as [d|]; simpl.
    - destruct (Hbd d eq_refl) as (c & Hc & Ha). pose proof (anc_lt_length _ _ _ Ha) as Hd.
      pose proof (child_lt _ _ _ Ht Hc). pose proof (anc_le _ _ _ Ht Ha).
      destruct (lookup_lt_is_Some_2 _ _ Hd) as [nd Hnd]. exists (d - f)%nat, nd.
      replace (f + (d - f))%nat with d by lia. done.
    - exists (j - f)%nat, n. by replace (f + (j - f))%nat with j by lia. }
  rewrite (pruned_lookup _ _ _ Hpr), Hd. simpl. rewrite (pruned_viable d nd) by done.
  by rewrite Hjc, Hfc.
Qed.
End head.

(** C20. Pruning at the finalized checkpoint is invisible to head selection: on
    a well-formed array [maybe_prune] returns [Ok], keeps the invariant, and
    [find_head] from any justified root at or after the finalized block returns
    what it returned before. *)
Theorem maybe_prune_preserves_head spe pa f jroot j slot :
  wf pa →
  pa.(ProtoArray.indices) !! pa.(ProtoArray.finalized_checkpoint).(Checkpoint.root) = Some f →
  pa.(ProtoArray.indices) !! jroot = Some j → (f ≤ j)%nat →
  ∃ pa', maybe_prune pa.(ProtoArray.finalized_checkpoint).(Checkpoint.root) pa = (Ok tt, pa')
    ∧ wf pa' ∧ find_head spe pa' jroot slot = find_head spe pa jroot slot.
Proof.
  intros Hwf Hf Hj Hle.
  destruct (decide (f < pa.(ProtoArray.prune_threshold))%nat) as [Hlt|Hge].
  - exists pa. split; [|done]. unfold maybe_prune. rewrite (bind_ok_eq _ _ _ pa pa) by done.
    rewrite (bind_ok_eq _ _ _ f pa) by (by rewrite Hf).
    by destruct (Nat.ltb_spec f pa.(ProtoArray.prune_threshold)); [|lia].
  - destruct (maybe_prune_run pa _ f Hwf Hf) as (pa' & Hrun & Hpr); [lia|].
    exists pa'. split_and!; [done|by eapply pruned_wf|by eapply pruned_find_head].
Qed.

(** Pruning the example array at block 11, its finalized block, drops block 10
    and keeps the head of block 12. *)
Definition ex_finalized : ProtoArray.t :=
  ProtoArray.set_checkpoints ex_cp (Checkpoint.mk 0 11) ex_array.

Lemma ex_finalized_wf : wf ex_finalized.
Proof. destruct ex_array_wf as [[H1 H2] H3]. by split; [split|]. Qed.

Lemma maybe_prune_preserves_head_witness :
  ∃ pa', maybe_prune 11 ex_finalized = (Ok tt, pa') ∧ wf pa' ∧
    find_head ex_spe pa' 12 5 = find_head ex_spe ex_finalized 12 5.
Proof.
  apply (maybe_prune_preserves_head ex_spe ex_finalized 1 12 2 5 ex_finalized_wf);
    [reflexivity|reflexivity|lia].
Defined.

(** Pruning drops exactly the nodes before the finalized block and keeps
    ancestry among the rest, with every index shifted by the same amount. *)
Theorem maybe_prune_keeps_ancestry pa froot f pa' :
  wf pa → pa.(ProtoArray.indices) !! froot = Some f →
  (pa.(ProtoArray.prune_threshold) ≤ f)%nat → maybe_prune froot pa = (Ok tt, pa') →
  length pa'.(ProtoArray.nodes) = (length pa.(ProtoArray.nodes) - f)%nat ∧
  (∀ r i, pa'.(ProtoArray.indices) !! r = Some i ↔
          pa.(ProtoArray.indices) !! r = Some (f + i)%nat) ∧
  (∀ a b, anc pa'.(ProtoArray.nodes) a b ↔ anc pa.(ProtoArray.nodes) (f + a) (f + b)).
Proof.
  intros Hwf Hf Hth Hrun. destruct (maybe_prune_run pa froot f Hwf Hf Hth) as (pa2 & Hrun2 & Hpr).
  rewrite Hrun in Hrun2. injection Hrun2 as <-. split_and!.
  - by apply pruned_length.
  - by destruct Hpr as (_ & Hix & _).
  - intros a b. split; [by apply pruned_anc_1|]. intros Ha.
    apply (pruned_anc_2 _ _ _ Hwf Hpr) in Ha; [|lia].
    by replace (f + a - f)%nat with a in Ha by lia; replace (f + b - f)%nat with b in Ha by lia.
Qed.

