(* ===== verification/ProtoArrayExec.v ===== *)
(** * Execution verdicts in the proto-array

    The invariant relating the execution status of a block to its parent's,
    and the two propagations that maintain it: a valid payload makes its
    ancestors valid, an invalid one its descendants invalid. *)
From S2P Require Import Prelude SlotEpoch ProtoArrayDefs ProtoArrayWf ProtoArrayWalk.

Implicit Types (pa : ProtoArray.t) (n : ProtoNode.t).

Abbreviation status := ProtoNode.execution_status.
Abbreviation is_valid := ExecutionStatus.is_valid_and_post_bellatrix.
Abbreviation is_invalid := ExecutionStatus.is_invalid.
Abbreviation valid_or_irrelevant := ExecutionStatus.is_valid_or_irrelevant.

(** A valid block has a valid (or pre-merge) parent. *)
Definition valid_up n np : Prop :=
  is_valid n.(status) = true → valid_or_irrelevant np.(status) = true.
(** A child of an invalid block is invalid. *)
Definition invalid_down n np : Prop :=
  is_invalid np.(status) = true → is_invalid n.(status) = true.

(** The two conditions on every edge of the tree, the first only on edges into
    parents satisfying [A], the second only on edges satisfying [B]. *)
Definition edges_ok (A : nat → Prop) (B : nat → nat → Prop) pa : Prop := ∀ i n p np,
  pa.(ProtoArray.nodes) !! i = Some n → n.(ProtoNode.parent) = Some p →
  pa.(ProtoArray.nodes) !! p = Some np →
  (A p → valid_up n np) ∧ (B i p → invalid_down n np).

Definition status_ok pa : Prop := edges_ok (fun _ => True) (fun _ _ => True) pa.

Section status_lemmas.
Lemma alter_lookup pa f i j :
  (ProtoArray.alter_node f i pa).(ProtoArray.nodes) !! j =
  if decide (i = j) then f <$> pa.(ProtoArray.nodes) !! j else pa.(ProtoArray.nodes) !! j.
Proof.
  simpl. case_decide as H; [subst; apply list_lookup_alter_eq|by apply list_lookup_alter_ne].
Qed.

Lemma alter_tree_ok pa f i :
  (∀ n, static (f n) = static n) → tree_ok pa → tree_ok (ProtoArray.alter_node f i pa).
Proof. intros Hf. apply tree_ok_same; [|done]. by apply same_tree_alter. Qed.

(** Altering a node without touching statuses keeps every edge. *)
Lemma edges_ok_alter A B pa f i :
  (∀ n, static (f n) = static n) → (∀ n, (f n).(status) = n.(status)) →
  edges_ok A B pa → edges_ok A B (ProtoArray.alter_node f i pa).
Proof.
  intros Hf Hs H j n p np Hj Hp Hnp.
  rewrite alter_lookup in Hj, Hnp.
  assert (∃ n0, pa.(ProtoArray.nodes) !! j = Some n0 ∧ n0.(ProtoNode.parent) = Some p ∧
    n0.(status) = n.(status)) as (n0 & Hj0 & Hp0 & Hs0).
  { destruct (decide (i = j)); [|by exists n]. apply fmap_Some in Hj as (n0 & Hn0 & ->). exists n0.
    by rewrite Hs, <-Hp, (static_parent _ _ (Hf n0)). }
  assert (∃ np0, pa.(ProtoArray.nodes) !! p = Some np0 ∧ np0.(status) = np.(status))
    as (np0 & Hnp0 & Hsp0).
  { destruct (decide (i = p)); [|by exists np]. apply fmap_Some in Hnp as (np0 & Hnp0 & ->). exists np0.
    by rewrite Hs. }
  specialize (H _ _ _ _ Hj0 Hp0 Hnp0). unfold valid_up, invalid_down in *.
  by rewrite Hs0, Hsp0 in H.
Qed.

(** [maybe_update_best_child_and_descendant] does not fail on linked nodes. *)
Lemma node_leads_total spe pa i n slot :
  links_wf pa.(ProtoArray.nodes) → pa.(ProtoArray.nodes) !! i = Some n →
  ∃ b, node_leads_to_viable_head spe pa n slot = Ok b.
Proof.
  intros Hl Hn. destruct (Hl _ _ Hn) as [_ Hd]. unfold node_leads_to_viable_head.
  destruct n.(ProtoNode.best_descendant) as [d|]; [|eexists; done].
  destruct (Hd d eq_refl) as (c & _ & Ha). apply anc_lt_length in Ha.
  destruct (lookup_lt_is_Some_2 _ _ Ha) as [nd Hnd]. unfold mbind, outcome_bind, ok_or.
  rewrite Hnd. eexists. done.
Qed.

Lemma new_best_total spe pa p c slot :
  links_wf pa.(ProtoArray.nodes) → child_of pa.(ProtoArray.nodes) p c →
  (p < length pa.(ProtoArray.nodes))%nat →
  ∃ r, new_best_child_and_descendant spe pa p c slot = Ok r.
Proof.
  intros Hl (nc & Hnc & Hp) Hlt. destruct (lookup_lt_is_Some_2 _ _ Hlt) as [np Hnp].
  unfold new_best_child_and_descendant. unfold mbind, outcome_bind, ok_or. rewrite Hnc, Hnp.
  destruct (node_leads_total spe pa c nc slot) as [v ->]; [done..|].
  destruct np.(ProtoNode.best_child) as [b|] eqn:Hb; [|case_match; eauto].
  case_match; [eauto|]. case_match; [eauto|].
  destruct (Hl _ _ Hnp) as [Hbc _]. destruct (Hbc _ Hb) as (nb & Hnb & _). rewrite Hnb.
  destruct (node_leads_total spe pa b nb slot) as [v' ->]; [done..|].
  repeat case_match; eauto.
Qed.

Lemma maybe_update_total spe pa p c slot :
  links_wf pa.(ProtoArray.nodes) → child_of pa.(ProtoArray.nodes) p c →
  (p < length pa.(ProtoArray.nodes))%nat →
  ∃ bc bd, maybe_update_best_child_and_descendant spe p c slot pa
    = (Ok tt, ProtoArray.alter_node (ProtoNode.set_best bc bd) p pa).
Proof.
  intros Hl Hc Hlt. destruct (new_best_total spe pa p c slot Hl Hc Hlt) as [[bc bd] Hr].
  destruct (lookup_lt_is_Some_2 _ _ Hlt) as [np Hnp]. exists bc, bd.
  unfold maybe_update_best_child_and_descendant, mbind, M_bind, get, lift, modify.
  by rewrite Hr, Hnp.
Qed.
End status_lemmas.

(** ** Valid payloads *)

(** What the validation walk from node [i] may do to node [j]. *)
Definition validated pa pa' (i : nat) : Prop := frame pa pa' ∧ ∀ j n n',
  pa.(ProtoArray.nodes) !! j = Some n → pa'.(ProtoArray.nodes) !! j = Some n' →
  n' = n ∨ anc pa.(ProtoArray.nodes) j i ∧
    ∃ h, n.(status) = ExecutionStatus.Optimistic h ∧
         n' = ProtoNode.set_status (ExecutionStatus.Valid h) n.

Section validation.
Lemma validated_refl pa i : validated pa pa i.
Proof. split; [apply frame_refl|]. intros. left. congruence. Qed.

Lemma frame_lookup pa pa' i n :
  frame pa pa' → pa.(ProtoArray.nodes) !! i = Some n →
  ∃ n', pa'.(ProtoArray.nodes) !! i = Some n' ∧ static n = static n'.
Proof. intros [Hs _]. by apply same_tree_lookup. Qed.

Lemma frame_trans pa1 pa2 pa3 : frame pa1 pa2 → frame pa2 pa3 → frame pa1 pa3.
Proof. intros [? ?] [? ?]. split; by etransitivity. Qed.

(** One step of the walk, from an optimistic node [i] to its parent. *)
Lemma validated_set pa i n h :
  pa.(ProtoArray.nodes) !! i = Some n → n.(status) = ExecutionStatus.Optimistic h →
  validated pa (ProtoArray.alter_node (ProtoNode.set_status (ExecutionStatus.Valid h)) i pa) i.
Proof.
  intros Hn Hs. split; [by apply frame_alter, frame_refl|]. intros j nj n' Hj Hn'.
  rewrite alter_lookup, Hj in Hn'. case_decide as Hij; [|left; congruence]. subst j.
  replace nj with n in * by congruence. apply (inj Some) in Hn' as <-. right.
  split; [constructor; by eapply lookup_lt_Some|eauto].
Qed.

Lemma validated_step pa pa1 pa2 i p n :
  pa.(ProtoArray.nodes) !! i = Some n → n.(ProtoNode.parent) = Some p →
  validated pa pa1 i → validated pa1 pa2 p → validated pa pa2 i.
Proof.
  intros Hn Hp [Hf1 H1] [Hf2 H2]. split; [by eapply frame_trans|]. intros j nj n' Hj Hn'.
  destruct (frame_lookup _ _ _ _ Hf1 Hj) as (n1 & Hn1 & _).
  destruct (H2 _ _ _ Hn1 Hn') as [->|(Ha & h & Hh & ->)]; [by eapply H1|].
  destruct (H1 _ _ _ Hj Hn1) as [->|(_ & h' & _ & ->)]; [|done]. right. split; [|by eauto].
  eapply anc_step; [done..|]. eapply anc_same; [|done]. symmetry. by destruct Hf1.
Qed.

(** The walk leaves its starting node valid or pre-merge. *)
Lemma validated_keeps_valid pa pa' i j n :
  validated pa pa' i → pa.(ProtoArray.nodes) !! j = Some n →
  valid_or_irrelevant n.(status) = true →
  ∃ n', pa'.(ProtoArray.nodes) !! j = Some n' ∧ valid_or_irrelevant n'.(status) = true.
Proof.
  intros [Hf H] Hj Hv. destruct (frame_lookup _ _ _ _ Hf Hj) as (n' & Hn' & _).
  exists n'. split; [done|]. by destruct (H _ _ _ Hj Hn') as [->|(_ & h & Hh & ->)].
Qed.

Lemma edges_ok_set_valid (A : nat → Prop) pa i n h :
  tree_ok pa → edges_ok (fun p => p ≠ i) (fun _ _ => True) pa →
  pa.(ProtoArray.nodes) !! i = Some n → n.(status) = ExecutionStatus.Optimistic h →
  (∀ p, A p → n.(ProtoNode.parent) ≠ Some p) →
  edges_ok A (fun _ _ => True)
    (ProtoArray.alter_node (ProtoNode.set_status (ExecutionStatus.Valid h)) i pa).
Proof.
  intros Hok He Hn Hs HA j nj p np Hj Hp Hnp. rewrite alter_lookup in Hj, Hnp.
  destruct (decide (i = j)) as [<-|Hij].
  - rewrite Hn in Hj. apply (inj Some) in Hj as <-. simpl in Hp.
    pose proof (parent_lt _ Hok _ _ _ Hn Hp). rewrite decide_False in Hnp by lia. split.
    + intros HAp. by destruct (HA _ HAp).
    + intros _ Hnpi. destruct (He _ _ _ _ Hn Hp Hnp) as [_ H2].
      specialize (H2 I Hnpi). rewrite Hs in H2. done.
  - destruct (decide (i = p)) as [<-|Hip].
    + rewrite Hn in Hnp. apply (inj Some) in Hnp as <-. by split; intros _ ?.
    + destruct (He _ _ _ _ Hj Hp Hnp) as [H1 H2]. split; [|auto]. intros _. by apply H1.
Qed.

(** The walk at node [i], when only the edges into [i] may break [valid_up]. *)
Lemma validation_loop_ok fuel : ∀ i pa n,
  tree_ok pa → (i < fuel)%nat → pa.(ProtoArray.nodes) !! i = Some n →
  edges_ok (fun p => p ≠ i) (fun _ _ => True) pa → is_invalid n.(status) = false →
  ∃ pa', validation_loop fuel i pa = (Ok tt, pa') ∧ status_ok pa' ∧ validated pa pa' i ∧
    ∃ n', pa'.(ProtoArray.nodes) !! i = Some n' ∧ valid_or_irrelevant n'.(status) = true.
Proof.
  induction fuel as [|fuel IH]; intros i pa n Hok Hf Hn He Hinv; [lia|]. simpl.
  unfold mbind, M_bind, get, lift. rewrite Hn. simpl.
  assert (valid_or_irrelevant n.(status) = true → status_ok pa) as Hdone.
  { intros Hv j nj p np Hj Hp Hnp. destruct (He _ _ _ _ Hj Hp Hnp) as [H1 H2].
    split; [|auto]. intros _. destruct (decide (p = i)) as [->|Hne]; [|auto].
    intros _. by replace np with n by congruence. }
  destruct n.(status) as [h|h|h|b] eqn:Hs; try done.
  1, 3: exists pa; split_and!; auto using validated_refl; exists n; by rewrite Hs.
  pose proof (validated_set _ _ _ _ Hn Hs) as Hv1.
  set (pa1 := ProtoArray.alter_node _ i pa) in *. simpl.
  assert (∃ n1, pa1.(ProtoArray.nodes) !! i = Some n1 ∧ n1.(status) = ExecutionStatus.Valid h)
    as (n1 & Hi1 & Hs1).
  { eexists. unfold pa1. by rewrite alter_lookup, decide_True, Hn. }
  destruct n.(ProtoNode.parent) as [p|] eqn:Hp.
  - pose proof (parent_lt _ Hok _ _ _ Hn Hp) as Hlt.
    destruct (parent_lookup _ Hok _ _ _ Hn Hp) as [np Hnp].
    assert (pa1.(ProtoArray.nodes) !! p = Some np) as Hnp1.
    { unfold pa1. rewrite alter_lookup, decide_False by lia. done. }
    destruct (IH p pa1 np) as (pa' & Hrun & Hst & Hv & _); [by apply alter_tree_ok|lia|done|..].
    { apply (edges_ok_set_valid _ _ _ n); try done. congruence. }
    { destruct (He _ _ _ _ Hn Hp Hnp) as [_ H2]. destruct (is_invalid np.(status)) eqn:Hi;
        [|done]. specialize (H2 I Hi). by rewrite Hs in H2. }
    exists pa'. split_and!; [done..|by eapply validated_step|].
    eapply validated_keeps_valid; [done..|]. by rewrite Hs1.
  - exists pa1. split_and!; [done| |done|].
    + apply (edges_ok_set_valid _ _ _ n); try done. congruence.
    + exists n1. by rewrite Hs1.
Qed.
End validation.

Section consequences.
Context (pa : ProtoArray.t) (Hst : status_ok pa) (Hok : tree_ok pa).

Lemma invalid_descendants a i na n :
  anc pa.(ProtoArray.nodes) a i → pa.(ProtoArray.nodes) !! a = Some na →
  pa.(ProtoArray.nodes) !! i = Some n →
  is_invalid na.(status) = true → is_invalid n.(status) = true.
Proof using Hst Hok.
  intros Ha Hna. revert n. induction Ha as [Hlt|i n' p Hi Hp Ha IH]; intros n Hn Hinv.
  - by replace n with na by congruence.
  - replace n' with n in * by congruence.
    destruct (parent_lookup _ Hok _ _ _ Hi Hp) as [np Hnp].
    destruct (Hst _ _ _ _ Hi Hp Hnp) as [_ H2]. apply H2; [done|]. by apply IH.
Qed.

(** Ancestors of a valid block are valid as far as the chain is post-merge. *)
Lemma valid_ancestors a i na n :
  anc pa.(ProtoArray.nodes) a i → pa.(ProtoArray.nodes) !! a = Some na →
  pa.(ProtoArray.nodes) !! i = Some n → valid_or_irrelevant n.(status) = true →
  (∀ k nk, anc pa.(ProtoArray.nodes) a k → anc pa.(ProtoArray.nodes) k i →
     pa.(ProtoArray.nodes) !! k = Some nk →
     ExecutionStatus.is_execution_enabled nk.(status) = true) →
  is_valid na.(status) = true.
Proof using Hst Hok.
  intros Ha Hna. revert n. induction Ha as [Hlt|i n' p Hi Hp Ha IH]; intros n Hn Hv Hen.
  - replace n with na in * by congruence.
    specialize (Hen a na (anc_refl _ _ Hlt) (anc_refl _ _ Hlt) Hna). by destruct na.(status).
  - replace n' with n in * by congruence.
    destruct (parent_lookup _ Hok _ _ _ Hi Hp) as [np Hnp].
    assert (anc pa.(ProtoArray.nodes) i i) as Hii by (constructor; by eapply lookup_lt_Some).
    assert (anc pa.(ProtoArray.nodes) a i) as Hai by (by eapply anc_step).
    destruct (Hst _ _ _ _ Hi Hp Hnp) as [H1 _]. apply (IH np Hnp).
    + apply H1; [done|]. specialize (Hen i n Hai Hii Hn). by destruct n.(status).
    + intros k nk Hak Hkp. apply Hen; [done|]. by eapply anc_step.
Qed.
End consequences.

(** ** Invalid payloads *)

(** The state of the invalidation loops: starting from [pa0], some optimistic
    nodes at or after [st] have become invalid, those of the invalidated set
    among them.  Only children at or after [k] of an invalidated node may
    still disagree with it; the nodes of [K] are known to be invalid. *)
Record inval (pa0 : ProtoArray.t) (st k : nat) (K : nat → Prop) (il : InvalidationLoop) : Prop := {
  iv_frame : frame pa0 il.(il_array);
  iv_status : ∀ j n n',
    pa0.(ProtoArray.nodes) !! j = Some n → il.(il_array).(ProtoArray.nodes) !! j = Some n' →
    n'.(status) = n.(status) ∨
    ∃ h, n.(status) = ExecutionStatus.Optimistic h ∧ n'.(status) = ExecutionStatus.Invalid h;
  iv_mem : ∀ j, j ∈ il.(il_invalidated) ∨ K j →
    ∃ n', il.(il_array).(ProtoArray.nodes) !! j = Some n' ∧ is_invalid n'.(status) = true;
  iv_ge : ∀ j, j ∈ il.(il_invalidated) → (st ≤ j)%nat;
  iv_edges : edges_ok (fun _ => True) (fun i p => p ∈ il.(il_invalidated) → (i < k)%nat)
    il.(il_array);
}.

Section invalidation.
Context (pa0 : ProtoArray.t) (Hok : tree_ok pa0).

Lemma inval_tree st k K il : inval pa0 st k K il → tree_ok il.(il_array).
Proof using Hok. intros [[Hs Hi] _ _ _ _]. by eapply tree_ok_same. Qed.

Lemma inval_weaken_K st k (K K' : nat → Prop) il :
  inval pa0 st k K il →
  (∀ j, K' j → K j ∨ ∃ n', il.(il_array).(ProtoArray.nodes) !! j = Some n' ∧
                            is_invalid n'.(status) = true) →
  inval pa0 st k K' il.
Proof using.
  intros [Hf Hs Hm Hg He] HK. split; [done..| |done|done].
  intros j [Hj|Hj]; [by apply Hm; left|]. destruct (HK _ Hj) as [?|?]; [|done]. auto.
Qed.

(** Changing links only. *)
Lemma inval_links st k K il f i :
  (∀ n, static (f n) = static n) → (∀ n, (f n).(status) = n.(status)) →
  inval pa0 st k K il → inval pa0 st k K (il_alter f i il).
Proof using.
  intros Hf Hfs [Hfr Hs Hm Hg He].
  split; [by apply frame_alter| | |done|by apply edges_ok_alter]; unfold il_alter; simpl in *.
  - intros j n n' Hj Hj'. change (alter f i il.(il_array).(ProtoArray.nodes)) with
      (ProtoArray.alter_node f i il.(il_array)).(ProtoArray.nodes) in Hj'.
    rewrite alter_lookup in Hj'. case_decide; [|by eapply Hs].
    apply fmap_Some in Hj' as (n0 & Hn0 & ->). rewrite Hfs. by eapply Hs.
  - intros j Hj. destruct (Hm j Hj) as (n' & Hn' & Hi).
    change (alter f i il.(il_array).(ProtoArray.nodes)) with
      (ProtoArray.alter_node f i il.(il_array)).(ProtoArray.nodes).
    rewrite alter_lookup, Hn'. case_decide; simpl; eexists; split; try done. by rewrite Hfs.
Qed.

(** Invalidating an optimistic node. *)
Lemma inval_set st k K il i n f h :
  inval pa0 st k K il → il.(il_array).(ProtoArray.nodes) !! i = Some n →
  (n.(status) = ExecutionStatus.Optimistic h ∨ n.(status) = ExecutionStatus.Invalid h) →
  (∀ n, static (f n) = static n) → (∀ n, (f n).(status) = ExecutionStatus.Invalid h) →
  (st ≤ i)%nat → (k ≤ S i)%nat →
  inval pa0 st k (fun j => K j ∨ j = i) (il_insert i (il_alter f i il)).
Proof using Hok.
  intros Hil Hn Hst Hf Hfs Hge Hk. pose proof (inval_tree _ _ _ _ Hil) as Hok'.
  destruct Hil as [Hfr Hs Hm Hg He].
  set (il' := il_insert i (il_alter f i il)).
  assert (∀ j, il'.(il_array).(ProtoArray.nodes) !! j =
    if decide (i = j) then f <$> il.(il_array).(ProtoArray.nodes) !! j
    else il.(il_array).(ProtoArray.nodes) !! j) as Hl by (intros; apply alter_lookup).
  split.
  - by apply (frame_alter pa0).
  - intros j nj n' Hj Hj'. rewrite Hl in Hj'. destruct (decide (i = j)) as [<-|]; [|by eapply Hs].
    rewrite Hn in Hj'. apply (inj Some) in Hj' as <-. rewrite Hfs.
    destruct (Hs _ _ _ Hj Hn) as [Heq|(h' & Ho & Hi)]; [|].
    + rewrite <-Heq. destruct Hst as [->| ->]; eauto.
    + rewrite Hi in Hst. destruct Hst as [|[= ->]]; [done|eauto].
  - intros j Hj. rewrite Hl. destruct (decide (i = j)) as [<-|Hne].
    + rewrite Hn. eexists. split; [done|]. by rewrite Hfs.
    + apply Hm. destruct Hj as [Hj|[Hj| ->]]; [left|by right|done]. simpl in Hj. set_solver.
  - intros j Hj. simpl in Hj. apply elem_of_union in Hj as [->%elem_of_singleton|Hj]; auto.
  - intros j nj p np Hj Hp Hnp. rewrite Hl in Hj, Hnp. simpl. split.
    + intros _. destruct (decide (i = j)) as [<-|Hij].
      { rewrite Hn in Hj. apply (inj Some) in Hj as <-. unfold valid_up. by rewrite Hfs. }
      destruct (decide (i = p)) as [<-|Hip]; [|by eapply He].
      intros Hv. rewrite Hn in Hnp. destruct (He _ _ _ _ Hj Hp Hn) as [H1 _].
      specialize (H1 I Hv). destruct Hst as [E|E]; rewrite E in H1; done.
    + intros HB. destruct (decide (i = j)) as [<-|Hij].
      { rewrite Hn in Hj. apply (inj Some) in Hj as <-. intros _. by rewrite Hfs. }
      destruct (decide (i = p)) as [<-|Hip].
      * pose proof (parent_lt _ Hok' _ _ _ Hj Hp). assert (j < k)%nat by (apply HB; set_solver). lia.
      * destruct (He _ _ _ _ Hj Hp Hnp) as [_ H2]. apply H2. intros Hpi. apply HB. set_solver.
Qed.

Lemma inval_next st k K il :
  inval pa0 st k K il →
  (∀ n p, il.(il_array).(ProtoArray.nodes) !! k = Some n → n.(ProtoNode.parent) = Some p →
     p ∈ il.(il_invalidated) → is_invalid n.(status) = true) →
  inval pa0 st (S k) K il.
Proof using.
  intros [Hfr Hs Hm Hg He] Hn. split; [done..|].
  intros j nj p np Hj Hp Hnp. destruct (He _ _ _ _ Hj Hp Hnp) as [H1 H2]. split; [done|].
  intros HB. destruct (decide (j = k)) as [->|Hne].
  - destruct (decide (p ∈ il.(il_invalidated))) as [Hpi|Hpi].
    + intros _. by eapply Hn.
    + by apply H2.
  - apply H2. intros Hpi. specialize (HB Hpi). lia.
Qed.

(** Error outcomes of the loops. *)
Definition inval_error (e : Error.t) : Prop :=
  match e with
  | Error.ValidExecutionStatusBecameInvalid r h => ∃ j n,
      pa0.(ProtoArray.nodes) !! j = Some n ∧ n.(ProtoNode.root) = r ∧
      n.(status) = ExecutionStatus.Valid h
  | Error.IrrelevantDescendant r => ∃ j n b,
      pa0.(ProtoArray.nodes) !! j = Some n ∧ n.(ProtoNode.root) = r ∧
      n.(status) = ExecutionStatus.Irrelevant b
  | _ => False
  end.

(** A node that is valid or pre-merge in the loop was so before it. *)
Lemma inval_lookup st k K il i :
  inval pa0 st k K il → (i < length pa0.(ProtoArray.nodes))%nat →
  ∃ n n', pa0.(ProtoArray.nodes) !! i = Some n ∧
    il.(il_array).(ProtoArray.nodes) !! i = Some n' ∧ static n = static n' ∧
    (n'.(status) = n.(status) ∨
     ∃ h, n.(status) = ExecutionStatus.Optimistic h ∧ n'.(status) = ExecutionStatus.Invalid h).
Proof using.
  intros Hil Hlt. destruct (lookup_lt_is_Some_2 _ _ Hlt) as [n Hn].
  destruct (frame_lookup _ _ _ _ (iv_frame _ _ _ _ _ Hil) Hn) as (n' & Hn' & Hs).
  exists n, n'. split_and!; try done. by eapply (iv_status _ _ _ _ _ Hil).
Qed.

Lemma invalidate_descendant_ends st k K il :
  inval pa0 st k K il → (k < length pa0.(ProtoArray.nodes))%nat → (st ≤ k)%nat →
  ends (invalidate_descendant k) il (fun _ => inval pa0 st (S k) K) inval_error.
Proof using Hok.
  intros Hil Hlt Hst. destruct (inval_lookup _ _ _ _ _ Hil Hlt) as (n & n' & Hn & Hn' & Hs & Hcase).
  unfold ends, invalidate_descendant, mbind, M_bind, get, lift. rewrite Hn'. simpl.
  destruct n'.(ProtoNode.parent) as [p|] eqn:Hp; simpl.
  2:{ apply inval_next; [done|]. intros. congruence. }
  case_bool_decide as Hpi; simpl.
  2:{ apply inval_next; [done|]. intros n1 p1 Hn1 Hp1 Hpi1. congruence. }
  destruct n'.(status) as [h|h|h|b] eqn:Hs'; simpl.
  - destruct (iv_mem _ _ _ _ _ Hil p) as (np & Hnp & Hi); [by left|].
    destruct (iv_edges _ _ _ _ _ Hil _ _ _ _ Hn' Hp Hnp) as [H1 _].
    specialize (H1 I). unfold valid_up in H1. rewrite Hs' in H1. specialize (H1 eq_refl).
    by destruct np.(status).
  - apply inval_next.
    + eapply inval_weaken_K; [eapply (inval_set st k K il k n'); eauto|]. tauto.
    + intros n1 p1 Hn1 _ _. simpl in Hn1. rewrite list_lookup_alter_eq, Hn' in Hn1.
      by apply (inj Some) in Hn1 as <-.
  - apply inval_next.
    + eapply inval_weaken_K; [eapply (inval_set st k K il k n'); eauto|]. tauto.
    + intros n1 p1 Hn1 _ _. simpl in Hn1. rewrite list_lookup_alter_eq, Hn' in Hn1.
      by apply (inj Some) in Hn1 as <-.
  - exists k, n, b. split; [done|]. split; [by apply static_root|].
    destruct Hcase as [E|(h & _ & E)]; congruence.
Qed.

(** The latest valid ancestor bounds the walk from below. *)
Definition walk_bounded (op : InvalidationOperation.t) (is_desc : bool) (st i : nat) : Prop :=
  if is_desc then
    anc pa0.(ProtoArray.nodes) st i ∧ ∃ n h, pa0.(ProtoArray.nodes) !! st = Some n ∧
      ExecutionStatus.block_hash n.(status) = Some h ∧
      InvalidationOperation.latest_valid_ancestor op = Some h
  else ∀ n, pa0.(ProtoArray.nodes) !! i = Some n →
    n.(ProtoNode.root) = InvalidationOperation.block_root op → (st ≤ i)%nat.

Lemma walk_bounded_ge op is_desc st i n :
  walk_bounded op is_desc st i → pa0.(ProtoArray.nodes) !! i = Some n →
  (is_desc = false → n.(ProtoNode.root) = InvalidationOperation.block_root op) → (st ≤ i)%nat.
Proof using Hok.
  destruct is_desc; simpl; [|by eauto]. intros [Ha _] _ _. by eapply anc_le.
Qed.

Lemma walk_bounded_parent op is_desc st i n p :
  walk_bounded op is_desc st i → pa0.(ProtoArray.nodes) !! i = Some n →
  (is_desc = false → n.(ProtoNode.root) = InvalidationOperation.block_root op) →
  (∀ h, ExecutionStatus.block_hash n.(status) = Some h →
     InvalidationOperation.latest_valid_ancestor op ≠ Some h) →
  n.(ProtoNode.parent) = Some p → walk_bounded op is_desc st p.
Proof using Hok.
  intros Hb Hn Hhead Hlva Hp. destruct is_desc; simpl in *.
  - destruct Hb as [Ha (ns & h & Hns & Hh & Hl)]. split; [|by eauto].
    destruct Ha as [|i n' p' Hi Hp' Ha]; [|congruence].
    replace ns with n in * by congruence. by destruct (Hlva h).
  - intros np Hnp Hr. pose proof (parent_lt _ Hok _ _ _ Hn Hp) as Hlt.
    apply (node_indices _ _ _ Hok) in Hnp, Hn. rewrite Hr, <-Hhead in Hnp by done.
    assert (p = i) by congruence. lia.
Qed.

(** The head is to be invalidated whatever the latest valid ancestor is. *)
Definition must_invalidate op (i : nat) : Prop := ∃ n h,
  pa0.(ProtoArray.nodes) !! i = Some n ∧
  n.(ProtoNode.root) = InvalidationOperation.block_root op ∧
  ExecutionStatus.block_hash n.(status) = Some h ∧
  InvalidationOperation.latest_valid_ancestor op ≠ Some h ∧
  InvalidationOperation.invalidate_block_root op = true.

Lemma invalidate_ancestors_ends fuel op is_desc st : ∀ i K il,
  inval pa0 st (S st) K il → (i < fuel)%nat → (i < length pa0.(ProtoArray.nodes))%nat →
  walk_bounded op is_desc st i →
  ends (invalidate_ancestors fuel op is_desc i) il
    (fun _ => inval pa0 st (S st) (fun j => K j ∨ j = i ∧ must_invalidate op i)) inval_error.
Proof using Hok.
  induction fuel as [|fuel IH]; intros i K il Hil Hf Hlt Hb; [lia|].
  destruct (inval_lookup _ _ _ _ _ Hil Hlt) as (n & n' & Hn & Hn' & Hs & Hcase).
  unfold ends. simpl. unfold mbind at 1, M_bind at 1, get.
  unfold mbind at 1, M_bind at 1, lift. rewrite Hn'. simpl.
  assert (ExecutionStatus.block_hash n'.(status) = ExecutionStatus.block_hash n.(status)) as Hh'.
  { destruct Hcase as [->|(h & -> & ->)]; done. }
  rewrite Hh'. rewrite <-(static_root _ _ Hs), <-(static_parent _ _ Hs).
  destruct (ExecutionStatus.block_hash n.(status)) as [hash|] eqn:Hh; simpl.
  2:{ apply (inval_weaken_K _ _ K); [done|].
      intros j [?|(-> & n1 & h & ? & ? & ? & _)]; [tauto|congruence]. }
  destruct (negb is_desc && negb _) eqn:Hstop.
  { apply (inval_weaken_K _ _ K); [done|]. btoprop.
    intros j [?|(-> & n1 & h & ? & ? & ? & _)]; [tauto|congruence]. }
  assert (is_desc = false → n.(ProtoNode.root) = InvalidationOperation.block_root op) as Hhead.
  { intros ->. simpl in Hstop. by btoprop. }
  pose proof (walk_bounded_ge _ _ _ _ _ Hb Hn Hhead) as Hge.
  case_bool_decide as Hlva.
  { apply inval_links; [done..|]. apply (inval_weaken_K _ _ K); [done|].
    intros j [?|(-> & n1 & h & ? & ? & ? & ? & _)]; [tauto|congruence]. }
  match goal with |- match (?m ≫= ?k) il with _ => _ end =>
    assert (∀ K1 il1, inval pa0 st (S st) K1 il1 →
      (∀ j, K j ∨ j = i ∧ must_invalidate op i → K1 j) →
      ends (k false) il1 (fun _ => inval pa0 st (S st)
        (fun j => K j ∨ j = i ∧ must_invalidate op i)) inval_error) as Hcont end.
  { intros K1 il1 Hil1 HK. destruct n.(ProtoNode.parent) as [p|] eqn:Hp.
    - pose proof (parent_lt _ Hok _ _ _ Hn Hp) as Hplt.
      eapply ends_mono; [apply (IH p K1 il1); [done|lia|lia|]| |done].
      + eapply walk_bounded_parent; try done. intros h. congruence.
      + intros [] il2 H2. eapply inval_weaken_K; [done|]. intros j Hj. left. by left; apply HK.
    - eapply inval_weaken_K; [done|]. intros j Hj. left. by apply HK. }
  unfold mbind at 1, M_bind at 1. destruct (negb _ || _ || _) eqn:Hcond; simpl.
  2:{ apply (Hcont K il Hil). btoprop. intros j [?|(_ & n1 & h & _ & _ & _ & _ & ?)];
      [done|congruence]. }
  destruct n'.(status) as [h|h|h|b] eqn:Hs'; simpl.
  - exists i, n. split_and!; try done. destruct Hcase as [E|(h1 & _ & E)]; congruence.
  - apply (Hcont (fun j => K j ∨ j = i) il); [|tauto].
    apply (inval_weaken_K _ _ K); [done|]. intros j [?| ->]; [tauto|]. right. exists n'.
    by rewrite Hs'.
  - eapply Hcont; [|].
    + eapply (inval_set st (S st) K il i n' (fun m => ProtoNode.set_best None None
        (ProtoNode.set_status (ExecutionStatus.Invalid h) m)) h); eauto; lia.
    + tauto.
  - by destruct Hcase as [E|(h1 & E1 & E)]; simpl in *.
Qed.
End invalidation.

(** ** The operations *)

(** What an invalidation may change in an execution status: an optimistic
    block can become invalid, nothing else. *)
Definition invalidated pa pa' : Prop := frame pa pa' ∧ ∀ j n n',
  pa.(ProtoArray.nodes) !! j = Some n → pa'.(ProtoArray.nodes) !! j = Some n' →
  n'.(status) = n.(status) ∨
  ∃ h, n.(status) = ExecutionStatus.Optimistic h ∧ n'.(status) = ExecutionStatus.Invalid h.

Section operations.
Context (spe : Z).

Lemma hash_root_node pa h r :
  execution_block_hash_to_beacon_block_root pa h = Some r →
  ∃ i n, pa.(ProtoArray.nodes) !! i = Some n ∧ n.(ProtoNode.root) = r ∧
    ExecutionStatus.block_hash n.(status) = Some h.
Proof.
  unfold execution_block_hash_to_beacon_block_root.
  destruct (List.find _ _) as [n|] eqn:Hf; simpl; [|done]. intros [= <-].
  apply find_some in Hf as [Hin Hp].
  apply in_rev, list_elem_of_In, list_elem_of_lookup in Hin as [i Hi].
  exists i, n. split_and!; try done. destruct (ExecutionStatus.block_hash _); [|done]. by btoprop; subst.
Qed.

Lemma inval_start pa st : status_ok pa → inval pa st (S st) (fun _ => False) (mkInvalidationLoop pa ∅).
Proof.
  intros Hst. split; simpl; [apply frame_refl| | |set_solver|].
  - intros j n n' Hj Hj'. left. congruence.
  - set_solver.
  - intros j n p np Hj Hp Hnp. destruct (Hst _ _ _ _ Hj Hp Hnp) as [H1 H2]. split; auto.
Qed.

Lemma inval_done pa st k K il :
  inval pa st k K il → (length pa.(ProtoArray.nodes) ≤ k)%nat → status_ok il.(il_array).
Proof.
  intros Hil Hk j n p np Hj Hp Hnp. destruct (iv_edges _ _ _ _ _ Hil _ _ _ _ Hj Hp Hnp) as [H1 H2].
  split; [done|]. intros _. apply H2. intros _. apply lookup_lt_Some in Hj.
  rewrite <-(frame_length _ _ (iv_frame _ _ _ _ _ Hil)) in Hj. lia.
Qed.

(** Both loops of the invalidation, from head [i] and with the forward loop
    starting after [st]. *)
Lemma invalidation_loops_end pa op is_desc st i root fuel :
  tree_ok pa → status_ok pa → walk_bounded pa op is_desc st i →
  (i < fuel)%nat → (i < length pa.(ProtoArray.nodes))%nat →
  pa.(ProtoArray.indices) !! root = Some st →
  ends (invalidate_ancestors fuel op is_desc i ;;
        il ← get;
        s ← lift (ok_or (il.(il_array).(ProtoArray.indices) !! root) (Error.NodeUnknown root));
        for_each (seq (S s) (length il.(il_array).(ProtoArray.nodes) - S s)) invalidate_descendant)
    (mkInvalidationLoop pa ∅)
    (fun _ il => status_ok il.(il_array) ∧ invalidated pa il.(il_array) ∧
       (must_invalidate pa op i → ∃ n, il.(il_array).(ProtoArray.nodes) !! i = Some n ∧
          is_invalid n.(status) = true))
    (inval_error pa).
Proof.
  intros Hok Hst Hb Hf Hlt Hr. apply ends_bind.
  eapply ends_mono; [by eapply (invalidate_ancestors_ends pa Hok); [apply inval_start|..]| |done].
  intros [] il Hil. pose proof (iv_frame _ _ _ _ _ Hil) as Hfr.
  apply ends_get_bind. eapply ends_lookup_bind; [by rewrite <-(proj2 Hfr)|].
  rewrite <-(frame_length _ _ Hfr).
  eapply ends_mono; [eapply ends_for_seq with
    (I := fun k => inval pa st k (fun j => False ∨ j = i ∧ must_invalidate pa op i)); [done|]| |done].
  - intros k il1 Hk Hil1. apply invalidate_descendant_ends; [done..|lia|lia].
  - intros [] il1 Hil1. simpl in Hil1. split_and!.
    + eapply inval_done; [done|lia].
    + destruct Hil1 as [Hf1 Hs1 _ _ _]. by split.
    + intros Hm. apply (iv_mem _ _ _ _ _ Hil1). right. by right.
Qed.

Lemma zoom_ends {S' A} (into : ProtoArray.t → S') back (m : M S' Error.t A) pa
    (Q : A → ProtoArray.t → Prop) R :
  ends m (into pa) (fun a s' => Q a (back s' pa)) R →
  ends (S:=ProtoArray.t) (zoom into back m) pa Q R.
Proof. unfold ends, zoom. by destruct (m (into pa)) as [[a|e| |] s']. Qed.

(** Invalidation on an array whose verdicts are consistent. *)
Lemma invalidation_ends pa op i :
  tree_ok pa → slots_ok pa → status_ok pa →
  pa.(ProtoArray.indices) !! InvalidationOperation.block_root op = Some i →
  ends (propagate_execution_payload_invalidation spe op) pa
    (fun _ pa' => status_ok pa' ∧ invalidated pa pa' ∧
       (must_invalidate pa op i → ∃ n, pa'.(ProtoArray.nodes) !! i = Some n ∧
          is_invalid n.(status) = true)) (inval_error pa).
Proof.
  intros Hok Hsl Hst Hi. unfold propagate_execution_payload_invalidation. cbv zeta.
  apply ends_get_bind. eapply ends_lookup_bind; [done|].
  pose proof (proj1 (indices_ok _ Hok _ _) Hi) as (n & Hn & Hroot).
  pose proof (lookup_lt_Some _ _ _ Hn) as Hlt. apply zoom_ends.
  set (lva := _ ≫= execution_block_hash_to_beacon_block_root pa).
  assert (∀ r, lva = Some r → ∃ h j nj, InvalidationOperation.latest_valid_ancestor op = Some h ∧
    pa.(ProtoArray.nodes) !! j = Some nj ∧ pa.(ProtoArray.indices) !! r = Some j ∧
    ExecutionStatus.block_hash nj.(status) = Some h) as Hlva.
  { intros r. unfold lva. destruct (InvalidationOperation.latest_valid_ancestor op) as [h|]; [|done].
    simpl. intros (j & nj & Hj & <- & Hh)%hash_root_node. exists h, j, nj.
    by pose proof (node_indices _ _ _ Hok Hj). }
  destruct lva as [r|].
  - destruct (Hlva r eq_refl) as (h & j & nj & Hh & Hj & Hr & Hbh).
    destruct (is_descendant pa r _ && _) eqn:Hd.
    + apply (invalidation_loops_end _ _ _ j); try done; [|lia]. btoprop.
      apply (is_descendant_iff _ _ _ Hok Hsl) in H as (a & b & Ha & Hb & Hanc).
      replace a with j in * by congruence. replace b with i in * by congruence.
      split; [done|]. eauto 10.
    + apply (invalidation_loops_end _ _ _ i); try done; [|lia]. intros ? _ _. done.
  - apply (invalidation_loops_end _ _ _ i); try done; [|lia]. intros ? _ _. done.
Qed.

Lemma validation_by_index_ends pa i n :
  tree_ok pa → pa.(ProtoArray.nodes) !! i = Some n →
  edges_ok (fun p => p ≠ i) (fun _ _ => True) pa → is_invalid n.(status) = false →
  ∃ pa', propagate_execution_payload_validation_by_index i pa = (Ok tt, pa') ∧
    status_ok pa' ∧ validated pa pa' i ∧
    ∃ n', pa'.(ProtoArray.nodes) !! i = Some n' ∧ valid_or_irrelevant n'.(status) = true.
Proof.
  intros Hok Hn He Hi. apply (validation_loop_ok _ _ _ n); try done.
  apply lookup_lt_Some in Hn. lia.
Qed.

(** ** Insertion *)
Lemma push_lookup pa n i :
  (push_node n pa).(ProtoArray.nodes) !! i =
  if decide (i = length pa.(ProtoArray.nodes)) then Some n else pa.(ProtoArray.nodes) !! i.
Proof.
  simpl. case_decide as H; subst; [by apply list_lookup_middle|].
  destruct (decide (i < length pa.(ProtoArray.nodes))%nat); [by apply lookup_app_l|].
  rewrite !lookup_ge_None_2; [done|lia|]. rewrite length_app. simpl. lia.
Qed.

(** Appending a node whose parent is not invalid. *)
Lemma edges_ok_push (A : nat → Prop) pa n :
  status_ok pa →
  (∀ i ni p, pa.(ProtoArray.nodes) !! i = Some ni → ni.(ProtoNode.parent) = Some p →
     (p < i)%nat) →
  (∀ p, n.(ProtoNode.parent) = Some p → ∃ np, pa.(ProtoArray.nodes) !! p = Some np ∧
     is_invalid np.(status) = false ∧ (A p → valid_up n np)) →
  edges_ok A (fun _ _ => True) (push_node n pa).
Proof.
  intros Hst Hlt Hpar j nj p np Hj Hp Hnp. rewrite push_lookup in Hj, Hnp.
  destruct (decide (j = _)) as [->|Hne].
  - apply (inj Some) in Hj as <-. destruct (Hpar _ Hp) as (np' & Hnp' & Hi & Hv).
    pose proof (lookup_lt_Some _ _ _ Hnp'). rewrite decide_False in Hnp by lia.
    replace np' with np in * by congruence. split; [done|]. intros _ Hinv. congruence.
  - pose proof (Hlt _ _ _ Hj Hp). apply lookup_lt_Some in Hj as Hjl.
    rewrite decide_False in Hnp by lia.
    destruct (Hst _ _ _ _ Hj Hp Hnp) as [H1 H2]. split; auto.
Qed.

(** [on_block] of a new block, when its parent is not invalid. *)
Lemma on_block_new_ends pa block slot :
  wf pa → status_ok pa → pa.(ProtoArray.indices) !! block.(Block.root) = None →
  (∀ p np, (node_of_block pa block).(ProtoNode.parent) = Some p →
     pa.(ProtoArray.nodes) !! p = Some np → is_invalid np.(status) = false) →
  ∃ pa', on_block spe block slot pa = (Ok tt, pa') ∧ status_ok pa' ∧
    frame (push_node (node_of_block pa block) pa) pa' ∧
    pa'.(ProtoArray.nodes) !! length pa.(ProtoArray.nodes) = Some (node_of_block pa block).
Proof.
  intros Hwf Hst Hr Hinv. unfold on_block.
  rewrite (bind_ok_eq _ _ pa pa pa) by done. rewrite bool_decide_eq_false_2 by (by rewrite Hr).
  cbv zeta. set (n := node_of_block pa block) in *. pose proof (wf_tree _ Hwf) as Hok.
  assert (wf (push_node n pa)) as Hwf1.
  { apply push_wf; try done. intros p. by apply node_of_block_parent_lt. }
  destruct n.(ProtoNode.parent) as [p|] eqn:Hp.
  2:{ exists (push_node n pa). split; [done|]. split; [|split; [apply frame_refl|]].
      - apply edges_ok_push; [done|by apply parent_lt|]. intros p. congruence.
      - by rewrite push_lookup, decide_True. }
  pose proof (node_of_block_parent_lt _ _ _ Hok Hp) as Hlt.
  destruct (lookup_lt_is_Some_2 _ _ Hlt) as [np Hnp]. specialize (Hinv p np eq_refl Hnp).
  rewrite (bind_ok_eq _ _ pa tt pa)
    by (unfold mbind, M_bind, lift; rewrite Hnp; simpl; by rewrite Hinv).
  rewrite (bind_ok_eq _ _ pa tt (push_node n pa)) by done.
  destruct (maybe_update_total spe (push_node n pa) p (length pa.(ProtoArray.nodes)) slot)
    as (bc & bd & Hrun); [by apply wf_links| | |].
  { exists n. split; [|done]. by rewrite push_lookup, decide_True. }
  { simpl. rewrite length_app. lia. }
  rewrite (bind_ok_eq _ _ _ _ _ Hrun). set (pa2 := ProtoArray.alter_node _ _ _).
  assert (frame (push_node n pa) pa2) as Hfr by (by apply frame_alter, frame_refl).
  assert (∀ A : nat → Prop, (A p → valid_up n np) → edges_ok A (fun _ _ => True) pa2) as He.
  { intros A HA. apply edges_ok_alter; [done..|]. apply edges_ok_push; [done|by apply parent_lt|].
    intros p' Hp'. replace p' with p by congruence. eauto. }
  assert (pa2.(ProtoArray.nodes) !! length pa.(ProtoArray.nodes) = Some n) as Hlast.
  { unfold pa2. by rewrite alter_lookup, decide_False, push_lookup, decide_True by lia. }
  unfold when. destruct (is_valid block.(Block.execution_status)) eqn:Hv.
  - destruct (validation_by_index_ends pa2 p (ProtoNode.set_best bc bd np))
      as (pa' & Hrun' & Hst' & Hval & _); [by apply alter_tree_ok, wf_tree| | |done|].
    { unfold pa2. rewrite alter_lookup, decide_True, push_lookup, decide_False by lia.
      by rewrite Hnp. }
    { apply He. congruence. }
    destruct Hval as [Hfr2 Hval]. exists pa'. split_and!; [done..|by eapply frame_trans|].
    destruct (frame_lookup _ _ _ _ Hfr2 Hlast) as (n' & Hn' & _). rewrite Hn'. f_equal.
    destruct (Hval _ _ _ Hlast Hn') as [->|(Ha & _)]; [done|].
    apply (anc_le pa2) in Ha; [lia|by apply alter_tree_ok, wf_tree].
  - exists pa2. split_and!; [done| |done|done]. apply He. intros _ Hvn. simpl in Hvn. congruence.
Qed.

Lemma on_block_known pa block slot i :
  pa.(ProtoArray.indices) !! block.(Block.root) = Some i → on_block spe block slot pa = (Ok tt, pa).
Proof. intros Hi. unfold on_block, mbind, M_bind, get. by rewrite bool_decide_eq_true_2 by eauto. Qed.

Lemma on_block_invalid_parent pa block slot p np :
  pa.(ProtoArray.indices) !! block.(Block.root) = None →
  (node_of_block pa block).(ProtoNode.parent) = Some p →
  pa.(ProtoArray.nodes) !! p = Some np → is_invalid np.(status) = true →
  on_block spe block slot pa =
    (Err (Error.ParentExecutionStatusIsInvalid block.(Block.root) np.(ProtoNode.root)), pa).
Proof.
  intros Hr Hp Hnp Hi. unfold on_block. rewrite (bind_ok_eq _ _ pa pa pa) by done.
  rewrite bool_decide_eq_false_2 by (by rewrite Hr). cbv zeta. rewrite Hp.
  unfold mbind, M_bind, lift. rewrite Hnp. simpl. by rewrite Hi.
Qed.
End operations.

Lemma ex_array_status : status_ok ex_array.
Proof. ex_edges; split; intros _; vm_compute; intros H; done. Qed.

(** C18. [ProtoArray::on_block] keeps the execution verdicts of the tree
    consistent and has exactly three outcomes: a known block changes nothing; a
    block under an invalid parent is refused and changes nothing; any other
    block is appended under its root, and the resulting array is well formed
    with every valid block on a valid (or pre-merge) parent and every child of
    an invalid block invalid. *)
Theorem on_block_outcome spe pa block slot :
  wf pa → status_ok pa →
  let node := node_of_block pa block in
  if bool_decide (is_Some (pa.(ProtoArray.indices) !! block.(Block.root))) then
    on_block spe block slot pa = (Ok tt, pa)
  else
    (∃ p np, node.(ProtoNode.parent) = Some p ∧ pa.(ProtoArray.nodes) !! p = Some np ∧
       is_invalid np.(status) = true ∧
       on_block spe block slot pa =
         (Err (Error.ParentExecutionStatusIsInvalid block.(Block.root) np.(ProtoNode.root)), pa)) ∨
    (∃ pa', on_block spe block slot pa = (Ok tt, pa') ∧ wf pa' ∧ status_ok pa' ∧
       frame (push_node node pa) pa').
Proof.
  intros Hwf Hst node. case_bool_decide as Hk.
  { destruct Hk as [i Hi]. by eapply on_block_known. }
  apply eq_None_not_Some in Hk.
  assert (Decision (∃ p np, node.(ProtoNode.parent) = Some p ∧
    pa.(ProtoArray.nodes) !! p = Some np ∧ is_invalid np.(status) = true)) as [Hd|Hd].
  { destruct node.(ProtoNode.parent) as [p|]; [|right; intros (?&?&?&?); done].
    destruct (pa.(ProtoArray.nodes) !! p) as [np|] eqn:Hnp; [|right; intros (?&?&?&?&?); congruence].
    destruct (is_invalid np.(status)) eqn:Hi; [left; eauto|right; intros (?&?&?&?&?); congruence]. }
  - left. destruct Hd as (p & np & Hp & Hnp & Hi). exists p, np. split_and!; [done..|].
    by eapply on_block_invalid_parent.
  - right. destruct (on_block_new_ends spe pa block slot Hwf Hst Hk) as (pa' & Hrun & Hst' & Hfr & _).
    { intros p np Hp Hnp. destruct (is_invalid np.(status)) eqn:Hi; [|done]. destruct Hd. eauto. }
    exists pa'. split_and!; [done| |done|done].
    pose proof (keeps_on_block spe block slot pa Hwf) as Hwf'. by rewrite Hrun in Hwf'.
Qed.

(** A valid block on block 14 of the example tree makes its chain valid. *)
Lemma on_block_outcome_witness :
  let block := ex_block 15 (Some 14) 5 (ExecutionStatus.Valid 115) in
  (∃ p np, (node_of_block ex_array block).(ProtoNode.parent) = Some p ∧
     ex_array.(ProtoArray.nodes) !! p = Some np ∧ is_invalid np.(status) = true ∧
     on_block ex_spe block 5 ex_array =
       (Err (Error.ParentExecutionStatusIsInvalid 15 np.(ProtoNode.root)), ex_array)) ∨
  (∃ pa', on_block ex_spe block 5 ex_array = (Ok tt, pa') ∧ wf pa' ∧ status_ok pa' ∧
     frame (push_node (node_of_block ex_array block) ex_array) pa').
Proof.
  intros block.
  pose proof (on_block_outcome ex_spe ex_array block 5 ex_array_wf ex_array_status) as H.
  rewrite bool_decide_eq_false_2 in H; [exact H|]. vm_compute. intros [? ?]. discriminate.
Defined.

(** C19. [ProtoArray::propagate_execution_payload_validation] of a known block
    that is not invalid always succeeds.  It changes nothing but optimistic
    ancestors of the block (the block included), which become valid, keeps the
    verdicts consistent, and leaves every ancestor valid as far back as the
    chain is post-merge. *)
Theorem propagate_validation_correct pa r i n :
  tree_ok pa → status_ok pa → pa.(ProtoArray.indices) !! r = Some i →
  pa.(ProtoArray.nodes) !! i = Some n → is_invalid n.(status) = false →
  ∃ pa', propagate_execution_payload_validation r pa = (Ok tt, pa') ∧
    status_ok pa' ∧ validated pa pa' i ∧
    ∀ a na', anc pa'.(ProtoArray.nodes) a i → pa'.(ProtoArray.nodes) !! a = Some na' →
      (∀ k nk, anc pa'.(ProtoArray.nodes) a k → anc pa'.(ProtoArray.nodes) k i →
         pa'.(ProtoArray.nodes) !! k = Some nk →
         ExecutionStatus.is_execution_enabled nk.(status) = true) →
      is_valid na'.(status) = true.
Proof.
  intros Hok Hst Hr Hn Hi.
  destruct (validation_by_index_ends pa i n Hok Hn) as (pa' & Hrun & Hst' & Hval & n' & Hn' & Hv).
  { intros j nj p np Hj Hp Hnp. destruct (Hst _ _ _ _ Hj Hp Hnp). auto. }
  { done. }
  exists pa'. split_and!; [|done..|].
  - unfold propagate_execution_payload_validation, mbind, M_bind, get, lift. by rewrite Hr.
  - intros a na' Ha Hna'. assert (tree_ok pa').
    { destruct Hval as [[Hs Hx] _]. by eapply tree_ok_same. }
    by eapply valid_ancestors.
Qed.

Lemma propagate_validation_correct_witness :
  ∃ pa', propagate_execution_payload_validation 14 ex_array = (Ok tt, pa') ∧
    status_ok pa' ∧ validated ex_array pa' 4 ∧
    ∀ a na', anc pa'.(ProtoArray.nodes) a 4 → pa'.(ProtoArray.nodes) !! a = Some na' →
      (∀ k nk, anc pa'.(ProtoArray.nodes) a k → anc pa'.(ProtoArray.nodes) k 4 →
         pa'.(ProtoArray.nodes) !! k = Some nk →
         ExecutionStatus.is_execution_enabled nk.(status) = true) →
      is_valid na'.(status) = true.
Proof.
  eapply (propagate_validation_correct ex_array 14 4 _ (wf_tree _ ex_array_wf) ex_array_status);
    reflexivity.
Defined.

(** C16. [ProtoArray::propagate_execution_payload_invalidation] on an array with
    consistent verdicts returns; its errors are an unknown head, a block already
    valid on the way to the latest valid ancestor, and a pre-merge descendant.
    When it succeeds, it has turned some optimistic blocks invalid and no other
    verdict has changed (no valid block has become invalid), every child of an
    invalid block is invalid, and a head that the operation must invalidate is
    invalid together with all its descendants. *)
Theorem propagate_invalidation_correct spe pa op :
  tree_ok pa → slots_ok pa → status_ok pa →
  match propagate_execution_payload_invalidation spe op pa with
  | (Ok _, pa') => status_ok pa' ∧ invalidated pa pa' ∧
      (∀ i j n', pa.(ProtoArray.indices) !! InvalidationOperation.block_root op = Some i →
         must_invalidate pa op i → anc pa.(ProtoArray.nodes) i j →
         pa'.(ProtoArray.nodes) !! j = Some n' → is_invalid n'.(status) = true)
  | (Err e, _) => inval_error pa e ∨
      pa.(ProtoArray.indices) !! InvalidationOperation.block_root op = None ∧
      e = Error.NodeUnknown (InvalidationOperation.block_root op)
  | _ => False
  end.
Proof.
  intros Hok Hsl Hst.
  destruct (pa.(ProtoArray.indices) !! InvalidationOperation.block_root op) as [i|] eqn:Hi.
  - pose proof (invalidation_ends spe pa op i Hok Hsl Hst Hi) as He. unfold ends in He.
    destruct (propagate_execution_payload_invalidation spe op pa) as [[[]|e| |] pa']; auto.
    destruct He as (Hst' & Hin & Hhead). split_and!; [done..|].
    intros i' j n' [= <-] Hm Ha Hn'. destruct (Hhead Hm) as (ni & Hni & Hinv).
    destruct Hin as [[Hs Hx] _]. eapply (invalid_descendants pa'); try done.
    + by eapply tree_ok_same.
    + by eapply anc_same.
  - unfold propagate_execution_payload_invalidation, mbind, M_bind, get, lift. rewrite Hi. simpl. auto.
Qed.

(** Invalidating block 11 of the example tree down from block 10. *)
Lemma propagate_invalidation_correct_witness :
  let op := InvalidationOperation.InvalidateMany 11 true 110 in
  let pa' := (propagate_execution_payload_invalidation ex_spe op ex_array).2 in
  status_ok pa' ∧ invalidated ex_array pa' ∧
  (∀ i j n', ex_array.(ProtoArray.indices) !! InvalidationOperation.block_root op = Some i →
     must_invalidate ex_array op i → anc ex_array.(ProtoArray.nodes) i j →
     pa'.(ProtoArray.nodes) !! j = Some n' → is_invalid n'.(status) = true).
Proof.
  intros op pa'.
  assert (propagate_execution_payload_invalidation ex_spe op ex_array = (Ok tt, pa')) as Hrun
    by (vm_compute; reflexivity).
  pose proof (propagate_invalidation_correct ex_spe ex_array op
    (wf_tree _ ex_array_wf) ex_array_slots ex_array_status) as H.
  rewrite Hrun in H. exact H.
Defined.
