(* ===== verification/ProtoArrayScore.v ===== *)
(** * The weight pass

    The first loop of [apply_score_changes] adds the vote deltas to the nodes
    and carries them to the parents.  [weight_target] is the equation it
    solves: a node's change of weight is its own delta, less the previous
    proposer boost, plus the new one, plus the change of its children; an
    invalid node drops to zero.  The loop returns the solution whenever the
    numbers fit an [i64]. *)
From S2P Require Import Prelude Sums SlotEpoch ProtoArrayDefs ProtoArrayWf ProtoArrayWalk.
From S2P Require Import ProtoArrayExec.

Implicit Types (pa : ProtoArray.t) (n : ProtoNode.t).

(** [c] is a child of [p], as a test. *)
Definition childb (ns : list ProtoNode.t) (p c : nat) : bool :=
  match ns !! c with
  | Some nc => bool_decide (nc.(ProtoNode.parent) = Some p)
  | None => false
  end.

(** Sum of [f] over the children of [p]. *)
Definition child_sum (ns : list ProtoNode.t) (f : nat → Z) (p : nat) : Z :=
  zsum (fun c => gate (childb ns p c) (f c)) (seq 0 (length ns)).

(** The boost recorded in [b], at node [n]. *)
Definition boost_at (b : ProposerBoost.t) n : Z :=
  gate (negb (b.(ProposerBoost.root) =? hash_zero) && (b.(ProposerBoost.root) =? n.(ProtoNode.root)))
    b.(ProposerBoost.score).

(** The score a boosted block gets. *)
Definition boost_score spe (jb : JustifiedBalances.t) (spec : ChainSpec.t) (score : Z) : Prop :=
  match spec.(ChainSpec.proposer_score_boost) with
  | Some pct => calculate_committee_fraction spe jb pct = Some score
  | None => score = 0
  end.

Definition weight_at pa (i : nat) : Z :=
  match pa.(ProtoArray.nodes) !! i with Some n => n.(ProtoNode.weight) | None => 0 end.

Definition delta_at (deltas : list Z) (i : nat) : Z := default 0 (deltas !! i).

(** [T] solves the weight equations of [pa] for [deltas] and a new boost. *)
Definition weight_target pa (deltas : list Z) (nb : ProposerBoost.t) (T : nat → Z) : Prop :=
  ∀ k n, pa.(ProtoArray.nodes) !! k = Some n →
  T k = if n.(ProtoNode.root) =? hash_zero then n.(ProtoNode.weight)
        else if is_invalid n.(status) then 0
        else n.(ProtoNode.weight) + delta_at deltas k
             - boost_at pa.(ProtoArray.previous_proposer_boost) n + boost_at nb n
             + child_sum pa.(ProtoArray.nodes) (fun c => T c - weight_at pa c) k.

(** What node [k] adds to the magnitude of the numbers in flight, beside its delta. *)
Definition slack pa (nb : ProposerBoost.t) (k : nat) : Z :=
  match pa.(ProtoArray.nodes) !! k with
  | Some n => boost_at pa.(ProtoArray.previous_proposer_boost) n + boost_at nb n
              + gate (is_invalid n.(status)) n.(ProtoNode.weight)
  | None => 0
  end.

(** The numbers fit: weights and target weights are non-negative [i64]s, and so
    is the sum of all magnitudes. *)
Record fits pa (deltas : list Z) (nb : ProposerBoost.t) (T : nat → Z) : Prop := {
  fits_weight : ∀ i n, pa.(ProtoArray.nodes) !! i = Some n → 0 ≤ n.(ProtoNode.weight) ≤ i64_max;
  fits_target : ∀ i, (i < length pa.(ProtoArray.nodes))%nat → 0 ≤ T i ≤ i64_max;
  fits_prev : 0 ≤ pa.(ProtoArray.previous_proposer_boost).(ProposerBoost.score) ≤ i64_max;
  fits_new : 0 ≤ nb.(ProposerBoost.score) ≤ i64_max;
  fits_sum : zsum (fun i => Z.abs (delta_at deltas i) + slack pa nb i)
               (seq 0 (length pa.(ProtoArray.nodes))) ≤ i64_max;
}.

Lemma set_nodes_same pa : ProtoArray.set_nodes pa.(ProtoArray.nodes) pa = pa.
Proof. by destruct pa. Qed.

Section weight_pass.
Context (spe : Z) (pa0 : ProtoArray.t) (Hok : tree_ok pa0).
Context (jb : JustifiedBalances.t) (r : Hash256) (spec : ChainSpec.t) (score : Z).
Context (Hscore : boost_score spe jb spec score).
Context (deltas : list Z) (T : nat → Z).
Let nb := ProposerBoost.mk r score.
Let N := length pa0.(ProtoArray.nodes).
Let ns := pa0.(ProtoArray.nodes).

(** The nodes when those at or after [k] have their new weight. *)
Definition weigh (k : nat) : list ProtoNode.t :=
  imap (fun i n => if (k <=? i)%nat then ProtoNode.set_weight (T i) n else n) ns.

Lemma weigh_lookup k i :
  weigh k !! i = (fun n => if (k <=? i)%nat then ProtoNode.set_weight (T i) n else n) <$> ns !! i.
Proof using. unfold weigh. by rewrite list_lookup_imap. Qed.

Lemma set_weight_same n : ProtoNode.set_weight n.(ProtoNode.weight) n = n.
Proof using. by destruct n. Qed.

Lemma weigh_step k : alter (ProtoNode.set_weight (T k)) k (weigh (S k)) = weigh k.
Proof using.
  apply list_eq. intros i. destruct (decide (k = i)) as [<-|Hne].
  - rewrite list_lookup_alter_eq, !weigh_lookup.
    destruct (Nat.leb_spec (S k) k), (Nat.leb_spec k k); try lia. by destruct (ns !! k).
  - rewrite list_lookup_alter_ne, !weigh_lookup by done.
    destruct (Nat.leb_spec (S k) i), (Nat.leb_spec k i); try lia; done.
Qed.

Lemma weigh_id k n : ns !! k = Some n → T k = n.(ProtoNode.weight) → weigh (S k) = weigh k.
Proof using.
  intros Hn HT. apply list_eq. intros i. rewrite !weigh_lookup.
  destruct (Nat.leb_spec (S k) i), (Nat.leb_spec k i); try lia; try done.
  replace i with k by lia. rewrite Hn. simpl. by rewrite HT, set_weight_same.
Qed.

(** Whether some non-invalid node at or after [k] is the boosted block. *)
Definition boosted (k : nat) : bool :=
  existsb (fun i => (k <=? i)%nat &&
    match ns !! i with
    | Some n => negb (r =? hash_zero) && (r =? n.(ProtoNode.root)) && negb (is_invalid n.(status))
    | None => false
    end) (seq 0 N).

(** Deltas in flight when the nodes at or after [k] are done. *)
Definition in_flight (k p : nat) : Z :=
  delta_at deltas p
  + child_sum ns (fun c => gate (k <=? c)%nat (T c - weight_at pa0 c)) p.

Record weigh_inv (k : nat) (sl : ScoreLoop) : Prop := {
  wi_array : sl.(sl_array) = ProtoArray.set_nodes (weigh k) pa0;
  wi_len : length sl.(sl_deltas) = N;
  wi_deltas : ∀ p, (p < k)%nat → delta_at sl.(sl_deltas) p = in_flight k p;
  wi_sum : zsum (fun i => Z.abs (delta_at sl.(sl_deltas) i) + slack pa0 nb i) (seq 0 k) ≤ i64_max;
  wi_score : spec.(ChainSpec.proposer_score_boost) ≠ None →
    sl.(sl_proposer_score) = gate (boosted k) score;
  wi_score_none : spec.(ChainSpec.proposer_score_boost) = None → sl.(sl_proposer_score) = 0;
}.

Context (Htarget : weight_target pa0 deltas nb T) (Hfits : fits pa0 deltas nb T).

Lemma slack_nonneg i : 0 ≤ slack pa0 nb i.
Proof using Hfits.
  unfold slack. destruct (_ !! i) as [n|] eqn:Hn; [|done].
  destruct (fits_prev _ _ _ _ Hfits), (fits_new _ _ _ _ Hfits).
  pose proof (fits_weight _ _ _ _ Hfits _ _ Hn). unfold boost_at, gate.
  repeat case_match; lia.
Qed.

(** Every delta in flight, with the slack of its node, is small. *)
Lemma in_flight_small k sl p :
  weigh_inv k sl → (p < k)%nat → Z.abs (delta_at sl.(sl_deltas) p) + slack pa0 nb p ≤ i64_max.
Proof using Hfits.
  intros Hi Hp. etransitivity; [|apply (wi_sum _ _ Hi)].
  apply (zsum_term_le (fun i => Z.abs (delta_at sl.(sl_deltas) i) + slack pa0 nb i)).
  - intros y _. pose proof (slack_nonneg y). lia.
  - apply elem_of_seq. lia.
Qed.

(** Two deltas in flight together are small. *)
Lemma in_flight_small2 k sl p q :
  weigh_inv k sl → (p < q < k)%nat →
  Z.abs (delta_at sl.(sl_deltas) p) + (Z.abs (delta_at sl.(sl_deltas) q) + slack pa0 nb q) ≤ i64_max.
Proof using Hfits.
  intros Hi Hp. etransitivity; [|apply (wi_sum _ _ Hi)].
  set (f := fun i => Z.abs (delta_at sl.(sl_deltas) i) + slack pa0 nb i).
  assert (∀ y, 0 ≤ f y) as Hf by (intros y; unfold f; pose proof (slack_nonneg y); lia).
  replace k with (q + S (k - S q))%nat by lia. rewrite seq_app, zsum_app.
  assert (f p ≤ zsum f (seq 0 q)) by (apply zsum_term_le; [by intros; apply Hf|apply elem_of_seq; lia]).
  assert (f q ≤ zsum f (seq (0 + q) (S (k - S q)))) by
    (apply zsum_term_le; [by intros; apply Hf|apply elem_of_seq; lia]).
  pose proof (slack_nonneg p). unfold f in *. lia.
Qed.

Lemma childb_true p c : childb ns p c = true ↔ child_of ns p c.
Proof using.
  unfold childb, child_of. destruct (ns !! c) as [nc|]; [|split; [done|by intros (?&?&?)]].
  rewrite bool_decide_eq_true. split; [eauto|]. intros (n & Hn & ?). congruence.
Qed.

(** All the children of [k] come after it. *)
Lemma in_flight_done k n :
  ns !! k = Some n →
  in_flight (S k) k = delta_at deltas k + child_sum ns (fun c => T c - weight_at pa0 c) k.
Proof using Hok.
  intros Hn. unfold in_flight. f_equal. apply zsum_ext. intros c _.
  destruct (childb ns k c) eqn:Hc; [|done]. apply childb_true in Hc.
  apply (child_lt _ _ _ Hok) in Hc. by destruct (Nat.leb_spec (S k) c); [|lia].
Qed.

(** Finishing node [k] changes the delta of its parent only. *)
Lemma in_flight_next k n p :
  ns !! k = Some n →
  in_flight k p = in_flight (S k) p
    + gate (bool_decide (n.(ProtoNode.parent) = Some p)) (T k - n.(ProtoNode.weight)).
Proof using.
  intros Hn. unfold in_flight.
  enough (child_sum ns (fun c => gate (k <=? c)%nat (T c - weight_at pa0 c)) p
    - child_sum ns (fun c => gate (S k <=? c)%nat (T c - weight_at pa0 c)) p
    = gate (bool_decide (n.(ProtoNode.parent) = Some p)) (T k - n.(ProtoNode.weight))) by lia.
  unfold child_sum. rewrite <-zsum_sub.
  pose proof (lookup_lt_Some _ _ _ Hn) as Hlt.
  rewrite (zsum_single _ _ k); [| apply NoDup_seq|apply elem_of_seq; lia|].
  - unfold childb, weight_at. fold ns. rewrite Hn.
    destruct (Nat.leb_spec k k), (Nat.leb_spec (S k) k); try lia.
    unfold gate. case_bool_decide; lia.
  - intros c _ Hne. destruct (Nat.leb_spec k c), (Nat.leb_spec (S k) c); unfold gate;
      try lia; destruct (childb ns p c); lia.
Qed.

Lemma boosted_step k n :
  ns !! k = Some n →
  boosted k = (negb (r =? hash_zero) && (r =? n.(ProtoNode.root)) && negb (is_invalid n.(status)))
              || boosted (S k).
Proof using.
  intros Hn. apply eq_true_iff_eq. unfold boosted. rewrite orb_true_iff, !existsb_exists.
  pose proof (lookup_lt_Some _ _ _ Hn) as Hlt. split.
  - intros (i & Hi & [Hle H]%andb_true_iff). apply Nat.leb_le in Hle.
    destruct (decide (i = k)) as [->|]; [left; by rewrite Hn in H|right].
    exists i. split; [done|]. apply andb_true_iff. split; [apply Nat.leb_le; lia|done].
  - intros [H|(i & Hi & [Hle H]%andb_true_iff)].
    + exists k. split; [apply in_seq; unfold N, ns in *; lia|]. rewrite Nat.leb_refl, Hn. done.
    + apply Nat.leb_le in Hle. exists i. split; [done|]. apply andb_true_iff.
      split; [apply Nat.leb_le; lia|done].
Qed.

Lemma boosted_none k : (N ≤ k)%nat → boosted k = false.
Proof using.
  intros Hk. apply not_true_is_false. unfold boosted. rewrite existsb_exists.
  intros (i & [_ Hi]%in_seq & [Hle _]%andb_true_iff). apply Nat.leb_le in Hle. lia.
Qed.

(** The change of weight of [k], from the delta in flight. *)
Lemma target_delta k n :
  ns !! k = Some n → n.(ProtoNode.root) ≠ hash_zero → is_invalid n.(status) = false →
  T k - n.(ProtoNode.weight) = in_flight (S k) k
    - boost_at pa0.(ProtoArray.previous_proposer_boost) n + boost_at nb n.
Proof using Hok Htarget.
  intros Hn Hz Hi. rewrite (in_flight_done _ _ Hn), (Htarget _ _ Hn), Hi.
  destruct (Z.eqb_spec n.(ProtoNode.root) hash_zero); [done|]. fold ns. lia.
Qed.

(** The state after node [k], when its root is not the zero hash. *)
Definition after_node (k : nat) n (sl : ScoreLoop) : ScoreLoop :=
  mkScoreLoop
    (ProtoArray.alter_node (ProtoNode.set_weight (T k)) k sl.(sl_array))
    (match n.(ProtoNode.parent) with
     | Some p => <[p := delta_at sl.(sl_deltas) p + (T k - n.(ProtoNode.weight))]> sl.(sl_deltas)
     | None => sl.(sl_deltas)
     end)
    (if bool_decide (is_Some spec.(ChainSpec.proposer_score_boost))
        && (negb (r =? hash_zero) && (r =? n.(ProtoNode.root)) && negb (is_invalid n.(status)))
     then score else sl.(sl_proposer_score)).

Lemma weigh_inv_node k sl n :
  weigh_inv (S k) sl → ns !! k = Some n → sl.(sl_array).(ProtoArray.nodes) !! k = Some n.
Proof using.
  intros Hi Hn. rewrite (wi_array _ _ Hi). simpl. rewrite weigh_lookup, Hn.
  unfold fmap, option_fmap, option_map. by destruct (Nat.leb_spec (S k) k); [lia|].
Qed.

Lemma delta_lookup k sl p :
  weigh_inv k sl → (p < N)%nat → sl.(sl_deltas) !! p = Some (delta_at sl.(sl_deltas) p).
Proof using.
  intros Hi Hp. rewrite <-(wi_len _ _ Hi) in Hp.
  destruct (lookup_lt_is_Some_2 _ _ Hp) as [d Hd]. unfold delta_at. by rewrite Hd.
Qed.

(** The change of weight of [k] is bounded by what is in flight at [k]. *)
Lemma target_small k sl n :
  weigh_inv (S k) sl → ns !! k = Some n → n.(ProtoNode.root) ≠ hash_zero →
  Z.abs (T k - n.(ProtoNode.weight)) ≤ Z.abs (delta_at sl.(sl_deltas) k) + slack pa0 nb k.
Proof using Hok Htarget Hfits.
  intros Hi Hn Hz. pose proof (fits_weight _ _ _ _ Hfits _ _ Hn).
  destruct (fits_prev _ _ _ _ Hfits), (fits_new _ _ _ _ Hfits).
  unfold slack. fold ns. rewrite Hn. unfold gate. destruct (is_invalid n.(status)) eqn:Hinv.
  - rewrite (Htarget _ _ Hn), Hinv. destruct (Z.eqb_spec n.(ProtoNode.root) hash_zero); [done|].
    unfold boost_at, gate. repeat case_match; lia.
  - rewrite (target_delta _ _ Hn Hz Hinv), (wi_deltas _ _ Hi) by lia.
    unfold boost_at, gate. repeat case_match; lia.
Qed.

(** Carrying the delta of [k] to its parent stays within [i64]. *)
Lemma carry_small k sl n p :
  weigh_inv (S k) sl → ns !! k = Some n → n.(ProtoNode.root) ≠ hash_zero →
  n.(ProtoNode.parent) = Some p →
  i64_wrapping_add (delta_at sl.(sl_deltas) p) (T k - n.(ProtoNode.weight))
  = delta_at sl.(sl_deltas) p + (T k - n.(ProtoNode.weight)).
Proof using Hok Htarget Hfits.
  intros Hi Hn Hz Hp. pose proof (parent_lt _ Hok _ _ _ Hn Hp).
  pose proof (target_small _ _ _ Hi Hn Hz).
  pose proof (in_flight_small2 _ _ p k Hi ltac:(lia)).
  apply as_i64_small. unfold is_i64, i64_min, i64_max in *. lia.
Qed.

(** The assignments at the end of an iteration. *)
Lemma score_assign_run k sl sl1 n o :
  weigh_inv (S k) sl → ns !! k = Some n → n.(ProtoNode.root) ≠ hash_zero →
  sl1 = sl_set_score sl1.(sl_proposer_score) sl → o = Ok (T k) →
  (weight ← lift o;
   modify (fun sl => mkScoreLoop
     (ProtoArray.alter_node (ProtoNode.set_weight weight) k sl.(sl_array))
     sl.(sl_deltas) sl.(sl_proposer_score)) ;;
   match n.(ProtoNode.parent) with
   | Some parent_index =>
       parent_delta ← lift (ok_or (sl.(sl_deltas) !! parent_index)
         (Error.InvalidParentDelta parent_index));
       modify (fun sl => mkScoreLoop sl.(sl_array)
         (<[parent_index := i64_wrapping_add parent_delta (T k - n.(ProtoNode.weight))]>
            sl.(sl_deltas)) sl.(sl_proposer_score))
   | None => mret tt
   end) sl1 =
  (Ok tt, sl_set_score sl1.(sl_proposer_score) (after_node k n sl)).
Proof using Hok Htarget Hfits.
  intros Hi Hn Hz Hsl1 ->. unfold after_node, sl_set_score, mbind, M_bind, lift, modify. simpl.
  pose proof (f_equal sl_deltas Hsl1) as Hd1. simpl in Hd1.
  pose proof (f_equal sl_array Hsl1) as Ha1. simpl in Ha1.
  destruct n.(ProtoNode.parent) as [p|] eqn:Hp; [|by rewrite Hd1, Ha1].
  pose proof (parent_lt _ Hok _ _ _ Hn Hp). pose proof (lookup_lt_Some _ _ _ Hn).
  rewrite (delta_lookup _ _ p Hi) by (unfold N, ns in *; lia). simpl.
  by rewrite (carry_small _ _ _ _ Hi Hn Hz Hp), Hd1, Ha1.
Qed.

Lemma score_step_run_invalid k sl n :
  weigh_inv (S k) sl → ns !! k = Some n → n.(ProtoNode.root) ≠ hash_zero →
  is_invalid n.(status) = true →
  score_step spe jb r spec k sl = (Ok tt, after_node k n sl).
Proof using Hok Htarget Hfits.
  intros Hi Hn Hz Hinv. pose proof (weigh_inv_node _ _ _ Hi Hn) as Hn'.
  pose proof (fits_weight _ _ _ _ Hfits _ _ Hn) as HW.
  assert (T k = 0) as HT.
  { rewrite (Htarget _ _ Hn), Hinv. by destruct (Z.eqb_spec n.(ProtoNode.root) hash_zero). }
  unfold score_step. rewrite (bind_ok_eq _ _ sl sl sl) by done. cbv zeta.
  rewrite (bind_ok_eq _ _ sl n sl) by (by rewrite Hn').
  destruct (Z.eqb_spec n.(ProtoNode.root) hash_zero) as [?|_]; [done|]. rewrite Hinv. simpl negb.
  rewrite !andb_false_r.
  rewrite (bind_ok_eq _ _ sl (T k - n.(ProtoNode.weight)) sl).
  2:{ unfold lift, i64_checked_sub. rewrite as_i64_small, checked_i64_in, HT; [done|..];
      unfold is_i64, i64_min, i64_max in *; lia. }
  rewrite (bind_ok_eq _ _ sl (T k - n.(ProtoNode.weight)) sl) by done.
  rewrite (bind_ok_eq _ _ sl (T k - n.(ProtoNode.weight)) sl)
    by (by destruct (spec.(ChainSpec.proposer_score_boost))).
  rewrite (score_assign_run k sl sl n); [|done..|by destruct sl|by rewrite HT].
  unfold sl_set_score, after_node. simpl. rewrite Hinv. simpl. by rewrite !andb_false_r.
Qed.

(** The two boosts of a block that is not invalid, within the numbers in flight. *)
Lemma boosts_small k sl n :
  weigh_inv (S k) sl → ns !! k = Some n →
  let prev := boost_at pa0.(ProtoArray.previous_proposer_boost) n in
  is_i64 (delta_at sl.(sl_deltas) k - prev) ∧
  is_i64 (delta_at sl.(sl_deltas) k - prev + boost_at nb n).
Proof using Hfits.
  intros Hi Hn prev. pose proof (in_flight_small _ _ k Hi ltac:(lia)) as Hsm.
  unfold slack in Hsm. fold ns in Hsm. rewrite Hn in Hsm. fold prev in Hsm.
  pose proof (fits_weight _ _ _ _ Hfits _ _ Hn).
  assert (0 ≤ prev) by (destruct (fits_prev _ _ _ _ Hfits); unfold prev, boost_at, gate; case_match; lia).
  assert (0 ≤ boost_at nb n) by (destruct (fits_new _ _ _ _ Hfits); unfold boost_at, gate; case_match; lia).
  assert (0 ≤ gate (is_invalid n.(status)) n.(ProtoNode.weight)) by (unfold gate; case_match; lia).
  unfold is_i64, i64_min, i64_max in *. lia.
Qed.

Lemma score_step_run_valid k sl n :
  weigh_inv (S k) sl → ns !! k = Some n → n.(ProtoNode.root) ≠ hash_zero →
  is_invalid n.(status) = false →
  score_step spe jb r spec k sl = (Ok tt, after_node k n sl).
Proof using Hok Hscore Htarget Hfits.
  intros Hi Hn Hz Hinv. pose proof (weigh_inv_node _ _ _ Hi Hn) as Hn'.
  pose proof (lookup_lt_Some _ _ _ Hn) as Hlt.
  pose proof (fits_weight _ _ _ _ Hfits _ _ Hn) as HW.
  pose proof (fits_target _ _ _ _ Hfits k Hlt) as HT.
  pose proof (target_delta _ _ Hn Hz Hinv) as Hnd. rewrite <-(wi_deltas _ _ Hi) in Hnd by lia.
  destruct (boosts_small _ _ _ Hi Hn) as [Hb1 Hb2].
  unfold score_step. rewrite (bind_ok_eq _ _ sl sl sl) by done. cbv zeta.
  rewrite (bind_ok_eq _ _ sl n sl) by (by rewrite Hn').
  destruct (Z.eqb_spec n.(ProtoNode.root) hash_zero) as [?|_]; [done|]. rewrite Hinv. simpl negb.
  rewrite !andb_true_r.
  rewrite (bind_ok_eq _ _ sl (delta_at sl.(sl_deltas) k) sl)
    by (rewrite (delta_lookup _ _ k Hi) by (unfold N, ns in *; lia); done).
  set (prev := boost_at pa0.(ProtoArray.previous_proposer_boost) n) in *.
  rewrite (bind_ok_eq _ _ sl (delta_at sl.(sl_deltas) k - prev) sl).
  2:{ rewrite (wi_array _ _ Hi). unfold lift, prev, boost_at, gate in *. simpl.
      destruct (fits_prev _ _ _ _ Hfits). case_match; [|by rewrite Z.sub_0_r].
      unfold i64_checked_sub. rewrite (as_i64_small (ProposerBoost.score _))
        by (unfold is_i64, i64_min in *; lia). by rewrite checked_i64_in. }
  set (score' := if bool_decide (is_Some spec.(ChainSpec.proposer_score_boost))
    && (negb (r =? hash_zero) && (r =? n.(ProtoNode.root))) then score else sl.(sl_proposer_score)).
  rewrite (bind_ok_eq _ _ sl (T k - n.(ProtoNode.weight)) (sl_set_score score' sl)).
  - rewrite (score_assign_run k sl _ n); try done.
    + unfold sl_set_score, after_node, score'. simpl. by rewrite Hinv, andb_true_r.
    + unfold i64_max in *. destruct (Z.ltb_spec (T k - n.(ProtoNode.weight)) 0).
      * unfold u64_checked_sub. rewrite checked_u64_in; [simpl; f_equal; lia|].
        unfold is_u64, u64_max. lia.
      * unfold u64_checked_add. rewrite checked_u64_in; [simpl; f_equal; lia|].
        unfold is_u64, u64_max. lia.
  - rewrite Hnd. unfold score', boost_at, gate in *. simpl in *. unfold boost_score in Hscore.
    destruct (fits_new _ _ _ _ Hfits) as [Hs1 Hs2]. simpl in Hs1, Hs2.
    destruct (spec.(ChainSpec.proposer_score_boost)) as [pct|]; simpl.
    + destruct (negb (r =? hash_zero) && (r =? n.(ProtoNode.root))).
      * rewrite (bind_ok_eq _ _ sl score sl) by (by rewrite Hscore).
        rewrite (bind_ok_eq _ _ sl tt (sl_set_score score sl)) by done.
        unfold lift, i64_checked_add. rewrite (as_i64_small score)
          by (unfold is_i64, i64_min in *; lia). by rewrite checked_i64_in.
      * rewrite Z.add_0_r. by destruct sl.
    + rewrite Hscore. replace (if negb (r =? hash_zero) && (r =? n.(ProtoNode.root)) then 0 else 0)
        with 0 by (by case_match). rewrite Z.add_0_r. by destruct sl.
Qed.

Lemma score_step_zero k sl n :
  weigh_inv (S k) sl → ns !! k = Some n → n.(ProtoNode.root) = hash_zero →
  score_step spe jb r spec k sl = (Ok tt, sl).
Proof using.
  intros Hi Hn Hz. unfold score_step. rewrite (bind_ok_eq _ _ sl sl sl) by done. cbv zeta.
  rewrite (bind_ok_eq _ _ sl n sl) by (by rewrite (weigh_inv_node _ _ _ Hi Hn)).
  by rewrite Hz.
Qed.

Lemma delta_at_insert l p q v :
  (p < length l)%nat → delta_at (<[p:=v]> l) q = if decide (p = q) then v else delta_at l q.
Proof using.
  intros Hp. unfold delta_at. case_decide as H; subst.
  - by rewrite list_lookup_insert_eq.
  - by rewrite list_lookup_insert_ne.
Qed.

(** The invariant after a node. *)
Lemma after_node_inv k sl n :
  weigh_inv (S k) sl → ns !! k = Some n → n.(ProtoNode.root) ≠ hash_zero →
  weigh_inv k (after_node k n sl).
Proof using Hok Htarget Hfits.
  intros Hi Hn Hz. pose proof (lookup_lt_Some _ _ _ Hn) as Hlt. split; simpl.
  - rewrite (wi_array _ _ Hi). unfold ProtoArray.alter_node, ProtoArray.set_nodes. simpl.
    by rewrite weigh_step.
  - destruct n.(ProtoNode.parent); [rewrite length_insert|]; by apply (wi_len _ _ Hi).
  - intros p Hp. rewrite (in_flight_next k n p Hn), <-(wi_deltas _ _ Hi) by lia.
    destruct n.(ProtoNode.parent) as [q|] eqn:Hq; [|rewrite bool_decide_eq_false_2 by done; simpl; lia].
    pose proof (parent_lt _ Hok _ _ _ Hn Hq).
    rewrite delta_at_insert by (rewrite (wi_len _ _ Hi); unfold N, ns in *; lia).
    unfold gate. case_decide; case_bool_decide; simplify_eq; lia.
  - pose proof (wi_sum _ _ Hi) as Hsum. rewrite zsum_seq_S in Hsum.
    pose proof (target_small _ _ _ Hi Hn Hz) as Hts. pose proof (slack_nonneg k).
    destruct n.(ProtoNode.parent) as [q|] eqn:Hq; [|lia].
    pose proof (parent_lt _ Hok _ _ _ Hn Hq).
    rewrite (zsum_seq_update _ (fun i => Z.abs (delta_at sl.(sl_deltas) i) + slack pa0 nb i) k q);
      [|done|].
    + rewrite delta_at_insert by (rewrite (wi_len _ _ Hi); unfold N, ns in *; lia).
      rewrite decide_True by done. lia.
    + intros i Hne. rewrite delta_at_insert by (rewrite (wi_len _ _ Hi); unfold N, ns in *; lia).
      by rewrite decide_False.
  - intros Hs. rewrite (boosted_step _ _ Hn), bool_decide_eq_true_2 by (by apply not_eq_None_Some).
    simpl. rewrite (wi_score _ _ Hi Hs). unfold gate. by repeat case_match.
  - intros Hs. rewrite Hs. simpl. by apply (wi_score_none _ _ Hi).
Qed.

Lemma zero_node_inv k sl n :
  weigh_inv (S k) sl → ns !! k = Some n → n.(ProtoNode.root) = hash_zero → weigh_inv k sl.
Proof using Htarget Hfits.
  intros Hi Hn Hz.
  assert (T k = n.(ProtoNode.weight)) as HT by (by rewrite (Htarget _ _ Hn), Hz).
  split; simpl.
  - rewrite (wi_array _ _ Hi). by rewrite (weigh_id k n).
  - apply (wi_len _ _ Hi).
  - intros p Hp. rewrite (in_flight_next k n p Hn), <-(wi_deltas _ _ Hi) by lia.
    rewrite HT. unfold gate. case_match; lia.
  - pose proof (wi_sum _ _ Hi) as Hsum. rewrite zsum_seq_S in Hsum.
    pose proof (slack_nonneg k). lia.
  - intros Hs. rewrite (boosted_step _ _ Hn), (wi_score _ _ Hi Hs), Hz.
    by destruct (Z.eqb_spec r hash_zero).
  - apply (wi_score_none _ _ Hi).
Qed.

Lemma weight_pass_run :
  length deltas = N →
  ∃ sl, for_each (rev (seq 0 N)) (score_step spe jb r spec) (mkScoreLoop pa0 deltas 0) = (Ok tt, sl)
    ∧ weigh_inv 0 sl.
Proof using Hok Hscore Htarget Hfits.
  intros Hlen. apply for_rev_total with (I := weigh_inv).
  - split; simpl; [|done|..|done].
    + rewrite <-(set_nodes_same pa0) at 1. f_equal. apply list_eq. intros i.
      rewrite weigh_lookup. fold ns. destruct (ns !! i) as [n|] eqn:Hn; [|done]. simpl.
      apply lookup_lt_Some in Hn. by destruct (Nat.leb_spec N i); [unfold N, ns in *; lia|].
    + intros p Hp. unfold in_flight, child_sum. rewrite (zsum_zero _ (seq 0 _)); [lia|].
      intros c [_ Hc]%elem_of_seq. destruct (Nat.leb_spec N c); [unfold N, ns in *; lia|].
      unfold gate. by case_match.
    + apply (fits_sum _ _ _ _ Hfits).
    + intros _. by rewrite boosted_none.
  - intros k sl Hk Hi. destruct (lookup_lt_is_Some_2 _ _ Hk) as [n Hn].
    destruct (decide (n.(ProtoNode.root) = hash_zero)) as [Hz|Hz].
    + exists sl. split; [by eapply score_step_zero|by eapply zero_node_inv].
    + exists (after_node k n sl). split; [|by apply after_node_inv].
      destruct (is_invalid n.(status)) eqn:Hinv;
        [by apply score_step_run_invalid|by apply score_step_run_valid].
Qed.
End weight_pass.
