(* ===== verification/ProtoArrayGhost.v ===== *)
(** * Best links and the GHOST rule

    The second loop of [apply_score_changes] recomputes every best-child and
    best-descendant link from the weights.  [ghost] states the fork-choice
    rule it implements: from a block, repeatedly move to the heaviest child
    that leads to a viable block, ties broken by the larger root. *)
From S2P Require Import Prelude SlotEpoch ProtoArrayDefs ProtoArrayWf ProtoArrayWalk.
From S2P Require Import ProtoArrayExec.

Implicit Types (pa : ProtoArray.t) (n : ProtoNode.t).

(** Nodes compared by weight, then by root. *)
Definition key_le (n m : ProtoNode.t) : Prop :=
  n.(ProtoNode.weight) < m.(ProtoNode.weight) ∨
  n.(ProtoNode.weight) = m.(ProtoNode.weight) ∧ n.(ProtoNode.root) ≤ m.(ProtoNode.root).

Definition key_le_at pa (i j : nat) : Prop := ∃ n m,
  pa.(ProtoArray.nodes) !! i = Some n ∧ pa.(ProtoArray.nodes) !! j = Some m ∧ key_le n m.

(** A node without its links. *)
Definition unlinked (n : ProtoNode.t) : ProtoNode.t := ProtoNode.set_best None None n.

(** Two arrays that differ only in links. *)
Definition same_scores pa pa' : Prop :=
  unlinked <$> pa.(ProtoArray.nodes) = unlinked <$> pa'.(ProtoArray.nodes) ∧
  pa.(ProtoArray.indices) = pa'.(ProtoArray.indices) ∧
  pa.(ProtoArray.justified_checkpoint) = pa'.(ProtoArray.justified_checkpoint) ∧
  pa.(ProtoArray.finalized_checkpoint) = pa'.(ProtoArray.finalized_checkpoint) ∧
  pa.(ProtoArray.previous_proposer_boost) = pa'.(ProtoArray.previous_proposer_boost).

Section rule.
Context (spe : Z) (slot : Slot) (pa : ProtoArray.t).

Definition viable_at (i : nat) : Prop := ∃ n,
  pa.(ProtoArray.nodes) !! i = Some n ∧ node_is_viable_for_head spe pa n slot = true.

(** Some descendant of [i], or [i] itself, is viable. *)
Definition leads (i : nat) : Prop := ∃ d, anc pa.(ProtoArray.nodes) i d ∧ viable_at d.

Definition leading_child (i c : nat) : Prop := child_of pa.(ProtoArray.nodes) i c ∧ leads c.

(** The heaviest leading child. *)
Definition best_leading_child (i c : nat) : Prop :=
  leading_child i c ∧ ∀ c', leading_child i c' → key_le_at pa c' c.

Inductive ghost : nat → nat → Prop :=
  | ghost_stop i : viable_at i → (∀ c, ¬ leading_child i c) → ghost i i
  | ghost_step i c h : best_leading_child i c → ghost c h → ghost i h.

(** The links of a viable block without leading children cannot outlive the
    pass: they are unset, or name a child that no later sibling outranks. *)
Definition settled (i : nat) n : Prop :=
  n.(ProtoNode.best_child) = None ∧ n.(ProtoNode.best_descendant) = None ∨
  ∃ b, n.(ProtoNode.best_child) = Some b ∧
    ∀ k, child_of pa.(ProtoArray.nodes) i k → (b < k)%nat → ¬ key_le_at pa b k.

Definition all_settled : Prop := ∀ i n,
  pa.(ProtoArray.nodes) !! i = Some n → viable_at i → (∀ c, ¬ leading_child i c) → settled i n.
End rule.

Section same_scores.
Lemma unlinked_core n n' : unlinked n = unlinked n' → core n = core n'.
Proof. intros H. exact (f_equal core H). Qed.
Lemma unlinked_static n n' : unlinked n = unlinked n' → static n = static n'.
Proof. intros H. exact (f_equal static H). Qed.

#[global] Instance same_scores_equiv : Equivalence same_scores.
Proof.
  split.
  - by intros pa.
  - intros ?? (?&?&?&?&?). by repeat split.
  - intros ??? (?&?&?&?&?) (?&?&?&?&?). repeat split; by etransitivity.
Qed.

Lemma same_scores_view pa pa' : same_scores pa pa' → same_view pa pa'.
Proof.
  intros (Hs & ? & ? & ? & _). split_and!; try done.
  apply (f_equal (fmap core)) in Hs. rewrite <-!list_fmap_compose in Hs. exact Hs.
Qed.

Lemma same_scores_frame pa pa' : same_scores pa pa' → frame pa pa'.
Proof.
  intros (Hs & ? & _). split; [|done].
  apply (f_equal (fmap static)) in Hs. rewrite <-!list_fmap_compose in Hs. exact Hs.
Qed.

Lemma same_scores_lookup pa pa' i n :
  same_scores pa pa' → pa.(ProtoArray.nodes) !! i = Some n →
  ∃ n', pa'.(ProtoArray.nodes) !! i = Some n' ∧ unlinked n = unlinked n'.
Proof.
  intros (Hs & _) Hi. assert ((unlinked <$> pa'.(ProtoArray.nodes)) !! i = Some (unlinked n)) as Hi'.
  { rewrite <-Hs, list_lookup_fmap, Hi. done. }
  rewrite list_lookup_fmap in Hi'. destruct (pa'.(ProtoArray.nodes) !! i) as [n'|]; [|done].
  apply (inj Some) in Hi'. exists n'. done.
Qed.

Lemma same_scores_set_best pa bc bd i :
  same_scores pa (ProtoArray.alter_node (ProtoNode.set_best bc bd) i pa).
Proof.
  split_and!; try done. simpl. apply list_eq. intros j. rewrite !list_lookup_fmap.
  destruct (decide (i = j)) as [->|Hne].
  - rewrite list_lookup_alter_eq. by destruct (_ !! j).
  - by rewrite list_lookup_alter_ne.
Qed.

Lemma key_le_unlinked n n' m m' :
  unlinked n = unlinked n' → unlinked m = unlinked m' → key_le n m → key_le n' m'.
Proof.
  intros Hn Hm. unfold key_le.
  pose proof (f_equal ProtoNode.weight Hn) as H1. pose proof (f_equal ProtoNode.weight Hm) as H2.
  pose proof (f_equal ProtoNode.root Hn) as H3. pose proof (f_equal ProtoNode.root Hm) as H4.
  simpl in *. by rewrite H1, H2, H3, H4.
Qed.

Lemma key_le_trans_at pa i j k : key_le_at pa i j → key_le_at pa j k → key_le_at pa i k.
Proof.
  intros (n & m & Hn & Hm & H1) (m' & q & Hm' & Hq & H2). replace m' with m in * by congruence.
  exists n, q. unfold key_le in *. split_and!; try done. lia.
Qed.

Lemma key_le_refl_at pa i n : pa.(ProtoArray.nodes) !! i = Some n → key_le_at pa i i.
Proof. intros Hn. exists n, n. unfold key_le. split_and!; try done. lia. Qed.
End same_scores.

(** ** Deciding ancestry and leads *)
Fixpoint ancb_fuel (fuel : nat) (ns : list ProtoNode.t) (a i : nat) : bool :=
  if (a =? i)%nat then true
  else match fuel with
       | O => false
       | S fuel' =>
           match ns !! i with
           | Some n => match n.(ProtoNode.parent) with
                       | Some p => ancb_fuel fuel' ns a p
                       | None => false
                       end
           | None => false
           end
       end.
Definition ancb (ns : list ProtoNode.t) (a i : nat) : bool := ancb_fuel i ns a i.

Section decide.
Context (pa : ProtoArray.t) (Hok : tree_ok pa).

Lemma ancb_fuel_spec fuel a i :
  (i ≤ fuel)%nat → (i < length pa.(ProtoArray.nodes))%nat →
  ancb_fuel fuel pa.(ProtoArray.nodes) a i = true ↔ anc pa.(ProtoArray.nodes) a i.
Proof using Hok.
  revert i. induction fuel as [|fuel IH]; intros i Hf Hi; simpl;
    destruct (Nat.eqb_spec a i) as [<-|Hne]; try (split; [by constructor|done]).
  - split; [done|]. intros Ha. destruct Ha as [|i n p Hn Hp _]; [done|].
    pose proof (parent_lt _ Hok _ _ _ Hn Hp). lia.
  - destruct (lookup_lt_is_Some_2 _ _ Hi) as [n Hn]. rewrite Hn.
    destruct n.(ProtoNode.parent) as [p|] eqn:Hp.
    + pose proof (parent_lt _ Hok _ _ _ Hn Hp). rewrite IH by lia. split.
      * intros Ha. by eapply anc_step.
      * intros Ha. destruct Ha as [|i n' p' Hn' Hp' Ha]; [done|].
        by replace p with p' by congruence.
    + split; [done|]. intros Ha. destruct Ha as [|i n' p' Hn' Hp' Ha]; congruence.
Qed.

Lemma ancb_spec a i :
  (i < length pa.(ProtoArray.nodes))%nat →
  ancb pa.(ProtoArray.nodes) a i = true ↔ anc pa.(ProtoArray.nodes) a i.
Proof using Hok. intros. by apply ancb_fuel_spec. Qed.

Lemma anc_dec a i : anc pa.(ProtoArray.nodes) a i ∨ ¬ anc pa.(ProtoArray.nodes) a i.
Proof using Hok.
  destruct (decide (i < length pa.(ProtoArray.nodes))%nat) as [Hlt|Hge].
  - rewrite <-(ancb_spec a i Hlt). destruct (ancb _ _ _); [by left|by right].
  - right. intros Ha%anc_lt_length. lia.
Qed.

(** Search below a bound. *)
Lemma bounded_search (P : nat → Prop) :
  (∀ i, P i → (i < length pa.(ProtoArray.nodes))%nat) → (∀ i, P i ∨ ¬ P i) →
  (∃ i, P i) ∨ (∀ i, ¬ P i).
Proof using.
  intros Hb Hd.
  enough (∀ m, (∃ i, P i) ∨ (∀ i, (i < m)%nat → ¬ P i)) as H.
  - destruct (H (length pa.(ProtoArray.nodes))) as [?|H']; [by left|right].
    intros i Hi. exact (H' i (Hb _ Hi) Hi).
  - induction m as [|m [?|IH]]; [right; lia|by left|].
    destruct (Hd m) as [?|Hm]; [left; eauto|right]. intros i Hi.
    destruct (decide (i = m)) as [->|]; [done|]. apply IH. lia.
Qed.

Lemma viable_at_dec spe slot i : viable_at spe slot pa i ∨ ¬ viable_at spe slot pa i.
Proof using.
  unfold viable_at. destruct (_ !! i) as [n|]; [|right; by intros (?&?&?)].
  destruct (node_is_viable_for_head spe pa n slot) eqn:H; [by left; eauto|right].
  intros (n' & Hn' & H'). congruence.
Qed.

Lemma leads_dec spe slot i : leads spe slot pa i ∨ ¬ leads spe slot pa i.
Proof using Hok.
  destruct (bounded_search (fun d => anc pa.(ProtoArray.nodes) i d ∧ viable_at spe slot pa d))
    as [H|H]; [by intros d [?%anc_lt_length _]| |by left|right].
  - intros d. destruct (anc_dec i d), (viable_at_dec spe slot d); tauto.
  - intros (d & Hd). by eapply H.
Qed.

Lemma child_of_dec i c : child_of pa.(ProtoArray.nodes) i c ∨ ¬ child_of pa.(ProtoArray.nodes) i c.
Proof using.
  unfold child_of. destruct (_ !! c) as [n|]; [|right; by intros (?&?&?)].
  destruct (decide (n.(ProtoNode.parent) = Some i)); [left; eauto|right].
  intros (n' & Hn' & H'). congruence.
Qed.

Lemma leading_child_dec spe slot i :
  (∃ c, leading_child spe slot pa i c) ∨ (∀ c, ¬ leading_child spe slot pa i c).
Proof using Hok.
  apply bounded_search; [by intros c [?%child_lt_length _]|]. intros c. unfold leading_child.
  destruct (child_of_dec i c), (leads_dec spe slot c); tauto.
Qed.

(** A leading block is viable or has a leading child. *)
Lemma leads_cases spe slot i :
  leads spe slot pa i → (∀ c, ¬ leading_child spe slot pa i c) → viable_at spe slot pa i.
Proof using Hok.
  intros (d & Ha & Hv) Hno. destruct (decide (i = d)) as [->|Hne]; [done|].
  destruct (anc_inv_child _ _ _ Hok Ha Hne) as (c & Hc & Hcd).
  destruct (Hno c). split; [done|]. by exists d.
Qed.

Lemma leading_child_leads spe slot i c :
  (i < length pa.(ProtoArray.nodes))%nat → leading_child spe slot pa i c → leads spe slot pa i.
Proof using. intros Hi [Hc (d & Ha & Hv)]. exists d. split; [|done]. by eapply anc_child. Qed.
End decide.

(** ** The link pass *)
Section pass.
Context (spe : Z) (slot : Slot) (pa0 : ProtoArray.t) (Hwf : wf pa0).
Let Hok : tree_ok pa0 := wf_tree _ Hwf.

Abbreviation leads0 := (leads spe slot pa0).
Abbreviation viable0 := (viable_at spe slot pa0).
Abbreviation child0 := (child_of pa0.(ProtoArray.nodes)).
Abbreviation le0 := (key_le_at pa0).

(** After the children with index at least [k] have been compared, every
    leading one of them is outranked by the current best child of [p] or by
    a leading child still to come. *)
Definition dominated (k p : nat) (bc : option nat) : Prop := ∀ c,
  leading_child spe slot pa0 p c → (k ≤ c)%nat →
  (∃ b, bc = Some b ∧ leads0 b ∧ le0 c b) ∨
  (∃ u, (u < k)%nat ∧ leading_child spe slot pa0 p u ∧ le0 c u).

(** A best child that has been compared gives its own best descendant. *)
Definition descends pa (k : nat) n : Prop := ∀ b nb,
  n.(ProtoNode.best_child) = Some b → (k ≤ b)%nat → pa.(ProtoArray.nodes) !! b = Some nb →
  leads0 b → n.(ProtoNode.best_descendant) = Some (default b nb.(ProtoNode.best_descendant)).

(** A viable block without leading children loses its links: they are unset,
    or still name the settled child, not yet compared. *)
Definition clearing (k p : nat) n : Prop :=
  viable0 p → (∀ c, ¬ leading_child spe slot pa0 p c) →
  n.(ProtoNode.best_child) = None ∧ n.(ProtoNode.best_descendant) = None ∨
  ∃ b, n.(ProtoNode.best_child) = Some b ∧ (b < k)%nat ∧
    ∀ c, child0 p c → (b < c)%nat → ¬ le0 b c.

Record pass_inv (k : nat) pa : Prop := {
  pi_linked : linked pa0 pa;
  pi_scores : same_scores pa0 pa;
  pi_dominated : ∀ p n, pa.(ProtoArray.nodes) !! p = Some n →
    dominated k p n.(ProtoNode.best_child);
  pi_descends : ∀ p n, pa.(ProtoArray.nodes) !! p = Some n → descends pa k n;
  pi_clearing : ∀ p n, pa.(ProtoArray.nodes) !! p = Some n → clearing k p n;
}.

Lemma pass_lookup k pa i n :
  pass_inv k pa → pa.(ProtoArray.nodes) !! i = Some n →
  ∃ n0, pa0.(ProtoArray.nodes) !! i = Some n0 ∧ unlinked n = unlinked n0.
Proof using.
  intros Hi Hn. apply (same_scores_lookup pa); [|done]. symmetry. by apply (pi_scores k).
Qed.

Lemma pass_viable k pa i n :
  pass_inv k pa → pa.(ProtoArray.nodes) !! i = Some n →
  node_is_viable_for_head spe pa n slot = true ↔ viable0 i.
Proof using.
  intros Hi Hn. destruct (pass_lookup _ _ _ _ Hi Hn) as (n0 & Hn0 & Hu).
  rewrite (viable_ext spe pa pa0 n n0).
  - split; [intros H; by exists n0|]. intros (n1 & Hn1 & H). congruence.
  - symmetry. by eapply same_scores_view, pi_scores.
  - by apply unlinked_core.
Qed.

Lemma pass_key k pa i j n m :
  pass_inv k pa → pa.(ProtoArray.nodes) !! i = Some n → pa.(ProtoArray.nodes) !! j = Some m →
  key_le n m ↔ le0 i j.
Proof using.
  intros Hi Hn Hm. destruct (pass_lookup _ _ _ _ Hi Hn) as (n0 & Hn0 & Hu).
  destruct (pass_lookup _ _ _ _ Hi Hm) as (m0 & Hm0 & Hu'). split.
  - intros Hk. exists n0, m0. split_and!; try done. by eapply key_le_unlinked.
  - intros (n1 & m1 & ? & ? & Hk). eapply (key_le_unlinked n1 _ m1); [congruence..|done].
Qed.

(** A viable best descendant shows that its block leads. *)
Lemma best_descendant_leads k pa i n d nd :
  pass_inv k pa → pa.(ProtoArray.nodes) !! i = Some n →
  n.(ProtoNode.best_descendant) = Some d → pa.(ProtoArray.nodes) !! d = Some nd →
  node_is_viable_for_head spe pa nd slot = true → ∃ c, leading_child spe slot pa0 i c.
Proof using.
  intros Hi Hn Hd Hnd Hv. destruct (pi_linked _ _ Hi) as [[Hs _] Hl].
  destruct (Hl _ _ Hn) as [_ Hpd]. destruct (Hpd d Hd) as (c & Hc & Ha). exists c. symmetry in Hs. split.
  - by eapply child_of_same.
  - exists d. split; [by eapply anc_same|]. by eapply pass_viable.
Qed.

Lemma node_leads_sound k pa i n :
  pass_inv k pa → pa.(ProtoArray.nodes) !! i = Some n →
  node_leads_to_viable_head spe pa n slot = Ok true → leads0 i.
Proof using Hwf.
  intros Hi Hn. unfold node_leads_to_viable_head, mbind, outcome_bind, ok_or.
  assert (i < length pa0.(ProtoArray.nodes))%nat as Hlt.
  { destruct (pass_lookup _ _ _ _ Hi Hn) as (n0 & Hn0 & _). by eapply lookup_lt_Some. }
  assert (node_is_viable_for_head spe pa n slot = true → leads0 i) as Hself.
  { intros Hv. exists i. split; [by constructor|]. by eapply pass_viable. }
  destruct n.(ProtoNode.best_descendant) as [d|] eqn:Hd; [|simpl; intros [= H]; auto].
  destruct (pa.(ProtoArray.nodes) !! d) as [nd|] eqn:Hnd; [|done]. intros [= [H|H]%orb_true_iff]; [|auto].
  destruct (best_descendant_leads _ _ _ _ _ _ Hi Hn Hd Hnd H) as [c Hc].
  by eapply leading_child_leads.
Qed.

(** Once every child of [i] has been compared, the links of [i] follow the
    rule. *)
Lemma compared_best k pa i n c :
  pass_inv k pa → pa.(ProtoArray.nodes) !! i = Some n → (k ≤ S i)%nat →
  leading_child spe slot pa0 i c →
  ∃ b nb, n.(ProtoNode.best_child) = Some b ∧ best_leading_child spe slot pa0 i b ∧
    pa.(ProtoArray.nodes) !! b = Some nb ∧
    n.(ProtoNode.best_descendant) = Some (default b nb.(ProtoNode.best_descendant)).
Proof using Hwf.
  intros Hi Hn Hk Hc.
  assert (∀ c, leading_child spe slot pa0 i c →
    ∃ b, n.(ProtoNode.best_child) = Some b ∧ leads0 b ∧ le0 c b) as Hdom.
  { intros c' Hc'. pose proof (child_lt _ _ _ Hok (proj1 Hc')).
    destruct (pi_dominated _ _ Hi _ _ Hn c' Hc') as [?|(u & Hu & [Hu' _] & _)]; [lia|done|].
    apply (child_lt _ _ _ Hok) in Hu'. lia. }
  destruct (Hdom c Hc) as (b & Hb & Hlb & _).
  destruct (pi_linked _ _ Hi) as [Hfr Hl]. destruct (Hl _ _ Hn) as [Hbc _].
  pose proof (Hbc b Hb) as Hchild. pose proof (frame_child_of_inv _ _ _ _ Hfr Hchild) as Hchild0.
  destruct Hchild as (nb & Hnb & _). exists b, nb. split_and!; try done.
  - split; [by split|]. intros c' Hc'. destruct (Hdom c' Hc') as (b' & Hb' & _ & Hle). congruence.
  - apply (child_lt _ _ _ Hok) in Hchild0. eapply (pi_descends _ _ Hi _ _ Hn); try done. lia.
Qed.

Context (Hsettled : all_settled spe slot pa0).

(** The best descendant of a compared block is where the rule ends. *)
Lemma compared_ghost k pa i n :
  pass_inv k pa → pa.(ProtoArray.nodes) !! i = Some n → (k ≤ S i)%nat → leads0 i →
  ghost spe slot pa0 i (default i n.(ProtoNode.best_descendant)).
Proof using Hwf Hsettled.
  intros Hi. assert (∃ m, (length pa0.(ProtoArray.nodes) - i ≤ m)%nat) as [m Hm] by eauto.
  revert i n Hm. induction m as [|m IH]; intros i n Hm Hn Hk Hlead;
    pose proof (lookup_lt_Some _ _ _ Hn) as Hlt;
    rewrite <-(frame_length _ _ (proj1 (pi_linked _ _ Hi))) in Hlt; [lia|].
  destruct (leading_child_dec pa0 Hok spe slot i) as [[c Hc]|Hno].
  - destruct (compared_best _ _ _ _ _ Hi Hn Hk Hc) as (b & nb & Hb & Hbest & Hnb & ->).
    simpl. apply ghost_step with b; [done|]. destruct Hbest as [[Hcb Hlb] _].
    apply (child_lt _ _ _ Hok) in Hcb. apply IH; [lia|done|lia|done].
  - pose proof (leads_cases pa0 Hok spe slot i Hlead Hno) as Hv.
    destruct (pi_clearing _ _ Hi _ _ Hn Hv Hno) as [[_ ->]|(b & Hb & Hbk & _)].
    + by constructor.
    + destruct (pi_linked _ _ Hi) as [Hfr Hl]. destruct (Hl _ _ Hn) as [Hbc _].
      pose proof (frame_child_of_inv _ _ _ _ Hfr (Hbc b Hb)) as Hcb.
      apply (child_lt _ _ _ Hok) in Hcb. lia.
Qed.

Lemma ghost_viable i h : ghost spe slot pa0 i h → viable0 h.
Proof using. induction 1; auto. Qed.

(** [node_leads_to_viable_head] is exact on a compared block. *)
Lemma node_leads_exact k pa i n b :
  pass_inv k pa → pa.(ProtoArray.nodes) !! i = Some n → (k ≤ S i)%nat →
  node_leads_to_viable_head spe pa n slot = Ok b → b = true ↔ leads0 i.
Proof using Hwf Hsettled.
  intros Hi Hn Hk Hb. split; [intros ->; by eapply node_leads_sound|]. intros Hlead.
  pose proof (compared_ghost _ _ _ _ Hi Hn Hk Hlead) as Hg. apply ghost_viable in Hg as Hv.
  destruct Hv as (nh & Hnh & Hv). revert Hb. unfold node_leads_to_viable_head, mbind, outcome_bind, ok_or.
  assert (∀ j nj, pa.(ProtoArray.nodes) !! j = Some nj → viable0 j →
    node_is_viable_for_head spe pa nj slot = true) as Hvia by (intros; by eapply pass_viable).
  destruct n.(ProtoNode.best_descendant) as [d|] eqn:Hd; simpl in *.
  - destruct (pa.(ProtoArray.nodes) !! d) as [nd|] eqn:Hnd; [|done].
    rewrite (Hvia d nd Hnd) by (by exists nh). simpl. by intros [= <-].
  - rewrite (Hvia i n Hn) by (by exists nh). by intros [= <-].
Qed.

(** The best child [b] of the parent as [node_leads_to_viable_head] sees it:
    it leads, or it does not, or it has yet to be compared. *)
Definition seen_leading (k b : nat) : Prop := leads0 b.
Definition seen_not_leading (k b : nat) : Prop := leads0 b → (b < k)%nat.

(** The outcomes of one comparison, of child [k] with the links [bc], [bd]. *)
Inductive compare_result (k : nat) (bc bd dk : option nat) : option nat → option nat → Prop :=
  | to_child_leading :
      leads0 k → (∀ b, bc = Some b → b ≠ k → le0 b k ∨ seen_not_leading k b) →
      compare_result k bc bd dk (Some k) (Some (default k dk))
  | to_child_stale b :
      ¬ leads0 k → bc = Some b → b ≠ k → seen_not_leading k b → le0 b k →
      compare_result k bc bd dk (Some k) (Some (default k dk))
  | keep_none : ¬ leads0 k → bc = None → compare_result k bc bd dk bc bd
  | keep_leading b :
      bc = Some b → b ≠ k → seen_leading k b → (leads0 k → le0 k b) →
      compare_result k bc bd dk bc bd
  | keep_stale b :
      bc = Some b → b ≠ k → seen_not_leading k b → ¬ leads0 k →
      compare_result k bc bd dk bc bd
  | to_none : ¬ leads0 k → bc = Some k → compare_result k bc bd dk None None.

Lemma new_best_compare k q pa nk nq bc bd :
  pass_inv (S k) pa → pa.(ProtoArray.nodes) !! k = Some nk →
  pa.(ProtoArray.nodes) !! q = Some nq →
  new_best_child_and_descendant spe pa q k slot = Ok (bc, bd) →
  compare_result k nq.(ProtoNode.best_child) nq.(ProtoNode.best_descendant)
    nk.(ProtoNode.best_descendant) bc bd.
Proof using Hwf Hsettled.
  intros Hi Hk Hq. unfold new_best_child_and_descendant.
  destruct (node_leads_total spe pa k nk slot) as [lk Hlk];
    [by destruct (pi_linked _ _ Hi)|done|].
  pose proof (node_leads_exact _ _ _ _ _ Hi Hk (le_n _) Hlk) as Ek.
  unfold mbind, outcome_bind, ok_or. rewrite Hk, Hq, Hlk.
  assert (match nk.(ProtoNode.best_descendant) with Some d => Some d | None => Some k end
    = Some (default k nk.(ProtoNode.best_descendant))) as -> by (by destruct (nk.(ProtoNode.best_descendant))).
  assert (lk = false → ¬ leads0 k) as Ek' by (intros -> H; by apply Ek in H).
  destruct nq.(ProtoNode.best_child) as [b|] eqn:Hb.
  2:{ destruct lk; intros [= <- <-].
      - apply to_child_leading; [by apply Ek|done].
      - by apply keep_none; auto. }
  destruct (Nat.eqb_spec b k) as [->|Hne]; simpl.
  { destruct lk; intros [= <- <-].
    - apply to_child_leading; [by apply Ek|]. congruence.
    - by apply to_none; auto. }
  destruct (pi_linked _ _ Hi) as [_ Hl]. destruct (Hl _ _ Hq) as [Hbc _].
  destruct (Hbc b Hb) as (nb & Hnb & _). rewrite Hnb.
  destruct (node_leads_total spe pa b nb slot) as [lb Hlb]; [done..|]. rewrite Hlb.
  assert (lb = true → leads0 b) as Eb by (intros ->; by eapply node_leads_sound).
  assert (lb = false → seen_not_leading k b) as Eb'.
  { intros -> Hlead. destruct (decide (b < k)%nat) as [|Hge]; [done|exfalso].
    apply (node_leads_exact _ _ _ _ _ Hi Hnb) in Hlb; [|lia]. by apply Hlb in Hlead. }
  pose proof (pass_key _ _ _ _ _ _ Hi Hnb Hk) as Kbk.
  pose proof (pass_key _ _ _ _ _ _ Hi Hk Hnb) as Kkb. unfold key_le in Kbk, Kkb.
  destruct lk, lb; simpl; [|intros [= <- <-]..|].
  - destruct (Z.eqb_spec nk.(ProtoNode.weight) nb.(ProtoNode.weight));
      [destruct (Z.leb_spec nb.(ProtoNode.root) nk.(ProtoNode.root))
      |destruct (Z.ltb_spec nb.(ProtoNode.weight) nk.(ProtoNode.weight))]; intros [= <- <-].
    1, 3: apply to_child_leading; [by apply Ek|]; intros b' [= <-] _; left; apply Kbk; lia.
    1, 2: apply (keep_leading _ _ _ _ b); [done..|by apply Eb|]; intros _; apply Kkb; lia.
  - apply to_child_leading; [by apply Ek|]. intros b' [= <-] _. right. auto.
  - apply (keep_leading _ _ _ _ b); [done..|by apply Eb|]. intros H. by apply Ek in H.
  - destruct (Z.eqb_spec nk.(ProtoNode.weight) nb.(ProtoNode.weight));
      [destruct (Z.leb_spec nb.(ProtoNode.root) nk.(ProtoNode.root))
      |destruct (Z.ltb_spec nb.(ProtoNode.weight) nk.(ProtoNode.weight))]; intros [= <- <-].
    1, 3: apply (to_child_stale _ _ _ _ b); auto; apply Kbk; lia.
    1, 2: by apply (keep_stale _ _ _ _ b); auto.
Qed.

Lemma compare_dominated k q bc bd dk bc' bd' :
  child0 q k → (∀ b, bc = Some b → child0 q b) → (k < length pa0.(ProtoArray.nodes))%nat →
  compare_result k bc bd dk bc' bd' → dominated (S k) q bc → dominated k q bc'.
Proof using.
  intros Hqk Hbq Hlt Hres Hd c Hc Hkc.
  destruct (lookup_lt_is_Some_2 _ _ Hlt) as [n0 Hn0]. pose proof (key_le_refl_at _ _ _ Hn0) as Hrefl.
  assert (∀ u, (u < S k)%nat → leading_child spe slot pa0 q u → u = k ∧ leads0 k ∨
    (u < k)%nat) as Hu. { intros u ? [_ Hu]. destruct (decide (u = k)) as [->|]; [auto|lia]. }
  assert (c = k ∧ leads0 k ∨ (S k ≤ c)%nat) as [[-> Hk]|Hgt].
  { destruct Hc as [_ Hc]. destruct (decide (c = k)) as [->|]; [auto|lia]. }
  - destruct Hres; try done; eauto 10.
  - destruct (Hd c Hc Hgt) as [(b & Hbc & Hb & Hcb)|(u & Hu1 & Hu2 & Hcu)].
    + pose proof (Hbq b Hbc) as Hqb. destruct Hres as [Hk Hall|b' Hk Hbc' Hne Hs _|Hk Hbc'
        |b' Hbc' Hne Hs Hle|b' Hbc' Hne Hs Hk|Hk Hbc']; simplify_eq; try (left; by eauto).
      * destruct (decide (b = k)) as [->|Hne]; [by eauto 10|].
        destruct (Hall b eq_refl Hne) as [Hbk|Hs]; [left; eauto 10 using key_le_trans_at|].
        right. exists b. split; [by apply Hs|]. by repeat split.
      * right. exists b. split; [by apply Hs|]. by repeat split.
    + destruct (Hu u Hu1 Hu2) as [[-> Hk]|Hlt']; [|right; eauto].
      destruct Hres; simplify_eq; try done; left; eauto 10 using key_le_trans_at.
Qed.

Lemma compare_clearing k q n bc bd dk bc' bd' :
  child0 q k → compare_result k bc bd dk bc' bd' → n.(ProtoNode.best_child) = bc →
  n.(ProtoNode.best_descendant) = bd → clearing (S k) q n →
  clearing k q (ProtoNode.set_best bc' bd' n).
Proof using.
  intros Hqk Hres Hbc Hbd Hc Hv Hno. specialize (Hc Hv Hno). simpl.
  assert (¬ leads0 k) as Hk by (intros Hk; by apply (Hno k)).
  rewrite Hbc, Hbd in Hc. destruct Hc as [[-> ->]|(b & -> & Hlt & Hall)].
  { destruct Hres; try done; by left. }
  destruct Hres as [?|b' _ Hb Hne _ Hle|_ Hb|b' Hb Hne _ _|b' Hb Hne _ _|_ Hb]; simplify_eq;
    try done; [|right; exists b'; split_and!; [done|lia|done]..|by left].
  assert (b' < k)%nat as Hlt' by lia. by destruct (Hall k Hqk Hlt').
Qed.

Lemma compare_descends k q pa bc bd nk nq n' bc' bd' :
  pass_inv (S k) pa → pa.(ProtoArray.nodes) !! k = Some nk →
  pa.(ProtoArray.nodes) !! q = Some nq → (q < k)%nat →
  nq.(ProtoNode.best_child) = bc → nq.(ProtoNode.best_descendant) = bd →
  compare_result k bc bd nk.(ProtoNode.best_descendant) bc' bd' →
  n' = ProtoNode.set_best bc' bd' nq →
  descends (ProtoArray.alter_node (ProtoNode.set_best bc' bd') q pa) k n'.
Proof using.
  intros Hi Hk Hq Hlt Hbc Hbd Hres -> b nb Hb Hkb Hnb Hlead. simpl in Hb |- *.
  rewrite alter_lookup, decide_False in Hnb by lia.
  assert (bc' = bc → bd' = bd → b ≠ k →
    bd' = Some (default b nb.(ProtoNode.best_descendant))) as Hkeep.
  { intros -> -> Hne. rewrite <-Hbd. eapply (pi_descends _ _ Hi _ _ Hq b nb); try done; [congruence|lia]. }
  destruct Hres as [?|b' _ _ _ _ _|_ Hb'|b' Hb' Hne _ _|b' Hb' Hne _ _|_ Hb']; try congruence.
  - apply Hkeep; try done. congruence.
  - apply Hkeep; try done. congruence.
Qed.

Lemma pass_inv_other k pa p n :
  pass_inv (S k) pa → pa.(ProtoArray.nodes) !! p = Some n → ¬ child0 p k →
  dominated k p n.(ProtoNode.best_child) ∧ descends pa k n ∧ clearing k p n.
Proof using.
  intros Hi Hn Hnc. destruct (pi_linked _ _ Hi) as [Hfr Hl]. destruct (Hl _ _ Hn) as [Hbc _].
  assert (∀ b, n.(ProtoNode.best_child) = Some b → b ≠ k) as Hbk.
  { intros b Hb ->. apply Hnc. eapply frame_child_of_inv; [done|]. auto. }
  split_and!.
  - intros c Hc Hge. assert (c ≠ k) by (intros ->; by destruct Hc).
    destruct (pi_dominated _ _ Hi _ _ Hn c Hc) as [?|(u & Hu & Hu' & Hle)]; [lia|by left|right].
    exists u. split; [|done]. assert (u ≠ k) by (intros ->; by destruct Hu'). lia.
  - intros b nb Hb Hge. pose proof (Hbk _ Hb). apply (pi_descends _ _ Hi _ _ Hn); [done|lia].
  - intros Hv Hno. destruct (pi_clearing _ _ Hi _ _ Hn Hv Hno) as [?|(b & Hb & Hlt & Hall)]; [by left|].
    right. exists b. pose proof (Hbk _ Hb). split_and!; [done|lia|done].
Qed.

Lemma link_step_inv k pa :
  pass_inv (S k) pa → (k < length pa0.(ProtoArray.nodes))%nat →
  ∃ pa', link_step spe slot k pa = (Ok tt, pa') ∧ pass_inv k pa'.
Proof using Hwf Hsettled.
  intros Hi Hlt. pose proof (pi_linked _ _ Hi) as [Hfr Hl].
  pose proof Hlt as Hlt'. rewrite (frame_length _ _ Hfr) in Hlt'.
  destruct (lookup_lt_is_Some_2 _ _ Hlt') as [nk Hk]. unfold link_step.
  rewrite (bind_ok_eq _ _ pa pa pa) by done.
  rewrite (bind_ok_eq _ _ pa nk pa) by (by rewrite Hk).
  destruct nk.(ProtoNode.parent) as [q|] eqn:Hp.
  2:{ exists pa. split; [done|].
      assert (∀ p, ¬ child0 p k) as Hno.
      { intros p Hc. destruct (frame_child_of _ _ _ _ Hfr Hc) as (n' & Hn' & Hp'). congruence. }
      split; [by split|by apply (pi_scores _ _ Hi)|..];
        intros p n Hn; by destruct (pass_inv_other _ _ _ _ Hi Hn (Hno p)) as (?&?&?). }
  assert (child_of pa.(ProtoArray.nodes) q k) as Hqk by (by exists nk).
  pose proof (frame_child_of_inv _ _ _ _ Hfr Hqk) as Hqk0.
  pose proof (child_lt _ _ _ Hok Hqk0) as Hqlt.
  destruct (lookup_lt_is_Some_2 pa.(ProtoArray.nodes) q) as [nq Hq]; [lia|].
  destruct (new_best_total spe pa q k slot Hl Hqk) as [[bc bd] Hnew]; [lia|].
  pose proof (new_best_compare _ _ _ _ _ _ _ Hi Hk Hq Hnew) as Hres.
  exists (ProtoArray.alter_node (ProtoNode.set_best bc bd) q pa).
  assert (maybe_update_best_child_and_descendant spe q k slot pa =
    (Ok tt, ProtoArray.alter_node (ProtoNode.set_best bc bd) q pa)) as Hrun.
  { unfold maybe_update_best_child_and_descendant, mbind, M_bind, get, lift, modify. by rewrite Hnew, Hq. }
  split; [done|]. split.
  - pose proof (keeps_maybe_update spe pa0 q k slot Hqk0 pa (conj Hfr Hl)) as Hkeep.
    by rewrite Hrun in Hkeep.
  - etransitivity; [by apply (pi_scores _ _ Hi)|]. apply same_scores_set_best.
  - intros p n Hn. rewrite alter_lookup in Hn. destruct (decide (q = p)) as [<-|Hne].
    + rewrite Hq in Hn. apply (inj Some) in Hn as <-. simpl.
      eapply compare_dominated; [done| |done|done|by apply (pi_dominated _ _ Hi)].
      intros b Hb. eapply frame_child_of_inv; [done|]. destruct (Hl _ _ Hq). auto.
    + apply (pass_inv_other _ _ _ _ Hi Hn).
      intros Hc. destruct (frame_child_of _ _ _ _ Hfr Hc) as (n' & Hn' & Hp'). congruence.
  - intros p n Hn. rewrite alter_lookup in Hn. destruct (decide (q = p)) as [<-|Hne].
    + rewrite Hq in Hn. apply (inj Some) in Hn as <-. by eapply compare_descends.
    + destruct (pass_inv_other _ _ _ _ Hi Hn) as (_ & Hd & _).
      { intros Hc. destruct (frame_child_of _ _ _ _ Hfr Hc) as (n' & Hn' & Hp'). congruence. }
      intros b nb Hb Hkb Hnb. rewrite alter_lookup, decide_False in Hnb by lia. by apply Hd.
  - intros p n Hn. rewrite alter_lookup in Hn. destruct (decide (q = p)) as [<-|Hne].
    + rewrite Hq in Hn. apply (inj Some) in Hn as <-.
      eapply compare_clearing; try done. by apply (pi_clearing _ _ Hi).
    + apply (pass_inv_other _ _ _ _ Hi Hn).
      intros Hc. destruct (frame_child_of _ _ _ _ Hfr Hc) as (n' & Hn' & Hp'). congruence.
Qed.

Lemma link_pass_run :
  ∃ pa', for_each (rev (seq 0 (length pa0.(ProtoArray.nodes)))) (link_step spe slot) pa0 = (Ok tt, pa')
    ∧ pass_inv 0 pa'.
Proof using Hwf Hsettled.
  apply for_rev_total with (I := pass_inv).
  - split; [by apply wf_linked|reflexivity|..]; intros p n Hn.
    + intros c [Hc _] Hge. apply child_lt_length in Hc. lia.
    + intros b nb Hb Hge Hnb. apply lookup_lt_Some in Hnb. lia.
    + intros Hv Hno. destruct (Hsettled _ _ Hn Hv Hno) as [?|(b & Hb & Hall)]; [by left|].
      right. exists b. split_and!; [done| |done]. destruct (wf_links _ Hwf _ _ Hn) as [Hbc _].
      eapply child_lt_length. by eapply Hbc.
  - intros k pa Hk Hi. by apply link_step_inv.
Qed.

(** Head lookup after the pass. *)
Lemma pass_find_head pa r j nj :
  pass_inv 0 pa → pa0.(ProtoArray.indices) !! r = Some j → pa0.(ProtoArray.nodes) !! j = Some nj →
  is_invalid nj.(status) = false → leads0 j →
  ∃ h nh, ghost spe slot pa0 j h ∧ pa0.(ProtoArray.nodes) !! h = Some nh ∧
    find_head spe pa r slot = Ok nh.(ProtoNode.root).
Proof using Hwf Hsettled.
  intros Hi Hr Hj Hinv Hlead.
  destruct (same_scores_lookup _ _ _ _ (pi_scores _ _ Hi) Hj) as (nj' & Hj' & Hu).
  pose proof (compared_ghost 0 pa j nj' Hi Hj' ltac:(lia) Hlead) as Hg.
  pose proof (ghost_viable _ _ Hg) as (nh & Hnh & Hv).
  exists (default j nj'.(ProtoNode.best_descendant)), nh. split_and!; [done..|].
  destruct (same_scores_lookup _ _ _ _ (pi_scores _ _ Hi) Hnh) as (nh' & Hnh' & Hu').
  unfold find_head. pose proof (pi_scores _ _ Hi) as (_ & Hix & _). rewrite <-Hix, Hr. simpl.
  unfold mbind, outcome_bind, ok_or. rewrite Hj'.
  pose proof (f_equal ProtoNode.execution_status Hu) as Hst. simpl in Hst. rewrite <-Hst, Hinv, Hnh'.
  rewrite (viable_ext spe pa pa0 nh' nh slot); [rewrite Hv| |by symmetry; apply unlinked_core].
  - simpl. f_equal. by pose proof (f_equal ProtoNode.root Hu') as Hro.
  - symmetry. by eapply same_scores_view, pi_scores.
Qed.
End pass.

(** The link pass returns on any well-formed array and changes only links. *)
Lemma link_pass_total spe slot pa0 :
  wf pa0 →
  ∃ pa', for_each (rev (seq 0 (length pa0.(ProtoArray.nodes)))) (link_step spe slot) pa0 = (Ok tt, pa')
    ∧ linked pa0 pa' ∧ same_scores pa0 pa'.
Proof.
  intros Hwf. apply for_rev_total with (I := fun _ pa => linked pa0 pa ∧ same_scores pa0 pa).
  - split; [by apply wf_linked|reflexivity].
  - intros k pa Hk [[Hfr Hl] Hs]. pose proof (wf_tree _ Hwf) as Hok.
    assert (k < length pa.(ProtoArray.nodes))%nat as Hk' by (by rewrite <-(frame_length _ _ Hfr)).
    destruct (lookup_lt_is_Some_2 _ _ Hk') as [nk Hnk]. unfold link_step.
    rewrite (bind_ok_eq _ _ pa pa pa) by done. rewrite (bind_ok_eq _ _ pa nk pa) by (by rewrite Hnk).
    destruct nk.(ProtoNode.parent) as [q|] eqn:Hp; [|by exists pa].
    assert (child_of pa.(ProtoArray.nodes) q k) as Hqk by (by exists nk).
    pose proof (frame_child_of_inv _ _ _ _ Hfr Hqk) as Hqk0.
    pose proof (child_lt _ _ _ Hok Hqk0) as Hlt.
    destruct (maybe_update_total spe pa q k slot Hl Hqk) as (bc & bd & Hrun); [lia|].
    eexists. split; [done|]. split.
    + pose proof (keeps_maybe_update spe pa0 q k slot Hqk0 pa (conj Hfr Hl)) as H. by rewrite Hrun in H.
    + etransitivity; [done|]. apply same_scores_set_best.
Qed.

(** The rule does not depend on the recorded boost. *)
Section boost.
Context (spe : Z) (slot : Slot) (b : ProposerBoost.t) (pa : ProtoArray.t).
Let pa' := ProtoArray.set_boost b pa.

Lemma viable_at_boost i : viable_at spe slot pa' i ↔ viable_at spe slot pa i.
Proof.
  assert (same_view pa' pa) as Hv by (by repeat split).
  unfold viable_at. split; intros (n & Hn & H); exists n; split; try done;
    [rewrite <-(viable_ext spe pa' pa n n)|rewrite (viable_ext spe pa' pa n n)]; done.
Qed.

Lemma leads_boost i : leads spe slot pa' i ↔ leads spe slot pa i.
Proof. unfold leads. by setoid_rewrite viable_at_boost. Qed.

Lemma leading_child_boost i c : leading_child spe slot pa' i c ↔ leading_child spe slot pa i c.
Proof. unfold leading_child. by rewrite leads_boost. Qed.

Lemma all_settled_boost : all_settled spe slot pa → all_settled spe slot pa'.
Proof.
  intros H i n Hn Hv Hno. apply (H i n Hn); [by apply viable_at_boost|].
  intros c Hc. by apply (Hno c), leading_child_boost.
Qed.

Lemma ghost_boost i h : ghost spe slot pa' i h → ghost spe slot pa i h.
Proof.
  induction 1 as [i Hv Hno|i c h [Hc Hbest] _ IH].
  - apply ghost_stop; [by apply viable_at_boost|]. intros c Hc. by apply (Hno c), leading_child_boost.
  - apply ghost_step with c; [|done]. split; [by apply leading_child_boost|].
    intros c' Hc'. by apply Hbest, leading_child_boost.
Qed.
End boost.
