(* ===== verification/ForkChoiceDefs.v ===== *)
(** * Votes, balances and head selection before Gloas

    Data and operations of [consensus/proto_array/src/proto_array_fork_choice.rs]
    other than the Gloas walk, of [justified_balances.rs] and of
    [ssz_container.rs].

    Correspondence.  [ProtoArrayForkChoice] is the record [ForkChoice.t] and the
    state of the monad [M ForkChoice.t FcError.t]; its reusable [gloas_*_buf]
    buffers are beside it in [GloasState.t], which the Gloas walk uses.  A [String] error is a
    constructor of [FcError.t], one for each message.  A [BTreeSet<u64>] of
    validator indices is a [gset nat]. *)
From S2P Require Import Prelude SlotEpoch ProtoArrayDefs.

(** ** Votes *)
Module VoteTracker.
Record t : Type := mk {
  current_root : Hash256;
  next_root : Hash256;
  next_epoch : Epoch;
  current_slot : Slot;
  next_slot : Slot;
  current_payload_present : bool;
  next_payload_present : bool;
}.
#[global] Instance eq_dec : EqDecision t.
Proof. solve_decision. Defined.
Definition default : t := mk hash_zero hash_zero 0 0 0 false false.

(** The assignments of [process_attestation]. *)
Definition set_next (root : Hash256) (e : Epoch) (s : Slot) (present : bool) (v : t) : t :=
  mk v.(current_root) root e v.(current_slot) s v.(current_payload_present) present.
(** [vote.current_* = vote.next_*]. *)
Definition advance (v : t) : t :=
  mk v.(next_root) v.(next_root) v.(next_epoch) v.(next_slot) v.(next_slot)
     v.(next_payload_present) v.(next_payload_present).
(** [vote.current_root = Hash256::zero()]. *)
Definition clear_current (v : t) : t :=
  mk hash_zero v.(next_root) v.(next_epoch) v.(current_slot) v.(next_slot)
     v.(current_payload_present) v.(next_payload_present).
End VoteTracker.

(** [ElasticList]: a list that grows with default values. *)
Module ElasticList.
Definition ensure (i : nat) (l : list VoteTracker.t) : list VoteTracker.t :=
  if (length l <=? i)%nat then l ++ replicate (i + 1 - length l) VoteTracker.default else l.
(** [get_mut(i)] followed by an assignment through the reference. *)
Definition alter_at (f : VoteTracker.t → VoteTracker.t) (i : nat) (l : list VoteTracker.t)
    : list VoteTracker.t := alter f i (ensure i l).
End ElasticList.

(** ** Balances *)
Module Validator.
Record t : Type := mk {
  pubkey : Z;
  withdrawal_credentials : Hash256;
  effective_balance : Z;
  slashed : bool;
  activation_eligibility_epoch : Epoch;
  activation_epoch : Epoch;
  exit_epoch : Epoch;
  withdrawable_epoch : Epoch;
}.
Definition is_active_at (v : t) (e : Epoch) : bool :=
  (v.(activation_epoch) <=? e) && (e <? v.(exit_epoch)).
End Validator.

(** The loops of the two constructors: [f] is the balance an entry counts for,
    [None] when it is skipped. *)
Fixpoint sum_balances {A} (f : A → option Z) (l : list A) (total num : Z)
    : outcome ArithError (Z * Z) :=
  match l with
  | [] => Ok (total, num)
  | x :: l' =>
      match f x with
      | Some balance =>
          total' ← safe_add total balance;
          num' ← safe_add num 1;
          sum_balances f l' total' num'
      | None => sum_balances f l' total num
      end
  end.

Definition from_justified_state (validators : list Validator.t) (current_epoch : Epoch)
    : outcome ArithError JustifiedBalances.t :=
  let counted v :=
    if negb v.(Validator.slashed) && Validator.is_active_at v current_epoch
    then Some v.(Validator.effective_balance) else None in
  '(total, num) ← sum_balances counted validators 0 0;
  Ok (JustifiedBalances.mk (map (fun v => default 0 (counted v)) validators) total num).

Definition from_effective_balances (effective_balances : list Z)
    : outcome ArithError JustifiedBalances.t :=
  '(total, num) ← sum_balances (fun b => if b =? 0 then None else Some b) effective_balances 0 0;
  Ok (JustifiedBalances.mk effective_balances total num).

(** ** Errors *)
Module FcError.
Inductive t : Type :=
  | AddFinalizedBlock (e : Error.t)
  | ValidPayload (e : Error.t)
  | InvalidPayload (e : Error.t)
  | MissingParentRoot
  | ProcessBlock (e : Error.t)
  | ComputeDeltas (e : Error.t)
  | ApplyScoreChanges (e : Error.t)
  | FindHead (e : Error.t)
  | MaybePrune (e : Error.t)
  | NodesOutOfBounds
  | BoostFailed
  | BoostOverflow
  | AncestorWeightOverflow
  | MissingParentIndex (i : nat)
  | GloasNoChildren.
End FcError.

Module DoNotReOrg.
Inductive t : Type :=
  | MissingHeadOrParentNode
  | MissingHeadFinalizedCheckpoint
  | ParentDistance
  | HeadDistance
  | ShufflingUnstable
  | DisallowedOffset (offset : Z)
  | JustificationAndFinalizationNotCompetitive
  | ChainNotFinalizing (epochs_since_finalization : Z)
  | HeadNotWeak (head_weight re_org_head_weight_threshold : Z)
  | ParentNotStrong (parent_weight re_org_parent_weight_threshold : Z)
  | HeadNotLate
  | NotProposing
  | ReOrgsDisabled.
End DoNotReOrg.

Module ProposerHeadError.
Inductive t : Type :=
  | DoNotReOrg_ (r : DoNotReOrg.t)
  | Error_ (e : Error.t).
End ProposerHeadError.

(** ** The fork choice *)
Module ForkChoice.
Record t : Type := mk {
  proto_array : ProtoArray.t;
  votes : list VoteTracker.t;
  balances : JustifiedBalances.t;
  gloas_head_payload_status : option Z;
}.
Definition set_proto_array (pa : ProtoArray.t) (fc : t) : t :=
  mk pa fc.(votes) fc.(balances) fc.(gloas_head_payload_status).
Definition set_votes (vs : list VoteTracker.t) (fc : t) : t :=
  mk fc.(proto_array) vs fc.(balances) fc.(gloas_head_payload_status).
Definition set_balances (b : JustifiedBalances.t) (fc : t) : t :=
  mk fc.(proto_array) fc.(votes) b fc.(gloas_head_payload_status).
Definition set_gloas_status (o : option Z) (fc : t) : t :=
  mk fc.(proto_array) fc.(votes) fc.(balances) o.
End ForkChoice.

(** Run a method of [self.proto_array], mapping its error. *)
Definition on_array {A} (f : Error.t → FcError.t) (m : M ProtoArray.t Error.t A)
    : M ForkChoice.t FcError.t A :=
  fun fc => let '(r, pa) := m fc.(ForkChoice.proto_array) in
            (map_err f r, ForkChoice.set_proto_array pa fc).

Definition DEFAULT_PRUNE_THRESHOLD : nat := 256.

Definition from_parts (pa : ProtoArray.t) (votes : list VoteTracker.t) (b : JustifiedBalances.t)
    : ForkChoice.t := ForkChoice.mk pa votes b None.

Section eth_spec.
Context (slots_per_epoch : Z).

Definition new (current_slot finalized_block_slot : Slot) (finalized_block_state_root : Hash256)
    (justified_checkpoint finalized_checkpoint : Checkpoint.t)
    (current_epoch_shuffling_id next_epoch_shuffling_id : AttestationShufflingId.t)
    (execution_status : ExecutionStatus.t) : outcome FcError.t ForkChoice.t :=
  let proto_array :=
    ProtoArray.mk DEFAULT_PRUNE_THRESHOLD justified_checkpoint finalized_checkpoint [] ∅
      ProposerBoost.default in
  let block :=
    {| Block.slot := finalized_block_slot;
       Block.root := finalized_checkpoint.(Checkpoint.root);
       Block.parent_root := None;
       Block.state_root := finalized_block_state_root;
       Block.target_root := finalized_checkpoint.(Checkpoint.root);
       Block.current_epoch_shuffling_id := current_epoch_shuffling_id;
       Block.next_epoch_shuffling_id := next_epoch_shuffling_id;
       Block.justified_checkpoint := justified_checkpoint;
       Block.finalized_checkpoint := finalized_checkpoint;
       Block.execution_status := execution_status;
       Block.unrealized_justified_checkpoint := Some justified_checkpoint;
       Block.unrealized_finalized_checkpoint := Some finalized_checkpoint;
       Block.builder_index := None;
       Block.payload_revealed := false;
       Block.ptc_weight := 0;
       Block.ptc_blob_data_available_weight := 0;
       Block.payload_data_available := false;
       Block.bid_block_hash := None;
       Block.bid_parent_block_hash := None;
       Block.proposer_index := 0;
       Block.ptc_timely := false;
       Block.envelope_received := false;
       Block.inclusion_list_satisfied := false |} in
  let '(r, pa) := on_block slots_per_epoch block current_slot proto_array in
  _ ← map_err FcError.AddFinalizedBlock r;
  Ok (from_parts pa [] JustifiedBalances.default).

Definition process_execution_payload_validation (block_root : Hash256)
    : M ForkChoice.t FcError.t unit :=
  on_array FcError.ValidPayload (propagate_execution_payload_validation block_root).

Definition process_execution_payload_invalidation (op : InvalidationOperation.t)
    : M ForkChoice.t FcError.t unit :=
  on_array FcError.InvalidPayload
    (propagate_execution_payload_invalidation slots_per_epoch op).

Definition process_attestation (validator_index : nat) (block_root : Hash256)
    (target_epoch : Epoch) (slot : Slot) (payload_present : bool)
    : M ForkChoice.t FcError.t unit :=
  modify (fun fc => ForkChoice.set_votes
    (ElasticList.alter_at (fun vote =>
       if (vote.(VoteTracker.next_epoch) <? target_epoch)
          || bool_decide (vote = VoteTracker.default)
       then VoteTracker.set_next block_root target_epoch slot payload_present vote
       else vote) validator_index fc.(ForkChoice.votes)) fc).

Definition process_block (block : Block.t) (current_slot : Slot)
    : M ForkChoice.t FcError.t unit :=
  if bool_decide (block.(Block.parent_root) = None) then throw FcError.MissingParentRoot
  else on_array FcError.ProcessBlock (on_block slots_per_epoch block current_slot).

(** ** Deltas *)

(** [deltas] and [votes] in the loop of [compute_deltas]. *)
Record DeltaLoop : Type := mkDeltaLoop {
  dl_deltas : list Z;
  dl_votes : list VoteTracker.t;
}.
Definition dl_set_vote (i : nat) (v : VoteTracker.t) (dl : DeltaLoop) : DeltaLoop :=
  mkDeltaLoop dl.(dl_deltas) (<[i := v]> dl.(dl_votes)).

(** Add [op delta] at the node of [root], if it is known. *)
Definition change_delta (indices : gmap Z nat) (op : Z → option Z) (root : Hash256)
    : M DeltaLoop Error.t unit :=
  match indices !! root with
  | Some delta_index =>
      dl ← get;
      delta ← lift (ok_or (dl.(dl_deltas) !! delta_index) (Error.InvalidNodeDelta delta_index));
      delta' ← lift (ok_or (op delta) (Error.DeltaOverflow delta_index));
      modify (fun dl => mkDeltaLoop (<[delta_index := delta']> dl.(dl_deltas)) dl.(dl_votes))
  | None => mret tt
  end.

(** [balances.get(val_index).copied().unwrap_or(0)]. *)
Definition balance_of (balances : list Z) (val_index : nat) : Z :=
  default 0 (balances !! val_index).

Definition delta_step (indices : gmap Z nat) (old_balances new_balances : list Z)
    (equivocating_indices : gset nat) (val_index : nat) : M DeltaLoop Error.t unit :=
  dl ← get;
  match dl.(dl_votes) !! val_index with
  | None => mret tt
  | Some vote =>
      if (vote.(VoteTracker.current_root) =? hash_zero)
         && (vote.(VoteTracker.next_root) =? hash_zero) then mret tt
      else if bool_decide (val_index ∈ equivocating_indices) then
        when (negb (vote.(VoteTracker.current_root) =? hash_zero))
          (let old_balance := balance_of old_balances val_index in
           change_delta indices (fun d => i64_checked_sub d (as_i64 old_balance))
             vote.(VoteTracker.current_root) ;;
           modify (dl_set_vote val_index (VoteTracker.clear_current vote)))
      else
        let old_balance := balance_of old_balances val_index in
        let new_balance := balance_of new_balances val_index in
        when (negb (vote.(VoteTracker.current_root) =? vote.(VoteTracker.next_root))
              || negb (old_balance =? new_balance))
          (change_delta indices (fun d => i64_checked_sub d (as_i64 old_balance))
             vote.(VoteTracker.current_root) ;;
           change_delta indices (fun d => i64_checked_add d (as_i64 new_balance))
             vote.(VoteTracker.next_root) ;;
           modify (dl_set_vote val_index (VoteTracker.advance vote)))
  end.

Definition compute_deltas (indices : gmap Z nat) (old_balances new_balances : list Z)
    (equivocating_indices : gset nat) : M (list VoteTracker.t) Error.t (list Z) :=
  fun votes =>
    let '(r, dl) :=
      for_each (seq 0 (length votes))
        (delta_step indices old_balances new_balances equivocating_indices)
        (mkDeltaLoop (replicate (size indices) 0) votes) in
    (_ ← r; Ok dl.(dl_deltas), dl.(dl_votes)).

(** [apply_vote_updates], one vote. *)
Definition update_vote (old_balances new_balances : list Z) (equivocating_indices : gset nat)
    (val_index : nat) (vote : VoteTracker.t) : VoteTracker.t :=
  if (vote.(VoteTracker.current_root) =? hash_zero)
     && (vote.(VoteTracker.next_root) =? hash_zero) then vote
  else if bool_decide (val_index ∈ equivocating_indices) then
    if negb (vote.(VoteTracker.current_root) =? hash_zero)
    then VoteTracker.clear_current vote else vote
  else if negb (vote.(VoteTracker.current_root) =? vote.(VoteTracker.next_root))
          || negb (balance_of old_balances val_index =? balance_of new_balances val_index)
  then VoteTracker.advance vote
  else vote.

Definition apply_vote_updates (votes : list VoteTracker.t) (old_balances new_balances : list Z)
    (equivocating_indices : gset nat) : list VoteTracker.t :=
  imap (update_vote old_balances new_balances equivocating_indices) votes.

Definition maybe_update_balances (new_balances : JustifiedBalances.t) (fc : ForkChoice.t)
    : ForkChoice.t :=
  let balances := fc.(ForkChoice.balances) in
  if negb (length balances.(JustifiedBalances.effective_balances)
           =? length new_balances.(JustifiedBalances.effective_balances))%nat
     || negb (balances.(JustifiedBalances.total_effective_balance)
              =? new_balances.(JustifiedBalances.total_effective_balance))
     || negb (balances.(JustifiedBalances.num_active_validators)
              =? new_balances.(JustifiedBalances.num_active_validators))
  then ForkChoice.set_balances new_balances fc
  else fc.

(** The part of [find_head] that runs before the Gloas fork. *)
Definition find_head_pre_gloas (justified_checkpoint finalized_checkpoint : Checkpoint.t)
    (new_balances : JustifiedBalances.t) (proposer_boost_root : Hash256)
    (equivocating_indices : gset nat) (current_slot : Slot) (spec : ChainSpec.t)
    : M ForkChoice.t FcError.t Hash256 :=
  deltas ← (fun fc =>
    let '(r, votes) := compute_deltas fc.(ForkChoice.proto_array).(ProtoArray.indices)
        fc.(ForkChoice.balances).(JustifiedBalances.effective_balances)
        new_balances.(JustifiedBalances.effective_balances)
        equivocating_indices fc.(ForkChoice.votes) in
    (map_err FcError.ComputeDeltas r, ForkChoice.set_votes votes fc));
  on_array FcError.ApplyScoreChanges
    (apply_score_changes slots_per_epoch deltas justified_checkpoint finalized_checkpoint
       new_balances proposer_boost_root current_slot spec) ;;
  modify (maybe_update_balances new_balances) ;;
  modify (ForkChoice.set_gloas_status None) ;;
  fc ← get;
  lift (map_err FcError.FindHead
    (find_head slots_per_epoch fc.(ForkChoice.proto_array)
       justified_checkpoint.(Checkpoint.root) current_slot)).
End eth_spec.
