(* ===== verification/ForkChoiceOps.v ===== *)
(** * Queries and maintenance of the fork choice

    The remaining methods of [ProtoArrayForkChoice]
    ([consensus/proto_array/src/proto_array_fork_choice.rs]) outside the Gloas
    walk: the proposer's choice of parent, forgetting execution verdicts,
    lookups, and the conversion to and from the container that is stored
    ([ssz_container.rs]). *)
From S2P Require Import Prelude SlotEpoch ProtoArrayDefs ForkChoiceDefs.

(** ** Proposer head *)
Module ProposerHeadInfo.
Record t : Type := mk {
  head_node : ProtoNode.t;
  parent_node : ProtoNode.t;
  re_org_head_weight_threshold : Z;
  re_org_parent_weight_threshold : Z;
  current_slot : Slot;
}.
End ProposerHeadInfo.

Definition do_not_re_org {A} (r : DoNotReOrg.t) : outcome ProposerHeadError.t A :=
  Err (ProposerHeadError.DoNotReOrg_ r).

(** [DisallowedReOrgOffsets::new]. *)
Fixpoint disallowed_re_org_offsets_new (slots_per_epoch : Z) (offsets : list Z)
    : outcome Error.t (list Z) :=
  match offsets with
  | [] => Ok []
  | offset :: rest =>
      if slots_per_epoch <=? offset then Err (Error.InvalidEpochOffset offset)
      else rest' ← disallowed_re_org_offsets_new slots_per_epoch rest; Ok (offset :: rest')
  end.

Definition get_proposer_head_info (slots_per_epoch : Z) (fc : ForkChoice.t) (current_slot : Slot)
    (canonical_head : Hash256) (justified_balances : JustifiedBalances.t)
    (re_org_head_threshold re_org_parent_threshold : Z) (disallowed_offsets : list Z)
    (max_epochs_since_finalization : Epoch) : outcome ProposerHeadError.t ProposerHeadInfo.t :=
  match iter_nodes fc.(ForkChoice.proto_array) canonical_head with
  | head_node :: parent_node :: _ =>
      let parent_slot := parent_node.(ProtoNode.slot) in
      let head_slot := head_node.(ProtoNode.slot) in
      let re_org_block_slot := se_add head_slot 1 in
      let proposal_epoch := epoch re_org_block_slot slots_per_epoch in
      finalized ← ok_or head_node.(ProtoNode.unrealized_finalized_checkpoint)
        (ProposerHeadError.DoNotReOrg_ DoNotReOrg.MissingHeadFinalizedCheckpoint);
      let epochs_since_finalization :=
        u64_saturating_sub proposal_epoch finalized.(Checkpoint.epoch) in
      if max_epochs_since_finalization <? epochs_since_finalization then
        do_not_re_org (DoNotReOrg.ChainNotFinalizing epochs_since_finalization)
      else if negb (se_add parent_slot 1 =? head_slot) then
        do_not_re_org DoNotReOrg.ParentDistance
      else
        offset ← se_rem re_org_block_slot slots_per_epoch;
        if offset =? 0 then do_not_re_org DoNotReOrg.ShufflingUnstable
        else if existsb (Z.eqb offset) disallowed_offsets then
          do_not_re_org (DoNotReOrg.DisallowedOffset offset)
        else if negb
          (bool_decide (parent_node.(ProtoNode.unrealized_justified_checkpoint)
                        = head_node.(ProtoNode.unrealized_justified_checkpoint))
           && bool_decide (parent_node.(ProtoNode.unrealized_finalized_checkpoint)
                           = head_node.(ProtoNode.unrealized_finalized_checkpoint))) then
          do_not_re_org DoNotReOrg.JustificationAndFinalizationNotCompetitive
        else
          head_threshold ← ok_or
            (calculate_committee_fraction slots_per_epoch justified_balances re_org_head_threshold)
            (ProposerHeadError.Error_ Error.ReOrgThresholdOverflow);
          parent_threshold ← ok_or
            (calculate_committee_fraction slots_per_epoch justified_balances re_org_parent_threshold)
            (ProposerHeadError.Error_ Error.ReOrgThresholdOverflow);
          Ok (ProposerHeadInfo.mk head_node parent_node head_threshold parent_threshold current_slot)
  | _ => do_not_re_org DoNotReOrg.MissingHeadOrParentNode
  end.

Definition get_proposer_head (slots_per_epoch : Z) (fc : ForkChoice.t) (current_slot : Slot)
    (canonical_head : Hash256) (justified_balances : JustifiedBalances.t)
    (re_org_head_threshold re_org_parent_threshold : Z) (disallowed_offsets : list Z)
    (max_epochs_since_finalization : Epoch) : outcome ProposerHeadError.t ProposerHeadInfo.t :=
  info ← get_proposer_head_info slots_per_epoch fc current_slot canonical_head justified_balances
    re_org_head_threshold re_org_parent_threshold disallowed_offsets max_epochs_since_finalization;
  let head_weight := info.(ProposerHeadInfo.head_node).(ProtoNode.weight) in
  let parent_weight := info.(ProposerHeadInfo.parent_node).(ProtoNode.weight) in
  if negb (se_add info.(ProposerHeadInfo.head_node).(ProtoNode.slot) 1 =? current_slot) then
    do_not_re_org DoNotReOrg.HeadDistance
  else if negb (head_weight <? info.(ProposerHeadInfo.re_org_head_weight_threshold)) then
    do_not_re_org (DoNotReOrg.HeadNotWeak head_weight
      info.(ProposerHeadInfo.re_org_head_weight_threshold))
  else if negb (info.(ProposerHeadInfo.re_org_parent_weight_threshold) <? parent_weight) then
    do_not_re_org (DoNotReOrg.ParentNotStrong parent_weight
      info.(ProposerHeadInfo.re_org_parent_weight_threshold))
  else Ok info.

(** ** Forgetting verdicts *)

Definition contains_invalid_payloads (fc : ForkChoice.t) : bool :=
  existsb (fun node => ExecutionStatus.is_invalid node.(ProtoNode.execution_status))
    fc.(ForkChoice.proto_array).(ProtoArray.nodes).

(** The balance that votes for [root]; [Iterator::sum] wraps in a release build. *)
Definition restored_votes (fc : ForkChoice.t) (root : Hash256) : Z :=
  as_u64 (foldr Z.add 0
    (imap (fun validator_index vote =>
       if vote.(VoteTracker.current_root) =? root
       then default 0 (fc.(ForkChoice.balances).(JustifiedBalances.effective_balances)
                         !! validator_index)
       else 0) fc.(ForkChoice.votes))).

Definition alter_fc_node (f : ProtoNode.t → ProtoNode.t) (i : nat) (fc : ForkChoice.t) : ForkChoice.t :=
  ForkChoice.set_proto_array
    (ProtoArray.alter_node f i fc.(ForkChoice.proto_array)) fc.

(** Add [weight] to a node and its ancestors. *)
Fixpoint add_weight_to_ancestors (fuel : nat) (weight : Z) (index : nat)
    : M ForkChoice.t FcError.t unit :=
  match fuel with
  | O => lift Diverge
  | S fuel' =>
      fc ← get;
      node ← lift (ok_or (fc.(ForkChoice.proto_array).(ProtoArray.nodes) !! index)
        (FcError.MissingParentIndex index));
      w ← lift (ok_or (u64_checked_add node.(ProtoNode.weight) weight)
        FcError.AncestorWeightOverflow);
      modify (alter_fc_node (ProtoNode.set_weight w) index) ;;
      match node.(ProtoNode.parent) with
      | Some parent_index => add_weight_to_ancestors fuel' weight parent_index
      | None => mret tt
      end
  end.

Definition optimistic_step (slots_per_epoch : Z) (spec : ChainSpec.t) (node_index : nat)
    : M ForkChoice.t FcError.t unit :=
  fc ← get;
  node ← lift (ok_or (fc.(ForkChoice.proto_array).(ProtoArray.nodes) !! node_index)
    FcError.NodesOutOfBounds);
  match node.(ProtoNode.execution_status) with
  | ExecutionStatus.Invalid block_hash =>
      modify (alter_fc_node (ProtoNode.set_status (ExecutionStatus.Optimistic block_hash)) node_index) ;;
      let restored_weight := restored_votes fc node.(ProtoNode.root) in
      let previous := fc.(ForkChoice.proto_array).(ProtoArray.previous_proposer_boost) in
      restored_weight ←
        match spec.(ChainSpec.proposer_score_boost) with
        | Some proposer_score_boost =>
            if previous.(ProposerBoost.root) =? node.(ProtoNode.root) then
              proposer_score ← lift (ok_or
                (calculate_committee_fraction slots_per_epoch fc.(ForkChoice.balances)
                   proposer_score_boost) FcError.BoostFailed);
              modify (fun fc => ForkChoice.set_proto_array
                (ProtoArray.set_boost
                   (ProposerBoost.mk previous.(ProposerBoost.root) proposer_score)
                   fc.(ForkChoice.proto_array)) fc) ;;
              lift (ok_or (u64_checked_add restored_weight proposer_score) FcError.BoostOverflow)
            else mret restored_weight
        | None => mret restored_weight
        end;
      when (0 <? restored_weight)
        (add_weight_to_ancestors (S (length fc.(ForkChoice.proto_array).(ProtoArray.nodes)))
           restored_weight node_index)
  | ExecutionStatus.Valid block_hash | ExecutionStatus.Optimistic block_hash =>
      modify (alter_fc_node (ProtoNode.set_status (ExecutionStatus.Optimistic block_hash)) node_index)
  | ExecutionStatus.Irrelevant _ => mret tt
  end.

Definition set_all_blocks_to_optimistic (slots_per_epoch : Z) (spec : ChainSpec.t)
    : M ForkChoice.t FcError.t unit :=
  fc ← get;
  for_each (rev (seq 0 (length fc.(ForkChoice.proto_array).(ProtoArray.nodes))))
    (optimistic_step slots_per_epoch spec).

(** ** Lookups *)

Definition fc_maybe_prune (finalized_root : Hash256) : M ForkChoice.t FcError.t unit :=
  on_array FcError.MaybePrune (maybe_prune finalized_root).

Definition set_prune_threshold (prune_threshold : nat) (fc : ForkChoice.t) : ForkChoice.t :=
  let pa := fc.(ForkChoice.proto_array) in
  ForkChoice.set_proto_array
    (ProtoArray.mk prune_threshold pa.(ProtoArray.justified_checkpoint)
       pa.(ProtoArray.finalized_checkpoint) pa.(ProtoArray.nodes) pa.(ProtoArray.indices)
       pa.(ProtoArray.previous_proposer_boost)) fc.

Definition contains_block (fc : ForkChoice.t) (block_root : Hash256) : bool :=
  bool_decide (is_Some (fc.(ForkChoice.proto_array).(ProtoArray.indices) !! block_root)).

Definition contains_execution_block_hash (fc : ForkChoice.t) (block_hash : ExecutionBlockHash) : bool :=
  if block_hash =? hash_zero then true
  else existsb (fun node =>
    bool_decide (node.(ProtoNode.bid_block_hash) = Some block_hash)
    || bool_decide (ExecutionStatus.block_hash node.(ProtoNode.execution_status) = Some block_hash))
    fc.(ForkChoice.proto_array).(ProtoArray.nodes).

Definition get_proto_node (fc : ForkChoice.t) (block_root : Hash256) : option ProtoNode.t :=
  block_index ← fc.(ForkChoice.proto_array).(ProtoArray.indices) !! block_root;
  fc.(ForkChoice.proto_array).(ProtoArray.nodes) !! block_index.

Definition get_block (fc : ForkChoice.t) (block_root : Hash256) : option Block.t :=
  block ← get_proto_node fc block_root;
  let parent_root :=
    parent ← (i ← block.(ProtoNode.parent); fc.(ForkChoice.proto_array).(ProtoArray.nodes) !! i);
    Some parent.(ProtoNode.root) in
  Some {| Block.slot := block.(ProtoNode.slot);
          Block.root := block.(ProtoNode.root);
          Block.parent_root := parent_root;
          Block.state_root := block.(ProtoNode.state_root);
          Block.target_root := block.(ProtoNode.target_root);
          Block.current_epoch_shuffling_id := block.(ProtoNode.current_epoch_shuffling_id);
          Block.next_epoch_shuffling_id := block.(ProtoNode.next_epoch_shuffling_id);
          Block.justified_checkpoint := block.(ProtoNode.justified_checkpoint);
          Block.finalized_checkpoint := block.(ProtoNode.finalized_checkpoint);
          Block.execution_status := block.(ProtoNode.execution_status);
          Block.unrealized_justified_checkpoint := block.(ProtoNode.unrealized_justified_checkpoint);
          Block.unrealized_finalized_checkpoint := block.(ProtoNode.unrealized_finalized_checkpoint);
          Block.builder_index := block.(ProtoNode.builder_index);
          Block.payload_revealed := block.(ProtoNode.payload_revealed);
          Block.ptc_weight := block.(ProtoNode.ptc_weight);
          Block.ptc_blob_data_available_weight := block.(ProtoNode.ptc_blob_data_available_weight);
          Block.payload_data_available := block.(ProtoNode.payload_data_available);
          Block.bid_block_hash := block.(ProtoNode.bid_block_hash);
          Block.bid_parent_block_hash := block.(ProtoNode.bid_parent_block_hash);
          Block.proposer_index := block.(ProtoNode.proposer_index);
          Block.ptc_timely := block.(ProtoNode.ptc_timely);
          Block.envelope_received := block.(ProtoNode.envelope_received);
          Block.inclusion_list_satisfied := block.(ProtoNode.inclusion_list_satisfied) |}.

Definition get_block_execution_status (fc : ForkChoice.t) (block_root : Hash256)
    : option ExecutionStatus.t :=
  block ← get_proto_node fc block_root; Some block.(ProtoNode.execution_status).

Definition get_weight (fc : ForkChoice.t) (block_root : Hash256) : option Z :=
  block_index ← fc.(ForkChoice.proto_array).(ProtoArray.indices) !! block_root;
  node ← fc.(ForkChoice.proto_array).(ProtoArray.nodes) !! block_index;
  Some node.(ProtoNode.weight).

Definition latest_message (fc : ForkChoice.t) (validator_index : nat) : option (Hash256 * Epoch) :=
  match fc.(ForkChoice.votes) !! validator_index with
  | Some vote =>
      if bool_decide (vote = VoteTracker.default) then None
      else Some (vote.(VoteTracker.next_root), vote.(VoteTracker.next_epoch))
  | None => None
  end.

(** ** The stored container *)
Module SszContainer.
Record t : Type := mk {
  votes : list VoteTracker.t;
  prune_threshold : nat;
  justified_checkpoint : Checkpoint.t;
  finalized_checkpoint : Checkpoint.t;
  nodes : list ProtoNode.t;
  indices : list (Hash256 * nat);
  previous_proposer_boost : ProposerBoost.t;
}.
End SszContainer.

(** [SszContainer::from].  The order of a [HashMap] iteration is unspecified;
    [map_to_list] is one such order. *)
Definition as_ssz_container (fc : ForkChoice.t) : SszContainer.t :=
  let proto_array := fc.(ForkChoice.proto_array) in
  {| SszContainer.votes := fc.(ForkChoice.votes);
     SszContainer.prune_threshold := proto_array.(ProtoArray.prune_threshold);
     SszContainer.justified_checkpoint := proto_array.(ProtoArray.justified_checkpoint);
     SszContainer.finalized_checkpoint := proto_array.(ProtoArray.finalized_checkpoint);
     SszContainer.nodes := proto_array.(ProtoArray.nodes);
     SszContainer.indices := map_to_list proto_array.(ProtoArray.indices);
     SszContainer.previous_proposer_boost := proto_array.(ProtoArray.previous_proposer_boost) |}.

(** [collect::<HashMap>]: a later pair replaces an earlier one. *)
Definition collect_map (l : list (Hash256 * nat)) : gmap Z nat :=
  foldl (fun m '(k, v) => <[k := v]> m) ∅ l.

Definition from_container (from : SszContainer.t) (balances : JustifiedBalances.t) : ForkChoice.t :=
  from_parts
    (ProtoArray.mk from.(SszContainer.prune_threshold) from.(SszContainer.justified_checkpoint)
       from.(SszContainer.finalized_checkpoint) from.(SszContainer.nodes)
       (collect_map from.(SszContainer.indices)) from.(SszContainer.previous_proposer_boost))
    from.(SszContainer.votes) balances.
