(* ===== verification/ComputeDeltas.v ===== *)
(** * Vote deltas

    [compute_deltas] turns the move from old to new votes and balances into one
    delta for each node: the balance that now votes for the block less the
    balance that did. *)
From S2P Require Import Prelude Sums SlotEpoch ProtoArrayDefs ProtoArrayWf ProtoArrayWalk.
From S2P Require Import ProtoArrayExec ProtoArrayScore ForkChoiceDefs.

(** Balance of the votes for [root]. *)
Definition votes_for (votes : list VoteTracker.t) (balances : list Z) (root : Hash256) : Z :=
  zsum (fun v => match votes !! v with
                 | Some vote => gate (vote.(VoteTracker.current_root) =? root) (balance_of balances v)
                 | None => 0
                 end) (seq 0 (length votes)).

Definition balances_ok (balances : list Z) : Prop := ∀ v, 0 ≤ balance_of balances v.

(** Total balance of the first [m] validators. *)
Definition total_of (balances : list Z) (m : nat) : Z := zsum (balance_of balances) (seq 0 m).

Section compute_deltas.
Context (pa : ProtoArray.t) (Hok : tree_ok pa).
Context (old new : list Z) (equivocating : gset nat).
Context (Hold : balances_ok old) (Hnew : balances_ok new).
Context (votes : list VoteTracker.t).
Context (Hbound : total_of old (length votes) + total_of new (length votes) ≤ i64_max).

(** The vote of [v] after the update. *)
Definition next_vote (v : nat) (vote : VoteTracker.t) : VoteTracker.t :=
  update_vote old new equivocating v vote.

(** What validator [v] adds to the node with root [root]. *)
Definition change (v : nat) (root : Hash256) : Z :=
  match votes !! v with
  | Some vote =>
      gate ((next_vote v vote).(VoteTracker.current_root) =? root) (balance_of new v)
      - gate (vote.(VoteTracker.current_root) =? root) (balance_of old v)
  | None => 0
  end.

Record delta_inv (m : nat) (dl : DeltaLoop) : Prop := {
  di_votes : dl.(dl_votes) = imap (fun v vote => if (v <? m)%nat then next_vote v vote else vote) votes;
  di_len : length dl.(dl_deltas) = length pa.(ProtoArray.nodes);
  di_value : ∀ j n, pa.(ProtoArray.nodes) !! j = Some n → n.(ProtoNode.root) ≠ hash_zero →
    delta_at dl.(dl_deltas) j = zsum (fun v => change v n.(ProtoNode.root)) (seq 0 m);
  di_small : ∀ j, Z.abs (delta_at dl.(dl_deltas) j) ≤ total_of old m + total_of new m;
}.

Lemma total_of_S b m : total_of b (S m) = total_of b m + balance_of b m.
Proof using. apply zsum_seq_S. Qed.

Lemma total_of_mono b m : balances_ok b → (m ≤ length votes)%nat → total_of b m ≤ total_of b (length votes).
Proof using.
  intros Hb Hm. unfold total_of. replace (length votes) with (m + (length votes - m))%nat by lia.
  rewrite seq_app, zsum_app. assert (0 ≤ zsum (balance_of b) (seq (0 + m) (length votes - m)))
    by (apply zsum_nonneg; intros; apply Hb). lia.
Qed.

(** Both balances of validator [m] fit beside what has been summed. *)
Lemma room m :
  (m < length votes)%nat →
  total_of old m + total_of new m + balance_of old m + balance_of new m ≤ i64_max ∧
  0 ≤ total_of old m ∧ 0 ≤ total_of new m.
Proof using Hold Hnew Hbound.
  intros Hm. pose proof (total_of_mono old (S m) Hold ltac:(lia)).
  pose proof (total_of_mono new (S m) Hnew ltac:(lia)). rewrite !total_of_S in *.
  split; [lia|]. split; apply zsum_nonneg; intros; [apply Hold|apply Hnew].
Qed.

Lemma balance_as_i64 m :
  (m < length votes)%nat →
  as_i64 (balance_of old m) = balance_of old m ∧ as_i64 (balance_of new m) = balance_of new m.
Proof using Hold Hnew Hbound.
  intros Hm. destruct (room m Hm) as (? & ? & ?). pose proof (Hold m). pose proof (Hnew m).
  unfold i64_max in *. split; apply as_i64_small; unfold is_i64, i64_min, i64_max; lia.
Qed.

(** One change of a delta: the node of [root], if any, moves by [x]. *)
Lemma change_delta_run (f : Z → option Z) root x dl :
  length dl.(dl_deltas) = length pa.(ProtoArray.nodes) →
  (∀ j, pa.(ProtoArray.indices) !! root = Some j →
     f (delta_at dl.(dl_deltas) j) = Some (delta_at dl.(dl_deltas) j + x)) →
  ∃ ds, change_delta pa.(ProtoArray.indices) f root dl = (Ok tt, mkDeltaLoop ds dl.(dl_votes)) ∧
    length ds = length pa.(ProtoArray.nodes) ∧
    (∀ j n, pa.(ProtoArray.nodes) !! j = Some n →
       delta_at ds j = delta_at dl.(dl_deltas) j + gate (root =? n.(ProtoNode.root)) x) ∧
    (∀ j, Z.abs (delta_at ds j) ≤ Z.abs (delta_at dl.(dl_deltas) j) + Z.abs x).
Proof using Hok.
  intros Hlen Hf. unfold change_delta.
  destruct (pa.(ProtoArray.indices) !! root) as [j|] eqn:Hj.
  - pose proof (proj1 (indices_ok _ Hok _ _) Hj) as (n & Hn & Hr).
    apply lookup_lt_Some in Hn as Hlt. rewrite <-Hlen in Hlt.
    destruct (lookup_lt_is_Some_2 _ _ Hlt) as [d Hd].
    exists (<[j := delta_at dl.(dl_deltas) j + x]> dl.(dl_deltas)).
    specialize (Hf j eq_refl). split_and!.
    + unfold mbind, M_bind, get, lift, modify. rewrite Hd. unfold delta_at in *. rewrite Hd in *.
      simpl in *. by rewrite Hf.
    + by rewrite length_insert.
    + intros j' n' Hn'. rewrite delta_at_insert by done. unfold gate.
      destruct (decide (j = j')) as [<-|Hne].
      * replace n' with n by congruence. rewrite Hr, Z.eqb_refl. lia.
      * destruct (Z.eqb_spec root n'.(ProtoNode.root)); [|lia].
        apply (node_indices _ _ _ Hok) in Hn'. congruence.
    + intros j'. rewrite delta_at_insert by done. case_decide; subst; lia.
  - exists dl.(dl_deltas). split_and!; [by destruct dl|done| |lia].
    intros j' n' Hn'. unfold gate. destruct (Z.eqb_spec root n'.(ProtoNode.root)); [|lia].
    apply (node_indices _ _ _ Hok) in Hn'. congruence.
Qed.

Lemma next_votes_step m vote :
  votes !! m = Some vote →
  <[m := next_vote m vote]> (imap (fun v w => if (v <? m)%nat then next_vote v w else w) votes)
  = imap (fun v w => if (v <? S m)%nat then next_vote v w else w) votes.
Proof using.
  intros Hv. apply list_eq. intros i. destruct (decide (i = m)) as [->|Hne].
  - rewrite list_lookup_insert_eq; [|rewrite length_imap; by eapply lookup_lt_Some].
    rewrite list_lookup_imap, Hv. simpl. by destruct (Nat.ltb_spec m (S m)); [|lia].
  - rewrite list_lookup_insert_ne, !list_lookup_imap by done. destruct (votes !! i); [|done]. simpl.
    destruct (Nat.ltb_spec i m), (Nat.ltb_spec i (S m)); try lia; done.
Qed.

Lemma next_votes_same m vote :
  votes !! m = Some vote → next_vote m vote = vote →
  imap (fun v w => if (v <? m)%nat then next_vote v w else w) votes
  = imap (fun v w => if (v <? S m)%nat then next_vote v w else w) votes.
Proof using.
  intros Hv Heq. rewrite <-(next_votes_step _ _ Hv), Heq. symmetry. apply list_insert_id.
  rewrite list_lookup_imap, Hv. simpl. by destruct (Nat.ltb_spec m m); [lia|].
Qed.

(** The loop state moves to [m + 1] when the deltas moved by the change of [m]. *)
Lemma delta_inv_step m dl vote ds vs x :
  delta_inv m dl → votes !! m = Some vote →
  vs = imap (fun v w => if (v <? S m)%nat then next_vote v w else w) votes →
  length ds = length pa.(ProtoArray.nodes) →
  (∀ j n, pa.(ProtoArray.nodes) !! j = Some n → n.(ProtoNode.root) ≠ hash_zero →
     delta_at ds j = delta_at dl.(dl_deltas) j + change m n.(ProtoNode.root)) →
  (∀ j, Z.abs (delta_at ds j) ≤ Z.abs (delta_at dl.(dl_deltas) j) + x) →
  x ≤ balance_of old m + balance_of new m →
  delta_inv (S m) (mkDeltaLoop ds vs).
Proof using.
  intros Hi Hv -> Hlen Hval Hsm Hx. split; cbn [dl_deltas dl_votes]; [done|done|..].
  - intros j n Hn Hz. by rewrite (Hval _ _ Hn Hz), (di_value _ _ Hi _ _ Hn Hz), zsum_seq_S.
  - intros j. specialize (Hsm j). pose proof (di_small _ _ Hi j). rewrite !total_of_S. lia.
Qed.

(** The vote that changes: its old balance leaves one node, its new balance
    enters another. *)
Lemma move_balance m dl r1 r2 :
  delta_inv m dl → (m < length votes)%nat →
  ∃ ds1 ds2,
    change_delta pa.(ProtoArray.indices)
      (fun d => i64_checked_sub d (as_i64 (balance_of old m))) r1 dl
      = (Ok tt, mkDeltaLoop ds1 dl.(dl_votes)) ∧
    change_delta pa.(ProtoArray.indices)
      (fun d => i64_checked_add d (as_i64 (balance_of new m))) r2 (mkDeltaLoop ds1 dl.(dl_votes))
      = (Ok tt, mkDeltaLoop ds2 dl.(dl_votes)) ∧
    length ds1 = length pa.(ProtoArray.nodes) ∧ length ds2 = length pa.(ProtoArray.nodes) ∧
    (∀ j n, pa.(ProtoArray.nodes) !! j = Some n →
       delta_at ds1 j = delta_at dl.(dl_deltas) j - gate (r1 =? n.(ProtoNode.root)) (balance_of old m)) ∧
    (∀ j n, pa.(ProtoArray.nodes) !! j = Some n →
       delta_at ds2 j = delta_at ds1 j + gate (r2 =? n.(ProtoNode.root)) (balance_of new m)) ∧
    (∀ j, Z.abs (delta_at ds1 j) ≤ Z.abs (delta_at dl.(dl_deltas) j) + balance_of old m) ∧
    (∀ j, Z.abs (delta_at ds2 j) ≤ Z.abs (delta_at dl.(dl_deltas) j) + (balance_of old m + balance_of new m)).
Proof using Hok Hold Hnew Hbound.
  intros Hi Hm. destruct (room m Hm) as (Hr & Ht1 & Ht2).
  destruct (balance_as_i64 m Hm) as [-> ->]. pose proof (Hold m). pose proof (Hnew m).
  destruct (change_delta_run (fun d => i64_checked_sub d (balance_of old m)) r1
    (- balance_of old m) dl) as (ds1 & E1 & L1 & V1 & S1); [by apply (di_len _ _ Hi)| |].
  { intros j _. pose proof (di_small _ _ Hi j). unfold i64_checked_sub.
    apply checked_i64_in. unfold is_i64, i64_min, i64_max in *. lia. }
  destruct (change_delta_run (fun d => i64_checked_add d (balance_of new m)) r2
    (balance_of new m) (mkDeltaLoop ds1 dl.(dl_votes))) as (ds2 & E2 & L2 & V2 & S2); [done| |].
  { intros j _. pose proof (di_small _ _ Hi j). specialize (S1 j). simpl. unfold i64_checked_add.
    apply checked_i64_in. unfold is_i64, i64_min, i64_max in *. lia. }
  exists ds1, ds2. split_and!; try done.
  - intros j n Hn. rewrite (V1 _ _ Hn). unfold gate. case_match; lia.
  - intros j. specialize (S1 j). lia.
  - intros j. specialize (S1 j). specialize (S2 j). simpl in S2. lia.
Qed.

Lemma delta_step_run m dl vote :
  delta_inv m dl → votes !! m = Some vote →
  ∃ dl', delta_step pa.(ProtoArray.indices) old new equivocating m dl = (Ok tt, dl') ∧
    delta_inv (S m) dl'.
Proof using Hok Hold Hnew Hbound.
  intros Hi Hv. pose proof (lookup_lt_Some _ _ _ Hv) as Hm. pose proof (Hold m). pose proof (Hnew m).
  assert (dl.(dl_votes) !! m = Some vote) as Hv'.
  { rewrite (di_votes _ _ Hi), list_lookup_imap, Hv. simpl.
    by destruct (Nat.ltb_spec m m); [lia|]. }
  assert (∀ ds vs, mkDeltaLoop ds vs = dl → vs = dl.(dl_votes) ∧ ds = dl.(dl_deltas)) as Heta
    by (by intros ds vs <-).
  assert (next_vote m vote = vote → (∀ root, root ≠ hash_zero → change m root = 0) →
    delta_inv (S m) dl) as Hskip.
  { intros Hsame Hch. destruct dl as [ds vs]. eapply delta_inv_step with (x := 0); try done; simpl.
    - rewrite <-(next_votes_same _ _ Hv Hsame). apply (di_votes _ _ Hi).
    - apply (di_len _ _ Hi).
    - intros j n Hn Hz. rewrite Hch by done. lia.
    - lia.
    - lia. }
  unfold delta_step. rewrite (bind_ok_eq _ _ dl dl dl) by done. rewrite Hv'.
  unfold change, next_vote, update_vote in Hskip. rewrite Hv in Hskip.
  destruct ((vote.(VoteTracker.current_root) =? hash_zero)
    && (vote.(VoteTracker.next_root) =? hash_zero)) eqn:Hzero.
  { exists dl. split; [done|]. apply Hskip; [done|]. intros root Hz. btoprop.
    rewrite H1. unfold gate. destruct (Z.eqb_spec hash_zero root); [congruence|done]. }
  destruct (bool_decide (m ∈ equivocating)) eqn:Heq.
  - unfold when. destruct (Z.eqb_spec vote.(VoteTracker.current_root) hash_zero) as [Hc|Hc]; simpl.
    { exists dl. split; [done|]. apply Hskip; [done|]. simpl. intros root Hz. rewrite Hc.
      unfold gate. destruct (Z.eqb_spec hash_zero root); [congruence|done]. }
    assert ((vote.(VoteTracker.current_root) =? hash_zero) = false) as Ec by (by apply Z.eqb_neq).
    destruct (move_balance m dl vote.(VoteTracker.current_root) hash_zero Hi Hm)
      as (ds1 & _ & E1 & _ & L1 & _ & V1 & _ & S1 & _).
    eexists. rewrite (bind_ok_eq _ _ _ _ _ E1). split; [done|].
    eapply (delta_inv_step m dl vote ds1); [done|done| |done| |done|lia].
    + rewrite <-(next_votes_step _ _ Hv). simpl. rewrite (di_votes _ _ Hi). f_equal.
      unfold next_vote, update_vote. by rewrite Ec, Heq.
    + intros j n Hn Hz. rewrite (V1 _ _ Hn). unfold change. rewrite Hv.
      unfold next_vote, update_vote. rewrite Ec, Heq.
      cbn [andb negb VoteTracker.clear_current VoteTracker.current_root].
      rewrite (proj2 (Z.eqb_neq hash_zero n.(ProtoNode.root))) by congruence. simpl. lia.
  - destruct (negb (vote.(VoteTracker.current_root) =? vote.(VoteTracker.next_root))
      || negb (balance_of old m =? balance_of new m)) eqn:Hch; simpl.
    2:{ exists dl. split; [done|]. apply Hskip; [done|]. intros root _. btoprop.
        destruct (Z.eqb_spec (balance_of old m) (balance_of new m)) as [->|]; [lia|done]. }
    destruct (move_balance m dl vote.(VoteTracker.current_root) vote.(VoteTracker.next_root) Hi Hm)
      as (ds1 & ds2 & E1 & E2 & L1 & L2 & V1 & V2 & _ & S2).
    eexists. rewrite (bind_ok_eq _ _ _ _ _ E1), (bind_ok_eq _ _ _ _ _ E2). split; [done|].
    eapply (delta_inv_step m dl vote ds2); [done|done| |done| |done|lia].
    + rewrite <-(next_votes_step _ _ Hv). simpl. rewrite (di_votes _ _ Hi). f_equal.
      unfold next_vote, update_vote. by rewrite Hzero, Heq, Hch.
    + intros j n Hn Hz. rewrite (V2 _ _ Hn), (V1 _ _ Hn). unfold change. rewrite Hv.
      unfold next_vote, update_vote. rewrite Hzero, Heq, Hch. simpl. lia.
Qed.

Lemma imap_all (f : nat → VoteTracker.t → VoteTracker.t) :
  imap (fun v w => if (v <? length votes)%nat then f v w else w) votes = imap f votes.
Proof using.
  apply list_eq. intros i. rewrite !list_lookup_imap. destruct (votes !! i) as [w|] eqn:Hw; [|done].
  simpl. apply lookup_lt_Some in Hw. by destruct (Nat.ltb_spec i (length votes)); [|lia].
Qed.

Lemma change_total root :
  zsum (fun v => change v root) (seq 0 (length votes)) =
  votes_for (apply_vote_updates votes old new equivocating) new root - votes_for votes old root.
Proof using.
  unfold votes_for, apply_vote_updates. rewrite length_imap, <-zsum_sub. apply zsum_ext. intros v _.
  rewrite list_lookup_imap. unfold change, next_vote. by destruct (votes !! v).
Qed.

(** The deltas of the whole loop. *)
Lemma compute_deltas_run :
  ∃ ds, compute_deltas pa.(ProtoArray.indices) old new equivocating votes
      = (Ok ds, apply_vote_updates votes old new equivocating) ∧
    length ds = length pa.(ProtoArray.nodes) ∧
    (∀ j n, pa.(ProtoArray.nodes) !! j = Some n → n.(ProtoNode.root) ≠ hash_zero →
       delta_at ds j = votes_for (apply_vote_updates votes old new equivocating) new n.(ProtoNode.root)
                       - votes_for votes old n.(ProtoNode.root)).
Proof using Hok Hold Hnew Hbound.
  destruct (for_seq_total (delta_step pa.(ProtoArray.indices) old new equivocating) delta_inv 0
    (length votes) (mkDeltaLoop (replicate (size pa.(ProtoArray.indices)) 0) votes))
    as (dl & Hrun & Hi).
  - assert (∀ j, delta_at (replicate (size pa.(ProtoArray.indices)) 0) j = 0) as H0.
    { intros j. unfold delta_at. destruct (_ !! j) as [d|] eqn:Hd; [|done].
      by apply lookup_replicate in Hd as [-> _]. }
    split; simpl; [|by rewrite length_replicate, size_indices|by intros; apply H0|].
    + apply list_eq. intros i. rewrite list_lookup_imap. by destruct (votes !! i).
    + intros j. by rewrite H0.
  - intros m dl Hm Hi. destruct (lookup_lt_is_Some_2 votes m ltac:(lia)) as [vote Hv].
    by eapply delta_step_run.
  - exists dl.(dl_deltas). unfold compute_deltas. rewrite Hrun. simpl in *.
    rewrite (di_votes _ _ Hi), imap_all. split_and!; [done|by apply (di_len _ _ Hi)|].
    intros j n Hn Hz. by rewrite (di_value _ _ Hi _ _ Hn Hz), change_total.
Qed.
End compute_deltas.
