(* ===== verification/VoteHistory.v ===== *)
(** * Latest messages

    What a history of attestations leaves in the vote trackers, how an
    equivocation ends it, and the deltas the trackers give rise to. *)
From S2P Require Import Prelude Sums SlotEpoch ProtoArrayDefs ProtoArrayWf ProtoArrayWalk.
From S2P Require Import ProtoArrayScore ForkChoiceDefs ForkChoiceOps ComputeDeltas.

(** An attestation of one validator, as [process_attestation] receives it. *)
Record attestation : Type := mkAtt {
  att_index : nat;
  att_root : Hash256;
  att_epoch : Epoch;
  att_slot : Slot;
  att_present : bool;
}.

Definition attest (a : attestation) : M ForkChoice.t FcError.t unit :=
  process_attestation a.(att_index) a.(att_root) a.(att_epoch) a.(att_slot) a.(att_present).

(** The vote an attestation leaves in a fresh tracker. *)
Definition vote_of (a : attestation) : VoteTracker.t :=
  VoteTracker.set_next a.(att_root) a.(att_epoch) a.(att_slot) a.(att_present) VoteTracker.default.

(** [a] is the first attestation of [v] in [l] with the greatest target epoch. *)
Definition is_latest (v : nat) (l : list attestation) (a : attestation) : Prop :=
  a.(att_index) = v ∧ ∃ pre post, l = pre ++ a :: post ∧
    (∀ b, b ∈ pre → b.(att_index) = v → b.(att_epoch) < a.(att_epoch)) ∧
    (∀ b, b ∈ post → b.(att_index) = v → b.(att_epoch) ≤ a.(att_epoch)).

(** The tracker of [v] after the history [l]. *)
Definition tracks (v : nat) (l : list attestation) (fc : ForkChoice.t) : Prop :=
  match fc.(ForkChoice.votes) !! v with
  | Some vote => (vote = VoteTracker.default ∧ ∀ a, a ∈ l → a.(att_index) ≠ v) ∨
                 ∃ a, is_latest v l a ∧ vote = vote_of a
  | None => ∀ a, a ∈ l → a.(att_index) ≠ v
  end.

Lemma ensure_lookup v i l :
  ElasticList.ensure i l !! v =
    match l !! v with Some x => Some x | None => if (v <=? i)%nat then Some VoteTracker.default else None end.
Proof.
  unfold ElasticList.ensure. destruct (l !! v) as [x|] eqn:Hv.
  - destruct (_ <=? _)%nat; [by apply lookup_app_l_Some|done].
  - apply lookup_ge_None in Hv. destruct (Nat.leb_spec (length l) i).
    + rewrite lookup_app_r by done. destruct (Nat.leb_spec v i).
      * apply lookup_replicate. split; [done|lia].
      * apply lookup_replicate_None. lia.
    + destruct (Nat.leb_spec v i); [lia|]. by apply lookup_ge_None.
Qed.

Lemma attest_run a fc :
  attest a fc = (Ok tt, (attest a fc).2) ∧
  (attest a fc).2.(ForkChoice.votes) = ElasticList.alter_at (fun vote =>
     if (vote.(VoteTracker.next_epoch) <? a.(att_epoch)) || bool_decide (vote = VoteTracker.default)
     then VoteTracker.set_next a.(att_root) a.(att_epoch) a.(att_slot) a.(att_present) vote
     else vote) a.(att_index) fc.(ForkChoice.votes).
Proof. by destruct fc. Qed.

Lemma attest_other a v fc :
  a.(att_index) ≠ v →
  (attest a fc).2.(ForkChoice.votes) !! v = fc.(ForkChoice.votes) !! v ∨
  (fc.(ForkChoice.votes) !! v = None ∧
   (attest a fc).2.(ForkChoice.votes) !! v = Some VoteTracker.default).
Proof.
  intros Hv. rewrite (proj2 (attest_run a fc)). unfold ElasticList.alter_at.
  rewrite list_lookup_alter_ne, ensure_lookup by done.
  destruct (_ !! v); [by left|]. destruct (_ <=? _)%nat; [by right|by left].
Qed.

Lemma attest_self a fc :
  ∃ vote, default VoteTracker.default (fc.(ForkChoice.votes) !! a.(att_index)) = vote ∧
    (attest a fc).2.(ForkChoice.votes) !! a.(att_index) =
      Some (if (vote.(VoteTracker.next_epoch) <? a.(att_epoch)) || bool_decide (vote = VoteTracker.default)
            then VoteTracker.set_next a.(att_root) a.(att_epoch) a.(att_slot) a.(att_present) vote
            else vote).
Proof.
  eexists. split; [done|]. rewrite (proj2 (attest_run a fc)). unfold ElasticList.alter_at.
  rewrite list_lookup_alter_eq, ensure_lookup, Nat.leb_refl.
  by destruct (fc.(ForkChoice.votes) !! a.(att_index)).
Qed.

Lemma is_latest_snoc v l a x :
  is_latest v l a → (x.(att_index) = v → x.(att_epoch) ≤ a.(att_epoch)) → is_latest v (l ++ [x]) a.
Proof.
  intros (Hi & pre & post & -> & Hpre & Hpost) Hx. split; [done|]. exists pre, (post ++ [x]).
  split; [by rewrite <-app_assoc|]. split; [done|].
  intros b [Hb|Hb%list_elem_of_singleton]%elem_of_app; [by apply Hpost|by subst b].
Qed.

Lemma is_latest_max v l a b : is_latest v l a → b ∈ l → b.(att_index) = v → b.(att_epoch) ≤ a.(att_epoch).
Proof.
  intros (_ & pre & post & -> & Hpre & Hpost) [Hb|[->|Hb]%elem_of_cons]%elem_of_app Hi;
    [specialize (Hpre b Hb Hi); lia|lia|by apply Hpost].
Qed.

Lemma is_latest_new v l x :
  x.(att_index) = v → (∀ b, b ∈ l → b.(att_index) = v → b.(att_epoch) < x.(att_epoch)) →
  is_latest v (l ++ [x]) x.
Proof. intros Hx Hl. split; [done|]. exists l, []. split_and!; [done..|]. by intros b Hb%elem_of_nil. Qed.

Lemma vote_of_not_default a : a.(att_root) ≠ hash_zero → vote_of a ≠ VoteTracker.default.
Proof. intros Ha [=]. done. Qed.

Lemma attest_tracks v l x fc :
  (∀ a, a ∈ l ++ [x] → a.(att_root) ≠ hash_zero) →
  tracks v l fc → tracks v (l ++ [x]) (attest x fc).2.
Proof.
  intros Hz Ht. unfold tracks in *. destruct (decide (x.(att_index) = v)) as [<-|Hne].
  - destruct (attest_self x fc) as (vote & Hv & ->). right.
    assert ((vote = VoteTracker.default ∧ ∀ a, a ∈ l → a.(att_index) ≠ x.(att_index)) ∨
            ∃ a, is_latest x.(att_index) l a ∧ vote = vote_of a) as Hvote.
    { destruct (_ !! _) as [w|]; simpl in Hv; subst vote; [exact Ht|by left]. }
    destruct Hvote as [[-> Hno]|(a & Hl & ->)].
    + exists x. split; [|by rewrite bool_decide_eq_true_2, orb_true_r].
      apply is_latest_new; [done|]. intros b Hb Hi. by destruct (Hno b Hb).
    + assert (a ∈ l) as Hal by (destruct Hl as (_ & ? & ? & -> & _); set_solver).
      rewrite bool_decide_eq_false_2, orb_false_r by (apply vote_of_not_default, Hz; set_solver).
      simpl. destruct (Z.ltb_spec a.(att_epoch) x.(att_epoch)).
      * exists x. split; [|done]. apply is_latest_new; [done|]. intros b Hb Hi.
        pose proof (is_latest_max _ _ _ b Hl Hb Hi). lia.
      * exists a. split; [|done]. apply is_latest_snoc; [done|lia].
  - assert ((∀ a, a ∈ l → a.(att_index) ≠ v) → ∀ a, a ∈ l ++ [x] → a.(att_index) ≠ v) as Hext.
    { intros Hno a [Ha|Ha%list_elem_of_singleton]%elem_of_app; [by apply Hno|by subst a]. }
    destruct (attest_other x v fc Hne) as [->|[Hnone ->]].
    + destruct (_ !! v) as [w|]; [|by apply Hext].
      destruct Ht as [[-> Hno]|(a & Hl & ->)]; [left; split; [done|by apply Hext]|right].
      exists a. split; [by apply is_latest_snoc|done].
    + rewrite Hnone in Ht. left. split; [done|by apply Hext].
Qed.

Lemma attest_all_tracks v l fc :
  fc.(ForkChoice.votes) = [] → (∀ a, a ∈ l → a.(att_root) ≠ hash_zero) →
  ∃ fc', for_each l attest fc = (Ok tt, fc') ∧ tracks v l fc'.
Proof.
  intros H0 Hz. apply (for_each_total attest (fun l' => tracks v l')).
  - unfold tracks. rewrite H0. simpl. by intros a Ha%elem_of_nil.
  - intros pre x rest s -> Ht. exists (attest x s).2. split; [apply attest_run|].
    apply attest_tracks; [|done]. intros a Ha. apply Hz. set_solver.
Qed.

(** The latest message is the latest.  After any sequence of attestations
    for non-zero roots, in any interleaving of the validators, no call fails and
    the latest message of each validator is the first of its attestations with
    the greatest target epoch; a validator that never attested has none. *)
Theorem latest_message_correct l fc v :
  fc.(ForkChoice.votes) = [] → (∀ a, a ∈ l → a.(att_root) ≠ hash_zero) →
  ∃ fc', for_each l attest fc = (Ok tt, fc') ∧
    ((latest_message fc' v = None ∧ ∀ a, a ∈ l → a.(att_index) ≠ v) ∨
     ∃ a, is_latest v l a ∧ latest_message fc' v = Some (a.(att_root), a.(att_epoch))).
Proof.
  intros H0 Hz. destruct (attest_all_tracks v l fc H0 Hz) as (fc' & Hrun & Ht).
  exists fc'. split; [done|]. unfold tracks, latest_message in *.
  destruct (_ !! v) as [vote|]; [|by left]. destruct Ht as [[-> Hno]|(a & Hl & ->)]; [by left|].
  right. exists a. split; [done|]. rewrite bool_decide_eq_false_2; [done|].
  apply vote_of_not_default, Hz. destruct Hl as (_ & ? & ? & -> & _). set_solver.
Qed.

Definition ex_history : list attestation :=
  [mkAtt 1 12 3 96 false; mkAtt 0 11 3 97 false; mkAtt 1 13 2 64 false; mkAtt 1 14 3 98 true].



(** Validator 0 moves from block 12 to block 13 while its balance grows. *)
Definition ex_moved : list VoteTracker.t :=
  [VoteTracker.set_next 13 2 70 false (VoteTracker.advance (vote_of (mkAtt 0 12 1 40 false)))].


Lemma attest_keeps_current v l : 
  keeps (fun fc => ∀ vote, fc.(ForkChoice.votes) !! v = Some vote →
           vote.(VoteTracker.current_root) = hash_zero) (for_each l attest).
Proof.
  apply keeps_for_each. intros x _ fc Hfc vote Hv. destruct (decide (x.(att_index) = v)) as [<-|Hne].
  - destruct (attest_self x fc) as (w & Hw & Hs). rewrite Hs in Hv. apply (inj Some) in Hv as <-.
    assert (w.(VoteTracker.current_root) = hash_zero) as Hz.
    { destruct (_ !! _) as [w'|] eqn:Hl; simpl in Hw; subst w; [by apply Hfc|done]. }
    by destruct (_ || _).
  - destruct (attest_other x v fc Hne) as [Heq|[_ Heq]]; rewrite Heq in Hv; [by apply Hfc|].
    by apply (inj Some) in Hv as <-.
Qed.

Lemma update_equivocating old new equivocating v vote :
  v ∈ equivocating → (update_vote old new equivocating v vote).(VoteTracker.current_root) = hash_zero.
Proof.
  intros Hv. unfold update_vote. rewrite bool_decide_eq_true_2 by done.
  destruct (Z.eqb_spec vote.(VoteTracker.current_root) hash_zero) as [E|E]; simpl; [|done].
  by destruct (_ =? _).
Qed.

Lemma votes_for_without v votes balances root :
  root ≠ hash_zero → (∀ vote, votes !! v = Some vote → vote.(VoteTracker.current_root) = hash_zero) →
  votes_for votes balances root = votes_for votes (<[v := 0]> balances) root.
Proof.
  intros Hr Hv. unfold votes_for. apply zsum_ext. intros i _. destruct (votes !! i) as [vote|] eqn:Hi; [|done].
  destruct (decide (i = v)) as [->|Hne].
  - rewrite (Hv _ Hi). replace (hash_zero =? root) with false; [done|]. symmetry. by apply Z.eqb_neq.
  - unfold balance_of. by rewrite list_lookup_insert_ne.
Qed.

(** C27. Equivocation is final.  Once a validator is among the equivocating ones
    at a head computation, its vote counts for no block: setting its balance to
    zero changes no block's votes, and this stays so whatever it attests to
    before the next head computation. *)
Theorem equivocation_is_final v votes old new balances equivocating l fc root :
  v ∈ equivocating → root ≠ hash_zero →
  let votes1 := apply_vote_updates votes old new equivocating in
  let votes2 := (for_each l attest (ForkChoice.set_votes votes1 fc)).2.(ForkChoice.votes) in
  votes_for votes1 balances root = votes_for votes1 (<[v := 0]> balances) root ∧
  votes_for votes2 balances root = votes_for votes2 (<[v := 0]> balances) root.
Proof.
  intros Hv Hr votes1 votes2.
  assert (∀ vote, votes1 !! v = Some vote → vote.(VoteTracker.current_root) = hash_zero) as H1.
  { intros vote. unfold votes1, apply_vote_updates. rewrite list_lookup_imap.
    destruct (votes !! v) as [w|]; simpl; intros [= <-]. by apply update_equivocating. }
  split; apply votes_for_without; [done..|]. 
  apply (attest_keeps_current v l (ForkChoice.set_votes votes1 fc)). by destruct fc.
Qed.

(** Validator 0 equivocated and attests again; only validator 1 counts. *)
Lemma equivocation_is_final_witness :
  let votes1 := apply_vote_updates (ex_moved ++ [vote_of (mkAtt 1 13 2 70 false)]) [31; 31] [31; 31] {[0%nat]} in
  let votes2 := (for_each [mkAtt 0 13 9 300 false] attest
                   (from_parts ex_array votes1 JustifiedBalances.default)).2.(ForkChoice.votes) in
  votes_for votes2 [31; 31] 13 = 31 ∧ votes_for votes2 [0; 31] 13 = 31.
Proof.
  intros votes1 votes2.
  destruct (equivocation_is_final 0 (ex_moved ++ [vote_of (mkAtt 1 13 2 70 false)]) [31; 31] [31; 31]
    [31; 31] {[0%nat]} [mkAtt 0 13 9 300 false] (from_parts ex_array [] JustifiedBalances.default) 13)
    as [_ H2]; [set_solver|done|].
  assert (votes_for votes2 [31; 31] 13 = 31) as Hv by (vm_compute; reflexivity).
  split; [done|]. rewrite <-Hv. symmetry. exact H2.
Defined.
