(* ===== verification/LmdGhost.v ===== *)
(** * LMD-GHOST

    The two passes of [find_head] together: on an array whose weights are the
    balances of the current votes, the new weights are the balances of the new
    votes, summed over the subtree of each block, and the head is where the
    GHOST rule ends. *)
From S2P Require Import Prelude Sums SlotEpoch ProtoArrayDefs ProtoArrayWf ProtoArrayWalk.
From S2P Require Import ProtoArrayExec ProtoArrayScore ProtoArrayGhost ForkChoiceDefs ComputeDeltas.

Implicit Types (pa : ProtoArray.t) (n : ProtoNode.t) (fc : ForkChoice.t).

(** Sum of [g] over the subtree of [k]. *)
Definition subtree_sum (ns : list ProtoNode.t) (g : nat → Z) (k : nat) : Z :=
  zsum (fun j => gate (ancb ns k j) (g j)) (seq 0 (length ns)).

(** What node [j] carries by itself: the balance of its votes and the boost;
    nothing when its payload is invalid. *)
Definition own_weight pa (votes : list VoteTracker.t) (balances : list Z) (b : ProposerBoost.t)
    (j : nat) : Z :=
  match pa.(ProtoArray.nodes) !! j with
  | Some n => gate (negb (is_invalid n.(status)))
                (votes_for votes balances n.(ProtoNode.root) + boost_at b n)
  | None => 0
  end.

(** The LMD weight of block [k]. *)
Definition lmd_weight pa votes balances b (k : nat) : Z :=
  subtree_sum pa.(ProtoArray.nodes) (own_weight pa votes balances b) k.

(** The weights of [fc] are up to date with its current votes: a block that is
    not invalid weighs its votes and boost and what its children weigh. *)
Definition scored fc : Prop := let pa := fc.(ForkChoice.proto_array) in
  ∀ k n, pa.(ProtoArray.nodes) !! k = Some n → is_invalid n.(status) = false →
  n.(ProtoNode.weight) =
    votes_for fc.(ForkChoice.votes) fc.(ForkChoice.balances).(JustifiedBalances.effective_balances)
      n.(ProtoNode.root)
    + boost_at pa.(ProtoArray.previous_proposer_boost) n
    + child_sum pa.(ProtoArray.nodes) (weight_at pa) k.

(** [pa] under given checkpoints and weights, with the links of [pa]. *)
Definition reweigh pa (jc fin : Checkpoint.t) (W : nat → Z) : ProtoArray.t :=
  ProtoArray.set_nodes (imap (fun i n => ProtoNode.set_weight (W i) n) pa.(ProtoArray.nodes))
    (ProtoArray.set_checkpoints jc fin pa).

(** No block has the zero root, which stands for genesis in votes. *)
Definition roots_ok pa : Prop := ∀ i n,
  pa.(ProtoArray.nodes) !! i = Some n → n.(ProtoNode.root) ≠ hash_zero.

(** ** Sums over subtrees *)
Section subtree.
Context (pa : ProtoArray.t) (Hok : tree_ok pa).
Let ns := pa.(ProtoArray.nodes).

Lemma ancb_true k j : (j < length ns)%nat → ancb ns k j = true ↔ anc ns k j.
Proof using Hok. apply ancb_spec. done. Qed.

Lemma childb_iff k c : childb ns k c = true ↔ child_of ns k c.
Proof using. apply childb_true. Qed.

Lemma anc_two_children k c c' j :
  child_of ns k c → child_of ns k c' → anc ns c j → anc ns c' j → c = c'.
Proof using Hok.
  intros Hc Hc' Ha Ha'.
  assert (∀ a b, child_of ns k a → child_of ns k b → anc ns a b → a = b) as Haux.
  { intros a b Hka (nb & Hb & Hpb) Hab. destruct Hab as [|b n p Hn Hp Hap]; [done|].
    assert (p = k) as -> by congruence. apply (anc_le _ _ _ Hok) in Hap.
    apply (child_lt _ _ _ Hok) in Hka. lia. }
  destruct (anc_linear _ _ _ _ Hok Ha Ha') as [H|H]; [by apply Haux|symmetry; by apply Haux].
Qed.

(** The number of children of [k] above [j] is one for a proper descendant. *)
Lemma children_above k j :
  (k < length ns)%nat → (j < length ns)%nat →
  zsum (fun c => gate (childb ns k c && ancb ns c j) 1) (seq 0 (length ns))
  = gate (ancb ns k j && negb (k =? j)%nat) 1.
Proof using Hok.
  intros Hk Hj. destruct (ancb ns k j && negb (k =? j)%nat) eqn:Ha.
  - apply andb_true_iff in Ha as [Ha Hne]. apply ancb_true in Ha; [|done].
    apply negb_true_iff, Nat.eqb_neq in Hne.
    destruct (anc_inv_child _ _ _ Hok Ha Hne) as (c & Hc & Hcj).
    rewrite (zsum_single _ _ c); [|apply NoDup_seq| |].
    + cbv beta. by rewrite (proj2 (childb_iff k c) Hc), (proj2 (ancb_true c j Hj) Hcj).
    + apply elem_of_seq. apply child_lt_length in Hc. unfold ns. lia.
    + intros c' _ Hne'. unfold gate. destruct (childb ns k c') eqn:Hc'; [|done].
      destruct (ancb ns c' j) eqn:Hcj'; [|done]. exfalso. apply Hne'.
      apply childb_iff in Hc'. apply ancb_true in Hcj'; [|done].
      by eapply anc_two_children.
  - apply zsum_zero. intros c _. unfold gate. destruct (childb ns k c && ancb ns c j) eqn:Hb; [|done].
    apply andb_true_iff in Hb as [Hc Hcj]. apply childb_iff in Hc. apply ancb_true in Hcj; [|done].
    pose proof (anc_child _ _ _ _ Hc Hcj Hk) as Hkj. apply (ancb_true k j Hj) in Hkj.
    rewrite Hkj in Ha. simpl in Ha. apply negb_false_iff, Nat.eqb_eq in Ha. subst j.
    apply (child_lt _ _ _ Hok) in Hc. apply (anc_le _ _ _ Hok) in Hcj. lia.
Qed.

Lemma subtree_sum_unfold g k :
  (k < length ns)%nat →
  subtree_sum ns g k = g k + child_sum ns (subtree_sum ns g) k.
Proof using Hok.
  intros Hk. unfold child_sum, subtree_sum.
  rewrite (zsum_ext (fun c => gate (childb ns k c) _)
    (fun c => zsum (fun j => gate (childb ns k c && ancb ns c j) 1 * g j) (seq 0 (length ns)))).
  2:{ intros c _. destruct (childb ns k c); simpl.
      - apply zsum_ext. intros j _. unfold gate. case_match; lia.
      - symmetry. apply zsum_zero. done. }
  rewrite zsum_exchange.
  assert (∀ j, j ∈ seq 0 (length ns) →
    gate (ancb ns k j) (g j) = gate (k =? j)%nat (g j)
      + zsum (fun c => gate (childb ns k c && ancb ns c j) 1 * g j) (seq 0 (length ns))) as Hj.
  { intros j [_ Hj]%elem_of_seq.
    assert (zsum (fun c => gate (childb ns k c && ancb ns c j) 1 * g j) (seq 0 (length ns))
      = zsum (fun c => gate (childb ns k c && ancb ns c j) 1) (seq 0 (length ns)) * g j) as ->.
    { induction (seq 0 (length ns)) as [|x l IH]; [done|]. rewrite !zsum_cons, IH. lia. }
    rewrite children_above by (done || lia). unfold gate.
    destruct (Nat.eqb_spec k j) as [->|Hne]; simpl; rewrite ?andb_false_r, ?andb_true_r.
    - rewrite (proj2 (ancb_true j j Hj)) by (by constructor). lia.
    - case_match; lia. }
  rewrite (zsum_ext _ _ _ Hj), zsum_add. f_equal.
  rewrite (zsum_single _ _ k); [by rewrite Nat.eqb_refl|apply NoDup_seq|apply elem_of_seq; lia|].
  intros y _ Hy. by destruct (Nat.eqb_spec k y).
Qed.

Lemma subtree_sum_nonneg g k : (∀ j, 0 ≤ g j) → 0 ≤ subtree_sum ns g k.
Proof using. intros Hg. apply zsum_nonneg. intros j _. unfold gate. case_match; [apply Hg|done]. Qed.

Lemma subtree_sum_le g k :
  (∀ j, 0 ≤ g j) → subtree_sum ns g k ≤ zsum g (seq 0 (length ns)).
Proof using. intros Hg. apply zsum_le. intros j _. unfold gate. case_match; [done|apply Hg]. Qed.
End subtree.

(** ** Totals *)
Section totals.
Context (pa : ProtoArray.t) (Hok : tree_ok pa).
Let N := length pa.(ProtoArray.nodes).

(** At most one node has a given root. *)
Lemma root_sum_le x b :
  0 ≤ b →
  zsum (fun j => match pa.(ProtoArray.nodes) !! j with
                 | Some n => gate (x =? n.(ProtoNode.root)) b
                 | None => 0
                 end) (seq 0 N) ≤ b.
Proof using Hok.
  intros Hb. destruct (pa.(ProtoArray.indices) !! x) as [i|] eqn:Hi.
  - pose proof (proj1 (indices_ok _ Hok _ _) Hi) as (n & Hn & Hr).
    rewrite (zsum_single _ _ i); [|apply NoDup_seq| |].
    + rewrite Hn. unfold gate. case_match; lia.
    + apply elem_of_seq. apply lookup_lt_Some in Hn. unfold N. lia.
    + intros j _ Hne. destruct (_ !! j) as [nj|] eqn:Hj; [|done]. unfold gate.
      destruct (Z.eqb_spec x nj.(ProtoNode.root)) as [->|]; [|done].
      apply (node_indices _ _ _ Hok) in Hj. congruence.
  - rewrite zsum_zero; [done|]. intros j _. destruct (_ !! j) as [nj|] eqn:Hj; [|done].
    unfold gate. destruct (Z.eqb_spec x nj.(ProtoNode.root)) as [->|]; [|done].
    apply (node_indices _ _ _ Hok) in Hj. congruence.
Qed.

Definition votes_at votes balances (j : nat) : Z :=
  match pa.(ProtoArray.nodes) !! j with
  | Some n => votes_for votes balances n.(ProtoNode.root)
  | None => 0
  end.

Lemma votes_for_nonneg votes balances root : balances_ok balances → 0 ≤ votes_for votes balances root.
Proof using.
  intros Hb. apply zsum_nonneg. intros v _. destruct (votes !! v); [|done]. unfold gate.
  case_match; [apply Hb|done].
Qed.

Lemma votes_total_le votes balances :
  balances_ok balances →
  zsum (votes_at votes balances) (seq 0 N) ≤ total_of balances (length votes).
Proof using Hok.
  intros Hb. unfold votes_at.
  rewrite (zsum_ext _ (fun j => zsum (fun v => match votes !! v with
    | Some vote => match pa.(ProtoArray.nodes) !! j with
                   | Some n => gate (vote.(VoteTracker.current_root) =? n.(ProtoNode.root)) (balance_of balances v)
                   | None => 0 end
    | None => 0 end) (seq 0 (length votes)))).
  - rewrite zsum_exchange. apply zsum_le. intros v _.
    destruct (votes !! v) as [vote|]; [by apply root_sum_le, Hb|].
    rewrite zsum_zero; [apply Hb|done].
  - intros j _. destruct (_ !! j) as [n|]; [done|]. symmetry. apply zsum_zero. intros v _.
    by destruct (votes !! v).
Qed.

Definition boost_of (b : ProposerBoost.t) (j : nat) : Z :=
  match pa.(ProtoArray.nodes) !! j with Some n => boost_at b n | None => 0 end.

Lemma boost_total_le b : 0 ≤ b.(ProposerBoost.score) → zsum (boost_of b) (seq 0 N) ≤ b.(ProposerBoost.score).
Proof using Hok.
  intros Hb. etransitivity; [|apply (root_sum_le b.(ProposerBoost.root) _ Hb)].
  apply zsum_le. intros j _. unfold boost_of, boost_at. destruct (_ !! j) as [n|]; [|done].
  unfold gate. destruct (negb _); simpl; [done|]. case_match; lia.
Qed.

Lemma boost_of_nonneg b j : 0 ≤ b.(ProposerBoost.score) → 0 ≤ boost_of b j.
Proof using. intros Hb. unfold boost_of, boost_at, gate. repeat case_match; lia. Qed.

Lemma own_weight_bounds votes balances b j :
  balances_ok balances → 0 ≤ b.(ProposerBoost.score) →
  0 ≤ own_weight pa votes balances b j ≤ votes_at votes balances j + boost_of b j.
Proof using.
  intros Hb Hs. pose proof (boost_of_nonneg b j Hs) as Hbo. revert Hbo.
  unfold own_weight, votes_at, boost_of. destruct (_ !! j) as [n|]; [|lia].
  pose proof (votes_for_nonneg votes balances n.(ProtoNode.root) Hb).
  unfold gate. case_match; lia.
Qed.

Lemma lmd_weight_bounds votes balances b k :
  balances_ok balances → 0 ≤ b.(ProposerBoost.score) →
  0 ≤ lmd_weight pa votes balances b k ≤ total_of balances (length votes) + b.(ProposerBoost.score).
Proof using Hok.
  intros Hb Hs. pose proof (own_weight_bounds votes balances b) as Hown. split.
  - apply subtree_sum_nonneg. intros j. by apply Hown.
  - etransitivity; [apply subtree_sum_le; intros j; by apply Hown|].
    etransitivity; [apply zsum_le; intros j _; by apply Hown|]. rewrite zsum_add.
    pose proof (votes_total_le votes balances Hb). pose proof (boost_total_le b Hs). unfold N in *. lia.
Qed.
End totals.

(** The numbers of a head computation fit an [i64]: all balances before and
    after, both boosts, and what invalid blocks still weigh. *)
Record bounded fc (new : list Z) (score : Z) : Prop := {
  bd_old : balances_ok fc.(ForkChoice.balances).(JustifiedBalances.effective_balances);
  bd_new : balances_ok new;
  bd_weight : ∀ i n, fc.(ForkChoice.proto_array).(ProtoArray.nodes) !! i = Some n →
    0 ≤ n.(ProtoNode.weight) ≤ i64_max;
  bd_prev : 0 ≤ fc.(ForkChoice.proto_array).(ProtoArray.previous_proposer_boost).(ProposerBoost.score);
  bd_score : 0 ≤ score;
  bd_sum :
    total_of fc.(ForkChoice.balances).(JustifiedBalances.effective_balances) (length fc.(ForkChoice.votes))
    + total_of new (length fc.(ForkChoice.votes))
    + fc.(ForkChoice.proto_array).(ProtoArray.previous_proposer_boost).(ProposerBoost.score) + score
    + zsum (fun i => match fc.(ForkChoice.proto_array).(ProtoArray.nodes) !! i with
                     | Some n => gate (is_invalid n.(status)) n.(ProtoNode.weight)
                     | None => 0
                     end) (seq 0 (length fc.(ForkChoice.proto_array).(ProtoArray.nodes)))
    ≤ i64_max;
}.

(** Assigning equal checkpoints changes nothing. *)
Lemma set_checkpoints_when pa jc fin :
  when (bool_decide (jc ≠ pa.(ProtoArray.justified_checkpoint))
        || bool_decide (fin ≠ pa.(ProtoArray.finalized_checkpoint)))
    (modify (E:=Error.t) (ProtoArray.set_checkpoints jc fin)) pa
  = (Ok tt, ProtoArray.set_checkpoints jc fin pa).
Proof.
  unfold when. destruct (bool_decide _ || bool_decide _) eqn:H; [done|].
  apply orb_false_iff in H as [H1%bool_decide_eq_false H2%bool_decide_eq_false].
  apply dec_stable in H1, H2. unfold mret, M_ret. f_equal. rewrite H1, H2. by destruct pa.
Qed.

(** ** One head computation *)
Section head.
Context (spe : Z) (fc : ForkChoice.t).
Let pa := fc.(ForkChoice.proto_array).
Let old := fc.(ForkChoice.balances).(JustifiedBalances.effective_balances).
Context (Hwf : wf pa) (Hst : status_ok pa) (Hroots : roots_ok pa) (Hscored : scored fc).
Context (jc fin : Checkpoint.t) (jb : JustifiedBalances.t) (r : Hash256)
  (equivocating : gset nat) (slot : Slot) (spec : ChainSpec.t) (score : Z).
Let new := jb.(JustifiedBalances.effective_balances).
Context (Hscore : boost_score spe jb spec score) (Hbd : bounded fc new score).
Let votes' := apply_vote_updates fc.(ForkChoice.votes) old new equivocating.
Let nb := ProposerBoost.mk r score.
Let T := lmd_weight pa votes' new nb.
Let Hok : tree_ok pa := wf_tree _ Hwf.

Lemma votes'_length : length votes' = length fc.(ForkChoice.votes).
Proof using. unfold votes', apply_vote_updates. by rewrite length_imap. Qed.

Lemma totals_nonneg b m : balances_ok b → 0 ≤ total_of b m.
Proof using. intros Hb. apply zsum_nonneg. intros. apply Hb. Qed.

Lemma invalid_total_nonneg :
  0 ≤ zsum (fun i => match pa.(ProtoArray.nodes) !! i with
                     | Some n => gate (is_invalid n.(status)) n.(ProtoNode.weight)
                     | None => 0
                     end) (seq 0 (length pa.(ProtoArray.nodes))).
Proof using Hbd.
  apply zsum_nonneg. intros i _. destruct (_ !! i) as [n|] eqn:Hn; [|done].
  pose proof (bd_weight _ _ _ Hbd _ _ Hn). unfold gate. case_match; lia.
Qed.

(** An invalid block weighs nothing, all its descendants being invalid. *)
Lemma lmd_invalid k n :
  pa.(ProtoArray.nodes) !! k = Some n → is_invalid n.(status) = true → T k = 0.
Proof using Hwf Hst.
  intros Hn Hinv. apply zsum_zero. intros j [_ Hj]%elem_of_seq. unfold gate.
  destruct (ancb _ k j) eqn:Ha; [|done]. apply (ancb_true _ Hok) in Ha; [|done].
  unfold own_weight. destruct (_ !! j) as [nj|] eqn:Hnj; [|done].
  by rewrite (invalid_descendants pa Hst Hok k j n nj).
Qed.

Lemma lmd_unfold k n :
  pa.(ProtoArray.nodes) !! k = Some n → is_invalid n.(status) = false →
  T k = votes_for votes' new n.(ProtoNode.root) + boost_at nb n + child_sum pa.(ProtoArray.nodes) T k.
Proof using Hwf.
  intros Hn Hinv. unfold T, lmd_weight. rewrite (subtree_sum_unfold pa Hok) by (by eapply lookup_lt_Some).
  unfold own_weight at 1. by rewrite Hn, Hinv.
Qed.

Lemma lmd_target ds :
  (∀ j n, pa.(ProtoArray.nodes) !! j = Some n → n.(ProtoNode.root) ≠ hash_zero →
     delta_at ds j = votes_for votes' new n.(ProtoNode.root)
                     - votes_for fc.(ForkChoice.votes) old n.(ProtoNode.root)) →
  weight_target (ProtoArray.set_checkpoints jc fin pa) ds nb T.
Proof using Hwf Hst Hroots Hscored.
  intros Hds k n Hn. change (pa.(ProtoArray.nodes) !! k = Some n) in Hn.
  pose proof (Hroots _ _ Hn) as Hz. destruct (Z.eqb_spec n.(ProtoNode.root) hash_zero); [done|].
  destruct (is_invalid n.(status)) eqn:Hinv; [by eapply lmd_invalid|].
  rewrite (lmd_unfold _ _ Hn Hinv), (Hds _ _ Hn Hz), (Hscored _ _ Hn Hinv). fold pa.
  unfold weight_at. simpl. fold old.
  change (child_sum pa.(ProtoArray.nodes) (fun c => T c - _)) with
    (child_sum pa.(ProtoArray.nodes) (fun c => T c - weight_at pa c)).
  assert (child_sum pa.(ProtoArray.nodes) (fun c => T c - weight_at pa c) k
    = child_sum pa.(ProtoArray.nodes) T k - child_sum pa.(ProtoArray.nodes) (weight_at pa) k) as ->.
  { unfold child_sum. rewrite <-zsum_sub. apply zsum_ext. intros c _. unfold gate. case_match; lia. }
  unfold weight_at. lia.
Qed.

Lemma lmd_fits ds :
  (∀ j n, pa.(ProtoArray.nodes) !! j = Some n → n.(ProtoNode.root) ≠ hash_zero →
     delta_at ds j = votes_for votes' new n.(ProtoNode.root)
                     - votes_for fc.(ForkChoice.votes) old n.(ProtoNode.root)) →
  fits (ProtoArray.set_checkpoints jc fin pa) ds nb T.
Proof using Hwf Hroots Hbd.
  intros Hds. pose proof (bd_old _ _ _ Hbd) as Ho. pose proof (bd_new _ _ _ Hbd) as Hn.
  pose proof (bd_prev _ _ _ Hbd) as Hp. pose proof (bd_score _ _ _ Hbd) as Hs.
  pose proof (bd_sum _ _ _ Hbd) as Hsum. pose proof invalid_total_nonneg as Hinv.
  pose proof (totals_nonneg old (length fc.(ForkChoice.votes)) Ho).
  pose proof (totals_nonneg new (length fc.(ForkChoice.votes)) Hn).
  fold pa old in Hsum, Hp. unfold i64_max in *. split; simpl.
  - apply (bd_weight _ _ _ Hbd).
  - intros i _. pose proof (lmd_weight_bounds pa Hok votes' new nb i Hn Hs) as Hb. simpl in Hb.
    rewrite votes'_length in Hb. unfold i64_max, T. lia.
  - unfold i64_max. lia.
  - unfold i64_max. lia.
  - set (prev := pa.(ProtoArray.previous_proposer_boost)) in *.
    etransitivity; [apply (zsum_le _ (fun i => votes_at pa votes' new i
      + votes_at pa fc.(ForkChoice.votes) old i + (boost_of pa prev i + boost_of pa nb i)
      + match pa.(ProtoArray.nodes) !! i with
        | Some n => gate (is_invalid n.(status)) n.(ProtoNode.weight)
        | None => 0
        end))|].
    + intros i [_ Hi]%elem_of_seq. destruct (lookup_lt_is_Some_2 _ _ Hi) as [n Hn'].
      rewrite (Hds _ _ Hn' (Hroots _ _ Hn')). unfold slack, votes_at, boost_of. simpl.
      rewrite Hn'. fold prev.
      pose proof (votes_for_nonneg votes' new n.(ProtoNode.root) Hn).
      pose proof (votes_for_nonneg fc.(ForkChoice.votes) old n.(ProtoNode.root) Ho). lia.
    + rewrite !zsum_add. pose proof (votes_total_le pa Hok votes' new Hn) as H1.
      pose proof (votes_total_le pa Hok fc.(ForkChoice.votes) old Ho) as H2.
      pose proof (boost_total_le pa Hok prev Hp) as H3.
      pose proof (boost_total_le pa Hok nb Hs) as H4. simpl in H4.
      rewrite votes'_length in H1. unfold i64_max. lia.
Qed.

(** The array between the two passes: new weights, old links. *)
Definition weighed (recorded : Z) : ProtoArray.t :=
  ProtoArray.set_boost (ProposerBoost.mk r recorded)
    (ProtoArray.set_nodes (weigh pa T 0) (ProtoArray.set_checkpoints jc fin pa)).

(** [apply_score_changes] up to its second loop. *)
Lemma apply_score_changes_weights ds :
  length ds = length pa.(ProtoArray.nodes) →
  (∀ j n, pa.(ProtoArray.nodes) !! j = Some n → n.(ProtoNode.root) ≠ hash_zero →
     delta_at ds j = votes_for votes' new n.(ProtoNode.root)
                     - votes_for fc.(ForkChoice.votes) old n.(ProtoNode.root)) →
  ∃ recorded,
    apply_score_changes spe ds jc fin jb r slot spec pa
      = for_each (rev (seq 0 (length pa.(ProtoArray.nodes)))) (link_step spe slot) (weighed recorded) ∧
    ∀ i n, pa.(ProtoArray.nodes) !! i = Some n → is_invalid n.(status) = false →
      boost_at (ProposerBoost.mk r recorded) n = boost_at nb n.
Proof using Hwf Hst Hroots Hscored Hscore Hbd.
  intros Hlen Hds.
  assert (tree_ok (ProtoArray.set_checkpoints jc fin pa)) as Hok' by (by destruct Hok; split).
  destruct (weight_pass_run spe (ProtoArray.set_checkpoints jc fin pa) Hok' jb r spec score Hscore
    ds T (lmd_target ds Hds) (lmd_fits ds Hds) Hlen) as (sl & Hrun & Hi).
  exists sl.(sl_proposer_score). split.
  - unfold apply_score_changes. rewrite (bind_ok_eq _ _ pa pa pa) by done.
    rewrite (size_indices _ Hok), Hlen, Nat.eqb_refl. cbn [negb].
    rewrite (bind_ok_eq _ _ _ _ _ (set_checkpoints_when pa jc fin)).
    rewrite (bind_ok_eq _ _ _ sl.(sl_proposer_score) sl.(sl_array)).
    2:{ unfold zoom. rewrite (bind_ok_eq _ _ _ _ _ Hrun). done. }
    rewrite (bind_ok_eq _ _ _ tt (ProtoArray.set_boost (ProposerBoost.mk r sl.(sl_proposer_score))
      sl.(sl_array))) by done.
    by rewrite (wi_array _ _ _ _ _ _ _ _ Hi).
  - intros i n Hn Hinv. unfold boost_at. simpl. unfold gate.
    destruct (negb (r =? hash_zero) && (r =? n.(ProtoNode.root))) eqn:Hb; [|done].
    destruct (spec.(ChainSpec.proposer_score_boost)) as [pct|] eqn:Hspec.
    + rewrite (wi_score _ _ _ _ _ _ _ _ Hi) by (by rewrite Hspec).
      unfold gate. replace (boosted _ r 0) with true; [done|]. symmetry.
      unfold boosted. apply existsb_exists. exists i. split.
      * apply in_seq. simpl. apply lookup_lt_Some in Hn. lia.
      * simpl. rewrite Hn. simpl in Hb. by rewrite Hb, Hinv.
    + rewrite (wi_score_none _ _ _ _ _ _ _ _ Hi) by done.
      unfold boost_score in Hscore. by rewrite Hspec in Hscore.
Qed.

Lemma weighed_lookup recorded i :
  (weighed recorded).(ProtoArray.nodes) !! i
  = (fun n => ProtoNode.set_weight (T i) n) <$> pa.(ProtoArray.nodes) !! i.
Proof using. simpl. by rewrite weigh_lookup. Qed.

Lemma weighed_linked recorded : linked pa (weighed recorded).
Proof using Hwf.
  assert (frame pa (weighed recorded)) as Hfr.
  { split; [|done]. apply list_eq. intros i. rewrite !list_lookup_fmap, weighed_lookup.
    by destruct (_ !! i). }
  split; [done|]. intros i n Hn. rewrite weighed_lookup in Hn. apply fmap_Some in Hn as (n0 & Hn0 & ->).
  apply (link_wf_same pa.(ProtoArray.nodes)); [by destruct Hfr|].
  destruct (wf_links _ Hwf _ _ Hn0). by split.
Qed.


(** The state after a head computation. *)
Definition head_state (pa' : ProtoArray.t) : ForkChoice.t :=
  ForkChoice.set_gloas_status None (maybe_update_balances jb
    (ForkChoice.set_proto_array pa' (ForkChoice.set_votes votes' fc))).

(** [find_head] reaches its head lookup. *)
Lemma find_head_passes :
  ∃ recorded pa',
    for_each (rev (seq 0 (length pa.(ProtoArray.nodes)))) (link_step spe slot) (weighed recorded)
      = (Ok tt, pa') ∧
    (∀ i n, pa.(ProtoArray.nodes) !! i = Some n → is_invalid n.(status) = false →
       boost_at (ProposerBoost.mk r recorded) n = boost_at nb n) ∧
    linked (weighed recorded) pa' ∧ same_scores (weighed recorded) pa' ∧
    find_head_pre_gloas spe jc fin jb r equivocating slot spec fc
      = (map_err FcError.FindHead (find_head spe pa' jc.(Checkpoint.root) slot), head_state pa').
Proof using Hwf Hst Hroots Hscored Hscore Hbd.
  destruct (compute_deltas_run pa Hok old new equivocating (bd_old _ _ _ Hbd) (bd_new _ _ _ Hbd)
    fc.(ForkChoice.votes)) as (ds & Hds & Hlen & Hval).
  { pose proof (bd_sum _ _ _ Hbd) as H1. pose proof invalid_total_nonneg as H2.
    pose proof (bd_prev _ _ _ Hbd) as H3. pose proof (bd_score _ _ _ Hbd).
    fold pa old in H1, H2, H3. lia. }
  destruct (apply_score_changes_weights ds Hlen Hval) as (recorded & Hrun & Hboost).
  destruct (link_pass_total spe slot (weighed recorded)) as (pa' & Hlink & Hl & Hsc).
  { eapply linked_wf; [done|]. apply weighed_linked. }
  replace (length (weighed recorded).(ProtoArray.nodes)) with (length pa.(ProtoArray.nodes)) in Hlink
    by (apply frame_length, weighed_linked).
  exists recorded, pa'. split_and!; try done.
  unfold find_head_pre_gloas.
  rewrite (bind_ok_eq _ _ fc ds (ForkChoice.set_votes votes' fc)).
  2:{ fold pa old new votes'. by rewrite Hds. }
  rewrite (bind_ok_eq _ _ _ tt (ForkChoice.set_proto_array pa' (ForkChoice.set_votes votes' fc))).
  2:{ unfold on_array. simpl. fold pa. by rewrite Hrun, Hlink. }
  rewrite (bind_ok_eq _ _ _ tt (maybe_update_balances jb
    (ForkChoice.set_proto_array pa' (ForkChoice.set_votes votes' fc)))) by done.
  rewrite (bind_ok_eq _ _ _ tt (head_state pa')) by done.
  rewrite (bind_ok_eq _ _ _ (head_state pa') (head_state pa')) by done.
  unfold lift. f_equal. unfold head_state, maybe_update_balances. by case_match.
Qed.

Lemma head_state_array pa' : (head_state pa').(ForkChoice.proto_array) = pa'.
Proof using. unfold head_state, maybe_update_balances. by case_match. Qed.

Lemma head_state_votes pa' : (head_state pa').(ForkChoice.votes) = votes'.
Proof using. unfold head_state, maybe_update_balances. by case_match. Qed.

(** A node of the final array: its weight is the LMD weight. *)
Lemma passes_node recorded pa' i n' :
  same_scores (weighed recorded) pa' → pa'.(ProtoArray.nodes) !! i = Some n' →
  ∃ n, pa.(ProtoArray.nodes) !! i = Some n ∧ core n = core n' ∧ n'.(ProtoNode.weight) = T i.
Proof using.
  intros Hs Hn'. symmetry in Hs. destruct (same_scores_lookup _ _ _ _ Hs Hn') as (n1 & Hn1 & Hu).
  rewrite weighed_lookup in Hn1. apply fmap_Some in Hn1 as (n & Hn & ->). exists n.
  split_and!; [done| |].
  - exact (eq_sym (unlinked_core _ _ Hu)).
  - by pose proof (f_equal ProtoNode.weight Hu) as Hw.
Qed.

Lemma passes_status_ok recorded pa' :
  same_scores (weighed recorded) pa' → status_ok pa'.
Proof using Hst.
  intros Hs j n p np Hj Hp Hnp.
  destruct (passes_node _ _ _ _ Hs Hj) as (n0 & Hj0 & Hc & _).
  destruct (passes_node _ _ _ _ Hs Hnp) as (np0 & Hnp0 & Hcp & _).
  pose proof (f_equal ProtoNode.execution_status Hc) as H1.
  pose proof (f_equal ProtoNode.execution_status Hcp) as H2.
  pose proof (f_equal ProtoNode.parent Hc) as H3. simpl in H1, H2, H3.
  rewrite <-H3 in Hp. specialize (Hst _ _ _ _ Hj0 Hp Hnp0).
  unfold valid_up, invalid_down in *. by rewrite H1, H2 in Hst.
Qed.

(** After the computation the weights are up to date with the new votes. *)
Lemma passes_scored recorded pa' :
  (∀ i n, pa.(ProtoArray.nodes) !! i = Some n → is_invalid n.(status) = false →
     boost_at (ProposerBoost.mk r recorded) n = boost_at nb n) →
  same_scores (weighed recorded) pa' →
  (head_state pa').(ForkChoice.balances).(JustifiedBalances.effective_balances) = new →
  scored (head_state pa').
Proof using Hwf.
  intros Hboost Hs Hbal k n' Hn' Hinv. rewrite head_state_array in *. rewrite head_state_votes, Hbal.
  destruct (passes_node _ _ _ _ Hs Hn') as (n & Hn & Hc & Hw).
  pose proof (f_equal ProtoNode.execution_status Hc) as H1. simpl in H1. rewrite <-H1 in Hinv.
  pose proof (f_equal ProtoNode.root Hc) as H2. simpl in H2. rewrite <-H2.
  rewrite Hw, (lmd_unfold _ _ Hn Hinv).
  assert (boost_at pa'.(ProtoArray.previous_proposer_boost) n' = boost_at nb n) as ->.
  { destruct Hs as (_ & _ & _ & _ & <-). rewrite <-(Hboost _ _ Hn Hinv). unfold boost_at. simpl.
    by rewrite H2. }
  f_equal. unfold child_sum.
  assert (length pa.(ProtoArray.nodes) = length pa'.(ProtoArray.nodes)) as Hlen.
  { transitivity (length (weighed recorded).(ProtoArray.nodes)).
    - apply frame_length, weighed_linked.
    - by apply frame_length, same_scores_frame. }
  rewrite <-Hlen. apply zsum_ext. intros c [_ Hc']%elem_of_seq.
  destruct (lookup_lt_is_Some_2 pa'.(ProtoArray.nodes) c) as [nc' Hnc']; [lia|].
  destruct (passes_node _ _ _ _ Hs Hnc') as (nc & Hnc & Hcc & Hwc).
  pose proof (f_equal ProtoNode.parent Hcc) as H3. simpl in H3.
  unfold childb, weight_at. by rewrite Hnc, Hnc', H3, Hwc.
Qed.

(** The head, when no stale link survives. *)
Lemma passes_head recorded pa' j nj :
  for_each (rev (seq 0 (length pa.(ProtoArray.nodes)))) (link_step spe slot) (weighed recorded)
    = (Ok tt, pa') →
  all_settled spe slot (reweigh pa jc fin T) →
  pa.(ProtoArray.indices) !! jc.(Checkpoint.root) = Some j → pa.(ProtoArray.nodes) !! j = Some nj →
  is_invalid nj.(status) = false → leads spe slot (reweigh pa jc fin T) j →
  ∃ h nh, ghost spe slot (reweigh pa jc fin T) j h ∧ pa.(ProtoArray.nodes) !! h = Some nh ∧
    find_head spe pa' jc.(Checkpoint.root) slot = Ok nh.(ProtoNode.root).
Proof using Hwf.
  intros Hrun Hset Hj Hnj Hinv Hlead.
  assert (wf (weighed recorded)) as Hwf' by (eapply linked_wf; [done|apply weighed_linked]).
  assert (all_settled spe slot (weighed recorded)) as Hset' by (by apply all_settled_boost).
  destruct (link_pass_run spe slot (weighed recorded) Hwf' Hset') as (pa2 & Hrun2 & Hi).
  replace (length (weighed recorded).(ProtoArray.nodes)) with (length pa.(ProtoArray.nodes)) in Hrun2
    by (apply frame_length, weighed_linked).
  rewrite Hrun in Hrun2. injection Hrun2 as <-.
  destruct (pass_find_head spe slot (weighed recorded) Hwf' Hset' pa' jc.(Checkpoint.root) j
    (ProtoNode.set_weight (T j) nj) Hi) as (h & nh & Hg & Hnh & Hfh);
    [done|by rewrite weighed_lookup, Hnj|done|by apply leads_boost|].
  rewrite weighed_lookup in Hnh. apply fmap_Some in Hnh as (n0 & Hn0 & ->).
  exists h, n0. split_and!; [|done|done]. by eapply ghost_boost.
Qed.
End head.


(** Three validators of the example tree vote for blocks 12, 13 and 14, and
    block 13 has the proposer boost. *)
Definition ex_vote (root : Hash256) : VoteTracker.t :=
  VoteTracker.set_next root 1 5 false VoteTracker.default.
Definition ex_fc : ForkChoice.t :=
  ForkChoice.mk ex_array [ex_vote 12; ex_vote 13; ex_vote 14] JustifiedBalances.default None.
Definition ex_jb : JustifiedBalances.t := JustifiedBalances.mk [3200; 6300; 3100] 12600 3.
Definition ex_spec : ChainSpec.t := ChainSpec.mk (Some 40) None None 512.

Lemma ex_roots : roots_ok ex_array.
Proof.
  intros i n Hn. destruct i as [|[|[|[|[|i]]]]]; vm_compute in Hn; try discriminate Hn;
    apply (inj Some) in Hn; subst n; done.
Qed.

Lemma ex_scored : scored ex_fc.
Proof.
  intros k n Hn _. destruct k as [|[|[|[|[|k]]]]]; vm_compute in Hn; try discriminate Hn;
    apply (inj Some) in Hn; subst n; vm_compute; reflexivity.
Qed.

Lemma ex_boost_score : boost_score ex_spe ex_jb ex_spec 157.
Proof. reflexivity. Qed.

Lemma ex_bounded : bounded ex_fc ex_jb.(JustifiedBalances.effective_balances) 157.
Proof.
  split; [done| | |done|done|vm_compute; discriminate].
  - intros v. unfold balance_of. simpl. destruct v as [|[|[|v]]]; simpl; lia.
  - intros i n Hn. destruct i as [|[|[|[|[|i]]]]]; vm_compute in Hn; try discriminate Hn;
      apply (inj Some) in Hn; subst n; vm_compute; split; discriminate.
Qed.



(** The weighted example tree. *)
Definition ex_tree : ProtoArray.t :=
  reweigh ex_array ex_cp ex_cp
    (lmd_weight ex_array (apply_vote_updates ex_fc.(ForkChoice.votes) [] [3200; 6300; 3100] ∅)
       [3200; 6300; 3100] (ProposerBoost.mk 13 157)).

Lemma ex_tree_viable i : (i < 5)%nat → viable_at ex_spe 6 ex_tree i.
Proof.
  intros Hi. destruct i as [|[|[|[|[|i]]]]]; [..|lia];
    (eexists; split; [vm_compute; reflexivity|vm_compute; reflexivity]).
Qed.

Lemma ex_tree_leads i : (i < 5)%nat → leads ex_spe 6 ex_tree i.
Proof.
  intros Hi. exists i. split; [|by apply ex_tree_viable]. constructor.
  replace (length _) with 5%nat by (vm_compute; reflexivity). done.
Qed.

Lemma ex_tree_settled : all_settled ex_spe 6 ex_tree.
Proof.
  intros i n Hn _ Hno.
  assert (∀ c, (c < 5)%nat → ¬ child_of ex_tree.(ProtoArray.nodes) i c) as Hno'.
  { intros c Hlt Hc. apply (Hno c). split; [done|]. by apply ex_tree_leads. }
  destruct i as [|[|[|[|[|i]]]]]; [destruct (Hno' 1%nat)|destruct (Hno' 2%nat)|destruct (Hno' 4%nat)
    | | |]; try lia; try (eexists; split; vm_compute; reflexivity).
  all: vm_compute in Hn; try discriminate Hn; apply (inj Some) in Hn; subst n; by left.
Qed.

