(* ===== verification/ForkChoiceMaintenance.v ===== *)
(** * Maintenance of the fork choice

    The stored container round-trips; an inserted block is found again; a
    re-org is proposed only under its conditions; and forgetting the execution
    verdicts restores the weight of the blocks that were invalid. *)
From S2P Require Import Prelude Sums SlotEpoch ProtoArrayDefs ProtoArrayWf ProtoArrayWalk.
From S2P Require Import ProtoArrayExec ProtoArrayScore ProtoArrayGhost.
From S2P Require Import ForkChoiceDefs ForkChoiceOps ComputeDeltas LmdGhost.

Implicit Types (pa : ProtoArray.t) (n : ProtoNode.t) (fc : ForkChoice.t).

(** ** Adding weight to a chain *)

(** [pa1] with [w] added to node [j] and its ancestors in the tree [ns]. *)
Definition add_along (ns : list ProtoNode.t) (j : nat) (w : Z) (ns1 : list ProtoNode.t)
    : list ProtoNode.t :=
  imap (fun i n => if ancb ns i j then ProtoNode.set_weight (n.(ProtoNode.weight) + w) n else n) ns1.

Section add_weight.
Context (pa0 : ProtoArray.t) (Hok : tree_ok pa0).

Lemma ancb_root i j n :
  pa0.(ProtoArray.nodes) !! j = Some n → n.(ProtoNode.parent) = None →
  ancb pa0.(ProtoArray.nodes) i j = (i =? j)%nat.
Proof using Hok.
  intros Hn Hp. pose proof (lookup_lt_Some _ _ _ Hn) as Hj. apply eq_true_iff_eq.
  rewrite (ancb_spec pa0 Hok) by done. rewrite Nat.eqb_eq. split.
  - intros Ha. destruct Ha as [|j n' p Hn' Hp' _]; congruence.
  - intros ->. by constructor.
Qed.

Lemma ancb_parent i j n p :
  pa0.(ProtoArray.nodes) !! j = Some n → n.(ProtoNode.parent) = Some p →
  ancb pa0.(ProtoArray.nodes) i j = (i =? j)%nat || ancb pa0.(ProtoArray.nodes) i p.
Proof using Hok.
  intros Hn Hp. pose proof (lookup_lt_Some _ _ _ Hn) as Hj.
  pose proof (parent_lt _ Hok _ _ _ Hn Hp). apply eq_true_iff_eq.
  rewrite orb_true_iff, !(ancb_spec pa0 Hok) by lia. rewrite Nat.eqb_eq. split.
  - intros Ha. destruct Ha as [|j n' p' Hn' Hp' Ha]; [by left|right]. congruence.
  - intros [->|Ha]; [by constructor|]. by eapply anc_step.
Qed.

Lemma add_along_lookup j w ns1 i :
  add_along pa0.(ProtoArray.nodes) j w ns1 !! i =
  (fun n => if ancb pa0.(ProtoArray.nodes) i j
            then ProtoNode.set_weight (n.(ProtoNode.weight) + w) n else n) <$> ns1 !! i.
Proof using. apply list_lookup_imap. Qed.

Lemma add_weight_run w fuel : ∀ j fc1,
  frame pa0 fc1.(ForkChoice.proto_array) → (j < fuel)%nat →
  (j < length pa0.(ProtoArray.nodes))%nat →
  (∀ i n, fc1.(ForkChoice.proto_array).(ProtoArray.nodes) !! i = Some n →
     ancb pa0.(ProtoArray.nodes) i j = true → is_u64 (n.(ProtoNode.weight) + w)) →
  add_weight_to_ancestors fuel w j fc1 =
  (Ok tt, ForkChoice.set_proto_array
    (ProtoArray.set_nodes
       (add_along pa0.(ProtoArray.nodes) j w fc1.(ForkChoice.proto_array).(ProtoArray.nodes))
       fc1.(ForkChoice.proto_array)) fc1).
Proof using Hok.
  induction fuel as [|fuel IH]; intros j fc1 Hfr Hf Hj Hu; [lia|].
  destruct (lookup_lt_is_Some_2 _ _ Hj) as [n0 Hn0].
  destruct (frame_lookup _ _ _ _ Hfr Hn0) as (n & Hn & Hs).
  assert (ancb pa0.(ProtoArray.nodes) j j = true) as Hjj
    by (apply (ancb_spec pa0 Hok); [done|by constructor]).
  simpl. rewrite (bind_ok_eq _ _ fc1 fc1 fc1) by done. rewrite (bind_ok_eq _ _ fc1 n fc1) by (by rewrite Hn).
  rewrite (bind_ok_eq _ _ fc1 (n.(ProtoNode.weight) + w) fc1).
  2:{ unfold lift, u64_checked_add. by rewrite (checked_u64_in _ (Hu _ _ Hn Hjj)). }
  rewrite (bind_ok_eq _ _ fc1 tt (alter_fc_node (ProtoNode.set_weight (n.(ProtoNode.weight) + w)) j fc1)) by done.
  rewrite <-(static_parent _ _ Hs). destruct n0.(ProtoNode.parent) as [p|] eqn:Hp.
  - pose proof (parent_lt _ Hok _ _ _ Hn0 Hp) as Hlt.
    assert (∀ i, ancb pa0.(ProtoArray.nodes) i p = true → i ≠ j) as Hnej.
    { intros i Ha ->. apply (ancb_spec pa0 Hok) in Ha; [|lia]. apply (anc_le _ _ _ Hok) in Ha. lia. }
    rewrite IH; [|by apply frame_alter|lia|lia|].
    + unfold ForkChoice.set_proto_array, alter_fc_node. simpl. do 2 f_equal. unfold ProtoArray.set_nodes. simpl.
      f_equal. apply list_eq. intros i. rewrite !add_along_lookup, (ancb_parent i j n0 p Hn0 Hp).
      destruct (Nat.eqb_spec i j) as [->|Hne]; simpl.
      * rewrite list_lookup_alter_eq, Hn. simpl. destruct (ancb _ j p) eqn:Ha; [|done].
        by apply Hnej in Ha.
      * by rewrite list_lookup_alter_ne.
    + intros i ni Hi Ha. pose proof (Hnej i Ha). simpl in Hi. rewrite list_lookup_alter_ne in Hi by done.
      apply (Hu i ni Hi). rewrite (ancb_parent i j n0 p Hn0 Hp), Ha. apply orb_true_r.
  - unfold mret, M_ret, alter_fc_node. do 2 f_equal. unfold ProtoArray.alter_node. f_equal.
    apply list_eq. intros i. rewrite add_along_lookup, (ancb_root i j n0 Hn0 Hp).
    destruct (Nat.eqb_spec i j) as [->|Hne].
    + by rewrite list_lookup_alter_eq, Hn.
    + rewrite list_lookup_alter_ne by done. by destruct (_ !! i).
Qed.
End add_weight.

(** ** Forgetting verdicts *)

Definition forget_status (s : ExecutionStatus.t) : ExecutionStatus.t :=
  match s with
  | ExecutionStatus.Valid h | ExecutionStatus.Invalid h | ExecutionStatus.Optimistic h =>
      ExecutionStatus.Optimistic h
  | ExecutionStatus.Irrelevant b => ExecutionStatus.Irrelevant b
  end.

Lemma zsum_imap {A} (f : nat → A → Z) (l : list A) :
  foldr Z.add 0 (imap f l) =
  zsum (fun v => match l !! v with Some x => f v x | None => 0 end) (seq 0 (length l)).
Proof.
  revert f. induction l as [|x l IH]; intros f; [done|].
  cbn [imap foldr length seq]. rewrite zsum_cons. cbn [lookup list_lookup]. f_equal.
  rewrite (IH (f ∘ S)), <-seq_shift, zsum_map. by apply zsum_ext.
Qed.

Lemma ancb_same ns ns' a i : same_tree ns ns' → ancb ns a i = ancb ns' a i.
Proof.
  intros Hs. unfold ancb. generalize i at 1 3 as fuel. intros fuel. revert i.
  induction fuel as [|fuel IH]; intros i; simpl; [done|]. case_match; [done|].
  destruct (ns !! i) as [n|] eqn:Hn.
  - destruct (same_tree_lookup _ _ _ _ Hs Hn) as (n' & -> & Heq).
    rewrite (static_parent _ _ Heq). by case_match.
  - destruct (ns' !! i) as [n'|] eqn:Hn'; [|done]. symmetry in Hs.
    destruct (same_tree_lookup _ _ _ _ Hs Hn') as (n & ? & _). congruence.
Qed.

Lemma set_boost_same pa : ProtoArray.set_boost pa.(ProtoArray.previous_proposer_boost) pa = pa.
Proof. by destruct pa. Qed.

Lemma set_proto_array_same fc : ForkChoice.set_proto_array fc.(ForkChoice.proto_array) fc = fc.
Proof. by destruct fc. Qed.

Section forget.
Context (spe : Z) (spec : ChainSpec.t) (pct score : Z) (fc : ForkChoice.t).
Let pa := fc.(ForkChoice.proto_array).
Let ns := pa.(ProtoArray.nodes).
Let N := length ns.
Let bal := fc.(ForkChoice.balances).(JustifiedBalances.effective_balances).
Let votes := fc.(ForkChoice.votes).
Let prev := pa.(ProtoArray.previous_proposer_boost).
Context (Hok : tree_ok pa) (Hroots : roots_ok pa) (Hbal : balances_ok bal).
Context (Hspec : spec.(ChainSpec.proposer_score_boost) = Some pct).
Context (Hscore : calculate_committee_fraction spe fc.(ForkChoice.balances) pct = Some score).
Context (Hs0 : 0 ≤ score) (Hp0 : 0 ≤ prev.(ProposerBoost.score)).
Context (Hbound : total_of bal (length votes) + prev.(ProposerBoost.score) + score ≤ u64_max).
Context (Hlmd : ∀ i n, ns !! i = Some n → n.(ProtoNode.weight) = lmd_weight pa votes bal prev i).

(** What an invalid node gets back. *)
Definition restored n : Z :=
  votes_for votes bal n.(ProtoNode.root) + gate (prev.(ProposerBoost.root) =? n.(ProtoNode.root)) score.

(** What node [i] has got back when the nodes at or after [k] are done. *)
Definition returned_at (k i j : nat) : Z :=
  match ns !! j with
  | Some nj => gate ((k <=? j)%nat && is_invalid nj.(status) && ancb ns i j) (restored nj)
  | None => 0
  end.
Definition returned (k i : nat) : Z := zsum (returned_at k i) (seq 0 N).

Definition boost_found (k : nat) : bool :=
  existsb (fun j => (k <=? j)%nat && match ns !! j with
    | Some nj => is_invalid nj.(status) && (prev.(ProposerBoost.root) =? nj.(ProtoNode.root))
    | None => false
    end) (seq 0 N).

Definition forget_node (k i : nat) n : ProtoNode.t :=
  ProtoNode.update n n.(ProtoNode.parent) (n.(ProtoNode.weight) + returned k i)
    n.(ProtoNode.best_child) n.(ProtoNode.best_descendant)
    (if (k <=? i)%nat then forget_status n.(status) else n.(status)).

Definition forget_array (k : nat) : ProtoArray.t :=
  ProtoArray.set_boost
    (if boost_found k then ProposerBoost.mk prev.(ProposerBoost.root) score else prev)
    (ProtoArray.set_nodes (imap (forget_node k) ns) pa).

Lemma restored_nonneg n : 0 ≤ restored n.
Proof using Hbal Hs0.
  unfold restored. pose proof (votes_for_nonneg votes bal n.(ProtoNode.root) Hbal).
  unfold gate. case_match; lia.
Qed.

Lemma restored_votes_eq fc1 n :
  fc1.(ForkChoice.votes) = votes → fc1.(ForkChoice.balances) = fc.(ForkChoice.balances) →
  restored_votes fc1 n.(ProtoNode.root) = votes_for votes bal n.(ProtoNode.root).
Proof using Hbal Hbound Hs0 Hp0.
  intros Hv Hb. unfold restored_votes. rewrite Hv, Hb, zsum_imap. fold bal.
  change (as_u64 (votes_for votes bal n.(ProtoNode.root)) = votes_for votes bal n.(ProtoNode.root)).
  apply as_u64_small. split; [by apply votes_for_nonneg|].
  assert (votes_for votes bal n.(ProtoNode.root) ≤ total_of bal (length votes)); [|lia].
  apply zsum_le. intros v _. destruct (votes !! v); [|apply Hbal]. unfold gate. case_match; [done|apply Hbal].
Qed.

(** The weights on the way stay in range. *)
Lemma returned_bound k i n :
  ns !! i = Some n → is_u64 (n.(ProtoNode.weight) + returned k i) ∧ 0 ≤ returned k i.
Proof using Hok Hroots Hbal Hbound Hs0 Hp0 Hlmd.
  intros Hn.
  assert (0 ≤ returned k i) as Hr.
  { apply zsum_nonneg. intros j _. unfold returned_at. destruct (ns !! j) as [nj|]; [|done].
    pose proof (restored_nonneg nj). unfold gate. case_match; lia. }
  pose proof (lmd_weight_bounds pa Hok votes bal prev i Hbal Hp0) as [Hw _].
  split; [|done]. rewrite (Hlmd _ _ Hn). split; [lia|].
  etransitivity; [|exact Hbound]. unfold lmd_weight, subtree_sum, returned. fold ns. fold N.
  rewrite <-zsum_add.
  etransitivity; [apply zsum_le with (g := fun j => votes_at pa votes bal j
    + (boost_of pa prev j + boost_of pa (ProposerBoost.mk prev.(ProposerBoost.root) score) j))|].
  - intros j _. unfold own_weight, returned_at, votes_at, boost_of. fold ns.
    destruct (ns !! j) as [nj|] eqn:Hj; [|unfold gate; case_match; lia].
    pose proof (votes_for_nonneg votes bal nj.(ProtoNode.root) Hbal).
    pose proof (boost_of_nonneg pa prev j Hp0) as B1.
    pose proof (boost_of_nonneg pa (ProposerBoost.mk prev.(ProposerBoost.root) score) j Hs0) as B2.
    unfold boost_of in B1, B2. fold ns in B1, B2. rewrite Hj in B1, B2.
    destruct (ancb ns i j); rewrite ?andb_false_r, ?andb_true_r; simpl; [|lia].
    destruct (is_invalid nj.(status)); rewrite ?andb_false_r, ?andb_true_r; simpl; [|lia].
    unfold gate at 1. case_match; [|lia]. unfold restored.
    assert (gate (prev.(ProposerBoost.root) =? nj.(ProtoNode.root)) score
      ≤ boost_at (ProposerBoost.mk prev.(ProposerBoost.root) score) nj); [|lia].
    unfold boost_at. simpl. unfold gate.
    destruct (Z.eqb_spec prev.(ProposerBoost.root) nj.(ProtoNode.root)) as [E|]; [|case_match; lia].
    rewrite E. destruct (Z.eqb_spec nj.(ProtoNode.root) hash_zero); [|done].
    by destruct (Hroots _ _ Hj).
  - rewrite !zsum_add. pose proof (votes_total_le pa Hok votes bal Hbal).
    pose proof (boost_total_le pa Hok prev Hp0).
    pose proof (boost_total_le pa Hok (ProposerBoost.mk prev.(ProposerBoost.root) score) Hs0) as H3.
    simpl in H3. unfold N, ns. lia.
Qed.

Lemma returned_next k i n :
  ns !! k = Some n →
  returned k i = returned (S k) i + gate (is_invalid n.(status) && ancb ns i k) (restored n).
Proof using.
  intros Hn. pose proof (lookup_lt_Some _ _ _ Hn) as Hlt. unfold returned.
  rewrite (zsum_seq_update (returned_at k i) (returned_at (S k) i) N k); [|done|].
  - unfold returned_at. rewrite Hn. destruct (Nat.leb_spec k k), (Nat.leb_spec (S k) k); try lia.
    simpl. lia.
  - intros j Hne. unfold returned_at. destruct (ns !! j); [|done].
    by destruct (Nat.leb_spec k j), (Nat.leb_spec (S k) j); try lia.
Qed.

Lemma boost_found_next k n :
  ns !! k = Some n →
  boost_found k = (is_invalid n.(status) && (prev.(ProposerBoost.root) =? n.(ProtoNode.root)))
                  || boost_found (S k).
Proof using.
  intros Hn. pose proof (lookup_lt_Some _ _ _ Hn) as Hlt. apply eq_true_iff_eq.
  unfold boost_found. rewrite orb_true_iff, !existsb_exists. split.
  - intros (j & Hj & [Hle H]%andb_true_iff). apply Nat.leb_le in Hle.
    destruct (decide (j = k)) as [->|]; [left; by rewrite Hn in H|right].
    exists j. split; [done|]. apply andb_true_iff. split; [apply Nat.leb_le; lia|done].
  - intros [H|(j & Hj & [Hle H]%andb_true_iff)].
    + exists k. split; [apply in_seq; unfold N, ns in *; lia|]. by rewrite Nat.leb_refl, Hn.
    + apply Nat.leb_le in Hle. exists j. split; [done|]. apply andb_true_iff.
      split; [apply Nat.leb_le; lia|done].
Qed.

Lemma forget_lookup k i : (forget_array k).(ProtoArray.nodes) !! i = forget_node k i <$> ns !! i.
Proof using. simpl. apply list_lookup_imap. Qed.

Lemma forget_frame k : frame pa (forget_array k).
Proof using.
  split; [|done]. apply list_eq. intros i. rewrite !list_lookup_fmap, forget_lookup. fold ns.
  by destruct (ns !! i).
Qed.

(** The step from [k + 1] to [k], as one update of the array. *)
Lemma forget_array_next k n :
  ns !! k = Some n →
  forget_array k =
  ProtoArray.set_boost
    (if is_invalid n.(status) && (prev.(ProposerBoost.root) =? n.(ProtoNode.root))
     then ProposerBoost.mk prev.(ProposerBoost.root) score
     else (forget_array (S k)).(ProtoArray.previous_proposer_boost))
    (ProtoArray.set_nodes
       (let ns1 := alter (ProtoNode.set_status (forget_status n.(status))) k
                     (forget_array (S k)).(ProtoArray.nodes) in
        if is_invalid n.(status) then add_along ns k (restored n) ns1 else ns1) pa).
Proof using.
  intros Hn. unfold forget_array at 1. rewrite (boost_found_next _ _ Hn).
  unfold ProtoArray.set_boost, ProtoArray.set_nodes. simpl. f_equal; [|by repeat case_match].
  apply list_eq. intros i. rewrite list_lookup_imap.
  assert (∀ ns1, (∀ j, ns1 !! j = (fun m => ProtoNode.update m m.(ProtoNode.parent)
      (m.(ProtoNode.weight) + returned (S k) j) m.(ProtoNode.best_child) m.(ProtoNode.best_descendant)
      (if (k <=? j)%nat then forget_status m.(status) else m.(status))) <$> ns !! j) →
    (forget_node k i <$> ns !! i) = (if is_invalid n.(status) then add_along ns k (restored n) ns1 else ns1) !! i)
    as Hstep.
  { intros ns1 H1. destruct (is_invalid n.(status)) eqn:Hinv.
    - unfold add_along. rewrite list_lookup_imap, H1. destruct (ns !! i) as [m|] eqn:Hm; [|done]. simpl.
      unfold forget_node. rewrite (returned_next _ i _ Hn), Hinv. unfold gate. simpl.
      destruct (ancb ns i k); simpl; [|by rewrite Z.add_0_r].
      unfold ProtoNode.set_weight, ProtoNode.update. simpl. do 2 f_equal. lia.
    - rewrite H1. destruct (ns !! i) as [m|] eqn:Hm; [|done]. simpl.
      unfold forget_node. rewrite (returned_next _ i _ Hn), Hinv. simpl. by rewrite Z.add_0_r. }
  apply Hstep. intros j. destruct (decide (k = j)) as [<-|Hne].
  - rewrite list_lookup_alter_eq, list_lookup_imap, Hn. unfold fmap, option_fmap, option_map.
    unfold forget_node. rewrite Nat.leb_refl. destruct (Nat.leb_spec (S k) k); [lia|]. done.
  - rewrite list_lookup_alter_ne, list_lookup_imap by done. destruct (ns !! j) as [m|]; [|done].
    unfold fmap, option_fmap, option_map, forget_node.
    by destruct (Nat.leb_spec k j), (Nat.leb_spec (S k) j); try lia.
Qed.

(** The fork choice when the nodes at or after [k] are done. *)
Definition forget_fc (k : nat) : ForkChoice.t := ForkChoice.set_proto_array (forget_array k) fc.

Lemma forget_node_at k n :
  ns !! k = Some n →
  (forget_fc (S k)).(ForkChoice.proto_array).(ProtoArray.nodes) !! k
  = Some (ProtoNode.set_weight (n.(ProtoNode.weight) + returned (S k) k) n).
Proof using.
  intros Hn. change ((forget_array (S k)).(ProtoArray.nodes) !! k
    = Some (ProtoNode.set_weight (n.(ProtoNode.weight) + returned (S k) k) n)).
  rewrite forget_lookup, Hn. unfold fmap, option_fmap, option_map, forget_node.
  by destruct (Nat.leb_spec (S k) k); [lia|].
Qed.

Lemma add_along_zero j ns1 : add_along ns j 0 ns1 = ns1.
Proof using.
  apply list_eq. intros i. unfold add_along. rewrite list_lookup_imap.
  destruct (ns1 !! i) as [n|]; [|done]. simpl. case_match; [|done].
  rewrite Z.add_0_r. by destruct n.
Qed.

(** The walk that gives an invalid node its weight back. *)
Lemma add_weight_back k n fc1 :
  ns !! k = Some n → frame pa fc1.(ForkChoice.proto_array) → is_invalid n.(status) = true →
  (∀ i m, fc1.(ForkChoice.proto_array).(ProtoArray.nodes) !! i = Some m →
     ∃ m0, ns !! i = Some m0 ∧ m.(ProtoNode.weight) = m0.(ProtoNode.weight) + returned (S k) i) →
  when (0 <? restored n) (add_weight_to_ancestors (S N) (restored n) k) fc1
  = (Ok tt, ForkChoice.set_proto_array (ProtoArray.set_nodes
      (add_along ns k (restored n) fc1.(ForkChoice.proto_array).(ProtoArray.nodes))
      fc1.(ForkChoice.proto_array)) fc1).
Proof using Hok Hroots Hbal Hbound Hs0 Hp0 Hlmd.
  intros Hn Hfr Hinv Hw. pose proof (lookup_lt_Some _ _ _ Hn) as Hlt. unfold when.
  destruct (Z.ltb_spec 0 (restored n)) as [Hpos|Hneg].
  - apply (add_weight_run pa Hok); [done|unfold N in *; lia|done|].
    intros i m Hm Ha. destruct (Hw _ _ Hm) as (m0 & Hm0 & ->).
    destruct (returned_bound k i m0 Hm0) as [Hb _]. rewrite (returned_next _ _ _ Hn), Hinv in Hb.
    fold ns in Ha. rewrite Ha in Hb. simpl in Hb. by rewrite <-Z.add_assoc.
  - pose proof (restored_nonneg n). replace (restored n) with 0 by lia.
    rewrite add_along_zero, set_nodes_same. by destruct fc1.
Qed.

Lemma optimistic_step_run k n :
  ns !! k = Some n → optimistic_step spe spec k (forget_fc (S k)) = (Ok tt, forget_fc k).
Proof using Hok Hroots Hbal Hbound Hs0 Hp0 Hlmd Hspec Hscore.
  intros Hn. unfold optimistic_step. set (fc1 := forget_fc (S k)).
  rewrite (bind_ok_eq _ _ fc1 fc1 fc1) by done.
  pose proof (forget_node_at k n Hn) as Hk. fold fc1 in Hk.
  rewrite (bind_ok_eq _ _ fc1 _ fc1) by (unfold lift; by rewrite Hk).
  unfold forget_fc. rewrite (forget_array_next k n Hn).
  cbn [ProtoNode.set_weight ProtoNode.update ProtoNode.execution_status ProtoNode.root].
  destruct n.(status) as [h|h|h|b] eqn:Hst; cbn [is_invalid andb forget_status].
  1, 3: done.
  - (* invalid *)
    set (fc2 := alter_fc_node (ProtoNode.set_status (ExecutionStatus.Optimistic h)) k fc1).
    rewrite (bind_ok_eq _ _ fc1 tt fc2) by done.
    rewrite (restored_votes_eq fc1 n) by done.
    assert (∀ b, when (0 <? restored n) (add_weight_to_ancestors (S N) (restored n) k)
      (ForkChoice.set_proto_array (ProtoArray.set_boost b fc2.(ForkChoice.proto_array)) fc2)
      = (Ok tt, ForkChoice.set_proto_array (ProtoArray.set_nodes
          (add_along ns k (restored n) fc2.(ForkChoice.proto_array).(ProtoArray.nodes))
          (ProtoArray.set_boost b fc2.(ForkChoice.proto_array))) fc2)) as Hback.
    { intros b. rewrite (add_weight_back k n); [done|done| |by rewrite Hst|].
      - apply (frame_alter pa); [done|]. apply forget_frame.
      - intros i m Hm. simpl in Hm. destruct (decide (k = i)) as [<-|Hne].
        + rewrite list_lookup_alter_eq, list_lookup_imap, Hn in Hm. apply (inj Some) in Hm as <-. eauto.
        + rewrite list_lookup_alter_ne, list_lookup_imap in Hm by done.
          apply fmap_Some in Hm as (m0 & Hm0 & ->). eauto. }
    assert (fc1.(ForkChoice.proto_array).(ProtoArray.previous_proposer_boost).(ProposerBoost.root)
      = prev.(ProposerBoost.root)) as Hroot by (simpl; by case_match).
    replace (length fc1.(ForkChoice.proto_array).(ProtoArray.nodes)) with N
      by (simpl; by rewrite length_imap).
    rewrite Hspec. cbv zeta. rewrite Hroot. unfold restored in Hback |- *.
    pose proof (votes_for_nonneg votes bal n.(ProtoNode.root) Hbal).
    destruct (Z.eqb_spec prev.(ProposerBoost.root) n.(ProtoNode.root)) as [E|E]; cbn [gate] in Hback |- *.
    + set (fc3 := ForkChoice.set_proto_array (ProtoArray.set_boost
        (ProposerBoost.mk prev.(ProposerBoost.root) score) fc2.(ForkChoice.proto_array)) fc2).
      rewrite (bind_ok_eq _ _ fc2 (votes_for votes bal n.(ProtoNode.root) + score) fc3).
      2:{ rewrite (bind_ok_eq _ _ fc2 score fc2) by (unfold lift; simpl; by rewrite Hscore).
          rewrite (bind_ok_eq _ _ fc2 tt fc3) by done. unfold lift, u64_checked_add.
          rewrite checked_u64_in; [done|]. split; [lia|].
          assert (votes_for votes bal n.(ProtoNode.root) ≤ total_of bal (length votes)); [|lia].
          apply zsum_le. intros v _. destruct (votes !! v); [|apply Hbal]. unfold gate.
          case_match; [done|apply Hbal]. }
      etransitivity; [exact (Hback (ProposerBoost.mk prev.(ProposerBoost.root) score))|]. done.
    + rewrite (bind_ok_eq _ _ fc2 (votes_for votes bal n.(ProtoNode.root)) fc2) by done.
      rewrite Z.add_0_r in Hback.
      specialize (Hback (if boost_found (S k) then ProposerBoost.mk prev.(ProposerBoost.root) score else prev)).
      simpl in Hback. rewrite Z.add_0_r. exact Hback.
  - (* pre-merge *)
    unfold mret, M_ret. f_equal. unfold fc1, forget_fc. f_equal.
    unfold forget_array, ProtoArray.set_boost, ProtoArray.set_nodes. simpl. f_equal.
    apply list_eq. intros i. destruct (decide (k = i)) as [<-|Hne].
    + rewrite list_lookup_alter_eq, list_lookup_imap, Hn. unfold fmap, option_fmap, option_map.
      f_equal. unfold forget_node. destruct (Nat.leb_spec (S k) k); [lia|].
      unfold ProtoNode.set_status, ProtoNode.update. simpl. by rewrite Hst.
    + by rewrite list_lookup_alter_ne.
Qed.

Lemma forget_start : forget_fc N = fc.
Proof using.
  unfold forget_fc, forget_array.
  assert (boost_found N = false) as ->.
  { apply not_true_is_false. unfold boost_found. rewrite existsb_exists.
    intros (j & [_ Hj]%in_seq & [Hle _]%andb_true_iff). apply Nat.leb_le in Hle. lia. }
  assert (imap (forget_node N) ns = ns) as ->.
  { apply list_eq. intros i. rewrite list_lookup_imap. destruct (ns !! i) as [n|] eqn:Hn; [|done].
    unfold fmap, option_fmap, option_map. f_equal. unfold forget_node.
    apply lookup_lt_Some in Hn. destruct (Nat.leb_spec N i); [unfold N in *; lia|].
    unfold returned. rewrite zsum_zero; [rewrite Z.add_0_r; by destruct n|].
    intros j [_ Hj]%elem_of_seq. unfold returned_at. destruct (ns !! j); [|done].
    by destruct (Nat.leb_spec N j); [lia|]. }
  unfold ns. rewrite set_nodes_same. unfold prev. rewrite set_boost_same. apply set_proto_array_same.
Qed.

Lemma forget_run : set_all_blocks_to_optimistic spe spec fc = (Ok tt, forget_fc 0).
Proof using Hok Hroots Hbal Hbound Hs0 Hp0 Hlmd Hspec Hscore.
  unfold set_all_blocks_to_optimistic. rewrite (bind_ok_eq _ _ fc fc fc) by done. fold pa ns N.
  destruct (for_rev_total (optimistic_step spe spec) (fun k s => s = forget_fc k) N fc)
    as (s & Hrun & ->); [by rewrite forget_start| |done].
  intros k s Hk ->. destruct (lookup_lt_is_Some_2 _ _ Hk) as [n Hn].
  eexists. split; [by eapply optimistic_step_run|done].
Qed.

(** Every weight is again the LMD weight, no block being invalid. *)
Lemma forget_weights i n :
  ns !! i = Some n →
  n.(ProtoNode.weight) + returned 0 i =
  lmd_weight (forget_array 0) votes bal (forget_array 0).(ProtoArray.previous_proposer_boost) i.
Proof using Hok Hroots Hlmd.
  intros Hn. rewrite (Hlmd _ _ Hn). unfold lmd_weight, subtree_sum, returned. fold ns. fold N.
  rewrite <-zsum_add.
  assert (length (forget_array 0).(ProtoArray.nodes) = N) as -> by (simpl; by rewrite length_imap).
  apply zsum_ext. intros j _.
  rewrite <-(ancb_same ns (forget_array 0).(ProtoArray.nodes)) by (by destruct (forget_frame 0)).
  unfold own_weight. rewrite forget_lookup. fold ns. unfold returned_at.
  destruct (ns !! j) as [nj|] eqn:Hj; [|unfold gate; simpl; by case_match].
  unfold fmap, option_fmap, option_map, forget_node. cbn [Nat.leb]. simpl.
  assert (is_invalid (forget_status nj.(status)) = false) as -> by (by destruct nj.(status)).
  assert (∀ j' nj', ns !! j' = Some nj' → is_invalid nj'.(status) = true →
    prev.(ProposerBoost.root) = nj'.(ProtoNode.root) → boost_found 0 = true) as Hfound.
  { intros j' nj' Hj' Hi' Hr'. unfold boost_found. apply existsb_exists. exists j'.
    split; [apply in_seq; apply lookup_lt_Some in Hj'; unfold N; lia|].
    simpl. rewrite Hj', Hi', Hr'. simpl. apply Z.eqb_refl. }
  destruct (ancb ns i j); rewrite ?andb_false_r, ?andb_true_r; simpl; [|done].
  destruct (is_invalid nj.(status)) eqn:Hinv; simpl.
  - unfold restored, boost_at. simpl.
    destruct (Z.eqb_spec prev.(ProposerBoost.root) nj.(ProtoNode.root)) as [E|E].
    + rewrite (Hfound j nj Hj Hinv E). simpl. rewrite E, Z.eqb_refl.
      destruct (Z.eqb_spec nj.(ProtoNode.root) hash_zero); [by destruct (Hroots _ _ Hj)|]. simpl. lia.
    + assert ((ProposerBoost.root (if boost_found 0 then ProposerBoost.mk prev.(ProposerBoost.root) score
        else prev)) = prev.(ProposerBoost.root)) as -> by (by case_match).
      destruct (Z.eqb_spec prev.(ProposerBoost.root) nj.(ProtoNode.root)); [done|].
      rewrite andb_false_r. simpl. lia.
  - rewrite Z.add_0_r. f_equal. unfold boost_at. simpl.
    destruct (boost_found 0) eqn:Hb; [|done]. simpl. unfold gate.
    destruct (Z.eqb_spec prev.(ProposerBoost.root) nj.(ProtoNode.root)) as [E|E];
      rewrite ?andb_false_r; [|done]. exfalso.
    unfold boost_found in Hb. apply existsb_exists in Hb as (j' & _ & [_ Hb]%andb_true_iff).
    destruct (ns !! j') as [nj'|] eqn:Hj'; [|done]. apply andb_true_iff in Hb as [Hi' Hr'].
    apply Z.eqb_eq in Hr'. apply (node_indices _ _ _ Hok) in Hj as Hx.
    apply (node_indices _ _ _ Hok) in Hj' as Hx'. congruence.
Qed.
End forget.

(** ** The stored container *)

Lemma collect_map_rev l : collect_map l = list_to_map (rev l).
Proof.
  induction l as [|[k v] l IH] using rev_ind; [done|].
  unfold collect_map in *. rewrite foldl_app, rev_app_distr. simpl. by rewrite IH.
Qed.

Lemma collect_map_perm (m : gmap Z nat) l : l ≡ₚ map_to_list m → collect_map l = m.
Proof.
  intros Hp. rewrite collect_map_rev, <-(list_to_map_to_list m).
  assert (rev l ≡ₚ map_to_list m) as Hp' by (by rewrite <-Permutation_rev).
  apply list_to_map_proper; [|done]. rewrite Hp'. apply NoDup_fst_map_to_list.
Qed.

(** The container with its index pairs in another order. *)
Definition reorder (idx : list (Hash256 * nat)) (c : SszContainer.t) : SszContainer.t :=
  SszContainer.mk c.(SszContainer.votes) c.(SszContainer.prune_threshold)
    c.(SszContainer.justified_checkpoint) c.(SszContainer.finalized_checkpoint)
    c.(SszContainer.nodes) idx c.(SszContainer.previous_proposer_boost).

(** Storing a fork choice and loading it back restores the block tree, its
    index, the votes and the recorded boost, in whatever order the hash map was
    written; the balances are those supplied on load and the Gloas head status
    is unset. *)
Theorem container_roundtrip fc idx balances :
  idx ≡ₚ (as_ssz_container fc).(SszContainer.indices) →
  from_container (reorder idx (as_ssz_container fc)) balances
  = ForkChoice.mk fc.(ForkChoice.proto_array) fc.(ForkChoice.votes) balances None.
Proof.
  intros Hp. unfold from_container, from_parts. simpl. f_equal.
  rewrite (collect_map_perm fc.(ForkChoice.proto_array).(ProtoArray.indices)) by done.
  by destruct fc.(ForkChoice.proto_array).
Qed.


(** A block accepted by [process_block] is found again: if its root is new
    and its parent is a known block that is not invalid, [process_block]
    succeeds and [get_block] then returns the same block. *)
Theorem process_block_get_block spe fc block slot pr p np :
  wf fc.(ForkChoice.proto_array) → status_ok fc.(ForkChoice.proto_array) →
  fc.(ForkChoice.proto_array).(ProtoArray.indices) !! block.(Block.root) = None →
  block.(Block.parent_root) = Some pr →
  fc.(ForkChoice.proto_array).(ProtoArray.indices) !! pr = Some p →
  fc.(ForkChoice.proto_array).(ProtoArray.nodes) !! p = Some np → is_invalid np.(status) = false →
  ∃ fc', process_block spe block slot fc = (Ok tt, fc') ∧ get_block fc' block.(Block.root) = Some block.
Proof.
  intros Hwf Hst Hnew Hpr Hp Hnp Hinv. set (pa := fc.(ForkChoice.proto_array)) in *.
  pose proof (wf_tree _ Hwf) as Hok.
  destruct (on_block_new_ends spe pa block slot Hwf Hst Hnew) as (pa' & Hrun & _ & Hfr & Hlast).
  { intros p' np' Hp' Hnp'. simpl in Hp'. rewrite Hpr in Hp'. simpl in Hp'. congruence. }
  exists (ForkChoice.set_proto_array pa' fc). split.
  { unfold process_block. rewrite bool_decide_eq_false_2 by (by rewrite Hpr).
    unfold on_array. fold pa. by rewrite Hrun. }
  pose proof (lookup_lt_Some _ _ _ Hnp) as Hlt.
  assert (pa'.(ProtoArray.indices) !! block.(Block.root) = Some (length pa.(ProtoArray.nodes))) as Hix.
  { destruct Hfr as [_ <-]. simpl. by rewrite lookup_insert_eq. }
  assert (∃ np', pa'.(ProtoArray.nodes) !! p = Some np' ∧ np'.(ProtoNode.root) = pr) as (np' & Hnp' & Hr').
  { destruct (frame_lookup _ _ p np Hfr) as (np' & Hnp' & Hs).
    - by rewrite push_lookup, decide_False by lia.
    - exists np'. split; [done|]. rewrite <-(static_root _ _ Hs). by eapply indices_node. }
  unfold get_block, get_proto_node. simpl. rewrite Hix. simpl. rewrite Hlast. simpl.
  rewrite Hpr. simpl. rewrite Hp. simpl. rewrite Hnp'. simpl. rewrite Hr'.
  destruct block. simpl in *. by rewrite Hpr.
Qed.


(** Forgetting execution verdicts.  On a fork choice whose weights are the
    LMD weights (those of the last head computation),
    [set_all_blocks_to_optimistic] succeeds, leaves no block valid or invalid
    (post-merge blocks become optimistic), changes nothing else but weights, and
    the new weights are the LMD weights of the tree in which no block is
    invalid, with the boost it records. *)
Theorem set_all_blocks_to_optimistic_correct spe spec pct score fc :
  let pa := fc.(ForkChoice.proto_array) in
  let votes := fc.(ForkChoice.votes) in
  let balances := fc.(ForkChoice.balances).(JustifiedBalances.effective_balances) in
  let prev := pa.(ProtoArray.previous_proposer_boost) in
  tree_ok pa → roots_ok pa → balances_ok balances →
  spec.(ChainSpec.proposer_score_boost) = Some pct →
  calculate_committee_fraction spe fc.(ForkChoice.balances) pct = Some score → 0 ≤ score →
  0 ≤ prev.(ProposerBoost.score) →
  total_of balances (length votes) + prev.(ProposerBoost.score) + score ≤ u64_max →
  (∀ i n, pa.(ProtoArray.nodes) !! i = Some n →
     n.(ProtoNode.weight) = lmd_weight pa votes balances prev i) →
  ∃ pa', set_all_blocks_to_optimistic spe spec fc = (Ok tt, ForkChoice.set_proto_array pa' fc) ∧
    contains_invalid_payloads (ForkChoice.set_proto_array pa' fc) = false ∧
    ∀ i n, pa.(ProtoArray.nodes) !! i = Some n →
      pa'.(ProtoArray.nodes) !! i = Some (ProtoNode.update n n.(ProtoNode.parent)
        (lmd_weight pa' votes balances pa'.(ProtoArray.previous_proposer_boost) i)
        n.(ProtoNode.best_child) n.(ProtoNode.best_descendant) (forget_status n.(status))).
Proof.
  intros pa votes balances prev Hok Hroots Hbal Hspec Hscore Hs Hp Hb Hlmd.
  exists (forget_array score fc 0). split_and!.
  - by eapply forget_run.
  - apply not_true_is_false. unfold contains_invalid_payloads. rewrite existsb_exists.
    intros (n & Hin & Hinv). apply list_elem_of_In, list_elem_of_lookup in Hin as [i Hi].
    change ((forget_array score fc 0).(ProtoArray.nodes) !! i = Some n) in Hi.
    rewrite forget_lookup in Hi. apply fmap_Some in Hi as (n0 & _ & ->). simpl in Hinv.
    by destruct n0.(status).
  - intros i n Hn. rewrite forget_lookup. fold pa. rewrite Hn. unfold fmap, option_fmap, option_map.
    unfold forget_node at 1. by rewrite (forget_weights score fc Hok Hroots Hlmd i n Hn).
Qed.

(** Block 13 of the example tree is invalidated and the head recomputed. *)
Definition ex_invalidated : ForkChoice.t :=
  (find_head_pre_gloas ex_spe ex_cp ex_cp ex_jb 13 ∅ 6 ex_spec
    (process_execution_payload_invalidation ex_spe (InvalidationOperation.InvalidateOne 13) ex_fc).2).2.

Lemma ex_invalidated_tree : tree_ok ex_invalidated.(ForkChoice.proto_array).
Proof.
  apply (tree_ok_same ex_array); [vm_compute; reflexivity|vm_compute; reflexivity|].
  apply wf_tree, ex_array_wf.
Qed.

Lemma ex_invalidated_roots : roots_ok ex_invalidated.(ForkChoice.proto_array).
Proof.
  intros i n Hn. destruct i as [|[|[|[|[|i]]]]]; vm_compute in Hn; try discriminate Hn;
    apply (inj Some) in Hn; subst n; done.
Qed.


(** ** Proposer re-orgs *)

(** The conditions under which block [h] may be re-orged in favour of its
    parent [p] by a proposal at [slot]. *)
Record re_org_conditions (spe : Z) (jb : JustifiedBalances.t) (head_pct parent_pct : Z)
    (disallowed : list Z) (max_epochs : Epoch) (slot : Slot) (h p : ProtoNode.t)
    (th tp : Z) : Prop := {
  rc_parent_slot : se_add p.(ProtoNode.slot) 1 = h.(ProtoNode.slot);
  rc_head_slot : se_add h.(ProtoNode.slot) 1 = slot;
  rc_shuffling : slot mod spe ≠ 0;
  rc_offset : (slot mod spe) ∉ disallowed;
  rc_justified :
    p.(ProtoNode.unrealized_justified_checkpoint) = h.(ProtoNode.unrealized_justified_checkpoint);
  rc_finalized :
    p.(ProtoNode.unrealized_finalized_checkpoint) = h.(ProtoNode.unrealized_finalized_checkpoint);
  rc_finalizing : ∃ fin, h.(ProtoNode.unrealized_finalized_checkpoint) = Some fin ∧
    epoch slot spe - fin.(Checkpoint.epoch) ≤ max_epochs;
  rc_head_threshold : calculate_committee_fraction spe jb head_pct = Some th;
  rc_parent_threshold : calculate_committee_fraction spe jb parent_pct = Some tp;
  rc_head_weak : h.(ProtoNode.weight) < th;
  rc_parent_strong : tp < p.(ProtoNode.weight);
}.

Lemma iter_nodes_two pa r h p :
  tree_ok pa →
  (∃ rest, iter_nodes pa r = h :: p :: rest) ↔
  ∃ i j, pa.(ProtoArray.indices) !! r = Some i ∧ pa.(ProtoArray.nodes) !! i = Some h ∧
    h.(ProtoNode.parent) = Some j ∧ pa.(ProtoArray.nodes) !! j = Some p.
Proof.
  intros Hok. unfold iter_nodes. split.
  - intros [rest Hit]. destruct (length pa.(ProtoArray.nodes)) as [|m]; [done|]. simpl in Hit.
    destruct (pa.(ProtoArray.indices) !! r) as [i|]; simpl in Hit; [|done].
    destruct (pa.(ProtoArray.nodes) !! i) as [n|] eqn:Hn; simpl in Hit; [|done].
    injection Hit as -> Hit. destruct m as [|m]; [done|]. simpl in Hit.
    destruct h.(ProtoNode.parent) as [j|] eqn:Hp; simpl in Hit; [|done].
    destruct (pa.(ProtoArray.nodes) !! j) as [n'|] eqn:Hn'; simpl in Hit; [|done].
    injection Hit as -> _. by exists i, j.
  - intros (i & j & Hr & Hi & Hp & Hj). pose proof (parent_lt _ Hok _ _ _ Hi Hp).
    pose proof (lookup_lt_Some _ _ _ Hi). rewrite Hr.
    destruct (length pa.(ProtoArray.nodes)) as [|[|m]]; [lia..|]. simpl. rewrite Hi. simpl.
    rewrite Hp. simpl. rewrite Hj. simpl. eauto.
Qed.

Lemma existsb_eqb x l : existsb (Z.eqb x) l = true ↔ x ∈ l.
Proof.
  rewrite existsb_exists, list_elem_of_In. split.
  - by intros (y & Hy & ->%Z.eqb_eq).
  - intros Hx. exists x. by rewrite Z.eqb_refl.
Qed.

Lemma proposer_head_info_ok spe fc slot head jb hp pp off max info :
  0 < spe → 0 ≤ max →
  get_proposer_head_info spe fc slot head jb hp pp off max = Ok info ↔
  ∃ h p th tp, (∃ rest, iter_nodes fc.(ForkChoice.proto_array) head = h :: p :: rest) ∧
    info = ProposerHeadInfo.mk h p th tp slot ∧
    se_add p.(ProtoNode.slot) 1 = h.(ProtoNode.slot) ∧
    (se_add h.(ProtoNode.slot) 1 mod spe ≠ 0) ∧ ((se_add h.(ProtoNode.slot) 1 mod spe) ∉ off) ∧
    p.(ProtoNode.unrealized_justified_checkpoint) = h.(ProtoNode.unrealized_justified_checkpoint) ∧
    p.(ProtoNode.unrealized_finalized_checkpoint) = h.(ProtoNode.unrealized_finalized_checkpoint) ∧
    (∃ fin, h.(ProtoNode.unrealized_finalized_checkpoint) = Some fin ∧
       epoch (se_add h.(ProtoNode.slot) 1) spe - fin.(Checkpoint.epoch) ≤ max) ∧
    calculate_committee_fraction spe jb hp = Some th ∧
    calculate_committee_fraction spe jb pp = Some tp.
Proof.
  intros Hspe Hmax. unfold get_proposer_head_info, se_rem, u64_checked_rem.
  destruct (Z.eqb_spec spe 0) as [|_]; [lia|].
  destruct (iter_nodes _ head) as [|h [|p rest]] eqn:Hit.
  1, 2: split; [done|]; intros (h' & p' & th & tp & [rest Hr] & _); congruence.
  unfold mbind, outcome_bind. split.
  - destruct h.(ProtoNode.unrealized_finalized_checkpoint) as [fin|] eqn:Hfin; simpl; [|done].
    case_match eqn:H1; [done|]. case_match eqn:H2; [done|]. case_match eqn:H3; [done|].
    case_match eqn:H4; [done|]. case_match eqn:H5; [done|].
    destruct (calculate_committee_fraction spe jb hp) as [th|]; simpl; [|done].
    destruct (calculate_committee_fraction spe jb pp) as [tp|]; simpl; [|done].
    intros [= <-]. apply negb_false_iff, andb_true_iff in H5 as [H5 H6].
    apply bool_decide_eq_true in H5, H6. btoprop. exists h, p, th, tp.
    split_and!; try done; [by eauto| |congruence|].
    + intros Hin. apply existsb_eqb in Hin. congruence.
    + exists fin. split; [done|]. unfold u64_saturating_sub in H1. lia.
  - intros (h' & p' & th & tp & [rest' [= <- <- _]] & -> & Hps & Hsh & Hoff & Hj & Hf & (fin & Hfin & Hep) & Hth & Htp).
    rewrite Hfin. cbn [ok_or]. unfold u64_saturating_sub.
    destruct (Z.ltb_spec max (Z.max (epoch (se_add h.(ProtoNode.slot) 1) spe - fin.(Checkpoint.epoch)) 0)); [lia|].
    rewrite Hps, Z.eqb_refl. cbn [negb expect].
    destruct (Z.eqb_spec (se_add h.(ProtoNode.slot) 1 mod spe) 0); [done|].
    destruct (existsb _ off) eqn:Ho; [by apply existsb_eqb in Ho|].
    rewrite Hf, Hfin, !bool_decide_eq_true_2 by done. cbn [andb negb]. by rewrite Hth, Htp.
Qed.

(** C35. A re-org is proposed only when it is safe to.  [get_proposer_head]
    answers with a head and its parent exactly when: the head is the canonical
    one and the parent its parent; parent, head and proposal are at consecutive
    slots; the proposal slot does not start an epoch nor falls on a disallowed
    offset; head and parent agree on unrealised justification and finalization;
    the chain is finalizing; the head weighs less and the parent more than the
    configured committee fractions. *)
Theorem get_proposer_head_iff spe fc slot head jb head_pct parent_pct disallowed max_epochs info :
  tree_ok fc.(ForkChoice.proto_array) → 0 < spe → 0 ≤ max_epochs →
  get_proposer_head spe fc slot head jb head_pct parent_pct disallowed max_epochs = Ok info ↔
  ∃ i j h p th tp,
    fc.(ForkChoice.proto_array).(ProtoArray.indices) !! head = Some i ∧
    fc.(ForkChoice.proto_array).(ProtoArray.nodes) !! i = Some h ∧
    h.(ProtoNode.parent) = Some j ∧
    fc.(ForkChoice.proto_array).(ProtoArray.nodes) !! j = Some p ∧
    re_org_conditions spe jb head_pct parent_pct disallowed max_epochs slot h p th tp ∧
    info = ProposerHeadInfo.mk h p th tp slot.
Proof.
  intros Hok Hspe Hmax. unfold get_proposer_head. split.
  - unfold mbind, outcome_bind.
    destruct (get_proposer_head_info _ _ _ _ _ _ _ _ _) as [info'| | |] eqn:Hi; [|done..].
    apply (proposer_head_info_ok _ _ _ _ _ _ _ _ _ _ Hspe Hmax) in Hi
      as (h & p & th & tp & Hit & -> & Hps & Hsh & Hoff & Hj & Hf & Hfin & Hth & Htp).
    cbv zeta. cbn [ProposerHeadInfo.head_node ProposerHeadInfo.parent_node
      ProposerHeadInfo.re_org_head_weight_threshold ProposerHeadInfo.re_org_parent_weight_threshold].
    case_match eqn:H1; [done|]. case_match eqn:H2; [done|]. case_match eqn:H3; [done|].
    intros [= <-]. btoprop. apply (iter_nodes_two _ _ _ _ Hok) in Hit as (i & j & Hr & Hh & Hpar & Hp).
    exists i, j, h, p, th, tp. rewrite H1 in *. split_and!; done.
  - intros (i & j & h & p & th & tp & Hr & Hh & Hpar & Hp & Hc & ->). destruct Hc as [Hps Hhs Hsh Hoff Hj Hf Hfin Hth Htp Hw Hs].
    unfold mbind, outcome_bind.
    rewrite (proj2 (proposer_head_info_ok spe fc slot head jb head_pct parent_pct disallowed max_epochs
      (ProposerHeadInfo.mk h p th tp slot) Hspe Hmax)).
    + cbv zeta. cbn [ProposerHeadInfo.head_node ProposerHeadInfo.parent_node
        ProposerHeadInfo.re_org_head_weight_threshold ProposerHeadInfo.re_org_parent_weight_threshold].
      rewrite Hhs, Z.eqb_refl. cbn [negb].
      rewrite (proj2 (Z.ltb_lt _ _) Hw), (proj2 (Z.ltb_lt _ _) Hs). done.
    + exists h, p, th, tp. rewrite Hhs. split_and!; try done.
      apply (iter_nodes_two _ _ _ _ Hok). by exists i, j.
Qed.

(** A chain 10 <- 11 <- 12 with a weak head 12 on a strong parent 11. *)
Definition ex_ffg_block (root : Z) (parent : option Z) (slot : Z) : Block.t :=
  {| Block.slot := slot; Block.root := root; Block.parent_root := parent;
     Block.state_root := 0; Block.target_root := 10;
     Block.current_epoch_shuffling_id := ex_sid; Block.next_epoch_shuffling_id := ex_sid;
     Block.justified_checkpoint := ex_cp; Block.finalized_checkpoint := ex_cp;
     Block.execution_status := ExecutionStatus.irrelevant;
     Block.unrealized_justified_checkpoint := Some ex_cp;
     Block.unrealized_finalized_checkpoint := Some ex_cp;
     Block.builder_index := None; Block.payload_revealed := false; Block.ptc_weight := 0;
     Block.ptc_blob_data_available_weight := 0; Block.payload_data_available := false;
     Block.bid_block_hash := None; Block.bid_parent_block_hash := None;
     Block.proposer_index := 0; Block.ptc_timely := false; Block.envelope_received := false;
     Block.inclusion_list_satisfied := true |}.

Definition ex_chain : ProtoArray.t :=
  ex_insert (ex_ffg_block 12 (Some 11) 2)
    (ex_insert (ex_ffg_block 11 (Some 10) 1) (ex_insert (ex_ffg_block 10 None 0) ex_empty)).

Definition ex_reorg_fc : ForkChoice.t :=
  ForkChoice.set_proto_array
    (ProtoArray.set_nodes
       (map (fun n => ProtoNode.set_weight (if n.(ProtoNode.root) =? 12 then 10 else 1000) n)
          ex_chain.(ProtoArray.nodes)) ex_chain) ex_fc.

Lemma get_proposer_head_iff_witness :
  ∃ i j h p th tp,
    ex_reorg_fc.(ForkChoice.proto_array).(ProtoArray.indices) !! 12 = Some i ∧
    ex_reorg_fc.(ForkChoice.proto_array).(ProtoArray.nodes) !! i = Some h ∧
    h.(ProtoNode.parent) = Some j ∧
    ex_reorg_fc.(ForkChoice.proto_array).(ProtoArray.nodes) !! j = Some p ∧
    re_org_conditions ex_spe ex_jb 20 160 [0] 2 3 h p th tp ∧
    (∃ info, get_proposer_head ex_spe ex_reorg_fc 3 12 ex_jb 20 160 [0] 2 = Ok info).
Proof.
  assert (tree_ok ex_reorg_fc.(ForkChoice.proto_array)) as Hok.
  { apply (tree_ok_same ex_chain); [vm_compute; reflexivity|vm_compute; reflexivity|].
    apply wf_tree. do 3 apply ex_insert_wf. apply ex_empty_wf. }
  destruct (get_proposer_head ex_spe ex_reorg_fc 3 12 ex_jb 20 160 [0] 2) as [info| | |] eqn:Hg;
    [|vm_compute in Hg; discriminate Hg..].
  pose proof Hg as Hg'. apply (get_proposer_head_iff ex_spe ex_reorg_fc 3 12 ex_jb 20 160 [0] 2 info Hok) in Hg'
    as (i & j & h & p & th & tp & Hi & Hh & Hp & Hj & Hc & _); [|done|done].
  exists i, j, h, p, th, tp. split_and!; try done. by exists info.
Defined.

(** ** Corner cases of the fork choice

    Concrete runs in which the conditions of the head and weight theorems fail:
    balances that change without changing their total, links that outlive an
    invalidation, and verdicts forgotten before the weights were recomputed. *)
(** One head computation from block 10, without boost. *)
Definition run_head (jb : JustifiedBalances.t) (fc : ForkChoice.t)
    : outcome FcError.t Hash256 * ForkChoice.t :=
  find_head_pre_gloas ex_spe ex_cp ex_cp jb hash_zero ∅ 6 ex_spec fc.

Definition run_invalidate (op : InvalidationOperation.t) (fc : ForkChoice.t) : ForkChoice.t :=
  (process_execution_payload_invalidation ex_spe op fc).2.

(** Validator 0 votes for block 11 and validator 1 for block 13. *)
Definition two_votes : ForkChoice.t :=
  ForkChoice.mk ex_array [ex_vote 11; ex_vote 13] JustifiedBalances.default None.
Definition jb_before : JustifiedBalances.t := JustifiedBalances.mk [32; 31] 63 2.
Definition jb_after : JustifiedBalances.t := JustifiedBalances.mk [31; 32] 63 2.

(** The chain 10 <- 11 <- 12, all optimistic but the first. *)
Definition line_array : ProtoArray.t :=
  foldl (fun pa b => ex_insert b pa) ex_empty
    [ ex_block 10 None 0 (ExecutionStatus.Valid 110);
      ex_block 11 (Some 10) 1 (ExecutionStatus.Optimistic 111);
      ex_block 12 (Some 11) 2 (ExecutionStatus.Optimistic 112) ].
Definition line_fc : ForkChoice.t :=
  (run_head jb_before (ForkChoice.mk line_array [] JustifiedBalances.default None)).2.

(** Two children 11 and 12 of block 10, with a vote for 11. *)
Definition fork_array : ProtoArray.t :=
  foldl (fun pa b => ex_insert b pa) ex_empty
    [ ex_block 10 None 0 (ExecutionStatus.Valid 110);
      ex_block 11 (Some 10) 1 (ExecutionStatus.Optimistic 111);
      ex_block 12 (Some 10) 2 (ExecutionStatus.Optimistic 112) ].
Definition fork_fc : ForkChoice.t :=
  (run_head jb_before (ForkChoice.mk fork_array [ex_vote 11] JustifiedBalances.default None)).2.

(** [maybe_update_balances] keeps the old balances when the new ones have
    the same length, total and number of active validators.  Balances 32 and 31
    that swap are therefore never stored, and each further [find_head] with the
    same inputs applies the difference again: block 11, voted for by a balance
    of 31, weighs 31 after the first head computation with the new balances and
    30 after the second. *)
Theorem swapped_balances_drift :
  let fc1 := (run_head jb_before two_votes).2 in
  let fc2 := (run_head jb_after fc1).2 in
  let fc3 := (run_head jb_after fc2).2 in
  get_weight fc1 11 = Some 32 ∧ get_weight fc2 11 = Some 31 ∧ get_weight fc3 11 = Some 30 ∧
  votes_for fc3.(ForkChoice.votes) jb_after.(JustifiedBalances.effective_balances) 11 = 31.
Proof. vm_compute. done. Qed.

(** Invalidating block 11 of the chain 10 <- 11 <- 12 down to the payload of
    block 10 unsets the best child of 10 but not its best descendant, 12.  The
    next head computation keeps that link and fails with [InvalidBestNode],
    although block 10 is viable and valid. *)
Theorem invalidation_keeps_stale_descendant :
  let fc := run_invalidate (InvalidationOperation.InvalidateMany 11 true 110) line_fc in
  let '(head, fc') := run_head jb_before fc in
  (∃ n, fc'.(ForkChoice.proto_array).(ProtoArray.nodes) !! 0%nat = Some n ∧
     n.(ProtoNode.best_child) = None ∧ n.(ProtoNode.best_descendant) = Some 2%nat ∧
     node_is_viable_for_head ex_spe fc'.(ForkChoice.proto_array) n 6 = true) ∧
  ∃ info, head = Err (FcError.FindHead (Error.InvalidBestNode info)).
Proof. vm_compute. split; [eexists; split_and!; reflexivity|eexists; reflexivity]. Qed.

(** When both children of block 10 turn invalid, their weights fall to zero
    and the tie-break by root moves the best-child link of 10 from block 11 to
    block 12 before block 11 is examined.  Neither is viable, the link is never
    unset, and the head computation fails with [InvalidBestNode], although
    block 10 is viable and valid. *)
Theorem invalid_siblings_keep_stale_child :
  let fc := run_invalidate (InvalidationOperation.InvalidateOne 12)
              (run_invalidate (InvalidationOperation.InvalidateOne 11) fork_fc) in
  let '(head, fc') := run_head jb_before fc in
  (∃ n, fc'.(ForkChoice.proto_array).(ProtoArray.nodes) !! 0%nat = Some n ∧
     n.(ProtoNode.best_child) = Some 2%nat ∧
     node_is_viable_for_head ex_spe fc'.(ForkChoice.proto_array) n 6 = true) ∧
  ∃ info, head = Err (FcError.FindHead (Error.InvalidBestNode info)).
Proof. vm_compute. split; [eexists; split_and!; reflexivity|eexists; reflexivity]. Qed.

(** [set_all_blocks_to_optimistic] assumes that an invalid block has weight
    zero.  Called after an invalidation but before the next head computation,
    it adds the restored votes to the weight still there: block 13, with votes
    of 31, ends up with 62. *)
Theorem forget_before_head_double_counts :
  let fc1 := (run_head jb_before two_votes).2 in
  let fc2 := run_invalidate (InvalidationOperation.InvalidateOne 13) fc1 in
  let fc3 := (set_all_blocks_to_optimistic ex_spe ex_spec fc2).2 in
  get_weight fc1 13 = Some 31 ∧ get_weight fc3 13 = Some 62 ∧
  votes_for fc3.(ForkChoice.votes) jb_before.(JustifiedBalances.effective_balances) 13 = 31.
Proof. vm_compute. done. Qed.
