(* ===== verification/GloasDefs.v ===== *)
(** * Head selection after Gloas

    The part of [consensus/proto_array/src/proto_array_fork_choice.rs] that
    chooses the head from the Gloas fork on, and the dispatch of [find_head].

    Correspondence.  Every block stands for three virtual nodes, pending, empty
    and full.  The reusable buffers of [ProtoArrayForkChoice] are the record
    [GloasBuffers.t], whose contents survive from one call to the next.  An
    index [self.votes.0[i]] that is out of range panics.  [debug_assert!] is
    left out, as in release builds. *)
From S2P Require Import Prelude SlotEpoch ProtoArrayDefs ForkChoiceDefs.

Module GloasPayloadStatus.
Inductive t : Type := Empty | Full | Pending.
#[global] Instance eq_dec : EqDecision t.
Proof. solve_decision. Defined.
(** The discriminant, [status as u8]. *)
Definition as_u8 (s : t) : Z := match s with Empty => 0 | Full => 1 | Pending => 2 end.
End GloasPayloadStatus.

Module GloasForkChoiceNode.
Record t : Type := mk { root : Hash256; payload_status : GloasPayloadStatus.t }.
#[global] Instance eq_dec : EqDecision t.
Proof. solve_decision. Defined.
End GloasForkChoiceNode.

Abbreviation GNode := GloasForkChoiceNode.mk (only parsing).
Definition AncestorCache : Type := gmap (Z * Z) (option GloasForkChoiceNode.t).

Module GloasBuffers.
Record t : Type := mk {
  filtered : list bool;
  children : gmap nat (list nat);
  active_votes : list (Z * Z);
  children_result : list GloasForkChoiceNode.t;
  ancestor_cache : AncestorCache;
}.
Definition set_children_result (l : list GloasForkChoiceNode.t) (b : t) : t :=
  mk b.(filtered) b.(children) b.(active_votes) l b.(ancestor_cache).
Definition set_ancestor_cache (c : AncestorCache) (b : t) : t :=
  mk b.(filtered) b.(children) b.(active_votes) b.(children_result) c.
End GloasBuffers.

(** [ProtoArrayForkChoice] with its buffers. *)
Module GloasState.
Record t : Type := mk { fc : ForkChoice.t; bufs : GloasBuffers.t }.
Definition set_fc (fc : ForkChoice.t) (s : t) : t := mk fc s.(bufs).
Definition set_bufs (f : GloasBuffers.t → GloasBuffers.t) (s : t) : t := mk s.(fc) (f s.(bufs)).
End GloasState.

(** [vec.get(i).copied().unwrap_or(false)]. *)
Definition flag_at (flags : list bool) (i : nat) : bool := default false (flags !! i).

(** [x as u32]. *)
Definition as_u32 (z : Z) : Z := z mod 2 ^ 32.

(** ** Children of a virtual node *)
Definition parent_payload_status_of (child parent : ProtoNode.t) : GloasPayloadStatus.t :=
  match child.(ProtoNode.bid_parent_block_hash), parent.(ProtoNode.bid_block_hash) with
  | Some child_parent_hash, Some parent_hash =>
      if child_parent_hash =? parent_hash then GloasPayloadStatus.Full else GloasPayloadStatus.Empty
  | _, _ => GloasPayloadStatus.Empty
  end.

Definition collect_gloas_children (pa : ProtoArray.t) (node : GloasForkChoiceNode.t)
    (filtered_nodes : list bool) (children_index : option (gmap nat (list nat)))
    : list GloasForkChoiceNode.t :=
  let status := node.(GloasForkChoiceNode.payload_status) in
  let root := node.(GloasForkChoiceNode.root) in
  if bool_decide (status = GloasPayloadStatus.Pending) then
    GNode root GloasPayloadStatus.Empty ::
    match (idx ← pa.(ProtoArray.indices) !! root; pa.(ProtoArray.nodes) !! idx) with
    | Some proto_node =>
        if proto_node.(ProtoNode.envelope_received) then [GNode root GloasPayloadStatus.Full] else []
    | None => []
    end
  else
    match pa.(ProtoArray.indices) !! root with
    | None => []
    | Some parent_idx =>
        match pa.(ProtoArray.nodes) !! parent_idx with
        | None => []
        | Some parent_node =>
            let pending child_node :=
              if bool_decide (parent_payload_status_of child_node parent_node = status)
              then Some (GNode child_node.(ProtoNode.root) GloasPayloadStatus.Pending) else None in
            match children_index with
            | Some idx =>
                omap (fun ci =>
                  if negb (flag_at filtered_nodes ci) then None
                  else child_node ← pa.(ProtoArray.nodes) !! ci; pending child_node)
                  (default [] (idx !! parent_idx))
            | None =>
                omap (fun '(ci, child_node) =>
                  if negb (bool_decide (child_node.(ProtoNode.parent) = Some parent_idx)) then None
                  else if negb (flag_at filtered_nodes ci) then None
                  else pending child_node) (imap pair pa.(ProtoArray.nodes))
            end
        end
    end.

(** ** Ancestors *)

(** The [while] loop of [get_ancestor_gloas]. *)
Fixpoint ancestor_walk (fuel : nat) (pa : ProtoArray.t) (slot : Slot) (child parent : ProtoNode.t)
    : option GloasForkChoiceNode.t :=
  match fuel with
  | O => None
  | S fuel' =>
      if slot <? parent.(ProtoNode.slot) then
        parent_idx ← parent.(ProtoNode.parent);
        parent' ← pa.(ProtoArray.nodes) !! parent_idx;
        ancestor_walk fuel' pa slot parent parent'
      else Some (GNode parent.(ProtoNode.root) (parent_payload_status_of child parent))
  end.

Definition get_ancestor_gloas (pa : ProtoArray.t) (root : Hash256) (slot : Slot)
    : option GloasForkChoiceNode.t :=
  idx ← pa.(ProtoArray.indices) !! root;
  block ← pa.(ProtoArray.nodes) !! idx;
  if block.(ProtoNode.slot) <=? slot then Some (GNode root GloasPayloadStatus.Pending)
  else
    parent_idx ← block.(ProtoNode.parent);
    parent ← pa.(ProtoArray.nodes) !! parent_idx;
    ancestor_walk (length pa.(ProtoArray.nodes)) pa slot block parent.

(** ** Supporting votes *)

(** The branch for a vote for the block of [node] itself. *)
Definition supports_own (node : GloasForkChoiceNode.t) (vote : VoteTracker.t) (node_slot : Slot) : bool :=
  match node.(GloasForkChoiceNode.payload_status) with
  | GloasPayloadStatus.Pending => true
  | status =>
      if vote.(VoteTracker.current_slot) =? node_slot then false
      else if vote.(VoteTracker.current_payload_present)
      then bool_decide (status = GloasPayloadStatus.Full)
      else bool_decide (status = GloasPayloadStatus.Empty)
  end.

(** The branch for a vote for another block with the given ancestor. *)
Definition supports_ancestor (node : GloasForkChoiceNode.t) (ancestor : option GloasForkChoiceNode.t) : bool :=
  match ancestor with
  | Some a =>
      (node.(GloasForkChoiceNode.root) =? a.(GloasForkChoiceNode.root))
      && (bool_decide (node.(GloasForkChoiceNode.payload_status) = GloasPayloadStatus.Pending)
          || bool_decide (node.(GloasForkChoiceNode.payload_status)
                          = a.(GloasForkChoiceNode.payload_status)))
  | None => false
  end.

Definition is_supporting_vote_gloas_at_slot (pa : ProtoArray.t) (node : GloasForkChoiceNode.t)
    (vote : VoteTracker.t) (node_slot : Slot) : bool :=
  if node.(GloasForkChoiceNode.root) =? vote.(VoteTracker.current_root)
  then supports_own node vote node_slot
  else supports_ancestor node (get_ancestor_gloas pa vote.(VoteTracker.current_root) node_slot).

(** With the cache, whose new contents is the second result. *)
Definition is_supporting_vote_gloas_cached (pa : ProtoArray.t) (node : GloasForkChoiceNode.t)
    (vote : VoteTracker.t) (node_slot : Slot) (ancestor_cache : AncestorCache)
    : bool * AncestorCache :=
  if node.(GloasForkChoiceNode.root) =? vote.(VoteTracker.current_root)
  then (supports_own node vote node_slot, ancestor_cache)
  else
    let key := (vote.(VoteTracker.current_root), node_slot) in
    match ancestor_cache !! key with
    | Some ancestor => (supports_ancestor node ancestor, ancestor_cache)
    | None =>
        let ancestor := get_ancestor_gloas pa vote.(VoteTracker.current_root) node_slot in
        (supports_ancestor node ancestor, <[key := ancestor]> ancestor_cache)
    end.

(** ** Weights *)
Section eth_spec.
Context (slots_per_epoch : Z).

(** The loop over [active_votes] of [get_gloas_weight]. *)
Fixpoint weight_of_votes (fc : ForkChoice.t) (node : GloasForkChoiceNode.t) (node_slot : Slot)
    (active_votes : list (Z * Z)) (weight : Z) (ancestor_cache : AncestorCache)
    : outcome FcError.t (Z * AncestorCache) :=
  match active_votes with
  | [] => Ok (weight, ancestor_cache)
  | (vote_idx, balance) :: rest =>
      vote ← expect (fc.(ForkChoice.votes) !! Z.to_nat vote_idx);
      let '(supporting, ancestor_cache) := is_supporting_vote_gloas_cached
        fc.(ForkChoice.proto_array) node vote node_slot ancestor_cache in
      weight_of_votes fc node node_slot rest
        (if supporting then u64_saturating_add weight balance else weight) ancestor_cache
  end.

Definition get_gloas_weight (fc : ForkChoice.t) (node : GloasForkChoiceNode.t)
    (proposer_boost_root : Hash256) (apply_proposer_boost : bool) (current_slot : Slot)
    (spec : ChainSpec.t) (ancestor_cache : AncestorCache) (active_votes : list (Z * Z))
    : outcome FcError.t (Z * AncestorCache) :=
  let pa := fc.(ForkChoice.proto_array) in
  match (node_idx ← pa.(ProtoArray.indices) !! node.(GloasForkChoiceNode.root);
         pa.(ProtoArray.nodes) !! node_idx) with
  | None => Ok (0, ancestor_cache)
  | Some proto_node =>
      let node_slot := proto_node.(ProtoNode.slot) in
      if negb (bool_decide (node.(GloasForkChoiceNode.payload_status) = GloasPayloadStatus.Pending))
         && (se_add node_slot 1 =? current_slot)
      then Ok (0, ancestor_cache)
      else
        '(weight, ancestor_cache) ← weight_of_votes fc node node_slot active_votes 0 ancestor_cache;
        let boosted :=
          if negb (proposer_boost_root =? hash_zero) && apply_proposer_boost then
            boost_pct ← spec.(ChainSpec.proposer_score_boost);
            let boost_vote :=
              VoteTracker.mk proposer_boost_root hash_zero 0 current_slot 0 false false in
            if is_supporting_vote_gloas_at_slot pa node boost_vote node_slot
            then calculate_committee_fraction slots_per_epoch fc.(ForkChoice.balances) boost_pct
            else None
          else None in
        Ok (match boosted with
            | Some score => u64_saturating_add weight score
            | None => weight
            end, ancestor_cache)
  end.

(** ** The proposer boost *)

(** Attestation weight of the parent, over the votes. *)
Fixpoint parent_weight_of_votes (fc : ForkChoice.t) (node : GloasForkChoiceNode.t) (parent_slot : Slot)
    (active_votes : list (Z * Z)) (weight : Z) : outcome FcError.t Z :=
  match active_votes with
  | [] => Ok weight
  | (vote_idx, balance) :: rest =>
      vote ← expect (fc.(ForkChoice.votes) !! Z.to_nat vote_idx);
      parent_weight_of_votes fc node parent_slot rest
        (if is_supporting_vote_gloas_at_slot fc.(ForkChoice.proto_array) node vote parent_slot
         then u64_saturating_add weight balance else weight)
  end.

(** Adding the balance of every equivocating validator. *)
Definition add_equivocating (balances : list Z) (equivocating_indices : gset nat) (weight : Z) : Z :=
  fold_left (fun w v => u64_saturating_add w (balance_of balances v))
    (elements equivocating_indices) weight.

Definition should_apply_proposer_boost_gloas (fc : ForkChoice.t) (proposer_boost_root : Hash256)
    (equivocating_indices : gset nat) (spec : ChainSpec.t) (active_votes : list (Z * Z))
    : outcome FcError.t bool :=
  let pa := fc.(ForkChoice.proto_array) in
  if proposer_boost_root =? hash_zero then Ok false
  else match (boost_idx ← pa.(ProtoArray.indices) !! proposer_boost_root;
              pa.(ProtoArray.nodes) !! boost_idx) with
  | None => Ok false
  | Some boost_block =>
      match (parent_idx ← boost_block.(ProtoNode.parent); pa.(ProtoArray.nodes) !! parent_idx) with
      | None => Ok true
      | Some parent_block =>
          if se_add parent_block.(ProtoNode.slot) 1 <? boost_block.(ProtoNode.slot) then Ok true
          else
            let parent_node := GNode parent_block.(ProtoNode.root) GloasPayloadStatus.Pending in
            parent_att_weight ←
              parent_weight_of_votes fc parent_node parent_block.(ProtoNode.slot) active_votes 0;
            let parent_att_weight := add_equivocating
              fc.(ForkChoice.balances).(JustifiedBalances.effective_balances)
              equivocating_indices parent_att_weight in
            let reorg_threshold := default 0
              (pct ← spec.(ChainSpec.reorg_head_weight_threshold);
               calculate_committee_fraction slots_per_epoch fc.(ForkChoice.balances) pct) in
            let head_is_weak := parent_att_weight <? reorg_threshold in
            if negb head_is_weak then Ok true
            else
              let has_equivocation := existsb (fun n =>
                n.(ProtoNode.ptc_timely)
                && (n.(ProtoNode.proposer_index) =? parent_block.(ProtoNode.proposer_index))
                && (se_add n.(ProtoNode.slot) 1 =? boost_block.(ProtoNode.slot))
                && negb (n.(ProtoNode.root) =? parent_block.(ProtoNode.root)))
                pa.(ProtoArray.nodes) in
              Ok (negb has_equivocation)
      end
  end.

(** ** Ties between empty and full *)
Definition should_extend_payload (pa : ProtoArray.t) (node : GloasForkChoiceNode.t)
    (proto_node : option ProtoNode.t) (ptc_quorum_threshold : Z) (proposer_boost_root : Hash256)
    : bool :=
  if match proto_node with
     | Some n => n.(ProtoNode.envelope_received) && negb n.(ProtoNode.inclusion_list_satisfied)
     | None => false
     end then false
  else if match proto_node with
     | Some n =>
         n.(ProtoNode.envelope_received)
         && (ptc_quorum_threshold <? n.(ProtoNode.ptc_weight))
         && (ptc_quorum_threshold <? n.(ProtoNode.ptc_blob_data_available_weight))
     | None => false
     end then true
  else if proposer_boost_root =? hash_zero then true
  else match pa.(ProtoArray.indices) !! proposer_boost_root with
  | None => true
  | Some boosted_idx =>
      match pa.(ProtoArray.nodes) !! boosted_idx with
      | None => false
      | Some boosted_node =>
          match boosted_node.(ProtoNode.parent) with
          | None => true
          | Some parent_idx =>
              match pa.(ProtoArray.nodes) !! parent_idx with
              | None => false
              | Some parent_node =>
                  if negb (parent_node.(ProtoNode.root) =? node.(GloasForkChoiceNode.root)) then true
                  else bool_decide (parent_payload_status_of boosted_node parent_node
                                    = GloasPayloadStatus.Full)
              end
          end
      end
  end.

Definition get_payload_tiebreaker (pa : ProtoArray.t) (node : GloasForkChoiceNode.t)
    (current_slot : Slot) (ptc_quorum_threshold : Z) (proposer_boost_root : Hash256) : Z :=
  let proto_node := idx ← pa.(ProtoArray.indices) !! node.(GloasForkChoiceNode.root);
                    pa.(ProtoArray.nodes) !! idx in
  let is_previous_slot :=
    match proto_node with
    | Some n => se_add n.(ProtoNode.slot) 1 =? current_slot
    | None => false
    end in
  if negb is_previous_slot then GloasPayloadStatus.as_u8 node.(GloasForkChoiceNode.payload_status)
  else if bool_decide (node.(GloasForkChoiceNode.payload_status) = GloasPayloadStatus.Empty) then 1
  else if should_extend_payload pa node proto_node ptc_quorum_threshold proposer_boost_root
  then 2 else 0.

(** ** Buffers *)

(** Cleared, resized, then filled in two passes; every index is in range. *)
Definition compute_filtered_nodes_into (pa : ProtoArray.t) (current_slot : Slot)
    (filtered_buf : list bool) : list bool :=
  let len := length pa.(ProtoArray.nodes) in
  let buf := resize len false (take 0 filtered_buf) in
  let buf := foldl (fun buf '(i, node) =>
    if node_is_viable_for_head slots_per_epoch pa node current_slot then <[i := true]> buf else buf)
    buf (imap pair pa.(ProtoArray.nodes)) in
  foldl (fun buf i =>
    match (if flag_at buf i then node ← pa.(ProtoArray.nodes) !! i; node.(ProtoNode.parent) else None) with
    | Some parent_idx => <[parent_idx := true]> buf
    | None => buf
    end) buf (rev (seq 0 len)).

Definition build_children_index_into (pa : ProtoArray.t) (children_buf : gmap nat (list nat))
    : gmap nat (list nat) :=
  foldl (fun buf '(i, node) =>
    match node.(ProtoNode.parent) with
    | Some parent_idx => <[parent_idx := default [] (buf !! parent_idx) ++ [i]]> buf
    | None => buf
    end) ((fun _ => []) <$> children_buf) (imap pair pa.(ProtoArray.nodes)).

Definition active_votes_of (votes : list VoteTracker.t) (balances : list Z) : list (Z * Z) :=
  omap (fun '(val_index, vote) =>
    if vote.(VoteTracker.current_root) =? hash_zero then None
    else
      let balance := balance_of balances val_index in
      if balance =? 0 then None else Some (as_u32 (Z.of_nat val_index), balance))
    (imap pair votes).

(** ** The walk *)

(** A candidate with its weight and tie-break. *)
Definition Candidate : Type := GloasForkChoiceNode.t * Z * Z.

(** The comparison of [max_by]. *)
Definition compare_candidates (a b : Candidate) : comparison :=
  let '(na, wa, ta) := a in
  let '(nb, wb, tb) := b in
  match wa ?= wb with
  | Eq => match na.(GloasForkChoiceNode.root) ?= nb.(GloasForkChoiceNode.root) with
          | Eq => ta ?= tb
          | c => c
          end
  | c => c
  end.

(** [Iterator::max_by]: the last of the greatest elements. *)
Definition max_by {A} (cmp : A → A → comparison) (l : list A) : option A :=
  foldl (fun acc x =>
    match acc with
    | None => Some x
    | Some y => match cmp y x with Gt => Some y | _ => Some x end
    end) None l.

(** The [map] over the children: weights in order, sharing the cache. *)
Fixpoint weigh_children (fc : ForkChoice.t) (proposer_boost_root : Hash256) (apply_boost : bool)
    (current_slot : Slot) (spec : ChainSpec.t) (active_votes : list (Z * Z))
    (children : list GloasForkChoiceNode.t) (ancestor_cache : AncestorCache)
    : outcome FcError.t (list Candidate * AncestorCache) :=
  match children with
  | [] => Ok ([], ancestor_cache)
  | child :: rest =>
      '(w, ancestor_cache) ← get_gloas_weight fc child proposer_boost_root apply_boost current_slot
        spec ancestor_cache active_votes;
      let tb := get_payload_tiebreaker fc.(ForkChoice.proto_array) child current_slot
        (spec.(ChainSpec.ptc_size) / 2) proposer_boost_root in
      '(cs, ancestor_cache) ← weigh_children fc proposer_boost_root apply_boost current_slot spec
        active_votes rest ancestor_cache;
      Ok ((child, w, tb) :: cs, ancestor_cache)
  end.

(** The [loop] of [find_head_gloas]; [fuel] bounds its iterations. *)
Fixpoint gloas_loop (fuel : nat) (proposer_boost_root : Hash256) (apply_boost : bool)
    (current_slot : Slot) (spec : ChainSpec.t) (head : GloasForkChoiceNode.t)
    (ancestor_cache : AncestorCache) : M GloasState.t FcError.t Hash256 :=
  match fuel with
  | O => lift Diverge
  | S fuel' =>
      s ← get;
      let fc := s.(GloasState.fc) in
      let bufs := s.(GloasState.bufs) in
      let children := collect_gloas_children fc.(ForkChoice.proto_array) head
        bufs.(GloasBuffers.filtered) (Some bufs.(GloasBuffers.children)) in
      modify (GloasState.set_bufs (GloasBuffers.set_children_result children)) ;;
      if bool_decide (children = []) then
        modify (GloasState.set_bufs (GloasBuffers.set_ancestor_cache ancestor_cache)) ;;
        modify (GloasState.set_fc (ForkChoice.set_gloas_status
          (Some (GloasPayloadStatus.as_u8 head.(GloasForkChoiceNode.payload_status))) fc)) ;;
        mret head.(GloasForkChoiceNode.root)
      else
        '(candidates, ancestor_cache) ← lift (weigh_children fc proposer_boost_root apply_boost
          current_slot spec bufs.(GloasBuffers.active_votes) children ∅);
        best ← lift (ok_or (max_by compare_candidates candidates) FcError.GloasNoChildren);
        gloas_loop fuel' proposer_boost_root apply_boost current_slot spec best.1.1 ancestor_cache
  end.

(** Two iterations for each block of a path, and a few to spare. *)
Definition gloas_fuel (pa : ProtoArray.t) : nat := 2 * length pa.(ProtoArray.nodes) + 3.

Definition find_head_gloas (justified_checkpoint : Checkpoint.t) (proposer_boost_root : Hash256)
    (equivocating_indices : gset nat) (current_slot : Slot) (spec : ChainSpec.t)
    : M GloasState.t FcError.t Hash256 :=
  modify (fun s =>
    let pa := s.(GloasState.fc).(ForkChoice.proto_array) in
    GloasState.set_bufs (fun b => GloasBuffers.mk
      (compute_filtered_nodes_into pa current_slot b.(GloasBuffers.filtered))
      (build_children_index_into pa b.(GloasBuffers.children))
      (active_votes_of s.(GloasState.fc).(ForkChoice.votes)
         s.(GloasState.fc).(ForkChoice.balances).(JustifiedBalances.effective_balances))
      b.(GloasBuffers.children_result) b.(GloasBuffers.ancestor_cache)) s) ;;
  s ← get;
  apply_boost ← lift (should_apply_proposer_boost_gloas s.(GloasState.fc) proposer_boost_root
    equivocating_indices spec s.(GloasState.bufs).(GloasBuffers.active_votes));
  let head := GNode justified_checkpoint.(Checkpoint.root) GloasPayloadStatus.Pending in
  let ancestor_cache := s.(GloasState.bufs).(GloasBuffers.ancestor_cache) in
  modify (GloasState.set_bufs (GloasBuffers.set_ancestor_cache ∅)) ;;
  gloas_loop (gloas_fuel s.(GloasState.fc).(ForkChoice.proto_array)) proposer_boost_root
    apply_boost current_slot spec head ancestor_cache.

(** [is_gloas] in [find_head]. *)
Definition is_gloas (current_slot : Slot) (spec : ChainSpec.t) : bool :=
  match spec.(ChainSpec.gloas_fork_epoch) with
  | Some fork_epoch => fork_epoch <=? epoch current_slot slots_per_epoch
  | None => false
  end.

Definition set_checkpoints (jc fin : Checkpoint.t) (pa : ProtoArray.t) : ProtoArray.t :=
  ProtoArray.mk pa.(ProtoArray.prune_threshold) jc fin pa.(ProtoArray.nodes)
    pa.(ProtoArray.indices) pa.(ProtoArray.previous_proposer_boost).

(** What [find_head] does to the fork choice before the Gloas walk. *)
Definition gloas_prepare (justified_checkpoint finalized_checkpoint : Checkpoint.t)
    (new_balances : JustifiedBalances.t) (equivocating_indices : gset nat) (fc : ForkChoice.t)
    : ForkChoice.t :=
  let fc := ForkChoice.set_votes (apply_vote_updates fc.(ForkChoice.votes)
    fc.(ForkChoice.balances).(JustifiedBalances.effective_balances)
    new_balances.(JustifiedBalances.effective_balances) equivocating_indices) fc in
  let pa := fc.(ForkChoice.proto_array) in
  let fc :=
    if negb (bool_decide (justified_checkpoint = pa.(ProtoArray.justified_checkpoint)))
       || negb (bool_decide (finalized_checkpoint = pa.(ProtoArray.finalized_checkpoint)))
    then ForkChoice.set_proto_array (set_checkpoints justified_checkpoint finalized_checkpoint pa) fc
    else fc in
  maybe_update_balances new_balances fc.

Definition fc_find_head (justified_checkpoint finalized_checkpoint : Checkpoint.t)
    (justified_state_balances : JustifiedBalances.t) (proposer_boost_root : Hash256)
    (equivocating_indices : gset nat) (current_slot : Slot) (spec : ChainSpec.t)
    : M GloasState.t FcError.t Hash256 :=
  if is_gloas current_slot spec then
    modify (fun s => GloasState.set_fc (gloas_prepare justified_checkpoint finalized_checkpoint
      justified_state_balances equivocating_indices s.(GloasState.fc)) s) ;;
    find_head_gloas justified_checkpoint proposer_boost_root equivocating_indices current_slot spec
  else
    zoom GloasState.fc GloasState.set_fc
      (find_head_pre_gloas slots_per_epoch justified_checkpoint finalized_checkpoint
         justified_state_balances proposer_boost_root equivocating_indices current_slot spec).
End eth_spec.
