(* ===== verification/GloasTree.v ===== *)
(** * The virtual tree of the Gloas fork choice

    The buffers that the walk fills hold what they are meant to hold: the
    filter marks the blocks that lead to a viable head, the index lists the
    children of each block, and a vote supports a virtual node exactly when the
    voted block descends from it on the right side. *)
From S2P Require Import Prelude Sums SlotEpoch ProtoArrayDefs ProtoArrayWf ProtoArrayWalk.
From S2P Require Import ProtoArrayGhost ForkChoiceDefs GloasDefs.

(** ** Folds over an enumerated list *)
Lemma imap_pair_snoc {A} (l : list A) x : imap pair (l ++ [x]) = imap pair l ++ [(length l, x)].
Proof. rewrite imap_app. simpl. by rewrite Nat.add_0_r. Qed.

Lemma elem_of_imap_pair {A} (l : list A) i x : (i, x) ∈ imap pair l ↔ l !! i = Some x.
Proof.
  rewrite elem_of_lookup_imap. split.
  - intros (j & y & [= -> ->] & Hj). done.
  - intros Hi. by exists i, x.
Qed.

Lemma foldl_rev_seq {A} (f : A → nat → A) (I : nat → A → Prop) n a :
  I n a → (∀ k b, (k < n)%nat → I (S k) b → I k (f b k)) → I 0%nat (foldl f a (rev (seq 0 n))).
Proof.
  revert a. induction n as [|n IH]; intros a Ha Hstep; [done|].
  rewrite seq_S, rev_app_distr. simpl. apply IH; [apply Hstep; [lia|done]|].
  intros k b Hk. apply Hstep. lia.
Qed.

Lemma flag_insert buf i j : (i < length buf)%nat →
  flag_at (<[i := true]> buf) j = if decide (i = j) then true else flag_at buf j.
Proof.
  intros Hi. unfold flag_at. destruct (decide (i = j)) as [<-|Hne].
  - by rewrite list_lookup_insert_eq.
  - by rewrite list_lookup_insert_ne.
Qed.

(** The flags after the first pass. *)
Lemma mark_pass {A} (p : A → bool) (l : list A) n : (length l ≤ n)%nat →
  let buf := foldl (fun buf '(i, x) => if p x then <[i := true]> buf else buf)
    (replicate n false) (imap pair l) in
  length buf = n ∧ ∀ i, flag_at buf i = match l !! i with Some x => p x | None => false end.
Proof.
  induction l as [|x l IH] using rev_ind; intros Hn; simpl.
  - split; [apply length_replicate|]. intros i. unfold flag_at.
    destruct (_ !! i) as [b|] eqn:Hb; [|done]. by apply lookup_replicate in Hb as [-> _].
  - rewrite length_app in Hn. simpl in Hn. destruct IH as [Hlen Hi]; [lia|].
    rewrite imap_pair_snoc, foldl_app. simpl. split; [destruct (p x); [by rewrite length_insert|done]|].
    intros i. destruct (decide (i = length l)) as [->|Hne].
    + rewrite lookup_app_r, Nat.sub_diag by done. simpl. destruct (p x) eqn:Hp.
      * rewrite flag_insert by lia. by rewrite decide_True.
      * rewrite Hi, lookup_ge_None_2; [done|lia].
    + transitivity (flag_at (foldl (fun buf '(i, x) => if p x then <[i := true]> buf else buf)
        (replicate n false) (imap pair l)) i).
      { destruct (p x); [|done]. rewrite flag_insert by lia. by rewrite decide_False. }
      rewrite Hi. destruct (decide (i < length l)%nat).
      * by rewrite lookup_app_l.
      * rewrite !lookup_ge_None_2; [done|rewrite length_app; simpl; lia|lia].
Qed.

Section tree.
Context (spe : Z) (slot : Slot) (pa : ProtoArray.t) (Hok : tree_ok pa).
Abbreviation nodes := pa.(ProtoArray.nodes).

(** ** The filter *)
Lemma leads_unfold i :
  leads spe slot pa i ↔ viable_at spe slot pa i ∨ ∃ c, leading_child spe slot pa i c.
Proof using Hok.
  split.
  - intros (d & Ha & Hv). destruct (decide (i = d)) as [->|Hne]; [by left|].
    destruct (anc_inv_child _ _ _ Hok Ha Hne) as (c & Hc & Hcd). right. exists c. split; [done|].
    by exists d.
  - intros [Hv|(c & Hc)].
    + exists i. split; [|done]. destruct Hv as (n & Hn & _). constructor. by eapply lookup_lt_Some.
    + eapply leading_child_leads; [|done]. destruct Hc as [Hc _].
      pose proof (child_lt _ _ _ Hok Hc). apply child_lt_length in Hc. lia.
Qed.

(** When blocks [k..] have been passed on to their parents. *)
Definition filter_inv (k : nat) (buf : list bool) : Prop :=
  length buf = length nodes ∧
  ∀ i, flag_at buf i = true ↔
    viable_at spe slot pa i ∨ ∃ c, (k ≤ c)%nat ∧ leading_child spe slot pa i c.

Lemma filter_inv_leads k buf i :
  filter_inv k buf → (k ≤ S i)%nat → flag_at buf i = true ↔ leads spe slot pa i.
Proof using Hok.
  intros [_ Hf] Hk. rewrite Hf, leads_unfold. split.
  - intros [?|(c & _ & Hc)]; [by left|right; eauto].
  - intros [?|(c & Hc)]; [by left|right]. exists c. split; [|done]. destruct Hc as [Hc _].
    pose proof (child_lt _ _ _ Hok Hc). lia.
Qed.

Lemma filter_pass k buf :
  (k < length nodes)%nat → filter_inv (S k) buf →
  filter_inv k (match (if flag_at buf k then node ← nodes !! k; node.(ProtoNode.parent) else None) with
                | Some p => <[p := true]> buf
                | None => buf
                end).
Proof using Hok.
  intros Hk Hinv. pose proof (filter_inv_leads _ _ k Hinv ltac:(lia)) as Hlead.
  destruct Hinv as [Hlen Hf]. destruct (lookup_lt_is_Some_2 nodes k Hk) as [n Hn].
  assert (∀ i, (∃ c, (k ≤ c)%nat ∧ leading_child spe slot pa i c) ↔
    (n.(ProtoNode.parent) = Some i ∧ leads spe slot pa k) ∨
    ∃ c, (S k ≤ c)%nat ∧ leading_child spe slot pa i c) as Hsplit.
  { intros i. split.
    - intros (c & Hkc & Hc). destruct (decide (c = k)) as [->|Hne]; [left|right; exists c; split; [lia|done]].
      destruct Hc as [(nc & Hnc & Hp) Hl]. rewrite Hn in Hnc. apply (inj Some) in Hnc as ->. done.
    - intros [[Hp Hl]|(c & Hkc & Hc)]; [exists k|exists c; split; [lia|done]].
      split; [done|]. split; [by exists n|done]. }
  destruct (flag_at buf k) eqn:Hflag; simpl.
  - rewrite Hn. simpl. destruct n.(ProtoNode.parent) as [p|] eqn:Hp.
    + pose proof (parent_lt _ Hok _ _ _ Hn Hp). split; [by rewrite length_insert|]. intros i.
      rewrite flag_insert by lia. rewrite Hsplit. destruct (decide (p = i)) as [->|Hne].
      * split; [|done]. intros _. right; left. split; [done|]. by apply Hlead.
      * rewrite Hf. naive_solver.
    + split; [done|]. intros i. rewrite Hf, Hsplit. naive_solver.
  - split; [done|]. intros i. rewrite Hf, Hsplit.
    assert (¬ leads spe slot pa k) by (rewrite <-Hlead; done). naive_solver.
Qed.

Lemma filtered_spec buf i :
  flag_at (compute_filtered_nodes_into spe pa slot buf) i = true ↔ leads spe slot pa i.
Proof using Hok.
  assert (filter_inv 0 (compute_filtered_nodes_into spe pa slot buf)) as [_ Hf].
  { unfold compute_filtered_nodes_into. apply foldl_rev_seq.
    - rewrite take_0, resize_nil.
      destruct (mark_pass (fun n => node_is_viable_for_head spe pa n slot) nodes (length nodes)) as [Hl Hm];
        [done|]. split; [done|]. intros j. rewrite Hm. unfold viable_at. split.
      + destruct (nodes !! j) as [n|] eqn:Hn; [|done]. intros Hv. left. eauto.
      + intros [(n & -> & Hv)|(c & Hc & [Hch%child_lt_length _])]; [done|lia].
    - apply filter_pass. }
  rewrite Hf, leads_unfold. split; [intros [?|(c & _ & Hc)]; eauto|].
  intros [?|(c & Hc)]; [by left|right]. exists c. split; [lia|done].
Qed.

(** ** The index of children *)
Lemma children_index_spec buf p :
  default [] (build_children_index_into pa buf !! p) =
  omap (fun '(i, node) => if bool_decide (node.(ProtoNode.parent) = Some p) then Some i else None)
    (imap pair nodes).
Proof using.
  unfold build_children_index_into. induction nodes as [|n ns IH] using rev_ind; simpl.
  - rewrite lookup_fmap. by destruct (buf !! p).
  - rewrite imap_pair_snoc, foldl_app, omap_app. simpl. rewrite <-IH.
    destruct n.(ProtoNode.parent) as [q|]; [|by rewrite app_nil_r].
    destruct (decide (q = p)) as [->|Hne].
    + rewrite lookup_insert_eq. by rewrite bool_decide_eq_true_2.
    + rewrite lookup_insert_ne by done. rewrite bool_decide_eq_false_2 by congruence. by rewrite app_nil_r.
Qed.

Lemma omap_omap {A B C} (f : A → option B) (g : B → option C) (l : list A) :
  omap g (omap f l) = omap (fun x => f x ≫= g) l.
Proof using.
  induction l as [|x l IH]; [done|]. simpl. destruct (f x) as [y|]; simpl; [|done].
  destruct (g y); [by f_equal|done].
Qed.

Lemma collect_indexed node flags buf :
  collect_gloas_children pa node flags (Some (build_children_index_into pa buf)) =
  collect_gloas_children pa node flags None.
Proof using.
  unfold collect_gloas_children. case_bool_decide; [done|].
  destruct (_ !! _) as [p|]; [|done]. destruct (nodes !! p) as [np|]; [|done].
  rewrite children_index_spec, omap_omap. apply list_omap_ext, Forall2_same_length_lookup.
  split; [done|]. intros i [j n] y Hj Hy. rewrite Hj in Hy. apply (inj Some) in Hy as <-.
  apply list_elem_of_lookup_2, elem_of_imap_pair in Hj.
  destruct (bool_decide (n.(ProtoNode.parent) = Some p)); simpl; [|done].
  destruct (flag_at flags j); simpl; [|done]. by rewrite Hj.
Qed.

(** ** The children of a virtual node *)
Inductive gloas_child : GloasForkChoiceNode.t → GloasForkChoiceNode.t → Prop :=
  | gc_empty r : gloas_child (GNode r GloasPayloadStatus.Pending) (GNode r GloasPayloadStatus.Empty)
  | gc_full r i n :
      pa.(ProtoArray.indices) !! r = Some i → nodes !! i = Some n → n.(ProtoNode.envelope_received) = true →
      gloas_child (GNode r GloasPayloadStatus.Pending) (GNode r GloasPayloadStatus.Full)
  | gc_pending r st i n c nc :
      st ≠ GloasPayloadStatus.Pending →
      pa.(ProtoArray.indices) !! r = Some i → nodes !! i = Some n →
      nodes !! c = Some nc → nc.(ProtoNode.parent) = Some i → leads spe slot pa c →
      parent_payload_status_of nc n = st →
      gloas_child (GNode r st) (GNode nc.(ProtoNode.root) GloasPayloadStatus.Pending).

Lemma collect_spec node flags x :
  (∀ i, flag_at flags i = true ↔ leads spe slot pa i) →
  x ∈ collect_gloas_children pa node flags None ↔ gloas_child node x.
Proof using.
  intros Hf. destruct node as [r st]. unfold collect_gloas_children. simpl. case_bool_decide as Hst.
  - subst st. rewrite elem_of_cons. split.
    + intros [->|Hx]; [constructor|]. destruct (pa.(ProtoArray.indices) !! r) as [i|] eqn:Hi; simpl in Hx;
        [|by apply elem_of_nil in Hx]. destruct (nodes !! i) as [n|] eqn:Hn; [|by apply elem_of_nil in Hx].
      destruct n.(ProtoNode.envelope_received) eqn:He; [|by apply elem_of_nil in Hx].
      apply list_elem_of_singleton in Hx as ->. by econstructor.
    + inversion 1 as [r'|r' i n Hi Hn He|]; subst; [by left|right|done].
      rewrite Hi. simpl. rewrite Hn, He. by apply list_elem_of_singleton.
  - destruct (pa.(ProtoArray.indices) !! r) as [i|] eqn:Hi.
    2:{ split; [by intros ?%elem_of_nil|]. inversion 1; congruence. }
    destruct (nodes !! i) as [n|] eqn:Hn.
    2:{ split; [by intros ?%elem_of_nil|]. inversion 1; congruence. }
    rewrite list_elem_of_omap. split.
    + intros ([c nc] & Hc%elem_of_imap_pair & Hx). case_bool_decide as Hp; [|done]. simpl in Hx.
      destruct (flag_at flags c) eqn:Hfl; [|done]. simpl in Hx. case_bool_decide as Hs; [|done].
      apply (inj Some) in Hx as <-. econstructor; try done. by apply Hf.
    + inversion 1 as [| |r' st' i' n' c nc Hst' Hi' Hn' Hc Hp Hl Hs]; subst; [done..|].
      exists (c, nc). split; [by apply elem_of_imap_pair|].
      assert (i' = i) as -> by congruence. assert (n' = n) as -> by congruence.
      rewrite bool_decide_eq_true_2 by done. simpl. apply Hf in Hl as ->. simpl.
      by rewrite bool_decide_eq_true_2.
Qed.

(** ** Ancestors at a slot *)
Context (Hslots : slots_ok pa).

Lemma ancestor_walk_spec s fuel c nc p np :
  nodes !! c = Some nc → nc.(ProtoNode.parent) = Some p → nodes !! p = Some np →
  s < nc.(ProtoNode.slot) → (p < fuel)%nat →
  match ancestor_walk fuel pa s nc np with
  | Some g => ∃ a na c' nc', nodes !! a = Some na ∧ nodes !! c' = Some nc' ∧
      nc'.(ProtoNode.parent) = Some a ∧ anc nodes c' c ∧
      na.(ProtoNode.slot) ≤ s < nc'.(ProtoNode.slot) ∧
      g = GNode na.(ProtoNode.root) (parent_payload_status_of nc' na)
  | None => ∀ a na, anc nodes a c → nodes !! a = Some na → s < na.(ProtoNode.slot)
  end.
Proof using Hok Hslots.
  revert c nc p np. induction fuel as [|fuel IH]; intros c nc p np Hc Hp Hnp Hs Hlt; [lia|].
  simpl. destruct (Z.ltb_spec s np.(ProtoNode.slot)) as [Hlt'|Hge].
  - assert (∀ a na, anc nodes a c → nodes !! a = Some na →
      (∀ a' na', anc nodes a' p → nodes !! a' = Some na' → s < na'.(ProtoNode.slot)) → s < na.(ProtoNode.slot))
      as Hup.
    { intros a na Ha Hna Hall. inversion Ha as [|? n' p' Hn' Hp' Ha']; subst; [congruence|].
      assert (n' = nc) as -> by congruence. assert (p' = p) as -> by congruence. by eapply Hall. }
    destruct np.(ProtoNode.parent) as [q|] eqn:Hq; simpl.
    + destruct (parent_lookup pa Hok _ _ _ Hnp Hq) as [nq Hnq]. rewrite Hnq. simpl.
      pose proof (parent_lt _ Hok _ _ _ Hnp Hq).
      specialize (IH p np q nq Hnp Hq Hnq Hlt' ltac:(lia)).
      destruct (ancestor_walk fuel pa s np nq) as [g|].
      * destruct IH as (a & na & c' & nc' & ? & ? & ? & ? & ? & ?). exists a, na, c', nc'.
        split_and!; try done; try lia. eapply anc_trans; [done|]. eapply anc_step; [done..|].
        constructor. by eapply lookup_lt_Some.
      * intros a na Ha Hna. by eapply Hup.
    + intros a na Ha Hna. eapply Hup; [done..|]. intros a' na' Ha' Hna'.
      inversion Ha' as [|? n' p' Hn' Hp' _]; subst; [congruence|].
      assert (n' = np) as -> by congruence. congruence.
  - exists p, np, c, nc. split_and!; try done. constructor. by eapply lookup_lt_Some.
Qed.

(** [x] is the child of [i] on the way to its descendant [d]. *)
Definition branch (i d x : nat) : Prop := child_of nodes i x ∧ anc nodes x d.

Lemma get_ancestor_below i n d r x nx :
  nodes !! i = Some n → pa.(ProtoArray.indices) !! r = Some d → branch i d x → nodes !! x = Some nx →
  get_ancestor_gloas pa r n.(ProtoNode.slot) =
    Some (GNode n.(ProtoNode.root) (parent_payload_status_of nx n)).
Proof using Hok Hslots.
  intros Hn Hr [Hx Hxd] Hnx. unfold get_ancestor_gloas. rewrite Hr. simpl.
  destruct (proj1 (indices_ok _ Hok r d) Hr) as (nd & Hnd & _). rewrite Hnd. simpl.
  assert (∃ nx', nodes !! x = Some nx' ∧ nx'.(ProtoNode.parent) = Some i) as (nx' & Hx' & Hpx) by done.
  assert (nx' = nx) as -> by congruence.
  pose proof (Hslots _ _ _ _ Hnx Hpx Hn) as Hlt.
  pose proof (anc_slot_le pa Hok Hslots _ _ _ _ Hxd Hnx Hnd) as Hle.
  destruct (Z.leb_spec nd.(ProtoNode.slot) n.(ProtoNode.slot)); [lia|].
  assert (∃ p, nd.(ProtoNode.parent) = Some p) as [p Hp].
  { inversion Hxd as [|? n' p' Hn' Hp']; subst; [exists i|exists p']; congruence. }
  destruct (parent_lookup pa Hok _ _ _ Hnd Hp) as [np Hnp]. rewrite Hp. simpl. rewrite Hnp. simpl.
  pose proof (ancestor_walk_spec n.(ProtoNode.slot) (length nodes) d nd p np Hnd Hp Hnp ltac:(lia)
    ltac:(by eapply lookup_lt_Some)) as Hw.
  assert (anc nodes i d) as Hid by (eapply anc_child; [done..|by eapply lookup_lt_Some]).
  destruct (ancestor_walk _ _ _ _ _) as [g|].
  - destruct Hw as (a & na & c & nc & Hna & Hnc & Hpc & Hcd & Hsl & ->).
    assert (c = x) as ->; [|by assert (nc = nx) as -> by congruence; assert (a = i) as -> by congruence;
      assert (na = n) as -> by congruence].
    assert (anc nodes i c) as Hic.
    { destruct (anc_linear _ _ _ _ Hok Hid Hcd) as [?|Hci]; [done|].
      pose proof (anc_slot_le pa Hok Hslots _ _ _ _ Hci Hnc Hn). lia. }
    assert (a = i) as ->.
    { inversion Hic as [|? n' p' Hn' Hp' Hia]; subst; [assert (nc = n) as -> by congruence; lia|].
      assert (p' = a) as -> by congruence. destruct (decide (i = a)) as [->|Hne]; [done|].
      destruct (anc_inv_child _ _ _ Hok Hia Hne) as (e & (ne & Hne' & Hpe) & Hea).
      pose proof (Hslots _ _ _ _ Hne' Hpe Hn). pose proof (anc_slot_le pa Hok Hslots _ _ _ _ Hea Hne' Hna). lia. }
    assert (∀ u v nu, nodes !! u = Some nu → nu.(ProtoNode.parent) = Some i → anc nodes v u →
      child_of nodes i v → u = v) as Hsame.
    { intros u v nu Hu Hpu Huv Hv. inversion Huv as [|? n' p' Hn' Hp' Hvi]; subst; [done|].
      assert (p' = i) as -> by congruence. pose proof (anc_le _ _ _ Hok Hvi).
      pose proof (child_lt _ _ _ Hok Hv). lia. }
    destruct (anc_linear _ _ _ _ Hok Hcd Hxd) as [Hcx|Hxc].
    + symmetry. eapply Hsame; [exact Hnx|done|done|]. by exists nc.
    + eapply Hsame; [exact Hnc|done|done|done].
  - specialize (Hw i n Hid Hn). lia.
Qed.

Lemma get_ancestor_elsewhere i n r g :
  nodes !! i = Some n → r ≠ n.(ProtoNode.root) → get_ancestor_gloas pa r n.(ProtoNode.slot) = Some g →
  g.(GloasForkChoiceNode.root) = n.(ProtoNode.root) →
  ∃ d x, pa.(ProtoArray.indices) !! r = Some d ∧ branch i d x.
Proof using Hok Hslots.
  intros Hn Hne. unfold get_ancestor_gloas. destruct (pa.(ProtoArray.indices) !! r) as [d|] eqn:Hr; [|done].
  simpl. destruct (nodes !! d) as [nd|] eqn:Hnd; [|done]. simpl.
  destruct (Z.leb_spec nd.(ProtoNode.slot) n.(ProtoNode.slot)); [by intros [= <-] ?|].
  destruct nd.(ProtoNode.parent) as [p|] eqn:Hp; [|done]. simpl.
  destruct (nodes !! p) as [np|] eqn:Hnp; [|done]. simpl.
  pose proof (ancestor_walk_spec n.(ProtoNode.slot) (length nodes) d nd p np Hnd Hp Hnp ltac:(lia)
    ltac:(by eapply lookup_lt_Some)) as Hw.
  intros Hg Hroot. rewrite Hg in Hw. destruct Hw as (a & na & c & nc & Hna & Hnc & Hpc & Hcd & _ & ->).
  simpl in Hroot. exists d, c. split; [done|]. split; [|done]. exists nc. split; [done|].
  assert (a = i) as ->; [|done]. assert (pa.(ProtoArray.indices) !! n.(ProtoNode.root) = Some a) as H1
    by (apply (indices_ok _ Hok); eauto).
  assert (pa.(ProtoArray.indices) !! n.(ProtoNode.root) = Some i) as H2 by (apply (indices_ok _ Hok); eauto).
  congruence.
Qed.
End tree.
