(* ===== verification/GloasHead.v ===== *)
(** * Correctness of the Gloas head

    The walk of [find_head_gloas] returns the virtual node where the GHOST rule
    over pending, empty and full nodes ends, whatever its buffers held before. *)
From S2P Require Import Prelude Sums SlotEpoch ProtoArrayDefs ProtoArrayWf ProtoArrayWalk.
From S2P Require Import ProtoArrayGhost ForkChoiceDefs ComputeDeltas LmdGhost GloasDefs GloasTree.

(** ** Reference definitions *)

(** Balance of the votes that support a node at the given slot. *)
Definition attestation_score (fc : ForkChoice.t) (node : GloasForkChoiceNode.t) (node_slot : Slot) : Z :=
  zsum (fun v => match fc.(ForkChoice.votes) !! v with
    | Some vote => gate (is_supporting_vote_gloas_at_slot fc.(ForkChoice.proto_array) node vote node_slot)
                     (balance_of fc.(ForkChoice.balances).(JustifiedBalances.effective_balances) v)
    | None => 0
    end) (seq 0 (length fc.(ForkChoice.votes))).

(** The vote that stands for the proposer boost. *)
Definition boost_vote (r : Hash256) (current_slot : Slot) : VoteTracker.t :=
  VoteTracker.mk r hash_zero 0 current_slot 0 false false.

Section spec.
Context (spe : Z) (fc : ForkChoice.t) (boost_root : Hash256) (boosting : bool) (slot : Slot)
  (spec : ChainSpec.t).
Abbreviation pa := fc.(ForkChoice.proto_array).

Definition proposer_score : Z :=
  default 0 (pct ← spec.(ChainSpec.proposer_score_boost);
             calculate_committee_fraction spe fc.(ForkChoice.balances) pct).

Definition block_of (r : Hash256) : option ProtoNode.t :=
  i ← pa.(ProtoArray.indices) !! r; pa.(ProtoArray.nodes) !! i.

Definition gloas_weight (node : GloasForkChoiceNode.t) : Z :=
  match block_of node.(GloasForkChoiceNode.root) with
  | None => 0
  | Some n =>
      if negb (bool_decide (node.(GloasForkChoiceNode.payload_status) = GloasPayloadStatus.Pending))
         && (se_add n.(ProtoNode.slot) 1 =? slot) then 0
      else Z.min u64_max
        (attestation_score fc node n.(ProtoNode.slot)
         + gate (negb (boost_root =? hash_zero) && boosting
                 && is_supporting_vote_gloas_at_slot pa node (boost_vote boost_root slot) n.(ProtoNode.slot))
             proposer_score)
  end.

Definition tiebreak (node : GloasForkChoiceNode.t) : Z :=
  get_payload_tiebreaker pa node slot (spec.(ChainSpec.ptc_size) / 2) boost_root.

(** Heavier, or as heavy with a larger root, or the same block with at least
    the same tie-break. *)
Definition lex_le (a b : Candidate) : Prop :=
  let '(na, wa, ta) := a in
  let '(nb, wb, tb) := b in
  wa < wb ∨ wa = wb ∧ (na.(GloasForkChoiceNode.root) < nb.(GloasForkChoiceNode.root) ∨
    na.(GloasForkChoiceNode.root) = nb.(GloasForkChoiceNode.root) ∧ ta ≤ tb).

Definition candidate (node : GloasForkChoiceNode.t) : Candidate :=
  (node, gloas_weight node, tiebreak node).

Definition best_gloas_child (node c : GloasForkChoiceNode.t) : Prop :=
  gloas_child spe slot pa node c ∧
  ∀ c', gloas_child spe slot pa node c' → lex_le (candidate c') (candidate c).

(** From a node, always to the best child, until there is none. *)
Inductive gloas_ghost : GloasForkChoiceNode.t → GloasForkChoiceNode.t → Prop :=
  | gg_stop node : (∀ c, ¬ gloas_child spe slot pa node c) → gloas_ghost node node
  | gg_step node c h : best_gloas_child node c → gloas_ghost c h → gloas_ghost node h.
End spec.

(** ** Choosing the greatest candidate *)
Lemma compare_candidates_spec a b : compare_candidates a b ≠ Gt ↔ lex_le a b.
Proof.
  destruct a as [[na wa] ta], b as [[nb wb] tb]. simpl.
  destruct (Z.compare_spec wa wb); [|split; [lia|done]|split; [done|lia]].
  destruct (Z.compare_spec na.(GloasForkChoiceNode.root) nb.(GloasForkChoiceNode.root));
    [|split; [lia|done]|split; [done|lia]].
  destruct (Z.compare_spec ta tb); split; try done; lia.
Qed.

Lemma lex_le_refl a : lex_le a a.
Proof. destruct a as [[na wa] ta]. simpl. lia. Qed.
Lemma lex_le_trans a b c : lex_le a b → lex_le b c → lex_le a c.
Proof. destruct a as [[na wa] ta], b as [[nb wb] tb], c as [[nc wc] tc]. simpl. lia. Qed.
Lemma lex_le_total a b : lex_le a b ∨ lex_le b a.
Proof. destruct a as [[na wa] ta], b as [[nb wb] tb]. simpl. lia. Qed.

Lemma max_by_spec l : l ≠ [] →
  ∃ x, max_by compare_candidates l = Some x ∧ x ∈ l ∧ ∀ y, y ∈ l → lex_le y x.
Proof.
  induction l as [|z l IH] using rev_ind; [done|]. intros _. unfold max_by in *. rewrite foldl_app. simpl.
  destruct (decide (l = [])) as [->|Hl].
  - simpl. exists z. split_and!; [done|by apply list_elem_of_singleton|].
    intros y ->%list_elem_of_singleton. apply lex_le_refl.
  - destruct (IH Hl) as (x & -> & Hx & Hmax).
    pose proof (compare_candidates_spec x z) as Hc.
    destruct (compare_candidates x z) eqn:E.
    1,2: assert (lex_le x z) by (apply Hc; done); exists z; split_and!; [done|set_solver|];
      intros y [Hy|Hy%list_elem_of_singleton]%elem_of_app;
      [eapply lex_le_trans; [by apply Hmax|done]|subst y; apply lex_le_refl].
    exists x. split_and!; [done|set_solver|].
    intros y [Hy|Hy%list_elem_of_singleton]%elem_of_app; [by apply Hmax|subst y].
    destruct (lex_le_total x z) as [Hxz|?]; [by apply Hc in Hxz|done].
Qed.

(** ** Sums over the active votes *)
Lemma zsum_omap {A B} (f : A → option B) (g : B → Z) (l : list A) :
  zsum g (omap f l) = zsum (fun x => match f x with Some y => g y | None => 0 end) l.
Proof.
  induction l as [|x l IH]; [done|]. rewrite zsum_cons, <-IH. simpl. by destruct (f x).
Qed.

Lemma zsum_imap_pair {A} (g : nat * A → Z) (l : list A) :
  zsum g (imap pair l) =
  zsum (fun i => match l !! i with Some x => g (i, x) | None => 0 end) (seq 0 (length l)).
Proof.
  induction l as [|x l IH] using rev_ind; [done|].
  rewrite imap_pair_snoc, zsum_app, length_app, Nat.add_1_r, zsum_seq_S, IH.
  rewrite lookup_app_r, Nat.sub_diag by done. simpl. rewrite zsum_cons. f_equal.
  - apply zsum_ext. intros i Hi%elem_of_seq. by rewrite lookup_app_l by lia.
  - unfold zsum. simpl. lia.
Qed.

Lemma saturating_gate w (b : bool) x : 0 ≤ w ≤ u64_max → 0 ≤ x →
  (if b then u64_saturating_add w x else w) = Z.min u64_max (w + gate b x) ∧
  0 ≤ Z.min u64_max (w + gate b x) ≤ u64_max.
Proof. unfold u64_saturating_add, gate. destruct b; lia. Qed.

Section weights.
Context (fc : ForkChoice.t) (Hok : tree_ok fc.(ForkChoice.proto_array))
  (Hroots : roots_ok fc.(ForkChoice.proto_array)).
Context (Hbal : balances_ok fc.(ForkChoice.balances).(JustifiedBalances.effective_balances)).
Context (Hlen : Z.of_nat (length fc.(ForkChoice.votes)) ≤ 2 ^ 32).
Abbreviation pa := fc.(ForkChoice.proto_array).
Abbreviation bal := fc.(ForkChoice.balances).(JustifiedBalances.effective_balances).
Abbreviation active := (active_votes_of fc.(ForkChoice.votes) bal).

(** A cache that agrees with the walk. *)
Definition sound_cache (c : AncestorCache) : Prop :=
  ∀ r s a, c !! (r, s) = Some a → a = get_ancestor_gloas pa r s.

Lemma cached_spec node vote s c : sound_cache c →
  ∃ c', is_supporting_vote_gloas_cached pa node vote s c =
          (is_supporting_vote_gloas_at_slot pa node vote s, c') ∧ sound_cache c'.
Proof using.
  intros Hc. unfold is_supporting_vote_gloas_cached, is_supporting_vote_gloas_at_slot.
  destruct (_ =? _); [by eauto|]. destruct (c !! _) as [a|] eqn:Ha.
  - rewrite (Hc _ _ _ Ha). eauto.
  - eexists. split; [done|]. intros r s' a' Ha'. apply lookup_insert_Some in Ha' as [[[= <- <-] <-]|[_ ?]];
      [done|by apply Hc].
Qed.

(** The support an entry of the buffer adds. *)
Definition entry_score (node : GloasForkChoiceNode.t) (s : Slot) (e : Z * Z) : Z :=
  match fc.(ForkChoice.votes) !! Z.to_nat e.1 with
  | Some vote => gate (is_supporting_vote_gloas_at_slot pa node vote s) e.2
  | None => 0
  end.

Definition entry_ok (e : Z * Z) : Prop := is_Some (fc.(ForkChoice.votes) !! Z.to_nat e.1) ∧ 0 ≤ e.2.

Lemma as_u32_index i : (i < length fc.(ForkChoice.votes))%nat → Z.to_nat (as_u32 (Z.of_nat i)) = i.
Proof using Hlen. intros Hi. unfold as_u32. rewrite Z.mod_small by lia. lia. Qed.

Lemma active_ok e : e ∈ active → entry_ok e.
Proof using Hbal Hlen.
  unfold active_votes_of. rewrite list_elem_of_omap. intros ([i vote] & Hi%elem_of_imap_pair & He).
  destruct (_ =? hash_zero); [done|]. destruct (_ =? 0); [done|]. apply (inj Some) in He as <-.
  unfold entry_ok. simpl. rewrite as_u32_index by (by eapply lookup_lt_Some). split; [eauto|apply Hbal].
Qed.

Lemma zero_root_supports_none node vote s i :
  pa.(ProtoArray.indices) !! node.(GloasForkChoiceNode.root) = Some i →
  vote.(VoteTracker.current_root) = hash_zero → is_supporting_vote_gloas_at_slot pa node vote s = false.
Proof using Hok Hroots.
  intros Hi Hz. destruct (proj1 (indices_ok _ Hok _ _) Hi) as (n & Hn & Hr).
  unfold is_supporting_vote_gloas_at_slot. rewrite Hz.
  destruct (Z.eqb_spec node.(GloasForkChoiceNode.root) hash_zero) as [E|_].
  { destruct (Hroots _ _ Hn). congruence. }
  unfold get_ancestor_gloas. destruct (pa.(ProtoArray.indices) !! hash_zero) as [j|] eqn:Hj; [|done].
  destruct (proj1 (indices_ok _ Hok _ _) Hj) as (nj & Hnj & Hr'). by destruct (Hroots _ _ Hnj).
Qed.

Lemma active_score node s i :
  pa.(ProtoArray.indices) !! node.(GloasForkChoiceNode.root) = Some i →
  zsum (entry_score node s) active = attestation_score fc node s.
Proof using Hok Hroots Hlen.
  intros Hi. unfold active_votes_of, attestation_score. rewrite zsum_omap, zsum_imap_pair.
  apply zsum_ext. intros v Hv%elem_of_seq. destruct (_ !! v) as [vote|] eqn:Hvote; [|done].
  destruct (Z.eqb_spec vote.(VoteTracker.current_root) hash_zero) as [Hz|Hz].
  - by rewrite (zero_root_supports_none _ _ _ _ Hi Hz).
  - destruct (Z.eqb_spec (balance_of bal v) 0) as [->|Hb]; [unfold gate; by destruct (is_supporting_vote_gloas_at_slot _ _ _ _)|].
    unfold entry_score. simpl. by rewrite as_u32_index, Hvote by lia.
Qed.

Lemma entries_nonneg node s l : (∀ e, e ∈ l → entry_ok e) → 0 ≤ zsum (entry_score node s) l.
Proof using.
  clear Hlen. intros Hl. apply zsum_nonneg. intros e He. destruct (Hl e He) as [[ve Hve] Hbe].
  unfold entry_score. rewrite Hve. unfold gate. destruct (is_supporting_vote_gloas_at_slot _ _ _ _); lia.
Qed.

Lemma weight_of_votes_spec node s l w c :
  (∀ e, e ∈ l → entry_ok e) → 0 ≤ w ≤ u64_max → sound_cache c →
  ∃ c', weight_of_votes fc node s l w c = Ok (Z.min u64_max (w + zsum (entry_score node s) l), c') ∧
        sound_cache c'.
Proof using.
  revert w c. induction l as [|[v b] l IH]; intros w c Hl Hw Hc; simpl.
  - exists c. unfold zsum. simpl. split; [|done]. do 2 f_equal. clear Hlen. lia.
  - destruct (Hl (v, b)) as [[vote Hvote] Hb]; [left|]. simpl in *. rewrite Hvote. simpl.
    destruct (cached_spec node vote s c Hc) as (c1 & -> & Hc1).
    destruct (saturating_gate w (is_supporting_vote_gloas_at_slot pa node vote s) b Hw Hb) as [-> Hw'].
    destruct (IH _ c1 (fun e He => Hl e ltac:(by right)) Hw' Hc1) as (c2 & -> & Hc2).
    exists c2. split; [|done]. do 2 f_equal. rewrite zsum_cons. unfold entry_score at 2. simpl. rewrite Hvote.
    pose proof (entries_nonneg node s l (fun e He => Hl e ltac:(by right))). clear Hlen. lia.
Qed.

Lemma parent_weight_spec node s l w :
  (∀ e, e ∈ l → entry_ok e) → 0 ≤ w ≤ u64_max →
  parent_weight_of_votes fc node s l w = Ok (Z.min u64_max (w + zsum (entry_score node s) l)).
Proof using.
  revert w. induction l as [|[v b] l IH]; intros w Hl Hw; simpl.
  - unfold zsum. simpl. f_equal. clear Hlen. lia.
  - destruct (Hl (v, b)) as [[vote Hvote] Hb]; [left|]. simpl in *. rewrite Hvote. simpl.
    destruct (saturating_gate w (is_supporting_vote_gloas_at_slot pa node vote s) b Hw Hb) as [-> Hw'].
    rewrite (IH _ (fun e He => Hl e ltac:(by right)) Hw'). f_equal. rewrite zsum_cons.
    unfold entry_score at 2. simpl. rewrite Hvote.
    pose proof (entries_nonneg node s l (fun e He => Hl e ltac:(by right))). clear Hlen. lia.
Qed.

(** ** One step of the walk *)
Context (spe : Z) (boost_root : Hash256) (boosting : bool) (slot : Slot) (spec : ChainSpec.t).

Lemma committee_fraction_nonneg pct x :
  calculate_committee_fraction spe fc.(ForkChoice.balances) pct = Some x → 0 ≤ x.
Proof using.
  unfold calculate_committee_fraction. destruct (u64_checked_div _ _) as [cw|]; [|done]. simpl.
  unfold u64_checked_mul. destruct (checked_u64 _) as [m|] eqn:Hm; [|done]. simpl.
  apply checked_u64_Some in Hm as [-> [? _]]. unfold u64_checked_div. simpl. intros [= <-].
  apply Z.div_pos; lia.
Qed.

Lemma get_gloas_weight_spec node c : sound_cache c →
  ∃ c', get_gloas_weight spe fc node boost_root boosting slot spec c active =
          Ok (gloas_weight spe fc boost_root boosting slot spec node, c') ∧ sound_cache c'.
Proof using Hok Hroots Hbal Hlen.
  intros Hc. unfold get_gloas_weight, gloas_weight, block_of.
  destruct (pa.(ProtoArray.indices) !! node.(GloasForkChoiceNode.root)) as [i|] eqn:Hi; [|by eauto].
  simpl. destruct (pa.(ProtoArray.nodes) !! i) as [n|] eqn:Hn; [|by eauto]. simpl.
  destruct (negb (bool_decide (node.(GloasForkChoiceNode.payload_status) = GloasPayloadStatus.Pending))
    && (se_add n.(ProtoNode.slot) 1 =? slot)); [by eauto|].
  destruct (weight_of_votes_spec node n.(ProtoNode.slot) active 0 c active_ok ltac:(by vm_compute) Hc)
    as (c' & -> & Hc'). simpl. exists c'. split; [|done]. do 2 f_equal.
  rewrite (active_score _ _ _ Hi), Z.add_0_l.
  unfold boost_vote, proposer_score. destruct (negb (boost_root =? hash_zero) && boosting); [|simpl; clear Hlen; lia].
  destruct spec.(ChainSpec.proposer_score_boost) as [pct|]; simpl;
    [|unfold gate; destruct (is_supporting_vote_gloas_at_slot _ _ _ _); clear Hlen; lia].
  destruct (is_supporting_vote_gloas_at_slot _ _ _ _); [|simpl; clear Hlen; lia].
  destruct (calculate_committee_fraction _ _ _) as [x|] eqn:Hx; simpl; [|clear Hlen; lia].
  pose proof (committee_fraction_nonneg _ _ Hx). unfold u64_saturating_add. clear Hlen. lia.
Qed.

Lemma weigh_children_spec l c : sound_cache c →
  ∃ c', weigh_children spe fc boost_root boosting slot spec active l c =
          Ok (map (candidate spe fc boost_root boosting slot spec) l, c') ∧ sound_cache c'.
Proof using Hok Hroots Hbal Hlen.
  revert c. induction l as [|x l IH]; intros c Hc; simpl; [by eauto|].
  destruct (get_gloas_weight_spec x c Hc) as (c1 & -> & Hc1). simpl.
  destruct (IH c1 Hc1) as (c2 & -> & Hc2). simpl. by eauto.
Qed.

(** ** The loop *)

(** Each step goes down: a pending node to its own block, another to a later
    block. *)
Definition depth (node : GloasForkChoiceNode.t) : nat :=
  (match pa.(ProtoArray.indices) !! node.(GloasForkChoiceNode.root) with
   | Some i => 2 * (length pa.(ProtoArray.nodes) - i)
   | None => 0
   end + (if bool_decide (node.(GloasForkChoiceNode.payload_status) = GloasPayloadStatus.Pending)
          then 1 else 0))%nat.

Lemma depth_child node c : gloas_child spe slot pa node c → (depth c < depth node)%nat.
Proof using Hok.
  clear Hlen. unfold depth. destruct 1 as [r|r i n Hi Hn _|r st i n c nc Hst Hi Hn Hc Hp _ _]; simpl.
  - lia.
  - lia.
  - rewrite Hi. rewrite (bool_decide_eq_false_2 (st = _)) by done.
    rewrite (proj2 (indices_ok _ Hok nc.(ProtoNode.root) c)) by eauto.
    pose proof (parent_lt _ Hok _ _ _ Hc Hp). apply lookup_lt_Some in Hc. lia.
Qed.

(** The buffers as [find_head_gloas] leaves them for the loop. *)
Definition ready (bufs : GloasBuffers.t) : Prop :=
  (∀ i, flag_at bufs.(GloasBuffers.filtered) i = true ↔ leads spe slot pa i) ∧
  (∃ old, bufs.(GloasBuffers.children) = build_children_index_into pa old) ∧
  bufs.(GloasBuffers.active_votes) = active.

Lemma ready_children bufs node c : ready bufs →
  c ∈ collect_gloas_children pa node bufs.(GloasBuffers.filtered) (Some bufs.(GloasBuffers.children)) ↔
  gloas_child spe slot pa node c.
Proof using. intros (Hf & (old & ->) & _). rewrite collect_indexed. by apply collect_spec. Qed.

Lemma best_of_children bufs node l : ready bufs →
  l = collect_gloas_children pa node bufs.(GloasBuffers.filtered) (Some bufs.(GloasBuffers.children)) →
  l ≠ [] → ∃ c, max_by compare_candidates (map (candidate spe fc boost_root boosting slot spec) l)
    = Some (candidate spe fc boost_root boosting slot spec c) ∧
    best_gloas_child spe fc boost_root boosting slot spec node c.
Proof using.
  intros Hb Hl Hne. destruct (max_by_spec (map (candidate spe fc boost_root boosting slot spec) l))
    as (x & Hx & Hin & Hmax); [by destruct l|].
  change (map ?f l) with (f <$> l) in *. apply list_elem_of_fmap in Hin as (c & -> & Hc).
  exists c. split; [done|]. split; [by apply (ready_children bufs node c Hb); rewrite <-Hl|].
  intros c' Hc'. apply Hmax, list_elem_of_fmap. exists c'. split; [done|]. rewrite Hl.
  by apply ready_children.
Qed.

Lemma gloas_loop_spec fuel node c bufs :
  (depth node < fuel)%nat → ready bufs →
  ∃ h bufs', gloas_loop spe fuel boost_root boosting slot spec node c (GloasState.mk fc bufs) =
    (Ok h.(GloasForkChoiceNode.root),
     GloasState.mk (ForkChoice.set_gloas_status
       (Some (GloasPayloadStatus.as_u8 h.(GloasForkChoiceNode.payload_status))) fc) bufs') ∧
    gloas_ghost spe fc boost_root boosting slot spec node h.
Proof using Hok Hroots Hbal Hlen.
  revert node c bufs. induction fuel as [|fuel IH]; intros node c bufs Hlt Hb; [clear Hlen; lia|].
  simpl. rewrite (bind_ok_eq _ _ (GloasState.mk fc bufs) (GloasState.mk fc bufs) (GloasState.mk fc bufs)) by done.
  simpl. pose proof (fun c => ready_children bufs node c Hb) as Hch. pose proof (best_of_children bufs node _ Hb eq_refl) as Hbest.
  destruct (collect_gloas_children pa node _ _) as [|x l]; simpl.
  - eexists node, _. split; [done|]. constructor. intros c' Hc'%Hch. by apply elem_of_nil in Hc'.
  - set (s1 := GloasState.mk fc (GloasBuffers.set_children_result (x :: l) bufs)).
    assert (ready (GloasState.bufs s1)) as Hb1 by done.
    destruct Hb as (_ & _ & ->).
    destruct (weigh_children_spec (x :: l) ∅) as (c' & Hw & _).
    { intros r s a Ha. exact (False_rect _ (lookup_empty_Some _ _ Ha)). }
    rewrite (bind_ok_eq _ _ _ tt s1) by done.
    rewrite (bind_ok_eq _ _ s1 (map (candidate spe fc boost_root boosting slot spec) (x :: l), c') s1)
      by (apply (f_equal (fun o => (o, s1))) in Hw; exact Hw).
    destruct (Hbest ltac:(done)) as (y & Hy & Hyb).
    rewrite (bind_ok_eq _ _ s1 (candidate spe fc boost_root boosting slot spec y) s1)
      by (unfold lift; by rewrite Hy).
    destruct (IH y c' (GloasState.bufs s1)) as (h & bufs' & Hrun & Hg); [|done|].
    { destruct Hyb as [Hyc _]. pose proof (depth_child _ _ Hyc). clear Hlen. lia. }
    exists h, bufs'. split; [exact Hrun|]. by eapply gg_step.
Qed.
End weights.
