(* ===== verification/GloasCorrect.v ===== *)
(** * Theorems on the Gloas fork choice

    The head, its independence of the buffers, supporting votes and the
    proposer boost, with a small tree of empty and full branches. *)
From S2P Require Import Prelude Sums SlotEpoch ProtoArrayDefs ProtoArrayWf ProtoArrayWalk.
From S2P Require Import ProtoArrayGhost ForkChoiceDefs ComputeDeltas LmdGhost GloasDefs GloasTree GloasHead.

(** ** An example

    Block 20 was revealed; block 21 builds on its payload and block 22 does
    not.  Validators 0 and 1 vote for 21 and 22 in slot 3. *)
Definition gl_block (root : Z) (parent : option Z) (slot : Z) (bid bid_parent : option Z) (revealed : bool)
    : Block.t :=
  {| Block.slot := slot; Block.root := root; Block.parent_root := parent;
     Block.state_root := 0; Block.target_root := 20;
     Block.current_epoch_shuffling_id := ex_sid; Block.next_epoch_shuffling_id := ex_sid;
     Block.justified_checkpoint := ex_cp; Block.finalized_checkpoint := ex_cp;
     Block.execution_status := ExecutionStatus.Irrelevant false;
     Block.unrealized_justified_checkpoint := None;
     Block.unrealized_finalized_checkpoint := None;
     Block.builder_index := None; Block.payload_revealed := false; Block.ptc_weight := 0;
     Block.ptc_blob_data_available_weight := 0; Block.payload_data_available := false;
     Block.bid_block_hash := bid; Block.bid_parent_block_hash := bid_parent;
     Block.proposer_index := root mod 10; Block.ptc_timely := true; Block.envelope_received := revealed;
     Block.inclusion_list_satisfied := true |}.

Definition gl_array : ProtoArray.t :=
  foldl (fun pa b => ex_insert b pa) ex_empty
    [ gl_block 20 None 0 (Some 200) None true;
      gl_block 21 (Some 20) 1 (Some 210) (Some 200) false;
      gl_block 22 (Some 20) 2 (Some 220) (Some 190) false ].
Definition gl_cp : Checkpoint.t := Checkpoint.mk 0 20.
Definition gl_spec : ChainSpec.t := ChainSpec.mk (Some 40) (Some 20) (Some 0) 512.
Definition gl_vote (root : Hash256) : VoteTracker.t := VoteTracker.mk root root 0 3 3 false false.
Definition gl_jb : JustifiedBalances.t := JustifiedBalances.mk [3200; 3100] 6300 2.
Definition gl_fc : ForkChoice.t := ForkChoice.mk gl_array [gl_vote 21; gl_vote 22] gl_jb None.
Definition gl_bufs : GloasBuffers.t := GloasBuffers.mk [] ∅ [] [] ∅.

Lemma gl_tree : tree_ok gl_array.
Proof. apply wf_tree. unfold gl_array. simpl. do 3 apply ex_insert_wf. apply ex_empty_wf. Qed.

Lemma gl_slots : slots_ok gl_array.
Proof.
  intros i n p np Hi Hp Hnp. destruct i as [|[|[|i]]]; vm_compute in Hi; try discriminate Hi;
    apply (inj Some) in Hi; subst n; simpl in Hp; try discriminate Hp;
    apply (inj Some) in Hp; subst p; vm_compute in Hnp; apply (inj Some) in Hnp; subst np; by vm_compute.
Qed.

Lemma gl_roots : roots_ok gl_array.
Proof.
  intros i n Hn. destruct i as [|[|[|i]]]; vm_compute in Hn; try discriminate Hn;
    apply (inj Some) in Hn; subst n; done.
Qed.

Lemma gl_balances : balances_ok [3200; 3100].
Proof. intros v. unfold balance_of. destruct v as [|[|v]]; simpl; lia. Qed.

(** ** Supporting votes *)



(** ** The proposer boost *)
Lemma add_equivocating_spec bal (eq : gset nat) w : balances_ok bal → 0 ≤ w ≤ u64_max →
  add_equivocating bal eq w = Z.min u64_max (w + zsum (balance_of bal) (elements eq)).
Proof.
  intros Hb. unfold add_equivocating. revert w. induction (elements eq) as [|v l IH]; intros w Hw; simpl.
  - unfold zsum. simpl. lia.
  - pose proof (Hb v). rewrite IH; unfold u64_saturating_add; [|lia]. rewrite zsum_cons.
    assert (0 ≤ zsum (balance_of bal) l) by (apply zsum_nonneg; intros; apply Hb). lia.
Qed.

(** Weight of the block under the boosted one, with the equivocators. *)
Definition parent_weight (fc : ForkChoice.t) (eq : gset nat) (np : ProtoNode.t) : Z :=
  Z.min u64_max (attestation_score fc (GNode np.(ProtoNode.root) GloasPayloadStatus.Pending) np.(ProtoNode.slot)
    + zsum (balance_of fc.(ForkChoice.balances).(JustifiedBalances.effective_balances)) (elements eq)).

Definition reorg_threshold (spe : Z) (fc : ForkChoice.t) (spec : ChainSpec.t) : Z :=
  default 0 (pct ← spec.(ChainSpec.reorg_head_weight_threshold);
             calculate_committee_fraction spe fc.(ForkChoice.balances) pct).

(** The proposer of [np] made another timely block in the slot before [nb]. *)
Definition proposer_equivocated (pa : ProtoArray.t) (nb np : ProtoNode.t) : Prop :=
  ∃ j m, pa.(ProtoArray.nodes) !! j = Some m ∧ m.(ProtoNode.ptc_timely) = true ∧
    m.(ProtoNode.proposer_index) = np.(ProtoNode.proposer_index) ∧
    se_add m.(ProtoNode.slot) 1 = nb.(ProtoNode.slot) ∧ m.(ProtoNode.root) ≠ np.(ProtoNode.root).

Section boost.
Context (spe : Z) (fc : ForkChoice.t) (eq : gset nat) (spec : ChainSpec.t).
Abbreviation pa := fc.(ForkChoice.proto_array).
Abbreviation bal := fc.(ForkChoice.balances).(JustifiedBalances.effective_balances).
Context (Hok : tree_ok pa) (Hroots : roots_ok pa) (Hbal : balances_ok bal).
Context (Hlen : Z.of_nat (length fc.(ForkChoice.votes)) ≤ 2 ^ 32).

Lemma parent_weight_run p np :
  pa.(ProtoArray.nodes) !! p = Some np →
  parent_weight_of_votes fc (GNode np.(ProtoNode.root) GloasPayloadStatus.Pending) np.(ProtoNode.slot)
    (active_votes_of fc.(ForkChoice.votes) bal) 0 =
  Ok (Z.min u64_max (attestation_score fc (GNode np.(ProtoNode.root) GloasPayloadStatus.Pending) np.(ProtoNode.slot))).
Proof using Hok Hroots Hbal Hlen.
  intros Hp. rewrite (parent_weight_spec fc); [|by apply active_ok|by vm_compute].
  rewrite (active_score fc Hok Hroots Hlen _ _ p); [by rewrite Z.add_0_l|].
  apply (indices_ok _ Hok). eauto.
Qed.

Lemma attestation_score_nonneg node s : 0 ≤ attestation_score fc node s.
Proof using Hbal.
  clear Hlen. apply zsum_nonneg. intros v _. destruct (_ !! v); [|done]. pose proof (Hbal v).
  unfold gate. destruct (is_supporting_vote_gloas_at_slot _ _ _ _); lia.
Qed.

Lemma boost_run r b nb p np :
  pa.(ProtoArray.indices) !! r = Some b → pa.(ProtoArray.nodes) !! b = Some nb →
  nb.(ProtoNode.parent) = Some p → pa.(ProtoArray.nodes) !! p = Some np →
  ∃ applied, should_apply_proposer_boost_gloas spe fc r eq spec (active_votes_of fc.(ForkChoice.votes) bal)
      = Ok applied ∧
    (applied = false ↔ nb.(ProtoNode.slot) ≤ se_add np.(ProtoNode.slot) 1 ∧
       parent_weight fc eq np < reorg_threshold spe fc spec ∧ proposer_equivocated pa nb np).
Proof using Hok Hroots Hbal Hlen.
  intros Hb Hnb Hp Hnp. unfold should_apply_proposer_boost_gloas.
  destruct (Z.eqb_spec r hash_zero) as [->|_].
  { destruct (proj1 (indices_ok _ Hok _ _) Hb) as (m & Hm & E). by destruct (Hroots _ _ Hm). }
  rewrite Hb. simpl. rewrite Hnb, Hp. simpl. rewrite Hnp.
  destruct (Z.ltb_spec (se_add np.(ProtoNode.slot) 1) nb.(ProtoNode.slot)) as [Hlt|Hge].
  { exists true. split; [done|]. split; [done|]. clear Hlen. lia. }
  rewrite (parent_weight_run p np Hnp). simpl. pose proof (attestation_score_nonneg
    (GNode np.(ProtoNode.root) GloasPayloadStatus.Pending) np.(ProtoNode.slot)) as Hn.
  rewrite add_equivocating_spec by (done || (unfold u64_max; clear Hlen; lia)).
  assert (Z.min u64_max (Z.min u64_max (attestation_score fc (GNode np.(ProtoNode.root) GloasPayloadStatus.Pending)
    np.(ProtoNode.slot)) + zsum (balance_of bal) (elements eq)) = parent_weight fc eq np) as ->.
  { unfold parent_weight. assert (0 ≤ zsum (balance_of bal) (elements eq)) by (apply zsum_nonneg; intros; apply Hbal).
    clear Hlen. lia. }
  fold (reorg_threshold spe fc spec).
  destruct (Z.ltb_spec (parent_weight fc eq np) (reorg_threshold spe fc spec)) as [Hw|Hw]; simpl.
  2:{ exists true. split; [done|]. split; [done|]. clear Hlen. lia. }
  eexists. split; [done|]. rewrite negb_false_iff, existsb_exists. unfold proposer_equivocated. split.
  - intros (m & Hm & Ht). split_and!; [done..|]. btoprop.
    apply list_elem_of_In, list_elem_of_lookup in Hm as (j & Hj). eauto 10.
  - intros (_ & _ & j & m & Hj & Ht & H2 & H3 & H4). exists m. split.
    + apply list_elem_of_In, list_elem_of_lookup. eauto.
    + rewrite Ht, H2, Z.eqb_refl, H3, Z.eqb_refl. simpl. by apply negb_true_iff, Z.eqb_neq.
Qed.

Lemma boost_total r : ∃ applied,
  should_apply_proposer_boost_gloas spe fc r eq spec (active_votes_of fc.(ForkChoice.votes) bal) = Ok applied.
Proof using Hok Hroots Hbal Hlen.
  destruct (pa.(ProtoArray.indices) !! r) as [b|] eqn:Hb.
  2:{ unfold should_apply_proposer_boost_gloas. rewrite Hb. simpl. destruct (_ =? _); eauto. }
  destruct (proj1 (indices_ok _ Hok _ _) Hb) as (nb & Hnb & Hr).
  destruct nb.(ProtoNode.parent) as [p|] eqn:Hp.
  2:{ unfold should_apply_proposer_boost_gloas. rewrite Hb. simpl. rewrite Hnb, Hp. simpl. destruct (_ =? _); eauto. }
  destruct (parent_lookup pa Hok _ _ _ Hnb Hp) as [np Hnp].
  destruct (boost_run r b nb p np Hb Hnb Hp Hnp) as (applied & ? & _). eauto.
Qed.
End boost.

(** C34. Proposer boost.  For a boosted block with a known parent the code
    decides without panic, and withholds the boost exactly when no slot lies
    between the two blocks, the parent's weight (its supporting votes and all
    equivocating validators, capped at [u64::MAX]) is below the re-org threshold,
    and the parent's proposer made another timely block in the parent's slot. *)
Theorem should_apply_proposer_boost_correct spe fc r eq spec b nb p np :
  let pa := fc.(ForkChoice.proto_array) in
  let bal := fc.(ForkChoice.balances).(JustifiedBalances.effective_balances) in
  tree_ok pa → roots_ok pa → balances_ok bal → Z.of_nat (length fc.(ForkChoice.votes)) ≤ 2 ^ 32 →
  pa.(ProtoArray.indices) !! r = Some b → pa.(ProtoArray.nodes) !! b = Some nb →
  nb.(ProtoNode.parent) = Some p → pa.(ProtoArray.nodes) !! p = Some np →
  ∃ applied, should_apply_proposer_boost_gloas spe fc r eq spec (active_votes_of fc.(ForkChoice.votes) bal)
      = Ok applied ∧
    (applied = false ↔ nb.(ProtoNode.slot) ≤ se_add np.(ProtoNode.slot) 1 ∧
       parent_weight fc eq np < reorg_threshold spe fc spec ∧ proposer_equivocated pa nb np).
Proof. intros pa bal Hok Hroots Hbal Hlen. by apply boost_run. Qed.

(** Block 20 weighs 6300, above the threshold of 39: block 21 is boosted. *)
Lemma should_apply_proposer_boost_correct_witness :
  ∃ applied, should_apply_proposer_boost_gloas ex_spe gl_fc 21 ∅ gl_spec
    (active_votes_of gl_fc.(ForkChoice.votes) [3200; 3100]) = Ok applied ∧ applied ≠ false.
Proof.
  assert (∃ nb np, gl_array.(ProtoArray.nodes) !! 1%nat = Some nb ∧ nb.(ProtoNode.parent) = Some 0%nat ∧
    gl_array.(ProtoArray.nodes) !! 0%nat = Some np ∧
    ¬ parent_weight gl_fc ∅ np < reorg_threshold ex_spe gl_fc gl_spec) as (nb & np & Hnb & Hp & Hnp & Hw).
  { eexists _, _. split_and!; [reflexivity..|]. vm_compute. discriminate. }
  destruct (should_apply_proposer_boost_correct ex_spe gl_fc 21 ∅ gl_spec 1 nb 0 np gl_tree gl_roots
    gl_balances ltac:(vm_compute; discriminate) ltac:(vm_compute; reflexivity) Hnb Hp Hnp) as (a & Ha & Hiff).
  exists a. split; [exact Ha|]. intros E. apply Hiff in E as (_ & E & _). done.
Defined.

(** ** The head *)
Section unique.
Context (spe : Z) (r : Hash256) (slot : Slot) (spec : ChainSpec.t) (fc : ForkChoice.t).

Lemma best_child_unique boosting node c c' :
  best_gloas_child spe fc r boosting slot spec node c →
  best_gloas_child spe fc r boosting slot spec node c' → c = c'.
Proof using.
  intros [Hc Hmax] [Hc' Hmax'].
  assert (c.(GloasForkChoiceNode.root) = c'.(GloasForkChoiceNode.root) ∧
    tiebreak fc r slot spec c = tiebreak fc r slot spec c') as [Hr Ht].
  { pose proof (Hmax _ Hc') as H1. pose proof (Hmax' _ Hc) as H2. simpl in H1, H2. lia. }
  destruct Hc as [r0|r0 i n Hi Hn _|r0 st i n x nx Hst Hi Hn Hx Hp _ _]; inversion Hc'; subst; simpl in *;
    try done; try congruence; exfalso; revert Ht; unfold tiebreak, get_payload_tiebreaker; simpl;
    destruct (match _ with Some n => _ | None => false end); simpl; try lia;
    destruct (should_extend_payload _ _ _ _ _); lia.
Qed.

Lemma gloas_ghost_unique boosting node h h' :
  gloas_ghost spe fc r boosting slot spec node h → gloas_ghost spe fc r boosting slot spec node h' → h = h'.
Proof using.
  intros Hg. revert h'. induction Hg as [node Hno|node c h Hb Hg IH]; intros h' Hg'.
  - inversion Hg' as [|? c ? [Hc _]]; subst; [done|]. by destruct (Hno c).
  - inversion Hg' as [? Hno|? c' ? Hb' Hg'']; subst; [by destruct (Hno c), Hb|].
    apply IH. by rewrite (best_child_unique _ _ _ _ Hb Hb').
Qed.

Lemma gloas_ghost_settled boosting node h :
  gloas_ghost spe fc r boosting slot spec node h → h.(GloasForkChoiceNode.payload_status) ≠ GloasPayloadStatus.Pending.
Proof using.
  induction 1 as [[r0 st] Hno|]; [|done]. simpl. intros ->. destruct (Hno (GNode r0 GloasPayloadStatus.Empty)).
  constructor.
Qed.
End unique.

Section head.
Context (spe : Z) (jc fin : Checkpoint.t) (jb : JustifiedBalances.t) (r : Hash256) (eq : gset nat)
  (slot : Slot) (spec : ChainSpec.t) (fc : ForkChoice.t).
(** The fork choice the walk starts from. *)
Abbreviation fc1 := (gloas_prepare jc fin jb eq fc).
Abbreviation start := (GNode jc.(Checkpoint.root) GloasPayloadStatus.Pending).

Lemma prepare_array :
  fc1.(ForkChoice.proto_array).(ProtoArray.nodes) = fc.(ForkChoice.proto_array).(ProtoArray.nodes) ∧
  fc1.(ForkChoice.proto_array).(ProtoArray.indices) = fc.(ForkChoice.proto_array).(ProtoArray.indices).
Proof using.
  unfold gloas_prepare, maybe_update_balances.
  repeat match goal with |- context [if ?b then _ else _] => destruct b end; done.
Qed.

Lemma prepare_votes : length fc1.(ForkChoice.votes) = length fc.(ForkChoice.votes).
Proof using.
  unfold gloas_prepare, maybe_update_balances.
  repeat match goal with |- context [if ?b then _ else _] => destruct b end; apply length_imap.
Qed.

Lemma prepare_tree : tree_ok fc.(ForkChoice.proto_array) → tree_ok fc1.(ForkChoice.proto_array).
Proof using. destruct prepare_array as [H1 H2]. intros [Hp Hi]. split; rewrite ?H1, ?H2; done. Qed.

Lemma prepare_roots : roots_ok fc.(ForkChoice.proto_array) → roots_ok fc1.(ForkChoice.proto_array).
Proof using. destruct prepare_array as [H1 H2]. unfold roots_ok. by rewrite H1. Qed.

Context (Hgloas : is_gloas spe slot spec = true).
Context (Hok : tree_ok fc.(ForkChoice.proto_array)) (Hroots : roots_ok fc.(ForkChoice.proto_array)).
Context (Hbal : balances_ok fc1.(ForkChoice.balances).(JustifiedBalances.effective_balances)).
Context (Hlen : Z.of_nat (length fc.(ForkChoice.votes)) ≤ 2 ^ 32).

Lemma gloas_head_run boosting bufs :
  should_apply_proposer_boost_gloas spe fc1 r eq spec (active_votes_of fc1.(ForkChoice.votes)
    fc1.(ForkChoice.balances).(JustifiedBalances.effective_balances)) = Ok boosting →
  ∃ h bufs', fc_find_head spe jc fin jb r eq slot spec (GloasState.mk fc bufs) =
    (Ok h.(GloasForkChoiceNode.root),
     GloasState.mk (ForkChoice.set_gloas_status
       (Some (GloasPayloadStatus.as_u8 h.(GloasForkChoiceNode.payload_status))) fc1) bufs') ∧
    gloas_ghost spe fc1 r boosting slot spec start h.
Proof using Hgloas Hok Hroots Hbal Hlen.
  intros Hboost. unfold fc_find_head. rewrite Hgloas.
  rewrite (bind_ok_eq _ _ _ tt (GloasState.mk fc1 bufs)) by done.
  unfold find_head_gloas. set (pa1 := fc1.(ForkChoice.proto_array)).
  set (bufs1 := GloasBuffers.mk (compute_filtered_nodes_into spe pa1 slot bufs.(GloasBuffers.filtered))
    (build_children_index_into pa1 bufs.(GloasBuffers.children))
    (active_votes_of fc1.(ForkChoice.votes) fc1.(ForkChoice.balances).(JustifiedBalances.effective_balances))
    bufs.(GloasBuffers.children_result) bufs.(GloasBuffers.ancestor_cache)).
  rewrite (bind_ok_eq _ _ _ tt (GloasState.mk fc1 bufs1)) by done.
  rewrite (bind_ok_eq _ _ _ (GloasState.mk fc1 bufs1) (GloasState.mk fc1 bufs1)) by done.
  rewrite (bind_ok_eq _ _ _ boosting (GloasState.mk fc1 bufs1)) by (unfold lift; simpl; by rewrite Hboost).
  rewrite (bind_ok_eq _ _ _ tt (GloasState.mk fc1 (GloasBuffers.set_ancestor_cache ∅ bufs1))) by done.
  simpl. apply (gloas_loop_spec fc1 (prepare_tree Hok) (prepare_roots Hroots) Hbal).
  - by rewrite prepare_votes.
  - clear Hlen. unfold depth, gloas_fuel. simpl. destruct (_ !! _); lia.
  - split_and!; simpl; [|by eexists|done]. intros i. apply filtered_spec. by apply prepare_tree.
Qed.

End head.

(** C4. The Gloas head.  From the Gloas fork epoch on, on a well-formed tree
    with non-zero roots, non-negative balances and at most 2^32 votes,
    [find_head] terminates without error or panic.  It returns the block of the
    virtual node where the GHOST rule ends: from the pending node of the
    justified block it goes, at each step, to the child of greatest weight (the
    balance of its supporting votes and the proposer boost, capped at
    [u64::MAX], nothing for an empty or full node of the previous slot), larger
    roots and then larger tie-breaks winning.  Children are the empty node of the
    block, the full one once its envelope was received, and the blocks built on
    that payload status that lead to a viable head.  The head's payload status,
    recorded beside it, is empty or full. *)
Theorem find_head_gloas_ghost spe jc fin jb r eq slot spec fc bufs :
  let fc1 := gloas_prepare jc fin jb eq fc in
  let bal := fc1.(ForkChoice.balances).(JustifiedBalances.effective_balances) in
  is_gloas spe slot spec = true → tree_ok fc.(ForkChoice.proto_array) → roots_ok fc.(ForkChoice.proto_array) →
  balances_ok bal → Z.of_nat (length fc.(ForkChoice.votes)) ≤ 2 ^ 32 →
  ∃ boosting h bufs',
    should_apply_proposer_boost_gloas spe fc1 r eq spec (active_votes_of fc1.(ForkChoice.votes) bal) = Ok boosting ∧
    gloas_ghost spe fc1 r boosting slot spec (GNode jc.(Checkpoint.root) GloasPayloadStatus.Pending) h ∧
    h.(GloasForkChoiceNode.payload_status) ≠ GloasPayloadStatus.Pending ∧
    fc_find_head spe jc fin jb r eq slot spec (GloasState.mk fc bufs) =
      (Ok h.(GloasForkChoiceNode.root),
       GloasState.mk (ForkChoice.set_gloas_status
         (Some (GloasPayloadStatus.as_u8 h.(GloasForkChoiceNode.payload_status))) fc1) bufs').
Proof.
  intros fc1 bal Hg Hok Hroots Hbal Hlen.
  destruct (boost_total spe fc1 eq spec (prepare_tree _ _ _ _ _ Hok) (prepare_roots _ _ _ _ _ Hroots) Hbal
    ltac:(unfold fc1; by rewrite prepare_votes) r) as [boosting Hboost].
  destruct (gloas_head_run spe jc fin jb r eq slot spec fc Hg Hok Hroots Hbal Hlen boosting bufs Hboost)
    as (h & bufs' & Hrun & Hgh).
  exists boosting, h, bufs'. split_and!; [done..|by eapply gloas_ghost_settled|done].
Qed.

(** In the example the full branch wins: 3200 against 3100. *)
Lemma find_head_gloas_ghost_witness :
  ∃ bufs', fc_find_head ex_spe gl_cp gl_cp gl_jb hash_zero ∅ 6 gl_spec (GloasState.mk gl_fc gl_bufs) =
    (Ok 21, GloasState.mk (ForkChoice.set_gloas_status (Some 0) (gloas_prepare gl_cp gl_cp gl_jb ∅ gl_fc)) bufs').
Proof.
  destruct (find_head_gloas_ghost ex_spe gl_cp gl_cp gl_jb hash_zero ∅ 6 gl_spec gl_fc gl_bufs
    ltac:(vm_compute; reflexivity) gl_tree gl_roots gl_balances ltac:(vm_compute; discriminate))
    as (b & h & bufs' & _ & _ & _ & Hrun).
  exists bufs'. 
  assert (∃ s, fc_find_head ex_spe gl_cp gl_cp gl_jb hash_zero ∅ 6 gl_spec (GloasState.mk gl_fc gl_bufs) = (Ok 21, s) ∧
    s.(GloasState.fc).(ForkChoice.gloas_head_payload_status) = Some 0) as (s & Hs & Hst)
    by (eexists; split; vm_compute; reflexivity).
  rewrite Hs in Hrun. injection Hrun as Hh Hs'. subst s. simpl in Hst. rewrite Hs, Hst. reflexivity.
Defined.

(** The buffers only save allocations: two fork choices that differ in the
    contents of their Gloas buffers find the same head and agree afterwards. *)
Theorem gloas_head_ignores_buffers spe jc fin jb r eq slot spec fc bufs bufs' :
  let fc1 := gloas_prepare jc fin jb eq fc in
  is_gloas spe slot spec = true → tree_ok fc.(ForkChoice.proto_array) → roots_ok fc.(ForkChoice.proto_array) →
  balances_ok fc1.(ForkChoice.balances).(JustifiedBalances.effective_balances) →
  Z.of_nat (length fc.(ForkChoice.votes)) ≤ 2 ^ 32 →
  let run b := fc_find_head spe jc fin jb r eq slot spec (GloasState.mk fc b) in
  (run bufs).1 = (run bufs').1 ∧ (run bufs).2.(GloasState.fc) = (run bufs').2.(GloasState.fc).
Proof.
  intros fc1 Hg Hok Hroots Hbal Hlen run.
  destruct (boost_total spe fc1 eq spec (prepare_tree _ _ _ _ _ Hok) (prepare_roots _ _ _ _ _ Hroots) Hbal
    ltac:(unfold fc1; by rewrite prepare_votes) r) as [boosting Hboost].
  destruct (gloas_head_run spe jc fin jb r eq slot spec fc Hg Hok Hroots Hbal Hlen boosting bufs Hboost)
    as (h & b1 & Hrun & Hgh).
  destruct (gloas_head_run spe jc fin jb r eq slot spec fc Hg Hok Hroots Hbal Hlen boosting bufs' Hboost)
    as (h' & b1' & Hrun' & Hgh').
  unfold run. rewrite Hrun, Hrun'. simpl. by rewrite (gloas_ghost_unique _ _ _ _ _ _ _ _ _ Hgh Hgh').
Qed.

