(* ===== verification/ForkSchedule.v ===== *)
(** * The fork schedule

    [consensus/types/src/fork_name.rs], the part of [chain_spec.rs] that maps
    epochs to forks, [fork.rs], and the decision roots of proposer shufflings
    ([Block::proposer_shuffling_root_for_child_block]).

    Correspondence.  [ForkSpec.t] has the fields of [ChainSpec] that these
    functions read; a fork version is the number its four bytes spell.  The
    derived order on [ForkName] is the order of [rank]. *)
From Stdlib Require Import String Ascii.
From stdpp Require Import sorting.
From S2P Require Import Prelude SlotEpoch ProtoArrayDefs.

Module ForkName.
Inductive t : Type := Base | Altair | Bellatrix | Capella | Deneb | Electra | Fulu | Gloas | Heze.
#[global] Instance eq_dec : EqDecision t.
Proof. solve_decision. Defined.

Definition list_all : list t := [Base; Altair; Bellatrix; Capella; Deneb; Electra; Fulu; Gloas; Heze].

Definition rank (f : t) : nat :=
  match f with
  | Base => 0 | Altair => 1 | Bellatrix => 2 | Capella => 3 | Deneb => 4
  | Electra => 5 | Fulu => 6 | Gloas => 7 | Heze => 8
  end.
(** [a >= b]. *)
Definition ge (a b : t) : bool := (rank b <=? rank a)%nat.

Definition previous_fork (f : t) : option t :=
  match f with
  | Base => None
  | Altair => Some Base
  | Bellatrix => Some Altair
  | Capella => Some Bellatrix
  | Deneb => Some Capella
  | Electra => Some Deneb
  | Fulu => Some Electra
  | Gloas => Some Fulu
  | Heze => Some Gloas
  end.

Definition next_fork (f : t) : option t :=
  match f with
  | Base => Some Altair
  | Altair => Some Bellatrix
  | Bellatrix => Some Capella
  | Capella => Some Deneb
  | Deneb => Some Electra
  | Electra => Some Fulu
  | Fulu => Some Gloas
  | Gloas => Some Heze
  | Heze => None
  end.

Definition fulu_enabled (f : t) : bool := ge f Fulu.

(** [to_lowercase]; only ASCII letters occur in the names below. *)
Definition lower_ascii (c : ascii) : ascii :=
  let n := nat_of_ascii c in
  if (65 <=? n)%nat && (n <=? 90)%nat then ascii_of_nat (n + 32) else c.
Fixpoint to_lowercase (s : string) : string :=
  match s with
  | EmptyString => EmptyString
  | String c s' => String (lower_ascii c) (to_lowercase s')
  end.

Definition names : list (string * t) :=
  [("phase0", Base); ("base", Base); ("altair", Altair); ("bellatrix", Bellatrix);
   ("merge", Bellatrix); ("capella", Capella); ("deneb", Deneb); ("electra", Electra);
   ("fulu", Fulu); ("gloas", Gloas); ("heze", Heze)]%string.

(** [FromStr]; the error message is the unknown name. *)
Definition from_str (s : string) : outcome string t :=
  match List.find (fun '(n, _) => String.eqb n (to_lowercase s)) names with
  | Some (_, f) => Ok f
  | None => Err s
  end.

(** [Display]. *)
Definition to_string (f : t) : string :=
  match f with
  | Base => "phase0" | Altair => "altair" | Bellatrix => "bellatrix" | Capella => "capella"
  | Deneb => "deneb" | Electra => "electra" | Fulu => "fulu" | Gloas => "gloas" | Heze => "heze"
  end%string.
End ForkName.

Module ForkSpec.
Record t : Type := mk {
  altair_fork_epoch : option Epoch;
  bellatrix_fork_epoch : option Epoch;
  capella_fork_epoch : option Epoch;
  deneb_fork_epoch : option Epoch;
  electra_fork_epoch : option Epoch;
  fulu_fork_epoch : option Epoch;
  gloas_fork_epoch : option Epoch;
  heze_fork_epoch : option Epoch;
  genesis_fork_version : Z;
  altair_fork_version : Z;
  bellatrix_fork_version : Z;
  capella_fork_version : Z;
  deneb_fork_version : Z;
  electra_fork_version : Z;
  fulu_fork_version : Z;
  gloas_fork_version : Z;
  heze_fork_version : Z;
  far_future_epoch : Epoch;
  min_seed_lookahead : Z;
  blob_schedule : list (Epoch * Z);
}.
Definition set_epochs (a b c d e f g h : option Epoch) (s : t) : t :=
  mk a b c d e f g h s.(genesis_fork_version) s.(altair_fork_version) s.(bellatrix_fork_version)
    s.(capella_fork_version) s.(deneb_fork_version) s.(electra_fork_version) s.(fulu_fork_version)
    s.(gloas_fork_version) s.(heze_fork_version) s.(far_future_epoch) s.(min_seed_lookahead)
    s.(blob_schedule).
End ForkSpec.

Definition fork_epoch (spec : ForkSpec.t) (fork_name : ForkName.t) : option Epoch :=
  match fork_name with
  | ForkName.Base => Some 0
  | ForkName.Altair => spec.(ForkSpec.altair_fork_epoch)
  | ForkName.Bellatrix => spec.(ForkSpec.bellatrix_fork_epoch)
  | ForkName.Capella => spec.(ForkSpec.capella_fork_epoch)
  | ForkName.Deneb => spec.(ForkSpec.deneb_fork_epoch)
  | ForkName.Electra => spec.(ForkSpec.electra_fork_epoch)
  | ForkName.Fulu => spec.(ForkSpec.fulu_fork_epoch)
  | ForkName.Gloas => spec.(ForkSpec.gloas_fork_epoch)
  | ForkName.Heze => spec.(ForkSpec.heze_fork_epoch)
  end.

(** The [for] loop of [fork_name_at_epoch]. *)
Fixpoint first_active (forks : list (option Epoch * ForkName.t)) (epoch : Epoch) : ForkName.t :=
  match forks with
  | [] => ForkName.Base
  | (Some fork_epoch, fork_name) :: rest =>
      if fork_epoch <=? epoch then fork_name else first_active rest epoch
  | (None, _) :: rest => first_active rest epoch
  end.

Definition fork_name_at_epoch (spec : ForkSpec.t) (epoch : Epoch) : ForkName.t :=
  first_active
    [ (spec.(ForkSpec.heze_fork_epoch), ForkName.Heze);
      (spec.(ForkSpec.gloas_fork_epoch), ForkName.Gloas);
      (spec.(ForkSpec.fulu_fork_epoch), ForkName.Fulu);
      (spec.(ForkSpec.electra_fork_epoch), ForkName.Electra);
      (spec.(ForkSpec.deneb_fork_epoch), ForkName.Deneb);
      (spec.(ForkSpec.capella_fork_epoch), ForkName.Capella);
      (spec.(ForkSpec.bellatrix_fork_epoch), ForkName.Bellatrix);
      (spec.(ForkSpec.altair_fork_epoch), ForkName.Altair) ] epoch.

Definition fork_name_at_slot (slots_per_epoch : Z) (spec : ForkSpec.t) (slot : Slot) : ForkName.t :=
  fork_name_at_epoch spec (epoch slot slots_per_epoch).

Definition next_fork_epoch (slots_per_epoch : Z) (spec : ForkSpec.t) (slot : Slot)
    : option (ForkName.t * Epoch) :=
  let current_fork_name := fork_name_at_slot slots_per_epoch spec slot in
  next_fork_name ← ForkName.next_fork current_fork_name;
  fork_epoch ← fork_epoch spec next_fork_name;
  Some (next_fork_name, fork_epoch).

Definition fork_version_for_name (spec : ForkSpec.t) (fork_name : ForkName.t) : Z :=
  match fork_name with
  | ForkName.Base => spec.(ForkSpec.genesis_fork_version)
  | ForkName.Altair => spec.(ForkSpec.altair_fork_version)
  | ForkName.Bellatrix => spec.(ForkSpec.bellatrix_fork_version)
  | ForkName.Capella => spec.(ForkSpec.capella_fork_version)
  | ForkName.Deneb => spec.(ForkSpec.deneb_fork_version)
  | ForkName.Electra => spec.(ForkSpec.electra_fork_version)
  | ForkName.Fulu => spec.(ForkSpec.fulu_fork_version)
  | ForkName.Gloas => spec.(ForkSpec.gloas_fork_version)
  | ForkName.Heze => spec.(ForkSpec.heze_fork_version)
  end.

Definition fork_version_for_epoch (spec : ForkSpec.t) (epoch : Epoch) : Z :=
  fork_version_for_name spec (fork_name_at_epoch spec epoch).

Definition next_fork_version (slots_per_epoch : Z) (spec : ForkSpec.t) (slot : Slot) : Z :=
  match next_fork_epoch slots_per_epoch spec slot with
  | Some (fork, _) => fork_version_for_name spec fork
  | None => fork_version_for_name spec (fork_name_at_slot slots_per_epoch spec slot)
  end.

Module Fork.
Record t : Type := mk { previous_version : Z; current_version : Z; epoch : Epoch }.
Definition get_fork_version (f : t) (e : Epoch) : Z :=
  if e <? f.(epoch) then f.(previous_version) else f.(current_version).
End Fork.

Definition fork_at_epoch (spec : ForkSpec.t) (epoch : Epoch) : Fork.t :=
  let current_fork_name := fork_name_at_epoch spec epoch in
  let fork_epoch := default 0 (fork_epoch spec current_fork_name) in
  let previous_fork_name :=
    if fork_epoch =? 0 then current_fork_name
    else default ForkName.Base (ForkName.previous_fork current_fork_name) in
  Fork.mk (fork_version_for_name spec previous_fork_name)
    (fork_version_for_name spec current_fork_name) fork_epoch.

Definition make_genesis_spec (fork : ForkName.t) (spec : ForkSpec.t) : ForkSpec.t :=
  let z := Some 0 in
  match fork with
  | ForkName.Base => ForkSpec.set_epochs None None None None None None None None spec
  | ForkName.Altair => ForkSpec.set_epochs z None None None None None None None spec
  | ForkName.Bellatrix => ForkSpec.set_epochs z z None None None None None None spec
  | ForkName.Capella => ForkSpec.set_epochs z z z None None None None None spec
  | ForkName.Deneb => ForkSpec.set_epochs z z z z None None None None spec
  | ForkName.Electra => ForkSpec.set_epochs z z z z z None None None spec
  | ForkName.Fulu => ForkSpec.set_epochs z z z z z z None None spec
  | ForkName.Gloas => ForkSpec.set_epochs z z z z z z z None spec
  | ForkName.Heze => ForkSpec.set_epochs z z z z z z z z spec
  end.

(** ** Digest epochs *)
Definition is_fulu_scheduled (spec : ForkSpec.t) : bool :=
  match spec.(ForkSpec.fulu_fork_epoch) with
  | Some e => negb (e =? spec.(ForkSpec.far_future_epoch))
  | None => false
  end.

Definition all_digest_epochs (spec : ForkSpec.t) : list Epoch :=
  let relevant_epochs : gset Z := list_to_set (omap (fork_epoch spec) ForkName.list_all) in
  let relevant_epochs :=
    if is_fulu_scheduled spec
    then foldl (fun s '(e, _) => {[ e ]} ∪ s) relevant_epochs spec.(ForkSpec.blob_schedule)
    else relevant_epochs in
  merge_sort Z.le (elements relevant_epochs).

Definition next_digest_epoch (spec : ForkSpec.t) (epoch : Epoch) : option Epoch :=
  if match spec.(ForkSpec.fulu_fork_epoch) with Some e => e <=? epoch | None => false end
  then List.find (fun digest_epoch => epoch <? digest_epoch) (all_digest_epochs spec)
  else fork_name ← ForkName.next_fork (fork_name_at_epoch spec epoch); fork_epoch spec fork_name.

(** ** Proposer shuffling *)
Definition proposer_shuffling_decision_slot (slots_per_epoch : Z) (spec : ForkSpec.t) (e : Epoch) : Slot :=
  if ForkName.fulu_enabled (fork_name_at_epoch spec (u64_saturating_sub e 1)) then
    u64_saturating_sub
      (start_slot (u64_saturating_sub e spec.(ForkSpec.min_seed_lookahead)) slots_per_epoch) 1
  else
    u64_saturating_sub
      (start_slot (u64_saturating_sub (u64_saturating_add e 1) spec.(ForkSpec.min_seed_lookahead))
         slots_per_epoch) 1.

Definition proposer_shuffling_root_for_child_block (spec : ForkSpec.t) (block : Block.t)
    (child_block_epoch : Epoch) : Hash256 :=
  let block_epoch := block.(Block.current_epoch_shuffling_id).(AttestationShufflingId.shuffling_epoch) in
  if ForkName.fulu_enabled (fork_name_at_epoch spec (u64_saturating_sub child_block_epoch 1)) then
    if child_block_epoch =? block_epoch then
      block.(Block.current_epoch_shuffling_id).(AttestationShufflingId.shuffling_decision_block)
    else if child_block_epoch =? se_add block_epoch 1 then
      block.(Block.next_epoch_shuffling_id).(AttestationShufflingId.shuffling_decision_block)
    else block.(Block.root)
  else
    if block_epoch =? child_block_epoch then
      block.(Block.next_epoch_shuffling_id).(AttestationShufflingId.shuffling_decision_block)
    else block.(Block.root).

(** [BeaconState::attester_shuffling_decision_slot] for the current and the next
    epoch of a state in [current_epoch]. *)
Definition previous_epoch (current_epoch : Epoch) : Epoch :=
  match safe_sub current_epoch 1 with Ok prev_epoch => prev_epoch | _ => current_epoch end.
Inductive RelativeEpoch : Type := Previous | Current | Next.
Definition attester_shuffling_decision_slot (slots_per_epoch : Z) (current_epoch : Epoch)
    (relative_epoch : RelativeEpoch) : Slot :=
  u64_saturating_sub
    (start_slot
       match relative_epoch with
       | Next => current_epoch
       | Current => previous_epoch current_epoch
       | Previous => u64_saturating_sub (previous_epoch current_epoch) 1
       end slots_per_epoch) 1.
