(* ===== verification/ForkScheduleCorrect.v ===== *)
(** * Theorems on the fork schedule *)
From Stdlib Require Import String.
From stdpp Require Import sorting.
From S2P Require Import Prelude SlotEpoch ProtoArrayDefs ForkSchedule ProtoArrayWalk.

(** The fork has started by the epoch. *)
Definition active (spec : ForkSpec.t) (f : ForkName.t) (e : Epoch) : bool :=
  match fork_epoch spec f with Some x => x <=? e | None => false end.

(** Forks start in order, and none follows one that is not scheduled. *)
Record schedule_ok (spec : ForkSpec.t) : Prop := {
  epochs_ordered : ∀ f g x y, (ForkName.rank f ≤ ForkName.rank g)%nat →
    fork_epoch spec f = Some x → fork_epoch spec g = Some y → x ≤ y;
  no_gaps : ∀ f g, (ForkName.rank f ≤ ForkName.rank g)%nat →
    fork_epoch spec f = None → fork_epoch spec g = None;
}.

Lemma rank_inj f g : ForkName.rank f = ForkName.rank g → f = g.
Proof. by destruct f, g. Qed.

Lemma rank_next f g : ForkName.next_fork f = Some g ↔ ForkName.rank g = S (ForkName.rank f).
Proof. destruct f, g; simpl; split; intros; (done || congruence || lia). Qed.

Lemma active_mono spec f e e' : e ≤ e' → active spec f e = true → active spec f e' = true.
Proof.
  unfold active. destruct (fork_epoch spec f); [|done]. intros. apply Z.leb_le. btoprop. lia.
Qed.

(** The loop as a cascade of tests. *)
Lemma fork_name_cascade spec e :
  fork_name_at_epoch spec e =
    if active spec ForkName.Heze e then ForkName.Heze
    else if active spec ForkName.Gloas e then ForkName.Gloas
    else if active spec ForkName.Fulu e then ForkName.Fulu
    else if active spec ForkName.Electra e then ForkName.Electra
    else if active spec ForkName.Deneb e then ForkName.Deneb
    else if active spec ForkName.Capella e then ForkName.Capella
    else if active spec ForkName.Bellatrix e then ForkName.Bellatrix
    else if active spec ForkName.Altair e then ForkName.Altair
    else ForkName.Base.
Proof.
  assert (∀ o f l, first_active ((o, f) :: l) e =
    if match o with Some x => x <=? e | None => false end then f else first_active l e) as Hc
    by (by intros []). unfold fork_name_at_epoch. by rewrite !Hc.
Qed.

Lemma fork_name_latest spec e :
  0 ≤ e →
  active spec (fork_name_at_epoch spec e) e = true ∧
  ∀ g, (ForkName.rank (fork_name_at_epoch spec e) < ForkName.rank g)%nat → active spec g e = false.
Proof.
  intros He. rewrite fork_name_cascade.
  repeat match goal with |- context [if active spec ?f e then _ else _] =>
    destruct (active spec f e) eqn:?; [split; [done|intros []; simpl; (done || lia)]|] end.
  simpl. split; [by apply Z.leb_le|]. intros []; simpl; (done || lia).
Qed.

Lemma fork_name_unique spec e f :
  0 ≤ e → active spec f e = true → (∀ g, (ForkName.rank f < ForkName.rank g)%nat → active spec g e = false) →
  fork_name_at_epoch spec e = f.
Proof.
  intros He Hf Hmax. destruct (fork_name_latest spec e He) as [Ha Hl]. apply rank_inj.
  destruct (Nat.lt_trichotomy (ForkName.rank (fork_name_at_epoch spec e)) (ForkName.rank f))
    as [Hlt|[Heq|Hgt]]; [|done|].
  - rewrite (Hl _ Hlt) in Hf. done.
  - rewrite (Hmax _ Hgt) in Ha. done.
Qed.

Lemma fork_name_mono_rank spec e e' :
  0 ≤ e ≤ e' → (ForkName.rank (fork_name_at_epoch spec e) ≤ ForkName.rank (fork_name_at_epoch spec e'))%nat.
Proof.
  intros He. destruct (fork_name_latest spec e ltac:(lia)) as [Ha _].
  destruct (fork_name_latest spec e' ltac:(lia)) as [_ Hl].
  destruct (decide (ForkName.rank (fork_name_at_epoch spec e) ≤ ForkName.rank (fork_name_at_epoch spec e'))%nat);
    [done|]. specialize (Hl (fork_name_at_epoch spec e) ltac:(lia)).
  apply (active_mono _ _ _ e') in Ha; [congruence|lia].
Qed.

(** Between two epochs with the same latest fork the name does not change. *)
Lemma fork_name_const spec e e' :
  0 ≤ e ≤ e' →
  (∀ g, (ForkName.rank (fork_name_at_epoch spec e) < ForkName.rank g)%nat → active spec g e' = false) →
  fork_name_at_epoch spec e' = fork_name_at_epoch spec e.
Proof.
  intros He Hno. apply fork_name_unique; [lia| |done].
  apply (active_mono _ _ e); [lia|]. apply (fork_name_latest spec e). lia.
Qed.

(** The fork at an epoch is the latest one that has started: [f] is returned
    exactly when [f] is scheduled at or before the epoch and no later fork is. *)
Theorem fork_name_at_epoch_correct spec e f :
  0 ≤ e →
  fork_name_at_epoch spec e = f ↔
  active spec f e = true ∧ ∀ g, (ForkName.rank f < ForkName.rank g)%nat → active spec g e = false.
Proof.
  intros He. split; [intros <-; by apply fork_name_latest|]. intros [Ha Hm]. by apply fork_name_unique.
Qed.

(** A schedule with forks at 0, 0, 10, 20 and 30. *)
Definition ex_forks : ForkSpec.t :=
  ForkSpec.mk (Some 0) (Some 0) (Some 10) (Some 20) (Some 30) None None None
    0 1 2 3 4 5 6 7 8 u64_max 1 [].


(** [next_fork_epoch] announces the next change of fork.  On a schedule in
    order without gaps, if it returns [(g, y)] then [y] is in the future, the
    fork stays the same until [y], and from [y] on at least [g] is active; if it
    returns nothing the fork never changes again. *)
Theorem next_fork_epoch_correct spe spec slot :
  schedule_ok spec → 0 < spe → 0 ≤ slot →
  let now := epoch slot spe in
  let current := fork_name_at_epoch spec now in
  match next_fork_epoch spe spec slot with
  | Some (g, y) =>
      now < y ∧ (∀ e, now ≤ e < y → fork_name_at_epoch spec e = current) ∧
      (∀ e, y ≤ e → (ForkName.rank g ≤ ForkName.rank (fork_name_at_epoch spec e))%nat)
  | None => ∀ e, now ≤ e → fork_name_at_epoch spec e = current
  end.
Proof.
  intros [Hord Hgap] Hspe Hslot now current.
  assert (0 ≤ now) as Hnow by (apply Z.div_pos; lia).
  destruct (fork_name_latest spec now Hnow) as [_ Hlater]. fold current in Hlater.
  unfold next_fork_epoch, fork_name_at_slot. fold now current.
  destruct (ForkName.next_fork current) as [g|] eqn:Hg; simpl.
  - apply rank_next in Hg. destruct (fork_epoch spec g) as [y|] eqn:Hy; simpl.
    + assert (now < y).
      { specialize (Hlater g ltac:(lia)). unfold active in Hlater. rewrite Hy in Hlater. btoprop. lia. }
      split_and!; [done| |].
      * intros e He. apply fork_name_const; [lia|]. intros h Hh. fold current in Hh. unfold active.
        destruct (fork_epoch spec h) as [z|] eqn:Hz; [|done]. apply Z.leb_gt.
        pose proof (Hord g h y z ltac:(lia) Hy Hz). lia.
      * intros e He. destruct (fork_name_latest spec e ltac:(lia)) as [_ Hl].
        destruct (decide (ForkName.rank g ≤ ForkName.rank (fork_name_at_epoch spec e))%nat); [done|].
        specialize (Hl g ltac:(lia)). unfold active in Hl. rewrite Hy in Hl. btoprop. lia.
    + intros e He. apply fork_name_const; [lia|]. intros h Hh. unfold active.
      by rewrite (Hgap g h ltac:(fold current in Hh; lia) Hy).
  - intros e He. apply fork_name_const; [lia|]. intros h Hh. fold current in Hh.
    destruct current; try discriminate Hg. by destruct h; simpl in Hh; lia.
Qed.

Lemma ex_forks_ok : schedule_ok ex_forks.
Proof.
  split.
  - intros [] [] x y Hr Hx Hy; simpl in *; try lia; try discriminate; simplify_eq; lia.
  - intros [] [] Hr Hf; simpl in *; try lia; try discriminate; done.
Qed.


(** A genesis specification for a fork has that fork in force at every epoch. *)
Theorem make_genesis_spec_correct f spec e :
  0 ≤ e → fork_name_at_epoch (make_genesis_spec f spec) e = f.
Proof.
  intros He. apply fork_name_unique; [done| |].
  - destruct f; by apply Z.leb_le.
  - intros g Hg. destruct f, g; simpl in Hg; (done || lia).
Qed.


(** The fork of a state gives the right version for the messages it
    verifies.  The [Fork] of epoch [now] yields, for any earlier epoch from the
    start of its previous fork on, the version of the fork active then. *)
Theorem fork_version_consistent spec now e f :
  0 ≤ e ≤ now → f = fork_at_epoch spec now →
  (f.(Fork.epoch) ≤ e ∨
   ∃ p, ForkName.previous_fork (fork_name_at_epoch spec now) = Some p ∧ active spec p e = true) →
  Fork.get_fork_version f e = fork_version_for_epoch spec e.
Proof.
  intros He -> Hcase. destruct (fork_name_latest spec now ltac:(lia)) as [Hact Hlater].
  unfold Fork.get_fork_version, fork_version_for_epoch, fork_at_epoch in *. simpl in *.
  unfold active in Hact. destruct (fork_epoch spec (fork_name_at_epoch spec now)) as [x|] eqn:Hx; [|done].
  simpl in *. destruct (Z.ltb_spec e x) as [Hlt|Hge].
  - destruct (Z.eqb_spec x 0) as [->|Hx0]; [lia|]. destruct Hcase as [?|(p & Hp & Ha)]; [lia|].
    rewrite Hp. simpl. f_equal. symmetry. apply fork_name_unique; [lia|done|]. intros g Hg.
    assert (ForkName.rank (fork_name_at_epoch spec now) = S (ForkName.rank p)) as Hr
      by (revert Hp; destruct (fork_name_at_epoch spec now); intros [= <-]; done).
    destruct (decide (g = fork_name_at_epoch spec now)) as [->|Hne].
    + unfold active. rewrite Hx. by apply Z.leb_gt.
    + destruct (active spec g e) eqn:Hge; [|done]. apply (active_mono _ _ _ now) in Hge; [|lia].
      rewrite Hlater in Hge; [done|]. assert (ForkName.rank g ≠ ForkName.rank (fork_name_at_epoch spec now))
        by (intros ?%rank_inj; done). lia.
  - f_equal. symmetry. apply fork_name_unique; [lia| |].
    + unfold active. rewrite Hx. by apply Z.leb_le.
    + intros g Hg. destruct (active spec g e) eqn:Hge'; [|done].
      apply (active_mono _ _ _ now) in Hge'; [|lia]. by rewrite Hlater in Hge'.
Qed.


(** Names of forks survive printing and parsing. *)
Theorem fork_name_roundtrip f : ForkName.from_str (ForkName.to_string f) = Ok f.
Proof. by destruct f. Qed.

(** ** Digest epochs *)

(** An epoch at which the fork digest changes. *)
Definition digest_epoch (spec : ForkSpec.t) (x : Epoch) : Prop :=
  (∃ f, fork_epoch spec f = Some x) ∨
  (is_fulu_scheduled spec = true ∧ ∃ m, (x, m) ∈ spec.(ForkSpec.blob_schedule)).

Lemma blob_epochs_fold (l : list (Epoch * Z)) (s : gset Z) x :
  x ∈ foldl (fun s '(e, _) => {[ e ]} ∪ s) s l ↔ x ∈ s ∨ ∃ m, (x, m) ∈ l.
Proof.
  revert s. induction l as [|[e m] l IH]; intros s; simpl.
  - split; [by left|]. intros [?|[m Hm%elem_of_nil]]; done.
  - rewrite IH. rewrite elem_of_union, elem_of_singleton. split.
    + intros [[->|?]|[m' Hm']]; [right; exists m; left|by left|right; exists m'; by right].
    + intros [?|[m' [[= -> ->]|Hm']%elem_of_cons]]; [left; by right|by do 2 left|right; eauto].
Qed.

Lemma list_all_complete f : f ∈ ForkName.list_all.
Proof. unfold ForkName.list_all. destruct f; rewrite !elem_of_cons; tauto. Qed.

Lemma all_digest_epochs_spec spec x : x ∈ all_digest_epochs spec ↔ digest_epoch spec x.
Proof.
  unfold all_digest_epochs, digest_epoch. rewrite merge_sort_Permutation, elem_of_elements.
  assert (x ∈ (list_to_set (omap (fork_epoch spec) ForkName.list_all) : gset Z) ↔
    ∃ f, fork_epoch spec f = Some x) as Hf.
  { rewrite elem_of_list_to_set, list_elem_of_omap. split; [intros (f & _ & ?); eauto|].
    intros [f ?]. exists f. split; [apply list_all_complete|done]. }
  destruct (is_fulu_scheduled spec).
  - rewrite blob_epochs_fold, Hf. naive_solver.
  - rewrite Hf. naive_solver.
Qed.

Lemma find_sorted_least (l : list Z) e x : StronglySorted Z.le l →
  List.find (fun y => e <? y) l = Some x → x ∈ l ∧ e < x ∧ ∀ y, y ∈ l → e < y → x ≤ y.
Proof.
  induction 1 as [|z l Hs IH Hall]; [done|]. simpl. destruct (Z.ltb_spec e z) as [Hlt|Hge].
  - intros [= ->]. split_and!; [left|done|]. intros y [->|Hy]%elem_of_cons _; [lia|].
    rewrite List.Forall_forall in Hall. by apply Hall, list_elem_of_In.
  - intros Hf. destruct (IH Hf) as (Hin & Hx & Hmin). split_and!; [by right|done|].
    intros y [->|Hy]%elem_of_cons Hy'; [lia|by apply Hmin].
Qed.

(** After Fulu, [next_digest_epoch] is the first epoch after the given one at
    which a fork or a blob parameter takes effect, and nothing if there is none. *)
Theorem next_digest_epoch_least spec e :
  active spec ForkName.Fulu e = true →
  match next_digest_epoch spec e with
  | Some x => digest_epoch spec x ∧ e < x ∧ ∀ y, digest_epoch spec y → e < y → x ≤ y
  | None => ∀ y, digest_epoch spec y → y ≤ e
  end.
Proof.
  intros Ha. unfold next_digest_epoch, active in *. simpl in Ha. rewrite Ha.
  destruct (List.find _ _) as [x|] eqn:Hf.
  - apply find_sorted_least in Hf as (Hin & Hx & Hmin).
    + split_and!; [by apply all_digest_epochs_spec|done|].
      intros y Hy%all_digest_epochs_spec. by apply Hmin.
    + apply StronglySorted_merge_sort; [apply _|]. intros a b. unfold relation. lia.
  - intros y Hy%all_digest_epochs_spec. apply list_elem_of_In in Hy.
    pose proof (List.find_none _ _ Hf y Hy). simpl in *. by apply Z.ltb_ge.
Qed.

Definition ex_blobs : ForkSpec.t :=
  ForkSpec.mk (Some 0) (Some 0) (Some 0) (Some 0) (Some 0) (Some 5) (Some 40) None
    0 1 2 3 4 5 6 7 8 u64_max 1 [(30, 21); (20, 15)].


(** ** Proposer shuffling *)

(** [root_at s] is the block at or before slot [s] on the chain of [block]; the
    two shuffling ids of the block are those of its state. *)
Record on_chain (spe : Z) (root_at : Slot → Hash256) (block : Block.t) : Prop := {
  head_of_chain : ∀ s, block.(Block.slot) ≤ s → root_at s = block.(Block.root);
  current_id : block.(Block.current_epoch_shuffling_id) =
    AttestationShufflingId.mk (epoch block.(Block.slot) spe)
      (root_at (attester_shuffling_decision_slot spe (epoch block.(Block.slot) spe) Current));
  next_id : block.(Block.next_epoch_shuffling_id).(AttestationShufflingId.shuffling_decision_block) =
    root_at (attester_shuffling_decision_slot spe (epoch block.(Block.slot) spe) Next);
}.

Lemma previous_epoch_sub e : 0 ≤ e ≤ u64_max → previous_epoch e = u64_saturating_sub e 1.
Proof.
  intros He. unfold previous_epoch, safe_sub, u64_checked_sub, u64_saturating_sub.
  destruct (decide (e = 0)) as [->|]; [done|]. rewrite checked_u64_in by (unfold is_u64; lia). simpl. lia.
Qed.

Lemma start_slot_sub e spe : 0 ≤ e → 0 < spe → e * spe ≤ u64_max →
  u64_saturating_sub (start_slot e spe) 1 = Z.max (e * spe - 1) 0.
Proof. intros. unfold u64_saturating_sub, start_slot, u64_saturating_mul. lia. Qed.

Lemma epoch_bound slot spe : 0 < spe → slot < (epoch slot spe + 1) * spe.
Proof. intros. unfold epoch. pose proof (Z.mod_pos_bound slot spe). pose proof (Z.div_mod slot spe). nia. Qed.

(** The proposer shuffling of a child block is keyed by the right root.  For
    a block whose shuffling ids are those of its state, and a child in the same
    or a later epoch, [proposer_shuffling_root_for_child_block] is the root of
    the block at [proposer_shuffling_decision_slot] of the child's epoch, before
    and after Fulu. *)
Theorem proposer_shuffling_root_correct spe spec root_at block child_epoch :
  on_chain spe root_at block → 0 < spe → spec.(ForkSpec.min_seed_lookahead) = 1 →
  0 ≤ block.(Block.slot) → epoch block.(Block.slot) spe ≤ child_epoch →
  (child_epoch + 1) * spe ≤ u64_max →
  proposer_shuffling_root_for_child_block spec block child_epoch =
  root_at (proposer_shuffling_decision_slot spe spec child_epoch).
Proof.
  intros [Hhead Hcur Hnext] Hspe Hmin Hslot Hle Hfit.
  assert (0 ≤ epoch block.(Block.slot) spe) as Hb by (apply Z.div_pos; lia).
  pose proof (epoch_bound block.(Block.slot) spe Hspe) as Hend.
  unfold proposer_shuffling_root_for_child_block, proposer_shuffling_decision_slot.
  rewrite Hcur, Hnext, Hmin. simpl. revert Hb Hle Hend. generalize (epoch block.(Block.slot) spe) as b.
  intros b Hb Hle Hend. unfold attester_shuffling_decision_slot.
  assert (child_epoch < u64_max) by nia. rewrite previous_epoch_sub by lia.
  assert (u64_saturating_sub (u64_saturating_add child_epoch 1) 1 = child_epoch) as ->
    by (unfold u64_saturating_sub, u64_saturating_add; lia).
  destruct (ForkName.fulu_enabled _).
  - destruct (Z.eqb_spec child_epoch b) as [->|Hne]; [done|]. unfold se_add, u64_saturating_add.
    assert (u64_saturating_sub child_epoch 1 = child_epoch - 1) as -> by (unfold u64_saturating_sub; lia).
    destruct (Z.eqb_spec child_epoch (Z.min (b + 1) u64_max)).
    + by replace (child_epoch - 1) with b by lia.
    + symmetry. apply Hhead. rewrite start_slot_sub by nia. nia.
  - destruct (Z.eqb_spec b child_epoch) as [->|Hne]; [done|].
    symmetry. apply Hhead. rewrite start_slot_sub by nia. nia.
Qed.

(** A chain with a block in every epoch and a child two epochs later. *)
Definition ex_root_at (s : Slot) : Hash256 := 100 + Z.min (s / 32) 5.
Definition ex_shuffled : Block.t :=
  let b := ex_block 105 (Some 104) 160 (ExecutionStatus.Irrelevant false) in
  {| Block.slot := b.(Block.slot); Block.root := b.(Block.root); Block.parent_root := b.(Block.parent_root);
     Block.state_root := 0; Block.target_root := 105;
     Block.current_epoch_shuffling_id := AttestationShufflingId.mk 5 103;
     Block.next_epoch_shuffling_id := AttestationShufflingId.mk 6 104;
     Block.justified_checkpoint := ex_cp; Block.finalized_checkpoint := ex_cp;
     Block.execution_status := ExecutionStatus.Irrelevant false;
     Block.unrealized_justified_checkpoint := None; Block.unrealized_finalized_checkpoint := None;
     Block.builder_index := None; Block.payload_revealed := false; Block.ptc_weight := 0;
     Block.ptc_blob_data_available_weight := 0; Block.payload_data_available := false;
     Block.bid_block_hash := None; Block.bid_parent_block_hash := None;
     Block.proposer_index := 0; Block.ptc_timely := false; Block.envelope_received := false;
     Block.inclusion_list_satisfied := false |}.

Lemma ex_on_chain : on_chain 32 ex_root_at ex_shuffled.
Proof.
  split; [|reflexivity|reflexivity]. intros s Hs. unfold ex_root_at. change (160 ≤ s) in Hs.
  change (100 + Z.min (s / 32) 5 = 105). assert (5 ≤ s / 32) by (apply Z.div_le_lower_bound; lia). lia.
Qed.

