(* ===== verification/ShuffleDefs.v ===== *)
(** * Swap-or-not shuffling

    [consensus/swap_or_not_shuffle/src]: [compute_shuffled_index], which follows
    one index through all rounds, and [shuffle_list], which shuffles a whole list
    in place and hashes once for 256 positions.

    Correspondence.  A [usize] is a [nat] and a byte a [Z].  SHA-256, from the
    crate [ethereum_hashing], is the parameter [hash]; updating its [Context]
    piecewise hashes the concatenation.  An index out of range panics. *)
From S2P Require Import Prelude.

(** Code that may panic but returns no error. *)
Abbreviation run := (outcome Empty_set) (only parsing).

Definition usize_max : Z := 2 ^ 64 - 1.

(** The sizes both functions refuse. *)
Definition bad_size (list_size : nat) : bool :=
  (list_size =? 0)%nat || (usize_max / 2 <? Z.of_nat list_size) || (2 ^ 24 <? Z.of_nat list_size).

Definition SEED_SIZE : nat := 32.
Definition PIVOT_VIEW_SIZE : nat := 33.
Definition TOTAL_SIZE : nat := 37.

(** The buffer of [Buf] and the local variables of [shuffle_list]. *)
Module Sh.
Record t : Type := mk {
  input : list nat;
  buf : list Z;
  source : list Z;
  byte_v : Z;
}.
Definition set_input (l : list nat) (s : t) : t := mk l s.(buf) s.(source) s.(byte_v).
Definition set_buf (b : list Z) (s : t) : t := mk s.(input) b s.(source) s.(byte_v).
Definition set_source (x : list Z) (s : t) : t := mk s.(input) s.(buf) x s.(byte_v).
Definition set_byte (x : Z) (s : t) : t := mk s.(input) s.(buf) s.(source) x.
End Sh.

Section shuffle.
Context (hash : list Z → list Z).

(** ** One index *)
Definition hash_with_round_and_position (seed : list Z) (round : nat) (position : nat) : list Z :=
  hash (seed ++ [Z.of_nat round] ++ to_le_bytes 4 (Z.of_nat (position / 256))).

Definition hash_with_round (seed : list Z) (round : nat) : list Z := hash (seed ++ [Z.of_nat round]).

Definition bytes_to_int64 (bytes : list Z) : Z := from_le_bytes (take 8 bytes).

Definition do_round (seed : list Z) (index pivot round list_size : nat) : run nat :=
  let flip := ((pivot + (list_size - index)) mod list_size)%nat in
  let position := (index `max` flip)%nat in
  let source := hash_with_round_and_position seed round position in
  byte ← expect (source !! ((position mod 256) / 8)%nat);
  let bit := Z.shiftr byte (Z.of_nat (position mod 8)) mod 2 in
  Ok (if bit =? 1 then flip else index).

Definition pivot_of (seed : list Z) (round list_size : nat) : nat :=
  Z.to_nat (bytes_to_int64 (hash_with_round seed round) mod Z.of_nat list_size).

(** The [for] loop: rounds [r], [r + 1], ... *)
Fixpoint shuffled_index_rounds (seed : list Z) (list_size : nat) (n r index : nat) : run nat :=
  match n with
  | O => Ok index
  | S n' =>
      index ← do_round seed index (pivot_of seed r list_size) r list_size;
      shuffled_index_rounds seed list_size n' (S r) index
  end.

Definition compute_shuffled_index (index list_size : nat) (seed : list Z) (shuffle_round_count : nat)
    : run (option nat) :=
  if (list_size =? 0)%nat || (list_size <=? index)%nat
     || (usize_max / 2 <? Z.of_nat list_size) || (2 ^ 24 <? Z.of_nat list_size)
  then Ok None
  else
    index ← shuffled_index_rounds seed list_size shuffle_round_count 0 index;
    Ok (Some index).

(** ** A whole list *)
(** [Buf::new]. *)
Definition buf_new (seed : list Z) : run (list Z) :=
  if (length seed =? SEED_SIZE)%nat
  then Ok (seed ++ replicate (TOTAL_SIZE - SEED_SIZE) 0) else Panic.

Definition set_round (round : nat) : M Sh.t Empty_set unit :=
  modify (fun s => Sh.set_buf (<[SEED_SIZE := Z.of_nat round]> s.(Sh.buf)) s).

Definition raw_pivot (buf : list Z) : Z := from_le_bytes (take 8 (hash (take PIVOT_VIEW_SIZE buf))).

(** [buf.mix_in_position(position); source = buf.hash();]. *)
Definition rehash (position : nat) : M Sh.t Empty_set unit :=
  modify (fun s => Sh.set_buf (take PIVOT_VIEW_SIZE s.(Sh.buf) ++ to_le_bytes 4 (Z.of_nat position)) s) ;;
  modify (fun s => Sh.set_source (hash s.(Sh.buf)) s).

(** [byte_v = source[(j & 0xff) >> 3]]. *)
Definition load_byte (j : nat) : M Sh.t Empty_set unit :=
  s ← get;
  byte ← lift (expect (s.(Sh.source) !! Nat.shiftr (Nat.land j 255) 3));
  modify (Sh.set_byte byte).

(** [input.swap(i, j)]. *)
Definition swap (i j : nat) : M Sh.t Empty_set unit :=
  s ← get;
  x ← lift (expect (s.(Sh.input) !! i));
  y ← lift (expect (s.(Sh.input) !! j));
  modify (Sh.set_input (<[i := y]> (<[j := x]> s.(Sh.input)))).

(** The common body of the two inner loops. *)
Definition swap_or_not (i j : nat) : M Sh.t Empty_set unit :=
  when (Nat.land j 255 =? 255)%nat (rehash (Nat.shiftr j 8)) ;;
  when (Nat.land j 7 =? 7)%nat (load_byte j) ;;
  s ← get;
  let bit_v := Z.land (Z.shiftr s.(Sh.byte_v) (Z.of_nat (Nat.land j 7))) 1 in
  when (bit_v =? 1) (swap i j).

(** One iteration of the outer [loop]. *)
Definition shuffle_round (list_size r : nat) : M Sh.t Empty_set unit :=
  set_round r ;;
  s ← get;
  let pivot := Z.to_nat (raw_pivot s.(Sh.buf) mod Z.of_nat list_size) in
  let mirror := Nat.shiftr (pivot + 1) 1 in
  rehash (Nat.shiftr pivot 8) ;;
  load_byte pivot ;;
  for_each (seq 0 mirror) (fun i => swap_or_not i (pivot - i)) ;;
  let mirror := Nat.shiftr (pivot + list_size + 1) 1 in
  let end_ := (list_size - 1)%nat in
  rehash (Nat.shiftr end_ 8) ;;
  load_byte end_ ;;
  for_each (imap pair (seq (pivot + 1) (mirror - (pivot + 1))))
    (fun '(loop_iter, i) => swap_or_not i (end_ - loop_iter)).

(** The outer [loop]; it breaks after [rounds] iterations. *)
Fixpoint shuffle_loop (fuel : nat) (list_size rounds : nat) (forwards : bool) (r : nat)
    : M Sh.t Empty_set unit :=
  match fuel with
  | O => lift Diverge
  | S fuel' =>
      shuffle_round list_size r ;;
      if forwards then
        if (r + 1 =? rounds)%nat then mret tt
        else shuffle_loop fuel' list_size rounds forwards (r + 1)
      else
        if (r =? 0)%nat then mret tt
        else shuffle_loop fuel' list_size rounds forwards (r - 1)
  end.

Definition shuffle_list (input : list nat) (rounds : nat) (seed : list Z) (forwards : bool)
    : run (option (list nat)) :=
  let list_size := length input in
  if bad_size list_size || (rounds =? 0)%nat then Ok None
  else
    buf ← buf_new seed;
    let r := if forwards then 0%nat else (rounds - 1)%nat in
    let '(o, s) := shuffle_loop rounds list_size rounds forwards r (Sh.mk input buf [] 0) in
    _ ← o;
    Ok (Some s.(Sh.input)).
End shuffle.
