(* ===== verification/ShuffleCorrect.v ===== *)
(** * Correctness of the shuffle

    [shuffle_list] permutes the list as [compute_shuffled_index] permutes the
    indices.  Each round is an involution on the indices; the two loops of a
    round exchange its pairs, and the cached hash and byte are always those of
    the current position. *)
From Stdlib Require Import ZifyNat.
From S2P Require Import Prelude ShuffleDefs.

(** Exchange of two elements. *)
Lemma lookup_exchange {A} (l : list A) i j x y k :
  l !! i = Some x → l !! j = Some y →
  <[i := y]> (<[j := x]> l) !! k =
  l !! (if decide (k = i) then j else if decide (k = j) then i else k).
Proof.
  intros Hi Hj. pose proof (lookup_lt_Some _ _ _ Hi). pose proof (lookup_lt_Some _ _ _ Hj).
  destruct (decide (k = i)) as [->|Hki].
  - by rewrite list_lookup_insert_eq by (by rewrite length_insert).
  - rewrite list_lookup_insert_ne by done. destruct (decide (k = j)) as [->|Hkj].
    + by rewrite list_lookup_insert_eq.
    + by rewrite list_lookup_insert_ne.
Qed.

Lemma land_255 j : Nat.land j 255 = (j mod 256)%nat.
Proof. apply (Nat.land_ones j 8). Qed.
Lemma land_7 j : Nat.land j 7 = (j mod 8)%nat.
Proof. apply (Nat.land_ones j 3). Qed.
Lemma shiftr_8 j : Nat.shiftr j 8 = (j / 256)%nat.
Proof. apply (Nat.shiftr_div_pow2 j 8). Qed.
Lemma shiftr_3 j : Nat.shiftr j 3 = (j / 8)%nat.
Proof. apply (Nat.shiftr_div_pow2 j 3). Qed.
Lemma shiftr_1 j : Nat.shiftr j 1 = (j / 2)%nat.
Proof. apply (Nat.shiftr_div_pow2 j 1). Qed.

(** Division by constants. *)
Ltac div_lia := zify; Z.to_euclidean_division_equations; lia.

(** What a step down from [j + 1] to [j] keeps. *)
Lemma same_window j : (j mod 256 ≠ 255)%nat → (S j / 256 = j / 256)%nat.
Proof. intros Hj. div_lia. Qed.
Lemma same_byte j : (j mod 8 ≠ 7)%nat → (S j / 256 = j / 256 ∧ S j mod 256 / 8 = j mod 256 / 8)%nat.
Proof. intros Hj. split; div_lia. Qed.

Section shuffle.
Context (hash : list Z → list Z) (Hhash : ∀ x, length (hash x) = 32%nat).
Context (seed : list Z) (Hseed : length seed = 32%nat).
Context (n : nat) (Hn : (0 < n)%nat).

(** ** One round on indices *)
Section round.
Context (r : nat).
Abbreviation p := (pivot_of hash seed r n).

Definition src (j : nat) : list Z := hash_with_round_and_position hash seed r j.
Definition byte_at (j : nat) : Z := default 0 (src j !! ((j mod 256) / 8)%nat).
Definition bit_at (j : nat) : bool := Z.shiftr (byte_at j) (Z.of_nat (j mod 8)) mod 2 =? 1.
Definition flip (i : nat) : nat := ((p + (n - i)) mod n)%nat.
(** The involution of the round. *)
Definition round_perm (i : nat) : nat := if bit_at (i `max` flip i) then flip i else i.

Lemma src_lookup j : src j !! ((j mod 256) / 8)%nat = Some (byte_at j).
Proof using Hhash Hseed Hn.
  unfold byte_at. destruct (lookup_lt_is_Some_2 (src j) ((j mod 256) / 8)%nat) as [b ->]; [|done].
  unfold src, hash_with_round_and_position. rewrite Hhash.
  pose proof (Nat.mod_upper_bound j 256 ltac:(lia)). apply Nat.Div0.div_lt_upper_bound; lia.
Qed.

Lemma do_round_run i : do_round hash seed i p r n = Ok (round_perm i).
Proof using Hhash Hseed Hn. unfold do_round. fold (flip i) (src (i `max` flip i)). by rewrite src_lookup. Qed.

Lemma pivot_lt : (p < n)%nat.
Proof using Hhash Hseed Hn.
  unfold pivot_of. pose proof (Z.mod_pos_bound (bytes_to_int64 (hash_with_round hash seed r)) (Z.of_nat n)
    ltac:(lia)). lia.
Qed.

Lemma flip_cases i : (i < n)%nat → flip i = if decide (i ≤ p)%nat then (p - i)%nat else (p + n - i)%nat.
Proof using Hhash Hseed Hn.
  intros Hi. pose proof pivot_lt. unfold flip. destruct (decide _).
  - symmetry. apply (Nat.mod_unique _ _ 1); lia.
  - replace (p + (n - i))%nat with (p + n - i)%nat by lia. apply Nat.mod_small. lia.
Qed.

Lemma flip_lt i : (i < n)%nat → (flip i < n)%nat.
Proof using Hhash Hseed Hn. intros Hi. rewrite flip_cases by done. pose proof pivot_lt. destruct (decide _); lia. Qed.

Lemma flip_flip i : (i < n)%nat → flip (flip i) = i.
Proof using Hhash Hseed Hn.
  intros Hi. pose proof pivot_lt. rewrite (flip_cases (flip i)) by (by apply flip_lt).
  rewrite flip_cases by done. destruct (decide (i ≤ p)%nat); destruct (decide _); lia.
Qed.

Lemma round_perm_lt i : (i < n)%nat → (round_perm i < n)%nat.
Proof using Hhash Hseed Hn. intros Hi. unfold round_perm. destruct (bit_at _); [by apply flip_lt|done]. Qed.

Lemma round_perm_involutive i : (i < n)%nat → round_perm (round_perm i) = i.
Proof using Hhash Hseed Hn.
  intros Hi. unfold round_perm at 2. destruct (bit_at (i `max` flip i)) eqn:Hb.
  - unfold round_perm. rewrite flip_flip, Nat.max_comm, Hb by done. done.
  - unfold round_perm. by rewrite Hb.
Qed.

(** A pair of a round. *)
Lemma round_perm_pair i j : (i < n)%nat → flip i = j → (i < j)%nat →
  round_perm i = (if bit_at j then j else i) ∧ round_perm j = (if bit_at j then i else j).
Proof using Hhash Hseed Hn.
  intros Hi Hf Hlt. unfold round_perm. rewrite <-Hf, flip_flip by done. rewrite Hf.
  by rewrite (Nat.max_r i j), (Nat.max_l j i) by lia.
Qed.

Lemma round_perm_fixed i : flip i = i → round_perm i = i.
Proof using Hhash Hseed Hn. intros Hf. unfold round_perm. rewrite Hf. by destruct (bit_at _). Qed.

(** ** The cached hash and byte *)
Record loaded (j : nat) (s : Sh.t) : Prop := {
  ld_buf : take 33 s.(Sh.buf) = seed ++ [Z.of_nat r];
  ld_len : length s.(Sh.buf) = 37%nat;
  ld_source : s.(Sh.source) = src j;
  ld_byte : s.(Sh.byte_v) = byte_at j;
}.

(** The buffer belongs to round [r]. *)
Definition in_round (s : Sh.t) : Prop :=
  take 33 s.(Sh.buf) = seed ++ [Z.of_nat r] ∧ length s.(Sh.buf) = 37%nat.

Lemma rehash_run j s : in_round s →
  ∃ s', rehash hash (Nat.shiftr j 8) s = (Ok tt, s') ∧ in_round s' ∧
    s'.(Sh.source) = src j ∧ s'.(Sh.input) = s.(Sh.input) ∧ s'.(Sh.byte_v) = s.(Sh.byte_v).
Proof using Hhash Hseed Hn.
  rewrite shiftr_8. intros [Hb Hl]. eexists. split; [reflexivity|]. unfold in_round.
  cbn [Sh.buf Sh.source Sh.input Sh.byte_v Sh.set_buf Sh.set_source].
  change (take PIVOT_VIEW_SIZE s.(Sh.buf)) with (take 33 s.(Sh.buf)). rewrite Hb.
  split_and!; [|by rewrite !length_app, Hseed| |done|done].
  - by rewrite take_app_length' by (by rewrite length_app, Hseed).
  - unfold src, hash_with_round_and_position. by rewrite <-app_assoc.
Qed.

Lemma load_byte_run j s : in_round s → s.(Sh.source) = src j →
  ∃ s', load_byte j s = (Ok tt, s') ∧ loaded j s' ∧ s'.(Sh.input) = s.(Sh.input).
Proof using Hhash Hseed Hn.
  intros [Hb Hl] Hs. unfold load_byte. rewrite land_255, shiftr_3. eexists. split.
  - rewrite (bind_ok_eq _ _ s s s) by done.
    rewrite (bind_ok_eq _ _ s (byte_at j) s) by (unfold lift; by rewrite Hs, src_lookup). reflexivity.
  - split; [by split|done].
Qed.

(** Both, at the start of a loop. *)
Lemma load_run j s : in_round s →
  ∃ s', (rehash hash (Nat.shiftr j 8) ;; load_byte j) s = (Ok tt, s') ∧ loaded j s' ∧
    s'.(Sh.input) = s.(Sh.input).
Proof using Hhash Hseed Hn.
  intros Hr. destruct (rehash_run j s Hr) as (s1 & H1 & Hr1 & Hs1 & Hi1 & _).
  destruct (load_byte_run j s1 Hr1 Hs1) as (s2 & H2 & Hl & Hi2).
  exists s2. rewrite (bind_ok_eq _ _ _ _ _ H1). split_and!; [done..|congruence].
Qed.

Lemma loaded_in_round j s : loaded j s → in_round s.
Proof using Hhash Hseed Hn. by intros []. Qed.

(** The refresh at the top of the loop body, coming from [j + 1]. *)
Lemma refresh_run j s : loaded (S j) s ∨ loaded j s →
  ∃ s', (when (Nat.land j 255 =? 255)%nat (rehash hash (Nat.shiftr j 8)) ;;
         when (Nat.land j 7 =? 7)%nat (load_byte j)) s = (Ok tt, s') ∧ loaded j s' ∧
    s'.(Sh.input) = s.(Sh.input).
Proof using Hhash Hseed Hn.
  intros Hl. assert (in_round s) as Hr by (by destruct Hl as [?%loaded_in_round|?%loaded_in_round]).
  assert (∃ s1, when (Nat.land j 255 =? 255)%nat (rehash hash (Nat.shiftr j 8)) s = (Ok tt, s1) ∧
    in_round s1 ∧ s1.(Sh.source) = src j ∧ s1.(Sh.input) = s.(Sh.input) ∧ s1.(Sh.byte_v) = s.(Sh.byte_v))
    as (s1 & H1 & Hr1 & Hs1 & Hi1 & Hb1).
  { rewrite land_255. destruct (Nat.eqb_spec (j mod 256) 255); simpl; [by apply rehash_run|].
    exists s. split_and!; try done. destruct Hl as [Hl|Hl]; rewrite (ld_source _ _ Hl); [|done].
    unfold src, hash_with_round_and_position. by rewrite same_window. }
  rewrite (bind_ok_eq _ _ _ _ _ H1), land_7. destruct (Nat.eqb_spec (j mod 8) 7); simpl.
  - destruct (load_byte_run j s1 Hr1 Hs1) as (s2 & ? & ? & ?). exists s2. split_and!; [done..|congruence].
  - exists s1. split_and!; [done| |done]. split; [by destruct Hr1..|done|].
    rewrite Hb1. destruct Hl as [Hl|Hl]; rewrite (ld_byte _ _ Hl); [|done].
    unfold byte_at, src, hash_with_round_and_position. by destruct (same_byte j) as [-> ->].
Qed.

Lemma swap_or_not_run i j s :
  loaded (S j) s ∨ loaded j s → (i < length s.(Sh.input))%nat → (j < length s.(Sh.input))%nat →
  ∃ s', swap_or_not hash i j s = (Ok tt, s') ∧ loaded j s' ∧
    length s'.(Sh.input) = length s.(Sh.input) ∧
    ∀ x, s'.(Sh.input) !! x = s.(Sh.input) !!
      (if bit_at j then (if decide (x = i) then j else if decide (x = j) then i else x) else x).
Proof using Hhash Hseed Hn.
  intros Hl Hi Hj. destruct (refresh_run j s Hl) as (s1 & H1 & Hl1 & Hi1).
  unfold swap_or_not. 
  assert (∀ k : unit → M Sh.t Empty_set unit,
    (when (Nat.land j 255 =? 255)%nat (rehash hash (Nat.shiftr j 8)) ≫= fun _ =>
     when (Nat.land j 7 =? 7)%nat (load_byte j) ≫= k) s = k tt s1) as ->.
  { intros k. apply bind_ok in H1 as ([] & s0 & Ha & Hb).
    rewrite (bind_ok_eq _ _ _ _ _ Ha). by rewrite (bind_ok_eq _ _ _ _ _ Hb). }
  rewrite (bind_ok_eq _ _ s1 s1 s1) by done. rewrite land_7, (ld_byte _ _ Hl1).
  change 1 with (Z.ones 1) at 1. rewrite Z.land_ones by done. change (2 ^ 1) with 2. fold (bit_at j).
  destruct (bit_at j); simpl.
  - rewrite <-Hi1 in Hi, Hj. destruct (lookup_lt_is_Some_2 _ _ Hi) as [x Hx].
    destruct (lookup_lt_is_Some_2 _ _ Hj) as [y Hy]. eexists. split.
    + unfold swap. rewrite (bind_ok_eq _ _ s1 s1 s1) by done.
      rewrite (bind_ok_eq _ _ s1 x s1) by (unfold lift; by rewrite Hx).
      rewrite (bind_ok_eq _ _ s1 y s1) by (unfold lift; by rewrite Hy). reflexivity.
    + split; [by destruct Hl1; split|]. simpl. rewrite !length_insert, Hi1. split; [done|].
      intros k. rewrite Hi1 in Hx, Hy. by apply lookup_exchange.
  - exists s1. split_and!; [done..|by rewrite Hi1|]. intros x. by rewrite Hi1.
Qed.

(** ** The two loops of a round *)

(** [s] holds the elements of [l] moved by the round where [done] is set. *)
Definition moved (l : list nat) (done : nat → bool) (s : Sh.t) : Prop :=
  length s.(Sh.input) = n ∧
  ∀ x, (x < n)%nat → s.(Sh.input) !! x = l !! (if done x then round_perm x else x).

(** Exchanging one more pair. *)
Lemma swap_pair_run l (d d' : nat → bool) i j s :
  loaded (S j) s ∨ loaded j s → moved l d s → (i < j)%nat → (j < n)%nat → flip i = j →
  d i = false → d j = false → d' i = true → d' j = true → (∀ x, x ≠ i → x ≠ j → d' x = d x) →
  ∃ s', swap_or_not hash i j s = (Ok tt, s') ∧ loaded j s' ∧ moved l d' s'.
Proof using Hhash Hseed Hn.
  intros Hl [Hlen Hm] Hij Hj Hf Hdi Hdj Hdi' Hdj' Hd.
  destruct (swap_or_not_run i j s Hl) as (s' & Hrun & Hl' & Hlen' & Hx); [lia..|].
  destruct (round_perm_pair i j ltac:(lia) Hf Hij) as [Hpi Hpj].
  exists s'. split_and!; [done..|]. split; [congruence|]. intros x Hxn. rewrite Hx.
  destruct (decide (x = i)) as [->|Hxi]; [|destruct (decide (x = j)) as [->|Hxj]].
  - rewrite Hdi', Hpi. destruct (bit_at j); [rewrite Hm, Hdj by done|rewrite Hm, Hdi by lia]; done.
  - rewrite Hdj', Hpj. destruct (bit_at j); [rewrite Hm, Hdi by lia|rewrite Hm, Hdj by done]; done.
  - rewrite Hd by done. assert ((if bit_at j then x else x) = x) as -> by (by destruct (bit_at j)).
    by apply Hm.
Qed.

(** The pairs [(i, p - i)] with [i < k]. *)
Definition low_done (k x : nat) : bool := (x <? k)%nat || ((p <? x + k)%nat && (x <=? p)%nat).
(** All indices up to [p] and the pairs [(p + 1 + i, n - 1 - i)] with [i < k]. *)
Definition high_done (k x : nat) : bool := (x <=? p)%nat || (x <=? p + k)%nat || (n <=? x + k)%nat.

Ltac bool_lia :=
  repeat match goal with
  | |- context [(?a <? ?b)%nat] => destruct (Nat.ltb_spec a b)
  | |- context [(?a <=? ?b)%nat] => destruct (Nat.leb_spec a b)
  end; simpl; lia.

Lemma low_loop l s :
  loaded p s → moved l (fun _ => false) s →
  ∃ s', for_each (seq 0 (Nat.shiftr (p + 1) 1)) (fun i => swap_or_not hash i (p - i)) s = (Ok tt, s') ∧
    in_round s' ∧ moved l (fun x => (x <=? p)%nat) s'.
Proof using Hhash Hseed Hn.
  intros Hl Hm. rewrite shiftr_1. pose proof pivot_lt as Hp.
  destruct (for_seq_total (fun i => swap_or_not hash i (p - i)) (fun k s =>
    (loaded (S (p - k)) s ∨ loaded (p - k) s) ∧ moved l (low_done k) s) 0 ((p + 1) / 2) s)
    as (s' & Hrun & Hl' & Hm').
  - split; [right; by rewrite Nat.sub_0_r|]. destruct Hm as [Hlen Hm]. split; [done|].
    intros x Hx. rewrite (Hm x Hx). unfold low_done. f_equal.
    assert ((x <? 0)%nat || ((p <? x + 0)%nat && (x <=? p)%nat) = false) as -> by (bool_lia). done.
  - intros k s1 Hk [Hl1 Hm1]. assert (k < p - k)%nat by div_lia.
    assert (flip k = (p - k)%nat) as Hf by (rewrite flip_cases by lia; destruct (decide _); lia).
    destruct (swap_pair_run l (low_done k) (low_done (S k)) k (p - k) s1) as (s2 & H2 & Hl2 & Hm2);
      try done; try lia; try (unfold low_done; bool_lia).
    + intros x Hxk Hxj. unfold low_done. bool_lia.
    + exists s2. split_and!; [done| |done]. left. by replace (S (p - S k)) with (p - k)%nat by lia.
  - exists s'. split_and!; [done| |].
    + destruct Hl' as [H|H]; by apply loaded_in_round in H.
    + destruct Hm' as [Hlen Hx]. split; [done|]. intros x Hxn. rewrite (Hx x Hxn). f_equal.
      unfold low_done. rewrite Nat.add_0_l.
      destruct (Nat.leb_spec x p) as [Hxp|Hxp].
      * destruct ((x <? (p + 1) / 2)%nat || ((p <? x + (p + 1) / 2)%nat && true)) eqn:E; [done|].
        symmetry. apply round_perm_fixed. rewrite flip_cases by done. destruct (decide _); [|lia].
        apply orb_false_iff in E as [E1%Nat.ltb_ge E2]. rewrite andb_true_r in E2.
        apply Nat.ltb_ge in E2. div_lia.
      * assert ((x <? (p + 1) / 2)%nat || ((p <? x + (p + 1) / 2)%nat && false) = false) as ->; [|done].
        rewrite andb_false_r, orb_false_r. apply Nat.ltb_ge. div_lia.
Qed.

Lemma high_loop l s :
  loaded (n - 1) s → moved l (fun x => (x <=? p)%nat) s →
  ∃ s', for_each (imap pair (seq (p + 1) (Nat.shiftr (p + n + 1) 1 - (p + 1))))
    (fun '(k, i) => swap_or_not hash i (n - 1 - k)) s = (Ok tt, s') ∧
    in_round s' ∧ moved l (fun _ => true) s'.
Proof using Hhash Hseed Hn.
  intros Hl Hm. rewrite shiftr_1. pose proof pivot_lt as Hp.
  set (m := ((p + n + 1) / 2 - (p + 1))%nat).
  assert (imap pair (seq (p + 1) m) = map (fun k => (k, (p + 1 + k)%nat)) (seq 0 m)) as ->.
  { apply list_eq. intros k. rewrite list_lookup_imap. change (map ?f ?l) with (f <$> l).
    rewrite list_lookup_fmap. destruct (decide (k < m)%nat).
    - by rewrite !lookup_seq_lt by done.
    - by rewrite !lookup_seq_ge by lia. }
  assert (∀ ks s0, for_each (map (fun k => (k, (p + 1 + k)%nat)) ks)
    (fun '(k, i) => swap_or_not hash i (n - 1 - k)) s0 =
    for_each ks (fun k => swap_or_not hash (p + 1 + k) (n - 1 - k)) s0) as Hmap.
  { intros ks. induction ks as [|k ks IH]; intros s0; [done|]. simpl.
    unfold mbind, M_bind. destruct (swap_or_not hash _ _ s0) as [[[]|e| |] s1]; auto. }
  rewrite Hmap. clear Hmap.
  destruct (for_seq_total (fun k => swap_or_not hash (p + 1 + k) (n - 1 - k)) (fun k s =>
    (loaded (S (n - 1 - k)) s ∨ loaded (n - 1 - k) s) ∧ moved l (high_done k) s) 0 m s)
    as (s' & Hrun & Hl' & Hm').
  - split; [right; by rewrite Nat.sub_0_r|]. destruct Hm as [Hlen Hm]. split; [done|].
    intros x Hx. rewrite (Hm x Hx). unfold high_done. f_equal.
    assert ((x <=? p)%nat || (x <=? p + 0)%nat || (n <=? x + 0)%nat = (x <=? p)%nat) as -> by bool_lia. done.
  - intros k s1 Hk [Hl1 Hm1]. assert (p + 1 + k < n - 1 - k)%nat by (unfold m in Hk; div_lia).
    assert (flip (p + 1 + k) = (n - 1 - k)%nat) as Hf
      by (rewrite flip_cases by lia; destruct (decide _); lia).
    destruct (swap_pair_run l (high_done k) (high_done (S k)) (p + 1 + k) (n - 1 - k) s1)
      as (s2 & H2 & Hl2 & Hm2); try done; try lia; try (unfold high_done; bool_lia).
    + intros x Hxk Hxj. unfold high_done. bool_lia.
    + exists s2. split_and!; [done| |done]. left. by replace (S (n - 1 - S k)) with (n - 1 - k)%nat by lia.
  - exists s'. split_and!; [done| |].
    + destruct Hl' as [H|H]; by apply loaded_in_round in H.
    + destruct Hm' as [Hlen Hx]. split; [done|]. intros x Hxn. rewrite (Hx x Hxn). f_equal.
      destruct (high_done (0 + m) x) eqn:E; [done|]. symmetry. apply round_perm_fixed.
      unfold high_done in E. apply orb_false_iff in E as [[E1%Nat.leb_gt E2%Nat.leb_gt]%orb_false_iff E3%Nat.leb_gt].
      rewrite flip_cases by done. destruct (decide _); [lia|]. unfold m in *. div_lia.
Qed.
End round.

(** ** A whole round and all of them *)

(** The buffer starts with the seed. *)
Definition seeded (s : Sh.t) : Prop :=
  take 32 s.(Sh.buf) = seed ∧ length s.(Sh.buf) = 37%nat.

Lemma set_round_run r s : seeded s →
  ∃ s', set_round r s = (Ok tt, s') ∧ in_round r s' ∧ s'.(Sh.input) = s.(Sh.input).
Proof using Hhash Hseed Hn.
  intros [Hb Hl]. eexists. split; [reflexivity|]. unfold in_round, SEED_SIZE. simpl.
  rewrite length_insert. split_and!; [|done|done].
  rewrite (take_S_r _ 32 (Z.of_nat r)).
  - by rewrite take_insert_ge, Hb.
  - apply list_lookup_insert_eq. lia.
Qed.

Lemma in_round_seeded r s : in_round r s → seeded s.
Proof using Hhash Hseed Hn.
  intros [Hb Hl]. split; [|done]. replace (take 32 s.(Sh.buf)) with (take 32 (take 33 s.(Sh.buf)))
    by (by rewrite take_take). by rewrite Hb, take_app_length' by done.
Qed.

Lemma shuffle_round_run r s :
  seeded s → length s.(Sh.input) = n →
  ∃ s', shuffle_round hash n r s = (Ok tt, s') ∧ seeded s' ∧ length s'.(Sh.input) = n ∧
    ∀ x, (x < n)%nat → s'.(Sh.input) !! x = s.(Sh.input) !! round_perm r x.
Proof using Hhash Hseed Hn.
  intros Hs Hlen. destruct (set_round_run r s Hs) as (s1 & H1 & Hr1 & Hi1).
  unfold shuffle_round. rewrite (bind_ok_eq _ _ _ _ _ H1), (bind_ok_eq _ _ s1 s1 s1) by done.
  assert (Z.to_nat (raw_pivot hash s1.(Sh.buf) mod Z.of_nat n) = pivot_of hash seed r n) as ->.
  { unfold raw_pivot, pivot_of, bytes_to_int64, hash_with_round, PIVOT_VIEW_SIZE. by rewrite (proj1 Hr1). }
  cbv zeta.
  destruct (load_run r (pivot_of hash seed r n) s1 Hr1) as (s2 & H2 & Hl2 & Hi2).
  apply bind_ok in H2 as ([] & s2' & H2a & H2b).
  rewrite (bind_ok_eq _ _ _ _ _ H2a), (bind_ok_eq _ _ _ _ _ H2b).
  destruct (low_loop r s.(Sh.input) s2 Hl2) as (s3 & H3 & Hr3 & Hm3).
  { split; [congruence|]. intros x Hx. congruence. }
  rewrite (bind_ok_eq _ _ _ _ _ H3).
  destruct (load_run r (n - 1) s3 Hr3) as (s4 & H4 & Hl4 & Hi4).
  apply bind_ok in H4 as ([] & s4' & H4a & H4b).
  rewrite (bind_ok_eq _ _ _ _ _ H4a), (bind_ok_eq _ _ _ _ _ H4b).
  destruct (high_loop r s.(Sh.input) s4 Hl4) as (s5 & H5 & Hr5 & Hm5 & Hx5).
  { destruct Hm3 as [? Hx3]. split; [congruence|]. intros x Hx. rewrite Hi4. by apply Hx3. }
  exists s5. split_and!; [done|by apply in_round_seeded in Hr5|done|done].
Qed.

(** The rounds of a list, the first one outermost. *)
Definition rounds_perm (rs : list nat) (x : nat) : nat := foldr round_perm x rs.

Lemma rounds_perm_lt rs x : (x < n)%nat → (rounds_perm rs x < n)%nat.
Proof using Hhash Hseed Hn. intros Hx. induction rs; simpl; [done|]. by apply round_perm_lt. Qed.

Lemma rounds_perm_app rs rs' x : rounds_perm (rs ++ rs') x = rounds_perm rs (rounds_perm rs' x).
Proof using. unfold rounds_perm. by rewrite foldr_app. Qed.

Lemma rounds_perm_rev rs x : (x < n)%nat → rounds_perm rs (rounds_perm (rev rs) x) = x.
Proof using Hhash Hseed Hn.
  revert x. induction rs as [|r rs IH]; intros x Hx; [done|]. simpl rev. rewrite rounds_perm_app.
  change (rounds_perm (r :: rs) ?y) with (round_perm r (rounds_perm rs y)). simpl (rounds_perm [r] x).
  rewrite IH by (by apply round_perm_lt). by apply round_perm_involutive.
Qed.

(** [s] holds [l] shuffled by the given rounds. *)
Definition shuffled (l : list nat) (rs : list nat) (s : Sh.t) : Prop :=
  seeded s ∧ length s.(Sh.input) = n ∧
  ∀ x, (x < n)%nat → s.(Sh.input) !! x = l !! rounds_perm rs x.

Lemma shuffled_round l rs r s : shuffled l rs s →
  ∃ s', shuffle_round hash n r s = (Ok tt, s') ∧ shuffled l (rs ++ [r]) s'.
Proof using Hhash Hseed Hn.
  intros (Hs & Hlen & Hx). destruct (shuffle_round_run r s Hs Hlen) as (s' & Hrun & Hs' & Hlen' & Hx').
  exists s'. split; [done|]. split_and!; [done..|]. intros x Hxn. rewrite Hx', Hx by (done || by apply round_perm_lt).
  by rewrite rounds_perm_app.
Qed.

Lemma forward_loop l rounds fuel rs r s :
  (r < rounds)%nat → (rounds - r ≤ fuel)%nat → shuffled l rs s →
  ∃ s', shuffle_loop hash fuel n rounds true r s = (Ok tt, s') ∧ shuffled l (rs ++ seq r (rounds - r)) s'.
Proof using Hhash Hseed Hn.
  revert rs r s. induction fuel as [|fuel IH]; intros rs r s Hr Hf Hs; [lia|]. simpl.
  destruct (shuffled_round l rs r s Hs) as (s1 & H1 & Hs1). rewrite (bind_ok_eq _ _ _ _ _ H1).
  destruct (Nat.eqb_spec (r + 1) rounds) as [E|E].
  - exists s1. split; [done|]. by replace (rounds - r)%nat with 1%nat by lia.
  - destruct (IH (rs ++ [r]) (r + 1)%nat s1) as (s2 & H2 & Hs2); [lia..|done|]. exists s2. split; [done|].
    rewrite <-app_assoc in Hs2. replace (rounds - r)%nat with (S (rounds - (r + 1))) by lia.
    simpl in *. by replace (S r) with (r + 1)%nat by lia.
Qed.

Lemma backward_loop l rounds fuel rs r s :
  (r < fuel)%nat → shuffled l rs s →
  ∃ s', shuffle_loop hash fuel n rounds false r s = (Ok tt, s') ∧ shuffled l (rs ++ rev (seq 0 (S r))) s'.
Proof using Hhash Hseed Hn.
  revert rs r s. induction fuel as [|fuel IH]; intros rs r s Hf Hs; [lia|]. simpl shuffle_loop.
  destruct (shuffled_round l rs r s Hs) as (s1 & H1 & Hs1). rewrite (bind_ok_eq _ _ _ _ _ H1).
  rewrite seq_S, rev_app_distr. simpl rev. simpl app.
  destruct (Nat.eqb_spec r 0) as [->|E].
  - exists s1. done.
  - destruct (IH (rs ++ [r]) (r - 1)%nat s1) as (s2 & H2 & Hs2); [lia|done|]. exists s2. split; [done|].
    rewrite <-app_assoc in Hs2. replace (S (r - 1)) with r in Hs2 by lia. done.
Qed.

Lemma index_rounds_run k r i :
  shuffled_index_rounds hash seed n k r i = Ok (rounds_perm (rev (seq r k)) i).
Proof using Hhash Hseed Hn.
  revert r i. induction k as [|k IH]; intros r i; [done|]. simpl shuffled_index_rounds.
  rewrite do_round_run. simpl seq. simpl rev. rewrite rounds_perm_app. simpl. apply IH.
Qed.
End shuffle.

(** The sizes that are accepted. *)
Lemma good_size (n : nat) : (0 < n)%nat → Z.of_nat n ≤ 2 ^ 24 → bad_size n = false.
Proof.
  intros H0 Hn. unfold bad_size. assert (usize_max / 2 = 2 ^ 63 - 1) as -> by reflexivity.
  destruct (Nat.eqb_spec n 0); [lia|]. simpl.
  rewrite (proj2 (Z.ltb_ge _ _)), (proj2 (Z.ltb_ge _ _)) by lia. done.
Qed.

Section theorems.
Context (hash : list Z → list Z) (Hhash : ∀ x, length (hash x) = 32%nat).
Context (seed : list Z) (Hseed : length seed = 32%nat).
Context (rounds : nat).
Context (l : list nat) (Hl : l ≠ []) (Hsize : Z.of_nat (length l) ≤ 2 ^ 24).
Abbreviation n := (length l).

Lemma list_nonempty : (0 < n)%nat.
Proof using Hl. apply Nat.neq_0_lt_0. intros H%nil_length_inv. done. Qed.

Lemma index_run i : (i < n)%nat →
  compute_shuffled_index hash i n seed rounds =
    Ok (Some (rounds_perm hash seed n (rev (seq 0 rounds)) i)).
Proof using Hhash Hseed Hl Hsize.
  intros Hi. unfold compute_shuffled_index. pose proof (good_size n list_nonempty Hsize) as Hg.
  unfold bad_size in Hg. apply orb_false_iff in Hg as [[-> ->]%orb_false_iff ->].
  destruct (Nat.leb_spec n i); [lia|]. simpl.
  by rewrite (index_rounds_run hash Hhash seed Hseed n list_nonempty).
Qed.

Context (Hrounds : (0 < rounds)%nat).

Lemma list_run forwards :
  ∃ out, shuffle_list hash l rounds seed forwards = Ok (Some out) ∧ length out = n ∧
    ∀ x, (x < n)%nat → out !! x =
      l !! rounds_perm hash seed n (if forwards then seq 0 rounds else rev (seq 0 rounds)) x.
Proof using Hhash Hseed Hrounds Hl Hsize.
  unfold shuffle_list. rewrite (good_size n list_nonempty Hsize). destruct (Nat.eqb_spec rounds 0) as [?|_]; [lia|].
  unfold buf_new, SEED_SIZE, TOTAL_SIZE. rewrite Hseed. simpl.
  set (s0 := Sh.mk l _ [] 0).
  assert (shuffled hash seed n l [] s0) as H0.
  { split_and!; [|done..]. split; simpl; [by rewrite take_app_length' by done|].
    rewrite length_app, Hseed. reflexivity. }
  destruct forwards.
  - destruct (forward_loop hash Hhash seed Hseed n list_nonempty l rounds rounds [] 0 s0)
      as (s & Hrun & _ & Hlen & Hx); [lia..|done|]. rewrite Nat.sub_0_r in Hx.
    rewrite Hrun. simpl. eauto.
  - destruct (backward_loop hash Hhash seed Hseed n list_nonempty l rounds rounds [] (rounds - 1) s0)
      as (s & Hrun & _ & Hlen & Hx); [lia|done|]. replace (S (rounds - 1)) with rounds in Hx by lia.
    rewrite Hrun. simpl. eauto.
Qed.
End theorems.

(** C37. The list is shuffled as the indices are.  For a hash of 32 bytes, a seed
    of 32 bytes, at least one round and a list of 1 to 2^24 elements,
    [shuffle_list] returns a list of the same length.  Un-shuffling
    ([forwards = false]) puts at each index [i] the element at
    [compute_shuffled_index(i)]; shuffling puts the element at [i] there. *)
Theorem shuffle_list_matches_index hash seed rounds l :
  (∀ x, length (hash x) = 32%nat) → length seed = 32%nat → (0 < rounds)%nat →
  l ≠ [] → Z.of_nat (length l) ≤ 2 ^ 24 →
  ∃ fwd bwd, shuffle_list hash l rounds seed true = Ok (Some fwd) ∧
    shuffle_list hash l rounds seed false = Ok (Some bwd) ∧
    length fwd = length l ∧ length bwd = length l ∧
    ∀ i, (i < length l)%nat → ∃ j,
      compute_shuffled_index hash i (length l) seed rounds = Ok (Some j) ∧ (j < length l)%nat ∧
      bwd !! i = l !! j ∧ fwd !! j = l !! i.
Proof.
  intros Hh Hs Hr Hl Hn. pose proof (list_nonempty l Hl) as H0.
  destruct (list_run hash Hh seed Hs rounds l Hl Hn Hr true) as (fwd & Hf & Hfl & Hfx).
  destruct (list_run hash Hh seed Hs rounds l Hl Hn Hr false) as (bwd & Hb & Hbl & Hbx).
  exists fwd, bwd. split_and!; [done..|]. intros i Hi.
  exists (rounds_perm hash seed (length l) (rev (seq 0 rounds)) i).
  assert (rounds_perm hash seed (length l) (rev (seq 0 rounds)) i < length l)%nat
    by (by apply rounds_perm_lt).
  split_and!; [by apply index_run|done|by apply Hbx|]. rewrite Hfx by done.
  by rewrite rounds_perm_rev.
Qed.

(** A hash whose bytes depend on the sum of the input. *)
Definition toy_hash (x : list Z) : list Z :=
  map (fun k => (31 * foldr Z.add 7 x + 17 * Z.of_nat k * Z.of_nat k) mod 256) (seq 0 32).
Lemma toy_hash_length x : length (toy_hash x) = 32%nat.
Proof. unfold toy_hash. by rewrite length_map, length_seq. Qed.

Lemma shuffle_list_matches_index_witness :
  ∃ bwd j, shuffle_list toy_hash (seq 100 10) 5 (replicate 32 1) false = Ok (Some bwd) ∧
    compute_shuffled_index toy_hash 3 10 (replicate 32 1) 5 = Ok (Some j) ∧
    bwd !! 3%nat = seq 100 10 !! j.
Proof.
  destruct (shuffle_list_matches_index toy_hash (replicate 32 1) 5 (seq 100 10)) as
    (fwd & bwd & _ & Hb & _ & _ & Hi);
    [apply toy_hash_length|reflexivity|lia|discriminate|vm_compute; discriminate|].
  destruct (Hi 3%nat ltac:(vm_compute; lia)) as (j & Hj & _ & Hx & _). exists bwd, j.
  split; [exact Hb|]. split; [exact Hj|exact Hx].
Defined.

(** Shuffling and un-shuffling are inverse to each other. *)
Theorem shuffle_list_roundtrip hash seed rounds l forwards :
  (∀ x, length (hash x) = 32%nat) → length seed = 32%nat → (0 < rounds)%nat →
  l ≠ [] → Z.of_nat (length l) ≤ 2 ^ 24 →
  ∃ l', shuffle_list hash l rounds seed forwards = Ok (Some l') ∧
        shuffle_list hash l' rounds seed (negb forwards) = Ok (Some l).
Proof.
  intros Hh Hs Hr Hl Hn. pose proof (list_nonempty l Hl) as H0.
  destruct (list_run hash Hh seed Hs rounds l Hl Hn Hr forwards) as (l' & Hrun & Hlen & Hx).
  assert (l' ≠ []) as Hl' by (intros ->; simpl in Hlen; lia).
  destruct (list_run hash Hh seed Hs rounds l' Hl' ltac:(by rewrite Hlen) Hr (negb forwards))
    as (l'' & Hrun' & Hlen' & Hx'). rewrite Hlen in *.
  exists l'. split; [done|]. rewrite Hrun'. do 2 f_equal. apply list_eq. intros x.
  destruct (decide (x < length l)%nat) as [Hlt|Hge].
  - rewrite Hx' by done. rewrite Hx by (by apply rounds_perm_lt).
    destruct forwards; simpl; [by rewrite rounds_perm_rev|].
    pose proof (rounds_perm_rev hash Hh seed Hs (length l) H0 (rev (seq 0 rounds)) x Hlt) as E.
    rewrite rev_involutive in E. by rewrite E.
  - rewrite !lookup_ge_None_2 by lia. done.
Qed.


(** [compute_shuffled_index] is a permutation: indices in range stay in range
    and no two of them collide; it returns nothing exactly for an empty or too
    long list or an index out of range. *)
Theorem compute_shuffled_index_permutes hash seed rounds n :
  (∀ x, length (hash x) = 32%nat) → length seed = 32%nat →
  (∀ i, compute_shuffled_index hash i n seed rounds = Ok None ↔ (n ≤ i)%nat ∨ 2 ^ 24 < Z.of_nat n) ∧
  (∀ i j, compute_shuffled_index hash i n seed rounds = Ok (Some j) → (i < n)%nat ∧ (j < n)%nat) ∧
  (∀ i i' j, compute_shuffled_index hash i n seed rounds = Ok (Some j) →
             compute_shuffled_index hash i' n seed rounds = Ok (Some j) → i = i').
Proof.
  intros Hh Hs.
  assert (∀ i, (n ≤ i)%nat ∨ 2 ^ 24 < Z.of_nat n → compute_shuffled_index hash i n seed rounds = Ok None) as Hbad.
  { intros i Hi. unfold compute_shuffled_index. destruct (Nat.eqb_spec n 0); [done|].
    destruct (Nat.leb_spec n i); [done|]. rewrite (proj2 (Z.ltb_lt (2 ^ 24) _)) by lia.
    by rewrite !orb_true_r. }
  assert (∀ i, (i < n)%nat → Z.of_nat n ≤ 2 ^ 24 → compute_shuffled_index hash i n seed rounds =
    Ok (Some (rounds_perm hash seed n (rev (seq 0 rounds)) i))) as Hgood.
  { intros i Hi Hn. pose proof (index_run hash Hh seed Hs rounds (replicate n 0%nat)) as Hr.
    rewrite length_replicate in Hr. apply Hr; [|done|done]. destruct n; [lia|done]. }
  assert (∀ i, ((n ≤ i)%nat ∨ 2 ^ 24 < Z.of_nat n) ∨ ((i < n)%nat ∧ Z.of_nat n ≤ 2 ^ 24)) as Hcase by lia.
  split_and!.
  - intros i. split; [|apply Hbad]. destruct (Hcase i) as [?|[Hi Hn]]; [done|]. by rewrite Hgood.
  - intros i j. destruct (Hcase i) as [Hi|[Hi Hn]]; [by rewrite Hbad|]. rewrite Hgood by done.
    intros [= <-]. split; [done|]. apply rounds_perm_lt; (done || lia).
  - intros i i' j. destruct (Hcase i) as [Hi|[Hi Hn]]; [by rewrite Hbad|].
    destruct (Hcase i') as [Hi'|[Hi' _]]; [by rewrite (Hbad i')|]. rewrite !Hgood by done.
    intros [= <-] [= E].
    pose proof (rounds_perm_rev hash Hh seed Hs n ltac:(lia) (seq 0 rounds) i Hi) as E1.
    pose proof (rounds_perm_rev hash Hh seed Hs n ltac:(lia) (seq 0 rounds) i' Hi') as E2. congruence.
Qed.


(** [shuffle_list] returns nothing exactly for an empty list, a list of more
    than 2^24 elements, or no rounds at all. *)
Theorem shuffle_list_none_iff hash seed rounds l forwards :
  (∀ x, length (hash x) = 32%nat) → length seed = 32%nat →
  shuffle_list hash l rounds seed forwards = Ok None ↔ l = [] ∨ 2 ^ 24 < Z.of_nat (length l) ∨ rounds = 0%nat.
Proof.
  intros Hh Hs. split.
  - destruct (decide (l = [])) as [?|Hl]; [by left|]. destruct (decide (2 ^ 24 < Z.of_nat (length l))); [by right; left|].
    destruct (decide (rounds = 0%nat)) as [?|Hr]; [by do 2 right|].
    destruct (list_run hash Hh seed Hs rounds l Hl ltac:(lia) ltac:(lia) forwards) as (out & -> & _). done.
  - intros H. unfold shuffle_list, bad_size. destruct H as [->|[H| ->]]; [done| |by rewrite orb_true_r].
    rewrite (proj2 (Z.ltb_lt (2 ^ 24) _)) by done. by rewrite orb_true_r.
Qed.

(** A shuffled list has the same elements. *)
Lemma shuffle_list_permutation hash seed rounds l forwards out :
  (∀ x, length (hash x) = 32%nat) → length seed = 32%nat →
  shuffle_list hash l rounds seed forwards = Ok (Some out) → out ≡ₚ l.
Proof.
  intros Hh Hs Hout. destruct (decide (l = [] ∨ 2 ^ 24 < Z.of_nat (length l) ∨ rounds = 0%nat)) as [Hb|Hb].
  { apply (shuffle_list_none_iff hash seed rounds l forwards) in Hb; [congruence|done..]. }
  assert (l ≠ []) as Hl by tauto. pose proof (list_nonempty l Hl) as H0.
  destruct (list_run hash Hh seed Hs rounds l Hl ltac:(lia) ltac:(lia) forwards) as (out' & Hrun & Hlen & Hx).
  assert (out' = out) as -> by congruence. set (rs := if forwards then _ else _) in *.
  set (perm := rounds_perm hash seed (length l) rs) in *.
  assert (∀ x, (x < length l)%nat → (perm x < length l)%nat) as Hp
    by (intros x; apply rounds_perm_lt; (done || lia)).
  apply Permutation_inj. split; [done|].
  exists (fun x => if decide (x < length l)%nat then perm x else x). split.
  - intros x y. do 2 case_decide; [|pose proof (Hp x); pose proof (Hp y); lia..|done]. intros E.
    pose proof (rounds_perm_rev hash Hh seed Hs (length l) H0 (rev rs) x) as Ex.
    pose proof (rounds_perm_rev hash Hh seed Hs (length l) H0 (rev rs) y) as Ey.
    rewrite rev_involutive in Ex, Ey. unfold perm in E. rewrite <-Ex, <-Ey, E by done. done.
  - intros x. case_decide; [by apply Hx|]. by rewrite !lookup_ge_None_2 by lia.
Qed.
