(* ===== verification/MerkleDefs.v ===== *)
(** * Merkle trees and the deposit tree

    [consensus/merkle_proof/src/lib.rs], the right-sparse Merkle tree with its
    proofs and snapshots; [state_processing/src/common/deposit_data_tree.rs], the
    deposit tree built on it; and [types/src/deposit_tree_snapshot.rs].

    Correspondence.  A hash is the number its bytes spell in big-endian order.
    [hash32_concat] and [hash_fixed] on 64 bytes, SHA-256 of a concatenation from
    the crate [ethereum_hashing], are the parameter [hash2]; its table
    [ZERO_HASHES] is the parameter [zero_hash], which is only read up to
    [MAX_TREE_DEPTH].  A count of leaves is a [Z] and a depth a [nat]; depths are
    small enough that no shift overflows.  A method on [&mut self] returns its
    result beside the tree it leaves. *)
From S2P Require Import Prelude.

Abbreviation H256 := Z (only parsing).
Definition MAX_TREE_DEPTH : nat := 32.

Module MerkleTree.
Inductive t : Type :=
  | Finalized (h : H256)
  | Leaf (h : H256)
  | Node (h : H256) (lhs rhs : t)
  | Zero (depth : nat).
End MerkleTree.

Module InvalidSnapshot.
Inductive t : Type :=
  | EmptyBranchWithNonZeroDeposits (n : Z)
  | EndOfTree.
End InvalidSnapshot.

Module MerkleTreeError.
Inductive t : Type :=
  | LeafReached
  | NonLeafProof
  | MerkleTreeFull
  | Invalid
  | DepthTooSmall
  | ArithError_
  | ZeroNodeFinalized
  | FinalizedNodePushed
  | InvalidSnapshot_ (e : InvalidSnapshot.t)
  | ProofEncounteredFinalizedNode
  | PleaseNotifyTheDevs.
End MerkleTreeError.

(** [2usize.pow(d)], [0x1 << d]. *)
Definition pow2 (d : nat) : Z := 2 ^ Z.of_nat d.

Section merkle.
Context (hash2 : H256 → H256 → H256) (zero_hash : nat → H256).

Definition hash (t : MerkleTree.t) : H256 :=
  match t with
  | MerkleTree.Finalized h | MerkleTree.Leaf h | MerkleTree.Node h _ _ => h
  | MerkleTree.Zero depth => zero_hash depth
  end.

Definition node (lhs rhs : MerkleTree.t) : MerkleTree.t :=
  MerkleTree.Node (hash2 (hash lhs) (hash rhs)) lhs rhs.

Fixpoint create (leaves : list H256) (depth : nat) : MerkleTree.t :=
  match leaves with
  | [] => MerkleTree.Zero depth
  | leaf :: _ =>
      match depth with
      | O => MerkleTree.Leaf leaf
      | S depth' =>
          let subtree_capacity := pow2 depth' in
          let '(left_leaves, right_leaves) :=
            if Z.of_nat (length leaves) <=? subtree_capacity then (leaves, [])
            else (take (Z.to_nat subtree_capacity) leaves, drop (Z.to_nat subtree_capacity) leaves) in
          node (create left_leaves depth') (create right_leaves depth')
      end
  end.

Fixpoint push_leaf (t : MerkleTree.t) (elem : H256) (depth : nat)
    : outcome MerkleTreeError.t unit * MerkleTree.t :=
  match depth with
  | O => (Err MerkleTreeError.DepthTooSmall, t)
  | S depth' =>
      match t with
      | MerkleTree.Leaf _ => (Err MerkleTreeError.LeafReached, t)
      | MerkleTree.Zero _ => (Ok tt, create [elem] depth)
      | MerkleTree.Node h lhs rhs =>
          match lhs, rhs with
          | MerkleTree.Leaf _, MerkleTree.Leaf _ | MerkleTree.Finalized _, MerkleTree.Leaf _ =>
              (Err MerkleTreeError.MerkleTreeFull, t)
          | MerkleTree.Node _ _ _, MerkleTree.Node _ _ _ | MerkleTree.Finalized _, MerkleTree.Node _ _ _ =>
              match push_leaf rhs elem depth' with
              | (Ok _, rhs') => (Ok tt, node lhs rhs')
              | (Err e, rhs') => (Err e, MerkleTree.Node h lhs rhs')
              | (Panic, rhs') => (Panic, MerkleTree.Node h lhs rhs')
              | (Diverge, rhs') => (Diverge, MerkleTree.Node h lhs rhs')
              end
          | MerkleTree.Zero _, MerkleTree.Zero _ => (Ok tt, node (create [elem] depth') rhs)
          | MerkleTree.Leaf _, MerkleTree.Zero _ | MerkleTree.Finalized _, MerkleTree.Zero _ =>
              (Ok tt, node lhs (create [elem] depth'))
          | MerkleTree.Node _ _ _, MerkleTree.Zero _ =>
              match push_leaf lhs elem depth' with
              | (Ok _, lhs') => (Ok tt, node lhs' rhs)
              | (Err MerkleTreeError.MerkleTreeFull, lhs') => (Ok tt, node lhs' (create [elem] depth'))
              | (Err e, lhs') => (Err e, MerkleTree.Node h lhs' rhs)
              | (Panic, lhs') => (Panic, MerkleTree.Node h lhs' rhs)
              | (Diverge, lhs') => (Diverge, MerkleTree.Node h lhs' rhs)
              end
          | _, _ => (Err MerkleTreeError.Invalid, t)
          end
      | MerkleTree.Finalized _ => (Err MerkleTreeError.FinalizedNodePushed, t)
      end
  end.

(** [left_and_right_branches]; [ZERO_NODES] has [MAX_TREE_DEPTH + 1] entries. *)
Definition left_and_right_branches {E} (t : MerkleTree.t)
    : outcome E (option (MerkleTree.t * MerkleTree.t)) :=
  match t with
  | MerkleTree.Finalized _ | MerkleTree.Leaf _ | MerkleTree.Zero O => Ok None
  | MerkleTree.Node _ l r => Ok (Some (l, r))
  | MerkleTree.Zero (S d) =>
      if (d <=? MAX_TREE_DEPTH)%nat then Ok (Some (MerkleTree.Zero d, MerkleTree.Zero d)) else Panic
  end.

Definition is_leaf (t : MerkleTree.t) : bool :=
  match t with MerkleTree.Leaf _ => true | _ => false end.

Fixpoint finalize_deposits (t : MerkleTree.t) (deposits_to_finalize : Z) (level : nat)
    : outcome MerkleTreeError.t unit * MerkleTree.t :=
  match t with
  | MerkleTree.Finalized _ => (Ok tt, t)
  | MerkleTree.Zero _ => (Err MerkleTreeError.ZeroNodeFinalized, t)
  | MerkleTree.Leaf h =>
      match level with
      | O => (Ok tt, MerkleTree.Finalized h)
      | S _ => (Err MerkleTreeError.PleaseNotifyTheDevs, t)
      end
  | MerkleTree.Node h lhs rhs =>
      match level with
      | O => (Err MerkleTreeError.PleaseNotifyTheDevs, t)
      | S level' =>
          let deposits := pow2 level in
          if deposits <=? deposits_to_finalize then (Ok tt, MerkleTree.Finalized h)
          else
            match finalize_deposits lhs deposits_to_finalize level' with
            | (Ok _, lhs') =>
                if deposits / 2 <? deposits_to_finalize then
                  let remaining := deposits_to_finalize - deposits / 2 in
                  let '(r, rhs') := finalize_deposits rhs remaining level' in
                  (r, MerkleTree.Node h lhs' rhs')
                else (Ok tt, MerkleTree.Node h lhs' rhs)
            | (r, lhs') => (r, MerkleTree.Node h lhs' rhs)
            end
      end
  end.

Fixpoint get_finalized_hashes (t : MerkleTree.t) : list H256 :=
  match t with
  | MerkleTree.Zero _ | MerkleTree.Leaf _ => []
  | MerkleTree.Finalized h => [h]
  | MerkleTree.Node _ lhs rhs => get_finalized_hashes lhs ++ get_finalized_hashes rhs
  end.

Fixpoint from_finalized_snapshot (finalized_branch : list H256) (deposit_count : Z) (level : nat)
    : outcome MerkleTreeError.t MerkleTree.t :=
  match finalized_branch with
  | [] =>
      if deposit_count =? 0 then Ok (MerkleTree.Zero level)
      else Err (MerkleTreeError.InvalidSnapshot_ (InvalidSnapshot.EmptyBranchWithNonZeroDeposits deposit_count))
  | first :: rest =>
      if deposit_count =? pow2 level then Ok (MerkleTree.Finalized first)
      else
        match level with
        | O => Err (MerkleTreeError.InvalidSnapshot_ InvalidSnapshot.EndOfTree)
        | S level' =>
            match u64_checked_sub deposit_count (pow2 level') with
            | Some right_deposits =>
                rhs ← from_finalized_snapshot rest right_deposits level';
                Ok (node (MerkleTree.Finalized first) rhs)
            | None =>
                lhs ← from_finalized_snapshot finalized_branch deposit_count level';
                Ok (node lhs (MerkleTree.Zero level'))
            end
        end
  end.

(** The [while] loop of [generate_proof]. *)
Fixpoint proof_walk (current_node : MerkleTree.t) (index : Z) (current_depth : nat) (proof : list H256)
    : outcome MerkleTreeError.t (MerkleTree.t * list H256) :=
  match current_depth with
  | O => Ok (current_node, proof)
  | S d =>
      let ith_bit := Z.land (Z.shiftr index (Z.of_nat d)) 1 in
      match current_node with
      | MerkleTree.Finalized _ => Err MerkleTreeError.ProofEncounteredFinalizedNode
      | _ =>
          branches ← left_and_right_branches current_node;
          '(lhs, rhs) ← expect branches;
          if ith_bit =? 1 then proof_walk rhs index d (proof ++ [hash lhs])
          else proof_walk lhs index d (proof ++ [hash rhs])
      end
  end.

Definition generate_proof (t : MerkleTree.t) (index : Z) (depth : nat)
    : outcome MerkleTreeError.t (H256 * list H256) :=
  '(current_node, proof) ← proof_walk t index depth [];
  if negb (length proof =? depth)%nat then Err MerkleTreeError.PleaseNotifyTheDevs
  else if negb (is_leaf current_node) then Err MerkleTreeError.NonLeafProof
  else Ok (hash current_node, rev proof).

(** The loop of [merkle_root_from_branch], at position [i] of the branch. *)
Fixpoint root_from_branch (merkle_root : H256) (branch : list H256) (index : Z) (i : Z) : H256 :=
  match branch with
  | [] => merkle_root
  | leaf :: rest =>
      let ith_bit := Z.land (Z.shiftr index i) 1 in
      root_from_branch
        (if ith_bit =? 1 then hash2 leaf merkle_root else hash2 merkle_root leaf)
        rest index (i + 1)
  end.

Definition merkle_root_from_branch (leaf : H256) (branch : list H256) (depth : nat) (index : Z)
    : outcome Empty_set H256 :=
  if (length branch =? depth)%nat then Ok (root_from_branch leaf (take depth branch) index 0) else Panic.

Definition verify_merkle_proof (leaf : H256) (branch : list H256) (depth : nat) (index : Z) (root : H256)
    : outcome Empty_set bool :=
  if (length branch =? depth)%nat then
    r ← merkle_root_from_branch leaf branch depth index;
    Ok (r =? root)
  else Ok false.
End merkle.

(** ** The deposit tree *)
Definition DEPOSIT_TREE_DEPTH : nat := 32.

Module FinalizedExecutionBlock.
Record t : Type := mk {
  deposit_root : H256;
  deposit_count : Z;
  block_hash : H256;
  block_height : Z;
}.
End FinalizedExecutionBlock.

Module DepositTreeSnapshot.
Record t : Type := mk {
  finalized : list H256;
  deposit_root : H256;
  deposit_count : Z;
  execution_block_hash : H256;
  execution_block_height : Z;
}.
End DepositTreeSnapshot.

Module DepositDataTree.
Record t : Type := mk {
  tree : MerkleTree.t;
  mix_in_length : Z;
  finalized_execution_block : option FinalizedExecutionBlock.t;
  depth : nat;
}.
Definition set_tree (x : MerkleTree.t) (d : t) : t :=
  mk x d.(mix_in_length) d.(finalized_execution_block) d.(depth).
End DepositDataTree.

(** [int_to_bytes32], as the number of its bytes. *)
Definition int_to_bytes32 (int : Z) : H256 :=
  fold_left (fun acc b => 256 * acc + b) (to_le_bytes 8 int ++ replicate 24 0) 0.

Section deposit_tree.
Context (hash2 : H256 → H256 → H256) (zero_hash : nat → H256).

Definition ddt_create (leaves : list H256) (mix_in_length : Z) (depth : nat) : DepositDataTree.t :=
  DepositDataTree.mk (create hash2 zero_hash leaves depth) mix_in_length None depth.

Definition length_bytes (d : DepositDataTree.t) : H256 := int_to_bytes32 d.(DepositDataTree.mix_in_length).

Definition root (d : DepositDataTree.t) : H256 :=
  hash2 (hash zero_hash d.(DepositDataTree.tree)) (length_bytes d).

Definition ddt_generate_proof (d : DepositDataTree.t) (index : Z)
    : outcome MerkleTreeError.t (H256 * list H256) :=
  '(r, proof) ← generate_proof zero_hash d.(DepositDataTree.tree) index d.(DepositDataTree.depth);
  Ok (r, proof ++ [length_bytes d]).

Definition ddt_push_leaf (leaf : H256) : M DepositDataTree.t MerkleTreeError.t unit :=
  (fun d =>
     let '(r, tree) := push_leaf hash2 zero_hash d.(DepositDataTree.tree) leaf d.(DepositDataTree.depth) in
     (r, DepositDataTree.set_tree tree d)) ;;
  d ← get;
  n ← lift (ok_or (u64_checked_add d.(DepositDataTree.mix_in_length) 1) MerkleTreeError.ArithError_);
  modify (fun d => DepositDataTree.mk d.(DepositDataTree.tree) n
    d.(DepositDataTree.finalized_execution_block) d.(DepositDataTree.depth)).

Definition finalize (finalized_execution_block : FinalizedExecutionBlock.t)
    : M DepositDataTree.t MerkleTreeError.t unit :=
  (fun d =>
     let '(r, tree) := finalize_deposits d.(DepositDataTree.tree)
       finalized_execution_block.(FinalizedExecutionBlock.deposit_count) d.(DepositDataTree.depth) in
     (r, DepositDataTree.set_tree tree d)) ;;
  modify (fun d => DepositDataTree.mk d.(DepositDataTree.tree) d.(DepositDataTree.mix_in_length)
    (Some finalized_execution_block) d.(DepositDataTree.depth)).

Definition get_snapshot (d : DepositDataTree.t) : option DepositTreeSnapshot.t :=
  b ← d.(DepositDataTree.finalized_execution_block);
  Some (DepositTreeSnapshot.mk (get_finalized_hashes d.(DepositDataTree.tree))
    b.(FinalizedExecutionBlock.deposit_root) b.(FinalizedExecutionBlock.deposit_count)
    b.(FinalizedExecutionBlock.block_hash) b.(FinalizedExecutionBlock.block_height)).

(** [FinalizedExecutionBlock::from(&DepositTreeSnapshot)]. *)
Definition block_of_snapshot (s : DepositTreeSnapshot.t) : FinalizedExecutionBlock.t :=
  FinalizedExecutionBlock.mk s.(DepositTreeSnapshot.deposit_root) s.(DepositTreeSnapshot.deposit_count)
    s.(DepositTreeSnapshot.execution_block_hash) s.(DepositTreeSnapshot.execution_block_height).

Definition from_snapshot (snapshot : DepositTreeSnapshot.t) (depth : nat)
    : outcome MerkleTreeError.t DepositDataTree.t :=
  tree ← from_finalized_snapshot hash2 zero_hash snapshot.(DepositTreeSnapshot.finalized)
           snapshot.(DepositTreeSnapshot.deposit_count) depth;
  Ok (DepositDataTree.mk tree snapshot.(DepositTreeSnapshot.deposit_count)
        (Some (block_of_snapshot snapshot)) depth).

(** The loop of [calculate_root] over the heights [height], [height + 1], ... *)
Fixpoint calculate_root_loop (n height : nat) (finalized : list H256) (size : Z) (index : nat)
    (deposit_root : H256) : option H256 :=
  match n with
  | O => Some deposit_root
  | S n' =>
      if Z.land size 1 =? 1 then
        match index with
        | O => None
        | S index' =>
            h ← finalized !! index';
            calculate_root_loop n' (S height) finalized (size / 2) index' (hash2 h deposit_root)
        end
      else
        calculate_root_loop n' (S height) finalized (size / 2) index
          (hash2 deposit_root (zero_hash height))
  end.

Definition calculate_root (s : DepositTreeSnapshot.t) : option H256 :=
  deposit_root ← calculate_root_loop DEPOSIT_TREE_DEPTH 0 s.(DepositTreeSnapshot.finalized)
    s.(DepositTreeSnapshot.deposit_count) (length s.(DepositTreeSnapshot.finalized)) 0;
  Some (hash2 deposit_root (int_to_bytes32 s.(DepositTreeSnapshot.deposit_count))).

Definition is_valid (s : DepositTreeSnapshot.t) : bool :=
  bool_decide (calculate_root s = Some s.(DepositTreeSnapshot.deposit_root)).
End deposit_tree.
