(* ===== verification/MerkleCorrect.v ===== *)
(** * Correctness of the Merkle trees

    A tree represents a list of leaves: its root is the root of the dense binary
    tree over the leaves padded with zeros.  Insertion, finalization and
    snapshots keep or change the list as they should, and proofs verify. *)
From S2P Require Import Prelude MerkleDefs.

Lemma pow2_nat d : pow2 d = Z.of_nat (2 ^ d).
Proof. unfold pow2. by rewrite Nat2Z.inj_pow. Qed.
Lemma pow2_pos d : (0 < 2 ^ d)%nat.
Proof. apply Nat.neq_0_lt_0, Nat.pow_nonzero. lia. Qed.
Lemma pow2_small d : (d ≤ MAX_TREE_DEPTH)%nat → Z.of_nat (2 ^ d) ≤ 2 ^ 32.
Proof. intros Hd. rewrite <-pow2_nat. apply Z.pow_le_mono_r; unfold MAX_TREE_DEPTH in Hd; lia. Qed.
Lemma pow2_S d : (2 ^ S d = 2 ^ d + 2 ^ d)%nat.
Proof. simpl. lia. Qed.

Lemma land_1 x : Z.land x 1 = x mod 2.
Proof. apply (Z.land_ones x 1). lia. Qed.

(** One more bit. *)
Lemma mod_pow2_S x d :
  (x mod Z.of_nat (2 ^ S d)) mod Z.of_nat (2 ^ d) = x mod Z.of_nat (2 ^ d) ∧
  (x / Z.of_nat (2 ^ d)) mod 2 = (x mod Z.of_nat (2 ^ S d)) / Z.of_nat (2 ^ d) ∧
  x / Z.of_nat (2 ^ S d) = x / Z.of_nat (2 ^ d) / 2.
Proof.
  pose proof (pow2_pos d). replace (Z.of_nat (2 ^ S d)) with (Z.of_nat (2 ^ d) * 2) by (rewrite pow2_S; lia).
  rewrite Z.rem_mul_r by lia. assert (0 < Z.of_nat (2 ^ d)) as HP by lia.
  revert HP. generalize (Z.of_nat (2 ^ d)) as P. intros P HP. pose proof (Z.mod_pos_bound x P HP).
  rewrite (Z.mul_comm P ((x / P) mod 2)). split_and!.
  - rewrite Z.mod_add by lia. apply Z.mod_mod. lia.
  - rewrite Z.div_add by lia. rewrite (Z.div_small (x mod P)) by lia. lia.
  - by rewrite Z.div_div by lia.
Qed.

(** ** Finalized prefixes *)

(** Exactly the first [n] leaves of [t], of depth [d], are finalized. *)
Inductive final : nat → nat → MerkleTree.t → Prop :=
  | f_none d t : get_finalized_hashes t = [] → final d 0 t
  | f_all d h : final d (2 ^ d) (MerkleTree.Finalized h)
  | f_left d n h a b : (0 < n < 2 ^ d)%nat → final d n a → get_finalized_hashes b = [] →
      final (S d) n (MerkleTree.Node h a b)
  | f_right d n h h0 b : (n < 2 ^ d)%nat → final d n b →
      final (S d) (2 ^ d + n) (MerkleTree.Node h (MerkleTree.Finalized h0) b).

Lemma final_0 d t : final d 0 t → get_finalized_hashes t = [].
Proof.
  intros Hf. remember 0%nat as n eqn:Hn. destruct Hf as [| |d n h a b Hn' _ _|d n h h0 b _ _];
    [done|pose proof (pow2_pos d); lia|lia|pose proof (pow2_pos d); lia].
Qed.

Lemma final_all d t : final d (2 ^ d) t → ∃ h, t = MerkleTree.Finalized h.
Proof.
  intros Hf. remember (2 ^ d)%nat as n eqn:Hn.
  destruct Hf as [d t _|d h|d n h a b Hn' _ _|d n h h0 b Hn' _]; [pose proof (pow2_pos d); lia|eauto| |];
    rewrite pow2_S in Hn; lia.
Qed.

Lemma final_le d n t : final d n t → (n ≤ 2 ^ d)%nat.
Proof. destruct 1; rewrite ?pow2_S; lia. Qed.

Lemma final_pos d n t : final d n t → (0 < n)%nat → get_finalized_hashes t ≠ [].
Proof.
  induction 1 as [| |d n h a b Hn' Hf IH _|]; intros Hn; [lia|done| |done].
  cbn [get_finalized_hashes]. specialize (IH Hn). by destruct (get_finalized_hashes a).
Qed.

(** The part of a node that is already finalized. *)
Lemma final_node d m h a b : final (S d) m (MerkleTree.Node h a b) →
  ∃ ma mb, final d ma a ∧ final d mb b ∧
    ((ma = m ∧ mb = 0 ∧ m < 2 ^ d) ∨ (ma = 2 ^ d ∧ m = 2 ^ d + mb ∧ mb < 2 ^ d))%nat.
Proof.
  inversion 1 as [d' t Hn| |d' n h' a' b' Hn Ha Hb|d' n h' h0 b' Hn Hb]; subst.
  - cbn [get_finalized_hashes] in Hn. apply app_eq_nil in Hn as [Ha Hb]. exists 0%nat, 0%nat.
    pose proof (pow2_pos d). split_and!; [by constructor|by constructor|lia].
  - exists m, 0%nat. split_and!; [done|by constructor|lia].
  - exists (2 ^ d)%nat, n. split_and!; [constructor|done|lia].
Qed.

Section merkle.
Context (hash2 : H256 → H256 → H256) (zero_hash : nat → H256).
(** The table of zero hashes. *)
Context (Hz0 : zero_hash 0 = 0)
  (HzS : ∀ d, (d < MAX_TREE_DEPTH)%nat → zero_hash (S d) = hash2 (zero_hash d) (zero_hash d)).
Abbreviation hash := (hash zero_hash).
Abbreviation node := (node hash2 zero_hash).
Abbreviation create := (create hash2 zero_hash).
Abbreviation push_leaf := (push_leaf hash2 zero_hash).

(** Root of the full binary tree over the leaves, padded with zeros. *)
Fixpoint dense_root (d : nat) (ls : list H256) : H256 :=
  match d with
  | O => default 0 (ls !! 0%nat)
  | S d' => hash2 (dense_root d' (take (2 ^ d') ls)) (dense_root d' (drop (2 ^ d') ls))
  end.

Definition is_finalized (t : MerkleTree.t) : bool :=
  match t with MerkleTree.Finalized _ => true | _ => false end.

(** [t] of depth [d] represents the leaves [ls]. *)
Inductive repr : nat → list H256 → MerkleTree.t → Prop :=
  | r_zero d : repr d [] (MerkleTree.Zero d)
  | r_leaf x : repr 0 [x] (MerkleTree.Leaf x)
  | r_finalized d ls : length ls = (2 ^ d)%nat → repr d ls (MerkleTree.Finalized (dense_root d ls))
  | r_node d l1 l2 a b :
      l1 ≠ [] → repr d l1 a → repr d l2 b → l2 = [] ∨ length l1 = (2 ^ d)%nat →
      is_finalized b = false → repr (S d) (l1 ++ l2) (node a b).

Lemma repr_length d ls t : repr d ls t → (length ls ≤ 2 ^ d)%nat.
Proof using.
  induction 1 as [d|x|d ls Hl|d l1 l2 a b Hne Ha IHa Hb IHb Hfull _]; simpl; [lia|lia|lia|].
  rewrite length_app. lia.
Qed.

Lemma dense_root_nil d : (d ≤ MAX_TREE_DEPTH)%nat → dense_root d [] = zero_hash d.
Proof using Hz0 HzS.
  induction d as [|d IH]; intros Hd; [done|]. simpl. rewrite take_nil, drop_nil, IH, HzS by lia. done.
Qed.

Lemma dense_root_split d l1 l2 : (d < MAX_TREE_DEPTH)%nat →
  (length l1 ≤ 2 ^ d)%nat → l2 = [] ∨ length l1 = (2 ^ d)%nat →
  dense_root (S d) (l1 ++ l2) = hash2 (dense_root d l1) (dense_root d l2).
Proof using.
  intros Hd Hl [->|Hfull]; simpl.
  - rewrite app_nil_r, take_ge, drop_ge by done. done.
  - by rewrite take_app_length', drop_app_length' by done.
Qed.

Lemma repr_root d ls t : repr d ls t → (d ≤ MAX_TREE_DEPTH)%nat → hash t = dense_root d ls.
Proof using Hz0 HzS.
  induction 1 as [d|x|d ls Hl|d l1 l2 a b Hne Ha IHa Hb IHb Hfull _]; intros Hd.
  - by rewrite dense_root_nil.
  - done.
  - done.
  - rewrite dense_root_split by (lia || done || by eapply repr_length).
    cbn [hash node]. by rewrite IHa, IHb by lia.
Qed.

Lemma create_nil d : create [] d = MerkleTree.Zero d.
Proof using. by destruct d. Qed.

Lemma create_S l d : l ≠ [] →
  create l (S d) =
    if Z.of_nat (length l) <=? pow2 d then node (create l d) (create [] d)
    else node (create (take (Z.to_nat (pow2 d)) l) d) (create (drop (Z.to_nat (pow2 d)) l) d).
Proof using. intros Hl. destruct l as [|x l]; [done|]. cbn [MerkleDefs.create]. by destruct (_ <=? _). Qed.

Lemma create_not_finalized l d : is_finalized (create l d) = false.
Proof using.
  destruct l as [|x l]; [by rewrite create_nil|]. destruct d as [|d]; [done|].
  rewrite create_S by done. by destruct (_ <=? _).
Qed.

Lemma create_repr d ls : (length ls ≤ 2 ^ d)%nat → repr d ls (create ls d).
Proof using.
  revert ls. induction d as [|d IH]; intros ls Hl.
  - destruct ls as [|x [|y ls]]; simpl in Hl; [constructor|constructor|lia].
  - destruct (decide (ls = [])) as [->|Hne]; [rewrite create_nil; constructor|].
    rewrite create_S by done. rewrite pow2_nat, Nat2Z.id.
    destruct (Z.leb_spec (Z.of_nat (length ls)) (Z.of_nat (2 ^ d))) as [Hle|Hgt].
    + rewrite create_nil. rewrite <-(app_nil_r ls) at 1.
      constructor; [done|apply IH; lia|constructor|by left|done].
    + rewrite <-(take_drop (2 ^ d) ls) at 1. rewrite pow2_S in Hl. pose proof (pow2_pos d).
      constructor.
      * intros E. apply (f_equal length) in E. rewrite length_take in E. simpl in E. lia.
      * apply IH. rewrite length_take. lia.
      * apply IH. rewrite length_drop. lia.
      * right. rewrite length_take. lia.
      * apply create_not_finalized.
Qed.

(** Shapes of the subtrees. *)
Lemma repr_nonempty_0 ls t : repr 0 ls t → ls ≠ [] → ∃ x, ls = [x] ∧
  (t = MerkleTree.Leaf x ∨ t = MerkleTree.Finalized x).
Proof using.
  inversion 1 as [|x|d ls' Hl| ]; subst; intros Hne; [done|eauto|].
  destruct ls as [|x [|y ls]]; simpl in Hl; [done| |lia]. eauto.
Qed.

Lemma repr_nonempty_S d ls t : repr (S d) ls t → ls ≠ [] →
  (∃ h, t = MerkleTree.Finalized h) ∨ (∃ a b, t = node a b).
Proof using. inversion 1; subst; intros Hne; [done|eauto|eauto]. Qed.

Lemma repr_empty d t : repr d [] t → t = MerkleTree.Zero d.
Proof using.
  inversion 1 as [| |d' ls Hl|d' l1 l2 a b Hne]; subst; [done| |].
  - pose proof (pow2_pos d). simpl in Hl. lia.
  - destruct l1; [done|discriminate].
Qed.

(** ** Insertion *)
Lemma push_full d ls t e : repr d ls t → (0 < d)%nat → length ls = (2 ^ d)%nat → is_finalized t = false →
  push_leaf t e d = (Err MerkleTreeError.MerkleTreeFull, t).
Proof using.
  induction 1 as [d|x|d ls Hl|d l1 l2 a b Hne Ha IHa Hb IHb Hfull Hfb]; intros Hd Hlen Hf;
    [pose proof (pow2_pos d); simpl in Hlen; lia|lia|done|].
  rewrite length_app, pow2_S in Hlen. pose proof (repr_length _ _ _ Ha). pose proof (repr_length _ _ _ Hb).
  pose proof (pow2_pos d). assert (l2 ≠ []) as Hne2 by (intros ->; simpl in Hlen; lia).
  destruct d as [|d].
  - destruct (repr_nonempty_0 _ _ Ha Hne) as (x & -> & [-> | ->]);
      destruct (repr_nonempty_0 _ _ Hb Hne2) as (y & -> & [-> | ->]); done.
  - specialize (IHb ltac:(lia) ltac:(lia) Hfb).
    destruct (repr_nonempty_S _ _ _ Hb Hne2) as [[h ->]|(b1 & b2 & ->)]; [done|].
    destruct (repr_nonempty_S _ _ _ Ha Hne) as [[h ->]|(a1 & a2 & ->)];
      cbn [MerkleDefs.push_leaf MerkleDefs.node] in *; by rewrite IHb.
Qed.

Lemma push_repr d ls t e : repr d ls t → (0 < d)%nat → (length ls < 2 ^ d)%nat →
  ∃ t', push_leaf t e d = (Ok tt, t') ∧ repr d (ls ++ [e]) t' ∧ is_finalized t' = false.
Proof using.
  assert (∀ d, repr d [e] (create [e] d)) as Hone by (intros; apply create_repr, pow2_pos).
  induction 1 as [d|x|d ls Hl|d l1 l2 a b Hne Ha IHa Hb IHb Hfull Hfb]; intros Hd Hlen; [|lia|lia|].
  { exists (create [e] d). destruct d as [|d]; [lia|]. split_and!; [done|apply Hone|apply create_not_finalized]. }
  rewrite length_app, pow2_S in Hlen. pose proof (repr_length _ _ _ Ha). pose proof (repr_length _ _ _ Hb).
  destruct (decide (l2 = [])) as [->|Hne2].
  - apply repr_empty in Hb as ->. rewrite app_nil_r in *.
    assert (length l1 = (2 ^ d)%nat → repr (S d) (l1 ++ [e]) (node a (create [e] d))) as Hright.
    { intros ?. constructor; [done|done|apply Hone|by right|apply create_not_finalized]. }
    assert (∀ a', repr d (l1 ++ [e]) a' → repr (S d) (l1 ++ [e]) (node a' (MerkleTree.Zero d))) as Hleft.
    { intros a' Ha'. rewrite <-(app_nil_r (l1 ++ [e])). constructor; [by destruct l1|done|constructor|by left|done]. }
    destruct d as [|d].
    + destruct (repr_nonempty_0 _ _ Ha Hne) as (x & -> & [-> | ->]); eexists; split_and!;
        [reflexivity|by apply Hright|done|reflexivity|by apply Hright|done].
    + destruct (repr_nonempty_S _ _ _ Ha Hne) as [[h ->]|(a1 & a2 & ->)].
      * eexists. split_and!; [reflexivity| |done]. apply Hright. by inversion Ha.
      * destruct (decide (length l1 = (2 ^ S d)%nat)) as [Hf|Hnf].
        -- pose proof (push_full _ _ _ e Ha ltac:(lia) Hf eq_refl) as Hp.
           eexists. split_and!; [|by apply Hright|done].
           cbn [MerkleDefs.push_leaf MerkleDefs.node] in *. by rewrite Hp.
        -- destruct (IHa ltac:(lia) ltac:(lia)) as (a' & Hp & Hr & _).
           eexists. split_and!; [|by apply Hleft|done].
           cbn [MerkleDefs.push_leaf MerkleDefs.node] in *. by rewrite Hp.
  - assert (length l1 = (2 ^ d)%nat) as Hf by (by destruct Hfull).
    destruct d as [|d]; [destruct l2; [done|simpl in *; lia]|].
    destruct (repr_nonempty_S _ _ _ Hb Hne2) as [[h ->]|(b1 & b2 & ->)]; [done|].
    destruct (IHb ltac:(lia) ltac:(lia)) as (b' & Hp & Hr & Hfb').
    exists (node a b'). split_and!; [| |done].
    + destruct (repr_nonempty_S _ _ _ Ha Hne) as [[h ->]|(a1 & a2 & ->)];
        cbn [MerkleDefs.push_leaf MerkleDefs.node] in *; by rewrite Hp.
    + rewrite <-app_assoc. constructor; [done|done|done|by right|done].
Qed.

(** ** Finalization *)
Lemma finalize_not_finalized d ls t n : repr d ls t → is_finalized t = false → 1 ≤ n < pow2 d →
  is_finalized (finalize_deposits t n d).2 = false.
Proof using.
  destruct 1 as [d|x|d ls Hl|d l1 l2 a b Hne Ha Hb Hfull Hfb]; intros Hf Hn; [done| |done|].
  - change (pow2 0) with 1 in Hn. lia.
  - cbn [finalize_deposits MerkleDefs.node]. destruct (Z.leb_spec (pow2 (S d)) n); [lia|].
    destruct (finalize_deposits a n d) as [[[]|e| |] a']; try done.
    destruct (_ <? _); [|done]. by destruct (finalize_deposits b _ d).
Qed.

Lemma pow2_half d : pow2 (S d) / 2 = pow2 d.
Proof using. rewrite !pow2_nat, pow2_S, Nat2Z.inj_add. rewrite Z.add_diag, Z.mul_comm. by apply Z.div_mul. Qed.

Lemma finalize_repr d ls t n : (d ≤ MAX_TREE_DEPTH)%nat → repr d ls t →
  1 ≤ n → Z.min n (pow2 d) ≤ Z.of_nat (length ls) →
  ∃ t', finalize_deposits t n d = (Ok tt, t') ∧ repr d ls t' ∧ hash t' = hash t.
Proof using Hz0 HzS.
  intros Hd Hr. revert n Hd.
  induction Hr as [d|x|d ls Hl|d l1 l2 a b Hne Ha IHa Hb IHb Hfull Hfb]; intros n Hd Hn Hlen.
  - rewrite pow2_nat in Hlen. pose proof (pow2_pos d). simpl in Hlen. lia.
  - exists (MerkleTree.Finalized x). split_and!; [done| |done]. by apply (r_finalized 0 [x]).
  - eexists. split_and!; [done|by constructor|done].
  - pose proof (repr_length _ _ _ Ha) as Hla. pose proof (repr_length _ _ _ Hb) as Hlb.
    cbn [finalize_deposits MerkleDefs.node]. rewrite pow2_half, !pow2_nat in *. rewrite pow2_S in *.
    rewrite length_app in Hlen.
    destruct (Z.leb_spec (Z.of_nat (2 ^ d + 2 ^ d)) n) as [Hall|Hpart].
    + eexists. split_and!; [done| |done].
      rewrite (repr_root d l1 a), (repr_root d l2 b) by (done || lia).
      rewrite <-(dense_root_split d l1 l2) by (lia || done).
      constructor. rewrite length_app, pow2_S. lia.
    + assert (length l2 = 0 ∨ length l1 = 2 ^ d)%nat as Hlf by (destruct Hfull as [->|?]; auto).
      destruct (IHa n ltac:(lia) Hn ltac:(lia)) as (a' & -> & Hra & Hha).
      destruct (Z.ltb_spec (Z.of_nat (2 ^ d)) n) as [Hmore|Hless].
      * destruct (IHb (n - Z.of_nat (2 ^ d)) ltac:(lia) ltac:(lia) ltac:(lia)) as (b' & Hb' & Hrb & Hhb).
        pose proof (finalize_not_finalized d l2 b (n - Z.of_nat (2 ^ d)) Hb Hfb ltac:(rewrite pow2_nat; lia)) as Hfb'.
        rewrite Hb' in Hfb' |- *. eexists. split_and!; [done| |done]. rewrite <-Hha, <-Hhb. by constructor.
      * eexists. split_and!; [done| |done]. rewrite <-Hha. by constructor.
Qed.

(** ** Snapshots *)

Lemma create_final d ls : final d 0 (create ls d).
Proof using.
  constructor. revert ls. induction d as [|d IH]; intros ls; destruct (decide (ls = [])) as [->|Hne];
    [done|by destruct ls|done|]. rewrite create_S by done.
  destruct (_ <=? _); cbn [get_finalized_hashes MerkleDefs.node]; by rewrite !IH.
Qed.

Lemma finalize_final d ls t m n t' : repr d ls t → final d m t →
  Z.of_nat m ≤ n → 1 ≤ n → finalize_deposits t n d = (Ok tt, t') →
  final d (Z.to_nat (Z.min n (pow2 d))) t'.
Proof using Hz0 HzS.
  intros Hr. revert m n t'.
  induction Hr as [d|x|d ls Hl|d l1 l2 a b Hne Ha IHa Hb IHb Hfull Hfb]; intros m n t' Hf Hmn Hn.
  - done.
  - intros [= <-]. change (pow2 0) with 1. rewrite Z.min_r by lia. apply (f_all 0).
  - intros [= <-]. assert (m = 2 ^ d)%nat as ->.
    { inversion Hf as [? ? E| | |]; subst; [discriminate E|done]. }
    rewrite pow2_nat in *. rewrite Z.min_r, Nat2Z.id by lia. constructor.
  - cbn [finalize_deposits MerkleDefs.node] in *. rewrite pow2_half, !pow2_nat, pow2_S.
    apply final_node in Hf as (ma & mb & Hfa & Hfb' & Hcase).
    destruct (Z.leb_spec (Z.of_nat (2 ^ d + 2 ^ d)) n) as [Hall|Hpart].
    + intros [= <-]. rewrite Z.min_r, Nat2Z.id, <-pow2_S by lia. apply (f_all (S d)).
    + destruct (finalize_deposits a n d) as [[[]|e| |] a'] eqn:Ea; try done.
      specialize (IHa ma n a' Hfa ltac:(lia) Hn Ea). rewrite pow2_nat in IHa.
      rewrite Z.min_l by lia.
      destruct (Z.ltb_spec (Z.of_nat (2 ^ d)) n) as [Hmore|Hless].
      * rewrite Z.min_r, Nat2Z.id in IHa by lia. apply final_all in IHa as [h ->].
        destruct (finalize_deposits b (n - Z.of_nat (2 ^ d)) d) as [rb b'] eqn:Eb. intros [= -> <-].
        specialize (IHb mb (n - Z.of_nat (2 ^ d)) b' Hfb' ltac:(lia) ltac:(lia) Eb). rewrite pow2_nat, Z.min_l in IHb by lia.
        replace (Z.to_nat n) with (2 ^ d + Z.to_nat (n - Z.of_nat (2 ^ d)))%nat by lia.
        constructor; [lia|done].
      * intros [= <-]. assert (mb = 0%nat) as -> by lia. apply final_0 in Hfb'.
        rewrite Z.min_l in IHa by lia. destruct (decide (n = Z.of_nat (2 ^ d))) as [->|Hne'].
        -- rewrite Nat2Z.id in *. apply final_all in IHa as [h ->].
           pose proof (f_right d 0 (hash2 (hash a) (hash b)) h b (pow2_pos d) (f_none d b Hfb')) as Hx.
           by rewrite Nat.add_0_r in Hx.
        -- constructor; [lia|done|done].
Qed.

Lemma final_bounded d ls t n : repr d ls t → final d n t → (n ≤ length ls)%nat.
Proof using Hz0 HzS.
  intros Hr. revert n. induction Hr as [d|x|d ls Hl|d l1 l2 a b Hne Ha IHa Hb IHb Hfull Hfb]; intros n Hf.
  - inversion Hf; subst; lia.
  - inversion Hf; subst; simpl; lia.
  - pose proof (final_le _ _ _ Hf). lia.
  - apply final_node in Hf as (ma & mb & Hfa & Hfb' & Hcase). specialize (IHa _ Hfa). specialize (IHb _ Hfb').
    rewrite length_app. lia.
Qed.

Lemma snapshot_run d ls t n : (d ≤ MAX_TREE_DEPTH)%nat → repr d ls t → final d n t →
  ∃ t', from_finalized_snapshot hash2 zero_hash (get_finalized_hashes t) (Z.of_nat n) d = Ok t' ∧
    repr d (take n ls) t'.
Proof using Hz0 HzS.
  intros Hd Hr. revert n Hd. induction Hr as [d|x|d ls Hl|d l1 l2 a b Hne Ha IHa Hb IHb Hfull Hfb]; intros n Hd Hf.
  - inversion Hf; subst. exists (MerkleTree.Zero d). split; [by destruct d|]. rewrite take_0. constructor.
  - inversion Hf; subst. exists (MerkleTree.Zero 0). split; [done|]. rewrite take_0. constructor.
  - assert (n = 2 ^ d)%nat as ->.
    { inversion Hf as [? ? E| | |]; subst; [discriminate E|done]. }
    exists (MerkleTree.Finalized (dense_root d ls)). rewrite <-Hl at 2. rewrite firstn_all. split; [|by constructor].
    destruct d; cbn [get_finalized_hashes from_finalized_snapshot]; rewrite pow2_nat, Z.eqb_refl; done.
  - pose proof (repr_length _ _ _ Ha) as Hla. pose proof (repr_length _ _ _ Hb) as Hlb.
    inversion Hf as [d' t Hn| |d' n' h' a' b' Hn Hfa Hnb|d' n' h' h0 b' Hn Hfb']; subst.
    + rewrite Hn. exists (MerkleTree.Zero (S d)). split; [done|]. rewrite take_0. constructor.
    + destruct (IHa n ltac:(lia) Hfa) as (a2 & Hrun & Hra).
      exists (node a2 (MerkleTree.Zero d)). cbn [get_finalized_hashes MerkleDefs.node]. rewrite Hnb, app_nil_r.
      pose proof (final_pos _ _ _ Hfa ltac:(lia)) as Hpos.
      destruct (get_finalized_hashes a) as [|h hs] eqn:Eh; [done|]. cbn [from_finalized_snapshot].
      rewrite !pow2_nat, pow2_S. destruct (Z.eqb_spec (Z.of_nat n) (Z.of_nat (2 ^ d + 2 ^ d))); [lia|].
      assert (u64_checked_sub (Z.of_nat n) (Z.of_nat (2 ^ d)) = None) as ->
        by (apply checked_u64_None; unfold is_u64; lia).
      rewrite Hrun. split; [done|]. pose proof (final_bounded _ _ _ _ Ha Hfa) as Hnl.
      rewrite take_app_le by done. rewrite <-(app_nil_r (take n l1)).
      constructor; [|done|constructor|by left|done]. destruct n, l1; (done || lia).
    + inversion Ha as [| |d'' ls'' Hl1|]; subst.
      destruct (IHb n' ltac:(lia) Hfb') as (b2 & Hrun & Hrb).
      exists (node (MerkleTree.Finalized (dense_root d l1)) b2).
      cbn [get_finalized_hashes MerkleDefs.node app from_finalized_snapshot].
      rewrite !pow2_nat, pow2_S. destruct (Z.eqb_spec (Z.of_nat (2 ^ d + n')) (Z.of_nat (2 ^ d + 2 ^ d))); [lia|].
      assert (u64_checked_sub (Z.of_nat (2 ^ d + n')) (Z.of_nat (2 ^ d)) = Some (Z.of_nat n')) as ->.
      { rewrite Nat2Z.inj_add. unfold u64_checked_sub. rewrite Z.add_simpl_l. apply checked_u64_in.
        pose proof (pow2_small d ltac:(lia)). unfold is_u64, u64_max. lia. }
      rewrite Hrun. split; [done|].
      rewrite take_app_ge by lia. replace (2 ^ d + n' - length l1)%nat with n' by lia.
      constructor; [done|done|done|by right|].
      inversion Hrb as [| |d'' ls'' Hl2|]; subst; try done.
      rewrite length_take in Hl2. lia.
Qed.

(** ** The root of a snapshot *)
Lemma calculate_run d ls t n : (d ≤ MAX_TREE_DEPTH)%nat → repr d ls t → final d n t → (n < 2 ^ d)%nat →
  ∀ m pre post size, size mod Z.of_nat (2 ^ d) = Z.of_nat n →
  let F := pre ++ get_finalized_hashes t ++ post in
  calculate_root_loop hash2 zero_hash (d + m) 0 F size (length (pre ++ get_finalized_hashes t)) 0 =
  calculate_root_loop hash2 zero_hash m d F (size / Z.of_nat (2 ^ d)) (length pre) (dense_root d (take n ls)).
Proof using Hz0 HzS.
  revert ls t n. induction d as [|d IH]; intros ls t n Hd Hr Hf Hn m pre post size Hsize F.
  { simpl in Hn. assert (n = 0%nat) as -> by lia. unfold F. rewrite (final_0 _ _ Hf), app_nil_r, take_0. simpl.
    by rewrite Z.div_1_r. }
  destruct (mod_pow2_S size d) as (Hlow & Hbit & Hdiv). rewrite Hsize in Hlow, Hbit. rewrite Hdiv.
  replace (S d + m)%nat with (d + S m)%nat by lia. rewrite pow2_S in Hn. pose proof (pow2_pos d) as Hpos.
  assert (Z.of_nat n < Z.of_nat (2 ^ d) → (Z.of_nat n mod Z.of_nat (2 ^ d) = Z.of_nat n ∧
    Z.of_nat n / Z.of_nat (2 ^ d) = 0)) as Hsmall by (intros; split; [apply Z.mod_small|apply Z.div_small]; lia).
  inversion Hf as [d' t' Hno|d' h|d' n' h a b Hn' Hfa Hnb|d' n' h h0 b Hn' Hfb]; subst.
  - destruct Hsmall as [Hm Hq]; [lia|]. rewrite Hm in Hlow. rewrite Hq in Hbit.
    pose proof (IH [] (MerkleTree.Zero d) 0%nat ltac:(lia) (r_zero d)
      (f_none d (MerkleTree.Zero d) eq_refl) Hpos (S m) pre post size (eq_sym Hlow)) as E.
    unfold F. rewrite Hno. cbn [get_finalized_hashes] in E. rewrite E. cbn [calculate_root_loop].
    rewrite land_1, Hbit, !take_0. simpl (0 =? 1). f_equal. simpl.
    by rewrite take_nil, drop_nil, !dense_root_nil by lia.
  - rewrite pow2_S in Hn. lia.
  - inversion Hr as [| | |d' l1 l2 a' b' Hne Ha Hb Hfull Hfb']; subst.
    destruct Hsmall as [Hm Hq]; [lia|]. rewrite Hm in Hlow. rewrite Hq in Hbit.
    pose proof (IH l1 a n ltac:(lia) Ha Hfa ltac:(lia) (S m) pre post size (eq_sym Hlow)) as E.
    unfold F. cbn [get_finalized_hashes MerkleDefs.node]. rewrite Hnb, app_nil_r, E. cbn [calculate_root_loop].
    rewrite land_1, Hbit. simpl (0 =? 1). f_equal.
    pose proof (final_bounded _ _ _ _ Ha Hfa). rewrite take_app_le by done.
    rewrite <-(app_nil_r (take n l1)), dense_root_split, dense_root_nil by (try (by left); rewrite ?length_take; lia).
    by rewrite app_nil_r.
  - inversion Hr as [| | |d' l1 l2 a' b' Hne Ha Hb Hfull Hfb']; subst.
    inversion Ha as [| |d'' ls'' Hl1|]; subst.
    assert (Z.of_nat (2 ^ d + n') mod Z.of_nat (2 ^ d) = Z.of_nat n' ∧ Z.of_nat (2 ^ d + n') / Z.of_nat (2 ^ d) = 1)
      as [Hm Hq].
    { rewrite Nat2Z.inj_add. rewrite <-(Z.mul_1_l (Z.of_nat (2 ^ d))) at 1 3. rewrite (Z.add_comm (1 * _)).
      rewrite Z.mod_add, Z.div_add by lia. split; [apply Z.mod_small; lia|]. rewrite Z.div_small; lia. }
    rewrite Hm in Hlow. rewrite Hq in Hbit.
    pose proof (IH l2 b n' ltac:(lia) Hb Hfb ltac:(lia) (S m) (pre ++ [dense_root d l1]) post size (eq_sym Hlow)) as E.
    unfold F. cbn [get_finalized_hashes MerkleDefs.node app].
    rewrite <-!app_assoc in E. cbn [app] in E. rewrite E. cbn [calculate_root_loop].
    rewrite land_1, Hbit. simpl (1 =? 1). rewrite length_app. cbn [length]. rewrite Nat.add_1_r.
    rewrite list_lookup_middle by done. cbn. f_equal.
    rewrite take_app_ge by lia. replace (2 ^ d + n' - length l1)%nat with n' by lia.
    rewrite drop_app_length', take_app_length' by done. done.
Qed.

(** ** Proofs of inclusion *)
Lemma root_from_branch_snoc a l x index i :
  root_from_branch hash2 a (l ++ [x]) index i =
    let r := root_from_branch hash2 a l index i in
    if Z.land (Z.shiftr index (i + Z.of_nat (length l))) 1 =? 1 then hash2 x r else hash2 r x.
Proof using.
  revert a i. induction l as [|y l IH]; intros a i; simpl; [by rewrite Z.add_0_r|].
  rewrite IH. simpl. by replace (i + 1 + Z.of_nat (length l)) with (i + Z.of_nat (S (length l))) by lia.
Qed.

(** Bit [d] of the index, and what is below it. *)
Lemma index_bit index d :
  Z.land (Z.shiftr index (Z.of_nat d)) 1 = (index / Z.of_nat (2 ^ d)) mod 2.
Proof using. by rewrite land_1, Z.shiftr_div_pow2, <-pow2_nat by lia. Qed.

(** The lookup the walk performs. *)
Definition at_index (ls : list H256) (d : nat) (index : Z) : option H256 :=
  ls !! Z.to_nat (index mod Z.of_nat (2 ^ d)).

Lemma at_index_left d l1 l2 index : (index / Z.of_nat (2 ^ d)) mod 2 = 0 →
  (l2 = [] ∨ length l1 = (2 ^ d)%nat) → at_index (l1 ++ l2) (S d) index = at_index l1 d index.
Proof using Hz0 HzS.
  intros Hbit Hfull. unfold at_index. destruct (mod_pow2_S index d) as (Hlow & Hb & _).
  pose proof (pow2_pos d). pose proof (Z.mod_pos_bound index (Z.of_nat (2 ^ S d)) ltac:(rewrite pow2_S; lia)) as Hbd.
  rewrite Hbit in Hb. symmetry in Hb. rewrite <-Hlow.
  assert (index mod Z.of_nat (2 ^ S d) < Z.of_nat (2 ^ d)).
  { apply Z.div_small_iff in Hb; [|lia]. lia. }
  rewrite (Z.mod_small (index mod _)) by lia. destruct Hfull as [->|Hl]; [by rewrite app_nil_r|].
  apply lookup_app_l. lia.
Qed.

Lemma at_index_right d l1 l2 index : (index / Z.of_nat (2 ^ d)) mod 2 = 1 →
  length l1 = (2 ^ d)%nat → at_index (l1 ++ l2) (S d) index = at_index l2 d index.
Proof using Hz0 HzS.
  intros Hbit Hl. unfold at_index. destruct (mod_pow2_S index d) as (Hlow & Hb & _).
  pose proof (pow2_pos d). pose proof (Z.mod_pos_bound index (Z.of_nat (2 ^ S d)) ltac:(rewrite pow2_S; lia)) as Hbd.
  rewrite Hbit in Hb. pose proof (Z.div_mod (index mod Z.of_nat (2 ^ S d)) (Z.of_nat (2 ^ d)) ltac:(lia)) as E.
  rewrite <-Hb, Hlow in E. pose proof (Z.mod_pos_bound index (Z.of_nat (2 ^ d)) ltac:(lia)).
  rewrite lookup_app_r by lia. f_equal. lia.
Qed.

(** Whatever the walk returns is on the path, and its siblings give the root. *)
Lemma proof_walk_sound d ls t index acc t' p :
  (d ≤ MAX_TREE_DEPTH)%nat → repr d ls t → proof_walk zero_hash t index d acc = Ok (t', p) →
  ∃ q, p = acc ++ q ∧ length q = d ∧ root_from_branch hash2 (hash t') (rev q) index 0 = hash t ∧
    ∀ x, t' = MerkleTree.Leaf x → at_index ls d index = Some x.
Proof using Hz0 HzS.
  revert ls t acc. induction d as [|d IH]; intros ls t acc Hd Hr.
  { simpl. intros [= <- <-]. exists []. rewrite app_nil_r. split_and!; [done..|].
    intros x ->. inversion Hr; subst. unfold at_index. simpl. by rewrite Z.mod_1_r. }
  assert (∀ sib sub ls' r, (d ≤ MAX_TREE_DEPTH)%nat → repr d ls' sub →
    proof_walk zero_hash sub index d (acc ++ [hash sib]) = Ok (t', p) →
    r = (if (index / Z.of_nat (2 ^ d)) mod 2 =? 1 then hash2 (hash sib) (hash sub) else hash2 (hash sub) (hash sib)) →
    (∀ x, at_index ls' d index = Some x → at_index ls (S d) index = Some x) →
    ∃ q, p = acc ++ q ∧ length q = S d ∧ root_from_branch hash2 (hash t') (rev q) index 0 = r ∧
      ∀ x, t' = MerkleTree.Leaf x → at_index ls (S d) index = Some x) as Hstep.
  { intros sib sub ls' r Hd' Hr' Hw -> Hat. destruct (IH _ _ _ Hd' Hr' Hw) as (q & -> & Hq & Hroot & Hx).
    exists (hash sib :: q). split_and!; [by rewrite <-app_assoc|simpl; lia| |by intros x ?%Hx%Hat].
    simpl rev. rewrite root_from_branch_snoc. cbv zeta.
    by rewrite Hroot, length_rev, Hq, Z.add_0_l, index_bit. }
  cbn [proof_walk]. rewrite index_bit.
  inversion Hr as [d'| |d' ls' Hl|d' l1 l2 a b Hne Ha Hb Hfull Hfb]; subst; [|done|].
  - cbn [left_and_right_branches]. destruct (Nat.leb_spec d MAX_TREE_DEPTH); [|lia]. cbn.
    intros Hw. apply (Hstep (MerkleTree.Zero d) (MerkleTree.Zero d) []); [lia|constructor| | |].
    + by destruct (_ =? 1).
    + cbn. rewrite HzS by lia. by destruct (_ =? 1).
    + intros x. unfold at_index. by rewrite lookup_nil.
  - cbn. destruct (Z.eqb_spec ((index / Z.of_nat (2 ^ d)) mod 2) 1) as [Hbit|Hbit]; intros Hw.
    + apply (Hstep a b l2); [lia|done|done|done|].
      intros x Hx. destruct Hfull as [->|Hl1]; [unfold at_index in Hx; by rewrite lookup_nil in Hx|].
      by rewrite at_index_right.
    + apply (Hstep b a l1); [lia|done|done|done|].
      intros x Hx. rewrite at_index_left; [done| |done].
      pose proof (Z.mod_pos_bound (index / Z.of_nat (2 ^ d)) 2 ltac:(lia)). lia.
Qed.

(** The walk reaches every leaf that is not finalized. *)
Lemma proof_walk_complete d ls t n i index acc :
  (d ≤ MAX_TREE_DEPTH)%nat → repr d ls t → final d n t → (n ≤ i < length ls)%nat →
  index mod Z.of_nat (2 ^ d) = Z.of_nat i →
  ∃ x p, proof_walk zero_hash t index d acc = Ok (MerkleTree.Leaf x, p).
Proof using Hz0 HzS.
  intros Hd Hr. revert n i acc Hd.
  induction Hr as [d|x|d ls Hl|d l1 l2 a b Hne Ha IHa Hb IHb Hfull Hfb]; intros n i acc Hd Hf Hi Hidx.
  - simpl in Hi. lia.
  - by eexists _, _.
  - assert (n = 2 ^ d)%nat as -> by (inversion Hf as [? ? E| | |]; subst; [discriminate E|done]). lia.
  - pose proof (repr_length _ _ _ Ha). pose proof (repr_length _ _ _ Hb). rewrite length_app in Hi.
    assert (length l2 = 0 ∨ length l1 = 2 ^ d)%nat as Hlf by (destruct Hfull as [->|?]; auto).
    destruct (mod_pow2_S index d) as (Hlow & Hbit & _). rewrite Hidx in Hlow, Hbit. pose proof (pow2_pos d).
    apply final_node in Hf as (ma & mb & Hfa & Hfb' & Hcase).
    cbn [proof_walk]. rewrite index_bit, Hbit. cbn [left_and_right_branches MerkleDefs.node mbind outcome_bind expect].
    destruct (decide (i < 2 ^ d)%nat) as [Hlt|Hge].
    + rewrite Z.div_small by lia. simpl (0 =? 1). apply (IHa ma i); [lia|done|lia|].
      rewrite <-Hlow. apply Z.mod_small. lia.
    + assert (Z.of_nat i / Z.of_nat (2 ^ d) = 1 ∧ Z.of_nat i mod Z.of_nat (2 ^ d) = Z.of_nat (i - 2 ^ d)) as [-> Hm].
      { replace (Z.of_nat i) with (Z.of_nat (i - 2 ^ d) + 1 * Z.of_nat (2 ^ d)) by lia.
        rewrite Z.div_add, Z.mod_add by lia. rewrite Z.div_small, Z.mod_small by lia. done. }
      simpl (1 =? 1). apply (IHb mb (i - 2 ^ d)%nat); [lia|done|lia|]. by rewrite <-Hlow.
Qed.

Lemma generate_proof_run d ls t n i :
  (d ≤ MAX_TREE_DEPTH)%nat → repr d ls t → final d n t → (n ≤ i < length ls)%nat →
  ∃ x branch, generate_proof zero_hash t (Z.of_nat i) d = Ok (x, branch) ∧ ls !! i = Some x ∧
    length branch = d ∧ root_from_branch hash2 x branch (Z.of_nat i) 0 = dense_root d ls.
Proof using Hz0 HzS.
  intros Hd Hr Hf Hi. pose proof (repr_length _ _ _ Hr).
  assert (Z.of_nat i mod Z.of_nat (2 ^ d) = Z.of_nat i) as Hm by (apply Z.mod_small; lia).
  destruct (proof_walk_complete d ls t n i (Z.of_nat i) [] Hd Hr Hf Hi Hm) as (x & p & Hw).
  destruct (proof_walk_sound d ls t (Z.of_nat i) [] _ p Hd Hr Hw) as (q & -> & Hq & Hroot & Hx).
  exists x, (rev q). unfold generate_proof. rewrite Hw. cbn. rewrite Hq, Nat.eqb_refl. cbn.
  split_and!; [done| |by rewrite length_rev|].
  - specialize (Hx x eq_refl). unfold at_index in Hx. by rewrite Hm, Nat2Z.id in Hx.
  - rewrite <-(repr_root d ls t) by done. exact Hroot.
Qed.

(** ** Binding *)

(** Two different inputs with the same hash. *)
Definition collision : Prop := ∃ a b c d, (a, b) ≠ (c, d) ∧ hash2 a b = hash2 c d.

Lemma root_from_branch_inj a a' l l' index i :
  length l = length l' → root_from_branch hash2 a l index i = root_from_branch hash2 a' l' index i →
  (a = a' ∧ l = l') ∨ collision.
Proof using.
  revert a a' l' i. induction l as [|x l IH]; intros a a' [|y l'] i Hlen E; simplify_eq/=; [by left|].
  apply IH in E as [[E ->]|?]; [|by right|done].
  destruct (decide ((if Z.land (Z.shiftr index i) 1 =? 1 then (x, a) else (a, x)) =
                    (if Z.land (Z.shiftr index i) 1 =? 1 then (y, a') else (a', y)))) as [Heq|Hne].
  - left. destruct (_ =? 1); by simplify_eq.
  - right. destruct (_ =? 1); by do 4 eexists.
Qed.
End merkle.
