(* ===== verification/DepositTree.v ===== *)
(** * Theorems on Merkle proofs and the deposit tree *)
From S2P Require Import Prelude MerkleDefs MerkleCorrect.

(** ** A small hash *)
Definition toy_hash2 (a b : Z) : Z := (31 * a + 17 * b + 5) mod 2 ^ 64.
Fixpoint toy_zero (d : nat) : Z := match d with O => 0 | S d' => toy_hash2 (toy_zero d') (toy_zero d') end.

(** What the crate documents of its table: [ZERO_HASHES[d]] is the root of a
    tree of depth [d] with zero leaves. *)
Record zero_table (hash2 : H256 → H256 → H256) (zero_hash : nat → H256) : Prop := {
  zero_leaf : zero_hash 0%nat = 0;
  zero_node : ∀ d, (d < MAX_TREE_DEPTH)%nat → zero_hash (S d) = hash2 (zero_hash d) (zero_hash d);
}.

Lemma toy_table : zero_table toy_hash2 toy_zero.
Proof. by split. Qed.

(** Proofs verify.  In a tree of depth at most 32 that represents the leaves
    [ls] and of which the first [n] are finalized, [generate_proof] returns every
    later leaf with a branch that [verify_merkle_proof] accepts for its index
    against the root. *)
Theorem merkle_proofs_verify hash2 zero_hash d ls t n i :
  zero_table hash2 zero_hash →
  (d ≤ MAX_TREE_DEPTH)%nat → repr hash2 zero_hash d ls t → final d n t → (n ≤ i < length ls)%nat →
  ∃ leaf branch, generate_proof zero_hash t (Z.of_nat i) d = Ok (leaf, branch) ∧ ls !! i = Some leaf ∧
    verify_merkle_proof hash2 leaf branch d (Z.of_nat i) (hash zero_hash t) = Ok true.
Proof.
  intros [Hz0 HzS] Hd Hr Hf Hi.
  destruct (generate_proof_run hash2 zero_hash Hz0 HzS d ls t n i Hd Hr Hf Hi) as (x & br & Hg & Hx & Hl & Hroot).
  exists x, br. split_and!; [done..|]. unfold verify_merkle_proof, merkle_root_from_branch.
  rewrite Hl, Nat.eqb_refl, take_ge, Hroot by lia. cbn.
  by rewrite (repr_root hash2 zero_hash Hz0 HzS d ls t Hr Hd), Z.eqb_refl.
Qed.




(** C39. Insertion.  Pushing a leaf onto a tree that represents [ls] succeeds while
    fewer than [2^depth] leaves are there, the new tree represents [ls] with the
    leaf appended, and its root is that of the dense tree padded with zeros; on a
    full tree it fails with [MerkleTreeFull] and changes nothing. *)
Theorem push_leaf_correct hash2 zero_hash d ls t leaf :
  zero_table hash2 zero_hash →
  (0 < d ≤ MAX_TREE_DEPTH)%nat → repr hash2 zero_hash d ls t → is_finalized t = false →
  if decide (length ls < 2 ^ d)%nat then
    ∃ t', push_leaf hash2 zero_hash t leaf d = (Ok tt, t') ∧ repr hash2 zero_hash d (ls ++ [leaf]) t' ∧
      hash zero_hash t' = dense_root hash2 d (ls ++ [leaf])
  else push_leaf hash2 zero_hash t leaf d = (Err MerkleTreeError.MerkleTreeFull, t).
Proof.
  intros [Hz0 HzS] Hd Hr Hf. pose proof (repr_length _ _ _ _ _ Hr). destruct (decide _) as [Hlt|Hge].
  - destruct (push_repr hash2 zero_hash d ls t leaf Hr ltac:(lia) Hlt) as (t' & Hp & Hr' & _).
    exists t'. split_and!; [done..|]. apply repr_root; (done || lia).
  - eapply push_full; [done|lia|lia|done].
Qed.

Lemma push_leaf_correct_witness :
  ∃ t', push_leaf toy_hash2 toy_zero (create toy_hash2 toy_zero [11; 12; 13] 2) 14 2 = (Ok tt, t') ∧
    hash toy_zero t' = dense_root toy_hash2 2 [11; 12; 13; 14].
Proof.
  pose proof (push_leaf_correct toy_hash2 toy_zero 2 [11; 12; 13] (create toy_hash2 toy_zero [11; 12; 13] 2) 14
    toy_table ltac:(unfold MAX_TREE_DEPTH; lia)
    ltac:(apply create_repr; simpl; lia) eq_refl) as H.
  rewrite decide_True in H by (simpl; lia). destruct H as (t' & Hp & _ & Hh). exists t'. done.
Defined.

(** ** The deposit tree *)
Section deposit_tree.
Context (hash2 : H256 → H256 → H256) (zero_hash : nat → H256).
Context (Hz : zero_table hash2 zero_hash).

(** [d] holds the deposits [ls]. *)
Record holds (ls : list H256) (d : DepositDataTree.t) : Prop := {
  h_depth : d.(DepositDataTree.depth) = DEPOSIT_TREE_DEPTH;
  h_tree : repr hash2 zero_hash DEPOSIT_TREE_DEPTH ls d.(DepositDataTree.tree);
  h_length : d.(DepositDataTree.mix_in_length) = Z.of_nat (length ls);
}.

(** The deposit root of a list of deposits. *)
Definition deposit_root_of (ls : list H256) : H256 :=
  hash2 (dense_root hash2 DEPOSIT_TREE_DEPTH ls) (int_to_bytes32 (Z.of_nat (length ls))).

Lemma holds_root ls d : holds ls d → root hash2 zero_hash d = deposit_root_of ls.
Proof using Hz.
  intros [Hd Ht Hl]. unfold root, deposit_root_of, length_bytes. rewrite Hl.
  by rewrite (repr_root hash2 zero_hash (zero_leaf _ _ Hz) (zero_node _ _ Hz) _ _ _ Ht).
Qed.

Lemma holds_push ls d e : holds ls d → Z.of_nat (length ls) < 2 ^ 32 →
  ∃ d', ddt_push_leaf hash2 zero_hash e d = (Ok tt, d') ∧ holds (ls ++ [e]) d'.
Proof using.
  intros [Hd Ht Hl] Hlen. unfold DEPOSIT_TREE_DEPTH in *.
  destruct (push_repr hash2 zero_hash 32 ls d.(DepositDataTree.tree) e Ht) as (t' & Hp & Hr' & _); [lia| |].
  { apply Nat2Z.inj_lt. rewrite <-pow2_nat. exact Hlen. }
  unfold ddt_push_leaf. rewrite (bind_ok_eq _ _ d tt (DepositDataTree.set_tree t' d)) by (by rewrite Hd, Hp).
  rewrite (bind_ok_eq _ _ _ (DepositDataTree.set_tree t' d) (DepositDataTree.set_tree t' d)) by done.
  rewrite (bind_ok_eq _ _ _ (Z.of_nat (length ls) + 1) (DepositDataTree.set_tree t' d)).
  - eexists. split; [reflexivity|]. split; [done|done|]. simpl. rewrite length_app. simpl. lia.
  - unfold lift. simpl. rewrite Hl. unfold u64_checked_add. rewrite checked_u64_in; [done|].
    unfold is_u64, u64_max. lia.
Qed.

Lemma holds_push_all ls es d : holds ls d → Z.of_nat (length (ls ++ es)) ≤ 2 ^ 32 →
  ∃ d', for_each es (ddt_push_leaf hash2 zero_hash) d = (Ok tt, d') ∧ holds (ls ++ es) d'.
Proof using.
  revert ls d. induction es as [|e es IH]; intros ls d Hh Hlen; [rewrite app_nil_r; simpl; eauto|].
  rewrite length_app in Hlen. simpl in Hlen. destruct (holds_push ls d e Hh ltac:(lia)) as (d1 & H1 & Hh1).
  destruct (IH (ls ++ [e]) d1 Hh1) as (d2 & H2 & Hh2); [rewrite !length_app; simpl; lia|].
  exists d2. rewrite <-app_assoc in Hh2. split; [|done]. simpl. by rewrite (bind_ok_eq _ _ _ _ _ H1).
Qed.

(** Finalizing the first [n] deposits. *)
Lemma finalize_run ls d m block n : holds ls d → final DEPOSIT_TREE_DEPTH m d.(DepositDataTree.tree) →
  block.(FinalizedExecutionBlock.deposit_count) = Z.of_nat n → (m ≤ n)%nat → (0 < n ≤ length ls)%nat →
  Z.of_nat n < 2 ^ 32 →
  ∃ d', finalize block d = (Ok tt, d') ∧ holds ls d' ∧ final DEPOSIT_TREE_DEPTH n d'.(DepositDataTree.tree) ∧
    d'.(DepositDataTree.finalized_execution_block) = Some block.
Proof using Hz.
  intros [Hd Ht Hl] Hf Hb Hmn Hn Hsmall. unfold DEPOSIT_TREE_DEPTH in *.
  assert (Z.min (Z.of_nat n) (pow2 32) = Z.of_nat n) as Hmin by (change (pow2 32) with (2 ^ 32); lia).
  destruct (finalize_repr hash2 zero_hash (zero_leaf _ _ Hz) (zero_node _ _ Hz) 32 ls d.(DepositDataTree.tree) (Z.of_nat n)) as (t' & Hr & Ht' & _);
    [unfold MAX_TREE_DEPTH; lia|done|lia|rewrite Hmin; lia|].
  pose proof (finalize_final hash2 zero_hash (zero_leaf _ _ Hz) (zero_node _ _ Hz) 32 ls
    d.(DepositDataTree.tree) m (Z.of_nat n) t' Ht Hf ltac:(lia) ltac:(lia) Hr) as Hf'.
  rewrite Hmin, Nat2Z.id in Hf'. unfold finalize.
  rewrite (bind_ok_eq _ _ d tt (DepositDataTree.set_tree t' d)) by (by rewrite Hd, Hb, Hr).
  eexists. split; [reflexivity|]. split_and!; [by split|done|done].
Qed.

(** The snapshot of a tree whose first [n] deposits are finalized. *)
Lemma snapshot_valid ls t n s : repr hash2 zero_hash DEPOSIT_TREE_DEPTH ls t → final DEPOSIT_TREE_DEPTH n t →
  Z.of_nat n < 2 ^ 32 → (n ≤ length ls)%nat →
  s.(DepositTreeSnapshot.finalized) = get_finalized_hashes t →
  s.(DepositTreeSnapshot.deposit_count) = Z.of_nat n →
  calculate_root hash2 zero_hash s = Some (deposit_root_of (take n ls)).
Proof using Hz.
  intros Hr Hf Hn Hle Hsf Hsc. unfold calculate_root. rewrite Hsf, Hsc.
  unfold DEPOSIT_TREE_DEPTH in *.
  pose proof (calculate_run hash2 zero_hash (zero_leaf _ _ Hz) (zero_node _ _ Hz) 32 ls t n ltac:(unfold MAX_TREE_DEPTH; lia) Hr Hf) as Hrun.
  specialize (Hrun ltac:(apply Nat2Z.inj_lt; rewrite <-pow2_nat; exact Hn) 0%nat [] [] (Z.of_nat n)).
  rewrite <-pow2_nat in Hrun. change (pow2 32) with (2 ^ 32) in Hrun.
  specialize (Hrun ltac:(apply Z.mod_small; lia)). cbv zeta in Hrun.
  rewrite app_nil_r in Hrun. rewrite !app_nil_l in Hrun. rewrite Nat.add_0_r in Hrun. rewrite Hrun.
  cbn [calculate_root_loop mbind option_bind]. unfold deposit_root_of. rewrite length_take, Nat.min_l by done. done.
Qed.
End deposit_tree.

(** Deposit proofs.  In a deposit tree that holds fewer than 2^32 deposits, the
    proof of every deposit that is not finalized verifies at depth 33 against the
    deposit root, which mixes in the number of deposits. *)
Theorem deposit_proofs_verify hash2 zero_hash ls d n i :
  zero_table hash2 zero_hash → holds hash2 zero_hash ls d → Z.of_nat (length ls) ≤ 2 ^ 32 →
  final DEPOSIT_TREE_DEPTH n d.(DepositDataTree.tree) → (n ≤ i < length ls)%nat →
  ∃ leaf branch, ddt_generate_proof zero_hash d (Z.of_nat i) = Ok (leaf, branch) ∧ ls !! i = Some leaf ∧
    verify_merkle_proof hash2 leaf branch (S DEPOSIT_TREE_DEPTH) (Z.of_nat i) (root hash2 zero_hash d) = Ok true.
Proof.
  intros Hz Hh Hlen Hf Hi. pose proof (holds_root _ _ Hz _ _ Hh) as Hroot. destruct Hh as [Hd Ht Hl].
  destruct (generate_proof_run hash2 zero_hash (zero_leaf _ _ Hz) (zero_node _ _ Hz) DEPOSIT_TREE_DEPTH ls _ n i
    ltac:(unfold DEPOSIT_TREE_DEPTH, MAX_TREE_DEPTH; lia) Ht Hf Hi) as (x & br & Hg & Hx & Hbl & Hr).
  exists x, (br ++ [length_bytes d]). unfold ddt_generate_proof. rewrite Hd, Hg. split_and!; [done..|].
  unfold verify_merkle_proof, merkle_root_from_branch. rewrite length_app, Hbl, Nat.add_1_r, Nat.eqb_refl.
  rewrite take_ge by (rewrite length_app, Hbl; cbn [length]; lia).
  cbn [mbind outcome_bind]. rewrite root_from_branch_snoc, Hr, Hbl, Hroot. cbv zeta.
  rewrite Z.add_0_l, index_bit, <-pow2_nat. change (pow2 DEPOSIT_TREE_DEPTH) with (2 ^ 32).
  rewrite Z.div_small by lia. simpl (0 mod 2 =? 1). unfold deposit_root_of, length_bytes.
  by rewrite Hl, Z.eqb_refl.
Qed.

Definition ex_deposits : DepositDataTree.t := ddt_create toy_hash2 toy_zero [21; 22; 23] 3 32.

Lemma ex_deposits_hold : holds toy_hash2 toy_zero [21; 22; 23] ex_deposits.
Proof.
  split; [done| |done]. apply create_repr. apply Nat2Z.inj_le. rewrite <-pow2_nat. by vm_compute.
Qed.



Definition ex_finalized_block : FinalizedExecutionBlock.t :=
  FinalizedExecutionBlock.mk (deposit_root_of toy_hash2 [21; 22]) 2 77 88.


(** C40. Finalizing no deposits finalizes one: [finalize_deposits(0, level)] on a
    tree with leaves turns its first leaf into a finalized node, and the snapshot
    taken from it cannot be restored. *)
Theorem finalize_zero_deposits :
  let '(r, t) := finalize_deposits (create toy_hash2 toy_zero [21; 22; 23] 4) 0 4 in
  r = Ok tt ∧ get_finalized_hashes t = [21] ∧
  from_finalized_snapshot toy_hash2 toy_zero (get_finalized_hashes t) 0 4 =
    Err (MerkleTreeError.InvalidSnapshot_ InvalidSnapshot.EndOfTree).
Proof. vm_compute. done. Qed.
