(* ===== verification/SlashingDefs.v ===== *)
(** * The slashing-protection database

    [validator_client/slashing_protection/src]: the SQLite database that a
    validator client consults before it signs a block or an attestation, with
    registration, pruning and the EIP-3076 interchange.

    Correspondence.  A table is the list of its rows in insertion order and an
    SQL statement is the function its text denotes on those lists; the
    constraints declared by [CREATE TABLE] are tested on insertion.  SQLite
    itself can fail at any statement, at [conn_pool.get()], at [BEGIN] and at
    [COMMIT]: the state carries the list of these failures still to come
    ([faults]), over which every theorem quantifies.  A transaction that does not
    commit leaves the tables as it found them.  The text of an SQL error message
    is abstracted to its cause.  A public key is a number; the column stores its
    hexadecimal form, which is a bijection. *)
From S2P Require Import Prelude SlotEpoch ProtoArrayDefs.

Abbreviation PublicKeyBytes := Z (only parsing).

(** [SigningRoot]: a hash whose null value equals nothing, itself included. *)
Module SigningRoot.
Definition is_null (r : Hash256) : bool := r =? hash_zero.
Definition eq (a b : Hash256) : bool := negb (is_null a) && (a =? b).
Definition to_hash256 (r : Hash256) : option Hash256 := if is_null r then None else Some r.
End SigningRoot.

Module SignedBlock.
Record t : Type := mk { slot : Slot; signing_root : Hash256 }.
End SignedBlock.

Module SignedAttestation.
Record t : Type := mk { source_epoch : Epoch; target_epoch : Epoch; signing_root : Hash256 }.
End SignedAttestation.

Module InvalidBlock.
Inductive t : Type :=
  | DoubleBlockProposal (existing : SignedBlock.t)
  | SlotViolatesLowerBound (block_slot bound_slot : Slot).
End InvalidBlock.

Module InvalidAttestation.
Inductive t : Type :=
  | DoubleVote (existing : SignedAttestation.t)
  | NewSurroundsPrev (prev : SignedAttestation.t)
  | PrevSurroundsNew (prev : SignedAttestation.t)
  | SourceExceedsTarget
  | SourceLessThanLowerBound (source_epoch bound_epoch : Epoch)
  | TargetLessThanOrEqLowerBound (target_epoch bound_epoch : Epoch).
End InvalidAttestation.

(** What an SQL error message reports. *)
Module SqlFailure.
Inductive t : Type :=
  | Sqlite
  | ToSqlConversion
  | FromSqlConversion
  | UniqueConstraint
  | ForeignKeyConstraint.
End SqlFailure.

Module NotSafe.
Inductive t : Type :=
  | UnregisteredValidator (pk : PublicKeyBytes)
  | DisabledValidator (pk : PublicKeyBytes)
  | InvalidBlock (e : InvalidBlock.t)
  | InvalidAttestation (e : InvalidAttestation.t)
  | SQLError (e : SqlFailure.t)
  | SQLPoolError
  | ConsistencyError.
End NotSafe.

Module Safe.
Inductive t : Type := SameData | Valid.
#[global] Instance eq_dec : EqDecision t.
Proof. solve_decision. Defined.
End Safe.

(** ** Tables *)
Module ValidatorRow.
Record t : Type := mk { id : Z; public_key : PublicKeyBytes; enabled : bool }.
End ValidatorRow.

Module BlockRow.
Record t : Type := mk { validator_id : Z; slot : Slot; signing_root : Hash256 }.
#[global] Instance eq_dec : EqDecision t.
Proof. solve_decision. Defined.
End BlockRow.

Module AttestationRow.
Record t : Type := mk {
  validator_id : Z; source_epoch : Epoch; target_epoch : Epoch; signing_root : Hash256;
}.
#[global] Instance eq_dec : EqDecision t.
Proof. solve_decision. Defined.
End AttestationRow.

Module Db.
Record t : Type := mk {
  validators : list ValidatorRow.t;
  signed_blocks : list BlockRow.t;
  signed_attestations : list AttestationRow.t;
}.
Definition set_validators (l : list ValidatorRow.t) (d : t) : t :=
  mk l d.(signed_blocks) d.(signed_attestations).
Definition set_blocks (l : list BlockRow.t) (d : t) : t :=
  mk d.(validators) l d.(signed_attestations).
Definition set_attestations (l : list AttestationRow.t) (d : t) : t :=
  mk d.(validators) d.(signed_blocks) l.

(** [SlashingDatabase::create]: three empty tables. *)
Definition create : t := mk [] [] [].
End Db.

(** A database and the failures SQLite has in store. *)
Module Sql.
Record t : Type := mk { db : Db.t; faults : list bool }.
Definition set_db (d : Db.t) (s : t) : t := mk d s.(faults).
Definition upd (f : Db.t → Db.t) (s : t) : t := mk (f s.(db)) s.(faults).
End Sql.

Abbreviation SqlM := (M Sql.t NotSafe.t).

(** One call into SQLite, which may fail with [e]. *)
Definition sqlite {E} (e : E) : M Sql.t E unit := fun s =>
  match s.(Sql.faults) with
  | true :: fs => (Err e, Sql.mk s.(Sql.db) fs)
  | false :: fs => (Ok tt, Sql.mk s.(Sql.db) fs)
  | [] => (Ok tt, s)
  end.

(** [From<rusqlite::Error>] and [From<r2d2::Error>] of an error type. *)
Class FromSqlite (E : Type) := { sql_error : SqlFailure.t → E; pool_error : E }.
#[export] Instance NotSafe_from : FromSqlite NotSafe.t :=
  {| sql_error := NotSafe.SQLError; pool_error := NotSafe.SQLPoolError |}.

Section queries.
Context {E : Type} `{FromSqlite E}.

Definition statement : M Sql.t E unit := sqlite (sql_error SqlFailure.Sqlite).

(** [ToSql] and [FromSql] of [Slot] and [Epoch]. *)
Definition to_sql (x : Z) : outcome E Z :=
  if x <=? i64_max then Ok x else Err (sql_error SqlFailure.ToSqlConversion).
Definition from_sql (x : Z) : outcome E Z :=
  if 0 <=? x then Ok x else Err (sql_error SqlFailure.FromSqlConversion).

(** [row.get(i)] of a nullable column. *)
Definition from_sql_opt (x : option Z) : outcome E (option Z) :=
  match x with Some v => v' ← from_sql v; Ok (Some v') | None => Ok None end.

Definition block_from_row (r : BlockRow.t) : outcome E SignedBlock.t :=
  slot ← from_sql r.(BlockRow.slot);
  Ok (SignedBlock.mk slot r.(BlockRow.signing_root)).

Definition attestation_from_row (r : AttestationRow.t) : outcome E SignedAttestation.t :=
  source ← from_sql r.(AttestationRow.source_epoch);
  target ← from_sql r.(AttestationRow.target_epoch);
  Ok (SignedAttestation.mk source target r.(AttestationRow.signing_root)).

(** [query_row(..).optional()]. *)
Definition optional {A B} (f : A → outcome E B) (o : option A) : outcome E (option B) :=
  match o with Some a => b ← f a; Ok (Some b) | None => Ok None end.

(** The rows of one validator. *)
Definition blocks_of (id : Z) (d : Db.t) : list BlockRow.t :=
  filter (fun r => r.(BlockRow.validator_id) = id) d.(Db.signed_blocks).
Definition attestations_of (id : Z) (d : Db.t) : list AttestationRow.t :=
  filter (fun r => r.(AttestationRow.validator_id) = id) d.(Db.signed_attestations).

Definition select_blocks (id : Z) : M Sql.t E (list BlockRow.t) :=
  statement ;; s ← get; mret (blocks_of id s.(Sql.db)).
Definition select_attestations (id : Z) : M Sql.t E (list AttestationRow.t) :=
  statement ;; s ← get; mret (attestations_of id s.(Sql.db)).

(** A [UNIQUE] column and the value to insert. *)
Definition check_unique (value : Z) (column : list Z) : M Sql.t E unit :=
  if decide (value ∈ column) then throw (sql_error SqlFailure.UniqueConstraint) else mret tt.

(** The foreign key of a row to insert. *)
Definition check_foreign_key (id : Z) (d : Db.t) : M Sql.t E unit :=
  if decide (id ∈ map ValidatorRow.id d.(Db.validators)) then mret tt
  else throw (sql_error SqlFailure.ForeignKeyConstraint).

(** *** Transactions *)

(** Run [m] and commit; on any failure the tables are those found.  [no_conn]
    and [no_txn] are the errors of the connection pool and of the transaction. *)
Definition transaction {A} (no_conn no_txn : E) (m : M Sql.t E A) : M Sql.t E A := fun s =>
  match (sqlite no_conn ;; sqlite no_txn ;; a ← m; sqlite no_txn ;; mret a) s with
  | (Ok a, s') => (Ok a, s')
  | (r, s') => (r, Sql.set_db s.(Sql.db) s')
  end.

(** A transaction that is dropped without commit. *)
Definition read_transaction {A} (m : M Sql.t E A) : M Sql.t E A := fun s =>
  let '(r, s') := (sqlite pool_error ;; statement ;; m) s in (r, Sql.set_db s.(Sql.db) s').
End queries.

(** [SELECT MIN(c)] and [SELECT MAX(c)]: no value on no rows. *)
Definition min_of (l : list Z) : option Z :=
  match l with [] => None | x :: l' => Some (foldr Z.min x l') end.
Definition max_of (l : list Z) : option Z :=
  match l with [] => None | x :: l' => Some (foldr Z.max x l') end.

(** [ORDER BY target_epoch DESC LIMIT 1]. *)
Definition top_target (l : list AttestationRow.t) : option AttestationRow.t :=
  foldr (fun a best => match best with
    | Some b => if a.(AttestationRow.target_epoch) <? b.(AttestationRow.target_epoch) then best else Some a
    | None => Some a end) None l.

(** [ORDER BY k1 ASC, k2 ASC]. *)
Fixpoint insert_by {A} (key : A → Z * Z) (x : A) (l : list A) : list A :=
  match l with
  | [] => [x]
  | y :: l' =>
      if (fst (key x) <? fst (key y)) || ((fst (key x) =? fst (key y)) && (snd (key x) <=? snd (key y)))
      then x :: y :: l' else y :: insert_by key x l'
  end.
Definition order_by {A} (key : A → Z * Z) (l : list A) : list A := foldr (insert_by key) [] l.

(** [with_transaction], and the transactions opened in place, with [NotSafe]. *)
Definition with_transaction {A} (m : SqlM A) : SqlM A :=
  transaction NotSafe.SQLPoolError (NotSafe.SQLError SqlFailure.Sqlite) m.

(** ** Validators *)
Definition get_validator_id_with_status (pk : PublicKeyBytes) : SqlM (option (Z * bool)) :=
  statement ;;
  s ← get;
  mret ((fun r => (r.(ValidatorRow.id), r.(ValidatorRow.enabled)))
        <$> head (filter (fun r => r.(ValidatorRow.public_key) = pk) s.(Sql.db).(Db.validators))).

Definition get_validator_id_in_txn (pk : PublicKeyBytes) : SqlM Z :=
  r ← get_validator_id_with_status pk;
  '(validator_id, enabled) ← lift (ok_or r (NotSafe.UnregisteredValidator pk));
  if enabled : bool then mret validator_id else throw (NotSafe.DisabledValidator pk).

Definition get_validator_id_ignoring_status (pk : PublicKeyBytes) : SqlM Z :=
  r ← get_validator_id_with_status pk;
  '(validator_id, _) ← lift (ok_or r (NotSafe.UnregisteredValidator pk));
  mret validator_id.

Definition get_validator_id (pk : PublicKeyBytes) : SqlM Z :=
  read_transaction (get_validator_id_in_txn pk).

Definition update_validator_status (validator_id : Z) (status : bool) : SqlM unit :=
  statement ;;
  modify (Sql.upd (fun d => Db.set_validators
    (map (fun r => if r.(ValidatorRow.id) =? validator_id
                   then ValidatorRow.mk r.(ValidatorRow.id) r.(ValidatorRow.public_key) status else r)
         d.(Db.validators)) d)).

(** [INSERT INTO validators]: the row id is one more than the largest in use. *)
Definition next_id (l : list ValidatorRow.t) : Z :=
  match max_of (map ValidatorRow.id l) with Some m => m + 1 | None => 1 end.

Definition insert_validator (pk : PublicKeyBytes) : SqlM unit :=
  statement ;;
  s ← get;
  let l := s.(Sql.db).(Db.validators) in
  check_unique pk (map ValidatorRow.public_key l) ;;
  modify (Sql.upd (Db.set_validators (l ++ [ValidatorRow.mk (next_id l) pk true]))).

Definition register_validators_in_txn (public_keys : list PublicKeyBytes) : SqlM unit :=
  statement ;;
  for_each public_keys (fun pk =>
    r ← get_validator_id_with_status pk;
    match r with
    | None => insert_validator pk
    | Some (validator_id, false) => update_validator_status validator_id true
    | Some (_, true) => mret tt
    end).

Definition register_validators (public_keys : list PublicKeyBytes) : SqlM unit :=
  with_transaction (register_validators_in_txn public_keys).

Definition register_validator (pk : PublicKeyBytes) : SqlM unit := register_validators [pk].

Definition check_validator_registrations (public_keys : list PublicKeyBytes) : SqlM unit :=
  read_transaction
    (for_each public_keys (fun pk => get_validator_id_in_txn pk ;; mret tt)).

(** ** Signing checks *)
Definition check_block_proposal (pk : PublicKeyBytes) (slot : Slot) (signing_root : Hash256) : SqlM Safe.t :=
  validator_id ← get_validator_id_in_txn pk;
  rows ← select_blocks validator_id;
  slot_sql ← lift (to_sql slot);
  existing_block ← lift (optional block_from_row (head (filter (fun r => r.(BlockRow.slot) = slot_sql) rows)));
  match existing_block with
  | Some existing =>
      if SigningRoot.eq existing.(SignedBlock.signing_root) signing_root then mret Safe.SameData
      else throw (NotSafe.InvalidBlock (InvalidBlock.DoubleBlockProposal existing))
  | None =>
      rows ← select_blocks validator_id;
      min_slot ← lift (from_sql_opt (min_of (map BlockRow.slot rows)));
      match min_slot with
      | Some min_slot =>
          if slot <=? min_slot
          then throw (NotSafe.InvalidBlock (InvalidBlock.SlotViolatesLowerBound slot min_slot))
          else mret Safe.Valid
      | None => mret Safe.Valid
      end
  end.

(** [MIN] of a column against the new attestation. *)
Definition check_lower_bound (id : Z) (column : AttestationRow.t → Z) (bad : Z → bool)
    (error : Z → InvalidAttestation.t) : SqlM unit :=
  rows ← select_attestations id;
  bound ← lift (from_sql_opt (min_of (map column rows)));
  match bound with
  | Some b => if bad b then throw (NotSafe.InvalidAttestation (error b)) else mret tt
  | None => mret tt
  end.

Definition check_attestation (pk : PublicKeyBytes) (source target : Epoch) (signing_root : Hash256) : SqlM Safe.t :=
  if target <? source then throw (NotSafe.InvalidAttestation InvalidAttestation.SourceExceedsTarget) else
  validator_id ← get_validator_id_in_txn pk;
  rows ← select_attestations validator_id;
  target_sql ← lift (to_sql target);
  same_target ← lift (optional attestation_from_row
    (head (filter (fun r => r.(AttestationRow.target_epoch) = target_sql) rows)));
  match same_target with
  | Some existing =>
      if SigningRoot.eq existing.(SignedAttestation.signing_root) signing_root then mret Safe.SameData
      else throw (NotSafe.InvalidAttestation (InvalidAttestation.DoubleVote existing))
  | None =>
      rows ← select_attestations validator_id;
      source_sql ← lift (to_sql source);
      surrounding ← lift (optional attestation_from_row (top_target
        (filter (fun r => r.(AttestationRow.source_epoch) < source_sql ∧
                          target_sql < r.(AttestationRow.target_epoch)) rows)));
      match surrounding with
      | Some prev => throw (NotSafe.InvalidAttestation (InvalidAttestation.PrevSurroundsNew prev))
      | None =>
          rows ← select_attestations validator_id;
          surrounded ← lift (optional attestation_from_row (top_target
            (filter (fun r => source_sql < r.(AttestationRow.source_epoch) ∧
                              r.(AttestationRow.target_epoch) < target_sql) rows)));
          match surrounded with
          | Some prev => throw (NotSafe.InvalidAttestation (InvalidAttestation.NewSurroundsPrev prev))
          | None =>
              check_lower_bound validator_id AttestationRow.source_epoch (fun b => source <? b)
                (InvalidAttestation.SourceLessThanLowerBound source) ;;
              check_lower_bound validator_id AttestationRow.target_epoch (fun b => target <=? b)
                (InvalidAttestation.TargetLessThanOrEqLowerBound target) ;;
              mret Safe.Valid
          end
      end
  end.

Definition insert_block_proposal (pk : PublicKeyBytes) (slot : Slot) (signing_root : Hash256) : SqlM unit :=
  validator_id ← get_validator_id_in_txn pk;
  statement ;;
  slot_sql ← lift (to_sql slot);
  s ← get;
  check_unique slot_sql (map BlockRow.slot (blocks_of validator_id s.(Sql.db))) ;;
  check_foreign_key validator_id s.(Sql.db) ;;
  modify (Sql.upd (fun d => Db.set_blocks
    (d.(Db.signed_blocks) ++ [BlockRow.mk validator_id slot_sql signing_root]) d)).

Definition insert_attestation (pk : PublicKeyBytes) (source target : Epoch) (signing_root : Hash256) : SqlM unit :=
  validator_id ← get_validator_id_in_txn pk;
  statement ;;
  source_sql ← lift (to_sql source);
  target_sql ← lift (to_sql target);
  s ← get;
  check_unique target_sql (map AttestationRow.target_epoch (attestations_of validator_id s.(Sql.db))) ;;
  check_foreign_key validator_id s.(Sql.db) ;;
  modify (Sql.upd (fun d => Db.set_attestations
    (d.(Db.signed_attestations) ++ [AttestationRow.mk validator_id source_sql target_sql signing_root]) d)).

Definition check_and_insert_block_signing_root_txn (pk : PublicKeyBytes) (slot : Slot) (signing_root : Hash256)
    : SqlM Safe.t :=
  safe ← check_block_proposal pk slot signing_root;
  (if decide (safe = Safe.SameData) then mret tt else insert_block_proposal pk slot signing_root) ;;
  mret safe.

Definition check_and_insert_block_signing_root (pk : PublicKeyBytes) (slot : Slot) (signing_root : Hash256)
    : SqlM Safe.t :=
  with_transaction (check_and_insert_block_signing_root_txn pk slot signing_root).

Definition check_and_insert_attestation_signing_root_txn (pk : PublicKeyBytes) (source target : Epoch)
    (signing_root : Hash256) : SqlM Safe.t :=
  safe ← check_attestation pk source target signing_root;
  (if decide (safe = Safe.SameData) then mret tt else insert_attestation pk source target signing_root) ;;
  mret safe.

Definition check_and_insert_attestation_signing_root (pk : PublicKeyBytes) (source target : Epoch)
    (signing_root : Hash256) : SqlM Safe.t :=
  with_transaction (check_and_insert_attestation_signing_root_txn pk source target signing_root).

(** ** Pruning *)

(** [c < (SELECT MAX(c) ..)]: not true when there is no maximum. *)
Definition below (c : Z) (m : option Z) : bool := match m with Some m => c <? m | None => false end.

Definition prune_signed_blocks (pk : PublicKeyBytes) (new_min_slot : Slot) : SqlM unit :=
  validator_id ← get_validator_id_in_txn pk;
  statement ;;
  new_min ← lift (to_sql new_min_slot);
  modify (Sql.upd (fun d => Db.set_blocks
    (filter (fun r => ¬ (r.(BlockRow.validator_id) = validator_id ∧ r.(BlockRow.slot) < new_min ∧
       below r.(BlockRow.slot) (max_of (map BlockRow.slot (blocks_of validator_id d))) = true)) d.(Db.signed_blocks)) d)).

Definition prune_all_signed_blocks (public_keys : list PublicKeyBytes) (new_min_slot : Slot) : SqlM unit :=
  with_transaction (for_each public_keys (fun pk => prune_signed_blocks pk new_min_slot)).

Definition prune_signed_attestations (pk : PublicKeyBytes) (new_min_target : Epoch) : SqlM unit :=
  validator_id ← get_validator_id_in_txn pk;
  statement ;;
  new_min ← lift (to_sql new_min_target);
  modify (Sql.upd (fun d => Db.set_attestations
    (filter (fun r => ¬ (r.(AttestationRow.validator_id) = validator_id ∧
                         r.(AttestationRow.target_epoch) < new_min ∧
       below r.(AttestationRow.target_epoch)
         (max_of (map AttestationRow.target_epoch (attestations_of validator_id d))) = true)) d.(Db.signed_attestations)) d)).

Definition prune_all_signed_attestations (public_keys : list PublicKeyBytes) (new_min_target : Epoch)
    : SqlM unit :=
  with_transaction (for_each public_keys (fun pk => prune_signed_attestations pk new_min_target)).

Definition clear_signed_blocks (pk : PublicKeyBytes) : SqlM unit :=
  validator_id ← get_validator_id_in_txn pk;
  statement ;;
  modify (Sql.upd (fun d => Db.set_blocks
    (filter (fun r => r.(BlockRow.validator_id) ≠ validator_id) d.(Db.signed_blocks)) d)).

Definition clear_signed_attestations (pk : PublicKeyBytes) : SqlM unit :=
  validator_id ← get_validator_id_in_txn pk;
  statement ;;
  modify (Sql.upd (fun d => Db.set_attestations
    (filter (fun r => r.(AttestationRow.validator_id) ≠ validator_id) d.(Db.signed_attestations)) d)).

(** ** The interchange format ([common/eip_3076/src/lib.rs]) *)
Module InterchangeMetadata.
Record t : Type := mk { interchange_format_version : Z; genesis_validators_root : Hash256 }.
End InterchangeMetadata.

Module InterchangeBlock.
Record t : Type := mk { slot : Slot; signing_root : option Hash256 }.
End InterchangeBlock.

Module InterchangeAttestation.
Record t : Type := mk { source_epoch : Epoch; target_epoch : Epoch; signing_root : option Hash256 }.
End InterchangeAttestation.

Module InterchangeData.
Record t : Type := mk {
  pubkey : PublicKeyBytes;
  signed_blocks : list InterchangeBlock.t;
  signed_attestations : list InterchangeAttestation.t;
}.
End InterchangeData.

Module Interchange.
Record t : Type := mk { metadata : InterchangeMetadata.t; data : list InterchangeData.t }.
End Interchange.

Definition SUPPORTED_INTERCHANGE_FORMAT_VERSION : Z := 5.

Module ValidatorSummary.
Record t : Type := mk {
  min_block_slot : option Slot;
  max_block_slot : option Slot;
  min_attestation_source : option Epoch;
  min_attestation_target : option Epoch;
  max_attestation_source : option Epoch;
  max_attestation_target : option Epoch;
}.
End ValidatorSummary.

Definition validator_summary (pk : PublicKeyBytes) : SqlM ValidatorSummary.t :=
  validator_id ← get_validator_id_in_txn pk;
  blocks ← select_blocks validator_id;
  min_block_slot ← lift (from_sql_opt (min_of (map BlockRow.slot blocks)));
  max_block_slot ← lift (from_sql_opt (max_of (map BlockRow.slot blocks)));
  atts ← select_attestations validator_id;
  min_source ← lift (from_sql_opt (min_of (map AttestationRow.source_epoch atts)));
  min_target ← lift (from_sql_opt (min_of (map AttestationRow.target_epoch atts)));
  max_source ← lift (from_sql_opt (max_of (map AttestationRow.source_epoch atts)));
  max_target ← lift (from_sql_opt (max_of (map AttestationRow.target_epoch atts)));
  mret (ValidatorSummary.mk min_block_slot max_block_slot min_source min_target max_source max_target).

Definition max_or (opt_x : option Z) (y : Z) : Z := match opt_x with Some x => Z.max x y | None => y end.

Definition monotonic (new prev : option Z) : bool :=
  match new, prev with
  | Some n, Some p => p <=? n
  | Some _, None => true
  | None, _ => false
  end.

Definition check_block_consistency (self prev : ValidatorSummary.t) (imported_blocks : bool) : bool :=
  if imported_blocks then
    monotonic self.(ValidatorSummary.max_block_slot) prev.(ValidatorSummary.max_block_slot) &&
    bool_decide (self.(ValidatorSummary.min_block_slot) = self.(ValidatorSummary.max_block_slot))
  else
    bool_decide (prev.(ValidatorSummary.min_block_slot) = self.(ValidatorSummary.min_block_slot)) &&
    bool_decide (prev.(ValidatorSummary.max_block_slot) = self.(ValidatorSummary.max_block_slot)).

Definition check_attestation_consistency (self prev : ValidatorSummary.t) (imported_attestations : bool) : bool :=
  if imported_attestations then
    monotonic self.(ValidatorSummary.max_attestation_source) prev.(ValidatorSummary.max_attestation_source) &&
    monotonic self.(ValidatorSummary.max_attestation_target) prev.(ValidatorSummary.max_attestation_target) &&
    bool_decide (self.(ValidatorSummary.min_attestation_source) = self.(ValidatorSummary.max_attestation_source)) &&
    bool_decide (self.(ValidatorSummary.min_attestation_target) = self.(ValidatorSummary.max_attestation_target))
  else
    bool_decide (self.(ValidatorSummary.min_attestation_source) = prev.(ValidatorSummary.min_attestation_source)) &&
    bool_decide (self.(ValidatorSummary.max_attestation_source) = prev.(ValidatorSummary.max_attestation_source)) &&
    bool_decide (self.(ValidatorSummary.min_attestation_target) = prev.(ValidatorSummary.min_attestation_target)) &&
    bool_decide (self.(ValidatorSummary.max_attestation_target) = prev.(ValidatorSummary.max_attestation_target)).

Definition is_empty {A} (l : list A) : bool := match l with [] => true | _ => false end.

(** Only the key of the element [max_by_key] finds is used. *)
Definition import_interchange_record (record : InterchangeData.t) : SqlM ValidatorSummary.t :=
  let pubkey := record.(InterchangeData.pubkey) in
  let blocks := record.(InterchangeData.signed_blocks) in
  let atts := record.(InterchangeData.signed_attestations) in
  register_validators_in_txn [pubkey] ;;
  prev_summary ← validator_summary pubkey;
  match max_of (map InterchangeBlock.slot blocks) with
  | Some max_slot =>
      clear_signed_blocks pubkey ;;
      insert_block_proposal pubkey (max_or prev_summary.(ValidatorSummary.max_block_slot) max_slot) hash_zero
  | None => mret tt
  end ;;
  match max_of (map InterchangeAttestation.source_epoch atts),
        max_of (map InterchangeAttestation.target_epoch atts) with
  | Some max_source, Some max_target =>
      clear_signed_attestations pubkey ;;
      insert_attestation pubkey (max_or prev_summary.(ValidatorSummary.max_attestation_source) max_source)
        (max_or prev_summary.(ValidatorSummary.max_attestation_target) max_target) hash_zero
  | _, _ => mret tt
  end ;;
  summary ← validator_summary pubkey;
  if check_block_consistency summary prev_summary (negb (is_empty blocks)) &&
     check_attestation_consistency summary prev_summary (negb (is_empty atts))
  then mret summary else throw NotSafe.ConsistencyError.

Module InterchangeImportOutcome.
Inductive t : Type :=
  | Success (pubkey : PublicKeyBytes) (summary : ValidatorSummary.t)
  | Failure (pubkey : PublicKeyBytes) (error : NotSafe.t).
Definition failed (o : t) : bool := match o with Failure _ _ => true | _ => false end.
End InterchangeImportOutcome.

Module InterchangeError.
Inductive t : Type :=
  | UnsupportedVersion (v : Z)
  | GenesisValidatorsMismatch (interchange_file client : Hash256)
  | SQLError (e : SqlFailure.t)
  | SQLPoolError
  | NotSafe (e : NotSafe.t)
  | AtomicBatchAborted (outcomes : list InterchangeImportOutcome.t).
End InterchangeError.

#[export] Instance InterchangeError_from : FromSqlite InterchangeError.t :=
  {| sql_error := InterchangeError.SQLError; pool_error := InterchangeError.SQLPoolError |}.

(** The loop over the records: an error of one record is noted and the loop
    goes on. *)
Fixpoint import_records (records : list InterchangeData.t) (outcomes : list InterchangeImportOutcome.t)
    (commit : bool) : M Sql.t InterchangeError.t (list InterchangeImportOutcome.t * bool) :=
  match records with
  | [] => mret (outcomes, commit)
  | record :: records' => fun s =>
      let pubkey := record.(InterchangeData.pubkey) in
      match import_interchange_record record s with
      | (Ok summary, s') =>
          import_records records' (outcomes ++ [InterchangeImportOutcome.Success pubkey summary]) commit s'
      | (Err error, s') =>
          import_records records' (outcomes ++ [InterchangeImportOutcome.Failure pubkey error]) false s'
      | (Panic, s') => (Panic, s')
      | (Diverge, s') => (Diverge, s')
      end
  end.

Definition import_interchange_info (interchange : Interchange.t) (genesis_validators_root : Hash256)
    : M Sql.t InterchangeError.t (list InterchangeImportOutcome.t) :=
  let metadata := interchange.(Interchange.metadata) in
  let version := metadata.(InterchangeMetadata.interchange_format_version) in
  if negb (version =? SUPPORTED_INTERCHANGE_FORMAT_VERSION) then throw (InterchangeError.UnsupportedVersion version)
  else if negb (genesis_validators_root =? metadata.(InterchangeMetadata.genesis_validators_root))
  then throw (InterchangeError.GenesisValidatorsMismatch
                metadata.(InterchangeMetadata.genesis_validators_root) genesis_validators_root)
  else transaction pool_error (sql_error SqlFailure.Sqlite) (
     '(outcomes, commit) ← import_records interchange.(Interchange.data) [] true;
     if commit : bool then mret outcomes else throw (InterchangeError.AtomicBatchAborted outcomes)).

(** *** Export *)

(** [From<NotSafe>]. *)
Definition or_not_safe {A} (m : SqlM A) : M Sql.t InterchangeError.t A := fun s =>
  let '(r, s') := m s in (map_err InterchangeError.NotSafe r, s').

(** [iter().map(f).collect::<Result<_, _>>()]. *)
Fixpoint traverse {S E A B} (f : A → M S E B) (l : list A) : M S E (list B) :=
  match l with
  | [] => mret []
  | x :: l' => y ← f x; ys ← traverse f l'; mret (y :: ys)
  end.

Definition list_all_registered_validators : M Sql.t InterchangeError.t (list (Z * PublicKeyBytes)) :=
  statement ;;
  s ← get;
  mret (map (fun r => (r.(ValidatorRow.id), r.(ValidatorRow.public_key)))
            (order_by (fun r => (r.(ValidatorRow.id), 0)) s.(Sql.db).(Db.validators))).

Definition export_interchange_blocks_for_validator (validator_id : Z)
    : M Sql.t InterchangeError.t (list InterchangeBlock.t) :=
  rows ← select_blocks validator_id;
  traverse (fun r =>
    slot ← lift (from_sql r.(BlockRow.slot));
    mret (InterchangeBlock.mk slot (SigningRoot.to_hash256 r.(BlockRow.signing_root))))
    (order_by (fun r => (r.(BlockRow.slot), 0)) rows).

Definition export_interchange_attestations_for_validator (validator_id : Z)
    : M Sql.t InterchangeError.t (list InterchangeAttestation.t) :=
  rows ← select_attestations validator_id;
  traverse (fun r =>
    source ← lift (from_sql r.(AttestationRow.source_epoch));
    target ← lift (from_sql r.(AttestationRow.target_epoch));
    mret (InterchangeAttestation.mk source target (SigningRoot.to_hash256 r.(AttestationRow.signing_root))))
    (order_by (fun r => (r.(AttestationRow.source_epoch), r.(AttestationRow.target_epoch))) rows).

Definition export_interchange_info_in_txn (genesis_validators_root : Hash256)
    (selected_pubkeys : option (list PublicKeyBytes)) : M Sql.t InterchangeError.t Interchange.t :=
  to_export ← match selected_pubkeys with
    | Some pks => traverse (fun pk => id ← or_not_safe (get_validator_id_ignoring_status pk); mret (id, pk)) pks
    | None => list_all_registered_validators
    end;
  data ← traverse (fun '(validator_id, pubkey) =>
    blocks ← export_interchange_blocks_for_validator validator_id;
    atts ← export_interchange_attestations_for_validator validator_id;
    mret (InterchangeData.mk pubkey blocks atts)) to_export;
  mret (Interchange.mk (InterchangeMetadata.mk SUPPORTED_INTERCHANGE_FORMAT_VERSION genesis_validators_root) data).

Definition export_interchange_info (genesis_validators_root : Hash256)
    (selected_pubkeys : option (list PublicKeyBytes)) : M Sql.t InterchangeError.t Interchange.t :=
  read_transaction (export_interchange_info_in_txn genesis_validators_root selected_pubkeys).
