(* ===== verification/DoppelgangerDefs.v ===== *)
(** * Doppelganger protection

    [validator_client/doppelganger_service/src/lib.rs]: a validator that was
    just added does not sign until the beacon node has reported it inactive for
    some epochs, and activity of a validator under detection shuts the client
    down.

    Correspondence.  [doppelganger_states] is a [gmap]; the call of
    [shutdown_func] sets a flag.  The slot clock, the beacon node's responses and
    the index lookup are arguments.  The iteration order of the hash map is an
    argument too ([order]).  Error strings are the constructors of [DgError]. *)
From S2P Require Import Prelude SlotEpoch.

Abbreviation PublicKeyBytes := Z (only parsing).

Module DoppelgangerStatus.
Inductive t : Type :=
  | SigningEnabled (pk : PublicKeyBytes)
  | SigningDisabled (pk : PublicKeyBytes)
  | UnknownToDoppelganger (pk : PublicKeyBytes).

Definition only_safe (s : t) : option PublicKeyBytes :=
  match s with SigningEnabled pk => Some pk | _ => None end.
Definition ignored (s : t) : option PublicKeyBytes :=
  match s with SigningEnabled pk | SigningDisabled pk => Some pk | UnknownToDoppelganger _ => None end.
Definition only_unsafe (s : t) : option PublicKeyBytes :=
  match s with SigningEnabled _ => None | SigningDisabled pk | UnknownToDoppelganger pk => Some pk end.
End DoppelgangerStatus.

Module LivenessResponseData.
Record t : Type := mk { index : Z; epoch : Epoch; is_live : bool }.
End LivenessResponseData.

Module LivenessResponses.
Record t : Type := mk {
  current_epoch_responses : list LivenessResponseData.t;
  previous_epoch_responses : list LivenessResponseData.t;
}.
End LivenessResponses.

Definition DEFAULT_REMAINING_DETECTION_EPOCHS : Z := 1.

Module DoppelgangerState.
Record t : Type := mk { next_check_epoch : Epoch; remaining_epochs : Z }.

Definition requires_further_checks (s : t) : bool := 0 <? s.(remaining_epochs).

Definition complete_detection_in_epoch (e : Epoch) (s : t) : t :=
  mk (se_add e 1) (u64_saturating_sub s.(remaining_epochs) 1).
End DoppelgangerState.

Module DgError.
Inductive t : Type :=
  | UnableToReadSlotClock
  | BeaconNodeReturnedEpoch (got expected : Epoch)
  | InconsistentIndicesMap (index : Z)
  | InconsistentStates (pk : PublicKeyBytes).
End DgError.

Module DoppelgangerService.
Record t : Type := mk {
  doppelganger_states : gmap Z DoppelgangerState.t;
  shutdown : bool;
}.
Definition set_states (m : gmap Z DoppelgangerState.t) (s : t) : t := mk m s.(shutdown).
End DoppelgangerService.

Abbreviation DgM := (M DoppelgangerService.t DgError.t).

Definition validator_status (s : DoppelgangerService.t) (validator : PublicKeyBytes) : DoppelgangerStatus.t :=
  match s.(DoppelgangerService.doppelganger_states) !! validator with
  | None => DoppelgangerStatus.UnknownToDoppelganger validator
  | Some v =>
      if DoppelgangerState.requires_further_checks v then DoppelgangerStatus.SigningDisabled validator
      else DoppelgangerStatus.SigningEnabled validator
  end.

Section eth_spec.
Variable slots_per_epoch : Z.

(** [now_or_genesis] and [genesis_slot] are those of the slot clock. *)
Definition register_new_validator (validator : PublicKeyBytes) (now_or_genesis : option Slot)
    (genesis_slot : Slot) : DgM unit :=
  now ← lift (ok_or now_or_genesis DgError.UnableToReadSlotClock);
  let current_epoch := epoch now slots_per_epoch in
  let genesis_epoch := epoch genesis_slot slots_per_epoch in
  let remaining_epochs := if current_epoch <=? genesis_epoch then 0 else DEFAULT_REMAINING_DETECTION_EPOCHS in
  modify (fun s => DoppelgangerService.set_states
    (<[validator := DoppelgangerState.mk (se_add current_epoch 1) remaining_epochs]>
       s.(DoppelgangerService.doppelganger_states)) s).

Definition compute_detection_indices_map (get_index : PublicKeyBytes → option Z)
    (order : list (PublicKeyBytes * DoppelgangerState.t)) : gmap Z PublicKeyBytes :=
  let detection_pubkeys :=
    omap (fun '(pk, st) => if DoppelgangerState.requires_further_checks st then Some pk else None) order in
  foldl (fun m pk => match get_index pk with Some i => <[i := pk]> m | None => m end) ∅ detection_pubkeys.

(** The first loop: the indices of the validators found live in an epoch that
    counts. *)
Definition violates (states : gmap Z DoppelgangerState.t) (indices_map : gmap Z PublicKeyBytes)
    (response : LivenessResponseData.t) : bool :=
  if negb response.(LivenessResponseData.is_live) then false else
  match indices_map !! response.(LivenessResponseData.index) with
  | None => false
  | Some pk =>
      match states !! pk with
      | None => false
      | Some st => response.(LivenessResponseData.is_live) &&
          (st.(DoppelgangerState.next_check_epoch) <=? response.(LivenessResponseData.epoch))
      end
  end.

(** One iteration of the second loop. *)
Definition process_response (previous_epoch : Epoch) (previous_epoch_is_satisfied violators_exist : bool)
    (indices_map : gmap Z PublicKeyBytes) (response : LivenessResponseData.t) : DgM unit :=
  (if response.(LivenessResponseData.epoch) =? previous_epoch then mret tt
   else throw (DgError.BeaconNodeReturnedEpoch response.(LivenessResponseData.epoch) previous_epoch)) ;;
  pk ← lift (ok_or (indices_map !! response.(LivenessResponseData.index))
               (DgError.InconsistentIndicesMap response.(LivenessResponseData.index)));
  s ← get;
  st ← lift (ok_or (s.(DoppelgangerService.doppelganger_states) !! pk) (DgError.InconsistentStates pk));
  let store st' := modify (fun s => DoppelgangerService.set_states
    (<[pk := st']> s.(DoppelgangerService.doppelganger_states)) s) in
  if violators_exist then
    store (DoppelgangerState.mk st.(DoppelgangerState.next_check_epoch) u64_max)
  else
    let is_newly_satisfied_epoch :=
      previous_epoch_is_satisfied && (st.(DoppelgangerState.next_check_epoch) <=? previous_epoch) in
    if negb response.(LivenessResponseData.is_live) && is_newly_satisfied_epoch
    then store (DoppelgangerState.complete_detection_in_epoch previous_epoch st)
    else mret tt.

Definition process_liveness_responses (request_slot : Slot) (responses : LivenessResponses.t)
    (indices_map : gmap Z PublicKeyBytes) : DgM unit :=
  let request_epoch := epoch request_slot slots_per_epoch in
  let previous_epoch := u64_saturating_sub request_epoch 1 in
  let previous := responses.(LivenessResponses.previous_epoch_responses) in
  let current := responses.(LivenessResponses.current_epoch_responses) in
  s ← get;
  let violators_exist :=
    existsb (violates s.(DoppelgangerService.doppelganger_states) indices_map) (previous ++ current) in
  let previous_epoch_satisfaction_slot := end_slot (se_add previous_epoch 1) slots_per_epoch in
  let previous_epoch_is_satisfied := previous_epoch_satisfaction_slot <=? request_slot in
  for_each previous
    (process_response previous_epoch previous_epoch_is_satisfied violators_exist indices_map) ;;
  (if violators_exist then modify (fun s => DoppelgangerService.mk s.(DoppelgangerService.doppelganger_states) true)
   else mret tt).

(** [get_liveness] answers the two requests of [beacon_node_liveness]. *)
Definition detect_doppelgangers (request_slot : Slot) (get_index : PublicKeyBytes → option Z)
    (order : list (PublicKeyBytes * DoppelgangerState.t))
    (get_liveness : Epoch → list Z → LivenessResponses.t) : DgM unit :=
  let indices_map := compute_detection_indices_map get_index order in
  if decide (indices_map = ∅) then mret tt else
  let indices_only := (map_to_list indices_map).*1 in
  let request_epoch := epoch request_slot slots_per_epoch in
  process_liveness_responses request_slot (get_liveness request_epoch indices_only) indices_map.
End eth_spec.

(** [beacon_node_liveness]: the answers of the beacon node for an epoch, or
    nothing where the request failed; the epoch of an answer is the one asked
    for.  The previous epoch is not requested in epoch zero. *)
Definition liveness_of (e : Epoch) (answer : option (list (Z * bool))) : list LivenessResponseData.t :=
  map (fun '(index, is_live) => LivenessResponseData.mk index e is_live) (default [] answer).

Definition beacon_node_liveness (query : Epoch → list Z → option (list (Z * bool)))
    (current_epoch : Epoch) (validator_indices : list Z) : LivenessResponses.t :=
  let previous_epoch := u64_saturating_sub current_epoch 1 in
  let previous_epoch_responses :=
    if previous_epoch =? current_epoch then []
    else liveness_of previous_epoch (query previous_epoch validator_indices) in
  let current_epoch_responses := liveness_of current_epoch (query current_epoch validator_indices) in
  LivenessResponses.mk current_epoch_responses previous_epoch_responses.
