(* ===== verification/ValidatorStoreDefs.v ===== *)
(** * The validator store

    The signing part of [validator_client/vibehouse_validator_store/src/lib.rs]:
    the methods that sign slashable messages, each guarded by the doppelganger
    service and the slashing-protection database, and the methods that maintain
    that database.

    Correspondence.  The store is the state.  Tree-hash roots ([signing_root],
    [compute_domain]) and the signing of a message are arguments: the first are
    derived by a macro of another crate, the second is a key or a remote
    service.  A signature is a number, an aggregate the list of its signatures. *)
From S2P Require Import Prelude SlotEpoch ProtoArrayDefs ForkSchedule SlashingDefs DoppelgangerDefs.

Module AttestationData.
Record t : Type := mk {
  slot : Slot; index : Z; beacon_block_root : Hash256; source : Checkpoint.t; target : Checkpoint.t;
}.
End AttestationData.

Module BeaconBlockHeader.
Record t : Type := mk {
  slot : Slot; proposer_index : Z; parent_root : Hash256; state_root : Hash256; body_root : Hash256;
}.
End BeaconBlockHeader.

Module Attestation.
Record t : Type := mk { aggregation_bits : list bool; data : AttestationData.t; signature : list Z }.
End Attestation.

Module AttestationError.
Inductive t : Type := BitfieldError (i : nat) | AlreadySigned (i : nat).
End AttestationError.

Definition add_signature (signature : Z) (committee_position : nat) : M Attestation.t AttestationError.t unit :=
  att ← get;
  bit ← lift (ok_or (att.(Attestation.aggregation_bits) !! committee_position)
                (AttestationError.BitfieldError committee_position));
  if bit : bool then throw (AttestationError.AlreadySigned committee_position)
  else modify (fun att => Attestation.mk
    (<[committee_position := true]> att.(Attestation.aggregation_bits)) att.(Attestation.data)
    (att.(Attestation.signature) ++ [signature])).

Module Domain.
Inductive t : Type :=
  | BlsToExecutionChange | BeaconProposer | BeaconAttester | Randao | Deposit | VoluntaryExit
  | SelectionProof | AggregateAndProof | SyncCommittee | ContributionAndProof
  | SyncCommitteeSelectionProof | ApplicationMask | BeaconBuilder | PtcAttester
  | ProposerPreferences | InclusionListCommittee.
#[global] Instance eq_dec : EqDecision t.
Proof. solve_decision. Defined.
End Domain.

Module SigningContext.
Record t : Type := mk {
  domain : Domain.t; epoch : Epoch; fork : Fork.t; genesis_validators_root : Hash256;
}.
End SigningContext.

Module SigningMethod.
Inductive t : Type := LocalKeystore | Web3Signer.
Definition requires_local_slashing_protection (m : t) (enable_web3signer_slashing_protection : bool) : bool :=
  match m with LocalKeystore => true | Web3Signer => enable_web3signer_slashing_protection end.
End SigningMethod.

(** [validator_store::Error], with the message of a failed signature. *)
Module SignError.
Inductive t : Type :=
  | DoppelgangerProtected (pk : PublicKeyBytes)
  | UnknownPubkey (pk : PublicKeyBytes)
  | Slashable (e : NotSafe.t)
  | SameData
  | GreaterThanCurrentSlot (slot current_slot : Slot)
  | GreaterThanCurrentEpoch (epoch current_epoch : Epoch)
  | UnableToSignAttestation (e : AttestationError.t)
  | SpecificError.
End SignError.

(** [InitializedValidators] is the map of its signing methods. *)
Module ValidatorStore.
Record t : Type := mk {
  validators : gmap Z SigningMethod.t;
  slashing_protection : Sql.t;
  slashing_protection_last_prune : Epoch;
  genesis_validators_root : Hash256;
  spec : ForkSpec.t;
  doppelganger_service : option DoppelgangerService.t;
  enable_web3signer_slashing_protection : bool;
}.
Definition set_sql (x : Sql.t) (s : t) : t :=
  mk s.(validators) x s.(slashing_protection_last_prune) s.(genesis_validators_root) s.(spec)
     s.(doppelganger_service) s.(enable_web3signer_slashing_protection).
Definition set_last_prune (e : Epoch) (s : t) : t :=
  mk s.(validators) s.(slashing_protection) e s.(genesis_validators_root) s.(spec)
     s.(doppelganger_service) s.(enable_web3signer_slashing_protection).
Definition set_doppelganger (d : option DoppelgangerService.t) (s : t) : t :=
  mk s.(validators) s.(slashing_protection) s.(slashing_protection_last_prune)
     s.(genesis_validators_root) s.(spec) d s.(enable_web3signer_slashing_protection).
Definition set_validators (v : gmap Z SigningMethod.t) (s : t) : t :=
  mk v s.(slashing_protection) s.(slashing_protection_last_prune)
     s.(genesis_validators_root) s.(spec) s.(doppelganger_service) s.(enable_web3signer_slashing_protection).
End ValidatorStore.

Definition SLASHING_PROTECTION_HISTORY_EPOCHS : Z := 512.

Abbreviation StoreM E := (M ValidatorStore.t E).

(** A call on the slashing-protection database of the store, with its result. *)
Definition on_sql {E E' A} (m : M Sql.t E A) : StoreM E' (outcome E A) := fun s =>
  let '(r, sql) := m s.(ValidatorStore.slashing_protection) in (Ok r, ValidatorStore.set_sql sql s).

Definition doppelganger_protection_allows_signing (s : ValidatorStore.t) (pk : PublicKeyBytes) : bool :=
  match s.(ValidatorStore.doppelganger_service) with
  | None => true
  | Some service =>
      match DoppelgangerStatus.only_safe (validator_status service pk) with Some _ => true | None => false end
  end.

Definition doppelganger_checked_signing_method (s : ValidatorStore.t) (pk : PublicKeyBytes)
    : outcome SignError.t SigningMethod.t :=
  if doppelganger_protection_allows_signing s pk
  then ok_or (s.(ValidatorStore.validators) !! pk) (SignError.UnknownPubkey pk)
  else Err (SignError.DoppelgangerProtected pk).

Definition deneb_enabled (f : ForkName.t) : bool := ForkName.ge f ForkName.Deneb.

Definition signing_context (s : ValidatorStore.t) (domain : Domain.t) (signing_epoch : Epoch) : SigningContext.t :=
  let spec := s.(ValidatorStore.spec) in
  let fork :=
    if decide (domain = Domain.VoluntaryExit) then
      if deneb_enabled (fork_name_at_epoch spec signing_epoch) then
        Fork.mk spec.(ForkSpec.capella_fork_version) spec.(ForkSpec.capella_fork_version) signing_epoch
      else fork_at_epoch spec signing_epoch
    else fork_at_epoch spec signing_epoch in
  SigningContext.mk domain signing_epoch fork s.(ValidatorStore.genesis_validators_root).

(** [voting_pubkeys(DoppelgangerStatus::ignored)], the map read in its order. *)
Definition voting_pubkeys (s : ValidatorStore.t) : list PublicKeyBytes :=
  omap (fun pk => DoppelgangerStatus.ignored
    match s.(ValidatorStore.doppelganger_service) with
    | None => DoppelgangerStatus.SigningEnabled pk
    | Some service => validator_status service pk
    end) (map_to_list s.(ValidatorStore.validators)).*1.

Section signing.
Variable slots_per_epoch : Z.
(** [ChainSpec::compute_domain] and the signing roots of the two messages. *)
Variable compute_domain : Domain.t → Z → Hash256 → Hash256.
Variable attestation_signing_root : AttestationData.t → Hash256 → Hash256.
Variable header_signing_root : BeaconBlockHeader.t → Hash256 → Hash256.

Definition get_domain (e : Epoch) (domain : Domain.t) (fork : Fork.t) (genesis_validators_root : Hash256)
    : Hash256 :=
  compute_domain domain (Fork.get_fork_version fork e) genesis_validators_root.

Definition domain_hash (c : SigningContext.t) : Hash256 :=
  get_domain c.(SigningContext.epoch) c.(SigningContext.domain) c.(SigningContext.fork)
    c.(SigningContext.genesis_validators_root).

Definition check_and_insert_block_proposal (pk : PublicKeyBytes) (header : BeaconBlockHeader.t) (domain : Hash256)
    : SqlM Safe.t :=
  check_and_insert_block_signing_root pk header.(BeaconBlockHeader.slot) (header_signing_root header domain).

Definition check_and_insert_attestation (pk : PublicKeyBytes) (attestation : AttestationData.t) (domain : Hash256)
    : SqlM Safe.t :=
  check_and_insert_attestation_signing_root pk
    attestation.(AttestationData.source).(Checkpoint.epoch)
    attestation.(AttestationData.target).(Checkpoint.epoch)
    (attestation_signing_root attestation domain).

(** What the store does with the answer of the database: sign, or refuse. *)
Definition on_slashing_status {A} (status : outcome NotSafe.t Safe.t) (sign : StoreM SignError.t A)
    : StoreM SignError.t A :=
  match status with
  | Ok Safe.Valid => sign
  | Ok Safe.SameData => throw SignError.SameData
  | Err e => throw (SignError.Slashable e)
  | Panic => lift Panic
  | Diverge => lift Diverge
  end.

(** [block] is given by its header; [get_signature] is the outcome of the
    signing method, which may fail. *)
Definition sign_abstract_block (pk : PublicKeyBytes) (block : BeaconBlockHeader.t) (current_slot : Slot)
    (get_signature : SigningMethod.t → SigningContext.t → option Z)
    : StoreM SignError.t (BeaconBlockHeader.t * Z) :=
  let slot := block.(BeaconBlockHeader.slot) in
  if current_slot <? slot then throw (SignError.GreaterThanCurrentSlot slot current_slot) else
  s ← get;
  let context := signing_context s Domain.BeaconProposer (SlotEpoch.epoch slot slots_per_epoch) in
  method ← lift (doppelganger_checked_signing_method s pk);
  status ←
    (if SigningMethod.requires_local_slashing_protection method
          s.(ValidatorStore.enable_web3signer_slashing_protection)
     then on_sql (check_and_insert_block_proposal pk block (domain_hash context))
     else mret (Ok Safe.Valid));
  on_slashing_status status
    (signature ← lift (ok_or (get_signature method context) SignError.SpecificError);
     mret (block, signature)).

Definition sign_attestation (pk : PublicKeyBytes) (validator_committee_position : nat) (attestation : Attestation.t)
    (current_epoch : Epoch) (get_signature : SigningMethod.t → SigningContext.t → option Z)
    : StoreM SignError.t Attestation.t :=
  let data := attestation.(Attestation.data) in
  let target := data.(AttestationData.target).(Checkpoint.epoch) in
  if current_epoch <? target then throw (SignError.GreaterThanCurrentEpoch target current_epoch) else
  s ← get;
  method ← lift (doppelganger_checked_signing_method s pk);
  let context := signing_context s Domain.BeaconAttester target in
  status ←
    (if SigningMethod.requires_local_slashing_protection method
          s.(ValidatorStore.enable_web3signer_slashing_protection)
     then on_sql (check_and_insert_attestation pk data (domain_hash context))
     else mret (Ok Safe.Valid));
  on_slashing_status status
    (signature ← lift (ok_or (get_signature method context) SignError.SpecificError);
     let '(r, attestation') := add_signature signature validator_committee_position attestation in
     lift (map_err SignError.UnableToSignAttestation r) ;;
     mret attestation').

(** *** Maintenance of the database *)
Definition import_slashing_protection (interchange : Interchange.t) : StoreM InterchangeError.t unit :=
  s ← get;
  r ← on_sql (import_interchange_info interchange s.(ValidatorStore.genesis_validators_root));
  lift r ;; mret tt.

(** [filter_map] of the keys the database knows: an error of the lookup drops the
    key, an error of the update is an error of the whole. *)
Fixpoint disable_known (pubkeys : list PublicKeyBytes) : M Sql.t InterchangeError.t (list PublicKeyBytes) :=
  match pubkeys with
  | [] => mret []
  | pk :: pubkeys' => fun s =>
      match get_validator_id_ignoring_status pk s with
      | (Ok validator_id, s') =>
          (or_not_safe (update_validator_status validator_id false) ;;
           rest ← disable_known pubkeys'; mret (pk :: rest)) s'
      | (Err _, s') => disable_known pubkeys' s'
      | (Panic, s') => (Panic, s')
      | (Diverge, s') => (Diverge, s')
      end
  end.

Definition export_slashing_protection_for_keys (pubkeys : list PublicKeyBytes)
    : StoreM InterchangeError.t Interchange.t :=
  s ← get;
  r ← on_sql (transaction (InterchangeError.NotSafe NotSafe.SQLPoolError)
                (InterchangeError.NotSafe (NotSafe.SQLError SqlFailure.Sqlite))
    (known_pubkeys ← disable_known pubkeys;
     export_interchange_info_in_txn s.(ValidatorStore.genesis_validators_root) (Some known_pubkeys)));
  lift r.

(** The errors are logged and end the method; [last_prune] moves only when both
    tables were pruned. *)
Definition prune_slashing_protection_db (current_epoch : Epoch) : StoreM Empty_set unit :=
  s ← get;
  if current_epoch / SLASHING_PROTECTION_HISTORY_EPOCHS <=?
     s.(ValidatorStore.slashing_protection_last_prune) / SLASHING_PROTECTION_HISTORY_EPOCHS
  then mret tt else
  let new_min_target_epoch := u64_saturating_sub current_epoch SLASHING_PROTECTION_HISTORY_EPOCHS in
  let new_min_slot := start_slot new_min_target_epoch slots_per_epoch in
  let all_pubkeys := voting_pubkeys s in
  r ← on_sql (prune_all_signed_attestations all_pubkeys new_min_target_epoch);
  match r with
  | Ok _ =>
      r ← on_sql (prune_all_signed_blocks all_pubkeys new_min_slot);
      match r with
      | Ok _ => modify (ValidatorStore.set_last_prune current_epoch)
      | Err _ => mret tt
      | Panic => lift Panic
      | Diverge => lift Diverge
      end
  | Err _ => mret tt
  | Panic => lift Panic
  | Diverge => lift Diverge
  end.

(** [add_validator]: register with the database, then with the doppelganger
    service, then enable the key. *)
Inductive AddValidatorError : Type :=
  | FailedToRegister (e : NotSafe.t)
  | DoppelgangerFailed (e : DgError.t).

Definition add_validator (pk : PublicKeyBytes) (method : SigningMethod.t) (now_or_genesis : option Slot)
    (genesis_slot : Slot) : StoreM AddValidatorError unit :=
  r ← on_sql (register_validator pk);
  lift (map_err FailedToRegister r) ;;
  s ← get;
  match s.(ValidatorStore.doppelganger_service) with
  | None => mret tt
  | Some service =>
      let '(r, service') := register_new_validator slots_per_epoch pk now_or_genesis genesis_slot service in
      modify (ValidatorStore.set_doppelganger (Some service')) ;;
      lift (map_err DoppelgangerFailed r)
  end ;;
  modify (fun s => ValidatorStore.set_validators (<[pk := method]> s.(ValidatorStore.validators)) s).
End signing.

(** ** A small validator store, for the witnesses of the theorems on signing *)
Definition ex_fork_spec : ForkSpec.t :=
  ForkSpec.mk (Some 0) (Some 0) (Some 0) (Some 0) (Some 0) (Some 0) None None
    0 1 2 3 4 5 6 7 8 u64_max 1 [].

(** An empty store on a new database. *)
Definition ex_store (service : option DoppelgangerService.t) : ValidatorStore.t :=
  ValidatorStore.mk ∅ (Sql.mk Db.create []) 0 42 ex_fork_spec service false.

(** Stand-ins for the tree-hash roots: different messages have different roots. *)
Definition ex_domain (d : Domain.t) (version root : Z) : Z := version + root.
Definition ex_attestation_root (a : AttestationData.t) (domain : Z) : Z :=
  1 + 1000 * domain + a.(AttestationData.source).(Checkpoint.epoch) +
  100 * a.(AttestationData.target).(Checkpoint.epoch).
Definition ex_header_root (h : BeaconBlockHeader.t) (domain : Z) : Z :=
  1 + 1000 * domain + h.(BeaconBlockHeader.slot).

Definition ex_attestation (source target : Epoch) : Attestation.t :=
  Attestation.mk [false; false]
    (AttestationData.mk (8 * target) 0 5 (Checkpoint.mk source 3) (Checkpoint.mk target 4)) [].
Definition ex_header (slot : Slot) : BeaconBlockHeader.t := BeaconBlockHeader.mk slot 1 2 3 4.
Definition ex_signature (m : SigningMethod.t) (c : SigningContext.t) : option Z := Some 77.

Definition ex_sign_attestation (pk source target : Z) : StoreM SignError.t Attestation.t :=
  sign_attestation ex_domain ex_attestation_root pk 0 (ex_attestation source target) 100 ex_signature.
Definition ex_sign_block (pk slot : Z) : StoreM SignError.t (BeaconBlockHeader.t * Z) :=
  sign_abstract_block 8 ex_domain ex_header_root pk (ex_header slot) 100 ex_signature.
