(* ===== verification/SlashingCorrect.v ===== *)
(** * What the slashing-protection database protects

    Each operation of [SlashingDefs] that succeeds protects at least as much as
    before: a message that was covered by the database, because it is stored or
    because all stored messages are later, stays covered, and a message that the
    database accepts is compatible with everything covered. *)
From S2P Require Import Prelude SlotEpoch ProtoArrayDefs SlashingDefs.

(** ** Slashable messages *)

(** Two attestations, as source and target epochs: a double vote or a surround
    vote. *)
Definition slashable (a b : Epoch * Epoch) : Prop :=
  a.2 = b.2 ∨ (a.1 < b.1 ∧ b.2 < a.2) ∨ (b.1 < a.1 ∧ a.2 < b.2).

Definition epochs_of (r : AttestationRow.t) : Epoch * Epoch :=
  (r.(AttestationRow.source_epoch), r.(AttestationRow.target_epoch)).

(** An attestation is covered if it is stored, or nothing stored is earlier. *)
Definition covers (rows : list AttestationRow.t) (m : Epoch * Epoch) : Prop :=
  (∃ r, r ∈ rows ∧ epochs_of r = m) ∨
  ((∃ r, r ∈ rows) ∧ ∀ r, r ∈ rows → m.1 ≤ (epochs_of r).1 ∧ m.2 ≤ (epochs_of r).2).

Definition rows_ok (rows : list AttestationRow.t) : Prop :=
  ∀ a b, a ∈ rows → b ∈ rows → a = b ∨ ¬ slashable (epochs_of a) (epochs_of b).

Definition block_covers (rows : list BlockRow.t) (slot : Slot) : Prop :=
  (∃ r, r ∈ rows ∧ r.(BlockRow.slot) = slot) ∨
  ((∃ r, r ∈ rows) ∧ ∀ r, r ∈ rows → slot ≤ r.(BlockRow.slot)).

(** [rows'] protects at least what [rows] does. *)
Definition att_le (rows rows' : list AttestationRow.t) : Prop :=
  rows_ok rows → rows_ok rows' ∧ ∀ m, covers rows m → covers rows' m.
Definition block_le (rows rows' : list BlockRow.t) : Prop :=
  ∀ slot, block_covers rows slot → block_covers rows' slot.

#[export] Instance att_le_preorder : PreOrder att_le.
Proof.
  split; [intros rows Hok; auto|]. intros x y z Hxy Hyz Hx.
  destruct (Hxy Hx) as [Hy H1]. destruct (Hyz Hy) as [Hz H2]. auto.
Qed.
#[export] Instance block_le_preorder : PreOrder block_le.
Proof. split; [intros rows s Hs; auto|]. intros x y z Hxy Hyz s Hs. auto. Qed.

Lemma slashable_sym a b : slashable a b → slashable b a.
Proof. unfold slashable. intuition. Qed.

(** Adding a row that is compatible with the others and not before all of them. *)
Lemma att_le_insert rows rows' n :
  (∀ r, r ∈ rows' ↔ r ∈ rows ∨ r = n) →
  (∀ r, r ∈ rows → ¬ slashable (epochs_of r) (epochs_of n)) →
  (∀ r, r ∈ rows → (∃ a, a ∈ rows ∧ (epochs_of a).1 ≤ (epochs_of n).1) ∧
                   (∃ a, a ∈ rows ∧ (epochs_of a).2 ≤ (epochs_of n).2)) →
  att_le rows rows'.
Proof.
  intros Hmem Hcompat Hmin Hok. split.
  - intros a b [Ha| ->]%Hmem [Hb| ->]%Hmem; auto.
    right. intros H%slashable_sym. by apply (Hcompat b).
  - intros m [(r & Hr & Hm)|[[r Hr] Hall]].
    + left. exists r. rewrite Hmem. auto.
    + right. split; [exists r; rewrite Hmem; auto|].
      intros x [Hx| ->]%Hmem; [auto|]. destruct (Hmin r Hr) as [(a & Ha & Ha1) (b & Hb & Hb2)].
      split; [etrans; [apply (Hall a Ha)|done]|etrans; [apply (Hall b Hb)|done]].
Qed.

(** Deleting rows that are before all the rows kept, of which there are some. *)
Lemma att_le_delete rows rows' :
  (∀ r, r ∈ rows' → r ∈ rows) →
  (∀ a b, a ∈ rows → a ∉ rows' → b ∈ rows' → (epochs_of a).2 < (epochs_of b).2) →
  (∀ a, a ∈ rows → ∃ b, b ∈ rows') →
  att_le rows rows'.
Proof.
  intros Hsub Hlt Hne Hok. split; [intros a b Ha Hb; apply Hok; auto|].
  intros m [(r & Hr & Hm)|[[r Hr] Hall]].
  - destruct (decide (r ∈ rows')) as [Hin|Hout]; [left; eauto|].
    right. split; [eauto|]. intros b Hb. pose proof (Hlt r b Hr Hout Hb) as Hrb. rewrite <-Hm.
    destruct (Hok r b Hr (Hsub _ Hb)) as [->|Hns]; [done|].
    unfold slashable in Hns. split; lia.
  - right. split; [eauto|]. auto.
Qed.

(** Replacing all rows by one that is not before any of them. *)
Lemma att_le_replace rows rows' n :
  (∀ r, r ∈ rows' ↔ r = n) →
  (∀ r, r ∈ rows → (epochs_of r).1 ≤ (epochs_of n).1 ∧ (epochs_of r).2 ≤ (epochs_of n).2) →
  att_le rows rows'.
Proof.
  intros Hmem Hle Hok. split; [intros a b ->%Hmem ->%Hmem; auto|].
  intros m Hm. right. split; [exists n; by apply Hmem|]. intros r ->%Hmem.
  destruct Hm as [(a & Ha & <-)|[[a Ha] Hall]]; [auto|].
  destruct (Hle a Ha), (Hall a Ha). lia.
Qed.

Lemma block_le_insert rows rows' n :
  (∀ r, r ∈ rows' ↔ r ∈ rows ∨ r = n) →
  (∀ r, r ∈ rows → ∃ a, a ∈ rows ∧ a.(BlockRow.slot) ≤ n.(BlockRow.slot)) →
  block_le rows rows'.
Proof.
  intros Hmem Hmin s [(r & Hr & Hs)|[[r Hr] Hall]].
  - left. exists r. rewrite Hmem. auto.
  - right. split; [exists r; rewrite Hmem; auto|]. intros x [Hx| ->]%Hmem; [auto|].
    destruct (Hmin r Hr) as (a & Ha & Han). specialize (Hall a Ha). lia.
Qed.

Lemma block_le_delete rows rows' :
  (∀ r, r ∈ rows' → r ∈ rows) →
  (∀ a b, a ∈ rows → a ∉ rows' → b ∈ rows' → a.(BlockRow.slot) < b.(BlockRow.slot)) →
  (∀ a, a ∈ rows → ∃ b, b ∈ rows') →
  block_le rows rows'.
Proof.
  intros Hsub Hlt Hne s [(r & Hr & Hs)|[[r Hr] Hall]].
  - destruct (decide (r ∈ rows')) as [Hin|Hout]; [left; eauto|].
    right. split; [eauto|]. intros b Hb. specialize (Hlt r b Hr Hout Hb). lia.
  - right. split; [eauto|]. auto.
Qed.

Lemma block_le_replace rows rows' n :
  (∀ r, r ∈ rows' ↔ r = n) → (∀ r, r ∈ rows → r.(BlockRow.slot) ≤ n.(BlockRow.slot)) →
  block_le rows rows'.
Proof.
  intros Hmem Hle s Hs. right. split; [exists n; by apply Hmem|]. intros r ->%Hmem.
  destruct Hs as [(a & Ha & <-)|[[a Ha] Hall]]; [auto|].
  specialize (Hle a Ha). specialize (Hall a Ha). lia.
Qed.

(** ** Databases *)

(** The row id and status of a key, as [get_validator_id_with_status] reads them. *)
Definition vid (d : Db.t) (pk : PublicKeyBytes) : option (Z * bool) :=
  (fun r => (r.(ValidatorRow.id), r.(ValidatorRow.enabled)))
    <$> head (filter (fun r => r.(ValidatorRow.public_key) = pk) d.(Db.validators)).

Record db_le (d d' : Db.t) : Prop := {
  le_vid : ∀ pk id b, vid d pk = Some (id, b) → ∃ b', vid d' pk = Some (id, b');
  le_atts : ∀ id, att_le (attestations_of id d) (attestations_of id d');
  le_blocks : ∀ id, block_le (blocks_of id d) (blocks_of id d');
}.

#[export] Instance db_le_preorder : PreOrder db_le.
Proof.
  split.
  - intros d. split; [eauto|intros id; reflexivity..].
  - intros x y z [H1 H2 H3] [H4 H5 H6]. split.
    + intros pk id b Hv. destruct (H1 _ _ _ Hv) as [b' Hv']. eauto.
    + intros id. transitivity (attestations_of id y); auto.
    + intros id. transitivity (blocks_of id y); auto.
Qed.

(** ** Runs that succeed, whatever failures were in store *)
Definition okrun {E A} (m : M Sql.t E A) (d : Db.t) (a : A) (d' : Db.t) : Prop :=
  ∃ fs fs', m (Sql.mk d fs) = (Ok a, Sql.mk d' fs').

Section okrun.
Context {E : Type}.

Lemma okrun_bind {A B} (m : M Sql.t E A) (k : A → M Sql.t E B) d b d' :
  okrun (m ≫= k) d b d' → ∃ a d1, okrun m d a d1 ∧ okrun (k a) d1 b d'.
Proof.
  intros (fs & fs' & (a & [d1 fs1] & Hm & Hk)%bind_ok). exists a, d1. split; by eexists _, _.
Qed.

Lemma okrun_ret {A} (a b : A) d d' : okrun (E:=E) (mret a) d b d' → b = a ∧ d' = d.
Proof. intros (fs & fs' & H). by injection H. Qed.

Lemma okrun_lift {A} (o : outcome E A) a d d' : okrun (lift o) d a d' → o = Ok a ∧ d' = d.
Proof. intros (fs & fs' & H). by injection H. Qed.

Lemma okrun_throw {A} (e : E) (a : A) d d' : okrun (throw e) d a d' → False.
Proof. by intros (fs & fs' & H). Qed.

Lemma okrun_get d s d' : okrun (E:=E) get d s d' → s.(Sql.db) = d ∧ d' = d.
Proof. intros (fs & fs' & H). by injection H as <- <- <-. Qed.

Lemma okrun_upd f d u d' : okrun (E:=E) (modify (Sql.upd f)) d u d' → d' = f d.
Proof. intros (fs & fs' & H). by injection H as <- <- <-. Qed.

Lemma okrun_sqlite (e : E) d u d' : okrun (sqlite e) d u d' → d' = d.
Proof.
  intros (fs & fs' & H). unfold sqlite in H. simpl in H. destruct fs as [|[] fs]; by injection H.
Qed.

Lemma okrun_unique `{FromSqlite E} v col d u d' :
  okrun (check_unique v col) d u d' → (v ∉ col) ∧ d' = d.
Proof.
  unfold check_unique. case_decide; [by intros []%okrun_throw|]. by intros [_ ->]%okrun_ret.
Qed.

Lemma okrun_foreign_key `{FromSqlite E} id d0 d u d' :
  okrun (check_foreign_key id d0) d u d' → id ∈ map ValidatorRow.id d0.(Db.validators) ∧ d' = d.
Proof.
  unfold check_foreign_key. case_decide; [|by intros []%okrun_throw]. by intros [_ ->]%okrun_ret.
Qed.

Lemma okrun_for_each {A} (f : A → M Sql.t E unit) (R : Db.t → Db.t → Prop) `{!PreOrder R} l d u d' :
  (∀ x d1 u1 d2, x ∈ l → okrun (f x) d1 u1 d2 → R d1 d2) → okrun (for_each l f) d u d' → R d d'.
Proof.
  revert d. induction l as [|x l IH]; intros d Hf H; simpl in H.
  - by apply okrun_ret in H as [_ ->].
  - apply okrun_bind in H as (u1 & d1 & H1 & H2). etrans.
    + eapply Hf, H1. left.
    + apply (IH d1); [|done]. intros y. intros. eapply Hf; [by right|done].
Qed.
End okrun.

(** Open a successful run into its steps. *)
Ltac inv_run H :=
  repeat match type of H with
  | okrun (mbind _ _) _ _ _ =>
      let a := fresh "a" in let d1 := fresh "d" in let H1 := fresh "Hr" in
      apply okrun_bind in H as (a & d1 & H1 & H); inv_run H1
  | okrun (mret _) _ _ _ => apply okrun_ret in H as [? ?]; subst
  | okrun (lift (ok_or ?o _)) _ _ _ =>
      let E := fresh "Ho" in
      apply okrun_lift in H as [E ?]; destruct o eqn:?; simpl in E; [|discriminate E];
      injection E as ?; subst
  | okrun (lift _) _ _ _ => apply okrun_lift in H as [? ?]; subst
  | okrun (throw _) _ _ _ => destruct (okrun_throw _ _ _ _ H)
  | okrun get _ ?s _ => apply okrun_get in H as [? ?]; destruct s; cbn [Sql.db] in *; subst
  | okrun (check_unique _ _) _ _ _ => apply okrun_unique in H as [? ?]; subst
  | okrun (check_foreign_key _ _) _ _ _ => apply okrun_foreign_key in H as [? ?]; subst
  | okrun (modify (Sql.upd _)) _ _ _ => apply okrun_upd in H; subst
  | okrun (sqlite _) _ _ _ => apply okrun_sqlite in H; subst
  | okrun statement _ _ _ => apply okrun_sqlite in H; subst
  end.

Lemma transaction_okrun {E A} (e1 e2 : E) (m : M Sql.t E A) s a s' :
  transaction e1 e2 m s = (Ok a, s') → okrun m s.(Sql.db) a s'.(Sql.db).
Proof.
  unfold transaction. intros H. repeat case_match; injection H as ? ?; try discriminate. subst.
  destruct s as [d fs], s' as [d' fs'].
  assert (okrun (sqlite e1 ;; sqlite e2 ;; a ← m; sqlite e2 ;; mret a) d a d') as H by (by eexists _, _).
  by inv_run H.
Qed.

Lemma transaction_rollback {E A} (e1 e2 : E) (m : M Sql.t E A) s r s' :
  transaction e1 e2 m s = (r, s') → (∀ a, r ≠ Ok a) → s'.(Sql.db) = s.(Sql.db).
Proof.
  unfold transaction. intros H Hr. repeat case_match; injection H as <- <-; [by destruct (Hr a)|done..].
Qed.

(** ** Aggregates *)
Lemma min_of_None l : min_of l = None ↔ l = [].
Proof. destruct l; simpl; split; congruence. Qed.

Lemma max_of_None l : max_of l = None ↔ l = [].
Proof. destruct l; simpl; split; congruence. Qed.

Lemma min_of_Some l m : min_of l = Some m → m ∈ l ∧ ∀ x, x ∈ l → m ≤ x.
Proof.
  destruct l as [|x l]; [done|]. intros [= <-]. setoid_rewrite elem_of_cons.
  induction l as [|y l [IH1 IH2]]; simpl.
  - split; [by left|]. intros z [->|[]%elem_of_nil]. lia.
  - setoid_rewrite elem_of_cons. split; [destruct (Z.min_spec y (foldr Z.min x l)) as [[_ ->]|[_ ->]]; tauto|].
    intros z [->|[->|Hz]]; [specialize (IH2 x ltac:(tauto))| |specialize (IH2 z ltac:(tauto))]; lia.
Qed.

Lemma max_of_Some l m : max_of l = Some m → m ∈ l ∧ ∀ x, x ∈ l → x ≤ m.
Proof.
  destruct l as [|x l]; [done|]. intros [= <-]. setoid_rewrite elem_of_cons.
  induction l as [|y l [IH1 IH2]]; simpl.
  - split; [by left|]. intros z [->|[]%elem_of_nil]. lia.
  - setoid_rewrite elem_of_cons. split; [destruct (Z.max_spec y (foldr Z.max x l)) as [[_ ->]|[_ ->]]; tauto|].
    intros z [->|[->|Hz]]; [specialize (IH2 x ltac:(tauto))| |specialize (IH2 z ltac:(tauto))]; lia.
Qed.

(** [MAX] of a column, or what to insert instead, is not before any row. *)
Lemma max_or_ge o y : (∀ x, o = Some x → x ≤ max_or o y) ∧ y ≤ max_or o y.
Proof. destruct o; simpl; split; intros; simplify_eq; lia. Qed.

Lemma from_sql_Ok {E} `{FromSqlite E} x y : from_sql x = Ok y → y = x.
Proof. unfold from_sql. case_match; [|done]. by intros [= ->]. Qed.

Lemma to_sql_Ok {E} `{FromSqlite E} x y : to_sql x = Ok y → y = x.
Proof. unfold to_sql. case_match; [|done]. by intros [= ->]. Qed.

Lemma from_sql_opt_Ok {E} `{FromSqlite E} o o' : from_sql_opt o = Ok o' → o' = o.
Proof.
  destruct o as [x|]; simpl; [|by intros [= <-]]. unfold mbind, outcome_bind.
  destruct (from_sql x) eqn:Hx; try discriminate. apply from_sql_Ok in Hx as ->. by intros [= <-].
Qed.

Lemma optional_Ok {E A B} (f : A → outcome E B) o o' :
  optional f o = Ok o' → (o' = None ↔ o = None) ∧ (∀ b, o' = Some b → ∃ a, o = Some a ∧ f a = Ok b).
Proof.
  destruct o as [x|]; simpl; [|intros [= <-]; split; [done|intros; discriminate]].
  unfold mbind, outcome_bind. destruct (f x) eqn:Hx; try discriminate. intros [= <-].
  split; [split; discriminate|]. intros b [= <-]. eauto.
Qed.

Lemma top_target_None l : top_target l = None ↔ l = [].
Proof. destruct l as [|a l]; simpl; [done|]. split; [|done]. repeat case_match; discriminate. Qed.

Lemma head_None {A} (l : list A) : head l = None ↔ l = [].
Proof. by destruct l. Qed.

Lemma head_elem {A} (l : list A) x : head l = Some x → x ∈ l.
Proof. destruct l; [done|]. intros [= ->]. left. Qed.

(** ** Validators *)
Lemma get_validator_id_with_status_run pk d r d' :
  okrun (get_validator_id_with_status pk) d r d' → d' = d ∧ r = vid d pk.
Proof. unfold get_validator_id_with_status. intros H. by inv_run H. Qed.

Lemma get_validator_id_in_txn_run pk d id d' :
  okrun (get_validator_id_in_txn pk) d id d' → d' = d ∧ vid d pk = Some (id, true).
Proof.
  unfold get_validator_id_in_txn. intros H. apply okrun_bind in H as (r & d1 & Hr & H).
  apply get_validator_id_with_status_run in Hr as [-> ->].
  apply okrun_bind in H as ([i b] & d2 & Hr & H). inv_run Hr. destruct b; inv_run H. done.
Qed.

Lemma select_blocks_run {E} `{FromSqlite E} id d rows d' :
  okrun (select_blocks id) d rows d' → d' = d ∧ rows = blocks_of id d.
Proof. unfold select_blocks. intros Hr. by inv_run Hr. Qed.

Lemma select_attestations_run {E} `{FromSqlite E} id d rows d' :
  okrun (select_attestations id) d rows d' → d' = d ∧ rows = attestations_of id d.
Proof. unfold select_attestations. intros Hr. by inv_run Hr. Qed.

Lemma elem_attestations_of r id d :
  r ∈ attestations_of id d ↔ r.(AttestationRow.validator_id) = id ∧ r ∈ d.(Db.signed_attestations).
Proof. unfold attestations_of. by rewrite list_elem_of_filter. Qed.

Lemma elem_blocks_of r id d :
  r ∈ blocks_of id d ↔ r.(BlockRow.validator_id) = id ∧ r ∈ d.(Db.signed_blocks).
Proof. unfold blocks_of. by rewrite list_elem_of_filter. Qed.

Lemma att_le_ext rows rows' : (∀ r, r ∈ rows' ↔ r ∈ rows) → att_le rows rows'.
Proof.
  intros Hext Hok. split; [intros a b ?%Hext ?%Hext; auto|].
  unfold covers. by setoid_rewrite Hext.
Qed.

Lemma block_le_ext rows rows' : (∀ r, r ∈ rows' ↔ r ∈ rows) → block_le rows rows'.
Proof. intros Hext s. unfold block_covers. by setoid_rewrite Hext. Qed.

(** A change of one table, at the rows of one validator. *)
Lemma db_le_attestations d l id :
  (∀ r, r.(AttestationRow.validator_id) ≠ id → r ∈ l ↔ r ∈ d.(Db.signed_attestations)) →
  att_le (attestations_of id d) (attestations_of id (Db.set_attestations l d)) →
  db_le d (Db.set_attestations l d).
Proof.
  intros Hother Hid. split; [by eauto| |intros i; reflexivity].
  intros i. destruct (decide (i = id)) as [->|Hne]; [done|].
  apply att_le_ext. intros r. rewrite !elem_attestations_of. simpl.
  split; intros [<- Hr]; (split; [done|]); by apply Hother.
Qed.

Lemma db_le_blocks d l id :
  (∀ r, r.(BlockRow.validator_id) ≠ id → r ∈ l ↔ r ∈ d.(Db.signed_blocks)) →
  block_le (blocks_of id d) (blocks_of id (Db.set_blocks l d)) →
  db_le d (Db.set_blocks l d).
Proof.
  intros Hother Hid. split; [by eauto|intros i; reflexivity|].
  intros i. destruct (decide (i = id)) as [->|Hne]; [done|].
  apply block_le_ext. intros r. rewrite !elem_blocks_of. simpl.
  split; intros [<- Hr]; (split; [done|]); by apply Hother.
Qed.

Lemma db_le_validators d l :
  (∀ pk id b, vid d pk = Some (id, b) → ∃ b', vid (Db.set_validators l d) pk = Some (id, b')) →
  db_le d (Db.set_validators l d).
Proof. intros Hv. split; [done|intros id; reflexivity..]. Qed.

(** *** Registration *)
Lemma vid_append d r pk id b :
  vid d pk = Some (id, b) → vid (Db.set_validators (d.(Db.validators) ++ [r]) d) pk = Some (id, b).
Proof.
  unfold vid. simpl. rewrite list.filter_app. by destruct (filter _ (Db.validators d)).
Qed.

Lemma vid_set_status d validator_id status pk :
  vid (Db.set_validators (map (fun r => if r.(ValidatorRow.id) =? validator_id
         then ValidatorRow.mk r.(ValidatorRow.id) r.(ValidatorRow.public_key) status else r)
       d.(Db.validators)) d) pk =
  (fun '(i, b) => (i, if i =? validator_id then status else b)) <$> vid d pk.
Proof.
  unfold vid. simpl. induction d.(Db.validators) as [|r l IH]; [done|].
  destruct r as [i k b]. cbn [map ValidatorRow.id ValidatorRow.public_key].
  destruct (decide (k = pk)) as [->|Hne].
  - destruct (i =? validator_id) eqn:Hi;
      rewrite !filter_cons_True by done; simpl; by rewrite Hi.
  - destruct (i =? validator_id); rewrite !filter_cons_False by done; done.
Qed.

Lemma update_validator_status_run validator_id status d u d' :
  okrun (update_validator_status validator_id status) d u d' →
  db_le d d' ∧ (∀ pk, vid d' pk =
    (fun '(i, b) => (i, if i =? validator_id then status else b)) <$> vid d pk) ∧
  d'.(Db.signed_blocks) = d.(Db.signed_blocks) ∧ d'.(Db.signed_attestations) = d.(Db.signed_attestations).
Proof.
  unfold update_validator_status. intros H. inv_run H.
  split; [|split; [intros pk; apply vid_set_status|done]].
  apply db_le_validators. intros pk id b Hv. rewrite vid_set_status, Hv. simpl. eauto.
Qed.

Lemma insert_validator_run pk d u d' :
  okrun (insert_validator pk) d u d' →
  vid d pk = None → db_le d d' ∧ (∃ i, vid d' pk = Some (i, true)) ∧
  d'.(Db.signed_blocks) = d.(Db.signed_blocks) ∧ d'.(Db.signed_attestations) = d.(Db.signed_attestations).
Proof.
  unfold insert_validator. intros H Hnone. inv_run H. split; [|split; [|done]].
  - apply db_le_validators. intros k id b Hv. exists b. by apply vid_append.
  - unfold vid in *. simpl. rewrite list.filter_app.
    destruct (filter _ (Db.validators d)); [|done]. simpl.
    rewrite filter_cons_True by done. simpl. eauto.
Qed.

Lemma register_validators_in_txn_run pks d u d' :
  okrun (register_validators_in_txn pks) d u d' →
  db_le d d' ∧ (∀ pk, pk ∈ pks → ∃ id b, vid d' pk = Some (id, b)) ∧
  d'.(Db.signed_blocks) = d.(Db.signed_blocks) ∧ d'.(Db.signed_attestations) = d.(Db.signed_attestations).
Proof.
  unfold register_validators_in_txn. intros H. apply okrun_bind in H as ([] & d1 & Hr & H). inv_run Hr.
  revert d H. induction pks as [|pk pks IH]; intros d H; simpl in H.
  { inv_run H. split; [reflexivity|]. split; [|done]. by intros pk ?%elem_of_nil. }
  apply okrun_bind in H as ([] & d1 & Hr & H).
  apply okrun_bind in Hr as (r & d2 & Hs & Hr). apply get_validator_id_with_status_run in Hs as [-> ->].
  assert (db_le d d1 ∧ (∃ id b, vid d1 pk = Some (id, b)) ∧ d1.(Db.signed_blocks) = d.(Db.signed_blocks) ∧
          d1.(Db.signed_attestations) = d.(Db.signed_attestations)) as (Hle & (id & b & Hid) & HB & HA).
  { destruct (vid d pk) as [[i [|]]|] eqn:Hv.
    - inv_run Hr. split; [reflexivity|]. eauto 6.
    - apply update_validator_status_run in Hr as (? & Hv' & ? & ?). rewrite Hv', Hv. simpl. eauto 6.
    - apply insert_validator_run in Hr as (? & [? ?] & ? & ?); eauto 6. }
  destruct (IH d1 H) as (Hle' & Hreg & HB' & HA').
  split; [by etrans|]. split; [|split; congruence].
  intros k [->|Hk]%elem_of_cons; [|auto].
  destruct (le_vid _ _ Hle' _ _ _ Hid) as [b' ?]. eauto.
Qed.

(** *** The checks *)
Lemma check_lower_bound_run id column bad error d u d' :
  okrun (check_lower_bound id column bad error) d u d' →
  d' = d ∧ ∀ r, r ∈ attestations_of id d → ∃ a, a ∈ attestations_of id d ∧ bad (column a) = false.
Proof.
  unfold check_lower_bound. intros H. apply okrun_bind in H as (rows & d1 & Hr & H).
  apply select_attestations_run in Hr as [-> ->].
  apply okrun_bind in H as (b & d1 & [Hb ->]%okrun_lift & H). apply from_sql_opt_Ok in Hb.
  destruct b as [m|].
  - destruct (bad m) eqn:Hbad; inv_run H. split; [done|]. intros r Hr.
    symmetry in Hb. apply min_of_Some in Hb as [(a & <- & Ha)%list_elem_of_In%in_map_iff _].
    exists a. rewrite list_elem_of_In. auto.
  - inv_run H. split; [done|]. symmetry in Hb. apply min_of_None, map_eq_nil in Hb as ->.
    by intros r ?%elem_of_nil.
Qed.

Lemma optional_None {E A B} (f : A → outcome E B) o : optional f o = Ok None → o = None.
Proof. intros [H _]%optional_Ok. by apply H. Qed.

(** An attestation accepted as new. *)
Definition accepts (d : Db.t) (id : Z) (m : Epoch * Epoch) : Prop :=
  m.1 ≤ m.2 ∧ (∀ r, r ∈ attestations_of id d → ¬ slashable (epochs_of r) m) ∧
  ∀ r, r ∈ attestations_of id d → (∃ a, a ∈ attestations_of id d ∧ (epochs_of a).1 ≤ m.1) ∧
                                  (∃ a, a ∈ attestations_of id d ∧ (epochs_of a).2 < m.2).

Lemma check_attestation_run pk s t root d safe d' :
  okrun (check_attestation pk s t root) d safe d' →
  d' = d ∧ ∃ id, vid d pk = Some (id, true) ∧ (safe = Safe.Valid → accepts d id (s, t)).
Proof.
  unfold check_attestation. destruct (t <? s) eqn:Hst; intros H; [by inv_run H|]. btoprop.
  apply okrun_bind in H as (id & d1 & Hr & H). apply get_validator_id_in_txn_run in Hr as [-> Hid].
  apply okrun_bind in H as (rows & d1 & Hr & H). apply select_attestations_run in Hr as [-> ->].
  apply okrun_bind in H as (x & d1 & [->%to_sql_Ok ->]%okrun_lift & H).
  apply okrun_bind in H as ([e|] & d1 & [Hx ->]%okrun_lift & H).
  { case_match; inv_run H. split; [done|]. by exists id. }
  apply optional_None, head_None in Hx.
  apply okrun_bind in H as (rows & d1 & Hr & H). apply select_attestations_run in Hr as [-> ->].
  apply okrun_bind in H as (x & d1 & [->%to_sql_Ok ->]%okrun_lift & H).
  apply okrun_bind in H as ([e|] & d1 & [Hy ->]%okrun_lift & H); [by inv_run H|].
  apply optional_None, top_target_None in Hy.
  apply okrun_bind in H as (rows & d1 & Hr & H). apply select_attestations_run in Hr as [-> ->].
  apply okrun_bind in H as ([e|] & d1 & [Hz ->]%okrun_lift & H); [by inv_run H|].
  apply optional_None, top_target_None in Hz.
  apply okrun_bind in H as (u & d1 & Hs & H). apply check_lower_bound_run in Hs as [-> Hs].
  apply okrun_bind in H as (u2 & d1 & Ht & H). apply check_lower_bound_run in Ht as [-> Ht].
  inv_run H. split; [done|]. exists id. split; [done|]. intros _. split; [done|].
  assert (∀ P `{∀ r, Decision (P r)} r, filter P (attestations_of id d) = [] → r ∈ attestations_of id d → ¬ P r)
    as Hnil.
  { intros P ? r Hf Hr Hp. apply (elem_of_nil r). rewrite <-Hf. by apply list_elem_of_filter. }
  split.
  - intros r Hr Hsl. pose proof (Hnil _ _ r Hx Hr). pose proof (Hnil _ _ r Hy Hr). pose proof (Hnil _ _ r Hz Hr).
    unfold slashable, epochs_of in Hsl. simpl in *. lia.
  - intros r Hr. destruct (Hs r Hr) as (a & Ha & Ha1). destruct (Ht r Hr) as (b & Hb & Hb1). btoprop. eauto 6.
Qed.

Lemma check_block_proposal_run pk slot root d safe d' :
  okrun (check_block_proposal pk slot root) d safe d' →
  d' = d ∧ ∃ id, vid d pk = Some (id, true) ∧
    (safe = Safe.Valid → (∀ r, r ∈ blocks_of id d → r.(BlockRow.slot) ≠ slot) ∧
       ∀ r, r ∈ blocks_of id d → ∃ a, a ∈ blocks_of id d ∧ a.(BlockRow.slot) < slot).
Proof.
  unfold check_block_proposal. intros H.
  apply okrun_bind in H as (id & d1 & Hr & H). apply get_validator_id_in_txn_run in Hr as [-> Hid].
  apply okrun_bind in H as (rows & d1 & Hr & H). apply select_blocks_run in Hr as [-> ->].
  apply okrun_bind in H as (x & d1 & [->%to_sql_Ok ->]%okrun_lift & H).
  apply okrun_bind in H as ([e|] & d1 & [Hx ->]%okrun_lift & H).
  { case_match; inv_run H. split; [done|]. by exists id. }
  apply optional_None, head_None in Hx.
  apply okrun_bind in H as (rows & d1 & Hr & H). apply select_blocks_run in Hr as [-> ->].
  apply okrun_bind in H as (b & d1 & [Hb ->]%okrun_lift & H). apply from_sql_opt_Ok in Hb. symmetry in Hb.
  assert (d' = d ∧ ∀ m, b = Some m → m < slot) as [-> Hm].
  { destruct b as [m|]; [|by inv_run H]. destruct (slot <=? m) eqn:Hle; inv_run H. btoprop.
    split; [done|]. by intros m' [= <-]. }
  split; [done|]. exists id. split; [done|]. intros _. split.
  - intros r Hr Hs. apply (elem_of_nil r). rewrite <-Hx. by apply list_elem_of_filter.
  - intros r Hr. destruct b as [m|].
    + apply min_of_Some in Hb as [(a & <- & Ha)%list_elem_of_In%in_map_iff _].
      exists a. rewrite list_elem_of_In. split; [done|]. by apply Hm.
    + apply min_of_None, map_eq_nil in Hb. rewrite Hb in Hr. by apply elem_of_nil in Hr.
Qed.

(** *** Insertion *)
Definition with_attestation (id : Z) (m : Epoch * Epoch) (root : Hash256) (d : Db.t) : Db.t :=
  Db.set_attestations (d.(Db.signed_attestations) ++ [AttestationRow.mk id m.1 m.2 root]) d.
Definition with_block (id : Z) (slot : Slot) (root : Hash256) (d : Db.t) : Db.t :=
  Db.set_blocks (d.(Db.signed_blocks) ++ [BlockRow.mk id slot root]) d.

Lemma insert_attestation_run pk s t root d u d' :
  okrun (insert_attestation pk s t root) d u d' →
  ∃ id, vid d pk = Some (id, true) ∧ d' = with_attestation id (s, t) root d.
Proof.
  unfold insert_attestation. intros H.
  apply okrun_bind in H as (id & d1 & Hr & H). apply get_validator_id_in_txn_run in Hr as [-> Hid].
  inv_run H. repeat match goal with H : to_sql _ = Ok _ |- _ => apply to_sql_Ok in H as -> end.
  exists id. done.
Qed.

Lemma insert_block_proposal_run pk slot root d u d' :
  okrun (insert_block_proposal pk slot root) d u d' →
  ∃ id, vid d pk = Some (id, true) ∧ d' = with_block id slot root d.
Proof.
  unfold insert_block_proposal. intros H.
  apply okrun_bind in H as (id & d1 & Hr & H). apply get_validator_id_in_txn_run in Hr as [-> Hid].
  inv_run H. repeat match goal with H : to_sql _ = Ok _ |- _ => apply to_sql_Ok in H as -> end.
  exists id. done.
Qed.

Lemma elem_with_attestation r i id m root d :
  r ∈ attestations_of i (with_attestation id m root d) ↔
  r ∈ attestations_of i d ∨ (i = id ∧ r = AttestationRow.mk id m.1 m.2 root).
Proof.
  rewrite !elem_attestations_of. simpl. rewrite elem_of_app, list_elem_of_singleton.
  split; [|intros [[<- ?]|[-> ->]]; simpl; auto]. intros [<- [?| ->]]; simpl; auto.
Qed.

Lemma elem_with_block r i id slot root d :
  r ∈ blocks_of i (with_block id slot root d) ↔
  r ∈ blocks_of i d ∨ (i = id ∧ r = BlockRow.mk id slot root).
Proof.
  rewrite !elem_blocks_of. simpl. rewrite elem_of_app, list_elem_of_singleton.
  split; [|intros [[<- ?]|[-> ->]]; simpl; auto]. intros [<- [?| ->]]; simpl; auto.
Qed.

Lemma with_attestation_le id m root d : accepts d id m → db_le d (with_attestation id m root d).
Proof.
  intros (Hst & Hns & Hmin). apply (db_le_attestations _ _ id).
  - intros r Hr. rewrite elem_of_app, list_elem_of_singleton. split; [|by left].
    intros [?| ->]; [done|by destruct Hr].
  - apply (att_le_insert _ _ (AttestationRow.mk id m.1 m.2 root)); [| |intros r Hr].
    + intros r. change (Db.set_attestations _ d) with (with_attestation id m root d).
      rewrite elem_with_attestation. naive_solver.
    + destruct m. apply Hns.
    + destruct (Hmin r Hr) as [H1 (a & Ha & Hlt)]. split; [done|]. exists a. split; [done|]. simpl in *. lia.
Qed.

Lemma with_block_le id slot root d :
  (∀ r, r ∈ blocks_of id d → ∃ a, a ∈ blocks_of id d ∧ a.(BlockRow.slot) < slot) →
  db_le d (with_block id slot root d).
Proof.
  intros Hmin. apply (db_le_blocks _ _ id).
  - intros r Hr. rewrite elem_of_app, list_elem_of_singleton. split; [|by left].
    intros [?| ->]; [done|by destruct Hr].
  - apply (block_le_insert _ _ (BlockRow.mk id slot root)); [|intros r Hr].
    + intros r. change (Db.set_blocks _ d) with (with_block id slot root d).
      rewrite elem_with_block. naive_solver.
    + destruct (Hmin r Hr) as (a & Ha & Hlt). exists a. simpl. split; [done|lia].
Qed.

(** *** Check and insert *)
Lemma check_and_insert_attestation_run pk s t root d safe d' :
  okrun (check_and_insert_attestation_signing_root_txn pk s t root) d safe d' →
  db_le d d' ∧ (safe = Safe.Valid →
    ∃ id, vid d pk = Some (id, true) ∧ accepts d id (s, t) ∧ d' = with_attestation id (s, t) root d).
Proof.
  unfold check_and_insert_attestation_signing_root_txn. intros H.
  apply okrun_bind in H as (x & d1 & Hr & H). apply check_attestation_run in Hr as [-> (id & Hid & Hok)].
  apply okrun_bind in H as (u & d1 & Hr & H). inv_run H. case_decide as Hs.
  - inv_run Hr. split; [reflexivity|]. congruence.
  - destruct x; [done|]. apply insert_attestation_run in Hr as (id' & Hid' & ->).
    rewrite Hid in Hid'. injection Hid' as <-. specialize (Hok eq_refl).
    split; [by apply with_attestation_le|]. eauto.
Qed.

Lemma check_and_insert_block_run pk slot root d safe d' :
  okrun (check_and_insert_block_signing_root_txn pk slot root) d safe d' →
  db_le d d' ∧ (safe = Safe.Valid →
    ∃ id, vid d pk = Some (id, true) ∧ (∀ s, block_covers (blocks_of id d) s → s ≠ slot) ∧
          d' = with_block id slot root d).
Proof.
  unfold check_and_insert_block_signing_root_txn. intros H.
  apply okrun_bind in H as (x & d1 & Hr & H). apply check_block_proposal_run in Hr as [-> (id & Hid & Hok)].
  apply okrun_bind in H as (u & d1 & Hr & H). inv_run H. case_decide as Hs.
  - inv_run Hr. split; [reflexivity|]. congruence.
  - destruct x; [done|]. apply insert_block_proposal_run in Hr as (id' & Hid' & ->).
    rewrite Hid in Hid'. injection Hid' as <-. destruct (Hok eq_refl) as [Hne Hmin].
    split; [by apply with_block_le|]. intros _. exists id. split; [done|]. split; [|done].
    intros s [(r & Hr & <-)|[[r Hr] Hall]]; [auto|].
    destruct (Hmin r Hr) as (a & Ha & Hlt). specialize (Hall a Ha). lia.
Qed.

(** Nothing covered conflicts with an accepted attestation. *)
Lemma accepts_covers d id m m' : accepts d id m → covers (attestations_of id d) m' → ¬ slashable m' m.
Proof.
  intros (Hst & Hns & Hmin) [(r & Hr & <-)|[[r Hr] Hall]]; [auto|].
  destruct (Hmin r Hr) as [(a & Ha & Ha1) (b & Hb & Hb2)].
  destruct (Hall a Ha), (Hall b Hb). unfold slashable. lia.
Qed.

(** *** Pruning *)
Lemma below_lt c m : below c m = true ↔ ∃ x, m = Some x ∧ c < x.
Proof.
  unfold below. destruct m as [x|]; split; [|intros (y & [= <-] & ?); by apply Z.ltb_lt|discriminate|by intros (y & ? & _)].
  intros H%Z.ltb_lt. eauto.
Qed.

Lemma prune_signed_attestations_run pk new_min d u d' :
  okrun (prune_signed_attestations pk new_min) d u d' → db_le d d'.
Proof.
  unfold prune_signed_attestations. intros H.
  apply okrun_bind in H as (id & d1 & Hr & H). apply get_validator_id_in_txn_run in Hr as [-> Hid].
  inv_run H. match goal with H : to_sql _ = Ok _ |- _ => apply to_sql_Ok in H as -> end.
  set (mx := max_of (map AttestationRow.target_epoch (attestations_of id d))).
  apply (db_le_attestations _ _ id).
  { intros r Hr. rewrite list_elem_of_filter. tauto. }
  assert (∀ r, r ∈ attestations_of id d →
    r ∈ attestations_of id (Db.set_attestations
      (filter (fun r => ¬ (r.(AttestationRow.validator_id) = id ∧ r.(AttestationRow.target_epoch) < new_min ∧
         below r.(AttestationRow.target_epoch) mx = true)) d.(Db.signed_attestations)) d) ↔
    ¬ (r.(AttestationRow.target_epoch) < new_min ∧ below r.(AttestationRow.target_epoch) mx = true)) as Hkeep.
  { intros r [Hv Hr]%elem_attestations_of. rewrite elem_attestations_of. simpl.
    rewrite list_elem_of_filter. tauto. }
  apply att_le_delete.
  - intros r. rewrite !elem_attestations_of. simpl. rewrite list_elem_of_filter. tauto.
  - intros p q Ha Hna Hb. rewrite Hkeep in Hna by done. apply dec_stable in Hna as [Ha1 (x & Hx & Hax)%below_lt].
    assert (q ∈ attestations_of id d) as Hb'.
    { apply elem_attestations_of in Hb as [? [_ ?]%list_elem_of_filter]. by apply elem_attestations_of. }
    apply Hkeep in Hb; [|done]. simpl. rewrite below_lt, Hx in Hb.
    destruct (Z.le_gt_cases q.(AttestationRow.target_epoch) p.(AttestationRow.target_epoch)); [|lia].
    destruct Hb. split; [lia|]. exists x. split; [done|lia].
  - intros p Ha. destruct mx as [x|] eqn:Hx; unfold mx in Hx.
    + apply max_of_Some in Hx as [(q & <- & Hb)%list_elem_of_In%in_map_iff _].
      apply list_elem_of_In in Hb. exists q. apply Hkeep; [done|]. intros [_ Hlt]. simpl in Hlt. btoprop. lia.
    + apply max_of_None, map_eq_nil in Hx. rewrite Hx in Ha. by apply elem_of_nil in Ha.
Qed.

Lemma prune_signed_blocks_run pk new_min d u d' :
  okrun (prune_signed_blocks pk new_min) d u d' → db_le d d'.
Proof.
  unfold prune_signed_blocks. intros H.
  apply okrun_bind in H as (id & d1 & Hr & H). apply get_validator_id_in_txn_run in Hr as [-> Hid].
  inv_run H. match goal with H : to_sql _ = Ok _ |- _ => apply to_sql_Ok in H as -> end.
  set (mx := max_of (map BlockRow.slot (blocks_of id d))).
  apply (db_le_blocks _ _ id).
  { intros r Hr. rewrite list_elem_of_filter. tauto. }
  assert (∀ r, r ∈ blocks_of id d →
    r ∈ blocks_of id (Db.set_blocks
      (filter (fun r => ¬ (r.(BlockRow.validator_id) = id ∧ r.(BlockRow.slot) < new_min ∧
         below r.(BlockRow.slot) mx = true)) d.(Db.signed_blocks)) d) ↔
    ¬ (r.(BlockRow.slot) < new_min ∧ below r.(BlockRow.slot) mx = true)) as Hkeep.
  { intros r [Hv Hr]%elem_blocks_of. rewrite elem_blocks_of. simpl. rewrite list_elem_of_filter. tauto. }
  apply block_le_delete.
  - intros r. rewrite !elem_blocks_of. simpl. rewrite list_elem_of_filter. tauto.
  - intros p q Ha Hna Hb. rewrite Hkeep in Hna by done. apply dec_stable in Hna as [Ha1 (x & Hx & Hax)%below_lt].
    assert (q ∈ blocks_of id d) as Hb'.
    { apply elem_blocks_of in Hb as [? [_ ?]%list_elem_of_filter]. by apply elem_blocks_of. }
    apply Hkeep in Hb; [|done]. rewrite below_lt, Hx in Hb.
    destruct (Z.le_gt_cases q.(BlockRow.slot) p.(BlockRow.slot)); [|lia].
    destruct Hb. split; [lia|]. exists x. split; [done|lia].
  - intros p Ha. destruct mx as [x|] eqn:Hx; unfold mx in Hx.
    + apply max_of_Some in Hx as [(q & <- & Hb)%list_elem_of_In%in_map_iff _].
      apply list_elem_of_In in Hb. exists q. apply Hkeep; [done|]. intros [_ Hlt]. simpl in Hlt. btoprop. lia.
    + apply max_of_None, map_eq_nil in Hx. rewrite Hx in Ha. by apply elem_of_nil in Ha.
Qed.

(** *** Import *)
Definition summary_of (d : Db.t) (id : Z) : ValidatorSummary.t :=
  let slots := map BlockRow.slot (blocks_of id d) in
  let sources := map AttestationRow.source_epoch (attestations_of id d) in
  let targets := map AttestationRow.target_epoch (attestations_of id d) in
  ValidatorSummary.mk (min_of slots) (max_of slots) (min_of sources) (min_of targets)
    (max_of sources) (max_of targets).

Lemma validator_summary_run pk d x d' :
  okrun (validator_summary pk) d x d' → d' = d ∧ ∃ id, vid d pk = Some (id, true) ∧ x = summary_of d id.
Proof.
  unfold validator_summary. intros H.
  apply okrun_bind in H as (id & d1 & Hr & H). apply get_validator_id_in_txn_run in Hr as [-> Hid].
  apply okrun_bind in H as (bs & d1 & Hr & H). apply select_blocks_run in Hr as [-> ->].
  apply okrun_bind in H as (x1 & d1 & [->%from_sql_opt_Ok ->]%okrun_lift & H).
  apply okrun_bind in H as (x2 & d1 & [->%from_sql_opt_Ok ->]%okrun_lift & H).
  apply okrun_bind in H as (rs & d1 & Hr & H). apply select_attestations_run in Hr as [-> ->].
  apply okrun_bind in H as (x3 & d1 & [->%from_sql_opt_Ok ->]%okrun_lift & H).
  apply okrun_bind in H as (x4 & d1 & [->%from_sql_opt_Ok ->]%okrun_lift & H).
  apply okrun_bind in H as (x5 & d1 & [->%from_sql_opt_Ok ->]%okrun_lift & H).
  apply okrun_bind in H as (x6 & d1 & [->%from_sql_opt_Ok ->]%okrun_lift & H).
  inv_run H. eauto.
Qed.

(** A column's maximum, or a larger value, bounds the column. *)
Lemma max_or_column {A} (f : A → Z) (l : list A) y r : r ∈ l → f r ≤ max_or (max_of (map f l)) y.
Proof.
  intros Hr. assert (f r ∈ map f l) as Hf by (apply list_elem_of_In, in_map, list_elem_of_In, Hr).
  destruct (max_of (map f l)) as [m|] eqn:Hm.
  - destruct (max_or_ge (Some m) y) as [H _]. etrans; [|by apply H]. by apply max_of_Some in Hm as [_ Hm]; auto.
  - apply max_of_None in Hm. rewrite Hm in Hf. by apply elem_of_nil in Hf.
Qed.

(** Clearing the attestations of a validator and inserting one that is not
    before any of them. *)
Lemma replace_attestations_run pk s t root d id u d' :
  okrun (clear_signed_attestations pk ;; insert_attestation pk s t root) d u d' →
  vid d pk = Some (id, true) →
  (∀ r, r ∈ attestations_of id d → (epochs_of r).1 ≤ s ∧ (epochs_of r).2 ≤ t) →
  db_le d d' ∧ (∀ i, blocks_of i d' = blocks_of i d) ∧
  (∀ r, r ∈ attestations_of id d' ↔ r = AttestationRow.mk id s t root) ∧ vid d' = vid d.
Proof.
  intros H Hid Hle. apply okrun_bind in H as (u1 & d1 & Hr & H).
  unfold clear_signed_attestations in Hr. apply okrun_bind in Hr as (i & d2 & Hi & Hr).
  apply get_validator_id_in_txn_run in Hi as [-> Hi]. rewrite Hid in Hi. injection Hi as <-. inv_run Hr.
  apply insert_attestation_run in H as (i & Hi & ->). change (vid _ pk) with (vid d pk) in Hi.
  rewrite Hid in Hi. injection Hi as <-.
  set (d1 := Db.set_attestations (filter _ d.(Db.signed_attestations)) d).
  assert (∀ r, r ∈ attestations_of id (with_attestation id (s, t) root d1) ↔ r = AttestationRow.mk id s t root)
    as Honly.
  { intros r. rewrite elem_with_attestation. split; [|auto]. intros [H|[_ ->]]; [|done].
    apply elem_attestations_of in H as [Hv [Hne _]%list_elem_of_filter]. done. }
  split; [|done]. apply (db_le_attestations d (d1.(Db.signed_attestations) ++ [AttestationRow.mk id s t root]) id).
  - intros r Hr. simpl. rewrite elem_of_app, list_elem_of_singleton, list_elem_of_filter. naive_solver.
  - by apply (att_le_replace _ _ (AttestationRow.mk id s t root)).
Qed.

Lemma replace_blocks_run pk slot root d id u d' :
  okrun (clear_signed_blocks pk ;; insert_block_proposal pk slot root) d u d' →
  vid d pk = Some (id, true) → (∀ r, r ∈ blocks_of id d → r.(BlockRow.slot) ≤ slot) →
  db_le d d' ∧ (∀ i, attestations_of i d' = attestations_of i d) ∧
  (∀ r, r ∈ blocks_of id d' ↔ r = BlockRow.mk id slot root) ∧ vid d' = vid d.
Proof.
  intros H Hid Hle. apply okrun_bind in H as (u1 & d1 & Hr & H).
  unfold clear_signed_blocks in Hr. apply okrun_bind in Hr as (i & d2 & Hi & Hr).
  apply get_validator_id_in_txn_run in Hi as [-> Hi]. rewrite Hid in Hi. injection Hi as <-. inv_run Hr.
  apply insert_block_proposal_run in H as (i & Hi & ->). change (vid _ pk) with (vid d pk) in Hi.
  rewrite Hid in Hi. injection Hi as <-.
  set (d1 := Db.set_blocks (filter _ d.(Db.signed_blocks)) d).
  assert (∀ r, r ∈ blocks_of id (with_block id slot root d1) ↔ r = BlockRow.mk id slot root) as Honly.
  { intros r. rewrite elem_with_block. split; [|auto]. intros [H|[_ ->]]; [|done].
    apply elem_blocks_of in H as [Hv [Hne _]%list_elem_of_filter]. done. }
  split; [|done]. apply (db_le_blocks d (d1.(Db.signed_blocks) ++ [BlockRow.mk id slot root]) id).
  - intros r Hr. simpl. rewrite elem_of_app, list_elem_of_singleton, list_elem_of_filter. naive_solver.
  - by apply (block_le_replace _ _ (BlockRow.mk id slot root)).
Qed.

(** What an imported record leaves covered: every message not later than one of
    its own. *)
Record imported (x : InterchangeData.t) (d : Db.t) (id : Z) : Prop := {
  imported_atts : ∀ a m, a ∈ x.(InterchangeData.signed_attestations) →
    m.1 ≤ a.(InterchangeAttestation.source_epoch) → m.2 ≤ a.(InterchangeAttestation.target_epoch) →
    covers (attestations_of id d) m;
  imported_blocks : ∀ b slot, b ∈ x.(InterchangeData.signed_blocks) → slot ≤ b.(InterchangeBlock.slot) →
    block_covers (blocks_of id d) slot;
}.

Lemma max_of_map {A} (f : A → Z) l m x : max_of (map f l) = Some m → x ∈ l → f x ≤ m.
Proof. intros [_ Hm]%max_of_Some Hx. apply Hm, list_elem_of_In, in_map, list_elem_of_In, Hx. Qed.

Lemma max_of_map_nil {A} (f : A → Z) l x : max_of (map f l) = None → x ∉ l.
Proof. intros ->%max_of_None%map_eq_nil. apply not_elem_of_nil. Qed.

Lemma import_blocks_run pk blocks d id u d' :
  okrun (match max_of (map InterchangeBlock.slot blocks) with
    | Some max_slot =>
        clear_signed_blocks pk ;;
        insert_block_proposal pk (max_or (summary_of d id).(ValidatorSummary.max_block_slot) max_slot) hash_zero
    | None => mret tt
    end) d u d' →
  vid d pk = Some (id, true) →
  db_le d d' ∧ vid d' = vid d ∧ (∀ i, attestations_of i d' = attestations_of i d) ∧
  ∀ b slot, b ∈ blocks → slot ≤ b.(InterchangeBlock.slot) → block_covers (blocks_of id d') slot.
Proof.
  intros H Hid. destruct (max_of _) as [m|] eqn:Hm.
  - apply (replace_blocks_run _ _ _ _ id) in H as (Hle & HA & Honly & Hv); [|done|].
    + split; [done|]. split; [done|]. split; [done|]. intros b slot Hb Hs. right.
      split; [eexists; by apply Honly|]. intros r ->%Honly. simpl.
      apply (max_of_map _ _ _ b) in Hm; [|done].
      pose proof (proj2 (max_or_ge (max_of (map BlockRow.slot (blocks_of id d))) m)). lia.
    + intros r Hr. by apply (max_or_column BlockRow.slot).
  - inv_run H. split; [reflexivity|]. split; [done|]. split; [done|].
    intros b slot Hb. by destruct (max_of_map_nil _ _ b Hm).
Qed.

Lemma import_attestations_run pk atts d id u d' :
  okrun (match max_of (map InterchangeAttestation.source_epoch atts),
               max_of (map InterchangeAttestation.target_epoch atts) with
    | Some max_source, Some max_target =>
        clear_signed_attestations pk ;;
        insert_attestation pk
          (max_or (max_of (map AttestationRow.source_epoch (attestations_of id d))) max_source)
          (max_or (max_of (map AttestationRow.target_epoch (attestations_of id d))) max_target) hash_zero
    | _, _ => mret tt
    end) d u d' →
  vid d pk = Some (id, true) →
  db_le d d' ∧ vid d' = vid d ∧ (∀ i, blocks_of i d' = blocks_of i d) ∧
  ∀ a m, a ∈ atts → m.1 ≤ a.(InterchangeAttestation.source_epoch) →
    m.2 ≤ a.(InterchangeAttestation.target_epoch) → covers (attestations_of id d') m.
Proof.
  intros H Hid. destruct (max_of (map InterchangeAttestation.source_epoch _)) as [ms|] eqn:Hs;
    [destruct (max_of (map InterchangeAttestation.target_epoch _)) as [mt|] eqn:Ht|].
  - apply (replace_attestations_run _ _ _ _ _ id) in H as (Hle & HB & Honly & Hv); [|done|].
    + split; [done|]. split; [done|]. split; [done|]. intros a m Ha H1 H2. right.
      split; [eexists; by apply Honly|]. intros r ->%Honly. simpl.
      apply (max_of_map _ _ _ a) in Hs; [|done]. apply (max_of_map _ _ _ a) in Ht; [|done].
      pose proof (proj2 (max_or_ge (max_of (map AttestationRow.source_epoch (attestations_of id d))) ms)).
      pose proof (proj2 (max_or_ge (max_of (map AttestationRow.target_epoch (attestations_of id d))) mt)). lia.
    + intros r Hr. split; [by apply (max_or_column AttestationRow.source_epoch)|
        by apply (max_or_column AttestationRow.target_epoch)].
  - inv_run H. split; [reflexivity|]. split; [done|]. split; [done|].
    intros a m Ha. by destruct (max_of_map_nil _ _ a Ht).
  - inv_run H. split; [reflexivity|]. split; [done|]. split; [done|].
    intros a m Ha. by destruct (max_of_map_nil _ _ a Hs).
Qed.

Lemma import_interchange_record_run x d y d' :
  okrun (import_interchange_record x) d y d' →
  db_le d d' ∧ ∃ id b, vid d' x.(InterchangeData.pubkey) = Some (id, b) ∧ imported x d' id.
Proof.
  unfold import_interchange_record. intros H.
  apply okrun_bind in H as (u & d1 & Hr & H). apply register_validators_in_txn_run in Hr as (Hle & _ & _ & _).
  apply okrun_bind in H as (prev & d2 & Hr & H). apply validator_summary_run in Hr as [-> (id & Hid & ->)].
  apply okrun_bind in H as (u1 & d2 & Hr & H).
  apply (import_blocks_run _ _ _ id) in Hr as (Hle1 & Hv1 & HA & HB); [|done].
  apply okrun_bind in H as (u2 & d3 & Hr & H). simpl in Hr. rewrite <-(HA id) in Hr.
  apply (import_attestations_run _ _ _ id) in Hr as (Hle2 & Hv2 & HB' & HA'); [|by rewrite Hv1].
  apply okrun_bind in H as (z & d4 & Hr & H). apply validator_summary_run in Hr as [-> _].
  destruct (_ && _); inv_run H. split; [by do 2 (etrans; [done|])|].
  exists id, true. rewrite Hv2, Hv1. split; [done|]. split; [done|].
  intros b slot. rewrite HB'. apply HB.
Qed.
