(* ===== verification/SlashingSafety.v ===== *)
(** * No validator is made to sign a slashable message

    The history of a validator store: any sequence of its signing and
    maintenance methods, with any failures of SQLite and any changes of the keys
    in between.  A message it signs never conflicts with one it signed or
    received through an interchange file before, and a key can be moved to
    another store. *)
From S2P Require Import Prelude SlotEpoch ProtoArrayDefs ForkSchedule SlashingDefs DoppelgangerDefs.
From S2P Require Import ValidatorStoreDefs SlashingCorrect.

(** ** Messages *)
Inductive message : Type :=
  | Att (pk : PublicKeyBytes) (epochs : Epoch * Epoch)
  | Blk (pk : PublicKeyBytes) (slot : Slot).

Definition key_of (m : message) : PublicKeyBytes := match m with Att pk _ | Blk pk _ => pk end.

(** Both messages signed by one key would get it slashed. *)
Definition conflict (m m' : message) : Prop :=
  match m, m' with
  | Att pk e, Att pk' e' => pk = pk' ∧ slashable e e'
  | Blk pk s, Blk pk' s' => pk = pk' ∧ s = s'
  | _, _ => False
  end.

Definition covered (d : Db.t) (m : message) : Prop :=
  ∃ id b, vid d (key_of m) = Some (id, b) ∧
    match m with
    | Att _ e => covers (attestations_of id d) e
    | Blk _ s => block_covers (blocks_of id d) s
    end.

Definition db_ok (d : Db.t) : Prop := ∀ id, rows_ok (attestations_of id d).

Lemma db_ok_create : db_ok Db.create.
Proof. intros id a b []%elem_of_nil. Qed.

Lemma db_le_ok d d' : db_le d d' → db_ok d → db_ok d'.
Proof. intros Hle Hok id. by apply (le_atts _ _ Hle). Qed.

Lemma db_le_covered d d' m : db_le d d' → db_ok d → covered d m → covered d' m.
Proof.
  intros Hle Hok (id & b & Hv & Hc). destruct (le_vid _ _ Hle _ _ _ Hv) as [b' Hv'].
  exists id, b'. split; [done|]. destruct m.
  - by apply (le_atts _ _ Hle id (Hok id)).
  - by apply (le_blocks _ _ Hle id).
Qed.

(** ** The interchange *)
Lemma db_le_imported x d d' id : db_le d d' → db_ok d → imported x d id → imported x d' id.
Proof.
  intros Hle Hok [HA HB]. split.
  - intros a m Ha H1 H2. apply (le_atts _ _ Hle id (Hok id)). eauto.
  - intros b s Hb Hs. apply (le_blocks _ _ Hle id). eauto.
Qed.

Definition record_in (x : InterchangeData.t) (d : Db.t) : Prop :=
  ∃ id b, vid d x.(InterchangeData.pubkey) = Some (id, b) ∧ imported x d id.

Lemma db_le_record x d d' : db_le d d' → db_ok d → record_in x d → record_in x d'.
Proof.
  intros Hle Hok (id & b & Hv & Hi). destruct (le_vid _ _ Hle _ _ _ Hv) as [b' Hv'].
  exists id, b'. split; [done|]. by eapply db_le_imported.
Qed.

Lemma import_records_run records outcomes commit d o d' :
  okrun (import_records records outcomes commit) d (o, true) d' → db_ok d →
  commit = true ∧ db_le d d' ∧ ∀ x, x ∈ records → record_in x d'.
Proof.
  revert outcomes commit d. induction records as [|x records IH]; intros outs c d H Hok.
  - apply okrun_ret in H as [[= _ ->] ->]. split; [done|]. split; [reflexivity|]. by intros x ?%elem_of_nil.
  - destruct H as (fs & fs' & H). simpl in H.
    destruct (import_interchange_record x _) as [[y|e| |] [d1 fs1]] eqn:Hx; try discriminate.
    + assert (okrun (import_interchange_record x) d y d1) as [Hle Hin]%import_interchange_record_run
        by (by eexists _, _).
      destruct (IH _ _ d1 ltac:(by eexists _, _) (db_le_ok _ _ Hle Hok)) as (-> & Hle' & Hall).
      split; [done|]. split; [by etrans|]. intros z [->|Hz]%elem_of_cons; [|auto].
      by apply (db_le_record _ d1); [|eapply db_le_ok|].
    + (* a failed record forbids the commit *)
      exfalso. clear Hx. revert H. generalize (outs ++ [InterchangeImportOutcome.Failure x.(InterchangeData.pubkey) e]).
      revert d1 fs1. clear IH. induction records as [|z records IH]; intros d1 fs1 l H; simpl in H; [discriminate|].
      destruct (import_interchange_record z _) as [[y|e'| |] [d2 fs2]]; try discriminate; by eapply IH.
Qed.

Lemma import_interchange_info_run i gvr s o s' :
  import_interchange_info i gvr s = (Ok o, s') → db_ok s.(Sql.db) →
  db_le s.(Sql.db) s'.(Sql.db) ∧ ∀ x, x ∈ i.(Interchange.data) → record_in x s'.(Sql.db).
Proof.
  unfold import_interchange_info. destruct (negb _); [discriminate|]. destruct (negb _); [discriminate|].
  intros H%transaction_okrun Hok. apply okrun_bind in H as ([o' c] & d1 & Hr & H).
  destruct c; inv_run H. by apply import_records_run in Hr as (_ & ? & ?).
Qed.

Lemma import_interchange_info_db_le i gvr s r s' :
  import_interchange_info i gvr s = (r, s') → db_ok s.(Sql.db) → db_le s.(Sql.db) s'.(Sql.db).
Proof.
  intros H Hok. destruct r as [o|e| |]; [by apply import_interchange_info_run in H as [? _]|..].
  all: unfold import_interchange_info in H; do 2 (destruct (negb _); [unfold throw in H; by simplify_eq|]);
    apply transaction_rollback in H as ->; done.
Qed.

Lemma order_by_elem {A} (key : A → Z * Z) (l : list A) x : x ∈ order_by key l ↔ x ∈ l.
Proof.
  assert (∀ y k, x ∈ insert_by key y k ↔ x ∈ y :: k) as Hins.
  { intros y k. induction k as [|z k IH]; simpl; [done|]. case_match; [done|].
    rewrite elem_of_cons, IH, !elem_of_cons. tauto. }
  induction l as [|y l IH]; simpl; [done|]. by rewrite Hins, !elem_of_cons, IH.
Qed.

Lemma traverse_run {E A B} (f : A → M Sql.t E B) (P : A → B → Prop) l d ys d' :
  (∀ x y d1, x ∈ l → okrun (f x) d y d1 → d1 = d ∧ P x y) →
  okrun (traverse f l) d ys d' → d' = d ∧ Forall2 P l ys.
Proof.
  revert ys. induction l as [|x l IH]; intros ys Hf H; simpl in H; [by inv_run H|].
  apply okrun_bind in H as (y & d1 & Hr & H). apply Hf in Hr as [-> HP]; [|by left].
  apply okrun_bind in H as (ys' & d1 & Hr & H). inv_run H.
  destruct (IH ys') as [-> HF]; [|done|by auto]. intros; apply Hf; [by right|done].
Qed.

(** A record holds every message stored for its key. *)
Definition exported (d : Db.t) (id : Z) (x : InterchangeData.t) : Prop :=
  (∀ r, r ∈ attestations_of id d → ∃ a, a ∈ x.(InterchangeData.signed_attestations) ∧
     a.(InterchangeAttestation.source_epoch) = r.(AttestationRow.source_epoch) ∧
     a.(InterchangeAttestation.target_epoch) = r.(AttestationRow.target_epoch)) ∧
  (∀ r, r ∈ blocks_of id d → ∃ b, b ∈ x.(InterchangeData.signed_blocks) ∧
     b.(InterchangeBlock.slot) = r.(BlockRow.slot)).

Lemma Forall2_elem {A B} (P : A → B → Prop) l k x : Forall2 P l k → x ∈ l → ∃ y, y ∈ k ∧ P x y.
Proof.
  induction 1 as [|a b l k HP _ IH]; [by intros ?%elem_of_nil|].
  intros [->|Hx]%elem_of_cons; [exists b; split; [left|done]|].
  destruct (IH Hx) as (y & ? & ?). exists y. split; [by right|done].
Qed.

Lemma export_blocks_run id d bs d' :
  okrun (export_interchange_blocks_for_validator id) d bs d' →
  d' = d ∧ ∀ r, r ∈ blocks_of id d → ∃ b, b ∈ bs ∧ b.(InterchangeBlock.slot) = r.(BlockRow.slot).
Proof.
  unfold export_interchange_blocks_for_validator. intros H.
  apply okrun_bind in H as (rows & d1 & Hr & H). apply select_blocks_run in Hr as [-> ->].
  apply (traverse_run _ (fun r b => b.(InterchangeBlock.slot) = r.(BlockRow.slot))) in H as [-> HF].
  - split; [done|]. intros r Hr.
    destruct (Forall2_elem _ _ _ r HF) as (b & Hb & Hs); [by apply order_by_elem|]. eauto.
  - intros r b d1 _ Hr. inv_run Hr. split; [done|]. by eapply from_sql_Ok.
Qed.

Lemma export_attestations_run id d xs d' :
  okrun (export_interchange_attestations_for_validator id) d xs d' →
  d' = d ∧ ∀ r, r ∈ attestations_of id d → ∃ a, a ∈ xs ∧
    a.(InterchangeAttestation.source_epoch) = r.(AttestationRow.source_epoch) ∧
    a.(InterchangeAttestation.target_epoch) = r.(AttestationRow.target_epoch).
Proof.
  unfold export_interchange_attestations_for_validator. intros H.
  apply okrun_bind in H as (rows & d1 & Hr & H). apply select_attestations_run in Hr as [-> ->].
  apply (traverse_run _ (fun r a =>
    a.(InterchangeAttestation.source_epoch) = r.(AttestationRow.source_epoch) ∧
    a.(InterchangeAttestation.target_epoch) = r.(AttestationRow.target_epoch))) in H as [-> HF].
  - split; [done|]. intros r Hr.
    destruct (Forall2_elem _ _ _ r HF) as (a & Ha & Hs); [by apply order_by_elem|]. eauto.
  - intros r a d1 _ Hr. inv_run Hr. split; [done|]. split; by eapply from_sql_Ok.
Qed.

Lemma or_not_safe_run {A} (m : SqlM A) d a d' : okrun (or_not_safe m) d a d' → okrun m d a d'.
Proof.
  intros (fs & fs' & H). unfold or_not_safe in H. destruct (m _) as [[z|e| |] s] eqn:Hm; try discriminate.
  injection H as -> ->. by eexists _, _.
Qed.

Lemma get_validator_id_ignoring_status_run pk d id d' :
  okrun (get_validator_id_ignoring_status pk) d id d' → d' = d ∧ ∃ b, vid d pk = Some (id, b).
Proof.
  unfold get_validator_id_ignoring_status. intros H. apply okrun_bind in H as (r & d1 & Hr & H).
  apply get_validator_id_with_status_run in Hr as [-> ->].
  apply okrun_bind in H as ([i b] & d1 & Ho & H). inv_run Ho. inv_run H. eauto.
Qed.

Lemma export_run gvr pks d i d' :
  okrun (export_interchange_info_in_txn gvr (Some pks)) d i d' →
  d' = d ∧ i.(Interchange.metadata).(InterchangeMetadata.genesis_validators_root) = gvr ∧
  (∀ pk, pk ∈ pks ↔ ∃ x, x ∈ i.(Interchange.data) ∧ x.(InterchangeData.pubkey) = pk) ∧
  ∀ x, x ∈ i.(Interchange.data) →
    ∃ id b, vid d x.(InterchangeData.pubkey) = Some (id, b) ∧ exported d id x.
Proof.
  unfold export_interchange_info_in_txn. intros H. apply okrun_bind in H as (ids & d1 & Hr & H).
  apply (traverse_run _ (fun pk '(id, pk') => pk' = pk ∧ ∃ b, vid d pk = Some (id, b))) in Hr as [-> Hids].
  2:{ intros pk [id pk'] d2 _ Hq. apply okrun_bind in Hq as (id0 & d3 & Hg & Hq). inv_run Hq.
      apply or_not_safe_run, get_validator_id_ignoring_status_run in Hg as [-> Hb]. by simplify_eq. }
  apply okrun_bind in H as (data & d1 & Hr & H). inv_run H.
  apply (traverse_run _ (fun '(id, pk) x => x.(InterchangeData.pubkey) = pk ∧ exported d id x)) in Hr as [-> Hdata].
  2:{ intros [id pk] x d2 _ Hq. apply okrun_bind in Hq as (bs & d3 & Hb%export_blocks_run & Hq).
      destruct Hb as [-> Hb]. apply okrun_bind in Hq as (xs & d3 & Ha%export_attestations_run & Hq).
      destruct Ha as [-> Ha]. inv_run Hq. done. }
  split; [done|]. split; [done|]. simpl. split.
  - intros pk. split.
    + intros Hpk. apply (Forall2_elem _ _ _ _ Hids) in Hpk as ([id pk'] & Hin & -> & _).
      apply (Forall2_elem _ _ _ _ Hdata) in Hin as (x & Hx & <- & _). eauto.
    + intros (x & Hx & <-). apply Forall2_flip in Hdata, Hids.
      apply (Forall2_elem _ _ _ _ Hdata) in Hx as ([id pk'] & Hin & -> & _).
      by apply (Forall2_elem _ _ _ _ Hids) in Hin as (pk & Hpk & -> & _).
  - intros x Hx. apply Forall2_flip in Hdata, Hids.
    apply (Forall2_elem _ _ _ _ Hdata) in Hx as ([id pk] & Hin & -> & Hex).
    apply (Forall2_elem _ _ _ _ Hids) in Hin as (pk' & _ & -> & b & Hv). eauto.
Qed.

Lemma sqlite_keeps {E} (e : E) d : keeps (fun s => s.(Sql.db) = d) (sqlite e).
Proof. intros [d' fs] Hd. unfold sqlite. simpl in *. by destruct fs as [|[] fs]. Qed.
#[local] Hint Resolve sqlite_keeps : keeps.

Lemma get_validator_id_ignoring_status_keeps d pk :
  keeps (fun s => s.(Sql.db) = d) (get_validator_id_ignoring_status pk).
Proof.
  unfold get_validator_id_ignoring_status, get_validator_id_with_status, statement. keeps_steps.
Qed.

Lemma disable_known_run pks d known d' :
  okrun (disable_known pks) d known d' →
  db_le d d' ∧ (∀ pk, pk ∈ known → ∃ id, vid d' pk = Some (id, false)) ∧
  (∀ pk id, vid d pk = Some (id, false) → vid d' pk = Some (id, false)) ∧
  d'.(Db.signed_blocks) = d.(Db.signed_blocks) ∧ d'.(Db.signed_attestations) = d.(Db.signed_attestations).
Proof.
  revert d known. induction pks as [|pk pks IH]; intros d known (fs & fs' & H); simpl in H.
  { injection H as <- <- <-. split; [reflexivity|]. split; [by intros ? ?%elem_of_nil|done]. }
  destruct (get_validator_id_ignoring_status pk _) as [[z|e| |] [d1 fs1]] eqn:Hg; try discriminate.
  - assert (d1 = d ∧ ∃ b, vid d pk = Some (z, b)) as [-> [b Hv]].
    { apply get_validator_id_ignoring_status_run. by eexists _, _. }
    assert (okrun (or_not_safe (update_validator_status z false) ;; rest ← disable_known pks; mret (pk :: rest))
      d known d') as H' by (by eexists _, _). clear H.
    apply okrun_bind in H' as (u & d2 & Hu & H').
    apply or_not_safe_run, update_validator_status_run in Hu as (Hle & Hst & HB & HA).
    apply okrun_bind in H' as (rest & d3 & Hr & H'). inv_run H'.
    destruct (IH _ _ Hr) as (Hle' & Hk & Hkeep & HB' & HA').
    split; [by etrans|]. split; [|split; [|split; congruence]].
    + intros k [->|Hin]%elem_of_cons; [|auto]. exists z. apply Hkeep. rewrite Hst, Hv. simpl.
      by rewrite Z.eqb_refl.
    + intros k id Hk'. apply Hkeep. rewrite Hst, Hk'. simpl. by destruct (id =? z).
  - assert (d1 = d) as ->.
    { pose proof (get_validator_id_ignoring_status_keeps d pk (Sql.mk d fs) eq_refl) as Hk. by rewrite Hg in Hk. }
    apply (IH d known). by eexists _, _.
Qed.

(** ** The validator store *)
Abbreviation db_of s := (s.(ValidatorStore.slashing_protection).(Sql.db)).

(** Signatures of this key pass through the local database. *)
Definition protected (s : ValidatorStore.t) (pk : PublicKeyBytes) : bool :=
  match s.(ValidatorStore.validators) !! pk with
  | Some m => SigningMethod.requires_local_slashing_protection m
                s.(ValidatorStore.enable_web3signer_slashing_protection)
  | None => false
  end.

(** The signing method was asked for a signature: a result, or an error after the
    checks. *)
Definition released {A} (r : outcome SignError.t A) : bool :=
  match r with
  | Ok _ | Err SignError.SpecificError | Err (SignError.UnableToSignAttestation _) => true
  | _ => false
  end.

Lemma with_transaction_le {A} (m : SqlM A) s r s' :
  with_transaction m s = (r, s') →
  (∀ d a d', okrun m d a d' → db_le d d') → db_le s.(Sql.db) s'.(Sql.db).
Proof.
  intros H Hm. destruct r as [a|e| |]; [by apply transaction_okrun in H; eauto|..].
  all: apply transaction_rollback in H; [by rewrite H|done].
Qed.

Section store.
Variables (slots_per_epoch : Z) (compute_domain : Domain.t → Z → Hash256 → Hash256).
Variables (attestation_signing_root : AttestationData.t → Hash256 → Hash256).
Variables (header_signing_root : BeaconBlockHeader.t → Hash256 → Hash256).

Abbreviation sign_attestation' := (sign_attestation compute_domain attestation_signing_root).
Abbreviation sign_block' := (sign_abstract_block slots_per_epoch compute_domain header_signing_root).

Definition epochs (a : Attestation.t) : Epoch * Epoch :=
  (a.(Attestation.data).(AttestationData.source).(Checkpoint.epoch),
   a.(Attestation.data).(AttestationData.target).(Checkpoint.epoch)).

Lemma checked_method s pk m :
  doppelganger_checked_signing_method s pk = Ok m →
  s.(ValidatorStore.validators) !! pk = Some m ∧ doppelganger_protection_allows_signing s pk = true.
Proof.
  unfold doppelganger_checked_signing_method. case_match; [|done].
  destruct (_ !! pk); simpl; [|done]. by intros [= ->].
Qed.

(** The part the two signing methods share: the signing method, the database,
    then [fin]. *)
Definition guarded_sign {A} (s : ValidatorStore.t) (pk : PublicKeyBytes) (txn : SqlM Safe.t)
    (fin : SigningMethod.t → StoreM SignError.t A) : StoreM SignError.t A :=
  method ← lift (doppelganger_checked_signing_method s pk);
  status ←
    (if SigningMethod.requires_local_slashing_protection method
          s.(ValidatorStore.enable_web3signer_slashing_protection)
     then on_sql (with_transaction txn) else mret (Ok Safe.Valid));
  on_slashing_status status (fin method).

Lemma guarded_sign_run {A} s pk txn (fin : SigningMethod.t → StoreM SignError.t A) r s' :
  guarded_sign s pk txn fin s = (r, s') →
  (∀ m s1, (fin m s1).2 = s1) → (∀ d a d', okrun txn d a d' → db_le d d') →
  db_le (db_of s) (db_of s') ∧
  (released r = true → doppelganger_protection_allows_signing s pk = true ∧
   (protected s pk = true → okrun txn (db_of s) Safe.Valid (db_of s'))).
Proof.
  unfold guarded_sign, mbind, M_bind, lift. intros H Hfin Htxn.
  destruct (doppelganger_checked_signing_method s pk) as [m|e| |] eqn:Hm; cycle 1.
  1-3: injection H as <- <-; split; [reflexivity|]; unfold doppelganger_checked_signing_method in Hm;
    repeat (case_match; simplify_eq/=; try done); by destruct (_ !! pk); simplify_eq/=.
  destruct (checked_method _ _ _ Hm) as [Hpk Hdg].
  destruct (SigningMethod.requires_local_slashing_protection _ _) eqn:Hreq; simpl in H.
  - unfold on_sql in H. destruct (with_transaction txn _) as [status sql] eqn:Hsql.
    pose proof (with_transaction_le _ _ _ _ Hsql Htxn) as Hle.
    destruct status as [[|]|e| |]; simpl in H; [by injection H as <- <-| |by injection H as <- <-..].
    assert (s' = ValidatorStore.set_sql sql s) as -> by (pose proof (Hfin m) as Hs; rewrite <-Hs, H; done).
    split; [done|]. intros _. split; [done|]. intros _. by apply transaction_okrun in Hsql.
  - assert (s' = s) as -> by (pose proof (Hfin m s) as Hs; by rewrite H in Hs).
    split; [reflexivity|]. intros _. split; [done|]. unfold protected. by rewrite Hpk, Hreq.
Qed.

(** A request to sign leaves the database at least as strong, and a signature is
    released only if the database accepted the message as new. *)
Lemma sign_attestation_run pk pos att now sign s r s' :
  sign_attestation' pk pos att now sign s = (r, s') →
  db_le (db_of s) (db_of s') ∧
  (released r = true → doppelganger_protection_allows_signing s pk = true ∧
   (protected s pk = true → ∃ root,
      okrun (check_and_insert_attestation_signing_root_txn pk (epochs att).1 (epochs att).2 root)
        (db_of s) Safe.Valid (db_of s'))).
Proof.
  unfold sign_attestation. destruct (_ <? _); [intros [= <- <-]; split; [reflexivity|done]|].
  intros H. eapply guarded_sign_run in H as [Hle Hrel].
  - split; [done|]. intros Hr. destruct (Hrel Hr) as [? Hrun]. split; [done|]. intros Hp.
    eexists. by apply Hrun.
  - intros m s1. unfold mbind, M_bind, lift. destruct (ok_or _ _); try done.
    by destruct (add_signature _ _ _) as [[] ?].
  - by intros d a d' [? _]%check_and_insert_attestation_run.
Qed.

Lemma sign_block_run pk header now sign s r s' :
  sign_block' pk header now sign s = (r, s') →
  db_le (db_of s) (db_of s') ∧
  (released r = true → doppelganger_protection_allows_signing s pk = true ∧
   (protected s pk = true → ∃ root,
      okrun (check_and_insert_block_signing_root_txn pk header.(BeaconBlockHeader.slot) root)
        (db_of s) Safe.Valid (db_of s'))).
Proof.
  unfold sign_abstract_block. destruct (_ <? _); [intros [= <- <-]; split; [reflexivity|done]|].
  intros H. eapply guarded_sign_run in H as [Hle Hrel].
  - split; [done|]. intros Hr. destruct (Hrel Hr) as [? Hrun]. split; [done|]. intros Hp.
    eexists. by apply Hrun.
  - intros m s1. unfold mbind, M_bind, lift. by destruct (ok_or _ _).
  - by intros d a d' [? _]%check_and_insert_block_run.
Qed.

(** ** Histories *)
Inductive event : Type :=
  | Signed (m : message)
  | Received (m : message).
Definition message_of (e : event) : message := match e with Signed m | Received m => m end.

(** The messages of an interchange file. *)
Definition received (i : Interchange.t) : list event :=
  x ← i.(Interchange.data);
  map (fun a => Received (Att x.(InterchangeData.pubkey)
         (a.(InterchangeAttestation.source_epoch), a.(InterchangeAttestation.target_epoch))))
      x.(InterchangeData.signed_attestations) ++
  map (fun b => Received (Blk x.(InterchangeData.pubkey) b.(InterchangeBlock.slot)))
      x.(InterchangeData.signed_blocks).

Definition signed (s : ValidatorStore.t) (m : message) (released : bool) : list event :=
  if released && protected s (key_of m) then [Signed m] else [].

(** One call of a method of the store, or a change of what surrounds it: keys are
    added and removed, doppelganger detection goes on, SQLite is about to fail
    or not. *)
Inductive store_step : ValidatorStore.t → list event → ValidatorStore.t → Prop :=
  | step_sign_block pk header now sign s r s' :
      sign_block' pk header now sign s = (r, s') →
      store_step s (signed s (Blk pk header.(BeaconBlockHeader.slot)) (released r)) s'
  | step_sign_attestation pk pos att now sign s r s' :
      sign_attestation' pk pos att now sign s = (r, s') →
      store_step s (signed s (Att pk (epochs att)) (released r)) s'
  | step_prune e s r s' :
      prune_slashing_protection_db slots_per_epoch e s = (r, s') → store_step s [] s'
  | step_import i s r s' :
      import_slashing_protection i s = (r, s') →
      store_step s (match r with Ok _ => received i | _ => [] end) s'
  | step_export pks s r s' :
      export_slashing_protection_for_keys pks s = (r, s') → store_step s [] s'
  | step_add_validator pk method now genesis s r s' :
      add_validator slots_per_epoch pk method now genesis s = (r, s') → store_step s [] s'
  | step_environment s s' : db_of s' = db_of s → store_step s [] s'.

Inductive history : ValidatorStore.t → list event → ValidatorStore.t → Prop :=
  | history_nil s : history s [] s
  | history_step s1 evs s2 evs' s3 :
      history s1 evs s2 → store_step s2 evs' s3 → history s1 (evs ++ evs') s3.

(** The simulation: every message of the history is covered. *)
Record protects (evs : list event) (s : ValidatorStore.t) : Prop := {
  protects_db : db_ok (db_of s);
  protects_covered : ∀ e, e ∈ evs → covered (db_of s) (message_of e);
}.

Lemma protects_le evs s s' : protects evs s → db_le (db_of s) (db_of s') → protects evs s'.
Proof.
  intros [Hok Hc] Hle. split; [by eapply db_le_ok|]. intros e He. eapply db_le_covered; eauto.
Qed.

Lemma protects_app evs evs' s :
  protects evs s → (∀ e, e ∈ evs' → covered (db_of s) (message_of e)) → protects (evs ++ evs') s.
Proof. intros [Hok Hc] Hc'. split; [done|]. intros e [?|?]%elem_of_app; auto. Qed.

(** A message the store signs is covered afterwards, and conflicts with nothing
    covered before. *)
Lemma sign_attestation_protects pk pos att now sign s r s' evs :
  sign_attestation' pk pos att now sign s = (r, s') → protects evs s →
  let evs' := signed s (Att pk (epochs att)) (released r) in
  protects (evs ++ evs') s' ∧ ∀ e, e ∈ evs' → ∀ m, covered (db_of s) m → ¬ conflict m (message_of e).
Proof.
  intros [Hle Hrel]%sign_attestation_run HP evs'. subst evs'. unfold signed. simpl.
  destruct (released r) eqn:Hr, (protected s pk) eqn:Hp; simpl;
    try (rewrite app_nil_r; split; [by eapply protects_le|by intros ? ?%elem_of_nil]).
  destruct (proj2 (Hrel eq_refl) eq_refl) as [root Hrun].
  apply check_and_insert_attestation_run in Hrun as [_ Hrun]. destruct (Hrun eq_refl) as (id & Hid & Hacc & Hd).
  split.
  - apply protects_app; [by eapply protects_le|]. intros e ->%list_elem_of_singleton. simpl.
    rewrite Hd. exists id, true. split; [done|]. left.
    eexists. rewrite elem_with_attestation. split; [by right|done].
  - intros e ->%list_elem_of_singleton [pk' m|] (id' & b & Hid' & Hc); simpl in *; [|by auto].
    intros [-> Hsl]. rewrite Hid in Hid'. injection Hid' as <- <-.
    eapply accepts_covers; [apply Hacc|exact Hc|exact Hsl].
Qed.

Lemma sign_block_protects pk header now sign s r s' evs :
  sign_block' pk header now sign s = (r, s') → protects evs s →
  let evs' := signed s (Blk pk header.(BeaconBlockHeader.slot)) (released r) in
  protects (evs ++ evs') s' ∧ ∀ e, e ∈ evs' → ∀ m, covered (db_of s) m → ¬ conflict m (message_of e).
Proof.
  intros [Hle Hrel]%sign_block_run HP evs'. subst evs'. unfold signed. simpl.
  destruct (released r) eqn:Hr, (protected s pk) eqn:Hp; simpl;
    try (rewrite app_nil_r; split; [by eapply protects_le|by intros ? ?%elem_of_nil]).
  destruct (proj2 (Hrel eq_refl) eq_refl) as [root Hrun].
  apply check_and_insert_block_run in Hrun as [_ Hrun]. destruct (Hrun eq_refl) as (id & Hid & Hacc & Hd).
  split.
  - apply protects_app; [by eapply protects_le|]. intros e ->%list_elem_of_singleton. simpl.
    rewrite Hd. exists id, true. split; [done|]. left.
    eexists. rewrite elem_with_block. split; [by right|done].
  - intros e ->%list_elem_of_singleton [|pk' m] (id' & b & Hid' & Hc); simpl in *; [by auto|].
    intros [-> Hsl]. rewrite Hid in Hid'. injection Hid' as <- <-. by apply (Hacc m).
Qed.

Lemma import_protects i s r s' evs :
  import_slashing_protection i s = (r, s') → protects evs s →
  protects (evs ++ match r with Ok _ => received i | _ => [] end) s'.
Proof.
  unfold import_slashing_protection, mbind, M_bind, get, lift, on_sql. intros H HP.
  destruct (import_interchange_info i _ _) as [q sql] eqn:Hi.
  pose proof (import_interchange_info_db_le _ _ _ _ _ Hi (protects_db _ _ HP)) as Hle.
  assert (protects evs (ValidatorStore.set_sql sql s)) as HP' by (by eapply protects_le).
  destruct q as [o|e| |]; injection H as <- <-; [|by rewrite app_nil_r..].
  apply protects_app; [done|].
  apply import_interchange_info_run in Hi as [_ Hrec]; [|by destruct HP]. intros e He.
  apply list_elem_of_bind in He as (x & He & Hx). destruct (Hrec x Hx) as (id & b & Hv & [HA HB]).
  apply elem_of_app in He as [(a & -> & Ha)%list_elem_of_fmap|(a & -> & Ha)%list_elem_of_fmap];
    exists id, b; (split; [done|]); simpl; [eapply HA|eapply HB]; eauto; simpl; lia.
Qed.

(** The other methods only strengthen the database. *)
Lemma prune_le e s r s' :
  prune_slashing_protection_db slots_per_epoch e s = (r, s') → db_le (db_of s) (db_of s').
Proof.
  unfold prune_slashing_protection_db, mbind, M_bind, get, on_sql. cbv beta iota.
  destruct (_ <=? _); [by intros [= <- <-]|]. simpl.
  destruct (prune_all_signed_attestations _ _ _) as [r1 sql1] eqn:H1.
  apply with_transaction_le in H1; [|by intros d [] d'; apply okrun_for_each; [apply _|];
    intros; eapply prune_signed_attestations_run].
  destruct r1; [|by intros [= <- <-]..]. simpl.
  destruct (prune_all_signed_blocks _ _ _) as [r2 sql2] eqn:H2.
  apply with_transaction_le in H2; [|by intros d [] d'; apply okrun_for_each; [apply _|];
    intros; eapply prune_signed_blocks_run].
  destruct r2; intros [= <- <-]; simpl in *; by etrans.
Qed.

Lemma export_store_run pks s i s' :
  export_slashing_protection_for_keys pks s = (Ok i, s') →
  ∃ d1 known, okrun (disable_known pks) (db_of s) known d1 ∧
    okrun (export_interchange_info_in_txn s.(ValidatorStore.genesis_validators_root) (Some known))
      d1 i (db_of s') ∧ s'.(ValidatorStore.genesis_validators_root) = s.(ValidatorStore.genesis_validators_root).
Proof.
  unfold export_slashing_protection_for_keys. unfold mbind at 1, M_bind at 1, get.
  unfold mbind at 1, M_bind at 1, on_sql, lift. destruct (transaction _ _ _ _) as [q sql] eqn:Hq.
  intros [= -> <-]. apply transaction_okrun, okrun_bind in Hq as (known & d1 & ? & ?). eauto 6.
Qed.

Lemma export_le pks s r s' :
  export_slashing_protection_for_keys pks s = (r, s') → db_le (db_of s) (db_of s').
Proof.
  destruct r as [i|e| |].
  1:{ intros (d1 & known & Hd & He & _)%export_store_run. apply disable_known_run in Hd as [? _].
      by apply export_run in He as [-> _]. }
  all: unfold export_slashing_protection_for_keys; unfold mbind at 1, M_bind at 1, get;
    unfold mbind at 1, M_bind at 1, on_sql, lift; destruct (transaction _ _ _ _) as [q sql] eqn:Hq;
    intros [= -> <-]; apply transaction_rollback in Hq; [simpl; by rewrite Hq|done].
Qed.

Lemma add_validator_le pk method now genesis s r s' :
  add_validator slots_per_epoch pk method now genesis s = (r, s') → db_le (db_of s) (db_of s').
Proof.
  unfold add_validator. unfold mbind at 1, M_bind at 1, on_sql.
  destruct (register_validator pk _) as [q sql] eqn:Hq.
  apply with_transaction_le in Hq; [|by intros d [] d' [? _]%register_validators_in_txn_run].
  intros H. change (db_of s) with (db_of s) in Hq.
  assert (db_of s' = sql.(Sql.db)) as ->; [|done].
  assert (keeps (fun s => db_of s = sql.(Sql.db)) (lift (E:=AddValidatorError) (map_err FailedToRegister q) ;;
    (s ← get;
     match s.(ValidatorStore.doppelganger_service) with
     | None => mret tt
     | Some service =>
        let '(r, service') := register_new_validator slots_per_epoch pk now genesis service in
        modify (ValidatorStore.set_doppelganger (Some service')) ;;
        lift (map_err DoppelgangerFailed r)
     end ;;
     modify (fun s => ValidatorStore.set_validators (<[pk := method]> s.(ValidatorStore.validators)) s)))) as Hk.
  { keeps_steps; by apply keeps_modify. }
  specialize (Hk (ValidatorStore.set_sql sql s) eq_refl). by rewrite H in Hk.
Qed.

(** One step keeps the simulation and signs nothing that conflicts. *)
Lemma store_step_protects evs s evs' s' :
  protects evs s → store_step s evs' s' →
  protects (evs ++ evs') s' ∧
  ∀ evs1 m evs2, evs' = evs1 ++ Signed m :: evs2 → ∀ e, e ∈ evs ++ evs1 → ¬ conflict (message_of e) m.
Proof.
  intros HP Hstep.
  assert (∀ m b evs1 m' evs2, signed s m b = evs1 ++ Signed m' :: evs2 →
    evs1 = [] ∧ signed s m b = [Signed m] ∧ m' = m) as Hone.
  { intros m b evs1 m' evs2. unfold signed. destruct (b && _); [|by destruct evs1].
    destruct evs1 as [|? []]; simpl; [|discriminate..]. by intros [= <- _]. }
  destruct Hstep as [pk h now sg s r s' H|pk pos att now sg s r s' H|e s r s' H|i s r s' H|pks s r s' H|
    pk me now g s r s' H|s s' H].
  - destruct (sign_block_protects _ _ _ _ _ _ _ evs H HP) as [HP' Hno]. split; [done|].
    intros evs1 m evs2 Hev e. destruct (Hone _ _ _ _ _ Hev) as (-> & Hs & ->). rewrite app_nil_r. intros He.
    apply (Hno (Signed (Blk pk h.(BeaconBlockHeader.slot)))); [rewrite Hs; by left|by apply HP].
  - destruct (sign_attestation_protects _ _ _ _ _ _ _ _ evs H HP) as [HP' Hno]. split; [done|].
    intros evs1 m evs2 Hev e. destruct (Hone _ _ _ _ _ Hev) as (-> & Hs & ->). rewrite app_nil_r. intros He.
    apply (Hno (Signed (Att pk (epochs att)))); [rewrite Hs; by left|by apply HP].
  - split; [rewrite app_nil_r; eapply protects_le, prune_le, H; done|]. by intros [].
  - split; [by apply (import_protects i s)|]. intros evs1 m evs2 Hev. exfalso.
    assert (Signed m ∈ received i) as Hin.
    { destruct r; [rewrite Hev; set_solver|by destruct evs1..]. }
    apply list_elem_of_bind in Hin as (x & He & _).
    by apply elem_of_app in He as [(a & [=] & Ha)%list_elem_of_fmap|(a & [=] & Ha)%list_elem_of_fmap].
  - split; [rewrite app_nil_r; eapply protects_le, export_le, H; done|]. by intros [].
  - split; [rewrite app_nil_r; eapply protects_le, add_validator_le, H; done|]. by intros [].
  - split; [rewrite app_nil_r; eapply protects_le; [done|]; by rewrite H|]. by intros [].
Qed.

Lemma app_split {A} (l1 l2 k1 k2 : list A) x :
  l1 ++ l2 = k1 ++ x :: k2 →
  (∃ k, l1 = k1 ++ x :: k) ∨ (∃ l, k1 = l1 ++ l ∧ l2 = l ++ x :: k2).
Proof.
  revert k1. induction l1 as [|y l1 IH]; intros k1 H; simpl in H; [right; by exists k1|].
  destruct k1 as [|z k1]; simpl in H; injection H as -> H; [left; by eexists|].
  destruct (IH k1 H) as [[k ->]|(l & -> & ->)]; [left; by exists k|right; by exists l].
Qed.

Lemma history_protects evs0 s0 evs s :
  protects evs0 s0 → history s0 evs s →
  protects (evs0 ++ evs) s ∧
  ∀ evs1 m evs2, evs = evs1 ++ Signed m :: evs2 → ∀ e, e ∈ evs0 ++ evs1 → ¬ conflict (message_of e) m.
Proof.
  intros HP. induction 1 as [s|s1 evs s2 evs' s3 _ IH Hstep].
  - rewrite app_nil_r. split; [done|]. by intros [].
  - destruct (IH HP) as [HP2 Hno].
    destruct (store_step_protects _ _ _ _ HP2 Hstep) as [HP3 Hno3].
    split; [by rewrite app_assoc|]. intros evs1 m evs2 [[k ->]|(l & -> & ->)]%app_split e He.
    + by apply (Hno _ _ _ eq_refl).
    + apply (Hno3 _ _ _ eq_refl). by rewrite <-app_assoc.
Qed.

Lemma protects_fresh s : db_of s = Db.create → protects [] s.
Proof. intros Hs. split; [rewrite Hs; apply db_ok_create|]. by intros e ?%elem_of_nil. Qed.

(** A store that holds an imported record covers what the exporting store did. *)
Lemma transfer_covered d x id b d' m :
  vid d x.(InterchangeData.pubkey) = Some (id, b) → exported d id x → record_in x d' →
  key_of m = x.(InterchangeData.pubkey) → covered d m → covered d' m.
Proof.
  intros Hv [HA HB] (id' & b' & Hv' & [HA' HB']) Hk (i & bi & Hvi & Hc).
  rewrite Hk, Hv in Hvi. injection Hvi as <- <-. exists id', b'. rewrite Hk. split; [done|].
  destruct m as [pk e|pk s].
  - destruct Hc as [(r & Hr & <-)|[[r Hr] Hall]]; destruct (HA r Hr) as (a & Ha & Hs & Ht);
      apply (HA' a); try done; simpl; rewrite ?Hs, ?Ht; try lia; by apply (Hall r Hr).
  - destruct Hc as [(r & Hr & <-)|[[r Hr] Hall]]; destruct (HB r Hr) as (a & Ha & Hs);
      apply (HB' a); try done; simpl; rewrite ?Hs; try lia; by apply (Hall r Hr).
Qed.

Lemma import_store_run i s s' x :
  import_slashing_protection i s = (Ok tt, s') → db_ok (db_of s) → x ∈ i.(Interchange.data) →
  record_in x (db_of s').
Proof.
  unfold import_slashing_protection, mbind, M_bind, get, lift, on_sql. intros H Hok Hx.
  destruct (import_interchange_info i _ _) as [q sql] eqn:Hi.
  destruct q; [|discriminate..]. injection H as <-.
  apply import_interchange_info_run in Hi as [_ Hrec]; [|done]. by apply Hrec.
Qed.

(** C5. The store signs nothing slashable.  Start from an empty database and run
    any sequence of the store's methods, with SQLite failing at any statements
    and keys and doppelganger states changing in between.  No message released
    for signing conflicts with one released earlier for the same key, nor with
    one received earlier through an imported interchange file: no double block
    proposal, no double vote, no surround vote. *)
Theorem store_signs_nothing_slashable s0 evs s evs1 m evs2 :
  db_of s0 = Db.create → history s0 evs s → evs = evs1 ++ Signed m :: evs2 →
  ∀ e, e ∈ evs1 → ¬ conflict (message_of e) m.
Proof.
  intros H0 Hh Hev. destruct (history_protects _ _ _ _ (protects_fresh _ H0) Hh) as [_ Hno].
  by apply (Hno _ _ _ Hev).
Qed.

End store.

(** ** Witnesses *)
Definition ex_evs : list event := [Signed (Att 7 (0, 1)); Signed (Blk 7 9); Signed (Att 7 (1, 2))].
Definition ex_s1 : ValidatorStore.t := (add_validator 8 7 SigningMethod.LocalKeystore None 0 (ex_store None)).2.
Definition ex_s2 : ValidatorStore.t := (ex_sign_attestation 7 0 1 ex_s1).2.
Definition ex_s3 : ValidatorStore.t := (ex_sign_block 7 9 ex_s2).2.
Definition ex_s4 : ValidatorStore.t := (ex_sign_attestation 7 1 2 ex_s3).2.

(** Add a key, sign an attestation, a block and another attestation. *)
Lemma ex_history :
  history 8 ex_domain ex_attestation_root ex_header_root (ex_store None) ex_evs ex_s4.
Proof.
  change ex_evs with ((([] ++ []) ++ [Signed (Att 7 (0, 1))]) ++ [Signed (Blk 7 9)] ++ [Signed (Att 7 (1, 2))]).
  rewrite app_assoc.
  eapply history_step; [eapply history_step; [eapply history_step; [eapply history_step; [apply history_nil|]|]|]|].
  - apply (step_add_validator _ _ _ _ 7 SigningMethod.LocalKeystore None 0 _ (add_validator 8 7 SigningMethod.LocalKeystore None 0 (ex_store None)).1 ex_s1).
    apply surjective_pairing.
  - apply (step_sign_attestation _ _ _ _ 7 0 (ex_attestation 0 1) 100 ex_signature ex_s1
      (ex_sign_attestation 7 0 1 ex_s1).1 ex_s2). apply surjective_pairing.
  - apply (step_sign_block _ _ _ _ 7 (ex_header 9) 100 ex_signature ex_s2 (ex_sign_block 7 9 ex_s2).1 ex_s3).
    apply surjective_pairing.
  - apply (step_sign_attestation _ _ _ _ 7 0 (ex_attestation 1 2) 100 ex_signature ex_s3
      (ex_sign_attestation 7 1 2 ex_s3).1 ex_s4). apply surjective_pairing.
Qed.

Lemma store_signs_nothing_slashable_witness :
  ¬ conflict (Att 7 (0, 1)) (Att 7 (1, 2)) ∧ ex_evs !! 2%nat = Some (Signed (Att 7 (1, 2))).
Proof.
  split; [|reflexivity].
  apply (store_signs_nothing_slashable 8 ex_domain ex_attestation_root ex_header_root (ex_store None) ex_evs ex_s4
    [Signed (Att 7 (0, 1)); Signed (Blk 7 9)] (Att 7 (1, 2)) [] eq_refl ex_history eq_refl (Signed (Att 7 (0, 1)))).
  left.
Defined.

(** Key 7 moves to a second store, which goes on to sign. *)
Definition ex_export : outcome InterchangeError.t Interchange.t * ValidatorStore.t :=
  export_slashing_protection_for_keys [7] ex_s4.
Definition ex_file : Interchange.t :=
  match ex_export.1 with Ok i => i | _ => Interchange.mk (InterchangeMetadata.mk 0 0) [] end.
Definition ex_record : InterchangeData.t :=
  default (InterchangeData.mk 0 [] []) (head ex_file.(Interchange.data)).
Definition ex_b1 : ValidatorStore.t := (import_slashing_protection ex_file (ex_store None)).2.
Definition ex_b2 : ValidatorStore.t := (add_validator 8 7 SigningMethod.LocalKeystore None 0 ex_b1).2.
Definition ex_b3 : ValidatorStore.t := (ex_sign_attestation 7 2 3 ex_b2).2.

Lemma ex_history_b :
  history 8 ex_domain ex_attestation_root ex_header_root ex_b1 [Signed (Att 7 (2, 3))] ex_b3.
Proof.
  change [Signed (Att 7 (2, 3))] with (([] ++ []) ++ [Signed (Att 7 (2, 3))]).
  eapply history_step; [eapply history_step; [apply history_nil|]|].
  - apply (step_add_validator _ _ _ _ 7 SigningMethod.LocalKeystore None 0 _
      (add_validator 8 7 SigningMethod.LocalKeystore None 0 ex_b1).1 ex_b2). apply surjective_pairing.
  - apply (step_sign_attestation _ _ _ _ 7 0 (ex_attestation 2 3) 100 ex_signature ex_b2
      (ex_sign_attestation 7 2 3 ex_b2).1 ex_b3). apply surjective_pairing.
Qed.

Lemma ex_export_eq : export_slashing_protection_for_keys [7] ex_s4 = (Ok ex_file, ex_export.2).
Proof. vm_compute. reflexivity. Qed.
Lemma ex_import_eq : import_slashing_protection ex_file (ex_store None) = (Ok tt, ex_b1).
Proof. vm_compute. reflexivity. Qed.
Lemma ex_record_in : ex_record ∈ ex_file.(Interchange.data) ∧ ex_record.(InterchangeData.pubkey) = 7.
Proof. split; [vm_compute; left|vm_compute; reflexivity]. Qed.
Lemma ex_protected : protected ex_export.2 ex_record.(InterchangeData.pubkey) = true.
Proof. vm_compute. reflexivity. Qed.

