(* ===== verification/SlashingComplete.v ===== *)
(** * The exact answers of the slashing-protection database

    While SQLite does not fail, the database accepts exactly the attestations
    that are compatible with what it stores and not before its lower bounds, and
    an import fails only for SQL errors. *)
From S2P Require Import Prelude SlotEpoch ProtoArrayDefs SlashingDefs SlashingCorrect.

(** What [INSERT] keeps true: epochs read back as they were stored. *)
Definition atts_in_range (rows : list AttestationRow.t) : Prop :=
  ∀ r, r ∈ rows → 0 ≤ r.(AttestationRow.source_epoch) ∧ 0 ≤ r.(AttestationRow.target_epoch).

Lemma filter_nil_intro {A} (P : A → Prop) `{∀ x, Decision (P x)} (l : list A) :
  (∀ x, x ∈ l → ¬ P x) → filter P l = [].
Proof.
  intros Hl. destruct (filter P l) as [|x l'] eqn:Hf; [done|]. exfalso.
  assert (x ∈ filter P l) as [Hp Hx]%list_elem_of_filter by (rewrite Hf; left). by apply (Hl x).
Qed.

Lemma top_target_elem l r : top_target l = Some r → r ∈ l.
Proof.
  revert r. induction l as [|a l IH]; intros r; simpl; [done|].
  destruct (top_target l) as [b|]; [|by intros [= ->]; left].
  case_match; intros [= ->]; [right; auto|left].
Qed.

Lemma from_sql_eq x : 0 ≤ x → from_sql (E:=NotSafe.t) x = Ok x.
Proof. intros Hx. unfold from_sql. by rewrite (proj2 (Z.leb_le 0 x) Hx). Qed.

Lemma to_sql_eq x : x ≤ i64_max → to_sql (E:=NotSafe.t) x = Ok x.
Proof. intros Hx. unfold to_sql. by rewrite (proj2 (Z.leb_le x i64_max) Hx). Qed.

Lemma from_sql_opt_eq o : (∀ x, o = Some x → 0 ≤ x) → from_sql_opt (E:=NotSafe.t) o = Ok o.
Proof.
  destruct o as [x|]; [|done]. intros Hx. unfold from_sql_opt. by rewrite from_sql_eq by auto.
Qed.

Lemma optional_row_eq rows o :
  atts_in_range rows → (∀ r, o = Some r → r ∈ rows) →
  optional (attestation_from_row (E:=NotSafe.t)) o =
  Ok ((fun r => SignedAttestation.mk r.(AttestationRow.source_epoch) r.(AttestationRow.target_epoch)
                  r.(AttestationRow.signing_root)) <$> o).
Proof.
  intros Hr Ho. destruct o as [r|]; [|done]. destruct (Hr r) as [H1 H2]; [by apply Ho|].
  simpl. unfold attestation_from_row. by rewrite !from_sql_eq.
Qed.

Lemma map_elem {A} (f : A → Z) (l : list A) x : x ∈ map f l ↔ ∃ a, a ∈ l ∧ f a = x.
Proof.
  rewrite list_elem_of_In, in_map_iff. setoid_rewrite <-list_elem_of_In. naive_solver.
Qed.

Section no_failures.
Variables (d : Db.t) (pk : PublicKeyBytes) (id : Z).
Hypothesis Hid : vid d pk = Some (id, true).
Hypothesis Hrange : atts_in_range (attestations_of id d).
Abbreviation S0 := (Sql.mk d []).
Abbreviation rows := (attestations_of id d).

Lemma get_validator_id_eq : get_validator_id_in_txn pk S0 = (Ok id, S0).
Proof using Hid.
  unfold get_validator_id_in_txn, get_validator_id_with_status, mbind, M_bind, lift. simpl.
  unfold vid in Hid. by rewrite Hid.
Qed.

Lemma select_eq : select_attestations (E:=NotSafe.t) id S0 = (Ok rows, S0).
Proof. reflexivity. Qed.

(** A lower bound: an error, or every row has one it respects. *)
Lemma check_lower_bound_eq column bad error :
  (∀ r, r ∈ rows → 0 ≤ column r) →
  (∃ b, check_lower_bound id column bad error S0 = (Err (NotSafe.InvalidAttestation (error b)), S0) ∧
        bad b = true ∧ (∃ r, r ∈ rows) ∧ ∀ r, r ∈ rows → b ≤ column r) ∨
  check_lower_bound id column bad error S0 = (Ok tt, S0).
Proof.
  intros Hpos. unfold check_lower_bound. rewrite (bind_ok_eq _ _ _ _ _ select_eq).
  assert (from_sql_opt (E:=NotSafe.t) (min_of (map column rows)) = Ok (min_of (map column rows))) as Hb.
  { apply from_sql_opt_eq. intros x [(a & Ha & <-)%map_elem _]%min_of_Some. auto. }
  rewrite Hb. unfold mbind, M_bind, lift. destruct (min_of (map column rows)) as [b|] eqn:Hm; [|by right].
  apply min_of_Some in Hm as [(a & Ha & Hab)%map_elem Hmin].
  destruct (bad b) eqn:Hbad; [left|by right].
  exists b. split; [done|]. split; [done|]. split; [eauto|]. intros r Hr. apply Hmin, map_elem. eauto.
Qed.

(** The possible answers to an attestation. *)
Inductive answer (m : Epoch * Epoch) (root : Hash256) : outcome NotSafe.t Safe.t → Db.t → Prop :=
  | answer_valid : accepts d id m → answer m root (Ok Safe.Valid) (with_attestation id m root d)
  | answer_same r :
      r ∈ rows → (epochs_of r).2 = m.2 → r.(AttestationRow.signing_root) = root → root ≠ hash_zero →
      answer m root (Ok Safe.SameData) d
  | answer_refused e : ¬ accepts d id m → answer m root (Err (NotSafe.InvalidAttestation e)) d.

Definition checked (m : Epoch * Epoch) (root : Hash256) (r : outcome NotSafe.t Safe.t) : Prop :=
  match r with
  | Ok Safe.Valid => accepts d id m
  | Ok Safe.SameData => ∃ r, r ∈ rows ∧ (epochs_of r).2 = m.2 ∧ r.(AttestationRow.signing_root) = root ∧ root ≠ hash_zero
  | Err (NotSafe.InvalidAttestation _) => ¬ accepts d id m
  | _ => False
  end.

Lemma check_attestation_eq s t root :
  s ≤ i64_max → t ≤ i64_max →
  ∃ r, check_attestation pk s t root S0 = (r, S0) ∧ checked (s, t) root r.
Proof using Hid Hrange.
  intros Hs Ht. unfold check_attestation. destruct (Z.ltb_spec t s) as [Hst|Hst].
  { eexists. split; [reflexivity|]. intros (H & _). simpl in H. lia. }
  rewrite (bind_ok_eq _ _ _ _ _ get_validator_id_eq), (bind_ok_eq _ _ _ _ _ select_eq), (to_sql_eq t) by done.
  erewrite bind_ok_eq by reflexivity. rewrite (optional_row_eq rows); [|done|by intros r [_ ?]%head_elem%list_elem_of_filter].
  erewrite bind_ok_eq by reflexivity.
  destruct (head (filter (fun r => r.(AttestationRow.target_epoch) = t) rows)) as [r|] eqn:Hh.
  { apply head_elem, list_elem_of_filter in Hh as [Hrt Hr]. simpl.
    destruct (SigningRoot.eq _ root) eqn:Heq; eexists; (split; [reflexivity|]).
    - unfold SigningRoot.eq, SigningRoot.is_null in Heq. btoprop. exists r. simpl. subst. done.
    - intros (_ & Hns & _). apply (Hns r Hr). left. done. }
  apply head_None in Hh. cbn [fmap option_fmap option_map].
  rewrite (bind_ok_eq _ _ _ _ _ select_eq), (to_sql_eq s) by done.
  erewrite bind_ok_eq by reflexivity.
  rewrite (optional_row_eq rows); [|done|by intros r [_ ?]%top_target_elem%list_elem_of_filter].
  erewrite bind_ok_eq by reflexivity.
  destruct (top_target _) as [r|] eqn:Hh1; cbn [fmap option_fmap option_map].
  { apply top_target_elem, list_elem_of_filter in Hh1 as [[? ?] Hr]. eexists. split; [reflexivity|].
    intros (_ & Hns & _). apply (Hns r Hr). right. left. done. }
  rewrite (bind_ok_eq _ _ _ _ _ select_eq).
  rewrite (optional_row_eq rows); [|done|by intros r [_ ?]%top_target_elem%list_elem_of_filter].
  erewrite bind_ok_eq by reflexivity.
  destruct (top_target (filter (fun r => s < _ ∧ _) _)) as [r|] eqn:Hh2; cbn [fmap option_fmap option_map].
  { apply top_target_elem, list_elem_of_filter in Hh2 as [[? ?] Hr]. eexists. split; [reflexivity|].
    intros (_ & Hns & _). apply (Hns r Hr). right. right. done. }
  destruct (check_lower_bound_eq AttestationRow.source_epoch (fun b => s <? b)
    (InvalidAttestation.SourceLessThanLowerBound s)) as [(b & Hrun & Hbad & Hne & Hmin)|Hok].
  { by apply Hrange. }
  { rewrite (bind_err_eq _ _ _ _ _ Hrun). eexists. split; [reflexivity|]. intros (_ & _ & Hb). destruct Hne as [r Hr].
    destruct (Hb r Hr) as [(a & Ha & Hle) _]. specialize (Hmin a Ha). simpl in *. btoprop. lia. }
  rewrite (bind_ok_eq _ _ _ _ _ Hok).
  destruct (check_lower_bound_eq AttestationRow.target_epoch (fun b => t <=? b)
    (InvalidAttestation.TargetLessThanOrEqLowerBound t)) as [(b & Hrun & Hbad & Hne & Hmin)|Hok'].
  { by apply Hrange. }
  { rewrite (bind_err_eq _ _ _ _ _ Hrun). eexists. split; [reflexivity|]. intros (_ & _ & Hb). destruct Hne as [r Hr].
    destruct (Hb r Hr) as [_ (a & Ha & Hle)]. specialize (Hmin a Ha). simpl in *. btoprop. lia. }
  rewrite (bind_ok_eq _ _ _ _ _ Hok'). eexists. split; [reflexivity|]. split; [done|].
  split.
  - intros r Hr Hsl. destruct Hsl as [Hsl|[Hsl|Hsl]]; simpl in Hsl.
    + apply (elem_of_nil r). rewrite <-Hh. by apply list_elem_of_filter.
    + apply top_target_None in Hh1. apply (elem_of_nil r). rewrite <-Hh1. by apply list_elem_of_filter.
    + apply top_target_None in Hh2. apply (elem_of_nil r). rewrite <-Hh2. by apply list_elem_of_filter.
  - intros r Hr.
    assert (okrun (check_lower_bound id AttestationRow.source_epoch (fun b => s <? b)
      (InvalidAttestation.SourceLessThanLowerBound s)) d tt d) as [_ H1]%check_lower_bound_run by (by eexists _, _).
    assert (okrun (check_lower_bound id AttestationRow.target_epoch (fun b => t <=? b)
      (InvalidAttestation.TargetLessThanOrEqLowerBound t)) d tt d) as [_ H2]%check_lower_bound_run by (by eexists _, _).
    destruct (H1 r Hr) as (a & Ha & Ha1), (H2 r Hr) as (b & Hb & Hb1). btoprop. eauto 6.
Qed.

Lemma insert_attestation_eq m root :
  accepts d id m → m.2 ≤ i64_max → insert_attestation pk m.1 m.2 root S0 = (Ok tt, Sql.mk (with_attestation id m root d) []).
Proof using Hid.
  clear Hrange. intros (Hst & Hns & _) Ht. unfold insert_attestation.
  rewrite (bind_ok_eq _ _ _ _ _ get_validator_id_eq). erewrite bind_ok_eq by reflexivity.
  rewrite !to_sql_eq by lia. do 3 (erewrite bind_ok_eq by reflexivity).
  assert (check_unique (E:=NotSafe.t) m.2 (map AttestationRow.target_epoch rows) S0 = (Ok tt, S0)) as Hu.
  { unfold check_unique. rewrite decide_False; [reflexivity|]. intros (r & Hr & He)%map_elem.
    apply (Hns r Hr). left. done. }
  assert (check_foreign_key (E:=NotSafe.t) id d S0 = (Ok tt, S0)) as Hf.
  { unfold check_foreign_key. rewrite decide_True; [reflexivity|].
    unfold vid in Hid. destruct (head _) as [r|] eqn:Hh; [|done]. injection Hid as <- _.
    apply head_elem, list_elem_of_filter in Hh as [_ Hr]. apply map_elem. eauto. }
  by rewrite (bind_ok_eq _ _ _ _ _ Hu), (bind_ok_eq _ _ _ _ _ Hf).
Qed.

Lemma check_and_insert_attestation_eq m root :
  m.1 ≤ i64_max → m.2 ≤ i64_max →
  ∃ r d', check_and_insert_attestation_signing_root pk m.1 m.2 root S0 = (r, Sql.mk d' []) ∧ answer m root r d'.
Proof using Hid Hrange.
  intros H1 H2. unfold check_and_insert_attestation_signing_root, with_transaction, transaction.
  destruct (check_attestation_eq m.1 m.2 root H1 H2) as (r & Hr & Hc). destruct m as [s t]. simpl in *.
  do 2 (erewrite bind_ok_eq by reflexivity).
  unfold check_and_insert_attestation_signing_root_txn.
  destruct r as [[|]|e| |]; [| | |done|done].
  - erewrite bind_ok_eq; [|erewrite bind_ok_eq by exact Hr; reflexivity].
    do 2 eexists. split; [reflexivity|]. destruct Hc as (r & ? & ? & ? & ?). by eapply answer_same.
  - erewrite bind_ok_eq; [|erewrite bind_ok_eq by exact Hr; simpl;
      erewrite bind_ok_eq by exact (insert_attestation_eq (s, t) root Hc H2); reflexivity].
    do 2 eexists. split; [reflexivity|]. by apply answer_valid.
  - erewrite bind_err_eq by (by erewrite bind_err_eq by exact Hr).
    do 2 eexists. split; [reflexivity|]. destruct e; try done. by apply answer_refused.
Qed.


(** A validator is never locked out.  For a registered and enabled validator,
    while SQLite does not fail, an attestation whose source is not before any
    stored source and whose target is after every stored target is accepted and
    stored. *)
Theorem later_attestation_accepted m root :
  m.1 ≤ m.2 → m.2 ≤ i64_max →
  (∀ r, r ∈ rows → (epochs_of r).1 ≤ m.1 ∧ (epochs_of r).2 < m.2) →
  check_and_insert_attestation_signing_root pk m.1 m.2 root S0 =
    (Ok Safe.Valid, Sql.mk (with_attestation id m root d) []).
Proof using Hid Hrange.
  intros Hst Ht Hall. destruct (check_and_insert_attestation_eq m root) as (r & d' & Hrun & Ha); [lia|done|].
  assert (accepts d id m) as Hacc.
  { split; [done|]. split.
    - intros r' Hr'. destruct (Hall r' Hr'). unfold slashable. lia.
    - intros r' Hr'. destruct (Hall r' Hr'). eauto 6. }
  destruct Ha as [_|r' Hr' He _ _|e Hno]; [done| |done]. destruct (Hall r' Hr'). lia.
Qed.
End no_failures.

(** *** Witnesses *)
Definition ex_db : Db.t :=
  Db.mk [ValidatorRow.mk 1 7 true] [] [AttestationRow.mk 1 2 3 50; AttestationRow.mk 1 3 4 51].
Lemma ex_db_range : atts_in_range (attestations_of 1 ex_db).
Proof. intros r [->|[->|[]%elem_of_nil]%elem_of_cons]%elem_of_cons; simpl; lia. Qed.


