(* ===== verification/SlashingImport.v ===== *)
(** * What can go wrong with an import

    An import of an interchange file that fails leaves the database as it was.
    Apart from a file of another version or another chain, only SQLite can make
    it fail: the consistency check at the end of each record never does. *)
From S2P Require Import Prelude SlotEpoch ProtoArrayDefs SlashingDefs SlashingCorrect SlashingSafety SlashingComplete.

(** ** Runs that end in an error *)
Definition errs {E A} (m : M Sql.t E A) (d : Db.t) (e : E) : Prop := ∃ fs s', m (Sql.mk d fs) = (Err e, s').

Definition sql_only (e : NotSafe.t) : Prop := ∃ f, e = NotSafe.SQLError f.

Lemma errs_bind {E A B} (m : M Sql.t E A) (k : A → M Sql.t E B) d e :
  errs (m ≫= k) d e → errs m d e ∨ ∃ a d1, okrun m d a d1 ∧ errs (k a) d1 e.
Proof.
  intros (fs & s' & H). unfold mbind, M_bind in H.
  destruct (m (Sql.mk d fs)) as [[a|e'| |] [d1 fs1]] eqn:Hm; try discriminate.
  - right. exists a, d1. split; by eexists _, _.
  - left. injection H as -> _. by eexists _, _.
Qed.

Lemma errs_ret {E A} (a : A) d (e : E) : errs (mret a) d e → False.
Proof. by intros (fs & s' & H). Qed.
Lemma errs_throw {E A} (e e' : E) d : errs (throw (A:=A) e') d e → e = e'.
Proof. intros (fs & s' & H). by injection H. Qed.
Lemma errs_lift {E A} (o : outcome E A) d e : errs (lift o) d e → o = Err e.
Proof. intros (fs & s' & H). by injection H. Qed.
Lemma errs_get {E} d (e : E) : errs get d e → False.
Proof. by intros (fs & s' & H). Qed.
Lemma errs_modify {E} f d (e : E) : errs (modify f) d e → False.
Proof. by intros (fs & s' & H). Qed.
Lemma errs_sqlite {E} (e e' : E) d : errs (sqlite e') d e → e = e'.
Proof.
  intros (fs & s' & H). unfold sqlite in H. simpl in H. destruct fs as [|[] fs]; by injection H.
Qed.

Lemma errs_statement d e : errs (E:=NotSafe.t) statement d e → sql_only e.
Proof. intros ->%errs_sqlite. by eexists. Qed.
Lemma errs_to_sql x d e : errs (lift (to_sql (E:=NotSafe.t) x)) d e → sql_only e.
Proof. intros H%errs_lift. unfold to_sql in H. case_match; [done|]. injection H as <-. by eexists. Qed.
Lemma errs_from_sql_opt x d e : errs (lift (from_sql_opt (E:=NotSafe.t) x)) d e → sql_only e.
Proof.
  intros H%errs_lift. destruct x as [v|]; [|done]. unfold from_sql_opt, from_sql in H. simpl in H.
  case_match; [done|]. injection H as <-. by eexists.
Qed.
Lemma errs_unique v col d e : errs (check_unique (E:=NotSafe.t) v col) d e → sql_only e.
Proof. unfold check_unique. case_decide; [intros ->%errs_throw; by eexists|by intros ?%errs_ret]. Qed.
Lemma errs_foreign_key id d0 d e : errs (check_foreign_key (E:=NotSafe.t) id d0) d e → sql_only e.
Proof. unfold check_foreign_key. case_decide; [by intros ?%errs_ret|intros ->%errs_throw; by eexists]. Qed.

Create HintDb errs.
#[local] Hint Resolve errs_statement errs_to_sql errs_from_sql_opt errs_unique errs_foreign_key : errs.
#[local] Hint Extern 1 => match goal with
  | H : errs (mret _) _ _ |- _ => destruct (errs_ret _ _ _ H)
  | H : errs get _ _ |- _ => destruct (errs_get _ _ H)
  | H : errs (modify _) _ _ |- _ => destruct (errs_modify _ _ _ H)
  end : errs.

Lemma errs_get_id pk id d e :
  vid d pk = Some (id, true) → errs (get_validator_id_in_txn pk) d e → sql_only e.
Proof.
  intros Hv. unfold get_validator_id_in_txn, get_validator_id_with_status.
  intros [H|(r & d1 & Hr & H)]%errs_bind.
  - apply errs_bind in H as [H|(? & ? & _ & H)]; [eauto with errs|].
    apply errs_bind in H as [H|(? & ? & _ & H)]; eauto with errs.
  - apply get_validator_id_with_status_run in Hr as [-> ->]. rewrite Hv in H.
    apply errs_bind in H as [H%errs_lift|([i b] & d2 & [[= <- <-] ->]%okrun_lift & H)]; [done|].
    by apply errs_ret in H.
Qed.

Lemma errs_select_blocks id d e : errs (select_blocks (E:=NotSafe.t) id) d e → sql_only e.
Proof.
  unfold select_blocks. intros [H|(? & ? & _ & H)]%errs_bind; [eauto with errs|].
  apply errs_bind in H as [H|(? & ? & _ & H)]; eauto with errs.
Qed.
Lemma errs_select_attestations id d e : errs (select_attestations (E:=NotSafe.t) id) d e → sql_only e.
Proof.
  unfold select_attestations. intros [H|(? & ? & _ & H)]%errs_bind; [eauto with errs|].
  apply errs_bind in H as [H|(? & ? & _ & H)]; eauto with errs.
Qed.
#[local] Hint Resolve errs_select_blocks errs_select_attestations errs_get_id : errs.

(** The errors of a sequence of steps, each of which ends in an SQL error. *)
Ltac errs_steps H :=
  repeat (apply errs_bind in H as [H|(? & ? & ? & H)]; [by eauto with errs|]); eauto with errs.

Lemma errs_summary pk id d e : vid d pk = Some (id, true) → errs (validator_summary pk) d e → sql_only e.
Proof. unfold validator_summary. intros Hv H. errs_steps H. Qed.

Lemma errs_insert_block pk id slot root d e :
  vid d pk = Some (id, true) → errs (insert_block_proposal pk slot root) d e → sql_only e.
Proof. unfold insert_block_proposal. intros Hv H. errs_steps H. Qed.

Lemma errs_insert_attestation pk id s t root d e :
  vid d pk = Some (id, true) → errs (insert_attestation pk s t root) d e → sql_only e.
Proof. unfold insert_attestation. intros Hv H. errs_steps H. Qed.

Lemma errs_clear_blocks pk id d e : vid d pk = Some (id, true) → errs (clear_signed_blocks pk) d e → sql_only e.
Proof. unfold clear_signed_blocks. intros Hv H. errs_steps H. Qed.

Lemma errs_clear_attestations pk id d e :
  vid d pk = Some (id, true) → errs (clear_signed_attestations pk) d e → sql_only e.
Proof. unfold clear_signed_attestations. intros Hv H. errs_steps H. Qed.

Lemma errs_register pk d e : errs (register_validators_in_txn [pk]) d e → sql_only e.
Proof.
  unfold register_validators_in_txn. intros H. apply errs_bind in H as [H|(? & ? & _ & H)]; [eauto with errs|].
  simpl in H. apply errs_bind in H as [H|(? & ? & _ & H)]; [|eauto with errs].
  apply errs_bind in H as [H|(r & ? & _ & H)].
  - unfold get_validator_id_with_status in H. errs_steps H.
  - destruct r as [[i []]|]; [eauto with errs|..].
    + unfold update_validator_status in H. errs_steps H.
    + unfold insert_validator in H. errs_steps H.
Qed.

(** A registered validator is enabled. *)
Lemma register_one_run pk d u d' :
  okrun (register_validators_in_txn [pk]) d u d' → ∃ id, vid d' pk = Some (id, true).
Proof.
  unfold register_validators_in_txn. intros H. apply okrun_bind in H as ([] & d1 & Hr & H). inv_run Hr.
  simpl in H. apply okrun_bind in H as ([] & d2 & Hr & H). inv_run H.
  apply okrun_bind in Hr as (r & d3 & Hs & Hr). apply get_validator_id_with_status_run in Hs as [-> ->].
  destruct (vid d pk) as [[i [|]]|] eqn:Hv.
  - inv_run Hr. eauto.
  - apply update_validator_status_run in Hr as (_ & Hv' & _). rewrite Hv', Hv. simpl. rewrite Z.eqb_refl. eauto.
  - by apply insert_validator_run in Hr as (_ & ? & _).
Qed.

(** ** The consistency check *)
Lemma singleton_extrema {A} (f : A → Z) (l : list A) x :
  (∀ y, y ∈ l ↔ y = x) → min_of (map f l) = Some (f x) ∧ max_of (map f l) = Some (f x).
Proof.
  intros Hl. assert (x ∈ l) as Hx by (by apply Hl).
  assert (∀ z, z ∈ map f l → z = f x) as Hall by (by intros z (y & ->%Hl & <-)%map_elem).
  assert (l ≠ []) as Hne by (by intros ->; apply elem_of_nil in Hx).
  split.
  - destruct (min_of (map f l)) as [m|] eqn:Hm; [|by apply min_of_None, map_eq_nil in Hm].
    apply min_of_Some in Hm as [->%Hall _]. done.
  - destruct (max_of (map f l)) as [m|] eqn:Hm; [|by apply max_of_None, map_eq_nil in Hm].
    apply max_of_Some in Hm as [->%Hall _]. done.
Qed.

Lemma monotonic_max_or o y : monotonic (Some (max_or o y)) o = true.
Proof. destruct o as [x|]; [|done]. simpl. apply Z.leb_le. lia. Qed.

Lemma is_empty_max_of {A} (f : A → Z) l : is_empty l = match max_of (map f l) with Some _ => false | None => true end.
Proof. by destruct l. Qed.

(** The blocks after the import of a record, and what the check asks of them. *)
Lemma import_blocks_consistent pk blocks d id u d' s :
  okrun (match max_of (map InterchangeBlock.slot blocks) with
    | Some max_slot =>
        clear_signed_blocks pk ;;
        insert_block_proposal pk (max_or (summary_of d id).(ValidatorSummary.max_block_slot) max_slot) hash_zero
    | None => mret tt
    end) d u d' →
  vid d pk = Some (id, true) →
  s.(ValidatorSummary.min_block_slot) = min_of (map BlockRow.slot (blocks_of id d')) →
  s.(ValidatorSummary.max_block_slot) = max_of (map BlockRow.slot (blocks_of id d')) →
  check_block_consistency s (summary_of d id) (negb (is_empty blocks)) = true.
Proof.
  intros H Hid Hmin Hmax. unfold check_block_consistency. rewrite (is_empty_max_of InterchangeBlock.slot).
  rewrite Hmin, Hmax. destruct (max_of (map InterchangeBlock.slot blocks)) as [m|].
  - apply (replace_blocks_run _ _ _ _ id) in H as (_ & _ & Honly & _); [|done|].
    + destruct (singleton_extrema BlockRow.slot _ _ Honly) as [-> ->]. simpl negb. cbv iota.
      rewrite bool_decide_eq_true_2 by done. rewrite andb_true_r. apply monotonic_max_or.
    + intros r Hr. by apply (max_or_column BlockRow.slot).
  - inv_run H. simpl. by rewrite !bool_decide_eq_true_2.
Qed.

Lemma import_attestations_consistent pk atts d id u d' s prev :
  okrun (match max_of (map InterchangeAttestation.source_epoch atts),
               max_of (map InterchangeAttestation.target_epoch atts) with
    | Some max_source, Some max_target =>
        clear_signed_attestations pk ;;
        insert_attestation pk
          (max_or (max_of (map AttestationRow.source_epoch (attestations_of id d))) max_source)
          (max_or (max_of (map AttestationRow.target_epoch (attestations_of id d))) max_target) hash_zero
    | _, _ => mret tt
    end) d u d' →
  vid d pk = Some (id, true) →
  s = summary_of d' id →
  prev.(ValidatorSummary.min_attestation_source) = min_of (map AttestationRow.source_epoch (attestations_of id d)) →
  prev.(ValidatorSummary.min_attestation_target) = min_of (map AttestationRow.target_epoch (attestations_of id d)) →
  prev.(ValidatorSummary.max_attestation_source) = max_of (map AttestationRow.source_epoch (attestations_of id d)) →
  prev.(ValidatorSummary.max_attestation_target) = max_of (map AttestationRow.target_epoch (attestations_of id d)) →
  check_attestation_consistency s prev (negb (is_empty atts)) = true.
Proof.
  intros H Hid -> H1 H2 H3 H4. unfold check_attestation_consistency, summary_of. simpl.
  rewrite H1, H2, H3, H4. destruct atts as [|x atts].
  - simpl in H. inv_run H. simpl. by rewrite !bool_decide_eq_true_2.
  - remember (max_of (map InterchangeAttestation.source_epoch (x :: atts))) as ms eqn:Hms.
    remember (max_of (map InterchangeAttestation.target_epoch (x :: atts))) as mt eqn:Hmt.
    destruct ms as [ms|]; [|done]. destruct mt as [mt|]; [|done].
    apply (replace_attestations_run _ _ _ _ _ id) in H as (_ & _ & Honly & _); [|done|].
    + destruct (singleton_extrema AttestationRow.source_epoch _ _ Honly) as [-> ->].
      destruct (singleton_extrema AttestationRow.target_epoch _ _ Honly) as [-> ->]. simpl.
      rewrite !bool_decide_eq_true_2 by done. rewrite !andb_true_r.
      apply andb_true_iff. split; apply monotonic_max_or.
    + intros r Hr. split; [by apply (max_or_column AttestationRow.source_epoch)|
        by apply (max_or_column AttestationRow.target_epoch)].
Qed.

Lemma import_record_errors x d e : errs (import_interchange_record x) d e → sql_only e.
Proof.
  unfold import_interchange_record. intros H.
  apply errs_bind in H as [H|(u & d1 & Hr & H)]; [by eapply errs_register|].
  apply register_one_run in Hr as [id Hid].
  apply errs_bind in H as [H|(prev & d2 & Hr & H)]; [by eapply errs_summary|].
  apply validator_summary_run in Hr as [-> (id' & Hid' & ->)].
  rewrite Hid in Hid'. injection Hid' as <-.
  apply errs_bind in H as [H|(u1 & d2 & Hb & H)].
  { case_match; [|eauto with errs]. apply errs_bind in H as [H|(u1 & d2 & Hr & H)]; [by eapply errs_clear_blocks|].
    unfold clear_signed_blocks in Hr. apply okrun_bind in Hr as (i & d3 & [-> _]%get_validator_id_in_txn_run & Hr).
    inv_run Hr. eapply errs_insert_block; [|exact H]. exact Hid. }
  destruct (import_blocks_run _ _ _ id _ _ Hb Hid) as (_ & Hv1 & HA & _).
  apply errs_bind in H as [H|(u2 & d3 & Ha & H)].
  { clear Hb. repeat case_match; try by eauto with errs.
    apply errs_bind in H as [H|(u2 & d3 & Hr & H)]; [by eapply errs_clear_attestations; rewrite ?Hv1|].
    unfold clear_signed_attestations in Hr. apply okrun_bind in Hr as (i & d4 & [-> _]%get_validator_id_in_txn_run & Hr).
    inv_run Hr. eapply errs_insert_attestation; [|exact H]. change (vid _ _) with (vid d2 x.(InterchangeData.pubkey)).
    by rewrite Hv1. }
  simpl in Ha. rewrite <-(HA id) in Ha.
  destruct (import_attestations_run _ _ _ id _ _ Ha) as (_ & Hv2 & HB & _); [by rewrite Hv1|].
  apply errs_bind in H as [H|(s & d4 & Hs & H)]; [eapply errs_summary; [by rewrite Hv2, Hv1|done]|].
  apply validator_summary_run in Hs as [-> (id' & Hid' & ->)].
  rewrite Hv2, Hv1, Hid in Hid'. injection Hid' as <-. exfalso.
  rewrite (import_blocks_consistent _ _ _ _ _ _ (summary_of d3 id) Hb Hid) in H; [|by simpl; rewrite HB..].
  rewrite (import_attestations_consistent _ _ _ _ _ _ _ (summary_of d1 id) Ha) in H;
    [|by rewrite Hv1|done|by simpl; rewrite HA..].
  by apply errs_ret in H.
Qed.

(** ** Every statement answers: there is no panic *)
Lemma answers_sqlite {E} (e : E) : answers (sqlite e).
Proof. intros [d fs]. unfold sqlite. simpl. by destruct fs as [|[] fs]. Qed.
Lemma answers_to_sql {E} `{FromSqlite E} x : answers (S:=Sql.t) (E:=E) (lift (to_sql x)).
Proof. intros s. unfold lift, to_sql. simpl. by destruct (x <=? i64_max). Qed.
Lemma answers_from_sql_opt {E} `{FromSqlite E} x : answers (S:=Sql.t) (E:=E) (lift (from_sql_opt x)).
Proof. intros s. destruct x as [v|]; [|done]. unfold lift, from_sql_opt, from_sql. simpl. by destruct (0 <=? v). Qed.

Ltac answers_step := first
  [ apply answers_bind; [|intros ?] | apply answers_ret | apply answers_throw | apply answers_get
  | apply answers_modify | apply answers_sqlite | apply answers_to_sql | apply answers_ok_or
  | apply answers_from_sql_opt | case_match | progress unfold statement ].

Lemma answers_validator_summary pk : answers (validator_summary pk).
Proof.
  unfold validator_summary, get_validator_id_in_txn, get_validator_id_with_status, select_blocks,
    select_attestations. by repeat answers_step.
Qed.
Lemma answers_register pk : answers (register_validators_in_txn [pk]).
Proof.
  unfold register_validators_in_txn, get_validator_id_with_status, update_validator_status, insert_validator,
    check_unique. simpl. by repeat answers_step.
Qed.
Lemma answers_replace_blocks pk slot root :
  answers (clear_signed_blocks pk ;; insert_block_proposal pk slot root).
Proof.
  unfold clear_signed_blocks, insert_block_proposal, get_validator_id_in_txn, get_validator_id_with_status,
    check_unique, check_foreign_key. by repeat answers_step.
Qed.
Lemma answers_replace_attestations pk source target root :
  answers (clear_signed_attestations pk ;; insert_attestation pk source target root).
Proof.
  unfold clear_signed_attestations, insert_attestation, get_validator_id_in_txn, get_validator_id_with_status,
    check_unique, check_foreign_key. by repeat answers_step.
Qed.

Lemma answers_import_record x : answers (import_interchange_record x).
Proof.
  unfold import_interchange_record.
  apply answers_bind; [apply answers_register|intros _].
  apply answers_bind; [apply answers_validator_summary|intros prev].
  apply answers_bind; [case_match; [apply answers_replace_blocks|apply answers_ret]|intros _].
  apply answers_bind; [repeat case_match; [apply answers_replace_attestations|apply answers_ret..]|intros _].
  apply answers_bind; [apply answers_validator_summary|intros summary].
  case_match; [apply answers_ret|apply answers_throw].
Qed.

(** ** The whole import *)
Definition outcome_pubkey (o : InterchangeImportOutcome.t) : PublicKeyBytes :=
  match o with
  | InterchangeImportOutcome.Success pk _ => pk
  | InterchangeImportOutcome.Failure pk _ => pk
  end.
Definition noted (o : InterchangeImportOutcome.t) : Prop :=
  match o with
  | InterchangeImportOutcome.Success _ _ => True
  | InterchangeImportOutcome.Failure _ e => sql_only e
  end.

(** The loop over the records notes one outcome per record, in order, and asks
    for a commit exactly when no record failed. *)
Lemma import_records_spec xs outs commit s :
  Forall noted outs → commit = negb (existsb InterchangeImportOutcome.failed outs) →
  ∃ outs' s', import_records xs outs commit s = (Ok (outs', negb (existsb InterchangeImportOutcome.failed outs')), s') ∧
    map outcome_pubkey outs' = map outcome_pubkey outs ++ map InterchangeData.pubkey xs ∧ Forall noted outs'.
Proof.
  revert outs commit s. induction xs as [|x xs IH]; intros outs commit s Hn ->.
  { exists outs, s. by rewrite app_nil_r. }
  simpl. pose proof (answers_import_record x s) as Hans.
  destruct (import_interchange_record x s) as [[sum|e| |] s1] eqn:Hx; [| |done..].
  - destruct (IH (outs ++ [InterchangeImportOutcome.Success x.(InterchangeData.pubkey) sum])
      (negb (existsb InterchangeImportOutcome.failed outs)) s1) as (outs' & s' & -> & Hpk & Hn').
    + by rewrite Forall_app, Forall_singleton.
    + by rewrite existsb_app, orb_false_r.
    + exists outs', s'. split; [done|]. by rewrite Hpk, map_app, <-app_assoc.
  - destruct (IH (outs ++ [InterchangeImportOutcome.Failure x.(InterchangeData.pubkey) e]) false s1)
      as (outs' & s' & -> & Hpk & Hn').
    + rewrite Forall_app, Forall_singleton. split; [done|].
      destruct s as [d fs]. eapply (import_record_errors x d). by eexists _, _.
    + rewrite existsb_app. simpl. by rewrite orb_true_r.
    + exists outs', s'. split; [done|]. by rewrite Hpk, map_app, <-app_assoc.
Qed.

(** Importing a slashing-protection file always ends, whatever SQLite does
    and whatever the file and the database hold.  It succeeds only for a file of
    the supported version and of the client's chain, and then reports one
    success per record of the file, in order.  When it fails the tables are as
    they were, and the error is one of these: another version; another chain; a
    failure of SQLite to open or commit the transaction; or the list of the
    outcomes of all records, at least one of them a failure, and every failure
    an SQL error.  So the check that an import never lowers the protection,
    which the code repeats after each record, never fails. *)
Theorem import_answers (file : Interchange.t) (root : Hash256) (s : Sql.t) :
  let version := file.(Interchange.metadata).(InterchangeMetadata.interchange_format_version) in
  let file_root := file.(Interchange.metadata).(InterchangeMetadata.genesis_validators_root) in
  let pubkeys := map InterchangeData.pubkey file.(Interchange.data) in
  match import_interchange_info file root s with
  | (Ok outs, _) =>
      version = SUPPORTED_INTERCHANGE_FORMAT_VERSION ∧ file_root = root ∧
      map outcome_pubkey outs = pubkeys ∧ existsb InterchangeImportOutcome.failed outs = false
  | (Err e, s') =>
      s'.(Sql.db) = s.(Sql.db) ∧
      match e with
      | InterchangeError.UnsupportedVersion v => v = version ∧ v ≠ SUPPORTED_INTERCHANGE_FORMAT_VERSION
      | InterchangeError.GenesisValidatorsMismatch r c => r = file_root ∧ c = root ∧ r ≠ c
      | InterchangeError.SQLPoolError => True
      | InterchangeError.SQLError f => f = SqlFailure.Sqlite
      | InterchangeError.AtomicBatchAborted outs =>
          map outcome_pubkey outs = pubkeys ∧ existsb InterchangeImportOutcome.failed outs = true ∧ Forall noted outs
      | InterchangeError.NotSafe _ => False
      end
  | _ => False
  end.
Proof.
  intros version file_root pubkeys. unfold import_interchange_info. fold version file_root.
  destruct (Z.eqb_spec version SUPPORTED_INTERCHANGE_FORMAT_VERSION) as [Hv|Hv]; [simpl negb; cbv iota|done].
  destruct (Z.eqb_spec root file_root) as [Hr|Hr]; [simpl negb; cbv iota|simpl; naive_solver].
  unfold transaction, sqlite, pool_error, sql_error, mbind, M_bind. destruct s as [d fs]. simpl.
  destruct fs as [|[] fs]; simpl; [|done|destruct fs as [|[] fs]; simpl; [|done|]].
  all: match goal with |- context [import_records _ [] true ?s1] =>
    destruct (import_records_spec file.(Interchange.data) [] true s1) as (outs & [d' fs'] & -> & Hpk & Hn); [done..|] end.
  all: destruct (existsb InterchangeImportOutcome.failed outs) eqn:Hf; simpl; [done|].
  all: by destruct fs' as [|[] fs'].
Qed.
