(* ===== verification/DoppelgangerCorrect.v ===== *)
(** * Doppelganger protection keeps a new key from signing

    A key added after genesis is enabled only by a detection round late enough
    that a whole epoch after the key was added has been observed, in which the
    beacon node saw no activity.  A round that finds activity shuts the client
    down and disables the keys it looked at for good. *)
From Stdlib Require Import ZifyNat.
From S2P Require Import Prelude SlotEpoch ProtoArrayDefs ForkSchedule SlashingDefs DoppelgangerDefs.
From S2P Require Import ValidatorStoreDefs SlashingCorrect SlashingSafety.

(** One detection round: the slot, the responses of the beacon node and the keys
    asked for. *)
Record round : Type := mkRound {
  round_slot : Slot;
  round_responses : LivenessResponses.t;
  round_map : gmap Z PublicKeyBytes;
}.

Section detection.
Variable slots_per_epoch : Z.
Abbreviation epoch_of slot := (epoch slot slots_per_epoch).

Definition run_round (s : DoppelgangerService.t) (c : round) : DoppelgangerService.t :=
  (process_liveness_responses slots_per_epoch c.(round_slot) c.(round_responses) c.(round_map) s).2.

Definition responses_of (c : round) : list LivenessResponseData.t :=
  c.(round_responses).(LivenessResponses.previous_epoch_responses) ++
  c.(round_responses).(LivenessResponses.current_epoch_responses).

(** Activity of a key under detection, in an epoch that counts. *)
Definition active_in (s : DoppelgangerService.t) (c : round) : Prop :=
  ∃ r pk st, r ∈ responses_of c ∧ r.(LivenessResponseData.is_live) = true ∧
    c.(round_map) !! r.(LivenessResponseData.index) = Some pk ∧
    s.(DoppelgangerService.doppelganger_states) !! pk = Some st ∧
    st.(DoppelgangerState.next_check_epoch) ≤ r.(LivenessResponseData.epoch).

Lemma violators_iff s c :
  existsb (violates s.(DoppelgangerService.doppelganger_states) c.(round_map)) (responses_of c) = true ↔
  active_in s c.
Proof.
  rewrite existsb_exists. setoid_rewrite <-list_elem_of_In. unfold violates. split.
  - intros (r & Hr & Hv). destruct (LivenessResponseData.is_live r) eqn:Hl; [|done]. simpl in Hv.
    repeat case_match; try done. btoprop. by eexists r, _, _.
  - intros (r & pk & st & Hr & Hl & Hm & Hs & Hle). exists r. split; [done|].
    rewrite Hl. simpl. rewrite Hm, Hs. by apply Z.leb_le.
Qed.

(** A round at [slot] is the [end]-th or a later slot of the epoch after the
    one it checks, and a response says the key was not live. *)
Definition satisfied (c : round) (pk : PublicKeyBytes) (since : Epoch) : Prop :=
  let previous := u64_saturating_sub (epoch_of c.(round_slot)) 1 in
  since ≤ previous ∧ end_slot (se_add previous 1) slots_per_epoch ≤ c.(round_slot) ∧
  ∃ r, r ∈ c.(round_responses).(LivenessResponses.previous_epoch_responses) ∧
    c.(round_map) !! r.(LivenessResponseData.index) = Some pk ∧
    r.(LivenessResponseData.is_live) = false ∧ r.(LivenessResponseData.epoch) = previous.

(** The effect of one response on one key. *)
Lemma process_response_state p sat v imap resp s r s' pk st :
  process_response p sat v imap resp s = (r, s') →
  s.(DoppelgangerService.doppelganger_states) !! pk = Some st →
  ∃ st', s'.(DoppelgangerService.doppelganger_states) !! pk = Some st' ∧
    (st' = st ∨
     (v = true ∧ st' = DoppelgangerState.mk st.(DoppelgangerState.next_check_epoch) u64_max) ∨
     (v = false ∧ sat = true ∧ st.(DoppelgangerState.next_check_epoch) ≤ p ∧
      imap !! resp.(LivenessResponseData.index) = Some pk ∧ resp.(LivenessResponseData.is_live) = false ∧
      resp.(LivenessResponseData.epoch) = p ∧ st' = DoppelgangerState.complete_detection_in_epoch p st)).
Proof.
  unfold process_response, mbind, M_bind, lift, get, modify, throw, mret, M_ret. intros H Hst.
  assert (∀ k st2, s' = DoppelgangerService.set_states (<[k := st2]> s.(DoppelgangerService.doppelganger_states)) s →
    s'.(DoppelgangerService.doppelganger_states) !! pk = Some (if decide (k = pk) then st2 else st)) as Hset.
  { intros k st2 ->. simpl. rewrite lookup_insert. by case_decide. }
  destruct (Z.eqb_spec resp.(LivenessResponseData.epoch) p) as [He|He]; cycle 1.
  { injection H as _ <-. exists st. split; [exact Hst|by left]. }
  destruct (imap !! _) as [k|] eqn:Hk; simpl in H; cycle 1.
  { injection H as _ <-. exists st. split; [exact Hst|by left]. }
  destruct (_ !! k) as [stk|] eqn:Hstk; simpl in H; cycle 1.
  { injection H as _ <-. exists st. split; [exact Hst|by left]. }
  destruct v.
  { injection H as _ <-. rewrite (Hset _ _ eq_refl). case_decide as Hd; eexists; (split; [done|]); [|by left].
    right; left. rewrite Hd, Hst in Hstk. by injection Hstk as <-. }
  destruct (negb _ && _) eqn:Hc; cycle 1.
  { injection H as _ <-. exists st. split; [exact Hst|by left]. }
  injection H as _ <-. rewrite (Hset _ _ eq_refl). case_decide as Hd; eexists; (split; [done|]); [|by left].
  right; right. rewrite Hd, Hst in Hstk. injection Hstk as <-. btoprop. by rewrite Hd.
Qed.

Lemma process_response_keeps (P : DoppelgangerState.t → Prop) pk p sat v imap resp :
  (∀ st, P st → v = true → P (DoppelgangerState.mk st.(DoppelgangerState.next_check_epoch) u64_max)) →
  (∀ st, P st → v = false → sat = true → st.(DoppelgangerState.next_check_epoch) ≤ p →
     imap !! resp.(LivenessResponseData.index) = Some pk → resp.(LivenessResponseData.is_live) = false →
     resp.(LivenessResponseData.epoch) = p → P (DoppelgangerState.complete_detection_in_epoch p st)) →
  keeps (fun s => ∃ st, s.(DoppelgangerService.doppelganger_states) !! pk = Some st ∧ P st)
    (process_response p sat v imap resp).
Proof.
  intros H1 H2 s (st & Hst & HP). destruct (process_response p sat v imap resp s) as [r s'] eqn:Hr.
  destruct (process_response_state _ _ _ _ _ _ _ _ _ _ Hr Hst) as (st' & Hst' & Hcase).
  exists st'. split; [done|].
  destruct Hcase as [->|[[? ->]|(? & ? & ? & ? & ? & ? & ->)]]; auto.
Qed.

(** A key's state after a round. *)
Lemma round_keeps (P : DoppelgangerState.t → Prop) pk s c :
  let p := u64_saturating_sub (epoch_of c.(round_slot)) 1 in
  (∃ st, s.(DoppelgangerService.doppelganger_states) !! pk = Some st ∧ P st) →
  (∀ st, P st → active_in s c → P (DoppelgangerState.mk st.(DoppelgangerState.next_check_epoch) u64_max)) →
  (∀ st, P st → ¬ active_in s c → st.(DoppelgangerState.next_check_epoch) ≤ p →
     satisfied c pk st.(DoppelgangerState.next_check_epoch) →
     P (DoppelgangerState.complete_detection_in_epoch p st)) →
  ∃ st, (run_round s c).(DoppelgangerService.doppelganger_states) !! pk = Some st ∧ P st.
Proof.
  intros p HP H1 H2. unfold run_round, process_liveness_responses.
  unfold mbind at 1, M_bind at 1, get. cbv beta iota zeta. fold p.
  pose proof (violators_iff s c) as Hv. unfold responses_of in Hv.
  set (v := existsb _ _) in *. set (sat := _ <=? _).
  eapply (keeps_bind (fun s => ∃ st, s.(DoppelgangerService.doppelganger_states) !! pk = Some st ∧ P st)).
  - apply keeps_for_each. intros resp Hresp. apply process_response_keeps.
    + intros st HPst Htrue. apply H1; [done|]. by apply Hv.
    + intros st HPst Hfalse Hsat Hle Hm Hl He. apply H2; [done| |done|].
      * rewrite <-Hv. by rewrite Hfalse.
      * split; [done|]. split; [unfold sat in Hsat; by btoprop|]. by exists resp.
  - intros []. destruct v; [|apply keeps_ret]. by apply keeps_modify.
  - done.
Qed.

(** Enabled after some rounds only if one of them was satisfied. *)
Lemma rounds_enable pk since l s st :
  s.(DoppelgangerService.doppelganger_states) !! pk = Some st →
  since ≤ st.(DoppelgangerState.next_check_epoch) → 0 < st.(DoppelgangerState.remaining_epochs) →
  validator_status (foldl run_round s l) pk = DoppelgangerStatus.SigningEnabled pk →
  ∃ l1 c l2, l = l1 ++ c :: l2 ∧ satisfied c pk since ∧ ¬ active_in (foldl run_round s l1) c.
Proof.
  revert s st. induction l as [|c l IH]; intros s st Hst Hsi Hre Hen; simpl in Hen.
  - exfalso. unfold validator_status in Hen. rewrite Hst in Hen.
    unfold DoppelgangerState.requires_further_checks in Hen.
    by destruct (Z.ltb_spec 0 st.(DoppelgangerState.remaining_epochs)); [|lia].
  - destruct (round_keeps (fun st => (since ≤ st.(DoppelgangerState.next_check_epoch) ∧
        0 < st.(DoppelgangerState.remaining_epochs)) ∨ (satisfied c pk since ∧ ¬ active_in s c)) pk s c)
      as (st' & Hst' & [[Hsi' Hre']|Hgood]).
    + exists st. auto.
    + intros st0 [[? ?]|?]; [|by right]. left. by vm_compute.
    + intros st0 [[Hs ?]|?] Hna _ (Hle & Hrest); [|by right]. right. split; [|done]. split; [lia|done].
    + destruct (IH _ _ Hst' Hsi' Hre' Hen) as (l1 & c' & l2 & -> & Hc). by exists (c :: l1), c', l2.
    + by exists [], c, l.
Qed.

(** The slot of a satisfied round. *)
Lemma satisfied_slot c pk since :
  0 < slots_per_epoch → 0 ≤ since → 0 ≤ c.(round_slot) → (since + 2) * slots_per_epoch ≤ u64_max →
  satisfied c pk since → (since + 2) * slots_per_epoch - 1 ≤ c.(round_slot).
Proof.
  intros Hspe Hpos Hslot Hmax (Hle & Hend & _).
  unfold end_slot, se_add, u64_saturating_sub, u64_saturating_add, u64_saturating_mul, epoch in *.
  set (a := Z.min (Z.max (c.(round_slot) / slots_per_epoch - 1) 0 + 1) u64_max) in *.
  assert (since + 1 ≤ a) as Ha by nia. clearbody a.
  assert ((since + 1) * slots_per_epoch ≤ a * slots_per_epoch) by nia.
  assert ((since + 2) * slots_per_epoch = (since + 1) * slots_per_epoch + slots_per_epoch) by ring. lia.
Qed.

(** Activity found in a round disables a key for good: each later round takes at
    most one from the epochs that remain. *)
Lemma round_remaining pk s c st k :
  s.(DoppelgangerService.doppelganger_states) !! pk = Some st → 0 < slots_per_epoch →
  0 ≤ c.(round_slot) → epoch_of c.(round_slot) < u64_max →
  k ≤ st.(DoppelgangerState.remaining_epochs) → k ≤ u64_max → 0 < k →
  ∃ st', (run_round s c).(DoppelgangerService.doppelganger_states) !! pk = Some st' ∧
    k - 1 ≤ st'.(DoppelgangerState.remaining_epochs).
Proof.
  intros Hst Hspe Hslot Hmax Hk Hku Hk0.
  set (p := u64_saturating_sub (epoch_of c.(round_slot)) 1).
  assert (0 ≤ p < u64_max) as Hp.
  { unfold p, u64_saturating_sub, epoch in *. pose proof (Z.div_pos c.(round_slot) slots_per_epoch). lia. }
  destruct (round_keeps (fun st => k ≤ st.(DoppelgangerState.remaining_epochs) ∨
      (k - 1 ≤ st.(DoppelgangerState.remaining_epochs) ∧ p < st.(DoppelgangerState.next_check_epoch))) pk s c)
    as (st' & Hst' & Hre).
  - eauto.
  - intros st0 _ _. left. simpl. lia.
  - intros st0 [Hr|[Hr Hn]] _ Hle _; fold p in Hle; [|lia]. right. fold p.
    unfold DoppelgangerState.complete_detection_in_epoch, se_add, u64_saturating_add, u64_saturating_sub. simpl. lia.
  - exists st'. split; [done|]. lia.
Qed.

Lemma rounds_remaining pk l s st :
  s.(DoppelgangerService.doppelganger_states) !! pk = Some st → 0 < slots_per_epoch →
  (∀ c, c ∈ l → 0 ≤ c.(round_slot) ∧ epoch_of c.(round_slot) < u64_max) →
  Z.of_nat (length l) < st.(DoppelgangerState.remaining_epochs) → st.(DoppelgangerState.remaining_epochs) ≤ u64_max →
  validator_status (foldl run_round s l) pk = DoppelgangerStatus.SigningDisabled pk.
Proof.
  intros Hst Hspe Hl Hlen Hmax.
  enough (∃ st', (foldl run_round s l).(DoppelgangerService.doppelganger_states) !! pk = Some st' ∧
    st.(DoppelgangerState.remaining_epochs) - Z.of_nat (length l) ≤ st'.(DoppelgangerState.remaining_epochs))
    as (st' & Hst' & Hre).
  { unfold validator_status. rewrite Hst'. unfold DoppelgangerState.requires_further_checks.
    by destruct (Z.ltb_spec 0 st'.(DoppelgangerState.remaining_epochs)); [|lia]. }
  induction l as [|c l IH] using rev_ind; [exists st; split; [done|simpl; lia]|].
  rewrite foldl_app, length_app in *. simpl in *.
  destruct IH as (st1 & Hst1 & Hre1); [by intros; apply Hl, elem_of_app; left|lia|].
  destruct (Hl c) as [? ?]; [set_solver|].
  destruct (round_remaining pk (foldl run_round s l) c st1 (st.(DoppelgangerState.remaining_epochs) - Z.of_nat (length l)))
    as (st' & Hst' & Hre'); try done; try lia. exists st'. split; [done|lia].
Qed.

Lemma for_each_disabled p sat imap l s :
  (∀ r, r ∈ l → r.(LivenessResponseData.epoch) = p ∧ ∃ pk st, imap !! r.(LivenessResponseData.index) = Some pk ∧
     s.(DoppelgangerService.doppelganger_states) !! pk = Some st) →
  ∃ s', for_each l (process_response p sat true imap) s = (Ok tt, s') ∧
    s'.(DoppelgangerService.shutdown) = s.(DoppelgangerService.shutdown) ∧
    ∀ r pk, r ∈ l → imap !! r.(LivenessResponseData.index) = Some pk →
      ∃ st, s'.(DoppelgangerService.doppelganger_states) !! pk = Some st ∧
        st.(DoppelgangerState.remaining_epochs) = u64_max.
Proof.
  intros Hl.
  destruct (for_each_total (process_response p sat true imap)
    (fun done s1 => s1.(DoppelgangerService.shutdown) = s.(DoppelgangerService.shutdown) ∧
      (∀ pk st, s.(DoppelgangerService.doppelganger_states) !! pk = Some st →
         is_Some (s1.(DoppelgangerService.doppelganger_states) !! pk)) ∧
      ∀ r pk, r ∈ done → imap !! r.(LivenessResponseData.index) = Some pk →
        ∃ st, s1.(DoppelgangerService.doppelganger_states) !! pk = Some st ∧
          st.(DoppelgangerState.remaining_epochs) = u64_max) l s) as (s' & Hrun & Hsd & _ & Hall).
  - split; [done|]. split; [eauto|]. by intros ? ? ?%elem_of_nil.
  - intros pre x post s1 -> (Hsd & Hdom & Hdone).
    destruct (Hl x) as (He & pk & st & Hpk & Hst); [set_solver|]. destruct (Hdom _ _ Hst) as [st1 Hst1].
    exists (DoppelgangerService.set_states
      (<[pk := DoppelgangerState.mk st1.(DoppelgangerState.next_check_epoch) u64_max]>
        s1.(DoppelgangerService.doppelganger_states)) s1).
    unfold process_response, mbind, M_bind, lift, get, modify, mret, M_ret.
    rewrite He, Z.eqb_refl, Hpk. simpl. rewrite Hst1. simpl. split; [done|]. split; [done|]. split.
    + intros k stk Hk. destruct (decide (k = pk)) as [->|Hne].
      * rewrite lookup_insert_eq. eauto.
      * rewrite lookup_insert_ne by done. eauto.
    + intros r k [Hr| ->%list_elem_of_singleton]%elem_of_app Hk.
      * destruct (decide (k = pk)) as [->|Hne]; [rewrite lookup_insert_eq; eauto|].
        rewrite lookup_insert_ne by done. eauto.
      * rewrite Hpk in Hk. injection Hk as <-. rewrite lookup_insert_eq. eauto.
  - exists s'. eauto.
Qed.

End detection.

(** ** The keys of the store *)
Section store.
Variables (slots_per_epoch : Z) (compute_domain : Domain.t → Z → Hash256 → Hash256).
Variables (attestation_signing_root : AttestationData.t → Hash256 → Hash256).
Variables (header_signing_root : BeaconBlockHeader.t → Hash256 → Hash256).
Abbreviation sign_attestation' := (sign_attestation compute_domain attestation_signing_root).
Abbreviation sign_block' := (sign_abstract_block slots_per_epoch compute_domain header_signing_root).

Lemma allows_enabled s service pk :
  s.(ValidatorStore.doppelganger_service) = Some service →
  doppelganger_protection_allows_signing s pk = true →
  validator_status service pk = DoppelgangerStatus.SigningEnabled pk.
Proof.
  unfold doppelganger_protection_allows_signing, validator_status. intros ->.
  destruct (_ !! pk) as [st|]; [|done]. by destruct (DoppelgangerState.requires_further_checks st).
Qed.

Lemma add_validator_service pk method now genesis s service s' :
  add_validator slots_per_epoch pk method (Some now) genesis s = (Ok tt, s') →
  s.(ValidatorStore.doppelganger_service) = Some service →
  ∃ service', s'.(ValidatorStore.doppelganger_service) = Some service' ∧
    service'.(DoppelgangerService.doppelganger_states) !! pk =
      Some (DoppelgangerState.mk (se_add (epoch now slots_per_epoch) 1)
        (if epoch now slots_per_epoch <=? epoch genesis slots_per_epoch then 0
         else DEFAULT_REMAINING_DETECTION_EPOCHS)).
Proof.
  unfold add_validator, mbind, M_bind, on_sql, lift, get, modify. intros H Hs.
  destruct (register_validator pk _) as [q sql]. destruct q as [[]|e| |]; try discriminate. simpl in H.
  rewrite Hs in H. simpl in H. injection H as <-. eexists. split; [reflexivity|].
  simpl. by rewrite lookup_insert_eq.
Qed.

End store.

(** ** Witnesses *)

(** Key 7 is added in slot 40, epoch 5; the round at slot 63 checks epoch 6. *)
Definition ex_service : DoppelgangerService.t := DoppelgangerService.mk ∅ false.
Definition ex_added : outcome AddValidatorError unit * ValidatorStore.t :=
  add_validator 8 7 SigningMethod.LocalKeystore (Some 40) 0 (ex_store (Some ex_service)).
Definition ex_service1 : DoppelgangerService.t :=
  default ex_service ex_added.2.(ValidatorStore.doppelganger_service).
Definition ex_round (slot e : Z) (live : bool) : round :=
  mkRound slot (LivenessResponses.mk [] [LivenessResponseData.mk 3 e live]) {[3 := 7]}.



(** An index the client did not ask for hides a doppelganger.  In the answer
    for the previous epoch, key 7 (index 3) is live; the answer also holds index
    9, which is not in the map.  The round ends with an error before it asks for
    the shutdown, although the activity was found. *)
Theorem unknown_index_prevents_shutdown :
  let c := mkRound 63 (LivenessResponses.mk []
    [LivenessResponseData.mk 3 6 true; LivenessResponseData.mk 9 6 false]) {[3 := 7]} in
  let '(r, s') := process_liveness_responses 8 c.(round_slot) c.(round_responses) c.(round_map) ex_service1 in
  active_in ex_service1 c ∧ r = Err (DgError.InconsistentIndicesMap 9) ∧
  s'.(DoppelgangerService.shutdown) = false.
Proof.
  cbv zeta. destruct (process_liveness_responses _ _ _ _ _) as [r s'] eqn:H. vm_compute in H. injection H as <- <-.
  split; [|split; reflexivity]. apply violators_iff. vm_compute. reflexivity.
Qed.
