(* ===== verification/BeaconStateDefs.v ===== *)
(** * The part of the beacon state that finality and fork choice read

    Fields and accessors of [consensus/types/src/beacon_state.rs], the
    participation flags ([participation_flags.rs]), and the running totals of
    attesting balances ([beacon_state/balance.rs],
    [beacon_state/progressive_balances_cache.rs] and
    [state_processing/src/common/update_progressive_balances_cache.rs]).

    A fixed-size vector of roots is the list of its entries; the cached totals
    of active balance and of attesting balance are options, as in the code.  A
    [ParticipationFlags] is its byte.  Metrics are left out. *)
From S2P Require Import Prelude SlotEpoch ProtoArrayDefs ForkChoiceDefs ForkSchedule.

Module RelativeEpochError.
Inductive t : Type :=
  | EpochTooLow (base other : Epoch)
  | EpochTooHigh (base other : Epoch)
  | ArithError (e : ArithError).
End RelativeEpochError.

(** The variants that the modelled code returns, in the order of the source. *)
Module BeaconStateError.
Inductive t : Type :=
  | IncorrectStateVariant
  | EpochOutOfBounds
  | SlotOutOfBounds
  | UnknownValidator (i : nat)
  | InvalidBitfield
  | EmptyCommittee
  | UnableToShuffle
  | ShuffleIndexOutOfBounds (i : nat)
  | BlockRootsOutOfBounds (i : nat)
  | StateRootsOutOfBounds (i : nat)
  | SlashingsOutOfBounds (i : nat)
  | BalancesOutOfBounds (i : nat)
  | RandaoMixesOutOfBounds (i : nat)
  | CommitteeCachesOutOfBounds (i : nat)
  | ParticipationOutOfBounds (i : nat)
  | InactivityScoresOutOfBounds (i : nat)
  | TooManyValidators
  | InsufficientValidators
  | NoCommittee (slot : Slot) (index : Z)
  | ZeroSlotsPerEpoch
  | PubkeyCacheInconsistent
  | TotalActiveBalanceCacheUninitialized
  | TotalActiveBalanceCacheInconsistent (initialized_epoch current_epoch : Epoch)
  | RelativeEpochError (e : RelativeEpochError.t)
  | ExitCacheUninitialized
  | ExitCacheInvalidEpoch (max_exit_epoch request_epoch : Epoch)
  | SlashingsCacheUninitialized (initialized_slot : option Slot) (latest_block_slot : Slot)
  | CommitteeCacheUninitialized (relative_epoch : option RelativeEpoch)
  | BlsError
  | SszTypesError
  | ProgressiveBalancesCacheNotInitialized
  | ProgressiveBalancesCacheInconsistent
  | IncorrectAttestationSource
  | IncorrectAttestationIndex
  | Arith (e : ArithError)
  | MilhouseError
  | InvalidFlagIndex (i : nat)
  | NonExecutionAddressWithdrawalCredential
  | NoCommitteeFound (index : Z)
  | InvalidCommitteeIndex (index : Z)
  | UnknownBuilder (i : Z)
  | ProposerLookaheadOutOfBounds (i : nat)
  | ComputeProposerIndicesPastEpoch (current_epoch request_epoch : Epoch)
  | ComputeProposerIndicesInsufficientLookahead (current_epoch request_epoch : Epoch)
  | ComputeProposerIndicesExcessiveLookahead (current_epoch request_epoch : Epoch)
  | PtcWindowInitError.
End BeaconStateError.

#[export] Instance arith_state_error : From ArithError BeaconStateError.t := BeaconStateError.Arith.
#[export] Instance relative_state_error : From RelativeEpochError.t BeaconStateError.t :=
  BeaconStateError.RelativeEpochError.
Definition arith {A} (o : outcome ArithError A) : outcome BeaconStateError.t A :=
  map_err BeaconStateError.Arith o.

(** ** Participation flags *)
Definition NUM_FLAG_INDICES : nat := 3.
Definition TIMELY_SOURCE_FLAG_INDEX : nat := 0.
Definition TIMELY_TARGET_FLAG_INDEX : nat := 1.
Definition TIMELY_HEAD_FLAG_INDEX : nat := 2.

Module ParticipationFlags.
Definition default : Z := 0.
Definition mask (flag_index : nat) : Z := Z.shiftl 1 (Z.of_nat flag_index).
Definition add_flag (flag_index : nat) (bits : Z) : outcome ArithError Z :=
  if (NUM_FLAG_INDICES <=? flag_index)%nat then Err Overflow
  else Ok (Z.lor bits (mask flag_index)).
Definition has_flag (bits : Z) (flag_index : nat) : outcome ArithError bool :=
  if (NUM_FLAG_INDICES <=? flag_index)%nat then Err Overflow
  else Ok (Z.land bits (mask flag_index) =? mask flag_index).
End ParticipationFlags.

(** ** Running totals *)
Module Balance.
Record t : Type := mk { raw : Z; minimum : Z }.
Definition zero (minimum : Z) : t := mk 0 minimum.
Definition get (b : t) : Z := Z.max b.(raw) b.(minimum).
Definition safe_add_assign (other : Z) (b : t) : outcome ArithError t :=
  raw' ← safe_add b.(raw) other; Ok (mk raw' b.(minimum)).
Definition safe_sub_assign (other : Z) (b : t) : outcome ArithError t :=
  raw' ← safe_sub b.(raw) other; Ok (mk raw' b.(minimum)).
End Balance.

(** [EpochTotalBalances]: one total for each flag. *)
Module EpochTotalBalances.
Definition t : Type := list Balance.t.
Definition new (effective_balance_increment : Z) : t :=
  replicate NUM_FLAG_INDICES (Balance.zero effective_balance_increment).
Definition total_flag_balance (c : t) (flag_index : nat) : outcome BeaconStateError.t Z :=
  ok_or (Balance.get <$> c !! flag_index) (BeaconStateError.InvalidFlagIndex flag_index).
Definition total_flag_balance_raw (c : t) (flag_index : nat) : outcome BeaconStateError.t Balance.t :=
  ok_or (c !! flag_index) (BeaconStateError.InvalidFlagIndex flag_index).

(** [get_mut(flag_index)], a fallible change through the reference. *)
Definition change (f : Balance.t → outcome ArithError Balance.t) (flag_index : nat)
    : M t BeaconStateError.t unit :=
  c ← get;
  balance ← lift (ok_or (c !! flag_index) (BeaconStateError.InvalidFlagIndex flag_index));
  balance' ← lift (arith (f balance));
  modify (fun c => <[flag_index := balance']> c).

Definition on_new_attestation (is_slashed : bool) (flag_index : nat) (validator_effective_balance : Z)
    : M t BeaconStateError.t unit :=
  if is_slashed then mret tt
  else change (Balance.safe_add_assign validator_effective_balance) flag_index.

Definition on_slashing (participation_flags : Z) (validator_effective_balance : Z)
    : M t BeaconStateError.t unit :=
  for_each (seq 0 NUM_FLAG_INDICES) (fun flag_index =>
    has ← lift (arith (ParticipationFlags.has_flag participation_flags flag_index));
    when has (change (Balance.safe_sub_assign validator_effective_balance) flag_index)).

Definition on_effective_balance_change (is_slashed : bool) (current_epoch_participation_flags : Z)
    (old_effective_balance new_effective_balance : Z) : M t BeaconStateError.t unit :=
  if is_slashed then mret tt
  else for_each (seq 0 NUM_FLAG_INDICES) (fun flag_index =>
    has ← lift (arith (ParticipationFlags.has_flag current_epoch_participation_flags flag_index));
    when has
      (if old_effective_balance <? new_effective_balance then
         diff ← lift (arith (safe_sub new_effective_balance old_effective_balance));
         change (Balance.safe_add_assign diff) flag_index
       else
         diff ← lift (arith (safe_sub old_effective_balance new_effective_balance));
         change (Balance.safe_sub_assign diff) flag_index)).
End EpochTotalBalances.

Module ProgressiveBalancesCache.
Record Inner : Type := mkInner {
  current_epoch : Epoch;
  previous_epoch_cache : EpochTotalBalances.t;
  current_epoch_cache : EpochTotalBalances.t;
}.
Definition t : Type := option Inner.
Definition set_previous (c : EpochTotalBalances.t) (i : Inner) : Inner :=
  mkInner i.(current_epoch) c i.(current_epoch_cache).
Definition set_current (c : EpochTotalBalances.t) (i : Inner) : Inner :=
  mkInner i.(current_epoch) i.(previous_epoch_cache) c.

Definition initialize (e : Epoch) (previous current : EpochTotalBalances.t) : t :=
  Some (mkInner e previous current).
Definition is_initialized (c : t) : bool := match c with Some _ => true | None => false end.
Definition is_initialized_at (c : t) (e : Epoch) : bool :=
  match c with Some inner => inner.(current_epoch) =? e | None => false end.

Definition get_inner (c : t) : outcome BeaconStateError.t Inner :=
  ok_or c BeaconStateError.ProgressiveBalancesCacheNotInitialized.

(** Run an update of one of the two epochs' totals through [get_inner_mut]. *)
Definition on_previous (m : M EpochTotalBalances.t BeaconStateError.t unit) : M t BeaconStateError.t unit :=
  c ← get;
  inner ← lift (get_inner c);
  zoom (fun _ => inner.(previous_epoch_cache)) (fun x c => set_previous x <$> c) m.
Definition on_current (m : M EpochTotalBalances.t BeaconStateError.t unit) : M t BeaconStateError.t unit :=
  c ← get;
  inner ← lift (get_inner c);
  zoom (fun _ => inner.(current_epoch_cache)) (fun x c => set_current x <$> c) m.

Definition on_new_attestation (e : Epoch) (is_slashed : bool) (flag_index : nat)
    (validator_effective_balance : Z) : M t BeaconStateError.t unit :=
  c ← get;
  cache ← lift (get_inner c);
  if e =? cache.(current_epoch) then
    on_current (EpochTotalBalances.on_new_attestation is_slashed flag_index validator_effective_balance)
  else
    e' ← lift (arith (safe_add e 1));
    if e' =? cache.(current_epoch) then
      on_previous (EpochTotalBalances.on_new_attestation is_slashed flag_index validator_effective_balance)
    else throw BeaconStateError.ProgressiveBalancesCacheInconsistent.

Definition on_slashing (previous_epoch_participation current_epoch_participation : Z)
    (effective_balance : Z) : M t BeaconStateError.t unit :=
  on_previous (EpochTotalBalances.on_slashing previous_epoch_participation effective_balance) ;;
  on_current (EpochTotalBalances.on_slashing current_epoch_participation effective_balance).

Definition on_effective_balance_change (is_slashed : bool) (current_epoch_participation : Z)
    (old_effective_balance new_effective_balance : Z) : M t BeaconStateError.t unit :=
  on_current (EpochTotalBalances.on_effective_balance_change is_slashed current_epoch_participation
    old_effective_balance new_effective_balance).

Definition on_epoch_transition (effective_balance_increment : Z) : M t BeaconStateError.t unit :=
  c ← get;
  cache ← lift (get_inner c);
  e ← lift (arith (safe_add cache.(current_epoch) 1));
  modify (fun _ => Some (mkInner e cache.(current_epoch_cache)
    (EpochTotalBalances.new effective_balance_increment))).

Definition previous_epoch_flag_attesting_balance (c : t) (flag_index : nat) : outcome BeaconStateError.t Z :=
  inner ← get_inner c; EpochTotalBalances.total_flag_balance inner.(previous_epoch_cache) flag_index.
Definition current_epoch_flag_attesting_balance (c : t) (flag_index : nat) : outcome BeaconStateError.t Z :=
  inner ← get_inner c; EpochTotalBalances.total_flag_balance inner.(current_epoch_cache) flag_index.
Definition previous_epoch_target_attesting_balance (c : t) : outcome BeaconStateError.t Z :=
  previous_epoch_flag_attesting_balance c TIMELY_TARGET_FLAG_INDEX.
Definition current_epoch_target_attesting_balance (c : t) : outcome BeaconStateError.t Z :=
  current_epoch_flag_attesting_balance c TIMELY_TARGET_FLAG_INDEX.
End ProgressiveBalancesCache.

(** ** The state *)
Module BeaconState.
Record t : Type := mk {
  fork_name : ForkName.t;
  slot : Slot;
  block_roots : list Hash256;
  state_roots : list Hash256;
  validators : list Validator.t;
  previous_epoch_participation : list Z;
  current_epoch_participation : list Z;
  justification_bits : list bool;
  previous_justified_checkpoint : Checkpoint.t;
  current_justified_checkpoint : Checkpoint.t;
  finalized_checkpoint : Checkpoint.t;
  total_active_balance : option (Epoch * Z);
  progressive_balances_cache : ProgressiveBalancesCache.t;
}.
Definition set_finality (bits : list bool) (previous current finalized : Checkpoint.t) (s : t) : t :=
  mk s.(fork_name) s.(slot) s.(block_roots) s.(state_roots) s.(validators)
    s.(previous_epoch_participation) s.(current_epoch_participation)
    bits previous current finalized s.(total_active_balance) s.(progressive_balances_cache).
Definition set_validators (v : list Validator.t) (s : t) : t :=
  mk s.(fork_name) s.(slot) s.(block_roots) s.(state_roots) v
    s.(previous_epoch_participation) s.(current_epoch_participation) s.(justification_bits)
    s.(previous_justified_checkpoint) s.(current_justified_checkpoint) s.(finalized_checkpoint)
    s.(total_active_balance) s.(progressive_balances_cache).
Definition set_participation (previous current : list Z) (s : t) : t :=
  mk s.(fork_name) s.(slot) s.(block_roots) s.(state_roots) s.(validators)
    previous current s.(justification_bits)
    s.(previous_justified_checkpoint) s.(current_justified_checkpoint) s.(finalized_checkpoint)
    s.(total_active_balance) s.(progressive_balances_cache).
Definition set_progressive (c : ProgressiveBalancesCache.t) (s : t) : t :=
  mk s.(fork_name) s.(slot) s.(block_roots) s.(state_roots) s.(validators)
    s.(previous_epoch_participation) s.(current_epoch_participation) s.(justification_bits)
    s.(previous_justified_checkpoint) s.(current_justified_checkpoint) s.(finalized_checkpoint)
    s.(total_active_balance) c.
Definition set_total_active (b : option (Epoch * Z)) (s : t) : t :=
  mk s.(fork_name) s.(slot) s.(block_roots) s.(state_roots) s.(validators)
    s.(previous_epoch_participation) s.(current_epoch_participation) s.(justification_bits)
    s.(previous_justified_checkpoint) s.(current_justified_checkpoint) s.(finalized_checkpoint)
    b s.(progressive_balances_cache).
Definition set_slot (x : Slot) (s : t) : t :=
  mk s.(fork_name) x s.(block_roots) s.(state_roots) s.(validators)
    s.(previous_epoch_participation) s.(current_epoch_participation) s.(justification_bits)
    s.(previous_justified_checkpoint) s.(current_justified_checkpoint) s.(finalized_checkpoint)
    s.(total_active_balance) s.(progressive_balances_cache).
Definition set_fork_name (f : ForkName.t) (s : t) : t :=
  mk f s.(slot) s.(block_roots) s.(state_roots) s.(validators)
    s.(previous_epoch_participation) s.(current_epoch_participation) s.(justification_bits)
    s.(previous_justified_checkpoint) s.(current_justified_checkpoint) s.(finalized_checkpoint)
    s.(total_active_balance) s.(progressive_balances_cache).
Definition set_roots (block_roots state_roots : list Hash256) (s : t) : t :=
  mk s.(fork_name) s.(slot) block_roots state_roots s.(validators)
    s.(previous_epoch_participation) s.(current_epoch_participation) s.(justification_bits)
    s.(previous_justified_checkpoint) s.(current_justified_checkpoint) s.(finalized_checkpoint)
    s.(total_active_balance) s.(progressive_balances_cache).
End BeaconState.

Abbreviation BsM := (M BeaconState.t BeaconStateError.t).

(** [get_latest_block_roots_index] and [get_latest_state_roots_index]: the
    position of [slot] in a circular vector of [len] entries. *)
Definition latest_roots_index (len : nat) (state_slot slot : Slot) : outcome BeaconStateError.t nat :=
  if slot <? state_slot then
    last ← arith (safe_add slot (Z.of_nat len));
    if state_slot <=? last then i ← arith (safe_rem slot (Z.of_nat len)); Ok (Z.to_nat i)
    else Err BeaconStateError.SlotOutOfBounds
  else Err BeaconStateError.SlotOutOfBounds.

Definition get_block_root (s : BeaconState.t) (slot : Slot) : outcome BeaconStateError.t Hash256 :=
  let roots := s.(BeaconState.block_roots) in
  i ← latest_roots_index (length roots) s.(BeaconState.slot) slot;
  ok_or (roots !! i) (BeaconStateError.BlockRootsOutOfBounds i).

Definition get_state_root (s : BeaconState.t) (slot : Slot) : outcome BeaconStateError.t Hash256 :=
  let roots := s.(BeaconState.state_roots) in
  i ← latest_roots_index (length roots) s.(BeaconState.slot) slot;
  ok_or (roots !! i) (BeaconStateError.StateRootsOutOfBounds i).

Definition set_total_active_balance (effective_balance_increment : Z) (e : Epoch) (balance : Z)
    (s : BeaconState.t) : BeaconState.t :=
  BeaconState.set_total_active (Some (e, Z.max balance effective_balance_increment)) s.

Definition get_total_active_balance_at_epoch (s : BeaconState.t) (e : Epoch) : outcome BeaconStateError.t Z :=
  '(initialized_epoch, balance) ← ok_or s.(BeaconState.total_active_balance)
     BeaconStateError.TotalActiveBalanceCacheUninitialized;
  if initialized_epoch =? e then Ok balance
  else Err (BeaconStateError.TotalActiveBalanceCacheInconsistent initialized_epoch e).

Definition is_progressive_balances_enabled (s : BeaconState.t) : bool :=
  ForkName.ge s.(BeaconState.fork_name) ForkName.Altair.

(** [RelativeEpoch::from_epoch] and [RelativeEpoch::into_epoch]. *)
Definition from_epoch (base other : Epoch) : outcome RelativeEpochError.t RelativeEpoch :=
  let arith {A} (o : outcome ArithError A) := map_err RelativeEpochError.ArithError o in
  if other =? base then Ok Current
  else
    other' ← arith (safe_add other 1);
    if other' =? base then Ok Previous
    else
      base' ← arith (safe_add base 1);
      if other =? base' then Ok Next
      else if other <? base then Err (RelativeEpochError.EpochTooLow base other)
      else Err (RelativeEpochError.EpochTooHigh base other).
Definition into_epoch (r : RelativeEpoch) (base : Epoch) : Epoch :=
  match r with
  | Current => base
  | Previous => u64_saturating_sub base 1
  | Next => u64_saturating_add base 1
  end.

Section eth_spec.
Context (slots_per_epoch : Z).

Definition state_current_epoch (s : BeaconState.t) : Epoch := epoch s.(BeaconState.slot) slots_per_epoch.
Definition state_previous_epoch (s : BeaconState.t) : Epoch := previous_epoch (state_current_epoch s).

Definition get_block_root_at_epoch (s : BeaconState.t) (e : Epoch) : outcome BeaconStateError.t Hash256 :=
  get_block_root s (start_slot e slots_per_epoch).
Definition get_state_root_at_epoch_start (s : BeaconState.t) (e : Epoch) : outcome BeaconStateError.t Hash256 :=
  get_state_root s (start_slot e slots_per_epoch).
Definition get_total_active_balance (s : BeaconState.t) : outcome BeaconStateError.t Z :=
  get_total_active_balance_at_epoch s (state_current_epoch s).

Definition attester_shuffling_decision_root (s : BeaconState.t) (block_root : Hash256)
    (relative_epoch : RelativeEpoch) : outcome BeaconStateError.t Hash256 :=
  let decision_slot := attester_shuffling_decision_slot slots_per_epoch (state_current_epoch s) relative_epoch in
  if s.(BeaconState.slot) =? decision_slot then Ok block_root else get_block_root s decision_slot.
Definition attestation_shuffling_id_new (block_root : Hash256) (s : BeaconState.t)
    (relative_epoch : RelativeEpoch) : outcome BeaconStateError.t AttestationShufflingId.t :=
  let shuffling_epoch := into_epoch relative_epoch (state_current_epoch s) in
  shuffling_decision_block ← attester_shuffling_decision_root s block_root relative_epoch;
  Ok (AttestationShufflingId.mk shuffling_epoch shuffling_decision_block).

(** [compute_total_active_balance_slow]. *)
Definition compute_total_active_balance_slow (effective_balance_increment : Z) (s : BeaconState.t)
    : outcome BeaconStateError.t Z :=
  let current_epoch := state_current_epoch s in
  total ← foldl (fun acc v =>
      total ← acc;
      if Validator.is_active_at v current_epoch then arith (safe_add total v.(Validator.effective_balance))
      else Ok total) (Ok 0) s.(BeaconState.validators);
  Ok (Z.max total effective_balance_increment).

(** ** Keeping the totals *)

Definition update_flag_total_balances (participation_flags : Z) (validator : Validator.t)
    : M EpochTotalBalances.t BeaconStateError.t unit :=
  c ← get;
  for_each (seq 0 (length c)) (fun flag =>
    has ← lift (arith (ParticipationFlags.has_flag participation_flags flag));
    when has (EpochTotalBalances.change (Balance.safe_add_assign validator.(Validator.effective_balance)) flag)).

(** The loop of [initialize_progressive_balances_cache], on the totals of the
    previous and of the current epoch. *)
Definition initialize_step (previous_epoch current_epoch : Epoch) (entry : Validator.t * Z * Z)
    : M (EpochTotalBalances.t * EpochTotalBalances.t) BeaconStateError.t unit :=
  let '(validator, current_epoch_flags, previous_epoch_flags) := entry in
  if validator.(Validator.slashed) then mret tt
  else
    when (Validator.is_active_at validator current_epoch)
      (zoom snd (fun c s => (s.1, c)) (update_flag_total_balances current_epoch_flags validator)) ;;
    when (Validator.is_active_at validator previous_epoch)
      (zoom fst (fun c s => (c, s.2)) (update_flag_total_balances previous_epoch_flags validator)).

(** The metrics read the target totals at the end, which are there. *)
Definition initialize_progressive_balances_cache (effective_balance_increment : Z) : BsM unit :=
  s ← get;
  if negb (is_progressive_balances_enabled s)
     || ProgressiveBalancesCache.is_initialized s.(BeaconState.progressive_balances_cache)
  then mret tt
  else
    let current_epoch := state_current_epoch s in
    let previous_epoch := state_previous_epoch s in
    let new := EpochTotalBalances.new effective_balance_increment in
    let entries := zip (zip s.(BeaconState.validators) s.(BeaconState.current_epoch_participation))
                     s.(BeaconState.previous_epoch_participation) in
    let '(r, (previous, current)) := for_each entries (initialize_step previous_epoch current_epoch) (new, new) in
    lift r ;;
    modify (BeaconState.set_progressive (ProgressiveBalancesCache.initialize current_epoch previous current)).
End eth_spec.

(** Run an update of the cached totals. *)
Definition on_progressive (m : M ProgressiveBalancesCache.t BeaconStateError.t unit) : BsM unit :=
  zoom BeaconState.progressive_balances_cache BeaconState.set_progressive m.

Definition update_progressive_balances_on_attestation (e : Epoch) (flag_index : nat)
    (validator_effective_balance : Z) (validator_slashed : bool) : BsM unit :=
  s ← get;
  when (is_progressive_balances_enabled s)
    (on_progressive (ProgressiveBalancesCache.on_new_attestation e validator_slashed flag_index
       validator_effective_balance)).

Definition update_progressive_balances_on_slashing (validator_index : nat)
    (validator_effective_balance : Z) : BsM unit :=
  s ← get;
  when (is_progressive_balances_enabled s)
    (previous ← lift (ok_or (s.(BeaconState.previous_epoch_participation) !! validator_index)
                        (BeaconStateError.UnknownValidator validator_index));
     current ← lift (ok_or (s.(BeaconState.current_epoch_participation) !! validator_index)
                       (BeaconStateError.UnknownValidator validator_index));
     on_progressive (ProgressiveBalancesCache.on_slashing previous current validator_effective_balance)).

Definition update_progressive_balances_on_epoch_transition (effective_balance_increment : Z) : BsM unit :=
  s ← get;
  when (is_progressive_balances_enabled s)
    (on_progressive (ProgressiveBalancesCache.on_epoch_transition effective_balance_increment)).

(** [process_participation_flag_updates]. *)
Definition process_participation_flag_updates : BsM unit :=
  modify (fun s => BeaconState.set_participation s.(BeaconState.current_epoch_participation)
    (replicate (length s.(BeaconState.validators)) ParticipationFlags.default) s).
