(* ===== verification/ValidatorDefs.v ===== *)
(** * Validators and the constants of the state transition

    The record of a validator and its predicates
    ([consensus/types/src/validator.rs]), and the fields of [ChainSpec]
    ([chain_spec.rs]) and of the preset [EthSpec] ([eth_spec.rs]) that the state
    transition reads, with their mainnet and minimal values.

    Withdrawal credentials are the number their 32 bytes spell, first byte
    first; an address is the number of its 20 bytes. *)
From S2P Require Import Prelude SlotEpoch ProtoArrayDefs ForkChoiceDefs ForkSchedule.

Abbreviation Address := Z (only parsing).

Module Spec.
Record t : Type := mk {
  (* EthSpec *)
  slots_per_epoch : Z;
  slots_per_historical_root : Z;
  historical_roots_limit : Z;
  epochs_per_historical_vector : Z;
  epochs_per_slashings_vector : Z;
  slots_per_eth1_voting_period : Z;
  max_deposits : Z;
  max_pending_attestations : Z;
  validator_registry_limit : Z;
  max_withdrawals_per_payload : Z;
  sync_committee_size : Z;
  pending_deposits_limit : Z;
  pending_partial_withdrawals_limit : Z;
  pending_consolidations_limit : Z;
  max_pending_deposits_per_epoch : Z;
  builder_registry_limit : Z;
  builder_pending_withdrawals_limit : Z;
  builder_pending_payments_limit : Z;
  inclusion_list_committee_size : Z;
  ptc_size : Z;
  ptc_window_slots : Z;
  proposer_lookahead_slots : Z;
  (* ChainSpec *)
  genesis_slot : Slot;
  far_future_epoch : Epoch;
  base_rewards_per_epoch : Z;
  deposit_contract_tree_depth : Z;
  max_committees_per_slot : Z;
  target_committee_size : Z;
  shuffle_round_count : nat;
  min_per_epoch_churn_limit : Z;
  max_per_epoch_activation_churn_limit : Z;
  churn_limit_quotient : Z;
  hysteresis_quotient : Z;
  hysteresis_downward_multiplier : Z;
  hysteresis_upward_multiplier : Z;
  min_deposit_amount : Z;
  max_effective_balance : Z;
  ejection_balance : Z;
  effective_balance_increment : Z;
  bls_withdrawal_prefix_byte : Z;
  eth1_address_withdrawal_prefix_byte : Z;
  compounding_withdrawal_prefix_byte : Z;
  seconds_per_slot : Z;
  min_attestation_inclusion_delay : Z;
  min_seed_lookahead : Epoch;
  max_seed_lookahead : Epoch;
  min_epochs_to_inactivity_penalty : Z;
  min_validator_withdrawability_delay : Epoch;
  shard_committee_period : Z;
  base_reward_factor : Z;
  whistleblower_reward_quotient : Z;
  proposer_reward_quotient : Z;
  inactivity_penalty_quotient : Z;
  min_slashing_penalty_quotient : Z;
  proportional_slashing_multiplier : Z;
  domain_beacon_proposer : Z;
  domain_beacon_attester : Z;
  domain_sync_committee : Z;
  inactivity_penalty_quotient_altair : Z;
  min_slashing_penalty_quotient_altair : Z;
  proportional_slashing_multiplier_altair : Z;
  inactivity_score_bias : Z;
  inactivity_score_recovery_rate : Z;
  epochs_per_sync_committee_period : Z;
  inactivity_penalty_quotient_bellatrix : Z;
  min_slashing_penalty_quotient_bellatrix : Z;
  proportional_slashing_multiplier_bellatrix : Z;
  max_validators_per_withdrawals_sweep : Z;
  unset_deposit_requests_start_index : Z;
  full_exit_request_amount : Z;
  min_activation_balance : Z;
  max_effective_balance_electra : Z;
  min_slashing_penalty_quotient_electra : Z;
  whistleblower_reward_quotient_electra : Z;
  max_pending_partials_per_withdrawals_sweep : Z;
  min_per_epoch_churn_limit_electra : Z;
  max_per_epoch_activation_exit_churn_limit : Z;
  builder_index_self_build : Z;
  builder_payment_threshold_numerator : Z;
  builder_payment_threshold_denominator : Z;
  min_builder_withdrawability_delay : Epoch;
  max_builders_per_withdrawals_sweep : Z;
  domain_ptc_attester : Z;
  max_blobs_per_block : Z;
  max_blobs_per_block_electra : Z;
}.

(** [ChainSpec::mainnet] and [MainnetEthSpec]. *)
Definition mainnet : t := {|
  slots_per_epoch := 32;
  slots_per_historical_root := 8192;
  historical_roots_limit := 2 ^ 24;
  epochs_per_historical_vector := 65536;
  epochs_per_slashings_vector := 8192;
  slots_per_eth1_voting_period := 2048;
  max_deposits := 16;
  max_pending_attestations := 4096;
  validator_registry_limit := 2 ^ 40;
  max_withdrawals_per_payload := 16;
  sync_committee_size := 512;
  pending_deposits_limit := 2 ^ 27;
  pending_partial_withdrawals_limit := 2 ^ 27;
  pending_consolidations_limit := 2 ^ 18;
  max_pending_deposits_per_epoch := 16;
  builder_registry_limit := 2 ^ 40;
  builder_pending_withdrawals_limit := 2 ^ 20;
  builder_pending_payments_limit := 64;
  inclusion_list_committee_size := 16;
  ptc_size := 512;
  ptc_window_slots := 96;
  proposer_lookahead_slots := 64;
  genesis_slot := 0;
  far_future_epoch := u64_max;
  base_rewards_per_epoch := 4;
  deposit_contract_tree_depth := 32;
  max_committees_per_slot := 64;
  target_committee_size := 128;
  shuffle_round_count := 90;
  min_per_epoch_churn_limit := 4;
  max_per_epoch_activation_churn_limit := 8;
  churn_limit_quotient := 65536;
  hysteresis_quotient := 4;
  hysteresis_downward_multiplier := 1;
  hysteresis_upward_multiplier := 5;
  min_deposit_amount := 10 ^ 9;
  max_effective_balance := 32 * 10 ^ 9;
  ejection_balance := 16 * 10 ^ 9;
  effective_balance_increment := 10 ^ 9;
  bls_withdrawal_prefix_byte := 0;
  eth1_address_withdrawal_prefix_byte := 1;
  compounding_withdrawal_prefix_byte := 2;
  seconds_per_slot := 12;
  min_attestation_inclusion_delay := 1;
  min_seed_lookahead := 1;
  max_seed_lookahead := 4;
  min_epochs_to_inactivity_penalty := 4;
  min_validator_withdrawability_delay := 256;
  shard_committee_period := 256;
  base_reward_factor := 64;
  whistleblower_reward_quotient := 512;
  proposer_reward_quotient := 8;
  inactivity_penalty_quotient := 2 ^ 26;
  min_slashing_penalty_quotient := 128;
  proportional_slashing_multiplier := 1;
  domain_beacon_proposer := 0;
  domain_beacon_attester := 1;
  domain_sync_committee := 7;
  inactivity_penalty_quotient_altair := 3 * 2 ^ 24;
  min_slashing_penalty_quotient_altair := 64;
  proportional_slashing_multiplier_altair := 2;
  inactivity_score_bias := 4;
  inactivity_score_recovery_rate := 16;
  epochs_per_sync_committee_period := 256;
  inactivity_penalty_quotient_bellatrix := 2 ^ 24;
  min_slashing_penalty_quotient_bellatrix := 32;
  proportional_slashing_multiplier_bellatrix := 3;
  max_validators_per_withdrawals_sweep := 16384;
  unset_deposit_requests_start_index := u64_max;
  full_exit_request_amount := 0;
  min_activation_balance := 32 * 10 ^ 9;
  max_effective_balance_electra := 2048 * 10 ^ 9;
  min_slashing_penalty_quotient_electra := 4096;
  whistleblower_reward_quotient_electra := 4096;
  max_pending_partials_per_withdrawals_sweep := 8;
  min_per_epoch_churn_limit_electra := 128 * 10 ^ 9;
  max_per_epoch_activation_exit_churn_limit := 256 * 10 ^ 9;
  builder_index_self_build := u64_max;
  builder_payment_threshold_numerator := 6;
  builder_payment_threshold_denominator := 10;
  min_builder_withdrawability_delay := 64;
  max_builders_per_withdrawals_sweep := 16384;
  domain_ptc_attester := 12;
  max_blobs_per_block := 6;
  max_blobs_per_block_electra := 9;
|}.

(** [ChainSpec::minimal] and [MinimalEthSpec]. *)
Definition minimal : t := {|
  slots_per_epoch := 8;
  slots_per_historical_root := 64;
  historical_roots_limit := 2 ^ 24;
  epochs_per_historical_vector := 64;
  epochs_per_slashings_vector := 64;
  slots_per_eth1_voting_period := 32;
  max_deposits := 16;
  max_pending_attestations := 1024;
  validator_registry_limit := 2 ^ 40;
  max_withdrawals_per_payload := 4;
  sync_committee_size := 32;
  pending_deposits_limit := 2 ^ 27;
  pending_partial_withdrawals_limit := 64;
  pending_consolidations_limit := 64;
  max_pending_deposits_per_epoch := 16;
  builder_registry_limit := 2 ^ 40;
  builder_pending_withdrawals_limit := 2 ^ 20;
  builder_pending_payments_limit := 16;
  inclusion_list_committee_size := 16;
  ptc_size := 2;
  ptc_window_slots := 24;
  proposer_lookahead_slots := 16;
  genesis_slot := 0;
  far_future_epoch := u64_max;
  base_rewards_per_epoch := 4;
  deposit_contract_tree_depth := 32;
  max_committees_per_slot := 4;
  target_committee_size := 4;
  shuffle_round_count := 10;
  min_per_epoch_churn_limit := 2;
  max_per_epoch_activation_churn_limit := 4;
  churn_limit_quotient := 32;
  hysteresis_quotient := 4;
  hysteresis_downward_multiplier := 1;
  hysteresis_upward_multiplier := 5;
  min_deposit_amount := 10 ^ 9;
  max_effective_balance := 32 * 10 ^ 9;
  ejection_balance := 16 * 10 ^ 9;
  effective_balance_increment := 10 ^ 9;
  bls_withdrawal_prefix_byte := 0;
  eth1_address_withdrawal_prefix_byte := 1;
  compounding_withdrawal_prefix_byte := 2;
  seconds_per_slot := 6;
  min_attestation_inclusion_delay := 1;
  min_seed_lookahead := 1;
  max_seed_lookahead := 4;
  min_epochs_to_inactivity_penalty := 4;
  min_validator_withdrawability_delay := 256;
  shard_committee_period := 64;
  base_reward_factor := 64;
  whistleblower_reward_quotient := 512;
  proposer_reward_quotient := 8;
  inactivity_penalty_quotient := 2 ^ 25;
  min_slashing_penalty_quotient := 64;
  proportional_slashing_multiplier := 2;
  domain_beacon_proposer := 0;
  domain_beacon_attester := 1;
  domain_sync_committee := 7;
  inactivity_penalty_quotient_altair := 3 * 2 ^ 24;
  min_slashing_penalty_quotient_altair := 64;
  proportional_slashing_multiplier_altair := 2;
  inactivity_score_bias := 4;
  inactivity_score_recovery_rate := 16;
  epochs_per_sync_committee_period := 8;
  inactivity_penalty_quotient_bellatrix := 2 ^ 24;
  min_slashing_penalty_quotient_bellatrix := 32;
  proportional_slashing_multiplier_bellatrix := 3;
  max_validators_per_withdrawals_sweep := 16;
  unset_deposit_requests_start_index := u64_max;
  full_exit_request_amount := 0;
  min_activation_balance := 32 * 10 ^ 9;
  max_effective_balance_electra := 2048 * 10 ^ 9;
  min_slashing_penalty_quotient_electra := 4096;
  whistleblower_reward_quotient_electra := 4096;
  max_pending_partials_per_withdrawals_sweep := 2;
  min_per_epoch_churn_limit_electra := 64 * 10 ^ 9;
  max_per_epoch_activation_exit_churn_limit := 128 * 10 ^ 9;
  builder_index_self_build := u64_max;
  builder_payment_threshold_numerator := 6;
  builder_payment_threshold_denominator := 10;
  min_builder_withdrawability_delay := 2;
  max_builders_per_withdrawals_sweep := 16;
  domain_ptc_attester := 12;
  max_blobs_per_block := 6;
  max_blobs_per_block_electra := 9;
|}.
End Spec.

(** [altair_enabled], [electra_enabled], [gloas_enabled] and so on. *)
Abbreviation altair_enabled f := (ForkName.ge f ForkName.Altair).
Abbreviation bellatrix_enabled f := (ForkName.ge f ForkName.Bellatrix).
Abbreviation capella_enabled f := (ForkName.ge f ForkName.Capella).
Abbreviation deneb_enabled f := (ForkName.ge f ForkName.Deneb).
Abbreviation electra_enabled f := (ForkName.ge f ForkName.Electra).
Abbreviation gloas_enabled f := (ForkName.ge f ForkName.Gloas).

Section spec.
Context (spec : Spec.t).

Definition inactivity_penalty_quotient_for_fork (f : ForkName.t) : Z :=
  if bellatrix_enabled f then spec.(Spec.inactivity_penalty_quotient_bellatrix)
  else if altair_enabled f then spec.(Spec.inactivity_penalty_quotient_altair)
  else spec.(Spec.inactivity_penalty_quotient).
Definition proportional_slashing_multiplier_for_state (f : ForkName.t) : Z :=
  if bellatrix_enabled f then spec.(Spec.proportional_slashing_multiplier_bellatrix)
  else if altair_enabled f then spec.(Spec.proportional_slashing_multiplier_altair)
  else spec.(Spec.proportional_slashing_multiplier).
Definition min_slashing_penalty_quotient_for_state (f : ForkName.t) : Z :=
  if electra_enabled f then spec.(Spec.min_slashing_penalty_quotient_electra)
  else if bellatrix_enabled f then spec.(Spec.min_slashing_penalty_quotient_bellatrix)
  else if altair_enabled f then spec.(Spec.min_slashing_penalty_quotient_altair)
  else spec.(Spec.min_slashing_penalty_quotient).
Definition whistleblower_reward_quotient_for_state (f : ForkName.t) : Z :=
  if electra_enabled f then spec.(Spec.whistleblower_reward_quotient_electra)
  else spec.(Spec.whistleblower_reward_quotient).
Definition max_effective_balance_for_fork (f : ForkName.t) : Z :=
  if electra_enabled f then spec.(Spec.max_effective_balance_electra)
  else spec.(Spec.max_effective_balance).
Definition compute_activation_exit_epoch (e : Epoch) : outcome ArithError Epoch :=
  e' ← safe_add e 1; safe_add e' spec.(Spec.max_seed_lookahead).

(** [as_slice().first()] and [as_slice().get(12..)]. *)
Definition credential_prefix (c : Hash256) : Z := Z.shiftr c 248.
Definition credential_address (c : Hash256) : Address := Z.land c (Z.ones 160).
Definition with_prefix (prefix : Z) (c : Hash256) : Hash256 :=
  Z.lor (Z.shiftl prefix 248) (Z.land c (Z.ones 248)).

Definition is_compounding_withdrawal_credential (c : Hash256) : bool :=
  credential_prefix c =? spec.(Spec.compounding_withdrawal_prefix_byte).
Definition has_eth1_withdrawal_credential (v : Validator.t) : bool :=
  credential_prefix v.(Validator.withdrawal_credentials) =? spec.(Spec.eth1_address_withdrawal_prefix_byte).
Definition has_compounding_withdrawal_credential (v : Validator.t) : bool :=
  is_compounding_withdrawal_credential v.(Validator.withdrawal_credentials).
Definition has_execution_withdrawal_credential (v : Validator.t) : bool :=
  has_compounding_withdrawal_credential v || has_eth1_withdrawal_credential v.
Definition get_execution_withdrawal_address (v : Validator.t) : option Address :=
  if has_execution_withdrawal_credential v
  then Some (credential_address v.(Validator.withdrawal_credentials)) else None.
Definition get_max_effective_balance (v : Validator.t) (f : ForkName.t) : Z :=
  if electra_enabled f then
    if has_compounding_withdrawal_credential v then spec.(Spec.max_effective_balance_electra)
    else spec.(Spec.min_activation_balance)
  else spec.(Spec.max_effective_balance).
End spec.

(** ** The methods of [Validator] *)
Module ValidatorOps.
Import Validator.
Definition set_withdrawal_credentials (c : Hash256) (v : t) : t :=
  mk v.(pubkey) c v.(effective_balance) v.(slashed)
    v.(activation_eligibility_epoch) v.(activation_epoch) v.(exit_epoch) v.(withdrawable_epoch).
Definition set_effective_balance (b : Z) (v : t) : t :=
  mk v.(pubkey) v.(withdrawal_credentials) b v.(slashed)
    v.(activation_eligibility_epoch) v.(activation_epoch) v.(exit_epoch) v.(withdrawable_epoch).
Definition set_slashed (v : t) : t :=
  mk v.(pubkey) v.(withdrawal_credentials) v.(effective_balance) true
    v.(activation_eligibility_epoch) v.(activation_epoch) v.(exit_epoch) v.(withdrawable_epoch).
Definition set_activation_eligibility_epoch (e : Epoch) (v : t) : t :=
  mk v.(pubkey) v.(withdrawal_credentials) v.(effective_balance) v.(slashed)
    e v.(activation_epoch) v.(exit_epoch) v.(withdrawable_epoch).
Definition set_activation_epoch (e : Epoch) (v : t) : t :=
  mk v.(pubkey) v.(withdrawal_credentials) v.(effective_balance) v.(slashed)
    v.(activation_eligibility_epoch) e v.(exit_epoch) v.(withdrawable_epoch).
Definition set_exit (exit withdrawable : Epoch) (v : t) : t :=
  mk v.(pubkey) v.(withdrawal_credentials) v.(effective_balance) v.(slashed)
    v.(activation_eligibility_epoch) v.(activation_epoch) exit withdrawable.

Section spec.
Context (spec : Spec.t).

(** [amount - (amount % spec.effective_balance_increment)] is plain Rust: a
    remainder by zero panics. *)
Definition from_deposit {E} (key : Z) (credentials : Hash256) (amount : Z) (f : ForkName.t) : outcome E t :=
  let v := mk key credentials 0 false spec.(Spec.far_future_epoch) spec.(Spec.far_future_epoch)
             spec.(Spec.far_future_epoch) spec.(Spec.far_future_epoch) in
  r ← expect (u64_checked_rem amount spec.(Spec.effective_balance_increment));
  Ok (set_effective_balance (Z.min (amount - r) (get_max_effective_balance spec v f)) v).

Definition is_slashable_at (v : t) (e : Epoch) : bool :=
  negb v.(slashed) && (v.(activation_epoch) <=? e) && (e <? v.(withdrawable_epoch)).
Definition is_exited_at (v : t) (e : Epoch) : bool := v.(exit_epoch) <=? e.
Definition is_withdrawable_at (v : t) (e : Epoch) : bool := v.(withdrawable_epoch) <=? e.

Definition is_eligible_for_activation_queue_base (v : t) : bool :=
  (v.(activation_eligibility_epoch) =? spec.(Spec.far_future_epoch))
  && (v.(effective_balance) =? spec.(Spec.max_effective_balance)).
Definition is_eligible_for_activation_queue_electra (v : t) : bool :=
  (v.(activation_eligibility_epoch) =? spec.(Spec.far_future_epoch))
  && (spec.(Spec.min_activation_balance) <=? v.(effective_balance)).
Definition is_eligible_for_activation_queue (v : t) (f : ForkName.t) : bool :=
  if electra_enabled f then is_eligible_for_activation_queue_electra v
  else is_eligible_for_activation_queue_base v.

Definition is_eligible_for_activation_with_finalized_checkpoint (v : t) (finalized : Checkpoint.t) : bool :=
  (v.(activation_eligibility_epoch) <=? finalized.(Checkpoint.epoch))
  && (v.(activation_epoch) =? spec.(Spec.far_future_epoch)).
Definition could_be_eligible_for_activation_at (v : t) (e : Epoch) : bool :=
  (v.(activation_epoch) =? spec.(Spec.far_future_epoch)) && (v.(activation_eligibility_epoch) <? e).

Definition change_withdrawal_credentials (address : Address) (v : t) : t :=
  set_withdrawal_credentials (Z.lor (Z.shiftl spec.(Spec.eth1_address_withdrawal_prefix_byte) 248) address) v.

Definition is_fully_withdrawable_validator_capella (v : t) (balance : Z) (e : Epoch) : bool :=
  has_eth1_withdrawal_credential spec v && (v.(withdrawable_epoch) <=? e) && (0 <? balance).
Definition is_fully_withdrawable_validator_electra (v : t) (balance : Z) (e : Epoch) : bool :=
  has_execution_withdrawal_credential spec v && (v.(withdrawable_epoch) <=? e) && (0 <? balance).
Definition is_fully_withdrawable_validator (v : t) (balance : Z) (e : Epoch) (f : ForkName.t) : bool :=
  if electra_enabled f then is_fully_withdrawable_validator_electra v balance e
  else is_fully_withdrawable_validator_capella v balance e.
Definition is_partially_withdrawable_validator_capella (v : t) (balance : Z) : bool :=
  has_eth1_withdrawal_credential spec v && (v.(effective_balance) =? spec.(Spec.max_effective_balance))
  && (spec.(Spec.max_effective_balance) <? balance).
Definition is_partially_withdrawable_validator_electra (v : t) (balance : Z) (f : ForkName.t) : bool :=
  let max := get_max_effective_balance spec v f in
  has_execution_withdrawal_credential spec v && (v.(effective_balance) =? max) && (max <? balance).
Definition is_partially_withdrawable_validator (v : t) (balance : Z) (f : ForkName.t) : bool :=
  if electra_enabled f then is_partially_withdrawable_validator_electra v balance f
  else is_partially_withdrawable_validator_capella v balance.
End spec.
End ValidatorOps.
