(* ===== verification/CommitteeDefs.v ===== *)
(** * Committees

    [consensus/types/src/beacon_state/committee_cache.rs]: the shuffling of the
    active validators of an epoch, cut into one committee for each committee
    index of each slot, and [EthSpec::get_committee_count_per_slot].

    A [usize] is a [nat].  The products of [compute_committee_range_in_epoch]
    stay far below [2^64]: a shuffling has at most [2^24] entries.  The hash that
    the seed and the shuffling use is the parameter [hash]. *)
From S2P Require Import Prelude SlotEpoch ProtoArrayDefs ForkChoiceDefs ForkSchedule BeaconStateDefs.
From S2P Require Import ValidatorDefs ShuffleDefs.

Module BeaconCommittee.
Record t : Type := mk { slot : Slot; index : Z; committee : list nat }.
End BeaconCommittee.

Module AttestationDuty.
Record t : Type := mk {
  slot : Slot; index : Z; committee_position : nat; committee_len : nat; committees_at_slot : Z;
}.
End AttestationDuty.

Module CommitteeCache.
Record t : Type := mk {
  initialized_epoch : option Epoch;
  shuffling : list nat;
  (** [NonZeroUsize]: the position plus one *)
  shuffling_positions : list (option nat);
  committees_per_slot : Z;
  slots_per_epoch : Z;
}.
Definition default : t := mk None [] [] 0 0.
End CommitteeCache.

(** The loop of [get_active_validator_indices], from [index] on. *)
Fixpoint active_indices_from (index : nat) (validators : list Validator.t) (e : Epoch) : list nat :=
  match validators with
  | [] => []
  | validator :: rest =>
      (if Validator.is_active_at validator e then [index] else []) ++ active_indices_from (S index) rest e
  end.
Definition get_active_validator_indices (validators : list Validator.t) (e : Epoch) : list nat :=
  active_indices_from 0 validators e.

Definition get_committee_count_per_slot (spec : Spec.t) (active_validator_count : nat)
    : outcome BeaconStateError.t Z :=
  per_slot ← into (safe_div (Z.of_nat active_validator_count) spec.(Spec.slots_per_epoch));
  target ← into (safe_div per_slot spec.(Spec.target_committee_size));
  Ok (Z.max 1 (Z.min spec.(Spec.max_committees_per_slot) target)).

(** [epoch_committee_count], as a free function. *)
Definition epoch_committee_count (committees_per_slot slots_per_epoch : nat) : nat :=
  (committees_per_slot * slots_per_epoch)%nat.
Definition compute_committee_index_in_epoch (slot : Slot) (slots_per_epoch committees_per_slot committee_index : nat)
    : nat :=
  (Z.to_nat slot mod slots_per_epoch * committees_per_slot + committee_index)%nat.
Definition compute_committee_range_in_epoch (epoch_committee_count index_in_epoch shuffling_len : nat)
    : option (nat * nat) :=
  if (epoch_committee_count =? 0)%nat || (epoch_committee_count <=? index_in_epoch)%nat then None
  else Some ((shuffling_len * index_in_epoch) / epoch_committee_count,
             (shuffling_len * (index_in_epoch + 1)) / epoch_committee_count)%nat.

(** [shuffling.get(start..end)]. *)
Definition slice_get {A} (l : list A) (range : nat * nat) : option (list A) :=
  let '(start, end_) := range in
  if (start <=? end_)%nat && (end_ <=? length l)%nat then Some (take (end_ - start) (drop start l)) else None.

Section cache.
Context (c : CommitteeCache.t).

Definition cc_is_initialized_at (e : Epoch) : bool := bool_decide (Some e = c.(CommitteeCache.initialized_epoch)).
Definition active_validator_indices : list nat := c.(CommitteeCache.shuffling).
Definition active_validator_count : nat := length c.(CommitteeCache.shuffling).
Definition cc_epoch_committee_count : nat :=
  epoch_committee_count (Z.to_nat c.(CommitteeCache.committees_per_slot))
    (Z.to_nat c.(CommitteeCache.slots_per_epoch)).
Definition compute_committee_range (index : nat) : option (nat * nat) :=
  compute_committee_range_in_epoch cc_epoch_committee_count index (length c.(CommitteeCache.shuffling)).
Definition compute_committee (index : nat) : option (list nat) :=
  range ← compute_committee_range index; slice_get c.(CommitteeCache.shuffling) range.
Definition shuffled_position (validator_index : nat) : option nat :=
  p ← c.(CommitteeCache.shuffling_positions) !! validator_index; pred <$> p.

(** [slot.epoch(self.slots_per_epoch)] is only evaluated on an initialized
    cache. *)
Definition cc_get_beacon_committee (slot : Slot) (index : Z) : option BeaconCommittee.t :=
  match c.(CommitteeCache.initialized_epoch) with
  | None => None
  | Some _ =>
      if negb (cc_is_initialized_at (epoch slot c.(CommitteeCache.slots_per_epoch)))
         || (c.(CommitteeCache.committees_per_slot) <=? index)
      then None
      else
        let committee_index :=
          compute_committee_index_in_epoch slot (Z.to_nat c.(CommitteeCache.slots_per_epoch))
            (Z.to_nat c.(CommitteeCache.committees_per_slot)) (Z.to_nat index) in
        committee ← compute_committee committee_index;
        Some (BeaconCommittee.mk slot index committee)
  end.

(** The iterator over [0..committees_per_slot], collected. *)
Fixpoint committees_from (slot : Slot) (indices : list nat) : outcome BeaconStateError.t (list BeaconCommittee.t) :=
  match indices with
  | [] => Ok []
  | index :: rest =>
      committee ← ok_or (cc_get_beacon_committee slot (Z.of_nat index))
                    (BeaconStateError.NoCommittee slot (Z.of_nat index));
      committees ← committees_from slot rest;
      Ok (committee :: committees)
  end.
Definition cc_get_beacon_committees_at_slot (slot : Slot) : outcome BeaconStateError.t (list BeaconCommittee.t) :=
  match c.(CommitteeCache.initialized_epoch) with
  | None => Err (BeaconStateError.CommitteeCacheUninitialized None)
  | Some _ => committees_from slot (seq 0 (Z.to_nat c.(CommitteeCache.committees_per_slot)))
  end.

(** [try_fold] over the slots of the epoch. *)
Fixpoint all_committees (slots : list Slot) (acc : list BeaconCommittee.t)
    : outcome BeaconStateError.t (list BeaconCommittee.t) :=
  match slots with
  | [] => Ok acc
  | slot :: rest =>
      committees ← cc_get_beacon_committees_at_slot slot;
      all_committees rest (acc ++ committees)
  end.
Definition get_all_beacon_committees : outcome BeaconStateError.t (list BeaconCommittee.t) :=
  e ← ok_or c.(CommitteeCache.initialized_epoch) (BeaconStateError.CommitteeCacheUninitialized None);
  let spe := c.(CommitteeCache.slots_per_epoch) in
  all_committees (SlotIter.collect (S (Z.to_nat spe)) (SlotIter.slot_iter e spe)) [].

Definition convert_to_slot_and_index (global_committee_index : nat) : option (Slot * Z) :=
  e ← c.(CommitteeCache.initialized_epoch);
  let epoch_start_slot := start_slot e c.(CommitteeCache.slots_per_epoch) in
  let slot_offset := Z.of_nat global_committee_index / c.(CommitteeCache.committees_per_slot) in
  let index := Z.of_nat global_committee_index mod c.(CommitteeCache.committees_per_slot) in
  match safe_add epoch_start_slot slot_offset with
  | Ok slot => Some (slot, index)
  | _ => None
  end.

(** [(0..epoch_committee_count()).find(...)]: the committee whose range has
    position [i]. *)
Fixpoint find_committee (i : nat) (committees : list nat) : option (nat * (nat * nat)) :=
  match committees with
  | [] => None
  | nth_committee :: rest =>
      match compute_committee_range nth_committee with
      | Some (start, end_) =>
          if (start <=? i)%nat && (i <? end_)%nat then Some (nth_committee, (start, end_)) else find_committee i rest
      | None => find_committee i rest
      end
  end.
Definition cc_get_attestation_duties (validator_index : nat) : option AttestationDuty.t :=
  i ← shuffled_position validator_index;
  '(nth_committee, (start, end_)) ← find_committee i (seq 0 cc_epoch_committee_count);
  '(slot, index) ← convert_to_slot_and_index nth_committee;
  Some (AttestationDuty.mk slot index (i - start) (end_ - start) c.(CommitteeCache.committees_per_slot)).
End cache.

(** The loop that inverts the shuffling. *)
Fixpoint fill_positions (i : nat) (shuffling : list nat) (positions : list (option nat))
    : outcome BeaconStateError.t (list (option nat)) :=
  match shuffling with
  | [] => Ok positions
  | v :: rest =>
      if (v <? length positions)%nat then fill_positions (S i) rest (<[v := Some (i + 1)%nat]> positions)
      else Err (BeaconStateError.ShuffleIndexOutOfBounds v)
  end.

(** The 32 bytes of a [Hash256], most significant first. *)
Definition hash_bytes (h : Hash256) : list Z := rev (to_le_bytes 32 h).

Section state.
Context (hash : list Z → list Z) (spec : Spec.t).
Context (validators : list Validator.t) (randao_mixes : list Hash256) (current_epoch : Epoch).

Definition min_randao_epoch : Epoch :=
  u64_saturating_sub (u64_saturating_add current_epoch 1) spec.(Spec.epochs_per_historical_vector).

(** [get_seed]; a seed is the list of its 32 bytes. *)
Definition get_seed (e : Epoch) (domain : Z) : outcome BeaconStateError.t (list Z) :=
  i ← into (safe_add e spec.(Spec.epochs_per_historical_vector));
  i ← into (safe_sub i spec.(Spec.min_seed_lookahead));
  i ← into (safe_sub i 1);
  i_mod ← into (safe_rem i (Z.of_nat (length randao_mixes)));
  mix ← ok_or (randao_mixes !! Z.to_nat i_mod) (BeaconStateError.RandaoMixesOutOfBounds (Z.to_nat i_mod));
  Ok (hash (to_le_bytes 4 domain ++ to_le_bytes 8 e ++ hash_bytes mix)).

(** [shuffle_list] panics on a seed that is not 32 bytes; a hash is. *)
Definition shuffle_or (input : list nat) (seed : list Z) : outcome BeaconStateError.t (list nat) :=
  match shuffle_list hash input spec.(Spec.shuffle_round_count) seed false with
  | Ok (Some shuffling) => Ok shuffling
  | Ok None => Err BeaconStateError.UnableToShuffle
  | Err _ | Panic => Panic
  | Diverge => Diverge
  end.

(** [CommitteeCache::initialized]. *)
Definition initialized (e : Epoch) : outcome BeaconStateError.t CommitteeCache.t :=
  let reqd_randao_epoch := u64_saturating_sub (u64_saturating_sub e spec.(Spec.min_seed_lookahead)) 1 in
  max_future_epoch ← into (safe_add current_epoch spec.(Spec.min_seed_lookahead));
  max_future_epoch ← into (safe_add max_future_epoch 1);
  if (reqd_randao_epoch <? min_randao_epoch) || (max_future_epoch <? e) then Err BeaconStateError.EpochOutOfBounds
  else if spec.(Spec.slots_per_epoch) =? 0 then Err BeaconStateError.ZeroSlotsPerEpoch
  else if Z.of_nat (length validators) =? u64_max then Err BeaconStateError.TooManyValidators
  else
    let active_validator_indices := get_active_validator_indices validators e in
    if bool_decide (active_validator_indices = []) then Err BeaconStateError.InsufficientValidators
    else
      committees_per_slot ← get_committee_count_per_slot spec (length active_validator_indices);
      seed ← get_seed e spec.(Spec.domain_beacon_attester);
      shuffling ← shuffle_or active_validator_indices seed;
      shuffling_positions ← fill_positions 0 shuffling (replicate (length validators) None);
      Ok (CommitteeCache.mk (Some e) shuffling shuffling_positions committees_per_slot
            spec.(Spec.slots_per_epoch)).
End state.
