(* ===== verification/CommitteeCorrect.v ===== *)
(** * The committees of an epoch partition the active validators

    The ranges cut the shuffling into consecutive pieces, the shuffling is a
    permutation of the active validators, and the duty of a validator is its
    place in the one committee that has it. *)
From S2P Require Import Prelude SlotEpoch ProtoArrayDefs ForkChoiceDefs ForkSchedule BeaconStateDefs.
From S2P Require Import ValidatorDefs ShuffleDefs ShuffleCorrect CommitteeDefs.

(** ** Active validators *)
Lemma active_indices_elem k vs e i :
  i ∈ active_indices_from k vs e ↔
  ∃ v, (k ≤ i)%nat ∧ vs !! (i - k)%nat = Some v ∧ Validator.is_active_at v e = true.
Proof.
  revert k. induction vs as [|v vs IH]; intros k; simpl; [set_solver|].
  rewrite elem_of_app, IH. split.
  - intros [Hi|(v' & Hk & Hv & Ha)].
    + destruct (Validator.is_active_at v e) eqn:E; [|set_solver]. apply list_elem_of_singleton in Hi as ->.
      exists v. by rewrite Nat.sub_diag.
    + exists v'. split_and!; [lia| |done]. replace (i - k)%nat with (S (i - S k)) by lia. done.
  - intros (v' & Hk & Hv & Ha). destruct (decide (i = k)) as [->|Hne].
    + rewrite Nat.sub_diag in Hv. simplify_eq/=. rewrite Ha. left. set_solver.
    + right. exists v'. split_and!; [lia| |done]. replace (i - k)%nat with (S (i - S k)) in Hv by lia. done.
Qed.

Lemma elem_of_active vs e i :
  i ∈ get_active_validator_indices vs e ↔ ∃ v, vs !! i = Some v ∧ Validator.is_active_at v e = true.
Proof. unfold get_active_validator_indices. rewrite active_indices_elem, Nat.sub_0_r. naive_solver lia. Qed.

Lemma active_indices_nodup k vs e : NoDup (active_indices_from k vs e).
Proof.
  revert k. induction vs as [|v vs IH]; intros k; simpl; [constructor|].
  destruct (Validator.is_active_at v e); [|apply IH]. simpl. constructor; [|apply IH].
  rewrite active_indices_elem. naive_solver lia.
Qed.

(** ** Consecutive slices *)
Lemma concat_slices {A} (l : list A) (f : nat → nat) n :
  f 0%nat = 0%nat → (∀ i, (i < n)%nat → (f i ≤ f (S i))%nat) →
  concat ((fun i => take (f (S i) - f i) (drop (f i) l)) <$> seq 0 n) = take (f n) l.
Proof.
  intros H0. induction n as [|n IH]; intros Hm; [by rewrite H0|].
  rewrite seq_S, fmap_app, concat_app, IH by auto. simpl. rewrite app_nil_r, take_take_drop.
  f_equal. specialize (Hm n ltac:(lia)). lia.
Qed.

Lemma concat_grid {A} (f : nat → A) cols rows :
  concat ((fun k => (fun j => f (k * cols + j)%nat) <$> seq 0 cols) <$> seq 0 rows) = f <$> seq 0 (rows * cols).
Proof.
  induction rows as [|n IH]; [done|]. rewrite seq_S, fmap_app, concat_app, IH. simpl. rewrite app_nil_r.
  replace (cols + n * cols)%nat with (n * cols + cols)%nat by lia. rewrite seq_app, fmap_app. f_equal.
  rewrite Nat.add_0_l, <-(Nat.add_0_r (n * cols)) at 1. rewrite <-fmap_add_seq, <-list_fmap_compose. done.
Qed.

(** ** The ranges of an initialized cache *)
Record cache_ok (c : CommitteeCache.t) (e : Epoch) : Prop := {
  ok_epoch : c.(CommitteeCache.initialized_epoch) = Some e;
  ok_nonneg : 0 ≤ e;
  ok_slots : 0 < c.(CommitteeCache.slots_per_epoch) ≤ u64_max;
  ok_last : e * c.(CommitteeCache.slots_per_epoch) + c.(CommitteeCache.slots_per_epoch) - 1 ≤ u64_max;
  ok_count : 0 < c.(CommitteeCache.committees_per_slot);
}.

Section cache.
Context (c : CommitteeCache.t) (e : Epoch) (Hc : cache_ok c e).
Abbreviation sh := c.(CommitteeCache.shuffling).
Abbreviation spe := c.(CommitteeCache.slots_per_epoch).
Abbreviation cps := c.(CommitteeCache.committees_per_slot).
Abbreviation N := (cc_epoch_committee_count c).

(** Where committee [k] starts. *)
Definition cut (k : nat) : nat := (length sh * k / N)%nat.
Definition piece (k : nat) : list nat := take (cut (S k) - cut k) (drop (cut k) sh).

Lemma count_pos : (0 < N)%nat.
Proof using Hc. destruct Hc. unfold cc_epoch_committee_count, epoch_committee_count. nia. Qed.
Lemma cut_0 : cut 0 = 0%nat.
Proof using Type. unfold cut. rewrite Nat.mul_0_r. apply Nat.Div0.div_0_l. Qed.
Lemma cut_last : cut N = length sh.
Proof using Hc. pose proof count_pos. apply Nat.div_mul. lia. Qed.
Lemma cut_mono i j : (i ≤ j)%nat → (cut i ≤ cut j)%nat.
Proof using Type. intros. apply Nat.Div0.div_le_mono. nia. Qed.
(** Two committees differ by one member at most. *)
Lemma cut_even i j : (cut (S i) - cut i ≤ S (cut (S j) - cut j))%nat.
Proof using Hc.
  pose proof count_pos. unfold cut.
  assert (∀ a, (length sh * a = N * (length sh * a / N) + (length sh * a) mod N)%nat
    ∧ ((length sh * a) mod N < N)%nat) as Hd by (intros a; split; [apply Nat.div_mod|apply Nat.mod_upper_bound]; lia).
  destruct (Hd i), (Hd (S i)), (Hd j), (Hd (S j)). nia.
Qed.

Lemma committee_range k : (k < N)%nat → compute_committee_range c k = Some (cut k, cut (S k)).
Proof using Type.
  intros Hk. unfold compute_committee_range, compute_committee_range_in_epoch.
  rewrite (proj2 (Nat.eqb_neq _ _)), (proj2 (Nat.leb_gt _ _)) by lia. simpl. unfold cut.
  by rewrite Nat.add_1_r.
Qed.
Lemma committee_piece k : (k < N)%nat → compute_committee c k = Some (piece k).
Proof using Hc.
  intros Hk. unfold compute_committee. rewrite committee_range by done. simpl. unfold slice_get.
  rewrite (proj2 (Nat.leb_le _ _)) by (apply cut_mono; lia).
  rewrite (proj2 (Nat.leb_le _ _)); [done|]. rewrite <-cut_last. apply cut_mono. lia.
Qed.
Lemma piece_length k : (k < N)%nat → length (piece k) = (cut (S k) - cut k)%nat.
Proof using Hc.
  intros Hk. unfold piece. rewrite length_take, length_drop. pose proof (cut_mono (S k) N ltac:(lia)).
  rewrite cut_last in *. lia.
Qed.
Lemma pieces : concat (piece <$> seq 0 N) = sh.
Proof using Hc.
  unfold piece. rewrite (concat_slices sh cut).
  - rewrite cut_last. apply firstn_all.
  - apply cut_0.
  - intros. apply cut_mono. lia.
Qed.

(** ** Committees by slot and index *)
Lemma committee_at k j : (k < Z.to_nat spe)%nat → (j < Z.to_nat cps)%nat →
  cc_get_beacon_committee c (start_slot e spe + Z.of_nat k) (Z.of_nat j)
  = Some (BeaconCommittee.mk (start_slot e spe + Z.of_nat k) (Z.of_nat j) (piece (k * Z.to_nat cps + j))).
Proof using Hc.
  destruct Hc as [He H0 Hs Hl Hn]. intros Hk Hj. unfold cc_get_beacon_committee. rewrite He.
  rewrite start_slot_exact by nia. unfold cc_is_initialized_at, epoch. rewrite He.
  assert ((e * spe + Z.of_nat k) / spe = e) as -> by (symmetry; apply Z.div_unique with (Z.of_nat k); nia).
  rewrite bool_decide_eq_true_2 by done. simpl. rewrite (proj2 (Z.leb_gt _ _)) by lia.
  unfold compute_committee_index_in_epoch. rewrite Nat2Z.id.
  assert (Z.to_nat (e * spe + Z.of_nat k) mod Z.to_nat spe = k)%nat as ->.
  { symmetry. apply Nat.mod_unique with (Z.to_nat e); [done|]. nia. }
  rewrite committee_piece; [done|]. unfold cc_epoch_committee_count, epoch_committee_count. nia.
Qed.

Lemma committees_from_ok k js : (k < Z.to_nat spe)%nat → (∀ j, j ∈ js → (j < Z.to_nat cps)%nat) →
  committees_from c (start_slot e spe + Z.of_nat k) js
  = Ok ((fun j => BeaconCommittee.mk (start_slot e spe + Z.of_nat k) (Z.of_nat j) (piece (k * Z.to_nat cps + j))) <$> js).
Proof using Hc.
  intros Hk. induction js as [|j js IH]; intros Hj; [done|]. simpl.
  rewrite committee_at by (try apply Hj; set_solver). simpl. rewrite IH by set_solver. done.
Qed.

(** The committees of slot [k] of the epoch. *)
Definition slot_committees (k : nat) : list BeaconCommittee.t :=
  (fun j => BeaconCommittee.mk (start_slot e spe + Z.of_nat k) (Z.of_nat j) (piece (k * Z.to_nat cps + j)))
    <$> seq 0 (Z.to_nat cps).

Lemma all_committees_ok ks acc : (∀ k, k ∈ ks → (k < Z.to_nat spe)%nat) →
  all_committees c ((fun k => start_slot e spe + Z.of_nat k) <$> ks) acc = Ok (acc ++ concat (slot_committees <$> ks)).
Proof using Hc.
  revert acc. induction ks as [|k ks IH]; intros acc Hk; simpl; [by rewrite app_nil_r|].
  unfold cc_get_beacon_committees_at_slot. rewrite (ok_epoch _ _ Hc).
  rewrite committees_from_ok; [|set_solver|intros j Hj%elem_of_seq; lia]. simpl.
  rewrite IH by set_solver. by rewrite app_assoc.
Qed.

Lemma get_all_ok : get_all_beacon_committees c = Ok (concat (slot_committees <$> seq 0 (Z.to_nat spe))).
Proof using Hc.
  unfold get_all_beacon_committees. rewrite (ok_epoch _ _ Hc). cbn [ok_or mbind outcome_bind].
  destruct Hc.
  destruct (slot_iter_enumerates spe e (S (Z.to_nat spe))) as [-> _]; [done|done|done|lia|].
  apply all_committees_ok. intros k Hk%elem_of_seq. lia.
Qed.

Lemma all_members :
  (BeaconCommittee.committee <$> concat (slot_committees <$> seq 0 (Z.to_nat spe))) = piece <$> seq 0 N.
Proof using Type.
  rewrite concat_map. unfold cc_epoch_committee_count, epoch_committee_count. rewrite Nat.mul_comm.
  rewrite <-(concat_grid piece (Z.to_nat cps) (Z.to_nat spe)). f_equal. rewrite <-list_fmap_compose.
  apply list_fmap_ext. intros ? k _. unfold compose, slot_committees. by rewrite <-list_fmap_compose.
Qed.

Lemma even_committee bc : bc ∈ concat (slot_committees <$> seq 0 (Z.to_nat spe)) →
  ∃ k, length bc.(BeaconCommittee.committee) = (cut (S k) - cut k)%nat.
Proof using Hc.
  intros Hbc. apply (list_elem_of_fmap_2 BeaconCommittee.committee) in Hbc. rewrite all_members in Hbc.
  apply list_elem_of_fmap in Hbc as (k & -> & Hk%elem_of_seq). exists k. apply piece_length. lia.
Qed.

(** ** The duty of a position *)
Lemma find_committee_ok i k ks :
  (k < N)%nat → (cut k ≤ i < cut (S k))%nat → k ∈ ks → (∀ k', k' ∈ ks → (k' < N)%nat) →
  find_committee c i ks = Some (k, (cut k, cut (S k))).
Proof using Type.
  clear Hc. intros Hk Hi. induction ks as [|k' ks IH]; intros Hin Hks; [set_solver|]. simpl.
  rewrite committee_range by (apply Hks; set_solver). destruct (decide (k' = k)) as [->|Hne].
  - rewrite (proj2 (Nat.leb_le _ _)), (proj2 (Nat.ltb_lt _ _)) by lia. done.
  - destruct ((cut k' <=? i)%nat && (i <? cut (S k'))%nat) eqn:E; [|apply IH; set_solver].
    apply andb_true_iff in E as [?%Nat.leb_le ?%Nat.ltb_lt]. exfalso.
    destruct (decide (k' < k)%nat);
      [pose proof (cut_mono (S k') k ltac:(lia))|pose proof (cut_mono (S k) k' ltac:(lia))]; lia.
Qed.

Lemma cut_split n i : (i < cut n)%nat → ∃ k, (k < n)%nat ∧ (cut k ≤ i < cut (S k))%nat.
Proof using Type.
  clear Hc. induction n as [|n IH]; [rewrite cut_0; lia|]. intros Hi.
  destruct (decide (i < cut n)%nat) as [Hlt|]; [destruct (IH Hlt) as (k & ? & ?); exists k; lia|].
  exists n. lia.
Qed.

Lemma piece_lookup k i v : (cut k ≤ i < cut (S k))%nat → sh !! i = Some v → piece k !! (i - cut k)%nat = Some v.
Proof using Type.
  clear Hc. intros Hi Hv. unfold piece. rewrite lookup_take_Some, lookup_drop.
  split; [|lia]. by replace (cut k + (i - cut k))%nat with i by lia.
Qed.

Lemma duty_of_position v i : shuffled_position c v = Some i → sh !! i = Some v →
  ∃ d bc, cc_get_attestation_duties c v = Some d
    ∧ cc_get_beacon_committee c d.(AttestationDuty.slot) d.(AttestationDuty.index) = Some bc
    ∧ bc.(BeaconCommittee.committee) !! d.(AttestationDuty.committee_position) = Some v
    ∧ length bc.(BeaconCommittee.committee) = d.(AttestationDuty.committee_len)
    ∧ bc ∈ concat (slot_committees <$> seq 0 (Z.to_nat spe)).
Proof using Hc.
  intros Hp Hv. pose proof (lookup_lt_Some _ _ _ Hv) as Hi. rewrite <-cut_last in Hi.
  destruct (cut_split N i Hi) as (k & Hk & Hcut).
  set (q := (k / Z.to_nat cps)%nat). set (r := (k mod Z.to_nat cps)%nat).
  pose proof (Hk' := Hk). unfold cc_epoch_committee_count, epoch_committee_count in Hk'.
  assert (k = q * Z.to_nat cps + r ∧ r < Z.to_nat cps ∧ q < Z.to_nat spe)%nat as (Eqr & Hr & Hq).
  { destruct Hc. split_and!.
    - unfold q, r. rewrite (Nat.mul_comm _ (Z.to_nat cps)). by apply Nat.div_mod; lia.
    - apply Nat.mod_upper_bound. lia.
    - apply Nat.Div0.div_lt_upper_bound. lia. }
  exists (AttestationDuty.mk (start_slot e spe + Z.of_nat q) (Z.of_nat r) (i - cut k) (cut (S k) - cut k) cps).
  exists (BeaconCommittee.mk (start_slot e spe + Z.of_nat q) (Z.of_nat r) (piece k)). split_and!; simpl.
  - unfold cc_get_attestation_duties. rewrite Hp. simpl.
    rewrite (find_committee_ok i k); [|done|done|apply elem_of_seq; lia|intros k' ?%elem_of_seq; lia].
    simpl. unfold convert_to_slot_and_index. rewrite (ok_epoch _ _ Hc). simpl. destruct Hc.
    assert (Z.of_nat k / cps = Z.of_nat q) as -> by (unfold q; rewrite Nat2Z.inj_div, Z2Nat.id; lia).
    assert (Z.of_nat k mod cps = Z.of_nat r) as -> by (unfold r; rewrite Nat2Z.inj_mod, Z2Nat.id; lia).
    rewrite start_slot_exact by nia. unfold safe_add, u64_checked_add.
    rewrite checked_u64_in by (unfold is_u64; nia). done.
  - rewrite committee_at by done. by rewrite <-Eqr.
  - by apply piece_lookup.
  - by rewrite piece_length.
  - apply list_elem_of_In, in_concat. exists (slot_committees q). rewrite <-!list_elem_of_In. split.
    + apply list_elem_of_fmap_2, elem_of_seq. lia.
    + apply list_elem_of_fmap_2' with r; [apply elem_of_seq; lia|]. by rewrite <-Eqr.
Qed.
End cache.

(** ** Inverting the shuffling *)
Lemma fill_positions_ok n i l positions :
  length positions = n → NoDup l → (∀ v, v ∈ l → (v < n)%nat) →
  ∃ out, fill_positions i l positions = Ok out ∧ length out = n
    ∧ ∀ v, (∀ j, l !! j = Some v → out !! v = Some (Some (S (i + j))))
           ∧ (v ∉ l → out !! v = positions !! v).
Proof.
  revert i positions. induction l as [|x l IH]; intros i positions Hlen Hnd Hl; simpl.
  { exists positions. split_and!; [done|done|]. intros v. by split. }
  apply list.NoDup_cons in Hnd as [Hx Hnd]. rewrite (proj2 (Nat.ltb_lt _ _)) by (rewrite Hlen; apply Hl; set_solver).
  destruct (IH (S i) (<[x:=Some (i + 1)%nat]> positions)) as (out & -> & Hout & Hv);
    [by rewrite length_insert|done|set_solver|].
  exists out. split_and!; [done|done|]. intros v. destruct (Hv v) as [Hin Hnin]. split.
  - intros [|j] Hj; simpl in Hj; [|rewrite (Hin j Hj); do 2 f_equal; lia]. injection Hj as ->.
    rewrite Hnin by done. rewrite list_lookup_insert_eq by (rewrite Hlen; apply Hl; set_solver).
    do 2 f_equal. lia.
  - intros Hv'. rewrite Hnin by set_solver. apply list_lookup_insert_ne. set_solver.
Qed.

Lemma fill_positions_inverts n l out :
  NoDup l → (∀ v, v ∈ l → (v < n)%nat) → fill_positions 0 l (replicate n None) = Ok out →
  (∀ i v, l !! i = Some v → out !! v = Some (Some (S i))) ∧ (∀ v, v ∉ l → (out !! v) = (replicate n None) !! v).
Proof.
  intros Hnd Hl Hf. destruct (fill_positions_ok n 0 l (replicate n None)) as (out' & Hf' & _ & Hv);
    [apply length_replicate|done|done|]. assert (out' = out) as -> by congruence.
  split; [intros i v; apply Hv|apply Hv].
Qed.

(** ** Building the cache *)
Section build.
Context (hash : list Z → list Z) (spec : Spec.t) (validators : list Validator.t).
Context (randao_mixes : list Hash256) (current_epoch e : Epoch).
Abbreviation active := (get_active_validator_indices validators e).

(** What the state and the specification give [initialized] when epoch [e] is
    within reach of the RANDAO history. *)
Record committee_inputs : Prop := {
  ci_hash : ∀ x, length (hash x) = 32%nat;
  ci_slots : 0 < spec.(Spec.slots_per_epoch) ≤ u64_max;
  ci_target : 0 < spec.(Spec.target_committee_size);
  ci_rounds : (0 < spec.(Spec.shuffle_round_count))%nat;
  ci_mixes : randao_mixes ≠ [];
  ci_lookahead : 0 ≤ spec.(Spec.min_seed_lookahead) < spec.(Spec.epochs_per_historical_vector);
  ci_epoch : 0 ≤ e ∧ e + spec.(Spec.epochs_per_historical_vector) ≤ u64_max;
  ci_last : e * spec.(Spec.slots_per_epoch) + spec.(Spec.slots_per_epoch) - 1 ≤ u64_max;
  ci_reach : min_randao_epoch spec current_epoch ≤ u64_saturating_sub (u64_saturating_sub e spec.(Spec.min_seed_lookahead)) 1;
  ci_future : 0 ≤ current_epoch ∧ e ≤ current_epoch + spec.(Spec.min_seed_lookahead) + 1 ≤ u64_max;
  ci_active : active ≠ [];
  ci_size : Z.of_nat (length active) ≤ 2 ^ 24;
  ci_registry : Z.of_nat (length validators) < u64_max;
}.

Lemma seed_ok : committee_inputs →
  ∃ seed, get_seed hash spec randao_mixes e spec.(Spec.domain_beacon_attester) = Ok seed ∧ length seed = 32%nat.
Proof.
  intros []. unfold get_seed, safe_add, safe_sub, safe_rem, u64_checked_add, u64_checked_sub, u64_checked_rem.
  rewrite !checked_u64_in by (unfold is_u64; lia). simpl.
  rewrite checked_u64_in by (unfold is_u64; lia). simpl. rewrite checked_u64_in by (unfold is_u64; lia). simpl.
  assert (0 < Z.of_nat (length randao_mixes)) by (destruct randao_mixes; simpl; [done|lia]).
  rewrite (proj2 (Z.eqb_neq _ _)) by lia. simpl.
  pose proof (Z.mod_pos_bound (e + spec.(Spec.epochs_per_historical_vector)
    - spec.(Spec.min_seed_lookahead) - 1) (Z.of_nat (length randao_mixes)) ltac:(lia)).
  match goal with |- context [randao_mixes !! ?i] => destruct (lookup_lt_is_Some_2 randao_mixes i) as [mix ->]; [lia|] end.
  simpl. eauto.
Qed.

Lemma count_ok : committee_inputs → ∃ n, get_committee_count_per_slot spec (length active) = Ok n ∧ 0 < n.
Proof.
  intros []. unfold get_committee_count_per_slot, safe_div, u64_checked_div.
  rewrite (proj2 (Z.eqb_neq _ _)) by lia. simpl. rewrite (proj2 (Z.eqb_neq _ _)) by lia. simpl. eexists. split; [done|].
  lia.
Qed.

Lemma initialized_ok : committee_inputs →
  ∃ c, initialized hash spec validators randao_mixes current_epoch e = Ok c ∧ cache_ok c e
    ∧ c.(CommitteeCache.shuffling) ≡ₚ active
    ∧ fill_positions 0 c.(CommitteeCache.shuffling) (replicate (length validators) None)
      = Ok c.(CommitteeCache.shuffling_positions).
Proof.
  intros Hci. destruct (seed_ok Hci) as (seed & Hseed & Hlen), (count_ok Hci) as (n & Hn & Hpos).
  destruct Hci. unfold initialized, safe_add, u64_checked_add.
  rewrite checked_u64_in by (unfold is_u64; lia). simpl. rewrite checked_u64_in by (unfold is_u64; lia). simpl.
  rewrite (proj2 (Z.ltb_ge _ _)), (proj2 (Z.ltb_ge _ _)), (proj2 (Z.eqb_neq _ _)), (proj2 (Z.eqb_neq _ _)) by lia.
  simpl. rewrite bool_decide_eq_false_2, Hn by done. simpl. rewrite Hseed. simpl. unfold shuffle_or.
  destruct (list_run hash ci_hash0 seed Hlen spec.(Spec.shuffle_round_count) active ci_active0 ltac:(lia) ltac:(lia) false)
    as (out & Hrun & _). rewrite Hrun. simpl.
  pose proof (shuffle_list_permutation _ _ _ _ _ _ ci_hash0 Hlen Hrun) as Hperm.
  destruct (fill_positions_ok (length validators) 0 out (replicate (length validators) None)) as (ps & Hps & _);
    [apply length_replicate|rewrite Hperm; apply active_indices_nodup| |].
  { intros v. rewrite Hperm. intros (w & Hw & _)%elem_of_active. by eapply lookup_lt_Some. }
  rewrite Hps. simpl. eexists. split_and!; [done|constructor; simpl; try done; lia|done|done].
Qed.

(** C31. Whatever the epoch within reach, the committees that the cache serves are a
    partition of the active validators into nearly equal parts; the duty of an
    active validator is its place in the committee that has it, and no other
    validator has a duty. *)
Theorem committees_partition : committee_inputs →
  ∃ c cs, initialized hash spec validators randao_mixes current_epoch e = Ok c
    ∧ get_all_beacon_committees c = Ok cs
    ∧ concat (BeaconCommittee.committee <$> cs) ≡ₚ active
    ∧ NoDup (concat (BeaconCommittee.committee <$> cs))
    ∧ (∀ a b, a ∈ cs → b ∈ cs →
         (length a.(BeaconCommittee.committee) ≤ S (length b.(BeaconCommittee.committee)))%nat)
    ∧ (∀ v, v ∈ active →
         ∃ d bc, cc_get_attestation_duties c v = Some d
           ∧ cc_get_beacon_committee c d.(AttestationDuty.slot) d.(AttestationDuty.index) = Some bc ∧ bc ∈ cs
           ∧ bc.(BeaconCommittee.committee) !! d.(AttestationDuty.committee_position) = Some v
           ∧ length bc.(BeaconCommittee.committee) = d.(AttestationDuty.committee_len))
    ∧ (∀ v, v ∉ active → cc_get_attestation_duties c v = None).
Proof.
  intros Hci. destruct (initialized_ok Hci) as (c & Hrun & Hok & Hperm & Hfill).
  assert (NoDup c.(CommitteeCache.shuffling)) as Hnd by (rewrite Hperm; apply active_indices_nodup).
  destruct (fill_positions_inverts _ _ _ Hnd ltac:(intros v; rewrite Hperm; intros (w & Hw & _)%elem_of_active;
    by eapply lookup_lt_Some) Hfill) as [Hin Hout].
  exists c, (concat (slot_committees c e <$> seq 0 (Z.to_nat c.(CommitteeCache.slots_per_epoch)))).
  rewrite (all_members c e), (pieces c e Hok). split_and!; [done|by apply get_all_ok|done|done|..].
  - intros a b Ha%(even_committee c e Hok) Hb%(even_committee c e Hok).
    destruct Ha as (i & ->), Hb as (j & ->). by eapply cut_even.
  - intros v Hv. rewrite <-Hperm in Hv. apply list_elem_of_lookup in Hv as (i & Hi).
    destruct (duty_of_position c e Hok v i) as (d & bc & ? & ? & ? & ? & ?); [|done|by eauto 10].
    unfold shuffled_position. by rewrite (Hin i v Hi).
  - intros v Hv. rewrite <-Hperm in Hv. unfold cc_get_attestation_duties, shuffled_position.
    rewrite (Hout v Hv). destruct (replicate _ None !! v) as [p|] eqn:E; [|done].
    by apply lookup_replicate in E as [-> _].
Qed.
End build.

(** Forty validators of which every fifth has not been activated yet. *)
Definition cx_validator (i : nat) : Validator.t :=
  Validator.mk (Z.of_nat i) 0 (32 * 10 ^ 9) false 0 (if (i mod 5 =? 0)%nat then u64_max else 0) u64_max u64_max.
Definition cx_validators : list Validator.t := cx_validator <$> seq 0 40.

Lemma cx_inputs : committee_inputs toy_hash Spec.minimal cx_validators (replicate 64 7) 70 71.
Proof. constructor; first [exact toy_hash_length | vm_compute; first [done | split; done | lia]]. Qed.

Lemma committees_partition_witness :
  committee_inputs toy_hash Spec.minimal cx_validators (replicate 64 7) 70 71 ∧
  ∃ c cs, initialized toy_hash Spec.minimal cx_validators (replicate 64 7) 70 71 = Ok c
    ∧ get_all_beacon_committees c = Ok cs
    ∧ concat (BeaconCommittee.committee <$> cs) ≡ₚ get_active_validator_indices cx_validators 71.
Proof.
  split; [exact cx_inputs|].
  destruct (committees_partition toy_hash Spec.minimal cx_validators (replicate 64 7) 70 71 cx_inputs)
    as (c & cs & H1 & H2 & H3 & _). exists c, cs. exact (conj H1 (conj H2 H3)).
Defined.
