(* ===== verification/StateDefs.v ===== *)
(** * The beacon state

    The fields of [BeaconState] ([consensus/types/src/beacon_state.rs]) that the
    state transition reads and writes, with the entries of its lists and its
    caches ([beacon_state/exit_cache.rs], [slashings_cache.rs],
    [pubkey_cache.rs], [builder_pubkey_cache.rs], [activation_queue.rs],
    [epoch_cache.rs]).

    The fields are grouped by what they serve; [core] is the part that finality
    and fork choice read.  The source has one struct for each fork and a getter
    that fails with [IncorrectStateVariant] on a fork without the field; here the
    record has the fields of all forks and the getter tests the fork.  A [List]
    with a limit and a [Vector] of fixed length are lists; [push] fails at the
    limit.  A public key, a signature and an address are numbers. *)
From S2P Require Import Prelude SlotEpoch ProtoArrayDefs ForkChoiceDefs ForkSchedule BeaconStateDefs.
From S2P Require Import ValidatorDefs ShuffleDefs CommitteeDefs SlashingDefs DoppelgangerDefs ValidatorStoreDefs.

(** ** Lists with a limit *)
Module Milhouse.
Inductive error : Type := ListFull | OutOfBounds.
Definition push {A} (limit : Z) (x : A) (l : list A) : outcome error (list A) :=
  if Z.of_nat (length l) <? limit then Ok (l ++ [x]) else Err ListFull.
Definition pop_front {A} (n : nat) (l : list A) : outcome error (list A) :=
  if (n <=? length l)%nat then Ok (drop n l) else Err OutOfBounds.
End Milhouse.
#[export] Instance milhouse_state_error : From Milhouse.error BeaconStateError.t := fun _ => BeaconStateError.MilhouseError.

#[export] Instance relative_epoch_eq_dec : EqDecision RelativeEpoch.
Proof. solve_decision. Defined.

(** [*l.get_mut(i).ok_or(e)? = v]. *)
Definition set_at {E A} (l : list A) (i : nat) (v : A) (e : E) : outcome E (list A) :=
  if (i <? length l)%nat then Ok (<[i := v]> l) else Err e.

(** ** Entries of the lists *)

Module Eth1Data.
Record t : Type := mk {
  deposit_root : Hash256;
  deposit_count : Z;
  block_hash : Hash256;
}.
#[global] Instance eq_dec : EqDecision t.
Proof. solve_decision. Defined.
End Eth1Data.

Module SyncCommittee.
Record t : Type := mk {
  pubkeys : list PublicKeyBytes;
  aggregate_pubkey : PublicKeyBytes;
}.
End SyncCommittee.

(** The header of a payload, by the fields that the transition reads and the two
    tests for a default header. *)
Module ExecutionPayloadHeader.
Record t : Type := mk {
  variant : ForkName.t;
  parent_hash : ExecutionBlockHash;
  prev_randao : Hash256;
  timestamp : Z;
  block_hash : ExecutionBlockHash;
  withdrawals_root : Hash256;
  is_default_with_zero_roots : bool;
  is_default_with_empty_roots : bool;
}.
End ExecutionPayloadHeader.

Module PendingAttestation.
Record t : Type := mk {
  aggregation_bits : list bool;
  data : AttestationData.t;
  inclusion_delay : Z;
  proposer_index : Z;
}.
End PendingAttestation.

Module PendingDeposit.
Record t : Type := mk {
  pubkey : PublicKeyBytes;
  withdrawal_credentials : Hash256;
  amount : Z;
  signature : Z;
  slot : Slot;
}.
End PendingDeposit.

Module PendingPartialWithdrawal.
Record t : Type := mk {
  validator_index : Z;
  amount : Z;
  withdrawable_epoch : Epoch;
}.
End PendingPartialWithdrawal.

Module PendingConsolidation.
Record t : Type := mk {
  source_index : Z;
  target_index : Z;
}.
End PendingConsolidation.

Module Withdrawal.
Record t : Type := mk {
  index : Z;
  validator_index : Z;
  address : Address;
  amount : Z;
}.
#[global] Instance eq_dec : EqDecision t.
Proof. solve_decision. Defined.
End Withdrawal.

Module HistoricalSummary.
Record t : Type := mk {
  block_summary_root : Hash256;
  state_summary_root : Hash256;
}.
End HistoricalSummary.

Module Builder.
Record t : Type := mk {
  pubkey : PublicKeyBytes;
  version : Z;
  execution_address : Address;
  balance : Z;
  deposit_epoch : Epoch;
  withdrawable_epoch : Epoch;
}.
Definition set_balance (v : Z) (s : t) : t :=
  mk s.(pubkey) s.(version) s.(execution_address) v s.(deposit_epoch) s.(withdrawable_epoch).
Definition set_withdrawable_epoch (v : Epoch) (s : t) : t :=
  mk s.(pubkey) s.(version) s.(execution_address) s.(balance) s.(deposit_epoch) v.
Definition is_active_at_finalized_epoch (spec : Spec.t) (b : t) (finalized_epoch : Epoch) : bool :=
  (b.(deposit_epoch) <? finalized_epoch) && (b.(withdrawable_epoch) =? spec.(Spec.far_future_epoch)).
End Builder.

Module BuilderPendingWithdrawal.
Record t : Type := mk {
  fee_recipient : Address;
  amount : Z;
  builder_index : Z;
}.
Definition default : t := mk 0 0 0.
End BuilderPendingWithdrawal.

Module BuilderPendingPayment.
Record t : Type := mk {
  weight : Z;
  withdrawal : BuilderPendingWithdrawal.t;
}.
Definition set_weight (v : Z) (s : t) : t := mk v s.(withdrawal).
Definition default : t := mk 0 BuilderPendingWithdrawal.default.
End BuilderPendingPayment.

(** [ExecutionPayloadBidGloas] and [ExecutionPayloadBidHeze]: the variants differ
    in [inclusion_list_bits], empty before Heze. *)
Module PayloadBid.
Record t : Type := mk {
  parent_block_hash : ExecutionBlockHash;
  parent_block_root : Hash256;
  block_hash : ExecutionBlockHash;
  prev_randao : Hash256;
  fee_recipient : Address;
  gas_limit : Z;
  builder_index : Z;
  slot : Slot;
  value : Z;
  execution_payment : Z;
  blob_kzg_commitments : list Z;
  inclusion_list_bits : list bool;
}.
End PayloadBid.

(** ** Caches *)
(** Exits of the latest epoch with one. *)
Module ExitCache.
Record t : Type := mk { initialized : bool; max_exit_epoch : Epoch; max_exit_epoch_churn : Z }.
Definition default : t := mk false 0 0.
Definition check_initialized (c : t) : outcome BeaconStateError.t unit :=
  if c.(initialized) then Ok tt else Err BeaconStateError.ExitCacheUninitialized.
Definition record_validator_exit (exit_epoch : Epoch) (c : t) : outcome BeaconStateError.t t :=
  check_initialized c;;
  match exit_epoch ?= c.(max_exit_epoch) with
  | Eq => n ← into (safe_add c.(max_exit_epoch_churn) 1); Ok (mk c.(initialized) c.(max_exit_epoch) n)
  | Gt => Ok (mk c.(initialized) exit_epoch 1)
  | Lt => Ok c
  end.
Fixpoint record_all (exits : list Epoch) (c : t) : outcome BeaconStateError.t t :=
  match exits with
  | [] => Ok c
  | e :: rest => c' ← record_validator_exit e c; record_all rest c'
  end.
Definition new (spec : Spec.t) (validators : list Validator.t) : outcome BeaconStateError.t t :=
  record_all (Validator.exit_epoch <$>
    filter (fun v => v.(Validator.exit_epoch) ≠ spec.(Spec.far_future_epoch)) validators) (mk true 0 0).
Definition max_epoch (c : t) : outcome BeaconStateError.t (option Epoch) :=
  check_initialized c;;
  Ok (if 0 <? c.(max_exit_epoch_churn) then Some c.(max_exit_epoch) else None).
Definition get_churn_at (exit_epoch : Epoch) (c : t) : outcome BeaconStateError.t Z :=
  check_initialized c;;
  match exit_epoch ?= c.(max_exit_epoch) with
  | Eq => Ok c.(max_exit_epoch_churn)
  | Gt => Ok 0
  | Lt => Err (BeaconStateError.ExitCacheInvalidEpoch c.(max_exit_epoch) exit_epoch)
  end.
End ExitCache.

Module SlashingsCache.
Record t : Type := mk { latest_block_slot : option Slot; slashed_validators : gset nat }.
Definition default : t := mk None ∅.
(** The filter over the enumerated validators. *)
Fixpoint slashed_from (i : nat) (validators : list Validator.t) : gset nat :=
  match validators with
  | [] => ∅
  | v :: rest => (if v.(Validator.slashed) then {[i]} else ∅) ∪ slashed_from (S i) rest
  end.
Definition new (latest_block_slot : Slot) (validators : list Validator.t) : t :=
  mk (Some latest_block_slot) (slashed_from 0 validators).
Definition is_initialized (slot : Slot) (c : t) : bool := bool_decide (c.(latest_block_slot) = Some slot).
Definition check_initialized (slot : Slot) (c : t) : outcome BeaconStateError.t unit :=
  if is_initialized slot c then Ok tt
  else Err (BeaconStateError.SlashingsCacheUninitialized c.(latest_block_slot) slot).
Definition record_validator_slashing (block_slot : Slot) (validator_index : nat) (c : t)
    : outcome BeaconStateError.t t :=
  check_initialized block_slot c;; Ok (mk c.(latest_block_slot) ({[validator_index]} ∪ c.(slashed_validators))).
Definition is_slashed (validator_index : nat) (c : t) : bool := bool_decide (validator_index ∈ c.(slashed_validators)).
Definition update_latest_block_slot (slot : Slot) (c : t) : t := mk (Some slot) c.(slashed_validators).
End SlashingsCache.

Module PubkeyCache.
Record t : Type := mk { len : nat; map : gmap PublicKeyBytes nat }.
Definition default : t := mk 0 ∅.
Definition insert (pubkey : PublicKeyBytes) (index : nat) (c : t) : bool * t :=
  if (index =? c.(len))%nat then (true, mk (S c.(len)) (<[pubkey := index]> c.(map))) else (false, c).
Definition get (pubkey : PublicKeyBytes) (c : t) : option nat := c.(map) !! pubkey.
End PubkeyCache.

Module BuilderPubkeyCache.
Definition t : Type := gmap PublicKeyBytes nat.
Definition get (pubkey : PublicKeyBytes) (c : t) : option nat := c !! pubkey.
Definition insert (pubkey : PublicKeyBytes) (index : nat) (c : t) : t := <[pubkey := index]> c.
Definition remove (pubkey : PublicKeyBytes) (c : t) : t := delete pubkey c.
Definition len (c : t) : nat := size c.
End BuilderPubkeyCache.

(** A [BTreeSet] is the sorted list of its elements. *)
Module BTreeSet.
Section ordered.
Context {A : Type} (compare : A → A → comparison).
Fixpoint insert (x : A) (l : list A) : list A :=
  match l with
  | [] => [x]
  | y :: rest =>
      match compare x y with
      | Lt => x :: y :: rest
      | Eq => y :: rest
      | Gt => y :: insert x rest
      end
  end.
Definition from_iter (l : list A) : list A := foldl (fun acc x => insert x acc) [] l.
End ordered.
End BTreeSet.

Module ActivationQueue.
Definition t : Type := list (Epoch * nat).
Definition compare (a b : Epoch * nat) : comparison :=
  match a.1 ?= b.1 with Eq => (a.2 ?= b.2)%nat | c => c end.
Definition add_if_could_be_eligible_for_activation (spec : Spec.t) (index : nat) (validator : Validator.t)
    (next_epoch : Epoch) (q : t) : t :=
  if ValidatorOps.could_be_eligible_for_activation_at spec validator next_epoch
  then BTreeSet.insert compare (validator.(Validator.activation_eligibility_epoch), index) q
  else q.
(** The result is a [BTreeSet] of indices. *)
Definition get_validators_eligible_for_activation (finalized_epoch : Epoch) (churn_limit : nat) (q : t) : list nat :=
  BTreeSet.from_iter Nat.compare
    (take churn_limit (snd <$> filter (fun p => p.1 <= finalized_epoch) q)).
End ActivationQueue.

Module EpochCacheError.
Inductive t : Type :=
  | IncorrectEpoch (cache state : Epoch)
  | IncorrectDecisionBlock (cache state : Hash256)
  | ValidatorIndexOutOfBounds (validator_index : nat)
  | EffectiveBalanceOutOfBounds (effective_balance_eth : nat)
  | InvalidSlot (slot : Slot)
  | Arith (e : ArithError)
  | BeaconState (e : BeaconStateError.t)
  | CacheNotInitialized.
End EpochCacheError.
#[export] Instance state_cache_error : From BeaconStateError.t EpochCacheError.t := EpochCacheError.BeaconState.
#[export] Instance arith_cache_error : From ArithError EpochCacheError.t := EpochCacheError.Arith.

Module EpochCache.
Record Key : Type := mk_key { key_epoch : Epoch; decision_block_root : Hash256 }.
Record Inner : Type := mk {
  key : Key;
  effective_balances : list Z;
  base_rewards : list Z;
  activation_queue : ActivationQueue.t;
  effective_balance_increment : Z;
}.
Definition t : Type := option Inner.
Definition default : t := None.
Definition new (spec : Spec.t) (key : Key) (effective_balances base_rewards : list Z)
    (activation_queue : ActivationQueue.t) : t :=
  Some (mk key effective_balances base_rewards activation_queue spec.(Spec.effective_balance_increment)).
Definition check_validity (current_epoch : Epoch) (state_decision_root : Hash256) (c : t)
    : outcome EpochCacheError.t unit :=
  cache ← ok_or c EpochCacheError.CacheNotInitialized;
  if negb (cache.(key).(key_epoch) =? current_epoch)
  then Err (EpochCacheError.IncorrectEpoch cache.(key).(key_epoch) current_epoch)
  else if negb (cache.(key).(decision_block_root) =? state_decision_root)
  then Err (EpochCacheError.IncorrectDecisionBlock cache.(key).(decision_block_root) state_decision_root)
  else Ok tt.
Definition get_effective_balance (validator_index : nat) (c : t) : outcome EpochCacheError.t Z :=
  inner ← ok_or c EpochCacheError.CacheNotInitialized;
  ok_or (inner.(effective_balances) !! validator_index) (EpochCacheError.ValidatorIndexOutOfBounds validator_index).
Definition get_base_reward (validator_index : nat) (c : t) : outcome EpochCacheError.t Z :=
  inner ← ok_or c EpochCacheError.CacheNotInitialized;
  effective_balance ← get_effective_balance validator_index c;
  eth ← into (safe_div effective_balance inner.(effective_balance_increment));
  ok_or (inner.(base_rewards) !! Z.to_nat eth) (EpochCacheError.EffectiveBalanceOutOfBounds (Z.to_nat eth)).
Definition get_activation_queue (c : t) : outcome EpochCacheError.t ActivationQueue.t :=
  inner ← ok_or c EpochCacheError.CacheNotInitialized; Ok inner.(activation_queue).
End EpochCache.

(** ** The state *)

Module Chain.
Record t : Type := mk {
  genesis_time : Z;
  genesis_validators_root : Hash256;
  fork : Fork.t;
  latest_block_header : BeaconBlockHeader.t;
  historical_roots : list Hash256;
  historical_summaries : list HistoricalSummary.t;
  randao_mixes : list Hash256;
  eth1_data : Eth1Data.t;
  eth1_data_votes : list Eth1Data.t;
  eth1_deposit_index : Z;
  current_sync_committee : SyncCommittee.t;
  next_sync_committee : SyncCommittee.t;
  proposer_lookahead : list Z;
  previous_epoch_attestations : list PendingAttestation.t;
  current_epoch_attestations : list PendingAttestation.t;
  latest_execution_payload_header : ExecutionPayloadHeader.t;
}.
Definition set_fork (v : Fork.t) (s : t) : t :=
  mk s.(genesis_time) s.(genesis_validators_root) v s.(latest_block_header) s.(historical_roots)
    s.(historical_summaries) s.(randao_mixes) s.(eth1_data) s.(eth1_data_votes) s.(eth1_deposit_index)
    s.(current_sync_committee) s.(next_sync_committee) s.(proposer_lookahead) s.(previous_epoch_attestations)
    s.(current_epoch_attestations) s.(latest_execution_payload_header).
Definition set_latest_block_header (v : BeaconBlockHeader.t) (s : t) : t :=
  mk s.(genesis_time) s.(genesis_validators_root) s.(fork) v s.(historical_roots) s.(historical_summaries)
    s.(randao_mixes) s.(eth1_data) s.(eth1_data_votes) s.(eth1_deposit_index) s.(current_sync_committee)
    s.(next_sync_committee) s.(proposer_lookahead) s.(previous_epoch_attestations)
    s.(current_epoch_attestations) s.(latest_execution_payload_header).
Definition set_historical_roots (v : list Hash256) (s : t) : t :=
  mk s.(genesis_time) s.(genesis_validators_root) s.(fork) s.(latest_block_header) v s.(historical_summaries)
    s.(randao_mixes) s.(eth1_data) s.(eth1_data_votes) s.(eth1_deposit_index) s.(current_sync_committee)
    s.(next_sync_committee) s.(proposer_lookahead) s.(previous_epoch_attestations)
    s.(current_epoch_attestations) s.(latest_execution_payload_header).
Definition set_historical_summaries (v : list HistoricalSummary.t) (s : t) : t :=
  mk s.(genesis_time) s.(genesis_validators_root) s.(fork) s.(latest_block_header) s.(historical_roots) v
    s.(randao_mixes) s.(eth1_data) s.(eth1_data_votes) s.(eth1_deposit_index) s.(current_sync_committee)
    s.(next_sync_committee) s.(proposer_lookahead) s.(previous_epoch_attestations)
    s.(current_epoch_attestations) s.(latest_execution_payload_header).
Definition set_randao_mixes (v : list Hash256) (s : t) : t :=
  mk s.(genesis_time) s.(genesis_validators_root) s.(fork) s.(latest_block_header) s.(historical_roots)
    s.(historical_summaries) v s.(eth1_data) s.(eth1_data_votes) s.(eth1_deposit_index)
    s.(current_sync_committee) s.(next_sync_committee) s.(proposer_lookahead) s.(previous_epoch_attestations)
    s.(current_epoch_attestations) s.(latest_execution_payload_header).
Definition set_eth1_data (v : Eth1Data.t) (s : t) : t :=
  mk s.(genesis_time) s.(genesis_validators_root) s.(fork) s.(latest_block_header) s.(historical_roots)
    s.(historical_summaries) s.(randao_mixes) v s.(eth1_data_votes) s.(eth1_deposit_index)
    s.(current_sync_committee) s.(next_sync_committee) s.(proposer_lookahead) s.(previous_epoch_attestations)
    s.(current_epoch_attestations) s.(latest_execution_payload_header).
Definition set_eth1_data_votes (v : list Eth1Data.t) (s : t) : t :=
  mk s.(genesis_time) s.(genesis_validators_root) s.(fork) s.(latest_block_header) s.(historical_roots)
    s.(historical_summaries) s.(randao_mixes) s.(eth1_data) v s.(eth1_deposit_index)
    s.(current_sync_committee) s.(next_sync_committee) s.(proposer_lookahead) s.(previous_epoch_attestations)
    s.(current_epoch_attestations) s.(latest_execution_payload_header).
Definition set_eth1_deposit_index (v : Z) (s : t) : t :=
  mk s.(genesis_time) s.(genesis_validators_root) s.(fork) s.(latest_block_header) s.(historical_roots)
    s.(historical_summaries) s.(randao_mixes) s.(eth1_data) s.(eth1_data_votes) v s.(current_sync_committee)
    s.(next_sync_committee) s.(proposer_lookahead) s.(previous_epoch_attestations)
    s.(current_epoch_attestations) s.(latest_execution_payload_header).
Definition set_current_sync_committee (v : SyncCommittee.t) (s : t) : t :=
  mk s.(genesis_time) s.(genesis_validators_root) s.(fork) s.(latest_block_header) s.(historical_roots)
    s.(historical_summaries) s.(randao_mixes) s.(eth1_data) s.(eth1_data_votes) s.(eth1_deposit_index) v
    s.(next_sync_committee) s.(proposer_lookahead) s.(previous_epoch_attestations)
    s.(current_epoch_attestations) s.(latest_execution_payload_header).
Definition set_next_sync_committee (v : SyncCommittee.t) (s : t) : t :=
  mk s.(genesis_time) s.(genesis_validators_root) s.(fork) s.(latest_block_header) s.(historical_roots)
    s.(historical_summaries) s.(randao_mixes) s.(eth1_data) s.(eth1_data_votes) s.(eth1_deposit_index)
    s.(current_sync_committee) v s.(proposer_lookahead) s.(previous_epoch_attestations)
    s.(current_epoch_attestations) s.(latest_execution_payload_header).
Definition set_proposer_lookahead (v : list Z) (s : t) : t :=
  mk s.(genesis_time) s.(genesis_validators_root) s.(fork) s.(latest_block_header) s.(historical_roots)
    s.(historical_summaries) s.(randao_mixes) s.(eth1_data) s.(eth1_data_votes) s.(eth1_deposit_index)
    s.(current_sync_committee) s.(next_sync_committee) v s.(previous_epoch_attestations)
    s.(current_epoch_attestations) s.(latest_execution_payload_header).
Definition set_previous_epoch_attestations (v : list PendingAttestation.t) (s : t) : t :=
  mk s.(genesis_time) s.(genesis_validators_root) s.(fork) s.(latest_block_header) s.(historical_roots)
    s.(historical_summaries) s.(randao_mixes) s.(eth1_data) s.(eth1_data_votes) s.(eth1_deposit_index)
    s.(current_sync_committee) s.(next_sync_committee) s.(proposer_lookahead) v s.(current_epoch_attestations)
    s.(latest_execution_payload_header).
Definition set_current_epoch_attestations (v : list PendingAttestation.t) (s : t) : t :=
  mk s.(genesis_time) s.(genesis_validators_root) s.(fork) s.(latest_block_header) s.(historical_roots)
    s.(historical_summaries) s.(randao_mixes) s.(eth1_data) s.(eth1_data_votes) s.(eth1_deposit_index)
    s.(current_sync_committee) s.(next_sync_committee) s.(proposer_lookahead) s.(previous_epoch_attestations)
    v s.(latest_execution_payload_header).
Definition set_latest_execution_payload_header (v : ExecutionPayloadHeader.t) (s : t) : t :=
  mk s.(genesis_time) s.(genesis_validators_root) s.(fork) s.(latest_block_header) s.(historical_roots)
    s.(historical_summaries) s.(randao_mixes) s.(eth1_data) s.(eth1_data_votes) s.(eth1_deposit_index)
    s.(current_sync_committee) s.(next_sync_committee) s.(proposer_lookahead) s.(previous_epoch_attestations)
    s.(current_epoch_attestations) v.
End Chain.

Module Registry.
Record t : Type := mk {
  balances : list Z;
  inactivity_scores : list Z;
  slashings : list Z;
  next_withdrawal_index : Z;
  next_withdrawal_validator_index : Z;
}.
Definition set_balances (v : list Z) (s : t) : t :=
  mk v s.(inactivity_scores) s.(slashings) s.(next_withdrawal_index) s.(next_withdrawal_validator_index).
Definition set_inactivity_scores (v : list Z) (s : t) : t :=
  mk s.(balances) v s.(slashings) s.(next_withdrawal_index) s.(next_withdrawal_validator_index).
Definition set_slashings (v : list Z) (s : t) : t :=
  mk s.(balances) s.(inactivity_scores) v s.(next_withdrawal_index) s.(next_withdrawal_validator_index).
Definition set_next_withdrawal_index (v : Z) (s : t) : t :=
  mk s.(balances) s.(inactivity_scores) s.(slashings) v s.(next_withdrawal_validator_index).
Definition set_next_withdrawal_validator_index (v : Z) (s : t) : t :=
  mk s.(balances) s.(inactivity_scores) s.(slashings) s.(next_withdrawal_index) v.
End Registry.

Module Queues.
Record t : Type := mk {
  deposit_requests_start_index : Z;
  deposit_balance_to_consume : Z;
  exit_balance_to_consume : Z;
  earliest_exit_epoch : Epoch;
  consolidation_balance_to_consume : Z;
  earliest_consolidation_epoch : Epoch;
  pending_deposits : list PendingDeposit.t;
  pending_partial_withdrawals : list PendingPartialWithdrawal.t;
  pending_consolidations : list PendingConsolidation.t;
}.
Definition set_deposit_requests_start_index (v : Z) (s : t) : t :=
  mk v s.(deposit_balance_to_consume) s.(exit_balance_to_consume) s.(earliest_exit_epoch)
    s.(consolidation_balance_to_consume) s.(earliest_consolidation_epoch) s.(pending_deposits)
    s.(pending_partial_withdrawals) s.(pending_consolidations).
Definition set_deposit_balance_to_consume (v : Z) (s : t) : t :=
  mk s.(deposit_requests_start_index) v s.(exit_balance_to_consume) s.(earliest_exit_epoch)
    s.(consolidation_balance_to_consume) s.(earliest_consolidation_epoch) s.(pending_deposits)
    s.(pending_partial_withdrawals) s.(pending_consolidations).
Definition set_exit_balance_to_consume (v : Z) (s : t) : t :=
  mk s.(deposit_requests_start_index) s.(deposit_balance_to_consume) v s.(earliest_exit_epoch)
    s.(consolidation_balance_to_consume) s.(earliest_consolidation_epoch) s.(pending_deposits)
    s.(pending_partial_withdrawals) s.(pending_consolidations).
Definition set_earliest_exit_epoch (v : Epoch) (s : t) : t :=
  mk s.(deposit_requests_start_index) s.(deposit_balance_to_consume) s.(exit_balance_to_consume) v
    s.(consolidation_balance_to_consume) s.(earliest_consolidation_epoch) s.(pending_deposits)
    s.(pending_partial_withdrawals) s.(pending_consolidations).
Definition set_consolidation_balance_to_consume (v : Z) (s : t) : t :=
  mk s.(deposit_requests_start_index) s.(deposit_balance_to_consume) s.(exit_balance_to_consume)
    s.(earliest_exit_epoch) v s.(earliest_consolidation_epoch) s.(pending_deposits)
    s.(pending_partial_withdrawals) s.(pending_consolidations).
Definition set_earliest_consolidation_epoch (v : Epoch) (s : t) : t :=
  mk s.(deposit_requests_start_index) s.(deposit_balance_to_consume) s.(exit_balance_to_consume)
    s.(earliest_exit_epoch) s.(consolidation_balance_to_consume) v s.(pending_deposits)
    s.(pending_partial_withdrawals) s.(pending_consolidations).
Definition set_pending_deposits (v : list PendingDeposit.t) (s : t) : t :=
  mk s.(deposit_requests_start_index) s.(deposit_balance_to_consume) s.(exit_balance_to_consume)
    s.(earliest_exit_epoch) s.(consolidation_balance_to_consume) s.(earliest_consolidation_epoch) v
    s.(pending_partial_withdrawals) s.(pending_consolidations).
Definition set_pending_partial_withdrawals (v : list PendingPartialWithdrawal.t) (s : t) : t :=
  mk s.(deposit_requests_start_index) s.(deposit_balance_to_consume) s.(exit_balance_to_consume)
    s.(earliest_exit_epoch) s.(consolidation_balance_to_consume) s.(earliest_consolidation_epoch)
    s.(pending_deposits) v s.(pending_consolidations).
Definition set_pending_consolidations (v : list PendingConsolidation.t) (s : t) : t :=
  mk s.(deposit_requests_start_index) s.(deposit_balance_to_consume) s.(exit_balance_to_consume)
    s.(earliest_exit_epoch) s.(consolidation_balance_to_consume) s.(earliest_consolidation_epoch)
    s.(pending_deposits) s.(pending_partial_withdrawals) v.
End Queues.

Module Epbs.
Record t : Type := mk {
  builders : list Builder.t;
  next_withdrawal_builder_index : Z;
  execution_payload_availability : list bool;
  builder_pending_payments : list BuilderPendingPayment.t;
  builder_pending_withdrawals : list BuilderPendingWithdrawal.t;
  latest_block_hash : ExecutionBlockHash;
  latest_execution_payload_bid : PayloadBid.t;
  payload_expected_withdrawals : list Withdrawal.t;
  ptc_window : list (list Z);
}.
Definition set_builders (v : list Builder.t) (s : t) : t :=
  mk v s.(next_withdrawal_builder_index) s.(execution_payload_availability) s.(builder_pending_payments)
    s.(builder_pending_withdrawals) s.(latest_block_hash) s.(latest_execution_payload_bid)
    s.(payload_expected_withdrawals) s.(ptc_window).
Definition set_next_withdrawal_builder_index (v : Z) (s : t) : t :=
  mk s.(builders) v s.(execution_payload_availability) s.(builder_pending_payments)
    s.(builder_pending_withdrawals) s.(latest_block_hash) s.(latest_execution_payload_bid)
    s.(payload_expected_withdrawals) s.(ptc_window).
Definition set_execution_payload_availability (v : list bool) (s : t) : t :=
  mk s.(builders) s.(next_withdrawal_builder_index) v s.(builder_pending_payments)
    s.(builder_pending_withdrawals) s.(latest_block_hash) s.(latest_execution_payload_bid)
    s.(payload_expected_withdrawals) s.(ptc_window).
Definition set_builder_pending_payments (v : list BuilderPendingPayment.t) (s : t) : t :=
  mk s.(builders) s.(next_withdrawal_builder_index) s.(execution_payload_availability) v
    s.(builder_pending_withdrawals) s.(latest_block_hash) s.(latest_execution_payload_bid)
    s.(payload_expected_withdrawals) s.(ptc_window).
Definition set_builder_pending_withdrawals (v : list BuilderPendingWithdrawal.t) (s : t) : t :=
  mk s.(builders) s.(next_withdrawal_builder_index) s.(execution_payload_availability)
    s.(builder_pending_payments) v s.(latest_block_hash) s.(latest_execution_payload_bid)
    s.(payload_expected_withdrawals) s.(ptc_window).
Definition set_latest_block_hash (v : ExecutionBlockHash) (s : t) : t :=
  mk s.(builders) s.(next_withdrawal_builder_index) s.(execution_payload_availability)
    s.(builder_pending_payments) s.(builder_pending_withdrawals) v s.(latest_execution_payload_bid)
    s.(payload_expected_withdrawals) s.(ptc_window).
Definition set_latest_execution_payload_bid (v : PayloadBid.t) (s : t) : t :=
  mk s.(builders) s.(next_withdrawal_builder_index) s.(execution_payload_availability)
    s.(builder_pending_payments) s.(builder_pending_withdrawals) s.(latest_block_hash) v
    s.(payload_expected_withdrawals) s.(ptc_window).
Definition set_payload_expected_withdrawals (v : list Withdrawal.t) (s : t) : t :=
  mk s.(builders) s.(next_withdrawal_builder_index) s.(execution_payload_availability)
    s.(builder_pending_payments) s.(builder_pending_withdrawals) s.(latest_block_hash)
    s.(latest_execution_payload_bid) v s.(ptc_window).
Definition set_ptc_window (v : list (list Z)) (s : t) : t :=
  mk s.(builders) s.(next_withdrawal_builder_index) s.(execution_payload_availability)
    s.(builder_pending_payments) s.(builder_pending_withdrawals) s.(latest_block_hash)
    s.(latest_execution_payload_bid) s.(payload_expected_withdrawals) v.
End Epbs.

Module Caches.
Record t : Type := mk {
  committee_caches : list CommitteeCache.t;
  pubkey_cache : PubkeyCache.t;
  builder_pubkey_cache : BuilderPubkeyCache.t;
  exit_cache : ExitCache.t;
  slashings_cache : SlashingsCache.t;
  epoch_cache : EpochCache.t;
}.
Definition set_committee_caches (v : list CommitteeCache.t) (s : t) : t :=
  mk v s.(pubkey_cache) s.(builder_pubkey_cache) s.(exit_cache) s.(slashings_cache) s.(epoch_cache).
Definition set_pubkey_cache (v : PubkeyCache.t) (s : t) : t :=
  mk s.(committee_caches) v s.(builder_pubkey_cache) s.(exit_cache) s.(slashings_cache) s.(epoch_cache).
Definition set_builder_pubkey_cache (v : BuilderPubkeyCache.t) (s : t) : t :=
  mk s.(committee_caches) s.(pubkey_cache) v s.(exit_cache) s.(slashings_cache) s.(epoch_cache).
Definition set_exit_cache (v : ExitCache.t) (s : t) : t :=
  mk s.(committee_caches) s.(pubkey_cache) s.(builder_pubkey_cache) v s.(slashings_cache) s.(epoch_cache).
Definition set_slashings_cache (v : SlashingsCache.t) (s : t) : t :=
  mk s.(committee_caches) s.(pubkey_cache) s.(builder_pubkey_cache) s.(exit_cache) v s.(epoch_cache).
Definition set_epoch_cache (v : EpochCache.t) (s : t) : t :=
  mk s.(committee_caches) s.(pubkey_cache) s.(builder_pubkey_cache) s.(exit_cache) s.(slashings_cache) v.
End Caches.

Module State.
Record t : Type := mk {
  core : BeaconState.t;
  chain : Chain.t;
  registry : Registry.t;
  queues : Queues.t;
  epbs : Epbs.t;
  caches : Caches.t;
}.
Definition on_core (f : BeaconState.t → BeaconState.t) (s : t) : t := mk (f s.(core)) s.(chain) s.(registry) s.(queues) s.(epbs) s.(caches).
Definition on_chain (f : Chain.t → Chain.t) (s : t) : t := mk s.(core) (f s.(chain)) s.(registry) s.(queues) s.(epbs) s.(caches).
Definition on_registry (f : Registry.t → Registry.t) (s : t) : t := mk s.(core) s.(chain) (f s.(registry)) s.(queues) s.(epbs) s.(caches).
Definition on_queues (f : Queues.t → Queues.t) (s : t) : t := mk s.(core) s.(chain) s.(registry) (f s.(queues)) s.(epbs) s.(caches).
Definition on_epbs (f : Epbs.t → Epbs.t) (s : t) : t := mk s.(core) s.(chain) s.(registry) s.(queues) (f s.(epbs)) s.(caches).
Definition on_caches (f : Caches.t → Caches.t) (s : t) : t := mk s.(core) s.(chain) s.(registry) s.(queues) s.(epbs) (f s.(caches)).
Definition fork_name (s : t) : ForkName.t := s.(core).(BeaconState.fork_name).
Definition slot (s : t) : Slot := s.(core).(BeaconState.slot).
Definition validators (s : t) : list Validator.t := s.(core).(BeaconState.validators).
Definition finalized_checkpoint (s : t) : Checkpoint.t := s.(core).(BeaconState.finalized_checkpoint).
Definition latest_block_header (s : t) : BeaconBlockHeader.t := s.(chain).(Chain.latest_block_header).
End State.
