(* ===== verification/RegistryDefs.v ===== *)
(** * Accessors of the state, the registry, exits and slashings

    Methods of [BeaconState] ([consensus/types/src/beacon_state.rs]) and the
    helpers of [state_processing/src/common/]: balances, committee and public
    key caches, churn, [initiate_validator_exit], [slash_validator], and the
    proposer index that [consensus_context.rs] caches for the block.

    [hash] is the hash of the protocol and [forks] the fork schedule.  The
    selection of a proposer loops until a candidate is accepted; its model has
    the fuel [fuel]. *)
From S2P Require Import Prelude SlotEpoch ProtoArrayDefs ForkChoiceDefs ForkSchedule BeaconStateDefs.
From S2P Require Import ValidatorDefs ShuffleDefs CommitteeDefs DoppelgangerDefs ValidatorStoreDefs StateDefs.

Abbreviation StM := (M State.t BeaconStateError.t).

(** ** Fields that a fork may lack *)
Definition gated {A} (fork : ForkName.t) (s : State.t) (a : A) : outcome BeaconStateError.t A :=
  if ForkName.ge (State.fork_name s) fork then Ok a else Err BeaconStateError.IncorrectStateVariant.

Section getters.
Context (s : State.t).
Definition st_previous_epoch_participation := gated ForkName.Altair s s.(State.core).(BeaconState.previous_epoch_participation).
Definition st_current_epoch_participation := gated ForkName.Altair s s.(State.core).(BeaconState.current_epoch_participation).
Definition st_inactivity_scores := gated ForkName.Altair s s.(State.registry).(Registry.inactivity_scores).
Definition st_current_sync_committee := gated ForkName.Altair s s.(State.chain).(Chain.current_sync_committee).
Definition st_next_sync_committee := gated ForkName.Altair s s.(State.chain).(Chain.next_sync_committee).
Definition st_next_withdrawal_index := gated ForkName.Capella s s.(State.registry).(Registry.next_withdrawal_index).
Definition st_next_withdrawal_validator_index :=
  gated ForkName.Capella s s.(State.registry).(Registry.next_withdrawal_validator_index).
Definition st_historical_summaries := gated ForkName.Capella s s.(State.chain).(Chain.historical_summaries).
Definition st_deposit_requests_start_index := gated ForkName.Electra s s.(State.queues).(Queues.deposit_requests_start_index).
Definition st_deposit_balance_to_consume := gated ForkName.Electra s s.(State.queues).(Queues.deposit_balance_to_consume).
Definition st_exit_balance_to_consume := gated ForkName.Electra s s.(State.queues).(Queues.exit_balance_to_consume).
Definition st_earliest_exit_epoch := gated ForkName.Electra s s.(State.queues).(Queues.earliest_exit_epoch).
Definition st_consolidation_balance_to_consume :=
  gated ForkName.Electra s s.(State.queues).(Queues.consolidation_balance_to_consume).
Definition st_earliest_consolidation_epoch := gated ForkName.Electra s s.(State.queues).(Queues.earliest_consolidation_epoch).
Definition st_pending_deposits := gated ForkName.Electra s s.(State.queues).(Queues.pending_deposits).
Definition st_pending_partial_withdrawals := gated ForkName.Electra s s.(State.queues).(Queues.pending_partial_withdrawals).
Definition st_pending_consolidations := gated ForkName.Electra s s.(State.queues).(Queues.pending_consolidations).
Definition st_proposer_lookahead := gated ForkName.Fulu s s.(State.chain).(Chain.proposer_lookahead).
Definition st_builders := gated ForkName.Gloas s s.(State.epbs).(Epbs.builders).
Definition st_next_withdrawal_builder_index := gated ForkName.Gloas s s.(State.epbs).(Epbs.next_withdrawal_builder_index).
Definition st_execution_payload_availability := gated ForkName.Gloas s s.(State.epbs).(Epbs.execution_payload_availability).
Definition st_builder_pending_payments := gated ForkName.Gloas s s.(State.epbs).(Epbs.builder_pending_payments).
Definition st_builder_pending_withdrawals := gated ForkName.Gloas s s.(State.epbs).(Epbs.builder_pending_withdrawals).
Definition st_latest_block_hash := gated ForkName.Gloas s s.(State.epbs).(Epbs.latest_block_hash).
Definition st_latest_execution_payload_bid := gated ForkName.Gloas s s.(State.epbs).(Epbs.latest_execution_payload_bid).
Definition st_payload_expected_withdrawals := gated ForkName.Gloas s s.(State.epbs).(Epbs.payload_expected_withdrawals).
Definition st_ptc_window := gated ForkName.Gloas s s.(State.epbs).(Epbs.ptc_window).
End getters.

(** A method on a part of the state that every fork has. *)
Definition on_core {E A} (m : M BeaconState.t E A) : M State.t E A :=
  zoom State.core (fun c => State.on_core (fun _ => c)) m.

Section transition.
Context (hash : list Z → list Z) (spec : Spec.t) (forks : ForkSpec.t) (fuel : nat).
Abbreviation spe := (spec.(Spec.slots_per_epoch)).
Abbreviation balances s := (s.(State.registry).(Registry.balances)).

(** ** Epochs *)
Definition current_epoch (s : State.t) : Epoch := state_current_epoch spe s.(State.core).
Definition st_previous_epoch (s : State.t) : Epoch := state_previous_epoch spe s.(State.core).
Definition next_epoch (s : State.t) : outcome BeaconStateError.t Epoch := into (safe_add (current_epoch s) 1).
Definition upper_bound_of (allow_next_epoch : bool) (current_epoch : Epoch) : outcome BeaconStateError.t Epoch :=
  if allow_next_epoch then into (safe_add current_epoch 1) else Ok current_epoch.

(** ** RANDAO mixes and slashings, by epoch *)
(** The circular index that [get_randao_mix_index] and [get_slashings_index]
    compute for a vector of [len] entries. *)
Definition vector_index (len : Z) (s : State.t) (e : Epoch) (allow_next_epoch : bool)
    : outcome BeaconStateError.t nat :=
  last ← into (safe_add e len);
  if current_epoch s <? last then
    bound ← upper_bound_of allow_next_epoch (current_epoch s);
    if e <=? bound then i ← into (safe_rem e len); Ok (Z.to_nat i) else Err BeaconStateError.EpochOutOfBounds
  else Err BeaconStateError.EpochOutOfBounds.
Definition get_randao_mix_index := vector_index spec.(Spec.epochs_per_historical_vector).
Definition get_slashings_index := vector_index spec.(Spec.epochs_per_slashings_vector).

Definition set_randao_mixes (v : list Hash256) : State.t → State.t := State.on_chain (Chain.set_randao_mixes v).
Definition get_randao_mix (s : State.t) (e : Epoch) : outcome BeaconStateError.t Hash256 :=
  i ← get_randao_mix_index s e false;
  ok_or (s.(State.chain).(Chain.randao_mixes) !! i) (BeaconStateError.RandaoMixesOutOfBounds i).
Definition set_randao_mix (e : Epoch) (mix : Hash256) : StM unit :=
  s ← get;
  i ← lift (get_randao_mix_index s e true);
  v ← lift (set_at s.(State.chain).(Chain.randao_mixes) i mix (BeaconStateError.RandaoMixesOutOfBounds i));
  modify (set_randao_mixes v).
(** [Hash256::from_slice]. *)
Definition bytes_hash (bytes : list Z) : Hash256 := from_le_bytes (rev bytes).
(** [signature] is the serialized RANDAO reveal. *)
Definition update_randao_mix (e : Epoch) (signature : list Z) : StM unit :=
  s ← get;
  i ← try (safe_rem e spec.(Spec.epochs_per_historical_vector));
  let i := Z.to_nat i in
  let mixes := s.(State.chain).(Chain.randao_mixes) in
  mix ← lift (get_randao_mix s e);
  v ← lift (set_at mixes i (Z.lxor mix (bytes_hash (hash signature))) (BeaconStateError.RandaoMixesOutOfBounds i));
  modify (set_randao_mixes v).
Definition get_slashings (s : State.t) (e : Epoch) : outcome BeaconStateError.t Z :=
  i ← get_slashings_index s e false;
  ok_or (s.(State.registry).(Registry.slashings) !! i) (BeaconStateError.SlashingsOutOfBounds i).
Definition set_slashings (e : Epoch) (value : Z) : StM unit :=
  s ← get;
  i ← lift (get_slashings_index s e true);
  v ← lift (set_at s.(State.registry).(Registry.slashings) i value (BeaconStateError.SlashingsOutOfBounds i));
  modify (State.on_registry (Registry.set_slashings v)).

(** ** Validators and balances *)
Definition get_validator (s : State.t) (i : nat) : outcome BeaconStateError.t Validator.t :=
  ok_or (State.validators s !! i) (BeaconStateError.UnknownValidator i).
Definition set_validators (v : list Validator.t) : State.t → State.t := State.on_core (BeaconState.set_validators v).
(** An assignment through [get_validator_mut]. *)
Definition update_validator (i : nat) (f : Validator.t → Validator.t) : StM unit :=
  s ← get;
  v ← lift (get_validator s i);
  modify (set_validators (<[i := f v]> (State.validators s))).
Definition get_effective_balance (s : State.t) (i : nat) : outcome BeaconStateError.t Z :=
  v ← get_validator s i; Ok v.(Validator.effective_balance).
Definition get_balance (s : State.t) (i : nat) : outcome BeaconStateError.t Z :=
  ok_or (balances s !! i) (BeaconStateError.BalancesOutOfBounds i).
Definition set_balances (v : list Z) : State.t → State.t := State.on_registry (Registry.set_balances v).
Definition increase_balance (index : nat) (delta : Z) : StM unit :=
  s ← get;
  balance ← lift (get_balance s index);
  balance' ← try (safe_add balance delta);
  modify (set_balances (<[index := balance']> (balances s))).
Definition decrease_balance (index : nat) (delta : Z) : StM unit :=
  s ← get;
  balance ← lift (get_balance s index);
  modify (set_balances (<[index := u64_saturating_sub balance delta]> (balances s))).
Definition is_eligible_validator (previous_epoch : Epoch) (v : Validator.t) : outcome BeaconStateError.t bool :=
  if Validator.is_active_at v previous_epoch then Ok true
  else if v.(Validator.slashed) then
    e ← into (safe_add previous_epoch 1); Ok (e <? v.(Validator.withdrawable_epoch))
  else Ok false.
Definition is_in_inactivity_leak (s : State.t) (previous_epoch : Epoch) : outcome ArithError bool :=
  d ← safe_sub previous_epoch (State.finalized_checkpoint s).(Checkpoint.epoch);
  Ok (spec.(Spec.min_epochs_to_inactivity_penalty) <? d).

(** ** Committee caches *)
Definition committee_cache_index (r : RelativeEpoch) : nat :=
  match r with Previous => 0 | Current => 1 | Next => 2 end.
Definition committee_cache_at_index (s : State.t) (i : nat) : outcome BeaconStateError.t CommitteeCache.t :=
  ok_or (s.(State.caches).(Caches.committee_caches) !! i) (BeaconStateError.CommitteeCachesOutOfBounds i).
Definition set_committee_cache_at_index (i : nat) (c : CommitteeCache.t) : StM unit :=
  s ← get;
  v ← lift (set_at s.(State.caches).(Caches.committee_caches) i c (BeaconStateError.CommitteeCachesOutOfBounds i));
  modify (State.on_caches (Caches.set_committee_caches v)).
Definition committee_cache (s : State.t) (r : RelativeEpoch) : outcome BeaconStateError.t CommitteeCache.t :=
  cache ← committee_cache_at_index s (committee_cache_index r);
  if cc_is_initialized_at cache (into_epoch r (current_epoch s)) then Ok cache
  else Err (BeaconStateError.CommitteeCacheUninitialized (Some r)).
Definition committee_cache_at_slot (s : State.t) (slot : Slot) : outcome BeaconStateError.t CommitteeCache.t :=
  r ← into (from_epoch (current_epoch s) (epoch slot spe)); committee_cache s r.
Definition initialize_committee_cache (s : State.t) (e : Epoch) : outcome BeaconStateError.t CommitteeCache.t :=
  initialized hash spec (State.validators s) s.(State.chain).(Chain.randao_mixes) (current_epoch s) e.
Definition force_build_committee_cache (r : RelativeEpoch) : StM unit :=
  s ← get;
  cache ← lift (initialize_committee_cache s (into_epoch r (current_epoch s)));
  set_committee_cache_at_index (committee_cache_index r) cache.

Definition force_build_total_active_balance_cache : StM unit :=
  s ← get;
  total ← lift (compute_total_active_balance_slow spe spec.(Spec.effective_balance_increment) s.(State.core));
  modify (State.on_core (BeaconState.set_total_active (Some (current_epoch s, total)))).
Definition build_total_active_balance_cache : StM unit :=
  s ← get;
  match get_total_active_balance_at_epoch s.(State.core) (current_epoch s) with
  | Ok _ => mret tt
  | _ => force_build_total_active_balance_cache
  end.
Definition build_committee_cache (r : RelativeEpoch) : StM unit :=
  s ← get;
  cache ← lift (committee_cache_at_index s (committee_cache_index r));
  when (negb (cc_is_initialized_at cache (into_epoch r (current_epoch s)))) (force_build_committee_cache r);;
  s ← get;
  when (bool_decide (s.(State.core).(BeaconState.total_active_balance) = None) && bool_decide (r = Current))
    build_total_active_balance_cache.
Definition build_all_committee_caches : StM unit :=
  build_committee_cache Previous;; build_committee_cache Current;; build_committee_cache Next.
(** [rotate_left(1)]. *)
Definition rotate_left {A} (n : nat) (l : list A) : list A := drop n l ++ take n l.
Definition advance_caches : StM unit :=
  s ← get;
  modify (State.on_caches (Caches.set_committee_caches (rotate_left 1 s.(State.caches).(Caches.committee_caches))));;
  set_committee_cache_at_index (committee_cache_index Next) CommitteeCache.default.
Definition get_beacon_committee (s : State.t) (slot : Slot) (index : Z) : outcome BeaconStateError.t BeaconCommittee.t :=
  r ← into (from_epoch (current_epoch s) (epoch slot spe));
  cache ← committee_cache s r;
  ok_or (cc_get_beacon_committee cache slot index) (BeaconStateError.NoCommittee slot index).
Definition get_beacon_committees_at_slot (s : State.t) (slot : Slot)
    : outcome BeaconStateError.t (list BeaconCommittee.t) :=
  cache ← committee_cache_at_slot s slot; cc_get_beacon_committees_at_slot cache slot.
Definition st_get_active_validator_indices (s : State.t) (e : Epoch) : outcome BeaconStateError.t (list nat) :=
  bound ← into (compute_activation_exit_epoch spec (current_epoch s));
  if bound <=? e then Err BeaconStateError.EpochOutOfBounds else Ok (get_active_validator_indices (State.validators s) e).

(** ** Exit and slashings caches *)
Definition build_exit_cache : StM unit :=
  s ← get;
  match ExitCache.check_initialized s.(State.caches).(Caches.exit_cache) with
  | Ok _ => mret tt
  | _ =>
      c ← lift (ExitCache.new spec (State.validators s));
      modify (State.on_caches (Caches.set_exit_cache c))
  end.
Definition build_slashings_cache : StM unit :=
  s ← get;
  let slot := (State.latest_block_header s).(BeaconBlockHeader.slot) in
  when (negb (SlashingsCache.is_initialized slot s.(State.caches).(Caches.slashings_cache)))
    (modify (State.on_caches (Caches.set_slashings_cache (SlashingsCache.new slot (State.validators s))))).

(** ** Public keys *)
(** The loop of [update_pubkey_cache] from [index] on; the cache is taken out of
    the state, so an error leaves the state with an empty one. *)
Fixpoint insert_pubkeys (index : nat) (validators : list Validator.t) (c : PubkeyCache.t)
    : outcome BeaconStateError.t PubkeyCache.t :=
  match validators with
  | [] => Ok c
  | v :: rest =>
      match PubkeyCache.insert v.(Validator.pubkey) index c with
      | (true, c') => insert_pubkeys (S index) rest c'
      | (false, _) => Err BeaconStateError.PubkeyCacheInconsistent
      end
  end.
Definition set_pubkey_cache (c : PubkeyCache.t) : State.t → State.t := State.on_caches (Caches.set_pubkey_cache c).
(** [iter_from] fails when the start is past the end. *)
Definition update_pubkey_cache : StM unit :=
  s ← get;
  let cache := s.(State.caches).(Caches.pubkey_cache) in
  modify (set_pubkey_cache PubkeyCache.default);;
  let start_index := cache.(PubkeyCache.len) in
  if (length (State.validators s) <? start_index)%nat then throw BeaconStateError.MilhouseError
  else
    c ← lift (insert_pubkeys start_index (drop start_index (State.validators s)) cache);
    modify (set_pubkey_cache c).
Definition get_validator_index (pubkey : PublicKeyBytes) : StM (option nat) :=
  update_pubkey_cache;;
  s ← get; mret (PubkeyCache.get pubkey s.(State.caches).(Caches.pubkey_cache)).

Definition set_builder_pubkey_cache (c : BuilderPubkeyCache.t) : State.t → State.t :=
  State.on_caches (Caches.set_builder_pubkey_cache c).
(** The scan over [cached_len..builders_len]. *)
Fixpoint insert_builders (i : nat) (builders : list Builder.t) (c : BuilderPubkeyCache.t) : BuilderPubkeyCache.t :=
  match builders with
  | [] => c
  | b :: rest => insert_builders (S i) rest (BuilderPubkeyCache.insert b.(Builder.pubkey) i c)
  end.
Definition update_builder_pubkey_cache : StM unit :=
  s ← get;
  let cache := s.(State.caches).(Caches.builder_pubkey_cache) in
  match st_builders s with
  | Ok builders =>
      let cached_len := BuilderPubkeyCache.len cache in
      modify (set_builder_pubkey_cache (insert_builders cached_len (drop cached_len builders) cache))
  | _ => mret tt
  end.

(** ** New validators *)
Definition push_participation (limit : Z) : StM unit :=
  s ← get;
  match st_previous_epoch_participation s with
  | Ok previous =>
      previous' ← try (Milhouse.push limit ParticipationFlags.default previous);
      modify (State.on_core (fun c => BeaconState.set_participation previous' c.(BeaconState.current_epoch_participation) c))
  | _ => mret tt
  end;;
  s ← get;
  match st_current_epoch_participation s with
  | Ok current =>
      current' ← try (Milhouse.push limit ParticipationFlags.default current);
      modify (State.on_core (fun c => BeaconState.set_participation c.(BeaconState.previous_epoch_participation) current' c))
  | _ => mret tt
  end.
Definition add_validator_to_registry (pubkey : PublicKeyBytes) (withdrawal_credentials : Hash256) (amount : Z)
    : StM nat :=
  s ← get;
  let index := length (State.validators s) in
  let limit := spec.(Spec.validator_registry_limit) in
  v ← lift (ValidatorOps.from_deposit spec pubkey withdrawal_credentials amount (State.fork_name s));
  validators ← try (Milhouse.push limit v (State.validators s));
  modify (set_validators validators);;
  balances' ← try (Milhouse.push limit amount (balances s));
  modify (set_balances balances');;
  push_participation limit;;
  s ← get;
  match st_inactivity_scores s with
  | Ok scores =>
      scores' ← try (Milhouse.push limit 0 scores);
      modify (State.on_registry (Registry.set_inactivity_scores scores'))
  | _ => mret tt
  end;;
  s ← get;
  let cache := s.(State.caches).(Caches.pubkey_cache) in
  (if (cache.(PubkeyCache.len) =? index)%nat then
     let '(success, cache') := PubkeyCache.insert pubkey index cache in
     modify (set_pubkey_cache cache');;
     if success then mret tt else throw BeaconStateError.PubkeyCacheInconsistent
   else mret tt);;
  mret index.

(** ** Churn *)
Definition get_validator_churn_limit (s : State.t) : outcome BeaconStateError.t Z :=
  cache ← committee_cache s Current;
  n ← into (safe_div (Z.of_nat (active_validator_count cache)) spec.(Spec.churn_limit_quotient));
  Ok (Z.max spec.(Spec.min_per_epoch_churn_limit) n).
Definition get_activation_churn_limit (s : State.t) : outcome BeaconStateError.t Z :=
  if ForkName.ge (State.fork_name s) ForkName.Deneb then
    n ← get_validator_churn_limit s; Ok (Z.min spec.(Spec.max_per_epoch_activation_churn_limit) n)
  else get_validator_churn_limit s.
Definition get_balance_churn_limit (s : State.t) : outcome BeaconStateError.t Z :=
  total ← get_total_active_balance spe s.(State.core);
  n ← into (safe_div total spec.(Spec.churn_limit_quotient));
  let churn := Z.max spec.(Spec.min_per_epoch_churn_limit_electra) n in
  r ← into (safe_rem churn spec.(Spec.effective_balance_increment));
  into (safe_sub churn r).
Definition get_activation_exit_churn_limit (s : State.t) : outcome BeaconStateError.t Z :=
  n ← get_balance_churn_limit s; Ok (Z.min spec.(Spec.max_per_epoch_activation_exit_churn_limit) n).
Definition get_consolidation_churn_limit (s : State.t) : outcome BeaconStateError.t Z :=
  n ← get_balance_churn_limit s;
  m ← get_activation_exit_churn_limit s;
  into (safe_sub n m).

(** The epoch a balance leaves in and what that epoch still admits: the common
    body of [compute_exit_epoch_and_update_churn] and
    [compute_consolidation_epoch_and_update_churn]. *)
Definition consume_churn (per_epoch_churn : Z) (stored_epoch : Epoch) (stored_balance : Z) (earliest : Epoch)
    (balance : Z) : outcome ArithError (Epoch * Z) :=
  let to_consume := if stored_epoch <? earliest then per_epoch_churn else stored_balance in
  if to_consume <? balance then
    to_process ← safe_sub balance to_consume;
    n ← safe_sub to_process 1;
    n ← safe_div n per_epoch_churn;
    additional_epochs ← safe_add n 1;
    earliest' ← safe_add earliest additional_epochs;
    m ← safe_mul additional_epochs per_epoch_churn;
    to_consume' ← safe_add to_consume m;
    Ok (earliest', to_consume')
  else Ok (earliest, to_consume).

Definition compute_exit_epoch_and_update_churn (exit_balance : Z) : StM Epoch :=
  s ← get;
  stored ← lift (st_earliest_exit_epoch s);
  delayed ← try (compute_activation_exit_epoch spec (current_epoch s));
  per_epoch_churn ← lift (get_activation_exit_churn_limit s);
  available ← lift (st_exit_balance_to_consume s);
  '(earliest, to_consume) ← try (consume_churn per_epoch_churn stored available (Z.max stored delayed) exit_balance);
  left_over ← try (safe_sub to_consume exit_balance);
  modify (State.on_queues (Queues.set_exit_balance_to_consume left_over));;
  modify (State.on_queues (Queues.set_earliest_exit_epoch earliest));;
  mret earliest.
Definition compute_consolidation_epoch_and_update_churn (consolidation_balance : Z) : StM Epoch :=
  s ← get;
  stored ← lift (st_earliest_consolidation_epoch s);
  delayed ← try (compute_activation_exit_epoch spec (current_epoch s));
  per_epoch_churn ← lift (get_consolidation_churn_limit s);
  available ← lift (st_consolidation_balance_to_consume s);
  '(earliest, to_consume) ←
    try (consume_churn per_epoch_churn stored available (Z.max stored delayed) consolidation_balance);
  left_over ← try (safe_sub to_consume consolidation_balance);
  modify (State.on_queues (Queues.set_consolidation_balance_to_consume left_over));;
  modify (State.on_queues (Queues.set_earliest_consolidation_epoch earliest));;
  mret earliest.

(** ** Pending balances and credentials *)
Fixpoint sum_amounts (l : list PendingPartialWithdrawal.t) (acc : Z) : outcome BeaconStateError.t Z :=
  match l with
  | [] => Ok acc
  | w :: rest => acc' ← into (safe_add acc w.(PendingPartialWithdrawal.amount)); sum_amounts rest acc'
  end.
Definition get_pending_balance_to_withdraw (s : State.t) (validator_index : nat) : outcome BeaconStateError.t Z :=
  l ← st_pending_partial_withdrawals s;
  sum_amounts (filter (fun w => Z.to_nat w.(PendingPartialWithdrawal.validator_index) = validator_index) l) 0.

Definition push_pending_deposit (d : PendingDeposit.t) : StM unit :=
  s ← get;
  l ← lift (st_pending_deposits s);
  l' ← try (Milhouse.push spec.(Spec.pending_deposits_limit) d l);
  modify (State.on_queues (Queues.set_pending_deposits l')).

(** [Signature::infinity] *)
Definition infinity_signature : Z := 0.
Definition queue_excess_active_balance (validator_index : nat) : StM unit :=
  s ← get;
  balance ← lift (ok_or (balances s !! validator_index) (BeaconStateError.UnknownValidator validator_index));
  when (spec.(Spec.min_activation_balance) <? balance) (
    excess_balance ← try (safe_sub balance spec.(Spec.min_activation_balance));
    modify (set_balances (<[validator_index := spec.(Spec.min_activation_balance)]> (balances s)));;
    v ← lift (get_validator s validator_index);
    push_pending_deposit (PendingDeposit.mk v.(Validator.pubkey) v.(Validator.withdrawal_credentials)
      excess_balance infinity_signature spec.(Spec.genesis_slot))).
Definition switch_to_compounding_validator (validator_index : nat) : StM unit :=
  update_validator validator_index (fun v =>
    ValidatorOps.set_withdrawal_credentials
      (with_prefix spec.(Spec.compounding_withdrawal_prefix_byte) v.(Validator.withdrawal_credentials)) v);;
  queue_excess_active_balance validator_index.

(** ** Exits *)
(** The queue epoch before Electra. *)
Definition exit_queue_epoch_base (s : State.t) : outcome BeaconStateError.t Epoch :=
  delayed_epoch ← into (compute_activation_exit_epoch spec (current_epoch s));
  let cache := s.(State.caches).(Caches.exit_cache) in
  max_epoch ← ExitCache.max_epoch cache;
  let exit_queue_epoch := match max_epoch with None => delayed_epoch | Some e => Z.max e delayed_epoch end in
  exit_queue_churn ← ExitCache.get_churn_at exit_queue_epoch cache;
  churn_limit ← get_validator_churn_limit s;
  if churn_limit <=? exit_queue_churn then into (safe_add exit_queue_epoch 1) else Ok exit_queue_epoch.

Definition initiate_validator_exit (index : nat) : StM unit :=
  s ← get;
  validator ← lift (get_validator s index);
  if negb (validator.(Validator.exit_epoch) =? spec.(Spec.far_future_epoch)) then mret tt
  else
    build_exit_cache;;
    s ← get;
    exit_queue_epoch ←
      (if ForkName.ge (State.fork_name s) ForkName.Electra then
         effective_balance ← lift (get_effective_balance s index);
         compute_exit_epoch_and_update_churn effective_balance
       else lift (exit_queue_epoch_base s));
    update_validator index (fun v => ValidatorOps.set_exit exit_queue_epoch v.(Validator.withdrawable_epoch) v);;
    withdrawable ← try (safe_add exit_queue_epoch spec.(Spec.min_validator_withdrawability_delay));
    update_validator index (ValidatorOps.set_exit exit_queue_epoch withdrawable);;
    s ← get;
    cache ← lift (ExitCache.record_validator_exit exit_queue_epoch s.(State.caches).(Caches.exit_cache));
    modify (State.on_caches (Caches.set_exit_cache cache)).
End transition.
