(* ===== verification/BlockDefs.v ===== *)
(** * Blocks: data, errors, context and slashing

    The objects that a block carries, the error types of
    [state_processing/src/per_block_processing/errors.rs], the per-block context
    of [consensus_context.rs] with the proposer selection of
    [beacon_state.rs], and [common/slash_validator.rs].

    The text in an error is a constructor.  Checking a signature is the
    parameter [signature_set]: it stands for [signature_sets.rs] and the BLS
    library, and takes the state and the signed object. *)
From S2P Require Import Prelude SlotEpoch ProtoArrayDefs ForkChoiceDefs ForkSchedule BeaconStateDefs.
From S2P Require Import ValidatorDefs ShuffleDefs CommitteeDefs DoppelgangerDefs ValidatorStoreDefs StateDefs RegistryDefs.

(** ** Weights ([consts.rs]) *)
Definition TIMELY_SOURCE_WEIGHT : Z := 14.
Definition TIMELY_TARGET_WEIGHT : Z := 26.
Definition TIMELY_HEAD_WEIGHT : Z := 14.
Definition SYNC_REWARD_WEIGHT : Z := 2.
Definition PROPOSER_WEIGHT : Z := 8.
Definition WEIGHT_DENOMINATOR : Z := 64.
Definition PARTICIPATION_FLAG_WEIGHTS : list Z := [TIMELY_SOURCE_WEIGHT; TIMELY_TARGET_WEIGHT; TIMELY_HEAD_WEIGHT].
Definition BUILDER_INDEX_FLAG : Z := Z.shiftl 1 40.

(** ** Objects *)
#[export] Instance attestation_data_eq_dec : EqDecision AttestationData.t.
Proof. solve_decision. Defined.
#[export] Instance header_eq_dec : EqDecision BeaconBlockHeader.t.
Proof. solve_decision. Defined.

Module IndexedAttestation.
Record t : Type := mk { attesting_indices : list Z; data : AttestationData.t; signature : Z }.
End IndexedAttestation.

(** [AttestationRef]: the Electra form has a bit for each committee. *)
Module BlockAttestation.
Inductive t : Type :=
  | Base (aggregation_bits : list bool) (data : AttestationData.t) (signature : Z)
  | Electra (aggregation_bits committee_bits : list bool) (data : AttestationData.t) (signature : Z).
Definition data (a : t) : AttestationData.t :=
  match a with Base _ d _ => d | Electra _ _ d _ => d end.
End BlockAttestation.

Module SignedBeaconBlockHeader.
Record t : Type := mk { message : BeaconBlockHeader.t; signature : Z }.
End SignedBeaconBlockHeader.

Module ProposerSlashing.
Record t : Type := mk { signed_header_1 : SignedBeaconBlockHeader.t; signed_header_2 : SignedBeaconBlockHeader.t }.
End ProposerSlashing.

Module AttesterSlashing.
Record t : Type := mk { attestation_1 : IndexedAttestation.t; attestation_2 : IndexedAttestation.t }.
End AttesterSlashing.

Module SignedVoluntaryExit.
Record t : Type := mk { epoch : Epoch; validator_index : Z; signature : Z }.
End SignedVoluntaryExit.

Module SignedBlsToExecutionChange.
Record t : Type := mk {
  validator_index : Z; from_bls_pubkey : PublicKeyBytes; to_execution_address : Address; signature : Z;
}.
End SignedBlsToExecutionChange.

Module DepositData.
Record t : Type := mk { pubkey : PublicKeyBytes; withdrawal_credentials : Hash256; amount : Z; signature : Z }.
End DepositData.

Module Deposit.
Record t : Type := mk { proof : list Hash256; data : DepositData.t }.
End Deposit.

Module DepositRequest.
Record t : Type := mk {
  pubkey : PublicKeyBytes; withdrawal_credentials : Hash256; amount : Z; signature : Z; index : Z;
}.
Definition data (r : t) : DepositData.t :=
  DepositData.mk r.(pubkey) r.(withdrawal_credentials) r.(amount) r.(signature).
End DepositRequest.

Module WithdrawalRequest.
Record t : Type := mk { source_address : Address; validator_pubkey : PublicKeyBytes; amount : Z }.
End WithdrawalRequest.

Module ConsolidationRequest.
Record t : Type := mk { source_address : Address; source_pubkey : PublicKeyBytes; target_pubkey : PublicKeyBytes }.
End ConsolidationRequest.

Module ExecutionRequests.
Record t : Type := mk {
  deposits : list DepositRequest.t;
  withdrawals : list WithdrawalRequest.t;
  consolidations : list ConsolidationRequest.t;
}.
End ExecutionRequests.

Module SignedBid.
Record t : Type := mk {
  (** the variant, [Gloas] or [Heze] *)
  fork : ForkName.t;
  message : PayloadBid.t;
  signature_is_infinity : bool;
  signature : Z;
}.
End SignedBid.

Module PayloadAttestationData.
Record t : Type := mk {
  beacon_block_root : Hash256; slot : Slot; payload_present : bool; blob_data_available : bool;
}.
End PayloadAttestationData.

Module PayloadAttestation.
Record t : Type := mk { aggregation_bits : list bool; data : PayloadAttestationData.t; signature : Z }.
End PayloadAttestation.

Module IndexedPayloadAttestation.
Record t : Type := mk { attesting_indices : list Z; data : PayloadAttestationData.t; signature : Z }.
End IndexedPayloadAttestation.

Module SyncAggregate.
Record t : Type := mk { sync_committee_bits : list bool; sync_committee_signature : Z }.
End SyncAggregate.

Module ExecutionPayload.
Record t : Type := mk {
  parent_hash : ExecutionBlockHash; prev_randao : Hash256; gas_limit : Z; timestamp : Z;
  block_hash : ExecutionBlockHash; withdrawals : list Withdrawal.t;
}.
End ExecutionPayload.

Module SignedEnvelope.
Record t : Type := mk {
  payload : ExecutionPayload.t;
  execution_requests : ExecutionRequests.t;
  builder_index : Z;
  beacon_block_root : Hash256;
  slot : Slot;
  state_root : Hash256;
  signature : Z;
}.
End SignedEnvelope.

(** What a signature signs. *)
Module Signed.
Inductive t : Type :=
  | Header (h : SignedBeaconBlockHeader.t)
  | Attestation (a : IndexedAttestation.t)
  | Exit (pubkey : option PublicKeyBytes) (e : SignedVoluntaryExit.t)
  | BlsChange (c : SignedBlsToExecutionChange.t)
  | Bid (pubkey : PublicKeyBytes) (b : SignedBid.t)
  | PtcVote (pubkeys : list PublicKeyBytes) (a : PayloadAttestation.t)
  | Envelope (proposer_index : Z) (e : SignedEnvelope.t)
  | Block (proposer_index : Z) (slot : Slot) (block_root : Hash256) (signature : Z)
  | Randao (proposer_index : Z) (slot : Slot) (reveal : list Z)
  | Sync (a : SyncAggregate.t) (slot : Slot) (block_root : Hash256).
End Signed.

(** ** Errors *)
Module SignatureSetError.
Inductive t : Type := error (code : Z).
End SignatureSetError.

Module ContextError.
Inductive t : Type :=
  | BeaconState (e : BeaconStateError.t)
  | EpochCache (e : EpochCacheError.t)
  | SlotMismatch (slot expected : Slot)
  | EpochMismatch (epoch expected : Epoch).
End ContextError.
#[export] Instance state_context_error : From BeaconStateError.t ContextError.t := ContextError.BeaconState.

Module BlockOperationError.
Inductive t (T : Type) : Type :=
  | Invalid (reason : T)
  | BeaconStateError (e : BeaconStateError.t)
  | SignatureSetError (e : SignatureSetError.t)
  | ConsensusContext (e : ContextError.t)
  | ArithError (e : ArithError).
Arguments Invalid {T} reason.
Arguments BeaconStateError {T} e.
Arguments SignatureSetError {T} e.
Arguments ConsensusContext {T} e.
Arguments ArithError {T} e.
End BlockOperationError.
#[export] Instance state_operation_error T : From BeaconStateError.t (BlockOperationError.t T) :=
  BlockOperationError.BeaconStateError.
#[export] Instance signature_operation_error T : From SignatureSetError.t (BlockOperationError.t T) :=
  BlockOperationError.SignatureSetError.
#[export] Instance context_operation_error T : From ContextError.t (BlockOperationError.t T) :=
  BlockOperationError.ConsensusContext.
#[export] Instance arith_operation_error T : From ArithError (BlockOperationError.t T) :=
  BlockOperationError.ArithError.

Module HeaderInvalid.
Inductive t : Type :=
  | ProposalSignatureInvalid
  | StateSlotMismatch
  | OlderThanLatestBlockHeader (latest_block_header_slot block_slot : Slot)
  | ProposerIndexMismatch (block_proposer_index state_proposer_index : Z)
  | ParentBlockRootMismatch (state block : Hash256)
  | ProposerSlashed (i : Z).
End HeaderInvalid.

Module ProposerSlashingInvalid.
Inductive t : Type :=
  | ProposerUnknown (i : Z)
  | ProposalSlotMismatch (slot_1 slot_2 : Slot)
  | ProposerIndexMismatch (index_1 index_2 : Z)
  | ProposalsIdentical
  | ProposerNotSlashable (i : Z)
  | BadProposal1Signature
  | BadProposal2Signature.
End ProposerSlashingInvalid.

Module IndexedAttestationInvalid.
Inductive t : Type :=
  | IndicesEmpty
  | BadValidatorIndicesOrdering (i : nat)
  | ValidatorIndexOutOfRange (i : Z)
  | BadSignature.
End IndexedAttestationInvalid.

Module AttesterSlashingInvalid.
Inductive t : Type :=
  | NotSlashable
  | IndexedAttestation1Invalid (e : BlockOperationError.t IndexedAttestationInvalid.t)
  | IndexedAttestation2Invalid (e : BlockOperationError.t IndexedAttestationInvalid.t)
  | UnknownValidator (i : Z)
  | NoSlashableIndices.
End AttesterSlashingInvalid.

Module AttestationInvalid.
Inductive t : Type :=
  | BadCommitteeIndex
  | IncludedTooEarly (state : Slot) (delay : Z) (attestation : Slot)
  | IncludedTooLate (state attestation : Slot)
  | TargetEpochSlotMismatch (target_epoch slot_epoch : Epoch)
  | BadTargetEpoch
  | WrongJustifiedCheckpoint (state attestation : Checkpoint.t) (is_current : bool)
  | BadSignature
  | BadIndexedAttestation (e : IndexedAttestationInvalid.t).
End AttestationInvalid.
#[export] Instance indexed_attestation_error :
  From (BlockOperationError.t IndexedAttestationInvalid.t) (BlockOperationError.t AttestationInvalid.t) := fun e =>
  match e with
  | BlockOperationError.Invalid e => BlockOperationError.Invalid (AttestationInvalid.BadIndexedAttestation e)
  | BlockOperationError.BeaconStateError e => BlockOperationError.BeaconStateError e
  | BlockOperationError.SignatureSetError e => BlockOperationError.SignatureSetError e
  | BlockOperationError.ConsensusContext e => BlockOperationError.ConsensusContext e
  | BlockOperationError.ArithError e => BlockOperationError.ArithError e
  end.

Module DepositInvalid.
Inductive t : Type := BadSignature | BadBlsBytes | BadMerkleProof.
End DepositInvalid.

Module ExitInvalid.
Inductive t : Type :=
  | NotActive (i : Z)
  | ValidatorUnknown (i : Z)
  | AlreadyExited (i : Z)
  | FutureEpoch (state exit : Epoch)
  | TooYoungToExit (current_epoch earliest_exit_epoch : Epoch)
  | BadSignature
  | PendingWithdrawalInQueue (i : Z)
  | BuilderUnknown (i : Z)
  | BuilderNotActive (i : Z)
  | BuilderPendingWithdrawalInQueue (i : Z).
End ExitInvalid.

Module BlsExecutionChangeInvalid.
Inductive t : Type :=
  | ValidatorUnknown (i : Z)
  | NonBlsWithdrawalCredentials
  | WithdrawalCredentialsMismatch
  | BadSignature.
End BlsExecutionChangeInvalid.

Module PayloadAttestationInvalid.
Inductive t : Type :=
  | WrongSlot (expected actual : Slot)
  | WrongBeaconBlockRoot
  | BadSignature
  | InvalidPubkey
  | AttesterIndexOutOfBounds
  | NoActiveValidators.
End PayloadAttestationInvalid.

(** The texts of [PayloadBidInvalid]. *)
Module PayloadBidInvalid.
Inductive t : Type :=
  | NotEpbsEnabled
  | SelfBuildValue
  | SelfBuildSignature
  | UnknownBuilder (builder_index : Z)
  | NotActive (builder_index : Z)
  | BalanceCheckFailed
  | InsufficientBalance (balance value : Z)
  | BadPubkey (builder_index : Z)
  | BadSignature (builder_index : Z)
  | TooManyCommitments (len : nat) (max : Z)
  | WrongSlot (bid block : Slot)
  | WrongParentBlockHash
  | WrongParentBlockRoot
  | NoRandaoMix
  | WrongPrevRandao
  | SlotIndexOutOfBounds (i : nat).
End PayloadBidInvalid.

Module BlockProcessingError.
Inductive t : Type :=
  | IncorrectStateType
  | RandaoSignatureInvalid
  | BulkSignatureVerificationFailed
  | DepositCountInvalid (expected found : nat)
  | HeaderInvalid (reason : HeaderInvalid.t)
  | ProposerSlashingInvalid (index : nat) (reason : ProposerSlashingInvalid.t)
  | AttesterSlashingInvalid (index : nat) (reason : AttesterSlashingInvalid.t)
  | AttestationInvalid (index : nat) (reason : AttestationInvalid.t)
  | DepositInvalid (index : nat) (reason : DepositInvalid.t)
  | ExitInvalid (index : nat) (reason : ExitInvalid.t)
  | BlsExecutionChangeInvalid (index : nat) (reason : BlsExecutionChangeInvalid.t)
  | SyncAggregateInvalid
  | BeaconStateError (e : BeaconStateError.t)
  | SignatureSetError (e : SignatureSetError.t)
  | BitfieldError (i : nat)
  | ArithError (e : ArithError)
  | InconsistentBlockFork (fork_at_slot object_fork : ForkName.t)
  | InconsistentStateFork (fork_at_slot object_fork : ForkName.t)
  | ExecutionHashChainIncontiguous (expected found : ExecutionBlockHash)
  | ExecutionRandaoMismatch (expected found : Hash256)
  | ExecutionInvalidTimestamp (expected found : Z)
  | ExecutionInvalidBlobsLen (max actual : nat)
  | ConsensusContext (e : ContextError.t)
  | MilhouseError (e : Milhouse.error)
  | EpochCacheError (e : EpochCacheError.t)
  | WithdrawalsRootMismatch (expected found : Hash256)
  | WithdrawalCredentialsInvalid
  | InvalidBuilderCredentials
  | WithdrawalBuilderIndexInvalid (builder_index builders_count : Z)
  | PendingAttestationInElectra
  | PayloadBidInvalid (reason : PayloadBidInvalid.t)
  | PayloadAttestationInvalid (e : PayloadAttestationInvalid.t).
End BlockProcessingError.
#[export] Instance state_block_error : From BeaconStateError.t BlockProcessingError.t := BlockProcessingError.BeaconStateError.
#[export] Instance signature_block_error : From SignatureSetError.t BlockProcessingError.t :=
  BlockProcessingError.SignatureSetError.
#[export] Instance arith_block_error : From ArithError BlockProcessingError.t := BlockProcessingError.ArithError.
#[export] Instance context_block_error : From ContextError.t BlockProcessingError.t := BlockProcessingError.ConsensusContext.
#[export] Instance cache_block_error : From EpochCacheError.t BlockProcessingError.t := BlockProcessingError.EpochCacheError.
#[export] Instance milhouse_block_error : From Milhouse.error BlockProcessingError.t := BlockProcessingError.MilhouseError.

(** [IntoWithIndex]: [wrap] is the variant of the reason. *)
Definition with_index {T} (wrap : T → BlockProcessingError.t) (e : BlockOperationError.t T) : BlockProcessingError.t :=
  match e with
  | BlockOperationError.Invalid reason => wrap reason
  | BlockOperationError.BeaconStateError e => BlockProcessingError.BeaconStateError e
  | BlockOperationError.SignatureSetError e => BlockProcessingError.SignatureSetError e
  | BlockOperationError.ConsensusContext e => BlockProcessingError.ConsensusContext e
  | BlockOperationError.ArithError e => BlockProcessingError.ArithError e
  end.
#[export] Instance header_block_error : From (BlockOperationError.t HeaderInvalid.t) BlockProcessingError.t :=
  with_index BlockProcessingError.HeaderInvalid.

(** [verify!]. *)
Definition verify {T} (condition : bool) (reason : T) : outcome (BlockOperationError.t T) unit :=
  if condition then Ok tt else Err (BlockOperationError.Invalid reason).
(** [block_verify!]. *)
Definition block_verify (condition : bool) (e : BlockProcessingError.t) : outcome BlockProcessingError.t unit :=
  if condition then Ok tt else Err e.

(** ** The context of a block *)
Module ConsensusContext.
Record t : Type := mk {
  slot : Slot;
  previous_epoch : Epoch;
  current_epoch : Epoch;
  proposer_index : option Z;
  indexed_attestations : gmap Hash256 IndexedAttestation.t;
}.
Definition new (spec : Spec.t) (slot : Slot) : t :=
  let current := epoch slot spec.(Spec.slots_per_epoch) in
  mk slot (u64_saturating_sub current 1) current None ∅.
Definition set_proposer_index (i : Z) (c : t) : t :=
  mk c.(slot) c.(previous_epoch) c.(current_epoch) (Some i) c.(indexed_attestations).
Definition insert_indexed_attestation (key : Hash256) (a : IndexedAttestation.t) (c : t) : t :=
  mk c.(slot) c.(previous_epoch) c.(current_epoch) c.(proposer_index) (<[key := a]> c.(indexed_attestations)).
Definition check_slot (slot' : Slot) (c : t) : outcome ContextError.t unit :=
  if slot' =? c.(slot) then Ok tt else Err (ContextError.SlotMismatch slot' c.(slot)).
End ConsensusContext.

(** A function over [&mut state] and [&mut ctxt]. *)
Module Block.
Record t : Type := mk { state : State.t; ctxt : ConsensusContext.t }.
Definition set_state (s : State.t) (b : t) : t := mk s b.(ctxt).
Definition set_ctxt (c : ConsensusContext.t) (b : t) : t := mk b.(state) c.
End Block.
Abbreviation BlM := (M Block.t BlockProcessingError.t).
(** A function of the state alone. *)
Definition on_state {E A} (m : M State.t E A) : M Block.t E A := zoom Block.state Block.set_state m.

Section proposer.
Context (hash : list Z → list Z) (spec : Spec.t) (fuel : nat).
Abbreviation spe := (spec.(Spec.slots_per_epoch)).

(** [MAX_RANDOM_VALUE] and [MAX_RANDOM_BYTE]. *)
Definition MAX_RANDOM_VALUE : Z := 2 ^ 16 - 1.
Definition MAX_RANDOM_BYTE : Z := 2 ^ 8 - 1.

(** The random value of attempt [i] from the hash of its group; the hash is
    kept in [cached] until the group changes. *)
Definition random_bytes_of (seed : list Z) (hash_group : Z) (cached : option (Z * list Z)) : list Z :=
  match cached with
  | Some (g, bytes) => if g =? hash_group then bytes else hash (seed ++ to_le_bytes 8 hash_group)
  | None => hash (seed ++ to_le_bytes 8 hash_group)
  end.
Definition random_value_of (is_electra : bool) (bytes : list Z) (i : Z) : outcome BeaconStateError.t Z :=
  if is_electra then
    let offset := Z.to_nat (i mod 16 * 2) in
    lo ← ok_or (bytes !! offset) (BeaconStateError.ShuffleIndexOutOfBounds offset);
    hi ← ok_or (bytes !! S offset) (BeaconStateError.ShuffleIndexOutOfBounds offset);
    Ok (from_le_bytes [lo; hi])
  else
    let index := Z.to_nat (i mod 32) in
    ok_or (bytes !! index) (BeaconStateError.ShuffleIndexOutOfBounds index).

(** The epoch cache first, the registry when it has no answer. *)
Definition candidate_balance (s : State.t) (candidate : nat) : outcome BeaconStateError.t Z :=
  match EpochCache.get_effective_balance candidate s.(State.caches).(Caches.epoch_cache) with
  | Ok balance => Ok balance
  | _ => get_effective_balance s candidate
  end.

Fixpoint proposer_loop (s : State.t) (indices : list nat) (seed : list Z) (n : nat) (i : Z)
    (cached : option (Z * list Z)) : outcome BeaconStateError.t nat :=
  match n with
  | O => Diverge
  | S n' =>
      let is_electra := ForkName.ge (State.fork_name s) ForkName.Electra in
      let per_group := if is_electra then 16 else 32 in
      pos ← into (safe_rem i (Z.of_nat (length indices)));
      shuffled ←
        match compute_shuffled_index hash (Z.to_nat pos) (length indices) seed spec.(Spec.shuffle_round_count) with
        | Ok (Some j) => Ok j
        | Ok None => Err BeaconStateError.UnableToShuffle
        | Err _ | Panic => Panic
        | Diverge => Diverge
        end;
      candidate ← ok_or (indices !! shuffled) (BeaconStateError.ShuffleIndexOutOfBounds shuffled);
      let hash_group := i / per_group in
      let bytes := random_bytes_of seed hash_group cached in
      random_value ← random_value_of is_electra bytes i;
      balance ← candidate_balance s candidate;
      weight ← into (safe_mul balance (if is_electra then MAX_RANDOM_VALUE else MAX_RANDOM_BYTE));
      threshold ← into (safe_mul (max_effective_balance_for_fork spec (State.fork_name s)) random_value);
      if threshold <=? weight then Ok candidate
      else
        i' ← into (safe_add i 1);
        proposer_loop s indices seed n' i' (Some (hash_group, bytes))
  end.
Definition compute_proposer_index (s : State.t) (indices : list nat) (seed : list Z) : outcome BeaconStateError.t nat :=
  match indices with
  | [] => Err BeaconStateError.InsufficientValidators
  | _ => proposer_loop s indices seed fuel 0 None
  end.

(** [get_beacon_proposer_seed]. *)
Definition get_beacon_proposer_seed (s : State.t) (slot : Slot) : outcome BeaconStateError.t (list Z) :=
  seed ← get_seed hash spec s.(State.chain).(Chain.randao_mixes) (epoch slot spe) spec.(Spec.domain_beacon_proposer);
  Ok (hash (seed ++ to_le_bytes 8 slot)).
Definition get_beacon_proposer_index (s : State.t) (slot : Slot) : outcome BeaconStateError.t nat :=
  let e := epoch slot spe in
  if negb (e =? current_epoch spec s) then Err BeaconStateError.SlotOutOfBounds
  else
    match st_proposer_lookahead s with
    | Ok proposer_lookahead =>
        i ← into (safe_rem slot spe);
        index ← ok_or (proposer_lookahead !! Z.to_nat i) (BeaconStateError.ProposerLookaheadOutOfBounds (Z.to_nat i));
        Ok (Z.to_nat index)
    | _ =>
        seed ← get_beacon_proposer_seed s slot;
        indices ← st_get_active_validator_indices spec s e;
        compute_proposer_index s indices seed
    end.

(** [ctxt.get_proposer_index]: the first answer is kept. *)
Definition get_proposer_index : M Block.t ContextError.t Z :=
  b ← get;
  lift (ConsensusContext.check_slot (State.slot b.(Block.state)) b.(Block.ctxt));;
  match b.(Block.ctxt).(ConsensusContext.proposer_index) with
  | Some i => mret i
  | None =>
      i ← try (get_beacon_proposer_index b.(Block.state) b.(Block.ctxt).(ConsensusContext.slot));
      modify (Block.set_ctxt (ConsensusContext.set_proposer_index (Z.of_nat i) b.(Block.ctxt)));;
      mret (Z.of_nat i)
  end.

(** ** Slashing *)
Definition slash_validator (slashed_index : nat) (opt_whistleblower_index : option nat) : BlM unit :=
  b ← get;
  let e := current_epoch spec b.(Block.state) in
  let latest_block_slot := (State.latest_block_header b.(Block.state)).(BeaconBlockHeader.slot) in
  call (on_state (initiate_validator_exit spec slashed_index));;
  call (on_state (update_validator slashed_index ValidatorOps.set_slashed));;
  limit ← try (safe_add e spec.(Spec.epochs_per_slashings_vector));
  call (on_state (update_validator slashed_index (fun v =>
    ValidatorOps.set_exit v.(Validator.exit_epoch) (Z.max v.(Validator.withdrawable_epoch) limit) v)));;
  b ← get;
  validator_effective_balance ← try (get_effective_balance b.(Block.state) slashed_index);
  slashings ← try (get_slashings spec b.(Block.state) e);
  total ← try (safe_add slashings validator_effective_balance);
  call (on_state (set_slashings spec e total));;
  let f := State.fork_name b.(Block.state) in
  penalty ← try (safe_div validator_effective_balance (min_slashing_penalty_quotient_for_state spec f));
  call (on_state (decrease_balance slashed_index penalty));;
  call (on_state (on_core (update_progressive_balances_on_slashing slashed_index validator_effective_balance)));;
  b ← get;
  cache ← try (SlashingsCache.record_validator_slashing latest_block_slot slashed_index
                 b.(Block.state).(State.caches).(Caches.slashings_cache));
  on_state (modify (State.on_caches (Caches.set_slashings_cache cache)));;
  proposer_index ← call get_proposer_index;
  let proposer_index := Z.to_nat proposer_index in
  let whistleblower_index := default proposer_index opt_whistleblower_index in
  whistleblower_reward ← try (safe_div validator_effective_balance (whistleblower_reward_quotient_for_state spec f));
  proposer_reward ←
    (if ForkName.ge f ForkName.Altair then
       n ← try (safe_mul whistleblower_reward PROPOSER_WEIGHT); try (safe_div n WEIGHT_DENOMINATOR)
     else try (safe_div whistleblower_reward spec.(Spec.proposer_reward_quotient)));
  b ← get;
  try (get_validator b.(Block.state) whistleblower_index);;
  call (on_state (increase_balance proposer_index proposer_reward));;
  rest ← try (safe_sub whistleblower_reward proposer_reward);
  call (on_state (increase_balance whistleblower_index rest)).
End proposer.
