(* ===== verification/EpbsDefs.v ===== *)
(** * Builders: bids, payload attestations and withdrawals

    [state_processing/src/per_block_processing/gloas.rs]: the bid that a block
    commits to, the payload timeliness committee (PTC) and its attestations, the
    withdrawals that pay builders and validators, and the exit of a builder.

    A loop over indices that stops early is a recursion over the work left.  The
    selection of the PTC loops until the committee is full; its model has the
    fuel [fuel].  The room that [max_blobs_per_block] gives is read from the fork
    schedule [forks]. *)
From S2P Require Import Prelude SlotEpoch ProtoArrayDefs ForkChoiceDefs ForkSchedule BeaconStateDefs.
From S2P Require Import ValidatorDefs ShuffleDefs CommitteeDefs DoppelgangerDefs ValidatorStoreDefs StateDefs RegistryDefs BlockDefs.

Abbreviation EpM := (M State.t BlockProcessingError.t).

(** [max_blobs_for_epoch] and [max_blobs_per_block]; the schedule is ordered from
    the latest epoch on. *)
Definition max_blobs_for_epoch (schedule : list (Epoch * Z)) (e : Epoch) : option Z :=
  snd <$> head (filter (fun entry => entry.1 <= e) schedule).
Definition max_blobs_per_block (spec : Spec.t) (forks : ForkSpec.t) (e : Epoch) : Z :=
  let from_electra :=
    match forks.(ForkSpec.electra_fork_epoch) with
    | Some electra_epoch =>
        if electra_epoch <=? e then spec.(Spec.max_blobs_per_block_electra) else spec.(Spec.max_blobs_per_block)
    | None => spec.(Spec.max_blobs_per_block)
    end in
  match forks.(ForkSpec.fulu_fork_epoch) with
  | Some fulu_epoch =>
      if fulu_epoch <=? e
      then default spec.(Spec.max_blobs_per_block_electra) (max_blobs_for_epoch forks.(ForkSpec.blob_schedule) e)
      else from_electra
  | None => from_electra
  end.

(** The withdrawals so far, the index of the next one and how many entries of
    the current queue have been taken. *)
Module Payout.
Record t : Type := mk { withdrawals : list Withdrawal.t; next_index : Z; processed : nat }.
Definition len (p : t) : Z := Z.of_nat (length p.(withdrawals)).
Definition push (validator_index : Z) (address : Address) (amount : Z) (p : t) : outcome BlockProcessingError.t t :=
  index' ← into (safe_add p.(next_index) 1);
  Ok (mk (p.(withdrawals) ++ [Withdrawal.mk p.(next_index) validator_index address amount]) index' p.(processed)).
Definition tick (p : t) : t := mk p.(withdrawals) p.(next_index) (S p.(processed)).
Definition restart (p : t) : t := mk p.(withdrawals) p.(next_index) 0.
End Payout.

Module WithdrawalResult.
Record t : Type := mk {
  withdrawals : list Withdrawal.t;
  processed_builder_withdrawals_count : nat;
  processed_partial_withdrawals_count : nat;
  processed_builders_sweep_count : nat;
}.
End WithdrawalResult.

Section epbs.
Context (hash : list Z → list Z) (spec : Spec.t) (forks : ForkSpec.t) (fuel : nat).
Context (signature_valid : State.t → Signed.t → bool).
Context (decompress : PublicKeyBytes → bool).
Abbreviation spe := (spec.(Spec.slots_per_epoch)).

(** ** What a builder owes *)
(** Sum of the amounts of [builder_index], saturating. *)
Fixpoint saturating_total (builder_index : Z) (l : list BuilderPendingWithdrawal.t) (total : Z) : Z :=
  match l with
  | [] => total
  | w :: rest =>
      saturating_total builder_index rest
        (if w.(BuilderPendingWithdrawal.builder_index) =? builder_index
         then u64_saturating_add total w.(BuilderPendingWithdrawal.amount) else total)
  end.
Definition get_pending_balance_to_withdraw_for_builder (s : State.t) (builder_index : Z)
    : outcome BeaconStateError.t Z :=
  withdrawals ← st_builder_pending_withdrawals s;
  payments ← st_builder_pending_payments s;
  Ok (saturating_total builder_index (BuilderPendingPayment.withdrawal <$> payments)
        (saturating_total builder_index withdrawals 0)).

Definition can_builder_cover_bid (s : State.t) (builder_index bid_amount : Z) : outcome BeaconStateError.t bool :=
  builders ← st_builders s;
  builder ← ok_or (builders !! Z.to_nat builder_index) (BeaconStateError.UnknownBuilder builder_index);
  pending ← get_pending_balance_to_withdraw_for_builder s builder_index;
  let min_balance := u64_saturating_add spec.(Spec.min_deposit_amount) pending in
  if builder.(Builder.balance) <? min_balance then Ok false
  else Ok (bid_amount <=? u64_saturating_sub builder.(Builder.balance) min_balance).

Definition initiate_builder_exit (builder_index : Z) : StM unit :=
  s ← get;
  builders ← lift (st_builders s);
  builder ← lift (ok_or (builders !! Z.to_nat builder_index) (BeaconStateError.UnknownBuilder builder_index));
  if negb (builder.(Builder.withdrawable_epoch) =? spec.(Spec.far_future_epoch)) then mret tt
  else
    e ← try (safe_add (current_epoch spec s) spec.(Spec.min_builder_withdrawability_delay));
    modify (State.on_epbs (Epbs.set_builders
      (<[Z.to_nat builder_index := Builder.set_withdrawable_epoch e builder]> builders))).

(** ** The bid *)
Definition bid_error {A} (reason : PayloadBidInvalid.t) : outcome BlockProcessingError.t A :=
  Err (BlockProcessingError.PayloadBidInvalid reason).
(** [.map_err(...)] with a fixed reason. *)
Definition or_reason {E A} (o : outcome E A) (reason : PayloadBidInvalid.t) : outcome BlockProcessingError.t A :=
  map_err (fun _ => BlockProcessingError.PayloadBidInvalid reason) o.

Definition check_self_build (signed_bid : SignedBid.t) : outcome BlockProcessingError.t unit :=
  if negb (signed_bid.(SignedBid.message).(PayloadBid.value) =? 0) then bid_error PayloadBidInvalid.SelfBuildValue
  else if negb signed_bid.(SignedBid.signature_is_infinity) then bid_error PayloadBidInvalid.SelfBuildSignature
  else Ok tt.

Definition check_builder_bid (s : State.t) (signed_bid : SignedBid.t) (verify_signatures : bool)
    : outcome BlockProcessingError.t unit :=
  let bid := signed_bid.(SignedBid.message) in
  let builder_index := bid.(PayloadBid.builder_index) in
  let amount := bid.(PayloadBid.value) in
  builders ← or_reason (st_builders s) PayloadBidInvalid.NotEpbsEnabled;
  builder ← ok_or (builders !! Z.to_nat builder_index)
              (BlockProcessingError.PayloadBidInvalid (PayloadBidInvalid.UnknownBuilder builder_index));
  if negb (Builder.is_active_at_finalized_epoch spec builder (State.finalized_checkpoint s).(Checkpoint.epoch))
  then bid_error (PayloadBidInvalid.NotActive builder_index)
  else
    covered ← or_reason (can_builder_cover_bid s builder_index amount) PayloadBidInvalid.BalanceCheckFailed;
    if negb covered then bid_error (PayloadBidInvalid.InsufficientBalance builder.(Builder.balance) amount)
    else if verify_signatures then
      if negb (decompress builder.(Builder.pubkey)) then bid_error (PayloadBidInvalid.BadPubkey builder_index)
      else if signature_valid s (Signed.Bid builder.(Builder.pubkey) signed_bid) then Ok tt
      else bid_error (PayloadBidInvalid.BadSignature builder_index)
    else Ok tt.

(** The checks that self-built and builder bids share. *)
Definition check_bid_header (s : State.t) (bid : PayloadBid.t) (latest_block_hash : ExecutionBlockHash)
    (block_slot : Slot) (block_parent_root : Hash256) : outcome BlockProcessingError.t unit :=
  let max_blobs := max_blobs_per_block spec forks (current_epoch spec s) in
  let n := length bid.(PayloadBid.blob_kzg_commitments) in
  if max_blobs <? Z.of_nat n then bid_error (PayloadBidInvalid.TooManyCommitments n max_blobs)
  else if negb (bid.(PayloadBid.slot) =? block_slot)
  then bid_error (PayloadBidInvalid.WrongSlot bid.(PayloadBid.slot) block_slot)
  else if negb (bid.(PayloadBid.parent_block_hash) =? latest_block_hash)
  then bid_error PayloadBidInvalid.WrongParentBlockHash
  else if negb (bid.(PayloadBid.parent_block_root) =? block_parent_root)
  then bid_error PayloadBidInvalid.WrongParentBlockRoot
  else
    randao_mix ← or_reason (get_randao_mix spec s (current_epoch spec s)) PayloadBidInvalid.NoRandaoMix;
    if negb (bid.(PayloadBid.prev_randao) =? randao_mix) then bid_error PayloadBidInvalid.WrongPrevRandao
    else Ok tt.

(** The position of [slot]'s payment in the second half of the window. *)
Definition payment_index (slot : Slot) : outcome ArithError nat :=
  r ← safe_rem slot spe; i ← safe_add spe r; Ok (Z.to_nat i).

Definition set_builder_pending_payments (v : list BuilderPendingPayment.t) : State.t → State.t :=
  State.on_epbs (Epbs.set_builder_pending_payments v).
Definition record_payment (bid : PayloadBid.t) : EpM unit :=
  slot_index ← try (payment_index bid.(PayloadBid.slot));
  let pending_payment :=
    BuilderPendingPayment.mk 0
      (BuilderPendingWithdrawal.mk bid.(PayloadBid.fee_recipient) bid.(PayloadBid.value) bid.(PayloadBid.builder_index)) in
  s ← get;
  payments ← lift (or_reason (st_builder_pending_payments s) PayloadBidInvalid.NotEpbsEnabled);
  payments' ← lift (set_at payments slot_index pending_payment
                      (BlockProcessingError.PayloadBidInvalid (PayloadBidInvalid.SlotIndexOutOfBounds slot_index)));
  modify (set_builder_pending_payments payments').

(** [set_latest_execution_payload_bid]: the variant must be the state's. *)
Definition set_latest_execution_payload_bid (fork : ForkName.t) (bid : PayloadBid.t) : StM unit :=
  s ← get;
  if ForkName.ge (State.fork_name s) ForkName.Gloas && bool_decide (fork = State.fork_name s)
  then modify (State.on_epbs (Epbs.set_latest_execution_payload_bid bid))
  else throw BeaconStateError.IncorrectStateVariant.

Definition process_execution_payload_bid (signed_bid : SignedBid.t) (block_slot : Slot) (block_parent_root : Hash256)
    (verify_signatures : bool) : EpM unit :=
  let bid := signed_bid.(SignedBid.message) in
  s ← get;
  latest_block_hash ← lift (or_reason (st_latest_block_hash s) PayloadBidInvalid.NotEpbsEnabled);
  lift (if bid.(PayloadBid.builder_index) =? spec.(Spec.builder_index_self_build) then check_self_build signed_bid
        else check_builder_bid s signed_bid verify_signatures);;
  lift (check_bid_header s bid latest_block_hash block_slot block_parent_root);;
  when (0 <? bid.(PayloadBid.value)) (record_payment bid);;
  rethrow (fun _ => BlockProcessingError.PayloadBidInvalid PayloadBidInvalid.NotEpbsEnabled)
    (set_latest_execution_payload_bid signed_bid.(SignedBid.fork) bid).

(** ** The payload timeliness committee *)
Definition ptc_oob : BlockProcessingError.t :=
  BlockProcessingError.PayloadAttestationInvalid PayloadAttestationInvalid.AttesterIndexOutOfBounds.

(** The loop of [compute_ptc_inner] from attempt [i] on: [selected] is in order,
    and the hash of the group of sixteen attempts is kept in [cached]. *)
Fixpoint ptc_loop (indices effective_balances : list Z) (seed : list Z) (n : nat) (i : Z)
    (cached : option (Z * list Z)) (selected : list Z) : outcome BlockProcessingError.t (list Z) :=
  if (Z.of_nat (length selected) <? spec.(Spec.ptc_size)) then
    match n with
    | O => Diverge
    | S n' =>
        next_index ← into (safe_rem i (Z.of_nat (length indices)));
        let hash_group := i / 16 in
        let random_bytes := random_bytes_of hash seed hash_group cached in
        let offset := Z.to_nat (i mod 16 * 2) in
        random_byte_0 ← ok_or (random_bytes !! offset) ptc_oob;
        random_byte_1 ← ok_or (random_bytes !! S offset) ptc_oob;
        let random_value := from_le_bytes [random_byte_0; random_byte_1] in
        candidate_balance ← ok_or (effective_balances !! Z.to_nat next_index) ptc_oob;
        weight ← into (safe_mul candidate_balance MAX_RANDOM_VALUE);
        threshold ← into (safe_mul spec.(Spec.max_effective_balance_electra) random_value);
        selected' ←
          (if threshold <=? weight then
             candidate_index ← ok_or (indices !! Z.to_nat next_index) ptc_oob; Ok (selected ++ [candidate_index])
           else Ok selected);
        i' ← into (safe_add i 1);
        ptc_loop indices effective_balances seed n' i' (Some (hash_group, random_bytes)) selected'
    end
  else Ok selected.

(** The balance of each member, in the order of the committees. *)
Fixpoint committee_balances (validators : list Validator.t) (members : list nat) : outcome BlockProcessingError.t (list Z) :=
  match members with
  | [] => Ok []
  | i :: rest =>
      v ← ok_or (validators !! i) ptc_oob;
      balances ← committee_balances validators rest;
      Ok (v.(Validator.effective_balance) :: balances)
  end.

Definition compute_ptc_inner (s : State.t) (slot : Slot) (committees : list (list nat))
    : outcome BlockProcessingError.t (list Z) :=
  base_seed ← into (get_seed hash spec s.(State.chain).(Chain.randao_mixes) (epoch slot spe) spec.(Spec.domain_ptc_attester));
  let seed := hash (base_seed ++ to_le_bytes 8 slot) in
  let members := concat committees in
  if (length members =? 0)%nat
  then Err (BlockProcessingError.PayloadAttestationInvalid PayloadAttestationInvalid.NoActiveValidators)
  else
    effective_balances ← committee_balances (State.validators s) members;
    ptc_loop (Z.of_nat <$> members) effective_balances seed fuel 0 None [].
Definition compute_ptc (s : State.t) (slot : Slot) : outcome BlockProcessingError.t (list Z) :=
  committees ← into (get_beacon_committees_at_slot spec s slot);
  compute_ptc_inner s slot (BeaconCommittee.committee <$> committees).
Definition compute_ptc_from_committees (s : State.t) (slot : Slot) (cache : CommitteeCache.t)
    : outcome BlockProcessingError.t (list Z) :=
  committees ← into (cc_get_beacon_committees_at_slot cache slot);
  compute_ptc_inner s slot (BeaconCommittee.committee <$> committees).

(** The position of [slot] in the window: the previous epoch, the current one and
    the lookahead. *)
Definition ptc_window_index (s : State.t) (slot : Slot) : outcome BlockProcessingError.t nat :=
  let e := epoch slot spe in
  let state_epoch := current_epoch spec s in
  if e <? state_epoch then
    e' ← into (safe_add e 1);
    if negb (e' =? state_epoch) then Err (BlockProcessingError.BeaconStateError BeaconStateError.EpochOutOfBounds)
    else r ← into (safe_rem slot spe); Ok (Z.to_nat r)
  else
    max_epoch ← into (safe_add state_epoch spec.(Spec.min_seed_lookahead));
    if max_epoch <? e then Err (BlockProcessingError.BeaconStateError BeaconStateError.EpochOutOfBounds)
    else
      slot_in_epoch ← into (safe_rem slot spe);
      d ← into (safe_sub e state_epoch);
      d ← into (safe_add d 1);
      offset ← into (safe_mul d spe);
      i ← into (safe_add offset slot_in_epoch);
      Ok (Z.to_nat i).
Definition get_ptc_committee (s : State.t) (slot : Slot) : outcome BlockProcessingError.t (list Z) :=
  match st_ptc_window s with
  | Ok ptc_window =>
      index ← ptc_window_index s slot;
      ok_or (ptc_window !! index) (BlockProcessingError.BeaconStateError BeaconStateError.EpochOutOfBounds)
  | _ => compute_ptc s slot
  end.

(** ** Payload attestations *)
Fixpoint select_bits (bits : list bool) (i : nat) (indices : list Z) : outcome BlockProcessingError.t (list Z) :=
  match indices with
  | [] => Ok []
  | index :: rest =>
      bit ← ok_or (bits !! i) ptc_oob;
      selected ← select_bits bits (S i) rest;
      Ok (if bit : bool then index :: selected else selected)
  end.
(** [sort_unstable]. *)
Fixpoint insert_sorted (x : Z) (l : list Z) : list Z :=
  match l with
  | [] => [x]
  | y :: rest => if x <=? y then x :: y :: rest else y :: insert_sorted x rest
  end.
Definition sort_unstable (l : list Z) : list Z := foldr insert_sorted [] l.
Definition get_indexed_payload_attestation (s : State.t) (a : PayloadAttestation.t)
    : outcome BlockProcessingError.t IndexedPayloadAttestation.t :=
  ptc ← get_ptc_committee s a.(PayloadAttestation.data).(PayloadAttestationData.slot);
  indices ← select_bits a.(PayloadAttestation.aggregation_bits) 0 ptc;
  Ok (IndexedPayloadAttestation.mk (sort_unstable indices) a.(PayloadAttestation.data) a.(PayloadAttestation.signature)).

(** [indices.windows(2)]. *)
Fixpoint is_non_decreasing (l : list Z) : bool :=
  match l with
  | [] => true
  | a :: rest => match rest with [] => true | b :: _ => (a <=? b) && is_non_decreasing rest end
  end.
Fixpoint ptc_pubkeys (s : State.t) (indices : list Z) : outcome BlockProcessingError.t (list PublicKeyBytes) :=
  match indices with
  | [] => Ok []
  | i :: rest =>
      v ← ok_or (State.validators s !! Z.to_nat i) ptc_oob;
      if negb (decompress v.(Validator.pubkey))
      then Err (BlockProcessingError.PayloadAttestationInvalid PayloadAttestationInvalid.InvalidPubkey)
      else pubkeys ← ptc_pubkeys s rest; Ok (v.(Validator.pubkey) :: pubkeys)
  end.
Definition process_payload_attestation (a : PayloadAttestation.t) (verify_signatures : bool) : EpM unit :=
  let data := a.(PayloadAttestation.data) in
  s ← get;
  let wrong_slot :=
    BlockProcessingError.PayloadAttestationInvalid
      (PayloadAttestationInvalid.WrongSlot (State.slot s) data.(PayloadAttestationData.slot)) in
  if negb (data.(PayloadAttestationData.beacon_block_root)
             =? (State.latest_block_header s).(BeaconBlockHeader.parent_root))
  then throw (BlockProcessingError.PayloadAttestationInvalid PayloadAttestationInvalid.WrongBeaconBlockRoot)
  else
    expected_slot ← lift (map_err (fun _ => wrong_slot) (safe_add data.(PayloadAttestationData.slot) 1));
    if negb (expected_slot =? State.slot s) then throw wrong_slot
    else
      indexed ← lift (get_indexed_payload_attestation s a);
      let indices := indexed.(IndexedPayloadAttestation.attesting_indices) in
      if bool_decide (indices = []) then throw ptc_oob
      else if negb (is_non_decreasing indices) then throw ptc_oob
      else if verify_signatures then
        pubkeys ← lift (ptc_pubkeys s indices);
        if signature_valid s (Signed.PtcVote pubkeys a) then mret tt
        else throw (BlockProcessingError.PayloadAttestationInvalid PayloadAttestationInvalid.BadSignature)
      else mret tt.

(** ** Withdrawals *)

(** [try_fold] of the amounts that [ws] takes from [validator_index]. *)
Fixpoint sum_withdrawn (validator_index : Z) (ws : list Withdrawal.t) (acc : Z) : outcome ArithError Z :=
  match ws with
  | [] => Ok acc
  | w :: rest =>
      if w.(Withdrawal.validator_index) =? validator_index
      then acc' ← safe_add acc w.(Withdrawal.amount); sum_withdrawn validator_index rest acc'
      else sum_withdrawn validator_index rest acc
  end.
(** The balance that the withdrawals so far leave. *)
Definition remaining_balance (s : State.t) (validator_index : Z) (p : Payout.t) : outcome BlockProcessingError.t Z :=
  withdrawn ← into (sum_withdrawn validator_index p.(Payout.withdrawals) 0);
  balance ← into (get_balance s (Z.to_nat validator_index));
  Ok (u64_saturating_sub balance withdrawn).

Abbreviation max_withdrawals := (spec.(Spec.max_withdrawals_per_payload)).
(** One place is kept for the sweep of the validators. *)
Definition reserved_limit : Z := u64_saturating_sub max_withdrawals 1.

(** 1. Pending withdrawals of builders. *)
Fixpoint pay_builders (builders_count : Z) (l : list BuilderPendingWithdrawal.t) (p : Payout.t)
    : outcome BlockProcessingError.t Payout.t :=
  match l with
  | [] => Ok p
  | w :: rest =>
      if reserved_limit <=? Payout.len p then Ok p
      else
        let builder_index := w.(BuilderPendingWithdrawal.builder_index) in
        if builders_count <=? builder_index
        then Err (BlockProcessingError.WithdrawalBuilderIndexInvalid builder_index builders_count)
        else
          p ← Payout.push (Z.lor builder_index BUILDER_INDEX_FLAG) w.(BuilderPendingWithdrawal.fee_recipient)
                w.(BuilderPendingWithdrawal.amount) p;
          pay_builders builders_count rest (Payout.tick p)
  end.

(** 2. Pending partial withdrawals of validators. *)
Definition pay_partial (s : State.t) (w : PendingPartialWithdrawal.t) (p : Payout.t)
    : outcome BlockProcessingError.t Payout.t :=
  let i := w.(PendingPartialWithdrawal.validator_index) in
  validator ← into (get_validator s (Z.to_nat i));
  balance ← remaining_balance s i p;
  if (validator.(Validator.exit_epoch) =? spec.(Spec.far_future_epoch))
     && (spec.(Spec.min_activation_balance) <=? validator.(Validator.effective_balance))
     && (spec.(Spec.min_activation_balance) <? balance)
  then
    address ← ok_or (get_execution_withdrawal_address spec validator)
                (BlockProcessingError.BeaconStateError BeaconStateError.NonExecutionAddressWithdrawalCredential);
    Payout.push i address
      (Z.min (u64_saturating_sub balance spec.(Spec.min_activation_balance)) w.(PendingPartialWithdrawal.amount)) p
  else Ok p.
Fixpoint pay_partials (s : State.t) (limit : Z) (l : list PendingPartialWithdrawal.t) (p : Payout.t)
    : outcome BlockProcessingError.t Payout.t :=
  match l with
  | [] => Ok p
  | w :: rest =>
      if negb (w.(PendingPartialWithdrawal.withdrawable_epoch) <=? current_epoch spec s) || (limit <=? Payout.len p)
      then Ok p
      else p ← pay_partial s w p; pay_partials s limit rest (Payout.tick p)
  end.

(** 3. Builders whose exit is over. *)
Fixpoint sweep_builders (builders : list Builder.t) (e : Epoch) (n : nat) (builder_index : Z) (p : Payout.t)
    : outcome BlockProcessingError.t Payout.t :=
  match n with
  | O => Ok p
  | S n' =>
      if reserved_limit <=? Payout.len p then Ok p
      else
        p ← match builders !! Z.to_nat builder_index with
            | Some builder =>
                if (builder.(Builder.withdrawable_epoch) <=? e) && (0 <? builder.(Builder.balance))
                then Payout.push (Z.lor builder_index BUILDER_INDEX_FLAG) builder.(Builder.execution_address)
                       builder.(Builder.balance) p
                else Ok p
            | None => Ok p
            end;
        next ← into (safe_add builder_index 1);
        next ← into (safe_rem next (Z.of_nat (length builders)));
        sweep_builders builders e n' next (Payout.tick p)
  end.

(** 4. The sweep of the validators. *)
Definition sweep_validator (s : State.t) (validator_index : Z) (p : Payout.t)
    : outcome BlockProcessingError.t Payout.t :=
  let f := State.fork_name s in
  validator ← into (get_validator s (Z.to_nat validator_index));
  balance ← remaining_balance s validator_index p;
  let address := ok_or (get_execution_withdrawal_address spec validator)
                   BlockProcessingError.WithdrawalCredentialsInvalid in
  if ValidatorOps.is_fully_withdrawable_validator spec validator balance (current_epoch spec s) f then
    a ← address; Payout.push validator_index a balance p
  else if ValidatorOps.is_partially_withdrawable_validator spec validator balance f then
    a ← address; Payout.push validator_index a (u64_saturating_sub balance (get_max_effective_balance spec validator f)) p
  else Ok p.
Fixpoint sweep_validators (s : State.t) (n : nat) (validator_index : Z) (p : Payout.t)
    : outcome BlockProcessingError.t Payout.t :=
  match n with
  | O => Ok p
  | S n' =>
      if max_withdrawals <=? Payout.len p then Ok p
      else
        p ← sweep_validator s validator_index p;
        next ← into (safe_add validator_index 1);
        next ← into (safe_rem next (Z.of_nat (length (State.validators s))));
        sweep_validators s n' next p
  end.


Definition compute_withdrawals_gloas (s : State.t) : outcome BlockProcessingError.t WithdrawalResult.t :=
  let e := current_epoch spec s in
  next_index ← into (st_next_withdrawal_index s);
  builders ← into (st_builders s);
  let builders_count := Z.of_nat (length builders) in
  pending ← into (st_builder_pending_withdrawals s);
  p1 ← pay_builders builders_count pending (Payout.mk [] next_index 0);
  p2 ← match st_pending_partial_withdrawals s with
       | Ok partials =>
           pay_partials s
             (Z.min (Payout.len p1 + spec.(Spec.max_pending_partials_per_withdrawals_sweep)) reserved_limit)
             partials (Payout.restart p1)
       | _ => Ok (Payout.restart p1)
       end;
  p3 ← (if 0 <? builders_count then
          builder_index ← into (st_next_withdrawal_builder_index s);
          if builders_count <=? builder_index
          then Err (BlockProcessingError.WithdrawalBuilderIndexInvalid builder_index builders_count)
          else
            sweep_builders builders e
              (Z.to_nat (Z.min builders_count spec.(Spec.max_builders_per_withdrawals_sweep))) builder_index
              (Payout.restart p2)
        else Ok (Payout.restart p2));
  validator_index ← into (st_next_withdrawal_validator_index s);
  let bound := Z.min (Z.of_nat (length (State.validators s))) spec.(Spec.max_validators_per_withdrawals_sweep) in
  p4 ← sweep_validators s (Z.to_nat bound) validator_index p3;
  Ok (WithdrawalResult.mk p4.(Payout.withdrawals) p1.(Payout.processed) p2.(Payout.processed) p3.(Payout.processed)).

Definition is_parent_block_full (s : State.t) : outcome BlockProcessingError.t bool :=
  bid ← into (st_latest_execution_payload_bid s);
  latest_hash ← into (st_latest_block_hash s);
  Ok (bid.(PayloadBid.block_hash) =? latest_hash).

(** Pay one withdrawal out of the balance it names. *)
Definition apply_withdrawal (w : Withdrawal.t) : EpM unit :=
  if negb (Z.land w.(Withdrawal.validator_index) BUILDER_INDEX_FLAG =? 0) then
    let builder_index := Z.to_nat (Z.ldiff w.(Withdrawal.validator_index) BUILDER_INDEX_FLAG) in
    s ← get;
    builders ← try (st_builders s);
    match builders !! builder_index with
    | Some builder =>
        modify (State.on_epbs (Epbs.set_builders
          (<[builder_index :=
               Builder.set_balance (u64_saturating_sub builder.(Builder.balance) w.(Withdrawal.amount)) builder]> builders)))
    | None => mret tt
    end
  else call (decrease_balance (Z.to_nat w.(Withdrawal.validator_index)) w.(Withdrawal.amount)).

Definition next_builder_to_sweep (processed : nat) : EpM unit :=
  s ← get;
  builders ← try (st_builders s);
  when (0 <? Z.of_nat (length builders)) (
    current ← try (st_next_withdrawal_builder_index s);
    next ← try (safe_rem (u64_saturating_add current (Z.of_nat processed)) (Z.of_nat (length builders)));
    modify (State.on_epbs (Epbs.set_next_withdrawal_builder_index next))).

(** After a full set of withdrawals the next sweep starts behind the last one. *)
Definition next_validator_to_sweep (withdrawals : list Withdrawal.t) : EpM unit :=
  s ← get;
  let validators_len := Z.of_nat (length (State.validators s)) in
  when (0 <? validators_len) (
    next ←
      (if Z.of_nat (length withdrawals) =? max_withdrawals then
         n ← try (safe_add (default 0 (Withdrawal.validator_index <$> list.last withdrawals)) 1);
         try (safe_rem n validators_len)
       else
         current ← try (st_next_withdrawal_validator_index s);
         n ← try (safe_add current spec.(Spec.max_validators_per_withdrawals_sweep));
         try (safe_rem n validators_len));
    modify (State.on_registry (Registry.set_next_withdrawal_validator_index next))).

Definition process_withdrawals_gloas : EpM unit :=
  s ← get;
  full ← lift (is_parent_block_full s);
  when full (
    result ← lift (compute_withdrawals_gloas s);
    let withdrawals := result.(WithdrawalResult.withdrawals) in
    for_each withdrawals apply_withdrawal;;
    match list.last withdrawals with
    | Some latest_withdrawal =>
        next ← try (safe_add latest_withdrawal.(Withdrawal.index) 1);
        modify (State.on_registry (Registry.set_next_withdrawal_index next))
    | None => mret tt
    end;;
    (if max_withdrawals <? Z.of_nat (length withdrawals)
     then throw (BlockProcessingError.MilhouseError Milhouse.ListFull)
     else modify (State.on_epbs (Epbs.set_payload_expected_withdrawals withdrawals)));;
    let builder_count := result.(WithdrawalResult.processed_builder_withdrawals_count) in
    when (0 <? builder_count)%nat (
      s ← get;
      pending ← try (st_builder_pending_withdrawals s);
      pending' ← try (Milhouse.pop_front builder_count pending);
      modify (State.on_epbs (Epbs.set_builder_pending_withdrawals pending')));;
    let partial_count := result.(WithdrawalResult.processed_partial_withdrawals_count) in
    when (0 <? partial_count)%nat (
      s ← get;
      partials ← try (st_pending_partial_withdrawals s);
      partials' ← try (Milhouse.pop_front partial_count partials);
      modify (State.on_queues (Queues.set_pending_partial_withdrawals partials')));;
    next_builder_to_sweep result.(WithdrawalResult.processed_builders_sweep_count);;
    next_validator_to_sweep withdrawals).

Definition get_expected_withdrawals_gloas (s : State.t) : outcome BlockProcessingError.t (list Withdrawal.t) :=
  full ← is_parent_block_full s;
  if negb full then Ok []
  else result ← compute_withdrawals_gloas s; Ok result.(WithdrawalResult.withdrawals).
End epbs.
