(* ===== verification/JustificationDefs.v ===== *)
(** * Justification and finalization

    [state_processing/src/per_epoch_processing]: the subset of the state that
    finality changes ([justification_and_finalization_state.rs]), the rule of
    Casper FFG ([weigh_justification_and_finalization.rs]) and its two callers
    ([altair/justification_and_finalization.rs] with the running totals of the
    state, [base/justification_and_finalization.rs] with totals its caller
    computed).  The code uses the first both at the end of an epoch and, from
    fork choice, after every block. *)
From S2P Require Import Prelude SlotEpoch ProtoArrayDefs ForkChoiceDefs ForkSchedule BeaconStateDefs.
From S2P Require Import ValidatorDefs CommitteeDefs DoppelgangerDefs ValidatorStoreDefs StateDefs BlockDefs.

(** [PtcWindowComputeError] holds the debug form of the error it carries here. *)
Module EpochProcessingError.
Inductive t : Type :=
  | ValidatorStatusesInconsistent
  | DeltaOutOfBounds (i : nat)
  | BeaconStateError (e : BeaconStateError.t)
  | SszTypesError
  | ArithError (e : ArithError)
  | InconsistentStateFork (fork_at_slot object_fork : ForkName.t)
  | InvalidJustificationBit (i : nat)
  | InvalidFlagIndex (i : nat)
  | MilhouseError (e : Milhouse.error)
  | EpochCache (e : EpochCacheError.t)
  | SinglePassMissingActivationQueue
  | MissingEarliestExitEpoch
  | MissingExitBalanceToConsume
  | PendingDepositsLogicError
  | ProposerLookaheadOutOfBounds (i : nat)
  | PtcWindowOutOfBounds (i : nat)
  | PtcWindowComputeError (e : BlockProcessingError.t).
End EpochProcessingError.

#[export] Instance state_epoch_error : From BeaconStateError.t EpochProcessingError.t :=
  EpochProcessingError.BeaconStateError.
#[export] Instance arith_epoch_error : From ArithError EpochProcessingError.t := EpochProcessingError.ArithError.
#[export] Instance milhouse_epoch_error : From Milhouse.error EpochProcessingError.t := EpochProcessingError.MilhouseError.
#[export] Instance epoch_cache_epoch_error : From EpochCacheError.t EpochProcessingError.t := EpochProcessingError.EpochCache.
Definition ep_state {A} (o : outcome BeaconStateError.t A) : outcome EpochProcessingError.t A :=
  map_err EpochProcessingError.BeaconStateError o.
Definition ep_arith {A} (o : outcome ArithError A) : outcome EpochProcessingError.t A :=
  map_err EpochProcessingError.ArithError o.

Module JustificationAndFinalizationState.
Record t : Type := mk {
  previous_epoch : Epoch;
  previous_epoch_target_root : outcome BeaconStateError.t Hash256;
  current_epoch : Epoch;
  current_epoch_target_root : outcome BeaconStateError.t Hash256;
  previous_justified_checkpoint : Checkpoint.t;
  current_justified_checkpoint : Checkpoint.t;
  finalized_checkpoint : Checkpoint.t;
  justification_bits : list bool;
}.
Definition set_previous_justified (c : Checkpoint.t) (s : t) : t :=
  mk s.(previous_epoch) s.(previous_epoch_target_root) s.(current_epoch) s.(current_epoch_target_root)
    c s.(current_justified_checkpoint) s.(finalized_checkpoint) s.(justification_bits).
Definition set_current_justified (c : Checkpoint.t) (s : t) : t :=
  mk s.(previous_epoch) s.(previous_epoch_target_root) s.(current_epoch) s.(current_epoch_target_root)
    s.(previous_justified_checkpoint) c s.(finalized_checkpoint) s.(justification_bits).
Definition set_finalized (c : Checkpoint.t) (s : t) : t :=
  mk s.(previous_epoch) s.(previous_epoch_target_root) s.(current_epoch) s.(current_epoch_target_root)
    s.(previous_justified_checkpoint) s.(current_justified_checkpoint) c s.(justification_bits).
Definition set_bits (b : list bool) (s : t) : t :=
  mk s.(previous_epoch) s.(previous_epoch_target_root) s.(current_epoch) s.(current_epoch_target_root)
    s.(previous_justified_checkpoint) s.(current_justified_checkpoint) s.(finalized_checkpoint) b.

Definition get_block_root_at_epoch (s : t) (e : Epoch) : outcome BeaconStateError.t Hash256 :=
  if e =? s.(previous_epoch) then s.(previous_epoch_target_root)
  else if e =? s.(current_epoch) then s.(current_epoch_target_root)
  else Err BeaconStateError.SlotOutOfBounds.
End JustificationAndFinalizationState.

Abbreviation JFState := JustificationAndFinalizationState.t.
Abbreviation JFM := (M JFState EpochProcessingError.t).

(** [BitVector::shift_up(n)]: position [i] moves to [i + n] and the last ones
    fall off; too large a shift is an error. *)
Definition shift_up (n : nat) (bits : list bool) : outcome EpochProcessingError.t (list bool) :=
  if (n <=? length bits)%nat then Ok (replicate n false ++ take (length bits - n) bits)
  else Err (EpochProcessingError.InvalidJustificationBit n).
(** [BitVector::set]. *)
Definition set_bit (i : nat) (v : bool) (bits : list bool) : outcome EpochProcessingError.t (list bool) :=
  if (i <? length bits)%nat then Ok (<[i := v]> bits)
  else Err (EpochProcessingError.InvalidJustificationBit i).

(** [all_bits_set(range)]. *)
Fixpoint all_bits_set (bits : list bool) (range : list nat) : outcome EpochProcessingError.t bool :=
  match range with
  | [] => Ok true
  | i :: range' =>
      b ← ok_or (bits !! i) (EpochProcessingError.InvalidJustificationBit i);
      if negb b then Ok false else all_bits_set bits range'
  end.

(** [a.safe_mul(3)? >= b.safe_mul(2)?]. *)
Definition two_thirds (a b : Z) : outcome EpochProcessingError.t bool :=
  x ← ep_arith (safe_mul a 3);
  y ← ep_arith (safe_mul b 2);
  Ok (y <=? x).

(** [state.current_justified_checkpoint = Checkpoint { epoch, root: state.get_block_root_at_epoch(epoch)? };
    state.justification_bits.set(i, true)?]. *)
Definition justify (e : Epoch) (i : nat) : JFM unit :=
  s ← get;
  root ← lift (ep_state (JustificationAndFinalizationState.get_block_root_at_epoch s e));
  modify (JustificationAndFinalizationState.set_current_justified (Checkpoint.mk e root)) ;;
  bits ← lift (set_bit i true s.(JustificationAndFinalizationState.justification_bits));
  modify (JustificationAndFinalizationState.set_bits bits).

(** One of the four rules: the bits of [range] are set and [source] is
    [distance] epochs old. *)
Definition maybe_finalize (bits : list bool) (range : list nat) (source : Checkpoint.t) (distance : Z)
    (current_epoch : Epoch) : JFM unit :=
  all ← lift (all_bits_set bits range);
  old ← (if all : bool then e ← lift (ep_arith (safe_add source.(Checkpoint.epoch) distance));
                            mret (e =? current_epoch)
         else mret false);
  when old (modify (JustificationAndFinalizationState.set_finalized source)).

Definition weigh_justification_and_finalization (total_active_balance previous_target_balance
    current_target_balance : Z) : JFM unit :=
  state ← get;
  let previous_epoch := state.(JustificationAndFinalizationState.previous_epoch) in
  let current_epoch := state.(JustificationAndFinalizationState.current_epoch) in
  let old_previous_justified_checkpoint := state.(JustificationAndFinalizationState.previous_justified_checkpoint) in
  let old_current_justified_checkpoint := state.(JustificationAndFinalizationState.current_justified_checkpoint) in
  modify (JustificationAndFinalizationState.set_previous_justified old_current_justified_checkpoint) ;;
  bits ← lift (shift_up 1 state.(JustificationAndFinalizationState.justification_bits));
  modify (JustificationAndFinalizationState.set_bits bits) ;;
  previous_ok ← lift (two_thirds previous_target_balance total_active_balance);
  when previous_ok (justify previous_epoch 1) ;;
  current_ok ← lift (two_thirds current_target_balance total_active_balance);
  when current_ok (justify current_epoch 0) ;;
  state ← get;
  let bits := state.(JustificationAndFinalizationState.justification_bits) in
  maybe_finalize bits (seq 1 3) old_previous_justified_checkpoint 3 current_epoch ;;
  maybe_finalize bits (seq 1 2) old_previous_justified_checkpoint 2 current_epoch ;;
  maybe_finalize bits (seq 0 3) old_current_justified_checkpoint 2 current_epoch ;;
  maybe_finalize bits (seq 0 2) old_current_justified_checkpoint 1 current_epoch.

(** The function takes the state by value: an error drops it. *)
Definition weigh (state : JFState) (total previous current : Z) : outcome EpochProcessingError.t JFState :=
  let '(r, state') := weigh_justification_and_finalization total previous current state in
  _ ← r; Ok state'.

(** [base::TotalBalances], the getters used here. *)
Module TotalBalances.
Record t : Type := mk {
  current_epoch : Z;
  current_epoch_target_attesters : Z;
  previous_epoch_target_attesters : Z;
}.
End TotalBalances.

Definition genesis_epoch : Epoch := 0.

Section eth_spec.
Context (slots_per_epoch : Z).

Definition jf_new (s : BeaconState.t) : JFState :=
  let previous_epoch := state_previous_epoch slots_per_epoch s in
  let current_epoch := state_current_epoch slots_per_epoch s in
  JustificationAndFinalizationState.mk
    previous_epoch (get_block_root_at_epoch slots_per_epoch s previous_epoch)
    current_epoch (get_block_root_at_epoch slots_per_epoch s current_epoch)
    s.(BeaconState.previous_justified_checkpoint) s.(BeaconState.current_justified_checkpoint)
    s.(BeaconState.finalized_checkpoint) s.(BeaconState.justification_bits).

(** [altair::process_justification_and_finalization]. *)
Definition process_justification_and_finalization (s : BeaconState.t)
    : outcome EpochProcessingError.t JFState :=
  let jf := jf_new s in
  limit ← ep_arith (safe_add genesis_epoch 1);
  if state_current_epoch slots_per_epoch s <=? limit then Ok jf
  else
    let cache := s.(BeaconState.progressive_balances_cache) in
    previous_target_balance ← ep_state (ProgressiveBalancesCache.previous_epoch_target_attesting_balance cache);
    current_target_balance ← ep_state (ProgressiveBalancesCache.current_epoch_target_attesting_balance cache);
    total_active_balance ← ep_state (get_total_active_balance slots_per_epoch s);
    weigh jf total_active_balance previous_target_balance current_target_balance.

(** [base::process_justification_and_finalization]. *)
Definition base_process_justification_and_finalization (s : BeaconState.t) (total_balances : TotalBalances.t)
    : outcome EpochProcessingError.t JFState :=
  let jf := jf_new s in
  limit ← ep_arith (safe_add genesis_epoch 1);
  if state_current_epoch slots_per_epoch s <=? limit then Ok jf
  else weigh jf total_balances.(TotalBalances.current_epoch)
         total_balances.(TotalBalances.previous_epoch_target_attesters)
         total_balances.(TotalBalances.current_epoch_target_attesters).
End eth_spec.

Definition apply_changes_to_state (jf : JFState) (s : BeaconState.t) : BeaconState.t :=
  BeaconState.set_finality jf.(JustificationAndFinalizationState.justification_bits)
    jf.(JustificationAndFinalizationState.previous_justified_checkpoint)
    jf.(JustificationAndFinalizationState.current_justified_checkpoint)
    jf.(JustificationAndFinalizationState.finalized_checkpoint) s.
