(* ===== verification/EpochCacheDefs.v ===== *)
(** * Rewards per epoch and the epoch cache

    [state_processing/src/common/base.rs] and [common/altair.rs] (base rewards)
    and [state_processing/src/epoch_cache.rs] (building the cache of
    [types/src/epoch_cache.rs]).

    [state_root] stands for the tree hash of a state and [header_root] for that
    of a block header. *)
From S2P Require Import Prelude SlotEpoch ProtoArrayDefs ForkChoiceDefs ForkSchedule BeaconStateDefs.
From S2P Require Import ValidatorDefs ShuffleDefs CommitteeDefs DoppelgangerDefs ValidatorStoreDefs StateDefs RegistryDefs.

(** The cache while it is filled for the next epoch. *)
Module PreEpochCache.
Record t : Type := mk {
  epoch_key : EpochCache.Key;
  effective_balances : list Z;
  total_active_balance : Z;
}.
Definition update_effective_balance (validator_index : nat) (effective_balance : Z) (is_active_next_epoch : bool) (c : t)
    : outcome EpochCacheError.t t :=
  if (validator_index =? length c.(effective_balances))%nat then
    total ← (if is_active_next_epoch then into (safe_add c.(total_active_balance) effective_balance)
             else Ok c.(total_active_balance));
    Ok (mk c.(epoch_key) (c.(effective_balances) ++ [effective_balance]) total)
  else
    match c.(effective_balances) !! validator_index with
    | Some existing_balance =>
        total ←
          (if is_active_next_epoch then
             n ← into (safe_add c.(total_active_balance) effective_balance); into (safe_sub n existing_balance)
           else Ok c.(total_active_balance));
        Ok (mk c.(epoch_key) (<[validator_index := effective_balance]> c.(effective_balances)) total)
    | None => Err (EpochCacheError.ValidatorIndexOutOfBounds validator_index)
    end.
Definition get_total_active_balance (c : t) : Z := c.(total_active_balance).
End PreEpochCache.

Section epoch_cache.
Context (spec : Spec.t) (forks : ForkSpec.t).
Context (state_root : State.t → outcome BeaconStateError.t Hash256) (header_root : BeaconBlockHeader.t → Hash256).
Abbreviation spe := (spec.(Spec.slots_per_epoch)).

(** ** Base rewards *)
Definition base_get_base_reward (validator_effective_balance sqrt_total_active_balance : Z) : outcome ArithError Z :=
  n ← safe_mul validator_effective_balance spec.(Spec.base_reward_factor);
  n ← safe_div n sqrt_total_active_balance;
  safe_div n spec.(Spec.base_rewards_per_epoch).
Definition get_base_reward_per_increment (total_active_balance : Z) : outcome ArithError Z :=
  n ← safe_mul spec.(Spec.effective_balance_increment) spec.(Spec.base_reward_factor);
  safe_div n (Z.sqrt total_active_balance).
Definition altair_get_base_reward (validator_effective_balance base_reward_per_increment : Z) : outcome ArithError Z :=
  n ← safe_div validator_effective_balance spec.(Spec.effective_balance_increment);
  safe_mul n base_reward_per_increment.

(** ** The roots of the latest block *)
Definition set_state_root (root : Hash256) (h : BeaconBlockHeader.t) : BeaconBlockHeader.t :=
  BeaconBlockHeader.mk h.(BeaconBlockHeader.slot) h.(BeaconBlockHeader.proposer_index) h.(BeaconBlockHeader.parent_root)
    root h.(BeaconBlockHeader.body_root).
Definition get_latest_block_root (s : State.t) (current_state_root : Hash256) : Hash256 :=
  let h := State.latest_block_header s in
  header_root (if h.(BeaconBlockHeader.state_root) =? 0 then set_state_root current_state_root h else h).

(** ** Building the cache *)
Definition new_for_next_epoch (s : State.t) : outcome EpochCacheError.t PreEpochCache.t :=
  let h := State.latest_block_header s in
  decision_block_root ←
    (if h.(BeaconBlockHeader.state_root) =? 0 then
       root ← into (state_root s); Ok (get_latest_block_root s root)
     else Ok (header_root h));
  e ← into (next_epoch spec s);
  Ok (PreEpochCache.mk (EpochCache.mk_key e decision_block_root) [] 0).

(** The reward of each number of increments from [eth] on. *)
Fixpoint base_rewards_from (is_base : bool) (sqrt_total base_reward_per_increment : Z) (n : nat) (eth : Z)
    : outcome EpochCacheError.t (list Z) :=
  match n with
  | O => Ok []
  | S n' =>
      effective_balance ← into (safe_mul eth spec.(Spec.effective_balance_increment));
      reward ←
        (if is_base then into (base_get_base_reward effective_balance sqrt_total)
         else into (into (E' := BeaconStateError.t) (altair_get_base_reward effective_balance base_reward_per_increment)));
      rewards ← base_rewards_from is_base sqrt_total base_reward_per_increment n' (eth + 1);
      Ok (reward :: rewards)
  end.
Definition into_epoch_cache (c : PreEpochCache.t) (activation_queue : ActivationQueue.t)
    : outcome EpochCacheError.t EpochCache.t :=
  let e := c.(PreEpochCache.epoch_key).(EpochCache.key_epoch) in
  let total := c.(PreEpochCache.total_active_balance) in
  per_increment ← into (get_base_reward_per_increment total);
  let f := fork_name_at_epoch forks e in
  max_eth ← into (safe_div (max_effective_balance_for_fork spec f) spec.(Spec.effective_balance_increment));
  _ ← into (safe_add max_eth 1);
  rewards ← base_rewards_from (bool_decide (f = ForkName.Base)) (Z.sqrt total) per_increment (Z.to_nat (max_eth + 1)) 0;
  Ok (EpochCache.new spec c.(PreEpochCache.epoch_key) c.(PreEpochCache.effective_balances) rewards activation_queue).

Definition epoch_cache_decision_root (s : State.t) (block_root : Hash256) : outcome BeaconStateError.t Hash256 :=
  attester_shuffling_decision_root spe s.(State.core) block_root Next.
Definition is_epoch_cache_initialized (s : State.t) : outcome EpochCacheError.t bool :=
  root ← into (epoch_cache_decision_root s 0);
  match EpochCache.check_validity (current_epoch spec s) root s.(State.caches).(Caches.epoch_cache) with
  | Ok _ => Ok true
  | _ => Ok false
  end.

(** The activation queue of a registry, from index [i] on. *)
Fixpoint queue_from (next_epoch : Epoch) (i : nat) (validators : list Validator.t) (q : ActivationQueue.t)
    : ActivationQueue.t :=
  match validators with
  | [] => q
  | v :: rest =>
      queue_from next_epoch (S i) rest
        (ActivationQueue.add_if_could_be_eligible_for_activation spec i v next_epoch q)
  end.
Definition initialize_epoch_cache : M State.t EpochCacheError.t unit :=
  s ← get;
  ready ← lift (is_epoch_cache_initialized s);
  if ready : bool then mret tt
  else
    let e := current_epoch spec s in
    next ← try (next_epoch spec s);
    decision_block_root ← try (epoch_cache_decision_root s 0);
    call (build_total_active_balance_cache spec);;
    s ← get;
    total_active_balance ← try (get_total_active_balance_at_epoch s.(State.core) e);
    let effective_balances := Validator.effective_balance <$> State.validators s in
    let activation_queue := queue_from next 0 (State.validators s) [] in
    cache ← lift (into_epoch_cache
                    (PreEpochCache.mk (EpochCache.mk_key e decision_block_root) effective_balances total_active_balance)
                    activation_queue);
    modify (State.on_caches (Caches.set_epoch_cache cache)).
End epoch_cache.
