(* ===== verification/OperationsDefs.v ===== *)
(** * Operations of a block

    [state_processing/src/per_block_processing/]: the checks ([verify_*.rs],
    [is_valid_indexed_attestation.rs]) and the handlers
    ([process_operations.rs], [altair/sync_committee.rs]) of the operations, with
    [common/get_attesting_indices.rs] and [common/get_attestation_participation.rs].

    The parameters stand for what is outside the state transition:
    [signature_set] and [signature_valid] for signatures, [deposit_signature] for
    the proof of possession of a deposit, [attestation_root] and [deposit_root]
    for tree hashes, [hash2] for the hash of two nodes of a Merkle tree and
    [bls_credentials] for the hash of a BLS public key without its first byte.
    Merkle proofs are checked in order here and in parallel in the source: they
    do not change the state. *)
From S2P Require Import Prelude SlotEpoch ProtoArrayDefs ForkChoiceDefs ForkSchedule BeaconStateDefs.
From S2P Require Import ValidatorDefs ShuffleDefs CommitteeDefs MerkleDefs SlashingDefs DoppelgangerDefs ValidatorStoreDefs.
From S2P Require Import StateDefs RegistryDefs BlockDefs EpbsDefs EpochCacheDefs.

Section operations.
Context (hash : list Z → list Z) (hash2 : Hash256 → Hash256 → Hash256).
Context (spec : Spec.t) (forks : ForkSpec.t) (fuel : nat).
Context (signature_set : State.t → Signed.t → outcome SignatureSetError.t bool).
Context (signature_valid : State.t → Signed.t → bool) (decompress : PublicKeyBytes → bool).
Context (deposit_signature : DepositData.t → bool).
Context (attestation_root : BlockAttestation.t → Hash256) (deposit_root : DepositData.t → Hash256).
Context (bls_credentials : PublicKeyBytes → Z).
Abbreviation spe := (spec.(Spec.slots_per_epoch)).
Abbreviation get_proposer_index := (get_proposer_index hash spec fuel).
Abbreviation slash_validator := (slash_validator hash spec fuel).

(** A signature, when signatures are verified. *)
Definition check_signature {T} (verify_signatures : bool) (s : State.t) (signed : Signed.t) (reason : T)
    : outcome (BlockOperationError.t T) unit :=
  if verify_signatures then valid ← into (signature_set s signed); verify valid reason else Ok tt.

(** ** Attesting indices *)
(** The members of a committee whose bit is set, from bit [i] on. *)
Fixpoint members_with_bit (bits : list bool) (i : nat) (committee : list nat) : list Z :=
  match committee with
  | [] => []
  | v :: rest =>
      (if bool_decide (bits !! i = Some true) then [Z.of_nat v] else []) ++ members_with_bit bits (S i) rest
  end.
Definition get_attesting_indices_base (committee : list nat) (bits : list bool) : outcome BeaconStateError.t (list Z) :=
  if negb (length bits =? length committee)%nat then Err BeaconStateError.InvalidBitfield
  else Ok (sort_unstable (members_with_bit bits 0 committee)).

(** The loop over the set committee bits, from committee [index] and aggregation
    bit [offset] on. *)
Fixpoint attesting_loop (committees : list BeaconCommittee.t) (bits : list bool) (committee_bits : list bool)
    (index : nat) (offset : nat) (acc : list Z) : outcome BeaconStateError.t (list Z * nat) :=
  match committee_bits with
  | [] => Ok (acc, offset)
  | false :: rest => attesting_loop committees bits rest (S index) offset acc
  | true :: rest =>
      c ← ok_or (committees !! index) (BeaconStateError.NoCommitteeFound (Z.of_nat index));
      let members := members_with_bit bits offset c.(BeaconCommittee.committee) in
      if bool_decide (members = []) then Err BeaconStateError.EmptyCommittee
      else attesting_loop committees bits rest (S index) (offset + length c.(BeaconCommittee.committee)) (acc ++ members)
  end.
Definition get_attesting_indices_electra (committees : list BeaconCommittee.t) (aggregation_bits committee_bits : list bool)
    : outcome BeaconStateError.t (list Z) :=
  '(indices, participant_count) ← attesting_loop committees aggregation_bits committee_bits 0 0 [];
  if negb (participant_count =? length aggregation_bits)%nat then Err BeaconStateError.InvalidBitfield
  else Ok (sort_unstable indices).

Definition get_indexed_attestation (s : State.t) (a : BlockAttestation.t) : outcome BeaconStateError.t IndexedAttestation.t :=
  match a with
  | BlockAttestation.Base bits data signature =>
      committee ← get_beacon_committee spec s data.(AttestationData.slot) data.(AttestationData.index);
      indices ← get_attesting_indices_base committee.(BeaconCommittee.committee) bits;
      Ok (IndexedAttestation.mk indices data signature)
  | BlockAttestation.Electra bits committee_bits data signature =>
      committees ← get_beacon_committees_at_slot spec s data.(AttestationData.slot);
      indices ← get_attesting_indices_electra committees bits committee_bits;
      Ok (IndexedAttestation.mk indices data signature)
  end.
(** [ctxt.get_indexed_attestation]: each attestation is converted once. *)
Definition ctxt_get_indexed_attestation (a : BlockAttestation.t)
    : M Block.t (BlockOperationError.t AttestationInvalid.t) IndexedAttestation.t :=
  b ← get;
  let key := attestation_root a in
  match b.(Block.ctxt).(ConsensusContext.indexed_attestations) !! key with
  | Some indexed => mret indexed
  | None =>
      indexed ← try (get_indexed_attestation b.(Block.state) a);
      modify (Block.set_ctxt (ConsensusContext.insert_indexed_attestation key indexed b.(Block.ctxt)));;
      mret indexed
  end.

(** ** Checks of attestations *)
(** [tuple_windows]: the position of the first pair that is not increasing. *)
Fixpoint check_increasing (i : nat) (l : list Z) : outcome (BlockOperationError.t IndexedAttestationInvalid.t) unit :=
  match l with
  | [] => Ok tt
  | x :: rest =>
      match rest with
      | [] => Ok tt
      | y :: _ =>
          verify (x <? y) (IndexedAttestationInvalid.BadValidatorIndicesOrdering i);; check_increasing (S i) rest
      end
  end.
Fixpoint check_range (num_validators : Z) (l : list Z) : outcome (BlockOperationError.t IndexedAttestationInvalid.t) unit :=
  match l with
  | [] => Ok tt
  | x :: rest =>
      verify (x <? num_validators) (IndexedAttestationInvalid.ValidatorIndexOutOfRange x);; check_range num_validators rest
  end.
Definition is_valid_indexed_attestation (s : State.t) (a : IndexedAttestation.t) (verify_signatures : bool)
    : outcome (BlockOperationError.t IndexedAttestationInvalid.t) unit :=
  let indices := a.(IndexedAttestation.attesting_indices) in
  verify (negb (bool_decide (indices = []))) IndexedAttestationInvalid.IndicesEmpty;;
  check_increasing 0 indices;;
  check_range (Z.of_nat (length (State.validators s))) indices;;
  check_signature verify_signatures s (Signed.Attestation a) IndexedAttestationInvalid.BadSignature.

Definition checkpoint_eqb (a b : Checkpoint.t) : bool := bool_decide (a = b).
Definition verify_casper_ffg_vote (s : State.t) (data : AttestationData.t)
    : outcome (BlockOperationError.t AttestationInvalid.t) unit :=
  let target := data.(AttestationData.target) in
  let source := data.(AttestationData.source) in
  verify (target.(Checkpoint.epoch) =? epoch data.(AttestationData.slot) spe)
    (AttestationInvalid.TargetEpochSlotMismatch target.(Checkpoint.epoch) (epoch data.(AttestationData.slot) spe));;
  if target.(Checkpoint.epoch) =? current_epoch spec s then
    let justified := s.(State.core).(BeaconState.current_justified_checkpoint) in
    verify (checkpoint_eqb source justified) (AttestationInvalid.WrongJustifiedCheckpoint justified source true)
  else if target.(Checkpoint.epoch) =? st_previous_epoch spec s then
    let justified := s.(State.core).(BeaconState.previous_justified_checkpoint) in
    verify (checkpoint_eqb source justified) (AttestationInvalid.WrongJustifiedCheckpoint justified source false)
  else Err (BlockOperationError.Invalid AttestationInvalid.BadTargetEpoch).

Definition check_attestation_index (s : State.t) (a : BlockAttestation.t)
    : outcome (BlockOperationError.t AttestationInvalid.t) unit :=
  match a with
  | BlockAttestation.Base _ data _ =>
      cache ← into (committee_cache_at_slot spec s data.(AttestationData.slot));
      verify (data.(AttestationData.index) <? cache.(CommitteeCache.committees_per_slot)) AttestationInvalid.BadCommitteeIndex
  | BlockAttestation.Electra _ _ data _ =>
      if ForkName.ge (State.fork_name s) ForkName.Gloas
      then verify (data.(AttestationData.index) <? 2) AttestationInvalid.BadCommitteeIndex
      else verify (data.(AttestationData.index) =? 0) AttestationInvalid.BadCommitteeIndex
  end.
Definition verify_attestation_for_state (a : BlockAttestation.t) (verify_signatures : bool)
    : M Block.t (BlockOperationError.t AttestationInvalid.t) IndexedAttestation.t :=
  b ← get;
  let s := b.(Block.state) in
  lift (check_attestation_index s a);;
  lift (verify_casper_ffg_vote s (BlockAttestation.data a));;
  indexed ← ctxt_get_indexed_attestation a;
  try (is_valid_indexed_attestation s indexed verify_signatures);;
  mret indexed.
Definition verify_attestation_for_block_inclusion (a : BlockAttestation.t) (verify_signatures : bool)
    : M Block.t (BlockOperationError.t AttestationInvalid.t) IndexedAttestation.t :=
  let data := BlockAttestation.data a in
  b ← get;
  let s := b.(Block.state) in
  earliest ← try (safe_add data.(AttestationData.slot) spec.(Spec.min_attestation_inclusion_delay));
  lift (verify (earliest <=? State.slot s)
    (AttestationInvalid.IncludedTooEarly (State.slot s) spec.(Spec.min_attestation_inclusion_delay)
       data.(AttestationData.slot)));;
  (if ForkName.ge (State.fork_name s) ForkName.Deneb then mret tt
   else
     latest ← try (safe_add data.(AttestationData.slot) spe);
     lift (verify (State.slot s <=? latest)
       (AttestationInvalid.IncludedTooLate (State.slot s) data.(AttestationData.slot))));;
  verify_attestation_for_state a verify_signatures.

(** ** Participation *)
Definition is_attestation_same_slot (s : State.t) (data : AttestationData.t) : outcome BeaconStateError.t bool :=
  if data.(AttestationData.slot) =? 0 then Ok true
  else
    let blockroot := data.(AttestationData.beacon_block_root) in
    slot_blockroot ← get_block_root s.(State.core) data.(AttestationData.slot);
    prev ← into (safe_sub data.(AttestationData.slot) 1);
    prev_blockroot ← get_block_root s.(State.core) prev;
    Ok ((blockroot =? slot_blockroot) && negb (blockroot =? prev_blockroot)).

(** The payload status that an attestation votes for, against the state's record. *)
Definition payload_matches (s : State.t) (data : AttestationData.t) (is_same_slot : bool) : outcome BeaconStateError.t bool :=
  if is_same_slot then Ok true
  else
    slot_index ← into (safe_rem data.(AttestationData.slot) spec.(Spec.slots_per_historical_root));
    let availability :=
      match st_execution_payload_availability s with
      | Ok bits => match bits !! Z.to_nat slot_index with Some true => 1 | _ => 0 end
      | _ => 0
      end in
    Ok (data.(AttestationData.index) =? availability).

Definition get_attestation_participation_flag_indices (s : State.t) (data : AttestationData.t) (inclusion_delay : Z)
    : outcome BeaconStateError.t (list nat) :=
  let core := s.(State.core) in
  let target := data.(AttestationData.target) in
  let justified_checkpoint :=
    if target.(Checkpoint.epoch) =? current_epoch spec s then core.(BeaconState.current_justified_checkpoint)
    else core.(BeaconState.previous_justified_checkpoint) in
  let is_matching_source := checkpoint_eqb data.(AttestationData.source) justified_checkpoint in
  is_matching_target ←
    (if is_matching_source then
       root ← get_block_root_at_epoch spe core target.(Checkpoint.epoch); Ok (target.(Checkpoint.root) =? root)
     else Ok false);
  head_root ← get_block_root core data.(AttestationData.slot);
  let head_root_matches := data.(AttestationData.beacon_block_root) =? head_root in
  is_matching_head ←
    (if ForkName.ge (State.fork_name s) ForkName.Gloas then
       is_same_slot ← is_attestation_same_slot s data;
       if is_same_slot && negb (data.(AttestationData.index) =? 0) then Err BeaconStateError.IncorrectAttestationIndex
       else
         payload ← payload_matches s data is_same_slot;
         Ok (is_matching_target && head_root_matches && payload)
     else Ok (is_matching_target && head_root_matches));
  if negb is_matching_source then Err BeaconStateError.IncorrectAttestationSource
  else
    let source := if inclusion_delay <=? Z.sqrt spe then [TIMELY_SOURCE_FLAG_INDEX] else [] in
    let timely_target :=
      if ForkName.ge (State.fork_name s) ForkName.Deneb then is_matching_target
      else is_matching_target && (inclusion_delay <=? spe) in
    let target := if timely_target then [TIMELY_TARGET_FLAG_INDEX] else [] in
    let head := if is_matching_head && (inclusion_delay =? spec.(Spec.min_attestation_inclusion_delay))
                then [TIMELY_HEAD_FLAG_INDEX] else [] in
    Ok (source ++ target ++ head).

(** ** Attestations *)
(** The list of flags that [get_epoch_participation_mut] lends. *)
Definition get_epoch_participation (s : State.t) (e previous current : Epoch) : outcome BeaconStateError.t (list Z) :=
  if e =? current then gated ForkName.Altair s s.(State.core).(BeaconState.current_epoch_participation)
  else if e =? previous then gated ForkName.Altair s s.(State.core).(BeaconState.previous_epoch_participation)
  else Err BeaconStateError.EpochOutOfBounds.
Definition set_epoch_participation (e current : Epoch) (l : list Z) : State.t → State.t :=
  State.on_core (fun c =>
    if e =? current then BeaconState.set_participation c.(BeaconState.previous_epoch_participation) l c
    else BeaconState.set_participation l c.(BeaconState.current_epoch_participation) c).

(** Set the flags that are missing; [new_flags] is the mask of those set now. *)
Fixpoint add_missing_flags (flag_indices : list nat) (participation new_flags : Z) : outcome ArithError (Z * Z) :=
  match flag_indices with
  | [] => Ok (participation, new_flags)
  | flag_index :: rest =>
      has ← ParticipationFlags.has_flag participation flag_index;
      if has : bool then add_missing_flags rest participation new_flags
      else
        participation' ← ParticipationFlags.add_flag flag_index participation;
        add_missing_flags rest participation' (Z.lor new_flags (ParticipationFlags.mask flag_index))
  end.

(** Rewards and running totals of the new flags, from flag [i] on. *)
Fixpoint reward_flags (e : Epoch) (new_flags base_reward effective_balance : Z) (slashed : bool) (i : nat) (weights : list Z)
    (numerator : Z) : EpM Z :=
  match weights with
  | [] => mret numerator
  | weight :: rest =>
      if Z.testbit new_flags (Z.of_nat i) then
        reward ← try (safe_mul base_reward weight);
        numerator' ← try (safe_add numerator reward);
        call (on_core (update_progressive_balances_on_attestation e i effective_balance slashed));;
        reward_flags e new_flags base_reward effective_balance slashed (S i) rest numerator'
      else reward_flags e new_flags base_reward effective_balance slashed (S i) rest numerator
  end.

(** A same-slot attestation adds the balance of the attester to the weight of the
    payment of its slot. *)
Definition add_payment_weight (data : AttestationData.t) (current : Epoch) (effective_balance : Z) : EpM unit :=
  slot_mod ← try (safe_rem data.(AttestationData.slot) spe);
  index ←
    (if data.(AttestationData.target).(Checkpoint.epoch) =? current then try (safe_add spe slot_mod) else mret slot_mod);
  s ← get;
  match st_builder_pending_payments s with
  | Ok payments =>
      match payments !! Z.to_nat index with
      | Some payment =>
          when (0 <? payment.(BuilderPendingPayment.withdrawal).(BuilderPendingWithdrawal.amount))
            (modify (set_builder_pending_payments
              (<[Z.to_nat index :=
                   BuilderPendingPayment.set_weight
                     (u64_saturating_add payment.(BuilderPendingPayment.weight) effective_balance) payment]> payments)))
      | None => mret tt
      end
  | _ => mret tt
  end.

(** One attester; the result is the numerator of the proposer's reward. *)
Definition apply_attester (data : AttestationData.t) (previous current : Epoch) (flag_indices : list nat)
    (is_gloas same_slot : bool) (index : nat) (numerator : Z) : EpM Z :=
  let e := data.(AttestationData.target).(Checkpoint.epoch) in
  s ← get;
  effective_balance ← try (EpochCache.get_effective_balance index s.(State.caches).(Caches.epoch_cache));
  let slashed := SlashingsCache.is_slashed index s.(State.caches).(Caches.slashings_cache) in
  epoch_participation ← try (get_epoch_participation s e previous current);
  participation ← try (ok_or (epoch_participation !! index) (BeaconStateError.ParticipationOutOfBounds index));
  '(participation', new_flags) ← try (add_missing_flags flag_indices participation 0);
  modify (set_epoch_participation e current (<[index := participation']> epoch_participation));;
  numerator' ←
    (if negb (new_flags =? 0) then
       s ← get;
       base_reward ← try (EpochCache.get_base_reward index s.(State.caches).(Caches.epoch_cache));
       reward_flags e new_flags base_reward effective_balance slashed 0 PARTICIPATION_FLAG_WEIGHTS numerator
     else mret numerator);
  when (is_gloas && negb (new_flags =? 0) && same_slot) (add_payment_weight data current effective_balance);;
  mret numerator'.
Fixpoint apply_attesters (data : AttestationData.t) (previous current : Epoch) (flag_indices : list nat)
    (is_gloas same_slot : bool) (indices : list Z) (numerator : Z) : EpM Z :=
  match indices with
  | [] => mret numerator
  | index :: rest =>
      numerator' ← apply_attester data previous current flag_indices is_gloas same_slot (Z.to_nat index) numerator;
      apply_attesters data previous current flag_indices is_gloas same_slot rest numerator'
  end.

Definition proposer_reward_denominator : outcome ArithError Z :=
  n ← safe_sub WEIGHT_DENOMINATOR PROPOSER_WEIGHT;
  n ← safe_mul n WEIGHT_DENOMINATOR;
  safe_div n PROPOSER_WEIGHT.
Definition process_attestation (a : BlockAttestation.t) (att_index : nat) (verify_signatures : bool) : BlM unit :=
  proposer_index ← call get_proposer_index;
  b ← get;
  let previous := b.(Block.ctxt).(ConsensusContext.previous_epoch) in
  let current := b.(Block.ctxt).(ConsensusContext.current_epoch) in
  indexed_att ← rethrow (with_index (BlockProcessingError.AttestationInvalid att_index))
                  (verify_attestation_for_block_inclusion a verify_signatures);
  let data := BlockAttestation.data a in
  let s := b.(Block.state) in
  inclusion_delay ← try (safe_sub (State.slot s) data.(AttestationData.slot));
  flag_indices ← try (get_attestation_participation_flag_indices s data inclusion_delay);
  let is_gloas := ForkName.ge (State.fork_name s) ForkName.Gloas in
  same_slot ← (if is_gloas then try (is_attestation_same_slot s data) else mret false);
  numerator ← on_state (apply_attesters data previous current flag_indices is_gloas same_slot
                          indexed_att.(IndexedAttestation.attesting_indices) 0);
  denominator ← try proposer_reward_denominator;
  proposer_reward ← try (safe_div numerator denominator);
  call (on_state (increase_balance (Z.to_nat proposer_index) proposer_reward)).

(** [enumerate] and [try_for_each]. *)
Fixpoint for_each_indexed {S E A} (i : nat) (l : list A) (f : nat → A → M S E unit) : M S E unit :=
  match l with
  | [] => mret tt
  | x :: rest => f i x;; for_each_indexed (Datatypes.S i) rest f
  end.
Definition altair_process_attestations (attestations : list BlockAttestation.t) (verify_signatures : bool) : BlM unit :=
  for_each_indexed 0 attestations (fun i a => process_attestation a i verify_signatures).

(** The base fork keeps the attestations for the end of the epoch. *)
Definition base_push_attestation (proposer_index : Z) (bits : list bool) (data : AttestationData.t) : EpM unit :=
  s ← get;
  inclusion_delay ← try (safe_sub (State.slot s) data.(AttestationData.slot));
  let pending := PendingAttestation.mk bits data inclusion_delay proposer_index in
  if negb (bool_decide (State.fork_name s = ForkName.Base))
  then throw (BlockProcessingError.BeaconStateError BeaconStateError.IncorrectStateVariant)
  else if data.(AttestationData.target).(Checkpoint.epoch) =? current_epoch spec s then
    l ← try (Milhouse.push spec.(Spec.max_pending_attestations) pending s.(State.chain).(Chain.current_epoch_attestations));
    modify (State.on_chain (Chain.set_current_epoch_attestations l))
  else
    l ← try (Milhouse.push spec.(Spec.max_pending_attestations) pending s.(State.chain).(Chain.previous_epoch_attestations));
    modify (State.on_chain (Chain.set_previous_epoch_attestations l)).
Definition base_process_attestations (attestations : list BlockAttestation.t) (verify_signatures : bool) : BlM unit :=
  call (on_state (build_committee_cache hash spec Current));;
  call (on_state (build_committee_cache hash spec Previous));;
  call (on_state (initialize_epoch_cache spec forks));;
  call (on_state (on_core (initialize_progressive_balances_cache spe spec.(Spec.effective_balance_increment))));;
  call (on_state build_slashings_cache);;
  proposer_index ← call get_proposer_index;
  for_each_indexed 0 attestations (fun i a =>
    rethrow (with_index (BlockProcessingError.AttestationInvalid i))
      (verify_attestation_for_block_inclusion a verify_signatures);;
    match a with
    | BlockAttestation.Base bits data _ => on_state (base_push_attestation proposer_index bits data)
    | BlockAttestation.Electra _ _ _ _ => throw BlockProcessingError.PendingAttestationInElectra
    end).
Definition process_attestations (attestations : list BlockAttestation.t) (verify_signatures : bool) : BlM unit :=
  b ← get;
  if ForkName.ge (State.fork_name b.(Block.state)) ForkName.Altair
  then altair_process_attestations attestations verify_signatures
  else base_process_attestations attestations verify_signatures.

(** ** Slashings *)
Definition verify_proposer_slashing (s : State.t) (p : ProposerSlashing.t) (verify_signatures : bool)
    : outcome (BlockOperationError.t ProposerSlashingInvalid.t) unit :=
  let header_1 := p.(ProposerSlashing.signed_header_1).(SignedBeaconBlockHeader.message) in
  let header_2 := p.(ProposerSlashing.signed_header_2).(SignedBeaconBlockHeader.message) in
  let index := header_1.(BeaconBlockHeader.proposer_index) in
  verify (header_1.(BeaconBlockHeader.slot) =? header_2.(BeaconBlockHeader.slot))
    (ProposerSlashingInvalid.ProposalSlotMismatch header_1.(BeaconBlockHeader.slot) header_2.(BeaconBlockHeader.slot));;
  verify (index =? header_2.(BeaconBlockHeader.proposer_index))
    (ProposerSlashingInvalid.ProposerIndexMismatch index header_2.(BeaconBlockHeader.proposer_index));;
  verify (negb (bool_decide (header_1 = header_2))) ProposerSlashingInvalid.ProposalsIdentical;;
  proposer ← ok_or (State.validators s !! Z.to_nat index)
               (BlockOperationError.Invalid (ProposerSlashingInvalid.ProposerUnknown index));
  verify (ValidatorOps.is_slashable_at proposer (current_epoch spec s)) (ProposerSlashingInvalid.ProposerNotSlashable index);;
  check_signature verify_signatures s (Signed.Header p.(ProposerSlashing.signed_header_1))
    ProposerSlashingInvalid.BadProposal1Signature;;
  check_signature verify_signatures s (Signed.Header p.(ProposerSlashing.signed_header_2))
    ProposerSlashingInvalid.BadProposal2Signature.

(** The payment of the slashed proposal, if it is still in the window of two
    epochs, is blanked. *)
Definition slashed_payment_index (s : State.t) (slot : Slot) : outcome ArithError (option nat) :=
  let proposal_epoch := epoch slot spe in
  let current := current_epoch spec s in
  slot_mod ← safe_rem slot spe;
  if proposal_epoch =? current then i ← safe_add spe slot_mod; Ok (Some (Z.to_nat i))
  else if proposal_epoch =? u64_saturating_sub current 1 then Ok (Some (Z.to_nat slot_mod))
  else Ok None.
Definition remove_slashed_payment (slot : Slot) : EpM unit :=
  s ← get;
  index ← try (slashed_payment_index s slot);
  match index with
  | Some i =>
      payments ← try (st_builder_pending_payments s);
      modify (set_builder_pending_payments (<[i := BuilderPendingPayment.default]> payments))
  | None => mret tt
  end.
Definition process_proposer_slashing (verify_signatures : bool) (i : nat) (p : ProposerSlashing.t) : BlM unit :=
  b ← get;
  lift (map_err (with_index (BlockProcessingError.ProposerSlashingInvalid i))
          (verify_proposer_slashing b.(Block.state) p verify_signatures));;
  let header := p.(ProposerSlashing.signed_header_1).(SignedBeaconBlockHeader.message) in
  when (ForkName.ge (State.fork_name b.(Block.state)) ForkName.Gloas)
    (on_state (remove_slashed_payment header.(BeaconBlockHeader.slot)));;
  slash_validator (Z.to_nat header.(BeaconBlockHeader.proposer_index)) None.
Definition process_proposer_slashings (l : list ProposerSlashing.t) (verify_signatures : bool) : BlM unit :=
  call (on_state build_slashings_cache);;
  for_each_indexed 0 l (process_proposer_slashing verify_signatures).

Definition is_double_vote (a b : IndexedAttestation.t) : bool :=
  let da := a.(IndexedAttestation.data) in
  let db := b.(IndexedAttestation.data) in
  (da.(AttestationData.target).(Checkpoint.epoch) =? db.(AttestationData.target).(Checkpoint.epoch))
  && negb (bool_decide (da = db)).
Definition is_surround_vote (a b : IndexedAttestation.t) : bool :=
  let da := a.(IndexedAttestation.data) in
  let db := b.(IndexedAttestation.data) in
  (da.(AttestationData.source).(Checkpoint.epoch) <? db.(AttestationData.source).(Checkpoint.epoch))
  && (db.(AttestationData.target).(Checkpoint.epoch) <? da.(AttestationData.target).(Checkpoint.epoch)).

(** The loop over the common indices, in ascending order. *)
Fixpoint slashable_among (s : State.t) (indices : list Z)
    : outcome (BlockOperationError.t AttesterSlashingInvalid.t) (list Z) :=
  match indices with
  | [] => Ok []
  | index :: rest =>
      validator ← ok_or (State.validators s !! Z.to_nat index)
                    (BlockOperationError.Invalid (AttesterSlashingInvalid.UnknownValidator index));
      slashable ← slashable_among s rest;
      Ok (if ValidatorOps.is_slashable_at validator (current_epoch spec s) then index :: slashable else slashable)
  end.
Definition get_slashable_indices (s : State.t) (a : AttesterSlashing.t)
    : outcome (BlockOperationError.t AttesterSlashingInvalid.t) (list Z) :=
  let set_of att := BTreeSet.from_iter Z.compare att.(IndexedAttestation.attesting_indices) in
  let indices_2 := set_of a.(AttesterSlashing.attestation_2) in
  slashable ← slashable_among s (filter (fun i => i ∈ indices_2) (set_of a.(AttesterSlashing.attestation_1)));
  verify (negb (bool_decide (slashable = []))) AttesterSlashingInvalid.NoSlashableIndices;;
  Ok slashable.
Definition verify_attester_slashing (s : State.t) (a : AttesterSlashing.t) (verify_signatures : bool)
    : outcome (BlockOperationError.t AttesterSlashingInvalid.t) (list Z) :=
  let attestation_1 := a.(AttesterSlashing.attestation_1) in
  let attestation_2 := a.(AttesterSlashing.attestation_2) in
  verify (is_double_vote attestation_1 attestation_2 || is_surround_vote attestation_1 attestation_2)
    AttesterSlashingInvalid.NotSlashable;;
  map_err (fun e => BlockOperationError.Invalid (AttesterSlashingInvalid.IndexedAttestation1Invalid e))
    (is_valid_indexed_attestation s attestation_1 verify_signatures);;
  map_err (fun e => BlockOperationError.Invalid (AttesterSlashingInvalid.IndexedAttestation2Invalid e))
    (is_valid_indexed_attestation s attestation_2 verify_signatures);;
  get_slashable_indices s a.
Definition process_attester_slashings (l : list AttesterSlashing.t) (verify_signatures : bool) : BlM unit :=
  call (on_state build_slashings_cache);;
  for_each_indexed 0 l (fun i a =>
    b ← get;
    indices ← lift (map_err (with_index (BlockProcessingError.AttesterSlashingInvalid i))
                      (verify_attester_slashing b.(Block.state) a verify_signatures));
    for_each indices (fun index => slash_validator (Z.to_nat index) None)).
End operations.
