(* ===== verification/RequestDefs.v ===== *)
(** * Exits, deposits and the requests of the execution layer

    The second half of [per_block_processing/process_operations.rs] with
    [verify_exit.rs], [verify_bls_to_execution_change.rs] and
    [verify_deposit.rs]: voluntary exits of validators and builders, credential
    changes, deposits, and the deposit, withdrawal and consolidation requests.

    The parameters are those of [OperationsDefs]: [deposit_signature] is the
    proof of possession of a deposit, [deposit_root] its tree hash, [hash2] the
    hash of two nodes of a Merkle tree and [bls_credentials] the hash of a BLS
    public key without its first byte.  Merkle proofs are checked in order here
    and in parallel in the source; they do not change the state. *)
From S2P Require Import Prelude SlotEpoch ProtoArrayDefs ForkChoiceDefs ForkSchedule BeaconStateDefs.
From S2P Require Import ValidatorDefs ShuffleDefs CommitteeDefs MerkleDefs SlashingDefs DoppelgangerDefs ValidatorStoreDefs.
From S2P Require Import StateDefs RegistryDefs BlockDefs EpbsDefs OperationsDefs.

Section requests.
Context (hash2 : Hash256 → Hash256 → Hash256) (spec : Spec.t).
Context (signature_set : State.t → Signed.t → outcome SignatureSetError.t bool) (decompress : PublicKeyBytes → bool).
Context (deposit_signature : DepositData.t → bool) (deposit_root : DepositData.t → Hash256).
Context (bls_credentials : PublicKeyBytes → Z).
Abbreviation spe := (spec.(Spec.slots_per_epoch)).
Abbreviation check_signature := (check_signature signature_set).

(** ** Voluntary exits *)
Definition is_builder_index (validator_index : Z) : bool := negb (Z.land validator_index BUILDER_INDEX_FLAG =? 0).
(** [validator_index & !BUILDER_INDEX_FLAG]. *)
Definition to_builder_index (validator_index : Z) : Z := Z.ldiff validator_index BUILDER_INDEX_FLAG.

Definition verify_builder_exit (s : State.t) (builder_index : Z) (e : SignedVoluntaryExit.t) (verify_signatures : bool)
    : outcome (BlockOperationError.t ExitInvalid.t) unit :=
  let unknown := BlockOperationError.Invalid (ExitInvalid.BuilderUnknown builder_index) in
  builders ← map_err (fun _ => unknown) (st_builders s);
  builder ← ok_or (builders !! Z.to_nat builder_index) unknown;
  verify (Builder.is_active_at_finalized_epoch spec builder (State.finalized_checkpoint s).(Checkpoint.epoch))
    (ExitInvalid.BuilderNotActive builder_index);;
  pending ← into (get_pending_balance_to_withdraw_for_builder s builder_index);
  verify (pending =? 0) (ExitInvalid.BuilderPendingWithdrawalInQueue builder_index);;
  check_signature verify_signatures s (Signed.Exit (Some builder.(Builder.pubkey)) e) ExitInvalid.BadSignature.

(** The result tells whether the exit is a builder's. *)
Definition verify_exit (s : State.t) (e : SignedVoluntaryExit.t) (verify_signatures : bool)
    : outcome (BlockOperationError.t ExitInvalid.t) bool :=
  let current := current_epoch spec s in
  let index := e.(SignedVoluntaryExit.validator_index) in
  verify (e.(SignedVoluntaryExit.epoch) <=? current) (ExitInvalid.FutureEpoch current e.(SignedVoluntaryExit.epoch));;
  if ForkName.ge (State.fork_name s) ForkName.Gloas && is_builder_index index then
    verify_builder_exit s (to_builder_index index) e verify_signatures;; Ok true
  else
    validator ← ok_or (State.validators s !! Z.to_nat index)
                  (BlockOperationError.Invalid (ExitInvalid.ValidatorUnknown index));
    verify (Validator.is_active_at validator current) (ExitInvalid.NotActive index);;
    verify (validator.(Validator.exit_epoch) =? spec.(Spec.far_future_epoch)) (ExitInvalid.AlreadyExited index);;
    earliest_exit_epoch ← into (safe_add validator.(Validator.activation_epoch) spec.(Spec.shard_committee_period));
    verify (earliest_exit_epoch <=? current) (ExitInvalid.TooYoungToExit current earliest_exit_epoch);;
    check_signature verify_signatures s (Signed.Exit None e) ExitInvalid.BadSignature;;
    match get_pending_balance_to_withdraw s (Z.to_nat index) with
    | Ok pending => verify (pending =? 0) (ExitInvalid.PendingWithdrawalInQueue index)
    | _ => Ok tt
    end;;
    Ok false.

Definition process_exit (verify_signatures : bool) (i : nat) (e : SignedVoluntaryExit.t) : EpM unit :=
  s ← get;
  is_builder_exit ← lift (map_err (with_index (BlockProcessingError.ExitInvalid i)) (verify_exit s e verify_signatures));
  if is_builder_exit : bool
  then call (initiate_builder_exit spec (to_builder_index e.(SignedVoluntaryExit.validator_index)))
  else call (initiate_validator_exit spec (Z.to_nat e.(SignedVoluntaryExit.validator_index))).
Definition process_exits (l : list SignedVoluntaryExit.t) (verify_signatures : bool) : EpM unit :=
  for_each_indexed 0 l (process_exit verify_signatures).

(** ** Withdrawal credentials *)
(** The last 31 bytes of the credentials. *)
Definition credential_tail (c : Hash256) : Z := Z.land c (Z.ones 248).
Definition verify_bls_to_execution_change (s : State.t) (c : SignedBlsToExecutionChange.t) (verify_signatures : bool)
    : outcome (BlockOperationError.t BlsExecutionChangeInvalid.t) unit :=
  let index := c.(SignedBlsToExecutionChange.validator_index) in
  validator ← ok_or (State.validators s !! Z.to_nat index)
                (BlockOperationError.Invalid (BlsExecutionChangeInvalid.ValidatorUnknown index));
  let credentials := validator.(Validator.withdrawal_credentials) in
  verify (credential_prefix credentials =? spec.(Spec.bls_withdrawal_prefix_byte))
    BlsExecutionChangeInvalid.NonBlsWithdrawalCredentials;;
  verify (credential_tail credentials =? bls_credentials c.(SignedBlsToExecutionChange.from_bls_pubkey))
    BlsExecutionChangeInvalid.WithdrawalCredentialsMismatch;;
  check_signature verify_signatures s (Signed.BlsChange c) BlsExecutionChangeInvalid.BadSignature.
Definition process_bls_to_execution_changes (l : list SignedBlsToExecutionChange.t) (verify_signatures : bool) : EpM unit :=
  for_each_indexed 0 l (fun i c =>
    s ← get;
    lift (map_err (with_index (BlockProcessingError.BlsExecutionChangeInvalid i))
            (verify_bls_to_execution_change s c verify_signatures));;
    call (update_validator (Z.to_nat c.(SignedBlsToExecutionChange.validator_index))
            (ValidatorOps.change_withdrawal_credentials spec c.(SignedBlsToExecutionChange.to_execution_address)))).

(** ** Deposits *)
Definition verify_deposit_merkle_proof (s : State.t) (d : Deposit.t) (deposit_index : Z)
    : outcome (BlockOperationError.t DepositInvalid.t) unit :=
  depth ← into (safe_add spec.(Spec.deposit_contract_tree_depth) 1);
  match verify_merkle_proof hash2 (deposit_root d.(Deposit.data)) d.(Deposit.proof) (Z.to_nat depth) deposit_index
          s.(State.chain).(Chain.eth1_data).(Eth1Data.deposit_root) with
  | Ok valid => verify valid DepositInvalid.BadMerkleProof
  | Err e => match e with end
  | Panic => Panic
  | Diverge => Diverge
  end.

Definition pending_deposit (d : DepositData.t) (slot : Slot) : PendingDeposit.t :=
  PendingDeposit.mk d.(DepositData.pubkey) d.(DepositData.withdrawal_credentials) d.(DepositData.amount)
    d.(DepositData.signature) slot.
(** [if let Ok(pending_deposits) = state.pending_deposits_mut()]. *)
Definition push_if_queue (d : PendingDeposit.t) : EpM bool :=
  s ← get;
  match st_pending_deposits s with
  | Ok l =>
      l' ← try (Milhouse.push spec.(Spec.pending_deposits_limit) d l);
      modify (State.on_queues (Queues.set_pending_deposits l'));; mret true
  | _ => mret false
  end.

Definition increment_deposit_index : EpM unit :=
  s ← get;
  i ← try (safe_add s.(State.chain).(Chain.eth1_deposit_index) 1);
  modify (State.on_chain (Chain.set_eth1_deposit_index i)).
Definition apply_deposit (d : DepositData.t) (proof : option (list Hash256)) (increment_eth1_deposit_index : bool) : EpM unit :=
  s ← get;
  let deposit_index := s.(State.chain).(Chain.eth1_deposit_index) in
  let wrap := with_index (BlockProcessingError.DepositInvalid (Z.to_nat deposit_index)) in
  match proof with
  | Some proof => lift (map_err wrap (verify_deposit_merkle_proof s (Deposit.mk proof d) deposit_index))
  | None => mret tt
  end;;
  when increment_eth1_deposit_index increment_deposit_index;;
  validator_index ← rethrow wrap (call (get_validator_index d.(DepositData.pubkey)));
  match validator_index with
  | Some index =>
      queued ← push_if_queue (pending_deposit d spec.(Spec.genesis_slot));
      if queued : bool then mret tt else call (increase_balance index d.(DepositData.amount))
  | None =>
      if negb (deposit_signature d) then mret tt
      else
        s ← get;
        call (add_validator_to_registry spec d.(DepositData.pubkey) d.(DepositData.withdrawal_credentials)
          (if ForkName.ge (State.fork_name s) ForkName.Electra then 0 else d.(DepositData.amount)));;
        push_if_queue (pending_deposit d spec.(Spec.genesis_slot));;
        mret tt
  end.

Definition check_deposit_count (s : State.t) (found : nat) : outcome BlockProcessingError.t unit :=
  let start := match st_deposit_requests_start_index s with Ok i => i | _ => u64_max end in
  let limit := Z.min start s.(State.chain).(Chain.eth1_data).(Eth1Data.deposit_count) in
  let index := s.(State.chain).(Chain.eth1_deposit_index) in
  if index <? limit then
    left_over ← into (safe_sub limit index);
    let expected := Z.min spec.(Spec.max_deposits) left_over in
    block_verify (Z.of_nat found =? expected) (BlockProcessingError.DepositCountInvalid (Z.to_nat expected) found)
  else block_verify (Z.of_nat found =? 0) (BlockProcessingError.DepositCountInvalid 0 found).
Fixpoint verify_deposit_proofs (s : State.t) (i : nat) (l : list Deposit.t) : outcome BlockProcessingError.t unit :=
  match l with
  | [] => Ok tt
  | d :: rest =>
      index ← into (safe_add s.(State.chain).(Chain.eth1_deposit_index) (Z.of_nat i));
      map_err (with_index (BlockProcessingError.DepositInvalid i)) (verify_deposit_merkle_proof s d index);;
      verify_deposit_proofs s (S i) rest
  end.
Definition process_deposits (l : list Deposit.t) : EpM unit :=
  s ← get;
  lift (check_deposit_count s (length l));;
  lift (verify_deposit_proofs s 0 l);;
  for_each l (fun d => apply_deposit d.(Deposit.data) None true).

(** ** Withdrawal requests *)
Definition get_pubkey_index (s : State.t) (pubkey : PublicKeyBytes) : option nat :=
  PubkeyCache.get pubkey s.(State.caches).(Caches.pubkey_cache).

(** Push the partial withdrawal that the churn admits. *)
Definition queue_partial_withdrawal (index : nat) (to_withdraw : Z) : EpM unit :=
  exit_queue_epoch ← call (compute_exit_epoch_and_update_churn spec to_withdraw);
  withdrawable_epoch ← try (safe_add exit_queue_epoch spec.(Spec.min_validator_withdrawability_delay));
  s ← get;
  l ← try (st_pending_partial_withdrawals s);
  l' ← try (Milhouse.push spec.(Spec.pending_partial_withdrawals_limit)
              (PendingPartialWithdrawal.mk (Z.of_nat index) to_withdraw withdrawable_epoch) l);
  modify (State.on_queues (Queues.set_pending_partial_withdrawals l')).

(** The checks on the validator that a request names; [false] ignores it. *)
Definition is_withdrawal_request_for (s : State.t) (r : WithdrawalRequest.t) (validator : Validator.t)
    : outcome BlockProcessingError.t bool :=
  let address_matches :=
    match get_execution_withdrawal_address spec validator with
    | Some address => address =? r.(WithdrawalRequest.source_address)
    | None => false
    end in
  if negb (has_execution_withdrawal_credential spec validator && address_matches) then Ok false
  else if negb (Validator.is_active_at validator (current_epoch spec s)) then Ok false
  else if negb (validator.(Validator.exit_epoch) =? spec.(Spec.far_future_epoch)) then Ok false
  else
    earliest ← into (safe_add validator.(Validator.activation_epoch) spec.(Spec.shard_committee_period));
    Ok (earliest <=? current_epoch spec s).

Definition process_withdrawal_request (r : WithdrawalRequest.t) : EpM unit :=
  s ← get;
  let amount := r.(WithdrawalRequest.amount) in
  let is_full_exit_request := amount =? spec.(Spec.full_exit_request_amount) in
  partials ← try (st_pending_partial_withdrawals s);
  if (Z.of_nat (length partials) =? spec.(Spec.pending_partial_withdrawals_limit)) && negb is_full_exit_request
  then mret tt
  else
    match get_pubkey_index s r.(WithdrawalRequest.validator_pubkey) with
    | None => mret tt
    | Some index =>
        validator ← try (get_validator s index);
        accepted ← lift (is_withdrawal_request_for s r validator);
        if negb accepted then mret tt
        else
          pending ← try (get_pending_balance_to_withdraw s index);
          if is_full_exit_request then when (pending =? 0) (call (initiate_validator_exit spec index))
          else
            balance ← try (get_balance s index);
            min_balance ← try (safe_add spec.(Spec.min_activation_balance) pending);
            if has_compounding_withdrawal_credential spec validator
               && (spec.(Spec.min_activation_balance) <=? validator.(Validator.effective_balance))
               && (min_balance <? balance)
            then
              n ← try (safe_sub balance spec.(Spec.min_activation_balance));
              n ← try (safe_sub n pending);
              queue_partial_withdrawal index (Z.min n amount)
            else mret tt
    end.
Definition process_withdrawal_requests (l : list WithdrawalRequest.t) : EpM unit :=
  for_each l process_withdrawal_request.

(** ** Deposit requests *)
Definition is_builder_withdrawal_credential (c : Hash256) : bool := credential_prefix c =? 3.
Definition is_pending_validator (s : State.t) (pubkey : PublicKeyBytes) : bool :=
  match st_pending_deposits s with
  | Ok l =>
      existsb (fun d =>
        (d.(PendingDeposit.pubkey) =? pubkey)
        && deposit_signature (DepositData.mk d.(PendingDeposit.pubkey) d.(PendingDeposit.withdrawal_credentials)
             d.(PendingDeposit.amount) d.(PendingDeposit.signature))) l
  | _ => false
  end.

(** The first exited and empty builder from index [i] on, or the end of the list. *)
Fixpoint index_for_new_builder_from (i : nat) (builders : list Builder.t) (e : Epoch) : nat :=
  match builders with
  | [] => i
  | b :: rest =>
      if (b.(Builder.withdrawable_epoch) <=? e) && (b.(Builder.balance) =? 0) then i
      else index_for_new_builder_from (S i) rest e
  end.
Definition get_index_for_new_builder (builders : list Builder.t) (e : Epoch) : nat :=
  index_for_new_builder_from 0 builders e.

Definition set_builders (v : list Builder.t) : State.t → State.t := State.on_epbs (Epbs.set_builders v).
(** Put a new builder at [new_index] and keep the cache of public keys. *)
Definition register_builder (builder : Builder.t) (new_index : nat) : EpM unit :=
  s ← get;
  builders ← try (st_builders s);
  let pubkey := builder.(Builder.pubkey) in
  if (new_index <? length builders)%nat then
    let old_pubkey := Builder.pubkey <$> builders !! new_index in
    modify (set_builders (<[new_index := builder]> builders));;
    s ← get;
    let cache := s.(State.caches).(Caches.builder_pubkey_cache) in
    let cache := match old_pubkey with Some old => BuilderPubkeyCache.remove old cache | None => cache end in
    modify (set_builder_pubkey_cache (BuilderPubkeyCache.insert pubkey new_index cache))
  else
    let new_idx := length builders in
    builders' ← try (Milhouse.push spec.(Spec.builder_registry_limit) builder builders);
    modify (set_builders builders');;
    s ← get;
    modify (set_builder_pubkey_cache
      (BuilderPubkeyCache.insert pubkey new_idx s.(State.caches).(Caches.builder_pubkey_cache))).

Definition apply_deposit_for_builder (r : DepositRequest.t) (slot : Slot) : EpM unit :=
  s ← get;
  match BuilderPubkeyCache.get r.(DepositRequest.pubkey) s.(State.caches).(Caches.builder_pubkey_cache) with
  | Some index =>
      builders ← try (st_builders s);
      builder ← try (ok_or (builders !! index) (BeaconStateError.UnknownValidator index));
      modify (set_builders
        (<[index := Builder.set_balance (u64_saturating_add builder.(Builder.balance) r.(DepositRequest.amount)) builder]>
           builders))
  | None =>
      if negb (deposit_signature (DepositRequest.data r)) then mret tt
      else
        builders ← try (st_builders s);
        let new_index := get_index_for_new_builder builders (epoch (State.slot s) spe) in
        let credentials := r.(DepositRequest.withdrawal_credentials) in
        register_builder
          (Builder.mk r.(DepositRequest.pubkey) (credential_prefix credentials) (credential_address credentials)
             r.(DepositRequest.amount) (epoch slot spe) spec.(Spec.far_future_epoch)) new_index
  end.

Definition process_deposit_request_gloas (r : DepositRequest.t) : EpM unit :=
  s ← get;
  let slot := State.slot s in
  let pubkey := r.(DepositRequest.pubkey) in
  let is_builder := bool_decide (is_Some
    (BuilderPubkeyCache.get pubkey s.(State.caches).(Caches.builder_pubkey_cache))) in
  let is_validator := bool_decide (is_Some (get_pubkey_index s pubkey)) in
  if is_builder || (is_builder_withdrawal_credential r.(DepositRequest.withdrawal_credentials)
                    && negb is_validator && negb (is_pending_validator s pubkey))
  then apply_deposit_for_builder r slot
  else call (push_pending_deposit spec (pending_deposit (DepositRequest.data r) slot)).

Definition process_deposit_request (r : DepositRequest.t) : EpM unit :=
  s ← get;
  if ForkName.ge (State.fork_name s) ForkName.Gloas then process_deposit_request_gloas r
  else
    start ← try (st_deposit_requests_start_index s);
    when (start =? spec.(Spec.unset_deposit_requests_start_index))
      (modify (State.on_queues (Queues.set_deposit_requests_start_index r.(DepositRequest.index))));;
    push_if_queue (pending_deposit (DepositRequest.data r) (State.slot s));;
    mret tt.
Definition process_deposit_requests (l : list DepositRequest.t) : EpM unit :=
  s ← get;
  when (ForkName.ge (State.fork_name s) ForkName.Gloas) (call update_builder_pubkey_cache);;
  for_each l process_deposit_request.

(** ** Consolidation requests *)
Definition is_valid_switch_to_compounding_request (s : State.t) (r : ConsolidationRequest.t)
    : outcome BlockProcessingError.t bool :=
  if negb (r.(ConsolidationRequest.source_pubkey) =? r.(ConsolidationRequest.target_pubkey)) then Ok false
  else
    match get_pubkey_index s r.(ConsolidationRequest.source_pubkey) with
    | None => Ok false
    | Some source_index =>
        v ← into (get_validator s source_index);
        Ok (has_eth1_withdrawal_credential spec v
            && (credential_address v.(Validator.withdrawal_credentials) =? r.(ConsolidationRequest.source_address))
            && Validator.is_active_at v (current_epoch spec s)
            && (v.(Validator.exit_epoch) =? spec.(Spec.far_future_epoch)))
    end.

(** The checks on source and target; [false] ignores the request. *)
Definition is_consolidation_allowed (s : State.t) (r : ConsolidationRequest.t) (source_index target_index : nat)
    (source : Validator.t) : outcome BlockProcessingError.t bool :=
  let e := current_epoch spec s in
  let address_matches :=
    match get_execution_withdrawal_address spec source with
    | Some address => address =? r.(ConsolidationRequest.source_address)
    | None => false
    end in
  if negb address_matches then Ok false
  else
    target ← into (get_validator s target_index);
    if negb (has_compounding_withdrawal_credential spec target) then Ok false
    else if negb (Validator.is_active_at source e) || negb (Validator.is_active_at target e) then Ok false
    else if negb (source.(Validator.exit_epoch) =? spec.(Spec.far_future_epoch))
            || negb (target.(Validator.exit_epoch) =? spec.(Spec.far_future_epoch)) then Ok false
    else
      earliest ← into (safe_add source.(Validator.activation_epoch) spec.(Spec.shard_committee_period));
      if e <? earliest then Ok false
      else pending ← into (get_pending_balance_to_withdraw s source_index); Ok (negb (0 <? pending)).

Definition queue_consolidation (source_index target_index : nat) (source : Validator.t) : EpM unit :=
  exit_epoch ← call (compute_consolidation_epoch_and_update_churn spec source.(Validator.effective_balance));
  call (update_validator source_index (fun v => ValidatorOps.set_exit exit_epoch v.(Validator.withdrawable_epoch) v));;
  withdrawable ← try (safe_add exit_epoch spec.(Spec.min_validator_withdrawability_delay));
  call (update_validator source_index (ValidatorOps.set_exit exit_epoch withdrawable));;
  s ← get;
  l ← try (st_pending_consolidations s);
  l' ← try (Milhouse.push spec.(Spec.pending_consolidations_limit)
              (PendingConsolidation.mk (Z.of_nat source_index) (Z.of_nat target_index)) l);
  modify (State.on_queues (Queues.set_pending_consolidations l')).

Definition process_consolidation_request (r : ConsolidationRequest.t) : EpM unit :=
  s ← get;
  switch ← lift (is_valid_switch_to_compounding_request s r);
  if switch : bool then
    match get_pubkey_index s r.(ConsolidationRequest.source_pubkey) with
    | None => mret tt
    | Some source_index => call (switch_to_compounding_validator spec source_index)
    end
  else if r.(ConsolidationRequest.source_pubkey) =? r.(ConsolidationRequest.target_pubkey) then mret tt
  else
    consolidations ← try (st_pending_consolidations s);
    if Z.of_nat (length consolidations) =? spec.(Spec.pending_consolidations_limit) then mret tt
    else
      churn ← try (get_consolidation_churn_limit spec s);
      if churn <=? spec.(Spec.min_activation_balance) then mret tt
      else
        match get_pubkey_index s r.(ConsolidationRequest.source_pubkey),
              get_pubkey_index s r.(ConsolidationRequest.target_pubkey) with
        | Some source_index, Some target_index =>
            source ← try (get_validator s source_index);
            allowed ← lift (is_consolidation_allowed s r source_index target_index source);
            when allowed (queue_consolidation source_index target_index source)
        | _, _ => mret tt
        end.
Definition process_consolidation_requests (l : list ConsolidationRequest.t) : EpM unit :=
  for_each l process_consolidation_request.
End requests.
