(* ===== verification/BlockProcessingDefs.v ===== *)
(** * Processing a block and a payload envelope

    [state_processing/src/per_block_processing.rs],
    [per_block_processing/altair/sync_committee.rs] and
    [envelope_processing.rs]: the header, RANDAO and eth1 data of a block, the
    withdrawals and the payload before Gloas, all operations in order, the sync
    aggregate, and the envelope that delivers a payload from Gloas on.

    The parameters of the earlier files are joined by the tree hashes
    [header_root], [state_root] and [withdrawals_root] and by [bulk_valid], the
    verification of all signatures of a block at once.  A payload in a block is
    the header that [to_execution_payload_header] makes of it. *)
From S2P Require Import Prelude SlotEpoch ProtoArrayDefs ForkChoiceDefs ForkSchedule BeaconStateDefs.
From S2P Require Import ValidatorDefs ShuffleDefs CommitteeDefs MerkleDefs SlashingDefs DoppelgangerDefs ValidatorStoreDefs.
From S2P Require Import StateDefs RegistryDefs BlockDefs EpbsDefs EpochCacheDefs OperationsDefs RequestDefs.

(** A block with its variant; the optional fields of the body are those that some
    variants lack. *)
Module SignedBlock.
Record t : Type := mk {
  variant : ForkName.t;
  slot : Slot;
  proposer_index : Z;
  parent_root : Hash256;
  body_root : Hash256;
  block_root : Hash256;
  signature : Z;
  randao_reveal : list Z;
  eth1_data : Eth1Data.t;
  proposer_slashings : list ProposerSlashing.t;
  attester_slashings : list AttesterSlashing.t;
  attestations : list BlockAttestation.t;
  deposits : list Deposit.t;
  voluntary_exits : list SignedVoluntaryExit.t;
  sync_aggregate : option SyncAggregate.t;
  execution_payload : option ExecutionPayloadHeader.t;
  bls_to_execution_changes : option (list SignedBlsToExecutionChange.t);
  blob_kzg_commitments : option (list Z);
  execution_requests : option ExecutionRequests.t;
  signed_execution_payload_bid : option SignedBid.t;
  payload_attestations : option (list PayloadAttestation.t);
}.
(** [temporary_block_header]: the state root is filled in later. *)
Definition temporary_block_header (b : t) : BeaconBlockHeader.t :=
  BeaconBlockHeader.mk b.(slot) b.(proposer_index) b.(parent_root) 0 b.(body_root).
End SignedBlock.

Module BlockSignatureStrategy.
Inductive t : Type := NoVerification | VerifyIndividual | VerifyBulk | VerifyRandao.
#[global] Instance eq_dec : EqDecision t.
Proof. solve_decision. Defined.
End BlockSignatureStrategy.

Module EnvelopeProcessingError.
Inductive t : Type :=
  | BadSignature
  | BeaconStateError (e : BeaconStateError.t)
  | BlockProcessingError (e : BlockProcessingError.t)
  | ArithError (e : ArithError)
  | LatestBlockHeaderMismatch (envelope_root block_header_root : Hash256)
  | SlotMismatch (envelope_slot parent_state_slot : Slot)
  | WithdrawalsRootMismatch
  | BuilderIndexMismatch (committed_bid envelope : Z)
  | GasLimitMismatch (committed_bid envelope : Z)
  | BlockHashMismatch (committed_bid envelope : ExecutionBlockHash)
  | ParentHashMismatch (state envelope : ExecutionBlockHash)
  | PrevRandaoMismatch (committed_bid envelope : Hash256)
  | TimestampMismatch (state envelope : Z)
  | InvalidStateRoot (state envelope : Hash256)
  | BitFieldError (i : nat)
  | BuilderPaymentIndexOutOfBounds (i : nat).
End EnvelopeProcessingError.
#[export] Instance state_envelope_error : From BeaconStateError.t EnvelopeProcessingError.t :=
  EnvelopeProcessingError.BeaconStateError.
#[export] Instance block_envelope_error : From BlockProcessingError.t EnvelopeProcessingError.t :=
  EnvelopeProcessingError.BlockProcessingError.
#[export] Instance arith_envelope_error : From ArithError EnvelopeProcessingError.t := EnvelopeProcessingError.ArithError.

(** [envelope_verify!]. *)
Definition envelope_verify (condition : bool) (e : EnvelopeProcessingError.t) : outcome EnvelopeProcessingError.t unit :=
  if condition then Ok tt else Err e.

Section block.
Context (hash : list Z → list Z) (hash2 : Hash256 → Hash256 → Hash256).
Context (spec : Spec.t) (forks : ForkSpec.t) (fuel : nat).
Context (signature_set : State.t → Signed.t → outcome SignatureSetError.t bool).
Context (signature_valid : State.t → Signed.t → bool) (decompress : PublicKeyBytes → bool).
Context (bulk_valid : State.t → SignedBlock.t → bool).
Context (deposit_signature : DepositData.t → bool).
Context (attestation_root : BlockAttestation.t → Hash256) (deposit_root : DepositData.t → Hash256).
Context (header_root : BeaconBlockHeader.t → Hash256) (state_root : State.t → outcome BeaconStateError.t Hash256).
Context (withdrawals_root : list Withdrawal.t → Hash256) (bls_credentials : PublicKeyBytes → Z).
Abbreviation spe := (spec.(Spec.slots_per_epoch)).
Abbreviation get_proposer_index := (get_proposer_index hash spec fuel).

(** ** Header, RANDAO and eth1 data *)
Definition set_latest_block_header (h : BeaconBlockHeader.t) : State.t → State.t :=
  State.on_chain (Chain.set_latest_block_header h).
Definition process_block_header (h : BeaconBlockHeader.t) (verify_block_root : bool)
    : M Block.t (BlockOperationError.t HeaderInvalid.t) Z :=
  b ← get;
  let s := b.(Block.state) in
  let latest := State.latest_block_header s in
  lift (verify (h.(BeaconBlockHeader.slot) =? State.slot s) HeaderInvalid.StateSlotMismatch);;
  lift (verify (latest.(BeaconBlockHeader.slot) <? h.(BeaconBlockHeader.slot))
    (HeaderInvalid.OlderThanLatestBlockHeader latest.(BeaconBlockHeader.slot) h.(BeaconBlockHeader.slot)));;
  let proposer_index := h.(BeaconBlockHeader.proposer_index) in
  state_proposer_index ← call get_proposer_index;
  lift (verify (proposer_index =? state_proposer_index)
    (HeaderInvalid.ProposerIndexMismatch proposer_index state_proposer_index));;
  (if verify_block_root then
     let expected := header_root latest in
     lift (verify (h.(BeaconBlockHeader.parent_root) =? expected)
       (HeaderInvalid.ParentBlockRootMismatch expected h.(BeaconBlockHeader.parent_root)))
   else mret tt);;
  on_state (modify (fun s =>
    State.on_caches (Caches.set_slashings_cache
      (SlashingsCache.update_latest_block_slot h.(BeaconBlockHeader.slot) s.(State.caches).(Caches.slashings_cache))) s));;
  on_state (modify (set_latest_block_header h));;
  b ← get;
  proposer ← try (get_validator b.(Block.state) (Z.to_nat proposer_index));
  lift (verify (negb proposer.(Validator.slashed)) (HeaderInvalid.ProposerSlashed proposer_index));;
  mret proposer_index.

Definition verify_block_signature (block : SignedBlock.t) : M Block.t (BlockOperationError.t HeaderInvalid.t) unit :=
  b ← get;
  try (ConsensusContext.check_slot block.(SignedBlock.slot) b.(Block.ctxt));;
  proposer_index ← call get_proposer_index;
  valid ← try (signature_set b.(Block.state)
                 (Signed.Block proposer_index block.(SignedBlock.slot) block.(SignedBlock.block_root)
                    block.(SignedBlock.signature)));
  lift (verify valid HeaderInvalid.ProposalSignatureInvalid).

Definition process_randao (block : SignedBlock.t) (verify_signatures : bool) : BlM unit :=
  (if verify_signatures then
     proposer_index ← call get_proposer_index;
     b ← get;
     valid ← try (signature_set b.(Block.state)
                    (Signed.Randao proposer_index block.(SignedBlock.slot) block.(SignedBlock.randao_reveal)));
     lift (block_verify valid BlockProcessingError.RandaoSignatureInvalid)
   else mret tt);;
  b ← get;
  call (on_state (update_randao_mix hash spec (current_epoch spec b.(Block.state)) block.(SignedBlock.randao_reveal))).

Definition get_new_eth1_data (s : State.t) (eth1_data : Eth1Data.t) : outcome ArithError (option Eth1Data.t) :=
  let num_votes := length (filter (fun vote => vote = eth1_data) s.(State.chain).(Chain.eth1_data_votes)) in
  n ← safe_add (Z.of_nat num_votes) 1;
  n ← safe_mul n 2;
  Ok (if spec.(Spec.slots_per_eth1_voting_period) <? n then Some eth1_data else None).
Definition process_eth1_data (eth1_data : Eth1Data.t) : StM unit :=
  s ← get;
  new ← try (get_new_eth1_data s eth1_data);
  match new with
  | Some d => modify (State.on_chain (Chain.set_eth1_data d))
  | None => mret tt
  end;;
  votes ← try (Milhouse.push spec.(Spec.slots_per_eth1_voting_period) eth1_data s.(State.chain).(Chain.eth1_data_votes));
  modify (State.on_chain (Chain.set_eth1_data_votes votes)).

(** ** The payload in the block, from Bellatrix to Fulu *)
Definition st_latest_execution_payload_header (s : State.t) : outcome BeaconStateError.t ExecutionPayloadHeader.t :=
  if ForkName.ge (State.fork_name s) ForkName.Bellatrix && negb (ForkName.ge (State.fork_name s) ForkName.Gloas)
  then Ok s.(State.chain).(Chain.latest_execution_payload_header)
  else Err BeaconStateError.IncorrectStateVariant.
Definition is_merge_transition_complete (s : State.t) : bool :=
  if ForkName.ge (State.fork_name s) ForkName.Capella then true
  else if ForkName.ge (State.fork_name s) ForkName.Bellatrix then
    match st_latest_execution_payload_header s with
    | Ok header => negb header.(ExecutionPayloadHeader.is_default_with_zero_roots)
    | _ => false
    end
  else false.
Definition is_merge_transition_block (s : State.t) (payload : option ExecutionPayloadHeader.t) : bool :=
  match payload with
  | Some payload =>
      negb (is_merge_transition_complete s) && negb payload.(ExecutionPayloadHeader.is_default_with_empty_roots)
  | None => false
  end.
Definition is_execution_enabled (s : State.t) (payload : option ExecutionPayloadHeader.t) : bool :=
  if ForkName.ge (State.fork_name s) ForkName.Gloas then false
  else is_merge_transition_block s payload || is_merge_transition_complete s.
Definition compute_timestamp_at_slot (s : State.t) (block_slot : Slot) : outcome ArithError Z :=
  n ← safe_sub block_slot spec.(Spec.genesis_slot);
  n ← safe_mul n spec.(Spec.seconds_per_slot);
  safe_add s.(State.chain).(Chain.genesis_time) n.

Definition partially_verify_execution_payload (s : State.t) (block_slot : Slot) (payload : ExecutionPayloadHeader.t)
    (commitments : option (list Z)) : outcome BlockProcessingError.t unit :=
  (if is_merge_transition_complete s then
     header ← into (st_latest_execution_payload_header s);
     block_verify (payload.(ExecutionPayloadHeader.parent_hash) =? header.(ExecutionPayloadHeader.block_hash))
       (BlockProcessingError.ExecutionHashChainIncontiguous header.(ExecutionPayloadHeader.block_hash)
          payload.(ExecutionPayloadHeader.parent_hash))
   else Ok tt);;
  mix ← into (get_randao_mix spec s (current_epoch spec s));
  block_verify (payload.(ExecutionPayloadHeader.prev_randao) =? mix)
    (BlockProcessingError.ExecutionRandaoMismatch mix payload.(ExecutionPayloadHeader.prev_randao));;
  timestamp ← into (compute_timestamp_at_slot s block_slot);
  block_verify (payload.(ExecutionPayloadHeader.timestamp) =? timestamp)
    (BlockProcessingError.ExecutionInvalidTimestamp timestamp payload.(ExecutionPayloadHeader.timestamp));;
  match commitments with
  | Some l =>
      let max := max_blobs_per_block spec forks (epoch block_slot spe) in
      block_verify (Z.of_nat (length l) <=? max) (BlockProcessingError.ExecutionInvalidBlobsLen (Z.to_nat max) (length l))
  | None => Ok tt
  end.
Definition process_execution_payload (payload : ExecutionPayloadHeader.t) (commitments : option (list Z)) : EpM unit :=
  s ← get;
  lift (partially_verify_execution_payload s (State.slot s) payload commitments);;
  try (st_latest_execution_payload_header s);;
  if bool_decide (payload.(ExecutionPayloadHeader.variant) = State.fork_name s)
  then modify (State.on_chain (Chain.set_latest_execution_payload_header payload))
  else throw BlockProcessingError.IncorrectStateType.

(** ** Withdrawals from Capella to Fulu *)
(** Here an amount that exceeds the balance is an error, and the sweep stops at
    the first full set. *)
Definition exact_balance (s : State.t) (validator_index : Z) (p : Payout.t) : outcome BlockProcessingError.t Z :=
  withdrawn ← into (sum_withdrawn validator_index p.(Payout.withdrawals) 0);
  balance ← into (get_balance s (Z.to_nat validator_index));
  into (safe_sub balance withdrawn).
Definition expected_partial (s : State.t) (w : PendingPartialWithdrawal.t) (p : Payout.t)
    : outcome BlockProcessingError.t Payout.t :=
  let i := w.(PendingPartialWithdrawal.validator_index) in
  validator ← into (get_validator s (Z.to_nat i));
  balance ← exact_balance s i p;
  if (validator.(Validator.exit_epoch) =? spec.(Spec.far_future_epoch))
     && (spec.(Spec.min_activation_balance) <=? validator.(Validator.effective_balance))
     && (spec.(Spec.min_activation_balance) <? balance)
  then
    excess ← into (safe_sub balance spec.(Spec.min_activation_balance));
    address ← ok_or (get_execution_withdrawal_address spec validator)
                (BlockProcessingError.BeaconStateError BeaconStateError.NonExecutionAddressWithdrawalCredential);
    Payout.push i address (Z.min excess w.(PendingPartialWithdrawal.amount)) p
  else Ok p.
Fixpoint expected_partials (s : State.t) (l : list PendingPartialWithdrawal.t) (p : Payout.t)
    : outcome BlockProcessingError.t Payout.t :=
  match l with
  | [] => Ok p
  | w :: rest =>
      if (current_epoch spec s <? w.(PendingPartialWithdrawal.withdrawable_epoch))
         || (Payout.len p =? spec.(Spec.max_pending_partials_per_withdrawals_sweep))
      then Ok p
      else p ← expected_partial s w p; expected_partials s rest (Payout.tick p)
  end.
Definition expected_validator (s : State.t) (validator_index : Z) (p : Payout.t)
    : outcome BlockProcessingError.t Payout.t :=
  let f := State.fork_name s in
  validator ← into (get_validator s (Z.to_nat validator_index));
  balance ← exact_balance s validator_index p;
  let address := ok_or (get_execution_withdrawal_address spec validator)
                   BlockProcessingError.WithdrawalCredentialsInvalid in
  if ValidatorOps.is_fully_withdrawable_validator spec validator balance (current_epoch spec s) f then
    a ← address; Payout.push validator_index a balance p
  else if ValidatorOps.is_partially_withdrawable_validator spec validator balance f then
    a ← address;
    excess ← into (safe_sub balance (get_max_effective_balance spec validator f));
    Payout.push validator_index a excess p
  else Ok p.
Fixpoint expected_sweep (s : State.t) (n : nat) (validator_index : Z) (p : Payout.t)
    : outcome BlockProcessingError.t Payout.t :=
  match n with
  | O => Ok p
  | S n' =>
      p ← expected_validator s validator_index p;
      if Payout.len p =? spec.(Spec.max_withdrawals_per_payload) then Ok p
      else
        next ← into (safe_add validator_index 1);
        next ← into (safe_rem next (Z.of_nat (length (State.validators s))));
        expected_sweep s n' next p
  end.
Definition get_expected_withdrawals (s : State.t) : outcome BlockProcessingError.t (list Withdrawal.t * option nat) :=
  next_index ← into (st_next_withdrawal_index s);
  validator_index ← into (st_next_withdrawal_validator_index s);
  let p0 := Payout.mk [] next_index 0 in
  '(p1, count) ←
    match st_pending_partial_withdrawals s with
    | Ok partials => p ← expected_partials s partials p0; Ok (p, Some p.(Payout.processed))
    | _ => Ok (p0, None)
    end;
  let bound := Z.min (Z.of_nat (length (State.validators s))) spec.(Spec.max_validators_per_withdrawals_sweep) in
  p2 ← expected_sweep s (Z.to_nat bound) validator_index p1;
  Ok (p2.(Payout.withdrawals), count).
Definition advance_withdrawal_cursor (withdrawals : list Withdrawal.t) : EpM unit :=
  let full := Z.of_nat (length withdrawals) =? spec.(Spec.max_withdrawals_per_payload) in
  match list.last withdrawals with
  | Some latest =>
      next ← try (safe_add latest.(Withdrawal.index) 1);
      modify (State.on_registry (Registry.set_next_withdrawal_index next));;
      when full (
        s ← get;
        n ← try (safe_add latest.(Withdrawal.validator_index) 1);
        n ← try (safe_rem n (Z.of_nat (length (State.validators s))));
        modify (State.on_registry (Registry.set_next_withdrawal_validator_index n)))
  | None => mret tt
  end;;
  when (negb full) (
    s ← get;
    current ← try (st_next_withdrawal_validator_index s);
    n ← try (safe_add current spec.(Spec.max_validators_per_withdrawals_sweep));
    n ← try (safe_rem n (Z.of_nat (length (State.validators s))));
    modify (State.on_registry (Registry.set_next_withdrawal_validator_index n))).
Definition process_withdrawals (payload : ExecutionPayloadHeader.t) : EpM unit :=
  s ← get;
  when (ForkName.ge (State.fork_name s) ForkName.Capella) (
    '(withdrawals, partial_count) ← lift (get_expected_withdrawals s);
    let expected_root := withdrawals_root withdrawals in
    lift (block_verify (expected_root =? payload.(ExecutionPayloadHeader.withdrawals_root))
      (BlockProcessingError.WithdrawalsRootMismatch expected_root payload.(ExecutionPayloadHeader.withdrawals_root)));;
    for_each withdrawals (fun w =>
      call (decrease_balance (Z.to_nat w.(Withdrawal.validator_index)) w.(Withdrawal.amount)));;
    match partial_count with
    | Some n =>
        s ← get;
        partials ← try (st_pending_partial_withdrawals s);
        partials' ← try (Milhouse.pop_front n partials);
        modify (State.on_queues (Queues.set_pending_partial_withdrawals partials'))
    | None => mret tt
    end;;
    advance_withdrawal_cursor withdrawals).

(** ** Operations *)
Definition process_operations (block : SignedBlock.t) (verify_signatures : bool) : BlM unit :=
  process_proposer_slashings hash spec fuel signature_set block.(SignedBlock.proposer_slashings) verify_signatures;;
  process_attester_slashings hash spec fuel signature_set block.(SignedBlock.attester_slashings) verify_signatures;;
  process_attestations hash spec forks fuel signature_set attestation_root block.(SignedBlock.attestations)
    verify_signatures;;
  on_state (process_deposits hash2 spec deposit_signature deposit_root block.(SignedBlock.deposits));;
  on_state (process_exits spec signature_set block.(SignedBlock.voluntary_exits) verify_signatures);;
  match block.(SignedBlock.bls_to_execution_changes) with
  | Some changes => on_state (process_bls_to_execution_changes spec signature_set bls_credentials changes verify_signatures)
  | None => mret tt
  end;;
  match block.(SignedBlock.execution_requests) with
  | Some requests =>
      call (on_state update_pubkey_cache);;
      on_state (process_deposit_requests spec deposit_signature requests.(ExecutionRequests.deposits));;
      on_state (process_withdrawal_requests spec requests.(ExecutionRequests.withdrawals));;
      on_state (process_consolidation_requests spec requests.(ExecutionRequests.consolidations))
  | None => mret tt
  end;;
  b ← get;
  when (ForkName.ge (State.fork_name b.(Block.state)) ForkName.Gloas) (
    match block.(SignedBlock.payload_attestations) with
    | Some attestations =>
        for_each attestations (fun a =>
          on_state (process_payload_attestation hash spec fuel signature_valid decompress a verify_signatures))
    | None => mret tt
    end).

(** ** The sync aggregate *)
Definition compute_sync_aggregate_rewards (s : State.t) : outcome BlockProcessingError.t (Z * Z) :=
  total_active_balance ← into (get_total_active_balance spe s.(State.core));
  increments ← into (safe_div total_active_balance spec.(Spec.effective_balance_increment));
  per_increment ← into (get_base_reward_per_increment spec total_active_balance);
  total ← into (safe_mul per_increment increments);
  n ← into (safe_mul total SYNC_REWARD_WEIGHT);
  n ← into (safe_div n WEIGHT_DENOMINATOR);
  n ← into (safe_div n spe);
  participant_reward ← into (safe_div n spec.(Spec.sync_committee_size));
  n ← into (safe_mul participant_reward PROPOSER_WEIGHT);
  d ← into (safe_sub WEIGHT_DENOMINATOR PROPOSER_WEIGHT);
  proposer_reward ← into (safe_div n d);
  Ok (participant_reward, proposer_reward).
Fixpoint committee_indices (s : State.t) (pubkeys : list PublicKeyBytes) : outcome BeaconStateError.t (list nat) :=
  match pubkeys with
  | [] => Ok []
  | pubkey :: rest =>
      i ← ok_or (get_pubkey_index s pubkey) BeaconStateError.PubkeyCacheInconsistent;
      indices ← committee_indices s rest;
      Ok (i :: indices)
  end.
(** The loop over the committee and its bits; the balance of the proposer is kept
    in [proposer_balance] and written back at the end. *)
Fixpoint sync_loop (proposer_index : nat) (participant_reward proposer_reward : Z) (members : list (nat * bool))
    (proposer_balance : Z) : EpM Z :=
  match members with
  | [] => mret proposer_balance
  | (participant_index, bit) :: rest =>
      proposer_balance' ←
        (if bit : bool then
           balance ←
             (if (participant_index =? proposer_index)%nat then try (safe_add proposer_balance participant_reward)
              else call (increase_balance participant_index participant_reward);; mret proposer_balance);
           try (safe_add balance proposer_reward)
         else if (participant_index =? proposer_index)%nat then
           mret (u64_saturating_sub proposer_balance participant_reward)
         else call (decrease_balance participant_index participant_reward);; mret proposer_balance);
      sync_loop proposer_index participant_reward proposer_reward rest proposer_balance'
  end.
Definition process_sync_aggregate (aggregate : SyncAggregate.t) (proposer_index : Z) (verify_signatures : bool) : EpM unit :=
  s ← get;
  (if verify_signatures then
     previous_block_root ← try (get_block_root s.(State.core) (u64_saturating_sub (State.slot s) 1));
     valid ← try (signature_set s (Signed.Sync aggregate (State.slot s) previous_block_root));
     if valid : bool then mret tt else throw BlockProcessingError.SyncAggregateInvalid
   else mret tt);;
  '(participant_reward, proposer_reward) ← lift (compute_sync_aggregate_rewards s);
  call update_pubkey_cache;;
  s ← get;
  committee ← try (st_current_sync_committee s);
  indices ← try (committee_indices s committee.(SyncCommittee.pubkeys));
  let proposer_index := Z.to_nat proposer_index in
  proposer_balance ← try (get_balance s proposer_index);
  proposer_balance' ← sync_loop proposer_index participant_reward proposer_reward
                        (zip indices aggregate.(SyncAggregate.sync_committee_bits)) proposer_balance;
  s ← get;
  _ ← try (get_balance s proposer_index);
  modify (set_balances (<[proposer_index := proposer_balance']> s.(State.registry).(Registry.balances))).

(** ** A block *)
Definition check_state_fork (s : State.t) : outcome BlockProcessingError.t unit :=
  let at_slot := fork_name_at_epoch forks (current_epoch spec s) in
  if bool_decide (at_slot = State.fork_name s) then Ok tt
  else Err (BlockProcessingError.InconsistentStateFork at_slot (State.fork_name s)).
Definition check_block_fork (block : SignedBlock.t) : outcome BlockProcessingError.t unit :=
  let at_slot := fork_name_at_epoch forks (epoch block.(SignedBlock.slot) spe) in
  if bool_decide (at_slot = block.(SignedBlock.variant)) then Ok tt
  else Err (BlockProcessingError.InconsistentBlockFork at_slot block.(SignedBlock.variant)).

(** Withdrawals and the bid from Gloas on, the payload before. *)
Definition process_payload_of_block (block : SignedBlock.t) (is_gloas verify_signatures : bool) : EpM unit :=
  if is_gloas then
    process_withdrawals_gloas spec;;
    match block.(SignedBlock.signed_execution_payload_bid) with
    | Some signed_bid =>
        s ← get;
        process_execution_payload_bid spec forks signature_valid decompress signed_bid (State.slot s)
          (State.latest_block_header s).(BeaconBlockHeader.parent_root) verify_signatures
    | None => mret tt
    end
  else
    s ← get;
    when (is_execution_enabled s block.(SignedBlock.execution_payload)) (
      payload ← lift (ok_or block.(SignedBlock.execution_payload)
                        (BlockProcessingError.BeaconStateError BeaconStateError.IncorrectStateVariant));
      process_withdrawals payload;;
      process_execution_payload payload block.(SignedBlock.blob_kzg_commitments)).

Definition per_block_processing (block : SignedBlock.t) (strategy : BlockSignatureStrategy.t) (verify_block_root : bool)
    : BlM unit :=
  b ← get;
  lift (check_block_fork block);;
  lift (check_state_fork b.(Block.state));;
  call (on_state (initialize_epoch_cache spec forks));;
  call (on_state (on_core (initialize_progressive_balances_cache spe spec.(Spec.effective_balance_increment))));;
  call (on_state build_slashings_cache);;
  b ← get;
  (if bool_decide (strategy = BlockSignatureStrategy.VerifyBulk)
   then lift (block_verify (bulk_valid b.(Block.state) block) BlockProcessingError.BulkSignatureVerificationFailed)
   else mret tt);;
  let verify_signatures := bool_decide (strategy = BlockSignatureStrategy.VerifyIndividual) in
  let is_gloas := ForkName.ge (State.fork_name b.(Block.state)) ForkName.Gloas in
  proposer_index ← call (process_block_header (SignedBlock.temporary_block_header block) verify_block_root);
  when verify_signatures (call (verify_block_signature block));;
  let verify_randao := verify_signatures || bool_decide (strategy = BlockSignatureStrategy.VerifyRandao) in
  call (on_state (build_committee_cache hash spec Previous));;
  call (on_state (build_committee_cache hash spec Current));;
  on_state (process_payload_of_block block is_gloas verify_signatures);;
  process_randao block verify_randao;;
  call (on_state (process_eth1_data block.(SignedBlock.eth1_data)));;
  process_operations block verify_signatures;;
  match block.(SignedBlock.sync_aggregate) with
  | Some aggregate => on_state (process_sync_aggregate aggregate proposer_index verify_signatures)
  | None => mret tt
  end.

(** ** The envelope of a payload *)
Abbreviation EnM := (M State.t EnvelopeProcessingError.t).

Definition fill_header_state_root (parent_state_root : option Hash256) : EnM unit :=
  s ← get;
  let h := State.latest_block_header s in
  when (h.(BeaconBlockHeader.state_root) =? 0) (
    root ← match parent_state_root with Some root => mret root | None => try (state_root s) end;
    modify (set_latest_block_header (set_state_root root h))).

(** The checks of the envelope against the header and the committed bid. *)
Definition check_envelope (s : State.t) (envelope : SignedEnvelope.t) : outcome EnvelopeProcessingError.t unit :=
  let payload := envelope.(SignedEnvelope.payload) in
  let latest_root := header_root (State.latest_block_header s) in
  envelope_verify (envelope.(SignedEnvelope.beacon_block_root) =? latest_root)
    (EnvelopeProcessingError.LatestBlockHeaderMismatch envelope.(SignedEnvelope.beacon_block_root) latest_root);;
  envelope_verify (envelope.(SignedEnvelope.slot) =? State.slot s)
    (EnvelopeProcessingError.SlotMismatch envelope.(SignedEnvelope.slot) (State.slot s));;
  bid ← into (st_latest_execution_payload_bid s);
  envelope_verify (envelope.(SignedEnvelope.builder_index) =? bid.(PayloadBid.builder_index))
    (EnvelopeProcessingError.BuilderIndexMismatch bid.(PayloadBid.builder_index) envelope.(SignedEnvelope.builder_index));;
  envelope_verify (bid.(PayloadBid.prev_randao) =? payload.(ExecutionPayload.prev_randao))
    (EnvelopeProcessingError.PrevRandaoMismatch bid.(PayloadBid.prev_randao) payload.(ExecutionPayload.prev_randao));;
  expected ← into (st_payload_expected_withdrawals s);
  envelope_verify (bool_decide (payload.(ExecutionPayload.withdrawals) = expected))
    EnvelopeProcessingError.WithdrawalsRootMismatch;;
  envelope_verify (bid.(PayloadBid.gas_limit) =? payload.(ExecutionPayload.gas_limit))
    (EnvelopeProcessingError.GasLimitMismatch bid.(PayloadBid.gas_limit) payload.(ExecutionPayload.gas_limit));;
  envelope_verify (bid.(PayloadBid.block_hash) =? payload.(ExecutionPayload.block_hash))
    (EnvelopeProcessingError.BlockHashMismatch bid.(PayloadBid.block_hash) payload.(ExecutionPayload.block_hash));;
  latest_block_hash ← into (st_latest_block_hash s);
  envelope_verify (payload.(ExecutionPayload.parent_hash) =? latest_block_hash)
    (EnvelopeProcessingError.ParentHashMismatch latest_block_hash payload.(ExecutionPayload.parent_hash));;
  timestamp ← into (compute_timestamp_at_slot s (State.slot s));
  envelope_verify (payload.(ExecutionPayload.timestamp) =? timestamp)
    (EnvelopeProcessingError.TimestampMismatch timestamp payload.(ExecutionPayload.timestamp)).

(** Move the payment of the slot to the withdrawals and blank it. *)
Definition settle_payment : EnM unit :=
  s ← get;
  i ← try (payment_index spec (State.slot s));
  payments ← try (st_builder_pending_payments s);
  payment ← lift (ok_or (payments !! i) (EnvelopeProcessingError.BuilderPaymentIndexOutOfBounds i));
  let withdrawal := payment.(BuilderPendingPayment.withdrawal) in
  when (0 <? withdrawal.(BuilderPendingWithdrawal.amount)) (
    pending ← try (st_builder_pending_withdrawals s);
    pending' ← try (into (E' := BeaconStateError.t)
                  (Milhouse.push spec.(Spec.builder_pending_withdrawals_limit) withdrawal pending));
    modify (State.on_epbs (Epbs.set_builder_pending_withdrawals pending')));;
  modify (set_builder_pending_payments (<[i := BuilderPendingPayment.default]> payments)).

Definition mark_payload_available (block_hash : ExecutionBlockHash) : EnM unit :=
  s ← get;
  r ← try (safe_rem (State.slot s) spec.(Spec.slots_per_historical_root));
  let i := Z.to_nat r in
  bits ← try (st_execution_payload_availability s);
  bits' ← lift (set_at bits i true (EnvelopeProcessingError.BitFieldError i));
  modify (State.on_epbs (Epbs.set_execution_payload_availability bits'));;
  modify (State.on_epbs (Epbs.set_latest_block_hash block_hash)).

Definition process_execution_payload_envelope (parent_state_root : option Hash256) (envelope : SignedEnvelope.t)
    (verify_signatures : bool) : EnM unit :=
  s ← get;
  (if verify_signatures then
     match signature_set s
             (Signed.Envelope (State.latest_block_header s).(BeaconBlockHeader.proposer_index) envelope) with
     | Ok true => mret tt
     | _ => throw EnvelopeProcessingError.BadSignature
     end
   else mret tt);;
  let requests := envelope.(SignedEnvelope.execution_requests) in
  fill_header_state_root parent_state_root;;
  s ← get;
  lift (check_envelope s envelope);;
  call (process_deposit_requests spec deposit_signature requests.(ExecutionRequests.deposits));;
  call (process_withdrawal_requests spec requests.(ExecutionRequests.withdrawals));;
  call (process_consolidation_requests spec requests.(ExecutionRequests.consolidations));;
  settle_payment;;
  mark_payload_available envelope.(SignedEnvelope.payload).(ExecutionPayload.block_hash);;
  when verify_signatures (
    s ← get;
    root ← try (state_root s);
    lift (envelope_verify (envelope.(SignedEnvelope.state_root) =? root)
      (EnvelopeProcessingError.InvalidStateRoot root envelope.(SignedEnvelope.state_root)))).
End block.
