(* ===== verification/EpochGloasDefs.v ===== *)
(** * The builders at the end of an epoch

    [state_processing/src/per_epoch_processing/gloas.rs]: the payments of the
    previous epoch that reached the quorum become withdrawals and the window of
    payments moves on; the window of payload timeliness committees is initialised
    at the fork and moves on with the epochs. *)
From S2P Require Import Prelude SlotEpoch ProtoArrayDefs ForkChoiceDefs ForkSchedule BeaconStateDefs.
From S2P Require Import ValidatorDefs ShuffleDefs CommitteeDefs DoppelgangerDefs ValidatorStoreDefs.
From S2P Require Import StateDefs RegistryDefs BlockDefs EpbsDefs JustificationDefs.

Abbreviation EoM := (M State.t EpochProcessingError.t).

Section epoch_gloas.
Context (hash : list Z → list Z) (spec : Spec.t) (fuel : nat).
Abbreviation spe := (spec.(Spec.slots_per_epoch)).

(** ** Payments *)
(** The weight that a payment needs. *)
Definition payment_quorum (s : State.t) : outcome EpochProcessingError.t Z :=
  total_active_balance ← into (get_total_active_balance spe s.(State.core));
  per_slot_balance ← into (safe_div total_active_balance spe);
  n ← into (safe_mul per_slot_balance spec.(Spec.builder_payment_threshold_numerator));
  into (safe_div n spec.(Spec.builder_payment_threshold_denominator)).

Definition qualifying_withdrawals (quorum : Z) (payments : list BuilderPendingPayment.t) : list BuilderPendingWithdrawal.t :=
  BuilderPendingPayment.withdrawal
    <$> filter (fun p => quorum <= p.(BuilderPendingPayment.weight)) (take (Z.to_nat spe) payments).

(** The second half moves to the first and the rest is blank. *)
Definition rotated_payments (payments : list BuilderPendingPayment.t) : list BuilderPendingPayment.t :=
  (fun i =>
     if (i <? Z.to_nat spe)%nat
     then default BuilderPendingPayment.default (payments !! (i + Z.to_nat spe)%nat)
     else BuilderPendingPayment.default) <$> seq 0 (length payments).

Definition push_builder_withdrawal (w : BuilderPendingWithdrawal.t) : EoM unit :=
  s ← get;
  pending ← try (st_builder_pending_withdrawals s);
  pending' ← try (Milhouse.push spec.(Spec.builder_pending_withdrawals_limit) w pending);
  modify (State.on_epbs (Epbs.set_builder_pending_withdrawals pending')).

Definition process_builder_pending_payments : EoM unit :=
  s ← get;
  quorum ← lift (payment_quorum s);
  payments ← try (st_builder_pending_payments s);
  for_each (qualifying_withdrawals quorum payments) push_builder_withdrawal;;
  s ← get;
  payments ← try (st_builder_pending_payments s);
  modify (set_builder_pending_payments (rotated_payments payments)).

(** ** The window of committees *)
(** [FixedVector::new]. *)
Definition fixed_vector {A} (n : Z) (l : list A) : outcome EpochProcessingError.t (list A) :=
  if Z.of_nat (length l) =? n then Ok l else Err EpochProcessingError.SszTypesError.
Definition empty_ptc : list Z := replicate (Z.to_nat spec.(Spec.ptc_size)) 0.

(** The committees of [count] slots from [start_slot + i] on; [compute_ptc] errors
    give an empty committee. *)
Fixpoint window_slots (s : State.t) (start_slot : Slot) (i : Z) (count : nat)
    : outcome EpochProcessingError.t (list (list Z)) :=
  match count with
  | O => Ok []
  | S count' =>
      slot ← into (safe_add start_slot i);
      ptc ← match compute_ptc hash spec fuel s slot with
            | Ok ptc => fixed_vector spec.(Spec.ptc_size) ptc
            | Err _ => fixed_vector spec.(Spec.ptc_size) empty_ptc
            | Panic => Panic
            | Diverge => Diverge
            end;
      rest ← window_slots s start_slot (i + 1) count';
      Ok (ptc :: rest)
  end.
Fixpoint window_epochs (s : State.t) (e : Z) (count : nat) : outcome EpochProcessingError.t (list (list Z)) :=
  match count with
  | O => Ok []
  | S count' =>
      ep ← into (safe_add (current_epoch spec s) e);
      slots ← window_slots s (start_slot ep spe) 0 (Z.to_nat spe);
      rest ← window_epochs s (e + 1) count';
      Ok (slots ++ rest)
  end.
Definition initialize_ptc_window (s : State.t) : outcome EpochProcessingError.t (list (list Z)) :=
  lookahead_epochs ← into (safe_add 1 spec.(Spec.min_seed_lookahead));
  committees ← window_epochs s 0 (Z.to_nat lookahead_epochs);
  fixed_vector spec.(Spec.ptc_window_slots) (replicate (Z.to_nat spe) empty_ptc ++ committees).

(** The entries [i, i + 1, ...] of the window. *)
Fixpoint read_window (window : list (list Z)) (i count : nat) : outcome EpochProcessingError.t (list (list Z)) :=
  match count with
  | O => Ok []
  | S count' =>
      ptc ← ok_or (window !! i) (EpochProcessingError.PtcWindowOutOfBounds i);
      rest ← read_window window (S i) count';
      Ok (ptc :: rest)
  end.
(** Here only a slot without members has an empty committee. *)
Fixpoint lookahead_slots (s : State.t) (cache : CommitteeCache.t) (start_slot : Slot) (i : Z) (count : nat)
    : outcome EpochProcessingError.t (list (list Z)) :=
  match count with
  | O => Ok []
  | S count' =>
      slot ← into (safe_add start_slot i);
      ptc ← match compute_ptc_from_committees hash spec fuel s slot cache with
            | Ok ptc => Ok ptc
            | Err (BlockProcessingError.PayloadAttestationInvalid PayloadAttestationInvalid.NoActiveValidators) => Ok empty_ptc
            | Err e => Err (EpochProcessingError.PtcWindowComputeError e)
            | Panic => Panic
            | Diverge => Diverge
            end;
      ptc ← fixed_vector spec.(Spec.ptc_size) ptc;
      rest ← lookahead_slots s cache start_slot (i + 1) count';
      Ok (ptc :: rest)
  end.
(** [get_mut(i)] and an assignment, from position [i] on. *)
Fixpoint write_window (i : nat) (values : list (list Z)) (window : list (list Z)) : list (list Z) :=
  match values with
  | [] => window
  | v :: rest => write_window (S i) rest (<[i := v]> window)
  end.

Definition process_ptc_window : EoM unit :=
  s ← get;
  let window_len := spec.(Spec.ptc_window_slots) in
  ptc_window ← try (st_ptc_window s);
  shifted ← lift (read_window ptc_window (Z.to_nat spe) (Z.to_nat window_len - Z.to_nat spe));
  e ← try (safe_add (current_epoch spec s) spec.(Spec.min_seed_lookahead));
  next_epoch ← try (safe_add e 1);
  lookahead_cache ← try (initialized hash spec (State.validators s) s.(State.chain).(Chain.randao_mixes)
                           (current_epoch spec s) next_epoch);
  new_ptcs ← lift (lookahead_slots s lookahead_cache (start_slot next_epoch spe) 0 (Z.to_nat spe));
  let ptc_window := write_window 0 shifted ptc_window in
  modify (State.on_epbs (Epbs.set_ptc_window ptc_window));;
  last_epoch_start ← try (safe_sub window_len spe);
  modify (State.on_epbs (Epbs.set_ptc_window (write_window (Z.to_nat last_epoch_start) new_ptcs ptc_window))).
End epoch_gloas.
