(* ===== verification/EpochPassDefs.v ===== *)
(** * One pass over the validators at the end of an epoch

    [state_processing/src/per_epoch_processing/single_pass.rs] with [Delta] of
    [per_epoch_processing.rs]: inactivity scores, rewards, registry updates,
    slashings, deposits and effective balances of each validator in turn, then
    the deposits of new validators, consolidations and the caches of the next
    epoch.

    The pass lends several fields of the state to its loop.  A [Cell] holds what
    one validator's turn can change: its own entries and the values that are
    carried along.  The entries are written back whatever the outcome; an error
    drops the carried values that are not part of the state. *)
From S2P Require Import Prelude SlotEpoch ProtoArrayDefs ForkChoiceDefs ForkSchedule BeaconStateDefs.
From S2P Require Import ValidatorDefs ShuffleDefs CommitteeDefs SlashingDefs DoppelgangerDefs ValidatorStoreDefs.
From S2P Require Import StateDefs RegistryDefs BlockDefs EpbsDefs JustificationDefs EpochCacheDefs EpochGloasDefs.

Module SinglePassConfig.
Record t : Type := mk {
  inactivity_updates : bool;
  rewards_and_penalties : bool;
  registry_updates : bool;
  slashings : bool;
  pending_deposits : bool;
  pending_consolidations : bool;
  builder_pending_payments : bool;
  ptc_window : bool;
  effective_balance_updates : bool;
  proposer_lookahead : bool;
}.
Definition set_inactivity_updates (v : bool) (s : t) : t :=
  mk v s.(rewards_and_penalties) s.(registry_updates) s.(slashings) s.(pending_deposits)
    s.(pending_consolidations) s.(builder_pending_payments) s.(ptc_window) s.(effective_balance_updates)
    s.(proposer_lookahead).
Definition set_rewards_and_penalties (v : bool) (s : t) : t :=
  mk s.(inactivity_updates) v s.(registry_updates) s.(slashings) s.(pending_deposits)
    s.(pending_consolidations) s.(builder_pending_payments) s.(ptc_window) s.(effective_balance_updates)
    s.(proposer_lookahead).
Definition set_registry_updates (v : bool) (s : t) : t :=
  mk s.(inactivity_updates) s.(rewards_and_penalties) v s.(slashings) s.(pending_deposits)
    s.(pending_consolidations) s.(builder_pending_payments) s.(ptc_window) s.(effective_balance_updates)
    s.(proposer_lookahead).
Definition set_slashings (v : bool) (s : t) : t :=
  mk s.(inactivity_updates) s.(rewards_and_penalties) s.(registry_updates) v s.(pending_deposits)
    s.(pending_consolidations) s.(builder_pending_payments) s.(ptc_window) s.(effective_balance_updates)
    s.(proposer_lookahead).
Definition set_effective_balance_updates (v : bool) (s : t) : t :=
  mk s.(inactivity_updates) s.(rewards_and_penalties) s.(registry_updates) s.(slashings) s.(pending_deposits)
    s.(pending_consolidations) s.(builder_pending_payments) s.(ptc_window) v s.(proposer_lookahead).
Definition enable_all : t := mk true true true true true true true true true true.
Definition disable_all : t := mk false false false false false false false false false false.
End SinglePassConfig.

(** Values that do not change during the pass. *)
Module StateContext.
Record t : Type := mk {
  current_epoch : Epoch;
  next_epoch : Epoch;
  finalized_checkpoint : Checkpoint.t;
  is_in_inactivity_leak : bool;
  total_active_balance : Z;
  churn_limit : Z;
  fork_name : ForkName.t;
}.
End StateContext.
Module RewardsAndPenaltiesContext.
Record t : Type := mk { unslashed_participating_increments : list Z; active_increments : Z }.
End RewardsAndPenaltiesContext.
Module SlashingsContext.
Record t : Type := mk {
  adjusted_total_slashing_balance : Z;
  target_withdrawable_epoch : Epoch;
  penalty_per_effective_balance_increment : Z;
}.
End SlashingsContext.
Module PendingDepositsContext.
Record t : Type := mk {
  next_deposit_index : nat;
  deposit_balance_to_consume : Z;
  validator_deposits_to_process : gmap nat Z;
  deposits_to_postpone : list PendingDeposit.t;
  new_validator_deposits : list PendingDeposit.t;
}.
End PendingDepositsContext.
Module EffectiveBalancesContext.
Record t : Type := mk { downward_threshold : Z; upward_threshold : Z }.
End EffectiveBalancesContext.

(** What the pass knows of a validator before it changes anything. *)
Module ValidatorInfo.
Record t : Type := mk {
  index : nat;
  effective_balance : Z;
  base_reward : Z;
  is_eligible : bool;
  is_slashed : bool;
  is_active_current_epoch : bool;
  is_active_previous_epoch : bool;
  previous_epoch_participation : Z;
  current_epoch_participation : Z;
}.
Definition is_unslashed_participating_index (info : t) (flag_index : nat) : outcome EpochProcessingError.t bool :=
  if info.(is_active_previous_epoch) && negb info.(is_slashed) then
    map_err (fun _ => EpochProcessingError.InvalidFlagIndex flag_index)
      (ParticipationFlags.has_flag info.(previous_epoch_participation) flag_index)
  else Ok false.
End ValidatorInfo.

Module Delta.
Record t : Type := mk { rewards : Z; penalties : Z }.
Definition default : t := mk 0 0.
Definition reward (x : Z) (d : t) : outcome EpochProcessingError.t t :=
  r ← into (safe_add d.(rewards) x); Ok (mk r d.(penalties)).
Definition penalize (x : Z) (d : t) : outcome EpochProcessingError.t t :=
  p ← into (safe_add d.(penalties) x); Ok (mk d.(rewards) p).
Definition combine (other d : t) : outcome EpochProcessingError.t t :=
  d ← reward other.(rewards) d; penalize other.(penalties) d.
End Delta.

(** What an update of an effective balance changes. *)
Module Eb.
Record t : Type := mk {
  validator : Validator.t;
  progressive_balances : ProgressiveBalancesCache.t;
  next_epoch_cache : PreEpochCache.t;
}.
Definition set_validator (v : Validator.t) (s : t) : t := mk v s.(progressive_balances) s.(next_epoch_cache).
Definition set_progressive_balances (v : ProgressiveBalancesCache.t) (s : t) : t :=
  mk s.(validator) v s.(next_epoch_cache).
Definition set_next_epoch_cache (v : PreEpochCache.t) (s : t) : t := mk s.(validator) s.(progressive_balances) v.
End Eb.

(** What the loop carries along besides the state. *)
Module Carry.
Record t : Type := mk {
  next_queue : ActivationQueue.t;
  earliest_exit_epoch : option Epoch;
  exit_balance_to_consume : option Z;
  next_epoch_cache : PreEpochCache.t;
}.
Definition set_next_epoch_cache (v : PreEpochCache.t) (s : t) : t :=
  mk s.(next_queue) s.(earliest_exit_epoch) s.(exit_balance_to_consume) v.
End Carry.

Module Cell.
Record t : Type := mk {
  validator : Validator.t;
  balance : Z;
  inactivity_score : Z;
  exit_cache : ExitCache.t;
  progressive_balances : ProgressiveBalancesCache.t;
  next_queue : ActivationQueue.t;
  earliest_exit_epoch : option Epoch;
  exit_balance_to_consume : option Z;
  next_epoch_cache : PreEpochCache.t;
}.
Definition set_validator (v : Validator.t) (s : t) : t :=
  mk v s.(balance) s.(inactivity_score) s.(exit_cache) s.(progressive_balances) s.(next_queue)
    s.(earliest_exit_epoch) s.(exit_balance_to_consume) s.(next_epoch_cache).
Definition set_balance (v : Z) (s : t) : t :=
  mk s.(validator) v s.(inactivity_score) s.(exit_cache) s.(progressive_balances) s.(next_queue)
    s.(earliest_exit_epoch) s.(exit_balance_to_consume) s.(next_epoch_cache).
Definition set_inactivity_score (v : Z) (s : t) : t :=
  mk s.(validator) s.(balance) v s.(exit_cache) s.(progressive_balances) s.(next_queue)
    s.(earliest_exit_epoch) s.(exit_balance_to_consume) s.(next_epoch_cache).
Definition set_exit_cache (v : ExitCache.t) (s : t) : t :=
  mk s.(validator) s.(balance) s.(inactivity_score) v s.(progressive_balances) s.(next_queue)
    s.(earliest_exit_epoch) s.(exit_balance_to_consume) s.(next_epoch_cache).
Definition set_next_queue (v : ActivationQueue.t) (s : t) : t :=
  mk s.(validator) s.(balance) s.(inactivity_score) s.(exit_cache) s.(progressive_balances) v
    s.(earliest_exit_epoch) s.(exit_balance_to_consume) s.(next_epoch_cache).
Definition set_next_epoch_cache (v : PreEpochCache.t) (s : t) : t :=
  mk s.(validator) s.(balance) s.(inactivity_score) s.(exit_cache) s.(progressive_balances) s.(next_queue)
    s.(earliest_exit_epoch) s.(exit_balance_to_consume) v.
Definition set_churn (e : Epoch) (b : Z) (s : t) : t :=
  mk s.(validator) s.(balance) s.(inactivity_score) s.(exit_cache) s.(progressive_balances) s.(next_queue)
    (Some e) (Some b) s.(next_epoch_cache).
Definition eb (c : t) : Eb.t := Eb.mk c.(validator) c.(progressive_balances) c.(next_epoch_cache).
Definition set_eb (e : Eb.t) (s : t) : t :=
  mk e.(Eb.validator) s.(balance) s.(inactivity_score) s.(exit_cache) e.(Eb.progressive_balances) s.(next_queue)
    s.(earliest_exit_epoch) s.(exit_balance_to_consume) e.(Eb.next_epoch_cache).
End Cell.

Abbreviation CellM := (M Cell.t EpochProcessingError.t).

(** The snapshot that the pass returns. *)
Module ParticipationEpochSummary.
Record t : Type := mk {
  validators : list Validator.t;
  previous_epoch_participation : list Z;
  current_epoch_participation : list Z;
  previous_epoch : Epoch;
  current_epoch : Epoch;
}.
End ParticipationEpochSummary.

Section single.
Context (spec : Spec.t) (ctxt : StateContext.t).
Abbreviation current := (ctxt.(StateContext.current_epoch)).
Abbreviation fork := (ctxt.(StateContext.fork_name)).
Abbreviation electra := (ForkName.ge ctxt.(StateContext.fork_name) ForkName.Electra).

(** ** Inactivity scores *)
Definition forgive_inactivity : CellM unit :=
  when (negb ctxt.(StateContext.is_in_inactivity_leak)) (
    c ← get;
    let score := c.(Cell.inactivity_score) in
    score' ← try (safe_sub score (Z.min spec.(Spec.inactivity_score_recovery_rate) score));
    modify (Cell.set_inactivity_score score')).
Definition process_single_inactivity_update (info : ValidatorInfo.t) : CellM unit :=
  if negb info.(ValidatorInfo.is_eligible) then mret tt
  else
    participating ← lift (ValidatorInfo.is_unslashed_participating_index info TIMELY_TARGET_FLAG_INDEX);
    c ← get;
    let score := c.(Cell.inactivity_score) in
    if participating : bool then
      if score =? 0 then mret tt
      else
        score' ← try (safe_sub score 1);
        modify (Cell.set_inactivity_score score');; forgive_inactivity
    else
      score' ← try (safe_add score spec.(Spec.inactivity_score_bias));
      modify (Cell.set_inactivity_score score');; forgive_inactivity.

(** ** Rewards and penalties *)
Definition get_flag_weight (flag_index : nat) : outcome EpochProcessingError.t Z :=
  ok_or (PARTICIPATION_FLAG_WEIGHTS !! flag_index) (EpochProcessingError.InvalidFlagIndex flag_index).
Definition get_flag_index_delta (info : ValidatorInfo.t) (rewards : RewardsAndPenaltiesContext.t) (flag_index : nat)
    (delta : Delta.t) : outcome EpochProcessingError.t Delta.t :=
  let base_reward := info.(ValidatorInfo.base_reward) in
  weight ← get_flag_weight flag_index;
  increments ← ok_or (rewards.(RewardsAndPenaltiesContext.unslashed_participating_increments) !! flag_index)
                 (EpochProcessingError.InvalidFlagIndex flag_index);
  participating ← ValidatorInfo.is_unslashed_participating_index info flag_index;
  if participating : bool then
    if ctxt.(StateContext.is_in_inactivity_leak) then Ok delta
    else
      n ← into (safe_mul base_reward weight);
      reward_numerator ← into (safe_mul n increments);
      d ← into (safe_mul rewards.(RewardsAndPenaltiesContext.active_increments) WEIGHT_DENOMINATOR);
      reward ← into (safe_div reward_numerator d);
      Delta.reward reward delta
  else if negb (flag_index =? TIMELY_HEAD_FLAG_INDEX)%nat then
    n ← into (safe_mul base_reward weight);
    penalty ← into (safe_div n WEIGHT_DENOMINATOR);
    Delta.penalize penalty delta
  else Ok delta.
Definition get_inactivity_penalty_delta (info : ValidatorInfo.t) (inactivity_score : Z) (delta : Delta.t)
    : outcome EpochProcessingError.t Delta.t :=
  participating ← ValidatorInfo.is_unslashed_participating_index info TIMELY_TARGET_FLAG_INDEX;
  if negb participating then
    n ← into (safe_mul info.(ValidatorInfo.effective_balance) inactivity_score);
    d ← into (safe_mul spec.(Spec.inactivity_score_bias) (inactivity_penalty_quotient_for_fork spec fork));
    penalty ← into (safe_div n d);
    Delta.penalize penalty delta
  else Ok delta.
(** The flags from [flag_index] on. *)
Fixpoint flag_deltas (info : ValidatorInfo.t) (rewards : RewardsAndPenaltiesContext.t) (flag_index n : nat) (delta : Delta.t)
    : outcome EpochProcessingError.t Delta.t :=
  match n with
  | O => Ok delta
  | S n' => delta ← get_flag_index_delta info rewards flag_index delta; flag_deltas info rewards (S flag_index) n' delta
  end.
Definition process_single_reward_and_penalty (info : ValidatorInfo.t) (rewards : RewardsAndPenaltiesContext.t) : CellM unit :=
  if negb info.(ValidatorInfo.is_eligible) then mret tt
  else
    c ← get;
    delta ← lift (flag_deltas info rewards 0 NUM_FLAG_INDICES Delta.default);
    delta ← lift (get_inactivity_penalty_delta info c.(Cell.inactivity_score) delta);
    when (negb (delta.(Delta.rewards) =? 0) || negb (delta.(Delta.penalties) =? 0)) (
      balance ← try (safe_add c.(Cell.balance) delta.(Delta.rewards));
      modify (Cell.set_balance (u64_saturating_sub balance delta.(Delta.penalties)))).

(** [RewardsAndPenaltiesContext::new]; the flags from [flag_index] on. *)
Fixpoint participating_increments (cache : ProgressiveBalancesCache.t) (flag_index n : nat)
    : outcome EpochProcessingError.t (list Z) :=
  match n with
  | O => Ok []
  | S n' =>
      balance ← into (ProgressiveBalancesCache.previous_epoch_flag_attesting_balance cache flag_index);
      increments ← into (safe_div balance spec.(Spec.effective_balance_increment));
      rest ← participating_increments cache (S flag_index) n';
      Ok (increments :: rest)
  end.
Definition rewards_context (cache : ProgressiveBalancesCache.t) : outcome EpochProcessingError.t RewardsAndPenaltiesContext.t :=
  increments ← participating_increments cache 0 NUM_FLAG_INDICES;
  active ← into (safe_div ctxt.(StateContext.total_active_balance) spec.(Spec.effective_balance_increment));
  Ok (RewardsAndPenaltiesContext.mk increments active).

(** ** The registry *)
Definition ps_get_balance_churn_limit : outcome EpochProcessingError.t Z :=
  n ← into (safe_div ctxt.(StateContext.total_active_balance) spec.(Spec.churn_limit_quotient));
  let churn := Z.max spec.(Spec.min_per_epoch_churn_limit_electra) n in
  r ← into (safe_rem churn spec.(Spec.effective_balance_increment));
  into (safe_sub churn r).
Definition ps_get_activation_exit_churn_limit : outcome EpochProcessingError.t Z :=
  n ← ps_get_balance_churn_limit; Ok (Z.min spec.(Spec.max_per_epoch_activation_exit_churn_limit) n).
Definition ps_compute_exit_epoch_and_update_churn (stored : Epoch) (available : Z) : CellM Epoch :=
  c ← get;
  let exit_balance := c.(Cell.validator).(Validator.effective_balance) in
  delayed ← try (compute_activation_exit_epoch spec current);
  per_epoch_churn ← lift ps_get_activation_exit_churn_limit;
  '(earliest, to_consume) ← try (consume_churn per_epoch_churn stored available (Z.max stored delayed) exit_balance);
  left_over ← try (safe_sub to_consume exit_balance);
  modify (Cell.set_churn earliest left_over);;
  mret earliest.
(** The queue epoch before Electra, with the churn limit of the start of the pass. *)
Definition ps_exit_queue_epoch (cache : ExitCache.t) : outcome EpochProcessingError.t Epoch :=
  delayed_epoch ← into (compute_activation_exit_epoch spec current);
  max_epoch ← into (ExitCache.max_epoch cache);
  let exit_queue_epoch := match max_epoch with None => delayed_epoch | Some e => Z.max e delayed_epoch end in
  exit_queue_churn ← into (ExitCache.get_churn_at exit_queue_epoch cache);
  if ctxt.(StateContext.churn_limit) <=? exit_queue_churn then into (safe_add exit_queue_epoch 1) else Ok exit_queue_epoch.
Definition ps_initiate_validator_exit (churn : option Epoch * option Z) : CellM unit :=
  c ← get;
  if negb (c.(Cell.validator).(Validator.exit_epoch) =? spec.(Spec.far_future_epoch)) then mret tt
  else
    exit_queue_epoch ←
      (if electra then
         earliest ← lift (ok_or churn.1 EpochProcessingError.MissingEarliestExitEpoch);
         available ← lift (ok_or churn.2 EpochProcessingError.MissingExitBalanceToConsume);
         ps_compute_exit_epoch_and_update_churn earliest available
       else lift (ps_exit_queue_epoch c.(Cell.exit_cache)));
    modify (fun c => Cell.set_validator
      (ValidatorOps.set_exit exit_queue_epoch c.(Cell.validator).(Validator.withdrawable_epoch) c.(Cell.validator)) c);;
    withdrawable ← try (safe_add exit_queue_epoch spec.(Spec.min_validator_withdrawability_delay));
    modify (fun c => Cell.set_validator (ValidatorOps.set_exit exit_queue_epoch withdrawable c.(Cell.validator)) c);;
    c ← get;
    cache ← try (ExitCache.record_validator_exit exit_queue_epoch c.(Cell.exit_cache));
    modify (Cell.set_exit_cache cache).

Definition queue_for_activation : CellM unit :=
  c ← get;
  when (ValidatorOps.is_eligible_for_activation_queue spec c.(Cell.validator) fork) (
    e ← try (safe_add current 1);
    modify (Cell.set_validator (ValidatorOps.set_activation_eligibility_epoch e c.(Cell.validator)))).
Definition eject (churn : option Epoch * option Z) : CellM unit :=
  c ← get;
  when (Validator.is_active_at c.(Cell.validator) current
        && (c.(Cell.validator).(Validator.effective_balance) <=? spec.(Spec.ejection_balance)))
    (ps_initiate_validator_exit churn).
Definition activate (b : bool) : CellM unit :=
  c ← get;
  when b (
    e ← try (compute_activation_exit_epoch spec current);
    modify (Cell.set_validator (ValidatorOps.set_activation_epoch e c.(Cell.validator)))).

Definition process_single_registry_update_pre_electra (info : ValidatorInfo.t) (activation_queue : list nat) : CellM unit :=
  queue_for_activation;;
  eject (None, None);;
  activate (bool_decide (info.(ValidatorInfo.index) ∈ activation_queue));;
  modify (fun c => Cell.set_next_queue
    (ActivationQueue.add_if_could_be_eligible_for_activation spec info.(ValidatorInfo.index) c.(Cell.validator)
       ctxt.(StateContext.next_epoch) c.(Cell.next_queue)) c).
Definition process_single_registry_update_post_electra (churn : option Epoch * option Z) : CellM unit :=
  queue_for_activation;;
  eject churn;;
  c ← get;
  activate (ValidatorOps.is_eligible_for_activation_with_finalized_checkpoint spec c.(Cell.validator)
              ctxt.(StateContext.finalized_checkpoint)).
Definition process_single_registry_update (info : ValidatorInfo.t) (activation_queue : option (list nat)) : CellM unit :=
  if electra then
    c ← get;
    earliest ← lift (ok_or c.(Cell.earliest_exit_epoch) EpochProcessingError.MissingEarliestExitEpoch);
    available ← lift (ok_or c.(Cell.exit_balance_to_consume) EpochProcessingError.MissingExitBalanceToConsume);
    process_single_registry_update_post_electra (Some earliest, Some available)
  else
    queue ← lift (ok_or activation_queue EpochProcessingError.SinglePassMissingActivationQueue);
    process_single_registry_update_pre_electra info queue.

(** ** Slashings *)
Definition process_single_slashing (slashings : SlashingsContext.t) : CellM unit :=
  c ← get;
  let validator := c.(Cell.validator) in
  when (validator.(Validator.slashed)
        && (slashings.(SlashingsContext.target_withdrawable_epoch) =? validator.(Validator.withdrawable_epoch))) (
    let increment := spec.(Spec.effective_balance_increment) in
    penalty ←
      (if electra then
         n ← try (safe_div validator.(Validator.effective_balance) increment);
         try (safe_mul slashings.(SlashingsContext.penalty_per_effective_balance_increment) n)
       else
         n ← try (safe_div validator.(Validator.effective_balance) increment);
         n ← try (safe_mul n slashings.(SlashingsContext.adjusted_total_slashing_balance));
         n ← try (safe_div n ctxt.(StateContext.total_active_balance));
         try (safe_mul n increment));
    modify (Cell.set_balance (u64_saturating_sub c.(Cell.balance) penalty))).

(** ** Pending deposits of known validators *)
Definition process_pending_deposits_for_validator (info : ValidatorInfo.t) (deposits : PendingDepositsContext.t) : CellM unit :=
  match deposits.(PendingDepositsContext.validator_deposits_to_process) !! info.(ValidatorInfo.index) with
  | Some amount =>
      c ← get;
      balance ← try (safe_add c.(Cell.balance) amount);
      modify (Cell.set_balance balance)
  | None => mret tt
  end.

(** ** Effective balances *)
Definition effective_balances_context : outcome EpochProcessingError.t EffectiveBalancesContext.t :=
  increment ← into (safe_div spec.(Spec.effective_balance_increment) spec.(Spec.hysteresis_quotient));
  downward ← into (safe_mul increment spec.(Spec.hysteresis_downward_multiplier));
  upward ← into (safe_mul increment spec.(Spec.hysteresis_upward_multiplier));
  Ok (EffectiveBalancesContext.mk downward upward).
Definition process_single_dummy_effective_balance_update (validator_index : nat) : CellM unit :=
  c ← get;
  let v := c.(Cell.validator) in
  cache ← try (PreEpochCache.update_effective_balance validator_index v.(Validator.effective_balance)
                 (Validator.is_active_at v ctxt.(StateContext.next_epoch)) c.(Cell.next_epoch_cache));
  modify (Cell.set_next_epoch_cache cache).
(** The effective balance for a balance, with hysteresis. *)
Definition new_effective_balance (eb : EffectiveBalancesContext.t) (balance : Z) (v : Validator.t)
    : outcome EpochProcessingError.t Z :=
  let old := v.(Validator.effective_balance) in
  low ← into (safe_add balance eb.(EffectiveBalancesContext.downward_threshold));
  changed ← (if low <? old then Ok true
             else high ← into (safe_add old eb.(EffectiveBalancesContext.upward_threshold)); Ok (high <? balance));
  if changed : bool then
    r ← into (safe_rem balance spec.(Spec.effective_balance_increment));
    rounded ← into (safe_sub balance r);
    Ok (Z.min rounded (get_max_effective_balance spec v fork))
  else Ok old.
Definition process_single_effective_balance_update (eb : EffectiveBalancesContext.t) (validator_index : nat) (balance : Z)
    (participation : Z) : M Eb.t EpochProcessingError.t unit :=
  c ← get;
  let v := c.(Eb.validator) in
  let old := v.(Validator.effective_balance) in
  new ← lift (new_effective_balance eb balance v);
  let is_active_next_epoch := Validator.is_active_at v ctxt.(StateContext.next_epoch) in
  when (negb (new =? old)) (
    modify (Eb.set_validator (ValidatorOps.set_effective_balance new v));;
    call (zoom Eb.progressive_balances Eb.set_progressive_balances
            (ProgressiveBalancesCache.on_effective_balance_change v.(Validator.slashed) participation old new)));;
  cache ← try (PreEpochCache.update_effective_balance validator_index new is_active_next_epoch c.(Eb.next_epoch_cache));
  modify (Eb.set_next_epoch_cache cache).

(** ** The turn of one validator *)
Record contexts : Type := mk_contexts {
  conf : SinglePassConfig.t;
  cx_rewards : RewardsAndPenaltiesContext.t;
  cx_slashings : SlashingsContext.t;
  cx_deposits : option PendingDepositsContext.t;
  cx_activation_queue : option (list nat);
  cx_consolidations : list nat;
  cx_effective_balances : EffectiveBalancesContext.t;
}.
Definition process_validator (cx : contexts) (info : ValidatorInfo.t) : CellM unit :=
  let conf := cx.(conf) in
  (if negb (current =? genesis_epoch) then
     when conf.(SinglePassConfig.inactivity_updates) (process_single_inactivity_update info);;
     when conf.(SinglePassConfig.rewards_and_penalties) (process_single_reward_and_penalty info cx.(cx_rewards))
   else mret tt);;
  when conf.(SinglePassConfig.registry_updates) (process_single_registry_update info cx.(cx_activation_queue));;
  when conf.(SinglePassConfig.slashings) (process_single_slashing cx.(cx_slashings));;
  match cx.(cx_deposits) with
  | Some deposits => process_pending_deposits_for_validator info deposits
  | None => mret tt
  end;;
  when conf.(SinglePassConfig.effective_balance_updates) (
    if bool_decide (info.(ValidatorInfo.index) ∈ cx.(cx_consolidations))
    then process_single_dummy_effective_balance_update info.(ValidatorInfo.index)
    else
      c ← get;
      zoom Cell.eb Cell.set_eb
        (process_single_effective_balance_update cx.(cx_effective_balances) info.(ValidatorInfo.index) c.(Cell.balance)
           info.(ValidatorInfo.current_epoch_participation))).
End single.

Section pass.
Context (hash : list Z → list Z) (spec : Spec.t) (forks : ForkSpec.t) (fuel : nat).
Context (state_root : State.t → outcome BeaconStateError.t Hash256) (header_root : BeaconBlockHeader.t → Hash256).
Context (deposit_signature : DepositData.t → bool).
Abbreviation spe := (spec.(Spec.slots_per_epoch)).

(** ** Contexts *)
(** [safe_sum]. *)
Fixpoint safe_sum (l : list Z) (acc : Z) : outcome ArithError Z :=
  match l with
  | [] => Ok acc
  | x :: rest => acc' ← safe_add acc x; safe_sum rest acc'
  end.
Definition slashings_context (s : State.t) (ctxt : StateContext.t) : outcome EpochProcessingError.t SlashingsContext.t :=
  let total := ctxt.(StateContext.total_active_balance) in
  sum_slashings ← into (safe_sum s.(State.registry).(Registry.slashings) 0);
  n ← into (safe_mul sum_slashings (proportional_slashing_multiplier_for_state spec (State.fork_name s)));
  let adjusted := Z.min n total in
  half ← into (safe_div spec.(Spec.epochs_per_slashings_vector) 2);
  target ← into (safe_add ctxt.(StateContext.current_epoch) half);
  increments ← into (safe_div total spec.(Spec.effective_balance_increment));
  per_increment ← into (safe_div adjusted increments);
  Ok (SlashingsContext.mk adjusted target per_increment).

(** The loop of [PendingDepositsContext::new] over the queue: [processed] counts
    the deposits taken and [amount] what they consume of the churn.  The flag of
    the result tells that the churn limit was reached. *)
Definition add_deposit (index : nat) (amount : Z) (m : gmap nat Z) : outcome ArithError (gmap nat Z) :=
  total ← safe_add (default 0 (m !! index)) amount; Ok (<[index := total]> m).
Record deposit_scan : Type := mk_scan {
  sc_count : nat;
  sc_amount : Z;
  sc_known : gmap nat Z;
  sc_postponed : list PendingDeposit.t;
  sc_new : list PendingDeposit.t;
}.
(** Whether the validator of a deposit has exited, or will by this epoch's
    ejections, and whether it is withdrawn. *)
Definition deposit_status (conf : SinglePassConfig.t) (s : State.t) (current next : Epoch) (validator_index : option nat)
    : outcome EpochProcessingError.t (bool * bool) :=
  match validator_index with
  | Some i =>
      v ← into (get_validator s i);
      let already_exited := v.(Validator.exit_epoch) <? spec.(Spec.far_future_epoch) in
      let will_be_exited :=
        conf.(SinglePassConfig.registry_updates)
        && (Validator.is_active_at v current && (v.(Validator.effective_balance) <=? spec.(Spec.ejection_balance))) in
      Ok (already_exited || will_be_exited, v.(Validator.withdrawable_epoch) <? next)
  | None => Ok (false, false)
  end.
Fixpoint scan_deposits (conf : SinglePassConfig.t) (s : State.t) (available : Z) (current next : Epoch) (finalized_slot : Slot)
    (deposits : list PendingDeposit.t) (sc : deposit_scan) : outcome EpochProcessingError.t (deposit_scan * bool) :=
  match deposits with
  | [] => Ok (sc, false)
  | d :: rest =>
      bridge_pending ←
        (if spec.(Spec.genesis_slot) <? d.(PendingDeposit.slot) then
           start ← into (st_deposit_requests_start_index s);
           Ok (s.(State.chain).(Chain.eth1_deposit_index) <? start)
         else Ok false);
      if bridge_pending : bool then Ok (sc, false)
      else if finalized_slot <? d.(PendingDeposit.slot) then Ok (sc, false)
      else if spec.(Spec.max_pending_deposits_per_epoch) <=? Z.of_nat sc.(sc_count) then Ok (sc, false)
      else
        let index := PubkeyCache.get d.(PendingDeposit.pubkey) s.(State.caches).(Caches.pubkey_cache) in
        '(exited, withdrawn) ← deposit_status conf s current next index;
        let continue := scan_deposits conf s available current next finalized_slot rest in
        let count := S sc.(sc_count) in
        if withdrawn : bool then
          i ← ok_or index EpochProcessingError.PendingDepositsLogicError;
          known ← into (add_deposit i d.(PendingDeposit.amount) sc.(sc_known));
          continue (mk_scan count sc.(sc_amount) known sc.(sc_postponed) sc.(sc_new))
        else if exited : bool then
          continue (mk_scan count sc.(sc_amount) sc.(sc_known) (sc.(sc_postponed) ++ [d]) sc.(sc_new))
        else
          amount ← into (safe_add sc.(sc_amount) d.(PendingDeposit.amount));
          if available <? amount then Ok (sc, true)
          else
            match index with
            | Some i =>
                known ← into (add_deposit i d.(PendingDeposit.amount) sc.(sc_known));
                continue (mk_scan count amount known sc.(sc_postponed) sc.(sc_new))
            | None => continue (mk_scan count amount sc.(sc_known) sc.(sc_postponed) (sc.(sc_new) ++ [d]))
            end
  end.
Definition pending_deposits_context (conf : SinglePassConfig.t) (s : State.t)
    : outcome EpochProcessingError.t PendingDepositsContext.t :=
  to_consume ← into (st_deposit_balance_to_consume s);
  churn ← into (get_activation_exit_churn_limit spec s);
  available ← into (safe_add to_consume churn);
  next ← into (next_epoch spec s);
  let finalized_slot := start_slot (State.finalized_checkpoint s).(Checkpoint.epoch) spe in
  deposits ← into (st_pending_deposits s);
  '(sc, reached) ← scan_deposits conf s available (current_epoch spec s) next finalized_slot deposits (mk_scan 0 0 ∅ [] []);
  left_over ← (if reached : bool then into (safe_sub available sc.(sc_amount)) else Ok 0);
  Ok (PendingDepositsContext.mk sc.(sc_count) left_over sc.(sc_known) sc.(sc_postponed) sc.(sc_new)).

Fixpoint insert_consolidations (l : list PendingConsolidation.t) (acc : list nat) : list nat :=
  match l with
  | [] => acc
  | c :: rest =>
      insert_consolidations rest
        (BTreeSet.insert Nat.compare (Z.to_nat c.(PendingConsolidation.target_index))
           (BTreeSet.insert Nat.compare (Z.to_nat c.(PendingConsolidation.source_index)) acc))
  end.
Definition get_validators_in_consolidations (s : State.t) : list nat :=
  match st_pending_consolidations s with
  | Ok l => insert_consolidations l []
  | _ => []
  end.

(** ** The loop *)
(** Run a method of a cell on the entries of validator [i]. *)
Definition cell_of (v : Validator.t) (balance score : Z) (x : State.t * Carry.t) : Cell.t :=
  Cell.mk v balance score x.1.(State.caches).(Caches.exit_cache)
    x.1.(State.core).(BeaconState.progressive_balances_cache)
    x.2.(Carry.next_queue) x.2.(Carry.earliest_exit_epoch) x.2.(Carry.exit_balance_to_consume) x.2.(Carry.next_epoch_cache).
Definition write_cell (i : nat) (c : Cell.t) (s : State.t) : State.t :=
  State.on_core (fun b => BeaconState.set_progressive c.(Cell.progressive_balances)
                            (BeaconState.set_validators (<[i := c.(Cell.validator)]> b.(BeaconState.validators)) b))
    (State.on_registry (fun r => Registry.set_balances (<[i := c.(Cell.balance)]> r.(Registry.balances))
                            (Registry.set_inactivity_scores (<[i := c.(Cell.inactivity_score)]> r.(Registry.inactivity_scores)) r))
       (State.on_caches (Caches.set_exit_cache c.(Cell.exit_cache)) s)).
Definition put_cell (i : nat) (c : Cell.t) (x : State.t * Carry.t) : State.t * Carry.t :=
  (write_cell i c x.1,
   Carry.mk c.(Cell.next_queue) c.(Cell.earliest_exit_epoch) c.(Cell.exit_balance_to_consume) c.(Cell.next_epoch_cache)).

Abbreviation PassM := (M (State.t * Carry.t) EpochProcessingError.t).
Definition unknown_validator (i : nat) : EpochProcessingError.t :=
  EpochProcessingError.BeaconStateError (BeaconStateError.UnknownValidator i).
Definition validator_info (s : State.t) (previous : Epoch) (ctxt : StateContext.t) (i : nat) (v : Validator.t)
    (previous_participation current_participation : Z) : outcome EpochProcessingError.t ValidatorInfo.t :=
  let is_active_previous_epoch := Validator.is_active_at v previous in
  is_eligible ←
    (if is_active_previous_epoch then Ok true
     else if v.(Validator.slashed) then e ← into (safe_add previous 1); Ok (e <? v.(Validator.withdrawable_epoch))
     else Ok false);
  base_reward ←
    (if is_eligible : bool then into (EpochCache.get_base_reward i s.(State.caches).(Caches.epoch_cache)) else Ok 0);
  Ok (ValidatorInfo.mk i v.(Validator.effective_balance) base_reward is_eligible v.(Validator.slashed)
        (Validator.is_active_at v ctxt.(StateContext.current_epoch)) is_active_previous_epoch
        previous_participation current_participation).
Definition pass_step (previous : Epoch) (ctxt : StateContext.t) (cx : contexts) (i : nat)
    (previous_participation current_participation : Z) : PassM unit :=
  x ← get;
  let s := x.1 in
  v ← lift (ok_or (State.validators s !! i) (unknown_validator i));
  balance ← lift (ok_or (s.(State.registry).(Registry.balances) !! i) (unknown_validator i));
  score ← lift (ok_or (s.(State.registry).(Registry.inactivity_scores) !! i) (unknown_validator i));
  info ← lift (validator_info s previous ctxt i v previous_participation current_participation);
  zoom (cell_of v balance score) (put_cell i) (process_validator spec ctxt cx info).
Fixpoint pass_loop (previous : Epoch) (ctxt : StateContext.t) (cx : contexts) (i : nat) (n : nat)
    (previous_participation current_participation : list Z) : PassM unit :=
  match n, previous_participation, current_participation with
  | S n', p :: ps, c :: cs =>
      pass_step previous ctxt cx i p c;; pass_loop previous ctxt cx (S i) n' ps cs
  | _, _, _ => mret tt
  end.

(** Run a method with carried values; they are the result. *)
Definition with_carry {L A} (l : L) (m : M (State.t * L) EpochProcessingError.t A) : EoM L :=
  fun s => let '(r, (s', l')) := m (s, l) in (_ ← r; Ok l', s').

(** ** Effective balances after the loop *)
Definition write_eb (i : nat) (e : Eb.t) (s : State.t) : State.t :=
  State.on_core (fun b => BeaconState.set_progressive e.(Eb.progressive_balances)
    (BeaconState.set_validators (<[i := e.(Eb.validator)]> b.(BeaconState.validators)) b)) s.
Abbreviation CacheM := (M (State.t * PreEpochCache.t) EpochProcessingError.t).
Definition update_effective_balance_at (ctxt : StateContext.t) (eb : EffectiveBalancesContext.t) (i : nat) : CacheM unit :=
  x ← get;
  let s := x.1 in
  balance ← lift (ok_or (s.(State.registry).(Registry.balances) !! i) (unknown_validator i));
  v ← lift (ok_or (State.validators s !! i) (unknown_validator i));
  participation ← lift (ok_or (s.(State.core).(BeaconState.current_epoch_participation) !! i) (unknown_validator i));
  zoom (fun x => Eb.mk v x.1.(State.core).(BeaconState.progressive_balances_cache) x.2)
    (fun e x => (write_eb i e x.1, e.(Eb.next_epoch_cache)))
    (process_single_effective_balance_update spec ctxt eb i balance participation).

(** The deposits of validators that are new: the first one adds the validator,
    the others are top-ups.  The result lists the validators added. *)
Fixpoint apply_new_deposits (deposits : list PendingDeposit.t) : EoM (list nat) :=
  match deposits with
  | [] => mret []
  | d :: rest =>
      index ← call (get_validator_index d.(PendingDeposit.pubkey));
      added ←
        match index with
        | Some i =>
            s ← get;
            balance ← try (get_balance s i);
            balance' ← try (safe_add balance d.(PendingDeposit.amount));
            modify (set_balances (<[i := balance']> s.(State.registry).(Registry.balances)));; mret []
        | None =>
            if deposit_signature (DepositData.mk d.(PendingDeposit.pubkey) d.(PendingDeposit.withdrawal_credentials)
                 d.(PendingDeposit.amount) d.(PendingDeposit.signature))
            then
              i ← call (add_validator_to_registry spec d.(PendingDeposit.pubkey) d.(PendingDeposit.withdrawal_credentials)
                          d.(PendingDeposit.amount));
              mret [i]
            else mret []
        end;
      rest ← apply_new_deposits rest;
      mret (added ++ rest)
  end.
Fixpoint push_deposits (l : list PendingDeposit.t) (acc : list PendingDeposit.t)
    : outcome Milhouse.error (list PendingDeposit.t) :=
  match l with
  | [] => Ok acc
  | d :: rest => acc' ← Milhouse.push spec.(Spec.pending_deposits_limit) d acc; push_deposits rest acc'
  end.
Definition finish_pending_deposits (conf : SinglePassConfig.t) (ctxt : StateContext.t) (eb : EffectiveBalancesContext.t)
    (d : PendingDepositsContext.t) (cache : PreEpochCache.t) : EoM PreEpochCache.t :=
  s ← get;
  deposits ← try (st_pending_deposits s);
  left_over ← try (Milhouse.pop_front d.(PendingDepositsContext.next_deposit_index) deposits);
  deposits' ← try (push_deposits d.(PendingDepositsContext.deposits_to_postpone) left_over);
  modify (State.on_queues (Queues.set_pending_deposits deposits'));;
  modify (State.on_queues (Queues.set_deposit_balance_to_consume d.(PendingDepositsContext.deposit_balance_to_consume)));;
  added ← apply_new_deposits d.(PendingDepositsContext.new_validator_deposits);
  if conf.(SinglePassConfig.effective_balance_updates)
  then with_carry cache (for_each added (update_effective_balance_at ctxt eb))
  else mret cache.

(** ** Consolidations *)
(** The result counts the entries that leave the queue. *)
Fixpoint consolidate (next : Epoch) (l : list PendingConsolidation.t) (processed : nat) : EoM nat :=
  match l with
  | [] => mret processed
  | c :: rest =>
      let source_index := Z.to_nat c.(PendingConsolidation.source_index) in
      let target_index := Z.to_nat c.(PendingConsolidation.target_index) in
      s ← get;
      source ← try (get_validator s source_index);
      if source.(Validator.slashed) then consolidate next rest (S processed)
      else if next <? source.(Validator.withdrawable_epoch) then mret processed
      else
        balance ← lift (ok_or (s.(State.registry).(Registry.balances) !! source_index) (unknown_validator source_index));
        let source_effective_balance := Z.min balance source.(Validator.effective_balance) in
        call (decrease_balance source_index source_effective_balance);;
        call (increase_balance target_index source_effective_balance);;
        consolidate next rest (S processed)
  end.
Definition process_pending_consolidations (perform_effective_balance_updates : bool) (ctxt : StateContext.t)
    (eb : EffectiveBalancesContext.t) (validators_in_consolidations : list nat) (cache : PreEpochCache.t) : EoM PreEpochCache.t :=
  s ← get;
  next ← try (next_epoch spec s);
  consolidations ← try (st_pending_consolidations s);
  processed ← consolidate next consolidations 0;
  s ← get;
  consolidations ← try (st_pending_consolidations s);
  consolidations' ← try (Milhouse.pop_front processed consolidations);
  modify (State.on_queues (Queues.set_pending_consolidations consolidations'));;
  if perform_effective_balance_updates
  then with_carry cache (for_each validators_in_consolidations (update_effective_balance_at ctxt eb))
  else mret cache.

(** ** The lookahead of proposers *)
Definition proposer_seed (seed : list Z) (slot : Slot) : list Z := hash (seed ++ to_le_bytes 8 slot).
Fixpoint proposers_from (s : State.t) (indices : list nat) (seed : list Z) (slots : list Slot)
    : outcome BeaconStateError.t (list nat) :=
  match slots with
  | [] => Ok []
  | slot :: rest =>
      i ← compute_proposer_index hash spec fuel s indices (proposer_seed seed slot);
      others ← proposers_from s indices seed rest;
      Ok (i :: others)
  end.
Definition slots_of_epoch (e : Epoch) : list Slot := SlotIter.collect (S (Z.to_nat spe)) (SlotIter.slot_iter e spe).
Definition compute_proposer_indices (s : State.t) (e : Epoch) (seed : list Z) (indices : list nat)
    : outcome BeaconStateError.t (list nat) :=
  let current := current_epoch spec s in
  if e <? current then Err (BeaconStateError.ComputeProposerIndicesPastEpoch current e)
  else
    (if ForkName.ge (fork_name_at_epoch forks e) ForkName.Fulu then
       if ForkName.ge (State.fork_name s) ForkName.Fulu then
         limit ← into (safe_add current spec.(Spec.min_seed_lookahead));
         if e <? limit then Err (BeaconStateError.ComputeProposerIndicesInsufficientLookahead current e) else Ok tt
       else Ok tt
     else
       limit ← into (safe_add current spec.(Spec.min_seed_lookahead));
       if limit <=? e then Err (BeaconStateError.ComputeProposerIndicesExcessiveLookahead current e) else Ok tt);;
    proposers_from s indices seed (slots_of_epoch e).
Definition get_beacon_proposer_indices (s : State.t) (e : Epoch) : outcome BeaconStateError.t (list nat) :=
  let current := current_epoch spec s in
  from_lookahead ←
    match st_proposer_lookahead s with
    | Ok lookahead =>
        if current <=? e then
          next ← next_epoch spec s;
          if e <=? next then
            let start := if e =? current then 0%nat else Z.to_nat spe in
            l ← into (Milhouse.pop_front start lookahead);
            Ok (Some (Z.to_nat <$> take (Z.to_nat spe) l))
          else Ok None
        else Ok None
    | _ => Ok None
    end;
  match from_lookahead with
  | Some proposers => Ok proposers
  | None =>
      indices ← st_get_active_validator_indices spec s e;
      seed ← get_seed hash spec s.(State.chain).(Chain.randao_mixes) e spec.(Spec.domain_beacon_proposer);
      compute_proposer_indices s e seed indices
  end.

Fixpoint read_lookahead (lookahead : list Z) (i count : nat) : outcome EpochProcessingError.t (list Z) :=
  match count with
  | O => Ok []
  | S count' =>
      x ← ok_or (lookahead !! i) (EpochProcessingError.ProposerLookaheadOutOfBounds i);
      rest ← read_lookahead lookahead (S i) count';
      Ok (x :: rest)
  end.
Fixpoint write_lookahead (i : nat) (values : list Z) : EoM unit :=
  match values with
  | [] => mret tt
  | v :: rest =>
      s ← get;
      lookahead ← try (st_proposer_lookahead s);
      lookahead' ← lift (set_at lookahead i v (EpochProcessingError.ProposerLookaheadOutOfBounds i));
      modify (State.on_chain (Chain.set_proposer_lookahead lookahead'));;
      write_lookahead (S i) rest
  end.
Definition process_proposer_lookahead : EoM unit :=
  s ← get;
  let total_slots := spec.(Spec.proposer_lookahead_slots) in
  lookahead ← try (st_proposer_lookahead s);
  shifted ← lift (read_lookahead lookahead (Z.to_nat spe) (Z.to_nat total_slots - Z.to_nat spe));
  e ← try (safe_add (current_epoch spec s) spec.(Spec.min_seed_lookahead));
  next ← try (safe_add e 1);
  last_epoch_proposers ← try (get_beacon_proposer_indices s next);
  write_lookahead 0 shifted;;
  last_epoch_start ← try (safe_sub total_slots spe);
  write_lookahead (Z.to_nat last_epoch_start) (Z.of_nat <$> last_epoch_proposers).

(** ** The pass *)
Definition state_context (s : State.t) : outcome EpochProcessingError.t (StateContext.t * Z) :=
  next ← into (next_epoch spec s);
  leak ← into (is_in_inactivity_leak spec s (st_previous_epoch spec s));
  total ← into (get_total_active_balance spe s.(State.core));
  churn_limit ← into (get_validator_churn_limit spec s);
  activation_churn_limit ← into (get_activation_churn_limit spec s);
  Ok (StateContext.mk (current_epoch spec s) next (State.finalized_checkpoint s) leak total churn_limit (State.fork_name s),
      activation_churn_limit).
Definition activation_queue_of (s : State.t) (ctxt : StateContext.t) (activation_churn_limit : Z)
    : outcome EpochProcessingError.t (option (list nat)) :=
  if ForkName.ge ctxt.(StateContext.fork_name) ForkName.Electra then Ok None
  else
    queue ← into (EpochCache.get_activation_queue s.(State.caches).(Caches.epoch_cache));
    Ok (Some (ActivationQueue.get_validators_eligible_for_activation
                ctxt.(StateContext.finalized_checkpoint).(Checkpoint.epoch) (Z.to_nat activation_churn_limit) queue)).
Definition ok_option {E A} (o : outcome E A) : option A := match o with Ok a => Some a | _ => None end.

Definition store_churn (carry : Carry.t) : EoM unit :=
  earliest ← lift (ok_or carry.(Carry.earliest_exit_epoch) EpochProcessingError.MissingEarliestExitEpoch);
  modify (State.on_queues (Queues.set_earliest_exit_epoch earliest));;
  available ← lift (ok_or carry.(Carry.exit_balance_to_consume) EpochProcessingError.MissingExitBalanceToConsume);
  modify (State.on_queues (Queues.set_exit_balance_to_consume available)).
Definition store_next_epoch_caches (cache : PreEpochCache.t) (next : Epoch) (queue : ActivationQueue.t) : EoM unit :=
  modify (State.on_core (set_total_active_balance spec.(Spec.effective_balance_increment) next
            (PreEpochCache.get_total_active_balance cache)));;
  epoch_cache ← try (into_epoch_cache spec forks cache queue);
  modify (State.on_caches (Caches.set_epoch_cache epoch_cache)).

(** The part of the pass that goes over the validators; its result is the
    snapshot and the carried values. *)
Definition pass_over_validators (conf : SinglePassConfig.t) (ctxt : StateContext.t) (activation_churn_limit : Z)
    (slashings : SlashingsContext.t) (cache : PreEpochCache.t) (deposits : option PendingDepositsContext.t)
    (consolidations : list nat) : EoM (ParticipationEpochSummary.t * Carry.t * EffectiveBalancesContext.t) :=
  s ← get;
  if negb (ForkName.ge (State.fork_name s) ForkName.Altair)
  then throw (EpochProcessingError.BeaconStateError BeaconStateError.IncorrectStateVariant)
  else
    let core := s.(State.core) in
    let previous := st_previous_epoch spec s in
    let summary := ParticipationEpochSummary.mk core.(BeaconState.validators) core.(BeaconState.previous_epoch_participation)
                     core.(BeaconState.current_epoch_participation) previous ctxt.(StateContext.current_epoch) in
    rewards ← lift (rewards_context spec ctxt core.(BeaconState.progressive_balances_cache));
    queue ← lift (activation_queue_of s ctxt activation_churn_limit);
    eb ← lift (effective_balances_context spec);
    let cx := mk_contexts conf rewards slashings deposits queue consolidations eb in
    carry ← with_carry (Carry.mk [] (ok_option (st_earliest_exit_epoch s)) (ok_option (st_exit_balance_to_consume s)) cache)
              (pass_loop previous ctxt cx 0 (length core.(BeaconState.validators))
                 core.(BeaconState.previous_epoch_participation) core.(BeaconState.current_epoch_participation));
    mret (summary, carry, eb).

Definition process_epoch_single_pass (conf : SinglePassConfig.t) : EoM ParticipationEpochSummary.t :=
  call (initialize_epoch_cache spec forks);;
  call (on_core (initialize_progressive_balances_cache spe spec.(Spec.effective_balance_increment)));;
  call (build_exit_cache spec);;
  call (build_committee_cache hash spec Previous);;
  call (build_committee_cache hash spec Current);;
  call update_pubkey_cache;;
  s ← get;
  '(ctxt, activation_churn_limit) ← lift (state_context s);
  slashings ← lift (slashings_context s ctxt);
  cache ← try (new_for_next_epoch spec state_root header_root s);
  let f := ctxt.(StateContext.fork_name) in
  let electra := ForkName.ge f ForkName.Electra in
  deposits ← (if electra && conf.(SinglePassConfig.pending_deposits)
              then d ← lift (pending_deposits_context conf s); mret (Some d) else mret None);
  let consolidations := get_validators_in_consolidations s in
  '(summary, carry, eb) ← pass_over_validators conf ctxt activation_churn_limit slashings cache deposits consolidations;
  when (conf.(SinglePassConfig.registry_updates) && electra) (store_churn carry);;
  cache ← match deposits with
          | Some d => finish_pending_deposits conf ctxt eb d carry.(Carry.next_epoch_cache)
          | None => mret carry.(Carry.next_epoch_cache)
          end;
  cache ← (if electra && conf.(SinglePassConfig.pending_consolidations)
           then process_pending_consolidations conf.(SinglePassConfig.effective_balance_updates) ctxt eb consolidations cache
           else mret cache);
  when (ForkName.ge f ForkName.Gloas && conf.(SinglePassConfig.builder_pending_payments))
    (process_builder_pending_payments spec);;
  when conf.(SinglePassConfig.effective_balance_updates)
    (store_next_epoch_caches cache ctxt.(StateContext.next_epoch) carry.(Carry.next_queue));;
  when (conf.(SinglePassConfig.proposer_lookahead) && ForkName.ge f ForkName.Fulu) process_proposer_lookahead;;
  when (ForkName.ge f ForkName.Gloas && conf.(SinglePassConfig.ptc_window)) (process_ptc_window hash spec fuel);;
  mret summary.

(** ** The parts on their own *)
Definition process_inactivity_updates_slow : EoM unit :=
  process_epoch_single_pass (SinglePassConfig.set_inactivity_updates true SinglePassConfig.disable_all);; mret tt.
Definition process_rewards_and_penalties_slow : EoM unit :=
  process_epoch_single_pass (SinglePassConfig.set_rewards_and_penalties true SinglePassConfig.disable_all);; mret tt.
Definition process_registry_updates_slow : EoM unit :=
  process_epoch_single_pass (SinglePassConfig.set_registry_updates true SinglePassConfig.disable_all);; mret tt.
Definition process_slashings_slow : EoM unit :=
  process_epoch_single_pass (SinglePassConfig.set_slashings true SinglePassConfig.disable_all);; mret tt.
Definition process_effective_balance_updates_slow : EoM unit :=
  process_epoch_single_pass (SinglePassConfig.set_effective_balance_updates true SinglePassConfig.disable_all);; mret tt.
End pass.
