(* ===== verification/EpochBaseDefs.v ===== *)
(** * The end of an epoch in the base fork

    [state_processing/src/per_epoch_processing/base] and the functions of its
    parent directory that only the base fork uses: what each validator attested
    to ([validator_statuses.rs]), rewards and penalties, registry updates,
    slashings and effective balances, each as a pass of its own. *)
From S2P Require Import Prelude SlotEpoch ProtoArrayDefs ForkChoiceDefs ForkSchedule BeaconStateDefs.
From S2P Require Import ValidatorDefs ShuffleDefs CommitteeDefs SlashingDefs DoppelgangerDefs ValidatorStoreDefs.
From S2P Require Import StateDefs RegistryDefs BlockDefs EpbsDefs JustificationDefs EpochCacheDefs OperationsDefs.
From S2P Require Import EpochGloasDefs EpochPassDefs.

Module InclusionInfo.
Record t : Type := mk { delay : Z; proposer_index : nat }.
Definition update (other self : t) : t := if other.(delay) <? self.(delay) then other else self.
End InclusionInfo.

Module ValidatorStatus.
Record t : Type := mk {
  is_slashed : bool;
  is_eligible : bool;
  is_withdrawable_in_current_epoch : bool;
  is_active_in_current_epoch : bool;
  is_active_in_previous_epoch : bool;
  current_epoch_effective_balance : Z;
  is_current_epoch_attester : bool;
  is_current_epoch_target_attester : bool;
  is_previous_epoch_attester : bool;
  is_previous_epoch_target_attester : bool;
  is_previous_epoch_head_attester : bool;
  inclusion_info : option InclusionInfo.t;
}.
(** The status of an attestation; all other fields have their defaults. *)
Definition of_attestation (current current_target previous previous_target previous_head : bool)
    (info : option InclusionInfo.t) : t :=
  mk false false false false false 0 current current_target previous previous_target previous_head info.
(** [set_self_if_other_is_true!] on each flag. *)
Definition update (other self : t) : t :=
  mk (self.(is_slashed) || other.(is_slashed))
    (self.(is_eligible) || other.(is_eligible))
    (self.(is_withdrawable_in_current_epoch) || other.(is_withdrawable_in_current_epoch))
    (self.(is_active_in_current_epoch) || other.(is_active_in_current_epoch))
    (self.(is_active_in_previous_epoch) || other.(is_active_in_previous_epoch))
    self.(current_epoch_effective_balance)
    (self.(is_current_epoch_attester) || other.(is_current_epoch_attester))
    (self.(is_current_epoch_target_attester) || other.(is_current_epoch_target_attester))
    (self.(is_previous_epoch_attester) || other.(is_previous_epoch_attester))
    (self.(is_previous_epoch_target_attester) || other.(is_previous_epoch_target_attester))
    (self.(is_previous_epoch_head_attester) || other.(is_previous_epoch_head_attester))
    (match other.(inclusion_info) with
     | Some other_info =>
         Some (match self.(inclusion_info) with
               | Some self_info => InclusionInfo.update other_info self_info
               | None => other_info
               end)
     | None => self.(inclusion_info)
     end).
End ValidatorStatus.

(** The sums; [at_least] is [balance_accessor!]. *)
Module Totals.
Record t : Type := mk {
  effective_balance_increment : Z;
  current_epoch : Z;
  previous_epoch : Z;
  current_epoch_attesters : Z;
  current_epoch_target_attesters : Z;
  previous_epoch_attesters : Z;
  previous_epoch_target_attesters : Z;
  previous_epoch_head_attesters : Z;
}.
Definition new (spec : Spec.t) : t := mk spec.(Spec.effective_balance_increment) 0 0 0 0 0 0 0.
Definition at_least (c : t) (x : Z) : Z := Z.max c.(effective_balance_increment) x.
(** [safe_add_assign] on the fields whose flag is set. *)
Definition add_if (b : bool) (x y : Z) : outcome ArithError Z := if b then safe_add x y else Ok x.
Definition add_active (current previous : bool) (balance : Z) (c : t) : outcome ArithError t :=
  a ← add_if current c.(current_epoch) balance;
  b ← add_if previous c.(previous_epoch) balance;
  Ok (mk c.(effective_balance_increment) a b c.(current_epoch_attesters) c.(current_epoch_target_attesters)
        c.(previous_epoch_attesters) c.(previous_epoch_target_attesters) c.(previous_epoch_head_attesters)).
Definition add_attester (v : ValidatorStatus.t) (c : t) : outcome ArithError t :=
  let x := v.(ValidatorStatus.current_epoch_effective_balance) in
  a ← add_if v.(ValidatorStatus.is_current_epoch_attester) c.(current_epoch_attesters) x;
  b ← add_if v.(ValidatorStatus.is_current_epoch_target_attester) c.(current_epoch_target_attesters) x;
  d ← add_if v.(ValidatorStatus.is_previous_epoch_attester) c.(previous_epoch_attesters) x;
  e ← add_if v.(ValidatorStatus.is_previous_epoch_target_attester) c.(previous_epoch_target_attesters) x;
  f ← add_if v.(ValidatorStatus.is_previous_epoch_head_attester) c.(previous_epoch_head_attesters) x;
  Ok (mk c.(effective_balance_increment) c.(current_epoch) c.(previous_epoch) a b d e f).
(** The getters that justification reads. *)
Definition for_justification (c : t) : TotalBalances.t :=
  TotalBalances.mk (at_least c c.(current_epoch)) (at_least c c.(current_epoch_target_attesters))
    (at_least c c.(previous_epoch_target_attesters)).
End Totals.

Module ValidatorStatuses.
Record t : Type := mk { statuses : list ValidatorStatus.t; total_balances : Totals.t }.
End ValidatorStatuses.

Module AttestationDelta.
Record t : Type := mk {
  source_delta : Delta.t;
  target_delta : Delta.t;
  head_delta : Delta.t;
  inclusion_delay_delta : Delta.t;
  inactivity_penalty_delta : Delta.t;
}.
Definition default : t := mk Delta.default Delta.default Delta.default Delta.default Delta.default.
Definition flatten (d : t) : outcome EpochProcessingError.t Delta.t :=
  r ← Delta.combine d.(source_delta) Delta.default;
  r ← Delta.combine d.(target_delta) r;
  r ← Delta.combine d.(head_delta) r;
  r ← Delta.combine d.(inclusion_delay_delta) r;
  Delta.combine d.(inactivity_penalty_delta) r.
(** [combine] on each component. *)
Definition combine (other d : t) : outcome EpochProcessingError.t t :=
  a ← Delta.combine other.(source_delta) d.(source_delta);
  b ← Delta.combine other.(target_delta) d.(target_delta);
  c ← Delta.combine other.(head_delta) d.(head_delta);
  e ← Delta.combine other.(inclusion_delay_delta) d.(inclusion_delay_delta);
  f ← Delta.combine other.(inactivity_penalty_delta) d.(inactivity_penalty_delta);
  Ok (mk a b c e f).
Definition combine_inclusion_delay (other : Delta.t) (d : t) : outcome EpochProcessingError.t t :=
  e ← Delta.combine other d.(inclusion_delay_delta);
  Ok (mk d.(source_delta) d.(target_delta) d.(head_delta) e d.(inactivity_penalty_delta)).
End AttestationDelta.

Section base.
Context (hash : list Z → list Z) (spec : Spec.t) (forks : ForkSpec.t).
Abbreviation spe := (spec.(Spec.slots_per_epoch)).

(** ** What the validators attested to *)
Fixpoint new_statuses (s : State.t) (validators : list Validator.t) (totals : Totals.t)
    : outcome BeaconStateError.t (list ValidatorStatus.t * Totals.t) :=
  match validators with
  | [] => Ok ([], totals)
  | v :: rest =>
      let current := current_epoch spec s in
      let previous := st_previous_epoch spec s in
      is_eligible ← is_eligible_validator previous v;
      let in_current := Validator.is_active_at v current in
      let in_previous := Validator.is_active_at v previous in
      totals ← into (Totals.add_active in_current in_previous v.(Validator.effective_balance) totals);
      '(statuses, totals) ← new_statuses s rest totals;
      Ok (ValidatorStatus.mk v.(Validator.slashed) is_eligible (ValidatorOps.is_withdrawable_at v current)
            in_current in_previous v.(Validator.effective_balance) false false false false false None :: statuses, totals)
  end.
Definition statuses_new (s : State.t) : outcome BeaconStateError.t ValidatorStatuses.t :=
  '(statuses, totals) ← new_statuses s (State.validators s) (Totals.new spec);
  Ok (ValidatorStatuses.mk statuses totals).

Definition target_matches_epoch_start_block (s : State.t) (data : AttestationData.t) (e : Epoch)
    : outcome BeaconStateError.t bool :=
  root ← get_block_root s.(State.core) (start_slot e spe);
  Ok (data.(AttestationData.target).(Checkpoint.root) =? root).
Definition has_common_beacon_block_root (s : State.t) (data : AttestationData.t) : outcome BeaconStateError.t bool :=
  root ← get_block_root s.(State.core) data.(AttestationData.slot);
  Ok (data.(AttestationData.beacon_block_root) =? root).
Definition status_of_attestation (s : State.t) (a : PendingAttestation.t) : outcome BeaconStateError.t ValidatorStatus.t :=
  let data := a.(PendingAttestation.data) in
  let target_epoch := data.(AttestationData.target).(Checkpoint.epoch) in
  if target_epoch =? current_epoch spec s then
    matches ← target_matches_epoch_start_block s data (current_epoch spec s);
    Ok (ValidatorStatus.of_attestation true matches false false false None)
  else if target_epoch =? st_previous_epoch spec s then
    let info := InclusionInfo.mk a.(PendingAttestation.inclusion_delay) (Z.to_nat a.(PendingAttestation.proposer_index)) in
    matches ← target_matches_epoch_start_block s data (st_previous_epoch spec s);
    head ← (if matches : bool then has_common_beacon_block_root s data else Ok false);
    Ok (ValidatorStatus.of_attestation false false true matches head (Some info))
  else Ok (ValidatorStatus.of_attestation false false false false false None).
Fixpoint update_statuses (status : ValidatorStatus.t) (indices : list Z) (statuses : list ValidatorStatus.t)
    : outcome BeaconStateError.t (list ValidatorStatus.t) :=
  match indices with
  | [] => Ok statuses
  | index :: rest =>
      let i := Z.to_nat index in
      v ← ok_or (statuses !! i) (BeaconStateError.UnknownValidator i);
      update_statuses status rest (<[i := ValidatorStatus.update status v]> statuses)
  end.
Fixpoint statuses_of_attestations (s : State.t) (l : list PendingAttestation.t) (statuses : list ValidatorStatus.t)
    : outcome BeaconStateError.t (list ValidatorStatus.t) :=
  match l with
  | [] => Ok statuses
  | a :: rest =>
      let data := a.(PendingAttestation.data) in
      committee ← get_beacon_committee spec s data.(AttestationData.slot) data.(AttestationData.index);
      indices ← get_attesting_indices_base committee.(BeaconCommittee.committee) a.(PendingAttestation.aggregation_bits);
      status ← status_of_attestation s a;
      statuses' ← update_statuses status indices statuses;
      statuses_of_attestations s rest statuses'
  end.
Fixpoint total_attesters (statuses : list ValidatorStatus.t) (totals : Totals.t) : outcome ArithError Totals.t :=
  match statuses with
  | [] => Ok totals
  | v :: rest =>
      totals' ← (if v.(ValidatorStatus.is_slashed) then Ok totals else Totals.add_attester v totals);
      total_attesters rest totals'
  end.
Definition statuses_process_attestations (s : State.t) (v : ValidatorStatuses.t) : outcome BeaconStateError.t ValidatorStatuses.t :=
  if negb (bool_decide (State.fork_name s = ForkName.Base)) then Err BeaconStateError.IncorrectStateVariant
  else
    statuses ← statuses_of_attestations s
                 (s.(State.chain).(Chain.previous_epoch_attestations) ++ s.(State.chain).(Chain.current_epoch_attestations))
                 v.(ValidatorStatuses.statuses);
    totals ← into (total_attesters statuses v.(ValidatorStatuses.total_balances));
    Ok (ValidatorStatuses.mk statuses totals).

(** ** Rewards and penalties *)
Definition get_proposer_reward (base_reward : Z) : outcome EpochProcessingError.t Z :=
  into (safe_div base_reward spec.(Spec.proposer_reward_quotient)).
Definition get_attestation_component_delta (attested : bool) (attesting_balance : Z) (totals : Totals.t)
    (base_reward finality_delay : Z) : outcome EpochProcessingError.t Delta.t :=
  let total_balance := Totals.at_least totals totals.(Totals.current_epoch) in
  if attested then
    if spec.(Spec.min_epochs_to_inactivity_penalty) <? finality_delay then Delta.reward base_reward Delta.default
    else
      n ← into (safe_div attesting_balance spec.(Spec.effective_balance_increment));
      numerator ← into (safe_mul base_reward n);
      d ← into (safe_div total_balance spec.(Spec.effective_balance_increment));
      reward ← into (safe_div numerator d);
      Delta.reward reward Delta.default
  else Delta.penalize base_reward Delta.default.
Definition get_source_delta (v : ValidatorStatus.t) (base_reward : Z) (totals : Totals.t) (finality_delay : Z) :=
  get_attestation_component_delta (v.(ValidatorStatus.is_previous_epoch_attester) && negb v.(ValidatorStatus.is_slashed))
    (Totals.at_least totals totals.(Totals.previous_epoch_attesters)) totals base_reward finality_delay.
Definition get_target_delta (v : ValidatorStatus.t) (base_reward : Z) (totals : Totals.t) (finality_delay : Z) :=
  get_attestation_component_delta
    (v.(ValidatorStatus.is_previous_epoch_target_attester) && negb v.(ValidatorStatus.is_slashed))
    (Totals.at_least totals totals.(Totals.previous_epoch_target_attesters)) totals base_reward finality_delay.
Definition get_head_delta (v : ValidatorStatus.t) (base_reward : Z) (totals : Totals.t) (finality_delay : Z) :=
  get_attestation_component_delta
    (v.(ValidatorStatus.is_previous_epoch_head_attester) && negb v.(ValidatorStatus.is_slashed))
    (Totals.at_least totals totals.(Totals.previous_epoch_head_attesters)) totals base_reward finality_delay.
Definition get_inclusion_delay_delta (v : ValidatorStatus.t) (base_reward : Z)
    : outcome EpochProcessingError.t (Delta.t * option (nat * Delta.t)) :=
  if v.(ValidatorStatus.is_previous_epoch_attester) && negb v.(ValidatorStatus.is_slashed) then
    info ← ok_or v.(ValidatorStatus.inclusion_info) EpochProcessingError.ValidatorStatusesInconsistent;
    proposer_reward ← get_proposer_reward base_reward;
    proposer_delta ← Delta.reward proposer_reward Delta.default;
    max_attester_reward ← into (safe_sub base_reward proposer_reward);
    reward ← into (safe_div max_attester_reward info.(InclusionInfo.delay));
    delta ← Delta.reward reward Delta.default;
    Ok (delta, Some (info.(InclusionInfo.proposer_index), proposer_delta))
  else Ok (Delta.default, None).
Definition base_inactivity_penalty_delta (v : ValidatorStatus.t) (base_reward finality_delay : Z)
    : outcome EpochProcessingError.t Delta.t :=
  if spec.(Spec.min_epochs_to_inactivity_penalty) <? finality_delay then
    n ← into (safe_mul spec.(Spec.base_rewards_per_epoch) base_reward);
    proposer_reward ← get_proposer_reward base_reward;
    n ← into (safe_sub n proposer_reward);
    delta ← Delta.penalize n Delta.default;
    if v.(ValidatorStatus.is_slashed) || negb v.(ValidatorStatus.is_previous_epoch_target_attester) then
      n ← into (safe_mul v.(ValidatorStatus.current_epoch_effective_balance) finality_delay);
      n ← into (safe_div n spec.(Spec.inactivity_penalty_quotient));
      Delta.penalize n delta
    else Ok delta
  else Ok Delta.default.

(** [include] tells the validators of the subset; [proposer_reward] whether
    proposers are rewarded. *)
Definition deltas_of (totals : Totals.t) (sqrt_total finality_delay : Z) (proposer_reward : bool) (included : nat → bool)
    (index : nat) (v : ValidatorStatus.t) (deltas : list AttestationDelta.t)
    : outcome EpochProcessingError.t (list AttestationDelta.t) :=
  if negb v.(ValidatorStatus.is_eligible) then Ok deltas
  else
    base_reward ← into (base_get_base_reward spec v.(ValidatorStatus.current_epoch_effective_balance) sqrt_total);
    '(inclusion_delay_delta, proposer_delta) ← get_inclusion_delay_delta v base_reward;
    deltas ←
      (if included index then
         source ← get_source_delta v base_reward totals finality_delay;
         target ← get_target_delta v base_reward totals finality_delay;
         head ← get_head_delta v base_reward totals finality_delay;
         penalty ← base_inactivity_penalty_delta v base_reward finality_delay;
         delta ← ok_or (deltas !! index) (EpochProcessingError.DeltaOutOfBounds index);
         delta ← AttestationDelta.combine (AttestationDelta.mk source target head inclusion_delay_delta penalty) delta;
         Ok (<[index := delta]> deltas)
       else Ok deltas);
    match proposer_delta with
    | Some (proposer_index, proposer_delta) =>
        if proposer_reward && included proposer_index then
          delta ← ok_or (deltas !! proposer_index) EpochProcessingError.ValidatorStatusesInconsistent;
          delta ← AttestationDelta.combine_inclusion_delay proposer_delta delta;
          Ok (<[proposer_index := delta]> deltas)
        else Ok deltas
    | None => Ok deltas
    end.
Fixpoint deltas_from (totals : Totals.t) (sqrt_total finality_delay : Z) (proposer_reward : bool) (included : nat → bool)
    (index : nat) (statuses : list ValidatorStatus.t) (deltas : list AttestationDelta.t)
    : outcome EpochProcessingError.t (list AttestationDelta.t) :=
  match statuses with
  | [] => Ok deltas
  | v :: rest =>
      deltas ← deltas_of totals sqrt_total finality_delay proposer_reward included index v deltas;
      deltas_from totals sqrt_total finality_delay proposer_reward included (S index) rest deltas
  end.
Definition get_attestation_deltas (s : State.t) (v : ValidatorStatuses.t) (proposer_reward : bool) (included : nat → bool)
    : outcome EpochProcessingError.t (list AttestationDelta.t) :=
  finality_delay ← into (safe_sub (st_previous_epoch spec s) (State.finalized_checkpoint s).(Checkpoint.epoch));
  let totals := v.(ValidatorStatuses.total_balances) in
  deltas_from totals (Z.sqrt (Totals.at_least totals totals.(Totals.current_epoch))) finality_delay proposer_reward included
    0 v.(ValidatorStatuses.statuses) (replicate (length (State.validators s)) AttestationDelta.default).
Definition get_attestation_deltas_all (s : State.t) (v : ValidatorStatuses.t) (proposer_reward : bool) :=
  get_attestation_deltas s v proposer_reward (fun _ => true).
(** [enumerate] and [filter]. *)
Fixpoint select_deltas (included : nat → bool) (i : nat) (l : list AttestationDelta.t) : list (nat * AttestationDelta.t) :=
  match l with
  | [] => []
  | d :: rest => (if included i then [(i, d)] else []) ++ select_deltas included (S i) rest
  end.
Definition get_attestation_deltas_subset (s : State.t) (v : ValidatorStatuses.t) (proposer_reward : bool) (subset : list nat)
    : outcome EpochProcessingError.t (list (nat * AttestationDelta.t)) :=
  let included := fun i => bool_decide (i ∈ subset) in
  deltas ← get_attestation_deltas s v proposer_reward included;
  Ok (select_deltas included 0 deltas).

Fixpoint apply_deltas (i : nat) (l : list AttestationDelta.t) : EoM unit :=
  match l with
  | [] => mret tt
  | d :: rest =>
      combined ← lift (AttestationDelta.flatten d);
      call (increase_balance i combined.(Delta.rewards));;
      call (decrease_balance i combined.(Delta.penalties));;
      apply_deltas (S i) rest
  end.
Definition base_process_rewards_and_penalties (v : ValidatorStatuses.t) : EoM unit :=
  s ← get;
  if current_epoch spec s =? genesis_epoch then mret tt
  else
    let n := length v.(ValidatorStatuses.statuses) in
    if negb (n =? length s.(State.registry).(Registry.balances))%nat || negb (n =? length (State.validators s))%nat
    then throw EpochProcessingError.ValidatorStatusesInconsistent
    else
      deltas ← lift (get_attestation_deltas_all s v true);
      apply_deltas 0 deltas.

(** ** Registry updates *)
(** The indices, from [i] on, of the validators that [f] selects. *)
Fixpoint indices_where (f : Validator.t → bool) (i : nat) (l : list Validator.t) : list nat :=
  match l with
  | [] => []
  | v :: rest => (if f v then [i] else []) ++ indices_where f (S i) rest
  end.
Definition is_ejectable (e : Epoch) (v : Validator.t) : bool :=
  Validator.is_active_at v e && (v.(Validator.effective_balance) <=? spec.(Spec.ejection_balance)).
Definition update_registry_entry (f : ForkName.t) (e : Epoch) (index : nat) : EoM unit :=
  s ← get;
  v ← try (get_validator s index);
  v ← (if ValidatorOps.is_eligible_for_activation_queue spec v f then
         next ← try (safe_add e 1);
         let v := ValidatorOps.set_activation_eligibility_epoch next v in
         call (update_validator index (fun _ => v));; mret v
       else mret v);
  when (is_ejectable e v) (call (initiate_validator_exit spec index)).
Definition process_registry_updates : EoM unit :=
  s ← get;
  let e := current_epoch spec s in
  let f := State.fork_name s in
  for_each (indices_where (fun v => ValidatorOps.is_eligible_for_activation_queue spec v f || is_ejectable e v) 0
              (State.validators s)) (update_registry_entry f e);;
  s ← get;
  churn_limit ← try (get_activation_churn_limit spec s);
  queue ← try (EpochCache.get_activation_queue s.(State.caches).(Caches.epoch_cache));
  let activation_queue :=
    ActivationQueue.get_validators_eligible_for_activation (State.finalized_checkpoint s).(Checkpoint.epoch)
      (Z.to_nat churn_limit) queue in
  delayed ← try (compute_activation_exit_epoch spec e);
  for_each activation_queue (fun i => call (update_validator i (ValidatorOps.set_activation_epoch delayed))).

(** ** Slashings *)
Fixpoint slashed_at (target : Epoch) (i : nat) (l : list Validator.t) : list (nat * Z) :=
  match l with
  | [] => []
  | v :: rest =>
      (if v.(Validator.slashed) && (target =? v.(Validator.withdrawable_epoch)) then [(i, v.(Validator.effective_balance))]
       else []) ++ slashed_at target (S i) rest
  end.
Definition process_slashings (total_balance : Z) : EoM unit :=
  s ← get;
  sum_slashings ← try (safe_sum s.(State.registry).(Registry.slashings) 0);
  n ← try (safe_mul sum_slashings (proportional_slashing_multiplier_for_state spec (State.fork_name s)));
  let adjusted := Z.min n total_balance in
  half ← try (safe_div spec.(Spec.epochs_per_slashings_vector) 2);
  target ← try (safe_add (current_epoch spec s) half);
  for_each (slashed_at target 0 (State.validators s)) (fun '(index, effective_balance) =>
    let increment := spec.(Spec.effective_balance_increment) in
    n ← try (safe_div effective_balance increment);
    n ← try (safe_mul n adjusted);
    n ← try (safe_div n total_balance);
    penalty ← try (safe_mul n increment);
    call (decrease_balance index penalty)).

(** ** Effective balances *)
(** The loop over the validators from [index] on, with the sum of the balances of
    the next epoch. *)
Fixpoint update_balances_from (eb : EffectiveBalancesContext.t) (next : Epoch) (index n : nat) (total : Z) : EoM Z :=
  match n with
  | O => mret total
  | S n' =>
      s ← get;
      v ← try (get_validator s index);
      balance ← lift (ok_or (s.(State.registry).(Registry.balances) !! index)
                        (EpochProcessingError.BeaconStateError (BeaconStateError.BalancesOutOfBounds index)));
      let old := v.(Validator.effective_balance) in
      low ← try (safe_add balance eb.(EffectiveBalancesContext.downward_threshold));
      changed ← (if low <? old then mret true
                 else high ← try (safe_add old eb.(EffectiveBalancesContext.upward_threshold)); mret (high <? balance));
      new ← (if changed : bool then
               r ← try (safe_rem balance spec.(Spec.effective_balance_increment));
               rounded ← try (safe_sub balance r);
               mret (Z.min rounded spec.(Spec.max_effective_balance))
             else mret old);
      total' ← (if Validator.is_active_at v next then try (safe_add total new) else mret total);
      when (negb (new =? old)) (call (update_validator index (ValidatorOps.set_effective_balance new)));;
      update_balances_from eb next (S index) n' total'
  end.
Definition process_effective_balance_updates : EoM unit :=
  s ← get;
  next ← try (next_epoch spec s);
  eb ← lift (effective_balances_context spec);
  total ← update_balances_from eb next 0 (length (State.validators s)) 0;
  modify (State.on_core (set_total_active_balance spec.(Spec.effective_balance_increment) next total)).

Definition process_participation_record_updates : EoM unit :=
  s ← get;
  if negb (bool_decide (State.fork_name s = ForkName.Base))
  then throw (EpochProcessingError.BeaconStateError BeaconStateError.IncorrectStateVariant)
  else modify (State.on_chain (fun c =>
         Chain.set_current_epoch_attestations [] (Chain.set_previous_epoch_attestations c.(Chain.current_epoch_attestations) c))).
End base.
