(* ===== verification/UpgradeDefs.v ===== *)
(** * Fork upgrades

    [state_processing/src/upgrade]: each fork's transformation of the state of the
    fork before it, and the next sync committee
    ([get_next_sync_committee] of [beacon_state.rs]), which the first one needs.

    The source moves the lists and caches out of the old state while it builds the
    new one, and puts the new one in its place at the end: when a later step fails,
    the old state is left without them ([taken]). *)
From S2P Require Import Prelude SlotEpoch ProtoArrayDefs ForkChoiceDefs ForkSchedule BeaconStateDefs.
From S2P Require Import ValidatorDefs ShuffleDefs CommitteeDefs SlashingDefs DoppelgangerDefs ValidatorStoreDefs.
From S2P Require Import StateDefs RegistryDefs BlockDefs EpbsDefs JustificationDefs EpochCacheDefs OperationsDefs RequestDefs.
From S2P Require Import EpochGloasDefs EpochPassDefs.

Section upgrade.
Context (hash : list Z → list Z) (spec : Spec.t) (forks : ForkSpec.t) (fuel : nat).
(** Decompress the keys, aggregate them, and compress the result. *)
Context (aggregate_pubkeys : list PublicKeyBytes → option PublicKeyBytes).
Context (deposit_signature : DepositData.t → bool).
Abbreviation spe := (spec.(Spec.slots_per_epoch)).

(** ** The next sync committee *)
(** [found] are the members, the last one first. *)
Fixpoint sync_committee_loop (s : State.t) (indices : list nat) (seed : list Z) (size : nat) (n : nat) (i : Z)
    (cached : option (Z * list Z)) (found : list nat) : outcome BeaconStateError.t (list nat) :=
  if (size <=? length found)%nat then Ok (rev found)
  else
    match n with
    | O => Diverge
    | S n' =>
        let is_electra := ForkName.ge (State.fork_name s) ForkName.Electra in
        let per_group := if is_electra then 16 else 32 in
        pos ← into (safe_rem i (Z.of_nat (length indices)));
        shuffled ←
          match compute_shuffled_index hash (Z.to_nat pos) (length indices) seed spec.(Spec.shuffle_round_count) with
          | Ok (Some j) => Ok j
          | Ok None => Err BeaconStateError.UnableToShuffle
          | Err _ | Panic => Panic
          | Diverge => Diverge
          end;
        candidate ← ok_or (indices !! shuffled) (BeaconStateError.ShuffleIndexOutOfBounds shuffled);
        let hash_group := i / per_group in
        let bytes := random_bytes_of hash seed hash_group cached in
        random_value ← random_value_of is_electra bytes i;
        balance ← get_effective_balance s candidate;
        weight ← into (safe_mul balance (if is_electra then MAX_RANDOM_VALUE else MAX_RANDOM_BYTE));
        threshold ← into (safe_mul (max_effective_balance_for_fork spec (State.fork_name s)) random_value);
        let found' := if threshold <=? weight then candidate :: found else found in
        i' ← into (safe_add i 1);
        sync_committee_loop s indices seed size n' i' (Some (hash_group, bytes)) found'
    end.
Definition get_next_sync_committee_indices (s : State.t) : outcome BeaconStateError.t (list nat) :=
  e ← into (safe_add (current_epoch spec s) 1);
  indices ← st_get_active_validator_indices spec s e;
  seed ← get_seed hash spec s.(State.chain).(Chain.randao_mixes) e spec.(Spec.domain_sync_committee);
  sync_committee_loop s indices seed (Z.to_nat spec.(Spec.sync_committee_size)) fuel 0 None [].
Fixpoint pubkeys_of (s : State.t) (indices : list nat) : outcome BeaconStateError.t (list PublicKeyBytes) :=
  match indices with
  | [] => Ok []
  | i :: rest =>
      v ← get_validator s i;
      keys ← pubkeys_of s rest;
      Ok (v.(Validator.pubkey) :: keys)
  end.
Definition get_next_sync_committee (s : State.t) : outcome BeaconStateError.t SyncCommittee.t :=
  indices ← get_next_sync_committee_indices s;
  pubkeys ← pubkeys_of s indices;
  aggregate_pubkey ← ok_or (aggregate_pubkeys pubkeys) BeaconStateError.BlsError;
  if Z.of_nat (length pubkeys) =? spec.(Spec.sync_committee_size) then Ok (SyncCommittee.mk pubkeys aggregate_pubkey)
  else Err BeaconStateError.SszTypesError.

(** ** What upgrades share *)
(** [as_base_mut], [as_altair_mut], ... *)
Definition require_fork (f : ForkName.t) (s : State.t) : outcome BeaconStateError.t unit :=
  if bool_decide (State.fork_name s = f) then Ok tt else Err BeaconStateError.IncorrectStateVariant.

(** The fields that every upgrade carries over or sets: [fork] and the variant. *)
Definition upgraded (f : ForkName.t) (s : State.t) : State.t :=
  State.on_chain (Chain.set_fork (Fork.mk s.(State.chain).(Chain.fork).(Fork.current_version)
                    (fork_version_for_name forks f) (current_epoch spec s)))
    (State.on_core (BeaconState.set_fork_name f) s).
Definition reset_builder_pubkey_cache : State.t → State.t := State.on_caches (Caches.set_builder_pubkey_cache ∅).
Definition reset_epoch_cache : State.t → State.t := State.on_caches (Caches.set_epoch_cache EpochCache.default).

(** The state that [mem::take] leaves. *)
Definition taken (s : State.t) : State.t :=
  State.mk
    (BeaconState.set_progressive None (BeaconState.set_participation [] [] (BeaconState.set_validators [] s.(State.core))))
    (Chain.set_historical_roots [] (Chain.set_historical_summaries [] (Chain.set_eth1_data_votes [] s.(State.chain))))
    (Registry.set_balances [] (Registry.set_inactivity_scores [] s.(State.registry)))
    (Queues.set_pending_deposits [] (Queues.set_pending_partial_withdrawals [] (Queues.set_pending_consolidations [] s.(State.queues))))
    s.(State.epbs)
    (Caches.mk (replicate 3 CommitteeCache.default) PubkeyCache.default s.(State.caches).(Caches.builder_pubkey_cache)
       ExitCache.default SlashingsCache.default s.(State.caches).(Caches.epoch_cache)).
(** The last three upgrades take these too. *)
Definition taken_late (s : State.t) : State.t :=
  reset_epoch_cache
    (State.on_chain (Chain.set_proposer_lookahead (replicate (Z.to_nat spec.(Spec.proposer_lookahead_slots)) 0)) (taken s)).

(** Work on the new state; the old one is [left] until the work is done. *)
Definition replace_state (left post : State.t) (m : StM unit) : StM unit := fun _ =>
  let '(r, post') := m post in
  (r, match r with Ok _ => post' | _ => left end).

(** ** Altair *)
Definition add_flag_of (index : Z) (flag_index : nat) : StM unit :=
  s ← get;
  participation ← lift (st_previous_epoch_participation s);
  let i := Z.to_nat index in
  flags ← lift (ok_or (participation !! i) (BeaconStateError.UnknownValidator i));
  flags' ← try (ParticipationFlags.add_flag flag_index flags);
  modify (State.on_core (fun c =>
    BeaconState.set_participation (<[i := flags']> participation) c.(BeaconState.current_epoch_participation) c)).
Definition translate_attestation (a : PendingAttestation.t) : StM unit :=
  s ← get;
  let data := a.(PendingAttestation.data) in
  flag_indices ← lift (get_attestation_participation_flag_indices spec s data a.(PendingAttestation.inclusion_delay));
  committee ← lift (get_beacon_committee spec s data.(AttestationData.slot) data.(AttestationData.index));
  indices ← lift (get_attesting_indices_base committee.(BeaconCommittee.committee) a.(PendingAttestation.aggregation_bits));
  for_each indices (fun index => for_each flag_indices (add_flag_of index)).
Definition translate_participation (pending_attestations : list PendingAttestation.t) : StM unit :=
  build_committee_cache hash spec Previous;;
  for_each pending_attestations translate_attestation.

Definition temporary_sync_committee : SyncCommittee.t :=
  SyncCommittee.mk (replicate (Z.to_nat spec.(Spec.sync_committee_size)) 0) 0.
Definition upgrade_to_altair : StM unit :=
  s ← get;
  lift (require_fork ForkName.Base s);;
  let n := length (State.validators s) in
  let flags := replicate n ParticipationFlags.default in
  let post :=
    reset_epoch_cache (reset_builder_pubkey_cache
      (State.on_core (BeaconState.set_participation flags flags)
        (State.on_registry (Registry.set_inactivity_scores (replicate n 0))
          (State.on_chain (fun c =>
             Chain.set_previous_epoch_attestations [] (Chain.set_current_epoch_attestations []
               (Chain.set_current_sync_committee temporary_sync_committee
                 (Chain.set_next_sync_committee temporary_sync_committee c))))
             (upgraded ForkName.Altair s))))) in
  replace_state (taken s) post (
    translate_participation s.(State.chain).(Chain.previous_epoch_attestations);;
    on_core (initialize_progressive_balances_cache spe spec.(Spec.effective_balance_increment));;
    post ← get;
    committee ← lift (get_next_sync_committee post);
    modify (State.on_chain (fun c =>
      Chain.set_next_sync_committee committee (Chain.set_current_sync_committee committee c)))).

(** ** Bellatrix, Capella, Deneb *)
Definition default_header (f : ForkName.t) : ExecutionPayloadHeader.t :=
  ExecutionPayloadHeader.mk f 0 0 0 0 0 true false.
(** A header of the next variant; the new fields have their defaults, so that a
    default header stays one. *)
Definition header_upgrade_to_capella (h : ExecutionPayloadHeader.t) : ExecutionPayloadHeader.t :=
  ExecutionPayloadHeader.mk ForkName.Capella h.(ExecutionPayloadHeader.parent_hash) h.(ExecutionPayloadHeader.prev_randao)
    h.(ExecutionPayloadHeader.timestamp) h.(ExecutionPayloadHeader.block_hash) 0
    h.(ExecutionPayloadHeader.is_default_with_zero_roots) false.
Definition header_upgrade_to (f : ForkName.t) (h : ExecutionPayloadHeader.t) : ExecutionPayloadHeader.t :=
  ExecutionPayloadHeader.mk f h.(ExecutionPayloadHeader.parent_hash) h.(ExecutionPayloadHeader.prev_randao)
    h.(ExecutionPayloadHeader.timestamp) h.(ExecutionPayloadHeader.block_hash) h.(ExecutionPayloadHeader.withdrawals_root)
    h.(ExecutionPayloadHeader.is_default_with_zero_roots) h.(ExecutionPayloadHeader.is_default_with_empty_roots).
Definition on_header (f : ExecutionPayloadHeader.t → ExecutionPayloadHeader.t) : State.t → State.t :=
  State.on_chain (fun c => Chain.set_latest_execution_payload_header (f c.(Chain.latest_execution_payload_header)) c).

Definition upgrade_to_bellatrix : StM unit :=
  s ← get;
  lift (require_fork ForkName.Altair s);;
  modify (fun s => reset_epoch_cache (reset_builder_pubkey_cache
    (on_header (fun _ => default_header ForkName.Bellatrix) (upgraded ForkName.Bellatrix s)))).
Definition upgrade_to_capella : StM unit :=
  s ← get;
  lift (require_fork ForkName.Bellatrix s);;
  modify (fun s => reset_epoch_cache (reset_builder_pubkey_cache
    (State.on_registry (fun r => Registry.set_next_withdrawal_validator_index 0 (Registry.set_next_withdrawal_index 0 r))
      (State.on_chain (Chain.set_historical_summaries [])
        (on_header header_upgrade_to_capella (upgraded ForkName.Capella s)))))).
Definition upgrade_to_deneb : StM unit :=
  s ← get;
  lift (require_fork ForkName.Capella s);;
  modify (fun s => reset_epoch_cache (reset_builder_pubkey_cache
    (on_header (header_upgrade_to ForkName.Deneb) (upgraded ForkName.Deneb s)))).

(** ** Electra *)
Definition upgrade_state_to_electra (earliest_exit_epoch earliest_consolidation_epoch : Epoch) (s : State.t) : State.t :=
  reset_epoch_cache (reset_builder_pubkey_cache
    (State.on_queues (fun _ =>
       Queues.mk spec.(Spec.unset_deposit_requests_start_index) 0 0 earliest_exit_epoch 0 earliest_consolidation_epoch [] [] [])
      (on_header (header_upgrade_to ForkName.Electra) (upgraded ForkName.Electra s)))).
(** The largest exit epoch of the validators that exit. *)
Definition max_exit_epoch (validators : list Validator.t) (activation_exit_epoch : Epoch) : Epoch :=
  foldr Z.max activation_exit_epoch
    (Validator.exit_epoch <$> filter (fun v => v.(Validator.exit_epoch) ≠ spec.(Spec.far_future_epoch)) validators).
(** The validators without an activation epoch, by eligibility epoch and index. *)
Fixpoint pre_activation_from (i : nat) (l : list Validator.t) : list (Epoch * nat) :=
  match l with
  | [] => []
  | v :: rest =>
      (if v.(Validator.activation_epoch) =? spec.(Spec.far_future_epoch)
       then [(v.(Validator.activation_eligibility_epoch), i)] else []) ++ pre_activation_from (S i) rest
  end.
Definition pre_activation (l : list Validator.t) : list nat :=
  snd <$> BTreeSet.from_iter ActivationQueue.compare (pre_activation_from 0 l).
Definition queue_entire_balance (index : nat) : StM unit :=
  s ← get;
  let balances := s.(State.registry).(Registry.balances) in
  balance ← lift (ok_or (balances !! index) (BeaconStateError.UnknownValidator index));
  modify (set_balances (<[index := 0]> balances));;
  v ← lift (get_validator s index);
  update_validator index (fun v =>
    ValidatorOps.set_activation_eligibility_epoch spec.(Spec.far_future_epoch) (ValidatorOps.set_effective_balance 0 v));;
  push_pending_deposit spec (PendingDeposit.mk v.(Validator.pubkey) v.(Validator.withdrawal_credentials) balance
    infinity_signature spec.(Spec.genesis_slot)).
Fixpoint compounding_from (i : nat) (l : list Validator.t) : list nat :=
  match l with
  | [] => []
  | v :: rest => (if has_compounding_withdrawal_credential spec v then [i] else []) ++ compounding_from (S i) rest
  end.
Definition upgrade_to_electra : StM unit :=
  s ← get;
  let e := current_epoch spec s in
  activation_exit_epoch ← try (compute_activation_exit_epoch spec e);
  earliest_exit_epoch ← try (safe_add (max_exit_epoch (State.validators s) activation_exit_epoch) 1);
  build_total_active_balance_cache spec;;
  earliest_consolidation_epoch ← try (compute_activation_exit_epoch spec e);
  s ← get;
  lift (require_fork ForkName.Deneb s);;
  replace_state (taken s) (upgrade_state_to_electra earliest_exit_epoch earliest_consolidation_epoch s) (
    post ← get;
    limit ← lift (get_activation_exit_churn_limit spec post);
    modify (State.on_queues (Queues.set_exit_balance_to_consume limit));;
    post ← get;
    limit ← lift (get_consolidation_churn_limit spec post);
    modify (State.on_queues (Queues.set_consolidation_balance_to_consume limit));;
    post ← get;
    for_each (pre_activation (State.validators post)) queue_entire_balance;;
    post ← get;
    for_each (compounding_from 0 (State.validators post)) (queue_excess_active_balance spec)).

(** ** Fulu *)
Fixpoint proposer_lookahead_from (s : State.t) (i : Z) (count : nat) : outcome BeaconStateError.t (list Z) :=
  match count with
  | O => Ok []
  | S count' =>
      target_epoch ← into (safe_add (current_epoch spec s) i);
      proposers ← get_beacon_proposer_indices hash spec forks fuel s target_epoch;
      rest ← proposer_lookahead_from s (i + 1) count';
      Ok ((Z.of_nat <$> proposers) ++ rest)
  end.
Definition initialize_proposer_lookahead (s : State.t) : outcome BeaconStateError.t (list Z) :=
  n ← into (safe_add spec.(Spec.min_seed_lookahead) 1);
  lookahead ← proposer_lookahead_from s 0 (Z.to_nat n);
  if Z.of_nat (length lookahead) =? spec.(Spec.proposer_lookahead_slots) then Ok lookahead
  else Err BeaconStateError.MilhouseError.
Definition upgrade_to_fulu : StM unit :=
  s ← get;
  proposer_lookahead ← lift (initialize_proposer_lookahead s);
  lift (require_fork ForkName.Electra s);;
  modify (fun s => reset_builder_pubkey_cache
    (State.on_chain (Chain.set_proposer_lookahead proposer_lookahead)
      (on_header (header_upgrade_to ForkName.Fulu) (upgraded ForkName.Fulu s)))).

(** ** Gloas *)
(** The number of slots of the history is a multiple of eight, as the bytes of the
    bit vector need. *)
Definition upgrade_state_to_gloas (s : State.t) : State.t :=
  let block_hash := s.(State.chain).(Chain.latest_execution_payload_header).(ExecutionPayloadHeader.block_hash) in
  reset_builder_pubkey_cache
    (State.on_epbs (fun _ =>
       Epbs.mk [] 0 (replicate (Z.to_nat spec.(Spec.slots_per_historical_root)) true)
         (replicate (Z.to_nat spec.(Spec.builder_pending_payments_limit)) BuilderPendingPayment.default) []
         block_hash (PayloadBid.mk 0 0 block_hash 0 0 0 0 0 0 0 [] []) []
         (replicate (Z.to_nat spec.(Spec.ptc_window_slots)) (empty_ptc spec)))
      (upgraded ForkName.Gloas s)).

Definition onboard_new_builder (builder : Builder.t) (new_index : nat) : StM unit :=
  s ← get;
  builders ← lift (st_builders s);
  let pubkey := builder.(Builder.pubkey) in
  if (new_index <? length builders)%nat then
    let old_pubkey := Builder.pubkey <$> builders !! new_index in
    modify (set_builders (<[new_index := builder]> builders));;
    s ← get;
    let cache := s.(State.caches).(Caches.builder_pubkey_cache) in
    let cache := match old_pubkey with Some old => BuilderPubkeyCache.remove old cache | None => cache end in
    modify (set_builder_pubkey_cache (BuilderPubkeyCache.insert pubkey new_index cache))
  else
    builders' ← try (Milhouse.push spec.(Spec.builder_registry_limit) builder builders);
    modify (set_builders builders');;
    s ← get;
    modify (set_builder_pubkey_cache
      (BuilderPubkeyCache.insert pubkey (length builders) s.(State.caches).(Caches.builder_pubkey_cache))).
Definition apply_builder_deposit (d : PendingDeposit.t) : StM unit :=
  s ← get;
  let pubkey := d.(PendingDeposit.pubkey) in
  let credentials := d.(PendingDeposit.withdrawal_credentials) in
  match BuilderPubkeyCache.get pubkey s.(State.caches).(Caches.builder_pubkey_cache) with
  | Some index =>
      builders ← lift (st_builders s);
      builder ← lift (ok_or (builders !! index) (BeaconStateError.UnknownValidator index));
      modify (set_builders
        (<[index := Builder.set_balance (u64_saturating_add builder.(Builder.balance) d.(PendingDeposit.amount)) builder]>
           builders))
  | None =>
      when (deposit_signature (DepositData.mk pubkey credentials d.(PendingDeposit.amount) d.(PendingDeposit.signature))) (
        builders ← lift (st_builders s);
        onboard_new_builder
          (Builder.mk pubkey (credential_prefix credentials) (credential_address credentials)
             d.(PendingDeposit.amount) (epoch d.(PendingDeposit.slot) spe) spec.(Spec.far_future_epoch))
          (get_index_for_new_builder builders (current_epoch spec s)))
  end.

(** The loop over the deposits: those that stay, the last one first, and the keys
    of the validators to come. *)
Fixpoint onboard_loop (deposits : list PendingDeposit.t) (kept : list PendingDeposit.t) (new_validator_pubkeys : list PublicKeyBytes)
    : StM (list PendingDeposit.t) :=
  match deposits with
  | [] => mret (rev kept)
  | d :: rest =>
      s ← get;
      let pubkey := d.(PendingDeposit.pubkey) in
      let caches := s.(State.caches) in
      if bool_decide (is_Some (PubkeyCache.get pubkey caches.(Caches.pubkey_cache)))
         || bool_decide (pubkey ∈ new_validator_pubkeys)
      then onboard_loop rest (d :: kept) new_validator_pubkeys
      else if bool_decide (is_Some (BuilderPubkeyCache.get pubkey caches.(Caches.builder_pubkey_cache)))
              || (credential_prefix d.(PendingDeposit.withdrawal_credentials) =? 3)
      then apply_builder_deposit d;; onboard_loop rest kept new_validator_pubkeys
      else if deposit_signature (DepositData.mk pubkey d.(PendingDeposit.withdrawal_credentials)
                d.(PendingDeposit.amount) d.(PendingDeposit.signature))
      then onboard_loop rest (d :: kept) (new_validator_pubkeys ++ [pubkey])
      else onboard_loop rest kept new_validator_pubkeys
  end.
Definition onboard_builders_from_pending_deposits : StM unit :=
  update_pubkey_cache;;
  s ← get;
  pending_deposits ← lift (st_pending_deposits s);
  kept ← onboard_loop pending_deposits [] [];
  modify (State.on_queues (Queues.set_pending_deposits kept)).

Definition window_error (e : EpochProcessingError.t) : BeaconStateError.t :=
  match e with
  | EpochProcessingError.BeaconStateError e => e
  | EpochProcessingError.SszTypesError => BeaconStateError.SszTypesError
  | EpochProcessingError.ArithError e => BeaconStateError.Arith e
  | _ => BeaconStateError.PtcWindowInitError
  end.
Definition upgrade_to_gloas : StM unit :=
  s ← get;
  lift (require_fork ForkName.Fulu s);;
  replace_state (taken_late s) (upgrade_state_to_gloas s) (
    onboard_builders_from_pending_deposits;;
    build_committee_cache hash spec Current;;
    build_committee_cache hash spec Next;;
    post ← get;
    ptc_window ← lift (map_err window_error (initialize_ptc_window hash spec fuel post));
    modify (State.on_epbs (Epbs.set_ptc_window ptc_window))).

(** ** Heze *)
Definition bid_to_heze (b : PayloadBid.t) : PayloadBid.t :=
  PayloadBid.mk b.(PayloadBid.parent_block_hash) b.(PayloadBid.parent_block_root) b.(PayloadBid.block_hash)
    b.(PayloadBid.prev_randao) b.(PayloadBid.fee_recipient) b.(PayloadBid.gas_limit) b.(PayloadBid.builder_index)
    b.(PayloadBid.slot) b.(PayloadBid.value) b.(PayloadBid.execution_payment) b.(PayloadBid.blob_kzg_commitments)
    (replicate (Z.to_nat spec.(Spec.inclusion_list_committee_size)) false).
Definition upgrade_to_heze : StM unit :=
  s ← get;
  lift (require_fork ForkName.Gloas s);;
  modify (fun s =>
    State.on_epbs (fun e => Epbs.set_latest_execution_payload_bid (bid_to_heze e.(Epbs.latest_execution_payload_bid)) e)
      (upgraded ForkName.Heze s)).
End upgrade.
