(* ===== verification/SlotDefs.v ===== *)
(** * The end of an epoch and the next slot

    [state_processing/src/per_epoch_processing.rs] with [altair.rs], [base.rs],
    [resets.rs], [historical_roots_update.rs],
    [capella/historical_summaries_update.rs] and
    [altair/sync_committee_updates.rs]: the passes over the state in the order of
    the fork; and [per_slot_processing.rs]: the roots of the slot that ends, the end
    of an epoch, the next slot and the upgrades scheduled at it. *)
From S2P Require Import Prelude SlotEpoch ProtoArrayDefs ForkChoiceDefs ForkSchedule BeaconStateDefs.
From S2P Require Import ValidatorDefs ShuffleDefs CommitteeDefs SlashingDefs DoppelgangerDefs ValidatorStoreDefs.
From S2P Require Import StateDefs RegistryDefs BlockDefs EpbsDefs JustificationDefs EpochCacheDefs OperationsDefs RequestDefs.
From S2P Require Import EpochGloasDefs EpochPassDefs EpochBaseDefs UpgradeDefs.

Module EpochProcessingSummary.
Inductive t : Type :=
  | Base (total_balances : Totals.t) (statuses : list ValidatorStatus.t)
  | Altair (progressive_balances : ProgressiveBalancesCache.t) (current_epoch_total_active_balance : Z)
      (participation : ParticipationEpochSummary.t) (sync_committee : SyncCommittee.t).
End EpochProcessingSummary.

Module SlotProcessingError.
Inductive t : Type :=
  | BeaconStateError (e : BeaconStateError.t)
  | EpochProcessingError (e : EpochProcessingError.t)
  | ArithError (e : ArithError)
  | InconsistentStateFork (fork_at_slot object_fork : ForkName.t).
End SlotProcessingError.
#[export] Instance state_slot_error : From BeaconStateError.t SlotProcessingError.t := SlotProcessingError.BeaconStateError.
#[export] Instance epoch_slot_error : From EpochProcessingError.t SlotProcessingError.t := SlotProcessingError.EpochProcessingError.
#[export] Instance arith_slot_error : From ArithError SlotProcessingError.t := SlotProcessingError.ArithError.
Abbreviation SlM := (M State.t SlotProcessingError.t).

Section slot.
Context (hash : list Z → list Z) (spec : Spec.t) (forks : ForkSpec.t) (fuel : nat).
Context (state_root : State.t → outcome BeaconStateError.t Hash256) (header_root : BeaconBlockHeader.t → Hash256).
(** The tree hashes of a vector of roots and of a [HistoricalBatch]. *)
Context (roots_root : list Hash256 → Hash256) (batch_root : list Hash256 → list Hash256 → Hash256).
Context (aggregate_pubkeys : list PublicKeyBytes → option PublicKeyBytes).
Context (deposit_signature : DepositData.t → bool).
Abbreviation spe := (spec.(Spec.slots_per_epoch)).

(** ** Resets and accumulators *)
Definition process_eth1_data_reset : EoM unit :=
  s ← get;
  n ← try (safe_add (State.slot s) 1);
  r ← try (safe_rem n spec.(Spec.slots_per_eth1_voting_period));
  when (r =? 0) (modify (State.on_chain (Chain.set_eth1_data_votes []))).
Definition process_slashings_reset : EoM unit :=
  s ← get;
  next ← try (next_epoch spec s);
  call (set_slashings spec next 0).
Definition process_randao_mixes_reset : EoM unit :=
  s ← get;
  next ← try (next_epoch spec s);
  mix ← try (get_randao_mix spec s (current_epoch spec s));
  call (set_randao_mix spec next mix).

(** Is the next epoch the first of a period of the history? *)
Definition history_is_full (s : State.t) : outcome EpochProcessingError.t bool :=
  next ← into (next_epoch spec s);
  period ← into (safe_div spec.(Spec.slots_per_historical_root) spe);
  r ← into (safe_rem next period);
  Ok (r =? 0).
Definition process_historical_roots_update : EoM unit :=
  s ← get;
  full ← lift (history_is_full s);
  when full (
    let core := s.(State.core) in
    roots ← try (Milhouse.push spec.(Spec.historical_roots_limit)
                   (batch_root core.(BeaconState.block_roots) core.(BeaconState.state_roots))
                   s.(State.chain).(Chain.historical_roots));
    modify (State.on_chain (Chain.set_historical_roots roots))).
Definition process_historical_summaries_update : EoM unit :=
  s ← get;
  full ← lift (history_is_full s);
  when full (
    let core := s.(State.core) in
    summaries ← try (st_historical_summaries s);
    summaries ← try (Milhouse.push spec.(Spec.historical_roots_limit)
                       (HistoricalSummary.mk (roots_root core.(BeaconState.block_roots)) (roots_root core.(BeaconState.state_roots)))
                       summaries);
    modify (State.on_chain (Chain.set_historical_summaries summaries))).

Definition process_sync_committee_updates : EoM unit :=
  s ← get;
  next ← try (next_epoch spec s);
  r ← try (safe_rem next spec.(Spec.epochs_per_sync_committee_period));
  when (r =? 0) (
    committee ← try (st_next_sync_committee s);
    modify (State.on_chain (Chain.set_current_sync_committee committee));;
    s ← get;
    committee ← try (get_next_sync_committee hash spec fuel aggregate_pubkeys s);
    modify (State.on_chain (Chain.set_next_sync_committee committee))).

(** ** The end of an epoch *)
Definition build_epoch_caches : EoM unit :=
  call (build_committee_cache hash spec Previous);;
  call (build_committee_cache hash spec Current);;
  call (build_committee_cache hash spec Next);;
  call (build_total_active_balance_cache spec);;
  call (initialize_epoch_cache spec forks).
Definition altair_process_epoch : EoM EpochProcessingSummary.t :=
  build_epoch_caches;;
  call (on_core (initialize_progressive_balances_cache spe spec.(Spec.effective_balance_increment)));;
  s ← get;
  sync_committee ← try (st_current_sync_committee s);
  jf ← lift (process_justification_and_finalization spe s.(State.core));
  modify (State.on_core (apply_changes_to_state jf));;
  s ← get;
  let progressive_balances := s.(State.core).(BeaconState.progressive_balances_cache) in
  total_active_balance ← try (get_total_active_balance spe s.(State.core));
  participation ← process_epoch_single_pass hash spec forks fuel state_root header_root deposit_signature SinglePassConfig.enable_all;
  process_eth1_data_reset;;
  process_slashings_reset;;
  process_randao_mixes_reset;;
  s ← get;
  (if ForkName.ge (State.fork_name s) ForkName.Capella then process_historical_summaries_update
   else process_historical_roots_update);;
  call (on_core process_participation_flag_updates);;
  process_sync_committee_updates;;
  call advance_caches;;
  call (on_core (update_progressive_balances_on_epoch_transition spec.(Spec.effective_balance_increment)));;
  mret (EpochProcessingSummary.Altair progressive_balances total_active_balance participation sync_committee).
Definition base_process_epoch : EoM EpochProcessingSummary.t :=
  build_epoch_caches;;
  s ← get;
  statuses ← try (statuses_new spec s);
  statuses ← try (statuses_process_attestations spec s statuses);
  let totals := statuses.(ValidatorStatuses.total_balances) in
  jf ← lift (base_process_justification_and_finalization spe s.(State.core) (Totals.for_justification totals));
  modify (State.on_core (apply_changes_to_state jf));;
  base_process_rewards_and_penalties spec statuses;;
  process_registry_updates spec;;
  process_slashings spec (Totals.at_least totals totals.(Totals.current_epoch));;
  process_eth1_data_reset;;
  process_effective_balance_updates spec;;
  process_slashings_reset;;
  process_randao_mixes_reset;;
  process_historical_roots_update;;
  process_participation_record_updates;;
  call advance_caches;;
  mret (EpochProcessingSummary.Base totals statuses.(ValidatorStatuses.statuses)).

(** [state.fork_name(spec)]: the variant must be the one of the slot. *)
Definition inconsistent_fork (s : State.t) : option (ForkName.t * ForkName.t) :=
  let at_slot := fork_name_at_epoch forks (current_epoch spec s) in
  if bool_decide (at_slot = State.fork_name s) then None else Some (at_slot, State.fork_name s).
Definition process_epoch : EoM EpochProcessingSummary.t :=
  s ← get;
  match inconsistent_fork s with
  | Some (at_slot, object) => throw (EpochProcessingError.InconsistentStateFork at_slot object)
  | None => if ForkName.ge (State.fork_name s) ForkName.Altair then altair_process_epoch else base_process_epoch
  end.

(** ** The next slot *)
Definition set_slot (slot : Slot) : State.t → State.t := State.on_core (BeaconState.set_slot slot).
Definition set_state_root (slot : Slot) (root : Hash256) : StM unit :=
  s ← get;
  let core := s.(State.core) in
  let roots := core.(BeaconState.state_roots) in
  i ← lift (latest_roots_index (length roots) (State.slot s) slot);
  v ← lift (set_at roots i root (BeaconStateError.StateRootsOutOfBounds i));
  modify (State.on_core (BeaconState.set_roots core.(BeaconState.block_roots) v)).
Definition set_block_root (slot : Slot) (root : Hash256) : StM unit :=
  s ← get;
  let core := s.(State.core) in
  let roots := core.(BeaconState.block_roots) in
  i ← lift (latest_roots_index (length roots) (State.slot s) slot);
  v ← lift (set_at roots i root (BeaconStateError.BlockRootsOutOfBounds i));
  modify (State.on_core (BeaconState.set_roots v core.(BeaconState.state_roots))).

(** The payload of the next slot is not known to be available. *)
Definition unset_availability : SlM unit :=
  s ← get;
  when (ForkName.ge (State.fork_name s) ForkName.Gloas) (
    i ← try (safe_rem (State.slot s) spec.(Spec.slots_per_historical_root));
    match st_execution_payload_availability s with
    | Ok availability =>
        v ← try (set_at availability (Z.to_nat i) false BeaconStateError.SlotOutOfBounds);
        modify (State.on_epbs (Epbs.set_execution_payload_availability v))
    | _ => mret tt
    end).
Definition cache_state (root : option Hash256) : SlM unit :=
  s ← get;
  previous_state_root ← match root with Some root => mret root | None => try (state_root s) end;
  let previous_slot := State.slot s in
  next_slot ← try (safe_add previous_slot 1);
  modify (set_slot next_slot);;
  call (set_state_root previous_slot previous_state_root);;
  s ← get;
  let header := State.latest_block_header s in
  when (header.(BeaconBlockHeader.state_root) =? 0)
    (modify (State.on_chain (Chain.set_latest_block_header (EpochCacheDefs.set_state_root previous_state_root header))));;
  s ← get;
  call (set_block_root previous_slot (header_root (State.latest_block_header s)));;
  unset_availability;;
  s ← get;
  slot ← try (safe_sub (State.slot s) 1);
  modify (set_slot slot).

(** The upgrades of the forks whose first epoch starts, in order. *)
Definition upgrade_at (fork_epoch : option Epoch) (upgrade : StM unit) : SlM unit :=
  s ← get;
  when (bool_decide (fork_epoch = Some (current_epoch spec s))) (call upgrade).
Definition process_upgrades : SlM unit :=
  upgrade_at forks.(ForkSpec.altair_fork_epoch) (upgrade_to_altair hash spec forks fuel aggregate_pubkeys);;
  upgrade_at forks.(ForkSpec.bellatrix_fork_epoch) (upgrade_to_bellatrix spec forks);;
  upgrade_at forks.(ForkSpec.capella_fork_epoch) (upgrade_to_capella spec forks);;
  upgrade_at forks.(ForkSpec.deneb_fork_epoch) (upgrade_to_deneb spec forks);;
  upgrade_at forks.(ForkSpec.electra_fork_epoch) (upgrade_to_electra spec forks);;
  upgrade_at forks.(ForkSpec.fulu_fork_epoch) (upgrade_to_fulu hash spec forks fuel);;
  upgrade_at forks.(ForkSpec.gloas_fork_epoch) (upgrade_to_gloas hash spec forks fuel deposit_signature);;
  upgrade_at forks.(ForkSpec.heze_fork_epoch) (upgrade_to_heze spec forks).

Definition build_caches : StM unit :=
  build_all_committee_caches hash spec;;
  update_pubkey_cache;;
  build_exit_cache spec;;
  build_slashings_cache.

Definition ends_epoch (s : State.t) : outcome ArithError bool :=
  if spec.(Spec.genesis_slot) <? State.slot s then
    n ← safe_add (State.slot s) 1;
    r ← safe_rem n spe;
    Ok (r =? 0)
  else Ok false.
Definition per_slot_processing (root : option Hash256) : SlM (option EpochProcessingSummary.t) :=
  s ← get;
  match inconsistent_fork s with
  | Some (at_slot, object) => throw (SlotProcessingError.InconsistentStateFork at_slot object)
  | None =>
      cache_state root;;
      s ← get;
      last ← try (ends_epoch s);
      summary ← (if last : bool then summary ← call process_epoch; mret (Some summary) else mret None);
      s ← get;
      slot ← try (safe_add (State.slot s) 1);
      modify (set_slot slot);;
      r ← try (safe_rem slot spe);
      when (r =? 0) (process_upgrades;; call build_caches);;
      mret summary
  end.
End slot.
