(* ===== verification/StateExample.v ===== *)
(** * A chain of states

    A small network in the minimal configuration, from the last state without
    builders: the upgrade brings in one builder; its bid is accepted, its payload
    arrives, and the next block pays it out of its balance. *)
From S2P Require Import Prelude SlotEpoch ProtoArrayDefs ForkChoiceDefs ForkSchedule BeaconStateDefs.
From S2P Require Import ValidatorDefs ShuffleDefs ShuffleCorrect CommitteeDefs SlashingDefs DoppelgangerDefs ValidatorStoreDefs.
From S2P Require Import StateDefs RegistryDefs BlockDefs EpbsDefs JustificationDefs EpochCacheDefs OperationsDefs RequestDefs.
From S2P Require Import BlockProcessingDefs EpochGloasDefs EpochPassDefs EpochBaseDefs UpgradeDefs SlotDefs.

Definition tx_spec : Spec.t := Spec.minimal.
Definition tx_forks : ForkSpec.t :=
  ForkSpec.mk (Some 0) (Some 0) (Some 0) (Some 0) (Some 0) (Some 0) (Some 70) None 0 1 2 3 4 5 6 7 8 u64_max 1 [].
Definition tx_fuel : nat := 200.

(** What the models take from other crates: hashes, roots and signatures. *)
Definition tx_hash2 (a b : Hash256) : Hash256 := a + b.
Definition tx_signature_set (_ : State.t) (_ : Signed.t) : outcome SignatureSetError.t bool := Ok true.
Definition tx_valid (_ : State.t) (_ : Signed.t) : bool := true.
Definition tx_decompress (_ : PublicKeyBytes) : bool := true.
Definition tx_bulk (_ : State.t) (_ : SignedBlock.t) : bool := true.
Definition tx_deposit_signature (_ : DepositData.t) : bool := true.
Definition tx_attestation_root (_ : BlockAttestation.t) : Hash256 := 0.
Definition tx_deposit_root (_ : DepositData.t) : Hash256 := 0.
Definition tx_header_root (h : BeaconBlockHeader.t) : Hash256 := 1000 + h.(BeaconBlockHeader.slot).
Definition tx_state_root (s : State.t) : outcome BeaconStateError.t Hash256 := Ok (5000 + State.slot s).
Definition tx_withdrawals_root (l : list Withdrawal.t) : Hash256 := Z.of_nat (length l).
Definition tx_bls_credentials (k : PublicKeyBytes) : Z := k.
Definition tx_roots_root (l : list Hash256) : Hash256 := foldr Z.add 0 l.
Definition tx_batch_root (a b : list Hash256) : Hash256 := tx_roots_root a + tx_roots_root b.
Definition tx_aggregate (l : list PublicKeyBytes) : option PublicKeyBytes := Some (foldr Z.add 0 l).

(** Eight validators, the first slot of epoch 70, epoch 68 final. *)
Definition gwei : Z := 10 ^ 9.
Definition tx_validator (k : nat) : Validator.t :=
  Validator.mk (Z.of_nat k) 0 (32 * gwei) false 0 0 u64_max u64_max.
Definition tx_committee : SyncCommittee.t := SyncCommittee.mk (replicate 32 0) 0.
Definition tx_cp (e : Epoch) : Checkpoint.t := Checkpoint.mk e 0.
Definition tx_core : BeaconState.t :=
  BeaconState.mk ForkName.Fulu 560 (replicate 64 7) (replicate 64 8) (tx_validator <$> seq 0 8)
    (replicate 8 0) (replicate 8 0) [false; false; false; false] (tx_cp 69) (tx_cp 69) (tx_cp 68) None None.
Definition tx_payload_header : ExecutionPayloadHeader.t :=
  ExecutionPayloadHeader.mk ForkName.Fulu 1 0 0 77 0 false false.
Definition tx_chain : Chain.t :=
  Chain.mk 0 0 (Fork.mk 5 6 0) (BeaconBlockHeader.mk 559 0 0 9 0) [] [] (replicate 64 3)
    (Eth1Data.mk 0 0 0) [] 0 tx_committee tx_committee (replicate 16 0) [] [] tx_payload_header.
(** A deposit with the credentials of a builder. *)
Definition tx_deposit : PendingDeposit.t := PendingDeposit.mk 500 (3 * 2 ^ 248 + 42) (40 * gwei) 0 0.
Definition tx_fulu : State.t :=
  State.mk tx_core tx_chain (Registry.mk (replicate 8 (32 * gwei)) (replicate 8 0) (replicate 64 0) 0 0)
    (Queues.mk 0 0 0 0 0 0 [tx_deposit] [] [])
    (Epbs.mk [] 0 [] [] [] 0 (PayloadBid.mk 0 0 0 0 0 0 0 0 0 0 [] []) [] [])
    (Caches.mk (replicate 3 CommitteeCache.default) PubkeyCache.default ∅ ExitCache.default SlashingsCache.default
       EpochCache.default).

Abbreviation tx_run_upgrade := (upgrade_to_gloas toy_hash tx_spec tx_forks tx_fuel tx_deposit_signature).
Abbreviation tx_run_slot :=
  (per_slot_processing toy_hash tx_spec tx_forks tx_fuel tx_state_root tx_header_root tx_roots_root tx_batch_root tx_aggregate
     tx_deposit_signature).
Abbreviation tx_run_block block :=
  (per_block_processing toy_hash tx_hash2 tx_spec tx_forks tx_fuel tx_signature_set tx_valid tx_decompress tx_bulk
     tx_deposit_signature tx_attestation_root tx_deposit_root tx_header_root tx_withdrawals_root tx_bls_credentials
     block BlockSignatureStrategy.VerifyIndividual true).
Abbreviation tx_run_envelope root envelope :=
  (process_execution_payload_envelope tx_spec tx_signature_set tx_deposit_signature tx_header_root tx_state_root
     root envelope false).

Definition tx_gloas : State.t := (tx_run_upgrade tx_fulu).2.
Definition tx_561 : State.t := (tx_run_slot None tx_gloas).2.

(** The bid of the builder in the block of slot 561. *)
Definition tx_bid : PayloadBid.t := PayloadBid.mk 77 1559 88 3 600 30 0 561 (5 * gwei) 0 [] [].
Definition tx_block (slot : Slot) (parent_root : Hash256) (bid : SignedBid.t) : SignedBlock.t :=
  SignedBlock.mk ForkName.Gloas slot 0 parent_root 0 (1000 + slot) 0 [1; 2; 3] (Eth1Data.mk 0 0 0) [] [] [] [] []
    (Some (SyncAggregate.mk (replicate 32 true) 0)) None (Some []) None None (Some bid) (Some []).
Definition tx_block_561 : SignedBlock.t := tx_block 561 1559 (SignedBid.mk ForkName.Gloas tx_bid false 0).
Definition tx_with_bid : State.t :=
  (tx_run_block tx_block_561 (Block.mk tx_561 (ConsensusContext.new tx_spec 561))).2.(Block.state).

(** Its payload. *)
Definition tx_envelope : SignedEnvelope.t :=
  SignedEnvelope.mk (ExecutionPayload.mk 77 3 30 (561 * tx_spec.(Spec.seconds_per_slot)) 88 []) (ExecutionRequests.mk [] [] [])
    0 1561 561 0 0.
Definition tx_with_payload : State.t := (tx_run_envelope None tx_envelope tx_with_bid).2.
Definition tx_562 : State.t := (tx_run_slot None tx_with_payload).2.

(** The block of slot 562, which the proposer builds itself. *)
Definition tx_randao (s : State.t) : Hash256 := default 0 (s.(State.chain).(Chain.randao_mixes) !! 6%nat).
Definition tx_self_bid : PayloadBid.t :=
  PayloadBid.mk 88 1561 99 (tx_randao tx_562) 0 30 tx_spec.(Spec.builder_index_self_build) 562 0 0 [] [].
Definition tx_block_562 : SignedBlock.t := tx_block 562 1561 (SignedBid.mk ForkName.Gloas tx_self_bid true 0).
Definition tx_paid : State.t :=
  (tx_run_block tx_block_562 (Block.mk tx_562 (ConsensusContext.new tx_spec 562))).2.(Block.state).

(** The slots without a block that end epoch 70. *)
Fixpoint tx_skip (n : nat) (s : State.t) : State.t :=
  match n with
  | O => s
  | S n' => tx_skip n' (tx_run_slot None s).2
  end.
Definition tx_567 : State.t := tx_skip 5 tx_paid.
Definition tx_568 : State.t := (tx_run_slot None tx_567).2.
