(* ===== verification/SinglePass.v ===== *)
(** * The single pass is the passes of the specification, one after another

    [process_epoch_single_pass] gives each validator its whole turn - inactivity
    score, reward, registry, slashing, deposits, effective balance - before the
    next one, where the specification makes one pass over all validators for each
    of these.  A pass of its own is what the code runs when a single flag of
    [SinglePassConfig] is set.  The turns share the exit queue and the running
    balances; a step of the pass belongs to a kind that says which of these it may
    touch, and steps of different kinds on different validators commute. *)
From S2P Require Import Prelude Runs SlotEpoch ProtoArrayDefs ForkChoiceDefs ForkSchedule BeaconStateDefs.
From S2P Require Import ValidatorDefs ShuffleDefs CommitteeDefs SlashingDefs DoppelgangerDefs ValidatorStoreDefs.
From S2P Require Import StateDefs RegistryDefs BlockDefs EpbsDefs JustificationDefs EpochCacheDefs EpochGloasDefs EpochPassDefs.
From S2P Require Import StateExample.
From Stdlib Require Import Sorting.Sorted.

(** ** What a step may touch besides the entries of its validator *)
Inductive kind : Type := Local | Exits | Balances.

Definition share (k : kind) (from c : Cell.t) : Cell.t :=
  match k with
  | Local => c
  | Exits =>
      Cell.mk c.(Cell.validator) c.(Cell.balance) c.(Cell.inactivity_score) from.(Cell.exit_cache)
        c.(Cell.progressive_balances) from.(Cell.next_queue) from.(Cell.earliest_exit_epoch)
        from.(Cell.exit_balance_to_consume) c.(Cell.next_epoch_cache)
  | Balances =>
      Cell.mk c.(Cell.validator) c.(Cell.balance) c.(Cell.inactivity_score) c.(Cell.exit_cache)
        from.(Cell.progressive_balances) c.(Cell.next_queue) c.(Cell.earliest_exit_epoch)
        c.(Cell.exit_balance_to_consume) from.(Cell.next_epoch_cache)
  end.
Definition of_kind (k : kind) (m : CellM unit) : Prop := ∀ k' from, k' ≠ k → blind (share k' from) m.

Lemma of_kind_keeps k k' m c : of_kind k m → k' ≠ k → (m c).2 = share k' c (m c).2.
Proof.
  intros Hm Hk. pose proof (Hm k' c Hk c) as H. replace (share k' c c) with c in H by (by destruct k', c).
  by rewrite H at 1.
Qed.

Section steps.
Context (spec : Spec.t) (previous : Epoch) (ctxt : StateContext.t).
Abbreviation turn := (ValidatorInfo.t → CellM unit).
Abbreviation PassM := (M (State.t * Carry.t) EpochProcessingError.t).

(** [pass_step] with any turn in place of [process_validator]. *)
Definition step (m : turn) (i : nat) (p c : Z) : PassM unit :=
  x ← get;
  let s := x.1 in
  v ← lift (ok_or (State.validators s !! i) (unknown_validator i));
  balance ← lift (ok_or (s.(State.registry).(Registry.balances) !! i) (unknown_validator i));
  score ← lift (ok_or (s.(State.registry).(Registry.inactivity_scores) !! i) (unknown_validator i));
  info ← lift (validator_info s previous ctxt i v p c);
  zoom (cell_of v balance score) (put_cell i) (m info).

(** What a step of a kind writes: the entries of [i] and the shared part. *)
Definition write (k : kind) (i : nat) (c : Cell.t) (x : State.t * Carry.t) : State.t * Carry.t :=
  put_cell i (share k c (cell_of c.(Cell.validator) c.(Cell.balance) c.(Cell.inactivity_score) x)) x.

Definition entry (i : nat) (p c : Z) (s : State.t) : outcome EpochProcessingError.t (Validator.t * Z * Z * ValidatorInfo.t) :=
  v ← ok_or (State.validators s !! i) (unknown_validator i);
  balance ← ok_or (s.(State.registry).(Registry.balances) !! i) (unknown_validator i);
  score ← ok_or (s.(State.registry).(Registry.inactivity_scores) !! i) (unknown_validator i);
  info ← validator_info s previous ctxt i v p c;
  Ok (v, balance, score, info).
Lemma step_eq m i p c x :
  step m i p c x =
  (lift (entry i p c x.1) ≫= fun '(v, balance, score, info) => zoom (cell_of v balance score) (put_cell i) (m info)) x.
Proof.
  unfold step, entry, get, lift. unfold mbind at 1 2 3 4 5 6, M_bind. cbn beta iota zeta.
  destruct (State.validators x.1 !! i) as [v|]; [|done]. cbn [ok_or mbind outcome_bind].
  destruct (_ !! i) as [b|]; [|done]. cbn [ok_or mbind outcome_bind].
  destruct (_ !! i) as [sc|]; [|done]. cbn [ok_or mbind outcome_bind].
  by destruct (validator_info _ _ _ _ _ _ _).
Qed.
Lemma step_ok m i p c x x' :
  step m i p c x = (Ok tt, x') ↔
  ∃ v balance score info c',
    entry i p c x.1 = Ok (v, balance, score, info) ∧
    m info (cell_of v balance score x) = (Ok tt, c') ∧ x' = put_cell i c' x.
Proof.
  rewrite step_eq, bind_ok. split.
  - intros ([[[v b] sc] info] & x1 & [= He <-] & H). unfold zoom in H. destruct (m info _) as [r c'] eqn:Hm.
    simplify_eq. by exists v, b, sc, info, c'.
  - intros (v & b & sc & info & c' & He & Hm & ->). exists (v, b, sc, info), x. unfold lift. rewrite He. split; [done|].
    unfold zoom. by rewrite Hm.
Qed.

Lemma put_cell_write k i c' x c0 :
  (∀ k', k' ≠ k → c' = share k' c0 c') → c0 = cell_of c0.(Cell.validator) c0.(Cell.balance) c0.(Cell.inactivity_score) x →
  put_cell i c' x = write k i c' x.
Proof.
  intros Hk Hc. unfold write. f_equal. destruct c' as [v b sc ec pb q e t n]. simpl in *.
  rewrite Hc in Hk. unfold cell_of in *. destruct k; simpl in *; f_equal;
    first [by injection (Hk Exits ltac:(done)) | by injection (Hk Balances ltac:(done)) | done].
Qed.

Lemma step_writes k m i p c x x' :
  (∀ info, of_kind k (m info)) → step m i p c x = (Ok tt, x') → ∃ c', x' = write k i c' x.
Proof.
  intros Hm (v & b & sc & info & c' & _ & Hrun & ->)%step_ok. exists c'.
  eapply (put_cell_write _ _ _ _ (cell_of v b sc x)); [|done]. intros k' Hk.
  pose proof (of_kind_keeps k k' _ (cell_of v b sc x) (Hm info) Hk) as H. by rewrite Hrun in H.
Qed.

Lemma cell_of_write k i c v b sc x : cell_of v b sc (write k i c x) = share k c (cell_of v b sc x).
Proof. by destruct k. Qed.
Lemma put_write k i j c d x :
  i ≠ j → put_cell j (share k c d) (write k i c x) = write k i c (put_cell j d x).
Proof.
  intros Hij. unfold write, put_cell. f_equal; [|by destruct k].
  destruct k; unfold write_cell, State.on_core, State.on_registry, State.on_caches; simpl; f_equal.
  all: unfold BeaconState.set_progressive, BeaconState.set_validators, Registry.set_balances, Registry.set_inactivity_scores; simpl.
  all: f_equal; by apply list_insert_insert_ne.
Qed.

Lemma entry_write k i j p c d x : i ≠ j → entry j p c (write k i d x).1 = entry j p c x.1.
Proof.
  intros Hij. unfold entry. change (validator_info (write k i d x).1) with (validator_info x.1).
  assert (State.validators (write k i d x).1 !! j = State.validators x.1 !! j) as -> by (destruct k; by apply list_lookup_insert_ne).
  destruct k; simpl; rewrite !list_lookup_insert_ne by done; done.
Qed.

(** A step on [j] is blind to what steps of other kinds, or of kind [Local], write
    for [i]. *)
Lemma step_blind k k' m i j p c d :
  (∀ info, of_kind k (m info)) → i ≠ j → (k' = Local ∨ k' ≠ k) → blind (write k' i d) (step m j p c).
Proof.
  intros Hm Hij Hk x. rewrite !step_eq, entry_write by done. unfold mbind, M_bind, lift.
  destruct (entry j p c x.1) as [[[[v b] sc] info]| | |]; [|done..]. unfold zoom. rewrite cell_of_write.
  assert (blind (share k' d) (m info)) as Hb by (destruct Hk as [->|Hk]; [intros y; unfold share; by destruct (m info y)|by apply Hm]).
  rewrite Hb. destruct (m info _) as [r c']. cbn [fst snd]. by rewrite put_write.
Qed.

Lemma write_comm k1 k2 i j c d x :
  i ≠ j → (k1 ≠ k2 ∨ k1 = Local) → write k1 i c (write k2 j d x) = write k2 j d (write k1 i c x).
Proof.
  intros Hij Hk. unfold write at 1. rewrite cell_of_write.
  replace (share k1 c (share k2 d _)) with
    (share k2 d (share k1 c (cell_of c.(Cell.validator) c.(Cell.balance) c.(Cell.inactivity_score) x)))
    by (destruct Hk as [Hk| ->]; [destruct k1, k2; done|done]).
  by apply put_write.
Qed.

Lemma steps_commute k1 k2 m1 m2 i j p c p' c' :
  (∀ info, of_kind k1 (m1 info)) → (∀ info, of_kind k2 (m2 info)) → i ≠ j → (k1 ≠ k2 ∨ k1 = Local) →
  commute (step m1 i p c) (step m2 j p' c').
Proof.
  intros H1 H2 Hij Hk.
  apply (blind_commute (fun f => ∃ d, f = write k1 i d) (fun f => ∃ d, f = write k2 j d)).
  - intros x x' (d & Hd)%(step_writes k1); [|done]. exists (write k1 i d). eauto.
  - intros x x' (d & Hd)%(step_writes k2); [|done]. exists (write k2 j d). eauto.
  - intros f (d & ->). apply (step_blind k1); [done..|]. destruct Hk as [Hk| ->]; [by right|destruct k2; auto].
  - intros f (d & ->). apply (step_blind k2); [done..|]. destruct Hk as [Hk| ->]; [by right|by left].
  - intros f g x (d & ->) (e & ->). by apply write_comm.
Qed.
End steps.

(** ** The kinds of the phases *)
Section kinds.
Context (spec : Spec.t) (ctxt : StateContext.t).

Lemma of_kind_ret k : of_kind k (mret tt).
Proof. intros k' from _. apply blind_ret. Qed.
Lemma of_kind_seq k m1 m2 : of_kind k m1 → of_kind k m2 → of_kind k (seq_of m1 m2).
Proof. intros H1 H2 k' from Hk. apply blind_bind; [by apply H1|intros _; by apply H2]. Qed.
Lemma of_kind_when k b m : of_kind k m → of_kind k (when b m).
Proof. intros H k' from Hk. apply blind_when. by apply H. Qed.

Lemma inactivity_local info : of_kind Local (process_single_inactivity_update spec ctxt info).
Proof.
  intros k' from Hk. destruct k'; [done|..];
    unfold process_single_inactivity_update, forgive_inactivity; blind_steps.
Qed.
Lemma rewards_local info r : of_kind Local (process_single_reward_and_penalty spec ctxt info r).
Proof. intros k' from Hk. destruct k'; [done|..]; unfold process_single_reward_and_penalty; blind_steps. Qed.
Lemma slashing_local sl : of_kind Local (process_single_slashing spec ctxt sl).
Proof. intros k' from Hk. destruct k'; [done|..]; unfold process_single_slashing; blind_steps. Qed.
Lemma deposits_local info d : of_kind Local (process_pending_deposits_for_validator info d).
Proof. intros k' from Hk. destruct k'; [done|..]; unfold process_pending_deposits_for_validator; blind_steps. Qed.

Lemma exit_exits churn : of_kind Exits (ps_initiate_validator_exit spec ctxt churn).
Proof.
  intros k' from Hk. destruct k'; [intros c; unfold share; by destruct (ps_initiate_validator_exit _ _ _ c)|done|].
  unfold ps_initiate_validator_exit, ps_compute_exit_epoch_and_update_churn; blind_steps.
Qed.
Lemma registry_exits info q : of_kind Exits (process_single_registry_update spec ctxt info q).
Proof.
  intros k' from Hk. destruct k'; [intros c; unfold share; by destruct (process_single_registry_update _ _ _ _ c)|done|].
  pose proof (fun churn => exit_exits churn Balances from ltac:(done)) as Hexit.
  unfold process_single_registry_update, process_single_registry_update_post_electra,
    process_single_registry_update_pre_electra, queue_for_activation, eject, activate. blind_steps; try apply Hexit.
Qed.
Definition effective_balance_turn (cx : contexts) (info : ValidatorInfo.t) : CellM unit :=
  if bool_decide (info.(ValidatorInfo.index) ∈ cx.(cx_consolidations))
  then process_single_dummy_effective_balance_update ctxt info.(ValidatorInfo.index)
  else
    c ← get;
    zoom Cell.eb Cell.set_eb
      (process_single_effective_balance_update spec ctxt cx.(cx_effective_balances) info.(ValidatorInfo.index) c.(Cell.balance)
         info.(ValidatorInfo.current_epoch_participation)).
Lemma effective_balances cx info : of_kind Balances (effective_balance_turn cx info).
Proof.
  intros k' from Hk. destruct k'; [intros c; unfold share; by destruct (effective_balance_turn _ _ c)| |done].
  unfold effective_balance_turn, process_single_dummy_effective_balance_update. blind_steps.
  apply blind_zoom; done.
Qed.

(** ** The phases of a turn *)
Definition with_conf (conf : SinglePassConfig.t) (deposits : option PendingDepositsContext.t) (cx : contexts) : contexts :=
  mk_contexts conf cx.(cx_rewards) cx.(cx_slashings) deposits cx.(cx_activation_queue) cx.(cx_consolidations)
    cx.(cx_effective_balances).
(** The passes of the specification, in its order: one flag at a time. *)
Definition phases (cx : contexts) : list contexts :=
  let on := cx.(conf) in
  let off := SinglePassConfig.disable_all in
  [ with_conf (SinglePassConfig.set_inactivity_updates on.(SinglePassConfig.inactivity_updates) off) None cx;
    with_conf (SinglePassConfig.set_rewards_and_penalties on.(SinglePassConfig.rewards_and_penalties) off) None cx;
    with_conf (SinglePassConfig.set_registry_updates on.(SinglePassConfig.registry_updates) off) None cx;
    with_conf (SinglePassConfig.set_slashings on.(SinglePassConfig.slashings) off) None cx;
    with_conf off cx.(cx_deposits) cx;
    with_conf (SinglePassConfig.set_effective_balance_updates on.(SinglePassConfig.effective_balance_updates) off) None cx ].

Abbreviation started := (negb (ctxt.(StateContext.current_epoch) =? genesis_epoch)).
Definition bodies (cx : contexts) (info : ValidatorInfo.t) : list (CellM unit) :=
  let on := cx.(conf) in
  [ when (started && on.(SinglePassConfig.inactivity_updates)) (process_single_inactivity_update spec ctxt info);
    when (started && on.(SinglePassConfig.rewards_and_penalties)) (process_single_reward_and_penalty spec ctxt info cx.(cx_rewards));
    when on.(SinglePassConfig.registry_updates) (process_single_registry_update spec ctxt info cx.(cx_activation_queue));
    when on.(SinglePassConfig.slashings) (process_single_slashing spec ctxt cx.(cx_slashings));
    match cx.(cx_deposits) with Some d => process_pending_deposits_for_validator info d | None => mret tt end;
    when on.(SinglePassConfig.effective_balance_updates) (effective_balance_turn cx info) ].

Lemma process_validator_seq cx info :
  process_validator spec ctxt cx info =
  let on := cx.(conf) in
  seq_of (if started then
            seq_of (when on.(SinglePassConfig.inactivity_updates) (process_single_inactivity_update spec ctxt info))
              (when on.(SinglePassConfig.rewards_and_penalties) (process_single_reward_and_penalty spec ctxt info cx.(cx_rewards)))
          else mret tt)
    (seq_of (when on.(SinglePassConfig.registry_updates) (process_single_registry_update spec ctxt info cx.(cx_activation_queue)))
       (seq_of (when on.(SinglePassConfig.slashings) (process_single_slashing spec ctxt cx.(cx_slashings)))
          (seq_of match cx.(cx_deposits) with Some d => process_pending_deposits_for_validator info d | None => mret tt end
             (when on.(SinglePassConfig.effective_balance_updates) (effective_balance_turn cx info))))).
Proof. reflexivity. Qed.

Lemma process_validator_bodies cx info : same_runs (process_validator spec ctxt cx info) (loop (bodies cx info) id).
Proof.
  rewrite process_validator_seq. unfold bodies. cbn [loop id]. rewrite seq_ret_r.
  destruct started; cbn [andb]; [by rewrite seq_assoc|]. unfold when at 4 5. by rewrite !seq_ret_l.
Qed.
(** A pass of its own runs its phase and nothing else. *)
Lemma process_validator_phase cx k cxk (b : CellM unit) info :
  phases cx !! k = Some cxk → bodies cx info !! k = Some b → same_runs (process_validator spec ctxt cxk info) b.
Proof.
  rewrite process_validator_seq. intros Hc Hb.
  do 6 (destruct k as [|k]; [simpl in Hc, Hb; injection Hc as <-; injection Hb as <-; cbn [with_conf conf cx_deposits];
    unfold SinglePassConfig.disable_all; cbn; destruct started; cbn [andb];
    unfold when; cbn [andb]; rewrite ?seq_ret_l, ?seq_ret_r; done|]). done.
Qed.
Lemma phase_kinds cx k cxk :
  phases cx !! k = Some cxk →
  ∃ kd, [Local; Local; Exits; Local; Local; Balances] !! k = Some kd ∧ ∀ info, of_kind kd (process_validator spec ctxt cxk info).
Proof.
  intros Hc.
  do 6 (destruct k as [|k]; [eexists; split; [reflexivity|]; intros info; simpl in Hc; injection Hc as <-;
    rewrite process_validator_seq; cbn [with_conf conf cx_deposits]; unfold SinglePassConfig.disable_all; cbn;
    repeat first [apply of_kind_seq | apply of_kind_ret | apply of_kind_when | case_match];
    auto using inactivity_local, rewards_local, registry_exits, slashing_local, deposits_local, effective_balances|]).
  done.
Qed.
End kinds.

(** ** A turn is its phases *)
Section rows.
Context (spec : Spec.t) (previous : Epoch) (ctxt : StateContext.t).
Abbreviation turn := (ValidatorInfo.t → CellM unit).

(** A turn that reads what it knows of the validator from the cell. *)
Definition with_info (s : State.t) (i : nat) (p c : Z) (m : turn) : CellM unit :=
  c0 ← get;
  info ← lift (validator_info s previous ctxt i c0.(Cell.validator) p c);
  m info.
Lemma with_info_ok s i p c m c0 c1 :
  with_info s i p c m c0 = (Ok tt, c1) ↔
  ∃ info, validator_info s previous ctxt i c0.(Cell.validator) p c = Ok info ∧ m info c0 = (Ok tt, c1).
Proof.
  unfold with_info, get, lift, mbind, M_bind. split.
  - destruct (validator_info _ _ _ _ _ _ _) as [info| | |]; [|done..]. eauto.
  - by intros (info & -> & H).
Qed.

(** The entries of [i] in the state. *)
Definition has_entry (i : nat) (x : State.t * Carry.t) (c : Cell.t) : Prop :=
  State.validators x.1 !! i = Some c.(Cell.validator) ∧
  x.1.(State.registry).(Registry.balances) !! i = Some c.(Cell.balance) ∧
  x.1.(State.registry).(Registry.inactivity_scores) !! i = Some c.(Cell.inactivity_score) ∧
  c = cell_of c.(Cell.validator) c.(Cell.balance) c.(Cell.inactivity_score) x.

Lemma step_cell m i p c x x' :
  step previous ctxt m i p c x = (Ok tt, x') ↔
  ∃ c0 c1, has_entry i x c0 ∧ with_info x.1 i p c m c0 = (Ok tt, c1) ∧ x' = put_cell i c1 x.
Proof.
  rewrite step_ok. split.
  - intros (v & b & sc & info & c' & He & Hm & ->). unfold entry in He. inv_out He.
    exists (cell_of v b sc x), c'. split_and!; [|apply with_info_ok; eauto|done].
    repeat match goal with H : ok_or _ _ = _ |- _ => apply ok_or_ok in H end. done.
  - intros (c0 & c1 & (Hv & Hb & Hs & Hc) & (info & Hi & Hm)%with_info_ok & ->).
    exists c0.(Cell.validator), c0.(Cell.balance), c0.(Cell.inactivity_score), info, c1. rewrite <-Hc.
    split_and!; [|done..]. unfold entry. rewrite Hv, Hb, Hs. simpl. by rewrite Hi.
Qed.

Lemma has_entry_put i x c0 c1 : has_entry i x c0 → has_entry i (put_cell i c1 x) c1.
Proof.
  intros (Hv & Hb & Hs & _). unfold has_entry. simpl. split_and!.
  - apply list_lookup_insert_eq. by eapply lookup_lt_Some.
  - apply list_lookup_insert_eq. by eapply lookup_lt_Some.
  - apply list_lookup_insert_eq. by eapply lookup_lt_Some.
  - by destruct c1.
Qed.
Lemma has_entry_eq i x c0 c1 : has_entry i x c0 → has_entry i x c1 → c0 = c1.
Proof. intros (Hv & Hb & Hs & ->) (Hv' & Hb' & Hs' & ->). congruence. Qed.
Lemma put_put i c0 c1 x : put_cell i c1 (put_cell i c0 x) = put_cell i c1 x.
Proof.
  unfold put_cell. f_equal. cbn [fst snd]. unfold write_cell, State.on_core, State.on_registry, State.on_caches. simpl. f_equal.
  - unfold BeaconState.set_progressive, BeaconState.set_validators. simpl. f_equal. apply list_insert_insert_eq.
  - unfold Registry.set_balances, Registry.set_inactivity_scores. simpl. f_equal; apply list_insert_insert_eq.
Qed.

(** Steps on the same validator, one after the other, act on its cell. *)
Lemma steps_cell ms i p c x x' c0 :
  has_entry i x c0 →
  loop ms (fun m => step previous ctxt m i p c) x = (Ok tt, x') ↔
  ∃ c1, loop ms (with_info x.1 i p c) c0 = (Ok tt, c1) ∧ x' = (match ms with [] => x | _ => put_cell i c1 x end).
Proof.
  revert x c0. induction ms as [|m ms IH]; intros x c0 H0; cbn [loop].
  { split; [intros [= <-]; eauto|by intros (c1 & _ & ->)]. }
  rewrite seq_ok. split.
  - intros (x1 & (c0' & c1 & H0' & Hm & ->)%step_cell & Hrest).
    assert (c0' = c0) as -> by by eapply has_entry_eq.
    apply (IH _ c1) in Hrest as (c2 & Hrest & ->); [|by eapply has_entry_put].
    exists c2. split; [apply seq_ok; by exists c1|]. destruct ms; [by injection Hrest as <-|apply put_put].
  - intros (c2 & (c1 & Hm & Hrest)%seq_ok & ->). exists (put_cell i c1 x). split; [apply step_cell; eauto|].
    apply (IH _ c1); [by eapply has_entry_put|]. exists c2. split; [done|].
    destruct ms; [by injection Hrest as <-|by rewrite put_put].
Qed.

Lemma validator_info_fields s i v p c info :
  validator_info s previous ctxt i v p c = Ok info →
  info.(ValidatorInfo.index) = i ∧ info.(ValidatorInfo.current_epoch_participation) = c.
Proof. unfold validator_info. intros H. by inv_out H. Qed.

(** The first two phases leave the validator record alone. *)
Lemma bodies_keep cx info k (b : CellM unit) cell cell' :
  bodies spec ctxt cx info !! k = Some b → (k < 2)%nat → b cell = (Ok tt, cell') →
  cell'.(Cell.validator) = cell.(Cell.validator).
Proof.
  intros Hb Hk Hrun.
  assert (keeps (fun c => c.(Cell.validator) = cell.(Cell.validator)) b) as Hkeep.
  { destruct k as [|[|k]]; [..|lia]; simpl in Hb; injection Hb as <-; apply keeps_when;
      unfold process_single_inactivity_update, forgive_inactivity, process_single_reward_and_penalty;
      keeps_steps; by apply keeps_modify. }
  specialize (Hkeep cell eq_refl). by rewrite Hrun in Hkeep.
Qed.
(** The last three read nothing of what is known of the validator but its index and
    its participation. *)
Lemma bodies_info cx info info' k :
  (3 ≤ k)%nat → info.(ValidatorInfo.index) = info'.(ValidatorInfo.index) →
  info.(ValidatorInfo.current_epoch_participation) = info'.(ValidatorInfo.current_epoch_participation) →
  bodies spec ctxt cx info !! k = bodies spec ctxt cx info' !! k.
Proof.
  intros Hk Hi Hc. do 3 (destruct k as [|k]; [lia|]).
  do 3 (destruct k as [|k]; [simpl; unfold effective_balance_turn, process_pending_deposits_for_validator; by rewrite ?Hi, ?Hc|]).
  done.
Qed.

Section one_turn.
Context (s : State.t) (i : nat) (p c : Z) (cx : contexts) (v0 : Validator.t) (info : ValidatorInfo.t).
Context (Hserved : ∀ v, ∃ info, validator_info s previous ctxt i v p c = Ok info).
Context (Hinfo : validator_info s previous ctxt i v0 p c = Ok info).

Lemma phase_step k cxk (b : CellM unit) cell cell' :
  phases cx !! k = Some cxk → bodies spec ctxt cx info !! k = Some b → ((k < 3)%nat → cell.(Cell.validator) = v0) →
  with_info s i p c (process_validator spec ctxt cxk) cell = (Ok tt, cell') ↔ b cell = (Ok tt, cell').
Proof.
  intros Hcx Hb Hv. rewrite with_info_ok. destruct (decide (k < 3)%nat) as [Hk|Hk].
  - rewrite (Hv Hk). pose proof (process_validator_phase spec ctxt cx k cxk b info Hcx Hb cell cell') as Hsame.
    rewrite <-Hsame. split; [intros (info' & Hi & H); rewrite Hinfo in Hi; by injection Hi as <-|eauto].
  - assert (∀ info', validator_info s previous ctxt i cell.(Cell.validator) p c = Ok info' →
      process_validator spec ctxt cxk info' cell = (Ok tt, cell') ↔ b cell = (Ok tt, cell')) as Hany.
    { intros info' [Hi Hc]%validator_info_fields. apply validator_info_fields in Hinfo as [Hi' Hc'].
      rewrite (bodies_info cx info info' k) in Hb; [|lia|congruence..].
      exact (process_validator_phase spec ctxt cx k cxk b info' Hcx Hb cell cell'). }
    split; [intros (info' & Hi & H); by apply (Hany info')|].
    intros H. destruct (Hserved cell.(Cell.validator)) as (info' & Hi). exists info'. split; [done|]. by apply Hany.
Qed.

Lemma phases_bodies n k cell cell' :
  (n + k = 6)%nat → ((k < 3)%nat → cell.(Cell.validator) = v0) →
  loop (drop k (phases cx)) (fun cxk => with_info s i p c (process_validator spec ctxt cxk)) cell = (Ok tt, cell')
  ↔ loop (drop k (bodies spec ctxt cx info)) id cell = (Ok tt, cell').
Proof.
  revert k cell. induction n as [|n IH]; intros k cell Hn Hv.
  { assert (k = 6%nat) as -> by lia. done. }
  destruct (lookup_lt_is_Some_2 (phases cx) k) as (cxk & Hcx); [simpl; lia|].
  destruct (lookup_lt_is_Some_2 (bodies spec ctxt cx info) k) as (b & Hb); [simpl; lia|].
  rewrite (drop_S _ _ _ Hcx), (drop_S _ _ _ Hb). cbn [loop]. rewrite !seq_ok. unfold id at 1.
  assert (∀ cell1, b cell = (Ok tt, cell1) → (S k < 3)%nat → cell1.(Cell.validator) = v0) as Hnext.
  { intros cell1 H Hk. rewrite <-(Hv ltac:(lia)). eapply bodies_keep; [exact Hb|lia|done]. }
  split.
  - intros (cell1 & H1 & H2). apply (phase_step k cxk b) in H1; [|done..]. exists cell1. split; [done|].
    apply IH; [lia|by apply Hnext|done].
  - intros (cell1 & H1 & H2). exists cell1. split; [by apply (phase_step k cxk b)|].
    apply (IH (S k)); [lia|by apply Hnext|done].
Qed.

(** A whole turn runs like its phases. *)
Lemma turn_phases cell cell' :
  cell.(Cell.validator) = v0 →
  with_info s i p c (process_validator spec ctxt cx) cell = (Ok tt, cell')
  ↔ loop (phases cx) (fun cxk => with_info s i p c (process_validator spec ctxt cxk)) cell = (Ok tt, cell').
Proof.
  intros Hv. rewrite (phases_bodies 6 0 cell cell' eq_refl (fun _ => Hv)), drop_0, with_info_ok, Hv.
  pose proof (process_validator_bodies spec ctxt cx info cell cell') as Hsame. rewrite <-Hsame.
  split; [intros (info' & Hi & H); rewrite Hinfo in Hi; by injection Hi as <-|eauto].
Qed.
End one_turn.
End rows.

(** ** All turns *)
Fixpoint turns (i n : nat) (ps cs : list Z) : list (nat * Z * Z) :=
  match n, ps, cs with
  | S n', p :: ps', c :: cs' => (i, p, c) :: turns (S i) n' ps' cs'
  | _, _, _ => []
  end.
Lemma turns_sorted i n ps cs : StronglySorted (fun t u => t.1.1 < u.1.1)%nat (turns i n ps cs).
Proof.
  revert i ps cs. induction n as [|n IH]; intros i ps cs; [constructor|].
  destruct ps as [|p ps], cs as [|c cs]; simpl; [constructor..|]. constructor; [apply IH|].
  clear IH. assert (∀ j, (i < j)%nat → Forall (fun u : nat * Z * Z => (i < u.1.1)%nat) (turns j n ps cs)) as H; [|apply H; lia].
  revert ps cs. induction n as [|n IH]; intros ps cs j Hj; [constructor|].
  destruct ps, cs; simpl; [constructor..|]. constructor; [done|apply IH; lia].
Qed.

Section all_turns.
Context (spec : Spec.t) (previous : Epoch) (ctxt : StateContext.t).
Definition turn_of (cx : contexts) (t : nat * Z * Z) : M (State.t * Carry.t) EpochProcessingError.t unit :=
  step previous ctxt (process_validator spec ctxt cx) t.1.1 t.1.2 t.2.

Lemma pass_loop_turns cx i n ps cs x :
  pass_loop spec previous ctxt cx i n ps cs x = loop (turns i n ps cs) (turn_of cx) x.
Proof.
  revert i ps cs x. induction n as [|n IH]; intros i ps cs x; [done|].
  destruct ps as [|p ps], cs as [|c cs]; [done..|]. cbn [pass_loop turns loop]. unfold seq_of, mbind, M_bind.
  change (turn_of cx (i, p, c) x) with (pass_step spec previous ctxt cx i p c x).
  destruct (pass_step _ _ _ _ _ _ _ x) as [[[]| | |] x1]; [apply IH|done..].
Qed.

(** The cache of the epoch has a base reward for every validator. *)
Definition served (s : State.t) : Prop :=
  ∀ i, (i < length (State.validators s))%nat →
    ∃ r, EpochCache.get_base_reward i s.(State.caches).(Caches.epoch_cache) = Ok r.
Lemma served_info s i p c v :
  0 ≤ previous < u64_max → served s → (i < length (State.validators s))%nat →
  ∃ info, validator_info s previous ctxt i v p c = Ok info.
Proof.
  intros Hp Hs Hi. destruct (Hs i Hi) as (r & Hr). unfold validator_info. rewrite Hr.
  assert (safe_add previous 1 = Ok (previous + 1)) as Hadd by (apply safe_add_ok; unfold is_u64; lia).
  destruct (Validator.is_active_at v previous); simpl; [by eexists|].
  destruct v.(Validator.slashed); simpl; [|by eexists]. rewrite Hadd. simpl. case_match; simpl; by eexists.
Qed.
Lemma served_put i c x : served x.1 → served (put_cell i c x).1.
Proof. intros Hs j Hj. apply Hs. simpl in Hj. unfold State.validators in *. simpl in Hj. by rewrite length_insert in Hj. Qed.

Lemma turn_row cx t x x' :
  0 ≤ previous < u64_max → served x.1 →
  turn_of cx t x = (Ok tt, x') ↔ loop (phases cx) (fun cxk => turn_of cxk t) x = (Ok tt, x').
Proof.
  intros Hp Hs. destruct t as [[i p] c]. unfold turn_of. cbn [fst snd].
  assert (∀ c0, has_entry i x c0 → ∀ y,
    (∃ c1, with_info previous ctxt x.1 i p c (process_validator spec ctxt cx) c0 = (Ok tt, c1) ∧ y = put_cell i c1 x)
    ↔ loop (phases cx) (fun cxk => step previous ctxt (process_validator spec ctxt cxk) i p c) x = (Ok tt, y)) as Hcell.
  { intros c0 H0 y. pose proof (steps_cell previous ctxt (process_validator spec ctxt <$> phases cx) i p c x y c0 H0) as H.
    cbn [phases fmap list_fmap] in H. unfold phases. cbn [loop] in *. rewrite H.
    assert (i < length (State.validators x.1))%nat as Hi by (eapply lookup_lt_Some; apply H0).
    destruct (served_info x.1 i p c c0.(Cell.validator) Hp Hs Hi) as (info & Hinfo).
    pose proof (fun c1 => turn_phases spec previous ctxt x.1 i p c cx _ info (fun v => served_info x.1 i p c v Hp Hs Hi) Hinfo
      c0 c1 eq_refl) as Ht. unfold phases in Ht. cbn [loop] in Ht. by setoid_rewrite Ht. }
  split.
  - intros (c0 & c1 & H0 & H1 & ->)%step_cell. apply (Hcell c0 H0). eauto.
  - intros H. pose proof H as H'. unfold phases in H'. cbn [loop] in H'.
    apply seq_ok in H' as (x1 & (c0 & _ & H0 & _)%step_cell & _).
    apply (Hcell c0 H0) in H as (c1 & H1 & ->). apply step_cell. eauto.
Qed.

Lemma turn_served cx t x x' : served x.1 → turn_of cx t x = (Ok tt, x') → served x'.1.
Proof. intros Hs (c0 & c1 & _ & _ & ->)%step_cell. by apply served_put. Qed.

Lemma turn_rows cx l x x' :
  0 ≤ previous < u64_max → served x.1 →
  loop l (turn_of cx) x = (Ok tt, x') ↔ loop l (fun t => loop (phases cx) (fun cxk => turn_of cxk t)) x = (Ok tt, x').
Proof.
  intros Hp. revert x. induction l as [|t l IH]; intros x Hs; cbn [loop]; [done|]. rewrite !seq_ok.
  split; intros (x1 & H1 & H2); exists x1.
  - split; [by apply turn_row|]. apply IH; [by eapply turn_served|done].
  - apply turn_row in H1; [|done..]. split; [done|]. apply IH; [by eapply turn_served|done].
Qed.

Lemma loop_map {A B} (f : A → B) (l : list A) (g : B → M (State.t * Carry.t) EpochProcessingError.t unit) :
  loop (f <$> l) g = loop l (fun a => g (f a)).
Proof. induction l as [|a l IH]; [done|]. rewrite fmap_cons. cbn [loop]. by rewrite IH. Qed.

(** Turn by turn or phase by phase. *)
Lemma turns_table cx l :
  StronglySorted (fun t u => t.1.1 < u.1.1)%nat l →
  same_runs (loop l (fun t => loop (phases cx) (fun cxk => turn_of cxk t))) (loop (phases cx) (fun cxk => loop l (turn_of cxk))).
Proof.
  intros Hl. pose proof (loop_table _ l (turn_of <$> phases cx) Hl) as H.
  rewrite (loop_map turn_of (phases cx) (fun p => loop l p)) in H.
  rewrite <-H; [apply loop_proper; intros t; by rewrite loop_map|]. clear H.
  intros j k f g t u Hjk Hf Hg Htu. rewrite list_lookup_fmap_Some in Hf. rewrite list_lookup_fmap_Some in Hg.
  destruct Hf as (cf & -> & Hf), Hg as (cg & -> & Hg).
  destruct (phase_kinds spec ctxt cx j cf Hf) as (kf & Hkf & Hcf).
  destruct (phase_kinds spec ctxt cx k cg Hg) as (kg & Hkg & Hcg).
  apply (steps_commute previous ctxt kg kf); [done..|lia|].
  do 6 (destruct j as [|j]; [do 6 (destruct k as [|k]; [simpl in *; simplify_eq; solve [lia|by left|by right]|]); done|]). done.
Qed.

End all_turns.

(** ** An example *)
(** Eight validators that missed their votes, of which the fourth is to be ejected. *)
Definition sp_validators : list Validator.t :=
  <[4%nat := ValidatorOps.set_effective_balance (16 * gwei) (tx_validator 4)]> (tx_validator <$> seq 0 8).
Definition sp_state : State.t :=
  State.on_core (BeaconState.set_validators sp_validators)
    (State.on_caches (fun c => Caches.set_exit_cache (ExitCache.mk true 0 0)
       (Caches.set_epoch_cache (EpochCache.new tx_spec (EpochCache.mk_key 70 0) (Validator.effective_balance <$> sp_validators)
          (replicate 33 1000) []) c))
       (State.on_registry (fun r => Registry.set_balances (<[4%nat := 16 * gwei]> r.(Registry.balances)) r) tx_fulu)).
Definition sp_carry : Carry.t := Carry.mk [] (Some 75) (Some 0) (PreEpochCache.mk (EpochCache.mk_key 71 0) [] 0).
Definition sp_ctxt : StateContext.t := StateContext.mk 70 71 (tx_cp 68) false (256 * gwei) 4 ForkName.Fulu.
Definition sp_contexts : contexts :=
  mk_contexts SinglePassConfig.enable_all (RewardsAndPenaltiesContext.mk [1; 1; 1] 256) (SlashingsContext.mk 0 0 0)
    (Some (PendingDepositsContext.mk 0 0 {[ 2%nat := gwei ]} [] [])) None [] (EffectiveBalancesContext.mk (gwei / 4) (5 * gwei / 4)).
Abbreviation sp_pass cx := (pass_loop tx_spec 69 sp_ctxt cx 0 8 (replicate 8 0) (replicate 8 0)).
Definition sp_end : State.t * Carry.t := (sp_pass sp_contexts (sp_state, sp_carry)).2.
Lemma sp_runs : sp_pass sp_contexts (sp_state, sp_carry) = (Ok tt, sp_end).
Proof. vm_compute. reflexivity. Qed.
Lemma sp_served : served sp_state.
Proof.
  intros i Hi. change (length _) with 8%nat in Hi. exists 1000.
  do 8 (destruct i as [|i]; [vm_compute; reflexivity|]). lia.
Qed.

