(* ===== verification/ExitQueue.v ===== *)
(** * The queue of exits

    From Electra on, the balance that leaves is rationed: [earliest_exit_epoch] is
    the epoch the next exit falls in and [exit_balance_to_consume] what that epoch
    still admits.  A block takes from the queue for exits and partial withdrawals,
    the pass over the validators for ejections. *)
From S2P Require Import Prelude Runs SlotEpoch ProtoArrayDefs ForkChoiceDefs ForkSchedule BeaconStateDefs.
From S2P Require Import ValidatorDefs ShuffleDefs CommitteeDefs SlashingDefs DoppelgangerDefs ValidatorStoreDefs.
From S2P Require Import StateDefs RegistryDefs BlockDefs EpbsDefs JustificationDefs EpochCacheDefs EpochGloasDefs EpochPassDefs.
From S2P Require Import StateExample SinglePass.

Section queue.
Context (spec : Spec.t).

Definition queue_of (s : State.t) : Epoch * Z :=
  (s.(State.queues).(Queues.earliest_exit_epoch), s.(State.queues).(Queues.exit_balance_to_consume)).

(** An amount [x] leaves in epoch [e], with at most [limit] per epoch: in a block,
    or in the pass at the end of an epoch. *)
Inductive leaves (limit : Z) : Epoch * Z → Z → Epoch → Epoch * Z → Prop :=
| in_block s s' c x e :
    get_activation_exit_churn_limit spec s = Ok c → 0 < c ≤ limit → 0 ≤ x →
    compute_exit_epoch_and_update_churn spec x s = (Ok e, s') →
    leaves limit (queue_of s) x e (queue_of s')
| in_pass ctxt cell cell' c earliest available e q' :
    ps_get_activation_exit_churn_limit spec ctxt = Ok c → 0 < c ≤ limit →
    0 ≤ cell.(Cell.validator).(Validator.effective_balance) →
    ps_compute_exit_epoch_and_update_churn spec ctxt earliest available cell = (Ok e, cell') →
    (Some q'.1, Some q'.2) = (cell'.(Cell.earliest_exit_epoch), cell'.(Cell.exit_balance_to_consume)) →
    leaves limit (earliest, available) cell.(Cell.validator).(Validator.effective_balance) e q'.

(** A sequence of exits: the amounts with their epochs. *)
Inductive exit_run (limit : Z) : Epoch * Z → list (Z * Epoch) → Epoch * Z → Prop :=
| run_end q : exit_run limit q [] q
| run_exit q x e q1 l q2 : leaves limit q x e q1 → exit_run limit q1 l q2 → exit_run limit q ((x, e) :: l) q2.

(** What leaves by the end of epoch [e]. *)
Definition leaving_by (e : Epoch) (l : list (Z * Epoch)) : Z :=
  foldr (fun '(x, ex) total => (if ex <=? e then x else 0) + total) 0 l.

Lemma consume_churn_bound c limit E B d x E1 T :
  0 < c ≤ limit → 0 ≤ B → 0 ≤ x → consume_churn c E B (Z.max E d) x = Ok (E1, T) → x ≤ T →
  E ≤ E1 ∧ T ≤ B + limit * (E1 - E).
Proof.
  intros Hc HB Hx H HT. unfold consume_churn in H.
  assert (∀ t, t = (if E <? Z.max E d then c else B) → 0 ≤ t ∧ t ≤ B + limit * (Z.max E d - E)) as Ht.
  { intros t ->. destruct (Z.ltb_spec E (Z.max E d)); nia. }
  destruct (Ht _ eq_refl) as [Ht0 Ht1]. revert H. set (t := if E <? Z.max E d then c else B) in *. clearbody t.
  destruct (Z.ltb_spec t x) as [Hlt|Hge]; intros H; [|simplify_eq; lia].
  inv_out H. safe_inv. subst. unfold is_u64 in *.
  assert (0 ≤ (x - t - 1) / c) by (apply Z.div_pos; lia). set (k := (x - t - 1) / c) in *. clearbody k. split; nia.
Qed.

Lemma leaves_bound limit q x e q' :
  leaves limit q x e q' → 0 ≤ q.2 → 0 ≤ x ∧ 0 ≤ q'.2 ∧ e = q'.1 ∧ q.1 ≤ q'.1 ∧ x + q'.2 ≤ q.2 + limit * (q'.1 - q.1).
Proof.
  intros [s s' c x0 e0 Hlim Hc Hx Hrun|ctxt cell cell' c E B e0 q1 Hlim Hc Hx Hrun Hq] HB.
  - unfold compute_exit_epoch_and_update_churn in Hrun. inv_ok Hrun. 
    match type of Hrun with context [let '(_, _) := ?p in _] => destruct p as [E1 T] end. inv_ok Hrun. unfold lift in *.
    simplify_eq. unfold st_earliest_exit_epoch, st_exit_balance_to_consume, gated in *. repeat case_match; simplify_eq.
    safe_inv. unfold is_u64 in *. simpl in *.
    match goal with H : consume_churn _ _ _ _ _ = _ |- _ =>
      apply (consume_churn_bound _ limit) in H; [|congruence||lia..] end.
    simpl. lia.
  - unfold ps_compute_exit_epoch_and_update_churn in Hrun. inv_ok Hrun. 
    match type of Hrun with context [let '(_, _) := ?p in _] => destruct p as [E1 T] end. inv_ok Hrun. unfold lift in *.
    simplify_eq/=. safe_inv. unfold is_u64 in *. 
    match goal with H : consume_churn _ _ _ _ _ = _ |- _ =>
      apply (consume_churn_bound _ limit) in H; [|congruence||lia..] end.
    lia.
Qed.

Lemma run_bound limit q l q' :
  exit_run limit q l q' → 0 ≤ q.2 → 0 ≤ limit →
  ∀ e, leaving_by e l ≤ (if e <? q.1 then 0 else q.2 + limit * (e - q.1)).
Proof.
  intros Hrun. induction Hrun as [q|q x ex q1 l q2 Hx _ IH]; intros HB Hl e; simpl.
  { destruct (Z.ltb_spec e q.1); nia. }
  destruct (leaves_bound _ _ _ _ _ Hx HB) as (Hx0 & HB1 & -> & HE & Hsum). specialize (IH HB1 Hl e).
  destruct (Z.leb_spec q1.1 e), (Z.ltb_spec e q.1), (Z.ltb_spec e q1.1); nia.
Qed.

(** C14. However exits are spread over blocks and ejections, the balance that has
    left by the end of an epoch is at most what the queue admitted at the start and
    the churn limit for each epoch since. *)
Theorem exits_respect_churn limit E0 B0 l q e :
  0 ≤ B0 → 0 ≤ limit → E0 ≤ e → exit_run limit (E0, B0) l q → leaving_by e l ≤ B0 + limit * (e - E0).
Proof.
  intros HB Hl He Hrun. pose proof (run_bound _ _ _ _ Hrun HB Hl e) as H. simpl in H.
  destruct (Z.ltb_spec e E0); lia.
Qed.
End queue.

(** ** An example: a withdrawal of 40 and an ejection of 32 when epoch 75 has 30 left *)
Definition xq_state : State.t :=
  State.on_queues (fun q => Queues.set_earliest_exit_epoch 75 (Queues.set_exit_balance_to_consume (30 * gwei) q))
    (State.on_core (set_total_active_balance tx_spec.(Spec.effective_balance_increment) 70 (256 * gwei)) tx_fulu).
Definition xq_after : State.t := (compute_exit_epoch_and_update_churn tx_spec (40 * gwei) xq_state).2.
Definition xq_cell : Cell.t := cell_of (tx_validator 0) 0 0 (sp_state, sp_carry).
Definition xq_ejected : Cell.t := (ps_compute_exit_epoch_and_update_churn tx_spec sp_ctxt 76 (54 * gwei) xq_cell).2.
Lemma xq_block : leaves tx_spec (64 * gwei) (75, 30 * gwei) (40 * gwei) 76 (76, 54 * gwei).
Proof.
  change (75, 30 * gwei) with (queue_of xq_state). change (76, 54 * gwei) with (queue_of xq_after).
  eapply (in_block _ _ _ _ (64 * gwei)); [vm_compute; reflexivity|unfold gwei; lia|unfold gwei; lia|vm_compute; reflexivity].
Qed.
Lemma xq_pass : leaves tx_spec (64 * gwei) (76, 54 * gwei) (32 * gwei) 76 (76, 22 * gwei).
Proof.
  eapply (in_pass _ _ sp_ctxt xq_cell xq_ejected (64 * gwei)); [vm_compute; reflexivity|unfold gwei; lia|
    vm_compute; discriminate|vm_compute; reflexivity|vm_compute; reflexivity].
Qed.
Lemma xq_run : exit_run tx_spec (64 * gwei) (75, 30 * gwei) [(40 * gwei, 76); (32 * gwei, 76)] (76, 22 * gwei).
Proof. eapply run_exit; [exact xq_block|]. eapply run_exit; [exact xq_pass|]. constructor. Qed.

Lemma exits_respect_churn_witness :
  leaving_by 76 [(40 * gwei, 76); (32 * gwei, 76)] ≤ 30 * gwei + 64 * gwei * (76 - 75).
Proof.
  exact (exits_respect_churn tx_spec (64 * gwei) 75 (30 * gwei) _ _ 76 ltac:(unfold gwei; lia) ltac:(unfold gwei; lia)
    ltac:(lia) xq_run).
Defined.
