(* ===== verification/Selection.v ===== *)
(** * Selection by effective balance

    The proposer, the sync committee and the payload timeliness committee are drawn
    by one sampling scheme: attempt [i] picks a candidate and a random value, and
    the candidate is accepted when its effective balance outweighs the value. The
    loops of the source keep the last hash between attempts and may fail at every
    step. Here each attempt is a pure function of its number, and the loops are the
    first attempts that are accepted. *)
From S2P Require Import Prelude SlotEpoch ProtoArrayDefs ForkChoiceDefs ForkSchedule BeaconStateDefs.
From S2P Require Import ValidatorDefs ShuffleDefs ShuffleCorrect CommitteeDefs.
From S2P Require Import StateDefs RegistryDefs BlockDefs EpbsDefs UpgradeDefs StateExample.

(** A hash of 32 bytes. *)
Definition hashes_bytes (hash : list Z → list Z) : Prop :=
  ∀ x, length (hash x) = 32%nat ∧ Forall (fun b => 0 ≤ b < 256) (hash x).

Lemma hash_byte hash x k : hashes_bytes hash → (k < 32)%nat →
  ∃ b, hash x !! k = Some b ∧ nth k (hash x) 0 = b ∧ 0 ≤ b < 256.
Proof.
  intros H Hk. destruct (H x) as [Hl Hb]. destruct (lookup_lt_is_Some_2 (hash x) k) as [b Hlk]; [lia|].
  exists b. split_and!; [done|by apply nth_lookup_Some|eapply Forall_lookup_1 in Hb; [|done]; lia..].
Qed.

Lemma safe_rem_ok a b : b ≠ 0 → safe_rem a b = Ok (a mod b).
Proof. intros H. unfold safe_rem, u64_checked_rem. by rewrite (proj2 (Z.eqb_neq b 0)). Qed.

(** ** The random value of an attempt *)
Section random.
Context (hash : list Z → list Z) (Hhash : hashes_bytes hash).

(** The cached hash is the hash of its group. *)
Definition coherent (seed : list Z) (cached : option (Z * list Z)) : Prop :=
  ∀ g bytes, cached = Some (g, bytes) → bytes = hash (seed ++ to_le_bytes 8 g).

Lemma random_bytes_of_coherent seed g cached :
  coherent seed cached → random_bytes_of hash seed g cached = hash (seed ++ to_le_bytes 8 g).
Proof.
  intros Hc. destruct cached as [[g' bytes]|]; [|done]. simpl. destruct (Z.eqb_spec g' g) as [->|]; [|done].
  by apply Hc.
Qed.
Lemma coherent_next seed g : coherent seed (Some (g, hash (seed ++ to_le_bytes 8 g))).
Proof. intros g' bytes H. by simplify_eq. Qed.
Lemma coherent_none seed : coherent seed None.
Proof. done. Qed.

(** Sixteen bits of the hash of the group of sixteen attempts, eight of the hash
    of the group of thirty-two before Electra. *)
Definition random16 (seed : list Z) (i : nat) : Z :=
  let bytes := hash (seed ++ to_le_bytes 8 (Z.of_nat (i / 16))) in
  nth (2 * (i mod 16)) bytes 0 + 256 * nth (S (2 * (i mod 16))) bytes 0.
Definition random8 (seed : list Z) (i : nat) : Z :=
  nth (i mod 32) (hash (seed ++ to_le_bytes 8 (Z.of_nat (i / 32)))) 0.
Definition random (is_electra : bool) (seed : list Z) (i : nat) : Z :=
  if is_electra then random16 seed i else random8 seed i.
Definition group_size (is_electra : bool) : Z := if is_electra then 16 else 32.

Lemma group_of (i k : nat) : Z.of_nat i / Z.of_nat k = Z.of_nat (i / k).
Proof. symmetry. apply Nat2Z.inj_div. Qed.
Lemma offset_of (i k : nat) : Z.to_nat (Z.of_nat i mod Z.of_nat k) = (i mod k)%nat.
Proof. by rewrite <-Nat2Z.inj_mod, Nat2Z.id. Qed.
Lemma offset16 (i : nat) : Z.to_nat (Z.of_nat i mod 16 * 2) = (2 * (i mod 16))%nat.
Proof. pose proof (Nat2Z.inj_mod i 16). lia. Qed.

Lemma random16_bytes seed i :
  ∃ lo hi, let bytes := hash (seed ++ to_le_bytes 8 (Z.of_nat i / 16)) in
    bytes !! (2 * (i mod 16))%nat = Some lo ∧ bytes !! S (2 * (i mod 16)) = Some hi
    ∧ from_le_bytes [lo; hi] = random16 seed i ∧ 0 ≤ random16 seed i ≤ MAX_RANDOM_VALUE.
Proof using Hhash.
  change 16 with (Z.of_nat 16). rewrite group_of. unfold random16.
  set (x := seed ++ _). pose proof (Nat.mod_upper_bound i 16).
  destruct (hash_byte hash x (2 * (i mod 16)) Hhash) as (lo & Hlo & -> & ?); [lia|].
  destruct (hash_byte hash x (S (2 * (i mod 16))) Hhash) as (hi & Hhi & -> & ?); [lia|].
  exists lo, hi. unfold MAX_RANDOM_VALUE. simpl. split_and!; [done..|lia|lia|lia].
Qed.
Lemma random_value_run e seed i :
  random_value_of e (hash (seed ++ to_le_bytes 8 (Z.of_nat i / group_size e))) (Z.of_nat i) = Ok (random e seed i).
Proof using Hhash.
  unfold random_value_of, group_size, random. destruct e.
  - rewrite offset16. destruct (random16_bytes seed i) as (lo & hi & Hlo & Hhi & Hr & _). by rewrite Hlo, Hhi, <-Hr.
  - change 32 with (Z.of_nat 32). rewrite group_of, offset_of. unfold random8. set (x := seed ++ _).
    pose proof (Nat.mod_upper_bound i 32). by destruct (hash_byte hash x (i mod 32) Hhash) as (b & -> & -> & ?); [lia|].
Qed.
Lemma random_range e seed i :
  0 ≤ random e seed i ≤ (if e then MAX_RANDOM_VALUE else MAX_RANDOM_BYTE).
Proof using Hhash.
  unfold random. destruct e; [by destruct (random16_bytes seed i) as (lo & hi & _ & _ & _ & ?)|].
  unfold random8, MAX_RANDOM_BYTE. set (x := seed ++ _). pose proof (Nat.mod_upper_bound i 32).
  destruct (hash_byte hash x (i mod 32) Hhash) as (b & _ & -> & ?); lia.
Qed.
End random.

(** ** The first accepted attempts *)
Section accepted.
Context {A : Type} (candidate : nat → A) (accepts : nat → bool).
Definition hits (i n : nat) : list nat := List.filter accepts (seq i n).
Lemma hits_S i n : hits i (S n) = if accepts i then i :: hits (S i) n else hits (S i) n.
Proof. done. Qed.
Definition first_accepted {E} (i n : nat) : outcome E A :=
  match hits i n with [] => Diverge | k :: _ => Ok (candidate k) end.
Definition accepted {E} (size i n : nat) : outcome E (list A) :=
  if (size <=? length (hits i n))%nat then Ok (candidate <$> take size (hits i n)) else Diverge.

Lemma first_accepted_S {E} i n :
  first_accepted (E := E) i (S n) = if accepts i then Ok (candidate i) else first_accepted (S i) n.
Proof. unfold first_accepted. rewrite hits_S. by destruct (accepts i). Qed.
Lemma accepted_0 {E} i n : accepted (E := E) 0 i n = Ok [].
Proof. done. Qed.
Lemma accepted_hit {E} k i n : accepts i = true →
  accepted (E := E) (S k) i (S n) = (l ← accepted k (S i) n; Ok (candidate i :: l)).
Proof.
  intros H. unfold accepted. rewrite hits_S, H. simpl. by destruct (_ <=? _)%nat.
Qed.
Lemma accepted_miss {E} k i n : accepts i = false → accepted (E := E) k i (S n) = accepted k (S i) n.
Proof. intros H. unfold accepted. by rewrite hits_S, H. Qed.
End accepted.

(** ** Attempts over the registry *)
Section draws.
Context (hash : list Z → list Z) (spec : Spec.t) (fuel : nat).

Definition registry_balance (s : State.t) (c : nat) : Z :=
  match State.validators s !! c with Some v => v.(Validator.effective_balance) | None => 0 end.

(** A candidate with balance [b] is accepted by attempt [i]. *)
Definition outweighs (is_electra : bool) (max_balance : Z) (seed : list Z) (b : Z) (i : nat) : bool :=
  max_balance * random hash is_electra seed i <=? b * (if is_electra then MAX_RANDOM_VALUE else MAX_RANDOM_BYTE).

(** What the three loops are run on. *)
Record draw_inputs (max_balance : Z) (s : State.t) (indices : list nat) : Prop := {
  di_hash : hashes_bytes hash;
  di_indices : indices ≠ [];
  di_members : Forall (fun c => (c < length (State.validators s))%nat) indices;
  di_balances : Forall (fun v => 0 ≤ v.(Validator.effective_balance)
                          ∧ v.(Validator.effective_balance) * MAX_RANDOM_VALUE ≤ u64_max) (State.validators s);
  di_max : 0 ≤ max_balance ∧ max_balance * MAX_RANDOM_VALUE ≤ u64_max;
  di_fuel : Z.of_nat fuel ≤ u64_max;
}.

Section inputs.
Context (e : bool) (max_balance : Z) (s : State.t) (indices : list nat) (Hin : draw_inputs max_balance s indices).
Abbreviation len := (length indices).

Lemma len_pos : (0 < len)%nat.
Proof using Hin. destruct Hin as [_ H _ _ _ _]. destruct indices; [done|simpl; lia]. Qed.

Lemma position_run (i : nat) : safe_rem (Z.of_nat i) (Z.of_nat len) = Ok (Z.of_nat (i mod len)).
Proof using Hin. pose proof len_pos. rewrite safe_rem_ok by lia. by rewrite Nat2Z.inj_mod. Qed.

Lemma member_balance c : c ∈ indices → get_effective_balance s c = Ok (registry_balance s c)
  ∧ 0 ≤ registry_balance s c ∧ registry_balance s c * MAX_RANDOM_VALUE ≤ u64_max.
Proof using Hin.
  destruct Hin as [_ _ Hm Hb _ _]. intros Hc. rewrite list.Forall_forall in Hm. specialize (Hm c Hc).
  unfold get_effective_balance, get_validator, registry_balance.
  destruct (lookup_lt_is_Some_2 (State.validators s) c) as [v Hv]; [done|]. rewrite Hv.
  split; [done|]. by eapply Forall_lookup_1 in Hb.
Qed.

Lemma weight_run b : 0 ≤ b → b * MAX_RANDOM_VALUE ≤ u64_max →
  safe_mul b (if e then MAX_RANDOM_VALUE else MAX_RANDOM_BYTE) = Ok (b * (if e then MAX_RANDOM_VALUE else MAX_RANDOM_BYTE)).
Proof using. clear Hin. intros. apply safe_mul_ok. unfold is_u64, MAX_RANDOM_VALUE, MAX_RANDOM_BYTE in *. destruct e; lia. Qed.
Lemma threshold_run seed i : safe_mul max_balance (random hash e seed i) = Ok (max_balance * random hash e seed i).
Proof using Hin.
  destruct Hin as [Hh _ _ _ [? ?] _]. pose proof (random_range hash Hh e seed i) as Hr. apply safe_mul_ok.
  unfold is_u64, MAX_RANDOM_VALUE, MAX_RANDOM_BYTE in *. destruct e; nia.
Qed.
Lemma next_run (i n : nat) : (i + S n ≤ fuel)%nat → safe_add (Z.of_nat i) 1 = Ok (Z.of_nat (S i)).
Proof using Hin. destruct Hin as [_ _ _ _ _ ?]. intros. rewrite safe_add_ok by (unfold is_u64; lia). f_equal. lia. Qed.
End inputs.

(** ** The proposer and the sync committee *)
(** The candidate of attempt [i]: the indices are walked in shuffled order. *)
Definition shuffled_candidate (indices : list nat) (seed : list Z) (i : nat) : nat :=
  match compute_shuffled_index hash (i mod length indices) (length indices) seed spec.(Spec.shuffle_round_count) with
  | Ok (Some j) => nth j indices 0%nat
  | _ => 0%nat
  end.

Section shuffled.
Context (s : State.t) (indices : list nat) (seed : list Z).
Abbreviation electra := (ForkName.ge (State.fork_name s) ForkName.Electra).
Abbreviation max_balance := (max_effective_balance_for_fork spec (State.fork_name s)).
Definition draw_accepts (i : nat) : bool :=
  outweighs electra max_balance seed (registry_balance s (shuffled_candidate indices seed i)) i.
Context (Hin : draw_inputs max_balance s indices) (Hseed : length seed = 32%nat).
Context (Hsize : Z.of_nat (length indices) ≤ 2 ^ 24).

Lemma shuffled_candidate_run i :
  ∃ j, compute_shuffled_index hash (i mod length indices) (length indices) seed spec.(Spec.shuffle_round_count)
       = Ok (Some j) ∧ indices !! j = Some (shuffled_candidate indices seed i).
Proof using Hin Hseed Hsize.
  pose proof (len_pos _ _ _ Hin) as Hl. destruct Hin as [Hh Hne _ _ _ _].
  pose proof (Nat.mod_upper_bound i (length indices)) as Hi.
  assert (∀ x, length (hash x) = 32%nat) as Hlen by (intros x; apply Hh).
  unfold shuffled_candidate. rewrite (index_run hash Hlen seed Hseed) by (done || lia).
  eexists. split; [done|].
  destruct (nth_lookup_or_length indices (rounds_perm hash seed (length indices)
    (rev (seq 0 (Spec.shuffle_round_count spec))) (i mod length indices)) 0%nat) as [H|H]; [done|].
  pose proof (rounds_perm_lt hash Hlen seed Hseed (length indices) Hl (rev (seq 0 (Spec.shuffle_round_count spec)))
    (i mod length indices)). lia.
Qed.

(** The epoch cache has the balances of the registry, where it has any. *)
Definition cache_agrees : Prop := ∀ c b, c ∈ indices →
  EpochCache.get_effective_balance c s.(State.caches).(Caches.epoch_cache) = Ok b → b = registry_balance s c.

Lemma candidate_balance_run c : cache_agrees → c ∈ indices → candidate_balance s c = Ok (registry_balance s c).
Proof using Hin.
  intros Ha Hc. unfold candidate_balance. destruct (member_balance _ _ _ Hin c Hc) as [Hg _].
  destruct (EpochCache.get_effective_balance _ _) eqn:E; [|done..]. f_equal. by apply Ha.
Qed.

(** One attempt of either loop, up to what it does with the candidate. *)
Lemma draw_run {B} (balance_of : nat → outcome BeaconStateError.t Z) i cached
    (k : nat → list Z → Z → Z → outcome BeaconStateError.t B) :
  coherent hash seed cached → (∀ c, c ∈ indices → balance_of c = Ok (registry_balance s c)) →
  (pos ← into (safe_rem (Z.of_nat i) (Z.of_nat (length indices)));
   shuffled ←
     match compute_shuffled_index hash (Z.to_nat pos) (length indices) seed spec.(Spec.shuffle_round_count) with
     | Ok (Some j) => Ok j
     | Ok None => Err BeaconStateError.UnableToShuffle
     | Err _ | Panic => Panic
     | Diverge => Diverge
     end;
   candidate ← ok_or (indices !! shuffled) (BeaconStateError.ShuffleIndexOutOfBounds shuffled);
   random_value ← random_value_of electra (random_bytes_of hash seed (Z.of_nat i / group_size electra) cached) (Z.of_nat i);
   balance ← balance_of candidate;
   weight ← into (safe_mul balance (if electra then MAX_RANDOM_VALUE else MAX_RANDOM_BYTE));
   threshold ← into (safe_mul max_balance random_value);
   k candidate (random_bytes_of hash seed (Z.of_nat i / group_size electra) cached) threshold weight)
  = let c := shuffled_candidate indices seed i in
    k c (hash (seed ++ to_le_bytes 8 (Z.of_nat i / group_size electra)))
      (max_balance * random hash electra seed i)
      (registry_balance s c * (if electra then MAX_RANDOM_VALUE else MAX_RANDOM_BYTE)).
Proof using Hin Hseed Hsize.
  intros Hc Hb. rewrite (position_run _ _ _ Hin). cbn. destruct (shuffled_candidate_run i) as (j & Hj & Hlk).
  rewrite Nat2Z.id, Hj. cbn. rewrite Hlk. cbn. rewrite (random_bytes_of_coherent hash seed _ _ Hc).
  rewrite (random_value_run hash (di_hash _ _ _ Hin)). cbn.
  apply list_elem_of_lookup_2 in Hlk. rewrite Hb by done. cbn.
  destruct (member_balance _ _ _ Hin _ Hlk) as (_ & ? & ?). rewrite weight_run by done. cbn.
  by rewrite (threshold_run _ _ _ _ Hin).
Qed.

Lemma proposer_loop_run n i cached : cache_agrees → coherent hash seed cached → (i + n ≤ fuel)%nat →
  proposer_loop hash spec s indices seed n (Z.of_nat i) cached
  = first_accepted (shuffled_candidate indices seed) draw_accepts i n.
Proof using Hin Hseed Hsize.
  intros Ha. revert i cached. induction n as [|n IH]; intros i cached Hc Hn; [done|].
  rewrite first_accepted_S. cbn [proposer_loop]. etrans.
  { apply (draw_run (candidate_balance s) i cached (fun c bytes threshold weight =>
      if threshold <=? weight then Ok c
      else i' ← into (safe_add (Z.of_nat i) 1);
           proposer_loop hash spec s indices seed n i' (Some (Z.of_nat i / group_size electra, bytes))) Hc).
    intros c. by apply candidate_balance_run. }
  cbv zeta. change (_ <=? _) with (draw_accepts i). destruct (draw_accepts i); [done|].
  rewrite (next_run _ _ _ Hin i n Hn). apply IH; [apply coherent_next|lia].
Qed.

Lemma sync_committee_loop_run size n i cached found : coherent hash seed cached → (i + n ≤ fuel)%nat →
  sync_committee_loop hash spec s indices seed size n (Z.of_nat i) cached found
  = l ← accepted (shuffled_candidate indices seed) draw_accepts (size - length found) i n; Ok (rev found ++ l).
Proof using Hin Hseed Hsize.
  revert i cached found. induction n as [|n IH]; intros i cached found Hc Hn; cbn [sync_committee_loop];
    destruct (Nat.leb_spec size (length found)) as [Hs|Hs].
  1,3: replace (size - length found)%nat with 0%nat by lia; rewrite accepted_0; cbn; by rewrite app_nil_r.
  { unfold accepted. cbn. by destruct (Nat.leb_spec (size - length found) 0); [lia|]. }
  etrans.
  { apply (draw_run (get_effective_balance s) i cached (fun c bytes threshold weight =>
      i' ← into (safe_add (Z.of_nat i) 1);
      sync_committee_loop hash spec s indices seed size n i' (Some (Z.of_nat i / group_size electra, bytes))
        (if threshold <=? weight then c :: found else found)) Hc).
    intros c Hm. by apply (member_balance _ _ _ Hin). }
  cbv zeta. change (_ <=? _) with (draw_accepts i). rewrite (next_run _ _ _ Hin i n Hn). cbn [into mbind].
  etrans; [apply IH; [apply coherent_next|lia]|]. destruct (draw_accepts i) eqn:Hd.
  - replace (size - length found)%nat with (S (size - length (shuffled_candidate indices seed i :: found))) by (simpl; lia).
    rewrite (accepted_hit _ _ _ _ _ Hd). destruct (accepted _ _ _ _ _); [|done..]. cbn. by rewrite <-app_assoc.
  - by rewrite (accepted_miss _ _ _ _ _ Hd).
Qed.
End shuffled.

(** ** The payload timeliness committee *)
(** The members of the committees are walked in order, without a shuffle. *)
Definition walked_candidate (members : list nat) (i : nat) : nat := nth (i mod length members) members 0%nat.

Section walked.
Context (s : State.t) (members : list nat) (seed : list Z).
Abbreviation max_balance := (spec.(Spec.max_effective_balance_electra)).
Definition walk_accepts (i : nat) : bool :=
  outweighs true max_balance seed (registry_balance s (walked_candidate members i)) i.
Context (Hin : draw_inputs max_balance s members).

Lemma walked_candidate_run i : members !! (i mod length members)%nat = Some (walked_candidate members i).
Proof using Hin.
  pose proof (len_pos _ _ _ Hin). pose proof (Nat.mod_upper_bound i (length members)). unfold walked_candidate.
  destruct (nth_lookup_or_length members (i mod length members) 0%nat) as [->|?]; [done|lia].
Qed.

Lemma committee_balances_run l : Forall (fun c => c ∈ members) l →
  committee_balances (State.validators s) l = Ok (registry_balance s <$> l).
Proof using Hin.
  induction 1 as [|c l Hc _ IH]; [done|]. destruct (member_balance _ _ _ Hin c Hc) as [Hb _].
  simpl. rewrite IH. revert Hb. unfold get_effective_balance, get_validator, registry_balance.
  by destruct (State.validators s !! c).
Qed.

Lemma ptc_loop_run n i cached selected : coherent hash seed cached → (i + n ≤ fuel)%nat →
  ptc_loop hash spec (Z.of_nat <$> members) (registry_balance s <$> members) seed n (Z.of_nat i) cached selected
  = l ← accepted (fun i => Z.of_nat (walked_candidate members i)) walk_accepts
          (Z.to_nat spec.(Spec.ptc_size) - length selected) i n; Ok (selected ++ l).
Proof using Hin.
  revert i cached selected. induction n as [|n IH]; intros i cached selected Hc Hn; cbn [ptc_loop];
    destruct (Z.ltb_spec (Z.of_nat (length selected)) spec.(Spec.ptc_size)) as [Hs|Hs].
  2,4: replace (Z.to_nat spec.(Spec.ptc_size) - length selected)%nat with 0%nat by lia;
    rewrite accepted_0; cbn; by rewrite app_nil_r.
  { unfold accepted. cbn. by destruct (Nat.leb_spec (Z.to_nat spec.(Spec.ptc_size) - length selected) 0); [lia|]. }
  rewrite length_fmap, (position_run _ _ _ Hin). cbn [into mbind outcome_bind].
  rewrite (random_bytes_of_coherent hash seed _ _ Hc), offset16.
  destruct (random16_bytes hash (di_hash _ _ _ Hin) seed i) as (lo & hi & Hlo & Hhi & Hr & _).
  rewrite Hlo, Hhi. cbn -[from_le_bytes to_le_bytes]. rewrite Hr, Nat2Z.id, !list_lookup_fmap, walked_candidate_run.
  cbn -[to_le_bytes]. pose proof (list_elem_of_lookup_2 _ _ _ (walked_candidate_run i)) as Hm.
  destruct (member_balance _ _ _ Hin _ Hm) as (_ & ? & ?).
  rewrite (weight_run true _ ltac:(done) ltac:(done)). cbn -[to_le_bytes].
  change (random16 hash seed i) with (random hash true seed i). rewrite (threshold_run _ _ _ _ Hin). cbn -[to_le_bytes].
  change (_ <=? _) with (walk_accepts i). rewrite (next_run _ _ _ Hin i n Hn). destruct (walk_accepts i) eqn:Hd.
  - cbn -[to_le_bytes]. rewrite IH by (apply coherent_next || lia). rewrite length_app. cbn [length].
    replace (Z.to_nat spec.(Spec.ptc_size) - length selected)%nat
      with (S (Z.to_nat spec.(Spec.ptc_size) - (length selected + 1))) by lia.
    rewrite (accepted_hit _ _ _ _ _ Hd). destruct (accepted _ _ _ _ _); [|done..]. cbn. by rewrite <-app_assoc.
  - cbn -[to_le_bytes]. rewrite IH by (apply coherent_next || lia). by rewrite (accepted_miss _ _ _ _ _ Hd).
Qed.
End walked.
End draws.

(** ** The three selections *)
Section selections.
Context (hash : list Z → list Z) (spec : Spec.t) (fuel : nat).


(** The sync committee is the candidates of the first accepted attempts, as many
    as the committee has seats; a candidate may take several. *)
Lemma sync_committee_is_first_accepted s e indices seed :
  safe_add (current_epoch spec s) 1 = Ok e → st_get_active_validator_indices spec s e = Ok indices →
  get_seed hash spec s.(State.chain).(Chain.randao_mixes) e spec.(Spec.domain_sync_committee) = Ok seed →
  draw_inputs hash fuel (max_effective_balance_for_fork spec (State.fork_name s)) s indices →
  length seed = 32%nat → Z.of_nat (length indices) ≤ 2 ^ 24 →
  get_next_sync_committee_indices hash spec fuel s
  = accepted (shuffled_candidate hash spec indices seed) (draw_accepts hash spec s indices seed)
      (Z.to_nat spec.(Spec.sync_committee_size)) 0 fuel.
Proof.
  intros He Hi Hseed Hin Hs Hl. unfold get_next_sync_committee_indices. rewrite He. cbn. rewrite Hi. cbn. rewrite Hseed.
  cbn. etrans; [by apply (sync_committee_loop_run hash spec fuel s indices seed Hin Hs Hl _ fuel 0 None [])|].
  cbn [length]. rewrite Nat.sub_0_r. by destruct (accepted _ _ _ _ _).
Qed.

(** C32. The payload timeliness committee of a slot is the candidates of the first
    accepted attempts, [ptc_size] of them, where the attempts walk the members of the
    slot's committees in order, again and again. On committees of registry members
    [compute_ptc] neither fails nor panics, and answers as soon as [ptc_size] of the
    [fuel] attempts are accepted. *)
Theorem ptc_is_first_accepted s slot committees base_seed :
  get_beacon_committees_at_slot spec s slot = Ok committees →
  get_seed hash spec s.(State.chain).(Chain.randao_mixes) (epoch slot spec.(Spec.slots_per_epoch))
    spec.(Spec.domain_ptc_attester) = Ok base_seed →
  let members := concat (BeaconCommittee.committee <$> committees) in
  let seed := hash (base_seed ++ to_le_bytes 8 slot) in
  draw_inputs hash fuel spec.(Spec.max_effective_balance_electra) s members →
  compute_ptc hash spec fuel s slot
  = accepted (fun i => Z.of_nat (walked_candidate members i)) (walk_accepts hash spec s members seed)
      (Z.to_nat spec.(Spec.ptc_size)) 0 fuel.
Proof.
  intros Hc Hseed members seed Hin. unfold compute_ptc. rewrite Hc. cbn -[to_le_bytes]. unfold compute_ptc_inner.
  rewrite Hseed. cbn -[to_le_bytes]. fold members. pose proof (len_pos _ _ _ _ _ Hin) as Hp.
  rewrite (proj2 (Nat.eqb_neq (length members) 0)) by lia.
  rewrite (committee_balances_run hash spec fuel s members Hin members) by (by apply list.Forall_forall). cbn -[to_le_bytes].
  etrans; [by apply (ptc_loop_run hash spec fuel s members seed Hin fuel 0 None [])|].
  cbn [length]. rewrite Nat.sub_0_r. by destruct (accepted _ _ _ _ _).
Qed.
End selections.

(** ** On a state of the example *)
Lemma toy_hash_bytes : hashes_bytes toy_hash.
Proof.
  intros x. split; [apply toy_hash_length|]. unfold toy_hash. apply Forall_map, list.Forall_forall. intros k _.
  apply Z.mod_pos_bound. lia.
Qed.

(** The inputs, checked by evaluation. *)
Definition draw_inputsb (fuel : nat) (max_balance : Z) (s : State.t) (indices : list nat) : bool :=
  bool_decide (indices ≠ []) && forallb (fun c => (c <? length (State.validators s))%nat) indices
  && forallb (fun v => (0 <=? v.(Validator.effective_balance))
                       && (v.(Validator.effective_balance) * MAX_RANDOM_VALUE <=? u64_max)) (State.validators s)
  && (0 <=? max_balance) && (max_balance * MAX_RANDOM_VALUE <=? u64_max) && (Z.of_nat fuel <=? u64_max).
Lemma draw_inputsb_spec hash fuel max_balance s indices : hashes_bytes hash →
  draw_inputsb fuel max_balance s indices = true → draw_inputs hash fuel max_balance s indices.
Proof.
  intros Hh H. unfold draw_inputsb in H. rewrite !andb_true_iff, !forallb_forall, bool_decide_eq_true in H.
  destruct H as (((((H1 & H2) & H3) & H4) & H5) & H6).
  constructor; [done|done| | |lia|lia]; apply list.Forall_forall; intros x Hx%list_elem_of_In.
  - by apply Nat.ltb_lt, H2.
  - specialize (H3 x Hx). cbv beta in H3. lia.
Qed.
Lemma cache_agrees_all s indices :
  ((fun c => EpochCache.get_effective_balance c s.(State.caches).(Caches.epoch_cache)) <$> indices)
  = ((fun c => Ok (registry_balance s c)) <$> indices) → cache_agrees s indices.
Proof.
  intros H c b [k Hk]%list_elem_of_lookup Hb. apply (f_equal (lookup k)) in H. rewrite !list_lookup_fmap, Hk in H.
  simpl in H. simplify_eq. congruence.
Qed.

(** Five attempts fail before the proposer is found, with balances from the epoch
    cache. *)
Lemma sx_inputs : draw_inputsb tx_fuel (max_effective_balance_for_fork tx_spec (State.fork_name tx_with_bid)) tx_with_bid (seq 0 4) = true.
Proof. vm_compute. reflexivity. Qed.
Lemma sx_agrees : cache_agrees tx_with_bid (seq 0 4).
Proof. apply cache_agrees_all. vm_compute. reflexivity. Qed.
Lemma sx_first :
  first_accepted (shuffled_candidate toy_hash tx_spec (seq 0 4) (replicate 32 7))
    (draw_accepts toy_hash tx_spec tx_with_bid (seq 0 4) (replicate 32 7)) 0 tx_fuel = Ok (E := BeaconStateError.t) 3%nat
  ∧ hits (draw_accepts toy_hash tx_spec tx_with_bid (seq 0 4) (replicate 32 7)) 0 6 = [5%nat].
Proof. split; vm_compute; reflexivity. Qed.

(** The only member of the slot's committee takes both seats. *)
Definition sx_committees : list BeaconCommittee.t := [BeaconCommittee.mk 560 0 [5%nat]].
Definition sx_seed : list Z :=
  match get_seed toy_hash tx_spec tx_gloas.(State.chain).(Chain.randao_mixes) 70 tx_spec.(Spec.domain_ptc_attester) with
  | Ok seed => seed
  | _ => []
  end.
Lemma sx_committees_run : get_beacon_committees_at_slot tx_spec tx_gloas 560 = Ok sx_committees.
Proof. vm_compute. reflexivity. Qed.
Lemma sx_seed_run :
  get_seed toy_hash tx_spec tx_gloas.(State.chain).(Chain.randao_mixes) (epoch 560 tx_spec.(Spec.slots_per_epoch))
    tx_spec.(Spec.domain_ptc_attester) = Ok sx_seed.
Proof. vm_compute. reflexivity. Qed.
Lemma sx_ptc_inputs : draw_inputsb tx_fuel tx_spec.(Spec.max_effective_balance_electra) tx_gloas [5%nat] = true.
Proof. vm_compute. reflexivity. Qed.
Lemma sx_ptc_first :
  accepted (fun i => Z.of_nat (walked_candidate [5%nat] i))
    (walk_accepts toy_hash tx_spec tx_gloas [5%nat] (toy_hash (sx_seed ++ to_le_bytes 8 560)))
    (Z.to_nat tx_spec.(Spec.ptc_size)) 0 tx_fuel = Ok (E := BlockProcessingError.t) [5; 5].
Proof. vm_compute. reflexivity. Qed.
Lemma ptc_is_first_accepted_witness : compute_ptc toy_hash tx_spec tx_fuel tx_gloas 560 = Ok [5; 5].
Proof.
  etrans; [|exact sx_ptc_first].
  apply (ptc_is_first_accepted toy_hash tx_spec tx_fuel tx_gloas 560 sx_committees sx_seed sx_committees_run sx_seed_run).
  exact (draw_inputsb_spec _ _ _ _ _ toy_hash_bytes sx_ptc_inputs).
Defined.
