(* ===== verification/SlasherDefs.v ===== *)
(** * The slasher

    [slasher/src]: it queues the attestations and block headers seen on the
    network, and finds in them validators that voted twice for a target, whose vote
    surrounds another of their votes, or that proposed twice in a slot.  Surrounds
    are found with two arrays per validator, which hold for each recent source
    epoch the least target of a vote with a later source and the greatest target of
    a vote with an earlier one, as distances of 16 bits in chunks on disk, modulo
    the length of the history.

    Correspondence.  A table of the database is a finite map.  Its keys are big-endian
    and of a fixed length, so they are equal and ordered as the tuples they encode,
    and here they are these tuples; values are what they decode to.  The database can
    fail at any call: the state carries the failures to come ([faults]), and a
    transaction that does not commit leaves the tables as it found them.  An [Arc] of
    a record in a batch is the position of the record.  A [BTreeMap] is iterated in
    the order of its keys ([entries]); the order of a [HashSet] of blocks is a
    parameter, and so are the roots of tree hashing and the crate of the LRU cache.
    A [usize] has 64 bits.  Metrics and logs are left out. *)
From stdpp Require Import sorting.
From S2P Require Import Prelude SlotEpoch ProtoArrayDefs ForkChoiceDefs ForkSchedule BeaconStateDefs.
From S2P Require Import ValidatorDefs ShuffleDefs CommitteeDefs SlashingDefs DoppelgangerDefs ValidatorStoreDefs.
From S2P Require Import StateDefs RegistryDefs BlockDefs EpbsDefs OperationsDefs.

(** ** Configuration *)
Module SlasherConfig.
Record t : Type := mk { chunk_size : Z; validator_chunk_size : Z; history_length : Z; max_db_size_mbs : Z }.
#[global] Instance eq_dec : EqDecision t.
Proof. solve_decision. Defined.
End SlasherConfig.
Module DiskConfig.
Record t : Type := mk { chunk_size : Z; validator_chunk_size : Z; history_length : Z }.
#[global] Instance eq_dec : EqDecision t.
Proof. solve_decision. Defined.
End DiskConfig.

Module SlasherError.
Inductive t : Type :=
  | Database
  | BincodeError
  | SszTypesError
  | ChunkIndexOutOfBounds (i : nat)
  | IncompatibleSchemaVersion (database_schema_version software_schema_version : Z)
  | ConfigInvalidChunkSize (chunk_size history_length : Z)
  | ConfigInvalidHistoryLength (history_length max_history_length : Z)
  | ConfigInvalidZeroParameter (config : SlasherConfig.t)
  | ConfigIncompatible (on_disk_config config : DiskConfig.t)
  | DistanceTooLarge
  | DistanceCalculationOverflow
  | MissingAttesterRecord (validator_index : Z) (target_epoch : Epoch)
  | MissingIndexedAttestation (id : Z)
  | InconsistentAttestationDataRoot.
End SlasherError.

Definition MAX_HISTORY_LENGTH : Z := 2 ^ 16.
Definition MAX_DISTANCE : Z := 2 ^ 16 - 1.
Definition CURRENT_SCHEMA_VERSION : Z := 3.

Section config.
Context (config : SlasherConfig.t).
Abbreviation C := (config.(SlasherConfig.chunk_size)).
Abbreviation K := (config.(SlasherConfig.validator_chunk_size)).
Abbreviation H := (config.(SlasherConfig.history_length)).

(** [Config::validate]. *)
Definition config_validate : outcome SlasherError.t unit :=
  if (C =? 0) || (K =? 0) || (H =? 0) || (config.(SlasherConfig.max_db_size_mbs) =? 0)
  then Err (SlasherError.ConfigInvalidZeroParameter config)
  else if negb (H mod C =? 0) then Err (SlasherError.ConfigInvalidChunkSize C H)
  else if MAX_HISTORY_LENGTH <? H then Err (SlasherError.ConfigInvalidHistoryLength H MAX_HISTORY_LENGTH)
  else Ok tt.
Definition disk_config : DiskConfig.t := DiskConfig.mk C K H.

Definition chunk_index (e : Epoch) : Z := e mod H / C.
Definition validator_chunk_index (v : Z) : Z := v / K.
Definition chunk_offset (e : Epoch) : Z := e mod C.
Definition validator_offset (v : Z) : Z := v mod K.
Definition disk_key (validator_chunk_index chunk_index : Z) : Z := validator_chunk_index * (H / C) + chunk_index.
Definition cell_index (validator_offset chunk_offset : Z) : nat := Z.to_nat (validator_offset * C + chunk_offset).
Definition validator_indices_in_chunk (validator_chunk_index : Z) : list Z :=
  (fun k => validator_chunk_index * K + Z.of_nat k) <$> seq 0 (Z.to_nat K).
Definition attesting_validators_in_chunk (indices : list Z) (chunk : Z) : list Z :=
  filter (fun v => validator_chunk_index v = chunk) indices.
End config.

(** ** Attestations *)
#[export] Instance indexed_attestation_eq_dec : EqDecision IndexedAttestation.t.
Proof. solve_decision. Defined.
#[export] Instance signed_header_eq_dec : EqDecision SignedBeaconBlockHeader.t.
Proof. solve_decision. Defined.
#[export] Instance proposer_slashing_eq_dec : EqDecision ProposerSlashing.t.
Proof. solve_decision. Defined.

Definition source_epoch (a : IndexedAttestation.t) : Epoch :=
  a.(IndexedAttestation.data).(AttestationData.source).(Checkpoint.epoch).
Definition target_epoch (a : IndexedAttestation.t) : Epoch :=
  a.(IndexedAttestation.data).(AttestationData.target).(Checkpoint.epoch).

(** The enum [IndexedAttestation]: the Electra form holds more indices. *)
Module AnyAttestation.
Record t : Type := mk { is_electra : bool; inner : IndexedAttestation.t }.
#[global] Instance eq_dec : EqDecision t.
Proof. solve_decision. Defined.
End AnyAttestation.
Module AnySlashing.
Record t : Type := mk { is_electra : bool; attestation_1 : IndexedAttestation.t; attestation_2 : IndexedAttestation.t }.
#[global] Instance eq_dec : EqDecision t.
Proof. solve_decision. Defined.
End AnySlashing.

Module AttesterSlashingStatus.
Inductive t : Type :=
  | NotSlashable
  | AlreadyDoubleVoted
  | DoubleVote (existing : AnyAttestation.t)
  | SurroundsExisting (existing : AnyAttestation.t)
  | SurroundedByExisting (existing : AnyAttestation.t).
#[global] Instance eq_dec : EqDecision t.
Proof. solve_decision. Defined.
(** [into_slashing]: the surrounding attestation is the first one. *)
Definition into_slashing (s : t) (new_attestation : AnyAttestation.t) : option AnySlashing.t :=
  let electra e := e.(AnyAttestation.is_electra) || new_attestation.(AnyAttestation.is_electra) in
  match s with
  | NotSlashable | AlreadyDoubleVoted => None
  | DoubleVote existing | SurroundedByExisting existing =>
      Some (AnySlashing.mk (electra existing) existing.(AnyAttestation.inner) new_attestation.(AnyAttestation.inner))
  | SurroundsExisting existing =>
      Some (AnySlashing.mk (electra existing) new_attestation.(AnyAttestation.inner) existing.(AnyAttestation.inner))
  end.
End AttesterSlashingStatus.
Module ProposerSlashingStatus.
Inductive t : Type := NotSlashable | DoubleVote (slashing : ProposerSlashing.t).
End ProposerSlashingStatus.

Module AttesterRecord.
Record t : Type := mk { attestation_data_hash : Hash256; indexed_attestation_hash : Hash256 }.
End AttesterRecord.
(** The identifier is zero until it is set. *)
Module IndexedAttesterRecord.
Record t : Type := mk { indexed : AnyAttestation.t; record : AttesterRecord.t; indexed_attestation_id : Z }.
Definition attestation (r : t) : IndexedAttestation.t := r.(indexed).(AnyAttestation.inner).
Definition set_indexed_attestation_id (id : Z) (r : t) : t := mk r.(indexed) r.(record) id.
End IndexedAttesterRecord.
Abbreviation SimpleBatch := (list IndexedAttesterRecord.t).

(** ** The database *)
(** The iteration order of a [BTreeMap] and of a table. *)
Definition key_leb (a b : Z * Z) : bool := (a.1 <? b.1) || ((a.1 =? b.1) && (a.2 <=? b.2)).
Definition pair_key_le {V} (a b : (Z * Z) * V) : Prop := key_leb a.1 b.1 = true.
Definition int_key_le {V} (a b : Z * V) : Prop := a.1 ≤ b.1.
#[export] Instance pair_key_le_dec {V} (a b : (Z * Z) * V) : Decision (pair_key_le a b).
Proof. unfold pair_key_le. apply _. Defined.
#[export] Instance int_key_le_dec {V} (a b : Z * V) : Decision (int_key_le a b).
Proof. unfold int_key_le. apply _. Defined.
Definition entries {V} (m : gmap (Z * Z) V) : list ((Z * Z) * V) := merge_sort pair_key_le (map_to_list m).
Definition int_entries {V} (m : gmap Z V) : list (Z * V) := merge_sort int_key_le (map_to_list m).

(** A chunk: [chunk_size] distances for each of [validator_chunk_size] validators. *)
Abbreviation Chunk := (list Z).

(** [attesters] is keyed by [(target_epoch % history_length, validator_index)] and
    holds identifiers, zero for none; [indexed_attestation_ids] is keyed by
    [(target_epoch, hash)], [proposers] by [(slot, validator_index)]. *)
Module Tables.
Record t : Type := mk {
  schema_version : option Z;
  config : option (list Z);
  attesters : gmap (Z * Z) Z;
  attesters_max_targets : gmap Z Epoch;
  indexed_attestations : gmap Z IndexedAttestation.t;
  indexed_attestation_ids : gmap (Z * Z) Z;
  min_targets : gmap Z Chunk;
  max_targets : gmap Z Chunk;
  current_epochs : gmap Z Epoch;
  proposers : gmap (Z * Z) SignedBeaconBlockHeader.t;
}.
Definition empty : t := mk None None ∅ ∅ ∅ ∅ ∅ ∅ ∅ ∅.
Definition put_schema_version (x : Z) (d : t) : t :=
  mk (Some x) d.(config) d.(attesters) d.(attesters_max_targets) d.(indexed_attestations) d.(indexed_attestation_ids)
    d.(min_targets) d.(max_targets) d.(current_epochs) d.(proposers).
Definition put_config (x : list Z) (d : t) : t :=
  mk d.(schema_version) (Some x) d.(attesters) d.(attesters_max_targets) d.(indexed_attestations)
    d.(indexed_attestation_ids) d.(min_targets) d.(max_targets) d.(current_epochs) d.(proposers).
Definition put_attester (k : Z * Z) (id : Z) (d : t) : t :=
  mk d.(schema_version) d.(config) (<[k := id]> d.(attesters)) d.(attesters_max_targets) d.(indexed_attestations)
    d.(indexed_attestation_ids) d.(min_targets) d.(max_targets) d.(current_epochs) d.(proposers).
Definition put_max_target (v : Z) (e : Epoch) (d : t) : t :=
  mk d.(schema_version) d.(config) d.(attesters) (<[v := e]> d.(attesters_max_targets)) d.(indexed_attestations)
    d.(indexed_attestation_ids) d.(min_targets) d.(max_targets) d.(current_epochs) d.(proposers).
Definition set_indexed (m : gmap Z IndexedAttestation.t) (d : t) : t :=
  mk d.(schema_version) d.(config) d.(attesters) d.(attesters_max_targets) m
    d.(indexed_attestation_ids) d.(min_targets) d.(max_targets) d.(current_epochs) d.(proposers).
Definition set_ids (m : gmap (Z * Z) Z) (d : t) : t :=
  mk d.(schema_version) d.(config) d.(attesters) d.(attesters_max_targets) d.(indexed_attestations)
    m d.(min_targets) d.(max_targets) d.(current_epochs) d.(proposers).
Definition put_min_target (k : Z) (c : Chunk) (d : t) : t :=
  mk d.(schema_version) d.(config) d.(attesters) d.(attesters_max_targets) d.(indexed_attestations)
    d.(indexed_attestation_ids) (<[k := c]> d.(min_targets)) d.(max_targets) d.(current_epochs) d.(proposers).
Definition put_max_target_chunk (k : Z) (c : Chunk) (d : t) : t :=
  mk d.(schema_version) d.(config) d.(attesters) d.(attesters_max_targets) d.(indexed_attestations)
    d.(indexed_attestation_ids) d.(min_targets) (<[k := c]> d.(max_targets)) d.(current_epochs) d.(proposers).
Definition put_current_epoch (v : Z) (e : Epoch) (d : t) : t :=
  mk d.(schema_version) d.(config) d.(attesters) d.(attesters_max_targets) d.(indexed_attestations)
    d.(indexed_attestation_ids) d.(min_targets) d.(max_targets) (<[v := e]> d.(current_epochs)) d.(proposers).
Definition set_proposers (m : gmap (Z * Z) SignedBeaconBlockHeader.t) (d : t) : t :=
  mk d.(schema_version) d.(config) d.(attesters) d.(attesters_max_targets) d.(indexed_attestations)
    d.(indexed_attestation_ids) d.(min_targets) d.(max_targets) d.(current_epochs) m.
End Tables.

(** The LRU cache of the roots of stored attestations, by identifier. *)
Class LruCache (Cache : Type) := {
  lru_new : Cache;
  lru_get : Z → Cache → option Hash256 * Cache;
  lru_put : Z → Hash256 → Cache → Cache;
  lru_pop : Z → Cache → Cache;
}.
(** What the crate promises: a value found is the last one put, unless popped since;
    entries may be evicted. *)
Class LruLaws (Cache : Type) `{LruCache Cache} := {
  lru_content : Cache → gmap Z Hash256;
  lru_new_content : lru_content lru_new = ∅;
  lru_get_value : ∀ k c, (lru_get k c).1 = lru_content c !! k;
  lru_get_content : ∀ k c, lru_content (lru_get k c).2 = lru_content c;
  lru_put_content : ∀ k v c, lru_content (lru_put k v c) ⊆ <[k := v]> (lru_content c);
  lru_pop_content : ∀ k c, lru_content (lru_pop k c) = delete k (lru_content c);
}.

(** The struct [Slasher], with the transaction that is open on its database. *)
Module Slasher.
Record t (Cache : Type) : Type := mk {
  tables : Tables.t;
  faults : list bool;
  root_cache : Cache;
  attestation_queue : SimpleBatch;
  block_queue : list SignedBeaconBlockHeader.t;
  attester_slashings : list AnySlashing.t;
  proposer_slashings : list ProposerSlashing.t;
}.
Section fields.
Context {Cache : Type}.
#[global] Arguments mk {Cache}.
#[global] Arguments tables {Cache}.
#[global] Arguments faults {Cache}.
#[global] Arguments root_cache {Cache}.
#[global] Arguments attestation_queue {Cache}.
#[global] Arguments block_queue {Cache}.
#[global] Arguments attester_slashings {Cache}.
#[global] Arguments proposer_slashings {Cache}.
Definition on_tables (f : Tables.t → Tables.t) (s : t Cache) : t Cache :=
  mk (f s.(tables)) s.(faults) s.(root_cache) s.(attestation_queue) s.(block_queue) s.(attester_slashings)
    s.(proposer_slashings).
Definition set_faults (l : list bool) (s : t Cache) : t Cache :=
  mk s.(tables) l s.(root_cache) s.(attestation_queue) s.(block_queue) s.(attester_slashings) s.(proposer_slashings).
Definition set_root_cache (c : Cache) (s : t Cache) : t Cache :=
  mk s.(tables) s.(faults) c s.(attestation_queue) s.(block_queue) s.(attester_slashings) s.(proposer_slashings).
Definition set_attestation_queue (q : SimpleBatch) (s : t Cache) : t Cache :=
  mk s.(tables) s.(faults) s.(root_cache) q s.(block_queue) s.(attester_slashings) s.(proposer_slashings).
Definition set_block_queue (q : list SignedBeaconBlockHeader.t) (s : t Cache) : t Cache :=
  mk s.(tables) s.(faults) s.(root_cache) s.(attestation_queue) q s.(attester_slashings) s.(proposer_slashings).
Definition set_attester_slashings (l : list AnySlashing.t) (s : t Cache) : t Cache :=
  mk s.(tables) s.(faults) s.(root_cache) s.(attestation_queue) s.(block_queue) l s.(proposer_slashings).
Definition set_proposer_slashings (l : list ProposerSlashing.t) (s : t Cache) : t Cache :=
  mk s.(tables) s.(faults) s.(root_cache) s.(attestation_queue) s.(block_queue) s.(attester_slashings) l.
End fields.
End Slasher.

(** [HashSet::insert] and [HashSet::extend]. *)
Definition set_insert {A} `{EqDecision A} (x : A) (l : list A) : list A := if decide (x ∈ l) then l else l ++ [x].
Definition set_extend {A} `{EqDecision A} (xs l : list A) : list A := foldl (fun l x => set_insert x l) l xs.

Section slasher.
Context {Cache : Type} `{lru : LruCache Cache}.
Context (config : SlasherConfig.t) (forks : ForkSpec.t).
(** [E::MaxValidatorsPerCommittee], [E::MaxValidatorsPerSlot], [E::slots_per_epoch()]. *)
Context (max_validators_per_committee max_validators_per_slot slots_per_epoch : Z).
(** The roots of attestation data and of [IndexedAttestationHeader]. *)
Context (data_root : AttestationData.t → Hash256) (header_root : list Z → Hash256 → Z → Hash256).
(** The order in which a [HashSet] of blocks is iterated. *)
Context (hash_order : list SignedBeaconBlockHeader.t → list SignedBeaconBlockHeader.t).
Abbreviation history := (config.(SlasherConfig.history_length)).
Abbreviation SlM := (M (Slasher.t Cache) SlasherError.t).

(** ** Transactions *)
Definition db_call : SlM unit := fun s =>
  match s.(Slasher.faults) with
  | true :: fs => (Err SlasherError.Database, Slasher.set_faults fs s)
  | false :: fs => (Ok tt, Slasher.set_faults fs s)
  | [] => (Ok tt, s)
  end.
Definition txn_get {A} (f : Tables.t → A) : SlM A := db_call;; s ← get; mret (f s.(Slasher.tables)).
Definition txn_put (f : Tables.t → Tables.t) : SlM unit := db_call;; modify (Slasher.on_tables f).
(** [begin_rw_txn], [m] and [commit]; the tables are those found if one of them fails. *)
Definition transaction {A} (m : SlM A) : SlM A := fun s =>
  match (db_call;; a ← m; db_call;; mret a) s with
  | (Ok a, s') => (Ok a, s')
  | (r, s') => (r, Slasher.on_tables (fun _ => s.(Slasher.tables)) s')
  end.

(** ** Keys *)
(** [BigEndian::write_uint] panics on a number that needs more bytes. *)
Definition fits (bytes : Z) (n : Z) : outcome SlasherError.t unit := if n <? 256 ^ bytes then Ok tt else Panic.
Definition attester_key (validator_index : Z) (target : Epoch) : outcome SlasherError.t (Z * Z) :=
  fits 2 (target mod history);; fits 5 validator_index;; Ok (target mod history, validator_index).
Definition indexed_attestation_id_new (id : Z) : outcome SlasherError.t Z := fits 6 id;; Ok id.

(** ** Attester records *)
Definition get_attester_max_target (validator_index : Z) : SlM (option Epoch) :=
  txn_get (fun d => d.(Tables.attesters_max_targets) !! validator_index).
Definition update_attester_max_target (validator_index : Z) (previous_max_target : option Epoch) (max_target : Epoch)
    : SlM unit :=
  if match previous_max_target with Some prev_max => max_target <=? prev_max | None => false end then mret tt
  else
    match previous_max_target with
    | Some previous_max_target =>
        let start_epoch := Z.max (previous_max_target + 1) (u64_saturating_sub (max_target + 1) history) in
        for_each ((fun k => start_epoch + Z.of_nat k) <$> seq 0 (Z.to_nat (max_target - start_epoch))) (fun target_epoch =>
          key ← lift (attester_key validator_index target_epoch);
          txn_put (Tables.put_attester key 0))
    | None => mret tt
    end;;
    txn_put (Tables.put_max_target validator_index max_target).
Definition get_current_epoch_for_validator (validator_index : Z) : SlM (option Epoch) :=
  txn_get (fun d => d.(Tables.current_epochs) !! validator_index).
Definition update_current_epoch_for_validator (validator_index : Z) (current_epoch : Epoch) : SlM unit :=
  txn_put (Tables.put_current_epoch validator_index current_epoch).

(** [last_key]. *)
Definition last_id (d : Tables.t) : option Z := max_of (fst <$> map_to_list d.(Tables.indexed_attestations)).
Definition store_indexed_attestation (indexed_attestation_hash : Hash256) (indexed_attestation : IndexedAttestation.t)
    : SlM Z :=
  let id_key := (target_epoch indexed_attestation, indexed_attestation_hash) in
  existing ← txn_get (fun d => d.(Tables.indexed_attestation_ids) !! id_key);
  match existing with
  | Some indexed_att_id => mret indexed_att_id
  | None =>
      db_call;;
      last ← txn_get last_id;
      let indexed_att_id := match last with None => 1 | Some id => id + 1 end in
      attestation_key ← lift (indexed_attestation_id_new indexed_att_id);
      txn_put (fun d => Tables.set_indexed (<[attestation_key := indexed_attestation]> d.(Tables.indexed_attestations)) d);;
      txn_put (fun d => Tables.set_ids (<[id_key := attestation_key]> d.(Tables.indexed_attestation_ids)) d);;
      mret indexed_att_id
  end.

(** [into_indexed_attestation]: the form is the one of the fork at the target. *)
Definition into_indexed_attestation (a : IndexedAttestation.t) : outcome SlasherError.t AnyAttestation.t :=
  let is_electra := electra_enabled (fork_name_at_epoch forks (target_epoch a)) in
  if Z.of_nat (length a.(IndexedAttestation.attesting_indices))
     <=? (if is_electra then max_validators_per_slot else max_validators_per_committee)
  then Ok (AnyAttestation.mk is_electra a) else Err SlasherError.SszTypesError.
Definition get_indexed_attestation (id : Z) : SlM AnyAttestation.t :=
  found ← txn_get (fun d => d.(Tables.indexed_attestations) !! id);
  on_disk ← lift (ok_or found (SlasherError.MissingIndexedAttestation id));
  lift (into_indexed_attestation on_disk).
(** The cache first, the table when it has no answer. *)
Definition get_attestation_data_root (id : Z) : SlM (Hash256 * option AnyAttestation.t) :=
  s ← get;
  let '(cached, cache) := lru_get id s.(Slasher.root_cache) in
  modify (Slasher.set_root_cache cache);;
  match cached with
  | Some root => mret (root, None)
  | None =>
      indexed_attestation ← get_indexed_attestation id;
      let root := data_root indexed_attestation.(AnyAttestation.inner).(IndexedAttestation.data) in
      modify (fun s => Slasher.set_root_cache (lru_put id root s.(Slasher.root_cache)) s);;
      mret (root, Some indexed_attestation)
  end.
Definition cache_attestation_data_root (id : Z) (root : Hash256) : SlM unit :=
  modify (fun s => Slasher.set_root_cache (lru_put id root s.(Slasher.root_cache)) s).
Definition delete_attestation_data_roots (ids : list Z) : SlM unit :=
  modify (fun s => Slasher.set_root_cache (foldl (fun c id => lru_pop id c) s.(Slasher.root_cache) ids) s).

Definition get_attester_record (validator_index : Z) (target : Epoch) (prev_max_target : option Epoch)
    : SlM (option Z) :=
  if match prev_max_target with Some prev_max => prev_max <? target | None => true end then mret None
  else
    key ← lift (attester_key validator_index target);
    record ← txn_get (fun d => d.(Tables.attesters) !! key);
    mret (match record with Some id => if id =? 0 then None else Some id | None => None end).
Definition check_and_update_attester_record (validator_index : Z) (attestation : IndexedAttestation.t)
    (record : AttesterRecord.t) (indexed_attestation_id : Z) : SlM AttesterSlashingStatus.t :=
  let target_epoch := target_epoch attestation in
  prev_max_target ← get_attester_max_target validator_index;
  existing ← get_attester_record validator_index target_epoch prev_max_target;
  match existing with
  | Some existing_att_id =>
      if existing_att_id =? indexed_attestation_id then mret AttesterSlashingStatus.NotSlashable
      else
        '(existing_data_root, opt_existing_att) ← get_attestation_data_root existing_att_id;
        if existing_data_root =? record.(AttesterRecord.attestation_data_hash)
        then mret AttesterSlashingStatus.NotSlashable
        else
          existing_attestation ←
            match opt_existing_att with
            | Some a => mret a
            | None => get_indexed_attestation existing_att_id
            end;
          if is_double_vote attestation existing_attestation.(AnyAttestation.inner)
          then mret (AttesterSlashingStatus.DoubleVote existing_attestation)
          else throw SlasherError.InconsistentAttestationDataRoot
  | None =>
      update_attester_max_target validator_index prev_max_target target_epoch;;
      key ← lift (attester_key validator_index target_epoch);
      txn_put (Tables.put_attester key indexed_attestation_id);;
      mret AttesterSlashingStatus.NotSlashable
  end.
Definition get_attestation_for_validator (validator_index : Z) (target_epoch : Epoch) : SlM AnyAttestation.t :=
  max_target ← get_attester_max_target validator_index;
  record ← get_attester_record validator_index target_epoch max_target;
  id ← lift (ok_or record (SlasherError.MissingAttesterRecord validator_index target_epoch));
  get_indexed_attestation id.

(** ** Block proposals *)
Definition get_block_proposal (proposer_index : Z) (slot : Slot) : SlM (option SignedBeaconBlockHeader.t) :=
  txn_get (fun d => d.(Tables.proposers) !! (slot, proposer_index)).
Definition check_or_insert_block_proposal (block_header : SignedBeaconBlockHeader.t) : SlM ProposerSlashingStatus.t :=
  let proposer_index := block_header.(SignedBeaconBlockHeader.message).(BeaconBlockHeader.proposer_index) in
  let slot := block_header.(SignedBeaconBlockHeader.message).(BeaconBlockHeader.slot) in
  existing ← get_block_proposal proposer_index slot;
  match existing with
  | Some existing_block =>
      if bool_decide (existing_block = block_header) then mret ProposerSlashingStatus.NotSlashable
      else mret (ProposerSlashingStatus.DoubleVote (ProposerSlashing.mk existing_block block_header))
  | None =>
      txn_put (fun d => Tables.set_proposers (<[(slot, proposer_index) := block_header]> d.(Tables.proposers)) d);;
      mret ProposerSlashingStatus.NotSlashable
  end.

(** ** Pruning *)
(** [delete_while] over the entries from the first one on: [del] deletes the entry of
    a key; the values deleted are the result. *)
Fixpoint delete_while {V} (should_delete : Z * Z → bool) (del : Z * Z → Tables.t → Tables.t) (l : list ((Z * Z) * V))
    : SlM (list V) :=
  match l with
  | [] => mret []
  | (key, value) :: l' =>
      db_call;;
      if should_delete key then
        txn_put (del key);; db_call;;
        rest ← delete_while should_delete del l';
        mret (value :: rest)
      else mret []
  end.
Definition prune_proposers (current_epoch : Epoch) : SlM unit :=
  let min_slot := start_slot (u64_saturating_sub (u64_saturating_add current_epoch 1) history) slots_per_epoch in
  db_call;;
  table ← txn_get (fun d => entries d.(Tables.proposers));
  _ ← delete_while (fun key => key.1 <? min_slot)
        (fun key d => Tables.set_proposers (delete key d.(Tables.proposers)) d) table;
  mret tt.
Definition prune_indexed_attestations (current_epoch : Epoch) : SlM unit :=
  let min_epoch := u64_saturating_sub (u64_saturating_add current_epoch 1) history in
  db_call;;
  table ← txn_get (fun d => entries d.(Tables.indexed_attestation_ids));
  ids ← delete_while (fun key => key.1 <? min_epoch)
          (fun key d => Tables.set_ids (delete key d.(Tables.indexed_attestation_ids)) d) table;
  for_each ids (fun id => txn_put (fun d => Tables.set_indexed (delete id d.(Tables.indexed_attestations)) d));;
  delete_attestation_data_roots ids.
Definition try_prune (current_epoch : Epoch) : SlM unit :=
  prune_proposers current_epoch;; prune_indexed_attestations current_epoch.
Definition prune (current_epoch : Epoch) : SlM unit := transaction (try_prune current_epoch).

(** ** Chunks *)
Definition cell_of_chunk (validator_index : Z) (e : Epoch) : nat :=
  cell_index config (validator_offset config validator_index) (chunk_offset config e).
Definition get_target (validator_index : Z) (e : Epoch) (chunk : Chunk) : outcome SlasherError.t Epoch :=
  if negb (Z.of_nat (length chunk) =? config.(SlasherConfig.chunk_size) * config.(SlasherConfig.validator_chunk_size))
  then Panic
  else
    let cell := cell_of_chunk validator_index e in
    match chunk !! cell with
    | Some distance => Ok (se_add e distance)
    | None => Err (SlasherError.ChunkIndexOutOfBounds cell)
    end.
Definition epoch_distance (e base_epoch : Epoch) : outcome SlasherError.t Z :=
  distance ← ok_or (u64_checked_sub e base_epoch) SlasherError.DistanceCalculationOverflow;
  if distance <? MAX_DISTANCE then Ok distance else Err SlasherError.DistanceTooLarge.
Definition set_raw_distance (validator_index : Z) (e : Epoch) (target_distance : Z) (chunk : Chunk)
    : outcome SlasherError.t Chunk :=
  let cell := cell_of_chunk validator_index e in
  match chunk !! cell with
  | Some _ => Ok (<[cell := target_distance]> chunk)
  | None => Err (SlasherError.ChunkIndexOutOfBounds cell)
  end.
Definition set_target (validator_index : Z) (e target_epoch : Epoch) (chunk : Chunk) : outcome SlasherError.t Chunk :=
  distance ← epoch_distance target_epoch e; set_raw_distance validator_index e distance chunk.

(** The trait [TargetArrayChunk]; [update] returns whether to go on. *)
Record TargetArrayChunk : Type := {
  neutral_element : Z;
  check_slashable : Chunk → Z → AnyAttestation.t → SlM AttesterSlashingStatus.t;
  update_chunk : Z → Z → Epoch → Epoch → Epoch → Chunk → outcome SlasherError.t (bool * Chunk);
  first_start_epoch : Epoch → Epoch → outcome SlasherError.t (option Epoch);
  next_start_epoch : Epoch → Epoch;
  select_db : Tables.t → gmap Z Chunk;
  put_chunk : Z → Chunk → Tables.t → Tables.t;
}.
Definition empty_chunk (T : TargetArrayChunk) : Chunk :=
  replicate (Z.to_nat (config.(SlasherConfig.chunk_size) * config.(SlasherConfig.validator_chunk_size))) T.(neutral_element).

Definition min_check_slashable (chunk : Chunk) (validator_index : Z) (attestation : AnyAttestation.t)
    : SlM AttesterSlashingStatus.t :=
  let a := attestation.(AnyAttestation.inner) in
  min_target ← lift (get_target validator_index (source_epoch a) chunk);
  if min_target <? target_epoch a then
    existing_attestation ← get_attestation_for_validator validator_index min_target;
    if source_epoch a <? source_epoch existing_attestation.(AnyAttestation.inner)
    then mret (AttesterSlashingStatus.SurroundsExisting existing_attestation)
    else mret AttesterSlashingStatus.AlreadyDoubleVoted
  else mret AttesterSlashingStatus.NotSlashable.
(** From [e] down to the end of the chunk or of the history. *)
Fixpoint min_update_loop (n : nat) (chunk_index' : Z) (validator_index : Z) (new_target_epoch min_epoch e : Epoch)
    (chunk : Chunk) : outcome SlasherError.t (bool * Chunk) :=
  match n with
  | O => Diverge
  | S n' =>
      if (chunk_index config e =? chunk_index') && (min_epoch <=? e) then
        target ← get_target validator_index e chunk;
        if new_target_epoch <? target then
          chunk' ← set_target validator_index e new_target_epoch chunk;
          min_update_loop n' chunk_index' validator_index new_target_epoch min_epoch (se_sub e 1) chunk'
        else Ok (false, chunk)
      else Ok (min_epoch <=? e, chunk)
  end.
Definition array_fuel : nat := Z.to_nat (history + 2).
Definition MinTargetChunk : TargetArrayChunk := {|
  neutral_element := MAX_DISTANCE;
  check_slashable := min_check_slashable;
  update_chunk chunk_index' validator_index start_epoch new_target_epoch current_epoch chunk :=
    let min_epoch := u64_saturating_sub current_epoch (history - 1) in
    min_update_loop array_fuel chunk_index' validator_index new_target_epoch min_epoch start_epoch chunk;
  first_start_epoch source current_epoch :=
    if se_sub current_epoch history <? source
    then if source =? 0 then Panic else Ok (Some (se_sub source 1)) else Ok None;
  next_start_epoch start_epoch :=
    let chunk_size := config.(SlasherConfig.chunk_size) in
    se_sub (se_mul (start_epoch / chunk_size) chunk_size) 1;
  select_db := Tables.min_targets;
  put_chunk := Tables.put_min_target;
|}.

Definition max_check_slashable (chunk : Chunk) (validator_index : Z) (attestation : AnyAttestation.t)
    : SlM AttesterSlashingStatus.t :=
  let a := attestation.(AnyAttestation.inner) in
  max_target ← lift (get_target validator_index (source_epoch a) chunk);
  if target_epoch a <? max_target then
    existing_attestation ← get_attestation_for_validator validator_index max_target;
    if source_epoch existing_attestation.(AnyAttestation.inner) <? source_epoch a
    then mret (AttesterSlashingStatus.SurroundedByExisting existing_attestation)
    else mret AttesterSlashingStatus.AlreadyDoubleVoted
  else mret AttesterSlashingStatus.NotSlashable.
(** From [e] up to the end of the chunk or to the current epoch. *)
Fixpoint max_update_loop (n : nat) (chunk_index' : Z) (validator_index : Z) (new_target_epoch current_epoch e : Epoch)
    (chunk : Chunk) : outcome SlasherError.t (bool * Chunk) :=
  match n with
  | O => Diverge
  | S n' =>
      if (chunk_index config e =? chunk_index') && (e <=? current_epoch) then
        target ← get_target validator_index e chunk;
        if target <? new_target_epoch then
          chunk' ← set_target validator_index e new_target_epoch chunk;
          max_update_loop n' chunk_index' validator_index new_target_epoch current_epoch (se_add e 1) chunk'
        else Ok (false, chunk)
      else Ok (e <=? current_epoch, chunk)
  end.
Definition MaxTargetChunk : TargetArrayChunk := {|
  neutral_element := 0;
  check_slashable := max_check_slashable;
  update_chunk chunk_index' validator_index start_epoch new_target_epoch current_epoch chunk :=
    max_update_loop array_fuel chunk_index' validator_index new_target_epoch current_epoch start_epoch chunk;
  first_start_epoch source current_epoch := Ok (if source <? current_epoch then Some (se_add source 1) else None);
  next_start_epoch start_epoch :=
    let chunk_size := config.(SlasherConfig.chunk_size) in
    se_mul (se_add (start_epoch / chunk_size) 1) chunk_size;
  select_db := Tables.max_targets;
  put_chunk := Tables.put_max_target_chunk;
|}.

(** ** The arrays *)
(** Beside the database, the chunks loaded by [update_array]. *)
Abbreviation ArM := (M (Slasher.t Cache * gmap Z Chunk) SlasherError.t).
Definition on_slasher {A} (m : SlM A) : ArM A := zoom fst (fun s x => (s, x.2)) m.
Definition put_updated (chunk_index' : Z) (chunk : Chunk) : ArM unit := modify (fun x => (x.1, <[chunk_index' := chunk]> x.2)).

Section array.
Context (T : TargetArrayChunk).

Definition load (validator_chunk_index' chunk_index' : Z) : SlM (option Chunk) :=
  txn_get (fun d => T.(select_db) d !! disk_key config validator_chunk_index' chunk_index').
Definition store (validator_chunk_index' chunk_index' : Z) (chunk : Chunk) : SlM unit :=
  txn_put (T.(put_chunk) (disk_key config validator_chunk_index' chunk_index') chunk).
Definition get_chunk_for_update (validator_chunk_index' chunk_index' : Z) : ArM Chunk :=
  x ← get;
  match x.2 !! chunk_index' with
  | Some chunk => mret chunk
  | None =>
      disk_chunk ← on_slasher (load validator_chunk_index' chunk_index');
      let chunk := default (empty_chunk T) disk_chunk in
      put_updated chunk_index' chunk;;
      mret chunk
  end.

(** The loop of [apply_attestation_for_validator]. *)
Fixpoint apply_loop (n : nat) (validator_chunk_index' validator_index : Z) (target current_epoch start_epoch : Epoch)
    : ArM unit :=
  match n with
  | O => lift Diverge
  | S n' =>
      let chunk_index' := chunk_index config start_epoch in
      chunk ← get_chunk_for_update validator_chunk_index' chunk_index';
      '(keep_going, chunk') ← lift (T.(update_chunk) chunk_index' validator_index start_epoch target current_epoch chunk);
      put_updated chunk_index' chunk';;
      if keep_going : bool
      then apply_loop n' validator_chunk_index' validator_index target current_epoch (T.(next_start_epoch) start_epoch)
      else mret tt
  end.
Definition apply_attestation_for_validator (validator_chunk_index' validator_index : Z) (attestation : AnyAttestation.t)
    (current_epoch : Epoch) : ArM AttesterSlashingStatus.t :=
  let a := attestation.(AnyAttestation.inner) in
  chunk ← get_chunk_for_update validator_chunk_index' (chunk_index config (source_epoch a));
  slashing_status ← on_slasher (T.(check_slashable) chunk validator_index attestation);
  if negb (bool_decide (slashing_status = AttesterSlashingStatus.NotSlashable)) then mret slashing_status
  else
    start ← lift (T.(first_start_epoch) (source_epoch a) current_epoch);
    match start with
    | None => mret slashing_status
    | Some start_epoch =>
        apply_loop array_fuel validator_chunk_index' validator_index (target_epoch a) current_epoch start_epoch;;
        mret AttesterSlashingStatus.NotSlashable
    end.

(** The two loops of [epoch_update_for_validator]. *)
Fixpoint reset_loop (n : nat) (chunk_index' validator_index : Z) (current_epoch e : Epoch) (chunk : Chunk)
    : outcome SlasherError.t (Epoch * Chunk) :=
  match n with
  | O => Diverge
  | S n' =>
      if (chunk_index config e =? chunk_index') && (e <=? current_epoch) then
        chunk' ← set_raw_distance validator_index e T.(neutral_element) chunk;
        reset_loop n' chunk_index' validator_index current_epoch (se_add e 1) chunk'
      else Ok (e, chunk)
  end.
Fixpoint epoch_update_loop (n : nat) (validator_chunk_index' validator_index : Z) (current_epoch e : Epoch) : ArM unit :=
  match n with
  | O => lift Diverge
  | S n' =>
      if e <=? current_epoch then
        let chunk_index' := chunk_index config e in
        chunk ← get_chunk_for_update validator_chunk_index' chunk_index';
        '(e', chunk') ← lift (reset_loop (Z.to_nat (current_epoch - e + 2)) chunk_index' validator_index current_epoch e chunk);
        put_updated chunk_index' chunk';;
        epoch_update_loop n' validator_chunk_index' validator_index current_epoch e'
      else mret tt
  end.
Definition epoch_update_for_validator (validator_chunk_index' validator_index : Z) (current_epoch : Epoch) : ArM unit :=
  previous ← on_slasher (get_current_epoch_for_validator validator_index);
  match previous with
  | None => mret tt
  | Some previous_current_epoch =>
      epoch_update_loop (S (Z.to_nat (current_epoch - previous_current_epoch + 2))) validator_chunk_index' validator_index
        current_epoch previous_current_epoch
  end.

(** The attestations of a batch, by the chunk of their source. *)
Abbreviation chunk_map := (gmap Z (list IndexedAttesterRecord.t)).
Fixpoint apply_validators (validator_chunk_index' : Z) (attestation : AnyAttestation.t) (current_epoch : Epoch)
    (validators : list Z) (slashings : list AnySlashing.t) : ArM (list AnySlashing.t) :=
  match validators with
  | [] => mret slashings
  | validator_index :: rest =>
      slashing_status ← apply_attestation_for_validator validator_chunk_index' validator_index attestation current_epoch;
      apply_validators validator_chunk_index' attestation current_epoch rest
        (match AttesterSlashingStatus.into_slashing slashing_status attestation with
         | Some slashing => set_insert slashing slashings
         | None => slashings
         end)
  end.
Fixpoint apply_attestations (validator_chunk_index' : Z) (current_epoch : Epoch) (attestations : SimpleBatch)
    (slashings : list AnySlashing.t) : ArM (list AnySlashing.t) :=
  match attestations with
  | [] => mret slashings
  | r :: rest =>
      let attestation := r.(IndexedAttesterRecord.indexed) in
      let validators := attesting_validators_in_chunk config
        (IndexedAttesterRecord.attestation r).(IndexedAttestation.attesting_indices) validator_chunk_index' in
      slashings' ← apply_validators validator_chunk_index' attestation current_epoch validators slashings;
      apply_attestations validator_chunk_index' current_epoch rest slashings'
  end.
(** Run on the database with no chunks loaded. *)
Definition with_updated {A} (m : ArM A) : SlM A := fun s => let '(r, (s', _)) := m (s, ∅) in (r, s').
Definition update_array (validator_chunk_index' : Z) (chunk_attestations : chunk_map) (current_epoch : Epoch)
    : SlM (list AnySlashing.t) :=
  with_updated (
    for_each (validator_indices_in_chunk config validator_chunk_index') (fun validator_index =>
      epoch_update_for_validator validator_chunk_index' validator_index current_epoch);;
    slashings ← apply_attestations validator_chunk_index' current_epoch
                  (concat (snd <$> int_entries chunk_attestations)) [];
    x ← get;
    for_each (int_entries x.2) (fun '(chunk_index', chunk) => on_slasher (store validator_chunk_index' chunk_index' chunk));;
    mret slashings).
End array.

Definition by_chunk (batch : SimpleBatch) : gmap Z SimpleBatch :=
  foldl (fun m r =>
    let k := chunk_index config (source_epoch (IndexedAttesterRecord.attestation r)) in
    <[k := default [] (m !! k) ++ [r]]> m) ∅ batch.
(** [array::update]. *)
Definition update (validator_chunk_index' : Z) (batch : SimpleBatch) (current_epoch : Epoch) : SlM (list AnySlashing.t) :=
  let chunk_attestations := by_chunk batch in
  slashings ← update_array MinTargetChunk validator_chunk_index' chunk_attestations current_epoch;
  more ← update_array MaxTargetChunk validator_chunk_index' chunk_attestations current_epoch;
  for_each (validator_indices_in_chunk config validator_chunk_index') (fun validator_index =>
    update_current_epoch_for_validator validator_index current_epoch);;
  mret (set_extend more slashings).

(** ** Queues *)
(** [AttesterRecord::from]. *)
Definition attester_record (a : IndexedAttestation.t) : AttesterRecord.t :=
  let attestation_data_hash := data_root a.(IndexedAttestation.data) in
  let attesting_indices :=
    if Z.of_nat (length a.(IndexedAttestation.attesting_indices)) <=? max_validators_per_slot
    then a.(IndexedAttestation.attesting_indices) else [] in
  AttesterRecord.mk attestation_data_hash
    (header_root attesting_indices attestation_data_hash a.(IndexedAttestation.signature)).
Definition accept_attestation (attestation : AnyAttestation.t) : SlM unit :=
  modify (fun s => Slasher.set_attestation_queue
    (s.(Slasher.attestation_queue)
     ++ [IndexedAttesterRecord.mk attestation (attester_record attestation.(AnyAttestation.inner)) 0]) s).
Definition accept_block_header (block_header : SignedBeaconBlockHeader.t) : SlM unit :=
  modify (fun s => Slasher.set_block_queue (set_insert block_header s.(Slasher.block_queue)) s).

(** [AttestationBatch.attesters]: the record, by its position, that is kept for a
    validator and the hash of attestation data. *)
Definition indices_of (r : IndexedAttesterRecord.t) : list Z :=
  (IndexedAttesterRecord.attestation r).(IndexedAttestation.attesting_indices).
Definition queue_validator (snapshot : SimpleBatch) (p : nat) (r : IndexedAttesterRecord.t) (attesters : gmap (Z * Z) nat)
    (validator_index : Z) : gmap (Z * Z) nat :=
  let key := (validator_index, r.(IndexedAttesterRecord.record).(AttesterRecord.attestation_data_hash)) in
  match attesters !! key with
  | Some existing =>
      match snapshot !! existing with
      | Some e => if (length (indices_of e) <? length (indices_of r))%nat then <[key := p]> attesters else attesters
      | None => attesters
      end
  | None => <[key := p]> attesters
  end.
Definition queue_record (snapshot : SimpleBatch) (attesters : gmap (Z * Z) nat) (pr : nat * IndexedAttesterRecord.t)
    : gmap (Z * Z) nat :=
  foldl (queue_validator snapshot pr.1 pr.2) attesters (indices_of pr.2).
Definition queue_batch (snapshot : SimpleBatch) : gmap (Z * Z) nat :=
  foldl (queue_record snapshot) ∅ (imap pair snapshot).

(** [resize_with] and [push]. *)
Fixpoint push_at {A} (i : nat) (x : A) (l : list (list A)) : list (list A) :=
  match i, l with
  | O, [] => [[x]]
  | O, q :: l' => (q ++ [x]) :: l'
  | S i', [] => [] :: push_at i' x []
  | S i', q :: l' => q :: push_at i' x l'
  end.
Definition group_by_validator_chunk_index (attesters : gmap (Z * Z) nat) : list (list nat) :=
  foldl (fun subqueues '((validator_index, _), p) =>
    push_at (Z.to_nat (validator_chunk_index config validator_index)) p subqueues) [] (entries attesters).

(** ** Processing *)
(** [validate]: what to process now and what to keep for later. *)
Fixpoint validate (batch : SimpleBatch) (current_epoch : Epoch) : SimpleBatch * SimpleBatch :=
  match batch with
  | [] => ([], [])
  | r :: rest =>
      let '(keep, defer) := validate rest current_epoch in
      let a := IndexedAttesterRecord.attestation r in
      if (target_epoch a <? source_epoch a) || (se_add (source_epoch a) history <=? current_epoch) then (keep, defer)
      else if current_epoch <? target_epoch a then (keep, r :: defer)
      else (r :: keep, defer)
  end.

(** Store the records that are still referenced, and set their identifiers. *)
Definition set_id (id : Z) (r : IndexedAttesterRecord.t) : outcome SlasherError.t IndexedAttesterRecord.t :=
  if r.(IndexedAttesterRecord.indexed_attestation_id) =? 0
  then Ok (IndexedAttesterRecord.set_indexed_attestation_id id r) else Panic.
Fixpoint store_records (alive : nat → bool) (p : nat) (snapshot : SimpleBatch) : SlM SimpleBatch :=
  match snapshot with
  | [] => mret []
  | r :: rest =>
      r' ← (if alive p then
              id ← store_indexed_attestation r.(IndexedAttesterRecord.record).(AttesterRecord.indexed_attestation_hash)
                     (IndexedAttesterRecord.attestation r);
              r' ← lift (set_id id r);
              key ← lift (indexed_attestation_id_new id);
              cache_attestation_data_root key r.(IndexedAttesterRecord.record).(AttesterRecord.attestation_data_hash);;
              mret r'
            else mret r);
      rest' ← store_records alive (S p) rest;
      mret (r' :: rest')
  end.

Fixpoint double_vote_loop (attestation : AnyAttestation.t) (record : AttesterRecord.t) (id : Z) (validators : list Z)
    (slashings : list AnySlashing.t) : SlM (list AnySlashing.t) :=
  match validators with
  | [] => mret slashings
  | validator_index :: rest =>
      slashing_status ← check_and_update_attester_record validator_index attestation.(AnyAttestation.inner) record id;
      double_vote_loop attestation record id rest
        (match AttesterSlashingStatus.into_slashing slashing_status attestation with
         | Some slashing => set_insert slashing slashings
         | None => slashings
         end)
  end.
Definition check_double_votes (subqueue_id : Z) (attestation : AnyAttestation.t) (record : AttesterRecord.t) (id : Z)
    : SlM (list AnySlashing.t) :=
  double_vote_loop attestation record id
    (attesting_validators_in_chunk config attestation.(AnyAttestation.inner).(IndexedAttestation.attesting_indices)
       subqueue_id) [].
Definition found (slashings : list AnySlashing.t) : SlM unit :=
  modify (fun s => Slasher.set_attester_slashings (set_extend slashings s.(Slasher.attester_slashings)) s).
Definition process_batch (subqueue_id : Z) (batch : SimpleBatch) (current_epoch : Epoch) : SlM unit :=
  for_each batch (fun r =>
    id ← lift (indexed_attestation_id_new r.(IndexedAttesterRecord.indexed_attestation_id));
    slashings ← check_double_votes subqueue_id r.(IndexedAttesterRecord.indexed) r.(IndexedAttesterRecord.record) id;
    found slashings);;
  slashings ← update subqueue_id batch current_epoch;
  found slashings.

Definition process_attestations (current_epoch : Epoch) : SlM nat :=
  s ← get;
  let snapshot := s.(Slasher.attestation_queue) in
  modify (Slasher.set_attestation_queue []);;
  let '(keep, deferred) := validate snapshot current_epoch in
  modify (fun s => Slasher.set_attestation_queue (s.(Slasher.attestation_queue) ++ deferred) s);;
  let attesters := queue_batch keep in
  let alive p := existsb (fun e => (snd e =? p)%nat) (map_to_list attesters) in
  stored ← store_records alive 0 keep;
  for_each (imap pair (group_by_validator_chunk_index attesters)) (fun '(subqueue_id, subqueue) =>
    process_batch (Z.of_nat subqueue_id) (omap (fun p => stored !! p) subqueue) current_epoch);;
  mret (length snapshot).
Fixpoint process_headers (blocks : list SignedBeaconBlockHeader.t) (slashings : list ProposerSlashing.t)
    : SlM (list ProposerSlashing.t) :=
  match blocks with
  | [] => mret slashings
  | block :: rest =>
      status ← check_or_insert_block_proposal block;
      process_headers rest
        (match status with
         | ProposerSlashingStatus.DoubleVote slashing => slashings ++ [slashing]
         | ProposerSlashingStatus.NotSlashable => slashings
         end)
  end.
Definition process_blocks : SlM (nat * nat) :=
  s ← get;
  let blocks := hash_order s.(Slasher.block_queue) in
  modify (Slasher.set_block_queue []);;
  slashings ← process_headers blocks [];
  modify (fun s => Slasher.set_proposer_slashings (set_extend slashings s.(Slasher.proposer_slashings)) s);;
  mret (length blocks, length slashings).
Definition process_queued (current_epoch : Epoch) : SlM (nat * nat * nat) :=
  transaction (
    '(num_processed, num_slashings) ← process_blocks;
    attestations ← process_attestations current_epoch;
    mret (num_processed, num_slashings, attestations)).
Definition prune_database (current_epoch : Epoch) : SlM unit := prune current_epoch.

(** Harvesting. *)
Definition get_attester_slashings : SlM (list AnySlashing.t) :=
  s ← get; modify (Slasher.set_attester_slashings []);; mret s.(Slasher.attester_slashings).
Definition get_proposer_slashings : SlM (list ProposerSlashing.t) :=
  s ← get; modify (Slasher.set_proposer_slashings []);; mret s.(Slasher.proposer_slashings).

(** ** Opening *)
(** The binary form of a configuration on disk. *)
Context (encode_config : SlasherConfig.t → list Z) (decode_config : list Z → option DiskConfig.t).
Definition store_schema_version : SlM unit := txn_put (Tables.put_schema_version CURRENT_SCHEMA_VERSION).
Definition store_config (c : SlasherConfig.t) : SlM unit := txn_put (Tables.put_config (encode_config c)).
Definition load_config : SlM (option DiskConfig.t) :=
  bytes ← txn_get Tables.config;
  match bytes with
  | None => mret None
  | Some b => d ← lift (ok_or (decode_config b) SlasherError.BincodeError); mret (Some d)
  end.
Definition migrate : SlM unit :=
  db_call;;
  schema_version ← txn_get Tables.schema_version;
  match schema_version with
  | None => mret tt
  | Some v =>
      if v <? 3 then throw (SlasherError.IncompatibleSchemaVersion v CURRENT_SCHEMA_VERSION)
      else if v =? CURRENT_SCHEMA_VERSION then mret tt
      else throw (SlasherError.IncompatibleSchemaVersion v CURRENT_SCHEMA_VERSION)
  end.
Definition db_open : SlM unit :=
  migrate;;
  transaction (
    on_disk ← load_config;
    match on_disk with
    | Some on_disk_config =>
        if bool_decide (disk_config config = on_disk_config) then mret tt
        else throw (SlasherError.ConfigIncompatible on_disk_config (disk_config config))
    | None => mret tt
    end).
(** [Slasher::open] on the tables that are on disk. *)
Definition slasher_open (tables : Tables.t) (faults : list bool) : outcome SlasherError.t unit * Slasher.t Cache :=
  (lift (config_validate config);; db_open) (Slasher.mk tables faults lru_new [] [] [] []).
End slasher.
