(* ===== verification/SlasherRecords.v ===== *)
(** * What the slasher keeps on disk

    The indexed attestations with their identifiers and the cache of their roots, and
    for each validator and recent target the attestation it made.  The record of a
    target is exact over the window of the history, although its key is the target
    modulo the length of the history. *)
From S2P Require Import Prelude SlotEpoch ProtoArrayDefs ForkChoiceDefs ForkSchedule BeaconStateDefs.
From S2P Require Import ValidatorDefs ShuffleDefs CommitteeDefs SlashingDefs DoppelgangerDefs ValidatorStoreDefs.
From S2P Require Import StateDefs RegistryDefs BlockDefs EpbsDefs OperationsDefs SlasherDefs.

(** ** Triples that keep the state of an error *)
Section triples.
Context {S E : Type}.
(** [m] neither panics nor diverges in [s]; [Q] holds of a result and [R] of an error,
    with the state reached. *)
Definition hoare {A} (m : M S E A) (s : S) (Q : A → S → Prop) (R : E → S → Prop) : Prop :=
  match m s with
  | (Ok a, s') => Q a s'
  | (Err e, s') => R e s'
  | (Panic, _) | (Diverge, _) => False
  end.
Lemma hoare_bind {A B} (m : M S E A) (k : A → M S E B) s Q R :
  hoare m s (fun a s1 => hoare (k a) s1 Q R) R → hoare (m ≫= k) s Q R.
Proof. unfold hoare, mbind, M_bind. by destruct (m s) as [[] ?]. Qed.
Lemma hoare_ret {A} (a : A) s (Q : A → S → Prop) (R : E → S → Prop) : Q a s → hoare (mret a) s Q R.
Proof. done. Qed.
Lemma hoare_get s (Q : S → S → Prop) (R : E → S → Prop) : Q s s → hoare get s Q R.
Proof. done. Qed.
Lemma hoare_modify f s (Q : unit → S → Prop) (R : E → S → Prop) : Q tt (f s) → hoare (modify f) s Q R.
Proof. done. Qed.
Lemma hoare_lift {A} (o : outcome E A) a s (Q : A → S → Prop) R : o = Ok a → Q a s → hoare (lift o) s Q R.
Proof. by intros ->. Qed.
Lemma hoare_mono {A} (m : M S E A) s (Q Q' : A → S → Prop) (R R' : E → S → Prop) :
  hoare m s Q R → (∀ a s', Q a s' → Q' a s') → (∀ e s', R e s' → R' e s') → hoare m s Q' R'.
Proof. unfold hoare. destruct (m s) as [[] ?]; auto. Qed.
Lemma hoare_ok {A} (m : M S E A) s (Q : A → S → Prop) R a s' : hoare m s Q R → m s = (Ok a, s') → Q a s'.
Proof. unfold hoare. intros H Hm. by rewrite Hm in H. Qed.
Lemma hoare_err {A} (m : M S E A) s (Q : A → S → Prop) (R : E → S → Prop) e s' : hoare m s Q R → m s = (Err e, s') → R e s'.
Proof. unfold hoare. intros H Hm. by rewrite Hm in H. Qed.
(** Rule for a loop: [I done] holds after the prefix [done]. *)
Lemma hoare_for_each {A} (f : A → M S E unit) (I : list A → S → Prop) R l s :
  I [] s →
  (∀ done x rest s1, l = done ++ x :: rest → I done s1 → hoare (f x) s1 (fun _ s2 => I (done ++ [x]) s2) R) →
  hoare (for_each l f) s (fun _ s' => I l s') R.
Proof.
  intros H0 Hstep.
  enough (∀ rest done s1, l = done ++ rest → I done s1 → hoare (for_each rest f) s1 (fun _ s' => I l s') R) as H
    by (by eapply (H l [])).
  induction rest as [|x rest IH]; intros pre s1 Hl HI.
  - rewrite app_nil_r in Hl. by subst pre.
  - simpl. apply hoare_bind. eapply hoare_mono; [by eapply Hstep| |done]. cbv beta. intros _ s2 HI2.
    apply (IH (pre ++ [x])); [by rewrite <-app_assoc|done].
Qed.
(** A loop whose body keeps [I]. *)
Lemma hoare_for_each_inv {A} (f : A → M S E unit) (I : S → Prop) R l s :
  I s → (∀ x s1, x ∈ l → I s1 → hoare (f x) s1 (fun _ s2 => I s2) R) →
  hoare (for_each l f) s (fun _ s' => I s') R.
Proof.
  intros H0 Hstep. apply (hoare_for_each f (fun _ => I)); [done|]. intros done x rest s1 -> HI.
  apply Hstep; [set_solver|done].
Qed.
End triples.

(** Run the next statement of a method. *)
Ltac hoare_step :=
  match goal with
  | |- hoare (mbind _ _) _ _ _ => apply hoare_bind
  | |- hoare (mret _) _ _ _ => apply hoare_ret
  | |- hoare get _ _ _ => apply hoare_get
  | |- hoare (modify _) _ _ _ => apply hoare_modify
  end.
Ltac hoare_steps := repeat hoare_step.

(** ** Arithmetic of the window *)
Lemma mod_window H t t' : 0 < H → t < t' < t + H → t mod H ≠ t' mod H.
Proof.
  intros HH Ht Heq. pose proof (Z.div_mod t H ltac:(lia)). pose proof (Z.div_mod t' H ltac:(lia)).
  assert (t' - t = H * (t' / H - t / H)) by lia. assert (0 < t' / H - t / H < 1); nia.
Qed.
Lemma mod_window_inj H c t t' : 0 < H → c - H < t ≤ c → c - H < t' ≤ c → t mod H = t' mod H → t = t'.
Proof.
  intros HH Ht Ht' Heq. destruct (Z.lt_trichotomy t t') as [Hlt|[->|Hlt]]; [|done|].
  - by destruct (mod_window H t t' HH ltac:(lia)).
  - by destruct (mod_window H t' t HH ltac:(lia)).
Qed.

(** ** Votes *)
Abbreviation vote := (Z * AttestationData.t)%type.
Definition src (d : AttestationData.t) : Epoch := d.(AttestationData.source).(Checkpoint.epoch).
Definition tgt (d : AttestationData.t) : Epoch := d.(AttestationData.target).(Checkpoint.epoch).
Definition surrounds (d1 d2 : AttestationData.t) : Prop := src d1 < src d2 ∧ tgt d2 < tgt d1.
(** Two votes for which a validator is slashed. *)
Definition slashable (d1 d2 : AttestationData.t) : Prop :=
  (d1 ≠ d2 ∧ tgt d1 = tgt d2) ∨ surrounds d1 d2 ∨ surrounds d2 d1.

(** A slashing that a chain accepts, if the signatures are valid: the first
    attestation surrounds the second or votes for another block with its target, and
    a validator is in both. *)
Definition conflicting (x : AnySlashing.t) : Prop :=
  let d1 := x.(AnySlashing.attestation_1).(IndexedAttestation.data) in
  let d2 := x.(AnySlashing.attestation_2).(IndexedAttestation.data) in
  (d1 ≠ d2 ∧ tgt d1 = tgt d2) ∨ surrounds d1 d2.
Definition accuses (v : Z) (x : AnySlashing.t) : Prop :=
  conflicting x ∧ v ∈ x.(AnySlashing.attestation_1).(IndexedAttestation.attesting_indices)
  ∧ v ∈ x.(AnySlashing.attestation_2).(IndexedAttestation.attesting_indices).
Definition caught (F : list AnySlashing.t) (v : Z) : Prop := ∃ x, x ∈ F ∧ accuses v x.

Lemma caught_sub F F' v : F ⊆ F' → caught F v → caught F' v.
Proof. intros Hs (x & Hx & Ha). exists x. auto. Qed.

Lemma sub_app_l {A} (l k : list A) : l ⊆ l ++ k.
Proof. intros x Hx. apply elem_of_app. by left. Qed.
Lemma sub_app_r {A} (l k : list A) : k ⊆ l ++ k.
Proof. intros x Hx. apply elem_of_app. by right. Qed.
Lemma elem_of_set_insert {A} `{EqDecision A} (x y : A) l : y ∈ set_insert x l ↔ y = x ∨ y ∈ l.
Proof. unfold set_insert. case_decide; set_solver. Qed.
Lemma elem_of_set_extend {A} `{EqDecision A} (xs l : list A) y : y ∈ set_extend xs l ↔ y ∈ xs ∨ y ∈ l.
Proof.
  unfold set_extend. revert l. induction xs as [|x xs IH]; intros l; simpl; [set_solver|].
  rewrite IH, elem_of_set_insert. set_solver.
Qed.
Lemma is_double_vote_spec a b :
  is_double_vote a b = true ↔
  a.(IndexedAttestation.data) ≠ b.(IndexedAttestation.data) ∧ tgt a.(IndexedAttestation.data) = tgt b.(IndexedAttestation.data).
Proof.
  unfold is_double_vote. rewrite andb_true_iff, Z.eqb_eq, negb_true_iff, bool_decide_eq_false. unfold tgt. tauto.
Qed.

(** ** Assumptions *)
(** A configuration that [validate] accepts. *)
Record config_ok (config : SlasherConfig.t) : Prop := {
  co_chunk : 0 < config.(SlasherConfig.chunk_size);
  co_validators : 0 < config.(SlasherConfig.validator_chunk_size);
  co_history : 0 < config.(SlasherConfig.history_length) ≤ MAX_HISTORY_LENGTH;
  co_divides : config.(SlasherConfig.history_length) mod config.(SlasherConfig.chunk_size) = 0;
}.
Lemma config_validate_ok config :
  0 ≤ config.(SlasherConfig.chunk_size) → 0 ≤ config.(SlasherConfig.validator_chunk_size) → 0 ≤ config.(SlasherConfig.history_length) →
  config_validate config = Ok tt → config_ok config.
Proof.
  intros HC HK HN. unfold config_validate.
  destruct (Z.eqb_spec config.(SlasherConfig.chunk_size) 0); [done|]. destruct (Z.eqb_spec config.(SlasherConfig.validator_chunk_size) 0); [done|].
  destruct (Z.eqb_spec config.(SlasherConfig.history_length) 0); [done|]. destruct (_ =? 0); [done|]. simpl.
  destruct (Z.eqb_spec (config.(SlasherConfig.history_length) mod config.(SlasherConfig.chunk_size)) 0) as [Hd|]; [|done]. simpl.
  destruct (Z.ltb_spec MAX_HISTORY_LENGTH config.(SlasherConfig.history_length)); [done|]. intros _. split; (done || lia).
Qed.
(** The roots do not collide. *)
Record roots_ok (data_root : AttestationData.t → Hash256) (header_root : list Z → Hash256 → Z → Hash256) : Prop := {
  ro_data : ∀ d d', data_root d = data_root d' → d = d';
  ro_header : ∀ l r g l' r' g', header_root l r g = header_root l' r' g' → l = l' ∧ r = r' ∧ g = g';
}.

Section records.
Context {Cache : Type} `{lru : LruCache Cache, !LruLaws Cache}.
Context (config : SlasherConfig.t) (Hconfig : config_ok config) (forks : ForkSpec.t).
Context (max_validators_per_committee max_validators_per_slot : Z).
Abbreviation history := (config.(SlasherConfig.history_length)).
Abbreviation state := (Slasher.t Cache).
Abbreviation SlM := (M state SlasherError.t).

(** An attestation that fits its type, with indices below the registry limit. *)
Definition well_typed (a : IndexedAttestation.t) : Prop :=
  Z.of_nat (length a.(IndexedAttestation.attesting_indices)) ≤ max_validators_per_slot
  ∧ (∃ any, into_indexed_attestation forks max_validators_per_committee max_validators_per_slot a = Ok any)
  ∧ Forall (fun v => 0 ≤ v < 2 ^ 40) a.(IndexedAttestation.attesting_indices)
  ∧ 0 ≤ source_epoch a.

Lemma history_pos : 0 < history.
Proof using Hconfig. by destruct Hconfig as [_ _ [] _]. Qed.

(** *** States up to the failures to come *)
Definition core (s : state) : state := Slasher.set_faults [] s.
(** What a transaction that fails leaves behind. *)
Definition outside (s : state) : state := Slasher.on_tables (fun _ => Tables.empty) (core s).
Definition leftover (Bad : state → Prop) : Prop := ∀ s s', outside s' = outside s → Bad s → Bad s'.

Lemma core_tables s s' : core s' = core s → s'.(Slasher.tables) = s.(Slasher.tables).
Proof. intros Hc. exact (f_equal Slasher.tables Hc). Qed.
Lemma core_cache s s' : core s' = core s → s'.(Slasher.root_cache) = s.(Slasher.root_cache).
Proof. intros Hc. exact (f_equal Slasher.root_cache Hc). Qed.
Lemma core_outside s s' : core s' = core s → outside s' = outside s.
Proof. intros Hc. unfold outside. by rewrite Hc. Qed.
Lemma outside_on_tables f s : outside (Slasher.on_tables f s) = outside s.
Proof. done. Qed.
Lemma outside_cache s s' : outside s' = outside s → s'.(Slasher.root_cache) = s.(Slasher.root_cache).
Proof. intros Hc. exact (f_equal Slasher.root_cache Hc). Qed.

Section database.
Context (Bad : state → Prop) (HBad : leftover Bad).
(** The only error is one of the database. *)
Definition error (e : SlasherError.t) (s : state) : Prop := e = SlasherError.Database ∧ Bad s.

Lemma hoare_db_call (s : state) (Q : unit → state → Prop) :
  Bad s → (∀ s', core s' = core s → Bad s' → Q tt s') → hoare db_call s Q error.
Proof using HBad.
  intros Hb HQ. unfold hoare, db_call.
  destruct (Slasher.faults s) as [|[] fs]; [by apply HQ|split; [done|]|apply HQ; [done|]]; by apply (HBad s).
Qed.
Lemma hoare_txn_get {A} (f : Tables.t → A) (s : state) (Q : A → state → Prop) :
  Bad s → (∀ s', core s' = core s → Bad s' → Q (f s.(Slasher.tables)) s') → hoare (txn_get f) s Q error.
Proof using HBad.
  intros Hb HQ. unfold txn_get. apply hoare_bind, hoare_db_call; [done|]. intros s1 H1 Hb1. hoare_steps.
  rewrite (core_tables _ _ H1). by apply HQ.
Qed.
Lemma hoare_txn_put f (s : state) (Q : unit → state → Prop) :
  Bad s → (∀ s', s'.(Slasher.tables) = f s.(Slasher.tables) → outside s' = outside s → Bad s' → Q tt s') →
  hoare (txn_put f) s Q error.
Proof using HBad.
  intros Hb HQ. unfold txn_put. apply hoare_bind, hoare_db_call; [done|]. intros s1 H1 Hb1. hoare_steps. apply HQ.
  - simpl. by rewrite (core_tables _ _ H1).
  - rewrite outside_on_tables. by apply core_outside.
  - by apply (HBad s1).
Qed.

(** *** Records *)
(** The identifier that [get_attester_record] finds. *)
Definition rec_at (T : Tables.t) (v : Z) (t : Epoch) : option Z :=
  match T.(Tables.attesters_max_targets) !! v with
  | Some m =>
      if t <=? m then
        match T.(Tables.attesters) !! (t mod history, v) with
        | Some id => if id =? 0 then None else Some id
        | None => None
        end
      else None
  | None => None
  end.

Lemma attester_key_ok v t : 0 ≤ v < 2 ^ 40 → attester_key config v t = Ok (t mod history, v).
Proof using Hconfig.
  intros Hv. destruct Hconfig as [_ _ [Hh0 Hh] _]. unfold MAX_HISTORY_LENGTH in Hh.
  pose proof (Z.mod_pos_bound t history Hh0). unfold attester_key, fits.
  rewrite (proj2 (Z.ltb_lt _ (256 ^ 2))) by lia. simpl.
  rewrite (proj2 (Z.ltb_lt _ (256 ^ 5))) by lia. done.
Qed.

Lemma get_attester_record_run v t s :
  0 ≤ v < 2 ^ 40 → Bad s →
  hoare (get_attester_record config v t (s.(Slasher.tables).(Tables.attesters_max_targets) !! v)) s
    (fun r s' => r = rec_at s.(Slasher.tables) v t ∧ core s' = core s ∧ Bad s') error.
Proof using HBad Hconfig.
  intros Hv Hb. unfold get_attester_record, rec_at.
  destruct (_ !! v) as [m|]; [|by hoare_steps].
  destruct (Z.ltb_spec m t), (Z.leb_spec t m); [lia|by hoare_steps| |lia].
  hoare_step. eapply hoare_lift; [by apply attester_key_ok|]. hoare_step. apply hoare_txn_get; [done|].
  intros s' Hc Hb'. by hoare_steps.
Qed.

Definition with_records (att : gmap (Z * Z) Z) (mt : gmap Z Epoch) (T : Tables.t) : Tables.t :=
  Tables.mk T.(Tables.schema_version) T.(Tables.config) att mt T.(Tables.indexed_attestations)
    T.(Tables.indexed_attestation_ids) T.(Tables.min_targets) T.(Tables.max_targets) T.(Tables.current_epochs)
    T.(Tables.proposers).

Definition nulled (T : Tables.t) (v : Z) (l : list Epoch) (att : gmap (Z * Z) Z) : Prop := ∀ k v',
  att !! (k, v') = if bool_decide (v' = v ∧ k ∈ (fun t => t mod history) <$> l) then Some 0
                   else T.(Tables.attesters) !! (k, v').
Lemma null_run v l s :
  0 ≤ v < 2 ^ 40 → Bad s →
  hoare (for_each l (fun t => key ← lift (attester_key config v t); txn_put (Tables.put_attester key 0))) s
    (fun _ s' => ∃ att, s'.(Slasher.tables) = with_records att s.(Slasher.tables).(Tables.attesters_max_targets) s.(Slasher.tables)
       ∧ outside s' = outside s ∧ Bad s' ∧ nulled s.(Slasher.tables) v l att) error.
Proof using HBad Hconfig.
  intros Hv Hb. apply (hoare_for_each _ (fun done s' => ∃ att,
    s'.(Slasher.tables) = with_records att s.(Slasher.tables).(Tables.attesters_max_targets) s.(Slasher.tables)
       ∧ outside s' = outside s ∧ Bad s' ∧ nulled s.(Slasher.tables) v done att)).
  { exists s.(Slasher.tables).(Tables.attesters). split_and!; [by destruct (Slasher.tables s)|done..|].
    intros k v'. rewrite bool_decide_eq_false_2; [done|]. intros [_ Hk]. by apply elem_of_nil in Hk. }
  intros done x rest s1 _ (att & HT & Ho & Hb1 & Hatt). hoare_step. eapply hoare_lift; [by apply attester_key_ok|].
  apply hoare_txn_put; [done|]. intros s2 HT2 Ho2 Hb2. exists (<[(x mod history, v) := 0]> att). split_and!.
  - by rewrite HT2, HT.
  - by rewrite Ho2.
  - done.
  - intros k v'. destruct (decide ((x mod history, v) = (k, v'))) as [[= <- <-]|Hne].
    + rewrite lookup_insert_eq, bool_decide_eq_true_2; [done|]. split; [done|]. rewrite fmap_app, elem_of_app. right. by apply list_elem_of_singleton.
    + rewrite lookup_insert_ne, Hatt by done. apply (f_equal (fun b : bool => if b then _ else _)).
      apply bool_decide_ext. rewrite fmap_app, elem_of_app. simpl. rewrite list_elem_of_singleton. naive_solver.
Qed.

(** The maximal targets are below [c], and a validator without one has no records. *)
Definition max_targets_ok (T : Tables.t) (c : Epoch) : Prop := ∀ v,
  match T.(Tables.attesters_max_targets) !! v with
  | Some m => 0 ≤ m ≤ c
  | None => ∀ k, T.(Tables.attesters) !! (k, v) = None
  end.

(** [T'] has the record [id] for the target [t] of [v] in addition. *)
Record adds_record (c : Epoch) (v : Z) (t : Epoch) (id : Z) (T T' : Tables.t) : Prop := {
  ar_frame : T' = with_records T'.(Tables.attesters) T'.(Tables.attesters_max_targets) T;
  ar_new : rec_at T' v t = Some id;
  ar_others : ∀ v' t', v' ≠ v → rec_at T' v' t' = rec_at T v' t';
  ar_window : ∀ t', c - history < t' ≤ c → t' ≠ t → rec_at T' v t' = rec_at T v t';
  ar_max : max_targets_ok T' c;
}.

Lemma adds_record_first c v t id T :
  max_targets_ok T c → 0 ≤ t ≤ c → id ≠ 0 → T.(Tables.attesters_max_targets) !! v = None →
  adds_record c v t id T
    (with_records (<[(t mod history, v) := id]> T.(Tables.attesters)) (<[v := t]> T.(Tables.attesters_max_targets)) T).
Proof using Hconfig.
  intros Hm Ht Hid Hv. pose proof (Hm v) as Hnone. rewrite Hv in Hnone. split; [done|..]; unfold rec_at; simpl.
  - rewrite lookup_insert_eq, Z.leb_refl, lookup_insert_eq. by destruct (Z.eqb_spec id 0).
  - intros v' t' Hne. rewrite lookup_insert_ne by done. destruct (_ !! v') as [m|]; [|done]. by rewrite lookup_insert_ne by congruence.
  - intros t' Hw Hne. rewrite lookup_insert_eq, Hv. destruct (Z.leb_spec t' t); [|done].
    rewrite lookup_insert_ne, Hnone; [done|]. intros [=]. destruct Hne. by eapply (mod_window_inj history c); [apply history_pos|lia..].
  - intros v'. simpl. destruct (decide (v' = v)) as [->|Hne].
    + rewrite lookup_insert_eq. lia.
    + rewrite lookup_insert_ne by done. specialize (Hm v'). destruct (_ !! v'); [done|]. intros k.
      rewrite lookup_insert_ne by congruence. apply Hm.
Qed.

(** A change of the records of [v] alone, which raises its maximal target to [m']. *)
Lemma adds_record_raise c v t id m m' T att mt :
  max_targets_ok T c → c - history < t ≤ c → 0 ≤ t ≤ m' → m' ≤ c → id ≠ 0 →
  T.(Tables.attesters_max_targets) !! v = Some m → mt = <[v := m']> T.(Tables.attesters_max_targets) →
  (∀ k v', v' ≠ v → att !! (k, v') = T.(Tables.attesters) !! (k, v')) →
  att !! (t mod history, v) = Some id →
  (∀ t', c - history < t' ≤ m' → t' ≠ t →
     att !! (t' mod history, v) = if t' <=? m then T.(Tables.attesters) !! (t' mod history, v) else Some 0) →
  m ≤ m' →
  adds_record c v t id T (with_records att mt T).
Proof using Hconfig.
  intros Hm Hw Ht Hm' Hid Hv -> Hne Hnew Hwin Hle. split; [done|..]; unfold rec_at; simpl.
  - rewrite lookup_insert_eq, (proj2 (Z.leb_le t m')), Hnew by lia. by destruct (Z.eqb_spec id 0).
  - intros v' t' Hv'. rewrite lookup_insert_ne by done. by rewrite Hne.
  - intros t' Ht' Htt. rewrite lookup_insert_eq, Hv. destruct (Z.leb_spec t' m').
    + rewrite Hwin by lia. destruct (Z.leb_spec t' m); done.
    + destruct (Z.leb_spec t' m); [lia|done].
  - intros v'. simpl. destruct (decide (v' = v)) as [->|Hv'].
    + rewrite lookup_insert_eq. lia.
    + rewrite lookup_insert_ne by done. specialize (Hm v'). destruct (_ !! v'); [done|]. intros k. by rewrite Hne.
Qed.

Lemma nulled_others T v l att k v' : nulled T v l att → v' ≠ v → att !! (k, v') = T.(Tables.attesters) !! (k, v').
Proof. intros Hn Hv. rewrite Hn, bool_decide_eq_false_2; naive_solver. Qed.
Lemma nulled_in T v l att t : nulled T v l att → t ∈ l → att !! (t mod history, v) = Some 0.
Proof.
  intros Hn Ht. rewrite Hn, bool_decide_eq_true_2; [done|]. split; [done|]. by apply (list_elem_of_fmap_2 (fun t => t mod history)).
Qed.
Lemma nulled_out T v l att t c :
  nulled T v l att → c - history < t ≤ c → (∀ t', t' ∈ l → c - history < t' ≤ c ∧ t' ≠ t) →
  att !! (t mod history, v) = T.(Tables.attesters) !! (t mod history, v).
Proof using Hconfig.
  intros Hn Ht Hl. rewrite Hn, bool_decide_eq_false_2; [done|]. intros [_ (t' & Hmod & Hin)%list_elem_of_fmap].
  destruct (Hl t' Hin) as [Hw Hne]. apply Hne. symmetry. by apply (mod_window_inj history c); [apply history_pos|..].
Qed.

Definition skipped (m t : Epoch) : list Epoch :=
  let start := Z.max (m + 1) (u64_saturating_sub (t + 1) history) in
  (fun k => start + Z.of_nat k) <$> seq 0 (Z.to_nat (t - start)).
Lemma elem_of_skipped m t t' : 0 ≤ t → t' ∈ skipped m t ↔ m < t' < t ∧ t - history < t' ∧ 0 ≤ t'.
Proof.
  intros Ht. unfold skipped. rewrite list_elem_of_fmap. unfold u64_saturating_sub. split.
  - intros (k & -> & Hk%elem_of_seq). lia.
  - intros Hr. exists (Z.to_nat (t' - Z.max (m + 1) (Z.max 0 (t + 1 - history)))). rewrite elem_of_seq. lia.
Qed.

Lemma record_run {B} c v t id s (m : SlM B) Q :
  max_targets_ok s.(Slasher.tables) c → c - history < t ≤ c → 0 ≤ t → id ≠ 0 → 0 ≤ v < 2 ^ 40 → Bad s →
  (∀ s', adds_record c v t id s.(Slasher.tables) s'.(Slasher.tables) → outside s' = outside s → Bad s' → hoare m s' Q error) →
  hoare (update_attester_max_target config v (s.(Slasher.tables).(Tables.attesters_max_targets) !! v) t;;
         key ← lift (attester_key config v t);
         txn_put (Tables.put_attester key id);;
         m) s Q error.
Proof using HBad Hconfig.
  intros Hm Hw Ht0 Hid Hv Hb Hk. set (T := s.(Slasher.tables)) in *. pose proof (Hm v) as Hmv.
  unfold update_attester_max_target. destruct (T.(Tables.attesters_max_targets) !! v) as [mx|] eqn:Ev.
  - destruct (Z.leb_spec t mx) as [Hle|Hlt].
    + hoare_steps. eapply hoare_lift; [by apply attester_key_ok|]. hoare_step. apply hoare_txn_put; [done|].
      intros s' HT Ho Hb'. apply Hk; [|done|done]. rewrite HT.
      apply (adds_record_raise c v t id mx mx T (<[(t mod history, v) := id]> T.(Tables.attesters))); try (done || lia).
      * by rewrite insert_id.
      * intros k v' Hne. by rewrite lookup_insert_ne by congruence.
      * by rewrite lookup_insert_eq.
      * intros t' Ht' Hne. rewrite (proj2 (Z.leb_le t' mx)) by lia. rewrite lookup_insert_ne; [done|].
        intros [= Hmod]. apply Hne. symmetry. apply (mod_window_inj history c); [apply history_pos|lia..].
    + do 2 hoare_step. eapply hoare_mono; [apply (null_run v (skipped mx t) s); done| |done].
      intros _ s1 (att & HT1 & Ho1 & Hb1 & Hn). fold T in HT1, Hn. apply hoare_txn_put; [done|].
      intros s2 HT2 Ho2 Hb2. hoare_step. eapply hoare_lift; [by apply attester_key_ok|]. hoare_step.
      apply hoare_txn_put; [done|]. intros s3 HT3 Ho3 Hb3. apply Hk; [|by rewrite Ho3, Ho2, Ho1|done].
      rewrite HT3, HT2, HT1.
      apply (adds_record_raise c v t id mx t T (<[(t mod history, v) := id]> att)); try (done || lia).
      * intros k v' Hne. rewrite lookup_insert_ne by congruence. by eapply nulled_others.
      * by rewrite lookup_insert_eq.
      * intros t' Ht' Hne. rewrite lookup_insert_ne.
        2:{ intros [= Hmod]. apply Hne. symmetry. apply (mod_window_inj history c); [apply history_pos|lia..]. }
        destruct (Z.leb_spec t' mx).
        -- apply (nulled_out T v (skipped mx t) att t' c); [done|lia|]. intros t'' Hin%elem_of_skipped; lia.
        -- apply (nulled_in T v (skipped mx t)); [done|]. apply elem_of_skipped; lia.
  - hoare_steps. apply hoare_txn_put; [done|]. intros s1 HT1 Ho1 Hb1. hoare_step.
    eapply hoare_lift; [by apply attester_key_ok|]. hoare_step. apply hoare_txn_put; [done|]. intros s2 HT2 Ho2 Hb2.
    apply Hk; [|by rewrite Ho2, Ho1|done]. rewrite HT2, HT1. apply adds_record_first; [done|lia|done|done].
Qed.

(** *** Attestations and their roots *)
Context (data_root : AttestationData.t → Hash256) (header_root : list Z → Hash256 → Z → Hash256).
Abbreviation record_of a := (attester_record max_validators_per_slot data_root header_root a).
Abbreviation hash_of a := (record_of a).(AttesterRecord.indexed_attestation_hash).
Context (Hroots : roots_ok data_root header_root).

Definition coherent_roots (T : Tables.t) (cache : Cache) : Prop := ∀ id a r,
  T.(Tables.indexed_attestations) !! id = Some a → lru_content cache !! id = Some r →
  r = data_root a.(IndexedAttestation.data).
(** The tables that a failure goes back to. *)
Context (T0 : Tables.t) (HBad_cache : ∀ s cache, coherent_roots T0 cache → Bad s → Bad (Slasher.set_root_cache cache s)).
(** The state without tables, cache and failures. *)
Definition beyond (s : state) : state := Slasher.set_root_cache lru_new (outside s).

Lemma outside_beyond s s' : outside s' = outside s → beyond s' = beyond s.
Proof. intros Ho. unfold beyond. by rewrite Ho. Qed.
Lemma coherent_roots_sub T T' cache :
  T.(Tables.indexed_attestations) ⊆ T'.(Tables.indexed_attestations) → coherent_roots T' cache → coherent_roots T cache.
Proof. intros Hs Hc id a r Hid. apply Hc. by eapply lookup_weaken. Qed.
Lemma coherent_roots_put T cache id r :
  (∀ id' a r', id' ≠ id → T.(Tables.indexed_attestations) !! id' = Some a → lru_content cache !! id' = Some r' →
     r' = data_root a.(IndexedAttestation.data)) →
  (∀ a, T.(Tables.indexed_attestations) !! id = Some a → r = data_root a.(IndexedAttestation.data)) →
  coherent_roots T (lru_put id r cache).
Proof.
  intros Hc Hr id' a r' Ha Hr'.
  pose proof (lookup_weaken _ _ _ _ Hr' (lru_put_content id r cache)) as Hp.
  destruct (decide (id' = id)) as [->|Hne].
  - rewrite lookup_insert_eq in Hp. injection Hp as <-. by apply Hr.
  - rewrite lookup_insert_ne in Hp by done. by eapply Hc.
Qed.

(** What the tables of attestations hold: attestations in [Acc], each under the key of
    its hash. *)
Record store_ok (Acc : IndexedAttestation.t → Prop) (T : Tables.t) : Prop := {
  so_stored : ∀ id a, T.(Tables.indexed_attestations) !! id = Some a → 0 < id ∧ Acc a ∧ well_typed a
                ∧ T.(Tables.indexed_attestation_ids) !! (target_epoch a, hash_of a) = Some id;
  so_ids : ∀ k id, T.(Tables.indexed_attestation_ids) !! k = Some id →
             ∃ a, T.(Tables.indexed_attestations) !! id = Some a ∧ k = (target_epoch a, hash_of a);
}.

Lemma hash_of_inj a a' : well_typed a → well_typed a' → hash_of a = hash_of a' → a = a'.
Proof using Hroots.
  intros [Ha _] [Ha' _] Heq. unfold attester_record in Heq. simpl in Heq.
  rewrite !(proj2 (Z.leb_le _ _)) in Heq by done.
  destruct (ro_header _ _ Hroots _ _ _ _ _ _ Heq) as (Hi & Hd & Hg). apply (ro_data _ _ Hroots) in Hd.
  destruct a, a'. simpl in *. congruence.
Qed.

Abbreviation load_att := (get_indexed_attestation forks max_validators_per_committee max_validators_per_slot).
Lemma get_indexed_attestation_run Acc id a s :
  store_ok Acc s.(Slasher.tables) → s.(Slasher.tables).(Tables.indexed_attestations) !! id = Some a → Bad s →
  hoare (load_att id) s (fun any s' => any.(AnyAttestation.inner) = a ∧ core s' = core s ∧ Bad s') error.
Proof using HBad.
  intros Hst Ha Hb. unfold get_indexed_attestation. hoare_step. apply hoare_txn_get; [done|]. intros s' Hc Hb'.
  rewrite Ha. hoare_step. eapply hoare_lift; [done|]. destruct (so_stored _ _ Hst id a Ha) as (_ & _ & (_ & (any & Hany) & _) & _).
  eapply hoare_lift; [done|]. split_and!; [|done|done]. unfold into_indexed_attestation in Hany.
  destruct (_ <=? _); [|done]. by injection Hany as <-.
Qed.

Lemma get_attestation_data_root_run Acc id a s :
  store_ok Acc s.(Slasher.tables) → s.(Slasher.tables).(Tables.indexed_attestations) !! id = Some a →
  T0.(Tables.indexed_attestations) ⊆ s.(Slasher.tables).(Tables.indexed_attestations) →
  coherent_roots s.(Slasher.tables) s.(Slasher.root_cache) → Bad s →
  hoare (get_attestation_data_root forks max_validators_per_committee max_validators_per_slot data_root id) s
    (fun r s' => r.1 = data_root a.(IndexedAttestation.data) ∧ (∀ any, r.2 = Some any → any.(AnyAttestation.inner) = a)
       ∧ s'.(Slasher.tables) = s.(Slasher.tables) ∧ beyond s' = beyond s
       ∧ coherent_roots s'.(Slasher.tables) s'.(Slasher.root_cache) ∧ Bad s') error.
Proof using HBad HBad_cache LruLaws0.
  intros Hst Ha Hsub Hco Hb. unfold get_attestation_data_root. do 2 hoare_step.
  pose proof (lru_get_value id s.(Slasher.root_cache)) as Hval. pose proof (lru_get_content id s.(Slasher.root_cache)) as Hcon.
  destruct (lru_get id _) as [cached cache]. simpl in Hval, Hcon. do 2 hoare_step.
  assert (coherent_roots s.(Slasher.tables) cache) as Hco1.
  { intros id' a' r' Ha' Hr'. rewrite Hcon in Hr'. by eapply Hco. }
  assert (Bad (Slasher.set_root_cache cache s)) as Hb1 by (apply HBad_cache; [by eapply coherent_roots_sub|done]).
  destruct cached as [r|]; [hoare_step; split_and!; [|done..]; by eapply Hco|].
  hoare_step. eapply hoare_mono; [by apply (get_indexed_attestation_run Acc id a)| |done].
  intros any s' (<- & Hc & Hb'). pose proof (core_tables _ _ Hc) as HT. pose proof (core_cache _ _ Hc) as HC. simpl in HT, HC.
  assert (coherent_roots s'.(Slasher.tables) (lru_put id (data_root any.(AnyAttestation.inner).(IndexedAttestation.data))
            s'.(Slasher.root_cache))) as Hco2.
  { rewrite HT, HC. apply coherent_roots_put; [|by intros a' Ha'; rewrite Ha in Ha'; injection Ha' as <-].
    intros id' a' r' _ Ha' Hr'. by eapply Hco1. }
  hoare_steps. split_and!; [done|by intros ? [= <-]|done| |done|].
  - exact (f_equal (Slasher.set_root_cache lru_new) (core_outside _ _ Hc)).
  - apply HBad_cache; [|done]. eapply coherent_roots_sub; [|done]. by rewrite HT.
Qed.

(** *** The record of a target is exact *)
Definition attests (T : Tables.t) (id v : Z) (t : Epoch) (a : IndexedAttestation.t) : Prop :=
  T.(Tables.indexed_attestations) !! id = Some a ∧ target_epoch a = t ∧ v ∈ a.(IndexedAttestation.attesting_indices).
(** Over the window up to [c] there is a record of each target in the votes [L], and
    each validator that voted twice for a target is caught by the slashings [F]. *)
Record records_ok (T : Tables.t) (c : Epoch) (L : list vote) (F : list AnySlashing.t) : Prop := {
  rc_max : max_targets_ok T c;
  rc_votes : ∀ v d, (v, d) ∈ L → 0 ≤ src d ≤ tgt d ∧ tgt d ≤ c;
  rc_none : ∀ v t, c - history < t ≤ c → 0 ≤ t → rec_at T v t = None → ∀ d, (v, d) ∈ L → tgt d ≠ t;
  rc_some : ∀ v t id, c - history < t ≤ c → 0 ≤ t → rec_at T v t = Some id →
    ∃ a, attests T id v t a ∧ ∀ d, (v, d) ∈ L → tgt d = t → d = a.(IndexedAttestation.data) ∨ caught F v;
  rc_double : ∀ v d d', (v, d) ∈ L → (v, d') ∈ L → d ≠ d' → tgt d = tgt d' → caught F v;
}.

Lemma records_ok_later T c c' L F : records_ok T c L F → c ≤ c' → records_ok T c' L F.
Proof.
  intros [H1 H2 H3 H4 H5] Hc. split.
  - intros v. specialize (H1 v). destruct (_ !! v); [lia|done].
  - intros v d Hd. specialize (H2 v d Hd). lia.
  - intros v t Ht Ht0 Hr d Hd. destruct (decide (t ≤ c)); [by eapply H3; eauto; lia|]. specialize (H2 v d Hd). lia.
  - intros v t id Ht Ht0 Hr. destruct (decide (t ≤ c)); [by eapply H4; eauto; lia|].
    unfold rec_at in Hr. specialize (H1 v). destruct (_ !! v) as [m|]; [|done]. destruct (Z.leb_spec t m); [lia|done].
  - done.
Qed.

(** A vote for a target that has a record. *)
Lemma records_ok_known T c L F F' v d id a :
  records_ok T c L F → F ⊆ F' → c - history < tgt d ≤ c → 0 ≤ src d ≤ tgt d → rec_at T v (tgt d) = Some id →
  T.(Tables.indexed_attestations) !! id = Some a → d = a.(IndexedAttestation.data) ∨ caught F' v →
  records_ok T c (L ++ [(v, d)]) F'.
Proof.
  intros [H1 H2 H3 H4 H5] HF Hw Hs Hr Ha Hd.
  destruct (H4 v (tgt d) id Hw ltac:(lia) Hr) as (a' & (Ha' & Hta & Hva) & Hex).
  assert (a' = a) as -> by congruence. split.
  - done.
  - intros v' d' [Hd'|[= -> ->]%list_elem_of_singleton]%elem_of_app; [by eapply H2|lia].
  - intros v' t' Ht' Ht0 Hr' d' [Hd'|[= -> ->]%list_elem_of_singleton]%elem_of_app; [by eapply H3|congruence].
  - intros v' t' id' Ht' Ht0 Hr'. destruct (H4 v' t' id' Ht' Ht0 Hr') as (a' & Hat & Hall). exists a'. split; [done|].
    intros d' [Hd'|[= -> ->]%list_elem_of_singleton]%elem_of_app Htd.
    + destruct (Hall d' Hd' Htd); [by left|right; by eapply caught_sub].
    + subst t'. rewrite Hr in Hr'. injection Hr' as <-. destruct Hat as [Hat _]. assert (a' = a) as -> by congruence. done.
  - assert (∀ d', (v, d') ∈ L → d' ≠ d → tgt d' = tgt d → caught F' v) as Hnew.
    { intros d' Hd' Hne Ht. destruct (Hex d' Hd' Ht) as [->|Hc]; [|by eapply caught_sub]. destruct Hd; [congruence|done]. }
    intros v' d1 d2 [Hd1|[= -> ->]%list_elem_of_singleton]%elem_of_app [Hd2|Hd2]%elem_of_app Hne Ht;
      try apply list_elem_of_singleton in Hd2 as [= -> ->].
    + eapply caught_sub; [done|]. by apply (H5 v' d1 d2).
    + by apply (Hnew d1).
    + apply (Hnew d2); congruence.
    + apply list_elem_of_singleton in Hd2. congruence.
Qed.
(** The first vote for a target. *)
Lemma records_ok_new T T' c L F v a id :
  records_ok T c L F → c - history < target_epoch a ≤ c → 0 ≤ source_epoch a ≤ target_epoch a →
  rec_at T v (target_epoch a) = None → adds_record c v (target_epoch a) id T T' →
  T.(Tables.indexed_attestations) !! id = Some a → v ∈ a.(IndexedAttestation.attesting_indices) →
  records_ok T' c (L ++ [(v, a.(IndexedAttestation.data))]) F.
Proof.
  intros [H1 H2 H3 H4 H5] Hw Hs Hr [Hf Hn Ho Hwin Hm] Ha Hv.
  assert (T'.(Tables.indexed_attestations) = T.(Tables.indexed_attestations)) as Hidx by (by rewrite Hf).
  assert (∀ d, (v, d) ∈ L → tgt d ≠ target_epoch a) as Hno by (apply H3; [done|lia|done]).
  assert (∀ v' t', c - history < t' ≤ c → (v', t') ≠ (v, target_epoch a) → rec_at T' v' t' = rec_at T v' t') as Hsame.
  { intros v' t' Ht' Hne. destruct (decide (v' = v)) as [->|]; [|by apply Ho]. apply Hwin; [done|congruence]. }
  split.
  - done.
  - intros v' d' [Hd'|[= -> ->]%list_elem_of_singleton]%elem_of_app; [by eapply H2|]. unfold source_epoch, target_epoch in *.
    unfold src, tgt. lia.
  - intros v' t' Ht' Ht0 Hr' d' Hd' Htd. destruct (decide ((v', t') = (v, target_epoch a))) as [[= -> ->]|Hne]; [congruence|].
    apply elem_of_app in Hd' as [Hd'|[= -> ->]%list_elem_of_singleton]; [|by destruct Hne; rewrite <-Htd].
    rewrite Hsame in Hr' by done. by eapply H3.
  - intros v' t' id' Ht' Ht0 Hr'. destruct (decide ((v', t') = (v, target_epoch a))) as [[= -> ->]|Hne].
    + rewrite Hn in Hr'. injection Hr' as <-. exists a. split; [by unfold attests; rewrite Hidx|].
      intros d' [Hd'|[= ->]%list_elem_of_singleton]%elem_of_app Htd; [by destruct (Hno d' Hd')|by left].
    + rewrite Hsame in Hr' by done. destruct (H4 v' t' id' Ht' Ht0 Hr') as (a' & Hat & Hall). exists a'.
      split; [by unfold attests; rewrite Hidx|].
      intros d' [Hd'|[= -> ->]%list_elem_of_singleton]%elem_of_app Htd; [by apply Hall|by destruct Hne; rewrite <-Htd].
  - intros v' d1 d2 [Hd1|[= -> ->]%list_elem_of_singleton]%elem_of_app [Hd2|Hd2]%elem_of_app Hne Ht;
      try apply list_elem_of_singleton in Hd2 as [= -> ->].
    + by apply (H5 v' d1 d2).
    + by destruct (Hno d1 Hd1).
    + by destruct (Hno d2 Hd2).
    + apply list_elem_of_singleton in Hd2. congruence.
Qed.

(** *** Double votes *)
Definition genuine (Acc : IndexedAttestation.t → Prop) (x : AnySlashing.t) : Prop :=
  (∃ v, accuses v x) ∧ Acc x.(AnySlashing.attestation_1) ∧ Acc x.(AnySlashing.attestation_2).
(** The state of a transaction that has processed the votes [L] and found [F]. *)
Record txn_ok (Acc : IndexedAttestation.t → Prop) (c : Epoch) (L : list vote) (F : list AnySlashing.t) (s : state) : Prop := {
  tx_store : store_ok Acc s.(Slasher.tables);
  tx_sub : T0.(Tables.indexed_attestations) ⊆ s.(Slasher.tables).(Tables.indexed_attestations);
  tx_roots : coherent_roots s.(Slasher.tables) s.(Slasher.root_cache);
  tx_records : records_ok s.(Slasher.tables) c L F;
  tx_bad : Bad s;
}.
(** [T'] differs from [T] in the records alone. *)
Definition only_records (T T' : Tables.t) : Prop :=
  T' = with_records T'.(Tables.attesters) T'.(Tables.attesters_max_targets) T.
Lemma only_records_refl T : only_records T T.
Proof. by destruct T. Qed.
Lemma only_records_trans T1 T2 T3 : only_records T1 T2 → only_records T2 T3 → only_records T1 T3.
Proof. unfold only_records. intros H1 H2. rewrite H2 at 1. rewrite H1. done. Qed.
Lemma only_records_indexed T T' : only_records T T' → T'.(Tables.indexed_attestations) = T.(Tables.indexed_attestations).
Proof. unfold only_records. by intros ->. Qed.

Lemma store_ok_ext Acc T T' :
  T'.(Tables.indexed_attestations) = T.(Tables.indexed_attestations) →
  T'.(Tables.indexed_attestation_ids) = T.(Tables.indexed_attestation_ids) → store_ok Acc T → store_ok Acc T'.
Proof. intros H1 H2 [Ha Hb]. split; by rewrite H1, H2. Qed.
Lemma store_ok_only_records Acc T T' : only_records T T' → store_ok Acc T → store_ok Acc T'.
Proof. unfold only_records. intros ->. by apply store_ok_ext. Qed.

Definition accuse (status : AttesterSlashingStatus.t) (any : AnyAttestation.t) : list AnySlashing.t :=
  option_list (AttesterSlashingStatus.into_slashing status any).

(** A vote of the current window by a validator of a stored attestation. *)
Record votes_for (c v : Z) (a : IndexedAttestation.t) (id : Z) (T : Tables.t) : Prop := {
  vf_stored : T.(Tables.indexed_attestations) !! id = Some a;
  vf_member : v ∈ a.(IndexedAttestation.attesting_indices);
  vf_epochs : c - history < source_epoch a ≤ target_epoch a ∧ target_epoch a ≤ c;
}.

(** The outcome of a check of the vote [(v, any)] in [s]. *)
Record checked (Acc : IndexedAttestation.t → Prop) (c : Epoch) (L : list vote) (F : list AnySlashing.t) (v : Z)
    (any : AnyAttestation.t) (s : state) (st : AttesterSlashingStatus.t) (s' : state) : Prop := {
  ck_txn : txn_ok Acc c (L ++ [(v, any.(AnyAttestation.inner).(IndexedAttestation.data))]) (F ++ accuse st any) s';
  ck_genuine : Forall (genuine Acc) (accuse st any);
  ck_frame : only_records s.(Slasher.tables) s'.(Slasher.tables);
  ck_beyond : beyond s' = beyond s;
}.

Section check.
Context (Acc : IndexedAttestation.t → Prop) (c : Epoch) (L : list vote) (F : list AnySlashing.t) (v : Z).
Context (any : AnyAttestation.t) (id : Z) (s : state).
Abbreviation a := (any.(AnyAttestation.inner)).
Abbreviation T := (s.(Slasher.tables)).
Context (Htxn : txn_ok Acc c L F s) (Hvote : votes_for c v a id T).

Lemma vote_bounds : 0 ≤ v < 2 ^ 40 ∧ id ≠ 0 ∧ 0 ≤ source_epoch a ∧ Acc a.
Proof using Htxn Hvote.
  destruct Htxn as [Hst _ _ _ _], Hvote as [Hid Hva _].
  destruct (so_stored _ _ Hst id _ Hid) as (Hid0 & Hacc & (_ & _ & Hidx & Hsrc) & _).
  rewrite list.Forall_forall in Hidx. split_and!; [by apply Hidx..|lia|done|done].
Qed.

(** The target has the record [ex] of an attestation [a']. *)
Lemma checked_known ex st s' a' :
  rec_at T v (target_epoch a) = Some ex → T.(Tables.indexed_attestations) !! ex = Some a' →
  s'.(Slasher.tables) = T → coherent_roots T s'.(Slasher.root_cache) → Bad s' → beyond s' = beyond s →
  Forall (genuine Acc) (accuse st any) →
  a.(IndexedAttestation.data) = a'.(IndexedAttestation.data) ∨ caught (F ++ accuse st any) v →
  checked Acc c L F v any s st s'.
Proof using Htxn Hvote.
  intros Hrec Ha' HT HC HB HY Hg Hd. destruct vote_bounds as (_ & _ & Hs0 & _).
  destruct Htxn as [Hst Hsub _ Hrc _], Hvote as [_ _ He].
  split; [|done|rewrite HT; apply only_records_refl|done]. split; rewrite ?HT; try done.
  unfold source_epoch, target_epoch in *.
  eapply records_ok_known; [done|apply sub_app_l|unfold tgt; lia|unfold src, tgt; lia|done|done|done].
Qed.

Lemma checked_double ex s' any' :
  attests T ex v (target_epoch a) any'.(AnyAttestation.inner) → rec_at T v (target_epoch a) = Some ex →
  a.(IndexedAttestation.data) ≠ any'.(AnyAttestation.inner).(IndexedAttestation.data) →
  s'.(Slasher.tables) = T → coherent_roots T s'.(Slasher.root_cache) → Bad s' → beyond s' = beyond s →
  checked Acc c L F v any s (AttesterSlashingStatus.DoubleVote any') s'.
Proof using Htxn Hvote.
  intros (Ha' & Ht' & Hv') Hrec Hne HT HC HB HY. destruct vote_bounds as (_ & _ & _ & Hacc). destruct Hvote as [_ Hva _].
  assert (accuses v (AnySlashing.mk (AnyAttestation.is_electra any' || AnyAttestation.is_electra any)
            (AnyAttestation.inner any') a)) as Hacu.
  { split_and!; [|done|done]. left. simpl. split; [by intros E; apply Hne|exact Ht']. }
  eapply checked_known; [done..| |].
  - constructor; [|constructor]. split; [by eexists|]. split; [|done].
    by destruct (so_stored _ _ (tx_store _ _ _ _ _ Htxn) ex _ Ha') as (_ & ? & _).
  - right. eexists. split; [|done]. apply sub_app_r. by apply list_elem_of_singleton.
Qed.

Lemma checked_new s' :
  rec_at T v (target_epoch a) = None → adds_record c v (target_epoch a) id T s'.(Slasher.tables) →
  outside s' = outside s → Bad s' →
  checked Acc c L F v any s AttesterSlashingStatus.NotSlashable s'.
Proof using Htxn Hvote.
  intros Hrec Har Ho HB. destruct vote_bounds as (_ & _ & Hs0 & _). destruct Htxn as [Hst Hsub Hco Hrc _], Hvote as [Hid Hva He].
  pose proof (ar_frame _ _ _ _ _ _ Har) as Hor. fold (only_records T s'.(Slasher.tables)) in Hor.
  pose proof (only_records_indexed _ _ Hor) as Hidx.
  split; [|by constructor|done|by apply outside_beyond]. unfold accuse. simpl. rewrite app_nil_r.
  split; [by eapply store_ok_only_records|by rewrite Hidx| | |done].
  - intros id' a' r. rewrite Hidx, (outside_cache _ _ Ho). apply Hco.
  - eapply records_ok_new; [done|lia|lia|done|done|done|done].
Qed.

Abbreviation check_record :=
  (check_and_update_attester_record config forks max_validators_per_committee max_validators_per_slot data_root).
Lemma check_record_run :
  hoare (check_record v a (record_of a) id) s (checked Acc c L F v any s) error.
Proof using HBad HBad_cache LruLaws0 Hconfig Hroots Htxn Hvote.
  destruct vote_bounds as (Hv & Hid0 & Hs0 & Hacc). pose proof Htxn as [Hst Hsub Hco Hrc Hb]. pose proof Hvote as [Hid Hva He].
  unfold check_and_update_attester_record, get_attester_max_target. hoare_step. apply hoare_txn_get; [done|].
  intros s1 Hc1 Hb1. hoare_step. rewrite <-(core_tables _ _ Hc1).
  eapply hoare_mono; [by apply get_attester_record_run| |done]. intros r s2 (-> & Hc2 & Hb2). rewrite Hc1 in Hc2.
  rewrite (core_tables _ _ Hc1). pose proof (core_tables _ _ Hc2) as HT2. pose proof (core_cache _ _ Hc2) as HC2.
  pose proof (core_outside _ _ Hc2) as Ho2. destruct (rec_at T v (target_epoch a)) as [ex|] eqn:Erec.
  - destruct (rc_some _ _ _ _ Hrc v (target_epoch a) ex ltac:(lia) ltac:(lia) Erec) as (a' & (Ha' & Ht' & Hv') & _).
    destruct (Z.eqb_spec ex id) as [->|Hne].
    { hoare_step. eapply (checked_known id); [done..|by rewrite HC2|done|by apply outside_beyond|by constructor|].
      left. rewrite Hid in Ha'. by injection Ha' as ->. }
    hoare_step. eapply hoare_mono; [apply (get_attestation_data_root_run Acc ex a'); by rewrite ?HT2, ?HC2| |done].
    intros [root opt] s3 (Hroot & Hopt & HT3 & Hy3 & Hco3 & Hb3). simpl in Hroot, Hopt. subst root. rewrite HT2 in HT3.
    rewrite (outside_beyond _ _ Ho2) in Hy3. rewrite HT3 in Hco3.
    destruct (Z.eqb_spec (data_root a'.(IndexedAttestation.data)) (record_of a).(AttesterRecord.attestation_data_hash)) as [Heq|Hneq].
    { hoare_step. eapply (checked_known ex); [done..|by constructor|]. left. symmetry. by apply (ro_data _ _ Hroots). }
    hoare_step.
    assert (hoare (match opt with Some any' => mret any' | None => get_indexed_attestation forks max_validators_per_committee
                     max_validators_per_slot ex end) s3
      (fun any' s4 => any'.(AnyAttestation.inner) = a' ∧ core s4 = core s3 ∧ Bad s4) error) as Hload.
    { destruct opt as [any'|]; [hoare_step; split_and!; [by apply Hopt|done|done]|].
      apply (get_indexed_attestation_run Acc); [by rewrite HT3|by rewrite HT3|done]. }
    eapply hoare_mono; [exact Hload| |done]. intros any' s4 (<- & Hc4 & Hb4).
    assert (a.(IndexedAttestation.data) ≠ any'.(AnyAttestation.inner).(IndexedAttestation.data)) as Hdata
      by (intros E; apply Hneq; simpl; by rewrite E).
    rewrite (proj2 (is_double_vote_spec _ _)) by (split; [done|symmetry; exact Ht']). hoare_step.
    eapply (checked_double ex); [done|done|done|by rewrite (core_tables _ _ Hc4)|by rewrite (core_cache _ _ Hc4)|done|].
    by rewrite (outside_beyond _ _ (core_outside _ _ Hc4)).
  - rewrite <-HT2. apply (record_run c); rewrite ?HT2; [apply Hrc|lia|lia|done|done|done|].
    intros s' Har Ho Hb'. hoare_step. apply checked_new; [done|done|by rewrite Ho|done].
Qed.
End check.

Lemma records_ok_found T c L F F' : records_ok T c L F → F ⊆ F' → records_ok T c L F'.
Proof.
  intros [H1 H2 H3 H4 H5] HF. split; [done|done|done| |].
  - intros v t id Ht Ht0 Hr. destruct (H4 v t id Ht Ht0 Hr) as (a & Hat & Hall). exists a. split; [done|].
    intros d Hd Htd. destruct (Hall d Hd Htd); [by left|right; by eapply caught_sub].
  - intros v d d' Hd Hd' Hne Ht. eapply caught_sub; [done|by apply (H5 v d d')].
Qed.
Lemma txn_ok_found Acc c L F F' s : txn_ok Acc c L F s → F ⊆ F' → txn_ok Acc c L F' s.
Proof. intros [H1 H2 H3 H4 H5] HF. split; [done..| |done]. by eapply records_ok_found. Qed.

Lemma votes_for_only_records c v a id T T' : only_records T T' → votes_for c v a id T → votes_for c v a id T'.
Proof. intros Ho [H1 H2 H3]. split; [by rewrite (only_records_indexed _ _ Ho)|done|done]. Qed.

Definition with_slashing (status : AttesterSlashingStatus.t) (any : AnyAttestation.t) (l : list AnySlashing.t) : list AnySlashing.t :=
  match AttesterSlashingStatus.into_slashing status any with Some x => set_insert x l | None => l end.
Lemma elem_of_with_slashing st any l x : x ∈ with_slashing st any l ↔ x ∈ l ∨ x ∈ accuse st any.
Proof.
  unfold with_slashing, accuse. destruct (AttesterSlashingStatus.into_slashing st any); simpl;
    [rewrite elem_of_set_insert, list_elem_of_singleton; tauto|].
  split; [by left|]. intros [?|Hx]; [done|]. by apply elem_of_nil in Hx.
Qed.
Lemma with_slashing_genuine Acc st any l :
  Forall (genuine Acc) l → Forall (genuine Acc) (accuse st any) → Forall (genuine Acc) (with_slashing st any l).
Proof. rewrite !list.Forall_forall. intros Hl Ha x. rewrite elem_of_with_slashing. naive_solver. Qed.

Abbreviation vote_loop := (double_vote_loop config forks max_validators_per_committee max_validators_per_slot data_root).
Lemma double_vote_loop_run Acc c any id vs : ∀ L F l s,
  let a := any.(AnyAttestation.inner) in
  txn_ok Acc c L (F ++ l) s → Forall (fun v => votes_for c v a id s.(Slasher.tables)) vs → Forall (genuine Acc) l →
  hoare (vote_loop any (record_of a) id vs l) s
    (fun l' s' => txn_ok Acc c (L ++ ((fun v => (v, a.(IndexedAttestation.data))) <$> vs)) (F ++ l') s'
       ∧ Forall (genuine Acc) l' ∧ only_records s.(Slasher.tables) s'.(Slasher.tables) ∧ beyond s' = beyond s) error.
Proof using HBad HBad_cache LruLaws0 Hconfig Hroots.
  induction vs as [|v vs IH]; intros L F l s a Htx Hvs Hl; simpl.
  { hoare_step. rewrite app_nil_r. split_and!; [done|done|apply only_records_refl|done]. }
  apply Forall_cons_1 in Hvs as [Hv Hvs]. hoare_step. eapply hoare_mono; [by apply (check_record_run Acc c L (F ++ l))| |done].
  intros st s1 [Htx1 Hg1 Ho1 Hy1]. fold (with_slashing st any l). eapply hoare_mono.
  - apply (IH (L ++ [(v, a.(IndexedAttestation.data))]) F (with_slashing st any l) s1).
    + eapply txn_ok_found; [done|]. intros x. rewrite !elem_of_app, elem_of_with_slashing. tauto.
    + eapply list.Forall_impl; [done|]. intros v'. by apply votes_for_only_records.
    + by apply with_slashing_genuine.
  - intros l' s' (Htx' & Hg' & Ho' & Hy'). rewrite <-app_assoc in Htx'.
    split_and!; [done|done|by eapply only_records_trans|by rewrite Hy'].
  - done.
Qed.

Lemma lookup_vote_run Acc c L F v d s :
  txn_ok Acc c L F s → (v, d) ∈ L → c - history < tgt d → 0 ≤ v < 2 ^ 40 →
  hoare (get_attestation_for_validator config forks max_validators_per_committee max_validators_per_slot v (tgt d)) s
    (fun any s' => let a := any.(AnyAttestation.inner) in
       Acc a ∧ tgt a.(IndexedAttestation.data) = tgt d ∧ v ∈ a.(IndexedAttestation.attesting_indices)
       ∧ (d = a.(IndexedAttestation.data) ∨ caught F v) ∧ core s' = core s ∧ Bad s') error.
Proof using HBad Hconfig.
  intros [Hst _ _ Hrc Hb] Hd Hw Hv. pose proof (rc_votes _ _ _ _ Hrc v d Hd) as Hbd.
  unfold get_attestation_for_validator, get_attester_max_target. hoare_step. apply hoare_txn_get; [done|].
  intros s1 Hc1 Hb1. hoare_step. rewrite <-(core_tables _ _ Hc1).
  eapply hoare_mono; [by apply get_attester_record_run| |done]. intros r s2 (-> & Hc2 & Hb2). rewrite Hc1 in Hc2.
  rewrite (core_tables _ _ Hc1). destruct (rec_at s.(Slasher.tables) v (tgt d)) as [id|] eqn:Er.
  2:{ by destruct (rc_none _ _ _ _ Hrc v (tgt d) ltac:(lia) ltac:(lia) Er d Hd). }
  destruct (rc_some _ _ _ _ Hrc v (tgt d) id ltac:(lia) ltac:(lia) Er) as (a & (Ha & Ht & Hva) & Hall).
  hoare_step. eapply hoare_lift; [done|]. eapply hoare_mono.
  - apply (get_indexed_attestation_run Acc id a); [by rewrite (core_tables _ _ Hc2)..|done].
  - intros any s3 (<- & Hc3 & Hb3). split_and!; [|exact Ht|done|by apply Hall|by rewrite Hc3|done].
    by destruct (so_stored _ _ Hst id _ Ha) as (_ & ? & _).
  - done.
Qed.
End database.
End records.
