(* ===== verification/SlasherArrays.v ===== *)
(** * The arrays of least and greatest targets

    A chunk holds the distances of some validators over some epochs.  Seen through
    the chunks that are loaded and those on disk, a validator has one distance for
    each epoch of the history, and a step of a loop changes the distance of one
    validator and epoch.  The loops walk away from the source of a vote until the
    array already has a stricter target. *)
From S2P Require Import Prelude SlotEpoch ProtoArrayDefs ForkChoiceDefs ForkSchedule BeaconStateDefs.
From S2P Require Import ValidatorDefs ShuffleDefs CommitteeDefs SlashingDefs DoppelgangerDefs ValidatorStoreDefs.
From S2P Require Import StateDefs RegistryDefs BlockDefs EpbsDefs OperationsDefs SlasherDefs SlasherRecords.

(** ** Cells *)
Section cells.
Context (config : SlasherConfig.t) (Hconfig : config_ok config).
Abbreviation C := (config.(SlasherConfig.chunk_size)).
Abbreviation K := (config.(SlasherConfig.validator_chunk_size)).
Abbreviation N := (config.(SlasherConfig.history_length)).
Abbreviation cell := (cell_of_chunk config).
Abbreviation column := (chunk_index config).

Definition sized (chunk : Chunk) : Prop := length chunk = Z.to_nat (C * K).
Definition cdist (chunk : Chunk) (v : Z) (e : Epoch) : Z := nth (cell v e) chunk 0.

Lemma cell_lt v e : (cell v e < Z.to_nat (C * K))%nat.
Proof using Hconfig.
  destruct Hconfig as [HC HK _ _]. unfold cell_of_chunk, cell_index, validator_offset, chunk_offset.
  pose proof (Z.mod_pos_bound v K HK). pose proof (Z.mod_pos_bound e C HC). nia.
Qed.
Lemma offset_mod e : e mod C = (e mod N) mod C.
Proof using Hconfig.
  destruct Hconfig as [HC _ [HN _] HD]. apply Z.mod_divide in HD as [q Hq]; [|lia]. rewrite (Z.mod_eq e N) by lia. rewrite Hq.
  replace (e - q * C * (e / (q * C))) with (e + (- (q * (e / (q * C)))) * C) by lia. by rewrite Z.mod_add by lia.
Qed.
(** The column and the offset of an epoch give it modulo the history. *)
Lemma slot_of e : e mod N = C * column e + e mod C.
Proof using Hconfig.
  unfold chunk_index. rewrite offset_mod. destruct Hconfig as [HC _ _ _]. pose proof (Z.div_mod (e mod N) C ltac:(lia)). lia.
Qed.
Lemma cell_inj v v' e e' : v / K = v' / K → column e = column e' → cell v e = cell v' e' → v = v' ∧ e mod N = e' mod N.
Proof using Hconfig.
  intros Hv He Hc. pose proof (slot_of e) as H1. pose proof (slot_of e') as H2. destruct Hconfig as [HC HK _ _].
  unfold cell_of_chunk, cell_index, validator_offset, chunk_offset in Hc.
  pose proof (Z.mod_pos_bound v K HK). pose proof (Z.mod_pos_bound v' K HK).
  pose proof (Z.mod_pos_bound e C HC). pose proof (Z.mod_pos_bound e' C HC).
  assert (v mod K * C + e mod C = v' mod K * C + e' mod C) as Heq by (apply Z2Nat.inj; nia).
  assert (v mod K = v' mod K) by nia. assert (e mod C = e' mod C) by nia.
  pose proof (Z.div_mod v K ltac:(lia)). pose proof (Z.div_mod v' K ltac:(lia)). split; congruence || lia.
Qed.

Lemma cdist_set chunk v e d v' e' :
  sized chunk → cdist (<[cell v e := d]> chunk) v' e' = if decide (cell v' e' = cell v e) then d else cdist chunk v' e'.
Proof using Hconfig.
  intros Hs. unfold cdist. pose proof (cell_lt v e) as Hlt. rewrite <-Hs in Hlt.
  rewrite !nth_lookup. case_decide as Hc.
  - rewrite Hc, list_lookup_insert_eq by done. done.
  - by rewrite list_lookup_insert_ne by congruence.
Qed.
Lemma cdist_set_same chunk v e d : sized chunk → cdist (<[cell v e := d]> chunk) v e = d.
Proof using Hconfig. intros Hs. rewrite cdist_set by done. by case_decide. Qed.
Lemma cdist_set_other chunk v e d v' e' :
  sized chunk → v / K = v' / K → column e = column e' → v' ≠ v ∨ e' mod N ≠ e mod N →
  cdist (<[cell v e := d]> chunk) v' e' = cdist chunk v' e'.
Proof using Hconfig.
  intros Hs Hv He Hne. rewrite cdist_set by done. case_decide as Hc; [|done].
  destruct (cell_inj v v' e e' Hv He ltac:(done)) as [-> Hm]. destruct Hne as [?|Hne]; [done|]. by destruct Hne.
Qed.
Lemma sized_set chunk v e d : sized chunk → sized (<[cell v e := d]> chunk).
Proof. unfold sized. by rewrite length_insert. Qed.

Lemma get_target_run v e chunk :
  sized chunk → 0 ≤ e → 0 ≤ cdist chunk v e → e + cdist chunk v e ≤ u64_max →
  get_target config v e chunk = Ok (e + cdist chunk v e).
Proof using Hconfig.
  intros Hs He Hd Hm. unfold get_target. rewrite Hs. destruct Hconfig as [HC HK _ _].
  rewrite Z2Nat.id, Z.eqb_refl by nia. simpl. pose proof (cell_lt v e) as Hlt. rewrite <-Hs in Hlt.
  destruct (lookup_lt_is_Some_2 chunk (cell v e) Hlt) as [d Hd'].
  assert (cdist chunk v e = d) as Hcd by (by apply nth_lookup_Some). rewrite Hd', Hcd. unfold se_add, u64_saturating_add.
  rewrite Z.min_l by lia. done.
Qed.
Lemma set_raw_distance_run v e d chunk :
  sized chunk → set_raw_distance config v e d chunk = Ok (<[cell v e := d]> chunk).
Proof using Hconfig.
  intros Hs. unfold set_raw_distance. pose proof (cell_lt v e) as Hlt. rewrite <-Hs in Hlt.
  by destruct (lookup_lt_is_Some_2 chunk (cell v e) Hlt) as [x ->].
Qed.
Lemma set_target_run v e t chunk :
  sized chunk → 0 ≤ t - e < MAX_DISTANCE → set_target config v e t chunk = Ok (<[cell v e := t - e]> chunk).
Proof using Hconfig.
  intros Hs Hd. unfold set_target, epoch_distance, u64_checked_sub.
  assert (MAX_DISTANCE ≤ u64_max) by done. rewrite checked_u64_in by (unfold is_u64; lia). simpl.
  rewrite (proj2 (Z.ltb_lt _ _)) by lia. simpl. by apply set_raw_distance_run.
Qed.

(** ** Loops over a chunk *)
(** [chunk'] is [chunk] with the distance [f e] at each epoch [e] from [lo] to [hi]
    for validator [v]. *)
Record swept (ci v lo hi : Z) (f : Epoch → Z) (chunk chunk' : Chunk) : Prop := {
  sw_sized : sized chunk';
  sw_in : ∀ e, lo ≤ e ≤ hi → cdist chunk' v e = f e;
  sw_out : ∀ v' e, v' / K = v / K → column e = ci → v' ≠ v ∨ (∀ e', lo ≤ e' ≤ hi → e mod N ≠ e' mod N) →
             cdist chunk' v' e = cdist chunk v' e;
}.
Lemma swept_nil ci v lo hi f chunk : sized chunk → hi < lo → swept ci v lo hi f chunk chunk.
Proof. intros Hs Hlt. split; [done|lia|done]. Qed.
Lemma swept_down ci v lo e f chunk chunk' :
  sized chunk → column e = ci → lo ≤ e < lo + N →
  swept ci v lo (e - 1) f (<[cell v e := f e]> chunk) chunk' → swept ci v lo e f chunk chunk'.
Proof using Hconfig.
  intros Hs Hc He [H1 H2 H3]. assert (cdist chunk' v e = f e) as Hee.
  { rewrite H3, cdist_set_same; [done..|]. right. intros e' He'. assert (0 < N) by lia.
    intros Hm. symmetry in Hm. revert Hm. apply mod_window; lia. }
  split; [done| |].
  - intros e' He'. destruct (decide (e' = e)) as [->|]; [done|]. apply H2. lia.
  - intros v' e' Hv Hc' Hne. rewrite H3; [|done|done|destruct Hne as [?|Hne]; [by left|right; intros; apply Hne; lia]].
    apply cdist_set_other; [done|done|congruence|]. destruct Hne as [?|Hne]; [by left|right]. apply Hne. lia.
Qed.
Lemma swept_up ci v e hi f chunk chunk' :
  sized chunk → column e = ci → e ≤ hi < e + N →
  swept ci v (e + 1) hi f (<[cell v e := f e]> chunk) chunk' → swept ci v e hi f chunk chunk'.
Proof using Hconfig.
  intros Hs Hc He [H1 H2 H3]. assert (cdist chunk' v e = f e) as Hee.
  { rewrite H3, cdist_set_same; [done..|]. right. intros e' He'. apply mod_window; lia. }
  split; [done| |].
  - intros e' He'. destruct (decide (e' = e)) as [->|]; [done|]. apply H2. lia.
  - intros v' e' Hv Hc' Hne. rewrite H3; [|done|done|destruct Hne as [?|Hne]; [by left|right; intros; apply Hne; lia]].
    apply cdist_set_other; [done|done|congruence|]. destruct Hne as [?|Hne]; [by left|right]. apply Hne. lia.
Qed.

Section loops.
Context (ci v t c : Z).
Definition oldest : Epoch := u64_saturating_sub c (N - 1).
Context (Ht : 0 ≤ t ≤ c) (Hc : c + MAX_DISTANCE ≤ u64_max).

Lemma history_lt : 0 < N ≤ MAX_DISTANCE + 1.
Proof using Hconfig. destruct Hconfig as [_ _ [] _]. unfold MAX_HISTORY_LENGTH, MAX_DISTANCE in *. lia. Qed.
Definition ranged (chunk : Chunk) (lo hi : Epoch) : Prop := ∀ e, lo ≤ e ≤ hi → column e = ci → 0 ≤ cdist chunk v e ≤ MAX_DISTANCE.

(** A loop of the array of least targets went down to [stop]. *)
Definition descent (e : Epoch) (chunk : Chunk) (r : outcome SlasherError.t (bool * Chunk)) : Prop := ∃ b chunk' stop,
  r = Ok (b, chunk') ∧ oldest - 1 ≤ stop ≤ e ∧ swept ci v (stop + 1) e (fun e => t - e) chunk chunk'
  ∧ (∀ e', stop < e' ≤ e → column e' = ci ∧ t < e' + cdist chunk v e')
  ∧ if b : bool then oldest ≤ stop ∧ column stop ≠ ci
    else stop < oldest ∨ (oldest ≤ stop ∧ column stop = ci ∧ stop + cdist chunk v stop ≤ t).

Lemma min_update_loop_run n : ∀ e chunk, sized chunk → 0 ≤ e → oldest - 1 ≤ e ≤ c → e ≤ t → e - oldest + 2 < Z.of_nat n →
  ranged chunk oldest e → descent e chunk (min_update_loop config n ci v t oldest e chunk).
Proof using Hconfig Ht Hc.
  pose proof history_lt as HN. assert (0 ≤ oldest) as Ho by (unfold oldest, u64_saturating_sub; lia). assert (c - N < oldest) as Ho' by (unfold oldest, u64_saturating_sub; lia).
  induction n as [|n IH]; intros e chunk Hs He0 He Het Hn Hr; [lia|]. cbn [min_update_loop].
  destruct (Z.eqb_spec (column e) ci) as [Hci|Hci]; cbn [andb].
  2:{ exists (oldest <=? e), chunk, e. split_and!; [done|lia|lia|by apply swept_nil; [|lia]|lia|].
      destruct (Z.leb_spec oldest e); [done|by left]. }
  destruct (Z.leb_spec oldest e) as [Hoe|Hoe].
  2:{ exists false, chunk, e. split_and!; [done|lia|lia|by apply swept_nil; [|lia]|lia|by left]. }
  pose proof (Hr e ltac:(lia) Hci) as Hd. rewrite get_target_run by (done || lia). simpl.
  destruct (Z.ltb_spec t (e + cdist chunk v e)) as [Hlt|Hge].
  2:{ exists false, chunk, e. split_and!; [done|lia|lia|by apply swept_nil; [|lia]|lia|right; split_and!; [lia|done|lia]]. }
  rewrite set_target_run by (done || lia). simpl. set (chunk1 := <[_ := _]> chunk).
  assert (sized chunk1) as Hs1 by by apply sized_set.
  assert (∀ e', oldest ≤ e' < e → column e' = ci → cdist chunk1 v e' = cdist chunk v e') as Hsame.
  { intros e' He' Hc'. apply cdist_set_other; [done|done|congruence|right]. apply mod_window; lia. }
  destruct (decide (e = 0)) as [->|Hne].
  - destruct n as [|n]; [lia|]. change (se_sub 0 1) with 0. cbn [min_update_loop].
    rewrite (proj2 (Z.eqb_eq _ _) Hci), (proj2 (Z.leb_le _ _)) by lia. simpl.
    assert (cdist chunk1 v 0 = t - 0) as Hd1 by by apply cdist_set_same.
    rewrite get_target_run by (done || lia). simpl. rewrite (proj2 (Z.ltb_ge _ _)) by lia.
    exists false, chunk1, (-1). split_and!; [done|lia|lia| | |left; lia].
    + apply swept_down; [done|done|lia|]. apply swept_nil; [done|lia].
    + intros e' He'. assert (e' = 0) as -> by lia. done.
  - assert (se_sub e 1 = e - 1) as -> by (unfold se_sub, u64_saturating_sub; lia).
    destruct (IH (e - 1) chunk1) as (b & chunk' & stop & -> & Hst & Hsw & Hall & Hend); [done|lia|lia|lia|lia| |].
    { intros e' He' Hc'. rewrite Hsame by (done || lia). apply Hr; [lia|done]. }
    exists b, chunk', stop. split_and!; [done|lia|lia| | |].
    + apply swept_down; [done|done|lia|done].
    + intros e' He'. destruct (decide (e' = e)) as [->|]; [done|].
      destruct (Hall e' ltac:(lia)) as [Hc' Hlt']. split; [done|]. by rewrite Hsame in Hlt' by (done || lia).
    + destruct b; [done|]. destruct Hend as [?|(Hos & Hc' & Hle)]; [by left|right]. split_and!; [done|done|].
      by rewrite <-Hsame by (done || lia).
Qed.

(** A loop of the array of greatest targets went up to [stop]. *)
Definition ascent (e : Epoch) (chunk : Chunk) (r : outcome SlasherError.t (bool * Chunk)) : Prop := ∃ b chunk' stop,
  r = Ok (b, chunk') ∧ e ≤ stop ≤ c + 1 ∧ swept ci v e (stop - 1) (fun e => t - e) chunk chunk'
  ∧ (∀ e', e ≤ e' < stop → column e' = ci ∧ e' + cdist chunk v e' < t)
  ∧ if b : bool then stop ≤ c ∧ column stop ≠ ci
    else c < stop ∨ (stop ≤ c ∧ column stop = ci ∧ t ≤ stop + cdist chunk v stop).

Lemma max_update_loop_run n : ∀ e chunk, sized chunk → oldest ≤ e ≤ c + 1 → c - N + 1 < e → c - e + 1 < Z.of_nat n →
  ranged chunk e c → ascent e chunk (max_update_loop config n ci v t c e chunk).
Proof using Hconfig Ht Hc.
  pose proof history_lt as HN. assert (0 ≤ oldest) as Ho by (unfold oldest, u64_saturating_sub; lia). assert (c - N < oldest) as Ho' by (unfold oldest, u64_saturating_sub; lia).
  induction n as [|n IH]; intros e chunk Hs He HeN Hn Hr; [lia|]. cbn [max_update_loop].
  destruct (Z.eqb_spec (column e) ci) as [Hci|Hci]; cbn [andb].
  2:{ exists (e <=? c), chunk, e. split_and!; [done|lia|lia|by apply swept_nil; [|lia]|lia|].
      destruct (Z.leb_spec e c); [done|left; lia]. }
  destruct (Z.leb_spec e c) as [Hec|Hec].
  2:{ exists false, chunk, e. split_and!; [done|lia|lia|by apply swept_nil; [|lia]|lia|left; lia]. }
  pose proof (Hr e ltac:(lia) Hci) as Hd. rewrite get_target_run by (done || lia). cbn [mbind outcome_bind].
  destruct (Z.ltb_spec (e + cdist chunk v e) t) as [Hlt|Hge].
  2:{ exists false, chunk, e. split_and!; [done|lia|lia|by apply swept_nil; [|lia]|lia|right; split_and!; [lia|done|lia]]. }
  rewrite set_target_run by (done || lia). cbn [mbind outcome_bind]. set (chunk1 := <[_ := _]> chunk).
  assert (sized chunk1) as Hs1 by by apply sized_set.
  assert (∀ e', e < e' ≤ c → column e' = ci → cdist chunk1 v e' = cdist chunk v e') as Hsame.
  { intros e' He' Hc'. apply cdist_set_other; [done|done|congruence|right]. intros Hm. symmetry in Hm. revert Hm.
    apply mod_window; lia. }
  assert (se_add e 1 = e + 1) as -> by (unfold se_add, u64_saturating_add, MAX_DISTANCE in *; lia).
  destruct (IH (e + 1) chunk1) as (b & chunk' & stop & -> & Hst & Hsw & Hall & Hend); [done|lia|lia|lia| |].
  { intros e' He' Hc'. rewrite Hsame by (done || lia). apply Hr; [lia|done]. }
  exists b, chunk', stop. split_and!; [done|lia|lia| | |].
  - apply swept_up; [done|done|lia|done].
  - intros e' He'. destruct (decide (e' = e)) as [->|]; [done|].
    destruct (Hall e' ltac:(lia)) as [Hc' Hlt']. split; [done|]. by rewrite Hsame in Hlt' by (done || lia).
  - destruct b; [done|]. destruct Hend as [?|(Hos & Hc' & Hle)]; [by left|right]. split_and!; [done|done|].
    by rewrite <-Hsame by (done || lia).
Qed.
End loops.

Lemma cdist_mod chunk v e e' : e mod N = e' mod N → cdist chunk v e = cdist chunk v e'.
Proof using Hconfig.
  intros Hm. unfold cdist, cell_of_chunk, chunk_offset. by rewrite (offset_mod e), Hm, <-offset_mod.
Qed.
(** A constant may be written twice to a cell. *)
Lemma swept_up_const ci v e hi x chunk chunk' :
  sized chunk → column e = ci → e ≤ hi →
  swept ci v (e + 1) hi (fun _ => x) (<[cell v e := x]> chunk) chunk' → swept ci v e hi (fun _ => x) chunk chunk'.
Proof using Hconfig.
  intros Hs Hc He [H1 H2 H3]. assert (cdist chunk' v e = x) as Hee.
  { destruct (decide (Exists (fun e' => e mod N = e' mod N) (seqZ (e + 1) (hi - e)))) as [Hex|Hno].
    - apply list.Exists_exists in Hex as (e' & He'%elem_of_seqZ & Hm). rewrite (cdist_mod _ _ _ _ Hm). apply H2. lia.
    - rewrite H3, cdist_set_same; [done..|]. right. intros e' He' Hm. apply Hno, list.Exists_exists. exists e'.
      split; [|done]. apply elem_of_seqZ. lia. }
  split; [done| |].
  - intros e' He'. destruct (decide (e' = e)) as [->|]; [done|]. apply H2. lia.
  - intros v' e' Hv Hc' Hne. rewrite H3; [|done|done|destruct Hne as [?|Hne]; [by left|right; intros; apply Hne; lia]].
    apply cdist_set_other; [done|done|congruence|]. destruct Hne as [?|Hne]; [by left|right]. apply Hne. lia.
Qed.

(** The loop that resets a chunk went up to [stop]. *)
Lemma reset_loop_run {Cache} (T : TargetArrayChunk (Cache := Cache)) ci v c n : ∀ e chunk,
  sized chunk → 0 ≤ e ≤ c + 1 → c + MAX_DISTANCE ≤ u64_max → c - e + 1 < Z.of_nat n →
  ∃ stop chunk', reset_loop config T n ci v c e chunk = Ok (stop, chunk') ∧ e ≤ stop ≤ c + 1
    ∧ swept ci v e (stop - 1) (fun _ => T.(neutral_element)) chunk chunk'
    ∧ (∀ e', e ≤ e' < stop → column e' = ci) ∧ (stop ≤ c → column stop ≠ ci).
Proof using Hconfig.
  induction n as [|n IH]; intros e chunk Hs He Hm Hn; [lia|]. cbn [reset_loop].
  destruct (Z.eqb_spec (column e) ci) as [Hci|Hci]; cbn [andb].
  2:{ exists e, chunk. split_and!; [done|lia|lia|by apply swept_nil; [|lia]|lia|done]. }
  destruct (Z.leb_spec e c) as [Hec|Hec].
  2:{ exists e, chunk. split_and!; [done|lia|lia|by apply swept_nil; [|lia]|lia|lia]. }
  rewrite set_raw_distance_run by done. cbn [mbind outcome_bind].
  assert (se_add e 1 = e + 1) as -> by (unfold se_add, u64_saturating_add, MAX_DISTANCE in *; lia).
  destruct (IH (e + 1) (<[cell v e := T.(neutral_element)]> chunk)) as (stop & chunk' & -> & Hst & Hsw & Hall & Hend);
    [by apply sized_set|lia|done|lia|].
  exists stop, chunk'. split_and!; [done|lia|lia|apply swept_up_const; [done|done|lia|done]| |done].
  intros e' He'. destruct (decide (e' = e)) as [->|]; [done|]. apply Hall. lia.
Qed.

(** ** From chunk to chunk *)
Lemma column_block e : column e = (e / C) mod (N / C).
Proof using Hconfig.
  destruct Hconfig as [HC _ [HN _] HD]. unfold chunk_index. apply Z.mod_divide in HD as [q Hq]; [|lia].
  assert (N / C = q) as -> by (rewrite Hq; apply Z.div_mul; lia). rewrite Hq, (Z.mul_comm q C), Z.rem_mul_r by nia.
  pose proof (Z.mod_pos_bound e C HC).
  replace (e mod C + C * ((e / C) mod q)) with ((e / C) mod q * C + e mod C) by lia.
  rewrite Z.div_add_l by lia. rewrite (Z.div_small (e mod C)) by lia. lia.
Qed.
Lemma column_range e : 0 ≤ column e < N / C.
Proof using Hconfig.
  rewrite column_block. apply Z.mod_pos_bound. destruct Hconfig as [HC _ [HN _] HD]. apply Z.mod_divide in HD as [q Hq]; [|lia].
  rewrite Hq, Z.div_mul by lia. nia.
Qed.
(** Neighbouring blocks are in one column only if there is one column. *)
Lemma column_next b b' : b mod (N / C) = (b + 1) mod (N / C) → b' mod (N / C) = b mod (N / C).
Proof using Hconfig.
  intros Hb. pose proof (column_range 0) as HW.
  destruct (decide (N / C = 1)) as [->|Hne]; [by rewrite !Z.mod_1_r|].
  exfalso. revert Hb. apply mod_window; lia.
Qed.

Lemma descent_next start stop :
  0 ≤ stop < start → (∀ e, stop < e ≤ start → column e = column start) → column stop ≠ column start →
  stop = start / C * C - 1.
Proof using Hconfig.
  intros Hs Hall Hne. pose proof Hconfig as [HC _ _ _]. pose proof (Z.div_mod start C ltac:(lia)) as Hdm.
  pose proof (Z.mod_pos_bound start C HC) as Hmb. set (m := start / C) in *.
  destruct (Z.lt_trichotomy stop (m * C - 1)) as [Hlt|[?|Hgt]]; [|done|]; exfalso; apply Hne; rewrite !column_block.
  - fold m. assert ((m - 1) mod (N / C) = (m - 1 + 1) mod (N / C)) as Hw.
    { replace (m - 1 + 1) with m by lia. pose proof (Hall (m * C - 1) ltac:(lia)) as Hcol. rewrite !column_block in Hcol. fold m in Hcol.
      rewrite <-Hcol. f_equal. apply (Z.div_unique_pos _ _ _ (C - 1)); lia. }
    rewrite (column_next _ (stop / C) Hw). replace m with (m - 1 + 1) at 2 by lia. done.
  - fold m. f_equal. symmetry. apply (Z.div_unique_pos _ _ _ (stop - m * C)); lia.
Qed.
Lemma ascent_next start stop :
  0 ≤ start < stop → (∀ e, start ≤ e < stop → column e = column start) → column stop ≠ column start →
  stop = (start / C + 1) * C.
Proof using Hconfig.
  intros Hs Hall Hne. pose proof Hconfig as [HC _ _ _]. pose proof (Z.div_mod start C ltac:(lia)) as Hdm.
  pose proof (Z.mod_pos_bound start C HC) as Hmb. set (m := start / C) in *.
  destruct (Z.lt_trichotomy stop ((m + 1) * C)) as [Hlt|[?|Hgt]]; [|done|]; exfalso; apply Hne; rewrite !column_block.
  - fold m. f_equal. symmetry. apply (Z.div_unique_pos _ _ _ (stop - m * C)); lia.
  - fold m. apply column_next. pose proof (Hall ((m + 1) * C) ltac:(lia)) as Hcol. rewrite !column_block in Hcol. fold m in Hcol.
    rewrite Z.div_mul in Hcol by lia. done.
Qed.
End cells.

(** ** Chunks that are loaded, and chunks on disk *)
Section view.
Context {Cache : Type} `{lru : LruCache Cache}.
Context (config : SlasherConfig.t) (Hconfig : config_ok config).
Context (T : TargetArrayChunk (Cache := Cache)) (k : Z).
Context (Bad : Slasher.t Cache → Prop) (HBad : leftover Bad).
Abbreviation C := (config.(SlasherConfig.chunk_size)).
Abbreviation K := (config.(SlasherConfig.validator_chunk_size)).
Abbreviation N := (config.(SlasherConfig.history_length)).
Abbreviation column := (chunk_index config).
Abbreviation astate := (Slasher.t Cache * gmap Z Chunk)%type.

Definition stored_chunk (d : Tables.t) (ci : Z) : Chunk :=
  default (empty_chunk config T) (T.(select_db) d !! disk_key config k ci).
Definition chunk_at (x : astate) (ci : Z) : Chunk := default (stored_chunk x.1.(Slasher.tables) ci) (x.2 !! ci).
Definition adist (x : astate) (v : Z) (e : Epoch) : Z := cdist config (chunk_at x (column e)) v e.
Definition keys_ok (x : astate) : Prop := ∀ ci, is_Some (x.2 !! ci) → 0 ≤ ci < N / C.
Record view_ok (x : astate) : Prop := { vo_sized : ∀ ci, sized config (chunk_at x ci); vo_keys : keys_ok x }.
Definition aerror (e : SlasherError.t) (x : astate) : Prop := error Bad e x.1.
(** The same distances and the same database. *)
Definition same_view (x x' : astate) : Prop :=
  (∀ ci, chunk_at x' ci = chunk_at x ci) ∧ core x'.1 = core x.1 ∧ Bad x'.1 ∧ (keys_ok x → keys_ok x').

Lemma hoare_on_slasher {A} (m : M (Slasher.t Cache) SlasherError.t A) (x : astate) (Q : A → astate → Prop) :
  hoare m x.1 (fun a s' => Q a (s', x.2)) (error Bad) → hoare (on_slasher m) x Q aerror.
Proof. unfold hoare, on_slasher, zoom. destruct (m x.1) as [[] ?]; done. Qed.

Lemma keys_put ci chunk s (m : gmap Z Chunk) s' : 0 ≤ ci < N / C → keys_ok (s, m) → keys_ok (s', <[ci := chunk]> m).
Proof.
  intros Hci Hk ci'. simpl. destruct (decide (ci' = ci)) as [->|]; [done|]. rewrite lookup_insert_ne by done. apply Hk.
Qed.
Lemma get_chunk_run ci x :
  0 ≤ ci < N / C → Bad x.1 →
  hoare (get_chunk_for_update config T k ci) x (fun chunk x' => chunk = chunk_at x ci ∧ same_view x x') aerror.
Proof using HBad.
  intros Hci Hb. unfold get_chunk_for_update. do 2 hoare_step. destruct (x.2 !! ci) as [chunk|] eqn:E.
  - hoare_step. split; [|done]. unfold chunk_at. by rewrite E.
  - hoare_step. apply hoare_on_slasher. apply (hoare_txn_get _ HBad); [done|]. intros s' Hc Hb'.
    unfold put_updated. hoare_steps. split; [unfold chunk_at; by rewrite E|]. split_and!; [|done|done|intros Hk; apply (keys_put _ _ x.1); [done|by destruct x]].
    intros ci'. unfold chunk_at. simpl. rewrite (core_tables _ _ Hc). destruct (decide (ci' = ci)) as [->|].
    + by rewrite lookup_insert_eq, E.
    + by rewrite lookup_insert_ne.
Qed.

Lemma chunk_at_put x ci chunk ci' :
  chunk_at (x.1, <[ci := chunk]> x.2) ci' = if decide (ci' = ci) then chunk else chunk_at x ci'.
Proof.
  unfold chunk_at. simpl. case_decide as Hc; [by rewrite Hc, lookup_insert_eq|by rewrite lookup_insert_ne].
Qed.

(** [x'] is [x] with the distance [f e] at each epoch [e] from [lo] to [hi] for [v]. *)
Record aswept (v lo hi : Z) (f : Epoch → Z) (x x' : astate) : Prop := {
  as_ok : view_ok x';
  as_in : ∀ e, lo ≤ e ≤ hi → adist x' v e = f e;
  as_out : ∀ v' e, v' / K = k → v' ≠ v ∨ (∀ e', lo ≤ e' ≤ hi → e mod N ≠ e' mod N) → adist x' v' e = adist x v' e;
  as_core : core x'.1 = core x.1;
  as_bad : Bad x'.1;
}.

(** One chunk was swept. *)
Lemma aswept_chunk ci v lo hi f x x1 chunk' :
  0 ≤ ci < N / C → v / K = k → view_ok x → same_view x x1 → (∀ e, lo ≤ e ≤ hi → column e = ci) →
  swept config ci v lo hi f (chunk_at x ci) chunk' →
  aswept v lo hi f x (x1.1, <[ci := chunk']> x1.2).
Proof.
  intros Hci Hv Hx (Hsame & Hcore & Hb & Hk) Hcol [H1 H2 H3]. split; [| | |done|done].
  - split; [|apply (keys_put _ _ x1.1); [done|]; destruct x1; by apply Hk, Hx].
    intros ci'. rewrite chunk_at_put. case_decide; [done|]. rewrite Hsame. apply Hx.
  - intros e He. unfold adist. rewrite chunk_at_put, (Hcol e He). case_decide; [|done]. by apply H2.
  - intros v' e Hv' Hne. unfold adist. rewrite chunk_at_put. case_decide as Hc; [|by rewrite Hsame].
    rewrite Hc. apply H3; [congruence|done|done].
Qed.
Lemma aswept_nil v lo hi f x x' : view_ok x → hi < lo → same_view x x' → aswept v lo hi f x x'.
Proof.
  intros Hx Hlt (Hsame & Hcore & Hb & Hk). split; [|lia| |done|done].
  - split; [|by apply Hk, Hx]. intros ci. rewrite Hsame. apply Hx.
  - intros v' e _ _. unfold adist. by rewrite Hsame.
Qed.
(** Two adjacent ranges. *)
Lemma aswept_down v lo mid hi f x x1 x2 :
  v / K = k → lo ≤ mid + 1 → mid ≤ hi < lo + N →
  aswept v (mid + 1) hi f x x1 → aswept v lo mid f x1 x2 → aswept v lo hi f x x2.
Proof using Hconfig.
  intros Hv Hlo Hhi [A1 A2 A3 A4 A5] [B1 B2 B3 B4 B5]. pose proof (history_pos config Hconfig) as HN.
  split; [done| | |by rewrite B4|done].
  - intros e He. destruct (decide (e ≤ mid)); [apply B2; lia|]. rewrite B3; [apply A2; lia|done|].
    right. intros e' He' Hm. symmetry in Hm. revert Hm. apply mod_window; lia.
  - intros v' e Hv' Hne. rewrite B3, A3; [done|done| |done|]; (destruct Hne as [?|Hne]; [by left|right; intros; apply Hne; lia]).
Qed.
Lemma aswept_up v lo mid hi f x x1 x2 :
  v / K = k → lo ≤ mid → mid ≤ hi + 1 → hi < lo + N →
  aswept v lo (mid - 1) f x x1 → aswept v mid hi f x1 x2 → aswept v lo hi f x x2.
Proof using Hconfig.
  intros Hv Hlo Hhi Hn [A1 A2 A3 A4 A5] [B1 B2 B3 B4 B5]. pose proof (history_pos config Hconfig) as HN.
  split; [done| | |by rewrite B4|done].
  - intros e He. destruct (decide (mid ≤ e)); [apply B2; lia|]. rewrite B3; [apply A2; lia|done|].
    right. intros e' He'. apply mod_window; lia.
  - intros v' e Hv' Hne. rewrite B3, A3; [done|done| |done|]; (destruct Hne as [?|Hne]; [by left|right; intros; apply Hne; lia]).
Qed.
End view.

(** ** The walks over the history *)
Section walks.
Context {Cache : Type} `{lru : LruCache Cache}.
Context (config : SlasherConfig.t) (Hconfig : config_ok config) (forks : ForkSpec.t).
Context (max_validators_per_committee max_validators_per_slot : Z).
Context (Bad : Slasher.t Cache → Prop) (HBad : leftover Bad).
Context (k v t c : Z) (Hv : v / config.(SlasherConfig.validator_chunk_size) = k).
Context (Ht : 0 ≤ t ≤ c) (Hc : c + MAX_DISTANCE ≤ u64_max).
Abbreviation N := (config.(SlasherConfig.history_length)).
Abbreviation column := (chunk_index config).
Abbreviation MinT := (MinTargetChunk (Cache := Cache) config forks max_validators_per_committee max_validators_per_slot).
Abbreviation MaxT := (MaxTargetChunk (Cache := Cache) config forks max_validators_per_committee max_validators_per_slot).
Abbreviation first := (oldest config c).

(** The walk of the array of least targets from [start] down to [stop]. *)
Definition walked_down (start : Epoch) (x x' : Slasher.t Cache * gmap Z Chunk) : Prop := ∃ stop,
  first - 1 ≤ stop ≤ start ∧ aswept config MinT k Bad v (stop + 1) start (fun e => t - e) x x'
  ∧ (∀ e, stop < e ≤ start → t < e + adist config MinT k x v e)
  ∧ (stop < first ∨ stop + adist config MinT k x v stop ≤ t).

Lemma first_bounds : 0 ≤ first ∧ c - N < first ∧ 0 < N ≤ MAX_DISTANCE + 1.
Proof using Hconfig. clear Ht Hv Hc. pose proof (history_lt config Hconfig). unfold oldest, u64_saturating_sub. lia. Qed.
Lemma min_next start stop : 0 ≤ stop → start ≤ c → stop = start / config.(SlasherConfig.chunk_size) * config.(SlasherConfig.chunk_size) - 1 →
  MinT.(next_start_epoch) start = stop.
Proof using Hconfig Hc.
  clear Ht Hv. intros H0 Hs ->. simpl. destruct Hconfig as [HC _ _ _]. pose proof (Z.mul_div_le start _ HC).
  unfold se_sub, se_mul, u64_saturating_sub, u64_saturating_mul, MAX_DISTANCE in *. lia.
Qed.
Lemma max_next start stop : 0 ≤ start → stop ≤ c → stop = (start / config.(SlasherConfig.chunk_size) + 1) * config.(SlasherConfig.chunk_size) →
  MaxT.(next_start_epoch) start = stop.
Proof using Hconfig Hc.
  clear Ht Hv. intros H0 Hs ->. simpl. destruct Hconfig as [HC _ _ _].
  assert (0 ≤ start / SlasherConfig.chunk_size config) by (apply Z.div_pos; lia).
  unfold se_add, se_mul, u64_saturating_add, u64_saturating_mul, MAX_DISTANCE in *. rewrite (Z.min_l (_ + 1)) by nia. nia.
Qed.

Lemma apply_min_run n : ∀ start x,
  view_ok config MinT k x → Bad x.1 → 0 ≤ start → first - 1 ≤ start ≤ c → start ≤ t → start - first + 1 < Z.of_nat n →
  (∀ e, first ≤ e ≤ start → 0 ≤ adist config MinT k x v e ≤ MAX_DISTANCE) →
  hoare (apply_loop config MinT n k v t c start) x (fun _ => walked_down start x) (aerror Bad).
Proof using HBad Hc Hconfig Ht Hv.
  pose proof first_bounds as (Ho0 & Ho & HN).
  induction n as [|n IH]; intros start x Hx Hb Hs0 Hs Hst Hn Hr; [lia|]. cbn [apply_loop]. hoare_step.
  eapply hoare_mono; [by apply get_chunk_run; [|apply column_range|]| |done]. intros chunk x1 [-> Hsame]. hoare_step.
  destruct (min_update_loop_run config Hconfig (column start) v t c Ht Hc (array_fuel config) start
    (chunk_at config MinT k x (column start))) as (b & chunk' & stop & Hrun & Hstop & Hsw & Hall & Hend);
    [apply Hx|lia|lia|lia|unfold array_fuel; lia| |].
  { intros e He Hce. specialize (Hr e He). unfold adist in Hr. by rewrite Hce in Hr. }
  eapply hoare_lift; [exact Hrun|]. unfold put_updated. do 2 hoare_step. set (x3 := (x1.1, <[column start := chunk']> x1.2)).
  assert (aswept config MinT k Bad v (stop + 1) start (fun e => t - e) x x3) as Hx3.
  { apply (aswept_chunk _ _ _ _ (column start)); [by apply column_range|done|done|done| |done]. intros e He. apply Hall. lia. }
  assert (∀ e, stop < e ≤ start → t < e + adist config MinT k x v e) as Hlt.
  { intros e He. destruct (Hall e He) as [Hce Hd]. unfold adist. by rewrite Hce. }
  destruct b; cycle 1.
  { hoare_step. exists stop. split_and!; [lia|lia|done|done|]. destruct Hend as [?|(_ & Hce & Hd)]; [by left|right].
    unfold adist. by rewrite Hce. }
  destruct Hend as [Hos Hcol]. destruct (decide (stop = start)) as [->|Hne]; [done|].
  rewrite (min_next start stop);
    [|lia|lia|by apply descent_next; [|lia|intros e He; apply Hall|]].
  assert (∀ e, first ≤ e ≤ stop → adist config MinT k x3 v e = adist config MinT k x v e) as Hkeep.
  { intros e He. eapply as_out; [done|done|]. right. intros e' He'. apply mod_window; lia. }
  eapply hoare_mono; [apply (IH stop x3)| |done]; [apply Hx3|apply Hx3|lia|lia|lia|lia| |].
  { intros e He. rewrite Hkeep by done. apply Hr. lia. }
  intros _ x' (stop' & Hs' & Hsw' & Hlt' & Hend'). exists stop'. split_and!; [lia|lia| | |].
  - apply (aswept_down config Hconfig MinT k Bad v (stop' + 1) stop start _ x x3 x'); [done|lia|lia|done|done].
  - intros e He. destruct (decide (e ≤ stop)); [|apply Hlt; lia]. rewrite <-Hkeep by lia. apply Hlt'. lia.
  - destruct Hend' as [?|Hd]; [by left|]. destruct (decide (first ≤ stop')); [right|left; lia]. by rewrite <-Hkeep by lia.
Qed.

(** The walk of the array of greatest targets from [start] up to [stop]. *)
Definition walked_up (start : Epoch) (x x' : Slasher.t Cache * gmap Z Chunk) : Prop := ∃ stop,
  start ≤ stop ≤ c + 1 ∧ aswept config MaxT k Bad v start (stop - 1) (fun e => t - e) x x'
  ∧ (∀ e, start ≤ e < stop → e + adist config MaxT k x v e < t)
  ∧ (c < stop ∨ t ≤ stop + adist config MaxT k x v stop).
Lemma apply_max_run n : ∀ start x,
  view_ok config MaxT k x → Bad x.1 → first ≤ start ≤ c + 1 → c - N + 1 < start → c - start + 1 < Z.of_nat n →
  (∀ e, start ≤ e ≤ c → 0 ≤ adist config MaxT k x v e ≤ MAX_DISTANCE) →
  hoare (apply_loop config MaxT n k v t c start) x (fun _ => walked_up start x) (aerror Bad).
Proof using HBad Hc Hconfig Ht Hv.
  pose proof first_bounds as (Ho0 & Ho & HN).
  induction n as [|n IH]; intros start x Hx Hb Hs HsN Hn Hr; [lia|]. cbn [apply_loop]. hoare_step.
  eapply hoare_mono; [by apply get_chunk_run; [|apply column_range|]| |done]. intros chunk x1 [-> Hsame]. hoare_step.
  destruct (max_update_loop_run config Hconfig (column start) v t c Ht Hc (array_fuel config) start
    (chunk_at config MaxT k x (column start))) as (b & chunk' & stop & Hrun & Hstop & Hsw & Hall & Hend);
    [apply Hx|lia|lia|unfold array_fuel; lia| |].
  { intros e He Hce. specialize (Hr e He). unfold adist in Hr. by rewrite Hce in Hr. }
  eapply hoare_lift; [exact Hrun|]. unfold put_updated. do 2 hoare_step. set (x3 := (x1.1, <[column start := chunk']> x1.2)).
  assert (aswept config MaxT k Bad v start (stop - 1) (fun e => t - e) x x3) as Hx3.
  { apply (aswept_chunk _ _ _ _ (column start)); [by apply column_range|done|done|done| |done]. intros e He. apply Hall. lia. }
  assert (∀ e, start ≤ e < stop → e + adist config MaxT k x v e < t) as Hlt.
  { intros e He. destruct (Hall e He) as [Hce Hd]. unfold adist. by rewrite Hce. }
  destruct b; cycle 1.
  { hoare_step. exists stop. split_and!; [lia|lia|done|done|]. destruct Hend as [?|(_ & Hce & Hd)]; [by left|right].
    unfold adist. by rewrite Hce. }
  destruct Hend as [Hos Hcol]. destruct (decide (stop = start)) as [->|Hne]; [done|].
  rewrite (max_next start stop); [|lia|lia|by apply ascent_next; [|lia|intros e He; apply Hall|]].
  assert (∀ e, stop ≤ e ≤ c → adist config MaxT k x3 v e = adist config MaxT k x v e) as Hkeep.
  { intros e He. eapply as_out; [done|done|]. right. intros e' He' Hm. symmetry in Hm. revert Hm. apply mod_window; lia. }
  eapply hoare_mono; [apply (IH stop x3)| |done]; [apply Hx3|apply Hx3|lia|lia|lia| |].
  { intros e He. rewrite Hkeep by done. apply Hr. lia. }
  intros _ x' (stop' & Hs' & Hsw' & Hlt' & Hend'). exists stop'. split_and!; [lia|lia| | |].
  - apply (aswept_up config Hconfig MaxT k Bad v start stop (stop' - 1) _ x x3 x'); [done|lia|lia|lia|done|done].
  - intros e He. destruct (decide (stop ≤ e)); [|apply Hlt; lia]. rewrite <-Hkeep by lia. apply Hlt'. lia.
  - destruct Hend' as [?|Hd]; [by left|]. destruct (decide (stop' ≤ c)); [right|left; lia]. by rewrite <-Hkeep by lia.
Qed.
End walks.

(** ** The change of the current epoch *)
Section reset.
Context {Cache : Type} `{lru : LruCache Cache}.
Context (config : SlasherConfig.t) (Hconfig : config_ok config).
Context (T : TargetArrayChunk (Cache := Cache)) (k : Z).
Context (Bad : Slasher.t Cache → Prop) (HBad : leftover Bad).
Abbreviation K := (config.(SlasherConfig.validator_chunk_size)).
Abbreviation N := (config.(SlasherConfig.history_length)).
Abbreviation column := (chunk_index config).
Abbreviation astate := (Slasher.t Cache * gmap Z Chunk)%type.

Lemma adist_mod x v e e' : e mod N = e' mod N → adist config T k x v e = adist config T k x v e'.
Proof using Hconfig.
  intros Hm. unfold adist. rewrite (cdist_mod config Hconfig _ _ e e' Hm). by unfold chunk_index; rewrite Hm.
Qed.
Lemma aswept_up_const v lo mid hi z x x1 x2 :
  v / K = k → lo ≤ mid → mid ≤ hi + 1 →
  aswept config T k Bad v lo (mid - 1) (fun _ => z) x x1 → aswept config T k Bad v mid hi (fun _ => z) x1 x2 →
  aswept config T k Bad v lo hi (fun _ => z) x x2.
Proof using Hconfig.
  intros Hv Hlo Hhi [A1 A2 A3 A4 A5] [B1 B2 B3 B4 B5]. split; [done| | |by rewrite B4|done].
  - intros e He. destruct (decide (Exists (fun e' => e mod N = e' mod N) (seqZ mid (hi - mid + 1)))) as [Hex|Hno].
    + apply list.Exists_exists in Hex as (e' & He'%elem_of_seqZ & Hm). rewrite (adist_mod _ _ _ _ Hm). apply B2. lia.
    + assert (∀ e', mid ≤ e' ≤ hi → e mod N ≠ e' mod N) as Hne.
      { intros e' He' Hm. apply Hno, list.Exists_exists. exists e'. split; [|done]. apply elem_of_seqZ. lia. }
      rewrite B3; [|done|by right]. apply A2. destruct (decide (mid ≤ e)); [by destruct (Hne e ltac:(lia))|lia].
  - intros v' e Hv' Hne. rewrite B3, A3; [done|done| |done|]; (destruct Hne as [?|Hne]; [by left|right; intros; apply Hne; lia]).
Qed.

Lemma epoch_update_loop_run v c n : v / K = k → c + MAX_DISTANCE ≤ u64_max → ∀ e x,
  view_ok config T k x → Bad x.1 → 0 ≤ e → c - e + 1 < Z.of_nat n → (0 < n)%nat →
  hoare (epoch_update_loop config T n k v c e) x
    (fun _ => aswept config T k Bad v e c (fun _ => T.(neutral_element)) x) (aerror Bad).
Proof using HBad Hconfig.
  intros Hv Hm. induction n as [|n IH]; intros e x Hx Hb He Hn Hn0; [lia|]. cbn [epoch_update_loop].
  destruct (Z.leb_spec e c) as [Hec|Hec]; [|hoare_step; apply aswept_nil; [done|lia|done]].
  hoare_step. eapply hoare_mono; [by apply get_chunk_run; [|apply column_range|]| |done]. intros chunk x1 [-> Hsame]. hoare_step.
  destruct (reset_loop_run config Hconfig T (column e) v c (Z.to_nat (c - e + 2)) e (chunk_at config T k x (column e)))
    as (stop & chunk' & Hrun & Hstop & Hsw & Hall & Hend); [apply Hx|lia|done|lia|].
  eapply hoare_lift; [exact Hrun|]. unfold put_updated. do 2 hoare_step. set (x2 := (x1.1, <[column e := chunk']> x1.2)).
  assert (aswept config T k Bad v e (stop - 1) (fun _ => T.(neutral_element)) x x2) as Hx2.
  { apply (aswept_chunk _ _ _ _ (column e)); [by apply column_range|done|done|done| |done]. intros e' He'. apply Hall. lia. }
  assert (e < stop) as Hlt.
  { destruct (decide (e = stop)) as [<-|]; [by destruct (Hend Hec)|lia]. }
  eapply hoare_mono; [apply (IH stop x2); [apply Hx2|apply Hx2|lia|lia|lia]| |done].
  intros [] x' Hx'. apply (aswept_up_const v e stop c _ x x2 x'); [done|lia|lia|done|done].
Qed.
End reset.

(** ** What the arrays say of the votes *)
(** [D] holds, for each epoch of the window up to [c], the distance to the least target
    of a vote in [V] with a later source, unless the validator is [caught] anyway. *)
Section meaning.
Context (config : SlasherConfig.t) (Hconfig : config_ok config).
Abbreviation N := (config.(SlasherConfig.history_length)).
Abbreviation first c := (oldest config c).

Record least_at (D : Epoch → Z) (c : Epoch) (V : AttestationData.t → Prop) (caught : Prop) (e : Epoch) : Prop := {
  la_range : 0 ≤ D e ≤ MAX_DISTANCE;
  la_exact : D e ≠ MAX_DISTANCE → ∃ d, V d ∧ e < src d ∧ tgt d = e + D e;
  la_bound : ∀ d, V d → e < src d → e + D e ≤ tgt d ∨ caught;
  la_step : e + 1 ≤ c → D e ≤ 1 + D (e + 1);
}.
Definition least_ok (D : Epoch → Z) (c : Epoch) (V : AttestationData.t → Prop) (caught : Prop) : Prop :=
  ∀ e, first c ≤ e ≤ c → least_at D c V caught e.
Record greatest_at (D : Epoch → Z) (c : Epoch) (V : AttestationData.t → Prop) (caught : Prop) (e : Epoch) : Prop := {
  ga_range : 0 ≤ D e ≤ MAX_DISTANCE;
  ga_exact : D e ≠ 0 → ∃ d, V d ∧ src d < e ∧ tgt d = e + D e;
  ga_bound : ∀ d, V d → src d < e → tgt d ≤ e + D e ∨ caught;
  ga_step : e + 1 ≤ c → D e ≤ 1 + D (e + 1);
}.
Definition greatest_ok (D : Epoch → Z) (c : Epoch) (V : AttestationData.t → Prop) (caught : Prop) : Prop :=
  ∀ e, first c ≤ e ≤ c → greatest_at D c V caught e.

(** The validator is caught: the new vote need not be in the array. *)
Lemma least_ok_caught D c V P P' d : least_ok D c V P → P' → least_ok D c (fun d' => V d' ∨ d' = d) P'.
Proof. intros HD HP e He. destruct (HD e He) as [H1 H2 H3 H4]. split; naive_solver. Qed.
Lemma greatest_ok_caught D c V P P' d : greatest_ok D c V P → P' → greatest_ok D c (fun d' => V d' ∨ d' = d) P'.
Proof. intros HD HP e He. destruct (HD e He) as [H1 H2 H3 H4]. split; naive_solver. Qed.
(** The same distances and votes, seen otherwise. *)
Lemma least_ok_weaken D D' c V V' P P' :
  least_ok D c V P → (∀ e, first c ≤ e ≤ c → D' e = D e) → (∀ d, V' d ↔ V d) → (P → P') → least_ok D' c V' P'.
Proof.
  intros HD HDD HV HP e He. destruct (HD e He) as [H1 H2 H3 H4]. split; rewrite ?HDD by done; [done| | |].
  - intros Hne. destruct (H2 Hne) as (d & Hd & ?). exists d. by rewrite HV.
  - intros d Hd Hs. destruct (H3 d); [by apply HV|done|by left|right; by apply HP].
  - intros Hc. rewrite HDD by lia. by apply H4.
Qed.
Lemma greatest_ok_weaken D D' c V V' P P' :
  greatest_ok D c V P → (∀ e, first c ≤ e ≤ c → D' e = D e) → (∀ d, V' d ↔ V d) → (P → P') → greatest_ok D' c V' P'.
Proof.
  intros HD HDD HV HP e He. destruct (HD e He) as [H1 H2 H3 H4]. split; rewrite ?HDD by done; [done| | |].
  - intros Hne. destruct (H2 Hne) as (d & Hd & ?). exists d. by rewrite HV.
  - intros d Hd Hs. destruct (H3 d); [by apply HV|done|by left|right; by apply HP].
  - intros Hc. rewrite HDD by lia. by apply H4.
Qed.

(** The steps add up. *)
Lemma steps_up (D : Epoch → Z) lo c e e' : (∀ e, lo ≤ e < c → D e ≤ 1 + D (e + 1)) → lo ≤ e ≤ e' → e' ≤ c →
  e + D e ≤ e' + D e'.
Proof.
  intros Hs He Hc. replace e' with (e + Z.of_nat (Z.to_nat (e' - e))) by lia.
  assert (e + Z.of_nat (Z.to_nat (e' - e)) ≤ c) as Hn by lia. revert Hn. generalize (Z.to_nat (e' - e)). intros n.
  induction n as [|n IH]; intros Hn; [rewrite Z.add_0_r; lia|]. specialize (IH ltac:(lia)).
  specialize (Hs (e + Z.of_nat n) ltac:(lia)). rewrite Nat2Z.inj_succ. replace (e + Z.succ (Z.of_nat n)) with (e + Z.of_nat n + 1) by lia. lia.
Qed.

(** A vote was entered: [D'] has its target on the way down from its source to [stop]. *)
Lemma least_ok_vote D D' c V P d stop :
  least_ok D c V P → c - N < src d ≤ tgt d → tgt d ≤ c → 0 ≤ src d → tgt d ≤ src d + D (src d) →
  first c - 1 ≤ stop ≤ src d - 1 →
  (∀ e, stop < e ≤ src d - 1 → D' e = tgt d - e ∧ tgt d < e + D e) →
  (∀ e, first c ≤ e ≤ c → ¬ stop < e ≤ src d - 1 → D' e = D e) →
  stop < first c ∨ stop + D stop ≤ tgt d →
  least_ok D' c (fun d' => V d' ∨ d' = d) P.
Proof using Hconfig.
  intros HD Hw Ht Hs Hok Hst Hin Hout Hend e He. destruct (HD e He) as [H1 H2 H3 H4].
  assert (0 ≤ first c) as Hf by (unfold oldest, u64_saturating_sub; lia).
  assert (c - N < first c) as Hf' by (unfold oldest, u64_saturating_sub; lia).
  pose proof (history_lt config Hconfig) as HN.
  assert (∀ e, first c ≤ e < c → D e ≤ 1 + D (e + 1)) as Hstep by (intros e' He'; apply (HD e' ltac:(lia)); lia).
  destruct (decide (stop < e ≤ src d - 1)) as [Hr|Hr].
  - destruct (Hin e Hr) as [Hd Hlt]. split; rewrite ?Hd.
    + lia.
    + intros _. exists d. split; [by right|]. lia.
    + intros d' [Hd'| ->] Hsrc; [destruct (H3 d' Hd' Hsrc); [left; lia|by right]|left; lia].
    + intros Hc. destruct (decide (e + 1 ≤ src d - 1)) as [Hr'|Hr'].
      * destruct (Hin (e + 1) ltac:(lia)) as [-> _]. lia.
      * replace (e + 1) with (src d) by lia. rewrite Hout by lia. lia.
  - assert (D' e = D e) as Hde by by apply Hout. split; rewrite ?Hde.
    + done.
    + intros Hne. destruct (H2 Hne) as (d' & ? & ?). exists d'. split; [by left|done].
    + intros d' [Hd'| ->] Hsrc; [by apply H3|left]. destruct Hend as [?|Hend]; [lia|].
      pose proof (steps_up D (first c) c e stop Hstep ltac:(lia) ltac:(lia)). lia.
    + intros Hc. destruct (decide (stop < e + 1 ≤ src d - 1)) as [Hr'|Hr'].
      * destruct (Hin (e + 1) Hr') as [-> Hlt]. assert (e = stop) as -> by lia. lia.
      * rewrite Hout by lia. by apply H4.
Qed.
(** On the way up. *)
Lemma greatest_ok_vote D D' c V P d stop :
  greatest_ok D c V P → c - N < src d ≤ tgt d → tgt d ≤ c → 0 ≤ src d → src d + D (src d) ≤ tgt d →
  src d + 1 ≤ stop ≤ c + 1 →
  (∀ e, src d + 1 ≤ e < stop → D' e = tgt d - e ∧ e + D e < tgt d) →
  (∀ e, first c ≤ e ≤ c → ¬ src d + 1 ≤ e < stop → D' e = D e) →
  c < stop ∨ tgt d ≤ stop + D stop →
  greatest_ok D' c (fun d' => V d' ∨ d' = d) P.
Proof using Hconfig.
  intros HD Hw Ht Hs Hok Hst Hin Hout Hend e He. destruct (HD e He) as [H1 H2 H3 H4].
  assert (0 ≤ first c) as Hf by (unfold oldest, u64_saturating_sub; lia).
  assert (c - N < first c ≤ src d) as Hf' by (unfold oldest, u64_saturating_sub; lia).
  pose proof (history_lt config Hconfig) as HN.
  assert (∀ e, first c ≤ e < c → D e ≤ 1 + D (e + 1)) as Hstep by (intros e' He'; apply (HD e' ltac:(lia)); lia).
  destruct (decide (src d + 1 ≤ e < stop)) as [Hr|Hr].
  - destruct (Hin e Hr) as [Hd Hlt]. split; rewrite ?Hd.
    + lia.
    + intros _. exists d. split; [by right|]. lia.
    + intros d' [Hd'| ->] Hsrc; [destruct (H3 d' Hd' Hsrc); [left; lia|by right]|left; lia].
    + intros Hc. destruct (decide (e + 1 < stop)) as [Hr'|Hr'].
      * destruct (Hin (e + 1) ltac:(lia)) as [-> _]. lia.
      * assert (stop = e + 1) as -> by lia. rewrite Hout by lia. lia.
  - assert (D' e = D e) as Hde by by apply Hout. split; rewrite ?Hde.
    + done.
    + intros Hne. destruct (H2 Hne) as (d' & ? & ?). exists d'. split; [by left|done].
    + intros d' [Hd'| ->] Hsrc; [by apply H3|left]. destruct Hend as [?|Hend]; [lia|].
      pose proof (steps_up D (first c) c stop e Hstep ltac:(lia) ltac:(lia)). lia.
    + intros Hc. destruct (decide (src d + 1 ≤ e + 1 < stop)) as [Hr'|Hr'].
      * destruct (Hin (e + 1) Hr') as [-> Hlt]. assert (e = src d) as -> by lia. lia.
      * rewrite Hout by lia. by apply H4.
Qed.

(** The window moves on. *)
Lemma least_ok_advance D D' c0 c V P :
  least_ok D c0 V P → 0 ≤ c0 ≤ c → (∀ d, V d → src d ≤ tgt d ≤ c0) →
  (∀ e, c0 ≤ e ≤ c → D' e = MAX_DISTANCE) → (∀ e, first c ≤ e < c0 → D' e = D e) → least_ok D' c V P.
Proof.
  intros HD Hc HV Hnew Hold e He. assert (first c0 ≤ first c) as Hf by (unfold oldest, u64_saturating_sub; lia).
  destruct (decide (c0 ≤ e)) as [Hce|Hce].
  - split; rewrite Hnew by lia.
    + done.
    + done.
    + intros d Hd Hs. specialize (HV d Hd). lia.
    + intros He'. rewrite Hnew by lia. done.
  - destruct (HD e ltac:(lia)) as [H1 H2 H3 H4]. split; rewrite Hold by lia; [done|done|done|].
    intros He'. destruct (decide (e + 1 = c0)) as [Heq|]; [rewrite Hnew by lia; lia|]. rewrite Hold by lia. apply H4. lia.
Qed.
Lemma greatest_ok_advance D D' c0 c V P :
  greatest_ok D c0 V P → 0 ≤ c0 ≤ c → (∀ d, V d → src d ≤ tgt d ≤ c0) →
  (∀ e, c0 ≤ e ≤ c → D' e = 0) → (∀ e, first c ≤ e < c0 → D' e = D e) → greatest_ok D' c V P.
Proof.
  intros HD Hc HV Hnew Hold e He. assert (first c0 ≤ first c) as Hf by (unfold oldest, u64_saturating_sub; lia).
  destruct (decide (c0 ≤ e)) as [Hce|Hce].
  - split; rewrite Hnew by lia.
    + done.
    + done.
    + intros d Hd Hs. specialize (HV d Hd). lia.
    + intros He'. rewrite Hnew by lia. done.
  - destruct (HD e ltac:(lia)) as [H1 H2 H3 H4]. split; rewrite Hold by lia; [done|done|done|].
    intros He'. destruct (decide (e + 1 = c0)) as [Heq|]; [|rewrite Hold by lia; apply H4; lia].
    rewrite Hnew by lia. destruct (decide (D e = 0)) as [|Hne]; [lia|].
    destruct (H2 Hne) as (d & Hd & _ & Htd). specialize (HV d Hd). lia.
Qed.
Lemma least_ok_fresh D c V P : (∀ d, ¬ V d) → (∀ e, first c ≤ e ≤ c → D e = MAX_DISTANCE) → least_ok D c V P.
Proof.
  intros HV HD e He. split; rewrite HD by done; [done|done|by intros d Hd; destruct (HV d)|].
  intros Hc. rewrite HD by lia. done.
Qed.
Lemma greatest_ok_fresh D c V P : (∀ d, ¬ V d) → (∀ e, first c ≤ e ≤ c → D e = 0) → greatest_ok D c V P.
Proof.
  intros HV HD e He. split; rewrite HD by done; [done|done|by intros d Hd; destruct (HV d)|].
  intros Hc. rewrite HD by lia. done.
Qed.
End meaning.
