(* ===== verification/SlasherSurrounds.v ===== *)
(** * Surround votes

    What one of the two arrays promises to [update_array] is an interface: an invariant
    that relates the distances of a validator to its votes, kept when a vote is
    entered and when the current epoch changes, and a relation of conflict between a
    new vote and an old one that is never missed.  The arrays of least and greatest targets are its
    instances, and [update] is proved against it. *)
From stdpp Require Import sorting.
From S2P Require Import Prelude SlotEpoch ProtoArrayDefs ForkChoiceDefs ForkSchedule BeaconStateDefs.
From S2P Require Import ValidatorDefs ShuffleDefs CommitteeDefs SlashingDefs DoppelgangerDefs ValidatorStoreDefs.
From S2P Require Import StateDefs RegistryDefs BlockDefs EpbsDefs OperationsDefs SlasherDefs SlasherRecords SlasherArrays.

Section surrounds.
Context {Cache : Type} `{lru : LruCache Cache, !LruLaws Cache}.
Context (config : SlasherConfig.t) (Hconfig : config_ok config) (forks : ForkSpec.t).
Context (max_validators_per_committee max_validators_per_slot : Z).
Context (data_root : AttestationData.t → Hash256) (header_root : list Z → Hash256 → Z → Hash256).
Context (T0 : Tables.t) (Bad : Slasher.t Cache → Prop) (HBad : leftover Bad).
Context (Acc : IndexedAttestation.t → Prop) (c : Epoch) (Hc : 0 ≤ c ∧ c + MAX_DISTANCE ≤ u64_max).
Abbreviation C := (config.(SlasherConfig.chunk_size)).
Abbreviation K := (config.(SlasherConfig.validator_chunk_size)).
Abbreviation N := (config.(SlasherConfig.history_length)).
Abbreviation column := (chunk_index config).
Abbreviation astate := (Slasher.t Cache * gmap Z Chunk)%type.
Abbreviation data := AttestationData.t.
Abbreviation txn := (txn_ok config forks max_validators_per_committee max_validators_per_slot Bad data_root header_root T0 Acc c).
Abbreviation MinT := (MinTargetChunk (Cache := Cache) config forks max_validators_per_committee max_validators_per_slot).
Abbreviation MaxT := (MaxTargetChunk (Cache := Cache) config forks max_validators_per_committee max_validators_per_slot).
Abbreviation first := (oldest config c).
Abbreviation invariant := ((Epoch → Z) → Epoch → (data → Prop) → Prop → Prop).

(** ** A vote *)
Section vote.
Context (T : TargetArrayChunk (Cache := Cache)) (ok : invariant) (conflicts : data → data → Prop) (k v : Z).
Abbreviation D := (adist config T k).

(** The outcome of entering the vote [any] of [v] beside its votes [V]. *)
Record voted (any : AnyAttestation.t) (V : data → Prop) (F : list AnySlashing.t) (x : astate)
    (st : AttesterSlashingStatus.t) (x' : astate) : Prop := {
  vt_view : view_ok config T k x';
  vt_core : core x'.1 = core x.1;
  vt_bad : Bad x'.1;
  vt_others : ∀ v' e, v' / K = k → v' ≠ v → D x' v' e = D x v' e;
  vt_ok : ok (D x' v) c (fun d => V d ∨ d = any.(AnyAttestation.inner).(IndexedAttestation.data)) (caught (F ++ accuse st any) v);
  vt_genuine : Forall (genuine Acc) (accuse st any);
  vt_conflicts : ∀ d, V d → conflicts any.(AnyAttestation.inner).(IndexedAttestation.data) d → caught (F ++ accuse st any) v;
}.

Lemma same_view_core x x1 s : same_view config T k Bad x x1 → core s = core x1.1 → Bad s → same_view config T k Bad x (s, x1.2).
Proof.
  intros (H1 & H2 & _ & H4) Hs Hb. split_and!; [|by simpl; rewrite Hs|done|by destruct x1]. intros ci. rewrite <-H1. unfold chunk_at. simpl.
  by rewrite (core_tables _ _ Hs).
Qed.
Lemma same_view_adist x x' v' e : same_view config T k Bad x x' → D x' v' e = D x v' e.
Proof. intros (H1 & _). unfold adist. by rewrite H1. Qed.
Lemma same_view_ok x x' : same_view config T k Bad x x' → view_ok config T k x → view_ok config T k x'.
Proof. intros (H1 & _ & _ & Hk) Hx. split; [|by apply Hk, Hx]. intros ci. rewrite H1. apply Hx. Qed.

(** A status that accuses [v], or says that it is already accused. *)
Lemma voted_flagged any V F x st x' :
  (∀ D V P P' d, ok D c V P → P' → ok D c (fun d' => V d' ∨ d' = d) P') →
  (∀ D D' V P, ok D c V P → (∀ e, first ≤ e ≤ c → D' e = D e) → ok D' c V P) →
  view_ok config T k x → same_view config T k Bad x x' → ok (D x v) c V (caught F v) →
  Forall (genuine Acc) (accuse st any) → caught (F ++ accuse st any) v → voted any V F x st x'.
Proof.
  intros Hlaw Hext Hx Hsame Hok Hg Hca. split; [by eapply same_view_ok|apply Hsame|apply Hsame| | |done|done].
  - intros v' e _ _. by apply same_view_adist.
  - eapply Hlaw; [|done]. eapply Hext; [done|]. intros e _. by apply same_view_adist.
Qed.
End vote.

Lemma accused st any any' v F :
  let a := any.(AnyAttestation.inner) in let a' := any'.(AnyAttestation.inner) in
  st = AttesterSlashingStatus.SurroundsExisting any' ∧ surrounds a.(IndexedAttestation.data) a'.(IndexedAttestation.data)
  ∨ st = AttesterSlashingStatus.SurroundedByExisting any' ∧ surrounds a'.(IndexedAttestation.data) a.(IndexedAttestation.data) →
  Acc a → Acc a' → v ∈ a.(IndexedAttestation.attesting_indices) → v ∈ a'.(IndexedAttestation.attesting_indices) →
  Forall (genuine Acc) (accuse st any) ∧ caught (F ++ accuse st any) v.
Proof.
  intros a a' Hst Ha Ha' Hv Hv'.
  assert (∃ y, accuse st any = [y] ∧ accuses v y ∧ Acc y.(AnySlashing.attestation_1) ∧ Acc y.(AnySlashing.attestation_2)) as (y & -> & Hy & H1 & H2).
  { destruct Hst as [[-> Hs]|[-> Hs]]; eexists; (split; [done|]); unfold accuses, conflicting; simpl; naive_solver. }
  split; [constructor; [|done]; split; [by eexists|done]|].
  exists y. split; [|done]. apply sub_app_r. by apply list_elem_of_singleton.
Qed.

Lemma txn_core L F s s' : core s' = core s → Bad s' → txn L F s → txn L F s'.
Proof.
  intros Hs Hb [H1 H2 H3 H4 H5]. pose proof (core_tables _ _ Hs) as HT. pose proof (core_cache _ _ Hs) as HC.
  split; rewrite ?HT, ?HC; done.
Qed.
Lemma vote_in_window v a id s L F :
  txn L F s → votes_for config c v a id s.(Slasher.tables) →
  0 ≤ v < 2 ^ 40 ∧ Acc a ∧ first ≤ source_epoch a ≤ target_epoch a ∧ target_epoch a ≤ c ∧ c - N < source_epoch a ∧ 0 ≤ source_epoch a.
Proof using Hconfig.
  intros Htx Hvo. destruct (vote_bounds config forks max_validators_per_committee max_validators_per_slot Bad data_root header_root T0
    Acc c L F v (AnyAttestation.mk false a) id s Htx Hvo) as (Hv & _ & Hs0 & Ha). simpl in Hs0. destruct Hvo as [_ _ He].
  unfold oldest, u64_saturating_sub. simpl in *. split_and!; (done || lia).
Qed.

(** *** A check *)
Abbreviation lookup := (get_attestation_for_validator config forks max_validators_per_committee max_validators_per_slot).
(** What a check of the vote [any] says: nothing if [quiet], else that [v] is accused. *)
Definition verdict (v : Z) (any : AnyAttestation.t) (F : list AnySlashing.t) (quiet : Prop) (st : AttesterSlashingStatus.t) : Prop :=
  Forall (genuine Acc) (accuse st any)
  ∧ (st = AttesterSlashingStatus.NotSlashable ∧ quiet
     ∨ st ≠ AttesterSlashingStatus.NotSlashable ∧ caught (F ++ accuse st any) v).

(** The vote [d] conflicts with [any], and its record is looked up. *)
Lemma conflict_run v any d L F s (test : AnyAttestation.t → bool) (status : AnyAttestation.t → AttesterSlashingStatus.t) quiet :
  let a := any.(AnyAttestation.inner) in
  txn L F s → (v, d) ∈ L → c - N < tgt d → 0 ≤ v < 2 ^ 40 → Acc a → v ∈ a.(IndexedAttestation.attesting_indices) →
  (∀ any', let d' := any'.(AnyAttestation.inner).(IndexedAttestation.data) in
     tgt d' = tgt d → test any' = true →
     status any' = AttesterSlashingStatus.SurroundsExisting any' ∧ surrounds a.(IndexedAttestation.data) d'
     ∨ status any' = AttesterSlashingStatus.SurroundedByExisting any' ∧ surrounds d' a.(IndexedAttestation.data)) →
  (∀ any', any'.(AnyAttestation.inner).(IndexedAttestation.data) = d → test any' = true) →
  hoare (any' ← lookup v (tgt d); if test any' then mret (status any') else mret AttesterSlashingStatus.AlreadyDoubleVoted) s
    (fun st s' => core s' = core s ∧ Bad s' ∧ verdict v any F quiet st) (error Bad).
Proof using HBad Hc Hconfig.
  intros a Htx Hd Hw Hv Hacc Hmem Htest Hhit. hoare_step. eapply hoare_mono; [by eapply lookup_vote_run| |done].
  intros any' s' (Hacc' & Ht' & Hv' & Hdd & Hcs & Hb'). destruct (test any') eqn:E; hoare_step; (split_and!; [done|done|]).
  - destruct (accused (status any') any any' v F (Htest any' Ht' E)) as [Hg Hca]; [done..|]. split; [done|right; split; [|done]].
    by destruct (Htest any' Ht' E) as [[-> _]|[-> _]].
  - split; [by constructor|right; split; [done|]]. destruct Hdd as [->|Hca]; [by rewrite Hhit in E|].
    eapply caught_sub; [|done]. apply sub_app_l.
Qed.

Section apply.
Context (k v : Z) (any : AnyAttestation.t) (id : Z) (V : data → Prop) (L : list vote) (F : list AnySlashing.t) (x : astate).
Abbreviation a := (any.(AnyAttestation.inner)).
Context (Hk : v / K = k) (Htx : txn L F x.1) (Hvote : votes_for config c v a id x.1.(Slasher.tables)).
Context (HV : ∀ d, V d → (v, d) ∈ L).

(** *** The array of least targets *)
Section least.
Abbreviation D := (adist config MinT k x v).
Context (Hx : view_ok config MinT k x) (Hok : least_ok config D c V (caught F v)).

Lemma min_check_run x1 :
  same_view config MinT k Bad x x1 →
  hoare (on_slasher (MinT.(check_slashable) (chunk_at config MinT k x (column (source_epoch a))) v any)) x1
    (fun st x' => same_view config MinT k Bad x x' ∧ verdict v any F (target_epoch a ≤ source_epoch a + D (source_epoch a)) st)
    (aerror Bad).
Proof using HBad HV Hc Hconfig Hok Htx Hvote Hx.
  intros Hsame. destruct (vote_in_window _ _ _ _ _ _ Htx Hvote) as (Hv & Hacc & Hw & Ht & Hcw & Hs0).
  destruct (Hok (source_epoch a) ltac:(lia)) as [Hr Hex _ _]. pose proof (history_lt config Hconfig) as HN.
  assert (get_target config v (source_epoch a) (chunk_at config MinT k x (column (source_epoch a))) = Ok (source_epoch a + D (source_epoch a)))
    as Hget by (apply (get_target_run config Hconfig); [apply Hx|done|apply Hr|change (source_epoch a + D (source_epoch a) ≤ u64_max); lia]).
  apply hoare_on_slasher. cbn [check_slashable MinTargetChunk]. unfold min_check_slashable. hoare_step. eapply hoare_lift; [exact Hget|].
  destruct (Z.ltb_spec (source_epoch a + D (source_epoch a)) (target_epoch a)) as [Hlt|Hge].
  2:{ hoare_step. split; [by eapply same_view_core; [|done|apply Hsame]|]. split; [by constructor|left; split; [done|lia]]. }
  destruct (Hex ltac:(lia)) as (d & Hd & Hsd & Htd). rewrite <-Htd. eapply hoare_mono.
  - apply (conflict_run v any d L F x1.1 (fun any' => source_epoch a <? source_epoch any'.(AnyAttestation.inner))
      AttesterSlashingStatus.SurroundsExisting); [by eapply txn_core; [apply Hsame|apply Hsame|]|by apply HV|lia|done|done|apply Hvote| |].
    + intros any' d' Ht' Hs'%Z.ltb_lt. left. split; [done|]. split; [exact Hs'|]. rewrite Ht', Htd. exact Hlt.
    + intros any' <-. by apply Z.ltb_lt.
  - intros st s' (Hcs & Hb' & Hver). split; [by eapply same_view_core|done].
  - done.
Qed.

Lemma least_entered x2 x' stop :
  same_view config MinT k Bad x x2 → target_epoch a ≤ source_epoch a + D (source_epoch a) → first - 1 ≤ stop ≤ source_epoch a - 1 →
  aswept config MinT k Bad v (stop + 1) (source_epoch a - 1) (fun e => target_epoch a - e) x2 x' →
  (∀ e, stop < e ≤ source_epoch a - 1 → target_epoch a < e + adist config MinT k x2 v e) →
  stop < first ∨ stop + adist config MinT k x2 v stop ≤ target_epoch a →
  voted MinT (least_ok config) surrounds k v any V F x AttesterSlashingStatus.NotSlashable x'.
Proof using HBad HV Hc Hconfig Hk Hok Htx Hvote Hx.
  intros Hsame Hq Hst [A1 A2 A3 A4 A5] Hlt Hend. destruct (vote_in_window _ _ _ _ _ _ Htx Hvote) as (Hv & Hacc & Hw & Ht & Hcw & Hs0).
  rewrite (same_view_adist MinT k x x2) in Hend by done.
  assert (∀ v' e, adist config MinT k x2 v' e = adist config MinT k x v' e) as Heq by (intros; by apply same_view_adist).
  unfold accuse. split; simpl; rewrite ?app_nil_r; [done|rewrite A4; apply Hsame|done| | |done|].
  - intros v' e Hv' Hne. rewrite A3, Heq; [done|done|by left].
  - apply (least_ok_vote config Hconfig D _ c V _ _ stop Hok);
      [split; [exact Hcw|apply Hw]|exact Ht|exact Hs0|exact Hq|exact Hst| | |exact Hend].
    + intros e He. rewrite <-Heq. split; [apply A2; unfold src, source_epoch in *; lia|by apply Hlt].
    + intros e He Hne. rewrite A3, Heq; [done|done|]. right. intros e' He' Hm. apply Hne.
      assert (c - N < first) by (unfold oldest, u64_saturating_sub; lia).
      rewrite (mod_window_inj N c e e'); [unfold src, source_epoch in *; lia|apply history_pos; done|lia..|done].
  - intros d Hd [Hsd Htd]. destruct (la_bound _ _ _ _ _ (Hok (source_epoch a) ltac:(lia)) d Hd Hsd) as [Hle|]; [|done].
    unfold tgt, target_epoch in *. lia.
Qed.

Lemma min_apply_run :
  hoare (apply_attestation_for_validator config MinT k v any c) x
    (voted MinT (least_ok config) surrounds k v any V F x) (aerror Bad).
Proof using HBad HV Hc Hconfig Hk Hok Htx Hvote Hx.
  destruct (vote_in_window _ _ _ _ _ _ Htx Hvote) as (Hv & Hacc & Hw & Ht & Hcw & Hs0).
  pose proof (history_lt config Hconfig) as HN.
  unfold apply_attestation_for_validator. hoare_step. eapply hoare_mono; [apply get_chunk_run; [done|by apply column_range|apply Htx]| |done].
  intros chunk x1 [-> Hsame1]. hoare_step. eapply hoare_mono; [by apply min_check_run| |done].
  intros st x2 [Hsame [Hg [[-> Hq]|[Hne Hca]]]].
  2:{ rewrite bool_decide_eq_false_2 by done. simpl. hoare_step.
      apply voted_flagged; [intros; by eapply least_ok_caught|intros; by eapply least_ok_weaken|done..]. }
  rewrite bool_decide_eq_true_2 by done. cbn [negb]. hoare_step. cbn [first_start_epoch MinTargetChunk].
  destruct (Z.ltb_spec (se_sub c N) (source_epoch a)) as [Hlt|Hge].
  - destruct (Z.eqb_spec (source_epoch a) 0); [unfold se_sub, u64_saturating_sub in Hlt; lia|].
    assert (se_sub (source_epoch a) 1 = source_epoch a - 1) as -> by (unfold se_sub, u64_saturating_sub; lia).
    eapply hoare_lift; [done|]. cbv beta iota. hoare_step. eapply hoare_mono.
    + apply (apply_min_run config Hconfig forks max_validators_per_committee max_validators_per_slot Bad HBad k v (target_epoch a) c Hk
        ltac:(lia) (proj2 Hc) (array_fuel config) (source_epoch a - 1) x2);
        [by eapply same_view_ok|apply Hsame|lia|lia|lia|unfold array_fuel, oldest, u64_saturating_sub; lia|].
      intros e He. rewrite (same_view_adist MinT k x x2) by done. apply (Hok e). lia.
    + intros [] x' (stop & Hst & Hsw & Hall & Hend). hoare_step. by apply (least_entered x2 x' stop).
    + done.
  - eapply hoare_lift; [done|]. cbv beta iota. hoare_step. apply (least_entered x2 x2 (source_epoch a - 1)); [done|done|lia| |lia|].
    + apply aswept_nil; [by eapply same_view_ok|lia|]. by split_and!; [|done|apply Hsame|].
    + left. unfold se_sub, oldest, u64_saturating_sub in *. lia.
Qed.
End least.

(** *** The array of greatest targets *)
Section greatest.
Abbreviation D := (adist config MaxT k x v).
Abbreviation surrounded d d' := (surrounds d' d).
Context (Hx : view_ok config MaxT k x) (Hok : greatest_ok config D c V (caught F v)).

Lemma max_check_run x1 :
  same_view config MaxT k Bad x x1 →
  hoare (on_slasher (MaxT.(check_slashable) (chunk_at config MaxT k x (column (source_epoch a))) v any)) x1
    (fun st x' => same_view config MaxT k Bad x x' ∧ verdict v any F (source_epoch a + D (source_epoch a) ≤ target_epoch a) st)
    (aerror Bad).
Proof using HBad HV Hc Hconfig Hok Htx Hvote Hx.
  intros Hsame. destruct (vote_in_window _ _ _ _ _ _ Htx Hvote) as (Hv & Hacc & Hw & Ht & Hcw & Hs0).
  destruct (Hok (source_epoch a) ltac:(lia)) as [Hr Hex _ _]. pose proof (history_lt config Hconfig) as HN.
  assert (get_target config v (source_epoch a) (chunk_at config MaxT k x (column (source_epoch a))) = Ok (source_epoch a + D (source_epoch a)))
    as Hget by (apply (get_target_run config Hconfig); [apply Hx|done|apply Hr|change (source_epoch a + D (source_epoch a) ≤ u64_max); lia]).
  apply hoare_on_slasher. cbn [check_slashable MaxTargetChunk]. unfold max_check_slashable. hoare_step. eapply hoare_lift; [exact Hget|].
  destruct (Z.ltb_spec (target_epoch a) (source_epoch a + D (source_epoch a))) as [Hlt|Hge].
  2:{ hoare_step. split; [by eapply same_view_core; [|done|apply Hsame]|]. split; [by constructor|left; split; [done|lia]]. }
  destruct (Hex ltac:(lia)) as (d & Hd & Hsd & Htd). rewrite <-Htd. eapply hoare_mono.
  - apply (conflict_run v any d L F x1.1 (fun any' => source_epoch any'.(AnyAttestation.inner) <? source_epoch a)
      AttesterSlashingStatus.SurroundedByExisting); [by eapply txn_core; [apply Hsame|apply Hsame|]|by apply HV|lia|done|done|apply Hvote| |].
    + intros any' d' Ht' Hs'%Z.ltb_lt. right. split; [done|]. split; [exact Hs'|]. rewrite Ht', Htd. exact Hlt.
    + intros any' <-. by apply Z.ltb_lt.
  - intros st s' (Hcs & Hb' & Hver). split; [by eapply same_view_core|done].
  - done.
Qed.

Lemma greatest_entered x2 x' stop :
  same_view config MaxT k Bad x x2 → source_epoch a + D (source_epoch a) ≤ target_epoch a → source_epoch a + 1 ≤ stop ≤ c + 1 →
  aswept config MaxT k Bad v (source_epoch a + 1) (stop - 1) (fun e => target_epoch a - e) x2 x' →
  (∀ e, source_epoch a + 1 ≤ e < stop → e + adist config MaxT k x2 v e < target_epoch a) →
  c < stop ∨ target_epoch a ≤ stop + adist config MaxT k x2 v stop →
  voted MaxT (greatest_ok config) (fun d d' => surrounded d d') k v any V F x AttesterSlashingStatus.NotSlashable x'.
Proof using HBad HV Hc Hconfig Hk Hok Htx Hvote Hx.
  intros Hsame Hq Hst [A1 A2 A3 A4 A5] Hlt Hend. destruct (vote_in_window _ _ _ _ _ _ Htx Hvote) as (Hv & Hacc & Hw & Ht & Hcw & Hs0).
  rewrite (same_view_adist MaxT k x x2) in Hend by done.
  assert (∀ v' e, adist config MaxT k x2 v' e = adist config MaxT k x v' e) as Heq by (intros; by apply same_view_adist).
  unfold accuse. split; simpl; rewrite ?app_nil_r; [done|rewrite A4; apply Hsame|done| | |done|].
  - intros v' e Hv' Hne. rewrite A3, Heq; [done|done|by left].
  - apply (greatest_ok_vote config Hconfig D _ c V _ _ stop Hok);
      [split; [exact Hcw|apply Hw]|exact Ht|exact Hs0|exact Hq|exact Hst| | |exact Hend].
    + intros e He. rewrite <-Heq. split; [apply A2; unfold src, source_epoch in *; lia|by apply Hlt].
    + intros e He Hne. rewrite A3, Heq; [done|done|]. right. intros e' He' Hm. apply Hne.
      assert (c - N < first) by (unfold oldest, u64_saturating_sub; lia).
      rewrite (mod_window_inj N c e e'); [unfold src, source_epoch in *; lia|apply history_pos; done|lia..|done].
  - intros d Hd [Hsd Htd]. destruct (ga_bound _ _ _ _ _ (Hok (source_epoch a) ltac:(lia)) d Hd Hsd) as [Hle|]; [|done].
    unfold tgt, target_epoch in *. lia.
Qed.

Lemma max_apply_run :
  hoare (apply_attestation_for_validator config MaxT k v any c) x
    (voted MaxT (greatest_ok config) (fun d d' => surrounded d d') k v any V F x) (aerror Bad).
Proof using HBad HV Hc Hconfig Hk Hok Htx Hvote Hx.
  destruct (vote_in_window _ _ _ _ _ _ Htx Hvote) as (Hv & Hacc & Hw & Ht & Hcw & Hs0).
  pose proof (history_lt config Hconfig) as HN.
  unfold apply_attestation_for_validator. hoare_step. eapply hoare_mono; [apply get_chunk_run; [done|by apply column_range|apply Htx]| |done].
  intros chunk x1 [-> Hsame1]. hoare_step. eapply hoare_mono; [by apply max_check_run| |done].
  intros st x2 [Hsame [Hg [[-> Hq]|[Hne Hca]]]].
  2:{ rewrite bool_decide_eq_false_2 by done. simpl. hoare_step.
      apply voted_flagged; [intros; by eapply greatest_ok_caught|intros; by eapply greatest_ok_weaken|done..]. }
  rewrite bool_decide_eq_true_2 by done. cbn [negb]. hoare_step. cbn [first_start_epoch MaxTargetChunk].
  destruct (Z.ltb_spec (source_epoch a) c) as [Hlt|Hge].
  - assert (se_add (source_epoch a) 1 = source_epoch a + 1) as -> by (unfold se_add, u64_saturating_add, MAX_DISTANCE in *; lia).
    eapply hoare_lift; [done|]. cbv beta iota. hoare_step. eapply hoare_mono.
    + apply (apply_max_run config Hconfig forks max_validators_per_committee max_validators_per_slot Bad HBad k v (target_epoch a) c Hk
        ltac:(lia) (proj2 Hc) (array_fuel config) (source_epoch a + 1) x2);
        [by eapply same_view_ok|apply Hsame|lia|lia|unfold array_fuel; lia|].
      intros e He. rewrite (same_view_adist MaxT k x x2) by done. apply (Hok e). lia.
    + intros [] x' (stop & Hst & Hsw & Hall & Hend). hoare_step. by apply (greatest_entered x2 x' stop).
    + done.
  - eapply hoare_lift; [done|]. cbv beta iota. hoare_step. apply (greatest_entered x2 x2 (source_epoch a + 1)); [done|done|lia| |lia|left; lia].
    apply aswept_nil; [by eapply same_view_ok|lia|]. by split_and!; [|done|apply Hsame|].
Qed.
End greatest.
End apply.

(** ** The interface of an array *)
Class TargetArray (T : TargetArrayChunk (Cache := Cache)) := {
  array_ok : invariant;
  (** [conflicts d d']: entering the vote [d] finds the vote [d']. *)
  conflicts : data → data → Prop;
  set_db : gmap Z Chunk → Tables.t → Tables.t;
  put_chunk_set : ∀ key chunk d, T.(put_chunk) key chunk d = set_db (<[key := chunk]> (T.(select_db) d)) d;
  select_set : ∀ m d, T.(select_db) (set_db m d) = m;
  set_select : ∀ d, set_db (T.(select_db) d) d = d;
  set_set : ∀ m m' d, set_db m (set_db m' d) = set_db m d;
  array_weaken : ∀ D D' e V V' (P P' : Prop),
    array_ok D e V P → (∀ e', oldest config e ≤ e' ≤ e → D' e' = D e') → (∀ d, V' d ↔ V d) → (P → P') → array_ok D' e V' P';
  array_fresh : ∀ D e V P,
    (∀ d, ¬ V d) → (∀ e', oldest config e ≤ e' ≤ e → D e' = T.(neutral_element)) → array_ok D e V P;
  array_advance : ∀ D D' e0 e V P,
    array_ok D e0 V P → 0 ≤ e0 ≤ e → (∀ d, V d → src d ≤ tgt d ≤ e0) → (∀ e', e0 ≤ e' ≤ e → D' e' = T.(neutral_element)) →
    (∀ e', oldest config e ≤ e' < e0 → D' e' = D e') → array_ok D' e V P;
  array_apply : ∀ k v any id V L F x,
    v / K = k → txn L F x.1 → votes_for config c v any.(AnyAttestation.inner) id x.1.(Slasher.tables) → (∀ d, V d → (v, d) ∈ L) →
    view_ok config T k x → array_ok (adist config T k x v) c V (caught F v) →
    hoare (apply_attestation_for_validator config T k v any c) x (voted T array_ok conflicts k v any V F x) (aerror Bad);
}.

Definition set_min_targets (m : gmap Z Chunk) (d : Tables.t) : Tables.t :=
  Tables.mk d.(Tables.schema_version) d.(Tables.config) d.(Tables.attesters) d.(Tables.attesters_max_targets) d.(Tables.indexed_attestations)
    d.(Tables.indexed_attestation_ids) m d.(Tables.max_targets) d.(Tables.current_epochs) d.(Tables.proposers).
Definition set_max_targets (m : gmap Z Chunk) (d : Tables.t) : Tables.t :=
  Tables.mk d.(Tables.schema_version) d.(Tables.config) d.(Tables.attesters) d.(Tables.attesters_max_targets) d.(Tables.indexed_attestations)
    d.(Tables.indexed_attestation_ids) d.(Tables.min_targets) m d.(Tables.current_epochs) d.(Tables.proposers).
#[export] Instance min_array : TargetArray MinT.
Proof using HBad Hc Hconfig.
  refine {| array_ok := least_ok config; conflicts := surrounds; set_db := set_min_targets |}.
  - done.
  - done.
  - by intros [].
  - done.
  - intros. by eapply least_ok_weaken.
  - intros. by apply least_ok_fresh.
  - intros. by eapply least_ok_advance.
  - intros. by eapply min_apply_run.
Defined.
#[export] Instance max_array : TargetArray MaxT.
Proof using HBad Hc Hconfig.
  refine {| array_ok := greatest_ok config; conflicts d d' := surrounds d' d; set_db := set_max_targets |}.
  - done.
  - done.
  - by intros [].
  - done.
  - intros. by eapply greatest_ok_weaken.
  - intros. by apply greatest_ok_fresh.
  - intros. by eapply greatest_ok_advance.
  - intros. by eapply max_apply_run.
Defined.

(** ** Validators and chunks *)
Lemma elem_of_validators k v : v ∈ validator_indices_in_chunk config k ↔ v / K = k.
Proof using Hconfig.
  destruct Hconfig as [_ HK _ _]. unfold validator_indices_in_chunk. rewrite list_elem_of_fmap. split.
  - intros (i & -> & Hi%elem_of_seq). symmetry. apply (Z.div_unique_pos _ _ _ (Z.of_nat i)); lia.
  - intros Hv. pose proof (Z.div_mod v K ltac:(lia)). pose proof (Z.mod_pos_bound v K HK). exists (Z.to_nat (v mod K)).
    rewrite elem_of_seq. subst k. nia.
Qed.
Lemma NoDup_validators k : NoDup (validator_indices_in_chunk config k).
Proof. apply NoDup_fmap_2; [intros i j ?; lia|apply NoDup_seq]. Qed.
Lemma disk_key_inj k ci k' ci' : 0 ≤ ci < N / C → 0 ≤ ci' < N / C → disk_key config k ci = disk_key config k' ci' → k = k' ∧ ci = ci'.
Proof. unfold disk_key. intros H1 H2 Heq. assert (k = k') by nia. subst k'. split; [done|lia]. Qed.
Lemma int_entries_perm {A} (m : gmap Z A) : int_entries m ≡ₚ map_to_list m.
Proof. apply merge_sort_Permutation. Qed.
Lemma elem_of_int_entries {A} (m : gmap Z A) i y : (i, y) ∈ int_entries m ↔ m !! i = Some y.
Proof. rewrite int_entries_perm. apply elem_of_map_to_list. Qed.

(** ** The votes of a batch *)
(** No vote of [M] has a conflict with an earlier one of its validator that [F] misses. *)
Definition no_miss (R : data → data → Prop) (M : list vote) (F : list AnySlashing.t) : Prop := ∀ i j v d d',
  M !! i = Some (v, d') → M !! j = Some (v, d) → (i < j)%nat → R d d' → caught F v.
Lemma no_miss_found R M F F' : no_miss R M F → F ⊆ F' → no_miss R M F'.
Proof. intros HM HF i j v d d' Hi Hj Hij HR. eapply caught_sub; [done|]. by eapply (HM i j). Qed.
Lemma no_miss_snoc R M F F' v d :
  no_miss R M F → F ⊆ F' → (∀ d', (v, d') ∈ M → R d d' → caught F' v) → no_miss R (M ++ [(v, d)]) F'.
Proof.
  intros HM HF Hd i j v' e e' Hi Hj Hij HR. apply lookup_app_Some in Hj as [Hj|[Hlen Hj]].
  - apply lookup_app_Some in Hi as [Hi|[Hlen _]]; [|apply lookup_lt_Some in Hj; lia].
    eapply caught_sub; [done|]. by eapply (HM i j).
  - apply list_lookup_singleton_Some in Hj as [Hj [= -> ->]]. apply lookup_app_Some in Hi as [Hi|[Hi _]]; [|lia].
    by eapply (Hd e'); [eapply list_elem_of_lookup_2|].
Qed.

Definition votes_of (k : Z) (r : IndexedAttesterRecord.t) : list vote :=
  (fun v => (v, (IndexedAttesterRecord.attestation r).(IndexedAttestation.data)))
    <$> attesting_validators_in_chunk config (indices_of r) k.
Abbreviation votes_in k rs := (mjoin (votes_of k <$> rs)).

(** An array as the last batch left it: up to the current epoch of the validator then,
    or as it was made. *)
Definition at_rest (T : TargetArrayChunk (Cache := Cache)) (ok : invariant) (k : Z) (M : list vote) (F : list AnySlashing.t)
    (x : astate) (v : Z) : Prop :=
  match x.1.(Slasher.tables).(Tables.current_epochs) !! v with
  | None => (∀ d, (v, d) ∉ M) ∧ ∀ e, adist config T k x v e = T.(neutral_element)
  | Some c0 => 0 ≤ c0 ≤ c ∧ (∀ d, (v, d) ∈ M → src d ≤ tgt d ≤ c0)
      ∧ ok (adist config T k x v) c0 (fun d => (v, d) ∈ M) (caught F v)
  end.

Section update.
Context (T : TargetArrayChunk (Cache := Cache)) `{!TargetArray T} (k : Z).
Abbreviation rest := (at_rest T array_ok k).
Abbreviation D := (adist config T k).

(** The votes [M] are in the array, for the validators of this chunk. *)
Record entered (M L : list vote) (F : list AnySlashing.t) (x : astate) : Prop := {
  en_view : view_ok config T k x;
  en_ok : ∀ v, v / K = k → array_ok (D x v) c (fun d => (v, d) ∈ M) (caught F v);
  en_miss : no_miss conflicts M F;
  en_txn : txn L F x.1;
  en_sub : M ⊆ L;
}.
Definition may_vote (L : list vote) (d : Tables.t) (a : IndexedAttestation.t) (v : Z) : Prop :=
  v / K = k ∧ (∃ id, votes_for config c v a id d) ∧ (v, a.(IndexedAttestation.data)) ∈ L.

Lemma entered_vote M L F v any x st x' :
  entered M L F x → v / K = k → (v, any.(AnyAttestation.inner).(IndexedAttestation.data)) ∈ L →
  voted T array_ok conflicts k v any (fun d => (v, d) ∈ M) F x st x' →
  entered (M ++ [(v, any.(AnyAttestation.inner).(IndexedAttestation.data))]) L (F ++ accuse st any) x'.
Proof.
  intros [E1 E2 E3 E4 E5] Hv HL [V1 V2 V3 V4 V5 V6 V7]. split; [done| | | |].
  - intros v' Hv'. destruct (decide (v' = v)) as [->|Hne].
    + eapply array_weaken; [apply V5|done| |done]. intros d. rewrite elem_of_app, list_elem_of_singleton. naive_solver.
    + eapply array_weaken; [by apply E2|intros e _; by apply V4| |apply caught_sub, sub_app_l].
      intros d. rewrite elem_of_app, list_elem_of_singleton. naive_solver.
  - eapply no_miss_snoc; [done|apply sub_app_l|done].
  - eapply txn_ok_found; [by eapply txn_core|apply sub_app_l].
  - intros y [Hy| ->%list_elem_of_singleton]%elem_of_app; [by apply E5|done].
Qed.
Lemma entered_found M L F F' x : entered M L F x → F ⊆ F' → entered M L F' x.
Proof.
  intros [E1 E2 E3 E4 E5] HF. split; [done| |by eapply no_miss_found|by eapply txn_ok_found|done].
  intros v Hv. eapply array_weaken; [by apply E2|done|done|by apply caught_sub].
Qed.

Lemma apply_validators_run any L F vs : let a := any.(AnyAttestation.inner) in ∀ M l x,
  entered M L (F ++ l) x → Forall (may_vote L x.1.(Slasher.tables) a) vs → Forall (genuine Acc) l →
  hoare (apply_validators config T k any c vs l) x
    (fun l' x' => entered (M ++ ((fun v => (v, a.(IndexedAttestation.data))) <$> vs)) L (F ++ l') x'
       ∧ Forall (genuine Acc) l' ∧ core x'.1 = core x.1) (aerror Bad).
Proof.
  intros a. induction vs as [|v vs IH]; intros M l x HE Hvs Hl; cbn [apply_validators].
  { hoare_step. simpl. by rewrite app_nil_r. }
  apply Forall_cons_1 in Hvs as [(Hv & (id & Hvo) & HL) Hvs]. hoare_step. eapply hoare_mono.
  - eapply (array_apply k v any id (fun d => (v, d) ∈ M) L (F ++ l) x); [done|apply HE|done|intros d; apply HE|apply HE|by apply HE].
  - intros st x1 Hvt. fold (with_slashing st any l). eapply hoare_mono.
    + apply (IH (M ++ [(v, a.(IndexedAttestation.data))]) (with_slashing st any l) x1).
      * eapply entered_found; [by eapply entered_vote|]. intros y. rewrite !elem_of_app, elem_of_with_slashing. tauto.
      * by rewrite (core_tables _ _ (vt_core _ _ _ _ _ _ _ _ _ _ _ Hvt)).
      * apply with_slashing_genuine; [done|apply Hvt].
    + intros l' x' (HE' & Hg' & Hc'). rewrite <-app_assoc in HE'. split_and!; [done|done|]. rewrite Hc'. apply Hvt.
    + done.
  - done.
Qed.

Definition may_apply (L : list vote) (d : Tables.t) (r : IndexedAttesterRecord.t) : Prop :=
  Forall (may_vote L d (IndexedAttesterRecord.attestation r)) (attesting_validators_in_chunk config (indices_of r) k).
Lemma apply_attestations_run L F rs : ∀ M l x,
  entered M L (F ++ l) x → Forall (may_apply L x.1.(Slasher.tables)) rs → Forall (genuine Acc) l →
  hoare (apply_attestations config T k c rs l) x
    (fun l' x' => entered (M ++ votes_in k rs) L (F ++ l') x' ∧ Forall (genuine Acc) l' ∧ core x'.1 = core x.1) (aerror Bad).
Proof.
  induction rs as [|r rs IH]; intros M l x HE Hrs Hl; cbn [apply_attestations].
  { hoare_step. simpl. by rewrite app_nil_r. }
  apply Forall_cons_1 in Hrs as [Hr Hrs]. hoare_step. eapply hoare_mono; [by apply (apply_validators_run _ L F _ M l x)| |done].
  intros l1 x1 (HE1 & Hg1 & Hc1). eapply hoare_mono; [apply (IH (M ++ votes_of k r) l1 x1); [done| |done]| |done].
  - by rewrite (core_tables _ _ Hc1).
  - intros l' x' (HE' & Hg' & Hc'). simpl. rewrite app_assoc. by rewrite Hc'.
Qed.

(** ** The change of the current epoch *)
Lemma at_rest_ext M F x x' v :
  (∀ e, D x' v e = D x v e) → core x'.1 = core x.1 → rest M F x v → rest M F x' v.
Proof.
  intros HD Hcs. unfold at_rest. rewrite (core_tables _ _ Hcs). destruct (_ !! v) as [c0|].
  - intros (H1 & H2 & H3). split_and!; [lia|lia|done|]. by eapply array_weaken.
  - intros [H1 H2]. split; [done|]. intros e. by rewrite HD.
Qed.

Lemma epoch_update_run M F v x :
  v / K = k → view_ok config T k x → Bad x.1 → rest M F x v →
  hoare (epoch_update_for_validator config T k v c) x
    (fun _ x' => view_ok config T k x' ∧ core x'.1 = core x.1 ∧ Bad x'.1 ∧ (∀ v' e, v' / K = k → v' ≠ v → D x' v' e = D x v' e)
       ∧ array_ok (D x' v) c (fun d => (v, d) ∈ M) (caught F v)) (aerror Bad).
Proof.
  intros Hv Hx Hb Hrest. unfold epoch_update_for_validator. hoare_step. apply hoare_on_slasher.
  apply (hoare_txn_get _ HBad); [done|]. intros s1 Hc1 Hb1. unfold at_rest in Hrest.
  assert (same_view config T k Bad x (s1, x.2)) as Hsame by (by eapply same_view_core).
  destruct (_ !! v) as [c0|].
  - destruct Hrest as (Hc0 & HM & Hok). eapply hoare_mono;
      [apply (epoch_update_loop_run config Hconfig T k Bad HBad v c _ Hv (proj2 Hc) c0 (s1, x.2)); [by eapply same_view_ok|done|lia..]| |done].
    intros [] x' [A1 A2 A3 A4 A5]. split_and!; [done|by rewrite A4|done| |].
    + intros v' e Hv' Hne. rewrite A3; [by apply same_view_adist|done|by left].
    + eapply (array_advance (D x v) (D x' v) c0 c); [done|lia|done|done|]. intros e He.
      rewrite A3; [by apply same_view_adist|done|]. right. intros e' He'. apply mod_window; [by apply history_pos|].
      unfold oldest, u64_saturating_sub in He. lia.
  - destruct Hrest as [HM HD]. hoare_step. split_and!; [by eapply same_view_ok|done|done|intros; by apply same_view_adist|].
    apply array_fresh; [done|]. intros e _. rewrite (same_view_adist T k x) by done. apply HD.
Qed.

Lemma epoch_updates_run M F x :
  view_ok config T k x → Bad x.1 → (∀ v, v / K = k → rest M F x v) →
  hoare (for_each (validator_indices_in_chunk config k) (fun v => epoch_update_for_validator config T k v c)) x
    (fun _ x' => view_ok config T k x' ∧ core x'.1 = core x.1 ∧ Bad x'.1
       ∧ ∀ v, v / K = k → array_ok (D x' v) c (fun d => (v, d) ∈ M) (caught F v)) (aerror Bad).
Proof.
  intros Hx Hb Hrest. eapply hoare_mono.
  - apply (hoare_for_each _ (fun done x' => view_ok config T k x' ∧ core x'.1 = core x.1 ∧ Bad x'.1
      ∧ (∀ v, v ∈ done → array_ok (D x' v) c (fun d => (v, d) ∈ M) (caught F v))
      ∧ (∀ v, v / K = k → v ∉ done → rest M F x' v))).
    { split_and!; [done..|intros v Hv; by apply elem_of_nil in Hv|by intros; apply Hrest]. }
    intros dn v rest x1 Hl (H1 & H2 & H3 & H4 & H5). pose proof (NoDup_validators k) as Hnd. rewrite Hl in Hnd.
    assert (∀ v', v' ∈ dn ++ v :: rest → v' / K = k) as Hin by (intros v'; rewrite <-Hl; by apply elem_of_validators).
    apply list.NoDup_app in Hnd as (_ & Hdn & _). assert (v ∉ dn) as Hv by (intros Hv; apply (Hdn v Hv); by left).
    eapply hoare_mono; [apply (epoch_update_run M F v x1); [apply Hin, elem_of_app; right; by left|done|done|apply H5; [apply Hin, elem_of_app; right; by left|done]]| |done].
    intros [] x2 (G1 & G2 & G3 & G4 & G5). split_and!; [done|by rewrite G2|done| |].
    + intros v' [Hv'| ->%list_elem_of_singleton]%elem_of_app; [|done]. eapply array_weaken; [by apply H4| |done|done].
      intros e _. apply G4; [apply Hin, elem_of_app; by left|by intros ->].
    + intros v' Hk' Hn. rewrite elem_of_app, list_elem_of_singleton in Hn. eapply at_rest_ext; [|done|apply H5; [done|tauto]].
      intros e. apply G4; [done|tauto].
  - intros [] x' (H1 & H2 & H3 & H4 & _). split_and!; [done..|]. intros v Hv. apply H4. by apply elem_of_validators.
  - done.
Qed.

(** ** Storing the chunks *)
(** [m'] is [m] with the chunks [l] of validator chunk [k]. *)
Record stores (l : list (Z * Chunk)) (m m' : gmap Z Chunk) : Prop := {
  st_in : ∀ ci chunk, (ci, chunk) ∈ l → m' !! disk_key config k ci = Some chunk;
  st_out : ∀ key, (∀ ci, ci ∈ l.*1 → key ≠ disk_key config k ci) → m' !! key = m !! key;
}.
Lemma stores_snoc l m m' ci chunk :
  stores l m m' → ci ∉ l.*1 → stores (l ++ [(ci, chunk)]) m (<[disk_key config k ci := chunk]> m').
Proof.
  intros [H1 H2] Hci. split.
  - intros ci' chunk' [Hin|[= -> ->]%list_elem_of_singleton]%elem_of_app; [|apply lookup_insert_eq].
    rewrite lookup_insert_ne; [by apply H1|]. unfold disk_key. intros Heq. assert (ci' = ci) as -> by lia.
    apply Hci. by apply (list_elem_of_fmap_2 fst) in Hin.
  - intros key Hk. rewrite lookup_insert_ne.
    + apply H2. intros ci' Hin. apply Hk. rewrite fmap_app, elem_of_app. by left.
    + intros <-. apply (Hk ci); [|done]. rewrite fmap_app, elem_of_app. right. by left.
Qed.
Lemma store_chunks_run x :
  Bad x.1 →
  hoare (for_each (int_entries x.2) (fun '(ci, chunk) => on_slasher (store config T k ci chunk))) x
    (fun _ x' => ∃ m, x'.1.(Slasher.tables) = set_db m x.1.(Slasher.tables) ∧ outside x'.1 = outside x.1 ∧ Bad x'.1
       ∧ stores (int_entries x.2) (T.(select_db) x.1.(Slasher.tables)) m) (aerror Bad).
Proof.
  intros Hb. apply (hoare_for_each _ (fun done x' => ∃ m, x'.1.(Slasher.tables) = set_db m x.1.(Slasher.tables) ∧ outside x'.1 = outside x.1
    ∧ Bad x'.1 ∧ stores done (T.(select_db) x.1.(Slasher.tables)) m)).
  { eexists. split_and!; [by rewrite set_select|done|done|]. split; [|done]. intros ci chunk Hin. by apply elem_of_nil in Hin. }
  intros dn [ci chunk] rest x1 Hl (m & HT & Ho & Hb1 & Hst). apply hoare_on_slasher, (hoare_txn_put _ HBad); [done|].
  intros s' HT' Ho' Hb'. exists (<[disk_key config k ci := chunk]> m). simpl. split_and!.
  - by rewrite HT', put_chunk_set, HT, select_set, set_set.
  - by rewrite Ho'.
  - done.
  - apply stores_snoc; [done|]. assert (NoDup (int_entries x.2).*1) as Hnd by (rewrite int_entries_perm; apply NoDup_fst_map_to_list).
    rewrite Hl, fmap_app in Hnd. apply list.NoDup_app in Hnd as (_ & Hdn & _). intros Hin. apply (Hdn ci Hin). by left.
Qed.

(** The chunks on disk are those that were loaded. *)
Lemma stored_view x s' m :
  view_ok config T k x → s'.(Slasher.tables) = set_db m x.1.(Slasher.tables) → stores (int_entries x.2) (T.(select_db) x.1.(Slasher.tables)) m →
  view_ok config T k (s', ∅) ∧ (∀ v e, D (s', ∅) v e = D x v e)
  ∧ ∀ k' ci, k' ≠ k → 0 ≤ ci < N / C → m !! disk_key config k' ci = T.(select_db) x.1.(Slasher.tables) !! disk_key config k' ci.
Proof using Hconfig.
  intros [Hs Hk] HT [Hin Hout].
  assert (∀ ci, chunk_at config T k (s', ∅) ci = chunk_at config T k x ci) as Heq.
  { intros ci. unfold chunk_at, stored_chunk. simpl. rewrite HT, select_set. destruct (x.2 !! ci) as [chunk|] eqn:E; simpl.
    - rewrite (Hin ci chunk); [done|by apply elem_of_int_entries].
    - rewrite Hout; [done|]. intros ci' ([ci1 chunk] & -> & Hci)%list_elem_of_fmap. apply elem_of_int_entries in Hci. simpl.
      unfold disk_key. intros ?. assert (ci = ci1) as -> by lia. congruence. }
  split_and!.
  - split; [intros ci; rewrite Heq; apply Hs|]. intros ci [y Hy]. simpl in Hy. by rewrite lookup_empty in Hy.
  - intros v e. unfold adist. by rewrite Heq.
  - intros k' ci Hne Hci. apply Hout. intros ci' ([ci1 chunk] & -> & Hci')%list_elem_of_fmap Hkey. apply Hne.
    apply (disk_key_inj k' ci k ci1); [done| |done]. apply Hk. apply elem_of_int_entries in Hci'. by eexists.
Qed.

(** ** One array *)
Record array_done (M L : list vote) (F : list AnySlashing.t) (s : Slasher.t Cache) (l : list AnySlashing.t) (s' : Slasher.t Cache) : Prop := {
  ad_db : ∃ m, s'.(Slasher.tables) = set_db m s.(Slasher.tables)
    ∧ ∀ k' ci, k' ≠ k → 0 ≤ ci < N / C → m !! disk_key config k' ci = T.(select_db) s.(Slasher.tables) !! disk_key config k' ci;
  ad_outside : outside s' = outside s;
  ad_bad : Bad s';
  ad_view : view_ok config T k (s', ∅);
  ad_ok : ∀ v, v / K = k → array_ok (D (s', ∅) v) c (fun d => (v, d) ∈ M) (caught (F ++ l) v);
  ad_miss : no_miss conflicts M (F ++ l);
  ad_genuine : Forall (genuine Acc) l;
}.
Lemma hoare_with_updated {A} (m : M astate SlasherError.t A) s (Q : A → Slasher.t Cache → Prop) :
  hoare m (s, ∅) (fun a x => Q a x.1) (aerror Bad) → hoare (with_updated m) s Q (error Bad).
Proof. unfold hoare, with_updated. destruct (m (s, ∅)) as [[] []]; done. Qed.
Lemma update_array_run M L F atts s :
  let rs := concat (snd <$> int_entries atts) in
  txn L F s → M ⊆ L → no_miss conflicts M F → view_ok config T k (s, ∅) → (∀ v, v / K = k → rest M F (s, ∅) v) →
  Forall (may_apply L s.(Slasher.tables)) rs →
  hoare (update_array config T k atts c) s (array_done (M ++ votes_in k rs) L F s) (error Bad).
Proof.
  intros rs Htx HM Hmiss Hview Hrest Hrs. unfold update_array. apply hoare_with_updated. hoare_step.
  eapply hoare_mono; [apply (epoch_updates_run M F (s, ∅)); [done|apply Htx|done]| |done].
  intros [] x1 (H1 & H2 & H3 & H4). hoare_step. fold rs. eapply hoare_mono.
  - apply (apply_attestations_run L F rs M [] x1); [|by rewrite (core_tables _ _ H2)|by constructor]. rewrite app_nil_r.
    split; [done|done|done|by eapply txn_core|done].
  - intros l x2 ([E1 E2 E3 E4 E5] & Hg & Hc2). do 3 hoare_step.
    eapply hoare_mono; [apply store_chunks_run, E4| |done]. intros [] x3 (m & HT & Ho & Hb & Hst). hoare_step.
    destruct (stored_view x2 x3.1 m E1 HT Hst) as (G1 & G2 & G3).
    assert (core x2.1 = core s) as Hcs by (by rewrite Hc2, H2). rewrite (core_tables _ _ Hcs) in HT, G3.
    split; [by exists m|by rewrite Ho; apply core_outside|done|done| |done|done].
    intros v Hv. eapply array_weaken; [by apply E2|intros; apply G2|done|done].
  - done.
Qed.
End update.

(** ** Both arrays *)
Lemma elem_of_by_chunk (batch : SimpleBatch) r : r ∈ concat (snd <$> int_entries (by_chunk config batch)) ↔ r ∈ batch.
Proof.
  assert (∀ m : gmap Z SimpleBatch, r ∈ concat (snd <$> int_entries m) ↔ ∃ i l, m !! i = Some l ∧ r ∈ l) as Hm.
  { intros m. rewrite list_elem_of_In, in_concat. setoid_rewrite <-list_elem_of_In. split.
    - intros (l & ([i l'] & -> & Hi)%list_elem_of_fmap & Hr). exists i, l'. by rewrite <-elem_of_int_entries.
    - intros (i & l & Hi & Hr). exists l. split; [|done]. apply list_elem_of_fmap. exists (i, l). by rewrite elem_of_int_entries. }
  rewrite Hm. clear Hm. induction batch as [|r' batch IH] using rev_ind.
  { split; [intros (i & l & Hi & _); unfold by_chunk in Hi; simpl in Hi; by rewrite lookup_empty in Hi|intros Hr; by apply elem_of_nil in Hr]. }
  unfold by_chunk. rewrite foldl_app, elem_of_app, list_elem_of_singleton, <-IH. simpl. fold (by_chunk config batch).
  set (i0 := column _). set (m := by_chunk config batch). split.
  - intros (i & l & Hi & Hr). destruct (decide (i = i0)) as [->|Hne].
    + rewrite lookup_insert_eq in Hi. injection Hi as <-. apply elem_of_app in Hr as [Hr| ->%list_elem_of_singleton]; [|by right].
      left. destruct (m !! i0) as [l|] eqn:E; [by exists i0, l|by apply elem_of_nil in Hr].
    + rewrite lookup_insert_ne in Hi by done. left. by exists i, l.
  - intros [(i & l & Hi & Hr)| ->].
    + destruct (decide (i = i0)) as [->|Hne]; [|exists i, l; by rewrite lookup_insert_ne].
      exists i0, (l ++ [r']). rewrite Hi, lookup_insert_eq. split; [done|]. apply elem_of_app. by left.
    + exists i0, (default [] (m !! i0) ++ [r']). rewrite lookup_insert_eq. split; [done|]. apply elem_of_app. right. by left.
Qed.

(** The two arrays of all validators, as the last batch left them, with the votes [M]. *)
Record arrays_ok (M : list vote) (F : list AnySlashing.t) (s : Slasher.t Cache) : Prop := {
  ao_min_view : ∀ k, view_ok config MinT k (s, ∅);
  ao_max_view : ∀ k, view_ok config MaxT k (s, ∅);
  ao_min_rest : ∀ v, at_rest MinT (least_ok config) (v / K) M F (s, ∅) v;
  ao_max_rest : ∀ v, at_rest MaxT (greatest_ok config) (v / K) M F (s, ∅) v;
  ao_min_miss : no_miss surrounds M F;
  ao_max_miss : no_miss (fun d d' => surrounds d' d) M F;
}.

Lemma view_any (T : TargetArrayChunk (Cache := Cache)) k k' s : view_ok config T k (s, ∅) → view_ok config T k' (s, ∅).
Proof.
  intros [H1 H2]. split; [|done]. intros ci. specialize (H1 (ci + (k' - k) * (N / C))). unfold chunk_at, stored_chunk in *. simpl in *.
  unfold disk_key in *. by replace (k' * (N / C) + ci) with (k * (N / C) + (ci + (k' - k) * (N / C))) by lia.
Qed.
(** A validator whose chunks and current epoch are as before. *)
Lemma at_rest_kept (T : TargetArrayChunk (Cache := Cache)) (ok : invariant) M M' F F' s s' k v :
  (∀ D D' e V V' (P P' : Prop), ok D e V P → (∀ e', oldest config e ≤ e' ≤ e → D' e' = D e') → (∀ d, V' d ↔ V d) → (P → P') → ok D' e V' P') →
  at_rest T ok k M F (s, ∅) v → (∀ d, (v, d) ∈ M' ↔ (v, d) ∈ M) → F ⊆ F' →
  s'.(Slasher.tables).(Tables.current_epochs) !! v = s.(Slasher.tables).(Tables.current_epochs) !! v →
  (∀ ci, 0 ≤ ci < N / C → T.(select_db) s'.(Slasher.tables) !! disk_key config k ci = T.(select_db) s.(Slasher.tables) !! disk_key config k ci) →
  at_rest T ok k M' F' (s', ∅) v.
Proof using Hconfig.
  intros Hlaw Hr HM HF Hcur Hdb. assert (∀ e, adist config T k (s', ∅) v e = adist config T k (s, ∅) v e) as HD.
  { intros e. unfold adist, chunk_at, stored_chunk. simpl. by rewrite Hdb by by apply column_range. }
  revert Hr. unfold at_rest. simpl. rewrite Hcur. destruct (Tables.current_epochs (Slasher.tables s) !! v) as [c0|].
  - intros (H1 & H2 & H3). split_and!; [lia|lia|intros d Hd; by apply H2, HM|]. eapply Hlaw; [done|done|done|by apply caught_sub].
  - intros [H1 H2]. split; [intros d Hd; by eapply H1, HM|]. intros e. by rewrite HD.
Qed.

(** The tables but for the arrays and the current epochs. *)
Definition set_arrays (lo hi : gmap Z Chunk) (epochs : gmap Z Epoch) (d : Tables.t) : Tables.t :=
  Tables.mk d.(Tables.schema_version) d.(Tables.config) d.(Tables.attesters) d.(Tables.attesters_max_targets) d.(Tables.indexed_attestations)
    d.(Tables.indexed_attestation_ids) lo hi epochs d.(Tables.proposers).
Lemma txn_set_arrays L F s s' lo hi epochs :
  txn L F s → s'.(Slasher.tables) = set_arrays lo hi epochs s.(Slasher.tables) → outside s' = outside s → Bad s' → txn L F s'.
Proof.
  intros [H1 H2 H3 [R1 R2 R3 R4 R5] H5] HT Ho Hb. split; [|by rewrite HT|by rewrite HT, (outside_cache _ _ Ho)| |done]; rewrite HT.
  - by eapply store_ok_ext; [| |exact H1].
  - by split.
Qed.

Lemma epochs_run k s :
  Bad s →
  hoare (for_each (validator_indices_in_chunk config k) (fun v => update_current_epoch_for_validator v c)) s
    (fun _ s' => ∃ m, s'.(Slasher.tables) = set_arrays s.(Slasher.tables).(Tables.min_targets) s.(Slasher.tables).(Tables.max_targets) m s.(Slasher.tables)
       ∧ outside s' = outside s ∧ Bad s'
       ∧ ∀ v, m !! v = if decide (v / K = k) then Some c else s.(Slasher.tables).(Tables.current_epochs) !! v) (error Bad).
Proof using HBad Hconfig.
  intros Hb. eapply hoare_mono.
  - apply (hoare_for_each _ (fun done s' => ∃ m,
      s'.(Slasher.tables) = set_arrays s.(Slasher.tables).(Tables.min_targets) s.(Slasher.tables).(Tables.max_targets) m s.(Slasher.tables)
      ∧ outside s' = outside s ∧ Bad s' ∧ ∀ v, m !! v = if decide (v ∈ done) then Some c else s.(Slasher.tables).(Tables.current_epochs) !! v)).
    { exists s.(Slasher.tables).(Tables.current_epochs). split_and!; [by destruct (Slasher.tables s)|done|done|]. intros v. rewrite decide_False; [done|]. intros Hv. by apply elem_of_nil in Hv. }
    intros dn v rest s1 _ (m & HT & Ho & Hb1 & Hm). apply (hoare_txn_put _ HBad); [done|]. intros s2 HT2 Ho2 Hb2.
    exists (<[v := c]> m). split_and!; [by rewrite HT2, HT|by rewrite Ho2|done|]. intros v'.
    destruct (decide (v' = v)) as [->|Hne].
    + rewrite lookup_insert_eq, decide_True; [done|]. apply elem_of_app. right. by left.
    + rewrite lookup_insert_ne, Hm by done. apply decide_ext. rewrite elem_of_app, list_elem_of_singleton. split; [by left|by intros [?|?]].
  - intros [] s' (m & HT & Ho & Hb' & Hm). exists m. split_and!; [done..|]. intros v. rewrite Hm. apply decide_ext. apply elem_of_validators.
  - done.
Qed.

Lemma elem_of_votes_in k rs v d :
  (v, d) ∈ votes_in k rs ↔ v / K = k ∧ ∃ r, r ∈ rs ∧ v ∈ indices_of r ∧ d = (IndexedAttesterRecord.attestation r).(IndexedAttestation.data).
Proof.
  rewrite list_elem_of_join. split.
  - intros (l & Hl & (r & -> & Hr)%list_elem_of_fmap). apply list_elem_of_fmap in Hl as (v' & [= -> ->] & [Hv Hi]%list_elem_of_filter).
    split; [done|]. by exists r.
  - intros (Hv & r & Hr & Hi & ->). exists (votes_of k r). split; [|by apply list_elem_of_fmap_2].
    apply list_elem_of_fmap. exists v. split; [done|]. by apply list_elem_of_filter.
Qed.
(** A validator of the chunk, after the batch. *)
Lemma at_rest_updated (T : TargetArrayChunk (Cache := Cache)) (ok : invariant) M L F k v x :
  v / K = k → txn L F x.1 → M ⊆ L → x.1.(Slasher.tables).(Tables.current_epochs) !! v = Some c →
  ok (adist config T k x v) c (fun d => (v, d) ∈ M) (caught F v) → at_rest T ok k M F x v.
Proof using Hc.
  intros Hv Htx HM Hcur Hok. unfold at_rest. rewrite Hcur. split_and!; [apply Hc|done| |done].
  intros d Hd. destruct Htx as [_ _ _ Hrec _]. destruct (rc_votes _ _ _ _ _ Hrec v d (HM _ Hd)). lia.
Qed.

Lemma may_apply_ext k L L' d d' r :
  d'.(Tables.indexed_attestations) = d.(Tables.indexed_attestations) → L ⊆ L' → may_apply k L d r → may_apply k L' d' r.
Proof.
  intros Hd HL Hr. eapply list.Forall_impl; [exact Hr|]. intros v (Hv & (id & [H1 H2 H3]) & Hin). split_and!; [done| |by apply HL].
  exists id. split; [by rewrite Hd|done|done].
Qed.
Lemma same_db (T : TargetArrayChunk (Cache := Cache)) k s s' :
  T.(select_db) s'.(Slasher.tables) = T.(select_db) s.(Slasher.tables) →
  (∀ v e, adist config T k (s', ∅) v e = adist config T k (s, ∅) v e) ∧ (view_ok config T k (s, ∅) → view_ok config T k (s', ∅)).
Proof.
  intros Hdb. assert (∀ ci, chunk_at config T k (s', ∅) ci = chunk_at config T k (s, ∅) ci) as Heq.
  { intros ci. unfold chunk_at, stored_chunk. simpl. by rewrite Hdb. }
  split; [intros v e; unfold adist; by rewrite Heq|]. intros [H1 H2]. split; [|done]. intros ci. rewrite Heq. apply H1.
Qed.

(** A batch for the chunk [k] went through both arrays. *)
Lemma arrays_updated k M M' L F F' s s' lo hi ep :
  arrays_ok M F s → s'.(Slasher.tables) = set_arrays lo hi ep s.(Slasher.tables) →
  (∀ k' ci, k' ≠ k → 0 ≤ ci < N / C → lo !! disk_key config k' ci = s.(Slasher.tables).(Tables.min_targets) !! disk_key config k' ci) →
  (∀ k' ci, k' ≠ k → 0 ≤ ci < N / C → hi !! disk_key config k' ci = s.(Slasher.tables).(Tables.max_targets) !! disk_key config k' ci) →
  (∀ v, ep !! v = if decide (v / K = k) then Some c else s.(Slasher.tables).(Tables.current_epochs) !! v) →
  view_ok config MinT k (s', ∅) → view_ok config MaxT k (s', ∅) → txn L F' s' → M' ⊆ L → F ⊆ F' →
  (∀ v, v / K = k → least_ok config (adist config MinT k (s', ∅) v) c (fun d => (v, d) ∈ M') (caught F' v)) →
  (∀ v, v / K = k → greatest_ok config (adist config MaxT k (s', ∅) v) c (fun d => (v, d) ∈ M') (caught F' v)) →
  (∀ v d, v / K ≠ k → (v, d) ∈ M' ↔ (v, d) ∈ M) →
  no_miss surrounds M' F' → no_miss (fun d d' => surrounds d' d) M' F' → arrays_ok M' F' s'.
Proof using HBad Hc Hconfig.
  intros [Hv1 Hv2 Hr1 Hr2 Hm1 Hm2] HT Hlo Hhi Hep Hw1 Hw2 Htx HM HF Hok1 Hok2 Hothers Hn1 Hn2.
  split; [intros k'; by eapply (view_any MinT)|intros k'; by eapply (view_any MaxT)| | |done|done].
  - intros v. destruct (decide (v / K = k)) as [Hv|Hv].
    + rewrite Hv. apply (at_rest_updated MinT (least_ok config) M' L); [done|done|done| |by apply Hok1]. simpl. by rewrite HT; simpl; rewrite Hep, decide_True.
    + apply (at_rest_kept MinT (least_ok config) M _ F _ s); [apply least_ok_weaken|done|by intros; apply Hothers|done| |].
      * rewrite HT. simpl. by rewrite Hep, decide_False.
      * intros ci Hci. rewrite HT. by apply Hlo.
  - intros v. destruct (decide (v / K = k)) as [Hv|Hv].
    + rewrite Hv. apply (at_rest_updated MaxT (greatest_ok config) M' L); [done|done|done| |by apply Hok2]. simpl. by rewrite HT; simpl; rewrite Hep, decide_True.
    + apply (at_rest_kept MaxT (greatest_ok config) M _ F _ s); [apply greatest_ok_weaken|done|by intros; apply Hothers|done| |].
      * rewrite HT. simpl. by rewrite Hep, decide_False.
      * intros ci Hci. rewrite HT. by apply Hhi.
Qed.

Record updated (k : Z) (batch : SimpleBatch) (M L : list vote) (F : list AnySlashing.t) (s : Slasher.t Cache) (l : list AnySlashing.t)
    (s' : Slasher.t Cache) : Prop := {
  up_arrays : ∃ M', (∀ y, y ∈ M' ↔ y ∈ M ∨ y ∈ votes_in k batch) ∧ arrays_ok M' (F ++ l) s';
  up_genuine : Forall (genuine Acc) l;
  up_outside : outside s' = outside s;
  up_tables : ∃ lo hi ep, s'.(Slasher.tables) = set_arrays lo hi ep s.(Slasher.tables);
  up_txn : txn L (F ++ l) s';
}.
Lemma update_run k batch M L F s :
  txn L F s → M ⊆ L → arrays_ok M F s → Forall (may_apply k L s.(Slasher.tables)) batch →
  hoare (update config forks max_validators_per_committee max_validators_per_slot k batch c) s (updated k batch M L F s) (error Bad).
Proof using HBad Hc Hconfig.
  intros Htx HM [Hv1 Hv2 Hr1 Hr2 Hm1 Hm2] Hb. set (rs := concat (snd <$> int_entries (by_chunk config batch))).
  assert (Forall (may_apply k L s.(Slasher.tables)) rs) as Hrs.
  { rewrite list.Forall_forall in *. intros r Hr. apply Hb. by apply elem_of_by_chunk. }
  unfold update. hoare_step. eapply hoare_mono;
    [apply (update_array_run MinT k M L F _ s); [done|done|done|done|intros v <-; apply Hr1|done]| |done].
  fold rs. intros l1 s1 [(m1 & HT1 & Hk1) Ho1 Hb1 Hw1 Hok1 Hmiss1 Hg1]. cbn [set_db min_array] in HT1. hoare_step.
  assert (txn L (F ++ l1) s1) as Htx1.
  { eapply txn_ok_found; [|apply sub_app_l]. by eapply txn_set_arrays. }
  eapply hoare_mono; [apply (update_array_run MaxT k M L (F ++ l1) _ s1); [done|done| | | |]| |done].
  { eapply no_miss_found; [exact Hm2|apply sub_app_l]. }
  { apply (same_db MaxT k s s1); [by rewrite HT1|done]. }
  { intros v <-. apply (at_rest_kept MaxT (greatest_ok config) M M F _ s); [apply greatest_ok_weaken|done|done|apply sub_app_l|by rewrite HT1|intros; by rewrite HT1]. }
  { eapply list.Forall_impl; [exact Hrs|]. intros r. apply may_apply_ext; [by rewrite HT1|done]. }
  fold rs. intros l2 s2 [(m2 & HT2 & Hk2) Ho2 Hb2 Hw2 Hok2 Hmiss2 Hg2]. cbn [set_db max_array] in HT2. hoare_step.
  eapply hoare_mono; [by apply epochs_run| |done]. intros [] s3 (ep & HT3 & Ho3 & Hb3 & Hep). hoare_step.
  rewrite HT2, HT1 in HT3. rewrite HT2, HT1 in Hep. rewrite HT1 in Hk2.
  assert (F ++ l1 ⊆ F ++ set_extend l2 l1 ∧ (F ++ l1) ++ l2 ⊆ F ++ set_extend l2 l1) as [HF1 HF2].
  { split; intros y; rewrite !elem_of_app, elem_of_set_extend; tauto. }
  assert (txn L (F ++ set_extend l2 l1) s3) as Htx3.
  { eapply txn_ok_found; [|apply sub_app_l]. eapply txn_set_arrays; [exact Htx|exact HT3|by rewrite Ho3, Ho2|done]. }
  destruct (same_db MinT k s1 s3) as [HD1 HV1]; [by rewrite HT3, HT1|].
  destruct (same_db MaxT k s2 s3) as [HD2 HV2]; [by rewrite HT3, HT2|].
  assert (∀ v d, (v, d) ∈ votes_in k rs ↔ (v, d) ∈ votes_in k batch) as Hvotes.
  { intros v d. rewrite !elem_of_votes_in. split; intros (Hv & r & Hr & ?); (split; [done|]); exists r; (split; [by apply elem_of_by_chunk|done]). }
  split; [|by rewrite list.Forall_forall in *; intros y [?|?]%elem_of_set_extend; auto|by rewrite Ho3, Ho2|by do 3 eexists|done].
  exists (M ++ votes_in k rs). split; [intros [v d]; by rewrite elem_of_app, Hvotes|].
  eapply (arrays_updated k M _ L F _ s s3 m1 m2 ep);
    [by split|done|done|done|done|by apply HV1|by apply HV2|done| |apply sub_app_l| | | | |].
  - intros [v d] [?|Hin]%elem_of_app; [by apply HM|]. apply elem_of_votes_in in Hin as (Hv & r & Hr & Hi & ->).
    rewrite list.Forall_forall in Hrs. specialize (Hrs r Hr). unfold may_apply in Hrs. rewrite list.Forall_forall in Hrs.
    apply Hrs. by apply list_elem_of_filter.
  - intros v Hv. eapply least_ok_weaken; [by apply Hok1|intros; apply HD1|done|by apply caught_sub].
  - intros v Hv. eapply greatest_ok_weaken; [by apply Hok2|intros; apply HD2|done|by apply caught_sub].
  - intros v d Hv. rewrite elem_of_app, elem_of_votes_in. split; [by intros [?|[? _]]|by left].
  - by eapply no_miss_found.
  - by eapply no_miss_found.
Qed.
End surrounds.
