(* ===== verification/SlasherProcess.v ===== *)
(** * Processing the queues of the slasher

    [process_queued] takes the attestations of the queue that are due, keeps for each
    validator and data the largest attestation, stores these, and checks each chunk of
    validators for double votes and surrounds; all in one transaction, which leaves
    the tables alone if the database fails. *)
From stdpp Require Import sorting.
From S2P Require Import Prelude SlotEpoch ProtoArrayDefs ForkChoiceDefs ForkSchedule BeaconStateDefs.
From S2P Require Import ValidatorDefs ShuffleDefs CommitteeDefs SlashingDefs DoppelgangerDefs ValidatorStoreDefs.
From S2P Require Import StateDefs RegistryDefs BlockDefs EpbsDefs OperationsDefs SlashingCorrect SlasherDefs SlasherRecords SlasherArrays SlasherSurrounds.

(** ** The batch *)
Definition data_hash (r : IndexedAttesterRecord.t) : Z := r.(IndexedAttesterRecord.record).(AttesterRecord.attestation_data_hash).
(** The records in [m] are those of attestations of their validators. *)
Definition names (keep : SimpleBatch) (m : gmap (Z * Z) nat) : Prop := ∀ v h p,
  m !! (v, h) = Some p → ∃ r, keep !! p = Some r ∧ v ∈ indices_of r ∧ h = data_hash r.

Lemma queue_validator_spec keep p r m v :
  keep !! p = Some r → v ∈ indices_of r → names keep m →
  names keep (queue_validator keep p r m v) ∧ is_Some (queue_validator keep p r m v !! (v, data_hash r))
  ∧ ∀ k, is_Some (m !! k) → is_Some (queue_validator keep p r m v !! k).
Proof.
  intros Hp Hv Hm. unfold queue_validator. fold (data_hash r).
  assert (names keep (<[(v, data_hash r) := p]> m)) as Hnew.
  { intros v' h' p' Hl. destruct (decide ((v, data_hash r) = (v', h'))) as [[= <- <-]|Hne].
    - rewrite lookup_insert_eq in Hl. injection Hl as <-. by exists r.
    - rewrite lookup_insert_ne in Hl by done. by apply Hm. }
  assert (is_Some (<[(v, data_hash r) := p]> m !! (v, data_hash r)) ∧
    ∀ k, is_Some (m !! k) → is_Some (<[(v, data_hash r) := p]> m !! k)) as Hdom.
  { split; [by rewrite lookup_insert_eq|]. intros k Hk. rewrite lookup_insert_is_Some. destruct (decide ((v, data_hash r) = k)); auto. }
  destruct (m !! (v, data_hash r)) as [q|] eqn:E; [|done].
  assert (is_Some (m !! (v, data_hash r))) as Hin by by eexists.
  destruct (keep !! q) as [e|]; [|done]. by destruct (_ <? _)%nat.
Qed.
Lemma queue_record_spec keep p r m :
  keep !! p = Some r → names keep m →
  names keep (queue_record keep m (p, r)) ∧ (∀ v, v ∈ indices_of r → is_Some (queue_record keep m (p, r) !! (v, data_hash r)))
  ∧ ∀ k, is_Some (m !! k) → is_Some (queue_record keep m (p, r) !! k).
Proof.
  intros Hp. unfold queue_record. simpl.
  assert (∀ l m, l ⊆ indices_of r → names keep m → let m' := foldl (queue_validator keep p r) m l in
    names keep m' ∧ (∀ v, v ∈ l → is_Some (m' !! (v, data_hash r))) ∧ ∀ k, is_Some (m !! k) → is_Some (m' !! k)) as Hfold;
    [|by apply Hfold]. clear m.
  induction l as [|v l IH]; intros m Hsub Hm; simpl.
  { split_and!; [done| |done]. intros v Hv. by apply elem_of_nil in Hv. }
  destruct (queue_validator_spec keep p r m v Hp (Hsub v ltac:(by left)) Hm) as (H1 & H2 & H3).
  destruct (IH (queue_validator keep p r m v)) as (G1 & G2 & G3); [intros v' Hv'; apply Hsub; by right|done|].
  split_and!; [done| |auto]. intros v' [-> |Hv']%elem_of_cons; [by apply G3|by apply G2].
Qed.
Lemma queue_batch_spec keep :
  names keep (queue_batch keep)
  ∧ ∀ p r v, keep !! p = Some r → v ∈ indices_of r → is_Some (queue_batch keep !! (v, data_hash r)).
Proof.
  unfold queue_batch.
  assert (∀ l m, (∀ p r, (p, r) ∈ l → keep !! p = Some r) → names keep m →
    names keep (foldl (queue_record keep) m l)
    ∧ (∀ p r v, (p, r) ∈ l → v ∈ indices_of r → is_Some (foldl (queue_record keep) m l !! (v, data_hash r)))
    ∧ ∀ k, is_Some (m !! k) → is_Some (foldl (queue_record keep) m l !! k)) as Hfold.
  { induction l as [|[p r] l IH]; intros m Hl Hm; simpl.
    { split_and!; [done| |done]. intros p r v Hv. by apply elem_of_nil in Hv. }
    destruct (queue_record_spec keep p r m (Hl p r ltac:(by left)) Hm) as (H1 & H2 & H3).
    destruct (IH (queue_record keep m (p, r))) as (G1 & G2 & G3); [intros p' r' Hr'; apply Hl; by right|done|].
    split_and!; [done| |auto]. intros p' r' v [[= -> ->] |Hr']%elem_of_cons Hv; [by apply G3, H2|by eapply G2]. }
  destruct (Hfold (imap pair keep) ∅) as (H1 & H2 & _).
  - intros p r (i & Hi)%list_elem_of_lookup. rewrite list_lookup_imap in Hi. destruct (keep !! i) eqn:E; [|done]. by injection Hi as <- <-.
  - intros v h p Hl. by rewrite lookup_empty in Hl.
  - split; [done|]. intros p r v Hp Hv. apply (H2 p r v); [|done]. apply list_elem_of_lookup. exists p. by rewrite list_lookup_imap, Hp.
Qed.

(** ** The chunks of validators *)
Lemma elem_of_push_at {A} i (x y : A) l j : y ∈ default [] (push_at i x l !! j) ↔ y ∈ default [] (l !! j) ∨ j = i ∧ y = x.
Proof.
  revert l j. induction i as [|i IH]; intros [|q l] [|j]; simpl; rewrite ?list_elem_of_singleton, ?elem_of_app, ?list_elem_of_singleton;
    try (rewrite elem_of_nil); try (naive_solver lia).
  - rewrite IH. simpl. rewrite elem_of_nil. naive_solver lia.
Qed.
Lemma entries_perm {A} (m : gmap (Z * Z) A) : entries m ≡ₚ map_to_list m.
Proof. apply merge_sort_Permutation. Qed.
Lemma elem_of_group config m i p :
  p ∈ default [] (group_by_validator_chunk_index config m !! i)
  ↔ ∃ v h, m !! (v, h) = Some p ∧ i = Z.to_nat (validator_chunk_index config v).
Proof.
  assert ((∃ v h, ((v, h), p) ∈ entries m ∧ i = Z.to_nat (validator_chunk_index config v))
    ↔ ∃ v h, m !! (v, h) = Some p ∧ i = Z.to_nat (validator_chunk_index config v)) as <-.
  { setoid_rewrite entries_perm. by setoid_rewrite elem_of_map_to_list. }
  unfold group_by_validator_chunk_index.
  assert (∀ l gs, p ∈ default [] (foldl (fun subqueues '((v, _), q) => push_at (Z.to_nat (validator_chunk_index config v)) q subqueues) gs l !! i)
    ↔ p ∈ default [] (gs !! i) ∨ ∃ v h, ((v, h), p) ∈ l ∧ i = Z.to_nat (validator_chunk_index config v)) as ->.
  { induction l as [|[[v h] q] l IH]; intros gs; simpl.
    - setoid_rewrite elem_of_nil. naive_solver.
    - rewrite IH, elem_of_push_at. setoid_rewrite elem_of_cons. naive_solver. }
  simpl. rewrite elem_of_nil. tauto.
Qed.

(** ** What is due *)
Definition votes (rs : SimpleBatch) : list vote :=
  mjoin ((fun r => (fun v => (v, (IndexedAttesterRecord.attestation r).(IndexedAttestation.data))) <$> indices_of r) <$> rs).
Lemma elem_of_votes rs v d :
  (v, d) ∈ votes rs ↔ ∃ r, r ∈ rs ∧ v ∈ indices_of r ∧ d = (IndexedAttesterRecord.attestation r).(IndexedAttestation.data).
Proof.
  unfold votes. rewrite list_elem_of_join. split.
  - intros (l & Hl & (r & -> & Hr)%list_elem_of_fmap). apply list_elem_of_fmap in Hl as (v' & [= -> ->] & Hi). by exists r.
  - intros (r & Hr & Hi & ->). eexists. split; [|by apply list_elem_of_fmap; exists r]. apply list_elem_of_fmap. by exists v.
Qed.
Lemma validate_spec config batch c :
  (∀ r, r ∈ (validate config batch c).1 → r ∈ batch ∧
     let a := IndexedAttesterRecord.attestation r in
     c - config.(SlasherConfig.history_length) < source_epoch a ≤ target_epoch a ∧ target_epoch a ≤ c)
  ∧ (∀ r, r ∈ (validate config batch c).2 → r ∈ batch)
  ∧ (length (validate config batch c).1 + length (validate config batch c).2 ≤ length batch)%nat.
Proof.
  induction batch as [|r batch (IH1 & IH2 & IH3)]; simpl.
  { split_and!; [by intros r Hr%elem_of_nil|by intros r Hr%elem_of_nil|done]. }
  destruct (validate config batch c) as [keep defer]. simpl in *.
  destruct (Z.ltb_spec (target_epoch (IndexedAttesterRecord.attestation r)) (source_epoch (IndexedAttesterRecord.attestation r)));
    [|destruct (Z.leb_spec (se_add (source_epoch (IndexedAttesterRecord.attestation r)) (SlasherConfig.history_length config)) c);
      [|destruct (Z.ltb_spec c (target_epoch (IndexedAttesterRecord.attestation r)))]]; simpl.
  - split_and!; [|intros r' Hr'; right; by apply IH2|lia]. intros r' Hr'. destruct (IH1 r' Hr'). split; [by right|done].
  - split_and!; [|intros r' Hr'; right; by apply IH2|lia]. intros r' Hr'. destruct (IH1 r' Hr'). split; [by right|done].
  - split_and!; [|intros r' [->|Hr']%elem_of_cons; [by left|right; by apply IH2]|lia]. intros r' Hr'. destruct (IH1 r' Hr'). split; [by right|done].
  - split_and!; [|intros r' Hr'; right; by apply IH2|lia]. intros r' [->|Hr']%elem_of_cons.
    + split; [by left|]. unfold se_add, u64_saturating_add in *. lia.
    + destruct (IH1 r' Hr'). split; [by right|done].
Qed.

(** ** Storing attestations *)
Section process.
Context {Cache : Type} `{lru : LruCache Cache, !LruLaws Cache}.
Context (config : SlasherConfig.t) (Hconfig : config_ok config) (forks : ForkSpec.t).
Context (max_validators_per_committee max_validators_per_slot : Z).
Context (data_root : AttestationData.t → Hash256) (header_root : list Z → Hash256 → Z → Hash256).
Context (Hroots : roots_ok data_root header_root).
Context (T0 : Tables.t) (Bad : Slasher.t Cache → Prop) (HBad : leftover Bad).
Context (HBad_cache : ∀ s cache, coherent_roots data_root T0 cache → Bad s → Bad (Slasher.set_root_cache cache s)).
Context (Acc : IndexedAttestation.t → Prop).
Abbreviation typed := (well_typed forks max_validators_per_committee max_validators_per_slot).
Abbreviation record_of a := (attester_record max_validators_per_slot data_root header_root a).
Abbreviation hash_of a := (record_of a).(AttesterRecord.indexed_attestation_hash).
Abbreviation store_good := (store_ok forks max_validators_per_committee max_validators_per_slot data_root header_root Acc).

(** The tables with other attestations. *)
Definition set_store (idx : gmap Z IndexedAttestation.t) (ids : gmap (Z * Z) Z) (d : Tables.t) : Tables.t := Tables.set_ids ids (Tables.set_indexed idx d).
Definition ids_below (m : Z) (T : Tables.t) : Prop := ∀ id a, T.(Tables.indexed_attestations) !! id = Some a → id ≤ m.
(** [T'] is [T] with more attestations. *)
Record grows (T T' : Tables.t) : Prop := {
  gr_frame : T' = set_store T'.(Tables.indexed_attestations) T'.(Tables.indexed_attestation_ids) T;
  gr_sub : T.(Tables.indexed_attestations) ⊆ T'.(Tables.indexed_attestations);
}.
Lemma grows_refl T : grows T T.
Proof. split; [by destruct T|done]. Qed.
Lemma grows_trans T1 T2 T3 : grows T1 T2 → grows T2 T3 → grows T1 T3.
Proof. intros [H1 H2] [H3 H4]. split; [rewrite H3 at 1; by rewrite H1|by etrans]. Qed.

Lemma store_ok_new T id a :
  store_good T → Acc a → typed a → 0 < id → T.(Tables.indexed_attestations) !! id = None →
  T.(Tables.indexed_attestation_ids) !! (target_epoch a, hash_of a) = None →
  store_good (set_store (<[id := a]> T.(Tables.indexed_attestations)) (<[(target_epoch a, hash_of a) := id]> T.(Tables.indexed_attestation_ids)) T).
Proof using Hroots.
  intros [H1 H2] Ha Ht Hid Hnew Hkey. split; simpl.
  - intros id' a' Hl. destruct (decide (id' = id)) as [->|Hne].
    + rewrite lookup_insert_eq in Hl. injection Hl as <-. by rewrite lookup_insert_eq.
    + rewrite lookup_insert_ne in Hl by done. destruct (H1 id' a' Hl) as (G1 & G2 & G3 & G4). split_and!; [done..|].
      rewrite lookup_insert_ne; [done|]. simpl in *. congruence.
  - intros k id' Hl. destruct (decide (k = (target_epoch a, hash_of a))) as [->|Hne].
    + rewrite lookup_insert_eq in Hl. injection Hl as <-. exists a. by rewrite lookup_insert_eq.
    + rewrite lookup_insert_ne in Hl by done. destruct (H2 k id' Hl) as (a' & G1 & G2). exists a'. split; [|done].
      rewrite lookup_insert_ne; [done|]. intros <-. by rewrite Hnew in G1.
Qed.

(** The attestation [a] is in [T'] under [id]. *)
Record kept_as (id : Z) (a : IndexedAttestation.t) (m : Z) (T T' : Tables.t) : Prop := {
  ka_grows : grows T T';
  ka_store : store_good T';
  ka_id : T'.(Tables.indexed_attestations) !! id = Some a;
  ka_below : ids_below (m + 1) T';
  ka_others : ∀ id', id' ≠ id → T'.(Tables.indexed_attestations) !! id' = T.(Tables.indexed_attestations) !! id';
}.
Lemma last_id_spec T m :
  0 ≤ m → store_good T → ids_below m T →
  let id := match last_id T with None => 1 | Some id => id + 1 end in
  0 < id ≤ m + 1 ∧ T.(Tables.indexed_attestations) !! id = None ∧ ∀ id' a, T.(Tables.indexed_attestations) !! id' = Some a → id' < id.
Proof.
  intros Hm Hst Hb. unfold last_id. destruct (max_of _) as [mx|] eqn:E.
  - apply max_of_Some in E as [([i a] & -> & Hi)%list_elem_of_fmap Hmax]. apply elem_of_map_to_list in Hi. simpl in *.
    pose proof (so_stored _ _ _ _ _ _ _ Hst i a Hi) as [Hpos _]. specialize (Hb i a Hi).
    assert (∀ id' a, T.(Tables.indexed_attestations) !! id' = Some a → id' < i + 1) as Hlt.
    { intros id' a' Hl. enough (id' ≤ i) by lia. apply Hmax. apply list_elem_of_fmap. exists (id', a'). by rewrite elem_of_map_to_list. }
    split_and!; [lia|lia| |done]. destruct (_ !! (i + 1)) eqn:El; [|done]. apply Hlt in El. lia.
  - apply max_of_None, fmap_nil_inv, map_to_list_empty_iff in E. rewrite E. split_and!; [lia|lia|done|]. intros id' a Hl. by rewrite lookup_empty in Hl.
Qed.
Lemma store_run a m s :
  store_good s.(Slasher.tables) → Acc a → typed a → ids_below m s.(Slasher.tables) → 0 ≤ m → m + 1 < 2 ^ 48 → Bad s →
  hoare (store_indexed_attestation (hash_of a) a) s
    (fun id s' => kept_as id a m s.(Slasher.tables) s'.(Slasher.tables) ∧ outside s' = outside s ∧ Bad s') (error Bad).
Proof using HBad Hroots.
  intros Hst Ha Ht Hb Hm Hm48 HB. unfold store_indexed_attestation. hoare_step. apply (hoare_txn_get _ HBad); [done|]. intros s1 Hc1 Hb1.
  pose proof (core_tables _ _ Hc1) as HT1. destruct (_ !! _) as [id|] eqn:E.
  - hoare_step. rewrite HT1. split_and!; [|by apply core_outside|done].
    destruct (so_ids _ _ _ _ _ _ _ Hst _ _ E) as (a' & Hl & [= Hte Hh]).
    destruct (so_stored _ _ _ _ _ _ _ Hst _ _ Hl) as (_ & _ & Ht' & _).
    assert (a = a') as <- by by eapply (hash_of_inj forks max_validators_per_committee max_validators_per_slot data_root header_root Hroots).
    split; [apply grows_refl|done|done| |done]. intros id' a' Hl'. specialize (Hb id' a' Hl'). lia.
  - hoare_step. apply (hoare_db_call _ HBad); [done|]. intros s2 Hc2 Hb2. pose proof (core_tables _ _ Hc2) as HT2. rewrite HT1 in HT2.
    hoare_step. apply (hoare_txn_get _ HBad); [done|]. intros s3 Hc3 Hb3. pose proof (core_tables _ _ Hc3) as HT3. rewrite HT2 in *.
    destruct (last_id_spec _ m Hm Hst Hb) as (Hid & Hnone & Hlt). set (id := match last_id _ with Some _ => _ | None => _ end) in *.
    hoare_step. eapply hoare_lift.
    { unfold indexed_attestation_id_new, fits. rewrite (proj2 (Z.ltb_lt id (256 ^ 6))) by lia. done. }
    hoare_step. apply (hoare_txn_put _ HBad); [done|]. intros s4 HT4 Ho4 Hb4. hoare_step. apply (hoare_txn_put _ HBad); [done|].
    intros s5 HT5 Ho5 Hb5. hoare_step. rewrite HT5, HT4, HT3.
    split_and!; [|by rewrite Ho5, Ho4, (core_outside _ _ Hc3), (core_outside _ _ Hc2), (core_outside _ _ Hc1)|done].
    split.
    + split; [done|]. by apply insert_subseteq.
    + refine (store_ok_new (Slasher.tables s) id a Hst Ha Ht _ Hnone E). lia.
    + apply lookup_insert_eq.
    + intros id' a' Hl. simpl in Hl. destruct (decide (id' = id)) as [->|]; [lia|]. rewrite lookup_insert_ne in Hl by done. specialize (Hb id' a' Hl). lia.
    + intros id' Hne. simpl. by rewrite lookup_insert_ne.
Qed.

(** A record of the queue. *)
Record queued (r : IndexedAttesterRecord.t) : Prop := {
  qu_accepted : Acc (IndexedAttesterRecord.attestation r);
  qu_typed : typed (IndexedAttesterRecord.attestation r);
  qu_id : r.(IndexedAttesterRecord.indexed_attestation_id) = 0;
  qu_record : r.(IndexedAttesterRecord.record) = record_of (IndexedAttesterRecord.attestation r);
}.
Record storing (m : Z) (s : Slasher.t Cache) : Prop := {
  sg_store : store_good s.(Slasher.tables);
  sg_sub : T0.(Tables.indexed_attestations) ⊆ s.(Slasher.tables).(Tables.indexed_attestations);
  sg_roots : coherent_roots data_root s.(Slasher.tables) s.(Slasher.root_cache);
  sg_below : ids_below m s.(Slasher.tables);
  sg_bad : Bad s;
}.
Definition saved (T : Tables.t) (r r' : IndexedAttesterRecord.t) : Prop := ∃ id,
  r' = IndexedAttesterRecord.set_indexed_attestation_id id r
  ∧ T.(Tables.indexed_attestations) !! id = Some (IndexedAttesterRecord.attestation r).
Lemma saved_grows T T' r r' : grows T T' → saved T r r' → saved T' r r'.
Proof. intros [_ Hs] (id & -> & Hid). exists id. split; [done|]. by eapply lookup_weaken. Qed.

Lemma storing_cached id a m s s' :
  storing m s → kept_as id a m s.(Slasher.tables) s'.(Slasher.tables) → outside s' = outside s → Bad s' →
  storing (m + 1) (Slasher.set_root_cache (lru_put id (data_root a.(IndexedAttestation.data)) s'.(Slasher.root_cache)) s').
Proof using HBad_cache.
  intros [H1 H2 H3 H4 H5] [[K1 K1'] K2 K3 K4 K5] Ho Hb.
  assert (coherent_roots data_root s'.(Slasher.tables) (lru_put id (data_root a.(IndexedAttestation.data)) s'.(Slasher.root_cache))) as Hco.
  { apply coherent_roots_put.
    - intros id' a' r Hne Ha'. rewrite K5 in Ha' by done. rewrite (outside_cache _ _ Ho). by apply H3.
    - intros a' Ha'. rewrite K3 in Ha'. by injection Ha' as <-. }
  assert (T0.(Tables.indexed_attestations) ⊆ s'.(Slasher.tables).(Tables.indexed_attestations)) as Hsub by by etrans.
  split; [done|done|done|done|]. apply HBad_cache; [|done]. by eapply coherent_roots_sub.
Qed.

Lemma store_record_run r m s :
  storing m s → queued r → 0 ≤ m → m + 1 < 2 ^ 48 →
  hoare (id ← store_indexed_attestation r.(IndexedAttesterRecord.record).(AttesterRecord.indexed_attestation_hash) (IndexedAttesterRecord.attestation r);
         r' ← lift (set_id id r);
         key ← lift (indexed_attestation_id_new id);
         cache_attestation_data_root key r.(IndexedAttesterRecord.record).(AttesterRecord.attestation_data_hash);;
         mret r') s
    (fun r' s' => storing (m + 1) s' ∧ grows s.(Slasher.tables) s'.(Slasher.tables) ∧ beyond s' = beyond s ∧ saved s'.(Slasher.tables) r r')
    (error Bad).
Proof using HBad HBad_cache Hroots.
  intros Hs [Ha Ht Hid Hrec] Hm Hm48. rewrite Hrec. hoare_step.
  eapply hoare_mono; [apply (store_run _ m); [apply Hs|done|done|apply Hs|done|done|apply Hs]| |done].
  intros id s1 (Hk & Ho & Hb). hoare_step. unfold set_id. rewrite Hid, Z.eqb_refl. eapply hoare_lift; [done|]. hoare_step.
  pose proof (ka_below _ _ _ _ _ Hk id _ (ka_id _ _ _ _ _ Hk)) as Hle. eapply hoare_lift.
  { unfold indexed_attestation_id_new, fits. rewrite (proj2 (Z.ltb_lt id (256 ^ 6))) by lia. done. }
  unfold cache_attestation_data_root. hoare_steps. split_and!; [by eapply storing_cached|apply Hk|exact (outside_beyond _ _ Ho)|].
  exists id. split; [done|apply Hk].
Qed.
Lemma storing_later m m' s : storing m s → m ≤ m' → storing m' s.
Proof. intros [H1 H2 H3 H4 H5] Hm. split; [done..| |done]. intros id a Hid. specialize (H4 id a Hid). lia. Qed.

Lemma store_records_run alive keep : ∀ p m s,
  storing m s → Forall queued keep → 0 ≤ m → m + Z.of_nat (length keep) < 2 ^ 48 →
  hoare (store_records alive p keep) s
    (fun stored s' => storing (m + Z.of_nat (length keep)) s' ∧ grows s.(Slasher.tables) s'.(Slasher.tables) ∧ beyond s' = beyond s
       ∧ ∀ q r, keep !! q = Some r → alive (p + q)%nat = true → ∃ r', stored !! q = Some r' ∧ saved s'.(Slasher.tables) r r') (error Bad).
Proof using HBad HBad_cache Hroots.
  induction keep as [|r keep IH]; intros p m s Hs Hq Hm Hm48; cbn [store_records].
  { hoare_step. simpl. rewrite Z.add_0_r. split_and!; [done|apply grows_refl|done|by intros]. }
  apply Forall_cons_1 in Hq as [Hr Hq]. simpl length in *. hoare_step.
  apply (hoare_mono _ _ (fun r' s' => storing (m + 1) s' ∧ grows s.(Slasher.tables) s'.(Slasher.tables) ∧ beyond s' = beyond s
      ∧ (alive p = true → saved s'.(Slasher.tables) r r')) _ (error Bad)).
  - destruct (alive p).
    + eapply hoare_mono; [apply (store_record_run r m s); (done || lia)| |done]. intros r' s' (? & ? & ? & ?). done.
    + hoare_step. split_and!; [eapply storing_later; [done|lia]|apply grows_refl|done|done].
  - intros r' s1 (H1 & H2 & H3 & H4). hoare_step. eapply hoare_mono; [apply (IH (S p) (m + 1) s1); (done || lia)| |done].
    intros rest s2 (G1 & G2 & G3 & G4). hoare_step. split_and!; [eapply storing_later; [done|lia]|by eapply grows_trans|by rewrite G3|].
    intros [|q] r0 Hq0 Hal; simpl in *.
    + injection Hq0 as <-. rewrite Nat.add_0_r in Hal. exists r'. split; [done|]. eapply saved_grows; [done|auto].
    + apply (G4 q r0 Hq0). by rewrite Nat.add_succ_r in Hal.
  - done.
Qed.

(** ** A chunk of validators *)
Section batch.
Context (HBad_found : ∀ s l, Forall (genuine Acc) l → Bad s →
  Bad (Slasher.set_attester_slashings (set_extend l s.(Slasher.attester_slashings)) s)).
(** The slashings found before. *)
Context (F0 : list AnySlashing.t) (c : Epoch) (Hc : 0 ≤ c ∧ c + MAX_DISTANCE ≤ u64_max).
Abbreviation N := (config.(SlasherConfig.history_length)).
Abbreviation K := (config.(SlasherConfig.validator_chunk_size)).
Abbreviation txn := (txn_ok config forks max_validators_per_committee max_validators_per_slot Bad data_root header_root T0 Acc c).
Abbreviation arrays_good := (arrays_ok config forks max_validators_per_committee max_validators_per_slot).
Abbreviation votes_in k rs := (mjoin (votes_of config k <$> rs)).
Definition all_found (s : Slasher.t Cache) : list AnySlashing.t := F0 ++ s.(Slasher.attester_slashings).

Lemma arrays_ok_ext c1 c2 M F F' (s s' : Slasher.t Cache) :
  arrays_good c1 M F s → c1 ≤ c2 → F ⊆ F' →
  s'.(Slasher.tables).(Tables.min_targets) = s.(Slasher.tables).(Tables.min_targets) →
  s'.(Slasher.tables).(Tables.max_targets) = s.(Slasher.tables).(Tables.max_targets) →
  s'.(Slasher.tables).(Tables.current_epochs) = s.(Slasher.tables).(Tables.current_epochs) → arrays_good c2 M F' s'.
Proof using Hconfig.
  intros [H1 H2 H3 H4 H5 H6] Hle HF Hlo Hhi Hcur.
  assert (∀ T ok k v, at_rest config c1 T ok k M F (s, ∅) v → at_rest config c2 T ok k M F (s, ∅) v) as Hlater.
  { intros T ok k v. unfold at_rest. destruct (_ !! v); [|done]. intros (? & ? & ?). split_and!; (done || lia). }
  split; [intros k; apply (same_db config _ k s); [exact Hlo|done]|intros k; apply (same_db config _ k s); [exact Hhi|done]
         | | |by eapply no_miss_found|by eapply no_miss_found].
  - intros v. apply (at_rest_kept config Hconfig c2 _ (least_ok config) M M F F' s); [apply least_ok_weaken|by apply Hlater|done|done|by rewrite Hcur|].
    intros ci _. simpl. by rewrite Hlo.
  - intros v. apply (at_rest_kept config Hconfig c2 _ (greatest_ok config) M M F F' s); [apply greatest_ok_weaken|by apply Hlater|done|done|by rewrite Hcur|].
    intros ci _. simpl. by rewrite Hhi.
Qed.

(** What a batch leaves alone. *)
Definition quiet (s : Slasher.t Cache) : Slasher.t Cache := Slasher.set_attester_slashings [] (beyond s).
Definition metadata (T : Tables.t) : option Z * option (list Z) := (T.(Tables.schema_version), T.(Tables.config)).
Record same_store (s s' : Slasher.t Cache) : Prop := {
  ss_indexed : s'.(Slasher.tables).(Tables.indexed_attestations) = s.(Slasher.tables).(Tables.indexed_attestations);
  ss_ids : s'.(Slasher.tables).(Tables.indexed_attestation_ids) = s.(Slasher.tables).(Tables.indexed_attestation_ids);
  ss_proposers : s'.(Slasher.tables).(Tables.proposers) = s.(Slasher.tables).(Tables.proposers);
  ss_meta : metadata s'.(Slasher.tables) = metadata s.(Slasher.tables);
  ss_quiet : quiet s' = quiet s;
}.
Lemma same_store_refl s : same_store s s.
Proof. done. Qed.
Lemma same_store_trans s1 s2 s3 : same_store s1 s2 → same_store s2 s3 → same_store s1 s3.
Proof. intros [H1 H2 H3 H4 H5] [G1 G2 G3 G4 G5]. split; congruence. Qed.

(** The state between two steps of a batch, with the votes [L] recorded and [M] in the arrays. *)
Record busy (L M : list vote) (s : Slasher.t Cache) : Prop := {
  bs_txn : txn L (all_found s) s;
  bs_arrays : arrays_good c M (all_found s) s;
  bs_sub : M ⊆ L;
}.
(** A stored record of the current window. *)
Record ready (T : Tables.t) (r : IndexedAttesterRecord.t) : Prop := {
  rd_stored : T.(Tables.indexed_attestations) !! r.(IndexedAttesterRecord.indexed_attestation_id) = Some (IndexedAttesterRecord.attestation r);
  rd_record : r.(IndexedAttesterRecord.record) = record_of (IndexedAttesterRecord.attestation r);
  rd_epochs : c - N < source_epoch (IndexedAttesterRecord.attestation r) ≤ target_epoch (IndexedAttesterRecord.attestation r)
    ∧ target_epoch (IndexedAttesterRecord.attestation r) ≤ c;
  rd_id : r.(IndexedAttesterRecord.indexed_attestation_id) < 2 ^ 48;
}.
Lemma ready_same s s' r : same_store s s' → ready s.(Slasher.tables) r → ready s'.(Slasher.tables) r.
Proof. intros Hs [H1 H2 H3 H4]. split; [by rewrite (ss_indexed _ _ Hs)|done..]. Qed.
Lemma ready_votes T k r :
  ready T r →
  Forall (fun v => votes_for config c v (IndexedAttesterRecord.attestation r) r.(IndexedAttesterRecord.indexed_attestation_id) T)
    (attesting_validators_in_chunk config (indices_of r) k).
Proof.
  intros [H1 H2 H3 H4]. apply list.Forall_forall. intros v [_ Hv]%list_elem_of_filter. by split.
Qed.

Lemma found_run L M' l s Q :
  txn L (all_found s ++ l) s → arrays_good c M' (all_found s ++ l) s → M' ⊆ L → Forall (genuine Acc) l →
  (∀ s', busy L M' s' → same_store s s' → Q tt s') → hoare (found l) s Q (error Bad).
Proof using HBad_found Hc Hconfig.
  intros [H1 H2 H3 H4 H5] Ha HM Hl HQ. unfold found. hoare_step.
  assert (all_found s ++ l ⊆ all_found (Slasher.set_attester_slashings (set_extend l s.(Slasher.attester_slashings)) s)) as HF.
  { unfold all_found. simpl. intros y. rewrite !elem_of_app, elem_of_set_extend. tauto. }
  apply HQ; [|done]. split; [|by eapply arrays_ok_ext|done].
  split; [done|done|done|by eapply records_ok_found|by apply HBad_found].
Qed.

Abbreviation votes_checked r k := (id ← lift (indexed_attestation_id_new r.(IndexedAttesterRecord.indexed_attestation_id));
  slashings ← check_double_votes config forks max_validators_per_committee max_validators_per_slot data_root k r.(IndexedAttesterRecord.indexed)
                r.(IndexedAttesterRecord.record) id;
  found slashings).
Lemma double_votes_run k r L M s :
  busy L M s → ready s.(Slasher.tables) r →
  hoare (votes_checked r k) s (fun _ s' => busy (L ++ votes_of config k r) M s' ∧ same_store s s') (error Bad).
Proof using HBad HBad_cache HBad_found Hc Hconfig Hroots.
  intros [Htx Ha HM] Hr. pose proof Hr as [R1 R2 R3 R4]. hoare_step. eapply hoare_lift.
  { unfold indexed_attestation_id_new, fits. rewrite (proj2 (Z.ltb_lt _ (256 ^ 6))) by lia. done. }
  hoare_step. unfold check_double_votes. rewrite R2. eapply hoare_mono.
  - apply (double_vote_loop_run config Hconfig forks max_validators_per_committee max_validators_per_slot Bad HBad data_root header_root
      Hroots T0 HBad_cache Acc c r.(IndexedAttesterRecord.indexed) _ _ L (all_found s) []); [by rewrite app_nil_r|by apply ready_votes|by constructor].
  - intros l s1 (Htx1 & Hl & Hor & Hy). fold (votes_of config k r) in Htx1.
    assert (all_found s1 = all_found s) as HF1.
    { unfold all_found. f_equal. exact (f_equal Slasher.attester_slashings Hy). }
    rewrite <-HF1 in Htx1. unfold only_records in Hor.
    assert (same_store s s1) as Hs1 by (split; [by rewrite Hor..|unfold quiet; by rewrite Hy]).
    eapply found_run; [done| |by intros y Hy'; apply elem_of_app; left; apply HM|done|].
    + eapply arrays_ok_ext; [exact Ha|done|rewrite HF1; apply sub_app_l|by rewrite Hor..].
    + intros s' Hb Hs'. split; [done|by eapply same_store_trans].
  - done.
Qed.

Lemma process_batch_run k batch L M s :
  busy L M s → Forall (ready s.(Slasher.tables)) batch →
  hoare (process_batch config forks max_validators_per_committee max_validators_per_slot data_root k batch c) s
    (fun _ s' => (∃ M', busy (L ++ votes_in k batch) M' s' ∧ ∀ y, y ∈ M' ↔ y ∈ M ∨ y ∈ votes_in k batch) ∧ same_store s s') (error Bad).
Proof using HBad HBad_cache HBad_found Hc Hconfig Hroots.
  intros Hb Hr. unfold process_batch. hoare_step. eapply hoare_mono.
  - apply (hoare_for_each _ (fun dn s' => busy (L ++ votes_in k dn) M s' ∧ same_store s s')).
    { simpl. rewrite app_nil_r. split; [done|apply same_store_refl]. }
    intros dn r rest s1 -> [Hb1 Hs1]. apply Forall_app in Hr as [_ [Hr _]%Forall_cons_1].
    eapply hoare_mono; [apply (double_votes_run k r _ _ s1 Hb1); by eapply ready_same| |done].
    intros [] s2 [Hb2 Hs2]. split; [|by eapply same_store_trans]. rewrite fmap_app, join_app. simpl. by rewrite app_nil_r, app_assoc.
  - intros [] s1 [[Htx1 Ha1 HM1] Hs1]. cbv beta. hoare_step. eapply hoare_mono.
    + apply (update_run config Hconfig forks max_validators_per_committee max_validators_per_slot data_root header_root T0 Bad HBad Acc c Hc k batch
        M _ (all_found s1) s1 Htx1 HM1 Ha1). rewrite list.Forall_forall in *. intros r Hin. apply list.Forall_forall. intros v Hv.
      pose proof (ready_votes _ k r (ready_same _ _ r Hs1 (Hr r Hin))) as Hvo. rewrite list.Forall_forall in Hvo.
      split_and!; [by apply list_elem_of_filter in Hv as [? _]|eexists; by apply Hvo|]. apply elem_of_app. right.
      apply elem_of_votes_in. apply list_elem_of_filter in Hv as [Hk Hv]. split; [done|]. by exists r.
    + intros l s2 [(M' & HM' & Ha') Hg Ho (lo & hi & ep & HT) Htx']. assert (all_found s2 = all_found s1) as HF.
      { unfold all_found. f_equal. exact (f_equal Slasher.attester_slashings Ho). }
      rewrite <-HF in Htx', Ha'. eapply found_run; [done|done| |done|].
      * intros y [Hy|Hy]%HM'; [by apply HM1|apply elem_of_app; by right].
      * intros s' Hb' Hs'. split; [by exists M'|]. eapply same_store_trans; [done|]. eapply same_store_trans; [|done].
        split; [by rewrite HT..|]. unfold quiet. by rewrite (outside_beyond _ _ Ho).
    + done.
  - done.
Qed.

(** ** The queue *)
Lemma saved_ready T m r r' :
  saved T r r' → queued r → ids_below m T → m < 2 ^ 48 →
  c - N < source_epoch (IndexedAttesterRecord.attestation r) ≤ target_epoch (IndexedAttesterRecord.attestation r)
    ∧ target_epoch (IndexedAttesterRecord.attestation r) ≤ c → ready T r'.
Proof.
  intros (id & -> & Hid) [_ _ _ Hrec] Hb Hm He. split; [done|done|done|]. specialize (Hb id _ Hid). simpl. lia.
Qed.
(** The votes of the subqueues are those of the batch. *)
Section grouped.
Context (keep stored : SimpleBatch) (T : Tables.t).
Abbreviation groups := (imap pair (group_by_validator_chunk_index config (queue_batch keep))).
Abbreviation subqueue ps := (omap (fun p => stored !! p) ps).
Context (Hq : Forall queued keep)
  (Hst : ∀ p r v h, queue_batch keep !! (v, h) = Some p → keep !! p = Some r → ∃ r', stored !! p = Some r' ∧ saved T r r').

Lemma elem_of_groups i ps p : (i, ps) ∈ groups → p ∈ ps →
  ∃ v h r r', queue_batch keep !! (v, h) = Some p ∧ i = Z.to_nat (v / K) ∧ keep !! p = Some r ∧ v ∈ indices_of r ∧ h = data_hash r
    ∧ stored !! p = Some r' ∧ saved T r r'.
Proof using Hst.
  intros (j & Hj)%list_elem_of_lookup Hp. rewrite list_lookup_imap in Hj.
  destruct (group_by_validator_chunk_index config (queue_batch keep) !! j) as [ps'|] eqn:E; [|done]. injection Hj as <- <-.
  destruct (proj1 (elem_of_group config (queue_batch keep) j p)) as (v & h & Hl & ->); [by rewrite E|].
  destruct (queue_batch_spec keep) as [Hn _]. destruct (Hn v h p Hl) as (r & Hr & Hv & ->). destruct (Hst p r v _ Hl Hr) as (r' & Hr' & Hs).
  exists v, (data_hash r), r, r'. done.
Qed.
Lemma elem_of_subqueue i ps r' : (i, ps) ∈ groups → r' ∈ subqueue ps → ∃ r, r ∈ keep ∧ saved T r r'.
Proof using Hst.
  intros Hi (p & Hp & Hr')%list_elem_of_omap. destruct (elem_of_groups i ps p Hi Hp) as (v & h & r & r'' & _ & _ & Hr & _ & _ & Hr'' & Hs).
  exists r. assert (r'' = r') as <- by congruence. split; [by eapply list_elem_of_lookup_2|done].
Qed.
Lemma elem_of_grouped_votes y :
  (∃ i ps, (i, ps) ∈ groups ∧ y ∈ votes_in (Z.of_nat i) (subqueue ps)) ↔ y ∈ votes keep.
Proof using Hq Hst Hroots Hconfig.
  destruct y as [v d]. rewrite elem_of_votes. split.
  - intros (i & ps & Hi & (Hk & r' & Hr' & Hv & ->)%elem_of_votes_in). destruct (elem_of_subqueue i ps r' Hi Hr') as (r & Hr & (id & -> & _)).
    by exists r.
  - intros (r & (q & Hr)%list_elem_of_lookup & Hv & ->). destruct (queue_batch_spec keep) as [Hn Hdom].
    destruct (Hdom q r v Hr Hv) as [p Hp]. destruct (Hn _ _ _ Hp) as (r1 & Hr1 & Hv1 & Hh).
    rewrite list.Forall_forall in Hq. pose proof (Hq r ltac:(by eapply list_elem_of_lookup_2)) as [_ Hty _ Hrec].
    pose proof (Hq r1 ltac:(by eapply list_elem_of_lookup_2)) as [_ _ _ Hrec1].
    unfold data_hash in Hh. rewrite Hrec, Hrec1 in Hh. apply (ro_data _ _ Hroots) in Hh. rewrite Hh.
    destruct Hty as (_ & _ & Hidx & _). rewrite list.Forall_forall in Hidx. specialize (Hidx v Hv).
    assert (p ∈ default [] (group_by_validator_chunk_index config (queue_batch keep) !! Z.to_nat (v / K))) as Hg by (apply elem_of_group; by exists v, (data_hash r)).
    destruct (group_by_validator_chunk_index config (queue_batch keep) !! Z.to_nat (v / K)) as [ps|] eqn:E; [|by apply elem_of_nil in Hg].
    destruct (Hst p r1 v _ Hp Hr1) as (r' & Hr' & id & -> & _). exists (Z.to_nat (v / K)), ps. split.
    + apply list_elem_of_lookup. exists (Z.to_nat (v / K)). by rewrite list_lookup_imap, E.
    + apply elem_of_votes_in. rewrite Z2Nat.id by (apply Z.div_pos; [lia|apply Hconfig]). split; [done|].
      exists (IndexedAttesterRecord.set_indexed_attestation_id id r1). split; [|done]. apply list_elem_of_omap. by exists p.
Qed.
End grouped.

Lemma records_ok_grows T T' L F : grows T T' → records_ok config T c L F → records_ok config T' c L F.
Proof.
  intros [Hf Hs] [R1 R2 R3 R4 R5]. assert (∀ v t, rec_at config T' v t = rec_at config T v t) as Hrec by (intros v t; by rewrite Hf).
  split; [by rewrite Hf|done| | |done].
  - intros v t Ht Ht0. rewrite Hrec. by apply R3.
  - intros v t id Ht Ht0. rewrite Hrec. intros Hr. destruct (R4 v t id Ht Ht0 Hr) as (a & (A1 & A2) & Hall). exists a.
    split; [|done]. split; [by eapply lookup_weaken|done].
Qed.
Lemma busy_stored m s s' L M :
  busy L M s → storing m s' → grows s.(Slasher.tables) s'.(Slasher.tables) → beyond s' = beyond s → busy L M s'.
Proof using Hc Hconfig.
  intros [[H1 H2 H3 H4 H5] Ha HM] [S1 S2 S3 S4 S5] Hg Hy. assert (all_found s' = all_found s) as HF.
  { unfold all_found. f_equal. exact (f_equal Slasher.attester_slashings Hy). }
  pose proof (gr_frame _ _ Hg) as Hf. split; [|rewrite HF; eapply arrays_ok_ext; [exact Ha|done|done|by rewrite Hf..]|done].
  split; [done|done|done| |done]. rewrite HF. by eapply records_ok_grows.
Qed.

(** The state with the votes [L] processed, in the records and in the arrays. *)
Definition idle (L : list vote) (s : Slasher.t Cache) : Prop := ∃ M, busy L M s ∧ ∀ y, y ∈ M ↔ y ∈ L.

Lemma subqueues_run (keep stored : SimpleBatch) m L s :
  idle L s → Forall queued keep → m < 2 ^ 48 → ids_below m s.(Slasher.tables) →
  (∀ r, r ∈ keep → let a := IndexedAttesterRecord.attestation r in c - N < source_epoch a ≤ target_epoch a ∧ target_epoch a ≤ c) →
  (∀ p r v h, queue_batch keep !! (v, h) = Some p → keep !! p = Some r → ∃ r', stored !! p = Some r' ∧ saved s.(Slasher.tables) r r') →
  hoare (for_each (imap pair (group_by_validator_chunk_index config (queue_batch keep))) (fun '(i, ps) =>
    process_batch (Cache := Cache) config forks max_validators_per_committee max_validators_per_slot data_root (Z.of_nat i) (omap (fun p => stored !! p) ps) c)) s
    (fun _ s' => ∃ L', idle L' s' ∧ (∀ y, y ∈ L' ↔ y ∈ L ∨ y ∈ votes keep) ∧ same_store s s') (error Bad).
Proof using HBad HBad_cache HBad_found Hc Hconfig Hroots.
  intros Hi Hq Hm Hb Hw Hst. eapply hoare_mono.
  - apply (hoare_for_each _ (fun dn s' => ∃ L', idle L' s' ∧ same_store s s'
      ∧ ∀ y, y ∈ L' ↔ y ∈ L ∨ ∃ i ps, (i, ps) ∈ dn ∧ y ∈ votes_in (Z.of_nat i) (omap (fun p => stored !! p) ps))).
    { exists L. split_and!; [done|done|]. intros y. split; [by left|]. by intros [?|(i & ps & Hn%elem_of_nil & _)]. }
    intros dn [i ps] rest s1 Hl (L1 & (M1 & Hb1 & HM1) & Hs1 & HL1). eapply hoare_mono; [apply (process_batch_run _ _ L1 M1 s1 Hb1)| |done].
    + apply list.Forall_forall. intros r' Hr'. destruct (elem_of_subqueue keep stored s.(Slasher.tables) Hst i ps r') as (r & Hr & Hsv);
        [rewrite Hl; apply elem_of_app; right; by left|done|]. rewrite list.Forall_forall in Hq.
      eapply ready_same; [exact Hs1|]. eapply saved_ready; [done|by apply Hq|done|done|by apply Hw].
    + intros [] s2 ((M2 & Hb2 & HM2) & Hs2). eexists. split_and!; [exists M2; split; [exact Hb2|]| |].
      * intros y. rewrite HM2, elem_of_app, HM1. done.
      * by eapply same_store_trans.
      * intros y. rewrite elem_of_app, HL1. split.
        -- intros [[?|(i' & ps' & Hin & Hy)]|Hy]; [by left|right; exists i', ps'; by rewrite elem_of_app; auto|].
           right. exists i, ps. rewrite elem_of_app. split; [right; by left|done].
        -- intros [?|(i' & ps' & [Hin|[= -> ->]%list_elem_of_singleton]%elem_of_app & Hy)]; [by left; left|left; right; by exists i', ps'|by right].
  - intros [] s' (L' & Hi' & Hs' & HL'). exists L'. split_and!; [done| |done]. intros y. rewrite HL'.
    by rewrite (elem_of_grouped_votes keep stored s.(Slasher.tables)).
  - done.
Qed.

Context (n : Z) (Hn : n < 2 ^ 48)
  (HBad_queue : ∀ s q, Forall queued q → (length q ≤ length s.(Slasher.attestation_queue))%nat → ids_below (n - Z.of_nat (length q)) T0 →
     Bad s → Bad (Slasher.set_attestation_queue q s)).
Lemma alive_spec (m : gmap (Z * Z) nat) v h p : m !! (v, h) = Some p → existsb (fun e => (snd e =? p)%nat) (map_to_list m) = true.
Proof.
  intros Hp. apply existsb_exists. exists ((v, h), p). split; [|apply Nat.eqb_refl]. apply list_elem_of_In. by apply elem_of_map_to_list.
Qed.
Lemma busy_queue q s L M : busy L M s → Bad (Slasher.set_attestation_queue q s) → busy L M (Slasher.set_attestation_queue q s).
Proof using Hc Hconfig.
  intros [[H1 H2 H3 H4 H5] Ha HM] Hb. split; [by split|by eapply arrays_ok_ext|done].
Qed.

Record attestations_done (L : list vote) (s s' : Slasher.t Cache) : Prop := {
  at_idle : ∃ L', idle L' s' ∧ ∀ y, y ∈ L' ↔ y ∈ L ∨ y ∈ votes (validate config s.(Slasher.attestation_queue) c).1;
  at_queue : quiet s' = quiet (Slasher.set_attestation_queue (validate config s.(Slasher.attestation_queue) c).2 s);
  at_proposers : s'.(Slasher.tables).(Tables.proposers) = s.(Slasher.tables).(Tables.proposers);
  at_meta : metadata s'.(Slasher.tables) = metadata s.(Slasher.tables);
  at_below : ids_below (n - Z.of_nat (length (validate config s.(Slasher.attestation_queue) c).2)) s'.(Slasher.tables);
}.
Lemma process_attestations_run L s :
  idle L s → Forall queued s.(Slasher.attestation_queue) → ids_below (n - Z.of_nat (length s.(Slasher.attestation_queue))) s.(Slasher.tables) →
  Z.of_nat (length s.(Slasher.attestation_queue)) ≤ n →
  hoare (process_attestations config forks max_validators_per_committee max_validators_per_slot data_root c) s
    (fun _ s' => attestations_done L s s') (error Bad).
Proof using HBad HBad_cache HBad_found HBad_queue Hc Hconfig Hn Hroots.
  intros (M & Hb & HM) Hq Hbel Hlen. set (q := s.(Slasher.attestation_queue)) in *.
  unfold process_attestations. do 4 hoare_step. fold q. destruct (validate_spec config q c) as (Hkeep & Hdef & Hsum).
  destruct (validate config q c) as [keep defer] eqn:Ev. cbn [fst snd] in Hkeep, Hdef, Hsum.
  rewrite list.Forall_forall in Hq.
  assert (Forall queued keep) as Hqk by (apply list.Forall_forall; intros r Hr; by apply Hq, Hkeep).
  assert (Forall queued defer) as Hqd by (apply list.Forall_forall; intros r Hr; by apply Hq, Hdef).
  do 2 hoare_step. cbn [Slasher.attestation_queue Slasher.set_attestation_queue app].
  set (s1 := Slasher.set_attestation_queue defer _).
  assert (busy L M s1) as Hb1.
  { apply (busy_queue defer s); [done|]. apply HBad_queue; [done|fold q; lia| |apply Hb]. intros id a Hid.
    specialize (Hbel id a (lookup_weaken _ _ _ _ Hid (tx_sub _ _ _ _ _ _ _ _ _ _ _ _ _ (bs_txn _ _ _ Hb)))). lia. }
  hoare_step. set (m := n - Z.of_nat (length q)). eapply hoare_mono.
  - apply (store_records_run _ keep 0 m s1); [|done|lia|lia]. split; [apply Hb1|apply Hb1|apply Hb1|done|apply Hb1].
  - intros stored s2 (Hsg & Hg & Hy & Hst). hoare_step. pose proof (busy_stored _ _ _ _ _ Hb1 Hsg Hg Hy) as Hb2.
    eapply hoare_mono; [apply (subqueues_run keep stored (m + Z.of_nat (length keep)) L s2)| |done].
    + by exists M.
    + done.
    + lia.
    + apply Hsg.
    + intros r Hr. by apply Hkeep.
    + intros p r v h Hp Hr. apply (Hst p r Hr). by eapply alive_spec.
    + intros [] s3 (L' & Hi' & HL' & [H1 H2 H3 H4 H5]). hoare_step. split; fold q; rewrite ?Ev; cbn [fst snd].
      * by exists L'.
      * rewrite H5. unfold quiet. by rewrite Hy.
      * rewrite H3, (gr_frame _ _ Hg). done.
      * rewrite H4, (gr_frame _ _ Hg). done.
      * intros id a. rewrite H1. intros Hid. pose proof (sg_below _ _ Hsg id a Hid). lia.
  - done.
Qed.
End batch.
End process.
