(* ===== verification/SlasherRuns.v ===== *)
(** * Runs of the slasher

    A run starts with an empty database and accepts attestations and blocks, processes
    the queues, prunes and is harvested, with a clock that does not go back and a
    database that may fail at any call.  Every slashing that is found is one of
    accepted messages, and no two conflicting votes that were processed escape. *)
From stdpp Require Import sorting.
From S2P Require Import Prelude SlotEpoch ProtoArrayDefs ForkChoiceDefs ForkSchedule BeaconStateDefs.
From S2P Require Import ValidatorDefs ShuffleDefs CommitteeDefs SlashingDefs DoppelgangerDefs ValidatorStoreDefs.
From S2P Require Import StateDefs RegistryDefs BlockDefs EpbsDefs OperationsDefs StateExample SlasherDefs SlasherRecords SlasherArrays SlasherSurrounds SlasherProcess.

(** ** Proposals *)
Definition proposal_key (h : SignedBeaconBlockHeader.t) : Z * Z :=
  (h.(SignedBeaconBlockHeader.message).(BeaconBlockHeader.slot), h.(SignedBeaconBlockHeader.message).(BeaconBlockHeader.proposer_index)).
(** Two headers for a slot and a proposer. *)
Definition equivocates (x : ProposerSlashing.t) (k : Z * Z) : Prop :=
  x.(ProposerSlashing.signed_header_1) ≠ x.(ProposerSlashing.signed_header_2)
  ∧ proposal_key x.(ProposerSlashing.signed_header_1) = k ∧ proposal_key x.(ProposerSlashing.signed_header_2) = k.
Definition exposed (P : list ProposerSlashing.t) (k : Z * Z) : Prop := ∃ x, x ∈ P ∧ equivocates x k.
Definition genuine_proposal (B : list SignedBeaconBlockHeader.t) (x : ProposerSlashing.t) : Prop :=
  (∃ k, equivocates x k) ∧ x.(ProposerSlashing.signed_header_1) ∈ B ∧ x.(ProposerSlashing.signed_header_2) ∈ B.
Lemma exposed_sub P P' k : P ⊆ P' → exposed P k → exposed P' k.
Proof. intros Hs (x & Hx & He). exists x. auto. Qed.

Section proposals.
Context {Cache : Type}.
Context (Bad : Slasher.t Cache → Prop) (HBad : leftover Bad) (B : list SignedBeaconBlockHeader.t).
(** [first] is the first slot of the history. *)
Record proposals_ok (m : gmap (Z * Z) SignedBeaconBlockHeader.t) (first : Slot) (PL : list SignedBeaconBlockHeader.t)
    (P : list ProposerSlashing.t) : Prop := {
  pp_keys : ∀ k h, m !! k = Some h → k = proposal_key h ∧ h ∈ B;
  pp_seen : ∀ h, h ∈ PL → first ≤ (proposal_key h).1 → ∃ h', m !! proposal_key h = Some h' ∧ (h = h' ∨ exposed P (proposal_key h));
  pp_double : ∀ h h', h ∈ PL → h' ∈ PL → h ≠ h' → proposal_key h = proposal_key h' → exposed P (proposal_key h);
}.
Lemma proposals_found m first PL P P' : proposals_ok m first PL P → P ⊆ P' → proposals_ok m first PL P'.
Proof.
  intros [H1 H2 H3] HP. split; [done| |].
  - intros h Hh Hf. destruct (H2 h Hh Hf) as (h' & Hm & [?|He]); exists h'; [by auto|]. split; [done|right; by eapply exposed_sub].
  - intros h h' Hh Hh' Hne Hk. eapply exposed_sub; [done|]. by apply (H3 h h').
Qed.
Lemma proposals_later m first first' PL P : proposals_ok m first PL P → first ≤ first' → proposals_ok m first' PL P.
Proof. intros [H1 H2 H3] Hf. split; [done| |done]. intros h Hh Hf'. apply H2; [done|lia]. Qed.

(** The header [h] is processed. *)
Definition noted (first : Slot) (PL : list SignedBeaconBlockHeader.t) (h : SignedBeaconBlockHeader.t) : list SignedBeaconBlockHeader.t :=
  if first <=? (proposal_key h).1 then PL ++ [h] else PL.
Lemma elem_of_noted first PL h y : y ∈ noted first PL h ↔ y ∈ PL ∨ y = h ∧ first ≤ (proposal_key h).1.
Proof.
  unfold noted. destruct (Z.leb_spec first (proposal_key h).1); rewrite ?elem_of_app, ?list_elem_of_singleton; naive_solver lia.
Qed.
Lemma proposals_known m first PL P P' h h0 :
  proposals_ok m first PL P → P ⊆ P' → m !! proposal_key h = Some h0 → h = h0 ∨ exposed P' (proposal_key h) →
  proposals_ok m first (noted first PL h) P'.
Proof.
  intros [H1 H2 H3] HP Hm He.
  assert (∀ y, y ∈ PL → first ≤ (proposal_key h).1 → y ≠ h → proposal_key y = proposal_key h → exposed P' (proposal_key h)) as Hnew.
  { intros y Hy Hf Hne Hk. destruct (H2 y Hy ltac:(by rewrite Hk)) as (h' & Hm' & Hy'). rewrite Hk, Hm in Hm'. injection Hm' as <-.
    destruct He as [->|]; [|done]. destruct Hy' as [->|Hy']; [done|]. rewrite Hk in Hy'. by eapply exposed_sub. }
  split; [done| |].
  - intros y [Hy|[-> _]]%elem_of_noted Hf; [|by exists h0]. destruct (H2 y Hy Hf) as (h' & Hm' & [?|Hy']); exists h'; [by auto|].
    split; [done|right; by eapply exposed_sub].
  - intros y y' [Hy|[-> Hf]]%elem_of_noted [Hy'|[-> Hf']]%elem_of_noted Hne Hk; [|by rewrite Hk; apply (Hnew y)|by apply (Hnew y')|done].
    eapply exposed_sub; [done|]. by apply (H3 y y').
Qed.
Lemma proposals_new m first PL P h :
  proposals_ok m first PL P → h ∈ B → m !! proposal_key h = None → proposals_ok (<[proposal_key h := h]> m) first (noted first PL h) P.
Proof.
  intros [H1 H2 H3] HB Hm.
  assert (∀ y, y ∈ PL → first ≤ (proposal_key h).1 → proposal_key y ≠ proposal_key h) as Hnew.
  { intros y Hy Hf Hk. destruct (H2 y Hy ltac:(by rewrite Hk)) as (h' & Hm' & _). congruence. }
  split.
  - intros k y. destruct (decide (proposal_key h = k)) as [<-|Hne]; [rewrite lookup_insert_eq; by intros [= <-]|]. rewrite lookup_insert_ne by done. apply H1.
  - intros y [Hy|[-> _]]%elem_of_noted Hf; [|exists h; rewrite lookup_insert_eq; auto].
    destruct (H2 y Hy Hf) as (h' & Hm' & Hy'). exists h'. rewrite lookup_insert_ne; [done|]. intros Hk. congruence.
  - intros y y' [Hy|[-> Hf]]%elem_of_noted [Hy'|[-> Hf']]%elem_of_noted Hne Hk; [by apply (H3 y y')| | |done].
    + by destruct (Hnew y Hy Hf').
    + by destruct (Hnew y' Hy' Hf).
Qed.

(** The tables and the state but for the proposals. *)
Definition only_proposers (s s' : Slasher.t Cache) : Prop :=
  s'.(Slasher.tables) = Tables.set_proposers s'.(Slasher.tables).(Tables.proposers) s.(Slasher.tables) ∧ outside s' = outside s.
Lemma process_headers_run first P bs : ∀ PL l s,
  Bad s → bs ⊆ B → proposals_ok s.(Slasher.tables).(Tables.proposers) first PL (P ++ l) → Forall (genuine_proposal B) l →
  hoare (process_headers bs l) s
    (fun l' s' => proposals_ok s'.(Slasher.tables).(Tables.proposers) first (foldl (noted first) PL bs) (P ++ l')
       ∧ Forall (genuine_proposal B) l' ∧ only_proposers s s' ∧ Bad s') (error Bad).
Proof using HBad.
  induction bs as [|h bs IH]; intros PL l s Hb Hbs HP Hl; cbn [process_headers].
  { hoare_step. split_and!; [done|done|split; [by destruct (Slasher.tables s)|done]|done]. }
  hoare_step. unfold check_or_insert_block_proposal, get_block_proposal. hoare_step. apply (hoare_txn_get _ HBad); [done|]. intros s1 Hc1 Hb1.
  pose proof (core_tables _ _ Hc1) as HT1. fold (proposal_key h).
  assert (h ∈ B) as HhB by (apply Hbs; by left). assert (bs ⊆ B) as HbsB by (intros y Hy; apply Hbs; by right).
  assert (∀ l' s2, proposals_ok s2.(Slasher.tables).(Tables.proposers) first (noted first PL h) (P ++ l') → Forall (genuine_proposal B) l' →
    only_proposers s s2 → Bad s2 →
    hoare (process_headers bs l') s2 (fun l' s' => proposals_ok s'.(Slasher.tables).(Tables.proposers) first (foldl (noted first) PL (h :: bs)) (P ++ l')
       ∧ Forall (genuine_proposal B) l' ∧ only_proposers s s' ∧ Bad s') (error Bad)) as Hrest.
  { intros l' s2 H2 Hl2 [Ho2 Ho2'] Hb2. eapply hoare_mono; [by apply (IH (noted first PL h) l' s2)| |done].
    intros l3 s3 (G1 & G2 & [G3 G3'] & G4). split_and!; [done|done|split; [by rewrite G3 at 1; rewrite Ho2|by rewrite G3']|done]. }
  destruct (Tables.proposers (Slasher.tables s) !! proposal_key h) as [h0|] eqn:E.
  - assert (only_proposers s s1) as Hs1 by (split; [rewrite HT1; by destruct (Slasher.tables s)|by apply core_outside]).
    destruct (bool_decide_reflect (h0 = h)) as [->|Hne].
    + hoare_step. apply Hrest; [rewrite HT1; by eapply proposals_known; [..|left]|done|done|done].
    + hoare_step. destruct (pp_keys _ _ _ _ HP _ _ E) as [Hk HB0].
      assert (equivocates (ProposerSlashing.mk h0 h) (proposal_key h)) as He by done.
      apply Hrest; [|apply Forall_app; split; [done|constructor; [split; [by eexists|done]|done]]|done|done].
      rewrite HT1, app_assoc. eapply proposals_known; [done|apply sub_app_l|done|right]. eexists. split; [|done]. apply elem_of_app. right. by left.
  - hoare_step. apply (hoare_txn_put _ HBad); [done|]. intros s2 HT2 Ho2 Hb2. hoare_step. rewrite HT1 in HT2.
    apply Hrest; [rewrite HT2; by apply proposals_new|done| |done]. split; [by rewrite HT2|]. rewrite Ho2. by apply core_outside.
Qed.
End proposals.

(** ** Deleting the first entries of a table *)
#[export] Instance pair_key_le_total {V} : Total (@pair_key_le V).
Proof. intros [[a1 a2] v] [[b1 b2] w]. unfold pair_key_le, key_leb. simpl. destruct (Z.ltb_spec a1 b1), (Z.ltb_spec b1 a1), (Z.eqb_spec a1 b1), (Z.eqb_spec b1 a1), (Z.leb_spec a2 b2), (Z.leb_spec b2 a2); simpl; auto; lia. Qed.
#[export] Instance pair_key_le_trans {V} : Transitive (@pair_key_le V).
Proof.
  intros [[a1 a2] u] [[b1 b2] v] [[c1 c2] w]. unfold pair_key_le, key_leb. simpl.
  rewrite !orb_true_iff, !andb_true_iff, !Z.ltb_lt, !Z.eqb_eq, !Z.leb_le. lia.
Qed.
(** A table from which the keys with a first part below [x] are gone. *)
Definition pruned {V} (x : Z) (m m' : gmap (Z * Z) V) : Prop := ∀ k, m' !! k = if k.1 <? x then None else m !! k.
Lemma lookup_foldl_delete {V} (m : gmap (Z * Z) V) ks k :
  foldl (fun m k => delete k m) m ks !! k = if decide (k ∈ ks) then None else m !! k.
Proof.
  revert m. induction ks as [|k' ks IH]; intros m; cbn [foldl]; [by rewrite decide_False by apply not_elem_of_nil|].
  rewrite IH. destruct (decide (k ∈ ks)) as [Hin|Hin]; [by rewrite decide_True by by right|].
  destruct (decide (k = k')) as [->|Hne]; [by rewrite lookup_delete_eq, decide_True by by left|].
  rewrite lookup_delete_ne by done. rewrite decide_False; [done|]. by rewrite elem_of_cons; intros [?|?].
Qed.
Lemma pruned_entries {V} (x : Z) (m : gmap (Z * Z) V) (pre post : list ((Z * Z) * V)) :
  entries m = pre ++ post → Forall (fun e => (e.1.1 <? x) = true) pre → match post with e :: _ => (e.1.1 <? x) = false | [] => True end →
  pruned x m (foldl (fun m k => delete k m) m pre.*1).
Proof.
  intros Hl Hpre Hpost k. rewrite lookup_foldl_delete. rewrite list.Forall_forall in Hpre.
  assert (∀ e, e ∈ post → x ≤ e.1.1) as Hge.
  { assert (StronglySorted pair_key_le (entries m)) as Hs by (apply StronglySorted_merge_sort; apply _).
    rewrite Hl in Hs. apply StronglySorted_app_1_r in Hs. destruct post as [|e0 post]; [by intros e He%elem_of_nil|].
    apply Z.ltb_ge in Hpost. apply StronglySorted_inv in Hs as [_ Hs]. rewrite list.Forall_forall in Hs.
    intros e [->|He]%elem_of_cons; [lia|]. specialize (Hs e He). unfold pair_key_le, key_leb in Hs.
    rewrite orb_true_iff, andb_true_iff, Z.ltb_lt, Z.eqb_eq in Hs. lia. }
  assert (∀ v, m !! k = Some v → (k, v) ∈ pre ∨ (k, v) ∈ post) as Hin.
  { intros v Hv. apply elem_of_app. rewrite <-Hl, entries_perm. by apply elem_of_map_to_list. }
  case_decide as Hk.
  - apply list_elem_of_fmap in Hk as (e & -> & He). by rewrite (Hpre e He).
  - destruct (Z.ltb_spec k.1 x) as [Hlt|]; [|done]. destruct (m !! k) as [v|] eqn:E; [|done]. destruct (Hin v eq_refl) as [Hp|Hp].
    + destruct Hk. by apply (list_elem_of_fmap_2 fst) in Hp.
    + specialize (Hge _ Hp). simpl in Hge. lia.
Qed.
Lemma delete_while_run {Cache V} (Bad : Slasher.t Cache → Prop) (HBad : leftover Bad) p del (l : list ((Z * Z) * V)) : ∀ s,
  Bad s →
  hoare (delete_while p del l) s (fun vs s' => ∃ pre post, l = pre ++ post ∧ vs = pre.*2 ∧ Forall (fun e => p e.1 = true) pre
    ∧ match post with e :: _ => p e.1 = false | [] => True end
    ∧ s'.(Slasher.tables) = foldl (fun d k => del k d) s.(Slasher.tables) pre.*1 ∧ outside s' = outside s ∧ Bad s') (error Bad).
Proof.
  induction l as [|[k v] l IH]; intros s Hb; cbn [delete_while].
  { hoare_step. by exists [], []. }
  hoare_step. apply (hoare_db_call _ HBad); [done|]. intros s1 Hc1 Hb1. destruct (p k) eqn:Ep.
  - hoare_step. apply (hoare_txn_put _ HBad); [done|]. intros s2 HT2 Ho2 Hb2. hoare_step. apply (hoare_db_call _ HBad); [done|]. intros s3 Hc3 Hb3.
    hoare_step. eapply hoare_mono; [by apply IH| |done]. intros vs s4 (pre & post & -> & -> & H1 & H2 & H3 & H4 & H5). hoare_step.
    exists ((k, v) :: pre), post. split_and!; [done|done|by constructor|done| |by rewrite H4, (core_outside _ _ Hc3), Ho2, (core_outside _ _ Hc1)|done].
    simpl. by rewrite H3, (core_tables _ _ Hc3), HT2, (core_tables _ _ Hc1).
  - hoare_step. exists [], ((k, v) :: l). split_and!; [done|done|by constructor|done|by apply core_tables|by apply core_outside|done].
Qed.

Section runs.
Context {Cache : Type} `{lru : LruCache Cache, !LruLaws Cache}.
Context (config : SlasherConfig.t) (Hconfig : config_ok config) (forks : ForkSpec.t).
Context (max_validators_per_committee max_validators_per_slot slots_per_epoch : Z).
Context (data_root : AttestationData.t → Hash256) (header_root : list Z → Hash256 → Z → Hash256).
Context (Hroots : roots_ok data_root header_root).
Context (hash_order : list SignedBeaconBlockHeader.t → list SignedBeaconBlockHeader.t).
(** The order of a set is one of its elements; an epoch has slots. *)
Context (Horder : ∀ l, hash_order l ≡ₚ l) (Hslots : 0 ≤ slots_per_epoch).
Abbreviation N := (config.(SlasherConfig.history_length)).
Abbreviation state := (Slasher.t Cache).
Abbreviation typed := (well_typed forks max_validators_per_committee max_validators_per_slot).
Abbreviation arrays_good := (arrays_ok config forks max_validators_per_committee max_validators_per_slot).
Abbreviation queue_good A := (queued forks max_validators_per_committee max_validators_per_slot data_root header_root (fun a => a ∈ (A : list IndexedAttestation.t))).
Abbreviation store_good A := (store_ok forks max_validators_per_committee max_validators_per_slot data_root header_root (fun a => a ∈ (A : list IndexedAttestation.t))).
Abbreviation truthful A := (genuine (fun a => a ∈ (A : list IndexedAttestation.t))).
Definition first_slot (c : Epoch) : Slot := start_slot (u64_saturating_sub (u64_saturating_add c 1) N) slots_per_epoch.

Lemma first_slot_mono c c' : c ≤ c' → first_slot c ≤ first_slot c'.
Proof using Hslots. intros Hc. unfold first_slot, start_slot, u64_saturating_mul, u64_saturating_sub, u64_saturating_add. nia. Qed.

(** ** States between operations *)
(** What does not depend on the outcome of a transaction: the attestations [A] and the
    blocks [B] were accepted, and the tables are [T]. *)
Record leftovers (A : list IndexedAttestation.t) (B : list SignedBeaconBlockHeader.t) (T : Tables.t) (s : state) : Prop := {
  lo_roots : coherent_roots data_root T s.(Slasher.root_cache);
  lo_slashings : Forall (truthful A) s.(Slasher.attester_slashings);
  lo_proposals : Forall (genuine_proposal B) s.(Slasher.proposer_slashings);
  lo_queue : Forall (queue_good A) s.(Slasher.attestation_queue);
  lo_blocks : s.(Slasher.block_queue) ⊆ B;
  lo_below : ids_below (Z.of_nat (length A) - Z.of_nat (length s.(Slasher.attestation_queue))) T;
  lo_length : (length s.(Slasher.attestation_queue) ≤ length A)%nat;
}.
Lemma leftovers_outside A B T : leftover (leftovers A B T).
Proof.
  intros s s' Ho [H1 H2 H3 H4 H5 H6 H7].
  pose proof (f_equal Slasher.root_cache Ho) as E1. pose proof (f_equal Slasher.attester_slashings Ho) as E2.
  pose proof (f_equal Slasher.proposer_slashings Ho) as E3. pose proof (f_equal Slasher.attestation_queue Ho) as E4.
  pose proof (f_equal Slasher.block_queue Ho) as E5. simpl in *. split; rewrite ?E1, ?E2, ?E3, ?E4, ?E5; done.
Qed.
Lemma leftovers_cache A B T s cache : coherent_roots data_root T cache → leftovers A B T s → leftovers A B T (Slasher.set_root_cache cache s).
Proof. intros Hc [H1 H2 H3 H4 H5 H6 H7]. by split. Qed.
Lemma leftovers_found A B T s l :
  Forall (truthful A) l → leftovers A B T s → leftovers A B T (Slasher.set_attester_slashings (set_extend l s.(Slasher.attester_slashings)) s).
Proof.
  intros Hl [H1 H2 H3 H4 H5 H6 H7]. split; [done| |done..]. simpl. rewrite list.Forall_forall in *. intros y [?|?]%elem_of_set_extend; auto.
Qed.
Lemma leftovers_queue A B T s q :
  Forall (queue_good A) q → (length q ≤ length s.(Slasher.attestation_queue))%nat → ids_below (Z.of_nat (length A) - Z.of_nat (length q)) T →
  leftovers A B T s → leftovers A B T (Slasher.set_attestation_queue q s).
Proof. intros Hq Hn Hb [H1 H2 H3 H4 H5 H6 H7]. split; try done. simpl. lia. Qed.

(** The ghost state: what was accepted, the clock, the votes and the proposals that
    were processed, and what was found. *)
Record history := History {
  accepted : list IndexedAttestation.t;
  headers : list SignedBeaconBlockHeader.t;
  clock : Epoch;
  processed : list vote;
  proposed : list SignedBeaconBlockHeader.t;
  detected : list AnySlashing.t;
  detected_proposals : list ProposerSlashing.t;
}.
Record resting (h : history) (s : state) : Prop := {
  re_left : leftovers h.(accepted) h.(headers) s.(Slasher.tables) s;
  re_store : store_good h.(accepted) s.(Slasher.tables);
  re_records : records_ok config s.(Slasher.tables) h.(clock) h.(processed) h.(detected);
  re_arrays : ∃ M, arrays_good h.(clock) M h.(detected) s ∧ ∀ y, y ∈ M ↔ y ∈ h.(processed);
  re_proposals : proposals_ok h.(headers) s.(Slasher.tables).(Tables.proposers) (first_slot h.(clock)) h.(proposed) h.(detected_proposals);
  re_detected : Forall (truthful h.(accepted)) h.(detected);
  re_detected_proposals : Forall (genuine_proposal h.(headers)) h.(detected_proposals);
  re_found : s.(Slasher.attester_slashings) ⊆ h.(detected);
  re_found_proposals : s.(Slasher.proposer_slashings) ⊆ h.(detected_proposals);
  re_meta : metadata s.(Slasher.tables) = (None, None);
}.

(** ** Transactions *)
Lemma hoare_transaction {A} (m : M state SlasherError.t A) (s : state) (Bad : state → Prop) (Q : A → state → Prop) :
  leftover Bad → Bad s →
  (∀ s1, core s1 = core s → Bad s1 → hoare m s1 (fun a s2 => Bad s2 ∧ ∀ s3, core s3 = core s2 → Bad s3 → Q a s3) (error Bad)) →
  hoare (transaction m) s Q (fun e s' => e = SlasherError.Database ∧ Bad s' ∧ s'.(Slasher.tables) = s.(Slasher.tables)).
Proof.
  intros HBad Hb Hm.
  assert (hoare (db_call;; a ← m; db_call;; mret a) s Q (error Bad)) as Hbody.
  { hoare_step. apply (hoare_db_call _ HBad); [done|]. intros s1 Hc1 Hb1. hoare_step. eapply hoare_mono; [by apply Hm| |done].
    intros a s2 [Hb2 HQ]. hoare_step. apply (hoare_db_call _ HBad); [done|]. intros s3 Hc3 Hb3. hoare_step. by apply HQ. }
  unfold hoare, transaction in *. destruct ((db_call;; _) s) as [[] s']; [done| |done|done].
  destruct Hbody as [-> Hb']. split_and!; [done|by apply (HBad s')|done].
Qed.

(** ** Blocks *)
Lemma leftovers_blocks A B T s : leftovers A B T s → leftovers A B T (Slasher.set_block_queue [] s).
Proof. intros [H1 H2 H3 H4 H5 H6 H7]. split; try done. intros y Hy. by apply elem_of_nil in Hy. Qed.
Lemma leftovers_exposed A B T s l :
  Forall (genuine_proposal B) l → leftovers A B T s →
  leftovers A B T (Slasher.set_proposer_slashings (set_extend l s.(Slasher.proposer_slashings)) s).
Proof.
  intros Hl [H1 H2 H3 H4 H5 H6 H7]. split; try done. simpl. rewrite list.Forall_forall in *. intros y [?|?]%elem_of_set_extend; auto.
Qed.
Definition recent (first : Slot) (bs : list SignedBeaconBlockHeader.t) : list SignedBeaconBlockHeader.t :=
  filter (fun h => first ≤ (proposal_key h).1) bs.
Lemma elem_of_noted_all first bs PL y : y ∈ foldl (noted first) PL bs ↔ y ∈ PL ++ recent first bs.
Proof.
  rewrite elem_of_app. unfold recent. rewrite list_elem_of_filter. revert PL. induction bs as [|b bs IH]; intros PL; simpl.
  - split; [by left|]. intros [?|[_ Hn]]; [done|by apply elem_of_nil in Hn].
  - rewrite IH, elem_of_noted, elem_of_cons. naive_solver.
Qed.
Lemma proposals_ok_ext B m first PL PL' P : (∀ y, y ∈ PL' → y ∈ PL) → proposals_ok B m first PL P → proposals_ok B m first PL' P.
Proof. intros Hs [H1 H2 H3]. split; [done|by auto|]. intros h h' Hh Hh'. by apply H3; apply Hs. Qed.

(** What the blocks leave to the attestations. *)
Record blocks_done (h : history) (c : Epoch) (s s' : state) : Prop := {
  bd_proposals : proposals_ok h.(headers) s'.(Slasher.tables).(Tables.proposers) (first_slot c)
    (h.(proposed) ++ recent (first_slot c) s.(Slasher.block_queue)) (h.(detected_proposals) ++ s'.(Slasher.proposer_slashings));
  bd_tables : s'.(Slasher.tables) = Tables.set_proposers s'.(Slasher.tables).(Tables.proposers) s.(Slasher.tables);
  bd_left : leftovers h.(accepted) h.(headers) s.(Slasher.tables) s';
  bd_cache : s'.(Slasher.root_cache) = s.(Slasher.root_cache);
  bd_slashings : s'.(Slasher.attester_slashings) = s.(Slasher.attester_slashings);
  bd_queue : s'.(Slasher.attestation_queue) = s.(Slasher.attestation_queue);
}.
Lemma process_blocks_run h c s s0 :
  resting h s0 → core s = core s0 → h.(clock) ≤ c →
  hoare (process_blocks hash_order) s (fun _ s' => blocks_done h c s0 s') (error (leftovers h.(accepted) h.(headers) s0.(Slasher.tables))).
Proof using Horder Hslots.
  intros [R1 R2 R3 R4 R5 R6 R7 R8 R9 R10] Hs Hle. pose proof (core_tables _ _ Hs) as HT.
  pose proof (leftovers_outside _ _ _ s0 s (core_outside _ _ Hs) R1) as Hb.
  unfold process_blocks. do 4 hoare_step. set (q := s.(Slasher.block_queue)). hoare_step. eapply hoare_mono.
  - apply (process_headers_run _ (leftovers_outside h.(accepted) h.(headers) s0.(Slasher.tables)) h.(headers) (first_slot c) h.(detected_proposals)
      (hash_order q) h.(proposed) []); [by apply leftovers_blocks| | |by constructor].
    + intros y. rewrite Horder. apply Hb.
    + simpl. rewrite HT, app_nil_r. eapply proposals_later; [done|by apply first_slot_mono].
  - intros l s1 (HP & Hl & [Ho1 Ho2] & Hb1). hoare_steps.
    pose proof (core_outside _ _ Hs) as Hos. assert (q = s0.(Slasher.block_queue)) as Hq by exact (f_equal Slasher.block_queue Hs).
    split.
    + eapply proposals_ok_ext; [|eapply proposals_found; [exact HP|]].
      * intros y. rewrite elem_of_noted_all. unfold recent. rewrite Horder, Hq. done.
      * simpl. intros y. rewrite !elem_of_app, elem_of_set_extend. tauto.
    + simpl in *. by rewrite Ho1, HT at 1.
    + by apply leftovers_exposed.
    + exact (eq_trans (f_equal Slasher.root_cache Ho2) (f_equal Slasher.root_cache Hs)).
    + exact (eq_trans (f_equal Slasher.attester_slashings Ho2) (f_equal Slasher.attester_slashings Hs)).
    + exact (eq_trans (f_equal Slasher.attestation_queue Ho2) (f_equal Slasher.attestation_queue Hs)).
  - done.
Qed.

(** ** The queues *)
(** The history after a call at epoch [c] that took the state from [s] to [s']. *)
Definition after_process (h : history) (c : Epoch) (s s' : state) : history :=
  History h.(accepted) h.(headers) c (h.(processed) ++ votes (validate config s.(Slasher.attestation_queue) c).1)
    (h.(proposed) ++ recent (first_slot c) s.(Slasher.block_queue)) (h.(detected) ++ s'.(Slasher.attester_slashings))
    (h.(detected_proposals) ++ s'.(Slasher.proposer_slashings)).
Definition ticked (h : history) (c : Epoch) (s' : state) : history :=
  History h.(accepted) h.(headers) c h.(processed) h.(proposed) (h.(detected) ++ s'.(Slasher.attester_slashings))
    (h.(detected_proposals) ++ s'.(Slasher.proposer_slashings)).

Lemma records_ok_ext T c L L' F : (∀ y, y ∈ L' ↔ y ∈ L) → records_ok config T c L F → records_ok config T c L' F.
Proof.
  intros HL [R1 R2 R3 R4 R5]. split; [done| | | |].
  - intros v d Hd. apply (R2 v). by apply HL.
  - intros v t Ht Ht0 Hr d Hd. eapply R3; [done..|by apply HL].
  - intros v t id Ht Ht0 Hr. destruct (R4 v t id Ht Ht0 Hr) as (a & Ha & Hall). exists a. split; [done|]. intros d Hd. apply Hall. by apply HL.
  - intros v d d' Hd Hd'. apply (R5 v d d'); by apply HL.
Qed.

Lemma resting_ticked h c s s' :
  resting h s → h.(clock) ≤ c → leftovers h.(accepted) h.(headers) s.(Slasher.tables) s' → s'.(Slasher.tables) = s.(Slasher.tables) →
  resting (ticked h c s') s'.
Proof using Hconfig Hslots.
  intros [R1 R2 R3 (M & R4 & HM) R5 R6 R7 R8 R9 R10] Hle Hl HT. split; simpl; rewrite ?HT; [done|done| | | | | | | |done].
  - eapply records_ok_found; [by eapply records_ok_later|apply sub_app_l].
  - exists M. split; [|done]. eapply arrays_ok_ext; [done|exact R4|done|apply sub_app_l|by rewrite HT..].
  - eapply proposals_found; [|apply sub_app_l]. eapply proposals_later; [done|by apply first_slot_mono].
  - apply Forall_app. split; [done|apply Hl].
  - apply Forall_app. split; [done|apply Hl].
  - apply sub_app_r.
  - apply sub_app_r.
Qed.

Lemma resting_core h s s' : core s' = core s → resting h s → resting h s'.
Proof using Hconfig.
  intros Hs [R1 R2 R3 (M & R4 & HM) R5 R6 R7 R8 R9 R10]. pose proof (core_tables _ _ Hs) as HT.
  pose proof (f_equal Slasher.attester_slashings Hs) as E1. pose proof (f_equal Slasher.proposer_slashings Hs) as E2. simpl in E1, E2.
  split; rewrite ?HT, ?E1, ?E2; try done; [by eapply leftovers_outside; [apply core_outside|]|].
  exists M. split; [|done]. eapply arrays_ok_ext; [done|exact R4|done|done|by rewrite HT..].
Qed.

Section process.
Context (h : history) (c : Epoch) (s : state) (Hrest : resting h s) (Hle : h.(clock) ≤ c).
Context (Hc : 0 ≤ c ∧ c + MAX_DISTANCE ≤ u64_max) (Hn : Z.of_nat (length h.(accepted)) < 2 ^ 48).
Abbreviation Bad := (leftovers h.(accepted) h.(headers) s.(Slasher.tables)).
Abbreviation Acc := (fun a => a ∈ h.(accepted)).
Abbreviation calm := (idle config forks max_validators_per_committee max_validators_per_slot data_root header_root s.(Slasher.tables) Bad Acc h.(detected) c).

Lemma blocks_calm s1 : blocks_done h c s s1 → calm h.(processed) s1.
Proof using Hc Hconfig Hle Hrest Hslots.
  intros [B1 B2 B3 B4 B5 B6]. destruct Hrest as [R1 R2 R3 (M & R4 & HM) R5 R6 R7 R8 R9 R10].
  assert (h.(detected) ⊆ all_found h.(detected) s1) as HF by apply sub_app_l.
  exists M. split; [|done]. split; [|eapply arrays_ok_ext; [done|exact R4|done|done|by rewrite B2..]|by intros y; apply HM].
  split; [|by rewrite B2| |eapply records_ok_found; [|done]|done].
  - eapply store_ok_ext; [| |exact R2]; by rewrite B2.
  - intros id a r. rewrite B2, B4. apply R1.
  - eapply records_ok_later; [|exact Hle]. rewrite B2. destruct R3 as [? ? ? ? ?]. by split.
Qed.
Lemma resting_process s1 s' :
  blocks_done h c s s1 →
  attestations_done config forks max_validators_per_committee max_validators_per_slot data_root header_root s.(Slasher.tables) Bad Acc h.(detected) c
    (Z.of_nat (length h.(accepted))) h.(processed) s1 s' →
  resting (after_process h c s s') s'.
Proof using Hrest.
  intros [B1 B2 B3 B4 B5 B6] [(L & (M & [[X1 X2 X3 X4 X5] Ha HM] & HML) & HL) A2 A3 Am A4]. rewrite B6 in *.
  pose proof (f_equal Slasher.proposer_slashings A2) as Ep. pose proof (f_equal Slasher.attestation_queue A2) as Eq.
  pose proof (f_equal Slasher.block_queue A2) as Eb. simpl in Ep, Eq, Eb. destruct X5 as [L1 L2 L3 L4 L5 L6 L7].
  assert (∀ y, y ∈ h.(processed) ++ votes (validate config s.(Slasher.attestation_queue) c).1 ↔ y ∈ L) as HL' by (intros y; by rewrite elem_of_app, HL).
  split; simpl.
  - split; try done. by rewrite Eq.
  - done.
  - eapply records_ok_ext; [|exact X4]. done.
  - exists M. split; [done|]. intros y. by rewrite HML, HL'.
  - rewrite A3, Ep. done.
  - apply Forall_app. split; [apply Hrest|done].
  - apply Forall_app. split; [apply Hrest|done].
  - apply sub_app_r.
  - apply sub_app_r.
  - rewrite Am, B2. apply Hrest.
Qed.
Lemma process_queued_run :
  hoare (process_queued config forks max_validators_per_committee max_validators_per_slot data_root hash_order c) s
    (fun _ s' => resting (after_process h c s s') s' ∧ s'.(Slasher.attestation_queue) = (validate config s.(Slasher.attestation_queue) c).2)
    (fun e s' => e = SlasherError.Database ∧ resting (ticked h c s') s').
Proof using Hc Hconfig Hle Hn Horder Hrest Hroots Hslots.
  eapply hoare_mono.
  - apply (hoare_transaction _ s Bad (fun _ s' => resting (after_process h c s s') s'
      ∧ s'.(Slasher.attestation_queue) = (validate config s.(Slasher.attestation_queue) c).2)); [apply leftovers_outside|apply Hrest|].
    intros s1 Hc1 Hb1. hoare_step. eapply hoare_mono; [by apply process_blocks_run| |done].
    intros [np ns] s2 Hbd. hoare_step. pose proof Hbd as [B1 B2 B3 B4 B5 B6]. eapply hoare_mono.
    + apply (process_attestations_run config Hconfig forks max_validators_per_committee max_validators_per_slot data_root header_root Hroots
        s.(Slasher.tables) Bad (leftovers_outside _ _ _) (leftovers_cache _ _ _) Acc (leftovers_found _ _ _) h.(detected) c Hc
        (Z.of_nat (length h.(accepted))) Hn (leftovers_queue _ _ _) h.(processed) s2);
        [by apply blocks_calm|apply B3| |destruct B3; lia].
      intros id a. rewrite B2. simpl. apply B3.
    + intros k s3 Hdone. hoare_step. split; [by destruct Hdone as [(? & (? & [[] _ _] & _) & _) _ _ _ _]|].
      intros s4 Hc4 Hb4. assert (after_process h c s s4 = after_process h c s s3) as ->.
      { unfold after_process. f_equal; f_equal; [exact (f_equal Slasher.attester_slashings Hc4)|exact (f_equal Slasher.proposer_slashings Hc4)]. }
      split; [by eapply resting_core, resting_process|]. pose proof (f_equal Slasher.attestation_queue Hc4) as E4. simpl in E4. rewrite E4, <-B6.
      exact (f_equal Slasher.attestation_queue (at_queue _ _ _ _ _ _ _ _ _ _ _ _ _ _ _ Hdone)).
    + done.
  - done.
  - intros e s' (-> & Hb & HT). split; [done|]. by eapply resting_ticked.
Qed.
End process.

(** ** Pruning *)
Section prune.
Context (Bad : state → Prop) (HBad : leftover Bad).
Lemma prune_proposers_run c s :
  Bad s →
  hoare (prune_proposers config slots_per_epoch c) s
    (fun _ s' => ∃ m', s'.(Slasher.tables) = Tables.set_proposers m' s.(Slasher.tables)
       ∧ pruned (first_slot c) s.(Slasher.tables).(Tables.proposers) m' ∧ outside s' = outside s ∧ Bad s') (error Bad).
Proof using HBad.
  intros Hb. unfold prune_proposers. hoare_step. apply (hoare_db_call _ HBad); [done|]. intros s1 Hc1 Hb1.
  hoare_step. apply (hoare_txn_get _ HBad); [done|]. intros s2 Hc2 Hb2. hoare_step. rewrite Hc1 in Hc2.
  eapply hoare_mono; [by apply (delete_while_run _ HBad)| |done]. intros vs s3 (pre & post & Hl & _ & Hpre & Hpost & HT & Ho & Hb3). hoare_step.
  rewrite (core_tables _ _ Hc1) in Hl. rewrite (core_tables _ _ Hc2) in HT.
  exists (foldl (fun m k => delete k m) s.(Slasher.tables).(Tables.proposers) pre.*1).
  split_and!; [|by eapply pruned_entries|by rewrite Ho; apply core_outside|done]. rewrite HT. generalize (Slasher.tables s). clear.
  induction pre as [|[k v] pre IH]; intros T; simpl; [by destruct T|]. by rewrite IH.
Qed.

(** The identifiers of the attestations with a target below [x]. *)
Definition outdated (x : Epoch) (T : Tables.t) (id : Z) : Prop := ∃ k, T.(Tables.indexed_attestation_ids) !! k = Some id ∧ k.1 < x.
Record indexed_pruned (x : Epoch) (T T' : Tables.t) : Prop := {
  ip_frame : T' = set_store T'.(Tables.indexed_attestations) T'.(Tables.indexed_attestation_ids) T;
  ip_ids : pruned x T.(Tables.indexed_attestation_ids) T'.(Tables.indexed_attestation_ids);
  ip_gone : ∀ id, outdated x T id → T'.(Tables.indexed_attestations) !! id = None;
  ip_kept : ∀ id, ¬ outdated x T id → T'.(Tables.indexed_attestations) !! id = T.(Tables.indexed_attestations) !! id;
}.
Lemma delete_indexed_run (ids : list Z) s :
  Bad s →
  hoare (for_each ids (fun id => txn_put (fun d => Tables.set_indexed (delete id d.(Tables.indexed_attestations)) d))) s
    (fun _ s' => ∃ m', s'.(Slasher.tables) = Tables.set_indexed m' s.(Slasher.tables) ∧ outside s' = outside s ∧ Bad s'
       ∧ ∀ id, m' !! id = if decide (id ∈ ids) then None else s.(Slasher.tables).(Tables.indexed_attestations) !! id) (error Bad).
Proof using HBad.
  intros Hb. pose (I := fun (dn : list Z) s' => ∃ m', s'.(Slasher.tables) = Tables.set_indexed m' s.(Slasher.tables) ∧ outside s' = outside s
    ∧ Bad s' ∧ ∀ id, m' !! id = if decide (id ∈ dn) then None else s.(Slasher.tables).(Tables.indexed_attestations) !! id).
  apply (hoare_for_each _ I).
  { exists s.(Slasher.tables).(Tables.indexed_attestations). split_and!; [by destruct (Slasher.tables s)|done|done|].
    intros id. by rewrite decide_False by apply not_elem_of_nil. }
  intros dn id rest s1 _ (m & HT & Ho & Hb1 & Hm). apply (hoare_txn_put _ HBad); [done|]. intros s2 HT2 Ho2 Hb2.
  exists (delete id m). split_and!; [by rewrite HT2, HT|by rewrite Ho2|done|]. intros id'.
  destruct (decide (id' = id)) as [->|Hne].
  - rewrite lookup_delete_eq, decide_True; [done|]. apply elem_of_app. right. by left.
  - rewrite lookup_delete_ne, Hm by done. apply decide_ext. rewrite elem_of_app, list_elem_of_singleton. split; [by left|by intros [?|?]].
Qed.
Lemma pop_content ids (cache : Cache) : lru_content (foldl (fun c id => lru_pop id c) cache ids) ⊆ lru_content cache.
Proof.
  revert cache. induction ids as [|id ids IH]; intros cache; simpl; [done|]. etrans; [apply IH|]. rewrite lru_pop_content. apply delete_subseteq.
Qed.
Context (HBad_pop : ∀ s cache, lru_content cache ⊆ lru_content s.(Slasher.root_cache) → Bad s → Bad (Slasher.set_root_cache cache s)).
Lemma prune_indexed_run c s :
  Bad s →
  hoare (prune_indexed_attestations config c) s
    (fun _ s' => indexed_pruned (u64_saturating_sub (u64_saturating_add c 1) N) s.(Slasher.tables) s'.(Slasher.tables) ∧ beyond s' = beyond s
       ∧ lru_content s'.(Slasher.root_cache) ⊆ lru_content s.(Slasher.root_cache) ∧ Bad s') (error Bad).
Proof using HBad HBad_pop.
  intros Hb. unfold prune_indexed_attestations. set (x := u64_saturating_sub _ _). hoare_step. apply (hoare_db_call _ HBad); [done|]. intros s1 Hc1 Hb1.
  hoare_step. apply (hoare_txn_get _ HBad); [done|]. intros s2 Hc2 Hb2. hoare_step. rewrite Hc1 in Hc2.
  eapply hoare_mono; [by apply (delete_while_run _ HBad)| |done]. intros ids s3 (pre & post & Hl & -> & Hpre & Hpost & HT & Ho & Hb3).
  rewrite (core_tables _ _ Hc1) in Hl. rewrite (core_tables _ _ Hc2) in HT. rewrite (core_outside _ _ Hc2) in Ho.
  set (T := s.(Slasher.tables)) in *. set (ids' := foldl (fun m k => delete k m) T.(Tables.indexed_attestation_ids) pre.*1).
  assert (s3.(Slasher.tables) = Tables.set_ids ids' T) as HT3.
  { rewrite HT. unfold ids'. generalize T. clear. induction pre as [|[k v] pre IH]; intros T; simpl; [by destruct T|]. by rewrite IH. }
  assert (∀ id, id ∈ pre.*2 ↔ outdated x T id) as Hout.
  { intros id. rewrite list_elem_of_fmap. rewrite list.Forall_forall in Hpre. split.
    - intros ([k v] & -> & He). exists k. split; [|by apply Z.ltb_lt, (Hpre _ He)]. apply elem_of_map_to_list. rewrite <-entries_perm, Hl.
      apply elem_of_app. by left.
    - intros (k & Hk & Hlt). exists (k, id). split; [done|]. pose proof (pruned_entries x _ pre post Hl ltac:(by apply list.Forall_forall) Hpost k) as Hp.
      rewrite lookup_foldl_delete, (proj2 (Z.ltb_lt _ _) Hlt), Hk in Hp. case_decide as Hin; [|done].
      apply list_elem_of_fmap in Hin as ([k' v'] & -> & He). assert ((k', v') ∈ entries T.(Tables.indexed_attestation_ids)) as Hv
        by (rewrite Hl; apply elem_of_app; by left). rewrite entries_perm in Hv. apply elem_of_map_to_list in Hv. simpl in *. congruence. }
  hoare_step. eapply hoare_mono; [by apply delete_indexed_run| |done]. intros [] s4 (m' & HT4 & Ho4 & Hb4 & Hm'). rewrite HT3 in HT4, Hm'.
  unfold delete_attestation_data_roots. hoare_step.
  assert (lru_content (foldl (fun c id => lru_pop id c) s4.(Slasher.root_cache) pre.*2) ⊆ lru_content s4.(Slasher.root_cache)) as Hpop by apply pop_content.
  split_and!.
  - simpl. rewrite HT4. split; [done|by eapply pruned_entries| |]; intros id Hid; simpl; rewrite Hm'.
    + by rewrite decide_True by by apply Hout.
    + by rewrite decide_False by by rewrite Hout.
  - apply outside_beyond in Ho4 as Hy. rewrite (outside_beyond _ _ Ho) in Hy. exact Hy.
  - simpl. rewrite (outside_cache _ _ Ho4), (outside_cache _ _ Ho) in Hpop. by rewrite (outside_cache _ _ Ho4), (outside_cache _ _ Ho).
  - by apply HBad_pop.
Qed.
End prune.

Section prune_rest.
Context (h : history) (c : Epoch) (s s' : state) (Hrest : resting h s) (Hle : h.(clock) ≤ c).
Context (Hc : 0 ≤ c ∧ c + MAX_DISTANCE ≤ u64_max).
Abbreviation x := (u64_saturating_sub (u64_saturating_add c 1) N).
Abbreviation T := (s.(Slasher.tables)).
Abbreviation T' := (s'.(Slasher.tables)).
Context (m' : gmap (Z * Z) SignedBeaconBlockHeader.t) (Hm' : pruned (first_slot c) T.(Tables.proposers) m').
Context (Hpr : indexed_pruned x (Tables.set_proposers m' T) T').

Lemma pruned_indexed_sub : T'.(Tables.indexed_attestations) ⊆ T.(Tables.indexed_attestations).
Proof using Hpr.
  apply map_subseteq_spec. intros id a Ha. destruct Hpr as [_ Hids Hgone Hkept].
  destruct (T.(Tables.indexed_attestations) !! id) as [a'|] eqn:E.
  - destruct (decide (T'.(Tables.indexed_attestations) !! id = T.(Tables.indexed_attestations) !! id)) as [Heq|Hne]; [congruence|].
    exfalso. apply Hne. apply Hkept. intros Ho. rewrite (Hgone id Ho) in Ha. done.
  - rewrite <-E. rewrite <-Ha. symmetry. apply Hkept. intros Ho. rewrite (Hgone id Ho) in Ha. done.
Qed.
(** Attestations of the window stay. *)
Lemma outdated_spec id a : T.(Tables.indexed_attestations) !! id = Some a → outdated x T id ↔ target_epoch a < x.
Proof using Hrest.
  intros Ha. destruct (re_store _ _ Hrest) as [S1 S2]. destruct (S1 id a Ha) as (_ & _ & _ & Hk). split.
  - intros (k & Hk' & Hlt). destruct (S2 k id Hk') as (a' & Ha' & ->). simpl in Hlt. congruence.
  - intros Hlt. by eexists.
Qed.
Lemma pruned_at id a : T'.(Tables.indexed_attestations) !! id = Some a ↔ T.(Tables.indexed_attestations) !! id = Some a ∧ x ≤ target_epoch a.
Proof using Hpr Hrest.
  split.
  - intros Ha. pose proof (lookup_weaken _ _ _ _ Ha pruned_indexed_sub) as HT. split; [done|]. apply Z.nlt_ge. intros Hlt%(outdated_spec id a HT).
    by rewrite (ip_gone _ _ _ Hpr id Hlt) in Ha.
  - intros [Ha Hx]. rewrite <-Ha. apply (ip_kept _ _ _ Hpr). intros Ho%(outdated_spec id a Ha). lia.
Qed.
Lemma pruned_store : store_good h.(accepted) T'.
Proof using Hpr Hrest.
  destruct (re_store _ _ Hrest) as [S1 S2]. split.
  - intros id a [Ha Hx]%pruned_at. destruct (S1 id a Ha) as (G1 & G2 & G3 & G4). split_and!; [done..|].
    rewrite (ip_ids _ _ _ Hpr). cbn [fst]. rewrite (proj2 (Z.ltb_ge _ _) Hx). exact G4.
  - intros k id Hk. rewrite (ip_ids _ _ _ Hpr) in Hk. destruct (Z.ltb_spec k.1 x) as [|Hx]; [done|].
    destruct (S2 k id Hk) as (a & Ha & ->). exists a. split; [|done]. apply pruned_at. split; [done|exact Hx].
Qed.
Lemma pruned_records L F : records_ok config T c L F → records_ok config T' c L F.
Proof using Hc Hpr Hrest.
  intros [R1 R2 R3 R4 R5]. pose proof (ip_frame _ _ _ Hpr) as Hf.
  assert (∀ v t, rec_at config T' v t = rec_at config T v t) as Hrec by (intros v t; by rewrite Hf).
  split; [by rewrite Hf|done| | |done].
  - intros v t Ht Ht0. rewrite Hrec. by apply R3.
  - intros v t id Ht Ht0. rewrite Hrec. intros Hr. destruct (R4 v t id Ht Ht0 Hr) as (a & (A1 & A2 & A3) & Hall). exists a.
    split; [|done]. split; [|done]. apply pruned_at. split; [done|]. rewrite A2. unfold u64_saturating_sub, u64_saturating_add. lia.
Qed.
Lemma resting_pruned :
  leftovers h.(accepted) h.(headers) T s' → beyond s' = beyond s → lru_content s'.(Slasher.root_cache) ⊆ lru_content s.(Slasher.root_cache) →
  resting (ticked h c s') s'.
Proof using Hc Hconfig Hle Hm' Hpr Hrest Hslots.
  intros Hl Hy Hca. pose proof Hrest as [R1 R2 R3 (M & R4 & HM) R5 R6 R7 R8 R9 R10]. pose proof (ip_frame _ _ _ Hpr) as Hf. destruct Hl as [L1 L2 L3 L4 L5 L6 L7].
  split; simpl; [|apply pruned_store| | | | | | | |by rewrite Hf].
  - split; try done.
    + by eapply coherent_roots_sub; [apply pruned_indexed_sub|].
    + intros id a [Ha _]%pruned_at. by eapply L6.
  - apply pruned_records. eapply records_ok_found; [by eapply records_ok_later|apply sub_app_l].
  - exists M. split; [|done]. eapply arrays_ok_ext; [done|exact R4|done|apply sub_app_l|by rewrite Hf..].
  - eapply proposals_found; [|apply sub_app_l]. assert (T'.(Tables.proposers) = m') as -> by (by rewrite Hf).
    pose proof (proposals_later _ _ _ _ _ _ R5 (first_slot_mono _ _ Hle)) as [P1 P2 P3]. split; [| |done].
    + intros k hd. rewrite Hm'. destruct (_ <? _); [done|apply P1].
    + intros hd Hh Hf'. rewrite Hm', (proj2 (Z.ltb_ge _ _) Hf'). by apply P2.
  - apply Forall_app. split; done.
  - apply Forall_app. split; done.
  - apply sub_app_r.
  - apply sub_app_r.
Qed.
End prune_rest.

(** What is older than the history is gone, and nothing else. *)
Record prunes (c : Epoch) (T T' : Tables.t) : Prop := {
  pr_indexed : ∀ id a, T'.(Tables.indexed_attestations) !! id = Some a ↔
    T.(Tables.indexed_attestations) !! id = Some a ∧ u64_saturating_sub (u64_saturating_add c 1) N ≤ target_epoch a;
  pr_proposers : pruned (first_slot c) T.(Tables.proposers) T'.(Tables.proposers);
}.
Lemma prune_run h c s :
  resting h s → h.(clock) ≤ c → 0 ≤ c ∧ c + MAX_DISTANCE ≤ u64_max →
  hoare (prune_database config slots_per_epoch c) s (fun _ s' => resting (ticked h c s') s' ∧ prunes c s.(Slasher.tables) s'.(Slasher.tables))
    (fun e s' => e = SlasherError.Database ∧ resting (ticked h c s') s').
Proof using Hconfig Hslots.
  intros Hrest Hle Hc. unfold prune_database, prune. eapply hoare_mono.
  - apply (hoare_transaction _ s (leftovers h.(accepted) h.(headers) s.(Slasher.tables))
      (fun _ s' => resting (ticked h c s') s' ∧ prunes c s.(Slasher.tables) s'.(Slasher.tables))); [apply leftovers_outside|apply Hrest|].
    intros s1 Hc1 Hb1. unfold try_prune. hoare_step. eapply hoare_mono; [apply prune_proposers_run; [apply leftovers_outside|done]| |done].
    intros [] s2 (m' & HT2 & Hm' & Ho2 & Hb2). rewrite (core_tables _ _ Hc1) in HT2, Hm'. eapply hoare_mono.
    + apply (prune_indexed_run _ (leftovers_outside h.(accepted) h.(headers) s.(Slasher.tables))); [|done]. intros s3 cache Hsub [L1 L2 L3 L4 L5 L6 L7]. split; try done.
      intros id a r Ha Hr. eapply L1; [done|]. by eapply lookup_weaken.
    + intros [] s3 (Hpr & Hy & Hca & Hb3). split; [done|]. intros s4 Hc4 Hb4. rewrite HT2 in Hpr.
      rewrite (outside_beyond _ _ Ho2), (outside_beyond _ _ (core_outside _ _ Hc1)) in Hy.
      rewrite (outside_cache _ _ Ho2), (core_cache _ _ Hc1) in Hca.
      rewrite <-(core_tables _ _ Hc4) in Hpr. rewrite <-(core_cache _ _ Hc4) in Hca. rewrite <-(outside_beyond _ _ (core_outside _ _ Hc4)) in Hy.
      split; [by eapply resting_pruned|]. split.
      * intros id a. apply (pruned_at h c s s4 Hrest m' Hpr).
      * by rewrite (ip_frame _ _ _ Hpr).
    + done.
  - done.
  - intros e s' (-> & Hb & HT). split; [done|]. by eapply resting_ticked.
Qed.

(** ** Runs *)
Abbreviation fresh tables faults := (Slasher.mk tables faults lru_new [] [] [] []).
Lemma open_run decode (tables : Tables.t) faults :
  config_validate config = Ok tt → metadata tables = (None, None) →
  hoare (lift (config_validate config);; db_open config decode) (fresh tables faults) (fun _ s => core s = core (fresh tables faults))
    (fun e _ => e = SlasherError.Database).
Proof.
  intros Hv [= Hm1 Hm2]. set (s0 := fresh tables faults). pose (Bad := fun s : state => outside s = outside s0).
  assert (leftover Bad) as HBad by (intros s s' Ho; unfold Bad; by rewrite Ho). assert (Bad s0) as Hb by done.
  hoare_step. rewrite Hv. eapply hoare_lift; [done|]. unfold db_open, migrate. do 2 hoare_step.
  eapply hoare_mono; [apply (hoare_db_call _ HBad s0 (fun _ s => core s = core s0 ∧ Bad s)); done| |by intros e s [-> _]]. intros [] s1 [Hc1 Hb1].
  hoare_step. eapply hoare_mono;
    [apply (hoare_txn_get _ HBad _ s1 (fun v s => v = None ∧ core s = core s0 ∧ Bad s)); [done|]| |by intros e s [-> _]].
  { intros s' Hc' Hb'. by rewrite (core_tables _ _ Hc1), Hc'. }
  intros v s2 (-> & Hc2 & Hb2). hoare_step. eapply hoare_mono;
    [apply (hoare_transaction _ s2 Bad (fun _ s => core s = core s0)); [done|done|]|done|by intros e s (-> & _)].
  intros s3 Hc3 Hb3. unfold load_config. do 2 hoare_step. apply (hoare_txn_get _ HBad); [done|]. intros s4 Hc4 Hb4.
  rewrite (core_tables _ _ Hc3), (core_tables _ _ Hc2). change (Slasher.tables s0) with tables. rewrite Hm2. hoare_steps. split; [done|]. intros s5 Hc5 _. congruence.
Qed.

Definition no_history : history := History [] [] 0 [] [] [] [].
Lemma resting_fresh faults : resting no_history (fresh Tables.empty faults).
Proof using Hconfig.
  assert (∀ (T : TargetArrayChunk (Cache := Cache)) k, T.(select_db) Tables.empty = ∅ → view_ok config T k (fresh Tables.empty faults, ∅)
    ∧ ∀ v e, adist config T k (fresh Tables.empty faults, ∅) v e = T.(neutral_element)) as Hview.
  { intros T k HT. assert (∀ ci, chunk_at config T k (fresh Tables.empty faults, ∅) ci = empty_chunk config T) as Hch.
    { intros ci. unfold chunk_at, stored_chunk. simpl. rewrite lookup_empty, HT, lookup_empty. done. }
    split; [split; [intros ci; rewrite Hch; apply length_replicate|intros ci [y Hy]; simpl in Hy; by rewrite lookup_empty in Hy]|].
    intros v e. unfold adist, cdist. rewrite Hch. unfold empty_chunk. apply nth_lookup_Some, lookup_replicate_2. by apply cell_lt. }
  split; simpl; try done; try (by constructor).
  - split.
    + intros v. simpl. rewrite lookup_empty. intros k. by rewrite lookup_empty.
    + intros v d Hd. by apply elem_of_nil in Hd.
    + intros v t _ _ _ d Hd. by apply elem_of_nil in Hd.
    + intros v t id _ _ Hr. unfold rec_at in Hr. simpl in Hr. by rewrite lookup_empty in Hr.
    + intros v d d' Hd. by apply elem_of_nil in Hd.
  - exists []. split; [|done]. split; [intros k; by apply Hview..| | |done|done]; intros v; unfold at_rest; simpl; rewrite lookup_empty;
      (split; [intros d; apply not_elem_of_nil|]); intros e; by apply Hview.
  - split; [intros k hd Hk; by rewrite lookup_empty in Hk|intros hd Hh; by apply elem_of_nil in Hh|intros hd hd' Hh; by apply elem_of_nil in Hh].
Qed.

Abbreviation process := (process_queued (Cache := Cache) config forks max_validators_per_committee max_validators_per_slot data_root hash_order).
Abbreviation prune_at := (prune_database (Cache := Cache) config slots_per_epoch).
(** The clock is read as [c]. *)
Definition reads (h : history) (c : Epoch) : Prop := h.(clock) ≤ c ∧ c + MAX_DISTANCE ≤ u64_max.
Definition with_attestation (a : IndexedAttestation.t) (h : history) : history :=
  History (h.(accepted) ++ [a]) h.(headers) h.(clock) h.(processed) h.(proposed) h.(detected) h.(detected_proposals).
Definition with_header (b : SignedBeaconBlockHeader.t) (h : history) : history :=
  History h.(accepted) (h.(headers) ++ [b]) h.(clock) h.(processed) h.(proposed) h.(detected) h.(detected_proposals).
(** One call of the service or of the network; calls may fail. *)
Inductive step (h : history) (s : state) : history → state → Prop :=
  | step_attestation any s' :
      typed any.(AnyAttestation.inner) → Z.of_nat (S (length h.(accepted))) < 2 ^ 48 →
      accept_attestation max_validators_per_slot data_root header_root any s = (Ok tt, s') →
      step h s (with_attestation any.(AnyAttestation.inner) h) s'
  | step_block b s' : accept_block_header b s = (Ok tt, s') → step h s (with_header b h) s'
  | step_process c n s' : reads h c → process c s = (Ok n, s') → step h s (after_process h c s s') s'
  | step_process_error c e s' : reads h c → process c s = (Err e, s') → step h s (ticked h c s') s'
  | step_prune c s' : reads h c → prune_at c s = (Ok tt, s') → step h s (ticked h c s') s'
  | step_prune_error c e s' : reads h c → prune_at c s = (Err e, s') → step h s (ticked h c s') s'
  | step_harvest l s' : get_attester_slashings s = (Ok l, s') → step h s h s'
  | step_harvest_proposals l s' : get_proposer_slashings s = (Ok l, s') → step h s h s'.
Inductive run : history → state → Prop :=
  | run_open decode faults s : slasher_open config decode Tables.empty faults = (Ok tt, s) → run no_history s
  | run_step h s h' s' : run h s → step h s h' s' → run h' s'.

Lemma accept_resting h s any :
  resting h s → typed any.(AnyAttestation.inner) →
  resting (with_attestation any.(AnyAttestation.inner) h)
    (Slasher.set_attestation_queue (s.(Slasher.attestation_queue)
       ++ [IndexedAttesterRecord.mk any (attester_record max_validators_per_slot data_root header_root any.(AnyAttestation.inner)) 0]) s).
Proof using Hconfig.
  intros [[L1 L2 L3 L4 L5 L6 L7] [S1 S2] R3 (M & R4 & HM) R5 R6 R7 R8 R9 R10] Hty. set (a := any.(AnyAttestation.inner)) in *.
  assert (∀ y, y ∈ h.(accepted) → y ∈ h.(accepted) ++ [a]) as Hin by (intros y Hy; apply elem_of_app; by left).
  assert (∀ l, Forall (truthful h.(accepted)) l → Forall (truthful (h.(accepted) ++ [a])) l) as Htr.
  { intros l Hl. eapply list.Forall_impl; [exact Hl|]. intros y (G1 & G2 & G3). split_and!; auto. }
  split; simpl; try done; try (by apply Htr).
  - split; simpl; try done; [by apply Htr| |rewrite !length_app; simpl; by replace (_ - _) with (Z.of_nat (length h.(accepted)) - Z.of_nat (length s.(Slasher.attestation_queue))) by lia|rewrite !length_app; simpl; lia].
    apply Forall_app. split; [eapply list.Forall_impl; [exact L4|]; intros r [Q1 Q2 Q3 Q4]; split; auto|].
    constructor; [|done]. split; [|done|done|done]. apply elem_of_app. right. by left.
  - split; [|done]. intros id b Hb. destruct (S1 id b Hb) as (G1 & G2 & G3 & G4). split_and!; auto.
  - exists M. split; [|done]. by eapply arrays_ok_ext; [..|exact R4| | | | |].
Qed.
Lemma block_resting h s b :
  resting h s → resting (with_header b h) (Slasher.set_block_queue (set_insert b s.(Slasher.block_queue)) s).
Proof using Hconfig.
  intros [[L1 L2 L3 L4 L5 L6 L7] R2 R3 (M & R4 & HM) [P1 P2 P3] R6 R7 R8 R9 R10].
  assert (∀ l, Forall (genuine_proposal h.(headers)) l → Forall (genuine_proposal (h.(headers) ++ [b])) l) as Htr.
  { intros l Hl. eapply list.Forall_impl; [exact Hl|]. intros y (G1 & G2 & G3). split_and!; [done|apply elem_of_app; by left..]. }
  split; simpl; try done; try (by apply Htr).
  - split; simpl; try done; [by apply Htr|]. intros y [->|Hy]%elem_of_set_insert; apply elem_of_app; [right; by left|left; by apply L5].
  - exists M. split; [|done]. by eapply arrays_ok_ext; [..|exact R4| | | | |].
  - split; [|done|done]. intros k hd Hk. destruct (P1 k hd Hk). split; [done|]. apply elem_of_app. by left.
Qed.

Lemma open_validated decode tables faults s : slasher_open config decode tables faults = (Ok tt, s) → config_validate config = Ok tt.
Proof. unfold slasher_open. by destruct (config_validate config) as [[]| | |]. Qed.
Lemma run_resting h s : run h s → resting h s ∧ 0 ≤ h.(clock) ∧ Z.of_nat (length h.(accepted)) < 2 ^ 48.
Proof using Hconfig Horder Hroots Hslots.
  induction 1 as [decode faults s Ho|h s h' s' _ (IH & Hcl & Hlen) Hstep].
  { split_and!; [|done|done]. eapply resting_core; [|apply (resting_fresh faults)].
    exact (hoare_ok _ _ _ _ _ _ (open_run decode Tables.empty faults (open_validated _ _ _ _ Ho) eq_refl) Ho). }
  assert (∀ c, reads h c → 0 ≤ c ∧ c + MAX_DISTANCE ≤ u64_max) as Hreads by (intros c [? ?]; split; lia).
  destruct Hstep as [any s' Hty Hn Ha|b s' Hb|c n s' Hr Hp|c e s' Hr Hp|c s' Hr Hp|c e s' Hr Hp|l s' Hg|l s' Hg].
  - injection Ha as <-. split_and!; [by apply accept_resting|done|]. simpl. rewrite length_app. simpl. lia.
  - injection Hb as <-. split_and!; [by apply block_resting|done|done].
  - split_and!; [|by destruct (Hreads c Hr)|done].
    by destruct (hoare_ok _ _ _ _ _ _ (process_queued_run h c s IH (proj1 Hr) (Hreads c Hr) Hlen) Hp).
  - split_and!; [|by destruct (Hreads c Hr)|done].
    by apply (hoare_err _ _ _ _ _ _ (process_queued_run h c s IH (proj1 Hr) (Hreads c Hr) Hlen) Hp).
  - split_and!; [|by destruct (Hreads c Hr)|done]. by apply (hoare_ok _ _ _ _ _ _ (prune_run h c s IH (proj1 Hr) (Hreads c Hr)) Hp).
  - split_and!; [|by destruct (Hreads c Hr)|done]. by apply (hoare_err _ _ _ _ _ _ (prune_run h c s IH (proj1 Hr) (Hreads c Hr)) Hp).
  - injection Hg as <- <-. split_and!; [|done|done]. destruct IH as [[L1 L2 L3 L4 L5 L6 L7] R2 R3 (M & R4 & HM) R5 R6 R7 R8 R9 R10].
    split; simpl; try done; [|by intros y Hy%elem_of_nil].
    exists M. split; [|done]. by eapply arrays_ok_ext; [..|exact R4| | | | |].
  - injection Hg as <- <-. split_and!; [|done|done]. destruct IH as [[L1 L2 L3 L4 L5 L6 L7] R2 R3 (M & R4 & HM) R5 R6 R7 R8 R9 R10].
    split; simpl; try done; [|by intros y Hy%elem_of_nil].
    exists M. split; [|done]. by eapply arrays_ok_ext; [..|exact R4| | | | |].
Qed.
Lemma run_validated h s : run h s → config_validate config = Ok tt.
Proof.
  induction 1 as [decode faults s Ho|]; [by eapply open_validated|done].
Qed.
End runs.

(** ** Correctness *)
Section correct.
Context {Cache : Type} `{lru : LruCache Cache, !LruLaws Cache}.
Context (config : SlasherConfig.t) (forks : ForkSpec.t).
Context (max_validators_per_committee max_validators_per_slot slots_per_epoch : Z).
(** Sizes are unsigned. *)
Context (Hchunk : 0 ≤ config.(SlasherConfig.chunk_size)) (Hvalidators : 0 ≤ config.(SlasherConfig.validator_chunk_size)).
Context (Hhistory : 0 ≤ config.(SlasherConfig.history_length)) (Hslots : 0 ≤ slots_per_epoch).
Context (data_root : AttestationData.t → Hash256) (header_root : list Z → Hash256 → Z → Hash256).
Context (Hroots : roots_ok data_root header_root).
Context (hash_order : list SignedBeaconBlockHeader.t → list SignedBeaconBlockHeader.t) (Horder : ∀ l, hash_order l ≡ₚ l).
Abbreviation runs :=
  (run (Cache := Cache) config forks max_validators_per_committee max_validators_per_slot slots_per_epoch data_root header_root hash_order).
Abbreviation process := (process_queued (Cache := Cache) config forks max_validators_per_committee max_validators_per_slot data_root hash_order).

Lemma run_rests h s :
  runs h s → resting config forks max_validators_per_committee max_validators_per_slot slots_per_epoch data_root header_root h s
    ∧ 0 ≤ h.(clock) ∧ Z.of_nat (length h.(accepted)) < 2 ^ 48 ∧ config_ok config.
Proof using Hchunk Hhistory Horder Hroots Hslots Hvalidators LruLaws0.
  intros Hr. assert (config_ok config) as Hok by (apply config_validate_ok; [done..|by eapply run_validated]).
  destruct (run_resting config Hok forks max_validators_per_committee max_validators_per_slot slots_per_epoch data_root header_root Hroots
    hash_order Horder Hslots h s Hr) as (? & ? & ?). done.
Qed.
Lemma conflicting_spec x :
  conflicting x → is_double_vote x.(AnySlashing.attestation_1) x.(AnySlashing.attestation_2)
    || is_surround_vote x.(AnySlashing.attestation_1) x.(AnySlashing.attestation_2) = true.
Proof.
  intros [Hd|[Hs Ht]]; apply orb_true_iff; [left; by apply is_double_vote_spec|right]. unfold is_surround_vote, src, tgt in *.
  by rewrite (proj2 (Z.ltb_lt _ _) Hs), (proj2 (Z.ltb_lt _ _) Ht).
Qed.
(** Two votes in the arrays, one around the other. *)
Lemma surround_caught M F v d d' :
  no_miss surrounds M F → no_miss (fun d d' => surrounds d' d) M F → (v, d) ∈ M → (v, d') ∈ M → surrounds d d' → caught F v.
Proof.
  intros H1 H2 (i & Hi)%list_elem_of_lookup (j & Hj)%list_elem_of_lookup Hs. destruct (Nat.lt_trichotomy i j) as [Hij|[->|Hij]].
  - by apply (H2 i j v d' d).
  - assert (d = d') as <- by congruence. destruct Hs. lia.
  - by apply (H1 j i v d d').
Qed.

(** C7. Every attester slashing that the slasher holds is one that the chain accepts, as
    far as its data goes: both attestations were accepted from the network, they are a
    double vote or the first surrounds the second, and a validator is in both.  This holds
    after any calls, in any order and with failures of the database anywhere. *)
Theorem slasher_sound h s x :
  runs h s → x ∈ s.(Slasher.attester_slashings) →
  let a1 := x.(AnySlashing.attestation_1) in let a2 := x.(AnySlashing.attestation_2) in
  a1 ∈ h.(accepted) ∧ a2 ∈ h.(accepted) ∧ is_double_vote a1 a2 || is_surround_vote a1 a2 = true
  ∧ ∃ v, v ∈ a1.(IndexedAttestation.attesting_indices) ∧ v ∈ a2.(IndexedAttestation.attesting_indices).
Proof using Hchunk Hhistory Horder Hroots Hslots Hvalidators LruLaws0.
  intros Hr Hx. destruct (run_rests h s Hr) as (Hrest & _). pose proof (re_detected _ _ _ _ _ _ _ _ _ Hrest) as Hg.
  rewrite list.Forall_forall in Hg. destruct (Hg x (re_found _ _ _ _ _ _ _ _ _ Hrest x Hx)) as ((v & Hco & H1 & H2) & A1 & A2).
  split_and!; [done|done|by apply conflicting_spec|by exists v].
Qed.

(** C6. The slasher misses nothing: of any two votes of a validator that were processed, in
    one batch or in different ones, however far apart and with pruning in between, and
    that are a double vote or of which one surrounds the other, a slashing was found that
    accuses this validator. *)
Theorem slasher_complete h s v d d' :
  runs h s → (v, d) ∈ h.(processed) → (v, d') ∈ h.(processed) → slashable d d' → caught h.(detected) v.
Proof using Hchunk Hhistory Horder Hroots Hslots Hvalidators LruLaws0.
  intros Hr Hd Hd' Hs. destruct (run_rests h s Hr) as (Hrest & _).
  destruct (re_arrays _ _ _ _ _ _ _ _ _ Hrest) as (M & [_ _ _ _ Hm1 Hm2] & HM). rewrite <-HM in Hd, Hd'.
  destruct Hs as [[Hne Ht]|[Hs|Hs]]; [|by eapply (surround_caught M _ v d d')|by eapply (surround_caught M _ v d' d)].
  rewrite HM in Hd, Hd'. by apply (rc_double _ _ _ _ _ (re_records _ _ _ _ _ _ _ _ _ Hrest) v d d').
Qed.

(** C23. Processing the queues never panics and never loops, and its only error is one of
    the database, which leaves the tables as they were.  When it succeeds, every vote
    of the queue that is due counts as processed, and the others that may still become
    due are the new queue. *)
Theorem slasher_total h s c :
  runs h s → reads h c →
  match process c s with
  | (Ok _, s') => ∃ h', runs h' s' ∧ s'.(Slasher.attestation_queue) = (validate config s.(Slasher.attestation_queue) c).2
      ∧ votes (validate config s.(Slasher.attestation_queue) c).1 ⊆ h'.(processed)
  | (Err e, s') => e = SlasherError.Database ∧ s'.(Slasher.tables) = s.(Slasher.tables) ∧ ∃ h', runs h' s'
  | (Panic, _) | (Diverge, _) => False
  end.
Proof using Hchunk Hhistory Horder Hroots Hslots Hvalidators LruLaws0.
  intros Hr Hc. destruct (run_rests h s Hr) as (Hrest & Hcl & Hn & Hok).
  assert (0 ≤ c ∧ c + MAX_DISTANCE ≤ u64_max) as Hc' by (destruct Hc; lia).
  pose proof (process_queued_run config Hok forks max_validators_per_committee max_validators_per_slot slots_per_epoch data_root header_root Hroots
    hash_order Horder Hslots h c s Hrest (proj1 Hc) Hc' Hn) as Hp. unfold hoare in Hp.
  destruct (process c s) as [[n|e| |] s'] eqn:E; [| |done|done].
  - exists (after_process config slots_per_epoch h c s s'). split_and!; [by eapply run_step, step_process| |apply sub_app_r].
    by destruct Hp.
  - destruct Hp as [-> _]. split_and!; [done| |eexists; by eapply run_step, step_process_error].
    clear -E. unfold process_queued, transaction in E. destruct ((db_call;; _) s) as [[] ?]; simplify_eq; done.
Qed.

(** C24. Proposals: each proposer slashing held is of two different accepted headers with one
    slot and one proposer, and of two such headers that were processed within the
    history, one slashing at least was found for their slot and proposer. *)
Theorem slasher_proposals_exact h s :
  runs h s →
  (∀ x, x ∈ s.(Slasher.proposer_slashings) → genuine_proposal h.(headers) x)
  ∧ ∀ b b', b ∈ h.(proposed) → b' ∈ h.(proposed) → b ≠ b' → proposal_key b = proposal_key b' → exposed h.(detected_proposals) (proposal_key b).
Proof using Hchunk Hhistory Horder Hroots Hslots Hvalidators LruLaws0.
  intros Hr. destruct (run_rests h s Hr) as ([R1 R2 R3 R4 [P1 P2 P3] R6 R7 R8 R9 R10] & _). split; [|done].
  intros x Hx. rewrite list.Forall_forall in R7. by apply R7, R9.
Qed.

(** C25. Pruning deletes the attestations and the proposals that are older than the history,
    and no others; it fails with an error of the database alone, and then deletes nothing. *)
Theorem slasher_prune_exact h s c :
  runs h s → reads h c →
  match prune_database config slots_per_epoch c s with
  | (Ok _, s') => prunes config slots_per_epoch c s.(Slasher.tables) s'.(Slasher.tables)
  | (Err e, s') => e = SlasherError.Database ∧ s'.(Slasher.tables) = s.(Slasher.tables)
  | (Panic, _) | (Diverge, _) => False
  end.
Proof using Hchunk Hhistory Horder Hroots Hslots Hvalidators LruLaws0.
  intros Hr Hc. destruct (run_rests h s Hr) as (Hrest & Hcl & Hn & Hok).
  assert (0 ≤ c ∧ c + MAX_DISTANCE ≤ u64_max) as Hc' by (destruct Hc; lia).
  pose proof (prune_run config Hok forks max_validators_per_committee max_validators_per_slot slots_per_epoch data_root header_root
    Hslots h c s Hrest (proj1 Hc) Hc') as Hp. unfold hoare in Hp.
  destruct (prune_database config slots_per_epoch c s) as [[n|e| |] s'] eqn:E; [by destruct Hp| |done|done].
  destruct Hp as [-> _]. split; [done|]. clear -E. unfold prune_database, prune, transaction in E. destruct ((db_call;; _) s) as [[] ?]; simplify_eq; done.
Qed.

(** The configuration is not written to the database: after any run, the database opens
    with every valid configuration, whatever the sizes of the chunks in it. *)
Theorem slasher_reopens h s config' decode :
  runs h s → config_validate config' = Ok tt → (slasher_open config' decode s.(Slasher.tables) []).1 = (Ok tt : outcome SlasherError.t unit).
Proof using Hchunk Hhistory Horder Hroots Hslots Hvalidators LruLaws0.
  intros Hr Hv. destruct (run_rests h s Hr) as (Hrest & _). pose proof (re_meta _ _ _ _ _ _ _ _ _ Hrest) as Hm. injection Hm as Hm1 Hm2.
  unfold slasher_open, mbind, M_bind, lift, db_open. rewrite Hv. unfold migrate, db_call, txn_get, mbind, M_bind, get, mret, M_ret. simpl.
  rewrite Hm1. unfold transaction, load_config, txn_get, db_call, mbind, M_bind, get, mret, M_ret. simpl. by rewrite Hm2.
Qed.
End correct.

(** ** A run *)
Section example.
#[local] Instance map_cache : LruCache (gmap Z Hash256) := {|
  lru_new := ∅; lru_get k c := (c !! k, c); lru_put k v c := <[k := v]> c; lru_pop k c := delete k c |}.
#[local] Instance map_cache_laws : LruLaws (gmap Z Hash256).
Proof. by refine {| lru_content c := c |}. Defined.
Definition slx_config : SlasherConfig.t := SlasherConfig.mk 4 2 16 1.
Definition slx_data_root (d : AttestationData.t) : Hash256 :=
  Zpos (encode (d.(AttestationData.slot), d.(AttestationData.index), d.(AttestationData.beacon_block_root),
    (d.(AttestationData.source).(Checkpoint.epoch), d.(AttestationData.source).(Checkpoint.root)),
    (d.(AttestationData.target).(Checkpoint.epoch), d.(AttestationData.target).(Checkpoint.root)))).
Definition slx_header_root (l : list Z) (r g : Z) : Hash256 := Zpos (encode (l, r, g)).
Lemma slx_roots : roots_ok slx_data_root slx_header_root.
Proof.
  split.
  - intros [? ? ? [] []] [? ? ? [] []]. unfold slx_data_root. simpl. intros [= H%encode_inj]. by simplify_eq.
  - intros l r g l' r' g' [= H%encode_inj]. by simplify_eq.
Defined.
(** Validators [indices] vote from epoch [s] to epoch [t]. *)
Definition slx_attestation (indices : list Z) (s t : Epoch) : AnyAttestation.t :=
  AnyAttestation.mk true (IndexedAttestation.mk indices (AttestationData.mk 0 0 0 (Checkpoint.mk s 0) (Checkpoint.mk t 0)) 0).
Definition slx_block (root : Z) : SignedBeaconBlockHeader.t := SignedBeaconBlockHeader.mk (BeaconBlockHeader.mk 48 3 0 root 0) 0.

Abbreviation slxM := (M (Slasher.t (gmap Z Hash256)) SlasherError.t).
Definition slx_accept (indices : list Z) (s t : Epoch) : slxM unit := accept_attestation 100 slx_data_root slx_header_root (slx_attestation indices s t).
Definition slx_process (c : Epoch) : slxM (nat * nat * nat) := process_queued slx_config tx_forks 100 100 slx_data_root (fun l => l) c.
(** Two votes, the later one around the other, and two blocks for a slot; at epoch 7 all
    have been processed. *)
Definition slx0 := (slasher_open slx_config (fun _ => None) Tables.empty []).2.
Definition slx1 := (slx_accept [1; 2] 5 6 slx0).2.
Definition slx2 := (accept_block_header (slx_block 1) slx1).2.
Definition slx3 := (accept_block_header (slx_block 2) slx2).2.
Definition slx4 := (slx_process 6 slx3).2.
Definition slx5 := (slx_accept [2; 3] 4 7 slx4).2.
Definition slx6 := (slx_process 7 slx5).2.
Definition slx_before : history :=
  with_header (slx_block 2) (with_header (slx_block 1) (with_attestation (slx_attestation [1; 2] 5 6).(AnyAttestation.inner) no_history)).
Definition slx_between : history := after_process slx_config 8 slx_before 6 slx3 slx4.
Definition slx_history : history :=
  after_process slx_config 8 (with_attestation (slx_attestation [2; 3] 4 7).(AnyAttestation.inner) slx_between) 7 slx5 slx6.

Abbreviation slx_runs := (run slx_config tx_forks 100 100 8 slx_data_root slx_header_root (fun l => l)).
Lemma slx_typed indices s t :
  length indices = 2%nat → Forall (fun v => 0 ≤ v < 2 ^ 40) indices → 0 ≤ s →
  well_typed tx_forks 100 100 (slx_attestation indices s t).(AnyAttestation.inner).
Proof.
  intros Hl Hi Hs. split_and!; [simpl; lia| |done|done]. unfold into_indexed_attestation.
  destruct (electra_enabled _); simpl; rewrite Hl; by eexists.
Qed.
Lemma ran {S E A} (m : M S E A) s a : (m s).1 = Ok a → m s = (Ok a, (m s).2).
Proof. by destruct (m s); simpl; intros ->. Qed.
Lemma slx_first : slx_process 6 slx3 = (Ok (2, 1, 1)%nat, slx4).
Proof. apply (ran (slx_process 6) slx3). vm_compute. reflexivity. Qed.
Lemma slx_second : slx_process 7 slx5 = (Ok (0, 0, 1)%nat, slx6).
Proof. apply (ran (slx_process 7) slx5). vm_compute. reflexivity. Qed.
Lemma slx_run : slx_runs slx_history slx6.
Proof.
  assert (slx_runs no_history slx0) as H0 by (apply (run_open _ _ _ _ _ _ _ _ (fun _ => None) [] slx0); by vm_compute).
  assert (slx_runs slx_before slx3) as H3.
  { set (h1 := with_attestation (slx_attestation [1; 2] 5 6).(AnyAttestation.inner) no_history).
    assert (slx_runs h1 slx1) as H1.
    { apply (run_step _ _ _ _ _ _ _ _ no_history slx0 h1 slx1 H0). apply step_attestation; [by apply slx_typed; [|repeat constructor; lia|]|done|done]. }
    assert (slx_runs (with_header (slx_block 1) h1) slx2) as H2 by (apply (run_step _ _ _ _ _ _ _ _ h1 slx1 _ slx2 H1); by apply step_block).
    apply (run_step _ _ _ _ _ _ _ _ _ slx2 _ slx3 H2). by apply step_block. }
  assert (slx_runs slx_between slx4) as H4.
  { apply (run_step _ _ _ _ _ _ _ _ _ slx3 _ slx4 H3). apply (step_process _ _ _ _ _ _ _ _ _ _ 6 (2, 1, 1)%nat); [done|exact slx_first]. }
  apply (run_step _ _ _ _ _ _ _ _ (with_attestation (slx_attestation [2; 3] 4 7).(AnyAttestation.inner) slx_between) slx5 _ slx6).
  - apply (run_step _ _ _ _ _ _ _ _ slx_between slx4 _ slx5 H4). apply step_attestation; [by apply slx_typed; [|repeat constructor; lia|]|done|done].
  - apply (step_process _ _ _ _ _ _ _ _ _ _ 7 (0, 0, 1)%nat); [done|exact slx_second].
Qed.

Lemma slasher_sound_witness : ∃ x, x ∈ slx6.(Slasher.attester_slashings)
  ∧ is_surround_vote x.(AnySlashing.attestation_1) x.(AnySlashing.attestation_2) = true
  ∧ x.(AnySlashing.attestation_1) ∈ slx_history.(accepted).
Proof.
  assert (∃ x, slx6.(Slasher.attester_slashings) = [x]
    ∧ is_surround_vote x.(AnySlashing.attestation_1) x.(AnySlashing.attestation_2) = true) as (x & Hx & Hs)
    by (eexists; split; vm_compute; reflexivity).
  exists x. rewrite Hx. split_and!; [by left|done|].
  apply (slasher_sound slx_config tx_forks 100 100 8 ltac:(done) ltac:(done) ltac:(done) ltac:(done) slx_data_root slx_header_root slx_roots
    (fun l => l) ltac:(done) slx_history slx6 x slx_run). rewrite Hx. by left.
Defined.
Lemma slasher_complete_witness : caught slx_history.(detected) 2.
Proof.
  apply (slasher_complete slx_config tx_forks 100 100 8 ltac:(done) ltac:(done) ltac:(done) ltac:(done) slx_data_root slx_header_root slx_roots
    (fun l => l) ltac:(done) slx_history slx6 2 (slx_attestation [2; 3] 4 7).(AnyAttestation.inner).(IndexedAttestation.data)
    (slx_attestation [1; 2] 5 6).(AnyAttestation.inner).(IndexedAttestation.data) slx_run).
  - apply list_elem_of_In. vm_compute. tauto.
  - apply list_elem_of_In. vm_compute. tauto.
  - right. left. done.
Defined.
Lemma slasher_total_witness : ∃ n h' s', slx_process 8 slx6 = (Ok n, s') ∧ slx_runs h' s'.
Proof.
  pose proof (slasher_total slx_config tx_forks 100 100 8 ltac:(done) ltac:(done) ltac:(done) ltac:(done) slx_data_root slx_header_root slx_roots
    (fun l => l) ltac:(done) slx_history slx6 8 slx_run ltac:(done)) as H.
  assert ((slx_process 8 slx6).1 = Ok (0, 0, 0)%nat) as E by (vm_compute; reflexivity). apply ran in E. unfold slx_process in *.
  rewrite E in H. destruct H as (h' & Hr & _). exists (0, 0, 0)%nat, h'. eexists. split; [exact E|exact Hr].
Defined.
Lemma slasher_proposals_exact_witness : exposed slx_history.(detected_proposals) (48, 3).
Proof.
  apply (slasher_proposals_exact slx_config tx_forks 100 100 8 ltac:(done) ltac:(done) ltac:(done) ltac:(done) slx_data_root slx_header_root slx_roots
    (fun l => l) ltac:(done) slx_history slx6 slx_run) with (b := slx_block 1) (b' := slx_block 2).
  - apply list_elem_of_In. vm_compute. tauto.
  - apply list_elem_of_In. vm_compute. tauto.
  - done.
  - done.
Defined.
Lemma slasher_prune_exact_witness : ∃ s', prune_database slx_config 8 30 slx6 = (Ok tt, s') ∧ prunes slx_config 8 30 slx6.(Slasher.tables) s'.(Slasher.tables)
  ∧ s'.(Slasher.tables).(Tables.indexed_attestations) = ∅.
Proof.
  pose proof (slasher_prune_exact slx_config tx_forks 100 100 8 ltac:(done) ltac:(done) ltac:(done) ltac:(done) slx_data_root slx_header_root slx_roots
    (fun l => l) ltac:(done) slx_history slx6 30 slx_run ltac:(done)) as H.
  assert ((prune_database slx_config 8 30 slx6).1 = Ok tt) as E by (vm_compute; reflexivity). apply ran in E. rewrite E in H.
  eexists. split_and!; [exact E|exact H|]. vm_compute. reflexivity.
Defined.
End example.
