(* ===== verification/Ledger.v ===== *)
(** * The ledger of the builders

    What the builders of a state owe, when their balances cover it, and the
    operations that leave the ledger alone: registry, cache, slashing and reward
    code of the state transition, by the structure of the code. *)
From S2P Require Import Prelude SlotEpoch ProtoArrayDefs ForkChoiceDefs ForkSchedule BeaconStateDefs.
From S2P Require Import ValidatorDefs ShuffleDefs CommitteeDefs MerkleDefs SlashingDefs DoppelgangerDefs ValidatorStoreDefs.
From S2P Require Import StateDefs RegistryDefs BlockDefs EpbsDefs EpochCacheDefs OperationsDefs RequestDefs BlockProcessingDefs.

(** ** Amounts by builder *)
Abbreviation bpw_index := BuilderPendingWithdrawal.builder_index.
Abbreviation bpw_amount := BuilderPendingWithdrawal.amount.

(** What the entries of [l] take from builder [i]. *)
Fixpoint amount_for (i : Z) (l : list BuilderPendingWithdrawal.t) : Z :=
  match l with
  | [] => 0
  | w :: rest => (if w.(bpw_index) =? i then w.(bpw_amount) else 0) + amount_for i rest
  end.
Definition payment_entries (e : Epbs.t) : list BuilderPendingWithdrawal.t :=
  BuilderPendingPayment.withdrawal <$> e.(Epbs.builder_pending_payments).
Definition owed (e : Epbs.t) (i : Z) : Z :=
  amount_for i e.(Epbs.builder_pending_withdrawals) + amount_for i (payment_entries e).

Definition entry_ok (n : nat) (w : BuilderPendingWithdrawal.t) : Prop :=
  0 ≤ w.(bpw_index) ∧ 0 ≤ w.(bpw_amount) ∧ (0 < w.(bpw_amount) → w.(bpw_index) < Z.of_nat n).

(** Every builder can pay what is pending for it; one that is leaving owes
    nothing; every amount names a builder, and a payment gathers weight only for
    an amount. *)
Record solvent (spec : Spec.t) (e : Epbs.t) : Prop := {
  sv_covered : ∀ i b, e.(Epbs.builders) !! i = Some b → owed e (Z.of_nat i) ≤ b.(Builder.balance);
  sv_leaving : ∀ i b, e.(Epbs.builders) !! i = Some b →
    b.(Builder.withdrawable_epoch) ≠ spec.(Spec.far_future_epoch) → owed e (Z.of_nat i) = 0;
  sv_queue : Forall (fun w => entry_ok (length e.(Epbs.builders)) w ∧ 0 < w.(bpw_amount)) e.(Epbs.builder_pending_withdrawals);
  sv_payments : Forall (entry_ok (length e.(Epbs.builders))) (payment_entries e);
  sv_weights : Forall (fun p => 0 < p.(BuilderPendingPayment.weight) →
    0 < p.(BuilderPendingPayment.withdrawal).(bpw_amount)) e.(Epbs.builder_pending_payments);
  sv_balances : Forall (fun b => b.(Builder.balance) ≤ u64_max) e.(Epbs.builders);
  sv_length : Z.of_nat (length e.(Epbs.builders)) ≤ 2 ^ 40;
}.

(** Ranges of the other fields that withdrawals and payments read. *)
Record in_range (spec : Spec.t) (s : State.t) : Prop := {
  rg_fork : ForkName.ge (State.fork_name s) ForkName.Gloas = true;
  rg_total : ∀ e b, s.(State.core).(BeaconState.total_active_balance) = Some (e, b) →
    spec.(Spec.effective_balance_increment) ≤ b;
  rg_validators : Z.of_nat (length (State.validators s)) ≤ 2 ^ 40;
  rg_partials : Forall (fun w => 0 ≤ w.(PendingPartialWithdrawal.validator_index))
                  s.(State.queues).(Queues.pending_partial_withdrawals);
  rg_cursor : 0 ≤ s.(State.registry).(Registry.next_withdrawal_validator_index);
  rg_builder_cursor : 0 ≤ s.(State.epbs).(Epbs.next_withdrawal_builder_index)
                      < Z.max 1 (Z.of_nat (length s.(State.epbs).(Epbs.builders)));
  rg_slot : 0 ≤ State.slot s ≤ u64_max;
}.

Definition ledger_ok (spec : Spec.t) (s : State.t) : Prop := solvent spec s.(State.epbs) ∧ in_range spec s.

(** ** Sums *)
Lemma amount_for_app i l k : amount_for i (l ++ k) = amount_for i l + amount_for i k.
Proof. induction l as [|w l IH]; simpl; lia. Qed.

Lemma amount_for_nonneg i l : Forall (fun w => 0 ≤ w.(bpw_amount)) l → 0 ≤ amount_for i l.
Proof. induction 1 as [|w l Hw _ IH]; simpl; [lia|]. case_match; lia. Qed.

Lemma amount_for_insert i k w w' l :
  l !! k = Some w →
  amount_for i (<[k := w']> l) =
  amount_for i l - (if w.(bpw_index) =? i then w.(bpw_amount) else 0)
  + (if w'.(bpw_index) =? i then w'.(bpw_amount) else 0).
Proof.
  revert k. induction l as [|x l IH]; intros [|k] Hk; simplify_eq/=; [lia|]. rewrite (IH k Hk). lia.
Qed.

(** Amounts that name no builder below [n] are not owed by builder [n]. *)
Lemma amount_for_unknown n l : Forall (entry_ok n) l → amount_for (Z.of_nat n) l = 0.
Proof.
  induction 1 as [|w l (Hi & Ha & Hk) _ IH]; simpl; [done|]. rewrite IH.
  destruct (Z.eqb_spec w.(bpw_index) (Z.of_nat n)); lia.
Qed.

Lemma entry_ok_mono n m w : (n ≤ m)%nat → entry_ok n w → entry_ok m w.
Proof. unfold entry_ok. intros ? (? & ? & H). split_and!; [done..|]. intros ?%H. lia. Qed.
Lemma entry_default n : entry_ok n BuilderPendingWithdrawal.default.
Proof. unfold entry_ok. simpl. lia. Qed.

Lemma amounts_nonneg n l : Forall (entry_ok n) l → Forall (fun w => 0 ≤ w.(bpw_amount)) l.
Proof. intros H. eapply list.Forall_impl; [exact H|]. by intros w (? & ? & ?). Qed.
Lemma queue_entries spec e :
  solvent spec e → Forall (entry_ok (length e.(Epbs.builders))) e.(Epbs.builder_pending_withdrawals).
Proof. intros H. eapply list.Forall_impl; [apply (sv_queue _ _ H)|]. by intros w [? ?]. Qed.

(** The saturating sum of the code is the sum, up to the maximum. *)
Lemma saturating_total_exact i l t :
  0 ≤ t ≤ u64_max → Forall (fun w => 0 ≤ w.(bpw_amount)) l →
  saturating_total i l t = Z.min (t + amount_for i l) u64_max.
Proof.
  intros Ht Hl. revert t Ht. induction Hl as [|w l Hw Hl IH]; intros t Ht; simpl; [lia|].
  pose proof (amount_for_nonneg i l Hl). rewrite IH; unfold u64_saturating_add; case_match; lia.
Qed.

(** ** The frame *)
(** What [ledger_ok] reads. *)
Definition ledger_view (s : State.t) :=
  (s.(State.epbs), s.(State.queues).(Queues.pending_partial_withdrawals),
   s.(State.registry).(Registry.next_withdrawal_validator_index), length (State.validators s), State.slot s,
   State.fork_name s, s.(State.core).(BeaconState.total_active_balance)).

Lemma ledger_ok_view spec s s' : ledger_view s' = ledger_view s → ledger_ok spec s → ledger_ok spec s'.
Proof.
  unfold ledger_view. intros [= He Hp Hc Hl Hsl Hf Ht] [Hs []]. split; [by rewrite He|].
  constructor; [by rewrite Hf|by rewrite Ht|by rewrite Hl|by rewrite Hp|by rewrite Hc|by rewrite He|by rewrite Hsl].
Qed.

(** [m] leaves the ledger as it is, whatever its outcome. *)
Definition frames {E A} (m : M State.t E A) : Prop := ∀ v, keeps (fun s => ledger_view s = v) m.

Lemma frames_keeps {E A} spec (m : M State.t E A) : frames m → keeps (ledger_ok spec) m.
Proof. intros Hf s Hs. eapply ledger_ok_view; [apply (Hf _ s eq_refl)|done]. Qed.

Lemma keeps_on_state {E A} (P : State.t → Prop) (m : M State.t E A) :
  keeps P m → keeps (fun b => P b.(Block.state)) (on_state m).
Proof. intros Hm. apply keeps_zoom with P; [done|done|]. intros s Hs. by apply Hm. Qed.

Lemma frames_use {E A} (m : M State.t E A) v : frames m → keeps (fun s => ledger_view s = v) m.
Proof. intros H. apply H. Qed.
#[export] Hint Extern 2 (keeps (fun s => ledger_view s = _) _) => apply frames_use : keeps.

#[export] Hint Extern 3 (keeps (ledger_ok _) _) => apply frames_keeps : keeps.

(** The same for the methods of a block. *)
Definition bframes {E A} (m : M Block.t E A) : Prop := ∀ v, keeps (fun b => ledger_view b.(Block.state) = v) m.
Lemma bframes_keeps {E A} spec (m : M Block.t E A) : bframes m → keeps (fun b => ledger_ok spec b.(Block.state)) m.
Proof. intros Hf b Hb. eapply ledger_ok_view; [apply (Hf _ b eq_refl)|done]. Qed.
Lemma bframes_use {E A} (m : M Block.t E A) v : bframes m → keeps (fun b => ledger_view b.(Block.state) = v) m.
Proof. intros H. apply H. Qed.
Lemma bframes_on_state {E A} (m : M State.t E A) : frames m → bframes (on_state m).
Proof. intros Hm v. apply (keeps_on_state (fun s => ledger_view s = v)), Hm. Qed.
#[export] Hint Extern 2 (keeps (fun b => ledger_view (Block.state b) = _) _) => apply bframes_use : keeps.
#[export] Hint Resolve bframes_on_state : keeps.

(** Decompose a framed method and close its assignments.  The state that a [get]
    reads has the same view. *)
Ltac head_of t := match t with ?f _ => head_of f | _ => t end.
Ltac frame_modify :=
  apply keeps_modify; intros ? ?;
  repeat match goal with H : ledger_view _ = _ |- _ =>
    unfold ledger_view, State.validators, State.slot, State.fork_name in H; simpl in H end;
  unfold ledger_view, State.validators, State.slot, State.fork_name; simpl; rewrite ?length_insert; congruence.
Ltac frame_steps :=
  repeat match goal with
  | |- keeps _ (get ≫= _) => apply keeps_get_known; intros ? ?
  | |- keeps _ (mbind _ _) => apply keeps_bind; [|intros ?]
  | |- keeps _ (modify _) => frame_modify
  | |- keeps _ (on_state (modify _)) => apply bframes_use, bframes_on_state; intros ?
  | _ => progress keeps_steps
  end.
Ltac frame :=
  match goal with |- ?P ?m => let h := head_of m in unfold h end; intros ?v; frame_steps.

(** ** Operations that leave the ledger alone *)
Section registry.
Context (hash : list Z → list Z) (spec : Spec.t) (forks : ForkSpec.t).

Lemma update_randao_mix_frames e r : frames (update_randao_mix hash spec e r).
Proof. frame. Qed.
Lemma set_slashings_frames e x : frames (set_slashings spec e x).
Proof. frame. Qed.
Lemma update_validator_frames i f : frames (update_validator i f).
Proof. frame. Qed.
Lemma increase_balance_frames i x : frames (increase_balance i x).
Proof. frame. Qed.
Lemma decrease_balance_frames i x : frames (decrease_balance i x).
Proof. frame. Qed.
#[local] Hint Resolve update_validator_frames increase_balance_frames decrease_balance_frames : keeps.

(** What the ledger reads of the core. *)
Definition core_view (c : BeaconState.t) :=
  (c.(BeaconState.validators), c.(BeaconState.slot), c.(BeaconState.fork_name), c.(BeaconState.total_active_balance)).
Lemma on_core_frames {E A} (m : M BeaconState.t E A) :
  (∀ w, keeps (fun c => core_view c = w) m) → frames (on_core m).
Proof.
  intros Hm v s <-. unfold on_core, zoom. pose proof (Hm _ s.(State.core) eq_refl) as H.
  destruct (m s.(State.core)) as [r c]. unfold core_view in H. simpl in H. injection H as H1 H2 H3 H4.
  unfold ledger_view, State.validators, State.slot, State.fork_name. simpl. by rewrite H1, H2, H3, H4.
Qed.
Lemma set_committee_cache_frames i c : frames (set_committee_cache_at_index i c).
Proof. frame. Qed.
#[local] Hint Resolve set_committee_cache_frames : keeps.
Lemma force_build_committee_cache_frames r : frames (force_build_committee_cache hash spec r).
Proof. frame. Qed.
#[local] Hint Resolve force_build_committee_cache_frames : keeps.

(** The total of active balance is at least one increment when it is set. *)
Lemma ledger_ok_total s e b :
  ledger_ok spec s → spec.(Spec.effective_balance_increment) ≤ b →
  ledger_ok spec (State.on_core (BeaconState.set_total_active (Some (e, b))) s).
Proof.
  intros [Hs R] Hb. split; [exact Hs|]. constructor; try apply R. simpl. intros e' b' [= <- <-]. exact Hb.
Qed.
Lemma force_build_total_keeps : keeps (ledger_ok spec) (force_build_total_active_balance_cache spec).
Proof.
  unfold force_build_total_active_balance_cache. stays_steps. apply ledger_ok_total; [done|].
  match goal with H : compute_total_active_balance_slow _ _ _ = _ |- _ => unfold compute_total_active_balance_slow in H; inv_out H end. lia.
Qed.
Lemma build_total_keeps : keeps (ledger_ok spec) (build_total_active_balance_cache spec).
Proof. unfold build_total_active_balance_cache. pose proof force_build_total_keeps. keeps_steps. Qed.
#[local] Hint Resolve build_total_keeps : keeps.
Lemma build_committee_cache_keeps r : keeps (ledger_ok spec) (build_committee_cache hash spec r).
Proof. unfold build_committee_cache. keeps_steps. Qed.
Lemma build_exit_cache_frames : frames (build_exit_cache spec).
Proof. frame. Qed.
Lemma build_slashings_cache_frames : frames build_slashings_cache.
Proof. frame. Qed.
Lemma update_pubkey_cache_frames : frames update_pubkey_cache.
Proof. frame. Qed.
#[local] Hint Resolve build_exit_cache_frames update_pubkey_cache_frames : keeps.
Lemma get_validator_index_frames k : frames (get_validator_index k).
Proof. frame. Qed.
Lemma update_builder_pubkey_cache_frames : frames update_builder_pubkey_cache.
Proof. frame. Qed.
Lemma compute_exit_epoch_frames b : frames (compute_exit_epoch_and_update_churn spec b).
Proof. frame. Qed.
Lemma compute_consolidation_epoch_frames b : frames (compute_consolidation_epoch_and_update_churn spec b).
Proof. frame. Qed.
Lemma push_pending_deposit_frames d : frames (push_pending_deposit spec d).
Proof. frame. Qed.
#[local] Hint Resolve compute_exit_epoch_frames push_pending_deposit_frames : keeps.
Lemma queue_excess_frames i : frames (queue_excess_active_balance spec i).
Proof. frame. Qed.
#[local] Hint Resolve queue_excess_frames : keeps.
Lemma switch_to_compounding_frames i : frames (switch_to_compounding_validator spec i).
Proof. frame. Qed.
Lemma initiate_validator_exit_frames i : frames (initiate_validator_exit spec i).
Proof. frame. Qed.
Lemma initialize_epoch_cache_keeps : keeps (ledger_ok spec) (initialize_epoch_cache spec forks).
Proof. unfold initialize_epoch_cache. keeps_steps. apply frames_keeps. intros v. frame_steps. Qed.
Lemma process_eth1_data_frames d : frames (process_eth1_data spec d).
Proof. frame. Qed.
End registry.
#[export] Hint Resolve
  update_randao_mix_frames set_slashings_frames update_validator_frames
  increase_balance_frames decrease_balance_frames set_committee_cache_frames
  force_build_committee_cache_frames build_total_keeps
  build_committee_cache_keeps build_exit_cache_frames build_slashings_cache_frames
  update_pubkey_cache_frames get_validator_index_frames update_builder_pubkey_cache_frames
  compute_exit_epoch_frames compute_consolidation_epoch_frames push_pending_deposit_frames
  queue_excess_frames switch_to_compounding_frames initiate_validator_exit_frames
  initialize_epoch_cache_keeps process_eth1_data_frames : keeps.

(** ** Running totals *)
Lemma on_progressive_same m w : keeps (fun c => core_view c = w) (on_progressive m).
Proof.
  intros c Hc. unfold on_progressive, zoom. destruct (m _) as [r p]. simpl. exact Hc.
Qed.
#[local] Hint Resolve on_progressive_same : keeps.

Lemma attestation_total_frames e i b sl : frames (on_core (update_progressive_balances_on_attestation e i b sl)).
Proof. apply on_core_frames. intros. unfold update_progressive_balances_on_attestation. keeps_steps. Qed.
Lemma slashing_total_frames i b : frames (on_core (update_progressive_balances_on_slashing i b)).
Proof. apply on_core_frames. intros. unfold update_progressive_balances_on_slashing. keeps_steps. Qed.
Lemma initialize_total_frames spe inc : frames (on_core (initialize_progressive_balances_cache spe inc)).
Proof.
  apply on_core_frames. intros. unfold initialize_progressive_balances_cache. keeps_steps. by apply keeps_modify.
Qed.
#[export] Hint Resolve attestation_total_frames slashing_total_frames initialize_total_frames : keeps.

(** ** Loops *)
Lemma keeps_for_each_indexed {S E A} (P : S → Prop) (f : nat → A → M S E unit) l i :
  (∀ i x, keeps P (f i x)) → keeps P (for_each_indexed i l f).
Proof. intros Hf. revert i. induction l as [|x l IH]; intros i; simpl; [apply keeps_ret|]. apply keeps_bind; auto. Qed.

(** ** Operations *)
Section operations.
Context (hash : list Z → list Z) (hash2 : Hash256 → Hash256 → Hash256).
Context (spec : Spec.t) (forks : ForkSpec.t) (fuel : nat).
Context (signature_set : State.t → Signed.t → outcome SignatureSetError.t bool).
Context (signature_valid : State.t → Signed.t → bool) (decompress : PublicKeyBytes → bool).
Context (deposit_signature : DepositData.t → bool).
Context (attestation_root : BlockAttestation.t → Hash256) (deposit_root : DepositData.t → Hash256).
Context (bls_credentials : PublicKeyBytes → Z).
Context (header_root : BeaconBlockHeader.t → Hash256) (state_root : State.t → outcome BeaconStateError.t Hash256).

Lemma get_proposer_index_frames : bframes (get_proposer_index hash spec fuel).
Proof. frame. Qed.
#[local] Hint Resolve get_proposer_index_frames : keeps.
Lemma slash_validator_frames i w : bframes (slash_validator hash spec fuel i w).
Proof. frame. Qed.
#[local] Hint Resolve slash_validator_frames : keeps.
Lemma ctxt_indexed_frames a : bframes (ctxt_get_indexed_attestation spec attestation_root a).
Proof. frame. Qed.
#[local] Hint Resolve ctxt_indexed_frames : keeps.
Lemma verify_attestation_frames a v : bframes (verify_attestation_for_state spec signature_set attestation_root a v).
Proof. frame. Qed.
#[local] Hint Resolve verify_attestation_frames : keeps.
Lemma verify_inclusion_frames a v :
  bframes (verify_attestation_for_block_inclusion spec signature_set attestation_root a v).
Proof. frame. Qed.
Lemma reward_flags_frames e f b eb sl ws i n : frames (reward_flags e f b eb sl i ws n).
Proof. revert i n. induction ws as [|w ws IH]; intros i n v; simpl; frame_steps. Qed.
Lemma base_push_attestation_frames p bits d : frames (base_push_attestation spec p bits d).
Proof. frame. Qed.
#[local] Hint Resolve verify_inclusion_frames base_push_attestation_frames : keeps.
Lemma base_process_attestations_keeps l v :
  keeps (fun b => ledger_ok spec b.(Block.state))
    (base_process_attestations hash spec forks fuel signature_set attestation_root l v).
Proof.
  unfold base_process_attestations. keeps_steps;
    try (apply keeps_on_state; solve [auto with keeps]); try (apply bframes_keeps; solve [auto with keeps]).
  apply keeps_for_each_indexed. intros. keeps_steps; apply bframes_keeps; auto with keeps.
Qed.
Lemma process_attester_slashings_frames l v : bframes (process_attester_slashings hash spec fuel signature_set l v).
Proof. frame. apply keeps_for_each_indexed. intros. frame_steps. apply keeps_for_each. intros. frame_steps. Qed.

(** ** Exits, deposits and requests *)
Lemma process_bls_changes_frames l v : frames (process_bls_to_execution_changes spec signature_set bls_credentials l v).
Proof. frame. apply keeps_for_each_indexed. intros. frame_steps. Qed.
Lemma push_if_queue_frames d : frames (push_if_queue spec d).
Proof. frame. Qed.
Lemma increment_deposit_index_frames : frames increment_deposit_index.
Proof. frame. Qed.
Lemma queue_consolidation_frames i j v : frames (queue_consolidation spec i j v).
Proof. frame. Qed.
#[local] Hint Resolve queue_consolidation_frames : keeps.
Lemma process_consolidation_request_frames r : frames (process_consolidation_request spec r).
Proof. frame. Qed.
Lemma process_consolidation_requests_frames l : frames (process_consolidation_requests spec l).
Proof. frame. apply keeps_for_each. intros. by apply process_consolidation_request_frames. Qed.

(** ** The rest of a block *)
Lemma process_block_header_frames h v : bframes (process_block_header hash spec fuel header_root h v).
Proof. frame. Qed.
Lemma verify_block_signature_frames b : bframes (verify_block_signature hash spec fuel signature_set b).
Proof. frame. Qed.
Lemma process_randao_frames b v : bframes (process_randao hash spec fuel signature_set b v).
Proof. frame. Qed.
Lemma process_payload_attestation_frames a v :
  frames (process_payload_attestation hash spec fuel signature_valid decompress a v).
Proof. frame. Qed.
Lemma sync_loop_frames p a b ms x : frames (sync_loop p a b ms x).
Proof. revert x. induction ms as [|[i bit] ms IH]; intros x v; simpl; frame_steps. Qed.
#[local] Hint Resolve sync_loop_frames : keeps.
Lemma process_sync_aggregate_frames a p v : frames (process_sync_aggregate spec signature_set a p v).
Proof. frame. Qed.
Lemma fill_header_frames r : frames (fill_header_state_root state_root r).
Proof. frame. Qed.
End operations.
