(* ===== verification/LedgerSteps.v ===== *)
(** * Steps that keep the builders solvent

    Each change to the ledger: a payment is recorded, weighed, blanked, settled
    or rotated, a builder is paid in, registered, sent away or paid out. *)
From S2P Require Import Prelude SlotEpoch ProtoArrayDefs ForkChoiceDefs ForkSchedule BeaconStateDefs.
From S2P Require Import ValidatorDefs ShuffleDefs CommitteeDefs MerkleDefs SlashingDefs DoppelgangerDefs ValidatorStoreDefs.
From S2P Require Import StateDefs RegistryDefs BlockDefs EpbsDefs JustificationDefs EpochGloasDefs Ledger.

Section ledger.
Context (spec : Spec.t).
Abbreviation solvent := (solvent spec).
Abbreviation far_future := (spec.(Spec.far_future_epoch)).
Abbreviation builders e := (e.(Epbs.builders)).
Abbreviation payments e := (e.(Epbs.builder_pending_payments)).
Abbreviation queue e := (e.(Epbs.builder_pending_withdrawals)).
Abbreviation withdrawal := BuilderPendingPayment.withdrawal.

(** What an entry takes from builder [i]. *)
Definition part (i : Z) (w : BuilderPendingWithdrawal.t) : Z := if w.(bpw_index) =? i then w.(bpw_amount) else 0.

Lemma part_nonneg n i w : entry_ok n w → 0 ≤ part i w.
Proof. intros (? & ? & ?). unfold part. case_match; lia. Qed.
Lemma owed_nonneg e i : solvent e → 0 ≤ owed e i.
Proof.
  intros Hs. unfold owed. pose proof (amount_for_nonneg i _ (amounts_nonneg _ _ (queue_entries _ _ Hs))).
  pose proof (amount_for_nonneg i _ (amounts_nonneg _ _ (sv_payments _ _ Hs))). lia.
Qed.
Lemma part_default i : part i BuilderPendingWithdrawal.default = 0.
Proof. unfold part. by case_match. Qed.

Lemma payment_entry e k p : payments e !! k = Some p → payment_entries e !! k = Some p.(withdrawal).
Proof. intros H. unfold payment_entries. by rewrite list_lookup_fmap, H. Qed.

Lemma owed_set_payment e k p p' i :
  payments e !! k = Some p →
  owed (Epbs.set_builder_pending_payments (<[k := p']> (payments e)) e) i
  = owed e i - part i p.(withdrawal) + part i p'.(withdrawal).
Proof.
  intros Hk. unfold owed, payment_entries, part. simpl. rewrite list_fmap_insert.
  rewrite (amount_for_insert i k p.(withdrawal)) by (rewrite list_lookup_fmap, Hk; done). lia.
Qed.

(** ** Payments *)
(** Replacing a payment is safe when the builders still cover what they owe. *)
Lemma set_payment_solvent e k p p' :
  solvent e → payments e !! k = Some p → entry_ok (length (builders e)) p'.(withdrawal) →
  (0 < p'.(BuilderPendingPayment.weight) → 0 < p'.(withdrawal).(bpw_amount)) →
  (∀ i b, builders e !! i = Some b →
     owed e (Z.of_nat i) + part (Z.of_nat i) p'.(withdrawal) - part (Z.of_nat i) p.(withdrawal) ≤ b.(Builder.balance)) →
  (∀ i b, builders e !! i = Some b → b.(Builder.withdrawable_epoch) ≠ far_future →
     part (Z.of_nat i) p'.(withdrawal) = part (Z.of_nat i) p.(withdrawal) ∨ part (Z.of_nat i) p'.(withdrawal) = 0) →
  solvent (Epbs.set_builder_pending_payments (<[k := p']> (payments e)) e).
Proof.
  intros Hs Hk Hok Hw Hcov Hleave.
  constructor; simpl; try apply Hs.
  - intros i b Hb. rewrite (owed_set_payment _ _ _ _ _ Hk). pose proof (Hcov i b Hb). lia.
  - intros i b Hb Hne. rewrite (owed_set_payment _ _ _ _ _ Hk). pose proof (sv_leaving _ _ Hs i b Hb Hne) as H0.
    assert (part (Z.of_nat i) p.(withdrawal) = 0) as Hp.
    { pose proof (payment_entry _ _ _ Hk) as He.
      pose proof (owed_set_payment e k p BuilderPendingPayment.default (Z.of_nat i) Hk) as H1.
      pose proof (part_nonneg _ (Z.of_nat i) _ (Forall_lookup_1 _ _ _ _ (sv_payments _ _ Hs) He)).
      pose proof (amount_for_nonneg (Z.of_nat i) _ (amounts_nonneg _ _ (queue_entries _ _ Hs))).
      assert (0 ≤ amount_for (Z.of_nat i) (<[k := BuilderPendingWithdrawal.default]> (payment_entries e))).
      { apply amount_for_nonneg, Forall_insert; [|done]. apply (amounts_nonneg _ _ (sv_payments _ _ Hs)). }
      rewrite (amount_for_insert _ _ _ _ _ He) in *. unfold owed, part in *.
      destruct (bpw_index (withdrawal p) =? Z.of_nat i), (bpw_index BuilderPendingWithdrawal.default =? Z.of_nat i);
        simpl in *; lia. }
    destruct (Hleave i b Hb Hne); lia.
  - unfold payment_entries. simpl. rewrite list_fmap_insert. apply Forall_insert; [apply Hs|done].
  - apply Forall_insert; [apply Hs|done].
Qed.

Lemma blank_payment_solvent e k p :
  solvent e → payments e !! k = Some p →
  solvent (Epbs.set_builder_pending_payments (<[k := BuilderPendingPayment.default]> (payments e)) e).
Proof.
  intros Hs Hk. pose proof (Forall_lookup_1 _ _ _ _ (sv_payments _ _ Hs) (payment_entry _ _ _ Hk)) as He.
  eapply set_payment_solvent; [done|done|apply entry_default|done|..]; simpl.
  - intros i b Hb. pose proof (sv_covered _ _ Hs i b Hb). pose proof (part_nonneg _ (Z.of_nat i) _ He).
    rewrite part_default. lia.
  - intros i b _ _. right. apply part_default.
Qed.

Lemma weigh_payment_solvent e k p w :
  solvent e → payments e !! k = Some p → 0 < p.(withdrawal).(bpw_amount) →
  solvent (Epbs.set_builder_pending_payments (<[k := BuilderPendingPayment.set_weight w p]> (payments e)) e).
Proof.
  intros Hs Hk Ha. pose proof (Forall_lookup_1 _ _ _ _ (sv_payments _ _ Hs) (payment_entry _ _ _ Hk)) as He.
  eapply set_payment_solvent; [done|done|done|done|..]; simpl.
  - intros i b Hb. pose proof (sv_covered _ _ Hs i b Hb). lia.
  - intros i b _ _. by left.
Qed.

(** The builder that bids is active and covers the bid on top of what it owes. *)
Lemma record_payment_solvent e k p j b fee amount :
  solvent e → payments e !! k = Some p → builders e !! j = Some b →
  b.(Builder.withdrawable_epoch) = far_future → 0 < amount → owed e (Z.of_nat j) + amount ≤ b.(Builder.balance) →
  solvent (Epbs.set_builder_pending_payments
    (<[k := BuilderPendingPayment.mk 0 (BuilderPendingWithdrawal.mk fee amount (Z.of_nat j))]> (payments e)) e).
Proof.
  intros Hs Hk Hj Hfar Ha Hcov.
  pose proof (Forall_lookup_1 _ _ _ _ (sv_payments _ _ Hs) (payment_entry _ _ _ Hk)) as He.
  apply lookup_lt_Some in Hj as Hlt.
  eapply set_payment_solvent; [done|done| |simpl; lia|..]; simpl.
  - unfold entry_ok. simpl. lia.
  - intros i b' Hb. pose proof (sv_covered _ _ Hs i b' Hb). pose proof (part_nonneg _ (Z.of_nat i) _ He).
    unfold part at 1. simpl. destruct (Z.eqb_spec (Z.of_nat j) (Z.of_nat i)) as [E%Nat2Z.inj|]; [|lia].
    simplify_eq. lia.
  - intros i b' Hb Hne. right. unfold part. simpl.
    destruct (Z.eqb_spec (Z.of_nat j) (Z.of_nat i)) as [E%Nat2Z.inj|]; [|done]. simplify_eq.
Qed.
(** A payment that moves to the queue is owed as before. *)
Lemma settle_solvent e k p :
  solvent e → payments e !! k = Some p → 0 < p.(withdrawal).(bpw_amount) →
  solvent (Epbs.set_builder_pending_payments (<[k := BuilderPendingPayment.default]> (payments e))
             (Epbs.set_builder_pending_withdrawals (queue e ++ [p.(withdrawal)]) e)).
Proof.
  intros Hs Hk Ha. pose proof (Forall_lookup_1 _ _ _ _ (sv_payments _ _ Hs) (payment_entry _ _ _ Hk)) as He.
  assert (∀ i, owed (Epbs.set_builder_pending_payments (<[k := BuilderPendingPayment.default]> (payments e))
            (Epbs.set_builder_pending_withdrawals (queue e ++ [p.(withdrawal)]) e)) i = owed e i) as Hsame.
  { intros i. pose proof (owed_set_payment (Epbs.set_builder_pending_withdrawals (queue e ++ [p.(withdrawal)]) e)
      k p BuilderPendingPayment.default i Hk) as H1. simpl in H1. rewrite H1, part_default.
    unfold owed, part, payment_entries. simpl. rewrite amount_for_app. simpl. lia. }
  pose proof (blank_payment_solvent e k p Hs Hk) as Hb.
  constructor; simpl; try apply Hb.
  - intros i b Hi. rewrite Hsame. by apply (sv_covered _ _ Hs).
  - intros i b Hi Hne. rewrite Hsame. by apply (sv_leaving _ _ Hs i b).
  - apply Forall_app; split; [apply Hs|]. by apply Forall_singleton.
Qed.

(** ** The end of an epoch *)
Lemma rotated_payments_eq l :
  rotated_payments spec l =
  take (length l) (take (Z.to_nat spec.(Spec.slots_per_epoch)) (drop (Z.to_nat spec.(Spec.slots_per_epoch)) l)
    ++ replicate (length l) BuilderPendingPayment.default).
Proof.
  set (n := Z.to_nat _). unfold rotated_payments. fold n. apply list_eq. intros i.
  rewrite list_lookup_fmap, lookup_take. case_decide as Hi; [|by rewrite lookup_seq_ge by lia].
  rewrite lookup_seq_lt by done. simpl. rewrite lookup_app, lookup_take, lookup_drop, length_take, length_drop.
  destruct (Nat.ltb_spec i n); case_decide; try lia.
  - rewrite (Nat.add_comm n i). destruct (l !! (i + n)%nat) eqn:E; simpl; [done|].
    apply lookup_ge_None in E. by rewrite lookup_replicate_2 by lia.
  - by rewrite lookup_replicate_2 by lia.
Qed.

Lemma amount_for_defaults i n : amount_for i (replicate n BuilderPendingWithdrawal.default) = 0.
Proof. induction n as [|n IH]; simpl; [done|]. rewrite IH. case_match; lia. Qed.
Lemma amount_for_take_app i k l : amount_for i l = amount_for i (take k l) + amount_for i (drop k l).
Proof. by rewrite <- amount_for_app, take_drop. Qed.
Lemma rotated_entries n l :
  Forall (entry_ok n) (withdrawal <$> l) → Forall (entry_ok n) (withdrawal <$> rotated_payments spec l).
Proof.
  intros Hl. rewrite rotated_payments_eq, fmap_take, fmap_app, fmap_take, fmap_drop, fmap_replicate.
  apply Forall_take, Forall_app; split; [by apply Forall_take, Forall_drop|]. apply Forall_replicate, entry_default.
Qed.
Lemma rotated_amount n i l :
  Forall (entry_ok n) (withdrawal <$> l) →
  amount_for i (withdrawal <$> rotated_payments spec l)
  ≤ amount_for i (drop (Z.to_nat spec.(Spec.slots_per_epoch)) (withdrawal <$> l)).
Proof.
  intros Hl. rewrite rotated_payments_eq, fmap_take, fmap_app, fmap_take, fmap_drop, fmap_replicate.
  set (rot := (_ ++ _)). set (spe := Z.to_nat _) in *.
  assert (Forall (entry_ok n) rot) as Hrot.
  { apply Forall_app; split; [by apply Forall_take, Forall_drop|]. apply Forall_replicate, entry_default. }
  pose proof (amount_for_take_app i (length l) rot).
  pose proof (amount_for_nonneg i _ (amounts_nonneg _ _ (Forall_drop _ (length l) _ Hrot))).
  subst rot. rewrite amount_for_app in *. rewrite amount_for_defaults in *.
  pose proof (amount_for_take_app i spe (drop spe (withdrawal <$> l))).
  pose proof (amount_for_nonneg i _ (amounts_nonneg _ _ (Forall_drop _ spe _ (Forall_drop _ spe _ Hl)))). lia.
Qed.
Lemma qualifying_amount n i q l :
  Forall (entry_ok n) (withdrawal <$> l) →
  amount_for i (qualifying_withdrawals spec q l)
  ≤ amount_for i (take (Z.to_nat spec.(Spec.slots_per_epoch)) (withdrawal <$> l)).
Proof.
  unfold qualifying_withdrawals. rewrite <- fmap_take. intros Hl.
  assert (Forall (entry_ok n) (withdrawal <$> take (Z.to_nat spec.(Spec.slots_per_epoch)) l)) as Ht.
  { rewrite fmap_take. by apply Forall_take. }
  clear Hl. induction (take _ l) as [|p ps IH]; [done|]. apply list.Forall_cons in Ht as [Hp Hps]. specialize (IH Hps).
  rewrite filter_cons. pose proof (part_nonneg n i _ Hp) as Hnn. unfold part in Hnn.
  case_decide; csimpl; lia.
Qed.
Lemma qualifying_entries n q l :
  0 < q → Forall (entry_ok n) (withdrawal <$> l) →
  Forall (fun p => 0 < p.(BuilderPendingPayment.weight) → 0 < p.(withdrawal).(bpw_amount)) l →
  Forall (fun w => entry_ok n w ∧ 0 < w.(bpw_amount)) (qualifying_withdrawals spec q l).
Proof.
  intros Hq Hl Hw. unfold qualifying_withdrawals. apply Forall_fmap, list.Forall_forall. intros p Hp.
  apply list_elem_of_filter in Hp as [Hqp Hin].
  apply elem_of_take in Hin as (k & Hk & _). simpl. split.
  - eapply (Forall_lookup_1 _ _ k); [exact Hl|]. by rewrite list_lookup_fmap, Hk.
  - apply (Forall_lookup_1 _ _ _ _ Hw Hk). lia.
Qed.

(** What reached the quorum moves to the queue; the rest of the older half is
    dropped. *)
Lemma rotate_solvent e q :
  0 < q → solvent e →
  solvent (Epbs.set_builder_pending_payments (rotated_payments spec (payments e))
             (Epbs.set_builder_pending_withdrawals (queue e ++ qualifying_withdrawals spec q (payments e)) e)).
Proof.
  intros Hq Hs. pose proof (sv_payments _ _ Hs) as Hp.
  set (e' := Epbs.set_builder_pending_payments _ _).
  assert (∀ i, 0 ≤ owed e' i ≤ owed e i) as Hle.
  { intros i. pose proof (rotated_amount _ i _ Hp). pose proof (qualifying_amount _ i q _ Hp).
    pose proof (amount_for_take_app i (Z.to_nat spec.(Spec.slots_per_epoch)) (payment_entries e)).
    pose proof (amount_for_nonneg i _ (amounts_nonneg _ _ (queue_entries _ _ Hs))).
    pose proof (amount_for_nonneg i _ (amounts_nonneg _ _ (rotated_entries _ _ Hp))).
    assert (0 ≤ amount_for i (qualifying_withdrawals spec q (payments e))).
    { apply amount_for_nonneg. eapply list.Forall_impl; [exact (qualifying_entries _ q _ Hq Hp (sv_weights _ _ Hs))|].
      intros w [? ?]. simpl. lia. }
    unfold owed, payment_entries in *. simpl. rewrite amount_for_app. lia. }
  constructor; simpl; try apply Hs.
  - intros i b Hb. pose proof (sv_covered _ _ Hs i b Hb). specialize (Hle (Z.of_nat i)). lia.
  - intros i b Hb Hne. pose proof (sv_leaving _ _ Hs i b Hb Hne). specialize (Hle (Z.of_nat i)). lia.
  - apply Forall_app; split; [apply Hs|]. apply qualifying_entries; [done|exact Hp|apply Hs].
  - apply (rotated_entries _ _ Hp).
  - rewrite rotated_payments_eq. apply Forall_take, Forall_app; split; [apply Forall_take, Forall_drop, Hs|].
    by apply Forall_replicate.
Qed.
(** ** Builders *)
Lemma set_builder_solvent e i b b' :
  solvent e → builders e !! i = Some b → owed e (Z.of_nat i) ≤ b'.(Builder.balance) ≤ u64_max →
  (b'.(Builder.withdrawable_epoch) ≠ far_future → owed e (Z.of_nat i) = 0) →
  solvent (Epbs.set_builders (<[i := b']> (builders e)) e).
Proof.
  intros Hs Hi Hbal Hleave.
  constructor; simpl; rewrite ?length_insert; try apply Hs.
  - intros j c [(<- & <- & _)|(_ & Hj)]%list_lookup_insert_Some; [apply Hbal|by apply (sv_covered _ _ Hs)].
  - intros j c [(<- & <- & _)|(_ & Hj)]%list_lookup_insert_Some Hne; [by apply Hleave|by apply (sv_leaving _ _ Hs j c)].
  - apply Forall_insert; [apply Hs|lia].
Qed.

Lemma push_builder_solvent e b :
  solvent e → 0 ≤ b.(Builder.balance) ≤ u64_max → b.(Builder.withdrawable_epoch) = far_future →
  Z.of_nat (length (builders e)) < 2 ^ 40 → solvent (Epbs.set_builders (builders e ++ [b]) e).
Proof.
  intros Hs Hb Hfar Hlen. pose proof (queue_entries _ _ Hs) as Hq. pose proof (sv_payments _ _ Hs) as Hp.
  assert (∀ w, entry_ok (length (builders e)) w → entry_ok (length (builders e ++ [b])) w) as Hmono.
  { intros w. apply entry_ok_mono. rewrite length_app. simpl. lia. }
  constructor; simpl; try apply Hs.
  - intros i c [[_ Hi]|[Hi <-]]%lookup_snoc_Some; [by apply (sv_covered _ _ Hs i c)|]. subst i.
    unfold owed. simpl. unfold payment_entries in *. simpl. rewrite !amount_for_unknown by done. lia.
  - intros i c [[_ Hi]|[Hi <-]]%lookup_snoc_Some Hne; [by apply (sv_leaving _ _ Hs i c)|done].
  - eapply list.Forall_impl; [apply (sv_queue _ _ Hs)|]. intros w [? ?]. split; [by apply Hmono|done].
  - eapply list.Forall_impl; [exact Hp|done].
  - apply Forall_app; split; [apply Hs|]. apply Forall_singleton. lia.
  - rewrite length_app. simpl. lia.
Qed.

(** The first [k] entries of the queue are paid. *)
Lemma pay_out_solvent e k bs :
  solvent e → length bs = length (builders e) →
  (∀ i b', bs !! i = Some b' → ∃ b, builders e !! i = Some b ∧
     b'.(Builder.withdrawable_epoch) = b.(Builder.withdrawable_epoch) ∧ b'.(Builder.balance) ≤ u64_max ∧
     owed e (Z.of_nat i) - amount_for (Z.of_nat i) (take k (queue e)) ≤ b'.(Builder.balance)) →
  solvent (Epbs.set_builder_pending_withdrawals (drop k (queue e)) (Epbs.set_builders bs e)).
Proof.
  intros Hs Hlen Hbs.
  set (e' := Epbs.set_builder_pending_withdrawals _ _).
  assert (∀ i, owed e' i = owed e i - amount_for i (take k (queue e))) as Howed.
  { intros i. unfold owed, payment_entries. simpl. rewrite (amount_for_take_app i k (queue e)). lia. }
  constructor; simpl; rewrite ?Hlen; try apply Hs.
  - intros i b' Hb'. destruct (Hbs i b' Hb') as (b & _ & _ & _ & Hc). rewrite Howed. done.
  - intros i b' Hb' Hne. destruct (Hbs i b' Hb') as (b & Hb & Hw & _ & _). rewrite Howed.
    pose proof (sv_leaving _ _ Hs i b Hb ltac:(congruence)) as H0.
    pose proof (amounts_nonneg _ _ (queue_entries _ _ Hs)) as Hq.
    pose proof (amount_for_nonneg (Z.of_nat i) _ (Forall_take _ k _ Hq)).
    pose proof (amount_for_nonneg (Z.of_nat i) _ (Forall_drop _ k _ Hq)).
    pose proof (amount_for_take_app (Z.of_nat i) k (queue e)).
    pose proof (amount_for_nonneg (Z.of_nat i) _ (amounts_nonneg _ _ (sv_payments _ _ Hs))). unfold owed in *. lia.
  - apply Forall_drop, Hs.
  - apply Forall_lookup. intros i b' Hb'. destruct (Hbs i b' Hb') as (b & _ & _ & ? & _). lia.
Qed.
End ledger.
