(* ===== verification/LedgerOps.v ===== *)
(** * Operations that change the ledger

    Bids, attestations, slashings, exits, deposits, requests, the settlement of a
    payment and the rotation at the end of an epoch keep the builders solvent. *)
From S2P Require Import Prelude SlotEpoch ProtoArrayDefs ForkChoiceDefs ForkSchedule BeaconStateDefs.
From S2P Require Import ValidatorDefs ShuffleDefs CommitteeDefs MerkleDefs SlashingDefs DoppelgangerDefs ValidatorStoreDefs.
From S2P Require Import StateDefs RegistryDefs BlockDefs EpbsDefs JustificationDefs EpochCacheDefs OperationsDefs RequestDefs.
From S2P Require Import BlockProcessingDefs EpochGloasDefs Ledger LedgerSteps.

(** What the solvency of the builders needs of the configuration. *)
Record ledger_spec (spec : Spec.t) : Prop := {
  ls_validators : spec.(Spec.validator_registry_limit) ≤ 2 ^ 40;
  ls_builders : spec.(Spec.builder_registry_limit) ≤ 2 ^ 40;
  ls_min_deposit : 0 ≤ spec.(Spec.min_deposit_amount);
  ls_far_future : spec.(Spec.far_future_epoch) = u64_max;
  ls_slots : 1 < spec.(Spec.slots_per_epoch);
  ls_threshold : 0 ≤ spec.(Spec.builder_payment_threshold_numerator) ∧ 0 < spec.(Spec.builder_payment_threshold_denominator);
  ls_quorum : 0 < spec.(Spec.effective_balance_increment) / spec.(Spec.slots_per_epoch)
                  * spec.(Spec.builder_payment_threshold_numerator) / spec.(Spec.builder_payment_threshold_denominator);
}.

(** A getter answers with the field. *)
Lemma gated_ok {A} f s (x y : A) : gated f s x = Ok y → y = x.
Proof. unfold gated. case_match; congruence. Qed.
Ltac gated_eq :=
  repeat match goal with
  | H : st_builders _ = Ok _ |- _ => apply gated_ok in H
  | H : st_builder_pending_payments _ = Ok _ |- _ => apply gated_ok in H
  | H : st_builder_pending_withdrawals _ = Ok _ |- _ => apply gated_ok in H
  | H : st_pending_partial_withdrawals _ = Ok _ |- _ => apply gated_ok in H
  | H : st_next_withdrawal_validator_index _ = Ok _ |- _ => apply gated_ok in H
  | H : st_next_withdrawal_builder_index _ = Ok _ |- _ => apply gated_ok in H
  end; subst.

Lemma push_ok {A} limit (x : A) l l' : Milhouse.push limit x l = Ok l' → l' = l ++ [x] ∧ Z.of_nat (length l) < limit.
Proof. unfold Milhouse.push. destruct (Z.ltb_spec (Z.of_nat (length l)) limit); naive_solver. Qed.
Lemma set_at_ok {E A} (l : list A) i v (e : E) l' : set_at l i v e = Ok l' → l' = <[i := v]> l ∧ is_Some (l !! i).
Proof. unfold set_at. destruct (Nat.ltb_spec i (length l)); intros [= <-]. split; [done|]. by apply lookup_lt_is_Some. Qed.

Section ops.
Context (spec : Spec.t) (Hspec : ledger_spec spec).
Abbreviation ok := (ledger_ok spec).

(** Replacing the fields of the builders, with the ranges as they are. *)
Lemma ledger_ok_epbs s f :
  ok s → solvent spec (f s.(State.epbs)) →
  0 ≤ (f s.(State.epbs)).(Epbs.next_withdrawal_builder_index)
  < Z.max 1 (Z.of_nat (length (f s.(State.epbs)).(Epbs.builders))) →
  ok (State.on_epbs f s).
Proof. intros [Hs []] Hf Hc. split; [done|]. by constructor. Qed.
(** Most changes keep the cursor and the number of builders. *)
Lemma ledger_ok_epbs' s f :
  ok s → solvent spec (f s.(State.epbs)) →
  (f s.(State.epbs)).(Epbs.next_withdrawal_builder_index) = s.(State.epbs).(Epbs.next_withdrawal_builder_index) →
  (length s.(State.epbs).(Epbs.builders) ≤ length (f s.(State.epbs)).(Epbs.builders))%nat →
  ok (State.on_epbs f s).
Proof. intros Hok Hf Hc Hl. apply ledger_ok_epbs; [done|done|]. rewrite Hc. destruct (rg_builder_cursor _ _ (proj2 Hok)). lia. Qed.

(** ** Payments *)
Lemma add_payment_weight_keeps data current eb : keeps ok (add_payment_weight spec data current eb).
Proof.
  unfold add_payment_weight. apply keeps_bind; [apply keeps_try|intros m]. apply keeps_bind; [keeps_steps|intros i].
  stays_steps. gated_eq. btoprop.
  apply ledger_ok_epbs'; [done| |done|done]. eapply weigh_payment_solvent; [apply H|done|lia].
Qed.

Lemma remove_slashed_payment_keeps slot : keeps ok (remove_slashed_payment spec slot).
Proof.
  unfold remove_slashed_payment. stays_steps. gated_eq.
  apply ledger_ok_epbs'; [done| |done|done]. simpl.
  destruct (s.(State.epbs).(Epbs.builder_pending_payments) !! n) as [p|] eqn:Hp.
  - eapply blank_payment_solvent; [apply H|done].
  - rewrite list_insert_ge by (by apply lookup_ge_None). destruct s as [? ? ? ? []]. apply H.
Qed.
(** ** Bids *)
Lemma solvent_ext e e' :
  Epbs.builders e' = Epbs.builders e → Epbs.builder_pending_payments e' = Epbs.builder_pending_payments e →
  Epbs.builder_pending_withdrawals e' = Epbs.builder_pending_withdrawals e → solvent spec e → solvent spec e'.
Proof.
  intros Hb Hp Hq []. assert (∀ i, owed e' i = owed e i) as Ho.
  { intros i. unfold owed, payment_entries. by rewrite Hp, Hq. }
  constructor; unfold payment_entries in *; rewrite ?Hb, ?Hp, ?Hq; try done; intros i b Hi; rewrite Ho; eauto.
Qed.

Lemma pending_balance_exact s i v :
  ok s → get_pending_balance_to_withdraw_for_builder s i = Ok v → v = Z.min (owed s.(State.epbs) i) u64_max.
Proof.
  intros [Hs _] H. unfold get_pending_balance_to_withdraw_for_builder in H.
  destruct (st_builder_pending_withdrawals s) as [q| | |] eqn:Hq; simplify_eq/=.
  destruct (st_builder_pending_payments s) as [ps| | |] eqn:Hp; simplify_eq/=. gated_eq.
  pose proof (amounts_nonneg _ _ (queue_entries _ _ Hs)) as H1. pose proof (amounts_nonneg _ _ (sv_payments _ _ Hs)) as H2.
  pose proof (amount_for_nonneg i _ H1). pose proof (amount_for_nonneg i _ H2).
  rewrite (saturating_total_exact i _ 0), saturating_total_exact; unfold owed, payment_entries, u64_max in *;
    first [done|lia].
Qed.

(** An accepted bid of a builder is covered on top of what it owes. *)
Lemma check_builder_bid_covers signature_valid decompress s signed_bid v :
  ok s → check_builder_bid spec signature_valid decompress s signed_bid v = Ok tt →
  let bid := signed_bid.(SignedBid.message) in
  0 ≤ bid.(PayloadBid.builder_index) → 0 < bid.(PayloadBid.value) →
  ∃ b, s.(State.epbs).(Epbs.builders) !! Z.to_nat bid.(PayloadBid.builder_index) = Some b ∧
    b.(Builder.withdrawable_epoch) = spec.(Spec.far_future_epoch) ∧
    owed s.(State.epbs) bid.(PayloadBid.builder_index) + bid.(PayloadBid.value) + spec.(Spec.min_deposit_amount)
    ≤ b.(Builder.balance).
Proof using Hspec.
  intros Hok H bid Hi Hv. unfold check_builder_bid in H. fold bid in H.
  destruct (st_builders s) as [bs| | |] eqn:Hbs; simplify_eq/=. 
  destruct (bs !! _) as [b|] eqn:Hb; simplify_eq/=. exists b.
  destruct (Builder.is_active_at_finalized_epoch _ _ _) eqn:Hact; simplify_eq/=.
  destruct (can_builder_cover_bid _ _ _ _) as [[]| | |] eqn:Hcov; simplify_eq/=. clear H.
  unfold can_builder_cover_bid in Hcov. rewrite Hbs in Hcov. simpl in Hcov. rewrite Hb in Hcov. simpl in Hcov.
  destruct (get_pending_balance_to_withdraw_for_builder _ _) as [p| | |] eqn:Hp; simplify_eq/=.
  apply (pending_balance_exact s) in Hp; [|done]. gated_eq. split; [done|].
  unfold Builder.is_active_at_finalized_epoch in Hact. btoprop. split; [lia|].
  destruct (Z.ltb_spec (Builder.balance b) (u64_saturating_add (Spec.min_deposit_amount spec)
    (Z.min (owed (State.epbs s) (PayloadBid.builder_index bid)) u64_max))); simplify_eq/=. btoprop.
  pose proof (Forall_lookup_1 _ _ _ _ (sv_balances _ _ (proj1 Hok)) Hb). simpl in *.
  pose proof (ls_min_deposit _ Hspec). pose proof (owed_nonneg _ _ (PayloadBid.builder_index bid) (proj1 Hok)).
  unfold u64_saturating_add, u64_saturating_sub in *. lia.
Qed.

Lemma record_payment_stays s bid b :
  ok s → 0 ≤ bid.(PayloadBid.builder_index) → 0 < bid.(PayloadBid.value) →
  s.(State.epbs).(Epbs.builders) !! Z.to_nat bid.(PayloadBid.builder_index) = Some b →
  b.(Builder.withdrawable_epoch) = spec.(Spec.far_future_epoch) →
  owed s.(State.epbs) bid.(PayloadBid.builder_index) + bid.(PayloadBid.value) ≤ b.(Builder.balance) →
  stays ok (record_payment spec bid) s.
Proof.
  intros Hok Hi Hv Hb Hw Hcov. unfold record_payment. stays_steps.
  match goal with H : or_reason _ _ = _ |- _ => apply map_err_ok in H end. gated_eq.
  match goal with H : set_at _ _ _ _ = _ |- _ => apply set_at_ok in H as [-> [p Hp]] end.
  apply ledger_ok_epbs'; [done| |done|done].
  rewrite <- (Z2Nat.id bid.(PayloadBid.builder_index)) in * by done. rewrite Nat2Z.id in *.
  eapply record_payment_solvent; [apply Hok|done..].
Qed.

Lemma set_bid_keeps fork bid : keeps ok (set_latest_execution_payload_bid fork bid).
Proof.
  unfold set_latest_execution_payload_bid. stays_steps. apply ledger_ok_epbs'; [done| |done|done].
  by eapply solvent_ext; [..|apply H].
Qed.

Lemma process_bid_keeps forks signature_valid decompress signed_bid slot parent v :
  0 ≤ signed_bid.(SignedBid.message).(PayloadBid.builder_index) →
  keeps ok (process_execution_payload_bid spec forks signature_valid decompress signed_bid slot parent v).
Proof using Hspec.
  intros Hi. unfold process_execution_payload_bid. stays_steps.
  apply stays_then; [|intros _; apply keeps_rethrow, set_bid_keeps]. stays_steps. btoprop.
  destruct (_ =? _); [unfold check_self_build in *; repeat case_match; btoprop; simplify_eq; lia|].
  destruct a0. edestruct check_builder_bid_covers as (b & Hb & Hw & Hcov); [done..|].
  pose proof (ls_min_deposit _ Hspec). eapply record_payment_stays; [done..|lia].
Qed.
(** ** Exits *)
Lemma initiate_builder_exit_stays i s :
  ok s → (∀ b, s.(State.epbs).(Epbs.builders) !! Z.to_nat i = Some b → owed s.(State.epbs) (Z.of_nat (Z.to_nat i)) = 0) →
  stays ok (initiate_builder_exit spec i) s.
Proof.
  intros Hok Howed. unfold initiate_builder_exit. stays_steps. gated_eq.
  match goal with H : ok_or _ _ = _ |- _ => apply ok_or_ok in H as Hb end.
  apply ledger_ok_epbs'; [done| |done|simpl; by rewrite length_insert].
  eapply set_builder_solvent; [apply Hok|done| |intros _; by eapply Howed]. simpl.
  split; [by apply (sv_covered _ _ (proj1 Hok))|]. apply (Forall_lookup_1 _ _ _ _ (sv_balances _ _ (proj1 Hok)) Hb).
Qed.

Lemma verify_ok {T} b (r : T) a : verify b r = Ok a → b = true.
Proof. unfold verify. by destruct b. Qed.

Lemma verify_exit_builder signature_set s e v :
  ok s → 0 ≤ e.(SignedVoluntaryExit.validator_index) → verify_exit spec signature_set s e v = Ok true →
  ∃ b, s.(State.epbs).(Epbs.builders) !! Z.to_nat (to_builder_index e.(SignedVoluntaryExit.validator_index)) = Some b ∧
    owed s.(State.epbs) (to_builder_index e.(SignedVoluntaryExit.validator_index)) = 0.
Proof.
  intros Hok Hi H. unfold verify_exit in H. inv_out H. case_match; inv_out H; [|done].
  unfold verify_builder_exit in *. inv_out Ho0. gated_eq.
  match goal with H : verify (_ =? 0) _ = _ |- _ => apply verify_ok in H end. btoprop.
  match goal with H : get_pending_balance_to_withdraw_for_builder _ _ = _ |- _ =>
    apply (pending_balance_exact s) in H; [|done] end.
  pose proof (owed_nonneg _ _ (to_builder_index e.(SignedVoluntaryExit.validator_index)) (proj1 Hok)).
  eexists. split; [done|]. unfold u64_max in *. lia.
Qed.

Lemma to_builder_index_nonneg i : 0 ≤ i → 0 ≤ to_builder_index i.
Proof. intros Hi. apply Z.ldiff_nonneg. tauto. Qed.

Lemma process_exit_keeps signature_set v i e :
  0 ≤ e.(SignedVoluntaryExit.validator_index) → keeps ok (process_exit spec signature_set v i e).
Proof.
  intros Hi. unfold process_exit. stays_steps.
  match goal with H : map_err _ _ = _ |- _ => apply map_err_ok in H end.
  edestruct verify_exit_builder as (b & Hb & Ho); [done..|]. apply initiate_builder_exit_stays; [done|].
  intros c Hc. by rewrite Z2Nat.id by (by apply to_builder_index_nonneg).
Qed.
Lemma process_exits_keeps signature_set l v :
  Forall (fun e => 0 ≤ e.(SignedVoluntaryExit.validator_index)) l → keeps ok (process_exits spec signature_set l v).
Proof.
  unfold process_exits. generalize 0%nat as i. induction l as [|e l IH]; intros i Hl; simpl; [apply keeps_ret|].
  apply list.Forall_cons in Hl as [He Hl]. apply keeps_bind; [by apply process_exit_keeps|]. intros _. by apply IH.
Qed.

(** ** Validators that join and partial withdrawals *)
Lemma ledger_ok_validators s vs : ok s → Z.of_nat (length vs) ≤ 2 ^ 40 → ok (set_validators vs s).
Proof. intros [Hs []] Hl. split; [done|]. by constructor. Qed.
Lemma ledger_ok_partials s l :
  ok s → Forall (fun w => 0 ≤ w.(PendingPartialWithdrawal.validator_index)) l →
  ok (State.on_queues (Queues.set_pending_partial_withdrawals l) s).
Proof. intros [Hs []] Hl. split; [done|]. by constructor. Qed.

Lemma push_participation_frames limit : frames (push_participation limit).
Proof. frame. Qed.
Lemma add_validator_keeps k c x : keeps ok (add_validator_to_registry spec k c x).
Proof using Hspec.
  unfold add_validator_to_registry. stays_steps.
  match goal with H : Milhouse.push _ _ _ = _ |- _ => apply push_ok in H as [-> ?] end.
  apply stays_then.
  { apply stays_modify, ledger_ok_validators; [done|]. rewrite length_app. simpl. pose proof (ls_validators _ Hspec). lia. }
  intros _. apply frames_keeps. intros w. frame_steps. apply push_participation_frames.
Qed.
Lemma apply_deposit_keeps hash2 deposit_signature deposit_root d proof inc :
  keeps ok (apply_deposit hash2 spec deposit_signature deposit_root d proof inc).
Proof using Hspec.
  assert (∀ x, keeps ok (push_if_queue spec x)) by (intros; apply frames_keeps, push_if_queue_frames).
  assert (∀ k, keeps ok (get_validator_index k)) by (intros; apply frames_keeps; auto with keeps).
  assert (∀ i x, keeps ok (increase_balance i x)) by (intros; apply frames_keeps; auto with keeps).
  assert (keeps ok increment_deposit_index) by apply frames_keeps, increment_deposit_index_frames.
  pose proof add_validator_keeps. unfold apply_deposit. keeps_steps.
Qed.
Lemma process_deposits_keeps hash2 deposit_signature deposit_root l :
  keeps ok (process_deposits hash2 spec deposit_signature deposit_root l).
Proof using Hspec.
  unfold process_deposits. keeps_steps. apply keeps_for_each. intros. apply apply_deposit_keeps.
Qed.

Lemma queue_partial_withdrawal_keeps i x : keeps ok (queue_partial_withdrawal spec i x).
Proof.
  unfold queue_partial_withdrawal. apply keeps_bind.
  { apply keeps_call, frames_keeps. auto with keeps. }
  intros e. apply keeps_bind; [apply keeps_try|intros w]. stays_steps. gated_eq.
  match goal with H : Milhouse.push _ _ _ = _ |- _ => apply push_ok in H as [-> _] end.
  apply ledger_ok_partials; [done|]. apply Forall_app; split; [apply H|]. apply Forall_singleton. simpl. lia.
Qed.
Lemma process_withdrawal_requests_keeps l : keeps ok (process_withdrawal_requests spec l).
Proof.
  apply keeps_for_each. intros r _.
  assert (∀ i, keeps ok (initiate_validator_exit spec i)) by (intros; apply frames_keeps; auto with keeps).
  pose proof queue_partial_withdrawal_keeps. unfold process_withdrawal_request. keeps_steps.
Qed.
Lemma process_consolidation_requests_keeps l : keeps ok (process_consolidation_requests spec l).
Proof. apply frames_keeps, process_consolidation_requests_frames. Qed.

(** ** Builders that join *)
Definition deposit_in_range (r : DepositRequest.t) : Prop := 0 ≤ r.(DepositRequest.amount) ≤ u64_max.

(** The index of a new builder is new, or that of a builder without balance. *)
Lemma index_for_new_builder_free i bs e j b :
  index_for_new_builder_from i bs e = (i + j)%nat → bs !! j = Some b → b.(Builder.balance) = 0.
Proof.
  revert i j. induction bs as [|b0 bs IH]; intros i j H Hj; [done|]. simpl in H.
  destruct ((_ <=? e) && (_ =? 0)) eqn:E; btoprop.
  - assert (j = 0%nat) as -> by lia. simplify_eq/=. lia.
  - destruct j as [|j].
    + assert (∀ l k, (k ≤ index_for_new_builder_from k l e)%nat) as Hge.
      { induction l as [|x l IHl]; intros k; simpl; [lia|]. case_match; [lia|]. specialize (IHl (S k)). lia. }
      specialize (Hge bs (S i)). lia.
    + apply (IH (S i) j); [|done]. lia.
Qed.

Lemma set_builder_cache_frames c : frames (E:=BlockProcessingError.t) (modify (set_builder_pubkey_cache c)).
Proof. intros v. frame_modify. Qed.

(** A new builder in place of one without balance, or at the end; a top-up. *)
Lemma replace_builder_ok s i old b :
  ok s → s.(State.epbs).(Epbs.builders) !! i = Some old → old.(Builder.balance) = 0 →
  0 ≤ b.(Builder.balance) ≤ u64_max → b.(Builder.withdrawable_epoch) = spec.(Spec.far_future_epoch) →
  ok (set_builders (<[i := b]> s.(State.epbs).(Epbs.builders)) s).
Proof.
  intros Hok Hi Hold Hb Hfar. pose proof (sv_covered _ _ (proj1 Hok) _ _ Hi).
  pose proof (owed_nonneg _ _ (Z.of_nat i) (proj1 Hok)). apply ledger_ok_epbs'; [done| |done|simpl; by rewrite length_insert].
  eapply set_builder_solvent; [apply Hok|done|lia|done].
Qed.
Lemma append_builder_ok s b bs :
  ok s → Milhouse.push spec.(Spec.builder_registry_limit) b s.(State.epbs).(Epbs.builders) = Ok bs →
  0 ≤ b.(Builder.balance) ≤ u64_max → b.(Builder.withdrawable_epoch) = spec.(Spec.far_future_epoch) →
  ok (set_builders bs s).
Proof using Hspec.
  intros Hok [-> Hl]%push_ok Hb Hfar. pose proof (ls_builders _ Hspec).
  apply ledger_ok_epbs'; [done| |done|simpl; rewrite length_app; lia]. apply push_builder_solvent; [apply Hok|done|done|lia].
Qed.
Lemma top_up_ok s i b x :
  ok s → s.(State.epbs).(Epbs.builders) !! i = Some b → 0 ≤ x →
  ok (set_builders (<[i := Builder.set_balance (u64_saturating_add b.(Builder.balance) x) b]> s.(State.epbs).(Epbs.builders)) s).
Proof.
  intros Hok Hb Hx. pose proof (sv_covered _ _ (proj1 Hok) _ _ Hb).
  pose proof (Forall_lookup_1 _ _ _ _ (sv_balances _ _ (proj1 Hok)) Hb) as Hm.
  apply ledger_ok_epbs'; [done| |done|simpl; by rewrite length_insert].
  eapply set_builder_solvent; [apply Hok|done| |intros Hne; by apply (sv_leaving _ _ (proj1 Hok) _ _ Hb)].
  simpl in *. unfold u64_saturating_add. lia.
Qed.

Lemma register_builder_stays b i s :
  ok s → 0 ≤ b.(Builder.balance) ≤ u64_max → b.(Builder.withdrawable_epoch) = spec.(Spec.far_future_epoch) →
  (∀ old, s.(State.epbs).(Epbs.builders) !! i = Some old → old.(Builder.balance) = 0) →
  stays ok (register_builder spec b i) s.
Proof using Hspec.
  intros Hok Hb Hfar Hold. unfold register_builder. stays_steps; gated_eq; btoprop.
  - apply stays_then; [|intros _; apply frames_keeps; intros v; frame_steps]. apply stays_modify.
    destruct (lookup_lt_is_Some_2 (Epbs.builders (State.epbs s)) i) as [old Hi]; [by apply Nat.ltb_lt|].
    eapply replace_builder_ok; [done|exact Hi|by apply Hold|done|done].
  - apply stays_then; [|intros _; apply frames_keeps; intros v; frame_steps]. apply stays_modify.
    by eapply append_builder_ok.
Qed.

Lemma apply_deposit_for_builder_keeps deposit_signature r slot :
  deposit_in_range r → keeps ok (apply_deposit_for_builder spec deposit_signature r slot).
Proof using Hspec.
  unfold deposit_in_range. intros Hr. unfold apply_deposit_for_builder. stays_steps; gated_eq.
  - apply top_up_ok; [done| |lia]. by match goal with H : ok_or _ _ = _ |- _ => apply ok_or_ok in H end.
  - apply register_builder_stays; [done|done|done|]. intros old Hold.
    by eapply (index_for_new_builder_free 0).
Qed.

Lemma process_deposit_requests_keeps deposit_signature l :
  Forall deposit_in_range l → keeps ok (process_deposit_requests spec deposit_signature l).
Proof using Hspec.
  intros Hl. assert (∀ d, keeps ok (push_pending_deposit spec d)) by (intros; apply frames_keeps; auto with keeps).
  assert (∀ x, keeps ok (push_if_queue spec x)) by (intros; apply frames_keeps, push_if_queue_frames).
  assert (keeps ok update_builder_pubkey_cache) by (apply frames_keeps; auto with keeps).
  unfold process_deposit_requests. keeps_steps. apply keeps_for_each. intros r Hr.
  rewrite list.Forall_forall in Hl. specialize (Hl r Hr).
  assert (∀ slot, keeps ok (apply_deposit_for_builder spec deposit_signature r slot))
    by (intros; by apply apply_deposit_for_builder_keeps).
  unfold process_deposit_request, process_deposit_request_gloas. keeps_steps.
  apply frames_keeps. intros v. frame_modify.
Qed.
(** ** Settlement *)
Lemma settle_payment_keeps : keeps ok (settle_payment spec).
Proof.
  unfold settle_payment. stays_steps. gated_eq.
  match goal with H : ok_or _ _ = _ |- _ => apply ok_or_ok in H as Hp end.
  destruct (0 <? _) eqn:Ha; simpl.
  - unfold stays, mbind, M_bind, try at 1, lift. destruct (st_builder_pending_withdrawals s) as [q| | |] eqn:Hq; [|done..].
    simpl. destruct (Milhouse.push _ _ q) as [q'| | |] eqn:Hpush; [|done..]. simpl.
    apply push_ok in Hpush as [-> _]. gated_eq. btoprop.
    apply (ledger_ok_epbs' s (fun e => Epbs.set_builder_pending_payments _ (Epbs.set_builder_pending_withdrawals _ e)));
      [done| |done|done].
    eapply settle_solvent; [apply H|done|lia].
  - apply (ledger_ok_epbs' s); [done| |done|done]. eapply blank_payment_solvent; [apply H|done].
Qed.

Lemma mark_payload_available_keeps h : keeps ok (mark_payload_available spec h).
Proof.
  unfold mark_payload_available. stays_steps. apply stays_then.
  - apply stays_modify, ledger_ok_epbs'; [done| |done|done]. by eapply solvent_ext; [..|apply H].
  - intros _. apply keeps_modify. intros s' H'. apply ledger_ok_epbs'; [done| |done|done].
    by eapply solvent_ext; [..|apply H'].
Qed.

Lemma process_envelope_keeps signature_set deposit_signature header_root state_root root env v :
  Forall deposit_in_range env.(SignedEnvelope.execution_requests).(ExecutionRequests.deposits) →
  keeps ok (process_execution_payload_envelope spec signature_set deposit_signature header_root state_root
              root env v).
Proof using Hspec.
  intros Hd. pose proof settle_payment_keeps. pose proof mark_payload_available_keeps.
  pose proof process_withdrawal_requests_keeps. pose proof process_consolidation_requests_keeps.
  pose proof (process_deposit_requests_keeps deposit_signature _ Hd).
  assert (∀ r, keeps ok (fill_header_state_root state_root r)) by (intros; apply frames_keeps, fill_header_frames).
  unfold process_execution_payload_envelope. keeps_steps.
Qed.

(** ** The end of an epoch *)
Lemma for_each_push_ok l s s' :
  for_each l (push_builder_withdrawal spec) s = (Ok tt, s') →
  s' = State.on_epbs (fun e => Epbs.set_builder_pending_withdrawals (e.(Epbs.builder_pending_withdrawals) ++ l) e) s.
Proof.
  revert s. induction l as [|w l IH]; intros s H; simpl in H.
  - injection H as <-. destruct s as [? ? ? ? [] ?]. unfold State.on_epbs. simpl. by rewrite app_nil_r.
  - inv_ok H. unfold push_builder_withdrawal in *. inv_ok Hm. gated_eq.
    match goal with H : Milhouse.push _ _ _ = _ |- _ => apply push_ok in H as [-> _] end.
    rewrite (IH _ H). unfold State.on_epbs. simpl. by rewrite <- app_assoc.
Qed.

(** The quorum is never zero, so that an empty payment has no part in it. *)
Lemma payment_quorum_pos s q : ok s → payment_quorum spec s = Ok q → 0 < q.
Proof using Hspec.
  intros Hok H. unfold payment_quorum in H. inv_out H.
  match goal with H : get_total_active_balance _ _ = Ok ?b |- _ => rename b into total, H into Ht end.
  assert (Spec.effective_balance_increment spec ≤ total) as Htot.
  { unfold get_total_active_balance, get_total_active_balance_at_epoch in Ht. 
    destruct (BeaconState.total_active_balance (State.core s)) as [[e b]|] eqn:Hb; [|done]. simpl in Ht.
    destruct (e =? _); [|done]. injection Ht as <-. by eapply (rg_total _ _ (proj2 Hok)). }
  safe_inv. subst. eapply Z.lt_le_trans; [exact (ls_quorum _ Hspec)|].
  pose proof (ls_threshold _ Hspec) as [? ?]. pose proof (ls_slots _ Hspec).
  apply Z.div_le_mono; [lia|]. apply Z.mul_le_mono_nonneg_r; [lia|]. apply Z.div_le_mono; lia.
Qed.
Lemma process_builder_pending_payments_maintains : maintains ok (process_builder_pending_payments spec).
Proof using Hspec.
  intros s [] s' Hok H. unfold process_builder_pending_payments in H. inv_ok H.
  unfold lift in *. simplify_eq/=. gated_eq.
  match goal with H : payment_quorum _ _ = Ok _ |- _ => apply (payment_quorum_pos _ _ Hok) in H end.
  match goal with H : for_each _ _ _ = _ |- _ => destruct a1; apply for_each_push_ok in H as -> end. injection H as <-.
  apply (ledger_ok_epbs' s (fun e => Epbs.set_builder_pending_payments _ (Epbs.set_builder_pending_withdrawals _ e)));
    [done| |done|done].
  apply rotate_solvent; [done|apply Hok].
Qed.
End ops.
