(* ===== verification/LedgerWithdrawals.v ===== *)
(** * Withdrawals are funded

    The withdrawals of a Gloas block take from a builder exactly what was pending
    for it, or its whole balance once its exit is over, and never more than it
    has. *)
From S2P Require Import Prelude SlotEpoch ProtoArrayDefs ForkChoiceDefs ForkSchedule BeaconStateDefs.
From S2P Require Import ValidatorDefs ShuffleDefs CommitteeDefs MerkleDefs SlashingDefs DoppelgangerDefs ValidatorStoreDefs.
From S2P Require Import StateDefs RegistryDefs BlockDefs EpbsDefs JustificationDefs EpochCacheDefs OperationsDefs RequestDefs.
From S2P Require Import BlockProcessingDefs EpochGloasDefs Ledger LedgerSteps LedgerOps.

(** ** The flag of builder indices *)
Abbreviation index_range i := (0 ≤ i < 2 ^ 40).
Lemma flag_bit n : 0 ≤ n → Z.testbit BUILDER_INDEX_FLAG n = (n =? 40).
Proof. intros Hn. unfold BUILDER_INDEX_FLAG. rewrite Z.shiftl_1_l. rewrite Z.pow2_bits_eqb by lia. apply Z.eqb_sym. Qed.
Lemma index_flag_clear i : index_range i → Z.testbit i 40 = false.
Proof.
  intros Hi. destruct (decide (i = 0)) as [->|]; [apply Z.bits_0|]. apply Z.bits_above_log2; [lia|].
  apply Z.log2_lt_pow2; lia.
Qed.
Lemma flag_index i : index_range i → Z.ldiff (Z.lor i BUILDER_INDEX_FLAG) BUILDER_INDEX_FLAG = i.
Proof.
  intros Hi. apply Z.bits_inj'. intros n Hn. rewrite Z.ldiff_spec, Z.lor_spec, flag_bit by done.
  destruct (Z.eqb_spec n 40) as [->|]; [by rewrite index_flag_clear|]. cbn [negb].
  by rewrite orb_false_r, andb_true_r.
Qed.
Lemma flag_set i : Z.land (Z.lor i BUILDER_INDEX_FLAG) BUILDER_INDEX_FLAG ≠ 0.
Proof.
  intros H. apply (f_equal (fun x => Z.testbit x 40)) in H.
  rewrite Z.land_spec, Z.lor_spec, flag_bit, Z.bits_0 in H by lia. simpl in H. by rewrite orb_true_r in H.
Qed.
Lemma flag_unset i : index_range i → Z.land i BUILDER_INDEX_FLAG = 0.
Proof.
  intros Hi. apply Z.bits_inj'. intros n Hn. rewrite Z.land_spec, flag_bit, Z.bits_0 by done.
  destruct (Z.eqb_spec n 40) as [->|]; [by rewrite index_flag_clear|apply andb_false_r].
Qed.
Lemma flag_inj i j : index_range i → index_range j → Z.lor i BUILDER_INDEX_FLAG = Z.lor j BUILDER_INDEX_FLAG → i = j.
Proof. intros Hi Hj H. by rewrite <- (flag_index i Hi), H, flag_index. Qed.
Lemma flag_not_validator i v : index_range v → Z.lor i BUILDER_INDEX_FLAG ≠ v.
Proof. intros Hv H. apply (flag_set i). by rewrite H, flag_unset. Qed.

(** ** What a list of withdrawals pays *)
(** To the account with flagged index [i]. *)
Fixpoint paid (i : Z) (ws : list Withdrawal.t) : Z :=
  match ws with
  | [] => 0
  | w :: rest =>
      (if w.(Withdrawal.validator_index) =? Z.lor i BUILDER_INDEX_FLAG then w.(Withdrawal.amount) else 0) + paid i rest
  end.
(** A withdrawal names a builder or a validator. *)
Definition wd_ok (w : Withdrawal.t) : Prop :=
  (∃ i, index_range i ∧ w.(Withdrawal.validator_index) = Z.lor i BUILDER_INDEX_FLAG ∧ 0 ≤ w.(Withdrawal.amount))
  ∨ index_range w.(Withdrawal.validator_index).

Lemma paid_app i ws ws' : paid i (ws ++ ws') = paid i ws + paid i ws'.
Proof. induction ws as [|w ws IH]; simpl; lia. Qed.
Lemma paid_nonneg i ws : index_range i → Forall wd_ok ws → 0 ≤ paid i ws.
Proof.
  intros Hi. induction 1 as [|w ws Hw _ IH]; simpl; [lia|].
  destruct (Z.eqb_spec (Withdrawal.validator_index w) (Z.lor i BUILDER_INDEX_FLAG)) as [E|]; [|lia].
  destruct Hw as [(j & Hj & _ & ?)|Hv]; [lia|]. symmetry in E. by apply flag_not_validator in E.
Qed.

(** [p'] extends [p] by [extra i] for each builder [i]. *)
Record pays (extra : Z → Z) (p p' : Payout.t) : Prop := {
  pays_ok : Forall wd_ok p.(Payout.withdrawals) → Forall wd_ok p'.(Payout.withdrawals);
  pays_amount : ∀ i, index_range i → paid i p'.(Payout.withdrawals) = paid i p.(Payout.withdrawals) + extra i;
}.
Lemma pays_refl p : pays (fun _ => 0) p p.
Proof. constructor; [done|]. intros. lia. Qed.
Lemma pays_ticks p p' f : pays f p p' → ∀ q q', q.(Payout.withdrawals) = p.(Payout.withdrawals) →
  q'.(Payout.withdrawals) = p'.(Payout.withdrawals) → pays f q q'.
Proof. intros [H1 H2] q q' Hq Hq'. constructor; [by rewrite Hq, Hq'|]. intros. rewrite Hq, Hq'. auto. Qed.
Lemma pays_trans f g h p q r :
  pays f p q → pays g q r → (∀ i, index_range i → h i = f i + g i) → pays h p r.
Proof. intros [] [] Hh. constructor; [auto|]. intros i Hi. rewrite Hh by done. rewrite pays_amount1, pays_amount0 by done. lia. Qed.

Lemma push_builder_pays j a x p p' :
  index_range j → 0 ≤ x → Payout.push (Z.lor j BUILDER_INDEX_FLAG) a x p = Ok p' →
  pays (fun i => if i =? j then x else 0) p p' ∧ p'.(Payout.processed) = p.(Payout.processed).
Proof.
  intros Hj Hx H. unfold Payout.push in H. inv_out H. split; [|done]. constructor; simpl.
  - intros Hp. apply Forall_app; split; [done|]. apply Forall_singleton. left. by exists j.
  - intros i Hi. rewrite paid_app. simpl.
    destruct (Z.eqb_spec i j) as [->|Hne]; [rewrite Z.eqb_refl; lia|].
    rewrite (proj2 (Z.eqb_neq _ _)); [lia|]. intros E. apply Hne. symmetry. by apply flag_inj.
Qed.
Lemma push_validator_pays j a x p p' :
  index_range j → Payout.push j a x p = Ok p' → pays (fun _ => 0) p p' ∧ p'.(Payout.processed) = p.(Payout.processed).
Proof.
  intros Hj H. unfold Payout.push in H. inv_out H. split; [|done]. constructor; simpl.
  - intros Hp. apply Forall_app; split; [done|]. apply Forall_singleton. by right.
  - intros i Hi. rewrite paid_app. simpl. rewrite (proj2 (Z.eqb_neq _ _)); [lia|].
    intros E. symmetry in E. by apply flag_not_validator in E.
Qed.

(** ** The passes of [compute_withdrawals_gloas] *)
Section passes.
Context (spec : Spec.t).

Lemma pay_builders_pays n l p p' :
  Z.of_nat n ≤ 2 ^ 40 → Forall (entry_ok n) l → pay_builders spec (Z.of_nat n) l p = Ok p' →
  ∃ k, (k ≤ length l)%nat ∧ p'.(Payout.processed) = (p.(Payout.processed) + k)%nat ∧
    pays (fun i => amount_for i (take k l)) p p'.
Proof.
  intros Hn. revert p. induction l as [|w l IH]; intros p Hl H; simpl in H.
  - inv_out H. exists 0%nat. split_and!; [done|lia|]. apply pays_refl.
  - destruct (reserved_limit spec <=? Payout.len p).
    { inv_out H. exists 0%nat. split_and!; [lia|lia|]. apply pays_refl. }
    destruct (Z.leb_spec (Z.of_nat n) (bpw_index w)); [done|]. apply list.Forall_cons in Hl as [(Hi & Ha & _) Hl].
    inv_out H. apply push_builder_pays in Ho as [Hpush Hproc]; [|lia|done].
    destruct (IH _ Hl H) as (k & Hk & Hp & Hpays). exists (S k). simpl in *. split_and!; [lia|lia|].
    eapply pays_trans; [exact Hpush|by eapply (pays_ticks _ _ _ Hpays)|]. intros i _. simpl. by rewrite (Z.eqb_sym i).
Qed.

Lemma pay_partial_pays s w p p' :
  Z.of_nat (length (State.validators s)) ≤ 2 ^ 40 → 0 ≤ w.(PendingPartialWithdrawal.validator_index) →
  pay_partial spec s w p = Ok p' → pays (fun _ => 0) p p' ∧ p'.(Payout.processed) = p.(Payout.processed).
Proof.
  intros Hn Hi H. unfold pay_partial in H. inv_out H. case_match; [|inv_out H; split; [apply pays_refl|done]].
  inv_out H. unfold get_validator in *. inv_out Ho.
  match goal with H : State.validators s !! _ = Some _ |- _ => apply lookup_lt_Some in H end.
  apply push_validator_pays in H; [done|lia].
Qed.
Lemma pay_partials_pays s limit l p p' :
  Z.of_nat (length (State.validators s)) ≤ 2 ^ 40 →
  Forall (fun w => 0 ≤ w.(PendingPartialWithdrawal.validator_index)) l →
  pay_partials spec s limit l p = Ok p' → pays (fun _ => 0) p p'.
Proof.
  intros Hn. revert p. induction l as [|w l IH]; intros p Hl H; simpl in H; [inv_out H; apply pays_refl|].
  case_match; [inv_out H; apply pays_refl|]. apply list.Forall_cons in Hl as [Hw Hl]. inv_out H.
  apply pay_partial_pays in Ho as [Hp _]; [|done..]. specialize (IH _ Hl H).
  eapply pays_trans; [exact Hp|by eapply (pays_ticks _ _ _ IH)|]. intros. lia.
Qed.

Lemma sweep_validator_pays s i p p' :
  Z.of_nat (length (State.validators s)) ≤ 2 ^ 40 → 0 ≤ i →
  sweep_validator spec s i p = Ok p' → pays (fun _ => 0) p p' ∧ p'.(Payout.processed) = p.(Payout.processed).
Proof.
  intros Hn Hi H. unfold sweep_validator in H. inv_out H. unfold get_validator in *. inv_out Ho.
  match goal with H : State.validators s !! _ = Some _ |- _ => apply lookup_lt_Some in H end.
  repeat case_match; inv_out H; try (apply push_validator_pays in H; [done|lia]). split; [apply pays_refl|done].
Qed.
Lemma sweep_validators_pays s n i p p' :
  Z.of_nat (length (State.validators s)) ≤ 2 ^ 40 → 0 ≤ i →
  sweep_validators spec s n i p = Ok p' → pays (fun _ => 0) p p'.
Proof.
  intros Hn. revert i p. induction n as [|n IH]; intros i p Hi H; simpl in H; [inv_out H; apply pays_refl|].
  case_match; [inv_out H; apply pays_refl|]. inv_out H.
  apply sweep_validator_pays in Ho as [Hp _]; [|done..].
  safe_inv. subst.
  eapply pays_trans; [exact Hp|eapply IH; [|exact H]|intros; lia]. by apply Z.mod_pos_bound; lia.
Qed.

(** Each builder is visited at most once. *)
Lemma sweep_builders_pays bs e n i p p' :
  Z.of_nat (length bs) ≤ 2 ^ 40 → 0 ≤ i < Z.of_nat (length bs) → (n ≤ length bs)%nat →
  sweep_builders spec bs e n i p = Ok p' →
  ∃ extra, pays extra p p' ∧
    ∀ j b, bs !! j = Some b → extra (Z.of_nat j) = 0 ∨
      (b.(Builder.withdrawable_epoch) ≤ e ∧ extra (Z.of_nat j) = b.(Builder.balance) ∧
       ∃ t, 0 ≤ t < Z.of_nat n ∧ (i + t) mod Z.of_nat (length bs) = Z.of_nat j).
Proof.
  intros Hlen. revert i p. induction n as [|n IH]; intros i p Hi Hn H; simpl in H.
  { inv_out H. exists (fun _ => 0). split; [apply pays_refl|]. auto. }
  case_match; [inv_out H; exists (fun _ => 0); split; [apply pays_refl|]; auto|]. inv_out H. safe_inv. subst.
  destruct (lookup_lt_is_Some_2 bs (Z.to_nat i)) as [b Hb]; [lia|]. rewrite Hb in *.
  edestruct (IH ((i + 1) mod Z.of_nat (length bs))) as (extra & Hpays & Hextra); [|lia|exact H|].
  { apply Z.mod_pos_bound. lia. }
  set (x := if (b.(Builder.withdrawable_epoch) <=? e) && (0 <? b.(Builder.balance)) then b.(Builder.balance) else 0).
  assert (pays (fun j => if j =? i then x else 0) p a) as Hp.
  { subst x. case_match; [|inv_out Ho; eapply pays_trans; [apply pays_refl..|]; intros j _; by case_match].
    btoprop. apply push_builder_pays in Ho as [Ho _]; [done|lia|lia]. }
  exists (fun j => (if j =? i then x else 0) + extra j). split.
  { eapply pays_trans; [exact Hp|by eapply (pays_ticks _ _ _ Hpays)|done]. }
  intros j c Hc. apply lookup_lt_Some in Hc as Hj.
  destruct (Hextra j c Hc) as [Hz|(Hw & Hx & t & Ht & Htj)].
  - rewrite Hz. destruct (Z.eqb_spec (Z.of_nat j) i) as [Hji|]; [|left; lia].
    assert (c = b) as -> by (rewrite <- Hji, Nat2Z.id in Hb; congruence).
    subst x. case_match; [|left; lia]. btoprop. right. split_and!; [lia|lia|]. exists 0. split; [lia|].
    rewrite Z.add_0_r, Z.mod_small by lia. lia.
  - right. assert (Z.of_nat j ≠ i) as Hne.
    { intros Hji. rewrite Zplus_mod_idemp_l in Htj.
      assert ((1 + t) mod Z.of_nat (length bs) = 0) as Hwrap.
      { rewrite <- (Z.mod_small i (Z.of_nat (length bs))) in Hji by lia. rewrite <- Htj in Hji.
        replace (1 + t) with (i + 1 + t - i) by lia. rewrite Zminus_mod, Hji. by rewrite Z.sub_diag, Zmod_0_l. }
      rewrite Z.mod_small in Hwrap by lia. lia. }
    rewrite (proj2 (Z.eqb_neq _ _)) by done. split_and!; [done|lia|]. exists (t + 1). split; [lia|].
    rewrite Zplus_mod_idemp_l in Htj. rewrite <- Htj. f_equal. lia.
Qed.
End passes.

(** ** The whole set of withdrawals *)
Section withdrawals.
Context (spec : Spec.t) (Hspec : ledger_spec spec).
Abbreviation ok := (ledger_ok spec).
Abbreviation builders s := (s.(State.epbs).(Epbs.builders)).
Abbreviation queue s := (s.(State.epbs).(Epbs.builder_pending_withdrawals)).

Lemma pays_self f g p q : pays f p q → (∀ i, index_range i → g i = f i) → pays g p q.
Proof. intros [] Hg. constructor; [done|]. intros i Hi. rewrite Hg; auto. Qed.

Lemma epoch_below_far_future s : ok s → current_epoch spec s < spec.(Spec.far_future_epoch).
Proof using Hspec.
  intros [_ Hr]. pose proof (rg_slot _ _ Hr). rewrite (ls_far_future _ Hspec). pose proof (ls_slots _ Hspec).
  unfold current_epoch, epoch. apply Z.div_lt_upper_bound; [lia|]. unfold State.slot, u64_max in *. lia.
Qed.

(** A builder gets the entries that leave the queue, and its balance when its
    exit is over: then nothing is pending for it. *)
Lemma compute_withdrawals_pay s r :
  ok s → compute_withdrawals_gloas spec s = Ok r →
  let k := r.(WithdrawalResult.processed_builder_withdrawals_count) in
  (k ≤ length (queue s))%nat ∧ Forall wd_ok r.(WithdrawalResult.withdrawals) ∧
  ∀ i b, builders s !! i = Some b →
    (paid (Z.of_nat i) r.(WithdrawalResult.withdrawals) = amount_for (Z.of_nat i) (take k (queue s))) ∨
    (paid (Z.of_nat i) r.(WithdrawalResult.withdrawals) = b.(Builder.balance) ∧ owed s.(State.epbs) (Z.of_nat i) = 0).
Proof using Hspec.
  intros Hok H. pose proof Hok as [Hs Hr]. unfold compute_withdrawals_gloas in H. inv_out H. gated_eq. simpl.
  rename a2 into p1, a3 into p2, a4 into p3, a6 into p4.
  apply (pay_builders_pays spec) in Ho2 as (k & Hk & Hproc & H1); [|apply Hs|apply (queue_entries _ _ Hs)].
  assert (pays (fun _ => 0) p1 p2) as H2.
  { destruct (st_pending_partial_withdrawals s) as [l| | |] eqn:Hl; gated_eq; try (inv_out Ho3; by apply (pays_ticks _ _ _ (pays_refl p1))).
    apply pay_partials_pays in Ho3; [|apply Hr|apply Hr]. by apply (pays_ticks _ _ _ Ho3). }
  assert (∃ extra, pays extra p2 p3 ∧ ∀ j b, builders s !! j = Some b → extra (Z.of_nat j) = 0 ∨
    (b.(Builder.withdrawable_epoch) ≤ current_epoch spec s ∧ extra (Z.of_nat j) = b.(Builder.balance))) as (extra & H3 & Hx).
  { destruct (Z.ltb_spec 0 (Z.of_nat (length (builders s)))).
    - inv_out Ho4. case_match; inv_out Ho4. btoprop. gated_eq. pose proof (rg_builder_cursor _ _ Hr).
      apply sweep_builders_pays in Ho4 as (extra & Hp & Hx); [|apply Hs|lia|lia].
      exists extra. split; [by apply (pays_ticks _ _ _ Hp)|]. intros j b Hb. destruct (Hx j b Hb) as [|(? & ? & _)]; auto.
    - inv_out Ho4. exists (fun _ => 0). split; [by apply (pays_ticks _ _ _ (pays_refl p2))|]. auto. }
  apply sweep_validators_pays in Ho6; [|apply Hr|apply Hr].
  assert (pays (fun i => amount_for i (take k (queue s)) + extra i) (Payout.mk [] a 0) p4) as [Hwd Hpaid].
  { eapply pays_trans; [exact H1|eapply pays_trans; [exact H2|eapply pays_trans; [exact H3|exact Ho6|]|]|];
      [intros; reflexivity..|]. intros. simpl. lia. }
  rewrite Hproc. simpl in *. split; [lia|]. split; [by apply Hwd|].
  intros i b Hb. apply lookup_lt_Some in Hb as Hi. pose proof (sv_length _ _ Hs).
  rewrite Hpaid by lia. destruct (Hx i b Hb) as [->|[Hw ->]]; [left; lia|right].
  pose proof (epoch_below_far_future _ Hok). pose proof (sv_leaving _ _ Hs i b Hb ltac:(lia)) as Hnone. split; [|done].
  pose proof (amounts_nonneg _ _ (queue_entries _ _ Hs)) as Hq.
  pose proof (amount_for_nonneg (Z.of_nat i) _ (Forall_take _ k _ Hq)).
  pose proof (amount_for_nonneg (Z.of_nat i) _ (Forall_drop _ k _ Hq)).
  pose proof (amount_for_take_app (Z.of_nat i) k (queue s)).
  pose proof (amount_for_nonneg (Z.of_nat i) _ (amounts_nonneg _ _ (sv_payments _ _ Hs))). unfold owed in *. lia.
Qed.
(** ** Paying *)
(** What [for_each withdrawals apply_withdrawal] changes of the ledger. *)
Record paid_out (ws : list Withdrawal.t) (s s' : State.t) : Prop := {
  po_view : ledger_view s' = ledger_view (State.on_epbs (Epbs.set_builders (builders s')) s);
  po_length : length (builders s') = length (builders s);
  po_builder : ∀ i b', builders s' !! i = Some b' → ∃ b, builders s !! i = Some b ∧
    b' = Builder.set_balance (Z.max (b.(Builder.balance) - paid (Z.of_nat i) ws) 0) b;
}.

Lemma paid_out_none ws s s' :
  Forall (fun b => 0 ≤ b.(Builder.balance)) (builders s) → ledger_view s' = ledger_view s →
  (∀ i, (i < length (builders s))%nat → paid (Z.of_nat i) ws = 0) → paid_out ws s s'.
Proof.
  intros Hbal Hv Hp. assert (s'.(State.epbs) = s.(State.epbs)) as He by (unfold ledger_view in Hv; congruence).
  constructor.
  - rewrite Hv, He. unfold State.on_epbs, ledger_view, State.validators, State.slot. simpl. by destruct s as [? ? ? ? []].
  - by rewrite He.
  - intros i b Hb. rewrite He in Hb. exists b. split; [done|]. apply lookup_lt_Some in Hb as Hi. rewrite (Hp _ Hi).
    pose proof (Forall_lookup_1 _ _ _ _ Hbal Hb). simpl in *. rewrite Z.max_l, Z.sub_0_r by lia. by destruct b.
Qed.

Lemma apply_withdrawal_paid w s s' :
  Z.of_nat (length (builders s)) ≤ 2 ^ 40 → Forall (fun b => 0 ≤ b.(Builder.balance)) (builders s) → wd_ok w →
  apply_withdrawal w s = (Ok tt, s') → paid_out [w] s s'.
Proof.
  intros Hlen Hbal Hw H. unfold apply_withdrawal in H.
  destruct Hw as [(i & Hi & Heq & Ha)|Hv].
  - rewrite Heq, (proj2 (Z.eqb_neq _ _)) in H by apply flag_set. cbn [negb] in H. rewrite flag_index in H by done.
    apply bind_ok in H as (s0 & s1 & [= <- <-] & H). apply bind_ok in H as (bs & s2 & Hm & H).
    apply try_ok in Hm as [Hbs ->]. gated_eq. destruct (builders s !! Z.to_nat i) as [b|] eqn:Hb.
    + injection H as <-. constructor; [reflexivity|simpl; by rewrite length_insert|simpl]. intros j b' Hj.
      apply list_lookup_insert_Some in Hj as [(<- & <- & _)|(Hne & Hj)].
      * exists b. split; [done|]. unfold u64_saturating_sub. rewrite Z2Nat.id, Heq, Z.eqb_refl by lia. do 2 f_equal. lia.
      * exists b'. split; [done|]. apply lookup_lt_Some in Hj as Hl.
        rewrite Heq, (proj2 (Z.eqb_neq _ _)) by (intros E; apply flag_inj in E; lia).
        pose proof (Forall_lookup_1 _ _ _ _ Hbal Hj). simpl in *. rewrite Z.max_l, Z.sub_0_r by lia. by destruct b'.
    + injection H as <-. apply paid_out_none; [done|done|]. intros j Hj. simpl.
      apply lookup_ge_None in Hb. rewrite Heq, (proj2 (Z.eqb_neq _ _)); [done|]. intros E. apply flag_inj in E; lia.
  - rewrite flag_unset, Z.eqb_refl in H by done. simpl in H. apply paid_out_none; [done| |].
    + pose proof (decrease_balance_frames (Z.to_nat (Withdrawal.validator_index w)) (Withdrawal.amount w) _ s eq_refl) as Hf.
      apply (call_ok (decrease_balance _ _)) in H. by rewrite H in Hf.
    + intros j Hj. simpl. rewrite (proj2 (Z.eqb_neq _ _)); [done|]. intros E. symmetry in E. by apply flag_not_validator in E.
Qed.

Lemma paid_out_trans w ws s s1 s' :
  wd_ok w → Forall wd_ok ws → Z.of_nat (length (builders s)) ≤ 2 ^ 40 →
  paid_out [w] s s1 → paid_out ws s1 s' → paid_out (w :: ws) s s'.
Proof.
  intros Hw Hws Hlen [V1 L1 B1] [V2 L2 B2]. constructor.
  - rewrite V2. unfold ledger_view, State.validators, State.slot, State.fork_name in *. simpl in *.
    injection V1 as E1 E2 E3 E4 E5 E6 E7. rewrite E2, E3, E4, E5, E6, E7.
    assert (Epbs.set_builders (builders s') s1.(State.epbs) = Epbs.set_builders (builders s') s.(State.epbs)) as Hset
      by (by rewrite E1).
    unfold Epbs.set_builders in *. by rewrite Hset.
  - congruence.
  - intros i b2 Hb2. destruct (B2 i b2 Hb2) as (b1 & Hb1 & ->). destruct (B1 i b1 Hb1) as (b & Hb & ->).
    exists b. split; [done|]. apply lookup_lt_Some in Hb as Hi.
    pose proof (paid_nonneg (Z.of_nat i) ws ltac:(lia) Hws).
    simpl. unfold Builder.set_balance. simpl. f_equal. lia.
Qed.

Lemma apply_withdrawals_paid ws s s' :
  Z.of_nat (length (builders s)) ≤ 2 ^ 40 → Forall (fun b => 0 ≤ b.(Builder.balance)) (builders s) → Forall wd_ok ws →
  for_each ws apply_withdrawal s = (Ok tt, s') → paid_out ws s s'.
Proof.
  intros Hlen Hbal Hws. revert s Hlen Hbal. induction Hws as [|w ws Hw Hws IH]; intros s Hlen Hbal H; simpl in H.
  - injection H as <-. by apply paid_out_none.
  - apply bind_ok in H as ([] & s1 & H1 & H2). apply apply_withdrawal_paid in H1 as Hp; [|done..].
    eapply paid_out_trans; [done|done|done|exact Hp|]. apply IH; [|..|done].
    + by rewrite (po_length _ _ _ Hp).
    + apply Forall_lookup. intros i b Hb. destruct (po_builder _ _ _ Hp i b Hb) as (b0 & _ & ->). simpl. lia.
Qed.
(** ** The block's withdrawals *)
(** The parts of [process_withdrawals_gloas] after the payments. *)
Lemma pop_queue_ok k s s' :
  when (0 <? k)%nat (
    s ← get;
    pending ← try (st_builder_pending_withdrawals s);
    pending' ← try (E' := BlockProcessingError.t) (Milhouse.pop_front k pending);
    modify (State.on_epbs (Epbs.set_builder_pending_withdrawals pending'))) s = (Ok tt, s') →
  s' = State.on_epbs (fun e => Epbs.set_builder_pending_withdrawals (drop k e.(Epbs.builder_pending_withdrawals)) e) s.
Proof.
  destruct (Nat.ltb_spec 0 k) as [Hk|Hk]; simpl; intros H.
  - inv_ok H. gated_eq. unfold Milhouse.pop_front in *. case_match; simplify_eq. injection H as <-. done.
  - injection H as <-. assert (k = 0%nat) as -> by lia. by destruct s as [? ? ? ? [] ?].
Qed.
Lemma pop_partials_ok k s s' :
  when (0 <? k)%nat (
    s ← get;
    partials ← try (st_pending_partial_withdrawals s);
    partials' ← try (E' := BlockProcessingError.t) (Milhouse.pop_front k partials);
    modify (State.on_queues (Queues.set_pending_partial_withdrawals partials'))) s = (Ok tt, s') →
  s' = State.on_queues (fun q => Queues.set_pending_partial_withdrawals (drop k q.(Queues.pending_partial_withdrawals)) q) s.
Proof.
  destruct (Nat.ltb_spec 0 k) as [Hk|Hk]; simpl; intros H.
  - inv_ok H. gated_eq. unfold Milhouse.pop_front in *. case_match; simplify_eq. injection H as <-. done.
  - injection H as <-. assert (k = 0%nat) as -> by lia. by destruct s as [? ? ? [] ? ?].
Qed.
Lemma next_builder_keeps n : keeps ok (next_builder_to_sweep n).
Proof.
  unfold next_builder_to_sweep. stays_steps. gated_eq. btoprop. safe_inv. subst.
  apply ledger_ok_epbs; [done|by eapply solvent_ext; [..|apply H]|]. simpl.
  match goal with |- _ ≤ ?x mod ?y < _ => pose proof (Z.mod_pos_bound x y); lia end.
Qed.
Lemma ledger_ok_cursor s n :
  ok s → 0 ≤ n → ok (State.on_registry (Registry.set_next_withdrawal_validator_index n) s).
Proof. intros [Hs []] Hn. split; [done|]. by constructor. Qed.
Lemma next_validator_maintains ws : maintains ok (next_validator_to_sweep spec ws).
Proof.
  intros s [] s' Hok H. unfold next_validator_to_sweep in H. inv_ok H. 
  match type of H with when ?b _ _ = _ => destruct b eqn:Hb end; simpl in H; [|by injection H as <-].
  inv_ok H. injection H as <-. btoprop.
  case_match; inv_ok Hm; safe_inv; subst; (apply ledger_ok_cursor; [done|]); apply Z.mod_pos_bound; lia.
Qed.

(** The cursors leave the accounts as they are. *)
Definition accounts (s : State.t) := (builders s, queue s, s.(State.epbs).(Epbs.builder_pending_payments)).
Lemma next_builder_accounts n v : keeps (fun s => accounts s = v) (next_builder_to_sweep n).
Proof. unfold next_builder_to_sweep. keeps_steps. by apply keeps_modify. Qed.
Lemma next_validator_accounts ws v : keeps (fun s => accounts s = v) (next_validator_to_sweep spec ws).
Proof. unfold next_validator_to_sweep. keeps_steps; by apply keeps_modify. Qed.

(** The state after the queues have been popped. *)
Lemma paid_state_ok s s1 ws k k' :
  ok s → Forall wd_ok ws → paid_out ws s s1 →
  (∀ i b, builders s !! i = Some b →
    (paid (Z.of_nat i) ws = amount_for (Z.of_nat i) (take k (queue s))) ∨
    (paid (Z.of_nat i) ws = b.(Builder.balance) ∧ owed s.(State.epbs) (Z.of_nat i) = 0)) →
  ∀ s5, ledger_view s5 = (Epbs.set_builder_pending_withdrawals (drop k (queue s)) (Epbs.set_payload_expected_withdrawals ws s1.(State.epbs)),
      drop k' s1.(State.queues).(Queues.pending_partial_withdrawals),
      s1.(State.registry).(Registry.next_withdrawal_validator_index), length (State.validators s1), State.slot s1,
      State.fork_name s1, s1.(State.core).(BeaconState.total_active_balance)) →
  ok s5.
Proof.
  intros [Hs Hr] Hws [V L B] Hpaid s5 V5.
  unfold ledger_view in V, V5. simpl in V. injection V as E1 E2 E3 E4 E5 E6 E7. injection V5 as F1 F2 F3 F4 F5 F6 F7.
  assert (solvent spec (Epbs.set_builder_pending_withdrawals (drop k (queue s)) (Epbs.set_builders (builders s1) s.(State.epbs)))) as Hsol.
  { apply pay_out_solvent; [done|done|]. intros i b' Hb'. destruct (B i b' Hb') as (b & Hb & ->). exists b.
    apply lookup_lt_Some in Hb as Hi. pose proof (sv_length _ _ Hs).
    pose proof (paid_nonneg (Z.of_nat i) ws ltac:(lia) Hws).
    pose proof (Forall_lookup_1 _ _ _ _ (sv_balances _ _ Hs) Hb). pose proof (sv_covered _ _ Hs i b Hb). simpl in *.
    pose proof (owed_nonneg _ _ (Z.of_nat i) Hs). pose proof (amount_for_nonneg (Z.of_nat i) _
      (Forall_take _ k _ (amounts_nonneg _ _ (queue_entries _ _ Hs)))).
    split_and!; [done|done|unfold u64_max in *; lia|]. destruct (Hpaid i b Hb) as [Hp|[Hp Ho]]; lia. }
  split.
  - rewrite F1. eapply solvent_ext; [..|exact Hsol]; simpl; [done|by rewrite E1|done].
  - destruct Hr. constructor; unfold State.slot, State.validators, State.fork_name in *;
      rewrite ?F1, ?F2, ?F3, ?F4, ?F5, ?F6, ?F7; simpl.
    + by rewrite E6.
    + by rewrite E7.
    + by rewrite E4.
    + apply Forall_drop. by rewrite E2.
    + by rewrite E3.
    + rewrite E1. simpl. by rewrite L.
    + by rewrite E5.
Qed.

(** The ledger after the withdrawals of a block on a full parent. *)
Lemma process_withdrawals_gloas_run s s' r :
  ok s → is_parent_block_full s = Ok true → compute_withdrawals_gloas spec s = Ok r →
  process_withdrawals_gloas spec s = (Ok tt, s') →
  ok s' ∧ ∃ s1, paid_out r.(WithdrawalResult.withdrawals) s s1 ∧
    accounts s' = (builders s1, drop r.(WithdrawalResult.processed_builder_withdrawals_count) (queue s),
                   s.(State.epbs).(Epbs.builder_pending_payments)).
Proof using Hspec.
  intros Hok Hfull Hr H. unfold process_withdrawals_gloas in H.
  apply bind_ok in H as (s0 & s1 & [= <- <-] & H). rewrite Hfull in H. 
  apply bind_ok in H as (full & s1 & [= <- <-] & H). simpl in H. rewrite Hr in H.
  apply bind_ok in H as (r' & s1 & [= <- <-] & H).
  destruct (compute_withdrawals_pay s r Hok Hr) as (Hk & Hwd & Hpaid).
  apply bind_ok in H as ([] & s1 & Hpay & H).
  apply apply_withdrawals_paid in Hpay as Hp; [|apply Hok| |done].
  2: { apply Forall_lookup. intros i b Hb. pose proof (sv_covered _ _ (proj1 Hok) i b Hb).
       pose proof (owed_nonneg _ _ (Z.of_nat i) (proj1 Hok)). simpl. lia. }
  apply bind_ok in H as ([] & s2 & Hidx & H). apply bind_ok in H as ([] & s3 & Hexp & H).
  apply bind_ok in H as ([] & s4 & Hq%pop_queue_ok & H). apply bind_ok in H as ([] & s5 & Hpp%pop_partials_ok & H).
  apply bind_ok in H as ([] & s6 & Hnb & Hnv).
  assert (ledger_view s2 = ledger_view s1) as V2.
  { destruct (list.last _) in Hidx; [|by injection Hidx as <-]. inv_ok Hidx. by injection Hidx as <-. }
  destruct (_ <? _) in Hexp; [done|]. injection Hexp as <-.
  pose proof V2 as [= E1 E2 E3 E4 E5 E6 E7]. pose proof (po_view _ _ _ Hp) as [= F1 _ _ _ _ _ _].
  assert (queue s1 = queue s) as Hqueue by (by rewrite F1).
  assert (ok s5) as Hok5.
  { eapply paid_state_ok; [exact Hok|exact Hwd|exact Hp|exact Hpaid|]. subst s5 s4.
    unfold ledger_view, State.validators, State.slot, State.fork_name in *. simpl. by rewrite E1, E2, E3, E4, E5, E6, E7, Hqueue. }
  split.
  - eapply (next_validator_maintains (WithdrawalResult.withdrawals r)); [|exact Hnv].
    by eapply (maintains_keeps _ _ (next_builder_keeps (WithdrawalResult.processed_builders_sweep_count r))); [|exact Hnb].
  - exists s1. split; [done|].
    pose proof (next_builder_accounts (WithdrawalResult.processed_builders_sweep_count r) _ s5 eq_refl) as A6.
    rewrite Hnb in A6. pose proof (next_validator_accounts (WithdrawalResult.withdrawals r) _ s6 eq_refl) as A7.
    rewrite Hnv in A7. simpl in A6, A7. rewrite A7, A6. subst s5 s4. unfold accounts. simpl. rewrite E1, Hqueue.
    by rewrite F1.
Qed.
End withdrawals.
