(* ===== verification/LedgerEpoch.v ===== *)
(** * The ledger over the end of an epoch and the next slot

    The pass over the validators and the resets leave the ledger of the builders
    alone, the payments of the epoch keep it in balance, and so does
    [per_slot_processing] as a whole. *)
From S2P Require Import Prelude SlotEpoch ProtoArrayDefs ForkChoiceDefs ForkSchedule BeaconStateDefs.
From S2P Require Import ValidatorDefs ShuffleDefs CommitteeDefs SlashingDefs DoppelgangerDefs ValidatorStoreDefs.
From S2P Require Import StateDefs RegistryDefs BlockDefs EpbsDefs JustificationDefs EpochCacheDefs OperationsDefs RequestDefs.
From S2P Require Import BlockProcessingDefs EpochGloasDefs EpochPassDefs EpochBaseDefs UpgradeDefs SlotDefs.
From S2P Require Import Ledger LedgerSteps LedgerOps.

(** Methods with a carried value. *)
Lemma with_carry_keeps {L A} P (l : L) (m : M (State.t * L) EpochProcessingError.t A) :
  keeps (fun x => P x.1) m → keeps P (with_carry l m).
Proof. intros Hm s Hs. unfold with_carry. specialize (Hm (s, l) Hs). by destruct (m (s, l)) as [r [s' l']]. Qed.

Section pass.
Context (hash : list Z → list Z) (spec : Spec.t) (forks : ForkSpec.t) (fuel : nat) (Hspec : ledger_spec spec).
Context (state_root : State.t → outcome BeaconStateError.t Hash256) (header_root : BeaconBlockHeader.t → Hash256).
Context (deposit_signature : DepositData.t → bool).
Abbreviation ok := (ledger_ok spec).

(** ** The validators *)
Lemma write_cell_view i c s : ledger_view (write_cell i c s) = ledger_view s.
Proof. unfold ledger_view, write_cell, State.validators, State.slot, State.fork_name. simpl. by rewrite length_insert. Qed.
Lemma write_eb_view i e s : ledger_view (write_eb i e s) = ledger_view s.
Proof. unfold ledger_view, write_eb, State.validators, State.slot, State.fork_name. simpl. by rewrite length_insert. Qed.

Lemma pass_loop_frames previous ctxt cx i n ps cs w :
  keeps (fun x => ledger_view x.1 = w) (pass_loop spec previous ctxt cx i n ps cs).
Proof.
  revert i ps cs. induction n as [|n IH]; intros i [|p ps] [|c cs]; simpl; try apply keeps_ret.
  apply keeps_bind; [|intros; apply IH]. unfold pass_step. keeps_steps.
  apply keeps_zoom with (fun _ => True); [done| |done]. intros s' x Hx _. simpl. by rewrite write_cell_view.
Qed.
Lemma pass_over_validators_frames conf ctxt n sl cache d cs :
  frames (pass_over_validators spec conf ctxt n sl cache d cs).
Proof. frame. apply with_carry_keeps, pass_loop_frames. Qed.
Lemma store_churn_frames c : frames (store_churn c).
Proof. frame. Qed.
Lemma update_effective_frames ctxt eb l w :
  keeps (fun x => ledger_view x.1 = w) (for_each l (update_effective_balance_at spec ctxt eb)).
Proof.
  apply keeps_for_each. intros i _. unfold update_effective_balance_at. keeps_steps.
  apply keeps_zoom with (fun _ => True); [done| |done]. intros s' x Hx _. simpl. by rewrite write_eb_view.
Qed.
Lemma with_updates_keeps ctxt eb l (cache : PreEpochCache.t) :
  keeps ok (with_carry cache (for_each l (update_effective_balance_at spec ctxt eb))).
Proof. apply frames_keeps. intros w. apply with_carry_keeps, update_effective_frames. Qed.

(** ** Deposits and consolidations *)
Lemma apply_new_deposits_keeps l : keeps ok (apply_new_deposits spec deposit_signature l).
Proof using Hspec.
  induction l as [|d l IH]; simpl; [apply keeps_ret|]. pose proof (add_validator_keeps spec Hspec).
  keeps_steps. apply frames_keeps. intros w. frame_steps.
Qed.
Lemma finish_pending_deposits_keeps conf ctxt eb d cache :
  keeps ok (finish_pending_deposits spec deposit_signature conf ctxt eb d cache).
Proof using Hspec.
  unfold finish_pending_deposits. pose proof apply_new_deposits_keeps. pose proof with_updates_keeps.
  keeps_steps; apply frames_keeps; intros w; frame_modify.
Qed.
Lemma consolidate_frames next l n : frames (consolidate next l n).
Proof. revert n. induction l as [|c l IH]; intros n w; simpl; frame_steps; by apply IH. Qed.
Lemma process_pending_consolidations_keeps b ctxt eb l cache :
  keeps ok (process_pending_consolidations spec b ctxt eb l cache).
Proof.
  unfold process_pending_consolidations. pose proof with_updates_keeps. pose proof consolidate_frames.
  keeps_steps; apply frames_keeps; auto. intros w; frame_modify.
Qed.

(** ** Caches and windows *)
Lemma write_lookahead_frames i l : frames (write_lookahead i l).
Proof. revert i. induction l as [|x l IH]; intros i w; simpl; frame_steps; by apply IH. Qed.
Lemma process_proposer_lookahead_frames : frames (process_proposer_lookahead hash spec forks fuel).
Proof. frame; apply write_lookahead_frames. Qed.
Lemma store_next_epoch_caches_keeps cache next q : keeps ok (store_next_epoch_caches spec forks cache next q).
Proof.
  unfold store_next_epoch_caches. keeps_steps.
  - apply keeps_modify. intros s Hs. apply ledger_ok_total; [done|lia].
  - apply frames_keeps. intros w. frame_modify.
Qed.
Lemma process_ptc_window_keeps : keeps ok (process_ptc_window hash spec fuel).
Proof.
  unfold process_ptc_window. keeps_steps; apply keeps_modify; intros s' Hs';
    (apply ledger_ok_epbs'; [done| |done|done]); by eapply solvent_ext; [..|apply Hs'].
Qed.

(** ** The pass *)
Lemma process_epoch_single_pass_maintains conf :
  maintains ok (process_epoch_single_pass hash spec forks fuel state_root header_root deposit_signature conf).
Proof using Hspec.
  unfold process_epoch_single_pass.
  pose proof finish_pending_deposits_keeps. pose proof process_pending_consolidations_keeps.
  pose proof store_next_epoch_caches_keeps. pose proof process_ptc_window_keeps.
  pose proof pass_over_validators_frames. pose proof store_churn_frames. pose proof process_proposer_lookahead_frames.
  pose proof (process_builder_pending_payments_maintains spec Hspec).
  maintains_steps.
Qed.
End pass.

Section slot.
Context (hash : list Z → list Z) (spec : Spec.t) (forks : ForkSpec.t) (fuel : nat) (Hspec : ledger_spec spec).
Context (state_root : State.t → outcome BeaconStateError.t Hash256) (header_root : BeaconBlockHeader.t → Hash256).
Context (roots_root : list Hash256 → Hash256) (batch_root : list Hash256 → list Hash256 → Hash256).
Context (aggregate_pubkeys : list PublicKeyBytes → option PublicKeyBytes).
Context (deposit_signature : DepositData.t → bool).
Abbreviation ok := (ledger_ok spec).

(** ** Resets and accumulators *)
Lemma eth1_data_reset_frames : frames (process_eth1_data_reset spec).
Proof. frame. Qed.
Lemma slashings_reset_frames : frames (process_slashings_reset spec).
Proof. frame. Qed.
Lemma set_randao_mix_frames e x : frames (set_randao_mix spec e x).
Proof. frame. Qed.
#[local] Hint Resolve set_randao_mix_frames : keeps.
Lemma randao_mixes_reset_frames : frames (process_randao_mixes_reset spec).
Proof. frame. Qed.
Lemma historical_roots_frames : frames (process_historical_roots_update spec batch_root).
Proof. frame. Qed.
Lemma historical_summaries_frames : frames (process_historical_summaries_update spec roots_root).
Proof. frame. Qed.
Lemma sync_committee_updates_frames : frames (process_sync_committee_updates hash spec fuel aggregate_pubkeys).
Proof. frame. Qed.
Lemma participation_flag_updates_frames : frames (on_core process_participation_flag_updates).
Proof. apply on_core_frames. intros w. by apply keeps_modify. Qed.
Lemma advance_caches_frames : frames advance_caches.
Proof. frame. Qed.
Lemma epoch_transition_total_frames inc : frames (on_core (update_progressive_balances_on_epoch_transition inc)).
Proof.
  apply on_core_frames. intros w. unfold update_progressive_balances_on_epoch_transition. keeps_steps.
  intros c Hc. unfold on_progressive, zoom. destruct (ProgressiveBalancesCache.on_epoch_transition _ _). exact Hc.
Qed.
#[local] Hint Resolve eth1_data_reset_frames slashings_reset_frames randao_mixes_reset_frames historical_roots_frames
  historical_summaries_frames sync_committee_updates_frames participation_flag_updates_frames advance_caches_frames
  epoch_transition_total_frames : keeps.

(** ** The end of an epoch *)
Lemma build_epoch_caches_keeps : keeps ok (build_epoch_caches hash spec forks).
Proof. unfold build_epoch_caches. keeps_steps. Qed.
Lemma altair_process_epoch_maintains :
  maintains ok (altair_process_epoch hash spec forks fuel state_root header_root roots_root batch_root aggregate_pubkeys
    deposit_signature).
Proof using Hspec.
  unfold altair_process_epoch. pose proof build_epoch_caches_keeps.
  pose proof (process_epoch_single_pass_maintains hash spec forks fuel Hspec state_root header_root deposit_signature).
  assert (∀ jf, keeps ok (modify (E:=EpochProcessingError.t) (State.on_core (apply_changes_to_state jf))))
    by (intros jf; apply frames_keeps; intros w; frame_modify).
  maintains_steps.
Qed.

Lemma gloas_after f g : ForkName.ge f ForkName.Gloas = true → ForkName.ge ForkName.Gloas g = true → ForkName.ge f g = true.
Proof. by destruct f, g. Qed.
Lemma process_epoch_maintains :
  maintains ok (process_epoch hash spec forks fuel state_root header_root roots_root batch_root aggregate_pubkeys
    deposit_signature).
Proof using Hspec.
  intros s a s' Hs H. unfold process_epoch in H. apply bind_ok in H as (s0 & s1 & [= <- <-] & H).
  destruct (inconsistent_fork _ _ _) as [[]|]; [done|].
  rewrite (gloas_after _ ForkName.Altair (rg_fork _ _ (proj2 Hs)) eq_refl) in H.
  by eapply altair_process_epoch_maintains.
Qed.

(** ** The next slot *)
Lemma ledger_ok_slot s x : ok s → 0 ≤ x ≤ u64_max → ok (SlotDefs.set_slot x s).
Proof. intros [Hs []] Hx. split; [done|]. by constructor. Qed.
Lemma set_state_root_frames slot r : frames (SlotDefs.set_state_root slot r).
Proof. frame. Qed.
Lemma set_block_root_frames slot r : frames (set_block_root slot r).
Proof. frame. Qed.
Lemma unset_availability_keeps : keeps ok (unset_availability spec).
Proof.
  unfold unset_availability. keeps_steps. apply keeps_modify. intros s' Hs'.
  apply ledger_ok_epbs'; [done| |done|done]. by eapply solvent_ext; [..|apply Hs'].
Qed.
Lemma cache_state_keeps root : keeps ok (cache_state spec state_root header_root root).
Proof.
  unfold cache_state. pose proof unset_availability_keeps. pose proof set_state_root_frames. pose proof set_block_root_frames.
  assert (∀ h : BeaconBlockHeader.t, keeps ok (modify (E:=SlotProcessingError.t) (State.on_chain (Chain.set_latest_block_header h))))
    by (intros h; apply frames_keeps; intros w; frame_modify).
  apply keeps_get_known. intros s0 Hs0. pose proof (rg_slot _ _ (proj2 Hs0)). apply keeps_bind; [keeps_steps|intros root'].
  apply keeps_try_known. intros next Hnext%safe_add_range. apply keeps_bind.
  { apply keeps_modify. intros s Hs. by apply ledger_ok_slot. }
  intros _. do 6 (apply keeps_bind; [solve [keeps_steps]|intros ?]).
  stays_steps. apply ledger_ok_slot; [done|].
  by match goal with H : safe_sub _ 1 = _ |- _ => apply safe_sub_inv in H as [_ ?] end.
Qed.

(** ** Upgrades *)
(** An upgrade from an earlier fork fails on a state with builders. *)
Lemma require_fork_refuses f s : ok s → ForkName.ge ForkName.Fulu f = true → ∃ e, require_fork f s = Err e.
Proof.
  intros Hs Hf. unfold require_fork. destruct (bool_decide_reflect (State.fork_name s = f)) as [E|]; [|by eexists].
  pose proof (rg_fork _ _ (proj2 Hs)) as H. rewrite E in H. by destruct f.
Qed.
Lemma refused_maintains {A} f (k : State.t → unit → StM A) :
  ForkName.ge ForkName.Fulu f = true → maintains ok (s ← get; lift (require_fork f s) ≫= k s).
Proof.
  intros Hf s a s' Hs H. apply bind_ok in H as (s0 & s1 & [= <- <-] & H).
  destruct (require_fork_refuses f s Hs Hf) as [e He]. apply bind_ok in H as (u & s1 & [= E _] & _). congruence.
Qed.
Lemma upgrade_to_electra_maintains : maintains ok (upgrade_to_electra spec forks).
Proof.
  unfold upgrade_to_electra. do 5 (apply maintains_bind; [solve [maintains_steps]|intros ?]). by apply refused_maintains.
Qed.
Lemma upgrade_to_fulu_maintains : maintains ok (upgrade_to_fulu hash spec forks fuel).
Proof.
  intros s a s' Hs H. unfold upgrade_to_fulu in H. apply bind_ok in H as (s0 & s1 & [= <- <-] & H).
  apply bind_ok in H as (l & s1 & [= _ <-] & H). by eapply (refused_maintains ForkName.Electra (fun _ _ => modify _)); [|exact Hs|exact H].
Qed.
Lemma upgrade_to_heze_maintains : maintains ok (upgrade_to_heze spec forks).
Proof.
  unfold upgrade_to_heze. maintains_steps. apply maintains_keeps, keeps_modify. intros s [Hs R].
  split; [by eapply solvent_ext; [..|exact Hs]|]. by constructor; try apply R.
Qed.
Lemma upgrade_at_maintains e (m : StM unit) : maintains ok m → maintains ok (upgrade_at spec e m).
Proof. intros Hm. unfold upgrade_at. maintains_steps. Qed.
Lemma process_upgrades_maintains : maintains ok (process_upgrades hash spec forks fuel aggregate_pubkeys deposit_signature).
Proof.
  unfold process_upgrades. repeat (apply maintains_bind; [apply upgrade_at_maintains|intros _]); try apply upgrade_at_maintains;
    first [by apply refused_maintains | apply upgrade_to_electra_maintains | apply upgrade_to_fulu_maintains
          | apply upgrade_to_heze_maintains].
Qed.

Lemma build_caches_keeps : keeps ok (build_caches hash spec).
Proof. unfold build_caches, build_all_committee_caches. keeps_steps. Qed.
Lemma per_slot_processing_maintains root :
  maintains ok (per_slot_processing hash spec forks fuel state_root header_root roots_root batch_root aggregate_pubkeys
    deposit_signature root).
Proof using Hspec.
  unfold per_slot_processing. pose proof (cache_state_keeps root). pose proof process_epoch_maintains.
  pose proof process_upgrades_maintains. pose proof build_caches_keeps.
  apply maintains_bind; [maintains_steps|intros s0]. destruct (inconsistent_fork _ _ _) as [[]|]; [by intros|].
  apply maintains_bind; [maintains_steps|intros _]. apply maintains_bind; [maintains_steps|intros s1].
  apply maintains_bind; [maintains_steps|intros last]. apply maintains_bind; [destruct last; maintains_steps|intros summary].
  apply maintains_bind; [maintains_steps|intros s2]. intros s a s' Hs Hrun.
  apply bind_ok in Hrun as (slot & s3 & [Hslot ->]%try_ok & Hrun). apply safe_add_range in Hslot.
  apply bind_ok in Hrun as (u & s4 & [= _ <-] & Hrun). apply (ledger_ok_slot _ slot) in Hs; [|done].
  revert Hs Hrun. generalize (SlotDefs.set_slot slot s). intros s4. revert s4 a s'.
  maintains_steps.
Qed.

(** ** The first state with builders *)
(** What the upgrade needs of a state of the fork before: ranges of [u64] fields
    and of the amounts of the pending deposits. *)
Record upgrade_ready (s : State.t) : Prop := {
  ur_total : ∀ e b, s.(State.core).(BeaconState.total_active_balance) = Some (e, b) →
    spec.(Spec.effective_balance_increment) ≤ b;
  ur_validators : Z.of_nat (length (State.validators s)) ≤ 2 ^ 40;
  ur_partials : Forall (fun w => 0 ≤ w.(PendingPartialWithdrawal.validator_index))
                  s.(State.queues).(Queues.pending_partial_withdrawals);
  ur_cursor : 0 ≤ s.(State.registry).(Registry.next_withdrawal_validator_index);
  ur_slot : 0 ≤ State.slot s ≤ u64_max;
  ur_deposits : Forall (fun d => 0 ≤ d.(PendingDeposit.amount) ≤ u64_max) s.(State.queues).(Queues.pending_deposits);
}.

Lemma upgrade_state_ok s : upgrade_ready s → ok (upgrade_state_to_gloas spec forks s).
Proof.
  intros R. split.
  - constructor; simpl; try done.
    + apply Forall_fmap, Forall_replicate. apply entry_default.
    + by apply Forall_replicate.
  - constructor; simpl; try apply R; try done.
Qed.

Lemma onboard_new_builder_stays b i s :
  ok s → 0 ≤ b.(Builder.balance) ≤ u64_max → b.(Builder.withdrawable_epoch) = spec.(Spec.far_future_epoch) →
  (∀ old, s.(State.epbs).(Epbs.builders) !! i = Some old → old.(Builder.balance) = 0) →
  stays ok (onboard_new_builder spec b i) s.
Proof using Hspec.
  intros Hok Hb Hfar Hold. unfold onboard_new_builder. stays_steps; gated_eq; btoprop.
  - apply stays_then; [|intros _; apply frames_keeps; intros v; frame_steps]. apply stays_modify.
    destruct (lookup_lt_is_Some_2 (Epbs.builders (State.epbs s)) i) as [old Hi]; [by apply Nat.ltb_lt|].
    eapply replace_builder_ok; [done|exact Hi|by apply Hold|done|done].
  - apply stays_then; [|intros _; apply frames_keeps; intros v; frame_steps]. apply stays_modify.
    by eapply append_builder_ok.
Qed.
Lemma apply_builder_deposit_keeps d :
  0 ≤ d.(PendingDeposit.amount) ≤ u64_max → keeps ok (apply_builder_deposit spec deposit_signature d).
Proof using Hspec.
  intros Hd. unfold apply_builder_deposit. stays_steps; gated_eq.
  - apply top_up_ok; [done| |lia]. by match goal with H : ok_or _ _ = _ |- _ => apply ok_or_ok in H end.
  - apply onboard_new_builder_stays; [done|done|done|]. intros old Hold. by eapply (index_for_new_builder_free 0).
Qed.
Lemma onboard_loop_keeps ds kept ks :
  Forall (fun d => 0 ≤ d.(PendingDeposit.amount) ≤ u64_max) ds → keeps ok (onboard_loop spec deposit_signature ds kept ks).
Proof using Hspec.
  revert kept ks. induction ds as [|d ds IH]; intros kept ks Hds; cbn [onboard_loop]; [apply keeps_ret|].
  apply list.Forall_cons in Hds as [Hd Hds]. pose proof (apply_builder_deposit_keeps d Hd).
  assert (∀ kept ks, keeps ok (onboard_loop spec deposit_signature ds kept ks)) by auto. keeps_steps.
Qed.
Abbreviation deposits_ok s :=
  (Forall (fun d => 0 ≤ d.(PendingDeposit.amount) ≤ u64_max) s.(State.queues).(Queues.pending_deposits)).
Lemma onboard_builders_stays s :
  ok s → deposits_ok s → stays ok (onboard_builders_from_pending_deposits spec deposit_signature) s.
Proof using Hspec.
  intros Hok Hd. unfold onboard_builders_from_pending_deposits.
  assert (keeps (fun s => deposits_ok s) update_pubkey_cache) as Hcache by (unfold update_pubkey_cache; keeps_steps; by apply keeps_modify).
  specialize (Hcache s Hd). pose proof (frames_keeps spec _ update_pubkey_cache_frames s Hok) as Hok'.
  unfold stays. unfold mbind at 1, M_bind. destruct (update_pubkey_cache s) as [[[]|e| |] s1]; [|done..]. simpl in *.
  apply (stays_get ok). apply stays_lift; [done|]. intros l Hl%gated_ok. subst l. apply stays_then.
  - by apply stays_keeps; [apply onboard_loop_keeps|].
  - intros kept. apply frames_keeps. intros w. frame_modify.
Qed.
Lemma replace_state_ok left post m s u s' : replace_state left post m s = (Ok u, s') → m post = (Ok u, s').
Proof. unfold replace_state. destruct (m post) as [r post']. by intros [= -> <-]. Qed.
Lemma upgrade_to_gloas_ok s s' :
  upgrade_ready s → upgrade_to_gloas hash spec forks fuel deposit_signature s = (Ok tt, s') → ok s'.
Proof using Hspec.
  intros R H. unfold upgrade_to_gloas in H. apply bind_ok in H as (s0 & s1 & [= <- <-] & H).
  apply bind_ok in H as (u & s1 & [= _ <-] & Hrun%replace_state_ok).
  apply bind_ok in Hrun as ([] & s1 & Hon & Hrun).
  pose proof (onboard_builders_stays _ (upgrade_state_ok s R) (ur_deposits _ R)) as Hok. unfold stays in Hok. rewrite Hon in Hok.
  revert Hok Hrun. apply (maintains_keeps ok). keeps_steps.
  apply keeps_modify. intros s2 Hs2. apply ledger_ok_epbs'; [done| |done|done]. by eapply solvent_ext; [..|apply Hs2].
Qed.
End slot.
