(* ===== verification/BuilderSolvency.v ===== *)
(** * Blocks keep the ledger of the builders

    Withdrawals, attestations, slashings and the operations of a block, put
    together: a block that is accepted keeps every builder able to pay what is
    pending for it. *)
From S2P Require Import Prelude SlotEpoch ProtoArrayDefs ForkChoiceDefs ForkSchedule BeaconStateDefs.
From S2P Require Import ValidatorDefs ShuffleDefs CommitteeDefs MerkleDefs SlashingDefs DoppelgangerDefs ValidatorStoreDefs.
From S2P Require Import StateDefs RegistryDefs BlockDefs EpbsDefs JustificationDefs EpochCacheDefs OperationsDefs RequestDefs.
From S2P Require Import BlockProcessingDefs EpochGloasDefs Ledger LedgerSteps LedgerOps LedgerWithdrawals.

(** The [u64] fields of a block that reach the ledger. *)
Record block_in_range (block : SignedBlock.t) : Prop := {
  br_bid : ∀ bid, block.(SignedBlock.signed_execution_payload_bid) = Some bid →
    0 ≤ bid.(SignedBid.message).(PayloadBid.builder_index);
  br_exits : Forall (fun e => 0 ≤ e.(SignedVoluntaryExit.validator_index)) block.(SignedBlock.voluntary_exits);
  br_requests : ∀ requests, block.(SignedBlock.execution_requests) = Some requests →
    Forall deposit_in_range requests.(ExecutionRequests.deposits);
}.

Section solvency.
Context (hash : list Z → list Z) (hash2 : Hash256 → Hash256 → Hash256).
Context (spec : Spec.t) (forks : ForkSpec.t) (fuel : nat) (Hspec : ledger_spec spec).
Context (signature_set : State.t → Signed.t → outcome SignatureSetError.t bool).
Context (signature_valid : State.t → Signed.t → bool) (decompress : PublicKeyBytes → bool).
Context (bulk_valid : State.t → SignedBlock.t → bool).
Context (deposit_signature : DepositData.t → bool).
Context (attestation_root : BlockAttestation.t → Hash256) (deposit_root : DepositData.t → Hash256).
Context (header_root : BeaconBlockHeader.t → Hash256) (state_root : State.t → outcome BeaconStateError.t Hash256).
Context (withdrawals_root : list Withdrawal.t → Hash256) (bls_credentials : PublicKeyBytes → Z).
Abbreviation ok := (ledger_ok spec).
Abbreviation bok := (fun b => ledger_ok spec b.(Block.state)).

(** ** Withdrawals and payloads *)
Lemma process_withdrawals_gloas_maintains : maintains ok (process_withdrawals_gloas spec).
Proof using Hspec.
  intros s [] s' Hok H. pose proof H as Hrun. unfold process_withdrawals_gloas in H.
  apply bind_ok in H as (s0 & s1 & [= <- <-] & H). apply bind_ok in H as (full & s1 & [= Hfull <-] & H).
  destruct full; [|by injection H as <-]. simpl in H. apply bind_ok in H as (r & s1 & [= Hr <-] & _).
  by eapply process_withdrawals_gloas_run.
Qed.

Lemma advance_cursor_maintains ws : maintains ok (advance_withdrawal_cursor spec ws).
Proof.
  assert (∀ n s, ok s → Z.of_nat (length (State.validators s)) ≠ 0 →
    ok (State.on_registry (Registry.set_next_withdrawal_validator_index (n mod Z.of_nat (length (State.validators s)))) s)) as Hset.
  { intros n s Hs Hn. apply ledger_ok_cursor; [done|]. apply Z.mod_pos_bound. lia. }
  unfold advance_withdrawal_cursor. set (full := _ =? _). apply maintains_bind.
  - destruct (list.last ws) as [w|]; [|apply maintains_keeps, keeps_ret]. apply maintains_keeps.
    apply keeps_bind; [apply keeps_try|intros n]. apply keeps_bind.
    { apply frames_keeps. intros v. frame_modify. }
    intros _. apply keeps_when. stays_steps. safe_inv. subst. by apply Hset.
  - intros _. apply maintains_keeps, keeps_when. stays_steps. safe_inv. subst. by apply Hset.
Qed.
Lemma process_withdrawals_maintains payload : maintains ok (process_withdrawals spec withdrawals_root payload).
Proof.
  unfold process_withdrawals. apply maintains_bind; [apply maintains_keeps, keeps_get|intros s0].
  destruct (ForkName.ge _ _); simpl; [|apply maintains_keeps, keeps_ret].
  apply maintains_bind; [apply maintains_keeps, keeps_lift|intros [ws n]].
  apply maintains_bind; [apply maintains_keeps, keeps_lift|intros _].
  apply maintains_bind.
  { apply maintains_keeps, keeps_for_each. intros w _. apply keeps_call, frames_keeps. auto with keeps. }
  intros _. apply maintains_bind; [|intros _; apply advance_cursor_maintains].
  destruct n as [n|]; [|apply maintains_keeps, keeps_ret]. apply maintains_keeps. stays_steps. gated_eq.
  apply ledger_ok_partials; [done|]. unfold Milhouse.pop_front in *. case_match; simplify_eq. apply Forall_drop, H.
Qed.

Lemma process_payload_maintains block gloas v :
  block_in_range block →
  maintains ok (process_payload_of_block spec forks signature_valid decompress withdrawals_root block gloas v).
Proof using Hspec.
  intros Hb. unfold process_payload_of_block. destruct gloas.
  - apply maintains_bind; [apply process_withdrawals_gloas_maintains|intros _].
    destruct (SignedBlock.signed_execution_payload_bid block) as [bid|] eqn:Hbid; apply maintains_keeps; [|apply keeps_ret].
    apply keeps_bind; [apply keeps_get|intros s]. apply process_bid_keeps; [done|]. by apply (br_bid _ Hb).
  - apply maintains_bind; [apply maintains_keeps, keeps_get|intros s].
    destruct (is_execution_enabled _ _); simpl; [|apply maintains_keeps, keeps_ret].
    apply maintains_bind; [apply maintains_keeps, keeps_lift|intros payload].
    apply maintains_bind; [apply process_withdrawals_maintains|intros _].
    apply maintains_keeps, frames_keeps. unfold process_execution_payload. intros w. frame_steps.
Qed.

(** ** Attestations and slashings *)
Lemma bkeeps_state {E A} (m : M State.t E A) : keeps ok m → keeps bok (on_state m).
Proof. apply keeps_on_state. Qed.

Lemma apply_attester_keeps data p c fl g ss i n : keeps ok (apply_attester spec data p c fl g ss i n).
Proof.
  unfold apply_attester. pose proof (add_payment_weight_keeps spec).
  assert (∀ e f b eb sl ws i n, keeps ok (reward_flags e f b eb sl i ws n))
    by (intros; apply frames_keeps, reward_flags_frames).
  keeps_steps. apply frames_keeps. intros v. apply keeps_modify. intros s' <-.
  unfold set_epoch_participation, ledger_view, State.validators, State.slot. simpl. by case_match.
Qed.
Lemma apply_attesters_keeps data p c fl g ss l n : keeps ok (apply_attesters spec data p c fl g ss l n).
Proof.
  revert n. induction l as [|i l IH]; intros n; simpl; [apply keeps_ret|].
  apply keeps_bind; [apply apply_attester_keeps|]. intros. apply IH.
Qed.

Lemma process_attestation_keeps a i v :
  keeps bok (process_attestation hash spec fuel signature_set attestation_root a i v).
Proof.
  unfold process_attestation.
  assert (keeps bok (get_proposer_index hash spec fuel)) by apply bframes_keeps, get_proposer_index_frames.
  assert (keeps bok (verify_attestation_for_block_inclusion spec signature_set attestation_root a v))
    by apply bframes_keeps, verify_inclusion_frames.
  assert (∀ i x, keeps bok (on_state (increase_balance i x)))
    by (intros; apply bkeeps_state, frames_keeps; auto with keeps).
  assert (∀ p c fl g ss l n, keeps bok (on_state (apply_attesters spec (BlockAttestation.data a) p c fl g ss l n)))
    by (intros; apply bkeeps_state, apply_attesters_keeps).
  keeps_steps.
Qed.
Lemma process_attestations_keeps l v :
  keeps bok (process_attestations hash spec forks fuel signature_set attestation_root l v).
Proof.
  unfold process_attestations. apply keeps_bind; [apply keeps_get|intros b]. case_match.
  - apply keeps_for_each_indexed. intros. apply process_attestation_keeps.
  - apply base_process_attestations_keeps.
Qed.

Lemma process_proposer_slashings_keeps l v :
  keeps bok (process_proposer_slashings hash spec fuel signature_set l v).
Proof.
  unfold process_proposer_slashings. apply keeps_bind.
  { apply keeps_call, bkeeps_state, frames_keeps. auto with keeps. }
  intros _. apply keeps_for_each_indexed. intros i p. unfold process_proposer_slashing.
  assert (∀ i w, keeps bok (slash_validator hash spec fuel i w)) by (intros; apply bframes_keeps, slash_validator_frames).
  assert (∀ slot, keeps bok (on_state (remove_slashed_payment spec slot)))
    by (intros; apply bkeeps_state, remove_slashed_payment_keeps).
  keeps_steps.
Qed.

(** ** A block *)
Lemma maintains_on_state {E A} P (m : M State.t E A) :
  maintains P m → maintains (fun b => P b.(Block.state)) (on_state m).
Proof.
  intros Hm b a b' Hb H. unfold on_state, zoom in H. destruct (m (Block.state b)) as [o s'] eqn:Hrun. simplify_eq/=. by eapply Hm.
Qed.
Lemma process_operations_keeps block v :
  block_in_range block →
  keeps bok (process_operations hash hash2 spec forks fuel signature_set signature_valid decompress deposit_signature
    attestation_root deposit_root bls_credentials block v).
Proof using Hspec.
  intros Hb. unfold process_operations. pose proof (process_proposer_slashings_keeps (SignedBlock.proposer_slashings block) v).
  assert (keeps bok (process_attester_slashings hash spec fuel signature_set (SignedBlock.attester_slashings block) v))
    by apply bframes_keeps, process_attester_slashings_frames.
  pose proof (process_attestations_keeps (SignedBlock.attestations block) v).
  assert (keeps bok (on_state (process_deposits hash2 spec deposit_signature deposit_root (SignedBlock.deposits block))))
    by (apply bkeeps_state; by apply process_deposits_keeps).
  assert (keeps bok (on_state (process_exits spec signature_set (SignedBlock.voluntary_exits block) v)))
    by (apply bkeeps_state, process_exits_keeps, Hb).
  assert (∀ l, keeps bok (on_state (process_bls_to_execution_changes spec signature_set bls_credentials l v)))
    by (intros; apply bkeeps_state, frames_keeps, process_bls_changes_frames).
  assert (∀ a, keeps bok (on_state (process_payload_attestation hash spec fuel signature_valid decompress a v)))
    by (intros; apply bkeeps_state, frames_keeps, process_payload_attestation_frames).
  assert (∀ l, keeps bok (on_state (process_withdrawal_requests spec l)))
    by (intros; apply bkeeps_state, process_withdrawal_requests_keeps).
  assert (∀ l, keeps bok (on_state (process_consolidation_requests spec l)))
    by (intros; apply bkeeps_state, process_consolidation_requests_keeps).
  assert (keeps bok (on_state update_pubkey_cache)) by (apply bkeeps_state, frames_keeps; auto with keeps).
  assert (∀ r, SignedBlock.execution_requests block = Some r →
    keeps bok (on_state (process_deposit_requests spec deposit_signature r.(ExecutionRequests.deposits))))
    by (intros; apply bkeeps_state, process_deposit_requests_keeps; [done|by apply (br_requests _ Hb)]).
  destruct (SignedBlock.execution_requests block) as [r|] eqn:Hr; keeps_steps; auto;
    apply keeps_for_each; auto.
Qed.

Lemma per_block_processing_maintains block strategy verify_block_root :
  block_in_range block →
  maintains bok (per_block_processing hash hash2 spec forks fuel signature_set signature_valid decompress bulk_valid
    deposit_signature attestation_root deposit_root header_root withdrawals_root bls_credentials
    block strategy verify_block_root).
Proof using Hspec.
  intros Hb. unfold per_block_processing.
  assert (keeps bok (on_state (initialize_epoch_cache spec forks))) by (apply bkeeps_state; auto with keeps).
  assert (keeps bok (on_state (on_core (initialize_progressive_balances_cache spec.(Spec.slots_per_epoch)
    spec.(Spec.effective_balance_increment))))) by (apply bkeeps_state, frames_keeps; auto with keeps).
  assert (keeps bok (on_state build_slashings_cache)) by (apply bkeeps_state, frames_keeps; auto with keeps).
  assert (∀ h v, keeps bok (process_block_header hash spec fuel header_root h v))
    by (intros; apply bframes_keeps, process_block_header_frames).
  assert (keeps bok (verify_block_signature hash spec fuel signature_set block))
    by apply bframes_keeps, verify_block_signature_frames.
  assert (∀ r, keeps bok (on_state (build_committee_cache hash spec r)))
    by (intros; apply bkeeps_state; auto with keeps).
  assert (∀ v, keeps bok (process_randao hash spec fuel signature_set block v))
    by (intros; apply bframes_keeps, process_randao_frames).
  assert (∀ d, keeps bok (on_state (process_eth1_data spec d))) by (intros; apply bkeeps_state, frames_keeps; auto with keeps).
  assert (∀ a p v, keeps bok (on_state (process_sync_aggregate spec signature_set a p v)))
    by (intros; apply bkeeps_state, frames_keeps, process_sync_aggregate_frames).
  pose proof (fun v => process_operations_keeps block v Hb).
  pose proof (fun g v => maintains_on_state _ _ (process_payload_maintains block g v Hb)).
  maintains_steps.
Qed.
End solvency.
