(* ===== verification/ChainSafety.v ===== *)
(** * Builders stay solvent

    Over a chain of slots, blocks and payload envelopes that starts with the first
    state with builders, every builder can pay what is pending for it, so that
    withdrawals to builders are funded. *)
From S2P Require Import Prelude SlotEpoch ProtoArrayDefs ForkChoiceDefs ForkSchedule BeaconStateDefs.
From S2P Require Import ValidatorDefs ShuffleDefs CommitteeDefs MerkleDefs SlashingDefs DoppelgangerDefs ValidatorStoreDefs.
From S2P Require Import StateDefs RegistryDefs BlockDefs EpbsDefs JustificationDefs EpochCacheDefs OperationsDefs RequestDefs.
From S2P Require Import BlockProcessingDefs EpochGloasDefs EpochPassDefs EpochBaseDefs UpgradeDefs SlotDefs.
From S2P Require Import Ledger LedgerSteps LedgerOps LedgerWithdrawals LedgerEpoch BuilderSolvency.
From S2P Require Import ShuffleCorrect StateExample.

Section chain.
Context (hash : list Z → list Z) (hash2 : Hash256 → Hash256 → Hash256).
Context (spec : Spec.t) (forks : ForkSpec.t) (fuel : nat) (Hspec : ledger_spec spec).
Context (signature_set : State.t → Signed.t → outcome SignatureSetError.t bool).
Context (signature_valid : State.t → Signed.t → bool) (decompress : PublicKeyBytes → bool).
Context (bulk_valid : State.t → SignedBlock.t → bool).
Context (deposit_signature : DepositData.t → bool).
Context (attestation_root : BlockAttestation.t → Hash256) (deposit_root : DepositData.t → Hash256).
Context (header_root : BeaconBlockHeader.t → Hash256) (state_root : State.t → outcome BeaconStateError.t Hash256).
Context (withdrawals_root : list Withdrawal.t → Hash256) (bls_credentials : PublicKeyBytes → Z).
Abbreviation ok := (ledger_ok spec).

(** ** A chain *)
Context (roots_root : list Hash256 → Hash256) (batch_root : list Hash256 → list Hash256 → Hash256).
Context (aggregate_pubkeys : list PublicKeyBytes → option PublicKeyBytes).

(** The state advances by a slot, a block or the payload of a block. *)
Inductive chain_step : State.t → State.t → Prop :=
  | slot_step root summary s s' :
      per_slot_processing hash spec forks fuel state_root header_root roots_root batch_root aggregate_pubkeys
        deposit_signature root s = (Ok summary, s') →
      chain_step s s'
  | block_step block strategy verify_block_root ctxt s b' :
      block_in_range block →
      per_block_processing hash hash2 spec forks fuel signature_set signature_valid decompress bulk_valid
        deposit_signature attestation_root deposit_root header_root withdrawals_root bls_credentials
        block strategy verify_block_root (Block.mk s ctxt) = (Ok tt, b') →
      chain_step s b'.(Block.state)
  | envelope_step root envelope verify_signatures s s' :
      Forall deposit_in_range envelope.(SignedEnvelope.execution_requests).(ExecutionRequests.deposits) →
      process_execution_payload_envelope spec signature_set deposit_signature header_root state_root
        root envelope verify_signatures s = (Ok tt, s') →
      chain_step s s'.

Lemma chain_step_ok s s' : chain_step s s' → ok s → ok s'.
Proof using Hspec.
  intros [root summary s0 s1 H|block strategy v ctxt s0 b1 Hb H|root env v s0 s1 Hd H] Hs.
  - by eapply per_slot_processing_maintains.
  - by eapply per_block_processing_maintains in H.
  - by eapply (maintains_keeps _ _ (process_envelope_keeps spec Hspec _ _ _ _ _ _ _ Hd)).
Qed.
Lemma chain_ok s s' : rtc chain_step s s' → ok s → ok s'.
Proof using Hspec. induction 1 as [|s s1 s' H _ IH]; [done|]. intros Hs. by eapply IH, chain_step_ok. Qed.

(** C1. From the upgrade to Gloas on, over any sequence of slots, blocks and
    payload envelopes that the state transition accepts, the balance of every
    builder covers all that is pending for it - the payments of the last two epochs
    and the withdrawals in the queue - and a builder that is leaving has nothing
    pending. *)
Theorem builders_stay_solvent s0 s1 s :
  upgrade_ready spec s0 →
  upgrade_to_gloas hash spec forks fuel deposit_signature s0 = (Ok tt, s1) →
  rtc chain_step s1 s →
  ∀ i b, s.(State.epbs).(Epbs.builders) !! i = Some b →
    0 ≤ owed s.(State.epbs) (Z.of_nat i) ≤ b.(Builder.balance) ∧
    (b.(Builder.withdrawable_epoch) ≠ spec.(Spec.far_future_epoch) → owed s.(State.epbs) (Z.of_nat i) = 0).
Proof using Hspec.
  intros Hr Hup Hrun i b Hb. apply (upgrade_to_gloas_ok hash spec forks fuel Hspec) in Hup as Hok; [|done].
  destruct (chain_ok _ _ Hrun Hok) as [Hs _]. split; [split|].
  - by eapply owed_nonneg.
  - by apply (sv_covered _ _ Hs).
  - by apply (sv_leaving _ _ Hs).
Qed.
End chain.

(** ** Withdrawals *)
Abbreviation builders s := (s.(State.epbs).(Epbs.builders)).
Abbreviation queue s := (s.(State.epbs).(Epbs.builder_pending_withdrawals)).

(** C2. When the payload of the parent block is there, the withdrawals of a block
    take from each builder exactly its entries among those that leave the queue, or
    its whole balance when it has left and nothing is pending for it; the balance
    covers what is taken, the entries leave the queue in order, and no other field
    of a builder changes. *)
Theorem builder_withdrawals_funded spec s r s' :
  ledger_spec spec → ledger_ok spec s →
  is_parent_block_full s = Ok true → compute_withdrawals_gloas spec s = Ok r →
  process_withdrawals_gloas spec s = (Ok tt, s') →
  let k := r.(WithdrawalResult.processed_builder_withdrawals_count) in
  let paid_to i := paid (Z.of_nat i) r.(WithdrawalResult.withdrawals) in
  queue s' = drop k (queue s) ∧ length (builders s') = length (builders s) ∧
  ∀ i b, builders s !! i = Some b →
    builders s' !! i = Some (Builder.set_balance (b.(Builder.balance) - paid_to i) b) ∧
    0 ≤ paid_to i ≤ b.(Builder.balance) ∧
    (paid_to i = amount_for (Z.of_nat i) (take k (queue s)) ∨
     paid_to i = b.(Builder.balance) ∧ owed s.(State.epbs) (Z.of_nat i) = 0).
Proof.
  intros Hspec Hok Hfull Hr Hrun k paid_to.
  destruct (compute_withdrawals_pay spec Hspec s r Hok Hr) as (Hk & Hwd & Hpaid).
  destruct (process_withdrawals_gloas_run spec Hspec s s' r Hok Hfull Hr Hrun) as (Hok' & s1 & [_ L B] & A).
  unfold accounts in A. injection A as Hb Hq _. split_and!; [done|by rewrite Hb|]. intros i b Hi. specialize (Hpaid i b Hi).
  pose proof (sv_covered _ _ (proj1 Hok) i b Hi) as Hc. apply lookup_lt_Some in Hi as Hlt.
  pose proof (paid_nonneg (Z.of_nat i) _ ltac:(pose proof (sv_length _ _ (proj1 Hok)); simpl in *; lia) Hwd).
  pose proof (amount_for_nonneg (Z.of_nat i) _ (Forall_drop _ k _ (amounts_nonneg _ _ (queue_entries _ _ (proj1 Hok))))).
  pose proof (amount_for_nonneg (Z.of_nat i) _ (amounts_nonneg _ _ (sv_payments _ _ (proj1 Hok)))).
  pose proof (amount_for_app (Z.of_nat i) (take k (queue s)) (drop k (queue s))) as Happ. rewrite take_drop in Happ.
  assert (0 ≤ paid_to i ≤ b.(Builder.balance)) as Hrange by (unfold owed in Hc; fold k in Hpaid; subst paid_to; simpl in *; lia).
  split; [|done]. destruct (lookup_lt_is_Some_2 (builders s1) i) as [b' Hb']; [lia|].
  destruct (B i b' Hb') as (b0 & Hb0 & ->). simplify_eq. rewrite Hb, Hb'. do 2 f_equal. subst paid_to. simpl in *. lia.
Qed.

(** ** The example chain *)
Lemma run_ok {S E A} (m : M S E A) s a : (m s).1 = Ok a → m s = (Ok a, (m s).2).
Proof. destruct (m s) as [r s']. by intros [= ->]. Qed.

Lemma tx_ledger_spec : ledger_spec tx_spec.
Proof. constructor; vm_compute; done || lia. Qed.
Lemma tx_fulu_ready : upgrade_ready tx_spec tx_fulu.
Proof. constructor; [done|vm_compute; done|constructor|done|vm_compute; done|]. by repeat constructor. Qed.
Lemma tx_upgrade_runs : tx_run_upgrade tx_fulu = (Ok tt, tx_gloas).
Proof. unfold tx_gloas. apply (run_ok tx_run_upgrade tx_fulu tt). vm_compute. reflexivity. Qed.
Lemma tx_561_runs : tx_run_slot None tx_gloas = (Ok None, tx_561).
Proof. unfold tx_561. apply (run_ok (tx_run_slot None) tx_gloas None). vm_compute. reflexivity. Qed.
Lemma tx_bid_runs :
  (tx_run_block tx_block_561 (Block.mk tx_561 (ConsensusContext.new tx_spec 561))).1 = Ok tt.
Proof. vm_compute. reflexivity. Qed.
Lemma tx_payload_runs : tx_run_envelope None tx_envelope tx_with_bid = (Ok tt, tx_with_payload).
Proof. unfold tx_with_payload. apply (run_ok (tx_run_envelope None tx_envelope) tx_with_bid tt). vm_compute. reflexivity. Qed.

Abbreviation tx_step :=
  (chain_step toy_hash tx_hash2 tx_spec tx_forks tx_fuel tx_signature_set tx_valid tx_decompress tx_bulk tx_deposit_signature
     tx_attestation_root tx_deposit_root tx_header_root tx_state_root tx_withdrawals_root tx_bls_credentials tx_roots_root
     tx_batch_root tx_aggregate).
Lemma tx_block_ranges slot root bid :
  0 ≤ bid.(SignedBid.message).(PayloadBid.builder_index) → block_in_range (tx_block slot root bid).
Proof. intros Hb. constructor; simpl; [by intros ? [= <-]|constructor|done]. Qed.

Lemma tx_slot_step : tx_step tx_gloas tx_561.
Proof. eapply slot_step. exact tx_561_runs. Qed.
Lemma tx_bid_step : tx_step tx_561 tx_with_bid.
Proof.
  unfold tx_with_bid. generalize tx_bid_runs.
  destruct (tx_run_block tx_block_561 _) as [r b'] eqn:Hrun. intros Hr. simpl in Hr. subst r.
  eapply block_step; [|exact Hrun]. by apply tx_block_ranges.
Qed.
Lemma tx_payload_step : tx_step tx_with_bid tx_with_payload.
Proof. eapply envelope_step; [|exact tx_payload_runs]. constructor. Qed.
Lemma tx_to_payload : rtc tx_step tx_gloas tx_with_payload.
Proof. exact (rtc_l _ _ _ _ tx_slot_step (rtc_l _ _ _ _ tx_bid_step (rtc_once _ _ tx_payload_step))). Qed.
Lemma tx_builder_lookup : ∃ b, builders tx_with_payload !! 0%nat = Some b ∧ b.(Builder.balance) = 40 * gwei.
Proof. eexists. split; vm_compute; reflexivity. Qed.

Lemma builders_stay_solvent_witness :
  ∃ b, builders tx_with_payload !! 0%nat = Some b ∧ b.(Builder.balance) = 40 * gwei ∧
    0 ≤ owed tx_with_payload.(State.epbs) 0 ≤ b.(Builder.balance).
Proof.
  destruct tx_builder_lookup as (b & Hb & Hbal). exists b. split; [exact Hb|]. split; [exact Hbal|].
  exact (proj1 (builders_stay_solvent _ _ _ _ _ tx_ledger_spec _ _ _ _ _ _ _ _ _ _ _ _ _ _ _ _ _
    tx_fulu_ready tx_upgrade_runs tx_to_payload 0%nat b Hb)).
Defined.

Lemma tx_562_runs : tx_run_slot None tx_with_payload = (Ok None, tx_562).
Proof. unfold tx_562. apply (run_ok (tx_run_slot None) tx_with_payload None). vm_compute. reflexivity. Qed.
Lemma tx_562_ok : ledger_ok tx_spec tx_562.
Proof.
  eapply (per_slot_processing_maintains _ _ _ _ tx_ledger_spec); [|exact tx_562_runs].
  eapply chain_ok; [exact tx_ledger_spec|exact tx_to_payload|].
  eapply (upgrade_to_gloas_ok _ _ _ _ tx_ledger_spec); [exact tx_fulu_ready|exact tx_upgrade_runs].
Qed.
Definition tx_withdrawals : WithdrawalResult.t :=
  match compute_withdrawals_gloas tx_spec tx_562 with Ok r => r | _ => WithdrawalResult.mk [] 0 0 0 end.
Definition tx_after_withdrawals : State.t := (process_withdrawals_gloas tx_spec tx_562).2.
Lemma tx_full : is_parent_block_full tx_562 = Ok true.
Proof. vm_compute. reflexivity. Qed.
Lemma tx_withdrawals_computed : compute_withdrawals_gloas tx_spec tx_562 = Ok tx_withdrawals.
Proof. vm_compute. reflexivity. Qed.
Lemma tx_withdrawals_run : process_withdrawals_gloas tx_spec tx_562 = (Ok tt, tx_after_withdrawals).
Proof. unfold tx_after_withdrawals. apply (run_ok (process_withdrawals_gloas tx_spec) tx_562 tt). vm_compute. reflexivity. Qed.
Lemma tx_builder_562 : ∃ b, builders tx_562 !! 0%nat = Some b ∧ paid 0 tx_withdrawals.(WithdrawalResult.withdrawals) = 5 * gwei.
Proof. eexists. split; vm_compute; reflexivity. Qed.

Lemma builder_withdrawals_funded_witness :
  ∃ b, builders tx_562 !! 0%nat = Some b ∧
    builders tx_after_withdrawals !! 0%nat = Some (Builder.set_balance (b.(Builder.balance) - 5 * gwei) b) ∧
    5 * gwei ≤ b.(Builder.balance).
Proof.
  destruct (builder_withdrawals_funded tx_spec tx_562 tx_withdrawals tx_after_withdrawals tx_ledger_spec tx_562_ok tx_full
    tx_withdrawals_computed tx_withdrawals_run) as (_ & _ & H).
  destruct tx_builder_562 as (b & Hb & Hpaid). exists b. destruct (H 0%nat b Hb) as (Hb' & Hr & _).
  change (Z.of_nat 0) with 0 in Hb', Hr. rewrite Hpaid in Hb', Hr.
  split; [exact Hb|]. split; [exact Hb'|]. exact (proj2 Hr).
Defined.
