(* ===== verification/JustificationCorrect.v ===== *)
(** * Finality implements Casper FFG

    The finality rule works on four bits and three checkpoints.  This file
    gives it the meaning of the protocol: a history of supermajority links,
    the checkpoints they justify, and the two forms of finality.  *)
From S2P Require Import Prelude SlotEpoch ProtoArrayDefs ForkChoiceDefs ForkSchedule BeaconStateDefs JustificationDefs.

Module Jf := JustificationAndFinalizationState.

(** ** The rule in closed form *)

(** [3 a >= 2 b]. *)
Definition supermajority (a b : Z) : bool := 2 * b <=? 3 * a.

Lemma ep_arith_ok {A} (o : outcome ArithError A) a : ep_arith o = Ok a ↔ o = Ok a.
Proof. destruct o; simpl; naive_solver. Qed.
Lemma ep_state_ok {A} (o : outcome BeaconStateError.t A) a : ep_state o = Ok a ↔ o = Ok a.
Proof. destruct o; simpl; naive_solver. Qed.
Lemma lift_ok {S E A} (o : outcome E A) (s : S) a s' : lift o s = (Ok a, s') ↔ o = Ok a ∧ s' = s.
Proof. unfold lift. naive_solver. Qed.

Lemma two_thirds_inv a b r : two_thirds a b = Ok r → r = supermajority a b.
Proof.
  unfold two_thirds. destruct (safe_mul a 3) as [x| | |] eqn:Hx; try done. simpl.
  destruct (safe_mul b 2) as [y| | |] eqn:Hy; try done. simpl. intros [= <-].
  apply safe_mul_inv in Hx as ->. apply safe_mul_inv in Hy as ->. unfold supermajority. f_equal; lia.
Qed.

(** The last of the four rules that applies decides. *)
Definition finality_rule (c : Epoch) (b0 b1 b2 b3 : bool) (previous current finalized : Checkpoint.t)
    : Checkpoint.t :=
  let old (x : Checkpoint.t) k := x.(Checkpoint.epoch) + k =? c in
  if b0 && b1 && old current 1 then current
  else if b0 && b1 && b2 && old current 2 then current
  else if b1 && b2 && old previous 2 then previous
  else if b1 && b2 && b3 && old previous 3 then previous
  else finalized.

Lemma maybe_finalize_inv bits range source k c s u s' all :
  all_bits_set bits range = Ok all → maybe_finalize bits range source k c s = (Ok u, s') →
  s' = if all && (source.(Checkpoint.epoch) + k =? c) then Jf.set_finalized source s else s.
Proof.
  intros Hall H. unfold maybe_finalize in H. rewrite Hall in H.
  apply bind_ok in H as (? & ? & [[= <-] ->]%lift_ok & H).
  apply bind_ok in H as (old & s1 & Hold & H). destruct all; simpl in Hold.
  - apply bind_ok in Hold as (e & ? & [He ->]%lift_ok & Hold). apply ep_arith_ok, safe_add_inv in He as ->.
    injection Hold as <- <-. simpl. destruct (_ =? c); by injection H as _ <-.
  - injection Hold as <- <-. by injection H as _ <-.
Qed.

Lemma justify_inv e i s u s' :
  justify e i s = (Ok u, s') →
  ∃ root, Jf.get_block_root_at_epoch s e = Ok root ∧
    s' = Jf.set_bits (<[i := true]> s.(Jf.justification_bits)) (Jf.set_current_justified (Checkpoint.mk e root) s).
Proof.
  intros H. unfold justify in H. apply bind_ok in H as (x & ? & Hx & H). injection Hx as <- <-.
  apply bind_ok in H as (root & ? & [Hroot ->]%lift_ok & H). apply ep_state_ok in Hroot.
  apply bind_ok in H as (? & ? & Hm & H). injection Hm as _ <-.
  apply bind_ok in H as (bits & ? & [Hb ->]%lift_ok & H). injection H as _ <-.
  unfold set_bit in Hb. destruct (_ <? _)%nat; [|done]. injection Hb as <-. eauto.
Qed.

(** What a successful run does. *)
Definition weighed (s : JFState) (j1 j0 : bool) (s' : JFState) : Prop :=
  ∃ b0 b1 b2 b3, s.(Jf.justification_bits) = [b0; b1; b2; b3] ∧
    s'.(Jf.justification_bits) = [j0; b0 || j1; b1; b2] ∧
    s'.(Jf.previous_justified_checkpoint) = s.(Jf.current_justified_checkpoint) ∧
    (∃ r1 r0, (j1 = true → Jf.get_block_root_at_epoch s s.(Jf.previous_epoch) = Ok r1) ∧
       (j0 = true → Jf.get_block_root_at_epoch s s.(Jf.current_epoch) = Ok r0) ∧
       s'.(Jf.current_justified_checkpoint) =
         if j0 then Checkpoint.mk s.(Jf.current_epoch) r0
         else if j1 then Checkpoint.mk s.(Jf.previous_epoch) r1
         else s.(Jf.current_justified_checkpoint)) ∧
    s'.(Jf.finalized_checkpoint) =
      finality_rule s.(Jf.current_epoch) j0 (b0 || j1) b1 b2
        s.(Jf.previous_justified_checkpoint) s.(Jf.current_justified_checkpoint) s.(Jf.finalized_checkpoint).

(** One conditional justification; [r] is any root where nothing is justified. *)
Lemma when_justify_inv j e i s u s' :
  when j (justify e i) s = (Ok u, s') →
  ∃ root, (j = true → Jf.get_block_root_at_epoch s e = Ok root) ∧
    s' = if j then Jf.set_bits (<[i := true]> s.(Jf.justification_bits))
                     (Jf.set_current_justified (Checkpoint.mk e root) s) else s.
Proof.
  destruct j; [|intros [= _ <-]; by exists 0]. simpl. intros (r & Hr & ->)%justify_inv. by exists r.
Qed.

(** The four rules one after the other. *)
Lemma rules_inv b0 b1 b2 b3 previous current c s u s' :
  (maybe_finalize [b0; b1; b2; b3] (seq 1 3) previous 3 c ;;
   maybe_finalize [b0; b1; b2; b3] (seq 1 2) previous 2 c ;;
   maybe_finalize [b0; b1; b2; b3] (seq 0 3) current 2 c ;;
   maybe_finalize [b0; b1; b2; b3] (seq 0 2) current 1 c) s = (Ok u, s') →
  s' = Jf.set_finalized (finality_rule c b0 b1 b2 b3 previous current s.(Jf.finalized_checkpoint)) s.
Proof.
  intros H. apply bind_ok in H as (u1 & s1 & H1 & H). apply bind_ok in H as (u2 & s2 & H2 & H).
  apply bind_ok in H as (u3 & s3 & H3 & H).
  apply (maybe_finalize_inv _ _ _ _ _ _ _ _ (b1 && b2 && b3)) in H1; [|by destruct b1, b2, b3].
  apply (maybe_finalize_inv _ _ _ _ _ _ _ _ (b1 && b2)) in H2; [|by destruct b1, b2].
  apply (maybe_finalize_inv _ _ _ _ _ _ _ _ (b0 && b1 && b2)) in H3; [|by destruct b0, b1, b2].
  apply (maybe_finalize_inv _ _ _ _ _ _ _ _ (b0 && b1)) in H; [|by destruct b0, b1].
  unfold finality_rule. subst. destruct s as [? ? ? ? ? ? fin ?]. simpl.
  repeat case_match; done.
Qed.

Lemma weigh_inv s total previous current s' :
  length s.(Jf.justification_bits) = 4%nat →
  weigh s total previous current = Ok s' →
  weighed s (supermajority previous total) (supermajority current total) s'.
Proof.
  destruct s as [pe pr ce cr pj cj fin bits]. simpl. intros Hlen H.
  destruct bits as [|b0 [|b1 [|b2 [|b3 [|]]]]]; try discriminate. clear Hlen.
  unfold weigh in H. destruct (weigh_justification_and_finalization _ _ _ _) as [[u| | |] s1] eqn:Hw; try done.
  injection H as ->. unfold weigh_justification_and_finalization in Hw.
  apply bind_ok in Hw as (x & ? & Hx & Hw). injection Hx as <- <-. simpl in Hw.
  apply bind_ok in Hw as (? & ? & Hm & Hw). injection Hm as _ <-.
  apply bind_ok in Hw as (bits & ? & [Hb ->]%lift_ok & Hw). injection Hb as <-.
  apply bind_ok in Hw as (? & ? & Hm & Hw). injection Hm as _ <-.
  apply bind_ok in Hw as (j1 & ? & [->%two_thirds_inv ->]%lift_ok & Hw).
  apply bind_ok in Hw as (u1 & s1 & (r1 & Hr1 & Hs1)%when_justify_inv & Hw).
  apply bind_ok in Hw as (j0 & ? & [->%two_thirds_inv ->]%lift_ok & Hw).
  apply bind_ok in Hw as (u0 & s2 & (r0 & Hr0 & Hs2)%when_justify_inv & Hw).
  apply bind_ok in Hw as (y & ? & Hy & Hw). injection Hy as <- <-.
  assert (s2.(Jf.justification_bits) =
    [supermajority current total; b0 || supermajority previous total; b1; b2]) as Hbits.
  { subst s2 s1. destruct (supermajority current total), (supermajority previous total); simpl;
      by rewrite ?orb_true_r, ?orb_false_r. }
  rewrite Hbits in Hw. apply rules_inv in Hw as ->.
  exists b0, b1, b2, b3. split; [done|]. split; [exact Hbits|]. simpl.
  split; [by subst s2 s1; destruct (supermajority current total), (supermajority previous total)|].
  split.
  - exists r1, r0. split; [exact Hr1|]. split.
    + intros Hj. rewrite <-(Hr0 Hj). subst s1. by destruct (supermajority previous total).
    + subst s2 s1. by destruct (supermajority current total), (supermajority previous total).
  - subst s2 s1. by destruct (supermajority current total), (supermajority previous total).
Qed.

(** ** Histories of supermajority links *)
Module Link.
Record t : Type := mk { source : Checkpoint.t; target : Checkpoint.t }.
End Link.

Section history.
Context (slots_per_epoch : Z).

Local Abbreviation current_epoch := (state_current_epoch slots_per_epoch).
Local Abbreviation root_at := (get_block_root_at_epoch slots_per_epoch).

(** The checkpoint of an epoch on the chain of [s]. *)
Definition checkpoint_at (s : BeaconState.t) (e : Epoch) : Checkpoint.t :=
  Checkpoint.mk e match root_at s e with Ok r => r | _ => hash_zero end.

(** The links that the votes counted at the end of an epoch make: those for the
    previous epoch have the previous justified checkpoint as their source, those
    for the current epoch the current one. *)
Definition new_links (s : BeaconState.t) : list Link.t :=
  let cache := s.(BeaconState.progressive_balances_cache) in
  let c := current_epoch s in
  match ProgressiveBalancesCache.previous_epoch_target_attesting_balance cache,
        ProgressiveBalancesCache.current_epoch_target_attesting_balance cache,
        get_total_active_balance slots_per_epoch s with
  | Ok previous, Ok current, Ok total =>
      if c <=? 1 then [] else
      (if supermajority previous total
       then [Link.mk s.(BeaconState.previous_justified_checkpoint) (checkpoint_at s (c - 1))] else []) ++
      (if supermajority current total
       then [Link.mk s.(BeaconState.current_justified_checkpoint) (checkpoint_at s c)] else [])
  | _, _, _ => []
  end.

(** From one epoch to the next, block processing leaves the finality fields
    and the root of the epoch's first slot alone. *)
Definition advances (s s' : BeaconState.t) : Prop :=
  current_epoch s' = current_epoch s + 1 ∧
  s'.(BeaconState.justification_bits) = s.(BeaconState.justification_bits) ∧
  s'.(BeaconState.previous_justified_checkpoint) = s.(BeaconState.previous_justified_checkpoint) ∧
  s'.(BeaconState.current_justified_checkpoint) = s.(BeaconState.current_justified_checkpoint) ∧
  s'.(BeaconState.finalized_checkpoint) = s.(BeaconState.finalized_checkpoint) ∧
  ∀ r, root_at s (current_epoch s) = Ok r → root_at s' (current_epoch s) = Ok r.

Context (g : Checkpoint.t).

Definition is_genesis (s : BeaconState.t) : Prop :=
  current_epoch s = 0 ∧ g.(Checkpoint.epoch) = 0 ∧
  s.(BeaconState.justification_bits) = replicate 4 false ∧
  s.(BeaconState.previous_justified_checkpoint) = g ∧
  s.(BeaconState.current_justified_checkpoint) = g ∧ s.(BeaconState.finalized_checkpoint) = g.

Inductive history : BeaconState.t → list Link.t → Prop :=
  | history_genesis s : is_genesis s → history s []
  | history_epoch s jf s' L :
      history s L → process_justification_and_finalization slots_per_epoch s = Ok jf →
      advances (apply_changes_to_state jf s) s' → history s' (L ++ new_links s).

(** ** The protocol *)
Definition justified (L : list Link.t) (x : Checkpoint.t) : Prop :=
  x = g ∨ ∃ l, l ∈ L ∧ l.(Link.target) = x.

(** A finalized checkpoint is the source of a link to a checkpoint one epoch
    later, or two epochs later with a justified checkpoint in between. *)
Definition finalized (L : list Link.t) (x : Checkpoint.t) : Prop :=
  x = g ∨
  justified L x ∧ ∃ l, l ∈ L ∧ l.(Link.source) = x ∧
    (l.(Link.target).(Checkpoint.epoch) = x.(Checkpoint.epoch) + 1 ∨
     l.(Link.target).(Checkpoint.epoch) = x.(Checkpoint.epoch) + 2 ∧
     ∃ m, justified L m ∧ m.(Checkpoint.epoch) = x.(Checkpoint.epoch) + 1).

(** What the bits and checkpoints of a state mean once epoch [e] is processed. *)
Record ffg (e : Z) (s : BeaconState.t) (L : list Link.t) : Prop := {
  ffg_length : length s.(BeaconState.justification_bits) = 4%nat;
  ffg_bits i : s.(BeaconState.justification_bits) !! i = Some true →
    ∃ l, l ∈ L ∧ l.(Link.target).(Checkpoint.epoch) = e - Z.of_nat i;
  ffg_last : s.(BeaconState.justification_bits) !! 0%nat = Some true →
    s.(BeaconState.current_justified_checkpoint).(Checkpoint.epoch) = e ∧
    Link.mk s.(BeaconState.previous_justified_checkpoint) s.(BeaconState.current_justified_checkpoint) ∈ L;
  ffg_previous : justified L s.(BeaconState.previous_justified_checkpoint);
  ffg_current : justified L s.(BeaconState.current_justified_checkpoint);
  ffg_finalized : finalized L s.(BeaconState.finalized_checkpoint);
  ffg_order :
    0 ≤ s.(BeaconState.finalized_checkpoint).(Checkpoint.epoch) ≤
        s.(BeaconState.previous_justified_checkpoint).(Checkpoint.epoch) ≤
        s.(BeaconState.current_justified_checkpoint).(Checkpoint.epoch) ∧
    s.(BeaconState.current_justified_checkpoint).(Checkpoint.epoch) ≤ Z.max 0 e ∧
    s.(BeaconState.previous_justified_checkpoint).(Checkpoint.epoch) ≤ Z.max 0 (e - 1);
  ffg_links l : l ∈ L →
    justified L l.(Link.source) ∧
    0 ≤ l.(Link.source).(Checkpoint.epoch) < l.(Link.target).(Checkpoint.epoch) ∧
    l.(Link.target).(Checkpoint.epoch) ≤ e ∧
    (l.(Link.target).(Checkpoint.epoch) = e → root_at s e = Ok l.(Link.target).(Checkpoint.root));
  ffg_unique l1 l2 : l1 ∈ L → l2 ∈ L →
    l1.(Link.target).(Checkpoint.epoch) = l2.(Link.target).(Checkpoint.epoch) →
    l1.(Link.target) = l2.(Link.target);
}.

Lemma justified_app L L' x : justified L x → justified (L ++ L') x.
Proof. intros [?|(l & ? & ?)]; [by left|]. right. exists l. split; [|done]. apply elem_of_app. by left. Qed.

Lemma finalized_app L L' x : finalized L x → finalized (L ++ L') x.
Proof.
  intros [?|(Hj & l & Hl & Hs & Ht)]; [by left|]. right. split; [by apply justified_app|].
  exists l. split; [apply elem_of_app; by left|]. split; [done|].
  destruct Ht as [?|(? & m & ? & ?)]; [by left|]. right. split; [done|]. exists m. eauto using justified_app.
Qed.

Lemma ffg_genesis s : is_genesis s → ffg (-1) s [].
Proof.
  intros (Hc & Hg & Hb & Hp & Hj & Hf).
  split; rewrite ?Hb, ?Hp, ?Hj, ?Hf, ?Hg; try done; try lia; try by left.
  - intros i H. apply lookup_replicate in H as [H _]. done.
  - by intros l ?%elem_of_nil.
  - by intros l1 l2 ?%elem_of_nil.
Qed.

Lemma ffg_advances e s s' L :
  current_epoch s = e → advances s s' → ffg e s L → ffg e s' L.
Proof.
  intros He (_ & Hb & Hp & Hj & Hf & Hr) [? ? ? ? ? ? ? Hl ?].
  split; rewrite ?Hb, ?Hp, ?Hj, ?Hf; try done.
  intros l Hin. destruct (Hl l Hin) as (? & ? & ? & Hroot). split; [done|]. split; [done|]. split; [done|].
  intros Ht. rewrite <-He. apply Hr. rewrite He. auto.
Qed.

(** In the first two epochs nothing is processed. *)
Lemma ffg_early e s jf L :
  e + 1 ≤ 1 → ffg e s L → jf = jf_new slots_per_epoch s → ffg (e + 1) (apply_changes_to_state jf s) L.
Proof.
  intros He H ->. assert (∀ l, l ∈ L → False) as Hnone.
  { intros l Hl. destruct (ffg_links _ _ _ H l Hl) as (_ & ? & ? & _). lia. }
  destruct H as [? Hbits Hlast ? ? ? Ho ? ?]. split; simpl; try done.
  - intros i (l & Hl & _)%Hbits. by destruct (Hnone l).
  - intros (_ & ?)%Hlast. by destruct (Hnone (Link.mk s.(BeaconState.previous_justified_checkpoint)
      s.(BeaconState.current_justified_checkpoint))).
  - lia.
  - intros l Hl. by destruct (Hnone l).
Qed.

Section step.
Context (e : Z) (s : BeaconState.t) (L : list Link.t) (jf : JFState) (j1 j0 : bool) (b0 b1 b2 b3 : bool) (r1 r0 : Hash256).
Context (He : 1 ≤ e) (H : ffg e s L).
Let p := s.(BeaconState.previous_justified_checkpoint).
Let c := s.(BeaconState.current_justified_checkpoint).
Let x1 := Checkpoint.mk e r1.
Let x0 := Checkpoint.mk (e + 1) r0.
Context (Hr1 : j1 = true → root_at s e = Ok r1) (Hr0 : j0 = true → root_at s (e + 1) = Ok r0).
Context (Hb : s.(BeaconState.justification_bits) = [b0; b1; b2; b3]).

(** The links of the step. *)
Let N := (if j1 then [Link.mk p x1] else []) ++ (if j0 then [Link.mk c x0] else []).

Lemma step_links l : l ∈ N ↔ (j1 = true ∧ l = Link.mk p x1) ∨ (j0 = true ∧ l = Link.mk c x0).
Proof.
  unfold N. rewrite elem_of_app. destruct j1, j0; rewrite ?list_elem_of_singleton, ?elem_of_nil; naive_solver.
Qed.

(** Epoch [e] counts as justified after the step: the link comes from [p]. *)
Lemma step_previous : b0 || j1 = true → ∃ t, Link.mk p t ∈ L ++ N ∧ t.(Checkpoint.epoch) = e.
Proof.
  intros [Hb0|Hj]%orb_true_iff.
  - destruct (ffg_last _ _ _ H) as [Hc Hin]; [by rewrite Hb, Hb0|].
    exists c. split; [apply elem_of_app; by left|done].
  - exists x1. split; [|done]. apply elem_of_app. right. apply step_links. by left.
Qed.

Lemma step_bits i : [j0; b0 || j1; b1; b2] !! i = Some true →
  ∃ l, l ∈ L ++ N ∧ l.(Link.target).(Checkpoint.epoch) = e + 1 - Z.of_nat i.
Proof.
  intros Hi. destruct i as [|[|i]].
  - injection Hi as Hj. exists (Link.mk c x0). split; [|simpl; lia].
    apply elem_of_app. right. apply step_links. by right.
  - injection Hi as Hj. destruct (step_previous Hj) as (t & Hin & Ht). exists (Link.mk p t).
    split; [done|]. simpl. lia.
  - destruct (ffg_bits _ _ _ H (S i)) as (l & Hl & Ht).
    { rewrite Hb. destruct i as [|[|i]]; done. }
    exists l. split; [apply elem_of_app; by left|lia].
Qed.

Lemma step_justified x : justified L x → justified (L ++ N) x.
Proof. apply justified_app. Qed.

(** A set bit of the new vector, as a justified checkpoint. *)
Lemma step_bit_justified i : [j0; b0 || j1; b1; b2] !! i = Some true →
  ∃ m, justified (L ++ N) m ∧ m.(Checkpoint.epoch) = e + 1 - Z.of_nat i.
Proof. intros (l & Hl & Ht)%step_bits. exists l.(Link.target). split; [right; eauto|done]. Qed.

Lemma step_finalized :
  finalized (L ++ N)
    (finality_rule (e + 1) j0 (b0 || j1) b1 b2 p c s.(BeaconState.finalized_checkpoint)).
Proof.
  pose proof (step_justified _ (ffg_previous _ _ _ H)) as Hp.
  pose proof (step_justified _ (ffg_current _ _ _ H)) as Hc.
  assert (j0 = true → Link.mk c x0 ∈ L ++ N) as Hlc.
  { intros ?. apply elem_of_app. right. apply step_links. by right. }
  pose proof step_previous as Hlp. pose proof step_bit_justified as Hbit.
  unfold finality_rule. destruct (_ && _ && (_ =? _)) eqn:R1.
  { apply andb_true_iff in R1 as [[? ?]%andb_true_iff R1%Z.eqb_eq].
    right. split; [done|]. exists (Link.mk c x0). split; [auto|]. split; [done|]. left. simpl. lia. }
  destruct (j0 && (b0 || j1) && b1 && _) eqn:R2.
  { apply andb_true_iff in R2 as [[[? Hb1]%andb_true_iff ?]%andb_true_iff R2%Z.eqb_eq].
    right. split; [done|]. exists (Link.mk c x0). split; [auto|]. split; [done|]. right. simpl.
    split; [lia|]. destruct (Hbit 1%nat) as (m & ? & ?); [simpl; by rewrite Hb1|]. exists m. split; [done|lia]. }
  destruct ((b0 || j1) && b1 && _) eqn:R3.
  { apply andb_true_iff in R3 as [[(t & ? & ?)%Hlp ?]%andb_true_iff R3%Z.eqb_eq].
    right. split; [done|]. exists (Link.mk p t). split; [done|]. split; [done|]. left. simpl. lia. }
  destruct ((b0 || j1) && b1 && b2 && _) eqn:R4.
  { apply andb_true_iff in R4 as [[[(t & ? & ?)%Hlp Hb1]%andb_true_iff ?]%andb_true_iff R4%Z.eqb_eq].
    right. split; [done|]. exists (Link.mk p t). split; [done|]. split; [done|]. right. simpl.
    split; [lia|]. destruct (Hbit 2%nat) as (m & ? & ?); [simpl; by rewrite Hb1|]. exists m. split; [done|lia]. }
  apply finalized_app, (ffg_finalized _ _ _ H).
Qed.

(** The new checkpoints. *)
Lemma step_current : justified (L ++ N) (if j0 then x0 else if j1 then x1 else c).
Proof.
  assert (j0 = true → Link.mk c x0 ∈ L ++ N) as H0.
  { intros ?. apply elem_of_app. right. apply step_links. by right. }
  assert (j1 = true → Link.mk p x1 ∈ L ++ N) as H1.
  { intros ?. apply elem_of_app. right. apply step_links. by left. }
  pose proof (step_justified _ (ffg_current _ _ _ H)) as Hc.
  destruct j0; [right; exists (Link.mk c x0); auto|]. destruct j1; [right; exists (Link.mk p x1); auto|]. done.
Qed.

Lemma step_order (fin := finality_rule (e + 1) j0 (b0 || j1) b1 b2 p c s.(BeaconState.finalized_checkpoint)) :
  s.(BeaconState.finalized_checkpoint).(Checkpoint.epoch) ≤ fin.(Checkpoint.epoch) ≤ c.(Checkpoint.epoch).
Proof.
  pose proof (ffg_order _ _ _ H) as Ho. fold p c in Ho. unfold fin, finality_rule. repeat case_match; lia.
Qed.

Lemma step_all_links l : l ∈ L ++ N →
  justified (L ++ N) l.(Link.source) ∧
  0 ≤ l.(Link.source).(Checkpoint.epoch) < l.(Link.target).(Checkpoint.epoch) ∧
  l.(Link.target).(Checkpoint.epoch) ≤ e + 1 ∧
  (l.(Link.target).(Checkpoint.epoch) = e + 1 → root_at s (e + 1) = Ok l.(Link.target).(Checkpoint.root)).
Proof.
  pose proof (ffg_order _ _ _ H) as Ho. fold p c in Ho.
  intros [Hl|[[Hj ->]|[Hj ->]]%step_links]%elem_of_app; simpl.
  - destruct (ffg_links _ _ _ H l Hl) as (? & ? & ? & _). split; [by apply step_justified|]. lia.
  - split; [apply step_justified, (ffg_previous _ _ _ H)|]. lia.
  - split; [apply step_justified, (ffg_current _ _ _ H)|]. split; [lia|]. split; [lia|]. auto.
Qed.

Lemma step_unique l1 l2 : l1 ∈ L ++ N → l2 ∈ L ++ N →
  l1.(Link.target).(Checkpoint.epoch) = l2.(Link.target).(Checkpoint.epoch) →
  l1.(Link.target) = l2.(Link.target).
Proof.
  assert (∀ l, l ∈ L → l.(Link.target).(Checkpoint.epoch) = e → j1 = true → l.(Link.target) = x1) as Hold.
  { intros l Hl Ht Hj. destruct (ffg_links _ _ _ H l Hl) as (_ & _ & _ & Hr). specialize (Hr Ht).
    rewrite (Hr1 Hj) in Hr. injection Hr as Hr. unfold x1. rewrite Hr, <-Ht. by destruct (Link.target l). }
  assert (∀ l, l ∈ L → l.(Link.target).(Checkpoint.epoch) ≤ e) as Hle.
  { intros l Hl. by destruct (ffg_links _ _ _ H l Hl) as (_ & _ & ? & _). }
  intros [Hl1|[[Hj1 ->]|[Hj1 ->]]%step_links]%elem_of_app [Hl2|[[Hj2 ->]|[Hj2 ->]]%step_links]%elem_of_app;
    simpl; intros Ht; try done; try lia.
  - by apply (ffg_unique _ _ _ H).
  - auto.
  - specialize (Hle _ Hl1). lia.
  - symmetry. auto.
  - specialize (Hle _ Hl2). lia.
Qed.

Lemma ffg_step jf' :
  jf'.(Jf.justification_bits) = [j0; b0 || j1; b1; b2] →
  jf'.(Jf.previous_justified_checkpoint) = c →
  jf'.(Jf.current_justified_checkpoint) = (if j0 then x0 else if j1 then x1 else c) →
  jf'.(Jf.finalized_checkpoint) = finality_rule (e + 1) j0 (b0 || j1) b1 b2 p c s.(BeaconState.finalized_checkpoint) →
  ffg (e + 1) (apply_changes_to_state jf' s) (L ++ N).
Proof.
  intros Hbits Hprev Hcur Hfin. pose proof (ffg_order _ _ _ H) as Ho. pose proof step_order as Hs. fold p c in Ho.
  split; simpl; rewrite ?Hbits, ?Hprev, ?Hcur, ?Hfin.
  - done.
  - apply step_bits.
  - intros [= Hj]. rewrite Hj. split; [done|]. apply elem_of_app. right. apply step_links. by right.
  - apply step_justified, (ffg_current _ _ _ H).
  - apply step_current.
  - apply step_finalized.
  - destruct j0, j1; simpl in *; lia.
  - apply step_all_links.
  - apply step_unique.
Qed.
End step.

Lemma previous_epoch_succ e : 0 ≤ e < u64_max → previous_epoch (e + 1) = e.
Proof.
  intros He. unfold previous_epoch, safe_sub, u64_checked_sub.
  rewrite checked_u64_in by (unfold is_u64; lia). simpl. lia.
Qed.

Lemma checkpoint_at_ok s e r : root_at s e = Ok r → checkpoint_at s e = Checkpoint.mk e r.
Proof. unfold checkpoint_at. by intros ->. Qed.

Lemma ffg_process e s L jf :
  ffg e s L → current_epoch s = e + 1 → -1 ≤ e < u64_max →
  process_justification_and_finalization slots_per_epoch s = Ok jf →
  ffg (e + 1) (apply_changes_to_state jf s) (L ++ new_links s).
Proof.
  intros H Hc He Hp. unfold process_justification_and_finalization in Hp.
  change (ep_arith (safe_add genesis_epoch 1)) with (Ok (E:=EpochProcessingError.t) 1) in Hp. simpl in Hp.
  change (state_current_epoch slots_per_epoch s) with (current_epoch s) in Hp. rewrite Hc in Hp.
  unfold new_links. rewrite Hc.
  destruct (Z.leb_spec (e + 1) 1) as [Hle|Hgt]; simpl in Hp.
  { injection Hp as <-. assert (∀ X : list Link.t, X = [] → L ++ X = L) as Hnil by (intros ? ->; apply app_nil_r).
    rewrite Hnil by (repeat case_match; done). by apply ffg_early. }
  destruct (ProgressiveBalancesCache.previous_epoch_target_attesting_balance _) as [tp| | |]; try discriminate.
  destruct (ProgressiveBalancesCache.current_epoch_target_attesting_balance _) as [tc| | |]; try discriminate.
  destruct (get_total_active_balance _ _) as [tot| | |]; try discriminate. simpl in Hp.
  apply weigh_inv in Hp as (b0 & b1 & b2 & b3 & Hb & Hb' & Hprev & (r1 & r0 & Hr1 & Hr0 & Hcur) & Hfin);
    [|exact (ffg_length _ _ _ H)].
  assert (Jf.previous_epoch (jf_new slots_per_epoch s) = e) as Hpe.
  { simpl. unfold state_previous_epoch. rewrite Hc. apply previous_epoch_succ. lia. }
  assert (Jf.current_epoch (jf_new slots_per_epoch s) = e + 1) as Hce by exact Hc.
  unfold Jf.get_block_root_at_epoch in Hr1, Hr0. rewrite Z.eqb_refl in Hr1. rewrite Hpe, Hce, Z.eqb_refl in Hr0.
  rewrite Hpe, Hce in Hcur. rewrite Hce in Hfin.
  replace (e + 1 =? e) with false in Hr0 by lia. cbv iota in Hr0.
  change (Jf.current_epoch_target_root _) with (root_at s (current_epoch s)) in Hr0. rewrite Hc in Hr0.
  change (Jf.previous_epoch_target_root _) with (root_at s (Jf.previous_epoch (jf_new slots_per_epoch s))) in Hr1.
  rewrite Hpe in Hr1. replace (e + 1 - 1) with e by lia.
  pose proof (ffg_step e s L (supermajority tp tot) (supermajority tc tot) b0 b1 b2 b3 r1 r0
    ltac:(lia) H Hr1 Hr0 Hb jf Hb' Hprev Hcur Hfin) as Hstep.
  destruct (supermajority tp tot); [rewrite (checkpoint_at_ok s e r1) by auto|];
    (destruct (supermajority tc tot); [rewrite (checkpoint_at_ok s (e + 1) r0) by auto|]); exact Hstep.
Qed.

Lemma history_epoch_nonneg s L : history s L → 0 ≤ current_epoch s.
Proof.
  induction 1 as [s (-> & _)|s jf s' L _ IH _ (Hc & _)]; [done|]. rewrite Hc.
  change (current_epoch (apply_changes_to_state jf s)) with (current_epoch s). lia.
Qed.

Lemma history_ffg s L : history s L → current_epoch s ≤ u64_max → ffg (current_epoch s - 1) s L.
Proof.
  induction 1 as [s Hg|s jf s' L Hh IH Hp Ha]; intros Hmax.
  - destruct Hg as [Hc Hg]. rewrite Hc. apply ffg_genesis. by split.
  - pose proof (history_epoch_nonneg _ _ Hh). pose proof Ha as (Hc & _).
    change (current_epoch (apply_changes_to_state jf s)) with (current_epoch s) in Hc.
    apply (ffg_advances _ (apply_changes_to_state jf s)); [|done|].
    + change (current_epoch (apply_changes_to_state jf s)) with (current_epoch s). lia.
    + replace (current_epoch s' - 1) with ((current_epoch s - 1) + 1) by lia.
      apply ffg_process; [apply IH; lia|lia|lia|done].
Qed.
End history.


(** A chain of eight-slot epochs in which everyone votes. *)
Definition fx_g : Checkpoint.t := Checkpoint.mk 0 100.
Definition fx_cache (e : Epoch) : ProgressiveBalancesCache.t :=
  ProgressiveBalancesCache.initialize e (replicate 3 (Balance.mk 300 1)) (replicate 3 (Balance.mk 300 1)).
Definition fx_end (e : Epoch) (s : BeaconState.t) : BeaconState.t :=
  BeaconState.set_slot (8 * e + 7) (BeaconState.set_total_active (Some (e, 300)) (BeaconState.set_progressive (fx_cache e) s)).
Definition fx_genesis : BeaconState.t :=
  fx_end 0 (BeaconState.mk ForkName.Electra 0 ((fun i => 100 + Z.of_nat i) <$> seq 0 64) [] [] [] [] (replicate 4 false)
    fx_g fx_g fx_g None None).
Definition fx_next (s : BeaconState.t) : BeaconState.t :=
  match process_justification_and_finalization 8 s with
  | Ok jf => fx_end (state_current_epoch 8 s + 1) (apply_changes_to_state jf s)
  | _ => s
  end.
Fixpoint fx_chain (n : nat) : BeaconState.t := match n with O => fx_genesis | S n' => fx_next (fx_chain n') end.
Fixpoint fx_links (n : nat) : list Link.t :=
  match n with O => [] | S n' => fx_links n' ++ new_links 8 (fx_chain n') end.

Definition fx_advances (s : BeaconState.t) : Prop :=
  match process_justification_and_finalization 8 s with
  | Ok jf => advances 8 (apply_changes_to_state jf s) (fx_end (state_current_epoch 8 s + 1) (apply_changes_to_state jf s))
  | _ => False
  end.
Lemma fx_chain_history n : (∀ k, (k < n)%nat → fx_advances (fx_chain k)) → history 8 fx_g (fx_chain n) (fx_links n).
Proof.
  induction n as [|n IH]; intros Ha; [apply history_genesis; vm_compute; done|].
  specialize (Ha n (Nat.lt_succ_diag_r n)) as Hn. simpl. unfold fx_next, fx_advances in *.
  destruct (process_justification_and_finalization 8 (fx_chain n)) as [jf| | |] eqn:Hp; [|done..].
  apply history_epoch with jf; [|done|done]. apply IH. intros k Hk. apply Ha. lia.
Qed.
Lemma fx_history : history 8 fx_g (fx_chain 5) (fx_links 5).
Proof.
  apply fx_chain_history. intros k Hk.
  do 5 (destruct k as [|k]; [vm_compute; repeat split; try reflexivity; intros r Hr; exact Hr|]). lia.
Qed.


(** ** Errors and bounds *)

(** The order that every state of a history has, which is all that the results
    below need. *)
Definition finality_ordered (c : Epoch) (s : BeaconState.t) : Prop :=
  length s.(BeaconState.justification_bits) = 4%nat ∧
  0 ≤ s.(BeaconState.finalized_checkpoint).(Checkpoint.epoch) ≤
      s.(BeaconState.previous_justified_checkpoint).(Checkpoint.epoch) ∧
  s.(BeaconState.previous_justified_checkpoint).(Checkpoint.epoch) ≤
      s.(BeaconState.current_justified_checkpoint).(Checkpoint.epoch) ≤ Z.max 0 (c - 1).

Lemma history_ordered spe g s L :
  history spe g s L → state_current_epoch spe s ≤ u64_max → finality_ordered (state_current_epoch spe s) s.
Proof.
  intros Hh Hmax. pose proof (history_ffg _ _ _ _ Hh Hmax) as H. split; [apply H|].
  pose proof (ffg_order _ _ _ _ _ H). lia.
Qed.

Lemma finality_rule_cases c b0 b1 b2 b3 p j f :
  finality_rule c b0 b1 b2 b3 p j f = f ∨ finality_rule c b0 b1 b2 b3 p j f = p ∨
  finality_rule c b0 b1 b2 b3 p j f = j.
Proof. unfold finality_rule. repeat case_match; auto. Qed.

(** Checkpoints only move forward, and not past the epoch of the state. *)
Lemma process_bounds spe s jf (c := state_current_epoch spe s) :
  finality_ordered c s → 0 ≤ c ≤ u64_max →
  process_justification_and_finalization spe s = Ok jf →
  s.(BeaconState.current_justified_checkpoint).(Checkpoint.epoch) ≤
    jf.(Jf.current_justified_checkpoint).(Checkpoint.epoch) ≤ c ∧
  s.(BeaconState.finalized_checkpoint).(Checkpoint.epoch) ≤
    jf.(Jf.finalized_checkpoint).(Checkpoint.epoch) ≤ jf.(Jf.current_justified_checkpoint).(Checkpoint.epoch) ∧
  jf.(Jf.finalized_checkpoint).(Checkpoint.epoch) ≤ Z.max 0 (c - 1).
Proof.
  intros (Hlen & Ho1 & Ho2) Hc Hp. unfold process_justification_and_finalization in Hp.
  change (ep_arith (safe_add genesis_epoch 1)) with (Ok (E:=EpochProcessingError.t) 1) in Hp. simpl in Hp.
  fold c in Hp. destruct (Z.leb_spec c 1) as [Hle|Hgt].
  { injection Hp as <-. simpl. lia. }
  destruct (ProgressiveBalancesCache.previous_epoch_target_attesting_balance _) as [tp| | |]; try discriminate.
  destruct (ProgressiveBalancesCache.current_epoch_target_attesting_balance _) as [tc| | |]; try discriminate.
  destruct (get_total_active_balance _ _) as [tot| | |]; try discriminate. simpl in Hp.
  apply weigh_inv in Hp as (b0 & b1 & b2 & b3 & _ & _ & _ & (r1 & r0 & _ & _ & Hcur) & Hfin); [|exact Hlen].
  simpl in Hcur, Hfin. fold c in Hcur, Hfin.
  assert (state_previous_epoch spe s = c - 1) as Hpe.
  { unfold state_previous_epoch. fold c. replace c with (c - 1 + 1) at 1 by lia. apply previous_epoch_succ. lia. }
  rewrite Hpe in Hcur.
  destruct (finality_rule_cases c (supermajority tc tot) (b0 || supermajority tp tot) b1 b2
    s.(BeaconState.previous_justified_checkpoint) s.(BeaconState.current_justified_checkpoint)
    s.(BeaconState.finalized_checkpoint)) as [Hf|[Hf|Hf]]; rewrite Hfin, Hcur, Hf;
    destruct (supermajority tc tot), (supermajority tp tot); simpl; lia.
Qed.

Lemma two_thirds_ok a b : is_u64 (3 * a) → is_u64 (2 * b) → two_thirds a b = Ok (supermajority a b).
Proof.
  intros Ha Hb. unfold two_thirds.
  rewrite (safe_mul_ok a 3) by (by rewrite Z.mul_comm). rewrite (safe_mul_ok b 2) by (by rewrite Z.mul_comm).
  simpl. unfold supermajority. f_equal. f_equal; lia.
Qed.

Lemma maybe_finalize_ok bits range source k c s all :
  all_bits_set bits range = Ok all → is_u64 (source.(Checkpoint.epoch) + k) →
  ∃ s', maybe_finalize bits range source k c s = (Ok tt, s') ∧
    s'.(Jf.justification_bits) = s.(Jf.justification_bits).
Proof.
  intros Hall Hk. unfold maybe_finalize. rewrite Hall.
  erewrite bind_ok_eq by reflexivity. destruct all.
  - erewrite bind_ok_eq; [|rewrite safe_add_ok by done; reflexivity].
    destruct (_ =? c); by eexists.
  - erewrite bind_ok_eq by reflexivity. by eexists.
Qed.

Lemma when_justify_ok j e i s root :
  (j = true → Jf.get_block_root_at_epoch s e = Ok root) → (i < length s.(Jf.justification_bits))%nat →
  ∃ s', when j (justify e i) s = (Ok tt, s') ∧
    length s'.(Jf.justification_bits) = length s.(Jf.justification_bits) ∧
    s'.(Jf.previous_epoch) = s.(Jf.previous_epoch) ∧ s'.(Jf.current_epoch) = s.(Jf.current_epoch) ∧
    ∀ e', Jf.get_block_root_at_epoch s' e' = Jf.get_block_root_at_epoch s e'.
Proof.
  intros Hr Hi. destruct j; [|by exists s]. simpl. unfold justify.
  erewrite bind_ok_eq by reflexivity. erewrite bind_ok_eq by (rewrite Hr by done; reflexivity).
  erewrite bind_ok_eq by reflexivity. unfold set_bit. apply Nat.ltb_lt in Hi. rewrite Hi.
  erewrite bind_ok_eq by reflexivity. eexists. split; [reflexivity|]. simpl. by rewrite length_insert.
Qed.

Lemma weigh_total s total previous current r1 r0 :
  length s.(Jf.justification_bits) = 4%nat →
  is_u64 (3 * previous) → is_u64 (3 * current) → is_u64 (2 * total) →
  0 ≤ s.(Jf.previous_justified_checkpoint).(Checkpoint.epoch) ≤ u64_max - 3 →
  0 ≤ s.(Jf.current_justified_checkpoint).(Checkpoint.epoch) ≤ u64_max - 3 →
  (supermajority previous total = true → Jf.get_block_root_at_epoch s s.(Jf.previous_epoch) = Ok r1) →
  (supermajority current total = true → Jf.get_block_root_at_epoch s s.(Jf.current_epoch) = Ok r0) →
  ∃ s', weigh s total previous current = Ok s'.
Proof.
  intros Hlen Hp Hc Ht Hpe Hce Hr1 Hr0. unfold weigh, weigh_justification_and_finalization.
  erewrite bind_ok_eq by reflexivity. cbv zeta. erewrite bind_ok_eq by reflexivity.
  unfold shift_up. rewrite Hlen. erewrite bind_ok_eq by reflexivity. erewrite bind_ok_eq by reflexivity.
  rewrite (two_thirds_ok previous) by done. erewrite bind_ok_eq by reflexivity.
  set (s1 := Jf.set_bits _ _). assert (length s1.(Jf.justification_bits) = 4%nat) as Hlen1.
  { destruct s as [? ? ? ? ? ? ? bits]. simpl in Hlen |- *. by destruct bits as [|? [|? [|? [|? []]]]]. }
  destruct (when_justify_ok (supermajority previous total) s.(Jf.previous_epoch) 1 s1 r1)
    as (s2 & Hs2 & Hlen2 & _ & _ & Hroot2); [exact Hr1|lia|]. erewrite bind_ok_eq by exact Hs2.
  rewrite (two_thirds_ok current) by done. erewrite bind_ok_eq by reflexivity.
  destruct (when_justify_ok (supermajority current total) s.(Jf.current_epoch) 0 s2 r0)
    as (s3 & Hs3 & Hlen3 & _ & _ & _); [intros Hj; rewrite Hroot2; exact (Hr0 Hj)|lia|].
  erewrite bind_ok_eq by exact Hs3. erewrite bind_ok_eq by reflexivity. cbv zeta.
  destruct s3.(Jf.justification_bits) as [|b0 [|b1 [|b2 [|b3 []]]]] eqn:Hbits; simpl in Hlen3; try lia.
  assert (∀ x k, 0 ≤ x ≤ u64_max - 3 → 0 ≤ k ≤ 3 → is_u64 (x + k)) as Hadd by (unfold is_u64; lia).
  destruct (maybe_finalize_ok [b0; b1; b2; b3] (seq 1 3) s.(Jf.previous_justified_checkpoint) 3 s.(Jf.current_epoch) s3
    (b1 && b2 && b3)) as (s4 & H4 & _); [by destruct b1, b2, b3|apply Hadd; lia|]. erewrite bind_ok_eq by exact H4.
  destruct (maybe_finalize_ok [b0; b1; b2; b3] (seq 1 2) s.(Jf.previous_justified_checkpoint) 2 s.(Jf.current_epoch) s4
    (b1 && b2)) as (s5 & H5 & _); [by destruct b1, b2|apply Hadd; lia|]. erewrite bind_ok_eq by exact H5.
  destruct (maybe_finalize_ok [b0; b1; b2; b3] (seq 0 3) s.(Jf.current_justified_checkpoint) 2 s.(Jf.current_epoch) s5
    (b0 && b1 && b2)) as (s6 & H6 & _); [by destruct b0, b1, b2|apply Hadd; lia|]. erewrite bind_ok_eq by exact H6.
  destruct (maybe_finalize_ok [b0; b1; b2; b3] (seq 0 2) s.(Jf.current_justified_checkpoint) 1 s.(Jf.current_epoch) s6
    (b0 && b1)) as (s7 & H7 & _); [by destruct b0, b1|apply Hadd; lia|]. rewrite H7. by eexists.
Qed.
