(* ===== verification/FcStoreDefs.v ===== *)
(** * The fork choice store

    The interface [ForkChoiceStore] of [consensus/fork_choice/src/fork_choice_store.rs]
    as a class, what it promises as a class of laws, and its implementation
    [BeaconForkChoiceStore] with the cache of justified balances
    ([beacon_node/beacon_chain/src/beacon_fork_choice_store.rs]).  Reading a state
    from the database is a parameter. *)
From S2P Require Import Prelude SlotEpoch ProtoArrayDefs ForkChoiceDefs ForkSchedule BeaconStateDefs.

(** ** The interface *)
Module FcStore.
Class ForkChoiceStore (T E : Type) := {
  get_current_slot : T → Slot;
  set_current_slot : Slot → T → T;
  on_verified_block : Hash256 → BeaconState.t → M T E unit;
  justified_checkpoint : T → Checkpoint.t;
  justified_state_root : T → Hash256;
  justified_balances : T → JustifiedBalances.t;
  finalized_checkpoint : T → Checkpoint.t;
  unrealized_justified_checkpoint : T → Checkpoint.t;
  unrealized_justified_state_root : T → Hash256;
  unrealized_finalized_checkpoint : T → Checkpoint.t;
  proposer_boost_root : T → Hash256;
  set_finalized_checkpoint : Checkpoint.t → T → T;
  set_justified_checkpoint : Checkpoint.t → Hash256 → M T E unit;
  set_unrealized_justified_checkpoint : Checkpoint.t → Hash256 → T → T;
  set_unrealized_finalized_checkpoint : Checkpoint.t → T → T;
  set_proposer_boost_root : Hash256 → T → T;
  equivocating_indices : T → gset nat;
  extend_equivocating_indices : list nat → T → T;
}.

(** The values behind the getters, apart from the balances. *)
Record View : Type := mkView {
  v_time : Slot;
  v_justified : Checkpoint.t;
  v_justified_root : Hash256;
  v_finalized : Checkpoint.t;
  v_unrealized_justified : Checkpoint.t;
  v_unrealized_justified_root : Hash256;
  v_unrealized_finalized : Checkpoint.t;
  v_boost : Hash256;
  v_equivocating : gset nat;
}.
Definition view {T E} `{ForkChoiceStore T E} (x : T) : View :=
  mkView (get_current_slot x) (justified_checkpoint x) (justified_state_root x) (finalized_checkpoint x)
    (unrealized_justified_checkpoint x) (unrealized_justified_state_root x)
    (unrealized_finalized_checkpoint x) (proposer_boost_root x) (equivocating_indices x).
Definition set_time (t : Slot) (v : View) : View :=
  mkView t v.(v_justified) v.(v_justified_root) v.(v_finalized) v.(v_unrealized_justified)
    v.(v_unrealized_justified_root) v.(v_unrealized_finalized) v.(v_boost) v.(v_equivocating).
Definition set_justified (c : Checkpoint.t) (r : Hash256) (v : View) : View :=
  mkView v.(v_time) c r v.(v_finalized) v.(v_unrealized_justified)
    v.(v_unrealized_justified_root) v.(v_unrealized_finalized) v.(v_boost) v.(v_equivocating).
Definition set_finalized (c : Checkpoint.t) (v : View) : View :=
  mkView v.(v_time) v.(v_justified) v.(v_justified_root) c v.(v_unrealized_justified)
    v.(v_unrealized_justified_root) v.(v_unrealized_finalized) v.(v_boost) v.(v_equivocating).
Definition set_unrealized_justified (c : Checkpoint.t) (r : Hash256) (v : View) : View :=
  mkView v.(v_time) v.(v_justified) v.(v_justified_root) v.(v_finalized) c r
    v.(v_unrealized_finalized) v.(v_boost) v.(v_equivocating).
Definition set_unrealized_finalized (c : Checkpoint.t) (v : View) : View :=
  mkView v.(v_time) v.(v_justified) v.(v_justified_root) v.(v_finalized) v.(v_unrealized_justified)
    v.(v_unrealized_justified_root) c v.(v_boost) v.(v_equivocating).
Definition set_boost (r : Hash256) (v : View) : View :=
  mkView v.(v_time) v.(v_justified) v.(v_justified_root) v.(v_finalized) v.(v_unrealized_justified)
    v.(v_unrealized_justified_root) v.(v_unrealized_finalized) r v.(v_equivocating).
Definition set_equivocating (x : gset nat) (v : View) : View :=
  mkView v.(v_time) v.(v_justified) v.(v_justified_root) v.(v_finalized) v.(v_unrealized_justified)
    v.(v_unrealized_justified_root) v.(v_unrealized_finalized) v.(v_boost) x.

(** What the interface promises: a setter changes what its getter returns and
    nothing else, and the two fallible operations always return.  A failed
    [set_justified_checkpoint] has set the checkpoint. *)
Class Laws (T E : Type) `{ForkChoiceStore T E} : Prop := {
  view_set_current_slot t x : view (set_current_slot t x) = set_time t (view x);
  view_set_finalized c x : view (set_finalized_checkpoint c x) = set_finalized c (view x);
  view_set_unrealized_justified c r x :
    view (set_unrealized_justified_checkpoint c r x) = set_unrealized_justified c r (view x);
  view_set_unrealized_finalized c x :
    view (set_unrealized_finalized_checkpoint c x) = set_unrealized_finalized c (view x);
  view_set_boost r x : view (set_proposer_boost_root r x) = set_boost r (view x);
  view_extend l x : view (extend_equivocating_indices l x) =
    set_equivocating (equivocating_indices x ∪ list_to_set l) (view x);
  view_set_justified c r x : view (set_justified_checkpoint c r x).2 = set_justified c r (view x);
  view_on_verified_block r s x : view (on_verified_block r s x).2 = view x;
  set_justified_answers c r : answers (set_justified_checkpoint c r);
  on_verified_block_answers r s : answers (on_verified_block r s);
  balances_set_current_slot t x : justified_balances (set_current_slot t x) = justified_balances x;
  balances_set_finalized c x : justified_balances (set_finalized_checkpoint c x) = justified_balances x;
  balances_set_unrealized_justified c r x :
    justified_balances (set_unrealized_justified_checkpoint c r x) = justified_balances x;
  balances_set_unrealized_finalized c x :
    justified_balances (set_unrealized_finalized_checkpoint c x) = justified_balances x;
  balances_set_boost r x : justified_balances (set_proposer_boost_root r x) = justified_balances x;
  balances_extend l x : justified_balances (extend_equivocating_indices l x) = justified_balances x;
  balances_on_verified_block r s x : justified_balances (on_verified_block r s x).2 = justified_balances x;
}.
End FcStore.

(** ** The implementation *)
Module FcStoreError.
Inductive t : Type :=
  | FailedToReadState
  | MissingState (r : Hash256)
  | BeaconStateError (e : BeaconStateError.t)
  | UnalignedCheckpoint (block_slot state_slot : Slot)
  | Arith (e : ArithError).
End FcStoreError.

Definition MAX_BALANCE_CACHE_SIZE : nat := 4.

Module CacheItem.
Record t : Type := mk { block_root : Hash256; epoch : Epoch; balances : list Z }.
End CacheItem.

Definition balances_of_state (slots_per_epoch : Z) (s : BeaconState.t) : outcome ArithError JustifiedBalances.t :=
  from_justified_state s.(BeaconState.validators) (state_current_epoch slots_per_epoch s).

Module BalancesCache.
Definition t : Type := list CacheItem.t.

Definition position (items : t) (block_root : Hash256) (e : Epoch) : option nat :=
  fst <$> list_find (fun item => item.(CacheItem.block_root) = block_root ∧ item.(CacheItem.epoch) = e) items.

Definition get (items : t) (block_root : Hash256) (e : Epoch) : option (list Z) :=
  i ← position items block_root e;
  item ← items !! i;
  Some item.(CacheItem.balances).

Definition process_state (slots_per_epoch : Z) (block_root : Hash256) (state : BeaconState.t)
    : M t FcStoreError.t unit :=
  let e := state_current_epoch slots_per_epoch state in
  let epoch_boundary_slot := start_slot e slots_per_epoch in
  epoch_boundary_root ←
    (if epoch_boundary_slot =? state.(BeaconState.slot) then mret block_root
     else lift (map_err FcStoreError.BeaconStateError (get_block_root state epoch_boundary_slot)));
  items ← Prelude.get;
  match position items epoch_boundary_root e with
  | Some _ => mret tt
  | None =>
      b ← lift (map_err FcStoreError.Arith (balances_of_state slots_per_epoch state));
      let item := CacheItem.mk epoch_boundary_root e b.(JustifiedBalances.effective_balances) in
      modify (fun items =>
        (if (length items =? MAX_BALANCE_CACHE_SIZE)%nat then tail items else items) ++ [item])
  end.
End BalancesCache.

Module BeaconForkChoiceStore.
Record t : Type := mk {
  balances_cache : BalancesCache.t;
  time : Slot;
  finalized_checkpoint : Checkpoint.t;
  justified_checkpoint : Checkpoint.t;
  justified_balances : JustifiedBalances.t;
  justified_state_root : Hash256;
  unrealized_justified_checkpoint : Checkpoint.t;
  unrealized_justified_state_root : Hash256;
  unrealized_finalized_checkpoint : Checkpoint.t;
  proposer_boost_root : Hash256;
  equivocating_indices : gset nat;
}.
Definition set_cache (c : BalancesCache.t) (s : t) : t :=
  mk c s.(time) s.(finalized_checkpoint) s.(justified_checkpoint) s.(justified_balances)
    s.(justified_state_root) s.(unrealized_justified_checkpoint) s.(unrealized_justified_state_root)
    s.(unrealized_finalized_checkpoint) s.(proposer_boost_root) s.(equivocating_indices).
Definition set_time (x : Slot) (s : t) : t :=
  mk s.(balances_cache) x s.(finalized_checkpoint) s.(justified_checkpoint) s.(justified_balances)
    s.(justified_state_root) s.(unrealized_justified_checkpoint) s.(unrealized_justified_state_root)
    s.(unrealized_finalized_checkpoint) s.(proposer_boost_root) s.(equivocating_indices).
Definition set_finalized (c : Checkpoint.t) (s : t) : t :=
  mk s.(balances_cache) s.(time) c s.(justified_checkpoint) s.(justified_balances)
    s.(justified_state_root) s.(unrealized_justified_checkpoint) s.(unrealized_justified_state_root)
    s.(unrealized_finalized_checkpoint) s.(proposer_boost_root) s.(equivocating_indices).
Definition set_justified (c : Checkpoint.t) (r : Hash256) (s : t) : t :=
  mk s.(balances_cache) s.(time) s.(finalized_checkpoint) c s.(justified_balances)
    r s.(unrealized_justified_checkpoint) s.(unrealized_justified_state_root)
    s.(unrealized_finalized_checkpoint) s.(proposer_boost_root) s.(equivocating_indices).
Definition set_balances (b : JustifiedBalances.t) (s : t) : t :=
  mk s.(balances_cache) s.(time) s.(finalized_checkpoint) s.(justified_checkpoint) b
    s.(justified_state_root) s.(unrealized_justified_checkpoint) s.(unrealized_justified_state_root)
    s.(unrealized_finalized_checkpoint) s.(proposer_boost_root) s.(equivocating_indices).
Definition set_unrealized_justified (c : Checkpoint.t) (r : Hash256) (s : t) : t :=
  mk s.(balances_cache) s.(time) s.(finalized_checkpoint) s.(justified_checkpoint) s.(justified_balances)
    s.(justified_state_root) c r s.(unrealized_finalized_checkpoint) s.(proposer_boost_root)
    s.(equivocating_indices).
Definition set_unrealized_finalized (c : Checkpoint.t) (s : t) : t :=
  mk s.(balances_cache) s.(time) s.(finalized_checkpoint) s.(justified_checkpoint) s.(justified_balances)
    s.(justified_state_root) s.(unrealized_justified_checkpoint) s.(unrealized_justified_state_root)
    c s.(proposer_boost_root) s.(equivocating_indices).
Definition set_boost (r : Hash256) (s : t) : t :=
  mk s.(balances_cache) s.(time) s.(finalized_checkpoint) s.(justified_checkpoint) s.(justified_balances)
    s.(justified_state_root) s.(unrealized_justified_checkpoint) s.(unrealized_justified_state_root)
    s.(unrealized_finalized_checkpoint) r s.(equivocating_indices).
Definition extend (l : list nat) (s : t) : t :=
  mk s.(balances_cache) s.(time) s.(finalized_checkpoint) s.(justified_checkpoint) s.(justified_balances)
    s.(justified_state_root) s.(unrealized_justified_checkpoint) s.(unrealized_justified_state_root)
    s.(unrealized_finalized_checkpoint) s.(proposer_boost_root) (s.(equivocating_indices) ∪ list_to_set l).
End BeaconForkChoiceStore.

Module PersistedForkChoiceStore.
Record t : Type := mk {
  time : Slot;
  finalized_checkpoint : Checkpoint.t;
  justified_checkpoint : Checkpoint.t;
  justified_state_root : Hash256;
  unrealized_justified_checkpoint : Checkpoint.t;
  unrealized_justified_state_root : Hash256;
  unrealized_finalized_checkpoint : Checkpoint.t;
  proposer_boost_root : Hash256;
  equivocating_indices : gset nat;
}.
End PersistedForkChoiceStore.

Section beacon.
Context (slots_per_epoch : Z).
(** [store.get_hot_state]: a failed read, no state, or a state. *)
Context (get_hot_state : Hash256 → option (option BeaconState.t)).

Definition read_state (root : Hash256) : outcome FcStoreError.t BeaconState.t :=
  o ← ok_or (get_hot_state root) FcStoreError.FailedToReadState;
  ok_or o (FcStoreError.MissingState root).

Definition store_on_verified_block (block_root : Hash256) (state : BeaconState.t)
    : M BeaconForkChoiceStore.t FcStoreError.t unit :=
  zoom BeaconForkChoiceStore.balances_cache BeaconForkChoiceStore.set_cache
    (BalancesCache.process_state slots_per_epoch block_root state).

Definition store_set_justified_checkpoint (checkpoint : Checkpoint.t) (justified_state_root : Hash256)
    : M BeaconForkChoiceStore.t FcStoreError.t unit :=
  modify (BeaconForkChoiceStore.set_justified checkpoint justified_state_root) ;;
  s ← get;
  match BalancesCache.get s.(BeaconForkChoiceStore.balances_cache) checkpoint.(Checkpoint.root)
          checkpoint.(Checkpoint.epoch) with
  | Some balances =>
      b ← lift (map_err FcStoreError.Arith (from_effective_balances balances));
      modify (BeaconForkChoiceStore.set_balances b)
  | None =>
      state ← lift (read_state justified_state_root);
      b ← lift (map_err FcStoreError.Arith (balances_of_state slots_per_epoch state));
      modify (BeaconForkChoiceStore.set_balances b)
  end.

#[export] Instance BeaconStore : FcStore.ForkChoiceStore BeaconForkChoiceStore.t FcStoreError.t := {|
  FcStore.get_current_slot := BeaconForkChoiceStore.time;
  FcStore.set_current_slot := BeaconForkChoiceStore.set_time;
  FcStore.on_verified_block := store_on_verified_block;
  FcStore.justified_checkpoint := BeaconForkChoiceStore.justified_checkpoint;
  FcStore.justified_state_root := BeaconForkChoiceStore.justified_state_root;
  FcStore.justified_balances := BeaconForkChoiceStore.justified_balances;
  FcStore.finalized_checkpoint := BeaconForkChoiceStore.finalized_checkpoint;
  FcStore.unrealized_justified_checkpoint := BeaconForkChoiceStore.unrealized_justified_checkpoint;
  FcStore.unrealized_justified_state_root := BeaconForkChoiceStore.unrealized_justified_state_root;
  FcStore.unrealized_finalized_checkpoint := BeaconForkChoiceStore.unrealized_finalized_checkpoint;
  FcStore.proposer_boost_root := BeaconForkChoiceStore.proposer_boost_root;
  FcStore.set_finalized_checkpoint := BeaconForkChoiceStore.set_finalized;
  FcStore.set_justified_checkpoint := store_set_justified_checkpoint;
  FcStore.set_unrealized_justified_checkpoint := BeaconForkChoiceStore.set_unrealized_justified;
  FcStore.set_unrealized_finalized_checkpoint := BeaconForkChoiceStore.set_unrealized_finalized;
  FcStore.set_proposer_boost_root := BeaconForkChoiceStore.set_boost;
  FcStore.equivocating_indices := BeaconForkChoiceStore.equivocating_indices;
  FcStore.extend_equivocating_indices := BeaconForkChoiceStore.extend;
|}.

(** [anchor_block_root] is the canonical root of the state's latest block header
    and [state_root] that of the state, which are tree hashes. *)
Definition get_forkchoice_store (anchor_state : BeaconState.t) (anchor_block_slot : Slot)
    (anchor_block_root state_root : Hash256) : outcome FcStoreError.t BeaconForkChoiceStore.t :=
  if negb (anchor_state.(BeaconState.slot) `mod` slots_per_epoch =? 0) then
    Err (FcStoreError.UnalignedCheckpoint anchor_block_slot anchor_state.(BeaconState.slot))
  else
    let checkpoint := Checkpoint.mk (state_current_epoch slots_per_epoch anchor_state) anchor_block_root in
    balances ← map_err FcStoreError.Arith (balances_of_state slots_per_epoch anchor_state);
    Ok (BeaconForkChoiceStore.mk [] anchor_state.(BeaconState.slot) checkpoint checkpoint balances state_root
          checkpoint state_root checkpoint hash_zero ∅).

Definition store_to_persisted (s : BeaconForkChoiceStore.t) : PersistedForkChoiceStore.t :=
  PersistedForkChoiceStore.mk s.(BeaconForkChoiceStore.time) s.(BeaconForkChoiceStore.finalized_checkpoint)
    s.(BeaconForkChoiceStore.justified_checkpoint) s.(BeaconForkChoiceStore.justified_state_root)
    s.(BeaconForkChoiceStore.unrealized_justified_checkpoint)
    s.(BeaconForkChoiceStore.unrealized_justified_state_root)
    s.(BeaconForkChoiceStore.unrealized_finalized_checkpoint) s.(BeaconForkChoiceStore.proposer_boost_root)
    s.(BeaconForkChoiceStore.equivocating_indices).

Definition store_from_persisted (p : PersistedForkChoiceStore.t)
    : outcome FcStoreError.t BeaconForkChoiceStore.t :=
  justified_state ← read_state p.(PersistedForkChoiceStore.justified_state_root);
  justified_balances ← map_err FcStoreError.Arith (balances_of_state slots_per_epoch justified_state);
  Ok (BeaconForkChoiceStore.mk [] p.(PersistedForkChoiceStore.time)
        p.(PersistedForkChoiceStore.finalized_checkpoint) p.(PersistedForkChoiceStore.justified_checkpoint)
        justified_balances p.(PersistedForkChoiceStore.justified_state_root)
        p.(PersistedForkChoiceStore.unrealized_justified_checkpoint)
        p.(PersistedForkChoiceStore.unrealized_justified_state_root)
        p.(PersistedForkChoiceStore.unrealized_finalized_checkpoint)
        p.(PersistedForkChoiceStore.proposer_boost_root) p.(PersistedForkChoiceStore.equivocating_indices)).
End beacon.
