(* ===== verification/ForkChoiceRules.v ===== *)
(** * The fork choice rules

    Data and operations of [consensus/fork_choice/src/fork_choice.rs]: the
    handlers for time, blocks, attestations, slashings, bids, payloads and
    payload attestations on top of the proto-array fork choice and of a store
    ([FcStore.ForkChoiceStore]).

    Correspondence.  [Fork_choice.t] is the struct; [proto_array] is the
    proto-array fork choice with its buffers.  A [String] error of the
    proto-array is the error it is made from.  A validator index is a [nat].  A
    [Duration] is a number of nanoseconds.  A beacon block and an indexed
    attestation are the fields the handlers read.  [ValidatorStatuses] of the
    first fork is the parameter [validator_statuses].  Logs, metrics and timers
    are left out. *)
From S2P Require Import Prelude SlotEpoch ProtoArrayDefs ForkChoiceDefs ForkChoiceOps GloasDefs ForkSchedule.
From S2P Require Import BeaconStateDefs JustificationDefs FcStoreDefs.

(** ** Messages *)
Module ExecutionPayloadBid.
Record t : Type := mk {
  slot : Slot; block_hash : ExecutionBlockHash; parent_block_hash : ExecutionBlockHash; builder_index : Z;
}.
End ExecutionPayloadBid.

Module BeaconBlock.
Record t : Type := mk {
  fork_name : ForkName.t;
  slot : Slot;
  proposer_index : Z;
  parent_root : Hash256;
  state_root : Hash256;
  (** the block hash of [body.execution_payload()], where the fork has one *)
  execution_payload : option ExecutionBlockHash;
  signed_execution_payload_bid : option ExecutionPayloadBid.t;
}.
End BeaconBlock.

Module IndexedAttestation.
Record t : Type := mk {
  attesting_indices : list nat;
  slot : Slot;
  index : Z;
  beacon_block_root : Hash256;
  target : Checkpoint.t;
}.
End IndexedAttestation.

Module PayloadAttestationData.
Record t : Type := mk {
  beacon_block_root : Hash256; slot : Slot; payload_present : bool; blob_data_available : bool;
}.
End PayloadAttestationData.

(** Fields of [ChainSpec] that only the handlers read. *)
Module TimingSpec.
Record t : Type := mk {
  slot_duration_ms : Z;
  attestation_due_bps : Z;
  attestation_due_bps_gloas : Z;
  payload_attestation_due_bps : Z;
}.
End TimingSpec.

Definition bps_to_ms (spec : TimingSpec.t) (bps : Z) : Z :=
  u64_saturating_mul spec.(TimingSpec.slot_duration_ms) bps / 10000.
Definition is_gloas_epoch (spec : ChainSpec.t) (e : Epoch) : bool :=
  match spec.(ChainSpec.gloas_fork_epoch) with Some fork_epoch => fork_epoch <=? e | None => false end.
Definition get_attestation_due_ms (spec : ChainSpec.t) (timing : TimingSpec.t) (e : Epoch) : Z :=
  if is_gloas_epoch spec e then bps_to_ms timing timing.(TimingSpec.attestation_due_bps_gloas)
  else bps_to_ms timing timing.(TimingSpec.attestation_due_bps).
Definition get_payload_attestation_due_ms (timing : TimingSpec.t) : Z :=
  bps_to_ms timing timing.(TimingSpec.payload_attestation_due_bps).
(** [Duration::from_millis]. *)
Definition from_millis (ms : Z) : Z := ms * 1000000.

(** ** Errors *)
Module InvalidFcBlock.
Inductive t : Type :=
  | UnknownParent (r : Hash256)
  | FutureSlot (current_slot block_slot : Slot)
  | FinalizedSlot (finalized_slot block_slot : Slot)
  | NotFinalizedDescendant (finalized_root : Hash256) (block_ancestor : option Hash256).
End InvalidFcBlock.

Module InvalidFcAttestation.
Inductive t : Type :=
  | EmptyAggregationBitfield
  | UnknownHeadBlock (beacon_block_root : Hash256)
  | BadTargetEpoch (target : Epoch) (slot : Slot)
  | UnknownTargetRoot (r : Hash256)
  | FutureEpoch (attestation_epoch current_epoch : Epoch)
  | PastEpoch (attestation_epoch current_epoch : Epoch)
  | InvalidTarget (attestation local : Hash256)
  | AttestsToFutureBlock (block attestation : Slot)
  | InvalidCommitteeIndex (index : Z)
  | SameSlotNonZeroIndex (slot : Slot) (index : Z)
  | PayloadNotRevealed (beacon_block_root : Hash256).
End InvalidFcAttestation.

Module InvalidExecutionBid.
Inductive t : Type :=
  | UnknownBeaconBlockRoot (beacon_block_root : Hash256)
  | SlotMismatch (bid_slot block_slot : Slot).
End InvalidExecutionBid.

Module InvalidPayloadAttestation.
Inductive t : Type :=
  | UnknownBeaconBlockRoot (beacon_block_root : Hash256)
  | FutureSlot (attestation_slot current_slot : Slot)
  | TooOld (attestation_slot current_slot : Slot).
End InvalidPayloadAttestation.

Module PayloadVerificationStatus.
Inductive t : Type := Verified | Optimistic | Irrelevant.
Definition is_optimistic (s : t) : bool := match s with Optimistic => true | _ => false end.
End PayloadVerificationStatus.

Module RulesError.
Inductive t (T : Type) : Type :=
  | InvalidAttestation (e : InvalidFcAttestation.t)
  | InvalidBlock (e : InvalidFcBlock.t)
  | ProtoArrayStringError (e : FcError.t)
  | FailedToProcessInvalidExecutionPayload (e : FcError.t)
  | FailedToProcessValidExecutionPayload (e : FcError.t)
  | MissingProtoArrayBlock (r : Hash256)
  | InconsistentOnTick (previous_slot time : Slot)
  | BeaconStateError (e : BeaconStateError.t)
  | UnableToSetJustifiedCheckpoint (e : T)
  | AfterBlockFailed (e : T)
  | InvalidAnchor (block_slot state_slot : Slot)
  | InvalidPayloadStatus (block_slot : Slot) (block_root : Hash256) (s : PayloadVerificationStatus.t)
  | MissingJustifiedBlock (c : Checkpoint.t)
  | MissingFinalizedBlock (c : Checkpoint.t)
  | WrongSlotForGetProposerHead (current_slot fc_store_slot : Slot)
  | ProposerBoostNotExpiredForGetProposerHead (proposer_boost_root : Hash256)
  | ProposerHead (e : ProposerHeadError.t)
  | UnrealizedVoteProcessing (e : EpochProcessingError.t)
  | ValidatorStatuses (e : BeaconStateError.t)
  | InvalidExecutionBid_ (e : InvalidExecutionBid.t)
  | InvalidPayloadAttestation_ (e : InvalidPayloadAttestation.t).
Arguments InvalidAttestation {T}. Arguments InvalidBlock {T}. Arguments ProtoArrayStringError {T}.
Arguments FailedToProcessInvalidExecutionPayload {T}. Arguments FailedToProcessValidExecutionPayload {T}.
Arguments MissingProtoArrayBlock {T}. Arguments InconsistentOnTick {T}. Arguments BeaconStateError {T}.
Arguments UnableToSetJustifiedCheckpoint {T}. Arguments AfterBlockFailed {T}. Arguments InvalidAnchor {T}.
Arguments InvalidPayloadStatus {T}. Arguments MissingJustifiedBlock {T}. Arguments MissingFinalizedBlock {T}.
Arguments WrongSlotForGetProposerHead {T}. Arguments ProposerBoostNotExpiredForGetProposerHead {T}.
Arguments ProposerHead {T}. Arguments UnrealizedVoteProcessing {T}. Arguments ValidatorStatuses {T}.
Arguments InvalidExecutionBid_ {T}. Arguments InvalidPayloadAttestation_ {T}.
End RulesError.

(** ** State *)
Module QueuedAttestation.
Record t : Type := mk {
  slot : Slot; attesting_indices : list nat; block_root : Hash256; target_epoch : Epoch; index : Z;
}.
Definition from (a : IndexedAttestation.t) : t :=
  mk a.(IndexedAttestation.slot) a.(IndexedAttestation.attesting_indices)
    a.(IndexedAttestation.beacon_block_root) a.(IndexedAttestation.target).(Checkpoint.epoch)
    a.(IndexedAttestation.index).
End QueuedAttestation.

Module ForkchoiceUpdateParameters.
Record t : Type := mk {
  head_root : Hash256;
  head_hash : option ExecutionBlockHash;
  justified_hash : option ExecutionBlockHash;
  finalized_hash : option ExecutionBlockHash;
}.
Definition initial : t := mk hash_zero None None None.
End ForkchoiceUpdateParameters.

Module ForkChoiceView.
Record t : Type := mk {
  head_block_root : Hash256; justified_checkpoint : Checkpoint.t; finalized_checkpoint : Checkpoint.t;
}.
End ForkChoiceView.

Module ResetPayloadStatuses.
Inductive t : Type := Always | OnlyWithInvalidPayload.
Definition always_reset_conditionally (should_always_reset : bool) : t :=
  if should_always_reset then Always else OnlyWithInvalidPayload.
End ResetPayloadStatuses.

Module Fork_choice.
Record t (T : Type) : Type := mk {
  fc_store : T;
  proto_array : GloasState.t;
  queued_attestations : list QueuedAttestation.t;
  forkchoice_update_parameters : ForkchoiceUpdateParameters.t;
}.
Arguments mk {T}. Arguments fc_store {T}. Arguments proto_array {T}. Arguments queued_attestations {T}.
Arguments forkchoice_update_parameters {T}.
Section setters.
Context {T : Type}.
Definition set_store (x : T) (f : t T) : t T :=
  mk x f.(proto_array) f.(queued_attestations) f.(forkchoice_update_parameters).
Definition set_proto_array (x : GloasState.t) (f : t T) : t T :=
  mk f.(fc_store) x f.(queued_attestations) f.(forkchoice_update_parameters).
Definition set_queue (x : list QueuedAttestation.t) (f : t T) : t T :=
  mk f.(fc_store) f.(proto_array) x f.(forkchoice_update_parameters).
Definition set_parameters (x : ForkchoiceUpdateParameters.t) (f : t T) : t T :=
  mk f.(fc_store) f.(proto_array) f.(queued_attestations) x.
(** The proto-array fork choice and its tree. *)
Definition fc (f : t T) : ForkChoice.t := f.(proto_array).(GloasState.fc).
Definition tree (f : t T) : ProtoArray.t := (fc f).(ForkChoice.proto_array).
Definition set_fc (x : ForkChoice.t) (f : t T) : t T :=
  set_proto_array (GloasState.set_fc x f.(proto_array)) f.
End setters.
End Fork_choice.

(** [dequeue_attestations]: the attestations before the first that is not yet
    due, and the rest of the queue. *)
Definition dequeue_attestations (current_slot : Slot) (queued_attestations : list QueuedAttestation.t)
    : list QueuedAttestation.t * list QueuedAttestation.t :=
  let n := match list_find (fun a => current_slot ≤ a.(QueuedAttestation.slot)) queued_attestations with
           | Some (i, _) => i
           | None => length queued_attestations
           end in
  (take n queued_attestations, drop n queued_attestations).

(** The merge walk of [on_attester_slashing]; each step consumes an element. *)
Fixpoint merge_walk (fuel : nat) (it1 it2 : list nat) : list nat :=
  match fuel with
  | O => []
  | S fuel' =>
      match it1, it2 with
      | a :: it1', b :: it2' =>
          match Nat.compare a b with
          | Lt => merge_walk fuel' it1' it2
          | Gt => merge_walk fuel' it1 it2'
          | Eq => a :: merge_walk fuel' it1' it2'
          end
      | _, _ => []
      end
  end.

Section rules.
Context {T E : Type} `{!FcStore.ForkChoiceStore T E}.
Context (slots_per_epoch : Z).
(** [ValidatorStatuses::new] and [process_attestations], before Altair. *)
Context (validator_statuses : BeaconState.t → outcome BeaconStateError.t TotalBalances.t).

Abbreviation FM := (M (Fork_choice.t T) (RulesError.t E)).

(** Run a method of the store, of the proto-array fork choice, or of it with its
    buffers. *)
Definition on_store {A} (err : E → RulesError.t E) (m : M T E A) : FM A := fun f =>
  let '(r, s) := m f.(Fork_choice.fc_store) in (map_err err r, Fork_choice.set_store s f).
Definition modify_store (g : T → T) : FM unit :=
  modify (fun f => Fork_choice.set_store (g f.(Fork_choice.fc_store)) f).
Definition on_fc {A} (err : FcError.t → RulesError.t E) (m : M ForkChoice.t FcError.t A) : FM A := fun f =>
  let '(r, x) := m (Fork_choice.fc f) in (map_err err r, Fork_choice.set_fc x f).
Definition on_gloas {A} (err : FcError.t → RulesError.t E) (m : M GloasState.t FcError.t A) : FM A := fun f =>
  let '(r, x) := m f.(Fork_choice.proto_array) in (map_err err r, Fork_choice.set_proto_array x f).
Definition state_err {A} (o : outcome BeaconStateError.t A) : FM A := lift (map_err RulesError.BeaconStateError o).

Definition compute_slots_since_epoch_start (slot : Slot) : Slot :=
  se_sub slot (start_slot (epoch slot slots_per_epoch) slots_per_epoch).
Definition compute_start_slot_at_epoch (e : Epoch) : Slot := start_slot e slots_per_epoch.

(** ** Lookups *)
Definition rules_is_finalized_checkpoint_or_descendant (f : Fork_choice.t T) (block_root : Hash256) : bool :=
  is_finalized_checkpoint_or_descendant slots_per_epoch (Fork_choice.tree f) block_root.
Definition rules_contains_block (f : Fork_choice.t T) (block_root : Hash256) : bool :=
  contains_block (Fork_choice.fc f) block_root && rules_is_finalized_checkpoint_or_descendant f block_root.
Definition rules_get_block (f : Fork_choice.t T) (block_root : Hash256) : option Block.t :=
  if rules_is_finalized_checkpoint_or_descendant f block_root then get_block (Fork_choice.fc f) block_root else None.
Definition rules_get_block_execution_status (f : Fork_choice.t T) (block_root : Hash256)
    : option ExecutionStatus.t :=
  if rules_is_finalized_checkpoint_or_descendant f block_root
  then get_block_execution_status (Fork_choice.fc f) block_root else None.
Definition rules_justified_checkpoint (f : Fork_choice.t T) : Checkpoint.t :=
  FcStore.justified_checkpoint f.(Fork_choice.fc_store).
Definition rules_finalized_checkpoint (f : Fork_choice.t T) : Checkpoint.t :=
  FcStore.finalized_checkpoint f.(Fork_choice.fc_store).
Definition get_justified_block (f : Fork_choice.t T) : outcome (RulesError.t E) Block.t :=
  ok_or (rules_get_block f (rules_justified_checkpoint f).(Checkpoint.root))
    (RulesError.MissingJustifiedBlock (rules_justified_checkpoint f)).
Definition get_finalized_block (f : Fork_choice.t T) : outcome (RulesError.t E) Block.t :=
  ok_or (rules_get_block f (rules_finalized_checkpoint f).(Checkpoint.root))
    (RulesError.MissingFinalizedBlock (rules_finalized_checkpoint f)).
Definition is_optimistic_or_invalid_block (f : Fork_choice.t T) (block_root : Hash256)
    : outcome (RulesError.t E) bool :=
  match rules_get_block_execution_status f block_root with
  | Some status => Ok (ExecutionStatus.is_optimistic_or_invalid status)
  | None => b ← get_finalized_block f; Ok (ExecutionStatus.is_optimistic_or_invalid b.(Block.execution_status))
  end.
Definition is_optimistic_or_invalid_block_no_fallback (f : Fork_choice.t T) (block_root : Hash256)
    : outcome (RulesError.t E) bool :=
  match rules_get_block_execution_status f block_root with
  | Some status => Ok (ExecutionStatus.is_optimistic_or_invalid status)
  | None => Err (RulesError.MissingProtoArrayBlock block_root)
  end.
Definition cached_fork_choice_view (f : Fork_choice.t T) : ForkChoiceView.t :=
  ForkChoiceView.mk f.(Fork_choice.forkchoice_update_parameters).(ForkchoiceUpdateParameters.head_root)
    (rules_justified_checkpoint f) (rules_finalized_checkpoint f).

Definition get_ancestor (f : Fork_choice.t T) (block_root : Hash256) (ancestor_slot : Slot)
    : outcome (RulesError.t E) (option Hash256) :=
  block ← ok_or (get_block (Fork_choice.fc f) block_root) (RulesError.MissingProtoArrayBlock block_root);
  if ancestor_slot <? block.(Block.slot) then
    Ok (fst <$> List.find (fun '(_, slot) => slot <=? ancestor_slot)
                  (iter_block_roots (Fork_choice.tree f) block_root))
  else Ok (Some block_root).

(** ** Time *)
Definition update_checkpoints (justified_checkpoint finalized_checkpoint : Checkpoint.t)
    (justified_state_root_producer : outcome (RulesError.t E) Hash256) : FM unit :=
  f ← get;
  when ((FcStore.justified_checkpoint f.(Fork_choice.fc_store)).(Checkpoint.epoch) <? justified_checkpoint.(Checkpoint.epoch))
    (justified_state_root ← lift justified_state_root_producer;
     on_store RulesError.UnableToSetJustifiedCheckpoint
       (FcStore.set_justified_checkpoint justified_checkpoint justified_state_root)) ;;
  f ← get;
  when ((FcStore.finalized_checkpoint f.(Fork_choice.fc_store)).(Checkpoint.epoch) <? finalized_checkpoint.(Checkpoint.epoch))
    (modify_store (FcStore.set_finalized_checkpoint finalized_checkpoint)).

Definition pull_up_store_checkpoints (unrealized_justified_checkpoint unrealized_finalized_checkpoint : Checkpoint.t)
    (unrealized_justified_state_root_producer : outcome (RulesError.t E) Hash256) : FM unit :=
  update_checkpoints unrealized_justified_checkpoint unrealized_finalized_checkpoint
    unrealized_justified_state_root_producer.

Definition on_tick (time : Slot) : FM unit :=
  f ← get;
  let previous_slot := FcStore.get_current_slot f.(Fork_choice.fc_store) in
  if se_add previous_slot 1 <? time then throw (RulesError.InconsistentOnTick previous_slot time)
  else
    modify_store (FcStore.set_current_slot time) ;;
    f ← get;
    let current_slot := FcStore.get_current_slot f.(Fork_choice.fc_store) in
    when (previous_slot <? current_slot) (modify_store (FcStore.set_proposer_boost_root hash_zero)) ;;
    if negb ((previous_slot <? current_slot) && (compute_slots_since_epoch_start current_slot =? 0))
    then mret tt
    else
      f ← get;
      let store := f.(Fork_choice.fc_store) in
      pull_up_store_checkpoints (FcStore.unrealized_justified_checkpoint store)
        (FcStore.unrealized_finalized_checkpoint store) (Ok (FcStore.unrealized_justified_state_root store)).

(** The attesters of one attestation. *)
Definition apply_votes (indices : list nat) (block_root : Hash256) (target_epoch : Epoch) (slot : Slot)
    (index : Z) : FM unit :=
  let payload_present := index =? 1 in
  for_each indices (fun validator_index =>
    on_fc RulesError.ProtoArrayStringError
      (process_attestation validator_index block_root target_epoch slot payload_present)).

Definition process_attestation_queue : FM unit :=
  f ← get;
  let '(due, remaining) := dequeue_attestations (FcStore.get_current_slot f.(Fork_choice.fc_store))
                             f.(Fork_choice.queued_attestations) in
  modify (Fork_choice.set_queue remaining) ;;
  for_each due (fun a => apply_votes a.(QueuedAttestation.attesting_indices) a.(QueuedAttestation.block_root)
    a.(QueuedAttestation.target_epoch) a.(QueuedAttestation.slot) a.(QueuedAttestation.index)).

(** The [while] loop: each tick adds one slot. *)
Fixpoint tick_loop (fuel : nat) (current_slot : Slot) : FM unit :=
  f ← get;
  let previous_slot := FcStore.get_current_slot f.(Fork_choice.fc_store) in
  if previous_slot <? current_slot then
    match fuel with
    | O => lift Diverge
    | S fuel' => on_tick (se_add previous_slot 1) ;; tick_loop fuel' current_slot
    end
  else mret tt.

Definition update_time (current_slot : Slot) : FM Slot :=
  f ← get;
  tick_loop (Z.to_nat (current_slot - FcStore.get_current_slot f.(Fork_choice.fc_store))) current_slot ;;
  process_attestation_queue ;;
  f ← get;
  mret (FcStore.get_current_slot f.(Fork_choice.fc_store)).

(** ** Head *)
Definition get_head (system_time_current_slot : Slot) (spec : ChainSpec.t) : FM Hash256 :=
  current_slot ← update_time system_time_current_slot;
  f ← get;
  let store := f.(Fork_choice.fc_store) in
  head_root ← on_gloas RulesError.ProtoArrayStringError
    (fc_find_head slots_per_epoch (FcStore.justified_checkpoint store) (FcStore.finalized_checkpoint store)
       (FcStore.justified_balances store) (FcStore.proposer_boost_root store)
       (FcStore.equivocating_indices store) current_slot spec);
  f ← get;
  let hash_of root := b ← rules_get_block f root; ExecutionStatus.block_hash b.(Block.execution_status) in
  modify (Fork_choice.set_parameters (ForkchoiceUpdateParameters.mk head_root (hash_of head_root)
    (hash_of (rules_justified_checkpoint f).(Checkpoint.root))
    (hash_of (rules_finalized_checkpoint f).(Checkpoint.root)))) ;;
  mret head_root.

Definition proposer_head {A} (o : outcome ProposerHeadError.t A) : outcome (RulesError.t E) A :=
  map_err RulesError.ProposerHead o.

Definition rules_get_proposer_head (f : Fork_choice.t T) (current_slot : Slot) (canonical_head : Hash256)
    (re_org_head_threshold re_org_parent_threshold : Z) (disallowed_offsets : list Z)
    (max_epochs_since_finalization : Epoch) : outcome (RulesError.t E) ProposerHeadInfo.t :=
  let store := f.(Fork_choice.fc_store) in
  let fc_store_slot := FcStore.get_current_slot store in
  if negb (current_slot =? fc_store_slot) then
    Err (RulesError.WrongSlotForGetProposerHead current_slot fc_store_slot)
  else if negb (FcStore.proposer_boost_root store =? hash_zero) then
    Err (RulesError.ProposerBoostNotExpiredForGetProposerHead (FcStore.proposer_boost_root store))
  else proposer_head (get_proposer_head slots_per_epoch (Fork_choice.fc f) current_slot canonical_head
         (FcStore.justified_balances store) re_org_head_threshold re_org_parent_threshold
         disallowed_offsets max_epochs_since_finalization).

Definition get_preliminary_proposer_head (f : Fork_choice.t T) (canonical_head : Hash256)
    (re_org_head_threshold re_org_parent_threshold : Z) (disallowed_offsets : list Z)
    (max_epochs_since_finalization : Epoch) : outcome (RulesError.t E) ProposerHeadInfo.t :=
  let store := f.(Fork_choice.fc_store) in
  proposer_head (get_proposer_head_info slots_per_epoch (Fork_choice.fc f) (FcStore.get_current_slot store)
    canonical_head (FcStore.justified_balances store) re_org_head_threshold re_org_parent_threshold
    disallowed_offsets max_epochs_since_finalization).

(** ** Execution payload verdicts *)
Definition on_valid_execution_payload (block_root : Hash256) : FM unit :=
  on_fc RulesError.FailedToProcessValidExecutionPayload (process_execution_payload_validation block_root).
Definition on_invalid_execution_payload (op : InvalidationOperation.t) : FM unit :=
  on_fc RulesError.FailedToProcessInvalidExecutionPayload
    (process_execution_payload_invalidation slots_per_epoch op).

(** ** Blocks *)

(** The unrealized checkpoints of a block: those of its parent where they cannot
    differ, or what justification and finalization would give. *)
Definition unrealized_checkpoints (block : BeaconBlock.t) (parent_block : Block.t) (state : BeaconState.t)
    (block_epoch : Epoch) : outcome (RulesError.t E) (Checkpoint.t * Checkpoint.t) :=
  let compute :=
    jf ← (if ForkName.ge block.(BeaconBlock.fork_name) ForkName.Altair
          then map_err RulesError.UnrealizedVoteProcessing (process_justification_and_finalization slots_per_epoch state)
          else
            total_balances ← map_err RulesError.ValidatorStatuses (validator_statuses state);
            map_err RulesError.UnrealizedVoteProcessing
              (base_process_justification_and_finalization slots_per_epoch state total_balances));
    Ok (jf.(JustificationAndFinalizationState.current_justified_checkpoint),
        jf.(JustificationAndFinalizationState.finalized_checkpoint)) in
  match parent_block.(Block.unrealized_justified_checkpoint), parent_block.(Block.unrealized_finalized_checkpoint) with
  | Some parent_justified, Some parent_finalized =>
      if (parent_justified.(Checkpoint.epoch) =? block_epoch)
         && (se_add parent_finalized.(Checkpoint.epoch) 1 =? block_epoch)
      then Ok (parent_justified, parent_finalized) else compute
  | _, _ => compute
  end.

Definition execution_status_of (block : BeaconBlock.t) (block_root : Hash256)
    (payload_verification_status : PayloadVerificationStatus.t) : outcome (RulesError.t E) ExecutionStatus.t :=
  match block.(BeaconBlock.execution_payload), block.(BeaconBlock.signed_execution_payload_bid) with
  | Some block_hash, _ =>
      if block_hash =? hash_zero then Ok ExecutionStatus.irrelevant
      else match payload_verification_status with
           | PayloadVerificationStatus.Verified => Ok (ExecutionStatus.Valid block_hash)
           | PayloadVerificationStatus.Optimistic => Ok (ExecutionStatus.Optimistic block_hash)
           | PayloadVerificationStatus.Irrelevant =>
               Err (RulesError.InvalidPayloadStatus block.(BeaconBlock.slot) block_root payload_verification_status)
           end
  | None, Some bid =>
      if bid.(ExecutionPayloadBid.block_hash) =? hash_zero then Ok ExecutionStatus.irrelevant
      else Ok (ExecutionStatus.Optimistic bid.(ExecutionPayloadBid.block_hash))
  | None, None => Ok ExecutionStatus.irrelevant
  end.

(** The checks of [on_block] up to the finalized ancestor; the parent block. *)
Definition check_block (block : BeaconBlock.t) (current_slot : Slot) : FM Block.t :=
  f ← get;
  let store := f.(Fork_choice.fc_store) in
  parent_block ← lift (ok_or (get_block (Fork_choice.fc f) block.(BeaconBlock.parent_root))
    (RulesError.InvalidBlock (InvalidFcBlock.UnknownParent block.(BeaconBlock.parent_root))));
  (if current_slot <? block.(BeaconBlock.slot)
   then throw (RulesError.InvalidBlock (InvalidFcBlock.FutureSlot current_slot block.(BeaconBlock.slot)))
   else mret tt) ;;
  let finalized_slot := compute_start_slot_at_epoch (FcStore.finalized_checkpoint store).(Checkpoint.epoch) in
  (if block.(BeaconBlock.slot) <=? finalized_slot
   then throw (RulesError.InvalidBlock (InvalidFcBlock.FinalizedSlot finalized_slot block.(BeaconBlock.slot)))
   else mret tt) ;;
  block_ancestor ← lift (get_ancestor f block.(BeaconBlock.parent_root) finalized_slot);
  let finalized_root := (FcStore.finalized_checkpoint store).(Checkpoint.root) in
  (if negb (bool_decide (block_ancestor = Some finalized_root))
   then throw (RulesError.InvalidBlock (InvalidFcBlock.NotFinalizedDescendant finalized_root block_ancestor))
   else mret tt) ;;
  mret parent_block.

(** [update_proposer_boost_root]: a timely first block of the slot by the
    expected proposer. *)
Definition maybe_boost (block : BeaconBlock.t) (block_root : Hash256) (block_delay : Z)
    (canonical_head_proposer_index : option Z) (current_slot : Slot) (spec : ChainSpec.t)
    (timing : TimingSpec.t) : FM unit :=
  f ← get;
  let block_epoch := epoch block.(BeaconBlock.slot) slots_per_epoch in
  let is_before_attesting_interval := block_delay <=? from_millis (get_attestation_due_ms spec timing block_epoch) in
  let is_first_block := FcStore.proposer_boost_root f.(Fork_choice.fc_store) =? hash_zero in
  let proposer_matches :=
    match canonical_head_proposer_index with
    | Some expected => block.(BeaconBlock.proposer_index) =? expected
    | None => true
    end in
  when ((current_slot =? block.(BeaconBlock.slot)) && is_before_attesting_interval && is_first_block && proposer_matches)
    (modify_store (FcStore.set_proposer_boost_root block_root)).

(** The update of the store's checkpoints; the block's unrealized ones. *)
Definition update_block_checkpoints (block : BeaconBlock.t) (parent_block : Block.t) (state : BeaconState.t)
    (current_slot : Slot) : FM (Checkpoint.t * Checkpoint.t) :=
  let block_epoch := epoch block.(BeaconBlock.slot) slots_per_epoch in
  let state_root_at e := map_err RulesError.BeaconStateError (get_state_root_at_epoch_start slots_per_epoch state e) in
  update_checkpoints state.(BeaconState.current_justified_checkpoint) state.(BeaconState.finalized_checkpoint)
    (state_root_at state.(BeaconState.current_justified_checkpoint).(Checkpoint.epoch)) ;;
  '(unrealized_justified_checkpoint, unrealized_finalized_checkpoint) ←
    lift (unrealized_checkpoints block parent_block state block_epoch);
  f ← get;
  when ((FcStore.unrealized_justified_checkpoint f.(Fork_choice.fc_store)).(Checkpoint.epoch)
        <? unrealized_justified_checkpoint.(Checkpoint.epoch))
    (unrealized_justified_state_root ← lift (state_root_at unrealized_justified_checkpoint.(Checkpoint.epoch));
     modify_store (FcStore.set_unrealized_justified_checkpoint unrealized_justified_checkpoint
                     unrealized_justified_state_root)) ;;
  f ← get;
  when ((FcStore.unrealized_finalized_checkpoint f.(Fork_choice.fc_store)).(Checkpoint.epoch)
        <? unrealized_finalized_checkpoint.(Checkpoint.epoch))
    (modify_store (FcStore.set_unrealized_finalized_checkpoint unrealized_finalized_checkpoint)) ;;
  when (block_epoch <? epoch current_slot slots_per_epoch)
    (pull_up_store_checkpoints unrealized_justified_checkpoint unrealized_finalized_checkpoint
       (state_root_at unrealized_justified_checkpoint.(Checkpoint.epoch))) ;;
  mret (unrealized_justified_checkpoint, unrealized_finalized_checkpoint).

(** The rest of [on_block]: the store's housekeeping and the new node. *)
Definition add_block (block : BeaconBlock.t) (block_root : Hash256) (block_delay : Z) (state : BeaconState.t)
    (payload_verification_status : PayloadVerificationStatus.t) (current_slot : Slot) (timing : TimingSpec.t)
    (unrealized_justified_checkpoint unrealized_finalized_checkpoint : Checkpoint.t) : FM unit :=
  let target_slot := start_slot (epoch block.(BeaconBlock.slot) slots_per_epoch) slots_per_epoch in
  target_root ← (if block.(BeaconBlock.slot) =? target_slot then mret block_root
                 else state_err (get_block_root state target_slot));
  on_store RulesError.AfterBlockFailed (FcStore.on_verified_block block_root state) ;;
  let bid_opt := block.(BeaconBlock.signed_execution_payload_bid) in
  execution_status ← lift (execution_status_of block block_root payload_verification_status);
  current_epoch_shuffling_id ← state_err (attestation_shuffling_id_new slots_per_epoch block_root state Current);
  next_epoch_shuffling_id ← state_err (attestation_shuffling_id_new slots_per_epoch block_root state Next);
  on_fc RulesError.ProtoArrayStringError (process_block slots_per_epoch
    {| Block.slot := block.(BeaconBlock.slot);
       Block.root := block_root;
       Block.parent_root := Some block.(BeaconBlock.parent_root);
       Block.target_root := target_root;
       Block.current_epoch_shuffling_id := current_epoch_shuffling_id;
       Block.next_epoch_shuffling_id := next_epoch_shuffling_id;
       Block.state_root := block.(BeaconBlock.state_root);
       Block.justified_checkpoint := state.(BeaconState.current_justified_checkpoint);
       Block.finalized_checkpoint := state.(BeaconState.finalized_checkpoint);
       Block.execution_status := execution_status;
       Block.unrealized_justified_checkpoint := Some unrealized_justified_checkpoint;
       Block.unrealized_finalized_checkpoint := Some unrealized_finalized_checkpoint;
       Block.builder_index := ExecutionPayloadBid.builder_index <$> bid_opt;
       Block.payload_revealed := false;
       Block.ptc_weight := 0;
       Block.ptc_blob_data_available_weight := 0;
       Block.payload_data_available := false;
       Block.bid_block_hash := ExecutionPayloadBid.block_hash <$> bid_opt;
       Block.bid_parent_block_hash := ExecutionPayloadBid.parent_block_hash <$> bid_opt;
       Block.proposer_index := block.(BeaconBlock.proposer_index);
       Block.ptc_timely := (current_slot =? block.(BeaconBlock.slot)) &&
         (block_delay <? from_millis (get_payload_attestation_due_ms timing));
       Block.envelope_received := false;
       Block.inclusion_list_satisfied := false |} current_slot).

Definition rules_on_block (system_time_current_slot : Slot) (block : BeaconBlock.t) (block_root : Hash256)
    (block_delay : Z) (state : BeaconState.t) (payload_verification_status : PayloadVerificationStatus.t)
    (canonical_head_proposer_index : option Z) (spec : ChainSpec.t) (timing : TimingSpec.t) : FM unit :=
  f ← get;
  if contains_block (Fork_choice.fc f) block_root then mret tt
  else
    current_slot ← update_time system_time_current_slot;
    parent_block ← check_block block current_slot;
    maybe_boost block block_root block_delay canonical_head_proposer_index current_slot spec timing ;;
    '(unrealized_justified_checkpoint, unrealized_finalized_checkpoint) ←
      update_block_checkpoints block parent_block state current_slot;
    add_block block block_root block_delay state payload_verification_status current_slot timing
      unrealized_justified_checkpoint unrealized_finalized_checkpoint.

(** ** Attestations *)
Definition validate_target_epoch_against_current_time (f : Fork_choice.t T) (target_epoch : Epoch)
    : outcome InvalidFcAttestation.t unit :=
  let epoch_now := epoch (FcStore.get_current_slot f.(Fork_choice.fc_store)) slots_per_epoch in
  if epoch_now <? target_epoch then Err (InvalidFcAttestation.FutureEpoch target_epoch epoch_now)
  else if se_add target_epoch 1 <? epoch_now then Err (InvalidFcAttestation.PastEpoch target_epoch epoch_now)
  else Ok tt.

Definition validate_on_attestation (f : Fork_choice.t T) (a : IndexedAttestation.t) (is_from_block : bool)
    : outcome InvalidFcAttestation.t unit :=
  let fc := Fork_choice.fc f in
  let target := a.(IndexedAttestation.target) in
  let slot := a.(IndexedAttestation.slot) in
  let root := a.(IndexedAttestation.beacon_block_root) in
  if bool_decide (a.(IndexedAttestation.attesting_indices) = []) then Err InvalidFcAttestation.EmptyAggregationBitfield
  else
    _ ← (if is_from_block then Ok tt else validate_target_epoch_against_current_time f target.(Checkpoint.epoch));
    if negb (target.(Checkpoint.epoch) =? epoch slot slots_per_epoch)
    then Err (InvalidFcAttestation.BadTargetEpoch target.(Checkpoint.epoch) slot)
    else if negb (contains_block fc target.(Checkpoint.root))
    then Err (InvalidFcAttestation.UnknownTargetRoot target.(Checkpoint.root))
    else
      block ← ok_or (get_block fc root) (InvalidFcAttestation.UnknownHeadBlock root);
      let expected_target :=
        if epoch block.(Block.slot) slots_per_epoch <? target.(Checkpoint.epoch) then root
        else block.(Block.target_root) in
      if negb (expected_target =? target.(Checkpoint.root))
      then Err (InvalidFcAttestation.InvalidTarget target.(Checkpoint.root) expected_target)
      else if slot <? block.(Block.slot)
      then Err (InvalidFcAttestation.AttestsToFutureBlock block.(Block.slot) slot)
      else match block.(Block.builder_index) with
      | None => Ok tt
      | Some _ =>
          let index := a.(IndexedAttestation.index) in
          if 1 <? index then Err (InvalidFcAttestation.InvalidCommitteeIndex index)
          else if (block.(Block.slot) =? slot) && negb (index =? 0)
          then Err (InvalidFcAttestation.SameSlotNonZeroIndex block.(Block.slot) index)
          else if (index =? 1) && negb block.(Block.payload_revealed)
          then Err (InvalidFcAttestation.PayloadNotRevealed root)
          else Ok tt
      end.

Definition on_attestation (system_time_current_slot : Slot) (a : IndexedAttestation.t) (is_from_block : bool)
    : FM unit :=
  _ ← update_time system_time_current_slot;
  if a.(IndexedAttestation.beacon_block_root) =? hash_zero then mret tt
  else
    f ← get;
    lift (map_err RulesError.InvalidAttestation (validate_on_attestation f a is_from_block)) ;;
    if a.(IndexedAttestation.slot) <? FcStore.get_current_slot f.(Fork_choice.fc_store) then
      apply_votes a.(IndexedAttestation.attesting_indices) a.(IndexedAttestation.beacon_block_root)
        a.(IndexedAttestation.target).(Checkpoint.epoch) a.(IndexedAttestation.slot) a.(IndexedAttestation.index)
    else modify (fun f => Fork_choice.set_queue (f.(Fork_choice.queued_attestations) ++ [QueuedAttestation.from a]) f).

Definition on_attester_slashing (indices_1 indices_2 : list nat) : FM unit :=
  modify_store (FcStore.extend_equivocating_indices
    (merge_walk (length indices_1 + length indices_2) indices_1 indices_2)).

(** ** Bids, payload attestations and envelopes *)
Definition node_index (beacon_block_root : Hash256) (e : RulesError.t E) : FM (nat * ProtoNode.t) :=
  f ← get;
  block_index ← lift (ok_or ((Fork_choice.tree f).(ProtoArray.indices) !! beacon_block_root) e);
  node ← lift (ok_or ((Fork_choice.tree f).(ProtoArray.nodes) !! block_index)
                 (RulesError.MissingProtoArrayBlock beacon_block_root));
  mret (block_index, node).

Definition alter_tree_node (g : ProtoNode.t → ProtoNode.t) (i : nat) : FM unit :=
  modify (fun f => Fork_choice.set_fc
    (ForkChoice.set_proto_array (ProtoArray.alter_node g i (Fork_choice.tree f)) (Fork_choice.fc f)) f).

(** The fields of a node these handlers assign. *)
Definition set_payload_fields (n : ProtoNode.t) (status : ExecutionStatus.t) (builder_index : option Z)
    (payload_revealed : bool) (ptc_weight ptc_blob_data_available_weight : Z)
    (payload_data_available envelope_received inclusion_list_satisfied : bool) : ProtoNode.t :=
  ProtoNode.mk n.(ProtoNode.slot) n.(ProtoNode.state_root) n.(ProtoNode.target_root)
    n.(ProtoNode.current_epoch_shuffling_id) n.(ProtoNode.next_epoch_shuffling_id) n.(ProtoNode.root)
    n.(ProtoNode.parent) n.(ProtoNode.justified_checkpoint) n.(ProtoNode.finalized_checkpoint)
    n.(ProtoNode.weight) n.(ProtoNode.best_child) n.(ProtoNode.best_descendant) status
    n.(ProtoNode.unrealized_justified_checkpoint) n.(ProtoNode.unrealized_finalized_checkpoint)
    builder_index payload_revealed ptc_weight ptc_blob_data_available_weight payload_data_available
    n.(ProtoNode.bid_block_hash) n.(ProtoNode.bid_parent_block_hash) n.(ProtoNode.proposer_index)
    n.(ProtoNode.ptc_timely) envelope_received inclusion_list_satisfied.

Definition apply_bid (builder_index : Z) (n : ProtoNode.t) : ProtoNode.t :=
  if negb n.(ProtoNode.envelope_received) && negb n.(ProtoNode.payload_revealed)
  then set_payload_fields n n.(ProtoNode.execution_status) (Some builder_index) n.(ProtoNode.payload_revealed)
         0 0 false n.(ProtoNode.envelope_received) n.(ProtoNode.inclusion_list_satisfied)
  else set_payload_fields n n.(ProtoNode.execution_status) (Some builder_index) n.(ProtoNode.payload_revealed)
         n.(ProtoNode.ptc_weight) n.(ProtoNode.ptc_blob_data_available_weight) n.(ProtoNode.payload_data_available)
         n.(ProtoNode.envelope_received) n.(ProtoNode.inclusion_list_satisfied).

Definition on_execution_bid (bid : ExecutionPayloadBid.t) (beacon_block_root : Hash256) : FM unit :=
  '(block_index, node) ← node_index beacon_block_root
    (RulesError.InvalidExecutionBid_ (InvalidExecutionBid.UnknownBeaconBlockRoot beacon_block_root));
  if negb (bid.(ExecutionPayloadBid.slot) =? node.(ProtoNode.slot)) then
    throw (RulesError.InvalidExecutionBid_
      (InvalidExecutionBid.SlotMismatch bid.(ExecutionPayloadBid.slot) node.(ProtoNode.slot)))
  else alter_tree_node (apply_bid bid.(ExecutionPayloadBid.builder_index)) block_index.

Definition apply_payload_votes (payload_present blob_data_available : bool) (attester_count quorum_threshold : Z)
    (n : ProtoNode.t) : ProtoNode.t :=
  let ptc_weight := if payload_present then u64_saturating_add n.(ProtoNode.ptc_weight) attester_count
                    else n.(ProtoNode.ptc_weight) in
  let blob_weight := if blob_data_available
                     then u64_saturating_add n.(ProtoNode.ptc_blob_data_available_weight) attester_count
                     else n.(ProtoNode.ptc_blob_data_available_weight) in
  let newly_revealed := (quorum_threshold <? ptc_weight) && negb n.(ProtoNode.payload_revealed) in
  let status :=
    if newly_revealed && negb (ExecutionStatus.is_execution_enabled n.(ProtoNode.execution_status))
    then match n.(ProtoNode.bid_block_hash) with
         | Some block_hash => ExecutionStatus.Optimistic block_hash
         | None => n.(ProtoNode.execution_status)
         end
    else n.(ProtoNode.execution_status) in
  let newly_available := (quorum_threshold <? blob_weight) && negb n.(ProtoNode.payload_data_available) in
  set_payload_fields n status n.(ProtoNode.builder_index) (newly_revealed || n.(ProtoNode.payload_revealed))
    ptc_weight blob_weight (newly_available || n.(ProtoNode.payload_data_available))
    n.(ProtoNode.envelope_received) n.(ProtoNode.inclusion_list_satisfied).

Definition on_payload_attestation (data : PayloadAttestationData.t) (attesting_indices : list nat)
    (current_slot : Slot) (spec : ChainSpec.t) : FM unit :=
  let beacon_block_root := data.(PayloadAttestationData.beacon_block_root) in
  let slot := data.(PayloadAttestationData.slot) in
  if current_slot <? slot then
    throw (RulesError.InvalidPayloadAttestation_ (InvalidPayloadAttestation.FutureSlot slot current_slot))
  else if se_add slot slots_per_epoch <? current_slot then
    throw (RulesError.InvalidPayloadAttestation_ (InvalidPayloadAttestation.TooOld slot current_slot))
  else
    '(block_index, node) ← node_index beacon_block_root (RulesError.InvalidPayloadAttestation_
      (InvalidPayloadAttestation.UnknownBeaconBlockRoot beacon_block_root));
    if negb (slot =? node.(ProtoNode.slot)) then mret tt
    else alter_tree_node (apply_payload_votes data.(PayloadAttestationData.payload_present)
           data.(PayloadAttestationData.blob_data_available) (Z.of_nat (length attesting_indices))
           (spec.(ChainSpec.ptc_size) / 2)) block_index.

Definition apply_envelope (payload_block_hash : ExecutionBlockHash) (inclusion_list_satisfied : bool)
    (n : ProtoNode.t) : ProtoNode.t :=
  set_payload_fields n (ExecutionStatus.Optimistic payload_block_hash) n.(ProtoNode.builder_index) true
    n.(ProtoNode.ptc_weight) n.(ProtoNode.ptc_blob_data_available_weight) true true inclusion_list_satisfied.

Definition on_execution_payload (beacon_block_root : Hash256) (payload_block_hash : ExecutionBlockHash)
    (inclusion_list_satisfied : bool) : FM unit :=
  '(block_index, _) ← node_index beacon_block_root (RulesError.MissingProtoArrayBlock beacon_block_root);
  alter_tree_node (apply_envelope payload_block_hash inclusion_list_satisfied) block_index.

(** ** Pruning and persistence *)
Definition prune : FM unit :=
  f ← get;
  on_fc RulesError.ProtoArrayStringError
    (fc_maybe_prune (FcStore.finalized_checkpoint f.(Fork_choice.fc_store)).(Checkpoint.root)).

Definition empty_buffers : GloasBuffers.t := GloasBuffers.mk [] ∅ [] [] ∅.

Definition proto_array_from_persisted (persisted_proto_array : SszContainer.t)
    (justified_balances : JustifiedBalances.t) (reset_payload_statuses : ResetPayloadStatuses.t)
    (spec : ChainSpec.t) : outcome (RulesError.t E) ForkChoice.t :=
  let proto_array := from_container persisted_proto_array justified_balances in
  let exit_early :=
    match reset_payload_statuses with
    | ResetPayloadStatuses.OnlyWithInvalidPayload => negb (contains_invalid_payloads proto_array)
    | ResetPayloadStatuses.Always => false
    end in
  if exit_early then Ok proto_array
  else match set_all_blocks_to_optimistic slots_per_epoch spec proto_array with
       | (Ok _, proto_array') => Ok proto_array'
       | (Err _, _) => Ok (from_container persisted_proto_array justified_balances)
       | (Panic, _) => Panic
       | (Diverge, _) => Diverge
       end.
End rules.

Module PersistedForkChoice.
Record t : Type := mk { proto_array : SszContainer.t; queued_attestations : list QueuedAttestation.t }.
End PersistedForkChoice.

Definition to_persisted {T} (f : Fork_choice.t T) : PersistedForkChoice.t :=
  PersistedForkChoice.mk (as_ssz_container (Fork_choice.fc f)) f.(Fork_choice.queued_attestations).

Section restore.
Context {T E : Type} `{!FcStore.ForkChoiceStore T E}.
Context (slots_per_epoch : Z).

(** A second attempt follows a failed search for the head. *)
Definition from_persisted (persisted : PersistedForkChoice.t) (reset_payload_statuses : ResetPayloadStatuses.t)
    (fc_store : T) (spec : ChainSpec.t) : outcome (RulesError.t E) (Fork_choice.t T) :=
  fc ← proto_array_from_persisted slots_per_epoch persisted.(PersistedForkChoice.proto_array)
         (FcStore.justified_balances fc_store) reset_payload_statuses spec;
  let current_slot := FcStore.get_current_slot fc_store in
  let f := Fork_choice.mk fc_store (GloasState.mk fc empty_buffers)
             persisted.(PersistedForkChoice.queued_attestations) ForkchoiceUpdateParameters.initial in
  match get_head slots_per_epoch current_slot spec f with
  | (Ok _, f') => Ok f'
  | (Err _, f') =>
      let '(r, f2) := (on_fc RulesError.ProtoArrayStringError (set_all_blocks_to_optimistic slots_per_epoch spec) ;;
                       get_head slots_per_epoch current_slot spec) f' in
      _ ← r; Ok f2
  | (Panic, _) => Panic
  | (Diverge, _) => Diverge
  end.

(** The execution payload of the anchor block: whether it is the default one,
    and its block hash. *)
Definition anchor_status (payload : option (bool * ExecutionBlockHash)) : ExecutionStatus.t :=
  match payload with
  | None => ExecutionStatus.irrelevant
  | Some (is_default_with_empty_roots, block_hash) =>
      if is_default_with_empty_roots : bool then ExecutionStatus.irrelevant else ExecutionStatus.Valid block_hash
  end.

(** The anchor's node under Gloas counts as revealed with every vote. *)
Definition anchor_node (bid : ExecutionPayloadBid.t) (latest_block_hash : option ExecutionBlockHash)
    (ptc_size : Z) (n : ProtoNode.t) : ProtoNode.t :=
  ProtoNode.mk n.(ProtoNode.slot) n.(ProtoNode.state_root) n.(ProtoNode.target_root)
    n.(ProtoNode.current_epoch_shuffling_id) n.(ProtoNode.next_epoch_shuffling_id) n.(ProtoNode.root)
    n.(ProtoNode.parent) n.(ProtoNode.justified_checkpoint) n.(ProtoNode.finalized_checkpoint)
    n.(ProtoNode.weight) n.(ProtoNode.best_child) n.(ProtoNode.best_descendant) n.(ProtoNode.execution_status)
    n.(ProtoNode.unrealized_justified_checkpoint) n.(ProtoNode.unrealized_finalized_checkpoint)
    (Some bid.(ExecutionPayloadBid.builder_index)) true ptc_size ptc_size true
    (Some (default bid.(ExecutionPayloadBid.block_hash) latest_block_hash))
    (Some bid.(ExecutionPayloadBid.parent_block_hash)) n.(ProtoNode.proposer_index) true true true.

Definition from_anchor (fc_store : T) (anchor_block_root : Hash256) (anchor_block : BeaconBlock.t)
    (anchor_payload : option (bool * ExecutionBlockHash)) (anchor_state : BeaconState.t)
    (latest_block_hash : option ExecutionBlockHash) (current_slot : option Slot) (spec : ChainSpec.t)
    : outcome (RulesError.t E) (Fork_choice.t T) :=
  if negb (anchor_state.(BeaconState.slot) `mod` slots_per_epoch =? 0) then
    Err (RulesError.InvalidAnchor anchor_block.(BeaconBlock.slot) anchor_state.(BeaconState.slot))
  else
    current_id ← map_err RulesError.BeaconStateError
      (attestation_shuffling_id_new slots_per_epoch anchor_block_root anchor_state Current);
    next_id ← map_err RulesError.BeaconStateError
      (attestation_shuffling_id_new slots_per_epoch anchor_block_root anchor_state Next);
    let current_slot := default (FcStore.get_current_slot fc_store) current_slot in
    fc ← map_err RulesError.ProtoArrayStringError
      (new slots_per_epoch current_slot anchor_block.(BeaconBlock.slot) anchor_block.(BeaconBlock.state_root)
         (FcStore.justified_checkpoint fc_store) (FcStore.finalized_checkpoint fc_store)
         current_id next_id (anchor_status anchor_payload));
    let pa := fc.(ForkChoice.proto_array) in
    let pa :=
      match anchor_block.(BeaconBlock.signed_execution_payload_bid), pa.(ProtoArray.indices) !! anchor_block_root with
      | Some bid, Some anchor_idx =>
          ProtoArray.alter_node (anchor_node bid latest_block_hash spec.(ChainSpec.ptc_size)) anchor_idx pa
      | _, _ => pa
      end in
    let f := Fork_choice.mk fc_store (GloasState.mk (ForkChoice.set_proto_array pa fc) empty_buffers) []
               ForkchoiceUpdateParameters.initial in
    let '(r, f') := get_head slots_per_epoch current_slot spec f in
    _ ← r; Ok f'.
End restore.
