(* ===== verification/FcStoreCorrect.v ===== *)
(** * The fork choice store and the time rules

    The implementation of the store keeps the laws of its interface; what a
    tick and an update of the time do to any store with these laws. *)
From S2P Require Import Prelude SlotEpoch ProtoArrayDefs ForkChoiceDefs ForkChoiceOps GloasDefs ForkSchedule.
From S2P Require Import BeaconStateDefs JustificationDefs FcStoreDefs ForkChoiceRules.

(** ** The implementation keeps the laws *)
Lemma safe_add_returns a b : returns (safe_add a b).
Proof. unfold safe_add. by destruct (u64_checked_add a b). Qed.
Lemma returns_map_err {E E' A} (f : E → E') (o : outcome E A) : returns o → returns (map_err f o).
Proof. by destruct o. Qed.
Lemma returns_bind {E A B} (o : outcome E A) (k : A → outcome E B) :
  returns o → (∀ a, returns (k a)) → returns (o ≫= k).
Proof. destruct o; simpl; auto. Qed.
Lemma returns_ok_or {E A} (o : option A) (e : E) : returns (ok_or o e).
Proof. by destruct o. Qed.

Lemma sum_balances_returns {A} (f : A → option Z) l total num : returns (sum_balances f l total num).
Proof.
  revert total num. induction l as [|x l IH]; intros total num; [done|]. simpl.
  destruct (f x); [|done]. repeat (apply returns_bind; [apply safe_add_returns|intros ?]). apply IH.
Qed.
Lemma balances_of_state_returns spe s : returns (balances_of_state spe s).
Proof.
  unfold balances_of_state, from_justified_state. apply returns_bind; [apply sum_balances_returns|]. by intros [].
Qed.
Lemma get_block_root_returns s slot : returns (get_block_root s slot).
Proof.
  unfold get_block_root, latest_roots_index. apply returns_bind; [|intros; apply returns_ok_or].
  case_match; [|done]. apply returns_bind; [apply returns_map_err, safe_add_returns|]. intros. case_match; [|done].
  apply returns_bind; [|done]. apply returns_map_err. unfold safe_rem. apply returns_ok_or.
Qed.

Lemma process_state_answers spe root s : answers (BalancesCache.process_state spe root s).
Proof.
  unfold BalancesCache.process_state. apply answers_bind.
  { case_match; [apply answers_ret|]. apply answers_lift, returns_map_err, get_block_root_returns. }
  intros r. apply answers_bind; [apply answers_get|]. intros items. case_match; [apply answers_ret|].
  apply answers_bind; [|intros; apply answers_modify].
  apply answers_lift, returns_map_err, balances_of_state_returns.
Qed.

Lemma from_effective_balances_returns l : returns (from_effective_balances l).
Proof. unfold from_effective_balances. apply returns_bind; [apply sum_balances_returns|]. by intros []. Qed.

Section beacon.
Context (spe : Z) (get_hot_state : Hash256 → option (option BeaconState.t)).
#[local] Existing Instance BeaconStore.

Lemma store_set_justified_answers c r : answers (store_set_justified_checkpoint spe get_hot_state c r).
Proof.
  unfold store_set_justified_checkpoint. apply answers_bind; [apply answers_modify|]. intros _.
  apply answers_bind; [apply answers_get|]. intros s. case_match.
  - apply answers_bind; [|intros; apply answers_modify].
    apply answers_lift, returns_map_err, from_effective_balances_returns.
  - apply answers_bind; [|intros state; apply answers_bind; [|intros; apply answers_modify]].
    + apply answers_lift. unfold read_state. apply returns_bind; [apply returns_ok_or|]. intros; apply returns_ok_or.
    + apply answers_lift, returns_map_err, balances_of_state_returns.
Qed.

Lemma store_set_justified_view c r x (x' := (store_set_justified_checkpoint spe get_hot_state c r x).2) :
  ∃ b, x' = BeaconForkChoiceStore.set_balances b (BeaconForkChoiceStore.set_justified c r x).
Proof.
  subst x'. unfold store_set_justified_checkpoint, mbind, M_bind, modify, get, lift.
  set (y := BeaconForkChoiceStore.set_justified c r x).
  assert (y = BeaconForkChoiceStore.set_balances (BeaconForkChoiceStore.justified_balances y) y) as Hy by done.
  destruct (BalancesCache.get _ _ _) as [l|].
  - destruct (from_effective_balances l); simpl; eauto.
  - destruct (read_state _ r) as [s| | |]; simpl; eauto. destruct (balances_of_state spe s); simpl; eauto.
Qed.

#[export] Instance BeaconStore_laws : FcStore.Laws BeaconForkChoiceStore.t FcStoreError.t
  (H := BeaconStore spe get_hot_state).
Proof.
  split; try done.
  - intros c r x. simpl. destruct (store_set_justified_view c r x) as [b ->]. done.
  - intros r s x. simpl. unfold store_on_verified_block, zoom. by destruct (BalancesCache.process_state _ _ _ _).
  - intros c r. apply store_set_justified_answers.
  - intros r s. apply answers_zoom. apply process_state_answers.
  - intros r s x. simpl. unfold store_on_verified_block, zoom. by destruct (BalancesCache.process_state _ _ _ _).
Qed.
End beacon.

(** ** Checkpoints and time *)
Abbreviation epoch_of c := (Checkpoint.epoch c).

(** Nothing goes back. *)
Definition view_le (v v' : FcStore.View) : Prop :=
  v.(FcStore.v_time) ≤ v'.(FcStore.v_time) ∧
  epoch_of v.(FcStore.v_justified) ≤ epoch_of v'.(FcStore.v_justified) ∧
  epoch_of v.(FcStore.v_finalized) ≤ epoch_of v'.(FcStore.v_finalized) ∧
  epoch_of v.(FcStore.v_unrealized_justified) ≤ epoch_of v'.(FcStore.v_unrealized_justified) ∧
  epoch_of v.(FcStore.v_unrealized_finalized) ≤ epoch_of v'.(FcStore.v_unrealized_finalized) ∧
  v.(FcStore.v_equivocating) ⊆ v'.(FcStore.v_equivocating).

#[export] Instance view_le_preorder : PreOrder view_le.
Proof.
  split.
  - intros v. unfold view_le. repeat split; lia || done.
  - intros u v w (? & ? & ? & ? & ? & ?) (? & ? & ? & ? & ? & ?). unfold view_le. repeat split; try lia. set_solver.
Qed.

Lemma view_le_refl v : view_le v v.
Proof. reflexivity. Qed.

Lemma set_justified_le j r v : epoch_of v.(FcStore.v_justified) ≤ epoch_of j → view_le v (FcStore.set_justified j r v).
Proof. unfold view_le. simpl. repeat split; lia || done. Qed.

Section rules.
Context {T E : Type} `{FcStore.Laws T E}.
Context (spe : Z) (Hspe : 0 < spe).

Abbreviation V f := (FcStore.view (Fork_choice.fc_store f)).

(** Only the store differs. *)
Definition same_rest (f f' : Fork_choice.t T) : Prop :=
  f'.(Fork_choice.proto_array) = f.(Fork_choice.proto_array) ∧
  f'.(Fork_choice.queued_attestations) = f.(Fork_choice.queued_attestations) ∧
  f'.(Fork_choice.forkchoice_update_parameters) = f.(Fork_choice.forkchoice_update_parameters).
Lemma same_rest_refl f : same_rest f f.
Proof. done. Qed.
Lemma same_rest_trans f g h : same_rest f g → same_rest g h → same_rest f h.
Proof. unfold same_rest. intros (-> & -> & ->). done. Qed.
Lemma same_rest_set_store f x : same_rest f (Fork_choice.set_store x f).
Proof. done. Qed.

(** The later of two checkpoints replaces the earlier. *)
Definition pull_view (j : Checkpoint.t) (r : Hash256) (fin : Checkpoint.t) (v : FcStore.View) : FcStore.View :=
  let v := if epoch_of v.(FcStore.v_justified) <? epoch_of j then FcStore.set_justified j r v else v in
  if epoch_of v.(FcStore.v_finalized) <? epoch_of fin then FcStore.set_finalized fin v else v.

Lemma pull_view_root j r1 r2 fin v :
  (epoch_of v.(FcStore.v_justified) < epoch_of j → r1 = r2) → pull_view j r1 fin v = pull_view j r2 fin v.
Proof.
  intros Hr. unfold pull_view. destruct (Z.ltb_spec (epoch_of v.(FcStore.v_justified)) (epoch_of j)); [|done].
  by rewrite Hr.
Qed.

Lemma modify_store_run g (f : Fork_choice.t T) :
  modify_store (E:=E) g f = (Ok tt, Fork_choice.set_store (g f.(Fork_choice.fc_store)) f).
Proof. done. Qed.

Lemma when_modify_store_run b g (f : Fork_choice.t T) r f' :
  when b (modify_store (E:=E) g) f = (r, f') →
  r = Ok tt ∧ f' = if b then Fork_choice.set_store (g f.(Fork_choice.fc_store)) f else f.
Proof. destruct b; intros [= <- <-]; done. Qed.

(** The first half: the justified checkpoint. *)
Lemma update_justified_run j o f r f' :
  when (epoch_of (V f).(FcStore.v_justified) <? epoch_of j)
    (root ← lift o; on_store RulesError.UnableToSetJustifiedCheckpoint
       (FcStore.set_justified_checkpoint j root)) f = (r, f') → returns o →
  returns r ∧ same_rest f f' ∧
  (V f' = V f ∧ (∀ u, r = Ok u → epoch_of j ≤ epoch_of (V f).(FcStore.v_justified)) ∨
   epoch_of (V f).(FcStore.v_justified) < epoch_of j ∧
   ∃ root, o = Ok root ∧ V f' = FcStore.set_justified j root (V f)).
Proof.
  destruct (Z.ltb_spec (epoch_of (V f).(FcStore.v_justified)) (epoch_of j)) as [Hlt|Hge]; simpl.
  2:{ intros [= <- <-] _. split; [done|]. split; [done|]. by left. }
  destruct o as [root|e| |]; intros Hrun Ho; try done.
  2:{ injection Hrun as <- <-. split; [done|]. split; [done|]. left. split; [done|]. by intros []. }
  erewrite bind_ok_eq in Hrun by reflexivity. unfold on_store in Hrun.
  pose proof (FcStore.set_justified_answers j root (Fork_choice.fc_store f)) as Hans.
  pose proof (FcStore.view_set_justified j root (Fork_choice.fc_store f)) as Hview.
  destruct (FcStore.set_justified_checkpoint j root (Fork_choice.fc_store f)) as [q s].
  injection Hrun as <- <-. split; [by destruct q|]. split; [done|]. right. split; [done|]. by exists root.
Qed.

Lemma update_checkpoints_run j fin o f r f' :
  update_checkpoints (E:=E) j fin o f = (r, f') → returns o →
  returns r ∧ same_rest f f' ∧
  ((∃ root, (epoch_of (V f).(FcStore.v_justified) < epoch_of j → o = Ok root) ∧ r = Ok tt ∧
      V f' = pull_view j root fin (V f)) ∨
   (∃ e, r = Err e) ∧
   (V f' = V f ∨
    epoch_of (V f).(FcStore.v_justified) < epoch_of j ∧ ∃ root, V f' = FcStore.set_justified j root (V f))).
Proof.
  intros Hrun Ho. unfold update_checkpoints in Hrun. erewrite bind_ok_eq in Hrun by reflexivity.
  apply bind_run in Hrun as [([] & f1 & H1 & Hrun)|[(e & H1 & ->)|(_ & Hn & _)]].
  - apply update_justified_run in H1 as (_ & Hrest & Hv); [|done].
    erewrite bind_ok_eq in Hrun by reflexivity. apply when_modify_store_run in Hrun as [-> ->].
    split; [done|]. split; [eapply same_rest_trans; [done|]; by case_match|]. left. unfold pull_view.
    destruct Hv as [[Hv Hge]|(Hlt & root & -> & Hv)].
    + exists 0. specialize (Hge _ eq_refl). split; [lia|]. split; [done|].
      replace (_ <? epoch_of j) with false by lia.
      change (FcStore.finalized_checkpoint (Fork_choice.fc_store f1)) with (V f1).(FcStore.v_finalized).
      rewrite Hv. case_match; simpl; [by rewrite FcStore.view_set_finalized, Hv|done].
    + exists root. split; [done|]. split; [done|]. apply Z.ltb_lt in Hlt. rewrite Hlt.
      change (FcStore.finalized_checkpoint (Fork_choice.fc_store f1)) with (V f1).(FcStore.v_finalized).
      rewrite Hv. case_match; simpl; [by rewrite FcStore.view_set_finalized, Hv|done].
  - apply update_justified_run in H1 as (_ & Hrest & Hv); [|done]. split; [done|]. split; [done|].
    right. split; [by eexists|]. destruct Hv as [[Hv _]|(Hlt & root & _ & Hv)]; [by left|]. right. eauto.
  - destruct (when _ _ f) as [q f1] eqn:H1. apply update_justified_run in H1 as (? & _); [|done]. done.
Qed.

(** ** Ticks *)
Lemma slots_since_epoch_start_zero t : is_u64 t →
  (compute_slots_since_epoch_start spe t =? 0) = (t `mod` spe =? 0).
Proof using Hspe.
  intros Ht. unfold compute_slots_since_epoch_start, se_sub, start_slot, epoch.
  pose proof (Z.div_mod t spe ltac:(lia)). pose proof (Z.mod_pos_bound t spe Hspe).
  unfold is_u64 in Ht. assert (0 ≤ t / spe) by (apply Z.div_pos; lia).
  rewrite (u64_saturating_mul_eq (t / spe) spe) by (unfold is_u64; nia).
  rewrite u64_saturating_sub_eq by (unfold is_u64; nia).
  replace (t - t / spe * spe) with (t `mod` spe) by lia. done.
Qed.

(** The checkpoints of a new epoch. *)
Definition epoch_view (v : FcStore.View) : FcStore.View :=
  pull_view v.(FcStore.v_unrealized_justified) v.(FcStore.v_unrealized_justified_root)
    v.(FcStore.v_unrealized_finalized) v.
Definition next_slot_view (v : FcStore.View) : FcStore.View :=
  let t := v.(FcStore.v_time) + 1 in
  let v := FcStore.set_boost hash_zero (FcStore.set_time t v) in
  if t `mod` spe =? 0 then epoch_view v else v.

Lemma on_tick_run f r f' :
  let t := (V f).(FcStore.v_time) + 1 in
  is_u64 t → on_tick (E:=E) spe t f = (r, f') →
  returns r ∧ same_rest f f' ∧
  ((r = Ok tt ∧ V f' = next_slot_view (V f)) ∨
   (∃ e, r = Err e) ∧
   (V f' = FcStore.set_boost hash_zero (FcStore.set_time t (V f)) ∨
    ∃ root, V f' = FcStore.set_justified (V f).(FcStore.v_unrealized_justified) root
                     (FcStore.set_boost hash_zero (FcStore.set_time t (V f))) ∧
      epoch_of (V f).(FcStore.v_justified) < epoch_of (V f).(FcStore.v_unrealized_justified))).
Proof using Hspe H0.
  intros t Ht Hrun. unfold on_tick in Hrun. erewrite bind_ok_eq in Hrun by reflexivity. cbv zeta in Hrun.
  change (FcStore.get_current_slot (Fork_choice.fc_store f)) with (V f).(FcStore.v_time) in Hrun.
  assert (se_add (V f).(FcStore.v_time) 1 = t) as Hadd by (unfold se_add; by apply u64_saturating_add_eq).
  rewrite Hadd, Z.ltb_irrefl in Hrun.
  erewrite bind_ok_eq in Hrun by (apply modify_store_run). erewrite bind_ok_eq in Hrun by reflexivity. cbv zeta in Hrun.
  set (f1 := Fork_choice.set_store _ f) in Hrun.
  assert (V f1 = FcStore.set_time t (V f)) as Hv1 by (apply FcStore.view_set_current_slot).
  change (FcStore.get_current_slot (Fork_choice.fc_store f1)) with (V f1).(FcStore.v_time) in Hrun.
  rewrite Hv1 in Hrun. change (FcStore.v_time (FcStore.set_time t (V f))) with t in Hrun.
  replace (FcStore.v_time (V f) <? t) with true in Hrun by (symmetry; apply Z.ltb_lt; unfold t; lia). simpl when in Hrun.
  erewrite bind_ok_eq in Hrun by (apply modify_store_run).
  set (f2 := Fork_choice.set_store _ f1) in Hrun.
  assert (V f2 = FcStore.set_boost hash_zero (FcStore.set_time t (V f))) as Hv2.
  { rewrite <-Hv1. apply FcStore.view_set_boost. }
  rewrite slots_since_epoch_start_zero in Hrun by done. unfold next_slot_view. fold t.
  simpl negb in Hrun. destruct (t `mod` spe =? 0) eqn:Hm; simpl in Hrun.
  2:{ injection Hrun as <- <-. split; [done|]. split; [done|]. left. split; [done|]. by rewrite Hv2. }
  erewrite bind_ok_eq in Hrun by reflexivity. cbv zeta in Hrun.
  apply update_checkpoints_run in Hrun as (Hret & Hrest & Hv); [|done]. split; [done|].
  split; [eapply same_rest_trans; [|done]; done|].
  destruct Hv as [(root & Hroot & -> & Hv)|[He Hv]].
  - left. split; [done|]. rewrite Hv. unfold epoch_view. rewrite <-Hv2.
    apply pull_view_root. intros Hlt. specialize (Hroot Hlt). by injection Hroot.
  - right. split; [done|]. rewrite Hv2 in Hv. destruct Hv as [Hv|[Hlt [root Hv]]]; [by left|]. right.
    change (FcStore.unrealized_justified_checkpoint (Fork_choice.fc_store f2))
      with (V f2).(FcStore.v_unrealized_justified) in *. rewrite Hv2 in *. eauto.
Qed.

Lemma pull_view_le j r fin v : view_le v (pull_view j r fin v).
Proof using Type. unfold pull_view, view_le. repeat case_match; simpl in *; repeat split; lia || done. Qed.

Lemma next_slot_view_le v : view_le v (next_slot_view v).
Proof using Type.
  unfold next_slot_view. transitivity (FcStore.set_boost hash_zero (FcStore.set_time (FcStore.v_time v + 1) v)).
  - unfold view_le. simpl. repeat split; lia || done.
  - case_match; [apply pull_view_le|reflexivity].
Qed.

Lemma iter_next_slot_le n v : view_le v (Nat.iter n next_slot_view v).
Proof using Type. induction n as [|n IH]; [reflexivity|]. simpl. etransitivity; [exact IH|]. apply next_slot_view_le. Qed.

Lemma on_tick_le f r f' :
  let t := (V f).(FcStore.v_time) + 1 in
  is_u64 t → on_tick (E:=E) spe t f = (r, f') → view_le (V f) (V f').
Proof using Hspe H0.
  intros t Ht Hrun. apply on_tick_run in Hrun as (_ & _ & Hv); [|done].
  assert (view_le (V f) (FcStore.set_boost hash_zero (FcStore.set_time t (V f)))) as Hle.
  { subst t. unfold view_le. generalize (V f). intros v. simpl. repeat split; lia || done. }
  destruct Hv as [[_ ->]|[_ [->|(root & -> & Hlt)]]]; [apply next_slot_view_le|done|].
  etransitivity; [exact Hle|]. apply set_justified_le. generalize dependent (V f). intros v. simpl. lia.
Qed.

(** ** The loop of ticks *)
Lemma next_slot_time v : (next_slot_view v).(FcStore.v_time) = v.(FcStore.v_time) + 1.
Proof using Type. unfold next_slot_view, epoch_view, pull_view. repeat case_match; done. Qed.
Lemma iter_next_slot_time n v : (Nat.iter n next_slot_view v).(FcStore.v_time) = v.(FcStore.v_time) + Z.of_nat n.
Proof using Type. induction n as [|n IH]; simpl; [lia|]. rewrite next_slot_time, IH. lia. Qed.

Lemma tick_loop_run n t f r f' :
  is_u64 t → 0 ≤ (V f).(FcStore.v_time) → n = Z.to_nat (t - (V f).(FcStore.v_time)) →
  tick_loop (E:=E) spe n t f = (r, f') →
  returns r ∧ same_rest f f' ∧
  ((r = Ok tt ∧ V f' = Nat.iter n next_slot_view (V f)) ∨ (∃ e, r = Err e) ∧ view_le (V f) (V f')).
Proof using Hspe H0.
  intros Ht. revert f. induction n as [|n IH]; intros f Hf Hn Hrun; simpl in Hrun;
    erewrite bind_ok_eq in Hrun by reflexivity; cbv zeta in Hrun;
    change (FcStore.get_current_slot (Fork_choice.fc_store f)) with (V f).(FcStore.v_time) in Hrun.
  - replace (FcStore.v_time (V f) <? t) with false in Hrun by (symmetry; apply Z.ltb_ge; lia).
    injection Hrun as <- <-. split; [done|]. split; [done|]. by left.
  - replace (FcStore.v_time (V f) <? t) with true in Hrun by (symmetry; apply Z.ltb_lt; lia).
    assert (is_u64 (FcStore.v_time (V f) + 1)) as Hu by (unfold is_u64 in *; lia).
    unfold se_add in Hrun. rewrite u64_saturating_add_eq in Hrun by done.
    apply bind_run in Hrun as [([] & f1 & H1 & Hrun)|[(e & H1 & ->)|(_ & Hn1 & _)]].
    + pose proof H1 as Hle. apply on_tick_le in Hle; [|done].
      apply on_tick_run in H1 as (_ & Hrest & Hv); [|done].
      destruct Hv as [[_ Hv]|[[e He] _]]; [|discriminate].
      pose proof (next_slot_time (V f)) as Ht1. rewrite <-Hv in Ht1.
      apply IH in Hrun as (Hret & Hrest' & Hv'); [|lia|lia]. split; [done|]. split; [by eapply same_rest_trans|].
      destruct Hv' as [[-> Hv']|[He Hv']]; [left|right].
      * split; [done|]. rewrite Hv', Hv, Nat.iter_succ_r. done.
      * split; [done|]. by transitivity (V f1).
    + pose proof H1 as Hle. apply on_tick_le in Hle; [|done]. apply on_tick_run in H1 as (_ & Hrest & _); [|done].
      split; [done|]. split; [done|]. right. eauto.
    + destruct (on_tick spe _ f) as [q f1] eqn:H1. apply on_tick_run in H1 as (? & _); [|done]. done.
Qed.

(** Any number of ticks at once. *)
Definition time_view (t : Slot) (v : FcStore.View) : FcStore.View :=
  if t <=? v.(FcStore.v_time) then v
  else FcStore.set_boost hash_zero (FcStore.set_time t
         (if v.(FcStore.v_time) / spe <? t / spe then epoch_view v else v)).

Lemma epoch_view_idem v : epoch_view (epoch_view v) = epoch_view v.
Proof using Type.
  unfold epoch_view, pull_view.
  destruct (Z.ltb_spec (epoch_of v.(FcStore.v_justified)) (epoch_of v.(FcStore.v_unrealized_justified)));
  destruct (Z.ltb_spec (epoch_of v.(FcStore.v_finalized)) (epoch_of v.(FcStore.v_unrealized_finalized)));
  simpl; repeat (case_match; simpl in *); try done; lia.
Qed.
Lemma epoch_view_set_time t v :
  epoch_view (FcStore.set_boost hash_zero (FcStore.set_time t v)) =
  FcStore.set_boost hash_zero (FcStore.set_time t (epoch_view v)).
Proof using Type. unfold epoch_view, pull_view. simpl. repeat (case_match; simpl in *); done. Qed.

Lemma iter_next_slot n v : 0 ≤ v.(FcStore.v_time) →
  Nat.iter n next_slot_view v = time_view (v.(FcStore.v_time) + Z.of_nat n) v.
Proof using Hspe.
  intros Hv. remember v.(FcStore.v_time) as a eqn:Ha. induction n as [|n IH].
  { unfold time_view. rewrite <-?Ha. replace (a + Z.of_nat 0 <=? a) with true by (symmetry; apply Z.leb_le; lia). done. }
  pose proof (iter_next_slot_time n v) as Ht. rewrite <-Ha, IH in Ht.
  simpl Nat.iter. rewrite IH. unfold next_slot_view. rewrite Ht. unfold time_view. rewrite <-?Ha.
  replace (a + Z.of_nat (S n) <=? a) with false by (symmetry; apply Z.leb_gt; lia).
  replace (a + Z.of_nat n + 1) with (a + Z.of_nat (S n)) by lia.
  assert ((a / spe <? (a + Z.of_nat (S n)) / spe) =
          (a / spe <? (a + Z.of_nat n) / spe) || ((a + Z.of_nat (S n)) `mod` spe =? 0)) as Hcross.
  { clear -Hspe Hv. apply eq_bool_prop_intro. rewrite orb_True, !Is_true_true, !Z.ltb_lt, Z.eqb_eq.
    Z.to_euclidean_division_equations; nia. }
  destruct (Z.leb_spec (a + Z.of_nat n) a) as [Hn|Hn].
  - assert (n = 0%nat) as -> by lia. rewrite Hcross. replace (a + Z.of_nat 0) with a by lia.
    rewrite Z.ltb_irrefl. simpl orb. case_match; [apply epoch_view_set_time|done].
  - rewrite Hcross. set (b := a / spe <? _). set (c := _ `mod` spe =? 0).
    destruct c; rewrite ?orb_true_r, ?orb_false_r; [|by destruct b].
    rewrite epoch_view_set_time. destruct b; [|by rewrite epoch_view_set_time].
    rewrite epoch_view_set_time, epoch_view_idem. done.
Qed.
End rules.
