(* ===== verification/StoreSteps.v ===== *)
(** * Fork choice events

    The handlers of the fork choice rules as one step function over events, and
    an abstract step relation on what the store's getters return.  Every handler
    refines it, whatever its outcome, so the invariants of the store are
    invariants of the relation. *)
From S2P Require Import Prelude SlotEpoch ProtoArrayDefs ForkChoiceDefs ForkChoiceOps GloasDefs ForkSchedule.
From S2P Require Import BeaconStateDefs JustificationDefs FcStoreDefs ForkChoiceRules FcStoreCorrect.

(** What the rest of the client asks of the fork choice.  A [now] is the slot of
    the system clock. *)
Inductive event : Type :=
  | OnTime (now : Slot)
  | OnHead (now : Slot) (spec : ChainSpec.t)
  | OnBlock (now : Slot) (block : BeaconBlock.t) (block_root : Hash256) (block_delay : Z) (state : BeaconState.t)
      (status : PayloadVerificationStatus.t) (expected_proposer : option Z) (spec : ChainSpec.t)
      (timing : TimingSpec.t)
  | OnAttestation (now : Slot) (a : IndexedAttestation.t) (is_from_block : bool)
  | OnAttesterSlashing (indices_1 indices_2 : list nat)
  | OnExecutionBid (bid : ExecutionPayloadBid.t) (block_root : Hash256)
  | OnPayloadAttestation (data : PayloadAttestationData.t) (indices : list nat) (current_slot : Slot)
      (spec : ChainSpec.t)
  | OnExecutionPayload (block_root : Hash256) (block_hash : ExecutionBlockHash) (inclusion_list_satisfied : bool)
  | OnValidPayload (block_root : Hash256)
  | OnInvalidPayload (op : InvalidationOperation.t)
  | OnPrune.

Definition clock (ev : event) : option Slot :=
  match ev with
  | OnTime now | OnHead now _ | OnBlock now _ _ _ _ _ _ _ _ | OnAttestation now _ _ => Some now
  | _ => None
  end.
Definition clock_ok (ev : event) : Prop := ∀ now, clock ev = Some now → is_u64 now.

(** The conditions on a block that gets the proposer boost. *)
Definition is_timely (spe : Z) (ev : event) (slot : Slot) (root : Hash256) : Prop :=
  match ev with
  | OnBlock _ block block_root delay _ _ expected spec timing =>
      root = block_root ∧ slot = block.(BeaconBlock.slot) ∧
      delay ≤ from_millis (get_attestation_due_ms spec timing (epoch slot spe)) ∧
      ∀ p, expected = Some p → block.(BeaconBlock.proposer_index) = p
  | _ => False
  end.


(** ** The abstract steps *)
Inductive store_step (spe : Z) (ev : event) : FcStore.View → FcStore.View → Prop :=
  | step_tick v now : clock ev = Some now → v.(FcStore.v_time) < now →
      store_step spe ev v (FcStore.set_boost hash_zero (FcStore.set_time (v.(FcStore.v_time) + 1) v))
  | step_justified v c r : epoch_of v.(FcStore.v_justified) < epoch_of c →
      store_step spe ev v (FcStore.set_justified c r v)
  | step_finalized v c : epoch_of v.(FcStore.v_finalized) < epoch_of c →
      store_step spe ev v (FcStore.set_finalized c v)
  | step_unrealized_justified v c r : epoch_of v.(FcStore.v_unrealized_justified) < epoch_of c →
      store_step spe ev v (FcStore.set_unrealized_justified c r v)
  | step_unrealized_finalized v c : epoch_of v.(FcStore.v_unrealized_finalized) < epoch_of c →
      store_step spe ev v (FcStore.set_unrealized_finalized c v)
  | step_boost v root : v.(FcStore.v_boost) = hash_zero → is_timely spe ev v.(FcStore.v_time) root →
      store_step spe ev v (FcStore.set_boost root v)
  | step_equivocating v l :
      store_step spe ev v (FcStore.set_equivocating (v.(FcStore.v_equivocating) ∪ l) v).

Section rules.
Context {T E : Type} `{!FcStore.ForkChoiceStore T E} `{!FcStore.Laws T E}.
Context (spe : Z) (validator_statuses : BeaconState.t → outcome BeaconStateError.t TotalBalances.t).
Abbreviation FM := (M (Fork_choice.t T) (RulesError.t E)).
Abbreviation V f := (FcStore.view (Fork_choice.fc_store f)).

Definition handle (ev : event) : FM unit :=
  match ev with
  | OnTime now => update_time spe now ;; mret tt
  | OnHead now spec => get_head spe now spec ;; mret tt
  | OnBlock now block block_root delay state status expected spec timing =>
      rules_on_block spe validator_statuses now block block_root delay state status expected spec timing
  | OnAttestation now a is_from_block => on_attestation spe now a is_from_block
  | OnAttesterSlashing indices_1 indices_2 => on_attester_slashing indices_1 indices_2
  | OnExecutionBid bid block_root => on_execution_bid bid block_root
  | OnPayloadAttestation data indices current_slot spec => on_payload_attestation spe data indices current_slot spec
  | OnExecutionPayload block_root block_hash il => on_execution_payload block_root block_hash il
  | OnValidPayload block_root => on_valid_execution_payload block_root
  | OnInvalidPayload op => on_invalid_execution_payload spe op
  | OnPrune => prune
  end.

(** The client goes on after an error. *)
Definition run (es : list event) (f : Fork_choice.t T) : Fork_choice.t T :=
  fold_left (fun f ev => (handle ev f).2) es f.

Lemma run_snoc es ev f : run (es ++ [ev]) f = (handle ev (run es f)).2.
Proof. unfold run. by rewrite fold_left_app. Qed.
Lemma run_app es1 es2 f : run (es1 ++ es2) f = run es2 (run es1 f).
Proof. apply fold_left_app. Qed.

(** ** Handlers that leave the store alone *)
Section frame.
Context (P : T → Prop).
Abbreviation on_P := (fun f : Fork_choice.t T => P f.(Fork_choice.fc_store)).

Lemma keeps_on_fc {A} err (m : M ForkChoice.t FcError.t A) : keeps on_P (on_fc (E:=E) err m).
Proof. intros f Hf. unfold on_fc. by destruct (m _). Qed.
Lemma keeps_on_gloas {A} err (m : M GloasState.t FcError.t A) : keeps on_P (on_gloas (E:=E) err m).
Proof. intros f Hf. unfold on_gloas. by destruct (m _). Qed.
Lemma keeps_alter_tree_node g i : keeps on_P (alter_tree_node (E:=E) g i).
Proof. by apply keeps_modify. Qed.
Lemma keeps_apply_votes l r e s i : keeps on_P (apply_votes (E:=E) l r e s i).
Proof. apply keeps_for_each. intros x _. apply keeps_on_fc. Qed.
Lemma keeps_attestation_queue : keeps on_P (process_attestation_queue (E:=E)).
Proof.
  unfold process_attestation_queue. keeps_steps; [by apply keeps_modify|].
  apply keeps_for_each. intros x _. apply keeps_apply_votes.
Qed.
Lemma keeps_node_index r e : keeps on_P (node_index (E:=E) r e).
Proof. unfold node_index. keeps_steps. Qed.
Lemma keeps_state_err {A} (o : outcome BeaconStateError.t A) : keeps on_P (state_err (E:=E) o).
Proof. apply keeps_lift. Qed.
End frame.
End rules.
#[export] Hint Resolve keeps_on_fc keeps_on_gloas keeps_alter_tree_node keeps_apply_votes keeps_attestation_queue
  keeps_node_index keeps_state_err : keeps.

(** ** The steps only move forward *)
Lemma store_step_le spe ev v v' : store_step spe ev v v' → view_le v v'.
Proof. destruct 1; unfold view_le; simpl; repeat split; lia || set_solver. Qed.
Lemma store_steps_le spe ev v v' : rtc (store_step spe ev) v v' → view_le v v'.
Proof. induction 1 as [|u v w Hs _ IH]; [apply view_le_refl|]. etransitivity; [by eapply store_step_le|done]. Qed.

Section refinement.
Context {T E : Type} `{!FcStore.ForkChoiceStore T E} `{!FcStore.Laws T E}.
Context (spe : Z) (validator_statuses : BeaconState.t → outcome BeaconStateError.t TotalBalances.t).
Context (ev : event) (Hclock : clock_ok ev) (v0 : FcStore.View) (Hv0 : 0 ≤ v0.(FcStore.v_time)).
Abbreviation V f := (FcStore.view (Fork_choice.fc_store f)).
Abbreviation steps := (rtc (store_step spe ev)).

Definition stepped (x : T) : Prop := steps v0 (FcStore.view x).
Abbreviation on_stepped := (fun f : Fork_choice.t T => stepped f.(Fork_choice.fc_store)).

Lemma stepped_time x : stepped x → 0 ≤ (FcStore.view x).(FcStore.v_time).
Proof using Hv0. intros Hx. apply store_steps_le in Hx as [? _]. lia. Qed.

Lemma stepped_step x x' : stepped x → store_step spe ev (FcStore.view x) (FcStore.view x') → stepped x'.
Proof. unfold stepped. intros Hx Hs. by eapply rtc_r. Qed.

Lemma keeps_update_checkpoints j fin o : keeps on_stepped (update_checkpoints (E:=E) j fin o).
Proof using H0.
  unfold update_checkpoints. apply keeps_get_bind. intros f Hf. apply (keeps_from on_stepped).
  - destruct (Z.ltb_spec (epoch_of (V f).(FcStore.v_justified)) (epoch_of j)) as [Hlt|Hge]; simpl in *;
      [|by rewrite (proj2 (Z.ltb_ge _ _) Hge)]. rewrite (proj2 (Z.ltb_lt _ _) Hlt).
    destruct o as [root|e| |]; [|done..]. simpl. erewrite bind_ok_eq by reflexivity. unfold on_store.
    pose proof (FcStore.view_set_justified j root (Fork_choice.fc_store f)) as Hview.
    destruct (FcStore.set_justified_checkpoint j root (Fork_choice.fc_store f)) as [q x]. simpl in *.
    eapply stepped_step; [exact Hf|]. rewrite Hview. by constructor.
  - intros _. apply keeps_get_bind. intros f1 Hf1.
    destruct (Z.ltb_spec (epoch_of (V f1).(FcStore.v_finalized)) (epoch_of fin)) as [Hlt|Hge]; simpl in *;
      [|by rewrite (proj2 (Z.ltb_ge _ _) Hge)]. rewrite (proj2 (Z.ltb_lt _ _) Hlt). simpl.
    eapply stepped_step; [exact Hf1|]. rewrite FcStore.view_set_finalized. by constructor.
Qed.

Lemma stepped_tick f now : clock ev = Some now → stepped f.(Fork_choice.fc_store) →
  (V f).(FcStore.v_time) < now → stepped (on_tick (E:=E) spe (se_add (V f).(FcStore.v_time) 1) f).2.(Fork_choice.fc_store).
Proof using H0 Hclock Hv0.
  intros Hnow Hf Hlt. pose proof (Hclock _ Hnow) as Hu. pose proof (stepped_time _ Hf) as Hnn.
  assert (se_add (V f).(FcStore.v_time) 1 = (V f).(FcStore.v_time) + 1) as Hadd.
  { unfold se_add. apply u64_saturating_add_eq. unfold is_u64 in *. lia. }
  unfold on_tick. erewrite bind_ok_eq by reflexivity. cbv zeta.
  change (FcStore.get_current_slot (Fork_choice.fc_store f)) with (V f).(FcStore.v_time).
  rewrite Hadd, Z.ltb_irrefl. erewrite bind_ok_eq by (apply modify_store_run).
  erewrite bind_ok_eq by reflexivity. cbv zeta. set (f1 := Fork_choice.set_store _ f).
  assert (V f1 = FcStore.set_time ((V f).(FcStore.v_time) + 1) (V f)) as Hv1 by (apply FcStore.view_set_current_slot).
  change (FcStore.get_current_slot (Fork_choice.fc_store f1)) with (V f1).(FcStore.v_time). rewrite Hv1.
  change (FcStore.v_time (FcStore.set_time ?t _)) with t.
  rewrite (proj2 (Z.ltb_lt _ _)) by lia. simpl when. apply (keeps_from on_stepped).
  - change (stepped (FcStore.set_proposer_boost_root hash_zero (Fork_choice.fc_store f1))).
    eapply stepped_step; [exact Hf|]. rewrite FcStore.view_set_boost, Hv1. by econstructor.
  - intros _. destruct (negb _); [apply keeps_ret|]. apply keeps_get_bind. intros f2 Hf2.
    by apply keeps_update_checkpoints.
Qed.

Lemma keeps_tick_loop now fuel : clock ev = Some now → keeps on_stepped (tick_loop (E:=E) spe fuel now).
Proof using H0 Hclock Hv0.
  intros Hnow. induction fuel as [|fuel IH]; simpl; apply keeps_get_bind; intros f Hf; cbv zeta;
    change (FcStore.get_current_slot (Fork_choice.fc_store f)) with (V f).(FcStore.v_time);
    destruct (Z.ltb_spec (V f).(FcStore.v_time) now); [done|done| |done].
  apply (keeps_from on_stepped); [by apply (stepped_tick f now)|by intros []].
Qed.

Lemma keeps_update_time now : clock ev = Some now → keeps on_stepped (update_time (E:=E) spe now).
Proof using H0 Hclock Hv0.
  intros Hnow. unfold update_time. apply keeps_get_bind. intros f Hf. apply (keeps_from on_stepped).
  - by apply (keeps_tick_loop now).
  - intros _. keeps_steps. 
Qed.

Lemma keeps_get_head now spec : clock ev = Some now → keeps on_stepped (get_head (E:=E) spe now spec).
Proof using H0 Hclock Hv0.
  intros Hnow. unfold get_head. apply keeps_bind; [by apply keeps_update_time|]. intros t. keeps_steps.
  by apply keeps_modify.
Qed.

Lemma keeps_on_attestation now a b : clock ev = Some now → keeps on_stepped (on_attestation (E:=E) spe now a b).
Proof using H0 Hclock Hv0.
  intros Hnow. unfold on_attestation. apply keeps_bind; [by apply keeps_update_time|]. intros t. keeps_steps.
  by apply keeps_modify.
Qed.

(** A block's unrealized checkpoints replace earlier ones. *)
Lemma keeps_block_checkpoints block parent state t :
  keeps on_stepped (update_block_checkpoints (E:=E) spe validator_statuses block parent state t).
Proof using H0.
  unfold update_block_checkpoints. apply keeps_bind; [apply keeps_update_checkpoints|intros _].
  apply keeps_bind; [apply keeps_lift|intros [uj uf]].
  apply keeps_get_bind. intros f Hf. apply (keeps_from on_stepped).
  { destruct (Z.ltb_spec (epoch_of (V f).(FcStore.v_unrealized_justified)) (epoch_of uj)) as [Hlt|Hge]; simpl in *;
      [|by rewrite (proj2 (Z.ltb_ge _ _) Hge)]. rewrite (proj2 (Z.ltb_lt _ _) Hlt).
    destruct (map_err _ _) as [root|e| |]; [|done..].
    eapply stepped_step; [exact Hf|]. simpl. rewrite FcStore.view_set_unrealized_justified. by constructor. }
  intros _. apply keeps_get_bind. clear f Hf. intros f Hf. apply (keeps_from on_stepped).
  { destruct (Z.ltb_spec (epoch_of (V f).(FcStore.v_unrealized_finalized)) (epoch_of uf)) as [Hlt|Hge]; simpl in *;
      [|by rewrite (proj2 (Z.ltb_ge _ _) Hge)]. rewrite (proj2 (Z.ltb_lt _ _) Hlt). simpl.
    eapply stepped_step; [exact Hf|]. simpl. rewrite FcStore.view_set_unrealized_finalized. by constructor. }
  intros _. keeps_steps. apply keeps_update_checkpoints.
Qed.

Lemma keeps_add_block block root delay state status t timing uj uf :
  keeps on_stepped (add_block (E:=E) spe block root delay state status t timing uj uf).
Proof using H0.
  unfold add_block. apply keeps_bind; [by keeps_steps|]. intros target.
  apply keeps_bind; [|intros _; by keeps_steps].
  intros f Hf. unfold on_store.
  pose proof (FcStore.view_on_verified_block root state (Fork_choice.fc_store f)) as Hview.
  destruct (FcStore.on_verified_block root state (Fork_choice.fc_store f)) as [q x]. simpl in *.
  unfold stepped. by rewrite Hview.
Qed.
End refinement.

(** [update_time] returns the time of the store it leaves. *)
Lemma update_time_slot {T E} `{!FcStore.ForkChoiceStore T E} spe now (f f' : Fork_choice.t T) t :
  update_time (E:=E) spe now f = (Ok t, f') → t = (FcStore.view (Fork_choice.fc_store f')).(FcStore.v_time).
Proof.
  unfold update_time. intros H'. erewrite bind_ok_eq in H' by reflexivity.
  apply bind_ok in H' as ([] & f1 & _ & H'). apply bind_ok in H' as ([] & f2 & _ & H').
  by injection H' as <- <-.
Qed.

(** The checks on a block change nothing. *)
Lemma check_block_same {T E} `{!FcStore.ForkChoiceStore T E} spe block t (f : Fork_choice.t T) :
  (check_block (E:=E) spe block t f).2 = f.
Proof.
  enough (keeps (.= f) (check_block (E:=E) spe block t)) as Hk by (by apply Hk).
  unfold check_block. keeps_steps.
Qed.

Section handlers.
Context {T E : Type} `{!FcStore.ForkChoiceStore T E} `{!FcStore.Laws T E}.
Context (spe : Z) (validator_statuses : BeaconState.t → outcome BeaconStateError.t TotalBalances.t).
Abbreviation V f := (FcStore.view (Fork_choice.fc_store f)).

Lemma maybe_boost_run block root delay expected spec timing t f :
  (maybe_boost (E:=E) spe block root delay expected t spec timing f).2 = f ∨
  (V f).(FcStore.v_boost) = hash_zero ∧ t = block.(BeaconBlock.slot) ∧
  delay ≤ from_millis (get_attestation_due_ms spec timing (epoch t spe)) ∧
  (∀ p, expected = Some p → block.(BeaconBlock.proposer_index) = p) ∧
  V (maybe_boost (E:=E) spe block root delay expected t spec timing f).2 = FcStore.set_boost root (V f).
Proof using H0.
  unfold maybe_boost. erewrite bind_ok_eq by reflexivity. cbv zeta.
  match goal with |- context [when ?b _] => destruct b eqn:Hb end; [|by left]. right.
  apply andb_prop in Hb as [Hb Hp]. apply andb_prop in Hb as [Hb Hz]. apply andb_prop in Hb as [Ht Hd].
  apply Z.eqb_eq in Ht, Hz. apply Z.leb_le in Hd. subst t. split_and!; [done|done|done| |apply FcStore.view_set_boost].
  intros p ->. by apply Z.eqb_eq in Hp.
Qed.

Lemma on_block_stepped now block root delay state status expected spec timing f :
  let ev := OnBlock now block root delay state status expected spec timing in
  clock_ok ev → 0 ≤ (V f).(FcStore.v_time) →
  stepped spe ev (V f) (handle (E:=E) spe validator_statuses ev f).2.(Fork_choice.fc_store).
Proof using H0.
  intros ev Hclock Hnn. assert (stepped spe ev (V f) f.(Fork_choice.fc_store)) as Hf by constructor.
  simpl. unfold rules_on_block. erewrite bind_ok_eq by reflexivity. destruct (contains_block _ _); [done|].
  pose proof (keeps_update_time spe ev Hclock (V f) Hnn now eq_refl f Hf) as H1.
  destruct (update_time spe now f) as [[t|e| |] f1] eqn:Ht; unfold mbind at 1, M_bind at 1; rewrite Ht; [|done..].
  apply update_time_slot in Ht. simpl snd in H1.
  pose proof (check_block_same (E:=E) spe block t f1) as Hsame.
  destruct (check_block spe block t f1) as [[parent|e| |] f2] eqn:Hc; unfold mbind at 1, M_bind at 1; rewrite Hc;
    simpl in Hsame; subst f2; [|done..].
  apply (keeps_from (fun f' => stepped spe ev (V f) f'.(Fork_choice.fc_store))).
  - destruct (maybe_boost_run block root delay expected spec timing t f1) as [->|(Hb & Hs & Hd & Hp & Hv)]; [done|].
    eapply stepped_step; [exact H1|]. rewrite Hv. apply step_boost; [done|]. rewrite <-Ht. done.
  - intros _. apply keeps_bind; [apply keeps_block_checkpoints|]. intros [uj uf]. apply keeps_add_block.
Qed.

Lemma handle_steps ev f : clock_ok ev → 0 ≤ (V f).(FcStore.v_time) →
  rtc (store_step spe ev) (V f) (V (handle (E:=E) spe validator_statuses ev f).2).
Proof using H0.
  intros Hclock Hnn.
  assert (keeps (fun f' => stepped spe ev (V f) f'.(Fork_choice.fc_store)) (handle (E:=E) spe validator_statuses ev) ∨
    stepped spe ev (V f) (handle (E:=E) spe validator_statuses ev f).2.(Fork_choice.fc_store)) as [Hk|Hk];
    [|apply Hk; constructor|exact Hk].
  destruct ev; [left|left|right; by apply on_block_stepped|left..]; simpl.
  - apply keeps_bind; [by apply keeps_update_time|auto with keeps].
  - apply keeps_bind; [by apply keeps_get_head|auto with keeps].
  - by apply keeps_on_attestation.
  - apply keeps_modify. intros f' Hf. eapply stepped_step; [exact Hf|]. simpl. rewrite FcStore.view_extend. constructor.
  - unfold on_execution_bid. keeps_steps.
  - unfold on_payload_attestation. keeps_steps.
  - unfold on_execution_payload. keeps_steps.
  - unfold on_valid_execution_payload. keeps_steps.
  - unfold on_invalid_execution_payload. keeps_steps.
  - unfold prune. keeps_steps.
Qed.
End handlers.

(** ** A running client

    A concrete store, anchor state and blocks for the fork choice rules: eight
    slots per epoch, three validators, the anchor block 100 at slot 0 and the
    block [100 + s] at slot [s]. *)
Definition rx_spe : Z := 8.
Definition rx_cp : Checkpoint.t := Checkpoint.mk 0 100.
Definition rx_spec : ChainSpec.t := ChainSpec.mk (Some 40) (Some 20) None 512.
Definition rx_timing : TimingSpec.t := TimingSpec.mk 12000 3333 2500 7500.
Definition rx_validator_with (effective_balance : Z) (slashed : bool) : Validator.t :=
  Validator.mk 7 0 effective_balance slashed 0 0 1000 1256.
Definition rx_validator : Validator.t := rx_validator_with 3200 false.

(** The state after the block at [slot]; every slot so far has a block. *)
Definition rx_state (slot : Slot) : BeaconState.t :=
  BeaconState.mk ForkName.Electra slot ((fun i => 100 + Z.of_nat i) <$> seq 0 64) ((fun i => 500 + Z.of_nat i) <$> seq 0 64)
    (replicate 3 rx_validator) [0; 0; 0] [0; 0; 0] [false; false; false; false] rx_cp rx_cp rx_cp
    (Some (epoch slot rx_spe, 9600)) None.
(** The database has the anchor state. *)
Definition rx_db (root : Hash256) : option (option BeaconState.t) :=
  Some (if root =? 500 then Some (rx_state 0) else None).
Definition rx_statuses (_ : BeaconState.t) : outcome BeaconStateError.t TotalBalances.t := Err BeaconStateError.SlotOutOfBounds.

Definition rx_block (slot proposer : Z) : BeaconBlock.t :=
  BeaconBlock.mk ForkName.Electra slot proposer (100 + slot - 1) (500 + slot) (Some (900 + slot)) None.

#[export] Instance RxStore : FcStore.ForkChoiceStore BeaconForkChoiceStore.t FcStoreError.t := BeaconStore rx_spe rx_db.
#[export] Instance RxStore_laws : FcStore.Laws BeaconForkChoiceStore.t FcStoreError.t.
Proof. apply BeaconStore_laws. Qed.

Definition rx_store : BeaconForkChoiceStore.t :=
  match get_forkchoice_store rx_spe (rx_state 0) 0 100 500 with
  | Ok s => s
  | _ => BeaconForkChoiceStore.mk [] 0 rx_cp rx_cp JustifiedBalances.default 0 rx_cp 0 rx_cp 0 ∅
  end.
Definition rx_anchor : Fork_choice.t BeaconForkChoiceStore.t :=
  match from_anchor (E:=FcStoreError.t) rx_spe rx_store 100 (BeaconBlock.mk ForkName.Electra 0 0 0 500 None None) None
          (rx_state 0) None None rx_spec with
  | Ok f => f
  | _ => Fork_choice.mk rx_store (GloasState.mk (from_parts (ProtoArray.mk 0 rx_cp rx_cp [] ∅ (ProposerBoost.mk 0 0)) []
           JustifiedBalances.default) empty_buffers) [] ForkchoiceUpdateParameters.initial
  end.

Definition rx_on_block (now slot : Slot) (delay : Z) : event :=
  OnBlock now (rx_block slot slot) (100 + slot) delay (rx_state slot) PayloadVerificationStatus.Optimistic (Some slot)
    rx_spec rx_timing.
Definition rx_attestation (slot : Slot) (root : Hash256) (validators : list nat) : IndexedAttestation.t :=
  IndexedAttestation.mk validators slot 0 root (Checkpoint.mk 0 100).
Definition rx_run (es : list event) : Fork_choice.t BeaconForkChoiceStore.t :=
  run (E:=FcStoreError.t) rx_spe rx_statuses es rx_anchor.

(** The clocks of concrete events. *)
Ltac clocks :=
  repeat (apply Forall_cons_2;
    [intros now Hnow; simpl in Hnow; first [discriminate|injection Hnow as <-; unfold is_u64, u64_max; lia]|]);
  apply Forall_nil_2.
