(* ===== verification/VoteQueue.v ===== *)
(** * The tree, the votes and the queue under the fork choice rules

    Invariants of the proto-array fork choice lifted to sequences of events, and
    the attestations that wait for their slot. *)
From S2P Require Import Prelude SlotEpoch ProtoArrayDefs ProtoArrayWf ProtoArrayPrune ForkChoiceDefs ForkChoiceOps.
From S2P Require Import GloasDefs VoteHistory ForkSchedule BeaconStateDefs JustificationDefs FcStoreDefs ForkChoiceRules.
From S2P Require Import FcStoreCorrect StoreSteps.

Definition roots_voted (q : list QueuedAttestation.t) : Prop :=
  Forall (fun a => a.(QueuedAttestation.block_root) ≠ hash_zero ∧ 0 ≤ a.(QueuedAttestation.target_epoch)) q.

(** A target epoch is a [u64]. *)
Definition target_ok (ev : event) : Prop :=
  match ev with OnAttestation _ a _ => 0 ≤ a.(IndexedAttestation.target).(Checkpoint.epoch) | _ => True end.

(** The changes of a node that the handlers make in place. *)
Inductive payload_change : (ProtoNode.t → ProtoNode.t) → Prop :=
  | change_bid b : payload_change (apply_bid b)
  | change_votes p d n q : payload_change (apply_payload_votes p d n q)
  | change_envelope h il : payload_change (apply_envelope h il).

(** An invariant of the proto-array fork choice that each of its operations
    keeps. *)
Record fc_invariant (spe : Z) (F : ForkChoice.t → Prop) : Prop := {
  inv_attestation i r e s p : r ≠ hash_zero → 0 ≤ e → keeps F (process_attestation i r e s p);
  inv_block b s : keeps F (process_block spe b s);
  inv_find_head jc fin jb r eq s spec : keeps (F ∘ GloasState.fc) (fc_find_head spe jc fin jb r eq s spec);
  inv_valid r : keeps F (process_execution_payload_validation r);
  inv_invalid op : keeps F (process_execution_payload_invalidation spe op);
  inv_prune r : keeps F (fc_maybe_prune r);
  inv_node g i : payload_change g → ∀ fc, F fc →
    F (ForkChoice.set_proto_array (ProtoArray.alter_node g i fc.(ForkChoice.proto_array)) fc);
}.

Section lift.
Context {T E : Type} `{!FcStore.ForkChoiceStore T E}.
Context (spe : Z) (validator_statuses : BeaconState.t → outcome BeaconStateError.t TotalBalances.t).
Context (F : ForkChoice.t → Prop) (HF : fc_invariant spe F).

Definition lifted (f : Fork_choice.t T) : Prop :=
  F (Fork_choice.fc f) ∧ roots_voted f.(Fork_choice.queued_attestations).

Lemma lifted_store f x : lifted f → lifted (Fork_choice.set_store x f).
Proof. done. Qed.
Lemma lifted_on_store {A} err (m : M T E A) : keeps lifted (on_store err m).
Proof. intros f Hf. unfold on_store. by destruct (m _). Qed.
Lemma lifted_modify_store g : keeps lifted (modify_store (E:=E) g).
Proof. by apply keeps_modify. Qed.
Lemma lifted_state_err {A} (o : outcome BeaconStateError.t A) : keeps lifted (state_err (E:=E) o).
Proof. apply keeps_lift. Qed.
Lemma lifted_on_fc {A} err (m : M ForkChoice.t FcError.t A) : keeps F m → keeps lifted (on_fc (E:=E) err m).
Proof.
  intros Hm f [HFf Hq]. unfold on_fc. specialize (Hm _ HFf). destruct (m (Fork_choice.fc f)) as [o x]. done.
Qed.
Lemma lifted_alter g i : payload_change g → keeps lifted (alter_tree_node (E:=E) g i).
Proof using HF. intros Hg. apply keeps_modify. intros f [HFf Hq]. split; [|done]. by apply (inv_node _ _ HF). Qed.
Lemma lifted_node_index r e : keeps lifted (node_index (E:=E) r e).
Proof. unfold node_index. keeps_steps. Qed.
#[local] Hint Resolve lifted_on_store lifted_modify_store lifted_state_err lifted_node_index : keeps.

Lemma lifted_apply_votes l r e s i : r ≠ hash_zero → 0 ≤ e → keeps lifted (apply_votes (E:=E) l r e s i).
Proof using HF.
  intros Hr He. apply keeps_for_each. intros x _. apply lifted_on_fc. by apply (inv_attestation _ _ HF).
Qed.

Lemma lifted_queue : keeps lifted (process_attestation_queue (E:=E)).
Proof using HF.
  unfold process_attestation_queue. apply keeps_get_bind. intros f [HFf Hq]. unfold dequeue_attestations.
  set (k := match list_find _ _ with Some _ => _ | None => _ end).
  erewrite bind_ok_eq by reflexivity.
  apply (keeps_for_each lifted); [|split; [done|by apply Forall_drop]].
  intros a Ha. apply (Forall_take _ k) in Hq. rewrite list.Forall_forall in Hq. destruct (Hq a Ha) as [Hr He].
  by apply lifted_apply_votes.
Qed.

Lemma lifted_checkpoints j fin o : keeps lifted (update_checkpoints (E:=E) j fin o).
Proof. unfold update_checkpoints. keeps_steps. Qed.
Lemma lifted_on_tick t : keeps lifted (on_tick (E:=E) spe t).
Proof. unfold on_tick. keeps_steps. apply lifted_checkpoints. Qed.
Lemma lifted_tick_loop fuel now : keeps lifted (tick_loop (E:=E) spe fuel now).
Proof.
  induction fuel as [|fuel IH]; simpl; keeps_steps; try done. apply lifted_on_tick.
Qed.
Lemma lifted_update_time now : keeps lifted (update_time (E:=E) spe now).
Proof using HF. unfold update_time. keeps_steps; [apply lifted_tick_loop|apply lifted_queue]. Qed.

Lemma lifted_find_head err jc fin jb r eq s spec :
  keeps lifted (on_gloas (E:=E) err (fc_find_head spe jc fin jb r eq s spec)).
Proof using HF.
  intros f [HFf Hq]. unfold on_gloas. pose proof (inv_find_head _ _ HF jc fin jb r eq s spec _ HFf) as Hm.
  by destruct (fc_find_head _ _ _ _ _ _ _ _ _) as [o x].
Qed.
Lemma lifted_get_head now spec : keeps lifted (get_head (E:=E) spe now spec).
Proof using HF.
  unfold get_head. apply keeps_bind; [apply lifted_update_time|]. intros t. keeps_steps; [|by apply keeps_modify].
  apply lifted_find_head.
Qed.

Lemma lifted_check_block block t : keeps lifted (check_block (E:=E) spe block t).
Proof. unfold check_block. keeps_steps. Qed.
Lemma lifted_maybe_boost block root delay expected t spec timing :
  keeps lifted (maybe_boost (E:=E) spe block root delay expected t spec timing).
Proof. unfold maybe_boost. keeps_steps. Qed.
Lemma lifted_block_checkpoints block parent state t :
  keeps lifted (update_block_checkpoints (E:=E) spe validator_statuses block parent state t).
Proof. unfold update_block_checkpoints. keeps_steps; apply lifted_checkpoints. Qed.
Lemma lifted_add_block block root delay state status t timing uj uf :
  keeps lifted (add_block (E:=E) spe block root delay state status t timing uj uf).
Proof using HF. unfold add_block. keeps_steps. apply lifted_on_fc, (inv_block _ _ HF). Qed.

Lemma lifted_on_block now block root delay state status expected spec timing :
  keeps lifted (rules_on_block (E:=E) spe validator_statuses now block root delay state status expected spec timing).
Proof using HF.
  unfold rules_on_block. keeps_steps; [apply lifted_update_time|apply lifted_check_block|apply lifted_maybe_boost|
    apply lifted_block_checkpoints|apply lifted_add_block].
Qed.

Lemma lifted_on_attestation now a b : 0 ≤ a.(IndexedAttestation.target).(Checkpoint.epoch) →
  keeps lifted (on_attestation (E:=E) spe now a b).
Proof using HF.
  intros He. unfold on_attestation. apply keeps_bind; [apply lifted_update_time|]. intros t.
  destruct (Z.eqb_spec a.(IndexedAttestation.beacon_block_root) hash_zero) as [|Hr]; [apply keeps_ret|].
  keeps_steps; [by apply lifted_apply_votes|].
  apply keeps_modify. intros f [HFf Hq]. split; [done|]. by apply Forall_app_2; [|apply Forall_singleton].
Qed.

Lemma handle_lifted ev : target_ok ev → keeps lifted (handle (E:=E) spe validator_statuses ev).
Proof using HF.
  intros Hev. destruct ev; simpl.
  - keeps_steps. apply lifted_update_time.
  - keeps_steps. apply lifted_get_head.
  - apply lifted_on_block.
  - by apply lifted_on_attestation.
  - apply lifted_modify_store.
  - unfold on_execution_bid. keeps_steps. apply lifted_alter. constructor.
  - unfold on_payload_attestation. keeps_steps. apply lifted_alter. constructor.
  - unfold on_execution_payload. keeps_steps. apply lifted_alter. constructor.
  - apply lifted_on_fc, (inv_valid _ _ HF).
  - apply lifted_on_fc, (inv_invalid _ _ HF).
  - unfold prune. keeps_steps. apply lifted_on_fc, (inv_prune _ _ HF).
Qed.

Lemma run_lifted es f : Forall target_ok es → lifted f → lifted (run (E:=E) spe validator_statuses es f).
Proof using HF.
  intros Hes Hf. induction es as [|ev es IH] using rev_ind; [done|].
  apply Forall_app in Hes as [Hes Hev]. apply Forall_inv in Hev. rewrite run_snoc. by apply handle_lifted; [|apply IH].
Qed.
End lift.

(** ** The tree stays well formed *)
Definition shape (n : ProtoNode.t) : Hash256 * option nat * option nat * option nat :=
  (n.(ProtoNode.root), n.(ProtoNode.parent), n.(ProtoNode.best_child), n.(ProtoNode.best_descendant)).
Definition same_shape (ns ns' : list ProtoNode.t) : Prop := ∀ i, shape <$> ns !! i = shape <$> ns' !! i.

Lemma same_shape_sym ns ns' : same_shape ns ns' → same_shape ns' ns.
Proof. intros Hs i. by rewrite Hs. Qed.
Lemma same_shape_lookup ns ns' i n : same_shape ns ns' → ns !! i = Some n → ∃ n', ns' !! i = Some n' ∧ shape n' = shape n.
Proof.
  intros Hs Hn. specialize (Hs i). rewrite Hn in Hs. destruct (ns' !! i) as [n'|]; [|done].
  exists n'. split; [done|]. simpl in Hs. congruence.
Qed.
Lemma same_shape_child ns ns' i c : same_shape ns ns' → child_of ns i c → child_of ns' i c.
Proof.
  intros Hs (n & Hn & Hp). destruct (same_shape_lookup _ _ _ _ Hs Hn) as (n' & Hn' & [= _ Hp' _ _]).
  exists n'. by rewrite Hp'.
Qed.
Lemma same_shape_length ns ns' i : same_shape ns ns' → (i < length ns)%nat → (i < length ns')%nat.
Proof.
  intros Hs Hi. apply lookup_lt_is_Some in Hi as [n Hn]. destruct (same_shape_lookup _ _ _ _ Hs Hn) as (n' & Hn' & _).
  by eapply lookup_lt_Some.
Qed.
Lemma same_shape_anc ns ns' a i : same_shape ns ns' → anc ns a i → anc ns' a i.
Proof.
  intros Hs. induction 1 as [Ha|i n p Hn Hp _ IH]; [constructor; by eapply same_shape_length|].
  destruct (same_shape_lookup _ _ _ _ Hs Hn) as (n' & Hn' & [= _ Hp' _ _]).
  apply anc_step with n' p; [done| |done]. by rewrite Hp'.
Qed.
Lemma same_shape_wf pa pa' : same_shape pa.(ProtoArray.nodes) pa'.(ProtoArray.nodes) →
  pa'.(ProtoArray.indices) = pa.(ProtoArray.indices) → wf pa → wf pa'.
Proof.
  intros Hs Hix [[Hp Hi] Hl]. pose proof (same_shape_sym _ _ Hs) as Hs'. split; [split|].
  - intros i n p Hn Hpar. destruct (same_shape_lookup _ _ _ _ Hs' Hn) as (n0 & Hn0 & [= _ Hp0 _ _]).
    apply (Hp i n0); [done|]. by rewrite Hp0.
  - intros r i. rewrite Hix, Hi. split; intros (n & Hn & Hr).
    + destruct (same_shape_lookup _ _ _ _ Hs Hn) as (n' & Hn' & [= Hr' _ _ _]). exists n'. by rewrite Hr'.
    + destruct (same_shape_lookup _ _ _ _ Hs' Hn) as (n' & Hn' & [= Hr' _ _ _]). exists n'. by rewrite Hr'.
  - intros i n Hn. destruct (same_shape_lookup _ _ _ _ Hs' Hn) as (n0 & Hn0 & [= _ _ Hc Hd]).
    destruct (Hl i n0 Hn0) as [H1 H2]. split.
    + intros c Hbc. eapply same_shape_child, H1; [done|]. by rewrite Hc.
    + intros d Hbd. rewrite <-Hd in Hbd. destruct (H2 d Hbd) as (c & Hch & Ha).
      exists c. split; [by eapply same_shape_child|by eapply same_shape_anc].
Qed.

Lemma payload_change_shape g n : payload_change g → shape (g n) = shape n.
Proof. destruct 1; unfold apply_bid; try case_match; done. Qed.
Lemma alter_same_shape g i ns : (∀ n, shape (g n) = shape n) → same_shape ns (alter g i ns).
Proof.
  intros Hg j. destruct (decide (i = j)) as [<-|Hne].
  - rewrite list_lookup_alter_eq. destruct (_ !! i); [|done]. simpl. by rewrite Hg.
  - by rewrite list_lookup_alter_ne.
Qed.
Lemma payload_change_wf g i pa : payload_change g → wf pa → wf (ProtoArray.alter_node g i pa).
Proof. intros Hg. apply same_shape_wf; [|done]. apply alter_same_shape. intros n. by apply payload_change_shape. Qed.

Lemma keeps_on_array {A} (P : ProtoArray.t → Prop) err (m : M ProtoArray.t Error.t A) :
  keeps P m → keeps (P ∘ ForkChoice.proto_array) (on_array err m).
Proof. intros Hm fc Hfc. unfold on_array. specialize (Hm _ Hfc). by destruct (m _). Qed.
Lemma keeps_linked_wf {A} (m : M ProtoArray.t Error.t A) : (∀ pa0, keeps (linked pa0) m) → keeps wf m.
Proof. intros Hm pa Hwf. eapply linked_wf; [done|]. by apply Hm, wf_linked. Qed.

(** The Gloas walk changes the buffers and the stored payload status. *)
Section gloas.
Context (spe : Z) (F : ForkChoice.t → Prop) (HF : ∀ o fc, F fc → F (ForkChoice.set_gloas_status o fc)).

Lemma keeps_gloas_loop fuel r b s spec head c : keeps (F ∘ GloasState.fc) (gloas_loop spe fuel r b s spec head c).
Proof using HF.
  revert head c. induction fuel as [|fuel IH]; intros head c; [apply keeps_lift|]. simpl.
  apply keeps_get_bind. intros st Hst. apply (keeps_from (F ∘ GloasState.fc)); [done|]. intros _.
  keeps_steps; try apply keeps_modify; auto. intros st' _. by apply HF.
Qed.
Lemma keeps_find_head_gloas jc r eq s spec : keeps (F ∘ GloasState.fc) (find_head_gloas spe jc r eq s spec).
Proof using HF. unfold find_head_gloas. keeps_steps; try (by apply keeps_modify). apply keeps_gloas_loop. Qed.
End gloas.

Lemma keeps_wf_find_head_pre spe jc fin jb r eq s spec :
  keeps (wf ∘ ForkChoice.proto_array) (find_head_pre_gloas spe jc fin jb r eq s spec).
Proof.
  unfold find_head_pre_gloas. keeps_steps.
  - intros fc Hfc. by destruct (compute_deltas _ _ _ _ _).
  - apply keeps_on_array, keeps_linked_wf. intros pa0. apply keeps_apply_score_changes.
  - apply keeps_modify. intros fc Hfc. unfold maybe_update_balances. by case_match.
  - by apply keeps_modify.
Qed.

Lemma wf_fc_invariant spe : fc_invariant spe (wf ∘ ForkChoice.proto_array).
Proof.
  split.
  - intros. by apply keeps_modify.
  - intros b s. unfold process_block. keeps_steps. apply keeps_on_array, keeps_on_block.
  - intros jc fin jb r eq s spec. unfold fc_find_head. case_match.
    + keeps_steps; [|by apply keeps_find_head_gloas].
      apply keeps_modify. intros st Hst. unfold gloas_prepare, maybe_update_balances.
      simpl. repeat case_match; (apply (linked_wf _ _ Hst); apply (wf_linked _ Hst)).
    + apply keeps_zoom with (Q := wf ∘ ForkChoice.proto_array); [done|done|apply keeps_wf_find_head_pre].
  - intros r. apply keeps_on_array, keeps_linked_wf. intros pa0. apply keeps_validation.
  - intros op. apply keeps_on_array, keeps_linked_wf. intros pa0. apply keeps_invalidation.
  - intros r. apply keeps_on_array, keeps_maybe_prune.
  - intros g i Hg fc Hfc. by apply payload_change_wf.
Qed.

(** ** The votes only move to later epochs *)

(** A head computation keeps the next vote of every tracker. *)
Definition next_kept (v v' : VoteTracker.t) : Prop :=
  v'.(VoteTracker.next_root) = v.(VoteTracker.next_root) ∧
  v'.(VoteTracker.next_epoch) = v.(VoteTracker.next_epoch) ∧
  (v = VoteTracker.default → v' = VoteTracker.default).

#[export] Instance next_kept_preorder : PreOrder next_kept.
Proof.
  split; [done|]. intros u v w (H1 & H2 & H3) (H4 & H5 & H6). repeat split; [congruence..|]. auto.
Qed.

Lemma next_kept_advance v : v.(VoteTracker.current_root) ≠ hash_zero ∨ v.(VoteTracker.next_root) ≠ hash_zero →
  next_kept v (VoteTracker.advance v) ∧ next_kept v (VoteTracker.clear_current v).
Proof. intros Hv. split; (split_and!; [done..|]); intros ->; by destruct Hv. Qed.

Lemma keeps_change_delta (R : list VoteTracker.t → Prop) ix op r :
  keeps (R ∘ dl_votes) (change_delta ix op r).
Proof. unfold change_delta. keeps_steps. by apply keeps_modify. Qed.
Lemma keeps_set_vote vs i w : keeps (fun dl => dl.(dl_votes) = vs ∨ dl.(dl_votes) = <[i := w]> vs)
  (modify (E:=Error.t) (dl_set_vote i w)).
Proof. apply keeps_modify. intros dl [H|H]; simpl; rewrite H; right; [done|]. apply list_insert_insert_eq. Qed.

Lemma insert_next_kept vs us i v w : Forall2 next_kept vs us → us !! i = Some v → next_kept v w →
  Forall2 next_kept vs (<[i := w]> us).
Proof.
  intros Hvs Hi Hw. apply Forall2_lookup. intros j. rewrite Forall2_lookup in Hvs. specialize (Hvs j).
  destruct (decide (i = j)) as [<-|Hne]; [|by rewrite list_lookup_insert_ne].
  rewrite list_lookup_insert_eq by (by eapply lookup_lt_Some). rewrite Hi in Hvs.
  inversion Hvs as [? ? Hu|]; subst. constructor. by transitivity v.
Qed.

Lemma delta_step_next vs ix old new eq i :
  keeps (fun dl => Forall2 next_kept vs dl.(dl_votes)) (delta_step ix old new eq i).
Proof.
  unfold delta_step. apply keeps_get_bind. intros dl Hdl. destruct (_ !! i) as [v|] eqn:Hi; [|done].
  destruct (_ && _) eqn:Hz; [done|].
  apply andb_false_iff in Hz. rewrite !Z.eqb_neq in Hz. apply next_kept_advance in Hz as [Ha Hc].
  assert (∀ w (m : M DeltaLoop Error.t unit), next_kept v w →
    keeps (fun dl' => dl'.(dl_votes) = dl.(dl_votes) ∨ dl'.(dl_votes) = <[i := w]> dl.(dl_votes)) m →
    Forall2 next_kept vs (m dl).2.(dl_votes)) as Hgo.
  { intros w m Hw Hm. destruct (Hm dl (or_introl eq_refl)) as [->| ->]; [done|]. by eapply insert_next_kept. }
  destruct (bool_decide _); [eapply Hgo; [exact Hc|]|eapply Hgo; [exact Ha|]]; cbv zeta; keeps_steps;
    first [apply keeps_set_vote|apply (keeps_change_delta (fun l => l = _ ∨ l = _))].
Qed.

Lemma compute_deltas_next ix old new eq vs : Forall2 next_kept vs (compute_deltas ix old new eq vs).2.
Proof.
  unfold compute_deltas.
  pose proof (keeps_for_each (fun dl => Forall2 next_kept vs dl.(dl_votes)) (seq 0 (length vs))
    (delta_step ix old new eq) (fun i _ => delta_step_next vs ix old new eq i)
    (mkDeltaLoop (replicate (size ix) 0) vs)) as Hk.
  destruct (for_each _ _ _) as [o dl]. apply Hk. simpl. reflexivity.
Qed.
Lemma vote_updates_next vs old new eq : Forall2 next_kept vs (apply_vote_updates vs old new eq).
Proof.
  unfold apply_vote_updates. apply Forall2_lookup. intros i. rewrite list_lookup_imap.
  destruct (vs !! i) as [v|]; simpl; constructor. unfold update_vote.
  destruct (_ && _) eqn:Hz; [done|]. apply andb_false_iff in Hz. rewrite !Z.eqb_neq in Hz.
  apply next_kept_advance in Hz as [Ha Hc]. repeat case_match; done.
Qed.

(** Every tracker is empty or has a vote; the tracker of [i] has one for [e] or
    later. *)
Definition votes_ok (vs : list VoteTracker.t) : Prop :=
  Forall (fun v => v = VoteTracker.default ∨ v.(VoteTracker.next_root) ≠ hash_zero) vs.
Definition counted (i : nat) (e : Epoch) (vs : list VoteTracker.t) : Prop :=
  ∃ v, vs !! i = Some v ∧ v.(VoteTracker.next_root) ≠ hash_zero ∧ e ≤ v.(VoteTracker.next_epoch).

Lemma votes_ok_next vs vs' : Forall2 next_kept vs vs' → votes_ok vs → votes_ok vs'.
Proof.
  unfold votes_ok. rewrite !Forall_lookup. intros H2 Hok i v' Hv'.
  destruct (Forall2_lookup_r _ _ _ _ _ H2 Hv') as (v & Hv & H1 & _ & H3).
  destruct (Hok i v Hv) as [Hd|Hr]; [left; auto|right]. by rewrite H1.
Qed.
Lemma counted_next i e vs vs' : Forall2 next_kept vs vs' → counted i e vs → counted i e vs'.
Proof.
  intros H2 (v & Hv & Hr & He). destruct (Forall2_lookup_l _ _ _ _ _ H2 Hv) as (v' & Hv' & H1 & H3 & _).
  exists v'. by rewrite H1, H3.
Qed.

(** The tracker of the attester, and the others. *)
Lemma attestation_lookup i r e s p fc j v :
  (process_attestation i r e s p fc).2.(ForkChoice.votes) !! j = Some v →
  fc.(ForkChoice.votes) !! j = Some v ∨ v = VoteTracker.default ∨
  j = i ∧ v.(VoteTracker.next_root) = r ∧ v.(VoteTracker.next_epoch) = e.
Proof.
  simpl. unfold ElasticList.alter_at. destruct (decide (i = j)) as [<-|Hne];
    [rewrite list_lookup_alter_eq|rewrite list_lookup_alter_ne by done]; rewrite ensure_lookup; intros Hv.
  - destruct (_ !! i) as [v0|]; [|destruct (_ <=? _)%nat; [|done]]; simpl in Hv; injection Hv as <-;
      case_match; simpl; auto.
  - destruct (_ !! j) as [v0|]; [|destruct (_ <=? _)%nat; [|done]]; injection Hv as <-; auto.
Qed.

Lemma attestation_votes_ok i r e s p fc : r ≠ hash_zero → votes_ok fc.(ForkChoice.votes) →
  votes_ok (process_attestation i r e s p fc).2.(ForkChoice.votes).
Proof.
  unfold votes_ok. rewrite !Forall_lookup. intros Hr Hok j v Hv.
  apply attestation_lookup in Hv as [Hv|[->|(_ & <- & _)]]; [by eapply Hok|by left|by right].
Qed.

Lemma attestation_self i r e s p fc : r ≠ hash_zero → votes_ok fc.(ForkChoice.votes) → 0 ≤ e →
  ∃ v, (process_attestation i r e s p fc).2.(ForkChoice.votes) !! i = Some v ∧
    v.(VoteTracker.next_root) ≠ hash_zero ∧ e ≤ v.(VoteTracker.next_epoch) ∧
    ∀ v0, fc.(ForkChoice.votes) !! i = Some v0 → v0 ≠ VoteTracker.default →
      v0.(VoteTracker.next_epoch) ≤ v.(VoteTracker.next_epoch).
Proof.
  intros Hr Hok He. simpl. unfold ElasticList.alter_at. rewrite list_lookup_alter_eq, ensure_lookup.
  destruct (_ !! i) as [v0|] eqn:Hv0.
  - simpl. eexists. split; [done|]. unfold votes_ok in Hok. rewrite Forall_lookup in Hok. specialize (Hok _ _ Hv0).
    destruct (Z.ltb_spec v0.(VoteTracker.next_epoch) e); simpl.
    + split_and!; [done|lia|]. intros ? [= ->] _. lia.
    + case_bool_decide as Hd; simpl; split_and!; try done; try lia.
      * by intros ? [= ->].
      * by destruct Hok.
      * intros ? [= ->] _. lia.
  - rewrite Nat.leb_refl. simpl. eexists. split; [done|]. rewrite orb_true_r. simpl. split_and!; [done|lia|done].
Qed.

Lemma attestation_counted_other i r e s p fc j e' : r ≠ hash_zero → votes_ok fc.(ForkChoice.votes) → 0 ≤ e →
  counted j e' fc.(ForkChoice.votes) → counted j e' (process_attestation i r e s p fc).2.(ForkChoice.votes).
Proof.
  intros Hr Hok He (v & Hv & Hvr & Hve). destruct (decide (j = i)) as [->|Hne].
  - destruct (attestation_self i r e s p fc Hr Hok He) as (v' & Hv' & Hr' & _ & Hle). exists v'. split_and!; [done..|].
    etransitivity; [exact Hve|]. apply Hle; [done|]. by intros ->.
  - exists v. split; [|done]. simpl. unfold ElasticList.alter_at. rewrite list_lookup_alter_ne by done.
    by rewrite ensure_lookup, Hv.
Qed.

Lemma attestation_counted i r e s p fc : r ≠ hash_zero → votes_ok fc.(ForkChoice.votes) → 0 ≤ e →
  counted i e (process_attestation i r e s p fc).2.(ForkChoice.votes).
Proof. intros Hr Hok He. destruct (attestation_self i r e s p fc Hr Hok He) as (v & ? & ? & ? & _). by exists v. Qed.

Lemma keeps_votes_on_array {A} (R : list VoteTracker.t → Prop) err (m : M ProtoArray.t Error.t A) :
  keeps (R ∘ ForkChoice.votes) (on_array err m).
Proof. intros fc Hfc. unfold on_array. by destruct (m _). Qed.

Lemma keeps_votes_find_head_pre spe (R : list VoteTracker.t → Prop) jc fin jb r eq s spec :
  (∀ vs vs', Forall2 next_kept vs vs' → R vs → R vs') →
  keeps (R ∘ ForkChoice.votes) (find_head_pre_gloas spe jc fin jb r eq s spec).
Proof.
  intros Hnext. unfold find_head_pre_gloas. keeps_steps.
  - intros fc Hfc.
    pose proof (compute_deltas_next (ProtoArray.indices (ForkChoice.proto_array fc))
      (JustifiedBalances.effective_balances (ForkChoice.balances fc)) (JustifiedBalances.effective_balances jb) eq
      (ForkChoice.votes fc)) as Hd.
    destruct (compute_deltas _ _ _ _ _) as [o vs]. simpl in *. by eapply Hnext.
  - apply keeps_votes_on_array.
  - apply keeps_modify. intros fc Hfc. unfold maybe_update_balances. by case_match.
  - by apply keeps_modify.
Qed.

(** A property of the votes that attestations keep and that looks at the next
    votes only is kept by every operation. *)
Lemma votes_fc_invariant spe (R : list VoteTracker.t → Prop) :
  (∀ vs vs', Forall2 next_kept vs vs' → R vs → R vs') →
  (∀ i r e s p, r ≠ hash_zero → 0 ≤ e → keeps (R ∘ ForkChoice.votes) (process_attestation i r e s p)) →
  fc_invariant spe (R ∘ ForkChoice.votes).
Proof.
  intros Hnext Hatt. split.
  - done.
  - intros b s. unfold process_block. keeps_steps. apply keeps_votes_on_array.
  - intros jc fin jb r eq s spec. unfold fc_find_head. case_match.
    + keeps_steps; [|by apply keeps_find_head_gloas].
      apply keeps_modify. intros st Hst. unfold gloas_prepare, maybe_update_balances.
      eapply Hnext; [|exact Hst]. simpl. repeat case_match; apply vote_updates_next.
    + apply keeps_zoom with (Q := R ∘ ForkChoice.votes); [done|done|].
      by apply keeps_votes_find_head_pre.
  - intros r. apply keeps_votes_on_array.
  - intros op. apply keeps_votes_on_array.
  - intros r. apply keeps_votes_on_array.
  - done.
Qed.

Lemma votes_ok_fc_invariant spe : fc_invariant spe (votes_ok ∘ ForkChoice.votes).
Proof.
  apply votes_fc_invariant; [apply votes_ok_next|]. intros i r e s p Hr He fc Hfc. by apply attestation_votes_ok.
Qed.
Lemma counted_fc_invariant spe j e : fc_invariant spe ((fun vs => votes_ok vs ∧ counted j e vs) ∘ ForkChoice.votes).
Proof.
  apply votes_fc_invariant.
  - intros vs vs' Hn [Hok Hc]. split; [by eapply votes_ok_next|by eapply counted_next].
  - intros i r e' s p Hr He fc [Hok Hc]. split; [by apply attestation_votes_ok|by apply attestation_counted_other].
Qed.

(** ** No due vote waits *)

(** The attestations that wait are all for one slot that has come. *)
Definition queue_ok (t : Slot) (q : list QueuedAttestation.t) : Prop :=
  ∃ s, s ≤ t ∧ Forall (fun a => a.(QueuedAttestation.slot) = s) q.

Definition counted_all (a : QueuedAttestation.t) (vs : list VoteTracker.t) : Prop :=
  ∀ i, i ∈ a.(QueuedAttestation.attesting_indices) → counted i a.(QueuedAttestation.target_epoch) vs.

Lemma dequeue_due t q : Forall (fun a => a.(QueuedAttestation.slot) < t) q → dequeue_attestations t q = (q, []).
Proof.
  intros Hq. unfold dequeue_attestations. destruct (list_find _ q) as [[i a]|] eqn:Hf.
  - apply list_find_Some in Hf as (Hi & Ha & _). rewrite Forall_lookup in Hq. specialize (Hq _ _ Hi). simpl in *. lia.
  - by rewrite firstn_all, drop_all.
Qed.
Lemma dequeue_none t q : Forall (fun a => t ≤ a.(QueuedAttestation.slot)) q → dequeue_attestations t q = ([], q).
Proof.
  intros Hq. unfold dequeue_attestations. destruct q as [|a q]; [done|]. simpl. apply Forall_inv in Hq.
  by rewrite decide_True.
Qed.

Section queue.
Context {T E : Type} `{!FcStore.ForkChoiceStore T E} `{!FcStore.Laws T E}.
Context (spe : Z) (Hspe : 0 < spe).
Context (validator_statuses : BeaconState.t → outcome BeaconStateError.t TotalBalances.t).
Abbreviation V f := (FcStore.view (Fork_choice.fc_store f)).
Abbreviation votes f := (Fork_choice.fc f).(ForkChoice.votes).
Abbreviation queue f := f.(Fork_choice.queued_attestations).

Abbreviation fine f := (lifted (votes_ok ∘ ForkChoice.votes) f).

Lemma apply_votes_counted l r e s i (f : Fork_choice.t T) : r ≠ hash_zero → 0 ≤ e → fine f →
  ∃ f', apply_votes (E:=E) l r e s i f = (Ok tt, f') ∧ f'.(Fork_choice.fc_store) = f.(Fork_choice.fc_store) ∧
    queue f' = queue f ∧ fine f' ∧ ∀ j, j ∈ l → counted j e (votes f').
Proof.
  intros Hr He. unfold apply_votes. revert f. induction l as [|x l IH]; intros f Hok.
  { exists f. split_and!; try done; [apply Hok..|]. intros j Hj. by apply not_elem_of_nil in Hj. }
  simpl. set (m := process_attestation x r e s (i =? 1)).
  set (f1 := Fork_choice.set_fc (m (Fork_choice.fc f)).2 f).
  assert (fine f1) as Hok1 by (split; [apply attestation_votes_ok; [done|apply Hok]|apply Hok]).
  destruct (IH f1 Hok1) as (f' & Hrun & Hst & Hq & Hok' & Hc).
  exists f'. erewrite bind_ok_eq by reflexivity. split_and!; try done; [apply Hok'..|].
  intros j Hj. apply elem_of_cons in Hj as [->|Hj]; [|by apply Hc].
  pose proof (lifted_apply_votes (E:=E) spe _ (counted_fc_invariant spe x e) l r e s i Hr He f1) as Hk.
  unfold apply_votes in Hk. rewrite Hrun in Hk. apply Hk. split; [|apply Hok]. split; [apply Hok1|].
  apply attestation_counted; [done|apply Hok|done].
Qed.

(** Applying a queue of attestations counts them all. *)
Lemma apply_queue_counted L (f : Fork_choice.t T) : roots_voted L → fine f →
  ∃ f', for_each L (fun a => apply_votes (E:=E) a.(QueuedAttestation.attesting_indices)
      a.(QueuedAttestation.block_root) a.(QueuedAttestation.target_epoch) a.(QueuedAttestation.slot)
      a.(QueuedAttestation.index)) f = (Ok tt, f') ∧
    f'.(Fork_choice.fc_store) = f.(Fork_choice.fc_store) ∧ queue f' = queue f ∧ fine f' ∧
    Forall (fun a => counted_all a (votes f')) L.
Proof.
  intros HL. revert f. induction L as [|a L IH]; intros f Hok.
  { exists f. split_and!; try done; apply Hok. }
  apply Forall_cons_1 in HL as [[Hr He] HL]. simpl.
  destruct (apply_votes_counted a.(QueuedAttestation.attesting_indices) _ _ a.(QueuedAttestation.slot)
    a.(QueuedAttestation.index) f Hr He Hok) as (f1 & Hrun1 & Hst1 & Hq1 & Hok1 & Hc1).
  destruct (IH HL f1 Hok1) as (f' & Hrun & Hst & Hq & Hok' & Hc).
  exists f'. rewrite (bind_ok_eq _ _ _ _ _ Hrun1), Hst, Hq. split_and!; try done; [apply Hok'..|].
  apply Forall_cons_2; [|done]. intros i Hi.
  assert (lifted ((fun vs => votes_ok vs ∧ counted i a.(QueuedAttestation.target_epoch) vs) ∘ ForkChoice.votes)
    (for_each L (fun a => apply_votes (E:=E) a.(QueuedAttestation.attesting_indices)
      a.(QueuedAttestation.block_root) a.(QueuedAttestation.target_epoch) a.(QueuedAttestation.slot)
      a.(QueuedAttestation.index)) f1).2) as [[_ Hk] _]; [|by rewrite Hrun in Hk].
  apply keeps_for_each.
  - intros b Hb. unfold roots_voted in HL. rewrite list.Forall_forall in HL. destruct (HL b Hb) as [Hrb Heb].
    by apply (lifted_apply_votes spe); [apply counted_fc_invariant|..].
  - split; [|apply Hok1]. split; [apply Hok1|]. by apply Hc1.
Qed.

(** What [process_attestation_queue] does where the queue is in order. *)
Lemma attestation_queue_run f : fine f → queue_ok (V f).(FcStore.v_time) (queue f) →
  ∃ f', process_attestation_queue (E:=E) f = (Ok tt, f') ∧ f'.(Fork_choice.fc_store) = f.(Fork_choice.fc_store) ∧
    fine f' ∧ Forall (fun a => a.(QueuedAttestation.slot) = (V f).(FcStore.v_time)) (queue f') ∧
    ∀ a, a ∈ queue f → a ∈ queue f' ∧ a.(QueuedAttestation.slot) = (V f).(FcStore.v_time) ∨ counted_all a (votes f').
Proof.
  intros Hok (s & Hle & Hs). unfold process_attestation_queue. erewrite bind_ok_eq by reflexivity.
  change (FcStore.get_current_slot (Fork_choice.fc_store f)) with (V f).(FcStore.v_time).
  destruct (Z.lt_ge_cases s (V f).(FcStore.v_time)) as [Hlt|Hge].
  - rewrite dequeue_due by (eapply Forall_impl; [|exact Hs]; intros a Ha; cbv beta in *; lia).
    erewrite bind_ok_eq by reflexivity.
    destruct (apply_queue_counted (queue f) (Fork_choice.set_queue [] f)) as (f' & Hrun & Hst & Hq & Hok' & Hc);
      [apply Hok|split; [apply Hok|by apply Forall_nil_2]|].
    exists f'. split_and!; try done; [apply Hok'..|by rewrite Hq; apply Forall_nil_2|].
    intros a Ha. right. rewrite list.Forall_forall in Hc. by apply Hc.
  - assert (s = (V f).(FcStore.v_time)) as -> by lia. rewrite dequeue_none by (eapply Forall_impl; [|exact Hs]; intros a Ha; cbv beta in *; lia).
    erewrite bind_ok_eq by reflexivity. eexists. split; [reflexivity|]. split_and!; try done; [apply Hok..|].
    intros a Ha. left. split; [done|]. rewrite list.Forall_forall in Hs. by apply Hs.
Qed.

(** [a] waits or is counted. *)
Record waiting (a : QueuedAttestation.t) (f : Fork_choice.t T) : Prop := {
  waiting_time : 0 ≤ (V f).(FcStore.v_time);
  waiting_fine : fine f;
  waiting_queue : queue_ok (V f).(FcStore.v_time) (queue f);
  waiting_or_counted : a ∈ queue f ∨ counted_all a (votes f);
}.

Lemma counted_kept {A} (m : M (Fork_choice.t T) (RulesError.t E) A) a f :
  (∀ F, fc_invariant spe F → keeps (lifted F) m) → fine f → counted_all a (votes f) → counted_all a (votes (m f).2).
Proof.
  intros Hm Hok Hc i Hi. destruct (Hm _ (counted_fc_invariant spe i a.(QueuedAttestation.target_epoch)) f) as [[_ Hk] _];
    [|exact Hk]. split; [|apply Hok]. split; [apply Hok|by apply Hc].
Qed.

(** Code that leaves the queue alone and never turns the clock back. *)
Lemma waiting_kept {A} (m : M (Fork_choice.t T) (RulesError.t E) A) a :
  (∀ F, fc_invariant spe F → keeps (lifted F) m) →
  (∀ f, 0 ≤ (V f).(FcStore.v_time) → queue (m f).2 = queue f ∧ (V f).(FcStore.v_time) ≤ (V (m f).2).(FcStore.v_time)) →
  keeps (waiting a) m.
Proof.
  intros Hm Hrest f [Ht Hok (s & Hs & Hq) Hor]. destruct (Hrest f Ht) as [Hq' Ht']. split.
  - lia.
  - apply Hm; [apply votes_ok_fc_invariant|done].
  - rewrite Hq'. exists s. split; [lia|done].
  - rewrite Hq'. destruct Hor as [?|Hc]; [by left|right]. by apply counted_kept.
Qed.

Lemma update_time_waiting now a f r f' : is_u64 now → waiting a f → update_time (E:=E) spe now f = (r, f') →
  returns r ∧ waiting a f' ∧ ∀ t, r = Ok t → t = (V f').(FcStore.v_time) ∧ now ≤ t ∧
    Forall (fun b => b.(QueuedAttestation.slot) = t) (queue f') ∧
    (a.(QueuedAttestation.slot) < t → counted_all a (votes f')).
Proof using Hspe H0.
  intros Hnow [Ht Hok (s & Hs & Hq) Hor] Hrun. unfold update_time in Hrun. erewrite bind_ok_eq in Hrun by reflexivity.
  change (FcStore.get_current_slot (Fork_choice.fc_store f)) with (V f).(FcStore.v_time) in Hrun.
  set (n := Z.to_nat (now - (V f).(FcStore.v_time))) in Hrun.
  assert (∀ q f1, tick_loop (E:=E) spe n now f = (q, f1) →
    returns q ∧ waiting a f1 ∧ (∀ u, q = Ok u → now ≤ (V f1).(FcStore.v_time))) as Htick.
  { intros q f1 H1. apply tick_loop_run in H1 as (Hret & Hsame & Hv); [|done..].
    destruct Hsame as (Hpa & Hqu & _).
    assert (view_le (V f) (V f1)) as [Hle _] by (by destruct Hv as [[_ ->]|[_ Hv]]; [apply iter_next_slot_le|]).
    split_and!; [done| |].
    - split; [lia| |rewrite Hqu; exists s; split; [lia|done]|].
      + unfold lifted, Fork_choice.fc. by rewrite Hpa, Hqu.
      + unfold Fork_choice.fc. by rewrite Hpa, Hqu.
    - intros u ->. destruct Hv as [[_ ->]|[[e ?] _]]; [|done]. rewrite iter_next_slot_time. unfold n. lia. }
  apply bind_run in Hrun as [([] & f1 & H1 & Hrun)|[(e & H1 & ->)|(_ & Hn & _)]].
  - destruct (Htick _ _ H1) as (_ & [Ht1 Hok1 Hq1 Hor1] & Hnow1). specialize (Hnow1 _ eq_refl).
    destruct (attestation_queue_run f1 Hok1 Hq1) as (f2 & H2 & Hst & Hok2 & Hq2 & Hc2).
    rewrite (bind_ok_eq _ _ _ _ _ H2) in Hrun. erewrite bind_ok_eq in Hrun by reflexivity. injection Hrun as <- <-.
    assert (counted_all a (votes f1) → counted_all a (votes f2)) as Hkept.
    { intros Hc. pose proof (counted_kept (process_attestation_queue (E:=E)) a f1) as Hk. rewrite H2 in Hk.
      apply Hk; [|done|done]. intros F HF. by apply (lifted_queue spe). }
    split; [done|]. split.
    + split; [by rewrite Hst|done| |].
      * rewrite Hst. eexists. split; [|exact Hq2]. done.
      * destruct Hor1 as [Ha|Hc]; [|right; auto]. destruct (Hc2 a Ha) as [[? _]|?]; auto.
    + intros t [= <-]. rewrite Hst. split_and!; [done|done|done|]. intros Hlt.
      destruct Hor1 as [Ha|Hc]; [|auto]. destruct (Hc2 a Ha) as [[_ Heq]|?]; [|done].
      simpl in *. lia.
  - destruct (Htick _ _ H1) as (_ & Hw & _). done.
  - destruct (tick_loop spe n now f) as [q f1] eqn:H1. destruct (Htick _ _ eq_refl) as (? & _). done.
Qed.

(** *** The other parts of the handlers *)
Section same_queue.
Context (q0 : list QueuedAttestation.t).
Abbreviation on_q := (fun f : Fork_choice.t T => queue f = q0).
Lemma queue_on_store {A} err (m : M T E A) : keeps on_q (on_store err m).
Proof. intros f Hf. unfold on_store. by destruct (m _). Qed.
Lemma queue_modify_store g : keeps on_q (modify_store (E:=E) g).
Proof. by apply keeps_modify. Qed.
Lemma queue_state_err {A} (o : outcome BeaconStateError.t A) : keeps on_q (state_err (E:=E) o).
Proof. apply keeps_lift. Qed.
Lemma queue_on_fc {A} err (m : M ForkChoice.t FcError.t A) : keeps on_q (on_fc (E:=E) err m).
Proof. intros f Hf. unfold on_fc. by destruct (m _). Qed.
Lemma queue_on_gloas {A} err (m : M GloasState.t FcError.t A) : keeps on_q (on_gloas (E:=E) err m).
Proof. intros f Hf. unfold on_gloas. by destruct (m _). Qed.
Lemma queue_alter g i : keeps on_q (alter_tree_node (E:=E) g i).
Proof. by apply keeps_modify. Qed.
Lemma queue_node_index r e : keeps on_q (node_index (E:=E) r e).
Proof. unfold node_index. keeps_steps. Qed.
#[local] Hint Resolve queue_on_store queue_modify_store queue_state_err queue_on_fc queue_on_gloas queue_alter
  queue_node_index : keeps.

Lemma queue_checkpoints j fin o : keeps on_q (update_checkpoints (E:=E) j fin o).
Proof. unfold update_checkpoints. keeps_steps. Qed.
Lemma queue_block_checkpoints block parent state t :
  keeps on_q (update_block_checkpoints (E:=E) spe validator_statuses block parent state t).
Proof. unfold update_block_checkpoints. keeps_steps; apply queue_checkpoints. Qed.
Lemma queue_add_block block root delay state status t timing uj uf :
  keeps on_q (add_block (E:=E) spe block root delay state status t timing uj uf).
Proof. unfold add_block. keeps_steps. Qed.
Lemma queue_maybe_boost block root delay expected t spec timing :
  keeps on_q (maybe_boost (E:=E) spe block root delay expected t spec timing).
Proof. unfold maybe_boost. keeps_steps. Qed.
Lemma queue_handle ev : clock ev = None → keeps on_q (handle (E:=E) spe validator_statuses ev).
Proof.
  destruct ev; intros [=]; simpl.
  - apply queue_modify_store.
  - unfold on_execution_bid. keeps_steps.
  - unfold on_payload_attestation. keeps_steps.
  - unfold on_execution_payload. keeps_steps.
  - apply queue_on_fc.
  - apply queue_on_fc.
  - unfold prune. keeps_steps.
Qed.
End same_queue.

Lemma stepped_time_le {A} ev (m : M (Fork_choice.t T) (RulesError.t E) A) f :
  (∀ v0, keeps (fun f => stepped spe ev v0 f.(Fork_choice.fc_store)) m) →
  (V f).(FcStore.v_time) ≤ (V (m f).2).(FcStore.v_time).
Proof.
  intros Hm. assert (stepped spe ev (V f) (m f).2.(Fork_choice.fc_store)) as Hs by (apply Hm; constructor).
  by apply store_steps_le in Hs as [? _].
Qed.

Lemma waiting_find_head a err jc fin jb r eq s spec :
  keeps (waiting a) (on_gloas (E:=E) err (fc_find_head spe jc fin jb r eq s spec)).
Proof.
  apply waiting_kept; [intros F HF; by apply lifted_find_head|]. intros f _.
  split; [by apply queue_on_gloas|]. unfold on_gloas. by destruct (fc_find_head _ _ _ _ _ _ _ _ _).
Qed.
Lemma waiting_maybe_boost a block root delay expected t spec timing :
  keeps (waiting a) (maybe_boost (E:=E) spe block root delay expected t spec timing).
Proof using H0.
  apply waiting_kept; [intros F HF; by apply lifted_maybe_boost|]. intros f _. split; [by apply queue_maybe_boost|].
  destruct (maybe_boost_run (E:=E) spe block root delay expected spec timing t f) as [->|(_ & _ & _ & _ & ->)]; done.
Qed.
Lemma waiting_block_checkpoints a block parent state t :
  keeps (waiting a) (update_block_checkpoints (E:=E) spe validator_statuses block parent state t).
Proof using H0.
  apply waiting_kept; [intros F HF; by apply lifted_block_checkpoints|]. intros f _.
  split; [by apply queue_block_checkpoints|]. apply (stepped_time_le OnPrune). intros v0. apply keeps_block_checkpoints.
Qed.
Lemma waiting_add_block a block root delay state status t timing uj uf :
  keeps (waiting a) (add_block (E:=E) spe block root delay state status t timing uj uf).
Proof using H0.
  apply waiting_kept; [intros F HF; by apply lifted_add_block|]. intros f _.
  split; [by apply queue_add_block|]. apply (stepped_time_le OnPrune). intros v0. apply keeps_add_block.
Qed.

Lemma waiting_update_time a now : is_u64 now → keeps (waiting a) (update_time (E:=E) spe now).
Proof using Hspe H0.
  intros Hnow f Hf. destruct (update_time spe now f) as [r f'] eqn:Hr. by eapply update_time_waiting in Hr as (_ & ? & _).
Qed.

(** An attestation is for a slot that has come. *)
Definition attestation_ok (ev : event) : Prop :=
  match ev with
  | OnAttestation now a _ => a.(IndexedAttestation.slot) ≤ now ∧ 0 ≤ a.(IndexedAttestation.target).(Checkpoint.epoch)
  | _ => True
  end.

(** The vote of an attestation that was accepted waits or is counted. *)
Lemma on_attestation_waiting a now b from_block f r f' :
  is_u64 now → attestation_ok (OnAttestation now b from_block) → waiting a f →
  on_attestation (E:=E) spe now b from_block f = (r, f') →
  waiting a f' ∧ (r = Ok tt → b.(IndexedAttestation.beacon_block_root) ≠ hash_zero → waiting (QueuedAttestation.from b) f').
Proof using Hspe H0.
  intros Hnow [Hslot He] Hw Hrun. unfold on_attestation in Hrun.
  apply bind_run in Hrun as [(t & f1 & H1 & Hrun)|[(e & H1 & ->)|(_ & Hn & _)]].
  2:{ by eapply update_time_waiting in H1 as (_ & ? & _). }
  2:{ destruct (update_time spe now f) as [q f1] eqn:H1. by eapply update_time_waiting in H1 as (? & _). }
  eapply update_time_waiting in H1 as (_ & Hw1 & Ht); [|done..]. destruct (Ht t eq_refl) as (Ht' & Hle & Hq & _). clear Ht.
  destruct (Z.eqb_spec b.(IndexedAttestation.beacon_block_root) hash_zero) as [Hz|Hz].
  { injection Hrun as <- <-. by split. }
  erewrite bind_ok_eq in Hrun by reflexivity.
  destruct (map_err _ (validate_on_attestation spe f1 b from_block)) as [[]|e| |];
    [|injection Hrun as <- <-; by split..].
  erewrite bind_ok_eq in Hrun by reflexivity.
  change (FcStore.get_current_slot (Fork_choice.fc_store f1)) with (V f1).(FcStore.v_time) in Hrun. rewrite <-Ht' in Hrun.
  destruct Hw1 as [Hnn Hok _ Hor]. rewrite <-Ht' in Hnn.
  destruct (Z.ltb_spec b.(IndexedAttestation.slot) t) as [Hlt|Hge].
  - destruct (apply_votes_counted b.(IndexedAttestation.attesting_indices) _ _ b.(IndexedAttestation.slot)
      b.(IndexedAttestation.index) f1 Hz He Hok) as (f2 & H2 & Hst & Hqu & Hok2 & Hc).
    pose proof (counted_kept (apply_votes (E:=E) b.(IndexedAttestation.attesting_indices)
      b.(IndexedAttestation.beacon_block_root) b.(IndexedAttestation.target).(Checkpoint.epoch)
      b.(IndexedAttestation.slot) b.(IndexedAttestation.index)) a f1) as Hk.
    rewrite H2 in Hrun, Hk. injection Hrun as <- <-.
    assert (queue_ok (V f2).(FcStore.v_time) (queue f2)) as Hqok.
    { rewrite Hst, Hqu, <-Ht'. by exists t. }
    split; [|intros _ _]; (split; [by rewrite Hst, <-Ht'|done|done|]); [|by right].
    rewrite Hqu. destruct Hor as [?|Hca]; [by left|right]. apply Hk; [|done|done].
    intros F HF. by apply (lifted_apply_votes spe).
  - injection Hrun as <- <-. assert (b.(IndexedAttestation.slot) = t) as Hbt by lia.
    set (f2 := Fork_choice.set_queue _ f1).
    assert (fine f2) as Hok2.
    { split; [apply Hok|]. apply Forall_app_2; [apply Hok|]. by apply Forall_cons_2; [|apply Forall_nil_2]. }
    assert (queue_ok (V f2).(FcStore.v_time) (queue f2)) as Hqok.
    { change (V f2) with (V f1). rewrite <-Ht'. exists t. split; [done|].
      apply Forall_app_2; [done|]. by apply Forall_cons_2; [|apply Forall_nil_2]. }
    assert (0 ≤ (V f2).(FcStore.v_time)) by (change (V f2) with (V f1); by rewrite <-Ht').
    split; [|intros _ _]; (split; [done|done|done|]); simpl.
    + destruct Hor as [?|?]; [left; set_solver|by right].
    + left. set_solver.
Qed.

Lemma waiting_on_block a now block root delay state status expected spec timing : is_u64 now →
  keeps (waiting a) (rules_on_block (E:=E) spe validator_statuses now block root delay state status expected spec timing).
Proof using Hspe H0.
  intros Hnow. unfold rules_on_block.
  keeps_steps; [by apply waiting_update_time| |apply waiting_maybe_boost|apply waiting_block_checkpoints|
    apply waiting_add_block].
  intros f' Hf. by rewrite check_block_same.
Qed.

Lemma handle_waiting a ev : clock_ok ev → attestation_ok ev → keeps (waiting a) (handle (E:=E) spe validator_statuses ev).
Proof using Hspe H0.
  intros Hclock Hev. destruct (clock ev) as [now|] eqn:Hc.
  - pose proof (Hclock _ Hc) as Hnow. destruct ev; try discriminate Hc; injection Hc as ->; simpl.
    + keeps_steps. by apply waiting_update_time.
    + unfold get_head. keeps_steps; [by apply waiting_update_time|apply waiting_find_head|].
      apply keeps_modify. intros f [? ? ? ?]. by split.
    + by apply waiting_on_block.
    + intros f Hf. destruct (on_attestation spe now a0 is_from_block f) as [r f'] eqn:Hr.
      by eapply on_attestation_waiting in Hr as [? _].
  - apply waiting_kept.
    + intros F HF. apply handle_lifted; [done|]. destruct ev; done.
    + intros f Ht. split; [by apply queue_handle|].
      pose proof (handle_steps spe validator_statuses ev f Hclock Ht) as Hs. by apply store_steps_le in Hs as [? _].
Qed.

Lemma run_waiting a es f : Forall clock_ok es → Forall attestation_ok es →
  waiting a f → waiting a (run (E:=E) spe validator_statuses es f).
Proof using Hspe H0.
  intros Hc Ha Hw. induction es as [|ev es IH] using rev_ind; [done|].
  apply Forall_app in Hc as [Hc Hcv]. apply Forall_app in Ha as [Ha Hav]. apply Forall_inv in Hcv, Hav.
  rewrite run_snoc. by apply handle_waiting; [..|apply IH].
Qed.
End queue.
