(* ===== verification/ForkChoiceRulesCorrect.v ===== *)
(** * Properties of the fork choice rules

    What holds over any sequence of events: the store's clock, checkpoints and
    proposer boost (proved on the abstract steps of [StoreSteps]), and the tree,
    the votes and the queue of attestations (by the invariants of
    [VoteQueue]). *)
From S2P Require Import Prelude SlotEpoch ProtoArrayDefs ForkChoiceDefs ForkChoiceOps GloasDefs ForkSchedule.
From S2P Require Import BeaconStateDefs JustificationDefs FcStoreDefs ForkChoiceRules FcStoreCorrect StoreSteps.
From S2P Require Import ProtoArrayWf VoteQueue.

Section runs.
Context {T E : Type} `{!FcStore.ForkChoiceStore T E} `{!FcStore.Laws T E}.
Context (spe : Z) (validator_statuses : BeaconState.t → outcome BeaconStateError.t TotalBalances.t).
Abbreviation V f := (FcStore.view (Fork_choice.fc_store f)).
Abbreviation run := (run (E:=E) spe validator_statuses).

(** An invariant of the abstract steps is one of every run. *)
Lemma run_invariant (I : FcStore.View → Prop) es f :
  (∀ ev v v', ev ∈ es → store_step spe ev v v' → I v → I v') →
  Forall clock_ok es → 0 ≤ (V f).(FcStore.v_time) → I (V f) →
  I (V (run es f)) ∧ 0 ≤ (V (run es f)).(FcStore.v_time).
Proof using H0.
  intros Hstep Hclock Hnn HI. induction es as [|ev es IH] using rev_ind; [done|].
  apply Forall_app in Hclock as [Hes Hev]. apply Forall_inv in Hev.
  destruct IH as [IH1 IH2]; [|done|].
  { intros ev' v v' Hin. apply Hstep. set_solver. }
  rewrite run_snoc. pose proof (handle_steps spe validator_statuses ev (run es f) Hev IH2) as Hsteps.
  split; [|apply store_steps_le in Hsteps as [? _]; lia].
  revert IH1. clear IH2. induction Hsteps as [|u v w Hs _ IHs]; [done|]. intros Hu. apply IHs.
  eapply Hstep; [|done|done]. set_solver.
Qed.

Lemma run_le es f : Forall clock_ok es → 0 ≤ (V f).(FcStore.v_time) → view_le (V f) (V (run es f)).
Proof using H0.
  intros Hc Hnn. apply (run_invariant (view_le (V f)) es f); [|done|done|apply view_le_refl].
  intros ev v v' _ Hs Hv. etransitivity; [exact Hv|]. by eapply store_step_le.
Qed.

(** The boost is that of a timely block of the current slot. *)
Definition boost_ok (es : list event) (v : FcStore.View) : Prop :=
  v.(FcStore.v_boost) = hash_zero ∨
  ∃ ev, ev ∈ es ∧ is_timely spe ev v.(FcStore.v_time) v.(FcStore.v_boost).

Lemma boost_ok_step es ev v v' : ev ∈ es → store_step spe ev v v' → boost_ok es v → boost_ok es v'.
Proof. intros Hin [] Hv; try done; [by left|]. right. eauto. Qed.

(** The boost that was given in slot [t] stays until the next slot. *)
Definition boost_held (t : Slot) (b : Hash256) (v : FcStore.View) : Prop :=
  t ≤ v.(FcStore.v_time) ∧ (v.(FcStore.v_time) = t → v.(FcStore.v_boost) = b).

Lemma boost_held_step t b ev v v' : b ≠ hash_zero → store_step spe ev v v' → boost_held t b v → boost_held t b v'.
Proof.
  intros Hb Hs [Hle Hv]. destruct Hs as [| | | | |v root Hz _|]; split; simpl in *; try done; try lia.
Qed.
End runs.

(** C12. Over any sequence of events, whatever each one's outcome, the store's
    clock and the epochs of its four checkpoints never go back and the set of
    equivocating validators never shrinks. *)
Theorem store_never_goes_back {T E} `{!FcStore.ForkChoiceStore T E} `{!FcStore.Laws T E} spe validator_statuses
    es1 es2 (f : Fork_choice.t T) :
  Forall clock_ok (es1 ++ es2) → 0 ≤ FcStore.get_current_slot f.(Fork_choice.fc_store) →
  view_le (FcStore.view (run (E:=E) spe validator_statuses es1 f).(Fork_choice.fc_store))
    (FcStore.view (run (E:=E) spe validator_statuses (es1 ++ es2) f).(Fork_choice.fc_store)).
Proof.
  intros Hc Hnn. apply Forall_app in Hc as [H1 H2]. rewrite run_app. apply run_le; [done|].
  pose proof (run_le (E:=E) spe validator_statuses es1 f H1 Hnn) as [Hle _]. simpl in *. lia.
Qed.

Definition rx_events : list event := [rx_on_block 1 1 1000000000; OnTime 2; OnAttesterSlashing [0; 1]%nat [1; 2]%nat].
Lemma rx_clock_ok : Forall clock_ok (rx_events ++ [OnTime 1; rx_on_block 9 2 0]).
Proof. unfold rx_events. simpl. clocks. Qed.

Lemma store_never_goes_back_witness :
  view_le (FcStore.view (rx_run rx_events).(Fork_choice.fc_store))
    (FcStore.view (rx_run (rx_events ++ [OnTime 1; rx_on_block 9 2 0])).(Fork_choice.fc_store)) ∧
  FcStore.equivocating_indices (rx_run rx_events).(Fork_choice.fc_store) = {[1%nat]}.
Proof.
  split; [|vm_compute; reflexivity].
  apply (store_never_goes_back rx_spe rx_statuses); [apply rx_clock_ok|vm_compute; congruence].
Defined.

(** C22. The proposer boost of a client that starts without one always belongs to
    a block of the current slot that arrived before the attestation deadline
    from the expected proposer; once given, it stays with that block for the
    whole slot, whatever happens. *)
Theorem boost_is_timely {T E} `{!FcStore.ForkChoiceStore T E} `{!FcStore.Laws T E} spe validator_statuses
    es1 es2 (f : Fork_choice.t T) :
  Forall clock_ok (es1 ++ es2) → 0 ≤ FcStore.get_current_slot f.(Fork_choice.fc_store) →
  FcStore.proposer_boost_root f.(Fork_choice.fc_store) = hash_zero →
  let s1 := (run (E:=E) spe validator_statuses es1 f).(Fork_choice.fc_store) in
  let s2 := (run (E:=E) spe validator_statuses (es1 ++ es2) f).(Fork_choice.fc_store) in
  (FcStore.proposer_boost_root s1 ≠ hash_zero →
     ∃ ev, ev ∈ es1 ∧ is_timely spe ev (FcStore.get_current_slot s1) (FcStore.proposer_boost_root s1)) ∧
  (FcStore.proposer_boost_root s1 ≠ hash_zero → FcStore.get_current_slot s2 = FcStore.get_current_slot s1 →
     FcStore.proposer_boost_root s2 = FcStore.proposer_boost_root s1).
Proof.
  intros Hc Hnn Hz s1 s2. apply Forall_app in Hc as [H1 H2].
  destruct (run_invariant (E:=E) spe validator_statuses (boost_ok spe es1) es1 f) as [Hok Hnn1];
    [intros ev v v'; apply boost_ok_step|done|done|by left|].
  split; [by intros ?; destruct Hok as [?|?]|]. intros Hb Ht.
  destruct (run_invariant (E:=E) spe validator_statuses
              (boost_held (FcStore.get_current_slot s1) (FcStore.proposer_boost_root s1)) es2
              (run spe validator_statuses es1 f)) as [[_ Hh] _]; [|done|done| |].
  - intros ev v v' _ Hs. by eapply boost_held_step.
  - by split.
  - rewrite <-run_app in Hh. by apply Hh.
Qed.

Lemma boost_is_timely_witness :
  let s1 := (rx_run [rx_on_block 1 1 1000000000]).(Fork_choice.fc_store) in
  FcStore.proposer_boost_root s1 = 101 ∧
  ∃ ev, ev ∈ [rx_on_block 1 1 1000000000] ∧ is_timely rx_spe ev 1 101.
Proof.
  split; [vm_compute; reflexivity|].
  refine (proj1 (boost_is_timely rx_spe rx_statuses [rx_on_block 1 1 1000000000] [] rx_anchor _ _ _) _).
  - clocks.
  - vm_compute; congruence.
  - vm_compute; reflexivity.
  - vm_compute; congruence.
Defined.

(** ** Time *)
Lemma update_time_queue {T E} `{!FcStore.ForkChoiceStore T E} (f : Fork_choice.t T) :
  ∃ f', process_attestation_queue (E:=E) f = (Ok tt, f') ∧ f'.(Fork_choice.fc_store) = f.(Fork_choice.fc_store) ∧
    Fork_choice.tree f' = Fork_choice.tree f ∧
    f'.(Fork_choice.queued_attestations) =
      (dequeue_attestations (FcStore.get_current_slot f.(Fork_choice.fc_store)) f.(Fork_choice.queued_attestations)).2.
Proof.
  unfold process_attestation_queue. erewrite bind_ok_eq by reflexivity.
  destruct (dequeue_attestations _ _) as [due rest]. erewrite bind_ok_eq by reflexivity.
  set (f0 := Fork_choice.set_queue rest f).
  assert (∀ l r e s i (g : Fork_choice.t T), ∃ g', apply_votes (E:=E) l r e s i g = (Ok tt, g') ∧
    g'.(Fork_choice.fc_store) = g.(Fork_choice.fc_store) ∧ Fork_choice.tree g' = Fork_choice.tree g ∧
    g'.(Fork_choice.queued_attestations) = g.(Fork_choice.queued_attestations)) as Hvotes.
  { intros l r e s i. induction l as [|x l IH]; intros g; [by exists g|].
    unfold apply_votes. simpl. erewrite bind_ok_eq by reflexivity.
    match goal with |- context [for_each _ _ ?g1] => destruct (IH g1) as (g' & Hr & ? & ? & ?) end. by exists g'. }
  enough (∃ f', for_each due (fun a => apply_votes (E:=E) a.(QueuedAttestation.attesting_indices)
      a.(QueuedAttestation.block_root) a.(QueuedAttestation.target_epoch) a.(QueuedAttestation.slot)
      a.(QueuedAttestation.index)) f0 = (Ok tt, f') ∧ f'.(Fork_choice.fc_store) = f0.(Fork_choice.fc_store) ∧
    Fork_choice.tree f' = Fork_choice.tree f0 ∧
    f'.(Fork_choice.queued_attestations) = f0.(Fork_choice.queued_attestations)) as (f' & ? & ? & ? & ?) by (by exists f').
  clearbody f0. revert f0. induction due as [|a due IH]; intros f0; [by exists f0|]. simpl.
  edestruct Hvotes as (f1 & Hr & H1 & H2 & H3). rewrite (bind_ok_eq _ _ _ _ _ Hr).
  destruct (IH f1) as (f' & ? & ? & ? & ?). exists f'. split_and!; congruence.
Qed.

(** [update_time] always returns.  It moves the clock to the later of the
    system clock and the store's, ticking through every slot between; that is
    the same as one jump that resets the proposer boost if the clock moved and
    pulls up the unrealized checkpoints if an epoch began on the way.  It takes
    the due attestations off the queue and leaves the tree alone.  Where the
    store fails to load a justified state, nothing goes back and the tree and the
    queue are as before. *)
Theorem update_time_correct {T E} `{!FcStore.ForkChoiceStore T E} `{!FcStore.Laws T E} spe now (f : Fork_choice.t T) :
  0 < spe → is_u64 now → 0 ≤ FcStore.get_current_slot f.(Fork_choice.fc_store) →
  let v := FcStore.view f.(Fork_choice.fc_store) in
  let t := Z.max now v.(FcStore.v_time) in
  match update_time (E:=E) spe now f with
  | (Ok slot, f') => slot = t ∧ FcStore.view f'.(Fork_choice.fc_store) = time_view spe now v ∧
      Fork_choice.tree f' = Fork_choice.tree f ∧
      f'.(Fork_choice.queued_attestations) = (dequeue_attestations t f.(Fork_choice.queued_attestations)).2
  | (Err _, f') => view_le v (FcStore.view f'.(Fork_choice.fc_store)) ∧ same_rest f f'
  | _ => False
  end.
Proof.
  intros Hspe Hnow Hnn v t. destruct (update_time spe now f) as [r f'] eqn:Hrun.
  unfold update_time in Hrun. erewrite bind_ok_eq in Hrun by reflexivity.
  change (FcStore.get_current_slot (Fork_choice.fc_store f)) with v.(FcStore.v_time) in *.
  set (n := Z.to_nat (now - v.(FcStore.v_time))) in Hrun.
  destruct (tick_loop spe n now f) as [q f1] eqn:H1. pose proof H1 as Htick.
  apply tick_loop_run in Htick as (Hret & Hsame & Hv); [|done..].
  destruct Hv as [[-> Hv]|[[e ->] Hle]].
  - rewrite (bind_ok_eq _ _ _ _ _ H1) in Hrun.
    destruct (update_time_queue (E:=E) f1) as (f2 & H2 & Hst & Htr & Hq).
    rewrite (bind_ok_eq _ _ _ _ _ H2) in Hrun. injection Hrun as <- <-.
    pose proof (iter_next_slot_time spe n v) as Htime. unfold v in Htime at 1. rewrite <-Hv in Htime.
    change (FcStore.v_time (FcStore.view f1.(Fork_choice.fc_store)))
      with (FcStore.get_current_slot f1.(Fork_choice.fc_store)) in Htime.
    assert (FcStore.get_current_slot f1.(Fork_choice.fc_store) = t) as Ht by (rewrite Htime; unfold t, n; lia).
    destruct Hsame as (Hpa & Hqu & _). rewrite Ht, Hqu in Hq. split_and!; [by rewrite Hst| | |done].
    + rewrite Hst, Hv, iter_next_slot by done. unfold time_view. fold v.
      destruct (Z.leb_spec now v.(FcStore.v_time)).
      * replace (v.(FcStore.v_time) + Z.of_nat n) with v.(FcStore.v_time) by (unfold n; lia). by rewrite Z.leb_refl.
      * replace (v.(FcStore.v_time) + Z.of_nat n) with now by (unfold n; lia).
        by rewrite (proj2 (Z.leb_gt _ _)).
    + rewrite Htr. unfold Fork_choice.tree, Fork_choice.fc. by rewrite Hpa.
  - unfold mbind, M_bind in Hrun. rewrite H1 in Hrun. injection Hrun as <- <-. done.
Qed.


(** ** The tree and the votes *)
Lemma empty_array_wf k jc fin b : wf (ProtoArray.mk k jc fin [] ∅ b).
Proof.
  split; [split|].
  - intros i n p Hn. by destruct i.
  - intros r i. split; [intros Hr; simpl in Hr; by apply lookup_empty_Some in Hr|]. intros (n & Hn & _). by destruct i.
  - intros i n Hn. by destruct i.
Qed.

(** An invariant that [new] establishes holds of a client at its anchor. *)
Lemma from_anchor_lifted {T E} `{!FcStore.ForkChoiceStore T E} spe F store root block payload state hash slot spec
    (f : Fork_choice.t T) : fc_invariant spe F →
  (∀ s fs sr jc fin c n st fc, new spe s fs sr jc fin c n st = Ok fc → F fc) →
  (∀ bid h z i fc, F fc → F (ForkChoice.set_proto_array
     (ProtoArray.alter_node (anchor_node bid h z) i fc.(ForkChoice.proto_array)) fc)) →
  from_anchor (E:=E) spe store root block payload state hash slot spec = Ok f → lifted F f.
Proof.
  intros HF Hnew Hanchor Hf. unfold from_anchor in Hf. destruct (negb _); [done|].
  destruct (map_err _ (attestation_shuffling_id_new _ _ _ Current)) as [c| | |]; [|done..]. simpl in Hf.
  destruct (map_err _ (attestation_shuffling_id_new _ _ _ Next)) as [n| | |]; [|done..]. simpl in Hf.
  destruct (new _ _ _ _ _ _ _ _ _) as [fc| | |] eqn:Hfc; [|done..]. simpl in Hf.
  match type of Hf with (let '(_, _) := get_head _ _ _ ?f0 in _) = _ =>
    assert (lifted F f0) as Hlift end.
  { split; [|by apply Forall_nil_2]. unfold Fork_choice.fc. simpl. apply Hnew in Hfc.
    destruct (BeaconBlock.signed_execution_payload_bid block); [|by destruct fc].
    destruct (_ !! root); [by apply Hanchor|by destruct fc]. }
  match type of Hf with (let '(_, _) := get_head _ ?s _ _ in _) = _ =>
    pose proof (lifted_get_head (E:=E) spe F HF s spec _ Hlift) as Hh; destruct (get_head _ _ _ _) as [[r|e| |] f'] end;
    [|done..]. by injection Hf as <-.
Qed.

Lemma new_wf spe s fs sr jc fin c n st fc : new spe s fs sr jc fin c n st = Ok fc →
  wf fc.(ForkChoice.proto_array) ∧ votes_ok fc.(ForkChoice.votes).
Proof.
  unfold new. match goal with |- context [on_block _ ?b _ ?pa] =>
    pose proof (keeps_on_block spe b s pa (empty_array_wf _ _ _ _)) as Hwf; destruct (on_block _ _ _ _) as [r pa'] end.
  destruct r as [[]| | |]; intros [= <-]. split; [done|]. by apply Forall_nil_2.
Qed.

Lemma anchor_wf {T E} `{!FcStore.ForkChoiceStore T E} spe store root block payload state hash slot spec (f : Fork_choice.t T) :
  from_anchor (E:=E) spe store root block payload state hash slot spec = Ok f →
  lifted (wf ∘ ForkChoice.proto_array) f ∧ lifted (votes_ok ∘ ForkChoice.votes) f.
Proof.
  intros Hf. split; (eapply from_anchor_lifted; [| | |exact Hf]).
  - apply wf_fc_invariant.
  - intros *. by intros [? _]%new_wf.
  - intros bid h z i fc. apply same_shape_wf; [|done]. by apply alter_same_shape.
  - apply votes_ok_fc_invariant.
  - intros *. by intros [_ ?]%new_wf.
  - done.
Qed.


Definition rx_block_0 : BeaconBlock.t := BeaconBlock.mk ForkName.Electra 0 0 0 500 None None.
Lemma rx_from_anchor :
  from_anchor (E:=FcStoreError.t) rx_spe rx_store 100 rx_block_0 None (rx_state 0) None None rx_spec = Ok rx_anchor.
Proof. vm_compute. reflexivity. Qed.
Lemma rx_wf es : Forall target_ok es → wf (Fork_choice.tree (rx_run es)).
Proof.
  intros Hes. apply (run_lifted (E:=FcStoreError.t) rx_spe rx_statuses _ (wf_fc_invariant rx_spe) es rx_anchor Hes).
  apply (anchor_wf _ _ _ _ _ _ _ _ _ _ rx_from_anchor).
Qed.


Lemma counted_latest fc i e : counted i e fc.(ForkChoice.votes) →
  ∃ r e', latest_message fc i = Some (r, e') ∧ e ≤ e' ∧ r ≠ hash_zero.
Proof.
  intros (v & Hv & Hr & He). unfold latest_message. rewrite Hv. rewrite bool_decide_false by (by intros ->). eauto.
Qed.


Definition rx_vote : event := OnAttestation 2 (rx_attestation 2 101 [0; 2]%nat) false.
Definition rx_voted : Fork_choice.t BeaconForkChoiceStore.t :=
  (handle (E:=FcStoreError.t) rx_spe rx_statuses rx_vote (rx_run [rx_on_block 1 1 0])).2.
Definition rx_later : outcome (RulesError.t FcStoreError.t) Slot * Fork_choice.t BeaconForkChoiceStore.t :=
  update_time (E:=FcStoreError.t) rx_spe 3 (run (E:=FcStoreError.t) rx_spe rx_statuses [rx_on_block 2 2 0] rx_voted).
Lemma rx_vote_accepted :
  handle (E:=FcStoreError.t) rx_spe rx_statuses rx_vote (rx_run [rx_on_block 1 1 0]) = (Ok tt, rx_voted).
Proof.
  assert ((handle (E:=FcStoreError.t) rx_spe rx_statuses rx_vote (rx_run [rx_on_block 1 1 0])).1 = Ok tt) as Hr
    by (vm_compute; reflexivity).
  unfold rx_voted. by destruct (handle _ _ _ _) as [r f]; simpl in Hr; subst r.
Qed.
Lemma rx_later_ok : rx_later = (Ok 3, rx_later.2).
Proof.
  assert (rx_later.1 = Ok 3) as Hr by (vm_compute; reflexivity). by destruct rx_later as [r f]; simpl in Hr; subst r.
Qed.
Lemma rx_anchor_start : 0 ≤ FcStore.get_current_slot rx_anchor.(Fork_choice.fc_store) ∧
  rx_anchor.(Fork_choice.queued_attestations) = [] ∧ (Fork_choice.fc rx_anchor).(ForkChoice.votes) = [].
Proof. vm_compute. split; [congruence|done]. Qed.


(** The queue is in the order of arrival: an attestation for a later slot,
    which validation accepts within the epoch, holds back those behind it.  Here
    validator 1 attests at slot 2; at slot 3 the vote is due but not counted,
    since a vote of validator 0 for slot 3 came first. *)
Theorem early_vote_holds_back_due_vote :
  let due := OnAttestation 2 (rx_attestation 2 101 [1]%nat) false in
  let early := OnAttestation 2 (rx_attestation 3 101 [0]%nat) false in
  let f := rx_run [rx_on_block 1 1 0; early; due; OnTime 3] in
  let f' := rx_run [rx_on_block 1 1 0; due; OnTime 3] in
  (handle (E:=FcStoreError.t) rx_spe rx_statuses early (rx_run [rx_on_block 1 1 0])).1 = Ok tt ∧
  FcStore.get_current_slot f.(Fork_choice.fc_store) = 3 ∧
  latest_message (Fork_choice.fc f) 1 = None ∧ latest_message (Fork_choice.fc f') 1 = Some (101, 0).
Proof. vm_compute. done. Qed.
