(* ===== verification/BlockRules.v ===== *)
(** * Blocks under the fork choice rules

    Which blocks [on_block] accepts, and what an accepted block and a rejected one
    do to the tree. *)
From S2P Require Import Prelude SlotEpoch ProtoArrayDefs ProtoArrayWf ProtoArrayWalk ProtoArrayExec ForkChoiceDefs ForkChoiceOps.
From S2P Require Import GloasDefs ForkSchedule BeaconStateDefs JustificationDefs FcStoreDefs ForkChoiceRules.
From S2P Require Import FcStoreCorrect StoreSteps VoteQueue ForkChoiceRulesCorrect.

(** ** Ancestors *)

(** The walk of [get_ancestor] from the node of [block_root]. *)
Lemma find_walk pa (s : Slot) fuel j r :
  tree_ok pa → (fst <$> List.find (fun '(_, slot) => slot <=? s)
    (map (fun node => (node.(ProtoNode.root), node.(ProtoNode.slot))) (iter_collect fuel pa (Some j)))) = Some r →
  ∃ i n, pa.(ProtoArray.indices) !! r = Some i ∧ pa.(ProtoArray.nodes) !! i = Some n ∧
    n.(ProtoNode.slot) ≤ s ∧ anc pa.(ProtoArray.nodes) i j.
Proof.
  intros Hok. revert j. induction fuel as [|fuel IH]; intros j; [done|]. simpl.
  destruct (pa.(ProtoArray.nodes) !! j) as [n|] eqn:Hn; [|done]. simpl.
  destruct (Z.leb_spec n.(ProtoNode.slot) s) as [Hle|Hgt]; simpl.
  - intros [= <-]. exists j, n. split_and!; [by eapply node_indices|done|done|]. constructor. by eapply lookup_lt_Some.
  - destruct n.(ProtoNode.parent) as [p|] eqn:Hp; [|by destruct fuel].
    intros Hf. destruct (IH p Hf) as (i & ni & Hi & Hni & Hs & Ha). exists i, ni. split_and!; [done..|].
    by eapply anc_step.
Qed.

Section rules.
Context {T E : Type} `{!FcStore.ForkChoiceStore T E}.
Context (spe : Z) (validator_statuses : BeaconState.t → outcome BeaconStateError.t TotalBalances.t).

Lemma get_block_node fc r b : get_block fc r = Some b →
  ∃ i n, fc.(ForkChoice.proto_array).(ProtoArray.indices) !! r = Some i ∧
    fc.(ForkChoice.proto_array).(ProtoArray.nodes) !! i = Some n ∧ b.(Block.slot) = n.(ProtoNode.slot).
Proof.
  unfold get_block, get_proto_node. intros Hb.
  destruct (ProtoArray.indices _ !! r) as [i|] eqn:Hi; [|done]. simpl in Hb.
  destruct (ProtoArray.nodes _ !! i) as [n|] eqn:Hn; [|done]. simpl in Hb. injection Hb as <-. by exists i, n.
Qed.

(** [get_ancestor] returns an ancestor of the slot or before. *)
Lemma get_ancestor_anc (f : Fork_choice.t T) r s a : tree_ok (Fork_choice.tree f) →
  get_ancestor (E:=E) f r s = Ok (Some a) →
  ∃ i j n, (Fork_choice.tree f).(ProtoArray.indices) !! a = Some i ∧
    (Fork_choice.tree f).(ProtoArray.indices) !! r = Some j ∧
    (Fork_choice.tree f).(ProtoArray.nodes) !! i = Some n ∧ n.(ProtoNode.slot) ≤ s ∧
    anc (Fork_choice.tree f).(ProtoArray.nodes) i j.
Proof.
  intros Hok. unfold get_ancestor. destruct (get_block (Fork_choice.fc f) r) as [b|] eqn:Hb; [|done].
  destruct (get_block_node _ _ _ Hb) as (j & nj & Hj & Hnj & Hslot). simpl.
  destruct (Z.ltb_spec s b.(Block.slot)) as [Hlt|Hge].
  - intros [= Hf]. unfold iter_block_roots, iter_nodes in Hf. unfold Fork_choice.tree in *. rewrite Hj in Hf.
    apply find_walk in Hf as (i & n & Hi & Hn & Hs & Ha); [|done]. by exists i, j, n.
  - intros [= <-]. exists j, j, nj. split_and!; [done..|lia|]. constructor. by eapply lookup_lt_Some.
Qed.

(** ** The code before the insertion touches the store only *)
Section same.
Context (f0 : Fork_choice.t T).
Lemma same_on_store {A} err (m : M T E A) : keeps (same_rest f0) (on_store err m).
Proof. intros f Hf. unfold on_store. by destruct (m _). Qed.
Lemma same_modify_store g : keeps (same_rest f0) (modify_store (E:=E) g).
Proof. by apply keeps_modify. Qed.
Lemma same_state_err {A} (o : outcome BeaconStateError.t A) : keeps (same_rest f0) (state_err (E:=E) o).
Proof. apply keeps_lift. Qed.
#[local] Hint Resolve same_on_store same_modify_store same_state_err : keeps.
Lemma same_checkpoints j fin o : keeps (same_rest f0) (update_checkpoints (E:=E) j fin o).
Proof. unfold update_checkpoints. keeps_steps. Qed.
Lemma same_block_checkpoints block parent state t :
  keeps (same_rest f0) (update_block_checkpoints (E:=E) spe validator_statuses block parent state t).
Proof. unfold update_block_checkpoints. keeps_steps; apply same_checkpoints. Qed.
Lemma same_maybe_boost block root delay expected t spec timing :
  keeps (same_rest f0) (maybe_boost (E:=E) spe block root delay expected t spec timing).
Proof. unfold maybe_boost. keeps_steps. Qed.
Lemma same_tick_loop fuel now : keeps (same_rest f0) (tick_loop (E:=E) spe fuel now).
Proof.
  induction fuel as [|fuel IH]; simpl; keeps_steps; try done.
  unfold on_tick. keeps_steps. apply same_checkpoints.
Qed.
End same.

Lemma update_time_tree now (f : Fork_choice.t T) :
  Fork_choice.tree (update_time (E:=E) spe now f).2 = Fork_choice.tree f.
Proof.
  enough (keeps (fun f' => Fork_choice.tree f' = Fork_choice.tree f) (update_time (E:=E) spe now)) as Hk by (by apply Hk).
  unfold update_time. keeps_steps.
  - intros f1 Hf1. match goal with |- Fork_choice.tree (tick_loop _ ?n _ _).2 = _ =>
      destruct (same_tick_loop f1 n now f1) as (Hpa & _); [done|] end.
    rewrite <-Hf1. unfold Fork_choice.tree, Fork_choice.fc. by rewrite Hpa.
  - unfold process_attestation_queue. keeps_steps; [by apply keeps_modify|].
    apply keeps_for_each. intros x _. apply keeps_for_each. intros y _ f1 Hf1. done.
Qed.
End rules.

(** ** Insertion *)
Lemma on_block_pushes spe block slot pa pa' : wf pa → pa.(ProtoArray.indices) !! block.(Block.root) = None →
  on_block spe block slot pa = (Ok tt, pa') → linked (push_node (node_of_block pa block) pa) pa'.
Proof.
  intros Hwf Hnew Hrun. unfold on_block in Hrun. rewrite (bind_ok_eq _ _ pa pa pa) in Hrun by done.
  rewrite bool_decide_eq_false_2 in Hrun by (by rewrite Hnew). cbv zeta in Hrun. set (n := node_of_block pa block) in *.
  assert (wf (push_node n pa)) as Hwf1.
  { apply push_wf; try done. intros p. apply node_of_block_parent_lt, (wf_tree _ Hwf). }
  apply bind_ok in Hrun as ([] & pa1 & H1 & Hrun).
  assert (pa1 = pa) as ->.
  { destruct n.(ProtoNode.parent) as [p|]; [|by injection H1 as <-]. unfold mbind, M_bind, lift in H1.
    destruct (pa.(ProtoArray.nodes) !! p); [|done]. simpl in H1. destruct (ExecutionStatus.is_invalid _); [done|].
    by injection H1 as <-. }
  erewrite bind_ok_eq in Hrun by reflexivity.
  assert (keeps (linked (push_node n pa)) match n.(ProtoNode.parent) with
    | Some p => maybe_update_best_child_and_descendant spe p (length pa.(ProtoArray.nodes)) slot ;;
        when (ExecutionStatus.is_valid_and_post_bellatrix block.(Block.execution_status))
          (propagate_execution_payload_validation_by_index p)
    | None => mret tt end) as Hk.
  { destruct n.(ProtoNode.parent) as [p|] eqn:Hp; [|apply keeps_ret].
    apply keeps_bind; [|intros; apply keeps_when, keeps_validation_by_index].
    apply keeps_maybe_update. exists n. split; [|done]. by rewrite push_lookup, decide_True. }
  specialize (Hk (push_node n pa)). rewrite Hrun in Hk. by apply Hk, wf_linked.
Qed.

(** ** Errors *)
Definition not_invalid_block {E} (e : RulesError.t E) : Prop :=
  match e with RulesError.InvalidBlock _ => False | _ => True end.

Section errors.
Context {T E : Type} `{!FcStore.ForkChoiceStore T E}.
Context (spe : Z) (validator_statuses : BeaconState.t → outcome BeaconStateError.t TotalBalances.t).
Abbreviation other := (not_invalid_block (E:=E)).

Lemma raises_on_store {A} (P : RulesError.t E → Prop) err (m : M T E A) : (∀ e, P (err e)) → raises P (on_store err m).
Proof. intros Herr f e. unfold on_store. destruct (m _) as [[?|e'| |] ?]; simpl; try done. by intros [= <-]. Qed.
Lemma raises_on_fc {A} (P : RulesError.t E → Prop) err (m : M ForkChoice.t FcError.t A) :
  (∀ e, P (err e)) → raises (S:=Fork_choice.t T) P (on_fc err m).
Proof. intros Herr f e. unfold on_fc. destruct (m _) as [[?|e'| |] ?]; simpl; try done. by intros [= <-]. Qed.
Lemma raises_modify_store P g : raises P (modify_store (T:=T) (E:=E) g).
Proof. apply raises_modify. Qed.
Lemma raises_map_err {A E'} (P : RulesError.t E → Prop) err (o : outcome E' A) :
  (∀ e, P (err e)) → raises (S:=Fork_choice.t T) P (lift (map_err err o)).
Proof. intros Herr. apply raises_lift. intros e. destruct o; simpl; try done. by intros [= <-]. Qed.
#[local] Hint Resolve raises_modify_store : raises.

Lemma checkpoints_errors j fin (o : outcome (RulesError.t E) Hash256) : (∀ e, o = Err e → other e) →
  raises (S:=Fork_choice.t T) other (update_checkpoints j fin o).
Proof. intros Ho. unfold update_checkpoints. raises_steps; [by apply raises_lift|by apply raises_on_store]. Qed.

Lemma update_time_errors now : raises (S:=Fork_choice.t T) other (update_time (E:=E) spe now).
Proof.
  unfold update_time. raises_steps.
  - assert (∀ t, raises (S:=Fork_choice.t T) other (on_tick (E:=E) spe t)) as Htick.
    { intros t. unfold on_tick. raises_steps; [by apply raises_throw|by apply checkpoints_errors]. }
    generalize (Z.to_nat (now - FcStore.get_current_slot (Fork_choice.fc_store a))). intros n.
    induction n as [|n IH]; simpl; raises_steps; auto. by apply raises_lift.
  - unfold process_attestation_queue. raises_steps. apply raises_for_each. intros x. apply raises_for_each.
    intros y. by apply raises_on_fc.
Qed.

Lemma block_checkpoints_errors block parent state t :
  raises (S:=Fork_choice.t T) other (update_block_checkpoints (E:=E) spe validator_statuses block parent state t).
Proof.
  assert (∀ {A} (o : outcome BeaconStateError.t A) e, map_err RulesError.BeaconStateError o = Err e → other e) as Hbs.
  { intros A o e. destruct o; simpl; try done. by intros [= <-]. }
  unfold update_block_checkpoints. raises_steps; try (apply checkpoints_errors; apply Hbs); try (by apply raises_map_err).
  apply raises_lift. intros e. unfold unrealized_checkpoints.
  assert (∀ o : outcome (RulesError.t E) (JustificationAndFinalizationState.t), (∀ e, o = Err e → other e) →
    (jf ← o; Ok (jf.(JustificationAndFinalizationState.current_justified_checkpoint),
      jf.(JustificationAndFinalizationState.finalized_checkpoint))) = Err e → other e) as Hcomp.
  { intros o Ho. destruct o; simpl; try done. intros [= <-]. by apply Ho. }
  assert (∀ {A E'} (err : E' → RulesError.t E) (o : outcome E' A) e, (∀ x, other (err x)) → map_err err o = Err e → other e)
    as Hmap. { intros A E' err o e' Herr. destruct o; simpl; try done. by intros [= <-]. }
  repeat case_match; try done; apply Hcomp; intros e'; try (by apply Hmap);
    (destruct (validator_statuses state); simpl; try done; [by apply Hmap|by intros [= <-]]).
Qed.

Lemma add_block_errors block root delay state status t timing uj uf :
  raises (S:=Fork_choice.t T) other (add_block (E:=E) spe block root delay state status t timing uj uf).
Proof.
  unfold add_block. raises_steps; try (by apply raises_map_err); [by apply raises_on_store| |by apply raises_on_fc].
  apply raises_lift. intros e. unfold execution_status_of. repeat case_match; try done. by intros [= <-].
Qed.

(** ** Verdicts *)

(** Why a block is refused, with the store at time [t]. *)
Definition refused (block : BeaconBlock.t) (t : Slot) (f : Fork_choice.t T) (e : InvalidFcBlock.t) : Prop :=
  let fin := FcStore.finalized_checkpoint f.(Fork_choice.fc_store) in
  let finalized_slot := start_slot fin.(Checkpoint.epoch) spe in
  match e with
  | InvalidFcBlock.UnknownParent r => r = block.(BeaconBlock.parent_root) ∧ get_block (Fork_choice.fc f) r = None
  | InvalidFcBlock.FutureSlot c s => c = t ∧ s = block.(BeaconBlock.slot) ∧ t < s
  | InvalidFcBlock.FinalizedSlot fs s => fs = finalized_slot ∧ s = block.(BeaconBlock.slot) ∧ s ≤ fs
  | InvalidFcBlock.NotFinalizedDescendant r a => r = fin.(Checkpoint.root) ∧
      get_ancestor (E:=E) f block.(BeaconBlock.parent_root) finalized_slot = Ok a ∧ a ≠ Some r
  end.

(** The checks in one place. *)
Lemma check_block_cases block t f r f' : check_block (E:=E) spe block t f = (r, f') →
  let fin := FcStore.finalized_checkpoint f.(Fork_choice.fc_store) in
  let finalized_slot := start_slot fin.(Checkpoint.epoch) spe in
  f' = f ∧
  ((∃ e, r = Err (RulesError.InvalidBlock e) ∧ refused block t f e) ∨
   ∃ parent, r = Ok parent ∧ get_block (Fork_choice.fc f) block.(BeaconBlock.parent_root) = Some parent ∧
     finalized_slot < block.(BeaconBlock.slot) ≤ t ∧
     get_ancestor (E:=E) f block.(BeaconBlock.parent_root) finalized_slot = Ok (Some fin.(Checkpoint.root))).
Proof.
  intros Hrun fin finalized_slot. split; [by rewrite <-(check_block_same (E:=E) spe block t f), Hrun|].
  unfold check_block in Hrun. erewrite bind_ok_eq in Hrun by reflexivity. cbv zeta in Hrun.
  unfold compute_start_slot_at_epoch in Hrun. fold fin in Hrun. fold finalized_slot in Hrun.
  destruct (get_block _ _) as [parent|] eqn:Hb.
  2:{ injection Hrun as <- <-. left. eexists. split; [done|]. done. }
  erewrite bind_ok_eq in Hrun by reflexivity.
  destruct (Z.ltb_spec t block.(BeaconBlock.slot)) as [Hlt|Hge].
  { injection Hrun as <- <-. left. eexists. split; [done|]. done. }
  erewrite bind_ok_eq in Hrun by reflexivity.
  destruct (Z.leb_spec block.(BeaconBlock.slot) finalized_slot) as [Hle|Hgt].
  { injection Hrun as <- <-. left. eexists. split; [done|]. done. }
  erewrite bind_ok_eq in Hrun by reflexivity.
  assert (∃ a, get_ancestor (E:=E) f block.(BeaconBlock.parent_root) finalized_slot = Ok a) as [a Ha].
  { unfold get_ancestor. rewrite Hb. simpl. case_match; eauto. }
  rewrite Ha in Hrun. erewrite bind_ok_eq in Hrun by reflexivity.
  case_bool_decide as Hd; simpl in Hrun.
  - erewrite bind_ok_eq in Hrun by reflexivity. injection Hrun as <- <-. right. exists parent.
    split_and!; try done; try lia. by rewrite Ha, Hd.
  - injection Hrun as <- <-. left. eexists. split; [done|]. done.
Qed.
End errors.

Section verdicts.
Context {T E : Type} `{!FcStore.ForkChoiceStore T E}.
Context (spe : Z) (validator_statuses : BeaconState.t → outcome BeaconStateError.t TotalBalances.t).

(** The new node under its parent. *)
Definition extended (block : BeaconBlock.t) (root : Hash256) (pa pa' : ProtoArray.t) : Prop :=
  let j := length pa.(ProtoArray.nodes) in
  pa'.(ProtoArray.indices) = <[root := j]> pa.(ProtoArray.indices) ∧
  ∃ n, pa'.(ProtoArray.nodes) !! j = Some n ∧ n.(ProtoNode.slot) = block.(BeaconBlock.slot) ∧
    n.(ProtoNode.parent) = pa.(ProtoArray.indices) !! block.(BeaconBlock.parent_root) ∧
    length pa'.(ProtoArray.nodes) = S j ∧
    (∀ i ni, pa.(ProtoArray.nodes) !! i = Some ni → ∃ ni', pa'.(ProtoArray.nodes) !! i = Some ni' ∧
       static ni' = static ni) ∧
    ∀ a b, anc pa.(ProtoArray.nodes) a b → anc pa'.(ProtoArray.nodes) a b.

Lemma push_anc pa n a b : anc pa.(ProtoArray.nodes) a b → anc (push_node n pa).(ProtoArray.nodes) a b.
Proof.
  induction 1 as [Ha|i ni p Hn Hp _ IH]; [constructor; simpl; rewrite length_app; lia|].
  eapply anc_step; [|done|done]. pose proof (lookup_lt_Some _ _ _ Hn). by rewrite push_lookup, decide_False by lia.
Qed.

Lemma add_block_extends block root delay state status t timing uj uf (f f' : Fork_choice.t T) :
  wf (Fork_choice.tree f) → (Fork_choice.tree f).(ProtoArray.indices) !! root = None →
  add_block (E:=E) spe block root delay state status t timing uj uf f = (Ok tt, f') →
  extended block root (Fork_choice.tree f) (Fork_choice.tree f').
Proof.
  intros Hwf Hnew Hrun. unfold add_block in Hrun. cbv zeta in Hrun.
  apply bind_ok in Hrun as (target & f1 & H1 & Hrun).
  assert (same_rest f f1) as Hs1.
  { enough (keeps (same_rest f) (if block.(BeaconBlock.slot) =? start_slot (epoch block.(BeaconBlock.slot) spe) spe
      then mret root else state_err (E:=E) (get_block_root state (start_slot (epoch block.(BeaconBlock.slot) spe) spe))))
      as Hk by (specialize (Hk f); rewrite H1 in Hk; by apply Hk).
    case_match; [apply keeps_ret|apply same_state_err]. }
  apply bind_ok in Hrun as ([] & f2 & H2 & Hrun).
  assert (same_rest f f2) as Hs2.
  { pose proof (same_on_store (E:=E) f RulesError.AfterBlockFailed (FcStore.on_verified_block root state) f1) as Hk.
    rewrite H2 in Hk. by apply Hk. }
  destruct (execution_status_of _ _ _) as [es| | |]; [|done..]. erewrite bind_ok_eq in Hrun by reflexivity.
  unfold state_err in Hrun.
  destruct (map_err _ (attestation_shuffling_id_new _ _ _ Current)) as [c| | |]; [|done..]. erewrite bind_ok_eq in Hrun by reflexivity.
  destruct (map_err _ (attestation_shuffling_id_new _ _ _ Next)) as [n| | |]; [|done..]. erewrite bind_ok_eq in Hrun by reflexivity.
  match type of Hrun with on_fc _ (process_block _ ?b _) _ = _ => set (B := b) in Hrun end.
  unfold on_fc, process_block in Hrun.
  assert (Fork_choice.tree f2 = Fork_choice.tree f) as Htree.
  { unfold Fork_choice.tree, Fork_choice.fc. by destruct Hs2 as (-> & _). }
  rewrite bool_decide_eq_false_2 in Hrun by done. unfold on_array in Hrun. cbv beta in Hrun.
  change ((Fork_choice.fc f2).(ForkChoice.proto_array)) with (Fork_choice.tree f2) in Hrun.
  rewrite Htree in Hrun. simpl in Hrun.
  destruct (on_block spe B t (Fork_choice.tree f)) as [[[]| | |] pa'] eqn:Hon; try discriminate Hrun.
  injection Hrun as <-. apply on_block_pushes in Hon as [Hfr _]; [|done|done].
  unfold extended.
  change (Fork_choice.tree (Fork_choice.set_fc (ForkChoice.set_proto_array pa' (Fork_choice.fc f2)) f2)) with pa'.
  set (pa := Fork_choice.tree f) in *.
  pose proof (frame_length _ _ Hfr) as Hlen. simpl in Hlen. rewrite length_app in Hlen. simpl in Hlen.
  split; [by destruct Hfr as [_ <-]|].
  destruct (frame_lookup _ _ (length pa.(ProtoArray.nodes)) (node_of_block pa B) Hfr) as (nj & Hnj & Hst).
  { by rewrite push_lookup, decide_True. }
  exists nj. split_and!; [done|by rewrite <-(static_slot _ _ Hst)|by rewrite <-(static_parent _ _ Hst)|lia| |].
  - intros i ni Hi. destruct (frame_lookup _ _ i ni Hfr) as (ni' & Hni' & Hs).
    + pose proof (lookup_lt_Some _ _ _ Hi). by rewrite push_lookup, decide_False by lia.
    + by exists ni'.
  - intros a b Hab. destruct Hfr as [Hsame _]. eapply anc_same; [exact Hsame|]. by apply push_anc.
Qed.

(** A block on top of the finalized one. *)
Definition accepted (block : BeaconBlock.t) (root : Hash256) (t : Slot) (f f' : Fork_choice.t T) : Prop :=
  let fin := FcStore.finalized_checkpoint f.(Fork_choice.fc_store) in
  let finalized_slot := start_slot fin.(Checkpoint.epoch) spe in
  let pa' := Fork_choice.tree f' in
  finalized_slot < block.(BeaconBlock.slot) ≤ t ∧ extended block root (Fork_choice.tree f) pa' ∧
  ∃ i j n, pa'.(ProtoArray.indices) !! fin.(Checkpoint.root) = Some i ∧ pa'.(ProtoArray.indices) !! root = Some j ∧
    pa'.(ProtoArray.nodes) !! i = Some n ∧ n.(ProtoNode.slot) ≤ finalized_slot ∧
    anc pa'.(ProtoArray.nodes) i j.

Lemma accepted_intro block root t f f' : wf (Fork_choice.tree f) →
  (Fork_choice.tree f).(ProtoArray.indices) !! root = None →
  let fin := FcStore.finalized_checkpoint f.(Fork_choice.fc_store) in
  let finalized_slot := start_slot fin.(Checkpoint.epoch) spe in
  finalized_slot < block.(BeaconBlock.slot) ≤ t →
  get_ancestor (E:=E) f block.(BeaconBlock.parent_root) finalized_slot = Ok (Some fin.(Checkpoint.root)) →
  extended block root (Fork_choice.tree f) (Fork_choice.tree f') → accepted block root t f f'.
Proof.
  intros Hwf Hnew fin fs Hslot Hga Hext. split; [done|]. split; [done|].
  apply get_ancestor_anc in Hga as (i & p & n & Hi & Hp & Hn & Hs & Ha); [|apply (wf_tree _ Hwf)].
  destruct Hext as (Hix & nj & Hnj & _ & Hpar & _ & Hold & Hanc).
  destruct (Hold i n Hn) as (n' & Hn' & Hst).
  exists i, (length (Fork_choice.tree f).(ProtoArray.nodes)), n'. rewrite Hix. split_and!.
  - rewrite lookup_insert_ne; [done|]. intros Heq. rewrite Heq in Hnew. fold fin in Hnew. congruence.
  - by rewrite lookup_insert_eq.
  - done.
  - by rewrite (static_slot _ _ Hst).
  - eapply anc_step; [exact Hnj|by rewrite Hpar|]. by apply Hanc.
Qed.
End verdicts.


Definition rx_try (now slot : Slot) : outcome (RulesError.t FcStoreError.t) unit * Fork_choice.t BeaconForkChoiceStore.t :=
  rules_on_block (E:=FcStoreError.t) rx_spe rx_statuses now (rx_block slot slot) (100 + slot) 0 (rx_state slot)
    PayloadVerificationStatus.Optimistic (Some slot) rx_spec rx_timing (rx_run [rx_on_block 1 1 0]).
Lemma rx_try_ok : (rx_try 2 2).1 = Ok tt ∧ contains_block (Fork_choice.fc (rx_run [rx_on_block 1 1 0])) 102 = false.
Proof. vm_compute. done. Qed.
Lemma rx_try_early : (rx_try 1 2).1 = Err (RulesError.InvalidBlock (InvalidFcBlock.FutureSlot 1 2)).
Proof. vm_compute. done. Qed.

