(* ===== verification/StoreRules.v ===== *)
(** * Balances, slashings, payload votes and restarts

    The justified balances the store hands to the fork choice, the equivocators of
    an attester slashing, the quorum of payload attestations, and a client that
    is stored and loaded. *)
From Stdlib Require Import Sorted.
From S2P Require Import Prelude SlotEpoch ProtoArrayDefs ProtoArrayWf ProtoArrayExec ForkChoiceDefs ForkChoiceOps.
From S2P Require Import GloasDefs ForkChoiceMaintenance ForkSchedule BeaconStateDefs JustificationDefs FcStoreDefs ForkChoiceRules.
From S2P Require Import FcStoreCorrect StoreSteps.

(** ** Justified balances *)

(** What a validator counts for in the epoch of a state. *)
Definition counted_balance (e : Epoch) (v : Validator.t) : option Z :=
  if negb v.(Validator.slashed) && Validator.is_active_at v e then Some v.(Validator.effective_balance) else None.
Definition state_counts (spe : Z) (s : BeaconState.t) : list (option Z) :=
  counted_balance (state_current_epoch spe s) <$> s.(BeaconState.validators).

Lemma sum_balances_map {A} (f : A → option Z) l t n : sum_balances f l t n = sum_balances id (f <$> l) t n.
Proof.
  revert t n. induction l as [|x l IH]; intros t n; [done|]. simpl. destruct (f x); [|apply IH].
  unfold mbind, outcome_bind. destruct (safe_add t z); [|done..]. destruct (safe_add n 1); [|done..]. apply IH.
Qed.

Lemma balances_of_counts spe s : balances_of_state spe s =
  ('(total, num) ← sum_balances id (state_counts spe s) 0 0;
   Ok (JustifiedBalances.mk (default 0 <$> state_counts spe s) total num)).
Proof.
  unfold balances_of_state, from_justified_state, state_counts. rewrite sum_balances_map.
  rewrite <-list_fmap_compose. done.
Qed.

(** Dropping the zeroes changes no sum where no counted balance is zero. *)
Lemma sum_balances_nonzero l t n : (∀ b, Some b ∈ l → b ≠ 0) →
  sum_balances (fun b => if b =? 0 then None else Some b) (default 0 <$> l) t n = sum_balances id l t n.
Proof.
  intros Hl. revert t n. induction l as [|[b|] l IH]; intros t n; [done|..]; simpl.
  - rewrite (proj2 (Z.eqb_neq _ _)) by (apply Hl; set_solver). unfold mbind, outcome_bind.
    destruct (safe_add t b); [|done..]. destruct (safe_add n 1); [|done..]. apply IH. set_solver.
  - apply IH. set_solver.
Qed.

Lemma cached_counts spe s b : (∀ x, Some x ∈ state_counts spe s → x ≠ 0) → balances_of_state spe s = Ok b →
  from_effective_balances b.(JustifiedBalances.effective_balances) = Ok b.
Proof.
  intros Hpos. rewrite balances_of_counts. unfold from_effective_balances, mbind, outcome_bind.
  destruct (sum_balances id _ 0 0) as [[total num]| | |] eqn:Hs; [|done..]. intros [= <-]. simpl.
  by rewrite sum_balances_nonzero, Hs.
Qed.

(** *** The cache *)
Section cache.
Context (spe : Z).
Implicit Types (c : BalancesCache.t) (item : CacheItem.t).
Definition key_is (r : Hash256) (e : Epoch) item : Prop := item.(CacheItem.block_root) = r ∧ item.(CacheItem.epoch) = e.

(** The item of a key with at most [k] items behind it. *)
Definition cached_at (r : Hash256) (e : Epoch) (bs : list Z) (k : nat) c : Prop :=
  ∃ pre post, c = pre ++ CacheItem.mk r e bs :: post ∧ (length post ≤ k)%nat ∧
    Forall (fun i => ¬ key_is r e i) pre ∧ (length c ≤ MAX_BALANCE_CACHE_SIZE)%nat.

Lemma cached_at_get r e bs k c : cached_at r e bs k c → BalancesCache.get c r e = Some bs.
Proof.
  intros (pre & post & -> & _ & Hpre & _). unfold BalancesCache.get, BalancesCache.position.
  assert (list_find (fun item => item.(CacheItem.block_root) = r ∧ item.(CacheItem.epoch) = e)
    (pre ++ CacheItem.mk r e bs :: post) = Some (length pre, CacheItem.mk r e bs)) as ->.
  { apply list_find_Some. split_and!; [by apply list_lookup_middle|done|done|].
    intros j y Hj Hlt. rewrite lookup_app_l in Hj by done. rewrite Forall_lookup in Hpre. by apply (Hpre j). }
  change ((pre ++ CacheItem.mk r e bs :: post) !! length pre ≫= (fun item => Some item.(CacheItem.balances)) = Some bs).
  by rewrite list_lookup_middle.
Qed.

(** The state's own key. *)
Definition boundary (root : Hash256) (s : BeaconState.t) : outcome BeaconStateError.t Hash256 :=
  let slot := start_slot (state_current_epoch spe s) spe in
  if slot =? s.(BeaconState.slot) then Ok root else get_block_root s slot.

Lemma process_state_run root s c :
  BalancesCache.process_state spe root s c =
  match boundary root s with
  | Ok r =>
      let e := state_current_epoch spe s in
      match BalancesCache.position c r e with
      | Some _ => (Ok tt, c)
      | None =>
          match balances_of_state spe s with
          | Ok b => (Ok tt, (if (length c =? MAX_BALANCE_CACHE_SIZE)%nat then tail c else c) ++
                            [CacheItem.mk r e b.(JustifiedBalances.effective_balances)])
          | Err x => (Err (FcStoreError.Arith x), c)
          | Panic => (Panic, c)
          | Diverge => (Diverge, c)
          end
      end
  | Err x => (Err (FcStoreError.BeaconStateError x), c)
  | Panic => (Panic, c)
  | Diverge => (Diverge, c)
  end.
Proof.
  unfold BalancesCache.process_state, boundary. cbv zeta. destruct (_ =? _).
  - unfold mbind, M_bind, get, lift. simpl. destruct (BalancesCache.position _ _ _); [done|].
    by destruct (balances_of_state spe s).
  - unfold mbind, M_bind, get, lift. destruct (get_block_root _ _); [|done..]. simpl.
    destruct (BalancesCache.position _ _ _); [done|]. by destruct (balances_of_state spe s).
Qed.

Lemma position_none c r e : BalancesCache.position c r e = None ↔ Forall (fun i => ¬ key_is r e i) c.
Proof. unfold BalancesCache.position. rewrite fmap_None, list_find_None. done. Qed.

Lemma process_state_keeps r e bs k c root s : (S k < MAX_BALANCE_CACHE_SIZE)%nat → cached_at r e bs k c →
  cached_at r e bs (S k) (BalancesCache.process_state spe root s c).2.
Proof.
  intros Hk (pre & post & -> & Hpost & Hpre & Hlen).
  assert (cached_at r e bs (S k) (pre ++ CacheItem.mk r e bs :: post)) as Hsame.
  { exists pre, post. split_and!; [done|lia|done|done]. }
  rewrite process_state_run. destruct (boundary root s); [|done..]. cbv zeta. destruct (BalancesCache.position _ _ _); [done|].
  destruct (balances_of_state spe s) as [b| | |]; [|done..]. simpl. rewrite length_app in *. simpl in *.
  set (new := CacheItem.mk _ (state_current_epoch spe s) _).
  destruct (Nat.eqb_spec (length pre + S (length post)) MAX_BALANCE_CACHE_SIZE) as [Hfull|Hroom].
  - destruct pre as [|x pre]; [simpl in *; lia|]. exists pre, (post ++ [new]). simpl in *.
    rewrite length_app. split_and!; [by rewrite <-app_assoc|simpl; lia|by apply Forall_inv_tail in Hpre|].
    rewrite !length_app. simpl. rewrite ?length_app. simpl. lia.
  - exists pre, (post ++ [new]). rewrite length_app. split_and!; [by rewrite <-app_assoc|simpl; lia|done|].
    rewrite !length_app. simpl. rewrite ?length_app. simpl. lia.
Qed.

Lemma process_state_new r s c b root :
  boundary root s = Ok r → BalancesCache.position c r (state_current_epoch spe s) = None →
  (length c ≤ MAX_BALANCE_CACHE_SIZE)%nat → balances_of_state spe s = Ok b →
  cached_at r (state_current_epoch spe s) b.(JustifiedBalances.effective_balances) 0
    (BalancesCache.process_state spe root s c).2.
Proof.
  intros Hr Hpos Hlen Hb. rewrite process_state_run, Hr. cbv zeta. rewrite Hpos, Hb. simpl.
  exists (if (length c =? MAX_BALANCE_CACHE_SIZE)%nat then tail c else c), []. apply position_none in Hpos. split_and!.
  - done.
  - done.
  - case_match; [|done]. destruct c; [done|]. by apply Forall_inv_tail in Hpos.
  - rewrite length_app. simpl. destruct (Nat.eqb_spec (length c) MAX_BALANCE_CACHE_SIZE); [destruct c; unfold MAX_BALANCE_CACHE_SIZE in *; simpl in *; lia|lia].
Qed.

(** The cache after the states of later blocks. *)
Definition process_states (l : list (Hash256 * BeaconState.t)) c : BalancesCache.t :=
  fold_left (fun c '(root, s) => (BalancesCache.process_state spe root s c).2) l c.

Lemma process_states_keep r e bs l k c : (k + length l < MAX_BALANCE_CACHE_SIZE)%nat → cached_at r e bs k c →
  cached_at r e bs (k + length l) (process_states l c).
Proof.
  revert k c. induction l as [|[root s] l IH]; intros k c Hk Hc; simpl in *; [by rewrite Nat.add_0_r|].
  replace (k + S (length l))%nat with (S k + length l)%nat by lia. apply IH; [lia|]. apply process_state_keeps; [lia|done].
Qed.
End cache.

(** The balances that come from the cache are those of the justified state:
    if the state that made the entry counts every validator as the justified
    state does, and no counted balance is zero, then justifying the checkpoint
    sets exactly the balances of the justified state, without a read from the
    database, as long as fewer than four states of later blocks came in
    between. *)
Theorem cached_balances_exact spe db root st st0 r later c b state_root (s : BeaconForkChoiceStore.t) :
  let e := state_current_epoch spe st in
  boundary spe root st = Ok r → (length c ≤ MAX_BALANCE_CACHE_SIZE)%nat → BalancesCache.position c r e = None →
  state_counts spe st = state_counts spe st0 → (∀ x, Some x ∈ state_counts spe st0 → x ≠ 0) →
  balances_of_state spe st0 = Ok b → (length later < MAX_BALANCE_CACHE_SIZE)%nat →
  s.(BeaconForkChoiceStore.balances_cache) =
    process_states spe later (BalancesCache.process_state spe root st c).2 →
  ∃ s', store_set_justified_checkpoint spe db (Checkpoint.mk e r) state_root s = (Ok tt, s') ∧
    s'.(BeaconForkChoiceStore.justified_balances) = b ∧
    s'.(BeaconForkChoiceStore.justified_checkpoint) = Checkpoint.mk e r.
Proof.
  intros e Hr Hlen Hpos Hcounts Hnz Hb Hlater Hcache.
  assert (balances_of_state spe st = Ok b) as Hst by (by rewrite <-Hb, !balances_of_counts, Hcounts).
  pose proof (process_state_new spe r st c b root Hr Hpos Hlen Hst) as Hnew.
  apply (process_states_keep spe _ _ _ later) in Hnew; [|done]. rewrite <-Hcache in Hnew.
  apply cached_at_get in Hnew. fold e in Hnew. unfold store_set_justified_checkpoint.
  erewrite bind_ok_eq by reflexivity. erewrite bind_ok_eq by reflexivity. simpl. rewrite Hnew.
  rewrite (cached_counts spe st0 b Hnz Hb). simpl. eexists. split; [reflexivity|]. done.
Qed.


(** A slashing within the epoch breaks the premise: the cache takes the
    balances of the first state it sees in the epoch, and a validator slashed
    by then counts for nothing there.  Here the state at slot 9 has slashed
    validator 0; with its entry in the cache the justified balances leave
    validator 0 out, while the justified state at slot 8 counts it. *)
Theorem slashing_changes_cached_balances :
  let slashed := BeaconState.set_validators (rx_validator_with 3200 true :: replicate 2 rx_validator) (rx_state 9) in
  let db := fun root => Some (if root =? 508 then Some (rx_state 8) else None) in
  let justify cache := ((store_set_justified_checkpoint rx_spe db (Checkpoint.mk 1 108) 508
      (BeaconForkChoiceStore.set_cache cache rx_store)).2).(BeaconForkChoiceStore.justified_balances) in
  (justify []).(JustifiedBalances.effective_balances) = [3200; 3200; 3200] ∧
  (justify (BalancesCache.process_state rx_spe 109 slashed []).2).(JustifiedBalances.effective_balances) = [0; 3200; 3200].
Proof. vm_compute. done. Qed.

(** A justified state that cannot be read leaves the store with the new
    checkpoint and the balances of the old one, and nothing reads them again:
    the failed [on_tick] at the start of epoch 1 has set the checkpoint, so later
    ticks find it up to date, also when the database answers. *)
Theorem failed_justification_keeps_stale_balances :
  let pending := Fork_choice.set_store
    (BeaconForkChoiceStore.set_unrealized_justified (Checkpoint.mk 1 108) 508 rx_anchor.(Fork_choice.fc_store)) rx_anchor in
  let halved := BeaconState.set_validators (replicate 3 (rx_validator_with 1600 false)) (rx_state 8) in
  let down := BeaconStore rx_spe (fun _ => None) in
  let up := BeaconStore rx_spe (fun root => Some (if root =? 508 then Some halved else None)) in
  let failed := update_time (H := down) rx_spe 8 pending in
  let later := update_time (H := up) rx_spe 12 failed.2 in
  failed.1 = Err (RulesError.UnableToSetJustifiedCheckpoint FcStoreError.FailedToReadState) ∧ later.1 = Ok 12 ∧
  later.2.(Fork_choice.fc_store).(BeaconForkChoiceStore.justified_checkpoint) = Checkpoint.mk 1 108 ∧
  later.2.(Fork_choice.fc_store).(BeaconForkChoiceStore.justified_balances) = JustifiedBalances.mk [3200; 3200; 3200] 9600 3 ∧
  balances_of_state rx_spe halved = Ok (JustifiedBalances.mk [1600; 1600; 1600] 4800 3).
Proof. vm_compute. done. Qed.

(** ** Equivocating validators *)
Lemma merge_walk_elem fuel l1 l2 x : StronglySorted lt l1 → StronglySorted lt l2 →
  (length l1 + length l2 ≤ fuel)%nat → x ∈ merge_walk fuel l1 l2 ↔ x ∈ l1 ∧ x ∈ l2.
Proof.
  revert l1 l2. induction fuel as [|fuel IH]; intros l1 l2 H1 H2 Hf.
  { destruct l1; [|simpl in *; lia]. simpl. set_solver. }
  destruct l1 as [|a l1]; [simpl; set_solver|]. destruct l2 as [|b l2]; [simpl; set_solver|].
  apply StronglySorted_inv in H1 as [Hs1 Ha]. apply StronglySorted_inv in H2 as [Hs2 Hb].
  pose proof (proj1 (list.Forall_forall _ _) Ha) as Ha'. pose proof (proj1 (list.Forall_forall _ _) Hb) as Hb'.
  simpl in Hf |- *. rewrite !elem_of_cons.
  destruct (Nat.compare_spec a b) as [->|Hlt|Hgt].
  - rewrite elem_of_cons, IH by (done || lia). naive_solver.
  - rewrite IH by (done || (by apply SSorted_cons) || (simpl; lia)). rewrite elem_of_cons.
    split; [naive_solver|]. intros [[->|?] Hx]; [|done]. destruct Hx as [?|Hx]; [lia|]. specialize (Hb' _ Hx). lia.
  - rewrite IH by (done || (by apply SSorted_cons) || (simpl; lia)). rewrite elem_of_cons.
    split; [naive_solver|]. intros [Hx [->|?]]; [|done]. destruct Hx as [?|Hx]; [lia|]. specialize (Ha' _ Hx). lia.
Qed.

(** An attester slashing marks exactly the validators that signed both
    attestations, and touches nothing else.  The indices of an attestation are
    sorted and distinct, which is what the merge walk needs. *)
Theorem slashing_marks_double_voters {T E} `{!FcStore.ForkChoiceStore T E} `{!FcStore.Laws T E} l1 l2 (f : Fork_choice.t T) :
  StronglySorted lt l1 → StronglySorted lt l2 →
  ∃ f', on_attester_slashing (E:=E) l1 l2 f = (Ok tt, f') ∧ same_rest f f' ∧
    FcStore.view f'.(Fork_choice.fc_store) = FcStore.set_equivocating
      (FcStore.equivocating_indices f.(Fork_choice.fc_store) ∪ (list_to_set l1 ∩ list_to_set l2))
      (FcStore.view f.(Fork_choice.fc_store)).
Proof.
  intros H1 H2. eexists. split; [reflexivity|]. split; [done|]. simpl. rewrite FcStore.view_extend. do 2 f_equal.
  apply set_eq. intros x. rewrite elem_of_intersection, !elem_of_list_to_set. by apply merge_walk_elem.
Qed.


(** ** Payload attestations *)
Section payload.
Context {T E : Type}.
Context (spe : Z).
Abbreviation nodes f := (Fork_choice.tree f).(ProtoArray.nodes).

(** The votes of a list of payload attestations. *)
Definition votes_in (field : PayloadAttestationData.t → bool) (l : list (PayloadAttestationData.t * list nat)) : Z :=
  foldr (fun '(d, ix) acc => (if field d then Z.of_nat (length ix) else 0) + acc) 0 l.

Lemma votes_in_nonneg field l : 0 ≤ votes_in field l.
Proof. induction l as [|[d ix] l IH]; simpl; [done|]. destruct (field d); lia. Qed.

(** A node and the threshold agree on what has been reached. *)
Definition quorum_ok (q : Z) (n : ProtoNode.t) : Prop :=
  (n.(ProtoNode.payload_revealed) = false → n.(ProtoNode.ptc_weight) ≤ q) ∧
  (n.(ProtoNode.payload_data_available) = false → n.(ProtoNode.ptc_blob_data_available_weight) ≤ q).

(** What the votes make of a node. *)
Definition voted (q present available : Z) (n n' : ProtoNode.t) : Prop :=
  n'.(ProtoNode.slot) = n.(ProtoNode.slot) ∧
  n'.(ProtoNode.ptc_weight) = n.(ProtoNode.ptc_weight) + present ∧
  n'.(ProtoNode.ptc_blob_data_available_weight) = n.(ProtoNode.ptc_blob_data_available_weight) + available ∧
  n'.(ProtoNode.payload_revealed) = n.(ProtoNode.payload_revealed) || (q <? n'.(ProtoNode.ptc_weight)) ∧
  n'.(ProtoNode.payload_data_available) =
    n.(ProtoNode.payload_data_available) || (q <? n'.(ProtoNode.ptc_blob_data_available_weight)).

Lemma payload_votes_step q (p a : bool) k n : 0 ≤ k → 0 ≤ n.(ProtoNode.ptc_weight) → 0 ≤ n.(ProtoNode.ptc_blob_data_available_weight) →
  n.(ProtoNode.ptc_weight) + (if p then k else 0) ≤ u64_max →
  n.(ProtoNode.ptc_blob_data_available_weight) + (if a then k else 0) ≤ u64_max → quorum_ok q n →
  voted q (if p then k else 0) (if a then k else 0) n (apply_payload_votes p a k q n) ∧
  quorum_ok q (apply_payload_votes p a k q n).
Proof.
  intros Hk Hw Hb Hwm Hbm [Hq1 Hq2]. unfold apply_payload_votes, voted, quorum_ok. simpl.
  assert ((if p then u64_saturating_add n.(ProtoNode.ptc_weight) k else n.(ProtoNode.ptc_weight)) =
    n.(ProtoNode.ptc_weight) + (if p then k else 0)) as ->.
  { destruct p; [apply u64_saturating_add_eq; unfold is_u64; lia|lia]. }
  assert ((if a then u64_saturating_add n.(ProtoNode.ptc_blob_data_available_weight) k
           else n.(ProtoNode.ptc_blob_data_available_weight)) =
    n.(ProtoNode.ptc_blob_data_available_weight) + (if a then k else 0)) as ->.
  { destruct a; [apply u64_saturating_add_eq; unfold is_u64; lia|lia]. }
  destruct n.(ProtoNode.payload_revealed), n.(ProtoNode.payload_data_available);
    rewrite ?andb_false_r, ?andb_true_r, ?orb_false_r; simpl; rewrite ?orb_true_r;
    (split; [repeat split; done|]); split; intros Hf; try done; by apply Z.ltb_ge in Hf.
Qed.

Lemma voted_trans q p1 a1 p2 a2 n n1 n2 : 0 ≤ p2 → 0 ≤ a2 →
  voted q p1 a1 n n1 → voted q p2 a2 n1 n2 → voted q (p1 + p2) (a1 + a2) n n2.
Proof.
  intros Hp Ha (S1 & W1 & B1 & R1 & A1) (S2 & W2 & B2 & R2 & A2). unfold voted.
  split_and!; [congruence|lia|lia|rewrite R2, R1|rewrite A2, A1]; rewrite <-orb_assoc; f_equal;
    apply eq_bool_prop_intro; rewrite orb_True, !Is_true_true, !Z.ltb_lt; lia.
Qed.

Lemma payload_attestation_run d ix now spec r i n (f : Fork_choice.t T) :
  (Fork_choice.tree f).(ProtoArray.indices) !! r = Some i → nodes f !! i = Some n →
  d.(PayloadAttestationData.beacon_block_root) = r → d.(PayloadAttestationData.slot) = n.(ProtoNode.slot) →
  n.(ProtoNode.slot) ≤ now ≤ n.(ProtoNode.slot) + spe → is_u64 (n.(ProtoNode.slot) + spe) →
  on_payload_attestation (E:=E) spe d ix now spec f =
  alter_tree_node (apply_payload_votes d.(PayloadAttestationData.payload_present)
    d.(PayloadAttestationData.blob_data_available) (Z.of_nat (length ix)) (spec.(ChainSpec.ptc_size) / 2)) i f.
Proof.
  intros Hi Hn Hr Hs Hnow Hu. unfold on_payload_attestation. rewrite Hs, Hr.
  rewrite (proj2 (Z.ltb_ge _ _)) by lia. unfold se_add. rewrite u64_saturating_add_eq by done.
  rewrite (proj2 (Z.ltb_ge _ _)) by lia. unfold node_index.
  rewrite (bind_ok_eq _ _ _ (i, n) f); [by rewrite Z.eqb_refl|].
  erewrite bind_ok_eq by reflexivity. rewrite Hi. erewrite bind_ok_eq by reflexivity. rewrite Hn. done.
Qed.

(** Payload attestations for one block, one after the other. *)
Definition attest_payloads (now : Slot) (spec : ChainSpec.t) (l : list (PayloadAttestationData.t * list nat))
    : M (Fork_choice.t T) (RulesError.t E) unit :=
  for_each l (fun m => on_payload_attestation spe m.1 m.2 now spec).

Lemma attest_payloads_run now spec r i l : ∀ n (f : Fork_choice.t T),
  (Fork_choice.tree f).(ProtoArray.indices) !! r = Some i → nodes f !! i = Some n →
  Forall (fun m => m.1.(PayloadAttestationData.beacon_block_root) = r ∧
                   m.1.(PayloadAttestationData.slot) = n.(ProtoNode.slot)) l →
  n.(ProtoNode.slot) ≤ now ≤ n.(ProtoNode.slot) + spe → is_u64 (n.(ProtoNode.slot) + spe) →
  0 ≤ n.(ProtoNode.ptc_weight) → 0 ≤ n.(ProtoNode.ptc_blob_data_available_weight) →
  n.(ProtoNode.ptc_weight) + votes_in PayloadAttestationData.payload_present l ≤ u64_max →
  n.(ProtoNode.ptc_blob_data_available_weight) + votes_in PayloadAttestationData.blob_data_available l ≤ u64_max →
  quorum_ok (spec.(ChainSpec.ptc_size) / 2) n →
  ∃ f' n', attest_payloads now spec l f = (Ok tt, f') ∧ nodes f' !! i = Some n' ∧
    voted (spec.(ChainSpec.ptc_size) / 2) (votes_in PayloadAttestationData.payload_present l)
      (votes_in PayloadAttestationData.blob_data_available l) n n' ∧ (∀ j, j ≠ i → nodes f' !! j = nodes f !! j).
Proof.
  induction l as [|[d ix] l IH]; intros n f Hi Hn Hl Hnow Hu Hw Hb Hwm Hbm Hq; simpl in *.
  { exists f, n. split_and!; try done; unfold voted; split_and!; try lia.
    - destruct Hq as [Hq _]. destruct n.(ProtoNode.payload_revealed); [done|]. simpl. symmetry. apply Z.ltb_ge. auto.
    - destruct Hq as [_ Hq]. destruct n.(ProtoNode.payload_data_available); [done|]. simpl. symmetry. apply Z.ltb_ge. auto. }
  apply Forall_cons_1 in Hl as [[Hr Hs] Hl]. simpl in Hr, Hs.
  pose proof (votes_in_nonneg PayloadAttestationData.payload_present l) as Hnp.
  pose proof (votes_in_nonneg PayloadAttestationData.blob_data_available l) as Hna.
  destruct (payload_votes_step (spec.(ChainSpec.ptc_size) / 2) d.(PayloadAttestationData.payload_present)
    d.(PayloadAttestationData.blob_data_available) (Z.of_nat (length ix)) n) as [Hv Hq1]; [lia|done|done|lia|lia|done|].
  set (g := apply_payload_votes _ _ _ _) in *.
  set (f1 := (alter_tree_node (E:=E) g i f).2).
  assert (nodes f1 !! i = Some (g n)) as Hn1 by (simpl; by rewrite list_lookup_alter_eq, Hn).
  destruct Hv as (S1 & W1 & B1 & R1 & A1).
  destruct (IH (g n) f1) as (f' & n' & Hrun & Hn' & Hv' & Hother); try done; rewrite ?S1, ?W1, ?B1; try done;
    try (destruct (PayloadAttestationData.payload_present d), (PayloadAttestationData.blob_data_available d); lia).
  exists f', n'. split_and!.
  - unfold attest_payloads in *. simpl. rewrite (bind_ok_eq _ _ _ tt f1); [done|].
    by rewrite (payload_attestation_run d ix now spec r i n f).
  - done.
  - by eapply voted_trans.
  - intros j Hj. rewrite Hother by done. simpl. by rewrite list_lookup_alter_ne.
Qed.
End payload.

(** Payload attestations for a block add up: after any sequence of them
    that are for the block's slot and handed in within an epoch of it, the block
    counts as revealed exactly if it did before or more than half of the
    committee voted that the payload was present, and likewise for the blob
    data.  Other blocks are untouched. *)
Theorem payload_revealed_by_quorum {T E} spe spec now r i n l (f : Fork_choice.t T) :
  let q := spec.(ChainSpec.ptc_size) / 2 in
  (Fork_choice.tree f).(ProtoArray.indices) !! r = Some i → (Fork_choice.tree f).(ProtoArray.nodes) !! i = Some n →
  Forall (fun m => m.1.(PayloadAttestationData.beacon_block_root) = r ∧
                   m.1.(PayloadAttestationData.slot) = n.(ProtoNode.slot)) l →
  n.(ProtoNode.slot) ≤ now ≤ n.(ProtoNode.slot) + spe → is_u64 (n.(ProtoNode.slot) + spe) →
  0 ≤ n.(ProtoNode.ptc_weight) → 0 ≤ n.(ProtoNode.ptc_blob_data_available_weight) →
  n.(ProtoNode.ptc_weight) + votes_in PayloadAttestationData.payload_present l ≤ u64_max →
  n.(ProtoNode.ptc_blob_data_available_weight) + votes_in PayloadAttestationData.blob_data_available l ≤ u64_max →
  quorum_ok q n →
  ∃ f' n', attest_payloads (E:=E) spe now spec l f = (Ok tt, f') ∧
    (Fork_choice.tree f').(ProtoArray.nodes) !! i = Some n' ∧
    (n'.(ProtoNode.payload_revealed) = true ↔ n.(ProtoNode.payload_revealed) = true ∨
       q < n.(ProtoNode.ptc_weight) + votes_in PayloadAttestationData.payload_present l) ∧
    (n'.(ProtoNode.payload_data_available) = true ↔ n.(ProtoNode.payload_data_available) = true ∨
       q < n.(ProtoNode.ptc_blob_data_available_weight) + votes_in PayloadAttestationData.blob_data_available l) ∧
    ∀ j, j ≠ i → (Fork_choice.tree f').(ProtoArray.nodes) !! j = (Fork_choice.tree f).(ProtoArray.nodes) !! j.
Proof.
  intros q Hi Hn Hl Hnow Hu Hw Hb Hwm Hbm Hq.
  destruct (attest_payloads_run (E:=E) spe now spec r i l n f) as (f' & n' & Hrun & Hn' & Hv & Hother); try done.
  destruct Hv as (_ & W & B & R & A). exists f', n'. split_and!; [done|done|..|done].
  - rewrite R, orb_true_iff, Z.ltb_lt, W. done.
  - rewrite A, orb_true_iff, Z.ltb_lt, B. done.
Qed.

Definition rx_ptc (present : bool) (votes : list nat) : PayloadAttestationData.t * list nat :=
  (PayloadAttestationData.mk 101 1 present true, votes).
Definition rx_ptc_spec : ChainSpec.t := ChainSpec.mk (Some 40) (Some 20) (Some 0) 4.
Definition rx_one : Fork_choice.t BeaconForkChoiceStore.t := rx_run [rx_on_block 1 1 0].
Lemma rx_one_node : ∃ n, (Fork_choice.tree rx_one).(ProtoArray.indices) !! 101 = Some 1%nat ∧
  (Fork_choice.tree rx_one).(ProtoArray.nodes) !! 1%nat = Some n ∧ n.(ProtoNode.slot) = 1 ∧
  n.(ProtoNode.ptc_weight) = 0 ∧ n.(ProtoNode.ptc_blob_data_available_weight) = 0.
Proof. eexists. vm_compute. done. Qed.


(** ** Restart *)


Definition rx_loaded (store' : BeaconForkChoiceStore.t) : Fork_choice.t BeaconForkChoiceStore.t :=
  Fork_choice.mk store' (GloasState.mk (ForkChoice.mk (Fork_choice.tree rx_one) (Fork_choice.fc rx_one).(ForkChoice.votes)
    rx_one.(Fork_choice.fc_store).(BeaconForkChoiceStore.justified_balances) None) empty_buffers)
    rx_one.(Fork_choice.queued_attestations) ForkchoiceUpdateParameters.initial.
Lemma rx_restart :
  match store_from_persisted rx_spe rx_db (store_to_persisted rx_one.(Fork_choice.fc_store)) with
  | Ok s => let '(r, f') := get_head (E:=FcStoreError.t) rx_spe 1 rx_spec (rx_loaded s) in
            r = Ok 101 ∧ (cached_fork_choice_view f').(ForkChoiceView.head_block_root) = 101
  | _ => False
  end.
Proof. vm_compute. done. Qed.
Lemma rx_one_valid : contains_invalid_payloads (Fork_choice.fc rx_one) = false ∧
  read_state rx_db rx_one.(Fork_choice.fc_store).(BeaconForkChoiceStore.justified_state_root) = Ok (rx_state 0) ∧
  balances_of_state rx_spe (rx_state 0) = Ok rx_one.(Fork_choice.fc_store).(BeaconForkChoiceStore.justified_balances) ∧
  rx_one.(Fork_choice.fc_store).(BeaconForkChoiceStore.time) = 1.
Proof. vm_compute. done. Qed.

